(* ===== verification/_CoqProject ===== *)
-Q . S2P
Prelude.v
Utf8.v
HadKey.v
Search.v
NavKvFormat.v
NavKvDelta.v
NavKvRead.v
NavKvBuild.v
NavKvTree.v
NavKvLookup.v
NavKvBuildCorrect.v
NavKvPrefetch.v
NavKvCorrect.v
NavKvBounds.v
NavKvStore.v
NavKvStoreCorrect.v
ProcedureKeys.v
ProcedureKeysCorrect.v
NotamRecord.v
NotamState.v
NotamIndex.v
NotamRefine.v
NotamCorrect.v
NotamCatalog.v
NotamCatalogCorrect.v
UiWorkScheduler.v
UiWorkCorrect.v
ReceiverFraming.v
ReceiverProtocol.v
ReceiverFramingCorrect.v
ReceiverApplication.v
ReceiverProtocolSteps.v
ReceiverProtocolCorrect.v
ReceiverCapture.v
ReceiverCaptureCorrect.v
ReceiverConnection.v
ReceiverConnectionCapture.v
ReceiverConnectionCorrect.v
AcsContracts.v
CloudRecords.v
CloudRecordsCorrect.v
CloudAcs.v
DeviceSetupCode.v
CloudEngine.v
CloudActions.v
CloudEngineCorrect.v
CloudEngineReach.v
CloudSyncCorrect.v
CloudExample.v
AcsLimits.v
AcsStoreState.v
AcsStore.v
AcsGc.v
AcsAuth.v
AcsStoreRun.v
AcsStoreInv.v
AcsStoreSteps.v
AcsGcSteps.v
AcsStoreOpen.v
AcsStoreCorrect.v
AcsServer.v
AcsObjects.v
AcsAnswers.v
AcsPolicy.v
AcsHttp.v
AcsAccess.v
AcsHttpCorrect.v
AcsStream.v
AcsServerExample.v
Float64.v
AirwayRouting.v
AirwaySearch.v
AirwayRoutingCorrect.v
ReceiverProducts.v
ReceiverProductsCorrect.v
ReceiverActivity.v
ReceiverRadar.v
ReceiverLive.v
WeatherSources.v
WeatherSourcesCorrect.v
