(* ===== verification/Prelude.v ===== *)
(** * Aerobag: a verified core

    Aerobag is a flight bag. Preprocessors turn published aeronautical data into packages;
    the application core (src/ui/core-rust/crates/app-core) reads the packages, follows
    live feeds, talks to an avionics receiver and serves the user interface. This library
    models the data structures and state machines at the heart of that program and proves
    what makes them correct.

    ** The parts and how they interact

    - Keys (src/crates/had-key). Names are turned into key components and search terms.
      [HadKey].
    - The paged key/value store (src/crates/had-nav-kv). A builder writes sorted pairs as a
      B-tree of fixed-size pages with a root record; readers walk the pages through a
      provider; deltas update a list of pairs; [NavKvStore] answers from the pages fetched
      so far and names those it lacks. [NavKvFormat] (bytes of root, leaf and internal
      pages), [NavKvDelta], [NavKvRead] (the readers, over a page provider with a state of
      its own), [NavKvBuild] (the builder and its prefetch trace), [NavKvStore].
      Proofs: [Search] (binary search of the standard library), [NavKvTree] (the tree a
      page array represents), [NavKvLookup], [NavKvBuildCorrect], [NavKvPrefetch],
      [NavKvCorrect], [NavKvBounds], [NavKvStoreCorrect].
    - The NOTAM state (src/crates/notam-state). Records with an airport index, counters and
      a Merkle tree whose root names the state; loaded from checkpoints, updated by deltas.
      [NotamRecord] (data and validation), [NotamState] (operations).
      Proofs: [NotamIndex], [NotamRefine], [NotamCorrect].
    - The shared contracts (src/crates/product-contracts). [ProcedureKeys]: published
      procedure names and the keys under which instrument procedures and the notices about
      them meet (lib.rs); proofs in [ProcedureKeysCorrect]. [NotamCatalog]: the airports and
      aliases notices are filed against, their identity, and the union of the catalogs of
      several cycles (notam_catalog_identity.rs); proofs in [NotamCatalogCorrect].
    - The UI work schedulers (app-core/src/ui_work_scheduler.rs). [UiWorkScheduler], with
      a module per scheduler; proofs in [UiWorkCorrect].
    - The receiver link (app-core/src/receiver). [ReceiverFraming] (framing.rs: frames,
      application records, reassembly, receive sequence), [ReceiverProtocol] (protocol.rs:
      handshake, acknowledgement, timer). Proofs: [ReceiverFramingCorrect],
      [ReceiverApplication], [ReceiverProtocolSteps] (the protocol as a step relation),
      [ReceiverProtocolCorrect].
    - The receiver's connection owner (connection.rs, with reception.rs and setup.rs) and its
      recordings (capture.rs). The owner turns socket events and ticks into effects for a
      platform adapter, drives the protocol, and records what it does before it does it.
      [ReceiverCapture] (the file format, writer, reader, and the recorder interface),
      [ReceiverConnection] (the owner, one call at a time). Proofs: [ReceiverCaptureCorrect],
      [ReceiverConnectionCapture] (recording does not interfere, and is complete),
      [ReceiverConnectionCorrect] (invariant and contract with the adapter; stale callbacks,
      deadlines, retries, blocking).
    - What the receiver reports. [ReceiverProducts] (the byte reader of mod.rs, products.rs,
      weather.rs: the decoder of every product), [ReceiverActivity] (activity.rs: what was
      received in the last hour, and how it is drawn), [ReceiverRadar] (radar.rs: radar
      products as a bounded history of tiled images), [ReceiverLive] (live.rs, nmea.rs: own
      position, traffic and pressure altitude with the times until which they may be shown).
      The decoder takes the products the protocol delivers; its results go to the other
      three. Proofs: [ReceiverProductsCorrect], and the three files themselves.
    - The weather of stations (app-core/src/weather_sources.rs, crates/weather-observation,
      product-contracts/src/weather_station_catalog.rs). The METARs and TAFs of two sources,
      the Internet feed and the receiver's text products, and a directory of where the
      stations are with a grid to find them by; a METAR is read for its flight category and
      cloud symbol. [WeatherSources]; proofs in [WeatherSourcesCorrect].
    - Cloud synchronisation (app-core/src/cloud.rs, cloud/records.rs, cloud/account_format.rs,
      cloud_acs.rs, device_setup_code.rs, product-contracts/src/aerobag_cloud.rs). A device
      keeps typed records and the keys it has changed; it reads the account's root and page,
      merges them, and publishes its own records by a compare-and-swap of the root; accounts
      of an older format are migrated with the user's consent. [AcsContracts] (what is signed
      and hashed), [CloudRecords] (records, merge, formats), [CloudAcs] (requests and
      responses), [DeviceSetupCode], [CloudEngine] (the engine's workflows), [CloudActions]
      (local edits and user actions). Proofs: [CloudRecordsCorrect] (order, merge,
      migrations, record families), [CloudEngineCorrect] (invariant), [CloudEngineReach] (reachable states), [CloudSyncCorrect] (the guarantees).
      [CloudExample] instantiates the parameters and runs a device.
    - The cloud server (src/services/aerobag-cloud-server/src). Accounts with a fixed root,
      immutable encrypted objects that refer to each other, and a history of root changes
      that clients follow over event streams, behind signed requests and rate limits.
      [AcsLimits] (store.rs: token buckets, rolling counts), [AcsStoreState] (the tables,
      files, memory and world of a store), [AcsStore] (store.rs: every operation that changes
      it), [AcsGc] (store/gc.rs), [AcsAuth] (auth.rs), [AcsPolicy] (policy.rs), [AcsHttp]
      (http.rs: middlewares, handlers, event streams). Proofs: [AcsStoreRun] (what an
      operation may do, composed along the monad), [AcsStoreInv] (invariants of the tables),
      [AcsStoreSteps], [AcsGcSteps] and [AcsStoreOpen] (each operation as a sequence of steps
      of the database), [AcsStoreCorrect] (every request keeps the invariants), [AcsServer],
      [AcsObjects] and [AcsAnswers] (histories and the guarantees), [AcsAccess] (what
      operations leave alone, authentication), [AcsHttpCorrect] and [AcsStream]
      (the interface and its streams). [AcsServerExample] instantiates the parameters
      and runs a server.
    - Airway routing (app-core/src/airway_routing.rs, product-contracts/src/airway_routing.rs,
      with the great-circle distance of geodesy.rs). The graph of published airways is one
      value of the key/value store; a route is found on it by a search over fixes, required
      fixes passed and incoming airway. [Float64] (binary64 arithmetic), [AirwayRouting] (the
      graph, its codec, the search). Proofs: [AirwaySearch] (the order of costs, the queue and
      the invariant of one round), [AirwayRoutingCorrect] (the whole search, connections,
      loading, and a run on the graph of the code's tests).

    ** How the code is modelled

    Rust's [Result] is [result] and [?] its bind; a method with [&mut self] is a function
    in the state monad [ST], where the state survives an error as it does in the code.
    Byte strings are lists of [byte]; [Vec], [BTreeMap] and [BTreeSet] are lists, [gmap]
    and [gset], iterated in key order by [map_iter] and [set_iter]. Integers are [Z]; the
    checked, saturating and wrapping operations of the code are written as such
    ([checked_add], [saturating_sub], [wrap32], [z2b]). Error texts are constructors that
    carry what the text is made of. [Utf8] models the parts of [str] the code uses.

    Code of other crates is a parameter: SHA-256 and MD5 (crates sha2, md5), the JSON
    encoding of a record (serde_json), the provider of pages, the storage behind a capture,
    random bytes (getrandom). The protocol and the connection owner are also parametric in
    the decoder of product bodies, which [ReceiverProducts] models, and in what the reception
    counters read of a product. Hypotheses about them are stated where they are
    used: the digest has 32 bytes and the encoding is injective for the binding of state
    ids; pages come back as written for the readers; a write to storage that fails has
    stored a part of what it was given ([SinkLaws]). For the cloud, JSON, base64, HKDF,
    Ed25519, ChaCha20-Poly1305, protobuf, flight plans and aircraft definitions are the
    classes [CloudCodecs], [CloudCrypto] and [SetupWire], and what is asked of them
    [CodecTotal] (encoding in memory does not fail), [CodecLaws] (decoding inverts
    encoding) and [HeaderLaw] (a node's version is the one in its header). For the server,
    JSON, digests, signatures and the texts of library errors are the classes [ServerLibs] and
    [HttpLibs], and [ServerLaws] asks that decoding inverts encoding. For airways, [Postcard]
    is the codec of a graph with [PostcardLaws], and [Libm] the trigonometric functions:
    [LibmLaws] asks that the cosine of a latitude is not negative, nor the arc sine of a
    number that is not. For what the receiver reports, dates are the classes [Chrono] and
    [ChronoTime] without any law but that times are in a total order ([ChronoOrder], for the
    weather of stations), the decompressor is [Zlib] with the documented behaviour of
    its counters as [ZlibLaws], and digest, JSON and PNG encoder of radar images are
    [RadarLibs]. The caches of station weather are written by [WeatherJson], which reads back
    what it wrote ([WeatherJsonLaws]); the parsers of the feed's times are arguments.

    Floats are the [spec_float] of the standard library at 53 bits of precision, so sums and
    products round as in binary64; binary32 values are read into it exactly, and decimal
    numbers are rounded once. A NaN has neither sign nor payload.

    The server's tables are maps keyed as the schema's primary keys; a statement is one
    reading or updating of them, and fails when the script of the world ([World]: database,
    files, free space, random bytes, file times) says so. [transaction] saves the tables and
    restores them unless the body commits. The operations take the clock as an argument.
    Concurrency is interleaving: an upload, a collection and a start are cut where the code
    releases the connection ([Phase] in [AcsServer]), and a stream takes its steps between
    those of the server ([Act] in [AcsStream]). The reads of a stream use several statements
    without a transaction: they are programs of their statements ([Reading]), and the server
    goes on between any two of them, as it does between the commit of a change and the
    sending of its record. The reads that answer one request (an object, a list, the root)
    are taken with their statements together ([at_once]); no theorem relates what two of
    their statements see. Counters wrap at 64 bits ([wrap64]).

    Loops without a structural bound carry a number of rounds: walks of the page tree and
    of leaf links (bounded by the number of pages; theorems ask for at least that many and
    the builder is shown never to exhaust its own), building level above level (bounded by
    the number of nodes, each level being shorter), and the collecting loop of the receiver
    streams (bounded by the input bytes, each round consuming one; it is shown equal to a
    machine that takes one byte at a time), following a chain of airport aliases (bounded
    by the number of aliases, each round visiting a new one; shown never to be reached), and
    reading a capture to its end (bounded by its bytes), and marking what can be reached
    from a root (bounded by the root's children and the edges between objects, each round
    taking one off the queue; [mark_terminates] shows that it is enough), and the search for
    a route (bounded by the entries that can be pushed, [search_rounds]: one for each start,
    state and edge; [routes_valid] shows that it is enough), the runs of a radar row (bounded
    by its columns, each run filling one), and decompression (2^27 rounds, more than the input
    and output it is limited to have bytes, each round consuming or producing one;
    [products_settled] shows that neither bound is reached).

    The connection owner's [expect]s are modelled as a flag of the turn and shown never to
    fail. Its counters of messages and writes are unbounded integers. The cloud engine's
    [expect]s are the [Panic] of its errors, likewise shown never to happen; the theorems
    about its reachable states assume that its counter of local revisions, 64 bits wide, has
    not reached its maximum.

    ** What the theorems show

    - Store: whatever is built reads back (lookup, prefix scan, all pairs, digest), the
      prefetch list suffices at startup, pages fit, the builder terminates, a partly fetched
      store never answers wrongly, in-place page searches agree with parsing, deltas are
      exact and act as map updates, page formats round-trip.
    - NOTAM: the concrete state refines the map from ids to records; mutations, deltas and
      checkpoints are accepted exactly when valid; incremental and full identities agree;
      equal state ids mean equal states up to digest collisions; airport queries are exact.
      States are those after calls that succeed; the client (live_feeds.rs) takes its state out
      before a delta and keeps none when it fails.
      The airport index is that of the records unless a checkpoint was loaded in which a
      record names an airport twice up to spelling.
    - Schedulers: no request is lost, none waits while the scheduler is idle, completing the
      running requests completes each one held once and empties the queue; a refresh starts
      on time and never twice at once.
    - Receiver: frames and fragmented products round-trip under any chunking, buffers are
      bounded, retransmissions are filtered, the handshake is left only on records of the
      bytes received that hold the expected digest, phases only advance, failures are final,
      the timer does what its constants say.
    - What the receiver reports: every product body is decoded or refused without a panic,
      with its values in range; traffic reports are accepted exactly when well formed; radar
      rows decode to the runs they encode; the reception history is the one the log of all
      events determines, and what is drawn of it fits its frame; the radar history keeps its
      bounds; an own position is shown only while it is less than ten seconds old by both
      clocks, and its altitude belongs to the same second and place.
    - Weather of stations: a query shows the newest report of both sources whatever order
      they came in; bounds find exactly the stations within them, which rests on halving and
      flooring floats being monotone; sizes and counts stay exact and within their limits,
      nothing panics, and directory documents are restored, and snapshots unless a source
      holds more than twice the station limit of reports.
    - Contracts: the key of a procedure determines it, published names parse back, the union
      of catalogs is what its declarative description says and independent of order, an
      unsupported schema is refused, a catalog's identity determines it up to digest collisions.
    - Captures and the connection owner: a capture cut anywhere after its magic number reads
      back as the records whole before the cut and nothing invented; the owner never panics, opens one socket at a
      time under fresh ids, has one write in flight, records before it acts and behaves the
      same whether recording works or not; deadlines, retries and blocking are as the
      constants say.
    - Cloud: merging a page is exact and devices that read the same pages agree; a local
      edit reads back, is newer than what it replaces, and stays pending until the server has
      committed it or a page was read with a version as new, which is then held; a root is replaced only when it was read
      and merged, when its upgrade was agreed to, or when the account is new; no response is
      taken for another and nothing panics; migrations keep records and their times; the
      bytes that are signed and hashed determine what they stand for; setup codes round-trip.
    - Server: the root of an account is a compare-and-swap register and, under any
      interleaving, its history is the list of committed swaps; charges are exact, within
      quota and ceiling, under any interleaving in which an upload that takes its row back
      finds it; what a root refers to is ready under any interleaving, and what is ready is
      there with its digest when requests come one at a time; collections keep what is
      reachable or recent and take the rest; a start leaves no upload half done; objects read
      back; a request changes or reads an account only when it was signed with its key, and
      once; streams replay what was missed, tell only roots the account has had, and a stream
      that has caught up has told the current root; buckets admit no more than their capacity
      and the time their clock has run forward allow, and name the wait exactly; a validated policy
      starts a store. The corners where the code departs from its documents are theorems
      about concrete runs in [AcsServerExample].
    - Airways: an encoded graph loads back from the store or the missing pages are named; on
      a valid graph the search ends without a panic, with a walk along usable airways that
      repeats no fix and passes the required fixes in order; without required fixes no walk
      weighs less, although costs are rounded and a state keeps one predecessor only.

    ** Interfaces

    [NavKvPrefetch] states what two runs of one reader over different page providers have
    in common as the class [ReadSim]; the prefetch trace and the partly fetched store are
    its instances. [NotamRefine] states the contract of the NOTAM state as [represents]
    and [ReceiverProtocolSteps] that of the protocol as [proto_step]. [Recorder] and
    [CaptureSink] are the code's traits; [SinkLaws] is what a capture relies on, and [view]
    with [apply_effects] in [ReceiverConnectionCorrect] what the adapter relies on.
    [core_ok] in [CloudEngineCorrect] is what the cloud engine's operations rely on and keep.
    [data_inv] and [store_inv] in [AcsStoreCorrect] are that for the server, [history] in
    [AcsStoreInv] the abstract root, [db_step] what operations may do to the tables, and
    [Keeps] in [AcsAccess] what an operation leaves alone.

    ** Not modelled

    Serialisation of NOTAM mutations, the receiver's worker thread, its simulator, and the
    files its captures and radar images live in, the live-feed client and its cache,
    sessions, planning and maps, the views of the cloud engine and the thread that runs it,
    the bindings and the preprocessors: input and output, floating-point geometry and view
    models around the parts above. Of the cloud server: the metrics of its status page, its
    backups, the locks between processes, the command line and the load generator; of its
    HTTP interface the listener, the file of the server's secret, cross-origin headers and
    the limit of concurrent requests. These parts would come next: several devices and the
    server composed, so that together they lose no update; the archive of capture files; and
    the live-feed cache that installs checkpoints and deltas.

    This file holds the shared vocabulary: results, the state monad, bytes, integers of
    fixed width, the order of byte strings, ordered iteration, injective encodings, and the
    tactics. *)

From Stdlib Require Import Strings.Byte.

From stdpp Require Import base gmap list strings sorting fin_maps.

Create HintDb aerobag.
Create Rewrite HintDb len.

(** ** Results

    Rust's [Result<A, E>]; [?] is the monadic bind. *)
Inductive result (E A : Type) : Type :=
| Ok (a : A)
| Err (e : E).
Arguments Ok {E A} a.
Arguments Err {E A} e.

#[export] Instance result_ret {E} : MRet (result E) := λ A a, Ok a.
#[export] Instance result_bind {E} : MBind (result E) :=
  λ A B f r, match r with Ok a => f a | Err e => Err e end.
#[export] Instance result_fmap {E} : FMap (result E) :=
  λ A B f r, match r with Ok a => Ok (f a) | Err e => Err e end.

(** [Option::ok_or], [Result::ok] and [Result::map_err]. *)
Definition ok_or {E A} (o : option A) (e : E) : result E A :=
  match o with Some a => Ok a | None => Err e end.
Definition ok {E A} (r : result E A) : option A :=
  match r with Ok a => Some a | Err _ => None end.
Definition map_err {E F A} (f : E → F) (r : result E A) : result F A :=
  match r with Ok a => Ok a | Err e => Err (f e) end.
Definition is_err {E A} (r : result E A) : bool :=
  match r with Ok _ => false | Err _ => true end.

(** [if cond { return Err(e) }]. *)
Definition guard_err {E} (cond : bool) (e : E) : result E unit :=
  if cond then Err e else Ok tt.

(** A fold of a fallible body over a list: [for x in l { body(acc, x)?; }]. *)
Fixpoint try_fold {E A B} (f : B → A → result E B) (acc : B) (l : list A) : result E B :=
  match l with
  | [] => Ok acc
  | x :: l => b ← f acc x; try_fold f b l
  end.

(** Rust's [collect::<Result<Vec<_>, _>>()]. *)
Fixpoint try_map {E A B} (f : A → result E B) (l : list A) : result E (list B) :=
  match l with
  | [] => Ok []
  | x :: l => b ← f x; bs ← try_map f l; Ok (b :: bs)
  end.

Lemma bind_Ok {E A B} (r : result E A) (f : A → result E B) b :
  (r ≫= f) = Ok b ↔ ∃ a, r = Ok a ∧ f a = Ok b.
Proof. destruct r; simpl; naive_solver. Qed.

Lemma guard_err_Ok {E} cond (e : E) u : guard_err cond e = Ok u ↔ cond = false.
Proof. destruct cond, u; simpl; naive_solver. Qed.

Lemma ok_or_Ok {E A} (o : option A) (e : E) a : ok_or o e = Ok a ↔ o = Some a.
Proof. destruct o; simpl; naive_solver. Qed.

Lemma ok_Some {E A} (r : result E A) a : ok r = Some a ↔ r = Ok a.
Proof. destruct r; simpl; naive_solver. Qed.

Lemma try_map_Ok {E A B} (f : A → result E B) l bs :
  try_map f l = Ok bs ↔ Forall2 (λ x b, f x = Ok b) l bs.
Proof.
  revert bs; induction l as [|x l IH]; intros bs; simpl; split.
  - intros [= <-]. constructor.
  - by inversion 1.
  - rewrite bind_Ok. intros (b & Hb & (bs' & Hbs & [= <-])%bind_Ok).
    constructor; [done|]. by apply IH.
  - inversion 1 as [|? b ? bs' Hb Hbs]; subst. rewrite Hb. simpl.
    apply IH in Hbs. by rewrite Hbs.
Qed.

Lemma try_fold_app {E A B} (f : B → A → result E B) acc l1 l2 :
  try_fold f acc (l1 ++ l2) = (b ← try_fold f acc l1; try_fold f b l2).
Proof.
  revert acc; induction l1 as [|x l1 IH]; intros acc; simpl; [done|].
  destruct (f acc x); simpl; auto.
Qed.

(** An invariant of the accumulator holds at the end of a fallible loop. *)
Lemma try_fold_inv {E A B} (P : B → Prop) (f : B → A → result E B) acc l b :
  P acc → (∀ b x b', P b → x ∈ l → f b x = Ok b' → P b') →
  try_fold f acc l = Ok b → P b.
Proof.
  revert acc; induction l as [|x l IH]; intros acc Hacc Hstep; simpl.
  - naive_solver.
  - rewrite bind_Ok. intros (b' & Hf & Hfold).
    eapply IH; [| |done]; [eapply Hstep; [done|left|done]|].
    intros ??????. eapply Hstep; [done|by right|done].
Qed.

(** ** State with errors

    A method taking [&mut self] (or a [&mut] accumulator) and returning
    [Result<A, E>]: the state survives an error, as it does in the code. *)
Definition ST (S E A : Type) : Type := S → result E A * S.

#[export] Instance ST_ret {S E} : MRet (ST S E) := λ A a s, (Ok a, s).
#[export] Instance ST_bind {S E} : MBind (ST S E) :=
  λ A B f c s, match c s with
               | (Ok a, s') => f a s'
               | (Err e, s') => (Err e, s')
               end.

Definition st_get {S E} : ST S E S := λ s, (Ok s, s).
Definition st_put {S E} (s' : S) : ST S E unit := λ _, (Ok tt, s').
Definition st_modify {S E} (f : S → S) : ST S E unit := λ s, (Ok tt, f s).
Definition st_err {S E A} (e : E) : ST S E A := λ s, (Err e, s).
Definition st_lift {S E A} (r : result E A) : ST S E A := λ s, (r, s).

Lemma ST_bind_unfold {S E A B} (c : ST S E A) (f : A → ST S E B) s :
  (c ≫= f) s = match c s with
               | (Ok a, s') => f a s'
               | (Err e, s') => (Err e, s')
               end.
Proof. done. Qed.

Lemma ST_bind_Ok {S E A B} (c : ST S E A) (f : A → ST S E B) s b s' :
  (c ≫= f) s = (Ok b, s') ↔ ∃ a s1, c s = (Ok a, s1) ∧ f a s1 = (Ok b, s').
Proof. rewrite ST_bind_unfold. destruct (c s) as [[a|e] s1]; naive_solver. Qed.

(** ** Bytes and byte strings

    [u8] is [byte]; a Rust [Vec<u8>], [&[u8]], [String] or [&str] is the list of
    its bytes. *)
Abbreviation bytes := (list byte).

#[export] Instance byte_eq_dec : EqDecision byte := Byte.byte_eq_dec.
#[export] Instance byte_countable : Countable byte.
Proof. refine (inj_countable Byte.to_N Byte.of_N Byte.of_to_N). Defined.

(** The bytes of a string literal. *)
Definition bs (s : string) : bytes := String.list_byte_of_string s.
Arguments bs s%_string.

Definition b2z (b : byte) : Z := Z.of_N (Byte.to_N b).
(** Truncation to [u8] ([z as u8]). *)
Definition z2b (z : Z) : byte :=
  match Byte.of_N (Z.to_N (z `mod` 256)) with Some b => b | None => x00 end.

Lemma b2z_range b : (0 ≤ b2z b < 256)%Z.
Proof. unfold b2z. pose proof (Byte.to_N_bounded b). lia. Qed.

Lemma b2z_z2b z : b2z (z2b z) = (z `mod` 256)%Z.
Proof.
  unfold b2z, z2b. pose proof (Z.mod_pos_bound z 256 ltac:(lia)).
  destruct (Byte.of_N _) as [b|] eqn:Hb.
  - apply Byte.to_of_N in Hb. rewrite Hb, Z2N.id; lia.
  - apply Byte.of_N_None_iff in Hb. lia.
Qed.

#[export] Instance b2z_inj : Inj (=) (=) b2z.
Proof.
  intros a b Hab. unfold b2z in Hab. apply N2Z.inj in Hab.
  pose proof (Byte.of_to_N a) as Ha. rewrite Hab, Byte.of_to_N in Ha. congruence.
Qed.

Lemma z2b_b2z b : z2b (b2z b) = b.
Proof.
  apply (inj b2z). rewrite b2z_z2b. pose proof (b2z_range b).
  by rewrite Z.mod_small.
Qed.

(** ** Lengths and ranges

    [usize] values are integers; a list's length is read as one. *)
Definition len {A} (l : list A) : Z := Z.of_nat (length l).

Lemma len_nil {A} : len (@nil A) = 0%Z.
Proof. done. Qed.
Lemma len_cons {A} (x : A) l : len (x :: l) = (1 + len l)%Z.
Proof. unfold len; simpl; lia. Qed.
Lemma len_app {A} (l1 l2 : list A) : len (l1 ++ l2) = (len l1 + len l2)%Z.
Proof. unfold len. rewrite length_app. lia. Qed.
Lemma len_nonneg {A} (l : list A) : (0 ≤ len l)%Z.
Proof. unfold len. lia. Qed.
Lemma len_fmap {A B} (f : A → B) l : len (f <$> l) = len l.
Proof. unfold len. by rewrite length_fmap. Qed.
Lemma to_nat_len {A} (l : list A) : Z.to_nat (len l) = length l.
Proof. unfold len. lia. Qed.
Lemma len_0 {A} (l : list A) : len l = 0%Z ↔ l = [].
Proof. destruct l; unfold len; simpl; split; (done || lia). Qed.

(** [v.get(a..b)]: the subrange, or nothing when it is not one. *)
Definition get_range {A} (l : list A) (a b : Z) : option (list A) :=
  if ((0 <=? a) && (a <=? b) && (b <=? len l))%Z
  then Some (take (Z.to_nat (b - a)) (drop (Z.to_nat a) l))
  else None.

(** [v.get(i)]. *)
Definition get_at {A} (l : list A) (i : Z) : option A :=
  if (0 <=? i)%Z then l !! Z.to_nat i else None.

(** The bytes that were written are the bytes that are read back. *)
Lemma get_range_app {A} (pre mid post : list A) a b :
  a = len pre → b = (a + len mid)%Z →
  get_range (pre ++ mid ++ post) a b = Some mid.
Proof.
  intros -> ->. unfold get_range.
  pose proof (len_nonneg pre). pose proof (len_nonneg mid).
  pose proof (len_nonneg post). rewrite !len_app.
  rewrite !andb_true_intro; rewrite ?Z.leb_le; [|repeat split; lia..].
  f_equal. unfold len. rewrite Nat2Z.id, drop_app_length.
  rewrite take_app_length'; [done|lia].
Qed.

Lemma get_range_split {A} (l pre mid post : list A) a b :
  l = pre ++ mid ++ post → a = len pre → b = (a + len mid)%Z → get_range l a b = Some mid.
Proof. intros ->. apply get_range_app. Qed.

Lemma get_range_Some {A} (l m : list A) a b :
  get_range l a b = Some m →
  ∃ pre post, l = pre ++ m ++ post ∧ a = len pre ∧ b = (a + len m)%Z.
Proof.
  unfold get_range. destruct (_ && _) eqn:Hb; [|done]. intros [= <-].
  rewrite !andb_true_iff, !Z.leb_le in Hb. destruct Hb as [[Ha Hab] Hbl].
  exists (take (Z.to_nat a) l), (drop (Z.to_nat (b - a)) (drop (Z.to_nat a) l)).
  rewrite take_drop, take_drop. unfold len in *.
  rewrite !length_take, !length_drop. repeat split; lia.
Qed.

Lemma get_range_len {A} (l m : list A) a b :
  get_range l a b = Some m → len m = (b - a)%Z ∧ (0 ≤ a ≤ b)%Z ∧ (b ≤ len l)%Z.
Proof.
  intros (pre & post & -> & -> & ->)%get_range_Some. rewrite !len_app.
  pose proof (len_nonneg pre). pose proof (len_nonneg m).
  pose proof (len_nonneg post). lia.
Qed.

Lemma get_at_Some {A} (l : list A) i x :
  get_at l i = Some x → (0 ≤ i < len l)%Z.
Proof.
  unfold get_at. destruct (Z.leb_spec 0 i); [|done].
  intros Hi%lookup_lt_Some. unfold len. lia.
Qed.

(** ** Fixed-width integers

    [uN] values are integers in [0, 2^N). *)
Definition u8_max : Z := 255.
Definition u16_max : Z := 65535.
Definition u32_max : Z := 4294967295.
Definition u64_max : Z := 18446744073709551615.
(** [usize] of the 64-bit targets. *)
Definition usize_max : Z := u64_max.

Definition in_u32 (z : Z) : Prop := (0 ≤ z ≤ u32_max)%Z.
Definition in_u64 (z : Z) : Prop := (0 ≤ z ≤ u64_max)%Z.

(** Plain [+], [-] and [*] on [u32] and [u8]: the release profiles of the workspace do
    not enable overflow checks, so they wrap around. *)
Definition wrap32 (z : Z) : Z := (z `mod` 4294967296)%Z.
Definition wrap8 (z : Z) : Z := (z `mod` 256)%Z.
Definition wrap64 (z : Z) : Z := (z `mod` 18446744073709551616)%Z.

(** [checked_add], [checked_mul], [saturating_add] and [saturating_sub] at a width
    given by its maximum, and [uN::try_from]. *)
Definition checked_add (mx a b : Z) : option Z :=
  if (a + b <=? mx)%Z then Some (a + b)%Z else None.
Definition checked_mul (mx a b : Z) : option Z :=
  if (a * b <=? mx)%Z then Some (a * b)%Z else None.
Definition checked_sub (a b : Z) : option Z :=
  if (b <=? a)%Z then Some (a - b)%Z else None.
Definition saturating_add (mx a b : Z) : Z := Z.min mx (a + b).
Definition saturating_sub (a b : Z) : Z := Z.max 0 (a - b).
Definition try_into (mx a : Z) : option Z :=
  if (a <=? mx)%Z then Some a else None.

Lemma wrap32_small z : in_u32 z → wrap32 z = z.
Proof. unfold in_u32, u32_max, wrap32. intros. apply Z.mod_small. lia. Qed.
Lemma wrap32_range z : in_u32 (wrap32 z).
Proof. unfold in_u32, u32_max, wrap32. pose proof (Z.mod_pos_bound z 4294967296). lia. Qed.

Lemma checked_add_Some mx a b c : checked_add mx a b = Some c ↔ c = (a + b)%Z ∧ (a + b ≤ mx)%Z.
Proof. unfold checked_add. destruct (Z.leb_spec (a + b) mx); naive_solver lia. Qed.
Lemma checked_mul_Some mx a b c : checked_mul mx a b = Some c ↔ c = (a * b)%Z ∧ (a * b ≤ mx)%Z.
Proof. unfold checked_mul. destruct (Z.leb_spec (a * b) mx); naive_solver lia. Qed.
Lemma try_into_Some mx a b : try_into mx a = Some b ↔ b = a ∧ (a ≤ mx)%Z.
Proof. unfold try_into. destruct (Z.leb_spec a mx); naive_solver lia. Qed.

(** [to_le_bytes] and [from_le_bytes] at a width of [n] bytes; [to_be_bytes]. *)
Fixpoint le_bytes (n : nat) (z : Z) : bytes :=
  match n with
  | O => []
  | S n => z2b z :: le_bytes n (z `div` 256)
  end.
Fixpoint le_value (l : bytes) : Z :=
  match l with
  | [] => 0
  | b :: l => b2z b + 256 * le_value l
  end.
Definition be_bytes (n : nat) (z : Z) : bytes := reverse (le_bytes n z).

Lemma length_le_bytes n z : length (le_bytes n z) = n.
Proof. revert z; induction n; intros; simpl; auto. Qed.

Lemma le_value_le_bytes n z :
  le_value (le_bytes n z) = (z `mod` 256 ^ Z.of_nat n)%Z.
Proof.
  revert z; induction n as [|n IH]; intros z; simpl le_bytes; simpl le_value.
  - by rewrite Z.mod_1_r.
  - rewrite IH, b2z_z2b, Nat2Z.inj_succ, Z.pow_succ_r by lia.
    rewrite Z.rem_mul_r by lia. lia.
Qed.

Lemma le_value_bound l : (0 ≤ le_value l < 256 ^ len l)%Z.
Proof.
  induction l as [|b l IH]; simpl le_value; [done|].
  rewrite len_cons, Z.add_comm, Z.pow_add_r by (pose proof (len_nonneg l); lia).
  pose proof (b2z_range b). lia.
Qed.

Lemma le_bytes_le_value l : le_bytes (length l) (le_value l) = l.
Proof.
  induction l as [|b l IH]; simpl; [done|].
  pose proof (b2z_range b) as Hb. rewrite Z.mul_comm.
  replace ((b2z b + le_value l * 256) `div` 256)%Z with (le_value l)
    by (rewrite Z.div_add, Z.div_small; lia).
  f_equal; [|done]. apply (inj b2z).
  rewrite b2z_z2b, Z_mod_plus_full, Z.mod_small; lia.
Qed.

Lemma le_value_small n z :
  (0 ≤ z < 256 ^ Z.of_nat n)%Z → le_value (le_bytes n z) = z.
Proof. intros. rewrite le_value_le_bytes. by apply Z.mod_small. Qed.

Lemma len_le_bytes n z : len (le_bytes n z) = Z.of_nat n.
Proof. unfold len. by rewrite length_le_bytes. Qed.

Arguments le_bytes : simpl never.
Arguments le_value : simpl never.

(** ** Lexicographic order of byte strings ([Ord] of [&[u8]] and [&str]). *)
Fixpoint bytes_cmp (a b : bytes) : comparison :=
  match a, b with
  | [], [] => Eq
  | [], _ :: _ => Lt
  | _ :: _, [] => Gt
  | x :: a, y :: b =>
      match Z.compare (b2z x) (b2z y) with
      | Eq => bytes_cmp a b
      | c => c
      end
  end.

Definition bytes_lt (a b : bytes) : Prop := bytes_cmp a b = Lt.
Definition bytes_le (a b : bytes) : Prop := bytes_cmp a b ≠ Gt.
Definition bytes_ltb (a b : bytes) : bool :=
  match bytes_cmp a b with Lt => true | _ => false end.
Definition bytes_leb (a b : bytes) : bool :=
  match bytes_cmp a b with Gt => false | _ => true end.
Definition bytes_eqb (a b : bytes) : bool := bool_decide (a = b).

#[export] Instance bytes_lt_dec : RelDecision bytes_lt.
Proof. intros a b. unfold bytes_lt. solve_decision. Defined.
#[export] Instance bytes_le_dec : RelDecision bytes_le.
Proof. intros a b. unfold bytes_le. solve_decision. Defined.

Lemma bytes_cmp_refl a : bytes_cmp a a = Eq.
Proof. induction a as [|x a IH]; simpl; [done|]. by rewrite Z.compare_refl. Qed.

Lemma bytes_cmp_eq a b : bytes_cmp a b = Eq ↔ a = b.
Proof.
  split; [|intros ->; apply bytes_cmp_refl].
  revert b; induction a as [|x a IH]; intros [|y b]; simpl; try done.
  destruct (Z.compare_spec (b2z x) (b2z y)) as [Heq|?|?]; try done.
  apply (inj b2z) in Heq. intros ?%IH. congruence.
Qed.

Lemma bytes_cmp_opp a b : bytes_cmp b a = CompOpp (bytes_cmp a b).
Proof.
  revert b; induction a as [|x a IH]; intros [|y b]; simpl; try done.
  rewrite (Z.compare_antisym (b2z x) (b2z y)).
  destruct (Z.compare (b2z x) (b2z y)); simpl; auto.
Qed.

Lemma bytes_cmp_gt a b : bytes_cmp a b = Gt ↔ bytes_lt b a.
Proof. unfold bytes_lt. rewrite (bytes_cmp_opp a b). by destruct (bytes_cmp a b). Qed.

#[export] Instance bytes_lt_trans : Transitive bytes_lt.
Proof.
  unfold bytes_lt. intros a; induction a as [|x a IH]; intros [|y b] [|z c]; simpl; try done.
  destruct (Z.compare_spec (b2z x) (b2z y)), (Z.compare_spec (b2z y) (b2z z)),
    (Z.compare_spec (b2z x) (b2z z)); try (done || lia). apply IH.
Qed.

#[export] Instance bytes_lt_irrefl : Irreflexive bytes_lt.
Proof. intros a. unfold complement, bytes_lt. by rewrite bytes_cmp_refl. Qed.

Lemma bytes_lt_trichotomy a b : bytes_lt a b ∨ a = b ∨ bytes_lt b a.
Proof.
  destruct (bytes_cmp a b) eqn:H; [right; left|left|right; right].
  - by apply bytes_cmp_eq.
  - done.
  - by apply bytes_cmp_gt.
Qed.

Lemma bytes_le_lt_eq a b : bytes_le a b ↔ bytes_lt a b ∨ a = b.
Proof.
  unfold bytes_le, bytes_lt. destruct (bytes_cmp a b) eqn:H.
  - apply bytes_cmp_eq in H. naive_solver.
  - naive_solver.
  - split; [done|]. intros [?| ->]; [done|]. by rewrite bytes_cmp_refl in H.
Qed.

Lemma bytes_nlt_le a b : ¬ bytes_lt a b ↔ bytes_le b a.
Proof.
  unfold bytes_le, bytes_lt. rewrite (bytes_cmp_opp a b).
  destruct (bytes_cmp a b); naive_solver.
Qed.

Lemma bytes_le_lt_trans a b c : bytes_le a b → bytes_lt b c → bytes_lt a c.
Proof. rewrite bytes_le_lt_eq. intros [?| ->]; [|done]. by etrans. Qed.
Lemma bytes_lt_le_trans a b c : bytes_lt a b → bytes_le b c → bytes_lt a c.
Proof. rewrite bytes_le_lt_eq. intros ? [?| <-]; [|done]. by etrans. Qed.

#[export] Instance bytes_le_preorder : PreOrder bytes_le.
Proof.
  split.
  - intros a. rewrite bytes_le_lt_eq. by right.
  - intros a b c. rewrite !bytes_le_lt_eq.
    intros [?| ->] [?| ->]; auto. left. by etrans.
Qed.
#[export] Instance bytes_le_antisymm : AntiSymm (=) bytes_le.
Proof.
  intros a b [Hab| ->]%bytes_le_lt_eq [Hba|?]%bytes_le_lt_eq; try done.
  exfalso. apply (bytes_lt_irrefl a). by etrans.
Qed.
#[export] Instance bytes_le_total : Total bytes_le.
Proof.
  intros a b. rewrite !bytes_le_lt_eq.
  destruct (bytes_lt_trichotomy a b) as [?|[?|?]]; auto.
Qed.

Lemma bytes_ltb_lt a b : bytes_ltb a b = true ↔ bytes_lt a b.
Proof. unfold bytes_ltb, bytes_lt. destruct (bytes_cmp a b); naive_solver. Qed.
Lemma bytes_leb_le a b : bytes_leb a b = true ↔ bytes_le a b.
Proof. unfold bytes_leb, bytes_le. destruct (bytes_cmp a b); naive_solver. Qed.
Lemma bytes_lt_ne a b : bytes_lt a b → a ≠ b.
Proof. intros Hab ->. by apply bytes_lt_irrefl in Hab. Qed.
Lemma bytes_nil_le a : bytes_le [] a.
Proof. by destruct a. Qed.

(** ** Ordered iteration over [BTreeSet<u32>] and [BTreeMap<String, V>]. *)
Definition set_iter (s : gset Z) : list Z := merge_sort Z.le (elements s).
Definition key_le {V} (p q : bytes * V) : Prop := bytes_le p.1 q.1.
#[export] Instance key_le_dec {V} : RelDecision (@key_le V).
Proof. intros p q. unfold key_le. apply _. Defined.
Definition map_iter {V} (m : gmap bytes V) : list (bytes * V) :=
  merge_sort key_le (map_to_list m).

Lemma elem_of_set_iter s x : x ∈ set_iter s ↔ x ∈ s.
Proof. unfold set_iter. by rewrite merge_sort_Permutation, elem_of_elements. Qed.
Lemma NoDup_set_iter s : NoDup (set_iter s).
Proof. unfold set_iter. rewrite merge_sort_Permutation. apply NoDup_elements. Qed.
Lemma Sorted_set_iter s : StronglySorted Z.le (set_iter s).
Proof. apply (StronglySorted_merge_sort _). Qed.
Lemma StronglySorted_set_iter_lt s : StronglySorted Z.lt (set_iter s).
Proof.
  pose proof (Sorted_set_iter s) as Hs. pose proof (NoDup_set_iter s) as Hn.
  induction Hs as [|x l Hs IH Hx]; constructor; apply NoDup_cons in Hn as [Hnx Hn]; [auto|].
  rewrite Forall_forall in Hx |- *. intros y Hy. specialize (Hx y Hy).
  assert (x ≠ y) by (intros ->; done). lia.
Qed.
Lemma set_iter_nil s : set_iter s = [] ↔ s = ∅.
Proof.
  split; [|by intros ->]. intros Hs. apply set_eq. intros x.
  rewrite <- elem_of_set_iter, Hs. set_solver.
Qed.
Lemma map_iter_Permutation {V} (m : gmap bytes V) : map_iter m ≡ₚ map_to_list m.
Proof. apply merge_sort_Permutation. Qed.
Lemma elem_of_map_iter {V} (m : gmap bytes V) k v : (k, v) ∈ map_iter m ↔ m !! k = Some v.
Proof. by rewrite map_iter_Permutation, elem_of_map_to_list. Qed.

(** ** Lower-case hexadecimal text ([{:x}], [{:02x}]) of a byte string. *)
Definition hex_lower_digit (v : Z) : byte :=
  if (v <? 10)%Z then z2b (48 + v) else z2b (87 + v).
Definition hex_lower (l : bytes) : bytes :=
  concat ((λ b, [hex_lower_digit (b2z b `div` 16); hex_lower_digit (b2z b `mod` 16)]) <$> l).

(** ** Automation *)
#[export] Hint Rewrite @len_nil @len_cons @len_app @len_fmap len_le_bytes : len.
#[export] Hint Resolve len_nonneg b2z_range : aerobag.

(** Destructs the successful runs of a chain of [?]s. *)
Ltac inv_ok :=
  repeat match goal with
  | H : (_ ≫= _) = Ok _ |- _ =>
      let a := fresh "a" in let Ha := fresh "Ha" in
      apply bind_Ok in H as (a & Ha & H)
  | H : guard_err _ _ = Ok _ |- _ => apply guard_err_Ok in H
  | H : ok_or _ _ = Ok _ |- _ => apply ok_or_Ok in H
  | H : try_into _ _ = Some _ |- _ => apply try_into_Some in H as [? ?]
  | H : checked_add _ _ _ = Some _ |- _ => apply checked_add_Some in H as [? ?]
  | H : checked_mul _ _ _ = Some _ |- _ => apply checked_mul_Some in H as [? ?]
  | H : Ok _ = Ok _ |- _ => injection H as H; subst
  | H : Err _ = Ok _ |- _ => discriminate H
  | H : (if ?c then Err _ else _) = Ok _ |- _ =>
      let E := fresh "Hc" in destruct c eqn:E; [discriminate H|]
  | u : unit |- _ => destruct u
  end.

(** Reads boolean integer comparisons as propositions. *)
Ltac zbool :=
  repeat match goal with
  | H : _ && _ = true |- _ => apply andb_true_iff in H as [? ?]
  | H : _ || _ = false |- _ => apply orb_false_iff in H as [? ?]
  | H : negb _ = true |- _ => apply negb_true_iff in H
  | H : negb _ = false |- _ => apply negb_false_iff in H
  | H : (_ <=? _)%Z = true |- _ => apply Z.leb_le in H
  | H : (_ <=? _)%Z = false |- _ => apply Z.leb_gt in H
  | H : (_ <? _)%Z = true |- _ => apply Z.ltb_lt in H
  | H : (_ <? _)%Z = false |- _ => apply Z.ltb_ge in H
  | H : (_ >? _)%Z = _ |- _ => rewrite Z.gtb_ltb in H
  | H : (_ =? _)%Z = true |- _ => apply Z.eqb_eq in H
  | H : (_ =? _)%Z = false |- _ => apply Z.eqb_neq in H
  | H : bool_decide _ = true |- _ => apply bool_decide_eq_true in H
  | H : bool_decide _ = false |- _ => apply bool_decide_eq_false in H
  end.

(** ** Injective encodings

    Lemmas shared by the proofs that a digest binds what was hashed: fixed-width integers,
    hexadecimal text and length-prefixed strings determine what they encode, and two inputs
    with one digest are equal or a collision. *)

Section encodings.
Local Open Scope Z_scope.

Lemma Ok_inj {E A} (a b : A) : Ok (E:=E) a = Ok b → a = b.
Proof. by intros [= ->]. Qed.

Lemma app_inj_len {A} (a a' b b' : list A) :
  length a = length a' → a ++ b = a' ++ b' → a = a' ∧ b = b'.
Proof. intros Hl Heq. by apply app_inj_1. Qed.

Lemma length_be_bytes n z : length (be_bytes n z) = n.
Proof. unfold be_bytes. by rewrite length_reverse, length_le_bytes. Qed.
Lemma be_bytes_inj n a b :
  0 ≤ a < 256 ^ Z.of_nat n → 0 ≤ b < 256 ^ Z.of_nat n → be_bytes n a = be_bytes n b → a = b.
Proof.
  intros Ha Hb Heq. unfold be_bytes in Heq. apply (inj reverse) in Heq.
  rewrite <- (le_value_small n a), <- (le_value_small n b) by done. by rewrite Heq.
Qed.

Lemma hex_digit_inj a b : 0 ≤ a < 16 → 0 ≤ b < 16 → hex_lower_digit a = hex_lower_digit b → a = b.
Proof.
  intros Ha Hb Heq. apply (f_equal b2z) in Heq. revert Heq. unfold hex_lower_digit.
  destruct (Z.ltb_spec a 10), (Z.ltb_spec b 10); rewrite !b2z_z2b, !Z.mod_small; lia.
Qed.
Lemma hex_lower_inj a b : hex_lower a = hex_lower b → a = b.
Proof.
  unfold hex_lower. revert b; induction a as [|x a IH]; intros [|y b]; try done.
  rewrite !fmap_cons. cbn [concat app]. intros [= H1 H2 H3]. apply IH in H3 as ->. f_equal.
  pose proof (b2z_range x). pose proof (b2z_range y).
  assert (∀ z, 0 ≤ z < 256 → 0 ≤ z `div` 16 < 16) as Hdiv
    by (intros z ?; split; [apply Z.div_pos|apply Z.div_lt_upper_bound]; lia).
  apply hex_digit_inj in H1; [|auto..]. apply hex_digit_inj in H2; [|apply Z.mod_pos_bound; lia..].
  apply (inj b2z). rewrite (Z.div_mod (b2z x) 16), (Z.div_mod (b2z y) 16) by lia. congruence.
Qed.
Lemma length_hex_lower l : length (hex_lower l) = (2 * length l)%nat.
Proof. unfold hex_lower. induction l as [|x l IH]; [done|]. rewrite fmap_cons. cbn [concat app length]. lia. Qed.

(** Two different inputs with one digest. *)
Definition collision (hash : bytes → bytes) : Prop := ∃ a b, a ≠ b ∧ hash a = hash b.

Lemma digest_inj hash a b : hash a = hash b → a = b ∨ collision hash.
Proof. intros Heq. destruct (decide (a = b)); [by left|]. right. by exists a, b. Qed.
End encodings.
