(* ===== verification/Utf8.v ===== *)
(** * UTF-8 text

    What the sources use of Rust's [str] and [char]: splitting a byte string into
    characters ([str::chars], [Utf8Chunks]), validity ([String::from_utf8]),
    replacement of invalid sequences ([String::from_utf8_lossy]), Unicode white
    space ([str::trim], [str::split_whitespace]) and the ASCII classes. A [str] is
    the list of its bytes and a [char] the list of the bytes that encode it. *)

From Stdlib Require Import Strings.Byte.
From stdpp Require Import base list.
From S2P Require Import Prelude.

Local Open Scope Z_scope.

(** ** Splitting *)

(** The next character of a byte string: its length, or the length of the maximal
    invalid prefix that one replacement character stands for. *)
Inductive utf8_step :=
| Utf8Char (n : nat)
| Utf8Bad (n : nat).

Definition byte_in (lo hi b : Z) : bool := (lo <=? b) && (b <=? hi).
Definition byte_or_0 (l : bytes) (i : nat) : Z :=
  match l !! i with Some b => b2z b | None => 0 end.
Definition is_cont (b : Z) : bool := byte_in 128 191 b.

Definition second_of_three (b0 b1 : Z) : bool :=
  ((b0 =? 224) && byte_in 160 191 b1) || (byte_in 225 236 b0 && is_cont b1)
  || ((b0 =? 237) && byte_in 128 159 b1) || (byte_in 238 239 b0 && is_cont b1).
Definition second_of_four (b0 b1 : Z) : bool :=
  ((b0 =? 240) && byte_in 144 191 b1) || (byte_in 241 243 b0 && is_cont b1)
  || ((b0 =? 244) && byte_in 128 143 b1).

Definition utf8_next (l : bytes) : utf8_step :=
  let b := byte_or_0 l in
  if b 0%nat <? 128 then Utf8Char 1
  else if byte_in 194 223 (b 0%nat) then
    if is_cont (b 1%nat) then Utf8Char 2 else Utf8Bad 1
  else if byte_in 224 239 (b 0%nat) then
    if second_of_three (b 0%nat) (b 1%nat) then
      if is_cont (b 2%nat) then Utf8Char 3 else Utf8Bad 2
    else Utf8Bad 1
  else if byte_in 240 244 (b 0%nat) then
    if second_of_four (b 0%nat) (b 1%nat) then
      if is_cont (b 2%nat) then
        if is_cont (b 3%nat) then Utf8Char 4 else Utf8Bad 3
      else Utf8Bad 2
    else Utf8Bad 1
  else Utf8Bad 1.

(** The chunks of a byte string, each marked as a character or as invalid. Every
    chunk has at least one byte, so the length of the string bounds their number. *)
Fixpoint utf8_chunks_fuel (fuel : nat) (l : bytes) : list (bool * bytes) :=
  match fuel, l with
  | S fuel, _ :: _ =>
      match utf8_next l with
      | Utf8Char n => (true, take n l) :: utf8_chunks_fuel fuel (drop n l)
      | Utf8Bad n => (false, take n l) :: utf8_chunks_fuel fuel (drop n l)
      end
  | _, _ => []
  end.
Definition utf8_chunks (l : bytes) : list (bool * bytes) := utf8_chunks_fuel (length l) l.

Definition chars (s : bytes) : list bytes := snd <$> utf8_chunks s.
Definition utf8_valid (l : bytes) : bool := forallb fst (utf8_chunks l).

(** [String::from_utf8] (success only) and [String::from_utf8_lossy]. *)
Definition from_utf8 (l : bytes) : option bytes := if utf8_valid l then Some l else None.
Definition replacement : bytes := [xef; xbf; xbd].
Definition from_utf8_lossy (l : bytes) : bytes :=
  concat ((λ c : bool * bytes, if c.1 then c.2 else replacement) <$> utf8_chunks l).

(** ** White space *)

(** The encodings of the characters with the [White_Space] property. *)
Definition is_whitespace (c : bytes) : bool :=
  match b2z <$> c with
  | [a] => (a =? 32) || byte_in 9 13 a
  | [a; b] => (a =? 194) && ((b =? 133) || (b =? 160))
  | [a; b; d] =>
      ((a =? 225) && (b =? 154) && (d =? 128))
      || ((a =? 226) && (b =? 128) && (byte_in 128 138 d || byte_in 168 169 d || (d =? 175)))
      || ((a =? 226) && (b =? 129) && (d =? 159))
      || ((a =? 227) && (b =? 128) && (d =? 128))
  | _ => false
  end.

Fixpoint skip_while {A} (p : A → bool) (l : list A) : list A :=
  match l with
  | x :: l' => if p x then skip_while p l' else l
  | [] => []
  end.

Definition trim_chars (cs : list bytes) : list bytes :=
  reverse (skip_while is_whitespace (reverse (skip_while is_whitespace cs))).
Definition trim (s : bytes) : bytes := concat (trim_chars (chars s)).

(** [str::split_whitespace]: the maximal runs of characters that are not white space. *)
Fixpoint split_ws_loop (run : bytes) (cs : list bytes) : list bytes :=
  match cs with
  | [] => match run with [] => [] | _ => [run] end
  | c :: cs =>
      if is_whitespace c
      then match run with [] => split_ws_loop [] cs | _ => run :: split_ws_loop [] cs end
      else split_ws_loop (run ++ c) cs
  end.
Definition split_whitespace (s : bytes) : list bytes := split_ws_loop [] (chars s).

(** ** ASCII classes *)
Definition is_ascii_digit (b : byte) : bool := byte_in 48 57 (b2z b).
Definition is_ascii_uppercase (b : byte) : bool := byte_in 65 90 (b2z b).
Definition is_ascii_lowercase (b : byte) : bool := byte_in 97 122 (b2z b).
Definition is_ascii_alphanumeric (b : byte) : bool :=
  is_ascii_digit b || is_ascii_uppercase b || is_ascii_lowercase b.
Definition ascii_upper (b : byte) : byte :=
  if is_ascii_lowercase b then z2b (b2z b - 32) else b.
Definition to_ascii_uppercase (s : bytes) : bytes := ascii_upper <$> s.

(** ** Facts *)

Lemma utf8_next_pos l : match utf8_next l with Utf8Char n | Utf8Bad n => (1 ≤ n)%nat end.
Proof. unfold utf8_next. repeat case_match; simplify_eq; lia. Qed.

Lemma utf8_chunks_fuel_concat fuel l :
  (length l ≤ fuel)%nat → concat (snd <$> utf8_chunks_fuel fuel l) = l.
Proof.
  revert l; induction fuel as [|fuel IH]; intros [|b l]; simpl; try done; [lia|].
  intros Hl. pose proof (utf8_next_pos (b :: l)) as Hn.
  destruct (utf8_next (b :: l)) as [n|n]; simpl;
    (rewrite IH; [apply take_drop|rewrite length_drop; simpl; lia]).
Qed.

(** Splitting loses nothing. *)
Lemma utf8_chunks_concat l : concat (snd <$> utf8_chunks l) = l.
Proof. by apply utf8_chunks_fuel_concat. Qed.

Lemma from_utf8_lossy_valid l : utf8_valid l = true → from_utf8_lossy l = l.
Proof.
  intros Hv. rewrite <- (utf8_chunks_concat l) at 2. unfold from_utf8_lossy.
  f_equal. apply list_fmap_ext. intros i [ok c] Hc; simpl.
  assert (ok = true) as ->; [|done].
  unfold utf8_valid in Hv. rewrite forallb_forall in Hv.
  apply (Hv (ok, c)). apply list_elem_of_In. by apply list_elem_of_lookup_2 in Hc.
Qed.

(** Enough fuel splits the same way. *)
Lemma utf8_chunks_fuel_enough fuel fuel' l :
  (length l ≤ fuel)%nat → (length l ≤ fuel')%nat →
  utf8_chunks_fuel fuel l = utf8_chunks_fuel fuel' l.
Proof.
  revert fuel' l; induction fuel as [|fuel IH]; intros [|fuel'] [|b l]; simpl; try done; try lia.
  intros H1 H2. pose proof (utf8_next_pos (b :: l)) as Hn.
  destruct (utf8_next (b :: l)) as [n|n]; f_equal;
    apply IH; rewrite length_drop; simpl; lia.
Qed.

Lemma utf8_chunks_cons b l :
  utf8_chunks (b :: l) =
    match utf8_next (b :: l) with
    | Utf8Char n => (true, take n (b :: l)) :: utf8_chunks (drop n (b :: l))
    | Utf8Bad n => (false, take n (b :: l)) :: utf8_chunks (drop n (b :: l))
    end.
Proof.
  unfold utf8_chunks at 1. simpl. pose proof (utf8_next_pos (b :: l)) as Hn.
  destruct (utf8_next (b :: l)) as [n|n]; f_equal; unfold utf8_chunks;
    apply utf8_chunks_fuel_enough; rewrite ?length_drop; simpl; lia.
Qed.

(** The encoding of one character. *)
Definition is_char (c : bytes) : Prop := c ≠ [] ∧ utf8_next c = Utf8Char (length c).

Lemma utf8_next_app c l : is_char c → utf8_next (c ++ l) = Utf8Char (length c).
Proof.
  intros [Hne Hc].
  destruct c as [|b0 [|b1 [|b2 [|b3 [|b4 c]]]]]; [done| | | | |];
    revert Hc; unfold utf8_next, byte_or_0; simpl; repeat case_match; simplify_eq; done.
Qed.

Lemma utf8_chunks_concat_chars cs :
  Forall is_char cs → utf8_chunks (concat cs) = pair true <$> cs.
Proof.
  induction 1 as [|c cs Hc Hcs IH]; simpl; [done|].
  pose proof (utf8_next_app c (concat cs) Hc) as Hn. destruct Hc as [Hne _].
  destruct c as [|b c]; [done|]. rewrite <- app_comm_cons in Hn |- *.
  rewrite utf8_chunks_cons, Hn, app_comm_cons, take_app_length, drop_app_length.
  by rewrite IH.
Qed.

Lemma utf8_next_take l n :
  l ≠ [] → utf8_next l = Utf8Char n → is_char (take n l).
Proof.
  intros Hne Hn. unfold utf8_next, byte_or_0 in Hn.
  destruct l as [|b0 [|b1 [|b2 [|b3 l]]]]; [done| | | |];
    simpl in Hn; repeat case_match; simplify_eq; split; try done;
    unfold utf8_next, byte_or_0; simpl;
    repeat match goal with H : ?x = _ |- context [?x] => rewrite H end; done.
Qed.

Lemma chars_valid l : utf8_valid l = true → Forall is_char (chars l).
Proof.
  unfold utf8_valid, chars. remember (length l) as k eqn:Hk. revert l Hk.
  induction (lt_wf k) as [k _ IH]; intros [|b l] ->; [done|].
  pose proof (utf8_next_pos (b :: l)) as Hn. rewrite utf8_chunks_cons.
  destruct (utf8_next (b :: l)) as [n|n] eqn:Hnext; [|done].
  cbn [forallb fst fmap list_fmap snd]. intros Hv. constructor.
  - by apply utf8_next_take.
  - eapply IH; [|done|done]. rewrite length_drop; simpl; lia.
Qed.

Lemma skip_while_suffix {A} (p : A → bool) l : ∃ pre, l = pre ++ skip_while p l.
Proof.
  induction l as [|x l [pre IH]]; simpl; [by exists []|].
  destruct (p x); [|by exists []]. exists (x :: pre). simpl. by rewrite <- IH.
Qed.

Lemma Forall_trim_chars (P : bytes → Prop) cs : Forall P cs → Forall P (trim_chars cs).
Proof.
  unfold trim_chars. intros Hcs. apply Forall_reverse.
  destruct (skip_while_suffix is_whitespace cs) as [pre Hpre].
  destruct (skip_while_suffix is_whitespace (reverse (skip_while is_whitespace cs)))
    as [pre' Hpre'].
  rewrite Hpre in Hcs. apply Forall_app in Hcs as [_ Hcs].
  apply Forall_reverse in Hcs. rewrite Hpre' in Hcs. by apply Forall_app in Hcs as [_ ?].
Qed.

(** Trimming keeps a valid string valid. *)
Lemma trim_valid s : utf8_valid s = true → utf8_valid (trim s) = true.
Proof.
  intros Hs%chars_valid. unfold utf8_valid, trim.
  rewrite utf8_chunks_concat_chars by by apply Forall_trim_chars.
  apply forallb_forall. intros [ok c]. rewrite <- list_elem_of_In, list_elem_of_fmap. naive_solver.
Qed.

Lemma utf8_valid_app a b : utf8_valid a = true → utf8_valid b = true → utf8_valid (a ++ b) = true.
Proof.
  intros Ha Hb. rewrite <- (utf8_chunks_concat a), <- (utf8_chunks_concat b), <- concat_app.
  unfold utf8_valid. rewrite utf8_chunks_concat_chars.
  - apply forallb_forall. intros [x c] Hx%list_elem_of_In. by apply list_elem_of_fmap in Hx as (? & [= -> ->] & _).
  - apply Forall_app. split; by apply chars_valid.
Qed.
