(* ===== verification/HadKey.v ===== *)
(** * Key components (crates/had-key)

    Percent-encoding of the components of nav-kv keys and the normalisation of
    search terms. *)

From Stdlib Require Import Strings.Byte.
From stdpp Require Import base list strings.
From S2P Require Import Prelude Utf8.

Local Open Scope Z_scope.

(** ** Definitions *)

(** The error messages of [decode_component]. *)
Inductive had_key_error :=
| TruncatedEscape
| InvalidHexDigit (b : byte)
| InvalidUtf8.

(** [hex_digit] is only called on nibbles; out of range it panics, here [x00]. *)
Definition hex_digit (value : Z) : byte :=
  if byte_in 0 9 value then z2b (48 + value)
  else if byte_in 10 15 value then z2b (65 + value - 10)
  else x00.

Definition hex_value (value : byte) : result had_key_error Z :=
  if byte_in 48 57 (b2z value) then Ok (b2z value - 48)
  else if byte_in 97 102 (b2z value) then Ok (b2z value - 97 + 10)
  else if byte_in 65 70 (b2z value) then Ok (b2z value - 65 + 10)
  else Err (InvalidHexDigit value).

(** The characters a component keeps: alphanumeric or one of [-_.~]. *)
Definition is_unreserved (b : byte) : bool :=
  is_ascii_alphanumeric b || bool_decide (b ∈ [x2d; x5f; x2e; x7e]).

Definition percent_encode_component (l : bytes) : bytes :=
  concat ((λ b, if is_unreserved b then [b]
                else [x25; hex_digit (Z.shiftr (b2z b) 4); hex_digit (Z.land (b2z b) 15)]) <$> l).

Definition component (value : bytes) : bytes := percent_encode_component (trim value).
Definition upper_component (value : bytes) : bytes := component (to_ascii_uppercase value).

(** The [while index < bytes.len()] loop of [decode_component]. *)
Fixpoint decode_loop (l : bytes) : result had_key_error bytes :=
  match l with
  | [] => Ok []
  | b :: l1 =>
      if bool_decide (b = x25) then
        match l1 with
        | [] => Err TruncatedEscape
        | _ :: [] => Err TruncatedEscape
        | high :: low :: rest =>
            h ← hex_value high;
            l ← hex_value low;
            decoded ← decode_loop rest;
            Ok (z2b (Z.lor (Z.shiftl h 4) l) :: decoded)
        end
      else
        decoded ← decode_loop l1;
        Ok (b :: decoded)
  end.

Definition decode_component (value : bytes) : result had_key_error bytes :=
  decoded ← decode_loop value;
  ok_or (from_utf8 decoded) InvalidUtf8.

(** The character loop of [search_terms]: letters and digits upper-cased, the
    apostrophes ['] and U+2019 dropped, anything else a space. *)
Definition normalize_char (c : bytes) : bytes :=
  match c with
  | [b] =>
      if is_ascii_alphanumeric b then [ascii_upper b]
      else if bool_decide (b = x27) then [] else [x20]
  | _ => if bool_decide (c = [xe2; x80; x99]) then [] else [x20]
  end.
Definition search_terms (value : bytes) : list bytes :=
  filter (λ term, 2 <= len term)
    (split_whitespace (concat (normalize_char <$> chars value))).

(** ** Lemmas *)

(** A property of every byte, by evaluation. *)
Definition all_bytes : bytes := (λ n, z2b (Z.of_nat n)) <$> seq 0 256.

Lemma elem_of_all_bytes b : b ∈ all_bytes.
Proof.
  pose proof (b2z_range b). apply list_elem_of_fmap. exists (Z.to_nat (b2z b)). split.
  - rewrite Z2Nat.id by lia. by rewrite z2b_b2z.
  - apply elem_of_seq. lia.
Qed.

Lemma byte_forallb (p : byte → bool) : forallb p all_bytes = true → ∀ b, p b = true.
Proof.
  rewrite forallb_forall. intros Hp b. apply Hp, list_elem_of_In, elem_of_all_bytes.
Qed.

Lemma percent_not_unreserved : is_unreserved x25 = false.
Proof. done. Qed.

(** The two digits of a byte decode to it. *)
Lemma hex_roundtrip b :
  hex_value (hex_digit (Z.shiftr (b2z b) 4)) = Ok (Z.shiftr (b2z b) 4) ∧
  hex_value (hex_digit (Z.land (b2z b) 15)) = Ok (Z.land (b2z b) 15) ∧
  z2b (Z.lor (Z.shiftl (Z.shiftr (b2z b) 4) 4) (Z.land (b2z b) 15)) = b.
Proof.
  revert b. set (dig x := match hex_value (hex_digit x) with Ok y => y =? x | Err _ => false end).
  set (p b := dig (Z.shiftr (b2z b) 4) && dig (Z.land (b2z b) 15) &&
    bool_decide (z2b (Z.lor (Z.shiftl (Z.shiftr (b2z b) 4) 4) (Z.land (b2z b) 15)) = b)).
  assert (∀ b, p b = true) as Hp by (apply byte_forallb; vm_compute; reflexivity).
  intros b. specialize (Hp b). unfold p, dig in Hp. zbool.
  repeat case_match; zbool; naive_solver.
Qed.

Lemma decode_loop_encode l rest :
  decode_loop (percent_encode_component l ++ rest) =
    (decoded ← decode_loop rest; Ok (l ++ decoded)).
Proof.
  unfold percent_encode_component.
  induction l as [|b l IH]; [simpl; by destruct (decode_loop rest)|].
  cbn [fmap list_fmap concat]. rewrite <- app_assoc.
  destruct (is_unreserved b) eqn:Hb.
  - cbn [app decode_loop]. rewrite bool_decide_eq_false_2.
    + change (concat _) with (percent_encode_component l) in IH |- *. rewrite IH.
      by destruct (decode_loop rest).
    + intros ->. by rewrite percent_not_unreserved in Hb.
  - destruct (hex_roundtrip b) as (Hh & Hl & Hz).
    cbn [app decode_loop]. rewrite bool_decide_eq_true_2 by done.
    rewrite Hh, Hl. cbn [mbind result_bind]. rewrite IH.
    destruct (decode_loop rest); simpl; by rewrite ?Hz.
Qed.

(** The encoder's output alphabet. *)
Definition encoded_byte (b : byte) : bool := is_unreserved b || bool_decide (b = x25).

Lemma hex_digit_encoded b :
  encoded_byte (hex_digit (Z.shiftr (b2z b) 4)) = true ∧
  encoded_byte (hex_digit (Z.land (b2z b) 15)) = true.
Proof.
  revert b. set (p b := encoded_byte (hex_digit (Z.shiftr (b2z b) 4)) &&
                        encoded_byte (hex_digit (Z.land (b2z b) 15))).
  assert (∀ b, p b = true) as Hp by (apply byte_forallb; vm_compute; reflexivity).
  intros b. specialize (Hp b). unfold p in Hp. by zbool.
Qed.

Lemma percent_encode_alphabet l :
  Forall (λ b, encoded_byte b = true) (percent_encode_component l).
Proof.
  unfold percent_encode_component. apply Forall_concat, Forall_fmap, Forall_true.
  intros b. simpl. destruct (is_unreserved b) eqn:Hb.
  - repeat constructor. unfold encoded_byte. by rewrite Hb.
  - destruct (hex_digit_encoded b). repeat constructor; done.
Qed.

(** A byte of a search term. *)
Definition term_byte (b : byte) : bool := is_ascii_digit b || is_ascii_uppercase b.

Lemma ascii_upper_term b : is_ascii_alphanumeric b = true → term_byte (ascii_upper b) = true.
Proof.
  revert b. set (p b := negb (is_ascii_alphanumeric b) || term_byte (ascii_upper b)).
  assert (∀ b, p b = true) as Hp by (apply byte_forallb; vm_compute; reflexivity).
  intros b Hb. specialize (Hp b). unfold p in Hp. by rewrite Hb in Hp.
Qed.

Lemma term_byte_ascii b : term_byte b = true → utf8_next [b] = Utf8Char 1.
Proof.
  revert b. set (p b := negb (term_byte b) || bool_decide (b2z b < 128)).
  assert (∀ b, p b = true) as Hp by (apply byte_forallb; vm_compute; reflexivity).
  intros b Hb. specialize (Hp b). unfold p in Hp. rewrite Hb in Hp. simpl in Hp. zbool.
  unfold utf8_next, byte_or_0. simpl. by rewrite (proj2 (Z.ltb_lt _ _)).
Qed.

(** Normalised text has only term bytes and spaces, one per character. *)
Definition normalized_byte (b : byte) : Prop := term_byte b = true ∨ b = x20.

Lemma normalize_char_bytes c : Forall normalized_byte (normalize_char c).
Proof.
  unfold normalize_char, normalized_byte.
  repeat case_match; subst; try apply Forall_singleton; auto using ascii_upper_term.
Qed.

Lemma chars_normalized l :
  Forall normalized_byte l → chars l = (λ b, [b]) <$> l.
Proof.
  intros Hl. assert (l = concat ((λ b, [b]) <$> l)) as Hc.
  { clear. induction l as [|b l IH]; [done|]. simpl. f_equal. exact IH. }
  unfold chars. rewrite Hc at 1. rewrite utf8_chunks_concat_chars.
  - clear. induction l as [|b l IH]; [done|]. simpl. f_equal. exact IH.
  - apply Forall_fmap. eapply Forall_impl; [done|]. intros b [Hb| ->]; split; try done.
    by apply term_byte_ascii.
Qed.

Lemma split_ws_loop_terms run cs :
  Forall (λ b, term_byte b = true) run → Forall normalized_byte cs →
  Forall (Forall (λ b, term_byte b = true)) (split_ws_loop run ((λ b, [b]) <$> cs)).
Proof.
  intros Hrun Hcs. revert run Hrun.
  induction Hcs as [|b cs Hb Hcs IH]; intros run Hrun; simpl.
  - destruct run; [constructor|]. by apply Forall_singleton.
  - destruct Hb as [Hb| ->]; cbn [fmap list_fmap split_ws_loop].
    + assert (is_whitespace [b] = false) as ->.
      { revert Hb. unfold term_byte, is_ascii_digit, is_ascii_uppercase.
        unfold is_whitespace, byte_in. simpl. lia. }
      apply IH. apply Forall_app. split; [done|]. by apply Forall_singleton.
    + change (is_whitespace [x20]) with true. destruct run; [by apply IH|].
      constructor; [done|]. by apply IH.
Qed.

(** ** Properties *)

(** Decoding an encoded component gives back the trimmed text, for every text. *)
Theorem decode_component_inverts (s : bytes) (Hs : utf8_valid s = true) :
  decode_component (component s) = Ok (trim s).
Proof.
  unfold decode_component, component.
  rewrite <- (app_nil_r (percent_encode_component _)), decode_loop_encode. simpl.
  rewrite app_nil_r. unfold from_utf8. by rewrite trim_valid.
Qed.

Lemma decode_component_inverts_witness :
  decode_component (component (bs " a/b?caf" ++ [xc3; xa9; x20])) = Ok (bs "a/b?caf" ++ [xc3; xa9]).
Proof. apply (decode_component_inverts (bs " a/b?caf" ++ [xc3; xa9; x20])). vm_compute. reflexivity. Defined.

(** The output of [component] consists of unreserved characters and [%], so it
    contains no key delimiter and no white space, and two texts get the same
    component only when they agree after trimming. *)
Theorem component_unambiguous (s t : bytes) :
  Forall (λ b, encoded_byte b = true) (component s) ∧
  (component s = component t → trim s = trim t).
Proof.
  split; [apply percent_encode_alphabet|]. unfold component. intros Heq.
  pose proof (decode_loop_encode (trim s) []) as Hs.
  pose proof (decode_loop_encode (trim t) []) as Ht.
  rewrite Heq, Ht in Hs. simpl in Hs. rewrite !app_nil_r in Hs. congruence.
Qed.

(** Every search term has at least two characters, all of them upper-case
    letters or digits, whatever text the terms come from. *)
Theorem search_terms_shape (value : bytes) :
  Forall (λ term, 2 ≤ len term ∧ Forall (λ b, term_byte b = true) term) (search_terms value).
Proof.
  unfold search_terms, split_whitespace.
  assert (Forall normalized_byte (concat (normalize_char <$> chars value))) as Hn.
  { apply Forall_concat, Forall_fmap, Forall_true, normalize_char_bytes. }
  rewrite chars_normalized by done.
  pose proof (split_ws_loop_terms [] _ (Forall_nil_2 _) Hn) as Hs.
  apply Forall_forall. intros term [Hlen Hin]%list_elem_of_filter. split; [done|].
  by eapply Forall_forall in Hs.
Qed.

(** The examples of the crate's tests. *)
Example search_terms_ohare :
  search_terms (bs "Chicago O'Hare Intl") = [bs "CHICAGO"; bs "OHARE"; bs "INTL"].
Proof. vm_compute. reflexivity. Qed.
Example upper_component_example : upper_component (bs " kgrk/vor-a ") = bs "KGRK%2FVOR-A".
Proof. vm_compute. reflexivity. Qed.
Example decode_truncated : decode_component (bs "bad%2") = Err TruncatedEscape.
Proof. vm_compute. reflexivity. Qed.
