(* ===== verification/Search.v ===== *)
(** * Binary search ([slice::binary_search_by], [slice::partition_point])

    The halving loop of the standard library and what it finds in a slice whose
    elements compare monotonically. *)

From stdpp Require Import base list sorting.
From S2P Require Import Prelude.

(** ** Definitions *)

(** [while size > 1]: [base] moves to the middle unless the middle compares greater.
    The size at least halves, so the length of the slice bounds the rounds. *)
Fixpoint bsearch_loop (fuel : nat) (f : nat → comparison) (base size : nat) : nat :=
  match fuel with
  | O => base
  | S fuel =>
      if size <=? 1 then base
      else
        let half := size / 2 in
        let mid := base + half in
        let base := match f mid with Gt => base | _ => mid end in
        bsearch_loop fuel f base (size - half)
  end.

(** The position of a match, or the position to insert at. *)
Definition binary_search_by {A} (l : list A) (f : A → comparison) : result nat nat :=
  let g i := match l !! i with Some x => f x | None => Gt end in
  match l with
  | [] => Err 0
  | _ :: _ =>
      let base := bsearch_loop (length l) g 0 (length l) in
      match g base with
      | Eq => Ok base
      | Lt => Err (base + 1)
      | Gt => Err base
      end
  end.

Definition partition_point {A} (l : list A) (p : A → bool) : nat :=
  match binary_search_by l (λ x, if p x then Lt else Gt) with Ok i | Err i => i end.

(** ** Facts *)

(** Comparison results never decrease along the slice. *)
Definition cmp_le (c d : comparison) : Prop :=
  match c, d with
  | Lt, _ => True
  | Eq, Lt => False
  | Eq, _ => True
  | Gt, Gt => True
  | Gt, _ => False
  end.
Definition monotone {A} (l : list A) (f : A → comparison) : Prop :=
  ∀ i j x y, i < j → l !! i = Some x → l !! j = Some y → cmp_le (f x) (f y).

Lemma bsearch_loop_spec fuel f base size n :
  size ≤ fuel → 1 ≤ size → base + size ≤ n →
  (∀ i j, i < j < n → cmp_le (f i) (f j)) →
  (base = 0 ∨ f base ≠ Gt) → (∀ i, base + size ≤ i < n → f i = Gt) →
  let b := bsearch_loop fuel f base size in
  b < n ∧ (b = 0 ∨ f b ≠ Gt) ∧ (∀ i, b < i < n → f i = Gt).
Proof.
  revert base size; induction fuel as [|fuel IH]; intros base size Hf H1 Hn Hm Hb Hgt; [lia|].
  cbn [bsearch_loop]. destruct (Nat.leb_spec size 1) as [Hle|Hlt].
  - split; [lia|]. split; [done|]. intros i Hi. apply Hgt. lia.
  - assert (1 ≤ size / 2 < size) as Hh.
    { split; [apply Nat.div_le_lower_bound; lia|apply Nat.div_lt; lia]. }
    pose proof (Nat.Div0.mul_div_le size 2) as Hd.
    destruct (f (base + size / 2)) eqn:Hmid; apply IH; try lia; try done.
    + right. by rewrite Hmid.
    + intros i Hi. apply Hgt. lia.
    + right. by rewrite Hmid.
    + intros i Hi. apply Hgt. lia.
    + intros i Hi. destruct (decide (i = base + size / 2)) as [->|]; [done|].
      pose proof (Hm (base + size / 2) i ltac:(lia)) as Hc. rewrite Hmid in Hc.
      by destruct (f i).
Qed.

(** The result of a search in a monotone slice. *)
Lemma binary_search_by_spec {A} (l : list A) (f : A → comparison) :
  monotone l f →
  match binary_search_by l f with
  | Ok i => ∃ x, l !! i = Some x ∧ f x = Eq
  | Err i => i ≤ length l ∧ (∀ j x, j < i → l !! j = Some x → f x = Lt) ∧
             (∀ j x, i ≤ j → l !! j = Some x → f x = Gt)
  end.
Proof.
  intros Hm. unfold binary_search_by. destruct l as [|x0 l0]; [naive_solver lia|].
  set (l := x0 :: l0) in *. assert (length l = S (length l0)) as Hlen by done.
  set (g := λ i, match l !! i with Some x => f x | None => Gt end).
  assert (∀ i x, l !! i = Some x → g i = f x) as Hg by (intros i x Hi; unfold g; by rewrite Hi).
  destruct (bsearch_loop_spec (length l) g 0 (length l) (length l)) as (Hb & Hb0 & Hgt); try lia.
  { intros i j Hij. destruct (lookup_lt_is_Some_2 l i) as [x Hx]; [lia|].
    destruct (lookup_lt_is_Some_2 l j) as [y Hy]; [lia|].
    rewrite (Hg _ _ Hx), (Hg _ _ Hy). apply (Hm i j); [lia|done..]. }
  set (b := bsearch_loop _ _ _ _) in *.
  destruct (lookup_lt_is_Some_2 l b Hb) as [x Hx]. pose proof (Hg _ _ Hx) as Hgx.
  assert (∀ j y, b < j → l !! j = Some y → f y = Gt) as Hafter.
  { intros j y Hj Hy. rewrite <- (Hg _ _ Hy). apply Hgt. apply lookup_lt_Some in Hy. lia. }
  rewrite Hx. destruct (f x) eqn:Hfx; [by exists x|..].
  - split; [lia|]. split; intros j y Hj Hy.
    + destruct (decide (j = b)) as [->|]; [congruence|].
      pose proof (Hm j b y x ltac:(lia) Hy Hx) as Hc. rewrite Hfx in Hc. by destruct (f y).
    + apply (Hafter j); [lia|done].
  - destruct Hb0 as [Hb0|]; [|done]. rewrite Hb0 in *. split; [lia|]. split; [lia|].
    intros j y _ Hy. destruct j as [|j]; [congruence|]. apply (Hafter (S j)); [lia|done].
Qed.

Lemma partition_point_spec {A} (l : list A) (p : A → bool) :
  (∀ i j x y, i < j → l !! i = Some x → l !! j = Some y → p y = true → p x = true) →
  let i := partition_point l p in
  i ≤ length l ∧ (∀ j x, j < i → l !! j = Some x → p x = true) ∧
  (∀ j x, i ≤ j → l !! j = Some x → p x = false).
Proof.
  intros Hp. unfold partition_point.
  pose proof (binary_search_by_spec l (λ x, if p x then Lt else Gt)) as Hs.
  destruct (binary_search_by _ _) as [i|i].
  - destruct Hs as (x & _ & Hx); [|by destruct (p x)].
    intros i0 j x y Hij Hi Hj. specialize (Hp _ _ _ _ Hij Hi Hj).
    destruct (p x), (p y); naive_solver.
  - destruct Hs as (Hle & Hlt & Hge).
    + intros i0 j x y Hij Hi Hj. specialize (Hp _ _ _ _ Hij Hi Hj).
      destruct (p x), (p y); naive_solver.
    + split; [done|]. split; intros j x Hj Hx;
        [specialize (Hlt j x Hj Hx)|specialize (Hge j x Hj Hx)]; by destruct (p x).
Qed.

(** Keys in ascending order compare monotonically with any key. *)
Lemma sorted_monotone {A} (key : A → bytes) (l : list A) k :
  StronglySorted bytes_lt (key <$> l) → monotone l (λ e, bytes_cmp (key e) k).
Proof.
  intros Hs i j x y Hij Hx Hy.
  assert (bytes_lt (key x) (key y)) as Hlt.
  { apply (StronglySorted_app_1_elem_of bytes_lt (key <$> take j l) (key <$> drop j l)).
    - by rewrite <- fmap_app, take_drop.
    - apply list_elem_of_fmap_2, list_elem_of_lookup. exists i. rewrite lookup_take_lt; done.
    - apply list_elem_of_fmap_2, list_elem_of_lookup. exists 0. by rewrite lookup_drop, Nat.add_0_r. }
  destruct (bytes_cmp (key x) k) eqn:Hxk, (bytes_cmp (key y) k) eqn:Hyk; simpl; try done.
  - apply bytes_cmp_eq in Hxk as <-. apply (bytes_lt_irrefl (key x)). etrans; [exact Hlt|exact Hyk].
  - apply bytes_cmp_gt in Hxk. apply bytes_cmp_eq in Hyk as <-.
    apply (bytes_lt_irrefl (key y)). by etrans.
  - apply bytes_cmp_gt in Hxk. apply (bytes_lt_irrefl k). etrans; [exact Hxk|].
    etrans; [exact Hlt|exact Hyk].
Qed.

Lemma sorted_lookup_lt {A} (key : A → bytes) (l : list A) i j x y :
  StronglySorted bytes_lt (key <$> l) → l !! i = Some x → l !! j = Some y →
  bytes_lt (key x) (key y) → i < j.
Proof.
  intros Hs Hx Hy Hlt. destruct (decide (i < j)) as [|Hn]; [done|exfalso].
  destruct (decide (i = j)) as [->|].
  - rewrite Hx in Hy. injection Hy as ->. by apply bytes_lt_irrefl in Hlt.
  - pose proof (sorted_monotone key l (key y) Hs j i y x ltac:(lia) Hy Hx) as Hc.
    simpl in Hc. rewrite bytes_cmp_refl in Hc. unfold bytes_lt in Hlt. by rewrite Hlt in Hc.
Qed.

(** Searching a sorted slice by key finds exactly the element with that key. *)
Lemma binary_search_key {A} (key : A → bytes) (l : list A) k :
  StronglySorted bytes_lt (key <$> l) →
  match binary_search_by l (λ e, bytes_cmp (key e) k) with
  | Ok i => ∃ x, l !! i = Some x ∧ key x = k
  | Err i => i ≤ length l ∧ (∀ j x, j < i → l !! j = Some x → bytes_lt (key x) k) ∧
             (∀ j x, i ≤ j → l !! j = Some x → bytes_lt k (key x))
  end.
Proof.
  intros Hs. pose proof (binary_search_by_spec l _ (sorted_monotone key l k Hs)) as H.
  destruct (binary_search_by _ _) as [i|i].
  - setoid_rewrite bytes_cmp_eq in H. done.
  - destruct H as (Hi & Hlt & Hge). split; [done|]. split; [done|].
    intros j x Hj Hx. apply bytes_cmp_gt. by eapply Hge.
Qed.
