(* ===== verification/NavKvFormat.v ===== *)
(** * The nav-kv storage format (crates/had-nav-kv)

    The data types of the crate and the binary encodings of the root record, of
    leaf pages and of internal pages, with their parsers. *)

From Stdlib Require Import Strings.Byte.
From stdpp Require Import base list strings sorting sets.
From S2P Require Import Prelude.

Local Open Scope Z_scope.

(** ** Constants *)
Definition MAGIC : bytes := bs "AEROBAGNAVKV0001".
Definition NAVKV_STORAGE_FORMAT : Z := 4.
Definition HEADER_LEN : Z := 64.
Definition PREFETCH_COUNT_OFFSET : Z := 56.
Definition NODE_KIND_LEAF : Z := 1.
Definition NODE_KIND_INTERNAL : Z := 2.
Definition LEAF_HEADER_LEN : Z := 12.
Definition INTERNAL_HEADER_LEN : Z := 12.
Definition LEAF_ENTRY_FIXED_LEN : Z := 16.
Definition INLINE_VALUE_MAX_LEN : Z := 4096.
Definition NO_PAGE : Z := u32_max.
Definition VALUE_KIND_EXTERNAL : Z := 0.
Definition VALUE_KIND_INLINE : Z := 1.

(** ** Data *)
Record NavKvPair := { pair_key : bytes; pair_value : bytes }.

Record NavKvRoot := {
  entry_count : Z;
  page_size : Z;
  root_page : Z;
  page_count : Z;
  value_page_start : Z;
  value_bytes_len : Z;
  prefetch_pages : list Z
}.

Inductive LeafEntryValue :=
| Inline (value : bytes)
| External (offset len : Z).

(** [LeafEntry] on the writing side and [LeafLookup] on the reading side have the
    same two fields. *)
Record LeafEntry := { le_key : bytes; le_val : LeafEntryValue }.

Record NodeSummary := { ns_page : Z; ns_first_key : bytes }.

Record LeafNode := { next_leaf : option Z; leaf_entries : list LeafEntry }.

Record InternalNode := { children : list Z; pivots : list bytes }.

Inductive Node :=
| Leaf (leaf : LeafNode)
| Internal (node : InternalNode).

(** The error messages of the crate, one constructor per message with what the
    message prints. [LoopBound] is the model's: a loop of the code that is given no
    bound by its input ran for the number of rounds it was allowed. *)
Inductive nav_kv_error :=
| ReadPastEnd
| RootTooShort | InvalidMagic | UnsupportedVersion (version : Z)
| PageSizeZero | PageCountZero | RootPageRange | ValuePageStartRange | ValueBytesRange
| PrefetchLengthOverflow | RootLengthMismatch | PrefetchPageRange | PrefetchNotSorted
| LeafKeyPastPage | InlineValuePastPage | InvalidValueKind
| ChildPivotMismatch | PivotPastPage | ChildTableOverflow | LengthOverflow
| InvalidNodeKind
| TooManyLeafEntries | KeyLengthTooLarge | InlineLengthTooLarge
| TooFewChildren | TooManyPivots | TooManyChildren | PivotLengthTooLarge
| PrefetchCountTooLarge
| NoPairs | EmptyKey | EmptyValue (key : bytes) | KeyTooLarge (key : bytes)
| DuplicateKey (key : bytes) | NotSorted (previous key : bytes)
| LeafEntryTooLarge | PageCountTooLarge | InternalChildTooLarge | InternalRegroupTooLarge
| ValueLengthTooLarge | ValueBytesTooLarge | NoRootPage | LogicalLengthTooLarge
| EntryCountTooLarge | PrefetchScanFailed (prefix : bytes) | PrefetchKeyMissing (key : bytes)
| ExternalRangeOverflow | ExternalPastValueBytes | ExternalReadFailed | PrefixScanFailed
| LoopBound.

(** ** Little-endian words *)
Definition push_u32 (out : bytes) (value : Z) : bytes := out ++ le_bytes 4 value.

Definition read_u32 (l : bytes) (offset : Z) : result nav_kv_error Z :=
  chunk ← ok_or (get_range l offset (offset + 4)) ReadPastEnd;
  Ok (le_value chunk).

(** ** The root record *)

(** [while root_bytes.len() < target { push_u32(0) }]; each round adds four bytes. *)
Fixpoint pad_to (fuel : nat) (target : Z) (out : bytes) : bytes :=
  match fuel with
  | O => out
  | S fuel => if len out <? target then pad_to fuel target (push_u32 out 0) else out
  end.

Definition build_root_bytes (entry_count page_size root_page page_count value_page_start
    value_bytes_len : Z) (prefetch_pages : list Z) : result nav_kv_error bytes :=
  prefetch_count ← ok_or (try_into u32_max (len prefetch_pages)) PrefetchCountTooLarge;
  let out := MAGIC in
  let out := push_u32 out NAVKV_STORAGE_FORMAT in
  let out := push_u32 out entry_count in
  let out := push_u32 out page_size in
  let out := push_u32 out root_page in
  let out := push_u32 out page_count in
  let out := push_u32 out value_page_start in
  let out := push_u32 out value_bytes_len in
  let out := pad_to 16 PREFETCH_COUNT_OFFSET out in
  let out := push_u32 out prefetch_count in
  let out := pad_to 16 HEADER_LEN out in
  Ok (foldl push_u32 out prefetch_pages).

(** The loop over the prefetch table: [index] is the position of the next word. *)
Fixpoint parse_prefetch (l : bytes) (page_count : Z) (n : nat) (index : Z)
    (previous : option Z) : result nav_kv_error (list Z) :=
  match n with
  | O => Ok []
  | S n =>
      page ← read_u32 l (HEADER_LEN + index * 4);
      _ ← guard_err (page_count <=? page) PrefetchPageRange;
      _ ← guard_err (match previous with Some p => page <=? p | None => false end)
            PrefetchNotSorted;
      rest ← parse_prefetch l page_count n (index + 1) (Some page);
      Ok (page :: rest)
  end.

Definition div_ceil (a b : Z) : Z := (a + b - 1) `div` b.

(** [NavKvRoot::parse]. The sum of [value_page_start] and the number of value pages
    is a plain [u32] addition. *)
Definition parse_root (root_bytes : bytes) : result nav_kv_error NavKvRoot :=
  _ ← guard_err (len root_bytes <? HEADER_LEN) RootTooShort;
  _ ← guard_err (negb (bool_decide (take 16 root_bytes = MAGIC))) InvalidMagic;
  version ← read_u32 root_bytes 16;
  _ ← guard_err (negb (version =? NAVKV_STORAGE_FORMAT)) (UnsupportedVersion version);
  entry_count ← read_u32 root_bytes 20;
  page_size ← read_u32 root_bytes 24;
  root_page ← read_u32 root_bytes 28;
  page_count ← read_u32 root_bytes 32;
  value_page_start ← read_u32 root_bytes 36;
  value_bytes_len ← read_u32 root_bytes 40;
  prefetch_count ← read_u32 root_bytes PREFETCH_COUNT_OFFSET;
  _ ← guard_err (page_size =? 0) PageSizeZero;
  _ ← guard_err (page_count =? 0) PageCountZero;
  _ ← guard_err (page_count <=? root_page) RootPageRange;
  _ ← guard_err (page_count <? value_page_start) ValuePageStartRange;
  let value_page_count := div_ceil value_bytes_len page_size in
  _ ← guard_err (page_count <? wrap32 (value_page_start + value_page_count)) ValueBytesRange;
  table_len ← ok_or (checked_mul usize_max prefetch_count 4) PrefetchLengthOverflow;
  expected_root_len ← ok_or (checked_add usize_max HEADER_LEN table_len) PrefetchLengthOverflow;
  _ ← guard_err (negb (len root_bytes =? expected_root_len)) RootLengthMismatch;
  prefetch_pages ← parse_prefetch root_bytes page_count (Z.to_nat prefetch_count) 0 None;
  Ok {| entry_count := entry_count; page_size := page_size; root_page := root_page;
        page_count := page_count; value_page_start := value_page_start;
        value_bytes_len := value_bytes_len; prefetch_pages := prefetch_pages |}.

(** [NavKvRoot::logical_bytes_len]. *)
Definition logical_bytes_len (root : NavKvRoot) : Z :=
  Z.min u32_max (page_count root * page_size root).

(** ** Leaf pages *)

Definition encode_leaf_entry (entry : LeafEntry) : result nav_kv_error bytes :=
  key_len ← ok_or (try_into u32_max (len (le_key entry))) KeyLengthTooLarge;
  let out := push_u32 [] key_len in
  out ← match le_val entry with
        | Inline value =>
            let out := push_u32 out VALUE_KIND_INLINE in
            value_len ← ok_or (try_into u32_max (len value)) InlineLengthTooLarge;
            Ok (push_u32 (push_u32 out value_len) 0)
        | External offset len =>
            let out := push_u32 out VALUE_KIND_EXTERNAL in
            Ok (push_u32 (push_u32 out offset) len)
        end;
  let out := out ++ le_key entry in
  Ok (match le_val entry with
      | Inline value => out ++ value
      | External _ _ => out
      end).

Definition encode_leaf_page (entries : list LeafEntry) (next_leaf : option Z)
    : result nav_kv_error bytes :=
  let out := push_u32 [] NODE_KIND_LEAF in
  count ← ok_or (try_into u32_max (len entries)) TooManyLeafEntries;
  let out := push_u32 out count in
  let out := push_u32 out (default NO_PAGE next_leaf) in
  encoded ← try_map encode_leaf_entry entries;
  Ok (out ++ concat encoded).

(** One round of the loop of [parse_leaf_node]: the entry at [offset] and the offset
    after it. *)
Definition parse_leaf_entry (l : bytes) (offset : Z) : result nav_kv_error (LeafEntry * Z) :=
  key_len ← read_u32 l offset;
  let offset := offset + 4 in
  value_kind ← read_u32 l offset;
  let offset := offset + 4 in
  value_a ← read_u32 l offset;
  let offset := offset + 4 in
  value_b ← read_u32 l offset;
  let offset := offset + 4 in
  key ← ok_or (get_range l offset (offset + key_len)) LeafKeyPastPage;
  let offset := offset + key_len in
  if value_kind =? VALUE_KIND_INLINE then
    value ← ok_or (get_range l offset (offset + value_a)) InlineValuePastPage;
    Ok ({| le_key := key; le_val := Inline value |}, offset + value_a)
  else if value_kind =? VALUE_KIND_EXTERNAL then
    Ok ({| le_key := key; le_val := External value_a value_b |}, offset)
  else Err InvalidValueKind.

Fixpoint parse_leaf_entries (l : bytes) (n : nat) (offset : Z)
    : result nav_kv_error (list LeafEntry) :=
  match n with
  | O => Ok []
  | S n =>
      '(entry, offset) ← parse_leaf_entry l offset;
      entries ← parse_leaf_entries l n offset;
      Ok (entry :: entries)
  end.

Definition parse_leaf_node (l : bytes) : result nav_kv_error LeafNode :=
  count ← read_u32 l 4;
  next_raw ← read_u32 l 8;
  entries ← parse_leaf_entries l (Z.to_nat count) LEAF_HEADER_LEN;
  Ok {| next_leaf := if next_raw =? NO_PAGE then None else Some next_raw;
        leaf_entries := entries |}.

(** ** Internal pages *)

Definition encode_pivot (child : NodeSummary) : result nav_kv_error bytes :=
  key_len ← ok_or (try_into u32_max (len (ns_first_key child))) PivotLengthTooLarge;
  Ok (push_u32 [] key_len ++ ns_first_key child).

Definition encode_internal_page (children : list NodeSummary) : result nav_kv_error bytes :=
  _ ← guard_err (len children <? 2) TooFewChildren;
  let out := push_u32 [] NODE_KIND_INTERNAL in
  pivot_count ← ok_or (try_into u32_max (len children - 1)) TooManyPivots;
  let out := push_u32 out pivot_count in
  child_count ← ok_or (try_into u32_max (len children)) TooManyChildren;
  let out := push_u32 out child_count in
  let out := foldl push_u32 out (ns_page <$> children) in
  encoded ← try_map encode_pivot (drop 1 children);
  Ok (out ++ concat encoded).

Fixpoint parse_children (l : bytes) (n : nat) (offset : Z)
    : result nav_kv_error (list Z * Z) :=
  match n with
  | O => Ok ([], offset)
  | S n =>
      child ← read_u32 l offset;
      '(children, offset) ← parse_children l n (offset + 4);
      Ok (child :: children, offset)
  end.

Fixpoint parse_pivots (l : bytes) (n : nat) (offset : Z) : result nav_kv_error (list bytes) :=
  match n with
  | O => Ok []
  | S n =>
      key_len ← read_u32 l offset;
      let offset := offset + 4 in
      key ← ok_or (get_range l offset (offset + key_len)) PivotPastPage;
      pivots ← parse_pivots l n (offset + key_len);
      Ok (key :: pivots)
  end.

Definition parse_internal_node (l : bytes) : result nav_kv_error InternalNode :=
  pivot_count ← read_u32 l 4;
  child_count ← read_u32 l 8;
  _ ← guard_err (negb (child_count =? pivot_count + 1)) ChildPivotMismatch;
  '(children, offset) ← parse_children l (Z.to_nat child_count) INTERNAL_HEADER_LEN;
  pivots ← parse_pivots l (Z.to_nat pivot_count) offset;
  Ok {| children := children; pivots := pivots |}.

(** ** Words in a buffer *)

Definition words (ws : list Z) : bytes := concat (le_bytes 4 <$> ws).

Lemma words_cons w ws : words (w :: ws) = le_bytes 4 w ++ words ws.
Proof. done. Qed.
Lemma len_words ws : len (words ws) = 4 * len ws.
Proof.
  induction ws as [|w ws IH]; [done|]. rewrite words_cons.
  autorewrite with len. rewrite IH. lia.
Qed.
#[export] Hint Rewrite len_words : len.

Lemma words_app ws1 ws2 : words (ws1 ++ ws2) = words ws1 ++ words ws2.
Proof. unfold words. by rewrite fmap_app, concat_app. Qed.

Lemma push_u32_words out ws w : push_u32 (out ++ words ws) w = out ++ words (ws ++ [w]).
Proof. unfold push_u32. rewrite words_app, <- app_assoc. done. Qed.
Lemma foldl_push_u32 out ws : foldl push_u32 out ws = out ++ words ws.
Proof.
  revert out; induction ws as [|w ws IH]; intros out; simpl.
  - by rewrite app_nil_r.
  - rewrite IH. unfold push_u32. by rewrite <- app_assoc.
Qed.

Lemma read_u32_app pre w post offset :
  offset = len pre → in_u32 w → read_u32 (pre ++ le_bytes 4 w ++ post) offset = Ok w.
Proof.
  intros -> Hw. unfold read_u32.
  rewrite get_range_app by (autorewrite with len; lia).
  simpl. rewrite (le_value_small 4); [done|]. unfold in_u32, u32_max in Hw. simpl. lia.
Qed.

(** The [i]-th word of a table is read at its offset. *)
Lemma read_u32_words pre ws post i w offset :
  ws !! i = Some w → in_u32 w → offset = len pre + 4 * Z.of_nat i →
  read_u32 (pre ++ words ws ++ post) offset = Ok w.
Proof.
  intros Hi Hw ->. apply list_elem_of_split_length in Hi as (ws1 & ws2 & -> & ->).
  rewrite words_app, words_cons, <- !app_assoc, app_assoc.
  apply read_u32_app; [|done]. autorewrite with len. unfold len. lia.
Qed.

Lemma read_u32_header ws post i w offset :
  ws !! i = Some w → in_u32 w → offset = 4 * Z.of_nat i →
  read_u32 (words ws ++ post) offset = Ok w.
Proof. intros. by apply (read_u32_words [] ws post i). Qed.

Lemma read_u32_bound l offset w : read_u32 l offset = Ok w → in_u32 w.
Proof.
  unfold read_u32. intros H. inv_ok.
  pose proof (le_value_bound a). apply get_range_len in Ha as [Hlen _].
  replace (len a) with 4 in * by lia. unfold in_u32, u32_max. lia.
Qed.

(** ** Round trips *)

Definition root_words (root : NavKvRoot) : list Z :=
  [NAVKV_STORAGE_FORMAT; entry_count root; page_size root; root_page root; page_count root;
   value_page_start root; value_bytes_len root; 0; 0; 0; len (prefetch_pages root); 0]
  ++ prefetch_pages root.

Lemma build_root_bytes_eq root b :
  build_root_bytes (entry_count root) (page_size root) (root_page root) (page_count root)
    (value_page_start root) (value_bytes_len root) (prefetch_pages root) = Ok b →
  b = MAGIC ++ words (root_words root) ∧ len (prefetch_pages root) ≤ u32_max.
Proof.
  unfold build_root_bytes. intros H. inv_ok. split; [|done].
  rewrite foldl_push_u32. rewrite <- (app_nil_r MAGIC).
  change (MAGIC ++ []) with (MAGIC ++ words []). rewrite !push_u32_words.
  by rewrite app_nil_r, <- app_assoc, <- words_app.
Qed.

Lemma parse_prefetch_words pre page_count ws1 ws2 :
  len pre = HEADER_LEN → StronglySorted Z.lt (ws1 ++ ws2) →
  Forall (λ p, 0 ≤ p < page_count) ws2 → page_count ≤ u32_max →
  parse_prefetch (pre ++ words (ws1 ++ ws2)) page_count (length ws2) (len ws1) (last ws1) = Ok ws2.
Proof.
  intros Hpre. revert ws1; induction ws2 as [|w ws2 IH]; intros ws1 Hs Hr Hpc; [done|].
  apply Forall_cons in Hr as [Hw Hr]. cbn [parse_prefetch length].
  rewrite <- (app_nil_r (words _)).
  rewrite read_u32_words with (i := length ws1) (w := w).
  2: { by apply list_lookup_middle. }
  2: { unfold in_u32. lia. }
  2: { rewrite Hpre. unfold len. lia. }
  cbn [mbind result_bind]. rewrite (proj2 (Z.leb_gt _ _)) by lia. cbn [guard_err].
  assert (match last ws1 with Some p => w <=? p | None => false end = false) as ->.
  { destruct (last ws1) as [p|] eqn:Hp; [|done]. apply Z.leb_gt.
    apply last_Some in Hp as [ws ->].
    eapply StronglySorted_app_1_elem_of; [exact Hs|set_solver|set_solver]. }
  cbn [mbind result_bind guard_err].
  specialize (IH (ws1 ++ [w])). rewrite <- app_assoc, last_snoc in IH. simpl in IH.
  rewrite app_nil_r. rewrite len_app in IH. replace (len ws1 + len [w]) with (len ws1 + 1) in IH by done.
  by rewrite IH.
Qed.

Lemma parse_prefetch_all pre page_count ws :
  len pre = HEADER_LEN → StronglySorted Z.lt ws →
  Forall (λ p, 0 ≤ p < page_count) ws → page_count ≤ u32_max →
  parse_prefetch (pre ++ words ws) page_count (length ws) 0 None = Ok ws.
Proof. exact (parse_prefetch_words pre page_count [] ws). Qed.

(** What [parse_root] requires of the fields of a root record. *)
Definition root_ok (root : NavKvRoot) : Prop :=
  in_u32 (entry_count root) ∧ 0 < page_size root ≤ u32_max ∧
  0 < page_count root ≤ u32_max ∧ 0 ≤ root_page root < page_count root ∧
  0 ≤ value_page_start root ∧ in_u32 (value_bytes_len root) ∧
  value_page_start root + div_ceil (value_bytes_len root) (page_size root) ≤ page_count root ∧
  len (prefetch_pages root) ≤ u32_max ∧
  StronglySorted Z.lt (prefetch_pages root) ∧
  Forall (λ p, 0 ≤ p < page_count root) (prefetch_pages root).

Lemma div_ceil_nonneg a b : 0 ≤ a → 0 < b → 0 ≤ div_ceil a b.
Proof. intros. unfold div_ceil. apply Z.div_pos; lia. Qed.

(** *** Leaf pages *)

Definition entry_bytes (e : LeafEntry) : bytes :=
  match le_val e with
  | Inline value =>
      words [len (le_key e); VALUE_KIND_INLINE; len value; 0] ++ le_key e ++ value
  | External offset n =>
      words [len (le_key e); VALUE_KIND_EXTERNAL; offset; n] ++ le_key e
  end.

(** The values of an entry fit their [u32] fields. *)
Definition entry_ok (e : LeafEntry) : Prop :=
  len (le_key e) ≤ u32_max ∧
  match le_val e with
  | Inline value => len value ≤ u32_max
  | External offset n => in_u32 offset ∧ in_u32 n
  end.

Lemma encode_leaf_entry_eq e b :
  encode_leaf_entry e = Ok b → b = entry_bytes e ∧ len (le_key e) ≤ u32_max ∧
    match le_val e with Inline value => len value ≤ u32_max | External _ _ => True end.
Proof.
  unfold encode_leaf_entry, entry_bytes. intros H.
  destruct (le_val e) as [value|offset n]; inv_ok; repeat split; try done;
    unfold push_u32, words; simpl; by rewrite <- ?app_assoc, ?app_nil_r.
Qed.

Lemma encode_leaf_page_eq es next b :
  encode_leaf_page es next = Ok b →
  b = words [NODE_KIND_LEAF; len es; default NO_PAGE next] ++ concat (entry_bytes <$> es) ∧
  len es ≤ u32_max ∧
  Forall (λ e, len (le_key e) ≤ u32_max ∧
            match le_val e with Inline value => len value ≤ u32_max | External _ _ => True end) es.
Proof.
  unfold encode_leaf_page. intros H. inv_ok.
  rename a0 into encoded. apply try_map_Ok in Ha0.
  assert (encoded = entry_bytes <$> es ∧ Forall (λ e, len (le_key e) ≤ u32_max ∧
            match le_val e with Inline value => len value ≤ u32_max | External _ _ => True end) es)
    as [-> Hes]; [clear H1|done].
  induction Ha0 as [|e b es bs He Hes IH]; [done|].
  apply encode_leaf_entry_eq in He as [-> He]. destruct IH as [-> IH]. by split; [|constructor].
Qed.

Lemma len_entry_bytes_pos e : 0 < len (entry_bytes e).
Proof.
  unfold entry_bytes. destruct (le_val e); autorewrite with len;
    pose proof (len_nonneg (le_key e)); try pose proof (len_nonneg value); lia.
Qed.

(** An entry written at [offset] is read back from there. *)
Lemma parse_leaf_entry_app pre e post :
  entry_ok e →
  parse_leaf_entry (pre ++ entry_bytes e ++ post) (len pre) = Ok (e, len pre + len (entry_bytes e)).
Proof.
  destruct e as [key value]. unfold entry_ok, entry_bytes, parse_leaf_entry.
  cbn [le_key le_val].
  intros [Hk Hv]. pose proof (len_nonneg key) as Hk0.
  assert (∀ ws rest off i w, ws !! i = Some w → in_u32 w → off = len pre + 4 * Z.of_nat i →
            read_u32 (pre ++ (words ws ++ rest) ++ post) off = Ok w) as R.
  { intros. rewrite <- app_assoc. by eapply read_u32_words. }
  destruct value as [value|offset n].
  - pose proof (len_nonneg value) as Hv0.
    rewrite (R _ _ (len pre) 0%nat (len key)), (R _ _ (len pre + 4) 1%nat VALUE_KIND_INLINE),
      (R _ _ (len pre + 4 + 4) 2%nat (len value)), (R _ _ (len pre + 4 + 4 + 4) 3%nat 0)
      by (done || lia || (unfold in_u32; vm_compute; intuition discriminate)
          || (unfold in_u32; lia)).
    cbn [mbind result_bind]. set (ws := [len key; VALUE_KIND_INLINE; len value; 0]).
    assert (len ws = 4) by done.
    rewrite (get_range_split _ (pre ++ words ws) key (value ++ post) (len pre + 4 + 4 + 4 + 4));
      [|by rewrite <- !app_assoc|autorewrite with len; lia|lia].
    cbn [mbind result_bind ok_or]. rewrite Z.eqb_refl.
    rewrite (get_range_split _ (pre ++ words ws ++ key) value post (len pre + 4 + 4 + 4 + 4 + len key));
      [|by rewrite <- !app_assoc|autorewrite with len; lia|lia].
    cbn [mbind result_bind ok_or]. do 2 f_equal. autorewrite with len. lia.
  - destruct Hv as [Ho Hn].
    rewrite (R _ _ (len pre) 0%nat (len key)), (R _ _ (len pre + 4) 1%nat VALUE_KIND_EXTERNAL),
      (R _ _ (len pre + 4 + 4) 2%nat offset), (R _ _ (len pre + 4 + 4 + 4) 3%nat n)
      by (done || lia || (unfold in_u32; vm_compute; intuition discriminate)
          || (unfold in_u32; lia)).
    cbn [mbind result_bind]. set (ws := [len key; VALUE_KIND_EXTERNAL; offset; n]).
    assert (len ws = 4) by done.
    rewrite (get_range_split _ (pre ++ words ws) key post (len pre + 4 + 4 + 4 + 4));
      [|by rewrite <- !app_assoc|autorewrite with len; lia|lia].
    cbn [mbind result_bind ok_or]. change (VALUE_KIND_EXTERNAL =? VALUE_KIND_INLINE) with false.
    rewrite Z.eqb_refl. do 2 f_equal. autorewrite with len. lia.
Qed.

Lemma parse_leaf_entries_app pre es post :
  Forall entry_ok es →
  parse_leaf_entries (pre ++ concat (entry_bytes <$> es) ++ post) (length es) (len pre) = Ok es.
Proof.
  intros Hes. revert pre. induction Hes as [|e es He Hes IH]; intros pre; [done|].
  cbn [fmap list_fmap concat parse_leaf_entries length]. rewrite <- app_assoc.
  rewrite parse_leaf_entry_app by done. cbn [mbind result_bind].
  rewrite app_assoc, <- len_app, IH. done.
Qed.

Lemma leaf_page_kind es next b : encode_leaf_page es next = Ok b → read_u32 b 0 = Ok NODE_KIND_LEAF.
Proof.
  intros (-> & _)%encode_leaf_page_eq. rewrite words_cons, <- app_assoc.
  by apply (read_u32_app []).
Qed.

Lemma parse_leaf_node_encode (es : list LeafEntry) (next : option Z) (b : bytes)
  (Hes : Forall entry_ok es) (Hnext : ∀ p, next = Some p → 0 ≤ p < NO_PAGE)
  (Hb : encode_leaf_page es next = Ok b) :
  parse_leaf_node b = Ok {| next_leaf := next; leaf_entries := es |}.
Proof.
  apply encode_leaf_page_eq in Hb as (-> & Hlen & _). unfold parse_leaf_node.
  pose proof (len_nonneg es).
  set (ws := [NODE_KIND_LEAF; len es; default NO_PAGE next]).
  set (body := concat (entry_bytes <$> es)).
  assert (in_u32 (default NO_PAGE next)).
  { destruct next as [p|]; simpl; unfold in_u32, NO_PAGE, u32_max in *; [|lia].
    specialize (Hnext p eq_refl). lia. }
  rewrite (read_u32_header ws body 1 (len es) 4) by (done || lia || (unfold in_u32; lia)).
  rewrite (read_u32_header ws body 2 (default NO_PAGE next) 8) by (done || lia).
  cbn [mbind result_bind]. rewrite to_nat_len.
  pose proof (parse_leaf_entries_app (words ws) es []) as Hp.
  rewrite app_nil_r in Hp. change (len (words ws)) with LEAF_HEADER_LEN in Hp.
  fold body in Hp. rewrite Hp by done. cbn [mbind result_bind]. do 2 f_equal.
  destruct next as [p|]; [unfold default, id|done].
  specialize (Hnext p eq_refl). by rewrite (proj2 (Z.eqb_neq _ _)) by lia.
Qed.

(** A leaf page is parsed back to its entries and its successor. *)
Theorem leaf_page_roundtrip (es : list LeafEntry) (next : option Z) (b : bytes)
  (Hes : Forall entry_ok es) (Hnext : ∀ p, next = Some p → 0 ≤ p < NO_PAGE)
  (Hb : encode_leaf_page es next = Ok b) :
  parse_leaf_node b = Ok {| next_leaf := next; leaf_entries := es |}.
Proof. by apply parse_leaf_node_encode. Qed.

Definition sample_entries : list LeafEntry :=
  [{| le_key := bs "a"; le_val := Inline (bs "xy") |};
   {| le_key := bs "bc"; le_val := External 4100 5000 |}].

Lemma leaf_page_roundtrip_witness : ∃ b,
  encode_leaf_page sample_entries (Some 7) = Ok b ∧
  parse_leaf_node b = Ok {| next_leaf := Some 7; leaf_entries := sample_entries |}.
Proof.
  eexists. split; [reflexivity|].
  apply (leaf_page_roundtrip sample_entries (Some 7)); [| |reflexivity].
  - repeat constructor; unfold in_u32, u32_max; simpl; vm_compute; discriminate.
  - intros p [= <-]. vm_compute. intuition discriminate.
Defined.


(** *** Internal pages *)

Definition pivot_bytes (c : NodeSummary) : bytes :=
  words [len (ns_first_key c)] ++ ns_first_key c.

Lemma encode_internal_page_eq cs b :
  encode_internal_page cs = Ok b →
  b = words ([NODE_KIND_INTERNAL; len cs - 1; len cs] ++ (ns_page <$> cs))
        ++ concat (pivot_bytes <$> drop 1 cs) ∧
  2 ≤ len cs ≤ u32_max ∧ Forall (λ c, len (ns_first_key c) ≤ u32_max) (drop 1 cs).
Proof.
  unfold encode_internal_page. intros H. inv_ok. zbool.
  apply try_map_Ok in Ha2. rewrite foldl_push_u32.
  assert (a2 = pivot_bytes <$> drop 1 cs ∧ Forall (λ c, len (ns_first_key c) ≤ u32_max) (drop 1 cs))
    as [-> Hlen].
  { clear -Ha2. revert Ha2. generalize (drop 1 cs) as ds. intros ds Ha2.
    induction Ha2 as [|c b ds bs Hc _ [-> IH]]; [done|].
    unfold encode_pivot in Hc. inv_ok. by split; [|constructor]. }
  split; [|split; [lia|done]]. by rewrite words_app, <- !app_assoc.
Qed.

Lemma parse_children_app pre ws post :
  Forall in_u32 ws →
  parse_children (pre ++ words ws ++ post) (length ws) (len pre) = Ok (ws, len pre + 4 * len ws).
Proof.
  intros Hws. revert pre; induction Hws as [|w ws Hw Hws IH]; intros pre.
  - simpl. do 2 f_equal. change (len []) with 0. lia.
  - cbn [parse_children length]. rewrite words_cons, <- app_assoc.
    rewrite read_u32_app by done. cbn [mbind result_bind].
    rewrite app_assoc. replace (len pre + 4) with (len (pre ++ le_bytes 4 w))
      by (autorewrite with len; lia).
    rewrite IH. cbn [mbind result_bind]. do 2 f_equal. autorewrite with len. lia.
Qed.

Lemma parse_pivots_app pre cs post :
  Forall (λ c, len (ns_first_key c) ≤ u32_max) cs →
  parse_pivots (pre ++ concat (pivot_bytes <$> cs) ++ post) (length cs) (len pre)
    = Ok (ns_first_key <$> cs).
Proof.
  intros Hcs. revert pre; induction Hcs as [|c cs Hc Hcs IH]; intros pre; [done|].
  pose proof (len_nonneg (ns_first_key c)).
  cbn [parse_pivots length fmap list_fmap concat].
  change (pivot_bytes c) with (words [len (ns_first_key c)] ++ ns_first_key c).
  rewrite <- !app_assoc.
  rewrite (read_u32_words pre [len (ns_first_key c)] _ 0 (len (ns_first_key c)))
    by (done || (unfold in_u32; lia) || lia).
  cbn [mbind result_bind].
  set (k := ns_first_key c) in *. set (ws := [len k]).
  assert (len ws = 1) by done.
  rewrite (get_range_split _ (pre ++ words ws) k (concat (pivot_bytes <$> cs) ++ post));
    [|by rewrite <- !app_assoc|autorewrite with len; lia|lia].
  cbn [mbind result_bind ok_or].
  specialize (IH (pre ++ words ws ++ k)). rewrite <- !app_assoc in IH.
  replace (len pre + 4 + len k) with (len (pre ++ words ws ++ k)) by (autorewrite with len; lia).
  by rewrite IH.
Qed.

Lemma internal_page_kind cs b :
  encode_internal_page cs = Ok b → read_u32 b 0 = Ok NODE_KIND_INTERNAL.
Proof.
  intros (-> & _)%encode_internal_page_eq.
  by eapply (read_u32_header _ _ 0).
Qed.

Lemma parse_internal_node_encode (cs : list NodeSummary) (b : bytes)
  (Hpages : Forall (λ c, in_u32 (ns_page c)) cs) (Hb : encode_internal_page cs = Ok b) :
  parse_internal_node b =
    Ok {| children := ns_page <$> cs; pivots := ns_first_key <$> drop 1 cs |}.
Proof.
  apply encode_internal_page_eq in Hb as (-> & Hlen & Hpiv). unfold parse_internal_node.
  set (ws := [NODE_KIND_INTERNAL; len cs - 1; len cs] ++ (ns_page <$> cs)).
  set (body := concat (pivot_bytes <$> drop 1 cs)).
  rewrite (read_u32_header ws body 1 (len cs - 1) 4) by (done || (unfold in_u32; lia)).
  rewrite (read_u32_header ws body 2 (len cs) 8) by (done || (unfold in_u32; lia)).
  cbn [mbind result_bind]. rewrite (proj2 (Z.eqb_eq _ _)) by lia. cbn [guard_err negb mbind result_bind].
  replace (Z.to_nat (len cs)) with (length (ns_page <$> cs))
    by (rewrite length_fmap, to_nat_len; done).
  unfold ws. rewrite words_app, <- app_assoc.
  pose proof (parse_children_app (words [NODE_KIND_INTERNAL; len cs - 1; len cs])
    (ns_page <$> cs) body) as Hc.
  change (len (words [NODE_KIND_INTERNAL; len cs - 1; len cs])) with INTERNAL_HEADER_LEN in Hc.
  rewrite Hc by by apply Forall_fmap. cbn [mbind result_bind].
  pose proof (parse_pivots_app (words ws) (drop 1 cs) [] Hpiv) as Hp.
  rewrite app_nil_r in Hp. fold body in Hp. unfold ws in Hp.
  rewrite words_app, <- app_assoc, len_app in Hp.
  replace (Z.to_nat (len cs - 1)) with (length (drop 1 cs))
    by (rewrite length_drop; unfold len; lia).
  rewrite (len_words (ns_page <$> cs)) in Hp.
  change (len (words [NODE_KIND_INTERNAL; len cs - 1; len cs])) with INTERNAL_HEADER_LEN in Hp.
  rewrite Hp. done.
Qed.

(** An internal page is parsed back to its child pages and to the first keys of
    all children but the first. *)
Theorem internal_page_roundtrip (cs : list NodeSummary) (b : bytes)
  (Hpages : Forall (λ c, in_u32 (ns_page c)) cs) (Hb : encode_internal_page cs = Ok b) :
  parse_internal_node b =
    Ok {| children := ns_page <$> cs; pivots := ns_first_key <$> drop 1 cs |}.
Proof. by apply parse_internal_node_encode. Qed.

Definition sample_children : list NodeSummary :=
  [{| ns_page := 0; ns_first_key := bs "a" |}; {| ns_page := 1; ns_first_key := bs "mm" |};
   {| ns_page := 2; ns_first_key := bs "x" |}].

Lemma internal_page_roundtrip_witness : ∃ b,
  encode_internal_page sample_children = Ok b ∧
  parse_internal_node b = Ok {| children := [0; 1; 2]; pivots := [bs "mm"; bs "x"] |}.
Proof.
  eexists. split; [reflexivity|].
  apply (internal_page_roundtrip sample_children); [|reflexivity].
  repeat constructor; unfold in_u32, u32_max; simpl; lia.
Defined.

Lemma parse_root_build (root : NavKvRoot) (b : bytes) (Hok : root_ok root)
  (Hb : build_root_bytes (entry_count root) (page_size root) (root_page root)
          (page_count root) (value_page_start root) (value_bytes_len root)
          (prefetch_pages root) = Ok b) :
  parse_root b = Ok root.
Proof.
  apply build_root_bytes_eq in Hb as [-> Hpl].
  destruct Hok as (Hec & Hps & Hpc & Hrp & Hvs & Hvl & Hsum & _ & Hsorted & Hrange).
  pose proof (div_ceil_nonneg (value_bytes_len root) (page_size root)) as Hdc.
  unfold in_u32 in *. specialize (Hdc ltac:(lia) ltac:(lia)).
  assert (∀ i w, root_words root !! i = Some w → in_u32 w →
            read_u32 (MAGIC ++ words (root_words root)) (16 + 4 * Z.of_nat i) = Ok w) as Hread.
  { intros i w Hi Hw. rewrite <- (app_nil_r (words _)). by eapply read_u32_words. }
  assert (len (MAGIC ++ words (root_words root)) = 64 + 4 * len (prefetch_pages root)) as Hlen.
  { unfold root_words. autorewrite with len. change (len MAGIC) with 16. lia. }
  assert (∀ off i w, off = 16 + 4 * Z.of_nat i → root_words root !! i = Some w → in_u32 w →
            read_u32 (MAGIC ++ words (root_words root)) off = Ok w) as R.
  { intros ???->. apply Hread. }
  pose proof (len_nonneg (prefetch_pages root)) as Hnn.
  unfold parse_root, HEADER_LEN, PREFETCH_COUNT_OFFSET. rewrite Hlen.
  rewrite (proj2 (Z.ltb_ge _ _)) by lia. cbn [mbind result_bind guard_err].
  rewrite bool_decide_eq_true_2 by done. cbn [mbind result_bind guard_err negb].
  rewrite (R 16 0%nat NAVKV_STORAGE_FORMAT), (R 20 1%nat (entry_count root)),
    (R 24 2%nat (page_size root)), (R 28 3%nat (root_page root)), (R 32 4%nat (page_count root)),
    (R 36 5%nat (value_page_start root)), (R 40 6%nat (value_bytes_len root)),
    (R 56 10%nat (len (prefetch_pages root))) by (done || (unfold in_u32; lia)).
  cbn [mbind result_bind]. rewrite Z.eqb_refl. cbn [mbind result_bind guard_err negb].
  rewrite (proj2 (Z.eqb_neq (page_size root) 0)), (proj2 (Z.eqb_neq (page_count root) 0)),
    (proj2 (Z.leb_gt _ _)), (proj2 (Z.ltb_ge (page_count root) (value_page_start root))) by lia.
  cbn [mbind result_bind guard_err]. rewrite wrap32_small by (unfold in_u32; lia).
  rewrite (proj2 (Z.ltb_ge _ _)) by lia. cbn [mbind result_bind guard_err].
  unfold checked_mul, checked_add, usize_max, u64_max, u32_max in *.
  rewrite (proj2 (Z.leb_le _ _)) by lia. cbn [mbind result_bind ok_or].
  rewrite (proj2 (Z.leb_le _ _)) by lia. cbn [mbind result_bind ok_or].
  rewrite (proj2 (Z.eqb_eq _ _)) by lia. cbn [mbind result_bind guard_err negb].
  unfold root_words. rewrite words_app, app_assoc.
  rewrite to_nat_len.
  rewrite parse_prefetch_all by (done || (unfold u32_max; lia)).
  by destruct root.
Qed.

(** Every root record the builder can write is parsed back to the same record. *)
Theorem root_roundtrip (root : NavKvRoot) (b : bytes) (Hok : root_ok root)
  (Hb : build_root_bytes (entry_count root) (page_size root) (root_page root)
          (page_count root) (value_page_start root) (value_bytes_len root)
          (prefetch_pages root) = Ok b) :
  parse_root b = Ok root.
Proof. by apply parse_root_build. Qed.

Definition sample_root : NavKvRoot :=
  {| entry_count := 3; page_size := 256; root_page := 2; page_count := 5;
     value_page_start := 3; value_bytes_len := 300; prefetch_pages := [0; 2; 3] |}.

Lemma root_roundtrip_witness : ∃ b,
  build_root_bytes 3 256 2 5 3 300 [0; 2; 3] = Ok b ∧ parse_root b = Ok sample_root.
Proof.
  eexists. split; [reflexivity|]. apply (root_roundtrip sample_root); [|reflexivity].
  unfold root_ok, in_u32, u32_max; simpl.
  repeat (split; [try (vm_compute; intuition discriminate)|]); [|repeat constructor; lia].
  repeat constructor.
Defined.
