(* ===== verification/NavKvDelta.v ===== *)
(** * Deltas between sorted key/value lists (crates/had-nav-kv)

    [build_nav_kv_delta] and [apply_nav_kv_delta] with the validation both run
    first. The abstract view of a list of pairs, or of a delta, is the finite map
    it denotes; applying a delta is an update of that map. *)

From Stdlib Require Import Strings.Byte.
From stdpp Require Import base list strings gmap sorting.
From S2P Require Import Prelude NavKvFormat.

Local Open Scope Z_scope.

(** ** Definitions *)

Record NavKvDeltaEntry := { de_key : bytes; de_value : option bytes }.
Record NavKvDelta := { delta_entries : list NavKvDeltaEntry }.

(** The comparison with the previous key that both validators end with. *)
Definition check_order (previous : option bytes) (key : bytes) : result nav_kv_error unit :=
  match previous with
  | None => Ok tt
  | Some previous =>
      match bytes_cmp previous key with
      | Lt => Ok tt
      | Eq => Err (DuplicateKey key)
      | Gt => Err (NotSorted previous key)
      end
  end.

(** The loop of both validators, over pairs or over delta entries. The messages of the
    second carry the word delta; their constructors are the same here. *)
Fixpoint validate_loop {A} (key : A → bytes) (empty_value : A → bool)
    (previous : option bytes) (l : list A) : result nav_kv_error unit :=
  match l with
  | [] => Ok tt
  | x :: l =>
      _ ← guard_err (bool_decide (key x = [])) EmptyKey;
      _ ← guard_err (empty_value x) (EmptyValue (key x));
      _ ← check_order previous (key x);
      validate_loop key empty_value (Some (key x)) l
  end.
Definition validate_sorted_unique_pairs (pairs : list NavKvPair) : result nav_kv_error unit :=
  validate_loop pair_key (λ p, bool_decide (pair_value p = [])) None pairs.
Definition validate_sorted_unique_delta (delta : NavKvDelta) : result nav_kv_error unit :=
  validate_loop de_key (λ e, bool_decide (de_value e = Some [])) None (delta_entries delta).

Definition upsert (p : NavKvPair) : NavKvDeltaEntry :=
  {| de_key := pair_key p; de_value := Some (pair_value p) |}.
Definition removal (p : NavKvPair) : NavKvDeltaEntry :=
  {| de_key := pair_key p; de_value := None |}.

(** The merge loop: [from] and [to] are what is left of the two lists at the
    indices [left] and [right]. *)
Fixpoint build_delta_loop (from : list NavKvPair) : list NavKvPair → list NavKvDeltaEntry :=
  fix inner (to : list NavKvPair) : list NavKvDeltaEntry :=
    match from, to with
    | f :: from', t :: to' =>
        match bytes_cmp (pair_key f) (pair_key t) with
        | Lt => removal f :: build_delta_loop from' to
        | Gt => upsert t :: inner to'
        | Eq =>
            if bool_decide (pair_value f ≠ pair_value t)
            then upsert t :: build_delta_loop from' to'
            else build_delta_loop from' to'
        end
    | f :: from', [] => removal f :: build_delta_loop from' []
    | [], t :: to' => upsert t :: inner to'
    | [], [] => []
    end.

Definition build_nav_kv_delta (from to : list NavKvPair) : result nav_kv_error NavKvDelta :=
  _ ← validate_sorted_unique_pairs from;
  _ ← validate_sorted_unique_pairs to;
  Ok {| delta_entries := build_delta_loop from to |}.

(** [if let Some(value) = &entry.value { out.push(..) }]. *)
Definition push_entry (entry : NavKvDeltaEntry) : list NavKvPair :=
  match de_value entry with
  | Some value => [{| pair_key := de_key entry; pair_value := value |}]
  | None => []
  end.

Fixpoint apply_delta_loop (from : list NavKvPair) : list NavKvDeltaEntry → list NavKvPair :=
  fix inner (entries : list NavKvDeltaEntry) : list NavKvPair :=
    match from, entries with
    | p :: from', entry :: entries' =>
        match bytes_cmp (pair_key p) (de_key entry) with
        | Lt => p :: apply_delta_loop from' entries
        | Gt => push_entry entry ++ inner entries'
        | Eq => push_entry entry ++ apply_delta_loop from' entries'
        end
    | p :: from', [] => p :: apply_delta_loop from' []
    | [], entry :: entries' => push_entry entry ++ inner entries'
    | [], [] => []
    end.

Definition apply_nav_kv_delta (from : list NavKvPair) (delta : NavKvDelta)
    : result nav_kv_error (list NavKvPair) :=
  _ ← validate_sorted_unique_pairs from;
  _ ← validate_sorted_unique_delta delta;
  Ok (apply_delta_loop from (delta_entries delta)).

(** ** Specification *)

(** What the validators accept: non-empty keys in strictly ascending order, no empty
    value. *)
Definition sorted_by {A} (key : A → bytes) (l : list A) : Prop :=
  StronglySorted bytes_lt (key <$> l).
Definition pairs_ok (pairs : list NavKvPair) : Prop :=
  Forall (λ p, pair_key p ≠ [] ∧ pair_value p ≠ []) pairs ∧ sorted_by pair_key pairs.
Definition entries_ok (entries : list NavKvDeltaEntry) : Prop :=
  Forall (λ e, de_key e ≠ [] ∧ de_value e ≠ Some []) entries ∧ sorted_by de_key entries.

(** The map a list of pairs denotes, and the edits a delta denotes. *)
Definition pairs_map (pairs : list NavKvPair) : gmap bytes bytes :=
  list_to_map ((λ p, (pair_key p, pair_value p)) <$> pairs).
Definition delta_map (entries : list NavKvDeltaEntry) : gmap bytes (option bytes) :=
  list_to_map ((λ e, (de_key e, de_value e)) <$> entries).

(** Applying edits to a map: an edit replaces or removes its key. *)
Definition apply_edits (edits : gmap bytes (option bytes)) (m : gmap bytes bytes)
    : gmap bytes bytes :=
  merge (λ edit old, match edit with Some new => new | None => old end) edits m.

(** ** Lemmas *)

Lemma check_order_Ok previous key u :
  check_order previous key = Ok u ↔ ∀ p, previous = Some p → bytes_lt p key.
Proof.
  destruct u, previous as [p|]; simpl; [|naive_solver]. unfold bytes_lt.
  destruct (bytes_cmp p key) eqn:H; split; try done;
    first [intros H'; specialize (H' p eq_refl); congruence | by intros _ ? [= <-]].
Qed.

(** A list of keys is sorted after [previous]. *)
Definition after (previous : option bytes) (keys : list bytes) : Prop :=
  match previous with Some p => Forall (bytes_lt p) keys | None => True end.

Lemma sorted_after previous key keys :
  (∀ p, previous = Some p → bytes_lt p key) →
  StronglySorted bytes_lt (key :: keys) → after previous (key :: keys).
Proof.
  intros Hp Hs. destruct previous as [p|]; [|done]. specialize (Hp p eq_refl).
  apply StronglySorted_inv in Hs as [_ Hk]. constructor; [done|].
  eapply Forall_impl; [exact Hk|]. intros k. by etrans.
Qed.

Lemma sorted_by_cons {A} (key : A → bytes) x l :
  sorted_by key (x :: l) ↔ sorted_by key l ∧ Forall (bytes_lt (key x)) (key <$> l).
Proof.
  unfold sorted_by. cbn [fmap list_fmap]. split; [apply StronglySorted_inv|].
  intros [??]. by constructor.
Qed.

Lemma validate_loop_iff {A} (key : A → bytes) empty_value previous l :
  validate_loop key empty_value previous l = Ok tt ↔
  Forall (λ x, key x ≠ [] ∧ empty_value x = false) l ∧ sorted_by key l ∧
  after previous (key <$> l).
Proof.
  revert previous; induction l as [|x l IH]; intros previous.
  - split; [|done]. intros _. split; [constructor|split; [constructor|]].
    destruct previous; constructor.
  - cbn [validate_loop]. rewrite Forall_cons, sorted_by_cons. split.
    + intros H. inv_ok. zbool. rewrite check_order_Ok in Ha1. apply IH in H as (Hf & Hs & Hk).
      split_and!; try done. apply sorted_after; [done|]. by apply SSorted_cons.
    + intros [[[Hk1 Hv1] Hf] [[Hs Hlt] Hk]].
      rewrite bool_decide_eq_false_2 by done. rewrite Hv1. cbn [guard_err mbind result_bind].
      assert (check_order previous (key x) = Ok tt) as ->.
      { apply check_order_Ok. intros p ->. by apply Forall_cons in Hk as [? _]. }
      cbn [mbind result_bind]. by apply IH.
Qed.

Lemma validate_pairs_iff pairs : validate_sorted_unique_pairs pairs = Ok tt ↔ pairs_ok pairs.
Proof.
  unfold validate_sorted_unique_pairs, pairs_ok. rewrite validate_loop_iff. simpl.
  setoid_rewrite bool_decide_eq_false. naive_solver.
Qed.
Lemma validate_delta_iff delta :
  validate_sorted_unique_delta delta = Ok tt ↔ entries_ok (delta_entries delta).
Proof.
  unfold validate_sorted_unique_delta, entries_ok. rewrite validate_loop_iff. simpl.
  setoid_rewrite bool_decide_eq_false. naive_solver.
Qed.

(** Lookups in the maps of sorted lists. *)
Lemma pairs_map_cons p pairs :
  pairs_map (p :: pairs) = <[pair_key p := pair_value p]> (pairs_map pairs).
Proof. done. Qed.
Lemma delta_map_cons e entries :
  delta_map (e :: entries) = <[de_key e := de_value e]> (delta_map entries).
Proof. done. Qed.

Lemma pairs_map_below k pairs :
  Forall (bytes_lt k) (pair_key <$> pairs) → pairs_map pairs !! k = None.
Proof.
  induction pairs as [|p pairs IH]; [done|]. cbn [fmap list_fmap].
  intros [Hp Hk]%Forall_cons. rewrite pairs_map_cons, lookup_insert_ne; [by apply IH|].
  by apply not_eq_sym, bytes_lt_ne.
Qed.
Lemma delta_map_below k entries :
  Forall (bytes_lt k) (de_key <$> entries) → delta_map entries !! k = None.
Proof.
  induction entries as [|e entries IH]; [done|]. cbn [fmap list_fmap].
  intros [Hp Hk]%Forall_cons. rewrite delta_map_cons, lookup_insert_ne; [by apply IH|].
  by apply not_eq_sym, bytes_lt_ne.
Qed.

Lemma Forall_bytes_lt_trans k k' keys :
  bytes_lt k k' → Forall (bytes_lt k') keys → Forall (bytes_lt k) keys.
Proof. intros Hk Hkeys. eapply Forall_impl; [exact Hkeys|]. intros x. by etrans. Qed.

(** Two-list induction that follows the merge loops. *)
Lemma merge_ind {A B} (P : list A → list B → Prop) :
  P [] [] → (∀ x xs, P xs [] → P (x :: xs) []) → (∀ y ys, P [] ys → P [] (y :: ys)) →
  (∀ x xs y ys, P xs (y :: ys) → P (x :: xs) ys → P xs ys → P (x :: xs) (y :: ys)) →
  ∀ xs ys, P xs ys.
Proof.
  intros H0 Hl Hr Hb xs. induction xs as [|x xs IHx]; intros ys; induction ys; auto.
Qed.

Lemma apply_loop_nil_l entries :
  apply_delta_loop [] entries = concat (push_entry <$> entries).
Proof. induction entries as [|e entries IH]; [done|]. simpl. by f_equal. Qed.
Lemma apply_loop_nil_r from : apply_delta_loop from [] = from.
Proof. induction from as [|p from IH]; [done|]. simpl. by f_equal. Qed.
Lemma build_loop_nil_l to : build_delta_loop [] to = upsert <$> to.
Proof. induction to as [|t to IH]; [done|]. simpl. by f_equal. Qed.
Lemma build_loop_nil_r from : build_delta_loop from [] = removal <$> from.
Proof. induction from as [|p from IH]; [done|]. simpl. by f_equal. Qed.

Lemma apply_loop_cons p from e entries :
  apply_delta_loop (p :: from) (e :: entries) =
    match bytes_cmp (pair_key p) (de_key e) with
    | Lt => p :: apply_delta_loop from (e :: entries)
    | Gt => push_entry e ++ apply_delta_loop (p :: from) entries
    | Eq => push_entry e ++ apply_delta_loop from entries
    end.
Proof. done. Qed.
Lemma build_loop_cons f from t to :
  build_delta_loop (f :: from) (t :: to) =
    match bytes_cmp (pair_key f) (pair_key t) with
    | Lt => removal f :: build_delta_loop from (t :: to)
    | Gt => upsert t :: build_delta_loop (f :: from) to
    | Eq => if bool_decide (pair_value f ≠ pair_value t)
            then upsert t :: build_delta_loop from to
            else build_delta_loop from to
    end.
Proof. done. Qed.

(** The keys of a delta are keys of one of the two lists. *)
Lemma build_loop_keys (P : bytes → Prop) from to :
  Forall P (pair_key <$> from) → Forall P (pair_key <$> to) →
  Forall P (de_key <$> build_delta_loop from to).
Proof.
  revert from to. refine (merge_ind _ _ _ _ _).
  - constructor.
  - intros f from IH [? Hf]%Forall_cons Ht. rewrite build_loop_nil_r in *.
    constructor; [done|]. by apply IH.
  - intros t to IH Hf [? Ht]%Forall_cons. rewrite build_loop_nil_l in *.
    constructor; [done|]. by apply IH.
  - intros f from t to IH1 IH2 IH3 Hf Ht. rewrite build_loop_cons.
    pose proof (Forall_cons_1 _ _ _ Hf) as [Hf1 Hf2].
    pose proof (Forall_cons_1 _ _ _ Ht) as [Ht1 Ht2].
    destruct (bytes_cmp _ _); [|constructor; auto..].
    case_bool_decide; [constructor|]; auto.
Qed.

(** The keys of the result are keys of the list or of the delta. *)
Lemma apply_loop_keys (P : bytes → Prop) from entries :
  Forall P (pair_key <$> from) → Forall P (de_key <$> entries) →
  Forall P (pair_key <$> apply_delta_loop from entries).
Proof.
  assert (∀ e, P (de_key e) → Forall P (pair_key <$> push_entry e)) as Hpush.
  { intros e He. unfold push_entry. destruct (de_value e); repeat constructor. done. }
  revert from entries. refine (merge_ind _ _ _ _ _).
  - constructor.
  - intros f from IH [? Hf]%Forall_cons _. rewrite apply_loop_nil_r in *. by constructor.
  - intros e es IH Hf [? He]%Forall_cons. rewrite apply_loop_nil_l in *.
    cbn [fmap list_fmap concat]. rewrite fmap_app. apply Forall_app. auto.
  - intros f from e es IH1 IH2 IH3 Hf He. rewrite apply_loop_cons.
    pose proof (Forall_cons_1 _ _ _ Hf) as [Hf1 Hf2].
    pose proof (Forall_cons_1 _ _ _ He) as [He1 He2].
    destruct (bytes_cmp _ _); [|constructor; auto|];
      rewrite fmap_app; apply Forall_app; auto.
Qed.

Lemma sorted_push_entry e l :
  sorted_by pair_key l → Forall (bytes_lt (de_key e)) (pair_key <$> l) →
  sorted_by pair_key (push_entry e ++ l).
Proof. intros. unfold push_entry. destruct (de_value e); simpl; [by apply sorted_by_cons|done]. Qed.

Lemma lookup_push_entry e l k :
  pairs_map l !! de_key e = None →
  pairs_map (push_entry e ++ l) !! k = if decide (k = de_key e) then de_value e else pairs_map l !! k.
Proof.
  intros Hl. unfold push_entry. destruct (de_value e) as [v|]; cbn [app].
  - rewrite pairs_map_cons. cbn [pair_key pair_value]. case_decide; subst; by simplify_map_eq.
  - case_decide; by subst.
Qed.

Lemma apply_loop_sorted from entries :
  sorted_by pair_key from → sorted_by de_key entries →
  sorted_by pair_key (apply_delta_loop from entries).
Proof.
  revert from entries. refine (merge_ind _ _ _ _ _).
  - constructor.
  - intros. by rewrite apply_loop_nil_r.
  - intros e es IH Hf [Hs He]%sorted_by_cons. rewrite apply_loop_nil_l in *.
    apply sorted_push_entry; [by apply IH|]. rewrite <- apply_loop_nil_l.
    by apply apply_loop_keys; [constructor|].
  - intros p from e es IH1 IH2 IH3 Hf He. rewrite apply_loop_cons.
    pose proof Hf as [Hf1 Hf2]%sorted_by_cons. pose proof He as [He1 He2]%sorted_by_cons.
    destruct (bytes_cmp _ _) eqn:Hc.
    + apply bytes_cmp_eq in Hc. apply sorted_push_entry; [by apply IH3|].
      apply apply_loop_keys; [by rewrite <- Hc|done].
    + apply sorted_by_cons. split; [by apply IH1|]. apply apply_loop_keys; [done|].
      constructor; [done|]. by eapply Forall_bytes_lt_trans.
    + apply bytes_cmp_gt in Hc. apply sorted_push_entry; [by apply IH2|].
      apply apply_loop_keys; [|done]. constructor; [done|]. by eapply Forall_bytes_lt_trans.
Qed.

Lemma apply_loop_lookup from entries :
  sorted_by pair_key from → sorted_by de_key entries →
  ∀ k, pairs_map (apply_delta_loop from entries) !! k =
    match delta_map entries !! k with Some new => new | None => pairs_map from !! k end.
Proof.
  revert from entries. refine (merge_ind _ _ _ _ _).
  - done.
  - intros p from _ _ _ k. by rewrite apply_loop_nil_r.
  - intros e es IH Hf [Hs He]%sorted_by_cons k. rewrite apply_loop_nil_l.
    cbn [fmap list_fmap concat]. rewrite <- (apply_loop_nil_l es), lookup_push_entry.
    + rewrite delta_map_cons, IH by done. case_decide; subst; by simplify_map_eq.
    + apply pairs_map_below, apply_loop_keys; [constructor|done].
  - intros p from e es IH1 IH2 IH3 Hf He k. rewrite apply_loop_cons.
    pose proof Hf as [Hf1 Hf2]%sorted_by_cons. pose proof He as [He1 He2]%sorted_by_cons.
    destruct (bytes_cmp _ _) eqn:Hc.
    + apply bytes_cmp_eq in Hc. rewrite lookup_push_entry.
      * rewrite delta_map_cons, pairs_map_cons, IH3 by done. case_decide; subst; simplify_map_eq; [done|].
        by rewrite lookup_insert_ne by (rewrite Hc; done).
      * apply pairs_map_below, apply_loop_keys; [by rewrite <- Hc|done].
    + rewrite !pairs_map_cons. destruct (decide (k = pair_key p)) as [->|Hk].
      * rewrite !lookup_insert_eq, delta_map_below; [done|].
        constructor; [done|]. by eapply Forall_bytes_lt_trans.
      * rewrite !(lookup_insert_ne _ (pair_key p)) by done. by apply IH1.
    + apply bytes_cmp_gt in Hc. rewrite lookup_push_entry.
      * rewrite delta_map_cons, IH2 by done. case_decide; subst; by simplify_map_eq.
      * apply pairs_map_below, apply_loop_keys; [|done]. constructor; [done|].
        by eapply Forall_bytes_lt_trans.
Qed.

Lemma build_loop_sorted from to :
  sorted_by pair_key from → sorted_by pair_key to → sorted_by de_key (build_delta_loop from to).
Proof.
  revert from to. refine (merge_ind _ _ _ _ _).
  - constructor.
  - intros f from IH [Hs Hf]%sorted_by_cons Ht. rewrite build_loop_nil_r in *.
    apply sorted_by_cons. split; [by apply IH|].
    rewrite <- build_loop_nil_r. by apply build_loop_keys.
  - intros t to IH Hf [Hs Ht]%sorted_by_cons. rewrite build_loop_nil_l in *.
    apply sorted_by_cons. split; [by apply IH|].
    rewrite <- build_loop_nil_l. by apply build_loop_keys.
  - intros f from t to IH1 IH2 IH3 Hf Ht. rewrite build_loop_cons.
    pose proof Hf as [Hf1 Hf2]%sorted_by_cons. pose proof Ht as [Ht1 Ht2]%sorted_by_cons.
    destruct (bytes_cmp _ _) eqn:Hc.
    + apply bytes_cmp_eq in Hc. case_bool_decide; [|by apply IH3].
      apply sorted_by_cons. split; [by apply IH3|]. apply build_loop_keys; [|done].
      by cbn [de_key upsert]; rewrite <- Hc.
    + apply sorted_by_cons. split; [by apply IH1|]. apply build_loop_keys; [done|].
      constructor; [done|]. by eapply Forall_bytes_lt_trans.
    + apply bytes_cmp_gt in Hc. apply sorted_by_cons. split; [by apply IH2|].
      apply build_loop_keys; [|done]. constructor; [done|]. by eapply Forall_bytes_lt_trans.
Qed.

(** Applying the delta between two lists to the first gives the second. *)
Lemma apply_build_loop from to :
  sorted_by pair_key from → sorted_by pair_key to →
  apply_delta_loop from (build_delta_loop from to) = to.
Proof.
  revert from to. refine (merge_ind _ _ _ _ _).
  - done.
  - intros f from IH [Hs Hf]%sorted_by_cons Ht. rewrite build_loop_nil_r in *.
    cbn [fmap list_fmap]. rewrite apply_loop_cons. cbn [de_key removal].
    rewrite bytes_cmp_refl. by apply IH.
  - intros t to IH Hf [Hs Ht]%sorted_by_cons. rewrite build_loop_nil_l, apply_loop_nil_l in *.
    cbn [fmap list_fmap concat]. rewrite IH by done. by destruct t.
  - intros f from t to IH1 IH2 IH3 Hf Ht. rewrite build_loop_cons.
    pose proof Hf as [Hf1 Hf2]%sorted_by_cons. pose proof Ht as [Ht1 Ht2]%sorted_by_cons.
    destruct (bytes_cmp (pair_key f) (pair_key t)) eqn:Hc.
    + case_bool_decide as Hv.
      * rewrite apply_loop_cons. cbn [de_key upsert]. rewrite Hc, IH3 by done. by destruct t.
      * apply bytes_cmp_eq in Hc.
        assert (f = t) as -> by (destruct f, t; simpl in *; congruence).
        pose proof (build_loop_keys (bytes_lt (pair_key t)) from to Hf2 Ht2) as Hk.
        destruct (build_delta_loop from to) as [|e es].
        -- rewrite apply_loop_nil_r in *. f_equal. by apply IH3.
        -- apply Forall_cons in Hk as [Hk _]. rewrite apply_loop_cons, Hk. f_equal. by apply IH3.
    + rewrite apply_loop_cons. cbn [de_key removal]. rewrite bytes_cmp_refl. by apply IH1.
    + rewrite apply_loop_cons. cbn [de_key upsert]. rewrite Hc, IH2 by done. by destruct t.
Qed.

(** The delta has an entry for a key exactly when the two lists disagree on it. *)
Lemma build_loop_lookup from to :
  sorted_by pair_key from → sorted_by pair_key to →
  ∀ k, delta_map (build_delta_loop from to) !! k =
    if decide (pairs_map from !! k = pairs_map to !! k) then None
    else Some (pairs_map to !! k).
Proof.
  revert from to. refine (merge_ind _ _ _ _ _).
  - done.
  - intros f from IH [Hs Hf]%sorted_by_cons Ht k. rewrite build_loop_nil_r in *.
    cbn [fmap list_fmap]. rewrite delta_map_cons, pairs_map_cons. cbn [de_key de_value removal].
    destruct (decide (k = pair_key f)) as [->|Hk].
    + by rewrite !lookup_insert_eq.
    + rewrite !(lookup_insert_ne _ (pair_key f)) by done. by apply IH.
  - intros t to IH Hf [Hs Ht]%sorted_by_cons k. rewrite build_loop_nil_l in *.
    cbn [fmap list_fmap]. rewrite delta_map_cons, pairs_map_cons. cbn [de_key de_value upsert].
    destruct (decide (k = pair_key t)) as [->|Hk].
    + by rewrite !lookup_insert_eq.
    + rewrite !(lookup_insert_ne _ (pair_key t)) by done. by apply IH.
  - intros f from t to IH1 IH2 IH3 Hf Ht k. rewrite build_loop_cons.
    pose proof Hf as [Hf1 Hf2]%sorted_by_cons. pose proof Ht as [Ht1 Ht2]%sorted_by_cons.
    destruct (bytes_cmp _ _) eqn:Hc.
    + apply bytes_cmp_eq in Hc. rewrite !pairs_map_cons, Hc.
      destruct (decide (k = pair_key t)) as [->|Hk].
      * rewrite !lookup_insert_eq. case_bool_decide as Hv.
        -- rewrite delta_map_cons. cbn [de_key de_value upsert]. rewrite lookup_insert_eq.
           rewrite decide_False; [done|]. congruence.
        -- rewrite decide_True by congruence.
           apply delta_map_below, build_loop_keys; [by rewrite <- Hc|done].
      * rewrite !(lookup_insert_ne _ (pair_key t)) by done.
        case_bool_decide; [|by apply IH3].
        rewrite delta_map_cons, lookup_insert_ne by done. by apply IH3.
    + rewrite delta_map_cons, (pairs_map_cons f). cbn [de_key de_value removal].
      destruct (decide (k = pair_key f)) as [->|Hk].
      * rewrite !lookup_insert_eq, (pairs_map_below _ (t :: to)); [done|].
        constructor; [done|]. by eapply Forall_bytes_lt_trans.
      * rewrite !(lookup_insert_ne _ (pair_key f)) by done. by apply IH1.
    + apply bytes_cmp_gt in Hc. rewrite delta_map_cons, (pairs_map_cons t).
      cbn [de_key de_value upsert].
      destruct (decide (k = pair_key t)) as [->|Hk].
      * rewrite !lookup_insert_eq, (pairs_map_below _ (f :: from)); [done|].
        constructor; [done|]. by eapply Forall_bytes_lt_trans.
      * rewrite !(lookup_insert_ne _ (pair_key t)) by done. by apply IH2.
Qed.

Lemma build_loop_entries from to :
  Forall (λ p, pair_key p ≠ [] ∧ pair_value p ≠ []) from →
  Forall (λ p, pair_key p ≠ [] ∧ pair_value p ≠ []) to →
  Forall (λ e, de_key e ≠ [] ∧ de_value e ≠ Some []) (build_delta_loop from to).
Proof.
  revert from to. refine (merge_ind _ _ _ _ _).
  - constructor.
  - intros f from IH [[? ?] Hf]%Forall_cons Ht. rewrite build_loop_nil_r in *.
    constructor; [done|]. by apply IH.
  - intros t to IH Hf [[? ?] Ht]%Forall_cons. rewrite build_loop_nil_l in *.
    constructor; [split; simpl; congruence|]. by apply IH.
  - intros f from t to IH1 IH2 IH3 Hf Ht. rewrite build_loop_cons.
    pose proof (Forall_cons_1 _ _ _ Hf) as [[? ?] ?].
    pose proof (Forall_cons_1 _ _ _ Ht) as [[? ?] ?].
    destruct (bytes_cmp _ _); [case_bool_decide; [|by apply IH3]|..];
      (constructor; [split; simpl; congruence|auto]).
Qed.

(** ** Properties *)

(** C29: a delta computed between two valid lists is accepted by [apply_nav_kv_delta],
    and applying it to the first list yields the second list. *)
Theorem delta_roundtrip (from to : list NavKvPair) (d : NavKvDelta)
  (Hd : build_nav_kv_delta from to = Ok d) :
  apply_nav_kv_delta from d = Ok to.
Proof.
  unfold build_nav_kv_delta in Hd. inv_ok. unfold apply_nav_kv_delta.
  rewrite Ha. cbn [mbind result_bind].
  apply validate_pairs_iff in Ha as [Hf Hfs]. apply validate_pairs_iff in Ha0 as [Ht Hts].
  rewrite (proj2 (validate_delta_iff _)).
  - cbn [mbind result_bind delta_entries]. by rewrite apply_build_loop.
  - split; [by apply build_loop_entries|by apply build_loop_sorted].
Qed.

Definition kv (k v : string) : NavKvPair := {| pair_key := bs k; pair_value := bs v |}.
Arguments kv k%_string v%_string.

Lemma delta_roundtrip_witness : ∃ d,
  build_nav_kv_delta [kv "a" "1"; kv "b" "2"; kv "d" "4"] [kv "a" "9"; kv "c" "3"; kv "d" "4"] = Ok d ∧
  apply_nav_kv_delta [kv "a" "1"; kv "b" "2"; kv "d" "4"] d =
    Ok [kv "a" "9"; kv "c" "3"; kv "d" "4"].
Proof. eexists. split; [reflexivity|]. apply delta_roundtrip. reflexivity. Defined.

(** An accepted delta acts as an update of the key/value map: the result is again
    a valid list, and it denotes the old map with every edit of the delta applied. *)
Theorem apply_delta_refines (from out : list NavKvPair) (d : NavKvDelta)
  (Hout : apply_nav_kv_delta from d = Ok out) :
  pairs_ok out ∧
  pairs_map out = apply_edits (delta_map (delta_entries d)) (pairs_map from).
Proof.
  unfold apply_nav_kv_delta in Hout. inv_ok.
  apply validate_pairs_iff in Ha as [Hf Hfs]. apply validate_delta_iff in Ha0 as [He Hes].
  split; [split|].
  - clear -Hf He. revert Hf He. generalize (delta_entries d) as es. revert from.
    assert (∀ e, de_key e ≠ [] ∧ de_value e ≠ Some [] →
              Forall (λ p, pair_key p ≠ [] ∧ pair_value p ≠ []) (push_entry e)) as Hpush.
    { intros e [Hk Hv]. unfold push_entry. destruct (de_value e); repeat constructor; simpl; congruence. }
    refine (merge_ind _ _ _ _ _).
    + constructor.
    + intros. by rewrite apply_loop_nil_r.
    + intros e es IH _ [? ?]%Forall_cons. rewrite apply_loop_nil_l in *. apply Forall_app. auto.
    + intros p from e es IH1 IH2 IH3 Hf He. rewrite apply_loop_cons.
      pose proof (Forall_cons_1 _ _ _ Hf) as [? ?]. pose proof (Forall_cons_1 _ _ _ He) as [? ?].
      destruct (bytes_cmp _ _); [apply Forall_app|constructor|apply Forall_app]; auto.
  - by apply apply_loop_sorted.
  - apply map_eq. intros k. unfold apply_edits. rewrite lookup_merge, apply_loop_lookup by done.
    unfold diag_None. by destruct (delta_map _ !! k), (pairs_map from !! k).
Qed.

Lemma apply_delta_refines_witness :
  pairs_ok [kv "a" "1"; kv "c" "3"] ∧
  pairs_map [kv "a" "1"; kv "c" "3"] =
    apply_edits (delta_map [removal (kv "b" "2"); upsert (kv "c" "3")])
      (pairs_map [kv "a" "1"; kv "b" "2"]).
Proof.
  apply (apply_delta_refines [kv "a" "1"; kv "b" "2"] [kv "a" "1"; kv "c" "3"]
    {| delta_entries := [removal (kv "b" "2"); upsert (kv "c" "3")] |}).
  reflexivity.
Defined.

(** The delta between two valid lists is exact: it has an entry for a key if and
    only if the lists disagree on that key, and the entry carries the new value or
    marks the removal. *)
Theorem build_delta_exact (from to : list NavKvPair) (d : NavKvDelta)
  (Hd : build_nav_kv_delta from to = Ok d) (k : bytes) :
  delta_map (delta_entries d) !! k =
    if decide (pairs_map from !! k = pairs_map to !! k) then None
    else Some (pairs_map to !! k).
Proof.
  unfold build_nav_kv_delta in Hd. inv_ok.
  apply validate_pairs_iff in Ha as [_ Hfs]. apply validate_pairs_iff in Ha0 as [_ Hts].
  by apply build_loop_lookup.
Qed.

Lemma build_delta_exact_witness : ∃ d,
  build_nav_kv_delta [kv "a" "1"; kv "b" "2"] [kv "a" "1"] = Ok d ∧
  delta_map (delta_entries d) !! bs "b" = Some None.
Proof.
  eexists. split; [reflexivity|].
  rewrite (build_delta_exact [kv "a" "1"; kv "b" "2"] [kv "a" "1"]) by reflexivity.
  vm_compute. reflexivity.
Defined.

(** The validators report the first problem they meet. *)
Example delta_rejects_duplicate :
  build_nav_kv_delta [kv "a" "1"; kv "a" "2"] [] = Err (DuplicateKey (bs "a")).
Proof. reflexivity. Qed.
Example delta_rejects_unsorted :
  build_nav_kv_delta [] [kv "b" "1"; kv "a" "2"] = Err (NotSorted (bs "b") (bs "a")).
Proof. reflexivity. Qed.
