(* ===== verification/NavKvRead.v ===== *)
(** * Reading a nav-kv store through a page provider (crates/had-nav-kv)

    The methods of [NavKvRoot] that take a [FnMut(u32) -> Option<Vec<u8>>]: the
    provider is a function that may change a state of its own, which every method
    threads through. The loops that follow page links are bounded by the caller;
    [RoundsExceeded] is the outcome of a loop that was not allowed enough rounds. *)

From Stdlib Require Import Strings.Byte.
From stdpp Require Import base list list_numbers strings gmap sorting.
From S2P Require Import Prelude Utf8 Search NavKvFormat.

Local Open Scope Z_scope.

(** [Absent] is [None] of the code. *)
Inductive read_failure := Absent | RoundsExceeded.

Record NavKvPrefixStats := {
  st_key_count : Z;
  st_key_bytes : Z;
  st_value_bytes : Z;
  st_inline_value_count : Z;
  st_external_value_count : Z;
  st_matching_leaf_pages : gset Z;
  st_external_value_pages : gset Z
}.

(** [starts_with]. *)
Fixpoint starts_with (key prefix : bytes) : bool :=
  match prefix, key with
  | [], _ => true
  | _ :: _, [] => false
  | p :: prefix, k :: key => bool_decide (k = p) && starts_with key prefix
  end.

(** The [for entry in &leaf.entries] loop of [prefix_keys]: the matching keys, and
    whether a later key ended the scan. *)
Fixpoint prefix_scan (prefix : bytes) (entries : list LeafEntry) : list bytes * bool :=
  match entries with
  | [] => ([], false)
  | entry :: entries =>
      if bytes_ltb (le_key entry) prefix then prefix_scan prefix entries
      else if negb (starts_with (le_key entry) prefix) then ([], true)
      else
        let '(keys, stop) := prefix_scan prefix entries in
        (from_utf8_lossy (le_key entry) :: keys, stop)
  end.

Definition empty_stats : NavKvPrefixStats :=
  {| st_key_count := 0; st_key_bytes := 0; st_value_bytes := 0; st_inline_value_count := 0;
     st_external_value_count := 0; st_matching_leaf_pages := ∅;
     st_external_value_pages := ∅ |}.

(** The pages [start..=end] of a value, as page numbers of the store. *)
Definition value_pages (root : NavKvRoot) (start_page end_page : Z) : list Z :=
  (λ value_page, wrap32 (value_page_start root + value_page))
    <$> seqZ start_page (end_page - start_page + 1).

(** One matching entry of [prefix_stats]. *)
Definition count_entry (root : NavKvRoot) (stats : NavKvPrefixStats) (entry : LeafEntry)
    : NavKvPrefixStats :=
  match le_val entry with
  | Inline value =>
      {| st_key_count := st_key_count stats + 1;
         st_key_bytes := st_key_bytes stats + len (le_key entry);
         st_value_bytes := st_value_bytes stats + len value;
         st_inline_value_count := st_inline_value_count stats + 1;
         st_external_value_count := st_external_value_count stats;
         st_matching_leaf_pages := st_matching_leaf_pages stats;
         st_external_value_pages := st_external_value_pages stats |}
  | External offset n =>
      {| st_key_count := st_key_count stats + 1;
         st_key_bytes := st_key_bytes stats + len (le_key entry);
         st_value_bytes := st_value_bytes stats + n;
         st_inline_value_count := st_inline_value_count stats;
         st_external_value_count := st_external_value_count stats + 1;
         st_matching_leaf_pages := st_matching_leaf_pages stats;
         st_external_value_pages :=
           if 0 <? n then
             list_to_set (value_pages root (offset `div` page_size root)
                            (wrap32 (wrap32 (offset + n) - 1) `div` page_size root))
               ∪ st_external_value_pages stats
           else st_external_value_pages stats |}
  end.

Definition mark_leaf (page : Z) (matched : bool) (stats : NavKvPrefixStats) : NavKvPrefixStats :=
  if matched then
    {| st_key_count := st_key_count stats; st_key_bytes := st_key_bytes stats;
       st_value_bytes := st_value_bytes stats;
       st_inline_value_count := st_inline_value_count stats;
       st_external_value_count := st_external_value_count stats;
       st_matching_leaf_pages := {[page]} ∪ st_matching_leaf_pages stats;
       st_external_value_pages := st_external_value_pages stats |}
  else stats.

(** The entry loop of [prefix_stats]: the statistics, whether an entry of the leaf
    matched, and whether a later key ended the scan. *)
Fixpoint stats_scan (root : NavKvRoot) (prefix : bytes) (matched : bool)
    (stats : NavKvPrefixStats) (entries : list LeafEntry) : NavKvPrefixStats * bool * bool :=
  match entries with
  | [] => (stats, matched, false)
  | entry :: entries =>
      if bytes_ltb (le_key entry) prefix then stats_scan root prefix matched stats entries
      else if negb (starts_with (le_key entry) prefix) then (stats, matched, true)
      else stats_scan root prefix true (count_entry root stats entry) entries
  end.

Section Reader.
Context {S : Type} (provider : Z → S → option bytes * S).

Definition fetch (page : Z) : ST S read_failure bytes := λ s,
  let '(o, s') := provider page s in (ok_or o Absent, s').
Definition some_or_absent {A} (o : option A) : ST S read_failure A :=
  st_lift (ok_or o Absent).

Definition read_node (root : NavKvRoot) (page : Z) : ST S read_failure Node :=
  if value_page_start root <=? page then st_err Absent
  else
    page_bytes ← fetch page;
    kind ← some_or_absent (ok (read_u32 page_bytes 0));
    if kind =? NODE_KIND_LEAF then
      leaf ← some_or_absent (ok (parse_leaf_node page_bytes)); mret (Leaf leaf)
    else if kind =? NODE_KIND_INTERNAL then
      node ← some_or_absent (ok (parse_internal_node page_bytes)); mret (Internal node)
    else st_err Absent.

Definition read_leaf (root : NavKvRoot) (page : Z) : ST S read_failure LeafNode :=
  node ← read_node root page;
  match node with
  | Leaf leaf => mret leaf
  | Internal _ => st_err Absent
  end.

Fixpoint first_leaf_loop (fuel : nat) (root : NavKvRoot) (page_index : Z)
    : ST S read_failure Z :=
  match fuel with
  | O => st_err RoundsExceeded
  | Datatypes.S fuel =>
      node ← read_node root page_index;
      match node with
      | Leaf _ => mret page_index
      | Internal node =>
          child ← some_or_absent (head (children node));
          first_leaf_loop fuel root child
      end
  end.
Definition first_leaf_page (fuel : nat) (root : NavKvRoot) : ST S read_failure Z :=
  first_leaf_loop fuel root (root_page root).

Fixpoint find_leaf_loop (fuel : nat) (root : NavKvRoot) (key : bytes) (page_index : Z)
    : ST S read_failure Z :=
  match fuel with
  | O => st_err RoundsExceeded
  | Datatypes.S fuel =>
      node ← read_node root page_index;
      match node with
      | Leaf _ => mret page_index
      | Internal node =>
          let child_index := partition_point (pivots node) (λ pivot, bytes_leb pivot key) in
          child ← some_or_absent (children node !! child_index);
          find_leaf_loop fuel root key child
      end
  end.
Definition find_leaf_page_for_key (fuel : nat) (root : NavKvRoot) (key : bytes)
    : ST S read_failure Z :=
  find_leaf_loop fuel root key (root_page root).

Definition find_leaf_entry (fuel : nat) (root : NavKvRoot) (key : bytes)
    : ST S read_failure LeafEntry :=
  leaf_page ← find_leaf_page_for_key fuel root key;
  leaf ← read_leaf root leaf_page;
  some_or_absent
    match binary_search_by (leaf_entries leaf) (λ entry, bytes_cmp (le_key entry) key) with
    | Ok index => leaf_entries leaf !! index
    | Err _ => None
    end.

(** One page of [read_external_value]. *)
Definition read_value_page (root : NavKvRoot) (start end_ value_page : Z)
    : ST S read_failure bytes :=
  page ← fetch (wrap32 (value_page_start root + value_page));
  let page_start := wrap32 (value_page * page_size root) in
  let slice_start := saturating_sub start page_start in
  let slice_end := wrap32 (Z.min end_ (wrap32 (page_start + page_size root)) - page_start) in
  if (len page <? slice_end) || (slice_end <? slice_start) then st_err Absent
  else some_or_absent (get_range page slice_start slice_end).

Fixpoint read_value_pages (root : NavKvRoot) (start end_ : Z) (value_pages : list Z)
    : ST S read_failure bytes :=
  match value_pages with
  | [] => mret []
  | value_page :: value_pages =>
      slice ← read_value_page root start end_ value_page;
      rest ← read_value_pages root start end_ value_pages;
      mret (slice ++ rest)
  end.

Definition read_external_value (root : NavKvRoot) (start n : Z) : ST S read_failure bytes :=
  if n =? 0 then mret []
  else
    end_ ← some_or_absent (checked_add u32_max start n);
    if value_bytes_len root <? end_ then st_err Absent
    else
      let start_page := start `div` page_size root in
      let end_page := (end_ - 1) `div` page_size root in
      read_value_pages root start end_ (seqZ start_page (end_page - start_page + 1)).

Definition get_value_range (fuel : nat) (root : NavKvRoot) (key : bytes)
    : ST S read_failure (Z * Z) :=
  entry ← find_leaf_entry fuel root key;
  mret match le_val entry with
       | External offset n => (offset, wrap32 (offset + n))
       | Inline _ => (0, 0)
       end.

Definition extract_value (fuel : nat) (root : NavKvRoot) (key : bytes)
    : ST S read_failure bytes :=
  entry ← find_leaf_entry fuel root key;
  match le_val entry with
  | Inline value => mret value
  | External offset n =>
      if n =? 0 then st_err Absent else read_external_value root offset n
  end.

(** [prefix_keys]: [fuel] bounds the descent, [links] the walk along leaf links. *)
Fixpoint prefix_keys_loop (links : nat) (root : NavKvRoot) (prefix : bytes) (leaf_page : Z)
    : ST S read_failure (list bytes) :=
  match links with
  | O => st_err RoundsExceeded
  | Datatypes.S links =>
      leaf ← read_leaf root leaf_page;
      let '(keys, stop) := prefix_scan prefix (leaf_entries leaf) in
      if (stop : bool) then mret keys
      else
        match next_leaf leaf with
        | Some next => rest ← prefix_keys_loop links root prefix next; mret (keys ++ rest)
        | None => mret keys
        end
  end.
Definition prefix_keys (fuel links : nat) (root : NavKvRoot) (prefix : bytes)
    : ST S read_failure (list bytes) :=
  leaf_page ← find_leaf_page_for_key fuel root prefix;
  prefix_keys_loop links root prefix leaf_page.

Fixpoint prefix_stats_loop (links : nat) (root : NavKvRoot) (prefix : bytes)
    (stats : NavKvPrefixStats) (leaf_page : Z) : ST S read_failure NavKvPrefixStats :=
  match links with
  | O => st_err RoundsExceeded
  | Datatypes.S links =>
      leaf ← read_leaf root leaf_page;
      let '(stats, matched, stop) := stats_scan root prefix false stats (leaf_entries leaf) in
      let stats := mark_leaf leaf_page matched stats in
      if (stop : bool) then mret stats
      else
        match next_leaf leaf with
        | Some next => prefix_stats_loop links root prefix stats next
        | None => mret stats
        end
  end.
Definition prefix_stats (fuel links : nat) (root : NavKvRoot) (prefix : bytes)
    : ST S read_failure NavKvPrefixStats :=
  leaf_page ← find_leaf_page_for_key fuel root prefix;
  prefix_stats_loop links root prefix empty_stats leaf_page.

Fixpoint read_pairs (root : NavKvRoot) (entries : list LeafEntry)
    : ST S read_failure (list NavKvPair) :=
  match entries with
  | [] => mret []
  | entry :: entries =>
      value ← match le_val entry with
              | Inline value => mret value
              | External offset n => read_external_value root offset n
              end;
      rest ← read_pairs root entries;
      mret ({| pair_key := from_utf8_lossy (le_key entry); pair_value := value |} :: rest)
  end.
Fixpoint pairs_loop (links : nat) (root : NavKvRoot) (leaf_page : Z)
    : ST S read_failure (list NavKvPair) :=
  match links with
  | O => st_err RoundsExceeded
  | Datatypes.S links =>
      leaf ← read_leaf root leaf_page;
      out ← read_pairs root (leaf_entries leaf);
      match next_leaf leaf with
      | Some next => rest ← pairs_loop links root next; mret (out ++ rest)
      | None => mret out
      end
  end.
(** [NavKvRoot::pairs]. *)
Definition root_pairs (fuel links : nat) (root : NavKvRoot) : ST S read_failure (list NavKvPair) :=
  leaf_page ← first_leaf_page fuel root;
  pairs_loop links root leaf_page.

(** [canonical_sha256]: the digest function is the sha2 crate's. *)
Context (sha256 : bytes → bytes).

Definition canonical_pair_bytes (p : NavKvPair) : bytes :=
  pair_key p ++ [x00] ++ le_bytes 8 (len (pair_value p)) ++ [x00] ++ pair_value p ++ [xff].

Definition nav_kv_canonical_sha256_from_pairs (pairs : list NavKvPair) : bytes :=
  hex_lower (sha256 (concat (canonical_pair_bytes <$> pairs))).

Definition canonical_sha256 (fuel links : nat) (root : NavKvRoot) : ST S read_failure bytes :=
  pairs ← root_pairs fuel links root;
  mret (hex_lower (sha256 (concat (canonical_pair_bytes <$> pairs)))).
End Reader.
