(* ===== verification/NavKvBuild.v ===== *)
(** * Building a nav-kv store (crates/had-nav-kv)

    From sorted key/value pairs to the root record, the leaf pages, the levels of
    internal pages and the value pages, with the list of pages to prefetch. *)

From Stdlib Require Import Strings.Byte.
From stdpp Require Import base list list_numbers strings gmap sorting.
From S2P Require Import Prelude Utf8 Search NavKvFormat NavKvDelta NavKvRead.

Local Open Scope Z_scope.

Record NavKvBuildOutput := {
  bo_root_bytes : bytes;
  bo_pages : list bytes;
  bo_page_size : Z;
  bo_logical_bytes_len : Z;
  bo_value_bytes_len : Z;
  bo_prefetch_pages : list Z
}.

Inductive NavKvPrefetch :=
| PrefetchValue (key : bytes)
| PrefetchLookup (key : bytes).

(** ** Validation *)

Definition inline_value_len (value : bytes) : Z :=
  if len value <=? INLINE_VALUE_MAX_LEN then len value else 0.

Fixpoint validate_pairs_loop (page_size : Z) (previous : option bytes) (pairs : list NavKvPair)
    : result nav_kv_error unit :=
  match pairs with
  | [] => Ok tt
  | p :: pairs =>
      _ ← guard_err (bool_decide (pair_key p = [])) EmptyKey;
      _ ← guard_err (bool_decide (pair_value p = [])) (EmptyValue (pair_key p));
      _ ← guard_err (page_size <? LEAF_HEADER_LEN + LEAF_ENTRY_FIXED_LEN + len (pair_key p)
                                  + inline_value_len (pair_value p))
            (KeyTooLarge (pair_key p));
      _ ← check_order previous (pair_key p);
      validate_pairs_loop page_size (Some (pair_key p)) pairs
  end.

Definition validate_pairs (pairs : list NavKvPair) (page_size : Z) : result nav_kv_error unit :=
  _ ← guard_err (page_size =? 0) PageSizeZero;
  _ ← guard_err (bool_decide (pairs = [])) NoPairs;
  validate_pairs_loop page_size None pairs.

(** ** Entries

    The first loop of the builder: short values stay inline, long values are
    appended to the value bytes. *)
Fixpoint split_values (pairs : list NavKvPair) (value_bytes : bytes)
    : result nav_kv_error (list LeafEntry * bytes) :=
  match pairs with
  | [] => Ok ([], value_bytes)
  | p :: pairs =>
      value_len ← ok_or (try_into u32_max (len (pair_value p))) ValueLengthTooLarge;
      '(value, value_bytes) ←
        (if len (pair_value p) <=? INLINE_VALUE_MAX_LEN
         then Ok (Inline (pair_value p), value_bytes)
         else
           value_offset ← ok_or (try_into u32_max (len value_bytes)) ValueBytesTooLarge;
           Ok (External value_offset value_len, value_bytes ++ pair_value p));
      '(entries, value_bytes) ← split_values pairs value_bytes;
      Ok ({| le_key := pair_key p; le_val := value |} :: entries, value_bytes)
  end.

(** ** Leaf pages *)

Definition leaf_entry_encoded_len (entry : LeafEntry) : Z :=
  LEAF_ENTRY_FIXED_LEN + len (le_key entry) +
  match le_val entry with Inline value => len value | External _ _ => 0 end.

(** The packing loop: [current] is the open group and [current_size] its page size. *)
Fixpoint pack_leaf_groups (page_size : Z) (current : list LeafEntry) (current_size : Z)
    (entries : list LeafEntry) : result nav_kv_error (list (list LeafEntry)) :=
  match entries with
  | [] => Ok (match current with [] => [] | _ => [current] end)
  | entry :: entries =>
      let entry_size := leaf_entry_encoded_len entry in
      let full := negb (bool_decide (current = [])) && (page_size <? current_size + entry_size) in
      let closed := if full then [current] else [] in
      let current := if full then [] else current in
      let current_size := if full then LEAF_HEADER_LEN else current_size in
      if page_size <? current_size + entry_size then Err LeafEntryTooLarge
      else
        groups ← pack_leaf_groups page_size (current ++ [entry]) (current_size + entry_size) entries;
        Ok (closed ++ groups)
  end.

Definition group_first_key (group : list LeafEntry) : bytes :=
  match head group with Some entry => le_key entry | None => [] end.

(** The page loop: [index] counts the groups already written, [total] all of them. *)
Fixpoint write_leaf_pages (first_leaf_page total index : Z) (groups : list (list LeafEntry))
    (pages : list bytes) : result nav_kv_error (list NodeSummary * list bytes) :=
  match groups with
  | [] => Ok ([], pages)
  | group :: groups =>
      let page := wrap32 (first_leaf_page + index) in
      let next_leaf := if index + 1 <? total then Some (wrap32 (page + 1)) else None in
      encoded ← encode_leaf_page group next_leaf;
      '(summaries, pages) ←
        write_leaf_pages first_leaf_page total (index + 1) groups (pages ++ [encoded]);
      Ok ({| ns_page := page; ns_first_key := group_first_key group |} :: summaries, pages)
  end.

Definition build_leaf_pages (entries : list LeafEntry) (page_size : Z) (pages : list bytes)
    : result nav_kv_error (list NodeSummary * list bytes) :=
  groups ← pack_leaf_groups page_size [] LEAF_HEADER_LEN entries;
  first_leaf_page ← ok_or (try_into u32_max (len pages)) PageCountTooLarge;
  write_leaf_pages first_leaf_page (len groups) 0 groups pages.

(** ** Internal pages *)

Definition pivot_len (child : NodeSummary) : Z := 4 + len (ns_first_key child).

Definition internal_page_size_for_children (children : list NodeSummary)
    (extra : option NodeSummary) : Z :=
  let child_count := len children + (match extra with Some _ => 1 | None => 0 end) in
  let size := INTERNAL_HEADER_LEN + child_count * 4 in
  let size := foldl Z.add size (pivot_len <$> drop 1 children) in
  match extra with
  | Some extra => if 1 <? child_count then size + pivot_len extra else size
  | None => size
  end.

Fixpoint pack_internal_loop (page_size : Z) (current : list NodeSummary)
    (children : list NodeSummary) : result nav_kv_error (list (list NodeSummary)) :=
  match children with
  | [] => Ok (match current with [] => [] | _ => [current] end)
  | child :: children =>
      let candidate_len := len current + 1 in
      let candidate_size := internal_page_size_for_children current (Some child) in
      let full := (1 <? candidate_len) && (page_size <? candidate_size) in
      let closed := if full then [current] else [] in
      let current := (if full then [] else current) ++ [child] in
      if page_size <? internal_page_size_for_children current None
      then Err InternalChildTooLarge
      else
        groups ← pack_internal_loop page_size current children;
        Ok (closed ++ groups)
  end.

(** A last group of one child borrows from, or joins, the group before it. *)
Definition regroup_last (page_size : Z) (groups : list (list NodeSummary))
    : result nav_kv_error (list (list NodeSummary)) :=
  match reverse groups with
  | [last] :: previous :: earlier =>
      if len previous <=? 2 then
        let previous := previous ++ [last] in
        if page_size <? internal_page_size_for_children previous None
        then Err InternalRegroupTooLarge
        else Ok (reverse earlier ++ [previous])
      else
        match reverse previous with
        | moved :: kept => Ok (reverse earlier ++ [reverse kept; [moved; last]])
        | [] => Ok groups
        end
  | _ => Ok groups
  end.

Definition pack_internal_groups (children : list NodeSummary) (page_size : Z)
    : result nav_kv_error (list (list NodeSummary)) :=
  groups ← pack_internal_loop page_size [] children;
  regroup_last page_size groups.

Definition summary_first_key (group : list NodeSummary) : bytes :=
  match head group with Some child => ns_first_key child | None => [] end.

Fixpoint write_internal_pages (groups : list (list NodeSummary)) (pages : list bytes)
    : result nav_kv_error (list NodeSummary * list bytes) :=
  match groups with
  | [] => Ok ([], pages)
  | group :: groups =>
      page ← ok_or (try_into u32_max (len pages)) PageCountTooLarge;
      encoded ← encode_internal_page group;
      '(summaries, pages) ← write_internal_pages groups (pages ++ [encoded]);
      Ok ({| ns_page := page; ns_first_key := summary_first_key group |} :: summaries, pages)
  end.

Definition build_internal_level (children : list NodeSummary) (page_size : Z)
    (pages : list bytes) : result nav_kv_error (list NodeSummary * list bytes) :=
  groups ← pack_internal_groups children page_size;
  write_internal_pages groups pages.

(** [while level.len() > 1]. *)
Fixpoint build_levels (fuel : nat) (page_size : Z) (level : list NodeSummary)
    (pages : list bytes) : result nav_kv_error (list NodeSummary * list bytes) :=
  if len level <=? 1 then Ok (level, pages)
  else
    match fuel with
    | O => Err LoopBound
    | S fuel =>
        '(level, pages) ← build_internal_level level page_size pages;
        build_levels fuel page_size level pages
    end.

(** ** Value pages *)

(** [value_bytes.chunks(page_size)]. *)
Fixpoint chunks_fuel (fuel : nat) (n : nat) (l : bytes) : list bytes :=
  match fuel, l with
  | S fuel, _ :: _ => take n l :: chunks_fuel fuel n (drop n l)
  | _, _ => []
  end.
Definition chunks (n : Z) (l : bytes) : list bytes := chunks_fuel (length l) (Z.to_nat n) l.

(** ** Prefetch *)

Definition trace_page (pages : list bytes) (page : Z) (touched : gset Z)
    : option bytes * gset Z :=
  (get_at pages page, {[page]} ∪ touched).

(** Following links of a store visits each of its pages at most once. *)
Definition rounds (pages : list bytes) : nat := S (length pages).

Definition trace_extract_value (root : NavKvRoot) (pages : list bytes) (key : bytes)
    : ST (gset Z) nav_kv_error bool := λ touched,
  match extract_value (trace_page pages) (rounds pages) root key touched with
  | (Ok _, touched) => (Ok true, touched)
  | (Err Absent, touched) => (Ok false, touched)
  | (Err RoundsExceeded, touched) => (Err LoopBound, touched)
  end.

Definition trace_prefix_keys (root : NavKvRoot) (pages : list bytes) (prefix : bytes)
    : ST (gset Z) nav_kv_error (list bytes) := λ touched,
  match prefix_keys (trace_page pages) (rounds pages) (rounds pages) root prefix touched with
  | (Ok keys, touched) => (Ok keys, touched)
  | (Err Absent, touched) => (Err (PrefetchScanFailed prefix), touched)
  | (Err RoundsExceeded, touched) => (Err LoopBound, touched)
  end.

Definition trace_lookup (root : NavKvRoot) (pages : list bytes) (key : bytes)
    : ST (gset Z) nav_kv_error bool := λ touched,
  match get_value_range (trace_page pages) (rounds pages) root key touched with
  | (Ok _, touched) => (Ok true, touched)
  | (Err Absent, touched) => (Ok false, touched)
  | (Err RoundsExceeded, touched) => (Err LoopBound, touched)
  end.

(** [for key in keys { trace_extract_value(..)?; }]. *)
Fixpoint trace_values (root : NavKvRoot) (pages : list bytes) (keys : list bytes)
    : ST (gset Z) nav_kv_error unit :=
  match keys with
  | [] => mret tt
  | key :: keys => _ ← trace_extract_value root pages key; trace_values root pages keys
  end.

Fixpoint trace_extra (root : NavKvRoot) (pages : list bytes) (requests : list NavKvPrefetch)
    : ST (gset Z) nav_kv_error unit :=
  match requests with
  | [] => mret tt
  | request :: requests =>
      let key := match request with PrefetchValue key | PrefetchLookup key => key end in
      found ← match request with
              | PrefetchValue key => trace_extract_value root pages key
              | PrefetchLookup key => trace_lookup root pages key
              end;
      if (found : bool) then trace_extra root pages requests
      else st_err (PrefetchKeyMissing key)
  end.

Definition startup_prefetch_trace (root : NavKvRoot) (pages : list bytes)
    (extra_prefetch_keys : list NavKvPrefetch) : ST (gset Z) nav_kv_error bool :=
  _ ← trace_extract_value root pages (bs "contract/nav-db");
  catalog ← trace_extract_value root pages (bs "chart/catalog");
  if negb catalog then mret false
  else
    _ ← trace_extract_value root pages (bs "resource/families");
    _ ← trace_extract_value root pages (bs "weather/metar-important-stations");
    _ ← trace_extract_value root pages (bs "weather/station-catalog");
    package_keys ← trace_prefix_keys root pages (bs "package/by-id/");
    _ ← trace_values root pages package_keys;
    chart_reference_keys ← trace_prefix_keys root pages (bs "chart-reference/");
    _ ← trace_values root pages chart_reference_keys;
    chart_reference_asset_keys ←
      trace_prefix_keys root pages (bs "plate/by-id/chart-reference%3A");
    _ ← trace_values root pages chart_reference_asset_keys;
    _ ← trace_extract_value root pages (bs "vector/manifest");
    _ ← trace_extra root pages extra_prefetch_keys;
    mret true.

Definition startup_prefetch_pages (root : NavKvRoot) (pages : list bytes)
    (extra_prefetch_keys : list NavKvPrefetch) : result nav_kv_error (list Z) :=
  match startup_prefetch_trace root pages extra_prefetch_keys ∅ with
  | (Ok true, touched) => Ok (set_iter touched)
  | (Ok false, _) => Ok []
  | (Err e, _) => Err e
  end.

(** ** The builder *)

Definition build_nav_kv_strict_with_extra_prefetch_keys (pairs : list NavKvPair) (page_size : Z)
    (extra_prefetch_keys : list NavKvPrefetch) : result nav_kv_error NavKvBuildOutput :=
  _ ← validate_pairs pairs page_size;
  '(leaf_entries, value_bytes) ← split_values pairs [];
  value_bytes_len ← ok_or (try_into u32_max (len value_bytes)) ValueBytesTooLarge;
  '(level, pages) ← build_leaf_pages leaf_entries page_size [];
  '(level, pages) ← build_levels (length level) page_size level pages;
  root_page ← ok_or (ns_page <$> head level) NoRootPage;
  value_page_start ← ok_or (try_into u32_max (len pages)) PageCountTooLarge;
  let pages := pages ++ chunks page_size value_bytes in
  page_count ← ok_or (try_into u32_max (len pages)) PageCountTooLarge;
  logical_bytes_len ← ok_or (checked_mul u32_max page_count page_size) LogicalLengthTooLarge;
  entry_count ← ok_or (try_into u32_max (len pairs)) EntryCountTooLarge;
  root_without_prefetch ← build_root_bytes entry_count page_size root_page page_count
                            value_page_start value_bytes_len [];
  root ← parse_root root_without_prefetch;
  prefetch_pages ← startup_prefetch_pages root pages extra_prefetch_keys;
  root_bytes ← build_root_bytes entry_count page_size root_page page_count
                 value_page_start value_bytes_len prefetch_pages;
  Ok {| bo_root_bytes := root_bytes; bo_pages := pages; bo_page_size := page_size;
        bo_logical_bytes_len := logical_bytes_len; bo_value_bytes_len := value_bytes_len;
        bo_prefetch_pages := prefetch_pages |}.

Definition build_nav_kv_strict (pairs : list NavKvPair) (page_size : Z) :=
  build_nav_kv_strict_with_extra_prefetch_keys pairs page_size [].

(** [sort_by] on the key bytes, which is stable. *)
Fixpoint insert_pair (p : NavKvPair) (l : list NavKvPair) : list NavKvPair :=
  match l with
  | [] => [p]
  | q :: l' => if bytes_leb (pair_key p) (pair_key q) then p :: l else q :: insert_pair p l'
  end.
Definition sort_pairs (pairs : list NavKvPair) : list NavKvPair := foldr insert_pair [] pairs.

Definition build_nav_kv_sorted (pairs : list NavKvPair) (page_size : Z) :=
  build_nav_kv_strict_with_extra_prefetch_keys (sort_pairs pairs) page_size [].
Definition build_nav_kv_sorted_with_extra_prefetch_keys (pairs : list NavKvPair)
    (page_size : Z) (extra_prefetch_keys : list NavKvPrefetch) :=
  build_nav_kv_strict_with_extra_prefetch_keys (sort_pairs pairs) page_size extra_prefetch_keys.
