(* ===== verification/NavKvTree.v ===== *)
(** * What the nav-kv reader finds in a well-formed tree

    [subtree] describes a tree of pages over a sequence of leaves. The lemmas relate
    the reading methods of [NavKvRead], run with any provider that serves the pages,
    to the sorted list of entries the leaves hold. *)

From Stdlib Require Import Strings.Byte.
From stdpp Require Import base list list_numbers strings gmap sorting sets.
From S2P Require Import Prelude Utf8 Search NavKvFormat NavKvDelta NavKvRead.

Local Open Scope Z_scope.

(** ** Outcomes of stateful computations *)

(** From every state of the provider, the result is [r]. *)
Definition outcome {S E A} (c : ST S E A) (r : result E A) : Prop := ∀ s, (c s).1 = r.

Lemma outcome_ret {S E A} (a : A) : outcome (mret a : ST S E A) (Ok a).
Proof. done. Qed.
Lemma outcome_err {S E A} (e : E) : outcome (st_err e : ST S E A) (Err e).
Proof. done. Qed.
Lemma outcome_bind {S E A B} (c : ST S E A) (f : A → ST S E B) a r :
  outcome c (Ok a) → outcome (f a) r → outcome (c ≫= f) r.
Proof.
  intros Hc Hf s. rewrite ST_bind_unfold. specialize (Hc s).
  destruct (c s) as [[a'|e] s']; simpl in Hc; simplify_eq. apply Hf.
Qed.
Lemma outcome_bind_err {S E A B} (c : ST S E A) (f : A → ST S E B) e :
  outcome c (Err e) → outcome (c ≫= f) (Err e).
Proof.
  intros Hc s. rewrite ST_bind_unfold. specialize (Hc s).
  destruct (c s) as [[a'|e'] s']; simpl in Hc; by simplify_eq.
Qed.
Lemma outcome_some {S A} (o : option A) a :
  o = Some a → outcome (some_or_absent o : ST S _ A) (Ok a).
Proof. by intros ->. Qed.
Lemma outcome_none {S A} (o : option A) :
  o = None → outcome (some_or_absent o : ST S _ A) (Err Absent).
Proof. by intros ->. Qed.
#[export] Hint Resolve outcome_ret outcome_err outcome_some outcome_none : aerobag.

(** ** Trees *)

Abbreviation leaf_ref := (Z * list LeafEntry)%type.

Definition entries_of (leaves : list leaf_ref) : list LeafEntry := concat (snd <$> leaves).
Definition first_key (leaves : list leaf_ref) : bytes :=
  match entries_of leaves with e :: _ => le_key e | [] => [] end.

Section Tree.
(** The pages of a store, the first [limit] of which are node pages. *)
Context (pages : list bytes) (limit : Z).

Definition leaf_at (page : Z) (next : option Z) (es : list LeafEntry) : Prop :=
  0 ≤ page < limit ∧ ∃ b, get_at pages page = Some b ∧ read_u32 b 0 = Ok NODE_KIND_LEAF ∧
    parse_leaf_node b = Ok {| next_leaf := next; leaf_entries := es |}.
Definition internal_at (page : Z) (cs : list Z) (ps : list bytes) : Prop :=
  0 ≤ page < limit ∧ ∃ b, get_at pages page = Some b ∧ read_u32 b 0 = Ok NODE_KIND_INTERNAL ∧
    parse_internal_node b = Ok {| children := cs; pivots := ps |}.

(** A tree of height [h] rooted at [page] over a sequence of leaves. *)
Inductive subtree : nat → Z → list leaf_ref → Prop :=
| subtree_leaf page next es :
    leaf_at page next es → es ≠ [] → subtree 0 page [(page, es)]
| subtree_internal h page cs segs :
    internal_at page cs (first_key <$> drop 1 segs) →
    Forall2 (subtree h) cs segs → segs ≠ [] →
    subtree (S h) page (concat segs).

(** Each leaf links to the next one. *)
Fixpoint chain (leaves : list leaf_ref) : Prop :=
  match leaves with
  | [] => True
  | (page, es) :: leaves => leaf_at page (fst <$> head leaves) es ∧ chain leaves
  end.

Lemma subtree_nonempty h page ls : subtree h page ls → Forall (λ l, l.2 ≠ []) ls ∧ ls ≠ [].
Proof.
  revert page ls; induction h as [|h IH]; intros page ls Ht; inversion Ht; subst.
  - by repeat constructor.
  - rename select (Forall2 _ _ _) into Hcs. rename select (segs ≠ []) into Hne. split.
    + apply Forall_concat. clear -Hcs IH.
      induction Hcs as [|c seg cs segs Hc _ IHc]; constructor; [|done].
      by apply IH in Hc as [? _].
    + destruct Hcs as [|c seg cs segs Hc _]; [done|]. apply IH in Hc as [_ Hc].
      destruct seg; [done|]. done.
Qed.

Lemma entries_nonempty ls : Forall (λ l : leaf_ref, l.2 ≠ []) ls → ls ≠ [] → entries_of ls ≠ [].
Proof.
  intros Hf Hne. destruct Hf as [|[p es] ls Hl _]; [done|]. unfold entries_of. simpl in *.
  by destruct es.
Qed.

Lemma entries_of_app l1 l2 : entries_of (l1 ++ l2) = entries_of l1 ++ entries_of l2.
Proof. unfold entries_of. by rewrite fmap_app, concat_app. Qed.

Lemma entries_of_cons p es ls : entries_of ((p, es) :: ls) = es ++ entries_of ls.
Proof. done. Qed.
End Tree.

(** ** Order facts *)

Lemma sorted_app_lt (l1 l2 : list LeafEntry) e1 e2 :
  sorted_by le_key (l1 ++ l2) → e1 ∈ l1 → e2 ∈ l2 → bytes_lt (le_key e1) (le_key e2).
Proof.
  unfold sorted_by. rewrite fmap_app. intros Hs H1 H2.
  eapply StronglySorted_app_1_elem_of; [exact Hs|by apply list_elem_of_fmap_2..].
Qed.
Lemma sorted_app_l (l1 l2 : list LeafEntry) : sorted_by le_key (l1 ++ l2) → sorted_by le_key l1.
Proof. unfold sorted_by. rewrite fmap_app. apply StronglySorted_app_1_l. Qed.
Lemma sorted_app_r (l1 l2 : list LeafEntry) : sorted_by le_key (l1 ++ l2) → sorted_by le_key l2.
Proof. unfold sorted_by. rewrite fmap_app. apply StronglySorted_app_1_r. Qed.

Lemma first_key_le ls e :
  sorted_by le_key (entries_of ls) → e ∈ entries_of ls → bytes_le (first_key ls) (le_key e).
Proof.
  unfold first_key. destruct (entries_of ls) as [|e0 es]; [by intros _ ?%not_elem_of_nil|].
  intros [_ Hs]%sorted_by_cons [->|He]%elem_of_cons; [done|].
  apply bytes_le_lt_eq. left. rewrite Forall_forall in Hs. apply Hs. by apply list_elem_of_fmap_2.
Qed.

Lemma first_key_elem ls :
  Forall (λ l : leaf_ref, l.2 ≠ []) ls → ls ≠ [] →
  ∃ e, e ∈ entries_of ls ∧ le_key e = first_key ls.
Proof.
  intros Hf Hne. pose proof (entries_nonempty ls Hf Hne) as H. unfold first_key.
  destruct (entries_of ls) as [|e es]; [done|]. exists e. split; [left|done].
Qed.

(** ** Choosing a child *)

Section Pivots.
Context (pages : list bytes) (limit : Z).

(** The leaf a descent for [key] must reach: everything left of it is below the
    key and everything right of it above. *)
Definition splits_at (key : bytes) (ls l1 : list leaf_ref) (leaf : leaf_ref)
    (l2 : list leaf_ref) : Prop :=
  ls = l1 ++ leaf :: l2 ∧
  (∀ e, e ∈ entries_of l1 → bytes_lt (le_key e) key) ∧
  (∀ e, e ∈ entries_of l2 → bytes_lt key (le_key e)).

Abbreviation filled := (Forall (λ seg : list leaf_ref, Forall (λ l, l.2 ≠ []) seg ∧ seg ≠ [])).

Lemma subtrees_filled h cs segs : Forall2 (subtree pages limit h) cs segs → filled segs.
Proof.
  induction 1 as [|c seg cs segs Hc _ IH]; constructor; [|done]. by apply subtree_nonempty in Hc.
Qed.

Lemma segs_left segs1 seg segs2 e :
  filled (segs1 ++ seg :: segs2) →
  sorted_by le_key (entries_of (concat (segs1 ++ seg :: segs2))) →
  e ∈ entries_of (concat segs1) → bytes_lt (le_key e) (first_key seg).
Proof.
  intros Hsegs Hs He.
  rewrite concat_app, entries_of_app in Hs. simpl in Hs. rewrite entries_of_app in Hs.
  apply Forall_app in Hsegs as [_ Hsegs]. apply Forall_cons in Hsegs as [[Hf Hn] _].
  destruct (first_key_elem seg Hf Hn) as (e' & He' & <-).
  eapply sorted_app_lt; [exact Hs|done|]. apply elem_of_app. by left.
Qed.

Lemma segs_right segs1 seg segs2 e :
  filled (segs1 ++ seg :: segs2) →
  sorted_by le_key (entries_of (concat (segs1 ++ seg :: segs2))) →
  e ∈ entries_of (concat (seg :: segs2)) → bytes_le (first_key seg) (le_key e).
Proof.
  intros Hsegs Hs He. rewrite concat_app, entries_of_app in Hs. apply sorted_app_r in Hs.
  apply Forall_app in Hsegs as [_ Hsegs]. apply Forall_cons in Hsegs as [[Hf Hn] _].
  replace (first_key seg) with (first_key (concat (seg :: segs2))); [by apply first_key_le|].
  unfold first_key. simpl. rewrite entries_of_app.
  pose proof (entries_nonempty seg Hf Hn). by destruct (entries_of seg).
Qed.

(** The pivots ascend. *)
Lemma pivots_ascend segs a b sx sy :
  filled segs → sorted_by le_key (entries_of (concat segs)) →
  (a < b)%nat → segs !! a = Some sx → segs !! b = Some sy →
  bytes_lt (first_key sx) (first_key sy).
Proof.
  intros Hf Hs Hab Hx Hy.
  apply list_elem_of_split_length in Hy as (segs1 & segs2 & -> & Hlen).
  assert (sx ∈ segs1) as Hin.
  { apply list_elem_of_lookup. exists a. rewrite lookup_app_l in Hx by lia. done. }
  pose proof Hf as Hsx. rewrite Forall_forall in Hsx.
  destruct (Hsx sx) as [Hf' Hn]; [set_solver|].
  destruct (first_key_elem sx Hf' Hn) as (e & He & <-).
  eapply segs_left; [done..|]. apply list_elem_of_split in Hin as (u & v & ->).
  rewrite concat_app, entries_of_app. simpl. rewrite entries_of_app. set_solver.
Qed.

Lemma pivots_sorted h cs segs :
  Forall2 (subtree pages limit h) cs segs → sorted_by le_key (entries_of (concat segs)) →
  StronglySorted bytes_lt (first_key <$> drop 1 segs).
Proof.
  intros Hf%subtrees_filled Hs. destruct segs as [|seg segs]; [constructor|]. simpl. rewrite drop_0.
  assert (∀ a b sx sy, (a < b)%nat → segs !! a = Some sx → segs !! b = Some sy →
            bytes_lt (first_key sx) (first_key sy)) as Hlt.
  { intros a b sx sy Hab Hx Hy. eapply (pivots_ascend _ (1 + a)%nat (1 + b)%nat); [done|done|lia|done..]. }
  clear -Hlt. induction segs as [|s0 segs IH]; [constructor|]. rewrite fmap_cons. constructor.
  - apply IH. intros a b sx sy Hab Hx Hy. apply (Hlt (1 + a)%nat (1 + b)%nat); [lia|done..].
  - apply Forall_fmap, Forall_forall. intros sy [b Hy]%list_elem_of_lookup.
    apply (Hlt 0%nat (1 + b)%nat); [lia|done..].
Qed.

(** The child chosen by [partition_point] splits the segments around the key. *)
Lemma pivot_choice h cs segs key :
  Forall2 (subtree pages limit h) cs segs → segs ≠ [] →
  sorted_by le_key (entries_of (concat segs)) →
  let i := partition_point (first_key <$> drop 1 segs) (λ pivot, bytes_leb pivot key) in
  ∃ c seg segs1 segs2, cs !! i = Some c ∧ subtree pages limit h c seg ∧
    segs = segs1 ++ seg :: segs2 ∧
    (∀ e, e ∈ entries_of (concat segs1) → bytes_lt (le_key e) key) ∧
    (∀ e, e ∈ entries_of (concat segs2) → bytes_lt key (le_key e)).
Proof.
  intros Hcs Hne Hs i. pose proof (subtrees_filled _ _ _ Hcs) as Hf.
  pose proof (partition_point_spec (first_key <$> drop 1 segs) (λ pivot, bytes_leb pivot key))
    as (Hi & Hlt & Hge).
  { intros a b x y Hab Hx Hy Hyk. apply bytes_leb_le. apply bytes_leb_le in Hyk.
    apply list_lookup_fmap_Some in Hx as (sx & -> & Hx).
    apply list_lookup_fmap_Some in Hy as (sy & -> & Hy). rewrite lookup_drop in Hx, Hy.
    etrans; [|exact Hyk]. apply bytes_le_lt_eq. left.
    eapply (pivots_ascend segs (1 + a) (1 + b)); [done|done|lia|done..]. }
  fold i in Hi, Hlt, Hge. rewrite length_fmap, length_drop in Hi.
  assert (i < length segs)%nat as Hil by (destruct segs; [done|]; simpl in *; lia).
  destruct (lookup_lt_is_Some_2 segs i Hil) as [seg Hseg].
  destruct (Forall2_lookup_r _ _ _ _ _ Hcs Hseg) as (c & Hc & Hsub).
  apply list_elem_of_split_length in Hseg as (segs1 & segs2 & Heq & Hlen).
  exists c, seg, segs1, segs2. rewrite Heq in Hf, Hs. split_and!; try done.
  - intros e He. destruct segs1 as [|seg0 segs1']; [by apply not_elem_of_nil in He|].
    eapply bytes_lt_le_trans; [by eapply segs_left|].
    apply bytes_leb_le, (Hlt (i - 1)%nat); [simpl in Hlen; lia|].
    rewrite list_lookup_fmap, lookup_drop. replace (1 + (i - 1))%nat with i by (simpl in Hlen; lia).
    rewrite Heq. rewrite list_lookup_middle by done. done.
  - intros e He. destruct segs2 as [|seg2 segs2']; [by apply not_elem_of_nil in He|].
    eapply bytes_lt_le_trans.
    2: { eapply (segs_right (segs1 ++ [seg]) seg2 segs2'); [by rewrite <- app_assoc..|exact He]. }
    assert (bytes_leb (first_key seg2) key = false) as Hb.
    { apply (Hge i); [lia|]. rewrite list_lookup_fmap, lookup_drop, Heq.
      rewrite lookup_app_r by lia. replace (1 + i - length segs1)%nat with 1%nat by lia. done. }
    apply bytes_cmp_gt. unfold bytes_leb in Hb. by destruct (bytes_cmp _ _).
Qed.
End Pivots.

(** ** Descending *)

Section Descend.
Context {S : Type} (provider : Z → S → option bytes * S).
Context (pages : list bytes) (root : NavKvRoot).
(** The provider serves the pages of the store, whatever its state. *)
Hypothesis provider_serves : ∀ page s, (provider page s).1 = get_at pages page.

Let limit := value_page_start root.

Lemma outcome_fetch page b : get_at pages page = Some b → outcome (fetch provider page) (Ok b).
Proof.
  intros Hb s. unfold fetch. specialize (provider_serves page s).
  destruct (provider page s) as [o s']; simpl in *. by rewrite provider_serves, Hb.
Qed.

Lemma read_node_leaf page next es :
  leaf_at pages limit page next es →
  outcome (read_node provider root page) (Ok (Leaf {| next_leaf := next; leaf_entries := es |})).
Proof.
  intros ([_ Hp] & b & Hb & Hk & Hl). unfold read_node.
  rewrite (proj2 (Z.leb_gt _ _)) by done.
  eapply outcome_bind; [by apply outcome_fetch|].
  eapply outcome_bind; [apply outcome_some; by rewrite Hk|]. rewrite Z.eqb_refl.
  eapply outcome_bind; [apply outcome_some; by rewrite Hl|done].
Qed.

Lemma read_node_internal page cs ps :
  internal_at pages limit page cs ps →
  outcome (read_node provider root page) (Ok (Internal {| children := cs; pivots := ps |})).
Proof.
  intros ([_ Hp] & b & Hb & Hk & Hl). unfold read_node.
  rewrite (proj2 (Z.leb_gt _ _)) by done.
  eapply outcome_bind; [by apply outcome_fetch|].
  eapply outcome_bind; [apply outcome_some; by rewrite Hk|].
  change (NODE_KIND_INTERNAL =? NODE_KIND_LEAF) with false. rewrite Z.eqb_refl.
  eapply outcome_bind; [apply outcome_some; by rewrite Hl|done].
Qed.

Lemma read_leaf_at page next es :
  leaf_at pages limit page next es →
  outcome (read_leaf provider root page) (Ok {| next_leaf := next; leaf_entries := es |}).
Proof. intros Hl. eapply outcome_bind; [by apply read_node_leaf|done]. Qed.

(** A descent ends at the leaf whose range holds the key. *)
Lemma descend fuel h page ls key :
  subtree pages limit h page ls → sorted_by le_key (entries_of ls) → (h < fuel)%nat →
  ∃ l1 p es l2, splits_at key ls l1 (p, es) l2 ∧
    outcome (find_leaf_loop provider fuel root key page) (Ok p).
Proof.
  revert h page ls; induction fuel as [|fuel IH]; intros h page ls Ht Hs Hh; [lia|].
  destruct Ht as [page next es Hl Hes|h page cs segs Hn Hcs Hne].
  - exists [], page, es, []. split.
    + split_and!; [done|by intros e ?%not_elem_of_nil..].
    + eapply outcome_bind; [by eapply read_node_leaf|done].
  - destruct (pivot_choice pages limit h cs segs key Hcs Hne Hs)
      as (c & seg & segs1 & segs2 & Hc & Hsub & Heq & Hlo & Hhi).
    subst segs. rewrite concat_app in Hs |- *. simpl in Hs |- *.
    rewrite !entries_of_app in Hs.
    destruct (IH h c seg Hsub) as (l1 & p & es & l2 & (-> & Hlo' & Hhi') & Hout).
    { eapply sorted_app_l, sorted_app_r, Hs. }
    { lia. }
    exists (concat segs1 ++ l1), p, es, (l2 ++ concat segs2). split.
    + split_and!; [by rewrite <- !app_assoc| |].
      * intros e. rewrite entries_of_app, elem_of_app. naive_solver.
      * intros e. rewrite entries_of_app, elem_of_app. naive_solver.
    + cbn [find_leaf_loop]. eapply outcome_bind; [by eapply read_node_internal|].
      eapply outcome_bind; [by apply outcome_some|done].
Qed.

(** The leftmost descent ends at the first leaf. *)
Lemma descend_first fuel h page ls :
  subtree pages limit h page ls → (h < fuel)%nat →
  ∃ p es l2, ls = (p, es) :: l2 ∧ outcome (first_leaf_loop provider fuel root page) (Ok p).
Proof.
  revert h page ls; induction fuel as [|fuel IH]; intros h page ls Ht Hh; [lia|].
  destruct Ht as [page next es Hl Hes|h page cs segs Hn Hcs Hne].
  - exists page, es, []. split; [done|]. eapply outcome_bind; [by eapply read_node_leaf|done].
  - destruct Hcs as [|c seg cs segs Hc Hcs]; [done|].
    destruct (IH h c seg Hc ltac:(lia)) as (p & es & l2 & -> & Hout).
    exists p, es, (l2 ++ concat segs). split; [done|].
    cbn [first_leaf_loop]. eapply outcome_bind; [by eapply read_node_internal|].
    eapply outcome_bind; [by apply outcome_some|done].
Qed.
End Descend.
