(* ===== verification/NavKvLookup.v ===== *)
(** * Lookups, scans and values in a well-formed store

    [store_ok] relates a parsed root and the pages of its store to the entries of the
    leaves and to the value bytes; the reading methods of [NavKvRead] are computed
    from the entries alone. *)

From Stdlib Require Import Strings.Byte.
From stdpp Require Import base list list_numbers strings gmap sorting sets.
From S2P Require Import Prelude Utf8 Search NavKvFormat NavKvDelta NavKvRead NavKvBuild NavKvTree.

Local Open Scope Z_scope.

(** The value of an entry, given the value bytes of the store. *)
Definition entry_value (vb : bytes) (e : LeafEntry) : option bytes :=
  match le_val e with
  | Inline value => Some value
  | External offset n => get_range vb offset (offset + n)
  end.

Definition external_nonempty (e : LeafEntry) : Prop :=
  match le_val e with Inline _ => True | External _ n => 0 < n end.

Record store_ok (root : NavKvRoot) (pages : list bytes) (h : nat) (ls : list leaf_ref)
    (vb : bytes) : Prop := {
  ok_tree : subtree pages (value_page_start root) h (root_page root) ls;
  ok_chain : chain pages (value_page_start root) ls;
  ok_sorted : sorted_by le_key (entries_of ls);
  ok_values : drop (Z.to_nat (value_page_start root)) pages = chunks (page_size root) vb;
  ok_value_len : value_bytes_len root = len vb;
  ok_page_size : 0 < page_size root;
  ok_start : 0 ≤ value_page_start root ≤ len pages;
  ok_logical : len pages * page_size root ≤ u32_max;
  ok_entries : Forall (λ e, is_Some (entry_value vb e) ∧ external_nonempty e) (entries_of ls)
}.

(** ** Chunks *)

Lemma chunks_fuel_lookup fuel n l i :
  (length l ≤ fuel)%nat → (0 < n)%nat → (i * n < length l)%nat →
  chunks_fuel fuel n l !! i = Some (take n (drop (i * n) l)).
Proof.
  revert l i; induction fuel as [|fuel IH]; intros l i Hf Hn Hi; [lia|].
  destruct l as [|b l]; [simpl in Hi; lia|].
  destruct i as [|i]; [done|]. cbn [chunks_fuel lookup list_lookup].
  change (chunks_fuel fuel n (drop n (b :: l)) !! i =
          Some (take n (drop (S i * n) (b :: l)))).
  rewrite IH; [by rewrite drop_drop|rewrite length_drop; simpl in *; lia|done|].
  rewrite length_drop. lia.
Qed.

Lemma chunks_lookup n l i :
  0 < n → 0 ≤ i → i * n < len l →
  get_at (chunks n l) i = Some (take (Z.to_nat n) (drop (Z.to_nat (i * n)) l)).
Proof.
  intros Hn Hi Hl. unfold get_at, chunks. rewrite (proj2 (Z.leb_le _ _)) by done.
  rewrite chunks_fuel_lookup; [|lia..|unfold len in Hl; nia].
  by rewrite Z2Nat.inj_mul by lia.
Qed.

Lemma len_chunks_fuel fuel n l :
  (length l ≤ fuel)%nat → (0 < n)%nat →
  len (chunks_fuel fuel n l) = div_ceil (len l) (Z.of_nat n).
Proof.
  unfold div_ceil. revert l; induction fuel as [|fuel IH]; intros l Hf Hn.
  - destruct l; [|simpl in Hf; lia]. unfold len; simpl. rewrite Z.div_small; lia.
  - destruct l as [|b l]; [unfold len; simpl; rewrite Z.div_small; lia|].
    cbn [chunks_fuel]. rewrite len_cons, IH; [|rewrite length_drop; simpl in *; lia|done].
    unfold len. rewrite length_drop. set (k := length (b :: l)).
    assert (1 ≤ k)%nat by (subst k; simpl; lia).
    destruct (decide (n ≤ k)%nat).
    + replace (Z.of_nat k + Z.of_nat n - 1) with
        (Z.of_nat (k - n) + Z.of_nat n - 1 + 1 * Z.of_nat n) by lia.
      rewrite Z.div_add by lia. lia.
    + replace (k - n)%nat with 0%nat by lia.
      rewrite (Z.div_small (Z.of_nat 0 + _ - 1)) by lia.
      replace (Z.of_nat k + Z.of_nat n - 1) with (Z.of_nat k - 1 + 1 * Z.of_nat n) by lia.
      rewrite Z.div_add by lia. rewrite Z.div_small; lia.
Qed.

Lemma len_chunks n l : 0 < n → len (chunks n l) = div_ceil (len l) n.
Proof. intros Hn. unfold chunks. rewrite len_chunks_fuel by lia. by rewrite Z2Nat.id by lia. Qed.

(** ** Slices of the value bytes *)

Definition slice (l : bytes) (a b : Z) : bytes := take (Z.to_nat (b - a)) (drop (Z.to_nat a) l).

Lemma get_range_slice l a b : 0 ≤ a ≤ b → b ≤ len l → get_range l a b = Some (slice l a b).
Proof.
  intros. unfold get_range. by rewrite !andb_true_intro by (rewrite ?Z.leb_le; lia).
Qed.

Lemma slice_split l a b c : 0 ≤ a ≤ b → b ≤ c → slice l a b ++ slice l b c = slice l a c.
Proof.
  intros. unfold slice.
  replace (Z.to_nat b) with (Z.to_nat a + Z.to_nat (b - a))%nat by lia.
  rewrite <- drop_drop. replace (Z.to_nat (c - a)) with (Z.to_nat (b - a) + Z.to_nat (c - b))%nat
    by lia. by rewrite take_take_drop.
Qed.

Lemma slice_nil l a b : b ≤ a → slice l a b = [].
Proof. intros. unfold slice. by replace (Z.to_nat (b - a)) with 0%nat by lia. Qed.

Lemma slice_chunk l base n a b :
  0 ≤ base → 0 ≤ a ≤ b → b ≤ n → base + b ≤ len l →
  get_range (slice l base (base + n)) a b = Some (slice l (base + a) (base + b)).
Proof.
  intros. rewrite get_range_slice; [|lia|].
  2: { unfold slice, len in *. rewrite length_take, length_drop. lia. }
  f_equal. unfold slice. rewrite take_drop_commute, take_take.
  replace (_ `min` _)%nat with (Z.to_nat a + Z.to_nat (b - a))%nat by lia.
  rewrite <- take_drop_commute, drop_drop. f_equal; [lia|]. f_equal. lia.
Qed.

Lemma sorted_key_inj (l : list LeafEntry) e1 e2 :
  sorted_by le_key l → e1 ∈ l → e2 ∈ l → le_key e1 = le_key e2 → e1 = e2.
Proof.
  intros Hs [i Hi]%list_elem_of_lookup [j Hj]%list_elem_of_lookup Hk.
  destruct (decide (i = j)) as [->|Hne]; [congruence|].
  assert (∀ i j e1 e2, l !! i = Some e1 → l !! j = Some e2 → le_key e1 = le_key e2 →
            ~ (i < j)%nat) as Hno.
  { intros a b x y Hx Hy Hxy Hab.
    apply list_elem_of_split_length in Hy as (l1 & l2 & -> & ->).
    apply (bytes_lt_irrefl (le_key y)). rewrite <- Hxy at 1.
    eapply sorted_app_lt; [exact Hs| |by left].
    rewrite lookup_app_l in Hx by lia. by eapply list_elem_of_lookup_2. }
  pose proof (Hno i j _ _ Hi Hj Hk). pose proof (Hno j i _ _ Hj Hi (eq_sym Hk)). lia.
Qed.

(** ** Prefixes *)

Lemma starts_with_le key prefix : starts_with key prefix = true → bytes_le prefix key.
Proof.
  revert key; induction prefix as [|p prefix IH]; intros key; [intros; apply bytes_nil_le|].
  destruct key as [|k key]; [done|]. simpl. intros [Hk H]%andb_true_iff.
  apply bool_decide_eq_true in Hk as ->. unfold bytes_le. simpl. rewrite Z.compare_refl.
  by apply IH.
Qed.

Lemma starts_with_below key prefix : bytes_lt key prefix → starts_with key prefix = false.
Proof.
  intros Hlt. destruct (starts_with key prefix) eqn:H; [|done].
  apply starts_with_le in H. exfalso. apply (bytes_lt_irrefl key).
  by eapply bytes_lt_le_trans.
Qed.

(** Past a key that is above the prefix and does not start with it, no key does. *)
Lemma starts_with_above prefix k1 k2 :
  bytes_le prefix k1 → starts_with k1 prefix = false → bytes_lt k1 k2 →
  starts_with k2 prefix = false.
Proof.
  revert k1 k2; induction prefix as [|p prefix IH]; intros k1 k2 Hle Hs Hlt.
  { by destruct k1. }
  destruct k2 as [|b k2]; [done|]. destruct k1 as [|a k1]; [done|].
  unfold bytes_le, bytes_lt in *. simpl in *.
  destruct (bool_decide_reflect (b = p)) as [->|]; [|done]. simpl.
  destruct (bool_decide_reflect (a = p)) as [->|Hap].
  - rewrite Z.compare_refl in Hle, Hlt. by eapply IH.
  - destruct (Z.compare_spec (b2z p) (b2z a)) as [Heq|?|?]; [|..|done].
    + by apply (inj b2z) in Heq.
    + destruct (Z.compare_spec (b2z a) (b2z p)); [lia..|done].
Qed.

Definition matching (prefix : bytes) (es : list LeafEntry) : list LeafEntry :=
  filter (λ e, starts_with (le_key e) prefix = true) es.

Lemma matching_nil prefix es :
  (∀ e, e ∈ es → starts_with (le_key e) prefix = false) → matching prefix es = [].
Proof.
  intros H. induction es as [|e es IH]; [done|]. unfold matching.
  rewrite filter_cons_False by (rewrite H by left; done). apply IH. intros. apply H. by right.
Qed.

Lemma matching_app prefix es1 es2 :
  matching prefix (es1 ++ es2) = matching prefix es1 ++ matching prefix es2.
Proof. apply filter_app. Qed.

(** An entry that ends a scan. *)
Definition past_prefix (prefix : bytes) (es : list LeafEntry) : Prop :=
  ∃ e, e ∈ es ∧ bytes_le prefix (le_key e) ∧ starts_with (le_key e) prefix = false.

Lemma past_prefix_rest prefix es rest :
  sorted_by le_key (es ++ rest) → past_prefix prefix es → matching prefix rest = [].
Proof.
  intros Hs (e & He & Hle & Hn). apply matching_nil. intros e' He'.
  eapply starts_with_above; [done..|]. by eapply sorted_app_lt.
Qed.

(** One round of a scan over the entries of a leaf: the entries before the prefix are
    skipped and the first entry past it ends the scan. *)
Lemma scan_cases prefix e es :
  sorted_by le_key (e :: es) →
  (bytes_ltb (le_key e) prefix = true ∧ matching prefix (e :: es) = matching prefix es) ∨
  (bytes_ltb (le_key e) prefix = false ∧ starts_with (le_key e) prefix = false ∧
     matching prefix (e :: es) = [] ∧ past_prefix prefix (e :: es)) ∨
  (bytes_ltb (le_key e) prefix = false ∧ starts_with (le_key e) prefix = true ∧
     matching prefix (e :: es) = e :: matching prefix es).
Proof.
  intros Hs. unfold matching. destruct (bytes_ltb _ _) eqn:Hlt.
  - left. apply bytes_ltb_lt, starts_with_below in Hlt. split; [done|].
    by rewrite filter_cons_False by (rewrite Hlt; done).
  - right. destruct (starts_with _ _) eqn:Hsw; [right|left].
    + split_and!; [done..|]. by rewrite filter_cons_True.
    + assert (past_prefix prefix [e]) as Hp.
      { exists e. split_and!; [by left| |done]. apply bytes_nlt_le. intros H%bytes_ltb_lt. congruence. }
      split_and!; [done..| |].
      * rewrite filter_cons_False by (rewrite Hsw; done). by apply (past_prefix_rest prefix [e] es).
      * destruct Hp as (? & ->%list_elem_of_singleton & ?). exists e. split; [by left|done].
Qed.

Lemma prefix_scan_spec prefix es :
  sorted_by le_key es →
  ∃ stop, prefix_scan prefix es = ((λ e, from_utf8_lossy (le_key e)) <$> matching prefix es, stop) ∧
    (stop = true → past_prefix prefix es).
Proof.
  induction es as [|e es IH]; intros Hs; [by exists false|].
  pose proof Hs as [Hs' _]%sorted_by_cons. destruct (IH Hs') as (stop & Heq & Hstop).
  destruct (scan_cases prefix e es Hs) as [(Hlt & Hm)|[(Hlt & Hsw & Hm & Hp)|(Hlt & Hsw & Hm)]];
    cbn [prefix_scan]; rewrite Hlt, Hm.
  - exists stop. split; [done|]. intros (e' & ? & ?)%Hstop. exists e'. split; [by right|done].
  - rewrite Hsw. by exists true.
  - rewrite Hsw, Heq. exists stop. split; [done|]. intros (e' & ? & ?)%Hstop.
    exists e'. split; [by right|done].
Qed.

Definition nonempty_list {A} (l : list A) : bool := match l with [] => false | _ => true end.

Lemma stats_scan_spec root prefix es matched stats :
  sorted_by le_key es →
  ∃ stop, stats_scan root prefix matched stats es =
      (foldl (count_entry root) stats (matching prefix es),
       matched || nonempty_list (matching prefix es), stop) ∧
    (stop = true → past_prefix prefix es).
Proof.
  revert matched stats; induction es as [|e es IH]; intros matched stats Hs.
  { exists false. by rewrite orb_false_r. }
  pose proof Hs as [Hs' _]%sorted_by_cons.
  assert (past_prefix prefix es → past_prefix prefix (e :: es)) as Hcons.
  { intros (e' & ? & ?). exists e'. split; [by right|done]. }
  destruct (scan_cases prefix e es Hs) as [(Hlt & Hm)|[(Hlt & Hsw & Hm & Hp)|(Hlt & Hsw & Hm)]];
    cbn [stats_scan]; rewrite Hlt, Hm.
  - destruct (IH matched stats Hs') as (stop & Heq & Hstop). exists stop. naive_solver.
  - rewrite Hsw. exists true. by rewrite orb_false_r.
  - rewrite Hsw. destruct (IH true (count_entry root stats e) Hs') as (stop & Heq & Hstop).
    exists stop. split; [|by auto]. simpl. rewrite Heq, orb_true_r. done.
Qed.

(** The statistics of a scan, leaf by leaf. *)
Definition leaf_stats (root : NavKvRoot) (prefix : bytes) (stats : NavKvPrefixStats)
    (leaf : leaf_ref) : NavKvPrefixStats :=
  mark_leaf leaf.1 (nonempty_list (matching prefix leaf.2))
    (foldl (count_entry root) stats (matching prefix leaf.2)).

Lemma leaf_stats_nomatch root prefix stats ls :
  matching prefix (entries_of ls) = [] → foldl (leaf_stats root prefix) stats ls = stats.
Proof.
  revert stats; induction ls as [|[p es] ls IH]; intros stats H; [done|].
  rewrite entries_of_cons, matching_app in H. apply app_eq_nil in H as [H1 H2].
  cbn [foldl]. unfold leaf_stats at 2. simpl. rewrite H1. simpl. by apply IH.
Qed.

Lemma foldl_count root stats es :
  let stats' := foldl (count_entry root) stats es in
  st_key_count stats' = st_key_count stats + len es ∧
  st_key_bytes stats' = st_key_bytes stats + len (concat (le_key <$> es)) ∧
  st_inline_value_count stats' + st_external_value_count stats' =
    st_inline_value_count stats + st_external_value_count stats + len es ∧
  st_matching_leaf_pages stats' = st_matching_leaf_pages stats.
Proof.
  revert stats; induction es as [|e es IH]; intros stats.
  { split_and!; unfold len; simpl; lia || done. }
  destruct (IH (count_entry root stats e)) as (H1 & H2 & H3 & H4). cbn [foldl].
  rewrite fmap_cons, concat_cons, H1, H2, H3, H4, len_app, len_cons. unfold count_entry.
  destruct (le_val e); cbn; split_and!; (lia || done).
Qed.

Lemma foldl_count_values root vb stats es vs :
  Forall2 (λ e v, entry_value vb e = Some v) es vs →
  st_value_bytes (foldl (count_entry root) stats es) = st_value_bytes stats + len (concat vs).
Proof.
  intros H. revert stats; induction H as [|e v es vs Hv _ IH]; intros stats; simpl.
  { unfold len; simpl; lia. }
  rewrite IH, len_app. unfold count_entry. unfold entry_value in Hv.
  destruct (le_val e); simpl.
  - injection Hv as ->. lia.
  - apply get_range_len in Hv as (Hv & _). lia.
Qed.

Lemma mark_leaf_fields p m st :
  st_key_count (mark_leaf p m st) = st_key_count st ∧
  st_key_bytes (mark_leaf p m st) = st_key_bytes st ∧
  st_value_bytes (mark_leaf p m st) = st_value_bytes st ∧
  st_inline_value_count (mark_leaf p m st) = st_inline_value_count st ∧
  st_external_value_count (mark_leaf p m st) = st_external_value_count st.
Proof. by destruct m. Qed.

(** The totals of a scan. *)
Lemma leaf_stats_totals root prefix vb ls vs stats :
  Forall2 (λ e v, entry_value vb e = Some v) (matching prefix (entries_of ls)) vs →
  let stats' := foldl (leaf_stats root prefix) stats ls in
  let es := matching prefix (entries_of ls) in
  st_key_count stats' = st_key_count stats + len es ∧
  st_key_bytes stats' = st_key_bytes stats + len (concat (le_key <$> es)) ∧
  st_value_bytes stats' = st_value_bytes stats + len (concat vs) ∧
  st_inline_value_count stats' + st_external_value_count stats' =
    st_inline_value_count stats + st_external_value_count stats + len es.
Proof.
  revert stats vs; induction ls as [|[p es] ls IH]; intros stats vs Hvs; simpl.
  { apply Forall2_nil_inv_l in Hvs as ->. unfold entries_of, matching, len; simpl. lia. }
  rewrite entries_of_cons, matching_app in *.
  apply Forall2_app_inv_l in Hvs as (v1 & v2 & H1 & H2 & ->).
  destruct (IH (leaf_stats root prefix stats (p, es)) v2 H2) as (I1 & I2 & I3 & I4).
  rewrite I1, I2, I3, I4. unfold leaf_stats; simpl.
  destruct (mark_leaf_fields p (nonempty_list (matching prefix es))
    (foldl (count_entry root) stats (matching prefix es))) as (-> & -> & -> & -> & ->).
  destruct (foldl_count root stats (matching prefix es)) as (-> & -> & F3 & _).
  rewrite (foldl_count_values root vb stats _ v1 H1), fmap_app, !concat_app, !len_app. lia.
Qed.

Lemma leaf_stats_pages root prefix ls stats page :
  page ∈ st_matching_leaf_pages (foldl (leaf_stats root prefix) stats ls) ↔
  page ∈ st_matching_leaf_pages stats ∨ ∃ es, (page, es) ∈ ls ∧ matching prefix es ≠ [].
Proof.
  revert stats; induction ls as [|[p es] ls IH]; intros stats; simpl; [set_solver|].
  rewrite IH. unfold leaf_stats. simpl.
  destruct (foldl_count root stats (matching prefix es)) as (_ & _ & _ & F4).
  destruct (matching prefix es) as [|e es'] eqn:Hm; simpl.
  - setoid_rewrite elem_of_cons. naive_solver.
  - simpl in F4. rewrite F4, elem_of_union, elem_of_singleton. setoid_rewrite elem_of_cons.
    split; [|naive_solver]. intros [[->|?]|(es0 & ? & ?)]; [|by left|right; exists es0; auto].
    right. exists es. split; [by left|]. by rewrite Hm.
Qed.

(** ** Reading *)

Section Reads.
Context {S : Type} (provider : Z → S → option bytes * S).
Context (pages : list bytes) (root : NavKvRoot) (h : nat) (ls : list leaf_ref) (vb : bytes).
Hypothesis provider_serves : ∀ page s, (provider page s).1 = get_at pages page.
Hypothesis Hok : store_ok root pages h ls vb.

Lemma chain_app l1 l2 :
  chain pages (value_page_start root) (l1 ++ l2) → chain pages (value_page_start root) l2.
Proof. induction l1 as [|[p es] l1 IH]; [done|]. intros [_ H]. by apply IH. Qed.

(** *** Values *)

Lemma page_bound i : 0 ≤ i → i * page_size root < len vb →
  (value_page_start root + i + 1) * page_size root ≤ u32_max ∧
  get_at pages (value_page_start root + i) =
    Some (slice vb (i * page_size root) (i * page_size root + page_size root)).
Proof.
  intros Hi Hlt. destruct Hok as [_ _ _ Hv _ Hps Hst Hlog _].
  pose proof (chunks_lookup (page_size root) vb i Hps Hi Hlt) as Hc.
  rewrite <- Hv in Hc. pose proof (get_at_Some _ _ _ Hc) as Hb. split.
  - unfold len in *. rewrite length_drop in Hb. nia.
  - unfold get_at in *. rewrite (proj2 (Z.leb_le _ _)) in Hc by lia.
    rewrite (proj2 (Z.leb_le _ _)) by lia.
    rewrite lookup_drop in Hc. rewrite Z2Nat.inj_add, Hc by lia. unfold slice.
    do 2 f_equal. lia.
Qed.

Lemma read_value_page_outcome start end_ i :
  0 ≤ i → 0 ≤ start → end_ ≤ len vb → i * page_size root < end_ →
  start < (i + 1) * page_size root → start ≤ end_ →
  outcome (read_value_page provider root start end_ i)
    (Ok (slice vb (Z.max start (i * page_size root)) (Z.min end_ ((i + 1) * page_size root)))).
Proof.
  intros Hi Hs He Hlt Hst Hse. pose proof (ok_page_size _ _ _ _ _ Hok) as Hps.
  pose proof (ok_start _ _ _ _ _ Hok) as Hvs.
  destruct (page_bound i Hi ltac:(lia)) as [Hb Hpage].
  set (ps := page_size root) in *. set (vs := value_page_start root) in *.
  unfold read_value_page. fold ps vs.
  rewrite (wrap32_small (vs + i)) by (unfold in_u32; nia).
  eapply outcome_bind; [by eapply outcome_fetch|].
  rewrite (wrap32_small (i * ps)), (wrap32_small (i * ps + ps)) by (unfold in_u32; nia).
  rewrite wrap32_small by (unfold in_u32; nia). unfold saturating_sub.
  set (a := Z.max 0 (start - i * ps)). set (b := Z.min end_ (i * ps + ps) - i * ps).
  pose proof (slice_chunk vb (i * ps) ps a b ltac:(nia) ltac:(nia) ltac:(nia) ltac:(nia)) as Hc.
  pose proof (get_range_len _ _ _ _ Hc) as (_ & Hab & Hbl).
  rewrite (proj2 (Z.ltb_ge _ _)), (proj2 (Z.ltb_ge _ _)) by lia.
  apply outcome_some. rewrite Hc. f_equal. f_equal; nia.
Qed.

Lemma read_value_pages_outcome start end_ k p :
  0 ≤ start < end_ → end_ ≤ len vb → 0 ≤ p → start `div` page_size root ≤ p →
  p + Z.of_nat k = (end_ - 1) `div` page_size root + 1 →
  outcome (read_value_pages provider root start end_ (seqZ p (Z.of_nat k)))
    (Ok (slice vb (Z.max start (p * page_size root)) end_)).
Proof.
  intros Hs He. pose proof (ok_page_size _ _ _ _ _ Hok) as Hps.
  pose proof (Z.div_mod (end_ - 1) (page_size root) ltac:(lia)) as Hd.
  pose proof (Z.mod_pos_bound (end_ - 1) (page_size root) Hps) as Hm.
  pose proof (Z.div_mod start (page_size root) ltac:(lia)) as Hd'.
  pose proof (Z.mod_pos_bound start (page_size root) Hps) as Hm'.
  revert p; induction k as [|k IH]; intros p Hp Hsp Hk.
  - rewrite slice_nil by nia. done.
  - rewrite seqZ_cons by lia. replace (Z.pred _) with (Z.of_nat k) by lia.
    eapply outcome_bind; [apply read_value_page_outcome; nia|].
    eapply outcome_bind; [apply IH; lia|].
    rewrite (Z.max_r start (Z.succ p * _)) by nia. destruct k as [|k].
    + rewrite (slice_nil _ (Z.succ p * _)), app_nil_r by nia. rewrite Z.min_l by nia. done.
    + rewrite Z.min_r by nia. replace (Z.succ p) with (p + 1) by lia. rewrite slice_split by nia. done.
Qed.

(** An external value is the range of the value bytes its entry names. *)
Lemma read_external_value_outcome start n v :
  get_range vb start (start + n) = Some v →
  outcome (read_external_value provider root start n) (Ok v).
Proof.
  intros Hv. pose proof (get_range_len _ _ _ _ Hv) as (Hlen & Hs & He).
  rewrite get_range_slice in Hv by lia. injection Hv as <-.
  unfold read_external_value. destruct (Z.eqb_spec n 0) as [->|Hn].
  { rewrite slice_nil by lia. done. }
  pose proof (ok_page_size _ _ _ _ _ Hok) as Hps.
  assert (len vb ≤ u32_max) as Hvb.
  { destruct Hok as [_ _ _ Hv _ _ Hst Hlog _].
    assert (0 ≤ div_ceil (len vb) (page_size root) ≤ len pages) as Hdc.
    { rewrite <- len_chunks, <- Hv by done. unfold len. rewrite length_drop. lia. }
    unfold div_ceil in Hdc.
    pose proof (Z.div_mod (len vb + page_size root - 1) (page_size root) ltac:(lia)).
    pose proof (Z.mod_pos_bound (len vb + page_size root - 1) (page_size root) Hps). nia. }
  eapply outcome_bind; [apply outcome_some, checked_add_Some; split; [done|lia]|].
  rewrite (ok_value_len _ _ _ _ _ Hok), (proj2 (Z.ltb_ge _ _)) by lia.
  pose proof (Z.div_le_mono start (start + n - 1) (page_size root) Hps ltac:(lia)).
  assert (0 ≤ start `div` page_size root) by (apply Z.div_pos; lia).
  rewrite <- (Z2Nat.id (_ - _ + 1)) by lia.
  eapply eq_ind; [apply read_value_pages_outcome; lia|]. simpl. do 2 f_equal.
  pose proof (Z.mul_div_le start (page_size root) Hps). lia.
Qed.

(** *** Entries *)

Lemma found_leaf fuel key : (h < fuel)%nat →
  ∃ l1 p es l2, splits_at key ls l1 (p, es) l2 ∧ sorted_by le_key es ∧
    leaf_at pages (value_page_start root) p (fst <$> head l2) es ∧
    outcome (find_leaf_page_for_key provider fuel root key) (Ok p).
Proof.
  intros Hf. destruct Hok as [Ht Hc Hs _ _ _ _ _ _].
  destruct (descend provider pages root provider_serves fuel h (root_page root) ls key Ht Hs Hf)
    as (l1 & p & es & l2 & Hsp & Hout).
  exists l1, p, es, l2. split; [done|]. destruct Hsp as (Heq & _ & _). split_and!; [|..|done].
  - rewrite Heq, entries_of_app, entries_of_cons in Hs. eapply sorted_app_l, sorted_app_r, Hs.
  - rewrite Heq in Hc. apply chain_app in Hc as [Hl _]. done.
Qed.

Lemma find_leaf_entry_found fuel e :
  (h < fuel)%nat → e ∈ entries_of ls →
  outcome (find_leaf_entry provider fuel root (le_key e)) (Ok e).
Proof.
  intros Hf He. destruct (found_leaf fuel (le_key e) Hf)
    as (l1 & p & es & l2 & (-> & Hlo & Hhi) & Hs & Hl & Hout).
  eapply outcome_bind; [exact Hout|].
  eapply outcome_bind; [by eapply read_leaf_at|]. apply outcome_some. simpl.
  assert (e ∈ es) as Hin.
  { rewrite entries_of_app, entries_of_cons, !elem_of_app in He.
    destruct He as [He|[He|He]]; [|done|].
    - by apply Hlo, bytes_lt_irrefl in He.
    - by apply Hhi, bytes_lt_irrefl in He. }
  pose proof (binary_search_key le_key es (le_key e) Hs) as Hb.
  destruct (binary_search_by _ _) as [i|i].
  - destruct Hb as (x & Hx & Hk). rewrite Hx. f_equal.
    apply (sorted_key_inj es); [done|by eapply list_elem_of_lookup_2|done..].
  - destruct Hb as (_ & Hlt & Hge). apply list_elem_of_lookup in Hin as [j Hj].
    exfalso. apply (bytes_lt_irrefl (le_key e)).
    destruct (decide (j < i)%nat); [by eapply Hlt|eapply (Hge j); [lia|done]].
Qed.

Lemma find_leaf_entry_absent fuel key :
  (h < fuel)%nat → key ∉ le_key <$> entries_of ls →
  outcome (find_leaf_entry provider fuel root key) (Err Absent).
Proof.
  intros Hf Hk. destruct (found_leaf fuel key Hf)
    as (l1 & p & es & l2 & (-> & Hlo & Hhi) & Hs & Hl & Hout).
  eapply outcome_bind; [exact Hout|].
  eapply outcome_bind; [by eapply read_leaf_at|]. apply outcome_none. simpl.
  pose proof (binary_search_key le_key es key Hs) as Hb.
  destruct (binary_search_by _ _) as [i|i]; [|done].
  destruct Hb as (x & Hx & <-). destruct Hk. apply list_elem_of_fmap_2.
  rewrite entries_of_app, entries_of_cons, !elem_of_app. right; left.
  by eapply list_elem_of_lookup_2.
Qed.

Lemma extract_value_found fuel e v :
  (h < fuel)%nat → e ∈ entries_of ls → entry_value vb e = Some v →
  outcome (extract_value provider fuel root (le_key e)) (Ok v).
Proof.
  intros Hf He Hv. eapply outcome_bind; [by apply find_leaf_entry_found|].
  pose proof (ok_entries _ _ _ _ _ Hok) as Hall. rewrite Forall_forall in Hall.
  destruct (Hall e He) as [_ Hne]. unfold entry_value, external_nonempty in *.
  destruct (le_val e) as [value|offset n]; [by injection Hv as ->|].
  rewrite (proj2 (Z.eqb_neq _ _)) by lia. by apply read_external_value_outcome.
Qed.

Lemma extract_value_absent fuel key :
  (h < fuel)%nat → key ∉ le_key <$> entries_of ls →
  outcome (extract_value provider fuel root key) (Err Absent).
Proof. intros. eapply outcome_bind_err. by apply find_leaf_entry_absent. Qed.

(** *** Scans *)

Lemma prefix_keys_loop_outcome links prefix p es rest :
  (length rest < links)%nat → chain pages (value_page_start root) ((p, es) :: rest) →
  sorted_by le_key (entries_of ((p, es) :: rest)) →
  outcome (prefix_keys_loop provider links root prefix p)
    (Ok ((λ e, from_utf8_lossy (le_key e)) <$> matching prefix (entries_of ((p, es) :: rest)))).
Proof.
  revert p es rest; induction links as [|links IH]; intros p es rest Hl [Hleaf Hc] Hs; [lia|].
  rewrite entries_of_cons in Hs |- *. cbn [prefix_keys_loop].
  eapply outcome_bind; [by eapply read_leaf_at|]. cbn [leaf_entries next_leaf].
  destruct (prefix_scan_spec prefix es) as (stop & -> & Hstop); [by eapply sorted_app_l|].
  rewrite matching_app, fmap_app. destruct stop.
  - rewrite (past_prefix_rest prefix es (entries_of rest)), app_nil_r by auto. done.
  - destruct rest as [|[p' es'] rest].
    + rewrite app_nil_r. done.
    + eapply outcome_bind; [apply (IH p' es' rest); [simpl in *; lia|done|by eapply sorted_app_r]|done].
Qed.

(** A prefix scan returns the keys that start with the prefix, in order. *)
Lemma prefix_keys_outcome fuel links prefix :
  (h < fuel)%nat → (length ls ≤ links)%nat →
  outcome (prefix_keys provider fuel links root prefix)
    (Ok ((λ e, from_utf8_lossy (le_key e)) <$> matching prefix (entries_of ls))).
Proof.
  intros Hf Hl. destruct (found_leaf fuel prefix Hf)
    as (l1 & p & es & l2 & (Heq & Hlo & _) & _ & _ & Hout).
  eapply outcome_bind; [exact Hout|]. destruct Hok as [_ Hc Hs _ _ _ _ _ _].
  rewrite Heq in Hc, Hs, Hl |- *. rewrite entries_of_app, matching_app in *.
  rewrite (matching_nil prefix (entries_of l1)) by (intros; by apply starts_with_below, Hlo).
  apply prefix_keys_loop_outcome; [rewrite length_app in Hl; simpl in Hl; lia|
    by eapply chain_app|by eapply sorted_app_r].
Qed.

Lemma prefix_stats_loop_outcome links prefix stats p es rest :
  (length rest < links)%nat → chain pages (value_page_start root) ((p, es) :: rest) →
  sorted_by le_key (entries_of ((p, es) :: rest)) →
  outcome (prefix_stats_loop provider links root prefix stats p)
    (Ok (foldl (leaf_stats root prefix) stats ((p, es) :: rest))).
Proof.
  revert stats p es rest; induction links as [|links IH];
    intros stats p es rest Hl [Hleaf Hc] Hs; [lia|].
  rewrite entries_of_cons in Hs. cbn [prefix_stats_loop].
  eapply outcome_bind; [by eapply read_leaf_at|]. cbn [leaf_entries next_leaf].
  destruct (stats_scan_spec root prefix es false stats) as (stop & -> & Hstop);
    [by eapply sorted_app_l|]. cbn [orb foldl]. destruct stop.
  - rewrite (leaf_stats_nomatch root prefix _ rest); [done|].
    by eapply past_prefix_rest; auto.
  - destruct rest as [|[p' es'] rest]; [done|].
    apply (IH _ p' es' rest); [simpl in *; lia|done|by eapply sorted_app_r].
Qed.

Lemma prefix_stats_outcome fuel links prefix :
  (h < fuel)%nat → (length ls ≤ links)%nat →
  outcome (prefix_stats provider fuel links root prefix)
    (Ok (foldl (leaf_stats root prefix) empty_stats ls)).
Proof.
  intros Hf Hl. destruct (found_leaf fuel prefix Hf)
    as (l1 & p & es & l2 & (Heq & Hlo & _) & _ & _ & Hout).
  eapply outcome_bind; [exact Hout|]. destruct Hok as [_ Hc Hs _ _ _ _ _ _].
  rewrite Heq in Hc, Hs, Hl |- *. rewrite foldl_app, (leaf_stats_nomatch _ _ _ l1).
  2: { apply matching_nil. intros; by apply starts_with_below, Hlo. }
  rewrite entries_of_app in Hs.
  apply prefix_stats_loop_outcome; [rewrite length_app in Hl; simpl in Hl; lia|
    by eapply chain_app|by eapply sorted_app_r].
Qed.

(** *** All pairs *)

Definition entry_pair (e : LeafEntry) : NavKvPair :=
  {| pair_key := from_utf8_lossy (le_key e); pair_value := default [] (entry_value vb e) |}.

Lemma read_pairs_outcome es :
  Forall (λ e, is_Some (entry_value vb e)) es →
  outcome (read_pairs provider root es) (Ok (entry_pair <$> es)).
Proof.
  induction 1 as [|e es [v Hv] _ IH]; [done|]. cbn [read_pairs].
  eapply (outcome_bind _ _ v).
  - unfold entry_value in Hv. destruct (le_val e); [by injection Hv as ->|].
    by apply read_external_value_outcome.
  - eapply outcome_bind; [exact IH|]. rewrite fmap_cons.
    replace (entry_pair e) with {| pair_key := from_utf8_lossy (le_key e); pair_value := v |};
      [done|]. unfold entry_pair. by rewrite Hv.
Qed.

Lemma pairs_loop_outcome links p es rest :
  (length rest < links)%nat → chain pages (value_page_start root) ((p, es) :: rest) →
  Forall (λ e, is_Some (entry_value vb e)) (entries_of ((p, es) :: rest)) →
  outcome (pairs_loop provider links root p) (Ok (entry_pair <$> entries_of ((p, es) :: rest))).
Proof.
  revert p es rest; induction links as [|links IH]; intros p es rest Hl [Hleaf Hc] Hv; [lia|].
  rewrite entries_of_cons in Hv |- *. cbn [pairs_loop]. apply Forall_app in Hv as [Hv Hv'].
  eapply outcome_bind; [by eapply read_leaf_at|]. cbn [leaf_entries next_leaf].
  eapply outcome_bind; [by apply read_pairs_outcome|]. rewrite fmap_app.
  destruct rest as [|[p' es'] rest].
  - rewrite app_nil_r. done.
  - eapply outcome_bind; [apply (IH p' es' rest); [simpl in *; lia|done..]|done].
Qed.

(** Reading everything returns every entry with its value, in order. *)
Lemma root_pairs_outcome fuel links :
  (h < fuel)%nat → (length ls ≤ links)%nat →
  outcome (root_pairs provider fuel links root) (Ok (entry_pair <$> entries_of ls)).
Proof.
  intros Hf Hl. destruct Hok as [Ht Hc _ _ _ _ _ _ He].
  destruct (descend_first provider pages root provider_serves fuel h (root_page root) ls Ht Hf)
    as (p & es & l2 & Heq & Hout).
  eapply outcome_bind; [exact Hout|]. rewrite Heq in Hc, He, Hl |- *.
  apply pairs_loop_outcome; [simpl in Hl; lia|done|].
  eapply Forall_impl; [exact He|]. by intros e [? _].
Qed.
End Reads.
