(* ===== verification/NavKvBuildCorrect.v ===== *)
(** * What the nav-kv builder writes

    The leaves hold the pairs in order, the levels above them form a tree over the
    leaves, the value pages hold the long values, and the record at the root says where
    everything is: a build that succeeds yields a store that satisfies [store_ok]. *)

From Stdlib Require Import Strings.Byte.
From stdpp Require Import base list list_numbers strings gmap sorting sets.
From S2P Require Import Prelude Utf8 Search NavKvFormat NavKvDelta.
From S2P Require Import NavKvRead NavKvBuild NavKvTree NavKvLookup.

Local Open Scope Z_scope.

(** ** Validation *)

Lemma validate_pairs_loop_Ok page_size previous pairs :
  validate_pairs_loop page_size previous pairs = Ok tt →
  validate_loop pair_key (λ p, bool_decide (pair_value p = [])) previous pairs = Ok tt.
Proof.
  revert previous; induction pairs as [|p pairs IH]; intros previous; [done|].
  cbn [validate_pairs_loop validate_loop]. intros H. inv_ok.
  rewrite Ha, Ha0. cbn [guard_err mbind result_bind]. rewrite Ha2. by apply IH.
Qed.

Lemma validate_pairs_Ok pairs page_size :
  validate_pairs pairs page_size = Ok tt → page_size ≠ 0 ∧ pairs ≠ [] ∧ pairs_ok pairs.
Proof.
  unfold validate_pairs. intros H. inv_ok. zbool. split_and!; [done..|].
  apply validate_pairs_iff. by eapply validate_pairs_loop_Ok.
Qed.

(** ** Entries *)

Lemma get_range_app_l {A} (l post : list A) a b v :
  get_range l a b = Some v → get_range (l ++ post) a b = Some v.
Proof.
  intros (pre & post' & -> & -> & ->)%get_range_Some. rewrite <- !app_assoc.
  by apply get_range_app.
Qed.

Lemma entry_value_app vb post e v :
  entry_value vb e = Some v → entry_value (vb ++ post) e = Some v.
Proof. unfold entry_value. destruct (le_val e); [done|]. apply get_range_app_l. Qed.

(** The entry that stands for a pair. *)
Definition entry_for (vb : bytes) (p : NavKvPair) (e : LeafEntry) : Prop :=
  le_key e = pair_key p ∧ entry_value vb e = Some (pair_value p) ∧ external_nonempty e ∧
  match le_val e with
  | Inline value => len value ≤ INLINE_VALUE_MAX_LEN
  | External offset n => in_u32 offset ∧ in_u32 n
  end.

Lemma split_values_spec pairs vb0 es vb :
  split_values pairs vb0 = Ok (es, vb) →
  ∃ ext, vb = vb0 ++ ext ∧ Forall2 (entry_for vb) pairs es.
Proof.
  revert vb0 es; induction pairs as [|p pairs IH]; intros vb0 es H.
  { injection H as <- <-. exists []. by rewrite app_nil_r. }
  cbn [split_values] in H. apply bind_Ok in H as (n & Hn & H).
  apply ok_or_Ok, try_into_Some in Hn as [-> Hn].
  apply bind_Ok in H as ([value vb1] & Hv & H). apply bind_Ok in H as ([es' vb2] & Hes & H).
  injection H as <- <-. apply IH in Hes as (ext & -> & Hall).
  pose proof (len_nonneg (pair_value p)).
  destruct (Z.leb_spec (len (pair_value p)) INLINE_VALUE_MAX_LEN) as [Hs|Hl].
  - injection Hv as <- <-. exists ext. split; [done|]. constructor; [|done].
    split_and!; done.
  - inv_ok. exists (pair_value p ++ ext). split; [by rewrite app_assoc|].
    constructor; [|done]. unfold INLINE_VALUE_MAX_LEN in Hl.
    pose proof (len_nonneg vb0). unfold entry_for, entry_value, external_nonempty; simpl.
    split_and!; [done| |lia|unfold in_u32; lia..].
    rewrite <- app_assoc. by apply get_range_app.
Qed.

(** ** Leaf pages *)

Definition leaf_group_len (es : list LeafEntry) : Z :=
  foldl Z.add LEAF_HEADER_LEN (leaf_entry_encoded_len <$> es).

Lemma leaf_group_len_snoc es e :
  leaf_group_len (es ++ [e]) = leaf_group_len es + leaf_entry_encoded_len e.
Proof. unfold leaf_group_len. by rewrite fmap_app, foldl_app. Qed.

(** The groups partition the entries, none is empty and each fits a page. *)
Lemma pack_leaf_groups_spec page_size cur es groups :
  pack_leaf_groups page_size cur (leaf_group_len cur) es = Ok groups →
  (cur ≠ [] → leaf_group_len cur ≤ page_size) →
  concat groups = cur ++ es ∧
  Forall (λ g, g ≠ [] ∧ leaf_group_len g ≤ page_size) groups.
Proof.
  revert cur groups; induction es as [|e es IH]; intros cur groups H Hcur; cbn [pack_leaf_groups] in H.
  { injection H as <-. destruct cur as [|e cur]; [done|].
    simpl. rewrite !app_nil_r. split; [done|]. apply Forall_singleton. split; [done|by apply Hcur]. }
  destruct (negb _ && _) eqn:Hfull.
  - zbool. inv_ok. zbool.
    change (LEAF_HEADER_LEN + leaf_entry_encoded_len e) with (leaf_group_len [e]) in *.
    apply IH in Ha as [Hcat Hall]; [|lia]. simpl. rewrite Hcat. split; [done|].
    constructor; [|done]. split; [done|by apply Hcur].
  - inv_ok. zbool. rewrite <- leaf_group_len_snoc in *.
    apply IH in Ha as [Hcat Hall]; [|lia]. simpl. rewrite Hcat, <- app_assoc. done.
Qed.

Lemma get_at_app_l {A} (l post : list A) i x : get_at l i = Some x → get_at (l ++ post) i = Some x.
Proof.
  unfold get_at. destruct (0 <=? i); [|done]. intros Hi. apply lookup_app_l_Some. done.
Qed.
Lemma get_at_middle {A} (l post : list A) x i : i = len l → get_at (l ++ x :: post) i = Some x.
Proof.
  intros ->. unfold get_at. rewrite (proj2 (Z.leb_le _ _)) by apply len_nonneg.
  rewrite to_nat_len. by apply list_lookup_middle.
Qed.

(** Pages that are appended later leave the tree as it is. *)
Lemma leaf_at_mono P P' limit limit' page next es :
  limit ≤ limit' → leaf_at P limit page next es → leaf_at (P ++ P') limit' page next es.
Proof.
  intros Hl ([? ?] & b & Hb & Hk). split; [lia|]. exists b. split; [by apply get_at_app_l|done].
Qed.
Lemma internal_at_mono P P' limit limit' page cs ps :
  limit ≤ limit' → internal_at P limit page cs ps → internal_at (P ++ P') limit' page cs ps.
Proof.
  intros Hl ([? ?] & b & Hb & Hk). split; [lia|]. exists b. split; [by apply get_at_app_l|done].
Qed.
Lemma subtree_mono P P' limit limit' h page ls :
  limit ≤ limit' → subtree P limit h page ls → subtree (P ++ P') limit' h page ls.
Proof.
  intros Hl. revert page ls; induction h as [|h IH]; intros page ls Ht; inversion Ht; subst.
  - econstructor; [by eapply leaf_at_mono|done].
  - econstructor; [by eapply internal_at_mono| |done]. eapply Forall2_impl; [done|]. apply IH.
Qed.
Lemma chain_mono P P' limit limit' ls :
  limit ≤ limit' → chain P limit ls → chain (P ++ P') limit' ls.
Proof.
  intros Hl. induction ls as [|[p es] ls IH]; [done|]. intros [H1 H2]. split; [|by apply IH].
  by eapply leaf_at_mono.
Qed.
Lemma subtree_page P limit h page ls : subtree P limit h page ls → 0 ≤ page < limit.
Proof. destruct 1 as [???[? _]|????[? _]]; done. Qed.

(** The summaries of a level stand for trees of one height, segment by segment. *)
Definition level_ok (P : list bytes) (h : nat) (sums : list NodeSummary)
    (segs : list (list leaf_ref)) : Prop :=
  Forall2 (λ s seg, subtree P (len P) h (ns_page s) seg ∧ ns_first_key s = first_key seg) sums segs.

Lemma len_le_app {A} (l l' : list A) : len l ≤ len (l ++ l').
Proof. rewrite len_app. pose proof (len_nonneg l'). lia. Qed.

Lemma level_ok_app P P' h sums segs : level_ok P h sums segs → level_ok (P ++ P') h sums segs.
Proof.
  intros H. eapply Forall2_impl; [exact H|]. intros s seg [Ht Hk]. split; [|done].
  eapply subtree_mono; [apply len_le_app|done].
Qed.

Definition external_fits (e : LeafEntry) : Prop :=
  match le_val e with Inline _ => True | External offset n => in_u32 offset ∧ in_u32 n end.

Lemma encoded_entries_ok g next b :
  encode_leaf_page g next = Ok b → Forall external_fits g → Forall entry_ok g.
Proof.
  intros (_ & _ & Hl)%encode_leaf_page_eq Hx. apply Forall_forall. intros e He.
  rewrite Forall_forall in Hl, Hx. specialize (Hl e He). specialize (Hx e He).
  unfold entry_ok, external_fits in *. destruct (le_val e); naive_solver.
Qed.

Lemma write_leaf_pages_spec first total index groups pages sums pages' :
  write_leaf_pages first total index groups pages = Ok (sums, pages') →
  first + index = len pages → total = index + len groups → len pages' ≤ u32_max →
  Forall (Forall external_fits) groups → Forall (λ g, g ≠ []) groups →
  (∃ enc, pages' = pages ++ enc ∧ length enc = length groups) ∧
  length sums = length groups ∧ fst <$> head (zip (ns_page <$> sums) groups) =
    (if bool_decide (groups = []) then None else Some (len pages)) ∧
  chain pages' (len pages') (zip (ns_page <$> sums) groups) ∧
  level_ok pages' 0 sums ((λ leaf, [leaf]) <$> zip (ns_page <$> sums) groups).
Proof.
  revert index pages sums; induction groups as [|g groups IH];
    intros index pages sums H Hfi Htot Hlen Hok Hne; cbn [write_leaf_pages] in H.
  { injection H as <- <-. split_and!; try done; [|constructor].
    exists []. by rewrite app_nil_r. }
  apply bind_Ok in H as (enc0 & Henc & H). apply bind_Ok in H as ([sums' pages0] & Hrec & H).
  injection H as <- <-. apply Forall_cons in Hok as [Hg Hok].
  eapply encoded_entries_ok in Hg; [|exact Henc]. apply Forall_cons in Hne as [Hgne Hne].
  destruct (IH _ _ _ Hrec) as ((enc & -> & Hle) & Hls & Hhead & Hchain & Hlevel); try done;
    [rewrite len_app, len_cons, len_nil; lia|rewrite Htot, len_cons; lia|].
  rewrite <- app_assoc in Hlen, Hchain, Hlevel |- *. cbn [app] in Hlen, Hchain, Hlevel |- *.
  pose proof (len_nonneg pages). pose proof (len_nonneg enc).
  rewrite len_app, len_cons in Hlen. rewrite (wrap32_small (first + index)) in Henc |- * by (unfold in_u32; lia).
  set (next := if index + 1 <? total then Some (wrap32 (first + index + 1)) else None) in *.
  assert (next = fst <$> head (zip (ns_page <$> sums') groups)) as Hnext.
  { rewrite Hhead. subst next total. rewrite len_cons. destruct groups as [|g' groups].
    - rewrite (proj2 (Z.ltb_ge _ _)) by (unfold len; simpl; lia). done.
    - rewrite (proj2 (Z.ltb_lt _ _)) by (rewrite len_cons; pose proof (len_nonneg groups); lia).
      rewrite wrap32_small by (destruct enc; [done|]; rewrite len_cons in Hlen;
        pose proof (len_nonneg enc); unfold in_u32; lia).
      rewrite bool_decide_eq_false_2 by done. rewrite len_app, len_cons, len_nil. f_equal. lia. }
  assert (leaf_at (pages ++ enc0 :: enc) (len (pages ++ enc0 :: enc)) (first + index) next g) as Hleaf.
  { split; [rewrite len_app, len_cons; lia|]. exists enc0. split; [by apply get_at_middle|].
    split; [by eapply leaf_page_kind|]. apply parse_leaf_node_encode; [done| |done].
    subst next. intros p. destruct (Z.ltb_spec (index + 1) total) as [Hlt|]; [|done].
    intros [= <-]. destruct groups as [|g' groups]; [rewrite len_cons, len_nil in Htot; lia|].
    destruct enc; [done|]. rewrite len_cons in Hlen. pose proof (len_nonneg enc).
    rewrite wrap32_small by (unfold in_u32; lia). unfold NO_PAGE. lia. }
  split_and!.
  - exists (enc0 :: enc). split; [done|]. simpl. by rewrite Hle.
  - simpl. by rewrite Hls.
  - simpl. f_equal. lia.
  - cbn [fmap list_fmap zip zip_with ns_page chain]. split; [by rewrite <- Hnext|done].
  - cbn [fmap list_fmap zip zip_with ns_page]. constructor; [|done]. split.
    + by econstructor.
    + unfold first_key, entries_of, group_first_key. simpl. rewrite app_nil_r. by destruct g.
Qed.

(** ** Internal pages *)

Lemma pack_internal_loop_concat page_size cur children groups :
  pack_internal_loop page_size cur children = Ok groups → concat groups = cur ++ children.
Proof.
  revert cur groups; induction children as [|c children IH]; intros cur groups H;
    cbn [pack_internal_loop] in H.
  { injection H as <-. destruct cur; simpl; by rewrite ?app_nil_r. }
  inv_ok. apply IH in Ha. rewrite concat_app, Ha. destruct (_ && _); simpl.
  - by rewrite app_nil_r.
  - by rewrite <- app_assoc.
Qed.

Lemma regroup_last_concat page_size groups groups' :
  regroup_last page_size groups = Ok groups' → concat groups' = concat groups.
Proof.
  unfold regroup_last. intros H. destruct (reverse groups) as [|last [|previous earlier]] eqn:Hr.
  1, 2: by repeat case_match; simplify_eq.
  assert (groups = reverse earlier ++ [previous; last]) as Hg.
  { rewrite <- (reverse_involutive groups), Hr. rewrite !reverse_cons, <- app_assoc. done. }
  destruct last as [|last [|? ?]]; [by simplify_eq| |by simplify_eq].
  case_match; [case_match; simplify_eq|].
  - rewrite !concat_app. simpl. by rewrite !app_nil_r.
  - destruct (reverse previous) as [|moved kept] eqn:Hp; simplify_eq; [done|].
    rewrite !concat_app. simpl.
    rewrite <- (reverse_involutive previous), Hp, reverse_cons, <- app_assoc. done.
Qed.

Lemma pack_internal_groups_concat children page_size groups :
  pack_internal_groups children page_size = Ok groups → concat groups = children.
Proof.
  unfold pack_internal_groups. intros H. inv_ok.
  apply regroup_last_concat in H as ->. by apply pack_internal_loop_concat in Ha.
Qed.

Lemma level_first_key P h group segs :
  level_ok P h group segs → group ≠ [] → summary_first_key group = first_key (concat segs).
Proof.
  intros [|s seg group' segs' [Ht Hk] _]%id Hne; [done|]. unfold summary_first_key; simpl.
  rewrite Hk. apply subtree_nonempty in Ht as [Hf Hn]. pose proof (entries_nonempty seg Hf Hn).
  unfold first_key. rewrite entries_of_app. by destruct (entries_of seg).
Qed.

Lemma level_pages P h sums segs :
  level_ok P h sums segs → Forall (λ s, 0 ≤ ns_page s < len P) sums.
Proof.
  induction 1 as [|s seg sums segs [Ht _] _ IH]; constructor; [by eapply subtree_page|done].
Qed.

Lemma level_segs P h sums segs :
  level_ok P h sums segs → Forall2 (subtree P (len P) h) (ns_page <$> sums) segs ∧
    ns_first_key <$> sums = first_key <$> segs.
Proof.
  induction 1 as [|s seg sums segs [Ht Hk] _ [IH1 IH2]]; [done|]. split; [by constructor|].
  rewrite !fmap_cons. by rewrite Hk, IH2.
Qed.

(** One internal page turns a group of trees into one tree. *)
Lemma internal_page_tree P h group segs b :
  level_ok P h group segs → encode_internal_page group = Ok b → len P ≤ u32_max →
  subtree (P ++ [b]) (len (P ++ [b])) (S h) (len P) (concat segs).
Proof.
  intros Hl Hb HP. pose proof (level_pages _ _ _ _ Hl) as Hpages.
  pose proof (encode_internal_page_eq _ _ Hb) as (_ & Hlen & _).
  pose proof Hl as [Hsegs Hkeys]%(level_ok_app P [b])%level_segs.
  apply (subtree_internal _ _ h (len P) (ns_page <$> group) segs).
  - split; [autorewrite with len; pose proof (len_nonneg P); lia|].
    exists b. split; [by apply get_at_middle|]. split; [by eapply internal_page_kind|].
    rewrite fmap_drop, <- Hkeys, <- fmap_drop. apply parse_internal_node_encode; [|done].
    eapply Forall_impl; [exact Hpages|]. intros s. unfold in_u32. lia.
  - done.
  - intros ->. apply Forall2_nil_inv_r in Hsegs. apply fmap_nil_inv in Hsegs. subst.
    rewrite len_nil in Hlen. lia.
Qed.

Lemma write_internal_pages_spec groups pages h segs sums pages' :
  write_internal_pages groups pages = Ok (sums, pages') →
  level_ok pages h (concat groups) segs → len pages' ≤ u32_max →
  (∃ enc, pages' = pages ++ enc ∧ length enc = length groups) ∧
  (2 * length groups ≤ length (concat groups))%nat ∧ length sums = length groups ∧
  ∃ segs', level_ok pages' (S h) sums segs' ∧ concat segs' = concat segs.
Proof.
  revert pages segs sums; induction groups as [|g groups IH]; intros pages segs sums H Hl Hlen;
    cbn [write_internal_pages] in H.
  { injection H as <- <-. apply Forall2_nil_inv_l in Hl as ->. split_and!; try done.
    - exists []. by rewrite app_nil_r.
    - exists []. split; [constructor|done]. }
  apply bind_Ok in H as (page & Hp & H). apply ok_or_Ok, try_into_Some in Hp as [-> Hp].
  apply bind_Ok in H as (b & Hb & H). apply bind_Ok in H as ([sums' pages0] & Hrec & H).
  injection H as <- <-. simpl in Hl. apply Forall2_app_inv_l in Hl as (s1 & s2 & Hl1 & Hl2 & ->).
  pose proof (encode_internal_page_eq _ _ Hb) as (_ & Hglen & _).
  destruct (IH _ s2 _ Hrec) as ((enc & -> & Hle) & H2 & Hls & segs' & Hl' & Hc);
    [by apply level_ok_app|done|].
  split_and!.
  - exists (b :: enc). rewrite <- app_assoc. split; [done|]. simpl. by rewrite Hle.
  - simpl. rewrite length_app. unfold len in Hglen. lia.
  - simpl. by rewrite Hls.
  - exists (concat s1 :: segs'). split; [|by simpl; rewrite Hc, concat_app].
    constructor; [|done]. simpl. split.
    + eapply subtree_mono; [apply len_le_app|]. by eapply internal_page_tree.
    + eapply level_first_key; [done|]. intros ->. rewrite len_nil in Hglen. lia.
Qed.

(** Building only appends pages. *)
Lemma write_internal_pages_grow groups pages sums pages' :
  write_internal_pages groups pages = Ok (sums, pages') → ∃ enc, pages' = pages ++ enc.
Proof.
  revert pages sums; induction groups as [|g groups IH]; intros pages sums H;
    cbn [write_internal_pages] in H.
  - injection H as <- <-. exists []. by rewrite app_nil_r.
  - inv_ok. destruct a1 as [s' p']. injection H as <- <-. apply IH in Ha1 as [enc ->].
    exists (a0 :: enc). by rewrite <- app_assoc.
Qed.
Lemma build_internal_level_grow children page_size pages sums pages' :
  build_internal_level children page_size pages = Ok (sums, pages') → ∃ enc, pages' = pages ++ enc.
Proof. unfold build_internal_level. intros H. inv_ok. by eapply write_internal_pages_grow. Qed.
Lemma build_levels_grow fuel page_size level pages level' pages' :
  build_levels fuel page_size level pages = Ok (level', pages') → ∃ enc, pages' = pages ++ enc.
Proof.
  revert level pages; induction fuel as [|fuel IH]; intros level pages H;
    cbn [build_levels] in H; destruct (_ <=? _); try done;
    try (injection H as <- <-; exists []; by rewrite app_nil_r).
  apply bind_Ok in H as ([l2 p2] & Hb & [enc ->]%IH).
  apply build_internal_level_grow in Hb as [enc' ->].
  exists (enc' ++ enc). by rewrite app_assoc.
Qed.

(** The levels above the leaves end at a single tree over all the leaves. *)
Lemma build_levels_spec fuel page_size level pages h segs level' pages' :
  build_levels fuel page_size level pages = Ok (level', pages') →
  level_ok pages h level segs → len pages' ≤ u32_max → level ≠ [] → (h < length pages)%nat →
  ∃ h' s, level' = [s] ∧
    subtree pages' (len pages') h' (ns_page s) (concat segs) ∧ (h' < length pages')%nat.
Proof.
  revert level pages h segs; induction fuel as [|fuel IH];
    intros level pages h segs H Hl Hlen Hne Hh; cbn [build_levels] in H;
    destruct (Z.leb_spec (len level) 1) as [H1|H1]; try done.
  1, 2: injection H as <- <-; destruct Hl as [|s seg level segs [Ht _] Hl]; [done|];
    destruct Hl as [|s' ? l]; [|rewrite !len_cons in H1; pose proof (len_nonneg l); lia];
    exists h, s; simpl; rewrite !app_nil_r; done.
  apply bind_Ok in H as ([level1 pages1] & Hb & H). unfold build_internal_level in Hb.
  apply bind_Ok in Hb as (groups & Hg & Hb). apply pack_internal_groups_concat in Hg. subst level.
  pose proof (build_levels_grow _ _ _ _ _ _ H) as [enc1 Heq].
  destruct (write_internal_pages_spec groups pages h segs level1 pages1)
    as ((enc & -> & Henc) & H2 & Hls & segs' & Hl' & <-); [done..| |].
  { subst pages'. pose proof (len_le_app pages1 enc1). lia. }
  assert (groups ≠ []) as Hgne by (intros ->; done).
  eapply IH; [done|done|done| |].
  - intros ->. by destruct groups.
  - rewrite length_app, Henc. destruct groups; [done|]. simpl. lia.
Qed.

(** The level loop never runs out of its rounds: every level is at most half as long
    as the one below it. *)
Lemma write_internal_pages_halves groups pages sums pages' :
  write_internal_pages groups pages = Ok (sums, pages') →
  length sums = length groups ∧ (2 * length groups ≤ length (concat groups))%nat.
Proof.
  revert pages sums; induction groups as [|g groups IH]; intros pages sums H;
    cbn [write_internal_pages] in H.
  - by injection H as <- <-.
  - inv_ok. destruct a1 as [s' p']. injection H as <- <-. apply IH in Ha1 as [Hl Hs].
    apply encode_internal_page_eq in Ha0 as (_ & Hg & _).
    simpl. rewrite length_app, Hl. unfold len in Hg. split; lia.
Qed.
Lemma build_internal_level_halves children page_size pages sums pages' :
  build_internal_level children page_size pages = Ok (sums, pages') →
  (2 * length sums ≤ length children)%nat.
Proof.
  unfold build_internal_level. intros H. inv_ok.
  apply pack_internal_groups_concat in Ha as <-.
  apply write_internal_pages_halves in H as [-> ?]. done.
Qed.

(** ** The built store *)

Definition with_prefetch (root : NavKvRoot) (prefetch : list Z) : NavKvRoot :=
  {| entry_count := entry_count root; page_size := page_size root; root_page := root_page root;
     page_count := page_count root; value_page_start := value_page_start root;
     value_bytes_len := value_bytes_len root; prefetch_pages := prefetch |}.

Lemma store_ok_prefetch root prefetch pages h ls vb :
  store_ok root pages h ls vb → store_ok (with_prefetch root prefetch) pages h ls vb.
Proof. by intros []. Qed.

(** A tree has no more leaves than there are pages. *)
Lemma entry_for_keys vb pairs es :
  Forall2 (entry_for vb) pairs es → le_key <$> es = pair_key <$> pairs.
Proof.
  induction 1 as [|p e pairs es (Hk & _) _ IH]; [done|]. rewrite !fmap_cons. by rewrite Hk, IH.
Qed.

Lemma entries_of_zip {A} (f : A → Z) (sums : list A) (groups : list (list LeafEntry)) :
  length sums = length groups → entries_of (zip (f <$> sums) groups) = concat groups.
Proof.
  intros H. unfold entries_of. f_equal. apply snd_zip. by rewrite length_fmap, H.
Qed.

Lemma build_leaf_pages_spec es page_size sums pages :
  build_leaf_pages es page_size [] = Ok (sums, pages) → len pages ≤ u32_max →
  Forall external_fits es → es ≠ [] →
  ∃ ls, entries_of ls = es ∧ chain pages (len pages) ls ∧ ls ≠ [] ∧
    level_ok pages 0 sums ((λ leaf, [leaf]) <$> ls) ∧ length ls = length pages.
Proof.
  unfold build_leaf_pages. intros H Hlen Hx Hes. inv_ok. subst a0.
  apply (pack_leaf_groups_spec page_size []) in Ha as [Hc Hg]; [|done]. simpl in Hc.
  destruct (write_leaf_pages_spec 0 (len a) 0 a [] sums pages)
    as ((enc & -> & Hle) & Hls & _ & Hchain & Hlevel); try done.
  - apply Forall_concat. by rewrite Hc.
  - eapply Forall_impl; [exact Hg|]. by intros g [? _].
  - exists (zip (ns_page <$> sums) a). split_and!; try done.
    + by rewrite entries_of_zip.
    + intros Hz. apply (f_equal entries_of) in Hz. rewrite entries_of_zip, Hc in Hz by done. done.
    + rewrite length_zip_with, length_fmap. simpl. lia.
Qed.

Lemma Forall2_Forall_r' {A B} (R : A → B → Prop) (Q : B → Prop) l1 l2 :
  Forall2 R l1 l2 → (∀ x y, R x y → Q y) → Forall Q l2.
Proof. intros H HQ. induction H; constructor; eauto. Qed.

Lemma concat_singletons {A} (l : list A) : concat ((λ x, [x]) <$> l) = l.
Proof. induction l as [|x l IH]; [done|]. by simpl; f_equal. Qed.

(** Everything the builder computes before it looks for pages to prefetch. *)
Record built (pairs : list NavKvPair) (psize : Z) (pages : list bytes) (root : NavKvRoot)
    (h : nat) (ls : list leaf_ref) (vb : bytes) : Prop := {
  built_ok : store_ok root pages h ls vb;
  built_pairs : Forall2 (entry_for vb) pairs (entries_of ls);
  built_height : (h < length pages)%nat;
  built_leaves : (length ls ≤ length pages)%nat;
  built_root : root_ok root;
  built_count : page_count root = len pages;
  built_entries : entry_count root = len pairs;
  built_size : page_size root = psize
}.

Lemma build_pages_spec pairs psize es vb level pages level' pages' vpages :
  pairs_ok pairs → pairs ≠ [] → 0 < psize → split_values pairs [] = Ok (es, vb) →
  build_leaf_pages es psize [] = Ok (level, pages) →
  build_levels (length level) psize level pages = Ok (level', pages') →
  vpages = pages' ++ chunks psize vb →
  len vpages * psize ≤ u32_max → len pairs ≤ u32_max → len vpages ≤ u32_max → len vb ≤ u32_max →
  psize ≤ u32_max →
  ∃ s h ls, level' = [s] ∧
    built pairs psize vpages
      {| entry_count := len pairs; page_size := psize; root_page := ns_page s;
         page_count := len vpages; value_page_start := len pages';
         value_bytes_len := len vb; prefetch_pages := [] |} h ls vb.
Proof.
  intros [Hne Hsorted] Hpne Hps Hsplit Hleaf Hlevels -> Hlog Hpairs Hvp Hvb Hps'.
  apply split_values_spec in Hsplit as (ext & -> & Hfor). simpl in Hfor.
  pose proof (build_levels_grow _ _ _ _ _ _ Hlevels) as [enc ->].
  assert (len pages ≤ len (pages ++ enc) ≤ u32_max) as Hlen.
  { pose proof (len_le_app pages enc). pose proof (len_le_app (pages ++ enc) (chunks psize ext)).
    simpl in *. lia. }
  assert (es ≠ []) as Hes by (intros ->; by apply Forall2_nil_inv_r in Hfor).
  destruct (build_leaf_pages_spec es psize level pages Hleaf)
    as (ls & Hent & Hchain & Hlsne & Hlevel & Hlsl); [lia| |done|].
  { eapply Forall2_Forall_r'; [exact Hfor|]. intros p e (_ & _ & _ & H). unfold external_fits.
    by destruct (le_val e). }
  destruct (build_levels_spec _ _ _ _ 0 (( λ leaf, [leaf]) <$> ls) _ _ Hlevels Hlevel)
    as (h & s & -> & Ht & Hh); [lia|..].
  { intros ->. apply Forall2_nil_inv_l, fmap_nil_inv in Hlevel. done. }
  { destruct ls; [done|]. simpl in Hlsl. lia. }
  rewrite concat_singletons in Ht. pose proof (subtree_page _ _ _ _ _ Ht) as Hrp.
  pose proof (len_app (pages ++ enc) (chunks psize ext)) as Hla. rewrite len_chunks in Hla by done.
  pose proof (div_ceil_nonneg (len ext) psize (len_nonneg _) Hps) as Hdc.
  pose proof (len_nonneg ext). simpl in *. exists s, h, ls. split; [done|]. constructor; simpl.
  - constructor; simpl; try done.
    + eapply subtree_mono; [|exact Ht]. lia.
    + rewrite <- app_assoc. eapply chain_mono; [|exact Hchain]. lia.
    + unfold sorted_by. rewrite Hent, (entry_for_keys _ _ _ Hfor). done.
    + by rewrite to_nat_len, drop_app_length.
    + lia.
    + rewrite Hent. eapply Forall2_Forall_r'; [exact Hfor|]. intros p e (_ & Hv & Hx & _).
      split; [by eexists|done].
  - by rewrite Hent.
  - rewrite length_app. lia.
  - rewrite !length_app. lia.
  - unfold root_ok, in_u32; simpl. pose proof (len_nonneg pairs).
    split_and!; try (done || lia); constructor.
  - done.
  - done.
  - done.
Qed.

(** ** Reading a built store *)

Lemma sorted_NoDup (l : list bytes) : StronglySorted bytes_lt l → NoDup l.
Proof.
  induction 1 as [|k l _ IH Hk]; constructor; [|done]. intros Hin.
  rewrite Forall_forall in Hk. by apply Hk, bytes_lt_irrefl in Hin.
Qed.

Lemma pairs_map_elem pairs p :
  sorted_by pair_key pairs → p ∈ pairs → pairs_map pairs !! pair_key p = Some (pair_value p).
Proof.
  intros Hs Hp. apply elem_of_list_to_map.
  - rewrite <- list_fmap_compose. by apply sorted_NoDup.
  - apply list_elem_of_fmap. by exists p.
Qed.

(** The keys of the pairs that start with a prefix. *)
Definition keys_matching (prefix : bytes) (pairs : list NavKvPair) : list bytes :=
  filter (λ k, starts_with k prefix = true) (pair_key <$> pairs).

Lemma matching_keys prefix es :
  le_key <$> matching prefix es = filter (λ k, starts_with k prefix = true) (le_key <$> es).
Proof.
  unfold matching. induction es as [|e es IH]; [done|].
  rewrite fmap_cons, !filter_cons. case_decide; [|done]. by rewrite fmap_cons, IH.
Qed.

Lemma entry_for_pairs vb pairs es :
  Forall2 (entry_for vb) pairs es → Forall (λ p, utf8_valid (pair_key p) = true) pairs →
  pairs = entry_pair vb <$> es.
Proof.
  induction 1 as [|p e ps es (Hk & Hv & _) _ IH]; [done|].
  intros [Hu Hus]%Forall_cons. rewrite fmap_cons, <- (IH Hus).
  f_equal. unfold entry_pair. rewrite Hv, Hk, from_utf8_lossy_valid by done. by destruct p.
Qed.

Lemma matching_for vb prefix pairs es :
  Forall2 (entry_for vb) pairs es →
  Forall2 (λ e p, le_key e = pair_key p ∧ entry_value vb e = Some (pair_value p))
    (matching prefix es) (filter (λ p, starts_with (pair_key p) prefix = true) pairs).
Proof.
  induction 1 as [|p e ps es (Hk & Hv & _) _ IH]; [done|].
  unfold matching in *. rewrite !filter_cons, Hk. case_decide; [by constructor|done].
Qed.

Section ReadBuilt.
Context {S : Type} (provider : Z → S → option bytes * S).
Context {pairs : list NavKvPair} {psize : Z} {pages : list bytes} {root : NavKvRoot}.
Context {h : nat} {ls : list leaf_ref} {vb : bytes}.
Hypothesis provider_serves : ∀ page s, (provider page s).1 = get_at pages page.
Hypothesis Hbuilt : built pairs psize pages root h ls vb.
(** Rust strings are UTF-8. *)
Hypothesis Hutf8 : Forall (λ p, utf8_valid (pair_key p) = true) pairs.
Context (fuel : nat).
Hypothesis Hfuel : (length pages ≤ fuel)%nat.

Let Hok := built_ok _ _ _ _ _ _ _ Hbuilt.
Let Hpairs := built_pairs _ _ _ _ _ _ _ Hbuilt.
Let Hheight := built_height _ _ _ _ _ _ _ Hbuilt.
Let Hleaves := built_leaves _ _ _ _ _ _ _ Hbuilt.

Lemma pairs_sorted : sorted_by pair_key pairs.
Proof.
  unfold sorted_by. rewrite <- (entry_for_keys _ _ _ Hpairs). apply (ok_sorted _ _ _ _ _ Hok).
Qed.

Lemma built_extract key :
  outcome (extract_value provider fuel root key) (ok_or (pairs_map pairs !! key) Absent).
Proof.
  destruct (decide (key ∈ le_key <$> entries_of ls)) as [Hin|Hout].
  - apply list_elem_of_fmap in Hin as (e & -> & He).
    pose proof He as [i Hi]%list_elem_of_lookup.
    destruct (Forall2_lookup_r _ _ _ _ _ Hpairs Hi) as (p & Hp & Hk & Hv & _).
    rewrite Hk at 2. rewrite (pairs_map_elem pairs p pairs_sorted) by by eapply list_elem_of_lookup_2.
    eapply extract_value_found; (done || lia).
  - assert (pairs_map pairs !! key = None) as ->.
    { apply not_elem_of_list_to_map. rewrite <- list_fmap_compose.
      by rewrite (entry_for_keys _ _ _ Hpairs) in Hout. }
    eapply extract_value_absent; [done..|lia|done].
Qed.

Context (links : nat).
Hypothesis Hlinks : (length pages ≤ links)%nat.

Lemma lossy_keys (es : list LeafEntry) :
  (∀ e, e ∈ es → e ∈ entries_of ls) →
  (λ e, from_utf8_lossy (le_key e)) <$> es = le_key <$> es.
Proof.
  intros Hes. apply list_fmap_ext. intros i e Hi. apply from_utf8_lossy_valid.
  specialize (Hes e ltac:(by eapply list_elem_of_lookup_2)).
  assert (le_key e ∈ pair_key <$> pairs) as Hin.
  { rewrite <- (entry_for_keys _ _ _ Hpairs). by apply list_elem_of_fmap_2. }
  apply list_elem_of_fmap in Hin as (p & -> & Hp). rewrite Forall_forall in Hutf8. by apply Hutf8.
Qed.

Lemma built_prefix_keys prefix :
  outcome (prefix_keys provider fuel links root prefix) (Ok (keys_matching prefix pairs)).
Proof.
  unfold keys_matching. rewrite <- (entry_for_keys _ _ _ Hpairs), <- matching_keys, <- lossy_keys.
  - eapply prefix_keys_outcome; [done..|lia|lia].
  - intros e He. by apply list_elem_of_filter in He as [_ ?].
Qed.

Lemma built_root_pairs : outcome (root_pairs provider fuel links root) (Ok pairs).
Proof.
  assert (pairs = entry_pair vb <$> entries_of ls) as ->.
  { by apply entry_for_pairs. }
  eapply root_pairs_outcome; [done..|lia|lia].
Qed.

(** The statistics of a scan agree with the pairs. *)
Lemma built_prefix_stats prefix :
  ∃ stats, outcome (prefix_stats provider fuel links root prefix) (Ok stats) ∧
    let found := filter (λ p, starts_with (pair_key p) prefix = true) pairs in
    st_key_count stats = len found ∧
    st_key_bytes stats = len (concat (pair_key <$> found)) ∧
    st_value_bytes stats = len (concat (pair_value <$> found)) ∧
    st_inline_value_count stats + st_external_value_count stats = len found.
Proof.
  eexists. split; [eapply prefix_stats_outcome; [done..|lia|lia]|]. simpl.
  pose proof (matching_for vb prefix _ _ Hpairs) as Hm. set (found := filter _ pairs) in *.
  destruct (leaf_stats_totals root prefix vb ls (pair_value <$> found) empty_stats)
    as (-> & -> & -> & ->).
  { apply Forall2_fmap_r. eapply Forall2_impl; [exact Hm|]. by intros e p [_ ?]. }
  simpl. rewrite !Z.add_0_l. assert (len (matching prefix (entries_of ls)) = len found) as ->.
  { unfold len. by rewrite (Forall2_length _ _ _ Hm). }
  split_and!; try done. f_equal. f_equal. clear -Hm.
  induction Hm as [|e p es ps [Hk _] _ IH]; [done|]. rewrite !fmap_cons. by rewrite Hk, IH.
Qed.
End ReadBuilt.
