(* ===== verification/NavKvPrefetch.v ===== *)
(** * The pages a reader touches

    The builder runs the reads a client makes at startup and records the pages they
    fetch. [replay] relates a recorded run to a run with any provider that has the
    recorded pages: same result, and nothing outside the store was asked for. *)

From Stdlib Require Import Strings.Byte.
From stdpp Require Import base list list_numbers strings gmap sorting sets.
From S2P Require Import Prelude Utf8 Search NavKvFormat NavKvDelta.
From S2P Require Import NavKvRead NavKvBuild NavKvTree NavKvLookup NavKvBuildCorrect.

Local Open Scope Z_scope.

(** ** Page numbers in parsed nodes *)

Definition leaf_fits (leaf : LeafNode) : Prop :=
  Forall external_fits (leaf_entries leaf) ∧ ∀ p, next_leaf leaf = Some p → 0 ≤ p.
Definition node_fits (node : Node) : Prop :=
  match node with
  | Leaf leaf => leaf_fits leaf
  | Internal node => Forall (λ p, 0 ≤ p) (children node)
  end.

Lemma parse_leaf_entries_fit l n offset es :
  parse_leaf_entries l n offset = Ok es → Forall external_fits es.
Proof.
  revert offset es; induction n as [|n IH]; intros offset es H; cbn [parse_leaf_entries] in H.
  { by injection H as <-. }
  apply bind_Ok in H as ([e off'] & He & H). inv_ok. constructor; [|by eapply IH].
  unfold parse_leaf_entry in He. inv_ok. apply read_u32_bound in Ha2, Ha3.
  repeat case_match; try done; inv_ok; simplify_eq; done.
Qed.

Lemma parse_leaf_node_fits l leaf : parse_leaf_node l = Ok leaf → leaf_fits leaf.
Proof.
  unfold parse_leaf_node. intros H. inv_ok. split; simpl; [by eapply parse_leaf_entries_fit|].
  apply read_u32_bound in Ha0. unfold in_u32 in Ha0. intros p. case_match; [done|]. intros [= <-]. lia.
Qed.

Lemma parse_children_fit l n offset cs offset' :
  parse_children l n offset = Ok (cs, offset') → Forall (λ p, 0 ≤ p) cs.
Proof.
  revert offset cs; induction n as [|n IH]; intros offset cs H; cbn [parse_children] in H.
  { by injection H as <- _. }
  apply bind_Ok in H as (c & Hc & H). apply bind_Ok in H as ([cs' o] & Hcs & H). injection H as <- <-.
  apply read_u32_bound in Hc. unfold in_u32 in Hc. constructor; [lia|by eapply IH].
Qed.

Lemma parse_internal_node_fits l node :
  parse_internal_node l = Ok node → Forall (λ p, 0 ≤ p) (children node).
Proof.
  unfold parse_internal_node. intros H. apply bind_Ok in H as (a & _ & H).
  apply bind_Ok in H as (b & _ & H). apply bind_Ok in H as (u & _ & H).
  apply bind_Ok in H as ([cs o] & Hcs & H). inv_ok. by eapply parse_children_fit.
Qed.

(** ** Runs of one reader with two providers

    The laws of a relation between runs of the same reader with two providers; every
    reading method then satisfies it, provided the two providers are related on the
    pages inside the store. *)
Class ReadSim {S1 S2 : Type} (provider1 : Z → S1 → option bytes * S1)
    (provider2 : Z → S2 → option bytes * S2) (bound : Z)
    (sim : ∀ A, ST S1 read_failure A → ST S2 read_failure A → (A → Prop) → Prop) : Prop := {
  sim_ret A (a : A) (Q : A → Prop) : Q a → sim A (mret a) (mret a) Q;
  sim_err A e (Q : A → Prop) : sim A (st_err e) (st_err e) Q;
  sim_bind A B (c : ST S1 _ A) c' (f : A → ST S1 _ B) f' (Q : A → Prop) (Q' : B → Prop) :
    sim A c c' Q → (∀ a, Q a → sim B (f a) (f' a) Q') → sim B (c ≫= f) (c' ≫= f') Q';
  sim_fetch page : 0 ≤ page < bound →
    sim bytes (fetch provider1 page) (fetch provider2 page) (λ _, True)
}.

Section SimReads.
Context {S1 S2 : Type} (provider1 : Z → S1 → option bytes * S1)
  (provider2 : Z → S2 → option bytes * S2) (root : NavKvRoot).
Context (sim : ∀ A, ST S1 read_failure A → ST S2 read_failure A → (A → Prop) → Prop).
Context `{Hsim : !ReadSim provider1 provider2 (page_count root) sim}.
Hypothesis Hroot : root_ok root.

Lemma sim_option {A} (o : option A) (Q : A → Prop) :
  (∀ a, o = Some a → Q a) → sim _ (some_or_absent o) (some_or_absent o) Q.
Proof.
  intros HQ. destruct o; [|apply sim_err]. apply sim_ret. by apply HQ.
Qed.

Lemma sim_read_node page :
  0 ≤ page →
  sim _ (read_node provider1 root page) (read_node provider2 root page) node_fits.
Proof.
  intros Hp. unfold read_node. destruct Hroot as (_ & Hps & Hpc & _ & Hvs & Hvl & Hsum & _).
  pose proof (div_ceil_nonneg (value_bytes_len root) (page_size root)) as Hdc.
  unfold in_u32 in Hvl. specialize (Hdc ltac:(lia) ltac:(lia)).
  destruct (Z.leb_spec (value_page_start root) page); [apply sim_err|].
  eapply sim_bind; [apply sim_fetch; lia|]. intros b _.
  eapply sim_bind; [by apply (sim_option _ (λ _, True))|]. intros kind _.
  case_match; [|case_match; [|apply sim_err]].
  - eapply sim_bind; [eapply (sim_option _ leaf_fits)|].
    + intros leaf Hl. apply parse_leaf_node_fits with b. by destruct (parse_leaf_node b); simplify_eq/=.
    + intros leaf Hl. by apply sim_ret.
  - eapply sim_bind; [eapply (sim_option _ (λ n, Forall (λ p, 0 ≤ p) (children n)))|].
    + intros n Hn. apply parse_internal_node_fits with b.
      by destruct (parse_internal_node b); simplify_eq/=.
    + intros n Hn. by apply sim_ret.
Qed.

Lemma sim_read_leaf page :
  0 ≤ page →
  sim _ (read_leaf provider1 root page) (read_leaf provider2 root page) leaf_fits.
Proof.
  intros Hp. eapply sim_bind; [by apply sim_read_node|].
  intros [leaf|node] Hn; [by apply sim_ret|apply sim_err].
Qed.

Lemma sim_find_leaf fuel key page :
  0 ≤ page →
  sim _ (find_leaf_loop provider1 fuel root key page)
    (find_leaf_loop provider2 fuel root key page) (λ p, 0 ≤ p).
Proof.
  revert page; induction fuel as [|fuel IH]; intros page Hp; [apply sim_err|].
  cbn [find_leaf_loop]. eapply sim_bind; [by apply sim_read_node|].
  intros [leaf|node] Hn; [by apply sim_ret|].
  eapply sim_bind; [apply (sim_option _ (λ p, 0 ≤ p))|auto].
  intros c Hc. simpl in Hn. rewrite Forall_forall in Hn. apply Hn. by eapply list_elem_of_lookup_2.
Qed.

Lemma sim_find_entry fuel key :
  sim _ (find_leaf_entry provider1 fuel root key)
    (find_leaf_entry provider2 fuel root key) external_fits.
Proof.
  eapply sim_bind; [apply sim_find_leaf; destruct Hroot as (_ & _ & _ & ? & _); lia|].
  intros p Hp. eapply sim_bind; [by apply sim_read_leaf|]. intros leaf [Hl _].
  apply sim_option. intros e He. case_match; [|done]. rewrite Forall_forall in Hl.
  apply Hl. by eapply list_elem_of_lookup_2.
Qed.

Lemma sim_value_pages start end_ vps :
  Forall (λ i, 0 ≤ i ∧ i * page_size root < value_bytes_len root) vps →
  sim _ (read_value_pages provider1 root start end_ vps)
    (read_value_pages provider2 root start end_ vps) (λ _, True).
Proof.
  induction 1 as [|i vps [Hi Hlt] _ IH]; [by apply sim_ret|].
  cbn [read_value_pages]. eapply (sim_bind _ _ _ _ _ _ (λ _, True));
    [|intros b _; eapply sim_bind; [exact IH|]; intros; by apply sim_ret].
  eapply sim_bind; [apply sim_fetch|].
  - destruct Hroot as (_ & Hps & Hpc & _ & Hvs & Hvl & Hsum & _). unfold div_ceil in Hsum.
    pose proof (Z.div_mod (value_bytes_len root + page_size root - 1) (page_size root) ltac:(lia)).
    pose proof (Z.mod_pos_bound (value_bytes_len root + page_size root - 1) (page_size root) ltac:(lia)).
    unfold in_u32 in Hvl. assert (value_page_start root + i < page_count root) by nia.
    rewrite wrap32_small by (unfold in_u32; lia). lia.
  - intros b _. cbn zeta. case_match; [apply sim_err|]. by apply sim_option.
Qed.

Lemma sim_external start n :
  0 ≤ start → 0 ≤ n →
  sim _ (read_external_value provider1 root start n)
    (read_external_value provider2 root start n) (λ _, True).
Proof.
  intros Hs Hn. unfold read_external_value. destruct (Z.eqb_spec n 0); [by apply sim_ret|].
  eapply sim_bind; [apply (sim_option _ (λ e, e = start + n))|].
  { intros e He. by apply checked_add_Some in He as [-> _]. }
  intros e ->. case_match; [apply sim_err|]. zbool. apply sim_value_pages.
  apply Forall_forall. intros i Hi%elem_of_seqZ.
  destruct Hroot as (_ & Hps & _). pose proof (Z.div_pos start (page_size root)).
  pose proof (Z.mul_div_le (start + n - 1) (page_size root) ltac:(lia)). nia.
Qed.

Lemma sim_extract_value fuel key :
  sim _ (extract_value provider1 fuel root key) (extract_value provider2 fuel root key)
    (λ _, True).
Proof.
  eapply sim_bind; [apply sim_find_entry|]. intros e He. unfold external_fits in He.
  destruct (le_val e) as [v|offset n]; [by apply sim_ret|]. unfold in_u32 in He.
  case_match; [apply sim_err|]. apply sim_external; lia.
Qed.

Lemma sim_value_range fuel key :
  sim _ (get_value_range provider1 fuel root key)
    (get_value_range provider2 fuel root key) (λ _, True).
Proof.
  eapply sim_bind; [apply sim_find_entry|]. intros e He. by apply sim_ret.
Qed.

Lemma sim_prefix_keys fuel links prefix :
  sim _ (prefix_keys provider1 fuel links root prefix)
    (prefix_keys provider2 fuel links root prefix) (λ _, True).
Proof.
  eapply sim_bind; [apply sim_find_leaf; destruct Hroot as (_ & _ & _ & ? & _); lia|].
  revert links. assert (∀ links page, 0 ≤ page →
    sim _ (prefix_keys_loop provider1 links root prefix page)
      (prefix_keys_loop provider2 links root prefix page) (λ _, True)) as H; [|by intros; apply H].
  induction links as [|links IH]; intros page Hp; [apply sim_err|].
  cbn [prefix_keys_loop]. eapply sim_bind; [by apply sim_read_leaf|]. intros leaf [_ Hn].
  destruct (prefix_scan _ _) as [keys [|]]; [by apply sim_ret|].
  destruct (next_leaf leaf) as [next|]; [|by apply sim_ret].
  eapply sim_bind; [by apply IH, Hn|]. intros; by apply sim_ret.
Qed.
End SimReads.

(** ** Replaying a recorded run *)

Section Replay.
Context {S : Type} (provider : Z → S → option bytes * S).
Context (pages : list bytes) (root : NavKvRoot).

Definition serves (t : gset Z) : Prop :=
  ∀ page s, page ∈ t → (provider page s).1 = get_at pages page.

Definition replay {A} (c : ST (gset Z) read_failure A) (c' : ST S read_failure A)
    (Q : A → Prop) : Prop :=
  ∀ t, t ⊆ (c t).2 ∧ (∀ p, p ∈ (c t).2 → p ∈ t ∨ 0 ≤ p < page_count root) ∧
    (∀ a, (c t).1 = Ok a → Q a) ∧ (serves (c t).2 → outcome c' (c t).1).

Lemma replay_ret {A} (a : A) (Q : A → Prop) : Q a → replay (mret a) (mret a) Q.
Proof. intros HQ t. simpl. split_and!; [done|auto|by intros ? [= <-]|done]. Qed.
Lemma replay_err {A} e (Q : A → Prop) : replay (st_err e) (st_err e) Q.
Proof. intros t. simpl. split_and!; [done|auto|done|done]. Qed.
Lemma replay_bind {A B} (c : ST (gset Z) _ A) c' (f : A → ST (gset Z) _ B) f'
    (Q : A → Prop) (Q' : B → Prop) :
  replay c c' Q → (∀ a, Q a → replay (f a) (f' a) Q') → replay (c ≫= f) (c' ≫= f') Q'.
Proof.
  intros Hc Hf t. rewrite ST_bind_unfold. destruct (Hc t) as (Hsub & Hin & HQ & Hout).
  destruct (c t) as [[a|e] t1]; simpl in *.
  - destruct (Hf a (HQ a eq_refl) t1) as (Hsub' & Hin' & HQ' & Hout').
    split_and!; [set_solver| |done|].
    + intros p [?|?]%Hin'; auto.
    + intros Hs. eapply outcome_bind; [|by apply Hout'].
      apply Hout. intros page s Hp. apply Hs. set_solver.
  - split_and!; [done..|]. intros Hs. by apply outcome_bind_err, Hout.
Qed.
Lemma replay_fetch page :
  0 ≤ page < page_count root →
  replay (fetch (trace_page pages) page) (fetch provider page) (λ _, True).
Proof.
  intros Hp t. unfold fetch at 1 2 3 4 5, trace_page. simpl. split_and!; [set_solver| |done|].
  - intros p. rewrite elem_of_union, elem_of_singleton. naive_solver.
  - intros Hs s. unfold fetch. specialize (Hs page s ltac:(set_solver)).
    destruct (provider page s) as [o s']; simpl in *. by rewrite Hs.
Qed.
#[export] Instance replay_sim :
  ReadSim (trace_page pages) provider (page_count root) (@replay).
Proof.
  split; [by intros; apply replay_ret|by intros; apply replay_err|
    by intros; eapply replay_bind|by intros; apply replay_fetch].
Qed.
End Replay.

(** ** Recording the startup reads *)

Section Traces.
Context {pairs : list NavKvPair} {psize : Z} {pages : list bytes} {root : NavKvRoot}.
Context {h : nat} {ls : list leaf_ref} {vb : bytes}.
Hypothesis Hbuilt : built pairs psize pages root h ls vb.
Hypothesis Hutf8 : Forall (λ p, utf8_valid (pair_key p) = true) pairs.

(** A provider that has the pages of [t] answers a lookup of [key]; a scan of [prefix]. *)
Definition value_covered (t : gset Z) (key : bytes) : Prop :=
  ∀ (S : Type) (provider : Z → S → option bytes * S), serves provider pages t →
    outcome (extract_value provider (rounds pages) root key)
      (ok_or (pairs_map pairs !! key) Absent).
Definition prefix_covered (t : gset Z) (prefix : bytes) : Prop :=
  ∀ (S : Type) (provider : Z → S → option bytes * S), serves provider pages t →
    outcome (prefix_keys provider (rounds pages) (rounds pages) root prefix)
      (Ok (keys_matching prefix pairs)).

Lemma serves_mono {S} (provider : Z → S → option bytes * S) t t' :
  t ⊆ t' → serves provider pages t' → serves provider pages t.
Proof. intros Ht Hs page s Hp. apply Hs. set_solver. Qed.
Lemma value_covered_mono t t' key : t ⊆ t' → value_covered t key → value_covered t' key.
Proof. intros Ht Hv S provider Hs. apply Hv. by eapply serves_mono. Qed.
Lemma prefix_covered_mono t t' key : t ⊆ t' → prefix_covered t key → prefix_covered t' key.
Proof. intros Ht Hv S provider Hs. apply Hv. by eapply serves_mono. Qed.

(** A recording stays inside the store, ends, and establishes [Q] of what it
    recorded. *)
Definition records {A} (c : ST (gset Z) nav_kv_error A) (Q : gset Z → A → Prop) : Prop :=
  ∀ t, t ⊆ (c t).2 ∧ (∀ p, p ∈ (c t).2 → p ∈ t ∨ 0 ≤ p < page_count root) ∧
    (c t).1 ≠ Err LoopBound ∧ (∀ a, (c t).1 = Ok a → Q (c t).2 a).

Lemma records_ret {A} (a : A) (Q : gset Z → A → Prop) : (∀ t, Q t a) → records (mret a) Q.
Proof. intros HQ t. simpl. split_and!; [done|auto|done|by intros ? [= <-]]. Qed.
Lemma records_err {A} e (Q : gset Z → A → Prop) : e ≠ LoopBound → records (st_err e) Q.
Proof. intros He t. simpl. split_and!; [done|auto|congruence|done]. Qed.
Lemma records_bind {A B} (c : ST (gset Z) _ A) (f : A → ST (gset Z) _ B) Q (Q' : gset Z → B → Prop) :
  records c Q → (∀ a, ∃ R, records (f a) R ∧ ∀ t t' b, t ⊆ t' → Q t a → R t' b → Q' t' b) →
  records (c ≫= f) Q'.
Proof.
  intros Hc Hf t. rewrite ST_bind_unfold. destruct (Hc t) as (Hsub & Hin & Hne & HQ).
  destruct (c t) as [[a|e] t1]; simpl in *; [|split_and!; congruence || done].
  destruct (Hf a) as (R & HR & HQ'). destruct (HR t1) as (Hsub' & Hin' & Hne' & HR').
  split_and!; [set_solver| |done|].
  - intros p [?|?]%Hin'; auto.
  - intros b Hb. eapply HQ'; [exact Hsub'|by apply HQ|by apply HR'].
Qed.

Lemma trace_serves page (t : gset Z) : (trace_page pages page t).1 = get_at pages page.
Proof. done. Qed.

Lemma rounds_enough : (length pages ≤ rounds pages)%nat.
Proof. unfold rounds. lia. Qed.

Let Hroot := built_root _ _ _ _ _ _ _ Hbuilt.

Lemma records_value key :
  records (trace_extract_value root pages key)
    (λ t found, value_covered t key ∧ found = bool_decide (is_Some (pairs_map pairs !! key))).
Proof.
  intros t. unfold trace_extract_value.
  pose proof (built_extract (trace_page pages) trace_serves Hbuilt (rounds pages) rounds_enough key t)
    as Hex.
  assert (∀ S (provider : Z → S → option bytes * S), replay provider pages root
    (extract_value (trace_page pages) (rounds pages) root key)
    (extract_value provider (rounds pages) root key) (λ _, True)) as Hrep.
  { intros. by apply (sim_extract_value (trace_page pages) provider root (@replay _ provider pages root)). }
  pose proof (Hrep _ (trace_page pages) t) as (Hsub & Hin & _ & _).
  assert (value_covered (extract_value (trace_page pages) (rounds pages) root key t).2 key) as Hcov.
  { intros S provider Hs. destruct (Hrep S provider t) as (_ & _ & _ & Hout).
    rewrite <- Hex. by apply Hout. }
  destruct (extract_value _ _ _ _ t) as [r t']; simpl in *. subst r.
  destruct (pairs_map pairs !! key) as [v|]; simpl; split_and!; try done; by intros a [= <-].
Qed.

Lemma records_prefix prefix :
  records (trace_prefix_keys root pages prefix)
    (λ t keys, prefix_covered t prefix ∧ keys = keys_matching prefix pairs).
Proof.
  intros t. unfold trace_prefix_keys.
  pose proof (built_prefix_keys (trace_page pages) trace_serves Hbuilt Hutf8 (rounds pages)
    rounds_enough (rounds pages) rounds_enough prefix t) as Hex.
  assert (∀ S (provider : Z → S → option bytes * S), replay provider pages root
    (prefix_keys (trace_page pages) (rounds pages) (rounds pages) root prefix)
    (prefix_keys provider (rounds pages) (rounds pages) root prefix) (λ _, True)) as Hrep.
  { intros. by apply (sim_prefix_keys (trace_page pages) provider root (@replay _ provider pages root)). }
  pose proof (Hrep _ (trace_page pages) t) as (Hsub & Hin & _ & _).
  assert (prefix_covered
    (prefix_keys (trace_page pages) (rounds pages) (rounds pages) root prefix t).2 prefix) as Hcov.
  { intros S provider Hs. destruct (Hrep S provider t) as (_ & _ & _ & Hout).
    rewrite <- Hex. by apply Hout. }
  destruct (prefix_keys _ _ _ _ _ t) as [r t']; simpl in *. subst r.
  split_and!; try done. by intros a [= <-].
Qed.

Lemma built_value_range {S} (provider : Z → S → option bytes * S) key :
  (∀ page s, (provider page s).1 = get_at pages page) →
  match pairs_map pairs !! key with
  | Some _ => ∃ range, outcome (get_value_range provider (rounds pages) root key) (Ok range)
  | None => outcome (get_value_range provider (rounds pages) root key) (Err Absent)
  end.
Proof.
  intros Hs. pose proof (built_ok _ _ _ _ _ _ _ Hbuilt) as Hok.
  pose proof (built_height _ _ _ _ _ _ _ Hbuilt) as Hh. pose proof rounds_enough.
  pose proof (built_pairs _ _ _ _ _ _ _ Hbuilt) as Hp.
  destruct (pairs_map pairs !! key) as [v|] eqn:Hk.
  - apply elem_of_list_to_map_2, list_elem_of_fmap in Hk as (p & [= -> _] & Hin).
    apply list_elem_of_lookup in Hin as [i Hi].
    destruct (Forall2_lookup_l _ _ _ _ _ Hp Hi) as (e & He & Hek & _). rewrite <- Hek.
    eexists. eapply outcome_bind; [|apply outcome_ret].
    eapply find_leaf_entry_found; [done..|lia|by eapply list_elem_of_lookup_2].
  - eapply outcome_bind_err, find_leaf_entry_absent; [done..|lia|].
    apply not_elem_of_list_to_map in Hk. rewrite <- list_fmap_compose in Hk.
    by rewrite (entry_for_keys _ _ _ Hp).
Qed.

Definition range_covered (t : gset Z) (key : bytes) : Prop :=
  ∃ range, ∀ (S : Type) (provider : Z → S → option bytes * S), serves provider pages t →
    outcome (get_value_range provider (rounds pages) root key) (Ok range).
Lemma range_covered_mono t t' key : t ⊆ t' → range_covered t key → range_covered t' key.
Proof.
  intros Ht [r Hv]. exists r. intros S provider Hs. apply Hv. by eapply serves_mono.
Qed.

Lemma records_range key :
  records (trace_lookup root pages key) (λ t found, found = true → range_covered t key).
Proof.
  intros t. unfold trace_lookup.
  pose proof (built_value_range (trace_page pages) key trace_serves) as Hex.
  assert (∀ S (provider : Z → S → option bytes * S), replay provider pages root
    (get_value_range (trace_page pages) (rounds pages) root key)
    (get_value_range provider (rounds pages) root key) (λ _, True)) as Hrep.
  { intros. by apply (sim_value_range (trace_page pages) provider root (@replay _ provider pages root)). }
  pose proof (Hrep _ (trace_page pages) t) as (Hsub & Hin & _ & _).
  destruct (get_value_range (trace_page pages) (rounds pages) root key t) as [r t'] eqn:Hr.
  destruct (pairs_map pairs !! key) as [v|].
  - destruct Hex as [range Hex]. specialize (Hex t). rewrite Hr in Hex. simpl in *. subst r.
    split_and!; try done. intros a [= <-] _. exists range. intros S provider Hs.
    destruct (Hrep S provider t) as (_ & _ & _ & Hout). rewrite Hr in Hout. by apply Hout.
  - specialize (Hex t). rewrite Hr in Hex. simpl in *. subst r. split_and!; try done.
    by intros a [= <-].
Qed.

Lemma records_values keys :
  records (trace_values root pages keys) (λ t _, ∀ key, key ∈ keys → value_covered t key).
Proof.
  induction keys as [|key keys IH]; [apply records_ret; by intros ? ? ?%not_elem_of_nil|].
  eapply records_bind; [apply records_value|]. intros found. eexists. split; [exact IH|].
  simpl. intros t t' _ Ht [Hv _] Hvs k [->|Hk]%elem_of_cons; [by eapply value_covered_mono|auto].
Qed.

Definition request_covered (t : gset Z) (request : NavKvPrefetch) : Prop :=
  match request with
  | PrefetchValue key => value_covered t key ∧ is_Some (pairs_map pairs !! key)
  | PrefetchLookup key => range_covered t key
  end.

Lemma request_covered_mono t t' r : t ⊆ t' → request_covered t r → request_covered t' r.
Proof.
  intros Ht. destruct r; [intros [? ?]; split|]; [by eapply value_covered_mono|done|].
  by apply range_covered_mono.
Qed.

Lemma records_extra requests :
  records (trace_extra root pages requests) (λ t _, ∀ r, r ∈ requests → request_covered t r).
Proof.
  induction requests as [|r requests IH]; [apply records_ret; by intros ? ? ?%not_elem_of_nil|].
  cbn [trace_extra].
  assert (records match r with
                  | PrefetchValue key => trace_extract_value root pages key
                  | PrefetchLookup key => trace_lookup root pages key
                  end (λ t found, found = true → request_covered t r)) as Hr.
  { destruct r as [key|key]; [|apply records_range]. intros t.
    destruct (records_value key t) as (H1 & H2 & H3 & H4). split_and!; [done..|].
    intros a Ha ->. apply H4 in Ha as [Hv Hs]. split; [done|]. by apply eq_sym, bool_decide_eq_true in Hs. }
  eapply records_bind; [exact Hr|]. intros [|].
  - eexists. split; [exact IH|]. simpl. intros t t' _ Ht Hc Hrs r' [->|?]%elem_of_cons; [|auto].
    eapply request_covered_mono; eauto.
  - exists (λ _ _, False). split; [by apply records_err|done].
Qed.

(** The reads of a client that starts up. *)
Definition startup_keys : list bytes :=
  [bs "contract/nav-db"; bs "chart/catalog"; bs "resource/families";
   bs "weather/metar-important-stations"; bs "weather/station-catalog"; bs "vector/manifest"].
Definition startup_prefixes : list bytes :=
  [bs "package/by-id/"; bs "chart-reference/"; bs "plate/by-id/chart-reference%3A"].

Definition startup_covered (t : gset Z) (extra : list NavKvPrefetch) : Prop :=
  (∀ key, key ∈ startup_keys → value_covered t key) ∧
  (∀ prefix, prefix ∈ startup_prefixes → prefix_covered t prefix ∧
     ∀ key, key ∈ keys_matching prefix pairs → value_covered t key) ∧
  (∀ r, r ∈ extra → request_covered t r).

Definition mono {A} (Q : gset Z → A → Prop) : Prop := ∀ t t' a, t ⊆ t' → Q t a → Q t' a.

Lemma records_seq {A B} (c : ST (gset Z) _ A) (f : A → ST (gset Z) _ B) Q
    (R : A → gset Z → B → Prop) :
  mono Q → records c Q → (∀ a, records (f a) (R a)) →
  records (c ≫= f) (λ t b, ∃ a, Q t a ∧ R a t b).
Proof.
  intros HQ Hc Hf. eapply records_bind; [exact Hc|]. intros a. exists (R a). split; [done|].
  intros t t' b Ht Ha Hb. exists a. split; [by eapply HQ|done].
Qed.
Lemma records_if {A} (b : bool) (c d : ST (gset Z) _ A) Q R :
  records c Q → records d R → records (if b then c else d) (λ t a, if b then Q t a else R t a).
Proof. by destruct b. Qed.
Lemma records_weaken {A} (c : ST (gset Z) _ A) Q R :
  records c Q → (∀ t a, Q t a → R t a) → records c R.
Proof. intros Hc HQ t. destruct (Hc t) as (?&?&?&?). naive_solver. Qed.

Lemma mono_value key (F : bool → Prop) : mono (λ t (b : bool), value_covered t key ∧ F b).
Proof. intros t t' a Ht [? ?]. split; [by eapply value_covered_mono|done]. Qed.
Lemma mono_prefix prefix (F : list bytes → Prop) : mono (λ t keys, prefix_covered t prefix ∧ F keys).
Proof. intros t t' a Ht [? ?]. split; [by eapply prefix_covered_mono|done]. Qed.
Lemma mono_values (keys : list bytes) : mono (λ t (_ : unit), ∀ key, key ∈ keys → value_covered t key).
Proof. intros t t' a Ht H key Hk. eapply value_covered_mono; [exact Ht|auto]. Qed.
Lemma mono_extra (requests : list NavKvPrefetch) : mono (λ t (_ : unit), ∀ r, r ∈ requests → request_covered t r).
Proof. intros t t' a Ht H r Hr. eapply request_covered_mono; [exact Ht|auto]. Qed.

Lemma records_startup extra :
  records (startup_prefetch_trace root pages extra)
    (λ t found, found = bool_decide (is_Some (pairs_map pairs !! bs "chart/catalog")) ∧
       (found = true → startup_covered t extra)).
Proof.
  eapply records_weaken.
  { unfold startup_prefetch_trace.
    do 2 (eapply records_seq; [apply mono_value|apply records_value|intros ?]).
    eapply records_if; [by apply (records_ret _ (λ _ b, b = false))|].
    do 3 (eapply records_seq; [apply mono_value|apply records_value|intros ?]).
    do 3 (eapply records_seq; [apply mono_prefix|apply records_prefix|intros ?];
          eapply records_seq; [apply mono_values|apply records_values|intros ?]).
    eapply records_seq; [apply mono_value|apply records_value|intros ?].
    eapply records_seq; [apply mono_extra|apply records_extra|intros ?].
    by apply (records_ret _ (λ _ b, b = true)). }
  intros t b (f1 & [H1 _] & catalog & [H2 Hcat] & H). destruct catalog; simpl in H.
  2: { subst b. done. }
  destruct H as (? & [H3 _] & ? & [H4 _] & ? & [H5 _] & ? & [H6 ->] & _ & H7 & ? & [H8 ->] & _ & H9
    & ? & [H10 ->] & _ & H11 & ? & [H12 _] & _ & H13 & ->).
  split; [done|]. intros _. split_and!; [| |done].
  - intros key Hkey. repeat (apply elem_of_cons in Hkey as [->|Hkey]; [done|]).
    by apply not_elem_of_nil in Hkey.
  - intros prefix Hp. repeat (apply elem_of_cons in Hp as [->|Hp]; [by split|]).
    by apply not_elem_of_nil in Hp.
Qed.

(** The prefetch list: sorted page numbers of the store. *)
Lemma startup_prefetch_pages_spec extra l :
  startup_prefetch_pages root pages extra = Ok l →
  StronglySorted Z.lt l ∧ Forall (λ p, 0 ≤ p < page_count root) l ∧
  (is_Some (pairs_map pairs !! bs "chart/catalog") → startup_covered (list_to_set l) extra).
Proof.
  unfold startup_prefetch_pages. destruct (records_startup extra ∅) as (_ & Hin & _ & HQ).
  destruct (startup_prefetch_trace root pages extra ∅) as [[[|]|e] t]; simpl in *; intros [= <-].
  - destruct (HQ true eq_refl) as [_ Hc]. split_and!.
    + apply StronglySorted_set_iter_lt.
    + apply Forall_forall. intros p Hp%elem_of_set_iter. apply Hin in Hp. set_solver.
    + intros _. replace (list_to_set (set_iter t)) with t; [by apply Hc|].
      apply set_eq. intros p. by rewrite elem_of_list_to_set, elem_of_set_iter.
  - destruct (HQ false eq_refl) as [Hf _]. split_and!; [constructor..|].
    intros Hs. by rewrite bool_decide_eq_true_2 in Hf.
Qed.

Lemma startup_prefetch_pages_ends extra : startup_prefetch_pages root pages extra ≠ Err LoopBound.
Proof.
  unfold startup_prefetch_pages. destruct (records_startup extra ∅) as (_ & _ & Hne & _).
  destruct (startup_prefetch_trace root pages extra ∅) as [[[|]|e] t]; [done..|].
  intros [= ->]. by apply Hne.
Qed.
End Traces.
