(* ===== verification/NavKvCorrect.v ===== *)
(** * Correctness of the nav-kv store, from the builder to the reader

    A successful build yields pages and a root record from which the reading methods
    recover exactly the pairs that went in, through any provider of those pages. *)

From Stdlib Require Import Strings.Byte.
From stdpp Require Import base list list_numbers strings gmap sorting sets.
From S2P Require Import Prelude Utf8 Search NavKvFormat NavKvDelta NavKvRead.
From S2P Require Import NavKvBuild NavKvTree NavKvLookup NavKvBuildCorrect NavKvPrefetch.

Local Open Scope Z_scope.

(** ** The prefetch table does not affect reads *)

Section IgnoresPrefetch.
Context {S : Type} (provider : Z → S → option bytes * S) (root : NavKvRoot) (l : list Z).

Lemma bind_ext {E A B} (c c' : ST S E A) (f g : A → ST S E B) s :
  c s = c' s → (∀ a s, f a s = g a s) → (c ≫= f) s = (c' ≫= g) s.
Proof.
  intros Hc Hf. rewrite !ST_bind_unfold, Hc. destruct (c' s) as [[a|e] s']; [apply Hf|done].
Qed.

Lemma find_leaf_loop_prefetch fuel key page s :
  find_leaf_loop provider fuel (with_prefetch root l) key page s =
  find_leaf_loop provider fuel root key page s.
Proof.
  revert page s; induction fuel as [|fuel IH]; intros page s; [done|].
  cbn [find_leaf_loop]. apply bind_ext; [done|]. intros [leaf|node] s'; [done|].
  apply bind_ext; [done|]. intros. apply IH.
Qed.
Lemma find_leaf_entry_prefetch fuel key s :
  find_leaf_entry provider fuel (with_prefetch root l) key s =
  find_leaf_entry provider fuel root key s.
Proof. apply bind_ext; [apply find_leaf_loop_prefetch|done]. Qed.
Lemma read_value_pages_prefetch start end_ vps s :
  read_value_pages provider (with_prefetch root l) start end_ vps s =
  read_value_pages provider root start end_ vps s.
Proof.
  revert s; induction vps as [|p vps IH]; intros s; [done|]. cbn [read_value_pages].
  apply bind_ext; [done|]. intros. apply bind_ext; [apply IH|done].
Qed.
Lemma read_external_value_prefetch start n s :
  read_external_value provider (with_prefetch root l) start n s =
  read_external_value provider root start n s.
Proof.
  unfold read_external_value. case_match; [done|]. apply bind_ext; [done|].
  intros. simpl. case_match; [done|]. apply read_value_pages_prefetch.
Qed.
Lemma extract_value_prefetch fuel key s :
  extract_value provider fuel (with_prefetch root l) key s = extract_value provider fuel root key s.
Proof.
  apply bind_ext; [apply find_leaf_entry_prefetch|]. intros e s'. destruct (le_val e); [done|].
  case_match; [done|]. apply read_external_value_prefetch.
Qed.
Lemma get_value_range_prefetch fuel key s :
  get_value_range provider fuel (with_prefetch root l) key s =
  get_value_range provider fuel root key s.
Proof. apply bind_ext; [apply find_leaf_entry_prefetch|done]. Qed.
Lemma prefix_keys_prefetch fuel links prefix s :
  prefix_keys provider fuel links (with_prefetch root l) prefix s =
  prefix_keys provider fuel links root prefix s.
Proof.
  apply bind_ext; [apply find_leaf_loop_prefetch|].
  revert links. induction links as [|links IH]; intros page s'; [done|].
  cbn [prefix_keys_loop]. apply bind_ext; [done|]. intros leaf s2.
  destruct (prefix_scan _ _) as [keys [|]]; [done|]. destruct (next_leaf leaf); [|done].
  apply bind_ext; [apply IH|done].
Qed.
End IgnoresPrefetch.

Lemma startup_covered_prefetch pairs pages root l t extra :
  startup_covered (pairs := pairs) (pages := pages) (root := root) t extra →
  startup_covered (pairs := pairs) (pages := pages) (root := with_prefetch root l) t extra.
Proof.
  assert (∀ key, value_covered (pairs := pairs) (pages := pages) (root := root) t key →
    value_covered (pairs := pairs) (pages := pages) (root := with_prefetch root l) t key) as Hval.
  { intros key H S provider Hs s. rewrite extract_value_prefetch. by apply H. }
  intros (H1 & H2 & H3). split_and!; [auto| |].
  - intros prefix Hp. destruct (H2 prefix Hp) as [Hk Hv]. split; [|auto].
    intros S provider Hs s. rewrite prefix_keys_prefetch. by apply Hk.
  - intros r Hr. specialize (H3 r Hr). destruct r as [key|key]; simpl in *; [naive_solver|].
    destruct H3 as [range H3]. exists range. intros S provider Hs s.
    rewrite get_value_range_prefetch. by apply H3.
Qed.

Lemma built_prefetch pairs psize pages root h ls vb l :
  built pairs psize pages root h ls vb → len l ≤ u32_max → StronglySorted Z.lt l →
  Forall (λ p, 0 ≤ p < page_count root) l →
  built pairs psize pages (with_prefetch root l) h ls vb.
Proof.
  intros [Hok ? ? ? Hroot ? ? ?] Hl Hs Hr. constructor; try done; [by apply store_ok_prefetch|].
  unfold root_ok in *. simpl. naive_solver.
Qed.

(** ** A build that succeeds *)

Abbreviation keys_utf8 pairs := (Forall (λ p, utf8_valid (pair_key p) = true) pairs).

Lemma build_spec pairs psize extra out :
  build_nav_kv_strict_with_extra_prefetch_keys pairs psize extra = Ok out →
  in_u32 psize → keys_utf8 pairs →
  ∃ root h ls vb, parse_root (bo_root_bytes out) = Ok root ∧
    built pairs psize (bo_pages out) root h ls vb ∧
    prefetch_pages root = bo_prefetch_pages out ∧
    (is_Some (pairs_map pairs !! bs "chart/catalog") →
       startup_covered (pairs := pairs) (pages := bo_pages out) (root := root)
         (list_to_set (prefetch_pages root)) extra).
Proof.
  intros H Hps Hutf8. unfold build_nav_kv_strict_with_extra_prefetch_keys in H.
  apply bind_Ok in H as ([] & Hval & H). apply validate_pairs_Ok in Hval as (Hps0 & Hne & Hpok).
  apply bind_Ok in H as ([es vb] & Hsplit & H).
  apply bind_Ok in H as (vlen & Hv & H). apply ok_or_Ok, try_into_Some in Hv as [-> Hv].
  apply bind_Ok in H as ([level pages] & Hleaf & H).
  apply bind_Ok in H as ([level' pages'] & Hlevels & H).
  apply bind_Ok in H as (rp & Hrp & H). apply ok_or_Ok in Hrp.
  inv_ok. unfold in_u32 in Hps. subst.
  destruct (build_pages_spec pairs psize es vb level pages level' pages' _ Hpok Hne ltac:(lia)
    Hsplit Hleaf Hlevels eq_refl) as (s & h & ls & -> & Hb); try done; try lia.
  simpl in Hrp. injection Hrp as <-.
  pose proof (parse_root_build _ _ (built_root _ _ _ _ _ _ _ Hb) Ha3) as Hparse.
  rewrite Hparse in Ha4. injection Ha4 as <-.
  destruct (startup_prefetch_pages_spec Hb Hutf8 _ _ Ha5) as (Hsort & Hrange & Hcov).
  set (root := {| entry_count := len pairs |}) in *.
  change (build_root_bytes (entry_count (with_prefetch root a5)) (page_size (with_prefetch root a5))
    (root_page (with_prefetch root a5)) (page_count (with_prefetch root a5))
    (value_page_start (with_prefetch root a5)) (value_bytes_len (with_prefetch root a5))
    (prefetch_pages (with_prefetch root a5)) = Ok a6) in Ha6.
  pose proof (build_root_bytes_eq _ _ Ha6) as [_ Hpl].
  pose proof (built_prefetch _ _ _ _ _ _ _ a5 Hb Hpl Hsort Hrange) as Hb'.
  exists (with_prefetch root a5), h, ls, vb. split_and!; [|done|done|].
  - apply parse_root_build; [by apply (built_root _ _ _ _ _ _ _ Hb')|done].
  - intros Hc. by apply startup_covered_prefetch, Hcov.
Qed.

(** A provider, whatever state it keeps, that answers every request with that page. *)
Definition provides {S} (provider : Z → S → option bytes * S) (pages : list bytes) : Prop :=
  ∀ page s, (provider page s).1 = get_at pages page.
(** A provider that answers only for the pages in [have]. *)
Definition provides_at {S} (provider : Z → S → option bytes * S) (pages : list bytes)
    (have : list Z) : Prop :=
  ∀ page s, page ∈ have → (provider page s).1 = get_at pages page.

(** ** Sample store: short and long values, several leaves and two levels above *)

Definition sample_value (n : nat) : bytes := replicate n x41.
Definition sample_pairs : list NavKvPair :=
  [kv "airport/KBFI" "boeing"; kv "airport/KPAE" "paine"; kv "airport/KRNT" "renton";
   {| pair_key := bs "airport/KSEA"; pair_value := sample_value 4100 |};
   kv "chart/catalog" "[]"; kv "contract/nav-db" "1";
   {| pair_key := bs "navaid/SEA"; pair_value := sample_value 4200 |};
   kv "package/by-id/a" "pa"; kv "package/by-id/b" "pb"; kv "waypoint/BLAKO" "w"].
Definition sample_extra : list NavKvPrefetch :=
  [PrefetchValue (bs "navaid/SEA"); PrefetchLookup (bs "waypoint/BLAKO")].
Definition empty_output : NavKvBuildOutput :=
  {| bo_root_bytes := []; bo_pages := []; bo_page_size := 0; bo_logical_bytes_len := 0;
     bo_value_bytes_len := 0; bo_prefetch_pages := [] |}.
Definition sample_out : NavKvBuildOutput :=
  match build_nav_kv_strict_with_extra_prefetch_keys sample_pairs 96 sample_extra with
  | Ok out => out
  | Err _ => empty_output
  end.
Definition sample_provider (page : Z) (s : unit) : option bytes * unit :=
  (get_at (bo_pages sample_out) page, s).

Lemma sample_build :
  build_nav_kv_strict_with_extra_prefetch_keys sample_pairs 96 sample_extra = Ok sample_out.
Proof. vm_compute. reflexivity. Qed.
Lemma sample_utf8 : keys_utf8 sample_pairs.
Proof. repeat constructor; vm_compute; reflexivity. Qed.
Lemma sample_size : in_u32 96.
Proof. unfold in_u32, u32_max. lia. Qed.

Lemma sample_provides : provides sample_provider (bo_pages sample_out).
Proof. intros page s. unfold sample_provider. cbn [fst]. reflexivity. Qed.
Lemma sample_fuel : (length (bo_pages sample_out) ≤ 200)%nat.
Proof. apply Nat.leb_le. vm_compute. reflexivity. Qed.
#[local] Opaque sample_out.

(** ** Properties *)

(** C1: looking up any key in a built store, through any provider of its pages, returns
    the value that key had in the pairs the store was built from, and nothing for a key
    that was not among them. The root record the builder wrote parses. *)
Theorem build_lookup (pairs : list NavKvPair) (psize : Z) (extra : list NavKvPrefetch)
  (out : NavKvBuildOutput)
  (Hb : build_nav_kv_strict_with_extra_prefetch_keys pairs psize extra = Ok out)
  (Hps : in_u32 psize) (Hutf8 : keys_utf8 pairs) :
  ∃ root, parse_root (bo_root_bytes out) = Ok root ∧
    ∀ (S : Type) (provider : Z → S → option bytes * S), provides provider (bo_pages out) →
    ∀ fuel key s, (length (bo_pages out) ≤ fuel)%nat →
      (extract_value provider fuel root key s).1 = ok_or (pairs_map pairs !! key) Absent.
Proof.
  destruct (build_spec _ _ _ _ Hb Hps Hutf8) as (root & h & ls & vb & Hr & Hbuilt & _).
  exists root. split; [done|]. intros S provider Hs fuel key s Hf. by eapply built_extract.
Qed.

Lemma build_lookup_witness :
  ∃ root, parse_root (bo_root_bytes sample_out) = Ok root ∧
    (extract_value sample_provider 200 root (bs "navaid/SEA") tt).1 = Ok (sample_value 4200) ∧
    (extract_value sample_provider 200 root (bs "navaid/SEB") tt).1 = Err Absent.
Proof.
  destruct (build_lookup sample_pairs 96 sample_extra sample_out sample_build sample_size sample_utf8)
    as (root & Hr & H).
  exists root. split; [exact Hr|].
  rewrite !(H unit sample_provider sample_provides _ _ _ sample_fuel).
  split; vm_compute; reflexivity.
Defined.

(** Scanning a prefix returns exactly the keys with that prefix, in order. *)
Theorem build_prefix_scan (pairs : list NavKvPair) (psize : Z) (extra : list NavKvPrefetch)
  (out : NavKvBuildOutput)
  (Hb : build_nav_kv_strict_with_extra_prefetch_keys pairs psize extra = Ok out)
  (Hps : in_u32 psize) (Hutf8 : keys_utf8 pairs) :
  ∃ root, parse_root (bo_root_bytes out) = Ok root ∧
    ∀ (S : Type) (provider : Z → S → option bytes * S), provides provider (bo_pages out) →
    ∀ fuel links prefix s, (length (bo_pages out) ≤ fuel)%nat → (length (bo_pages out) ≤ links)%nat →
      (prefix_keys provider fuel links root prefix s).1 =
        Ok (filter (λ k, starts_with k prefix = true) (pair_key <$> pairs)).
Proof.
  destruct (build_spec _ _ _ _ Hb Hps Hutf8) as (root & h & ls & vb & Hr & Hbuilt & _).
  exists root. split; [done|]. intros. by eapply built_prefix_keys.
Qed.

Lemma build_prefix_scan_witness :
  ∃ root, parse_root (bo_root_bytes sample_out) = Ok root ∧
    (prefix_keys sample_provider 200 200 root (bs "package/") tt).1 =
      Ok [bs "package/by-id/a"; bs "package/by-id/b"].
Proof.
  destruct (build_prefix_scan sample_pairs 96 sample_extra sample_out sample_build sample_size sample_utf8)
    as (root & Hr & H).
  exists root. split; [exact Hr|].
  rewrite (H unit sample_provider sample_provides _ _ _ _ sample_fuel sample_fuel).
  vm_compute; reflexivity.
Defined.

(** Reading a built store in full gives back the pairs it was built from, so the
    digest computed from the store is the digest of the pairs, for every digest
    function. *)
Theorem build_pairs_back (sha256 : bytes → bytes) (pairs : list NavKvPair) (psize : Z)
  (extra : list NavKvPrefetch) (out : NavKvBuildOutput)
  (Hb : build_nav_kv_strict_with_extra_prefetch_keys pairs psize extra = Ok out)
  (Hps : in_u32 psize) (Hutf8 : keys_utf8 pairs) :
  ∃ root, parse_root (bo_root_bytes out) = Ok root ∧
    ∀ (S : Type) (provider : Z → S → option bytes * S), provides provider (bo_pages out) →
    ∀ fuel links s, (length (bo_pages out) ≤ fuel)%nat → (length (bo_pages out) ≤ links)%nat →
      (root_pairs provider fuel links root s).1 = Ok pairs ∧
      (canonical_sha256 provider sha256 fuel links root s).1 =
        Ok (nav_kv_canonical_sha256_from_pairs sha256 pairs).
Proof.
  destruct (build_spec _ _ _ _ Hb Hps Hutf8) as (root & h & ls & vb & Hr & Hbuilt & _).
  exists root. split; [done|]. intros S provider Hs fuel links s Hf Hl.
  pose proof (built_root_pairs provider Hs Hbuilt Hutf8 fuel Hf links Hl) as Hp.
  split; [apply Hp|]. revert s. change (outcome (canonical_sha256 provider sha256 fuel links root)
    (Ok (nav_kv_canonical_sha256_from_pairs sha256 pairs))).
  by eapply outcome_bind.
Qed.

Lemma build_pairs_back_witness :
  ∃ root, parse_root (bo_root_bytes sample_out) = Ok root ∧
    (root_pairs sample_provider 200 200 root tt).1 = Ok sample_pairs.
Proof.
  destruct (build_pairs_back id sample_pairs 96 sample_extra sample_out sample_build sample_size
    sample_utf8) as (root & Hr & H).
  exists root. split; [exact Hr|]. 
  apply (H unit sample_provider sample_provides _ _ _ sample_fuel sample_fuel).
Defined.

(** The statistics of a prefix count the matching keys, their bytes and the bytes
    of their values, and every matching key is counted as inline or as external. *)
Theorem build_prefix_stats (pairs : list NavKvPair) (psize : Z) (extra : list NavKvPrefetch)
  (out : NavKvBuildOutput) (prefix : bytes)
  (Hb : build_nav_kv_strict_with_extra_prefetch_keys pairs psize extra = Ok out)
  (Hps : in_u32 psize) (Hutf8 : keys_utf8 pairs) :
  ∃ root, parse_root (bo_root_bytes out) = Ok root ∧
    ∀ (S : Type) (provider : Z → S → option bytes * S), provides provider (bo_pages out) →
    ∀ fuel links s, (length (bo_pages out) ≤ fuel)%nat → (length (bo_pages out) ≤ links)%nat →
    ∃ stats, (prefix_stats provider fuel links root prefix s).1 = Ok stats ∧
      let found := filter (λ p, starts_with (pair_key p) prefix = true) pairs in
      st_key_count stats = len found ∧
      st_key_bytes stats = len (concat (pair_key <$> found)) ∧
      st_value_bytes stats = len (concat (pair_value <$> found)) ∧
      st_inline_value_count stats + st_external_value_count stats = len found.
Proof.
  destruct (build_spec _ _ _ _ Hb Hps Hutf8) as (root & h & ls & vb & Hr & Hbuilt & _).
  exists root. split; [done|]. intros S provider Hs fuel links s Hf Hl.
  destruct (built_prefix_stats provider Hs Hbuilt fuel Hf links Hl prefix) as (stats & Ho & Hst).
  exists stats. split; [apply Ho|exact Hst].
Qed.

Lemma build_prefix_stats_witness :
  ∃ root stats, parse_root (bo_root_bytes sample_out) = Ok root ∧
    (prefix_stats sample_provider 200 200 root (bs "airport/") tt).1 = Ok stats ∧
    st_key_count stats = 4 ∧ st_value_bytes stats = 4117.
Proof.
  destruct (build_prefix_stats sample_pairs 96 sample_extra sample_out (bs "airport/") sample_build
    sample_size sample_utf8) as (root & Hr & H).
  destruct (H unit sample_provider sample_provides _ _ tt sample_fuel sample_fuel)
    as (stats & Ho & Hc & _ & Hv & _).
  exists root, stats. split; [exact Hr|]. split; [exact Ho|].
  rewrite Hc, Hv. split; vm_compute; reflexivity.
Defined.

(** The pages a built store names for prefetching are enough to start up: with only
    those pages at hand, each startup key, each startup prefix with the values under it,
    and each extra requested key reads the same as with the whole store. *)
Theorem prefetch_covers_startup (pairs : list NavKvPair) (psize : Z) (extra : list NavKvPrefetch)
  (out : NavKvBuildOutput)
  (Hb : build_nav_kv_strict_with_extra_prefetch_keys pairs psize extra = Ok out)
  (Hps : in_u32 psize) (Hutf8 : keys_utf8 pairs)
  (Hcatalog : is_Some (pairs_map pairs !! bs "chart/catalog")) :
  ∃ root, parse_root (bo_root_bytes out) = Ok root ∧
    Forall (λ p, 0 ≤ p < len (bo_pages out)) (prefetch_pages root) ∧
    ∀ (S : Type) (provider : Z → S → option bytes * S),
      provides_at provider (bo_pages out) (prefetch_pages root) →
    let fuel := rounds (bo_pages out) in
    (∀ key s, key ∈ startup_keys →
       (extract_value provider fuel root key s).1 = ok_or (pairs_map pairs !! key) Absent) ∧
    (∀ prefix s, prefix ∈ startup_prefixes →
       (prefix_keys provider fuel fuel root prefix s).1 = Ok (keys_matching prefix pairs) ∧
       ∀ key s', key ∈ keys_matching prefix pairs →
         (extract_value provider fuel root key s').1 = ok_or (pairs_map pairs !! key) Absent) ∧
    (∀ key s, PrefetchValue key ∈ extra →
       ∃ value, pairs_map pairs !! key = Some value ∧
         (extract_value provider fuel root key s).1 = Ok value).
Proof.
  destruct (build_spec _ _ _ _ Hb Hps Hutf8) as (root & h & ls & vb & Hr & Hbuilt & Hpre & Hcov).
  exists root. split; [done|]. split.
  { pose proof (built_root _ _ _ _ _ _ _ Hbuilt) as (_ & _ & _ & _ & _ & _ & _ & _ & _ & Hrange).
    by rewrite (built_count _ _ _ _ _ _ _ Hbuilt) in Hrange. }
  intros S provider Hs fuel. specialize (Hcov Hcatalog) as (Hk & Hp & Hx).
  assert (serves provider (bo_pages out) (list_to_set (prefetch_pages root))) as Hserve.
  { intros page s Hpg. apply Hs. by rewrite elem_of_list_to_set in Hpg. }
  split_and!.
  - intros key s Hkey. by apply (Hk key Hkey S provider Hserve).
  - intros prefix s Hpr. destruct (Hp prefix Hpr) as [Hp1 Hp2].
    split; [by apply Hp1|]. intros key s' Hkey. by apply (Hp2 key Hkey S provider Hserve).
  - intros key s Hkey. destruct (Hx _ Hkey) as [Hv [value Hsome]]. exists value.
    split; [done|]. subst fuel. rewrite (Hv S provider Hserve s), Hsome. done.
Qed.

(** A provider that has only the prefetched pages of the sample. *)
Definition prefetched_provider (page : Z) (s : unit) : option bytes * unit :=
  (if bool_decide (page ∈ bo_prefetch_pages sample_out) then get_at (bo_pages sample_out) page
   else None, s).
Lemma prefetched_provides root :
  parse_root (bo_root_bytes sample_out) = Ok root →
  provides_at prefetched_provider (bo_pages sample_out) (prefetch_pages root).
Proof.
  intros Hr page s Hp. unfold prefetched_provider; cbn [fst]. rewrite bool_decide_eq_true_2; [reflexivity|].
  destruct (build_spec _ _ _ _ sample_build sample_size sample_utf8)
    as (root' & ? & ? & ? & Hr' & _ & Hpre & _). rewrite Hr in Hr'.
  injection Hr' as <-. rewrite <- Hpre. exact Hp.
Qed.

Lemma prefetch_covers_startup_witness :
  ∃ root, parse_root (bo_root_bytes sample_out) = Ok root ∧
    (length (prefetch_pages root) < length (bo_pages sample_out))%nat ∧
    (extract_value prefetched_provider (rounds (bo_pages sample_out)) root
       (bs "package/by-id/b") tt).1 = Ok (bs "pb").
Proof.
  destruct (prefetch_covers_startup sample_pairs 96 sample_extra sample_out sample_build sample_size
    sample_utf8) as (root & Hr & _ & H).
  { exists (bs "[]"). vm_compute; reflexivity. }
  exists root. split; [exact Hr|]. split.
  - assert (Ok (E := nav_kv_error) root = parse_root (bo_root_bytes sample_out)) as Hr' by by symmetry.
    apply (f_equal (λ r, match r with Ok x => length (prefetch_pages x) | Err _ => O end)) in Hr'.
    rewrite Hr'. apply Nat.ltb_lt. vm_compute. reflexivity.
  - destruct (H unit prefetched_provider (prefetched_provides root Hr)) as (_ & Hp & _).
    destruct (Hp (bs "package/by-id/") tt) as [_ Hk]; [by left|].
    rewrite Hk; [vm_compute; reflexivity|]. vm_compute. right. left.
Defined.
