(* ===== verification/NavKvBounds.v ===== *)
(** * Page sizes and termination of the nav-kv builder *)

From Stdlib Require Import Strings.Byte.
From stdpp Require Import base list list_numbers strings gmap sorting sets.
From S2P Require Import Prelude Utf8 Search NavKvFormat NavKvDelta NavKvRead.
From S2P Require Import NavKvBuild NavKvTree NavKvLookup NavKvBuildCorrect NavKvPrefetch NavKvCorrect.

Local Open Scope Z_scope.

(** ** Sums *)

Definition zsum (l : list Z) : Z := foldr Z.add 0 l.

Lemma zsum_app l1 l2 : zsum (l1 ++ l2) = zsum l1 + zsum l2.
Proof. induction l1 as [|x l1 IH]; simpl; [done|]. rewrite IH. lia. Qed.
Lemma foldl_add_zsum a l : foldl Z.add a l = a + zsum l.
Proof. revert a; induction l as [|x l IH]; intros a; simpl; [lia|]. rewrite IH. lia. Qed.
Lemma len_concat_zsum {A} (f : A → bytes) (g : A → Z) l :
  (∀ x, len (f x) = g x) → len (concat (f <$> l)) = zsum (g <$> l).
Proof.
  intros Hf. induction l as [|x l IH]; [done|]. rewrite !fmap_cons, concat_cons, len_app, Hf, IH. done.
Qed.
Lemma zsum_nonneg l : Forall (λ x, 0 ≤ x) l → 0 ≤ zsum l.
Proof. induction 1; simpl; lia. Qed.

(** ** Leaf pages *)

Lemma len_entry_bytes e : len (entry_bytes e) = leaf_entry_encoded_len e.
Proof.
  unfold entry_bytes, leaf_entry_encoded_len, LEAF_ENTRY_FIXED_LEN.
  destruct (le_val e) as [v|offset n]; autorewrite with len; lia.
Qed.

Lemma len_encode_leaf_page g next b : encode_leaf_page g next = Ok b → len b = leaf_group_len g.
Proof.
  intros (-> & _)%encode_leaf_page_eq. unfold leaf_group_len. rewrite foldl_add_zsum, len_app, len_words.
  rewrite (len_concat_zsum entry_bytes leaf_entry_encoded_len) by apply len_entry_bytes.
  unfold LEAF_HEADER_LEN, len; simpl. lia.
Qed.

Section Fit.
Context (psize : Z).
Abbreviation fits := (λ b : bytes, len b ≤ psize).
(** What validation guarantees of every key: a leaf entry with an external value fits
    a page. *)
Abbreviation key_fits := (λ k : bytes, 28 + len k ≤ psize).

Lemma write_leaf_pages_fit first total index groups pages sums pages' :
  write_leaf_pages first total index groups pages = Ok (sums, pages') →
  Forall (λ g, leaf_group_len g ≤ psize) groups → Forall fits pages →
  Forall (λ g, g ≠ [] ∧ Forall (λ e, key_fits (le_key e)) g) groups →
  Forall fits pages' ∧ Forall (λ s, key_fits (ns_first_key s)) sums.
Proof.
  revert index pages sums; induction groups as [|g groups IH]; intros index pages sums H Hg Hp Hk;
    cbn [write_leaf_pages] in H.
  { by injection H as <- <-. }
  apply bind_Ok in H as (b & Hb & H). apply bind_Ok in H as ([s' p'] & Hrec & H).
  injection H as <- <-. apply Forall_cons in Hg as [Hg Hgs]. apply Forall_cons in Hk as [[Hne Hk] Hks].
  apply IH in Hrec as [H1 H2]; [|done| |done].
  - split; [done|]. constructor; [|done]. simpl. destruct g as [|e g]; [done|].
    by apply Forall_cons in Hk as [? _].
  - apply Forall_app. split; [done|]. apply Forall_singleton. by rewrite (len_encode_leaf_page _ _ _ Hb).
Qed.

(** ** Internal pages *)

Definition pivots_len (g : list NodeSummary) : Z := zsum (pivot_len <$> drop 1 g).

Lemma internal_size_None g :
  internal_page_size_for_children g None = 12 + 4 * len g + pivots_len g.
Proof.
  unfold internal_page_size_for_children, INTERNAL_HEADER_LEN. rewrite foldl_add_zsum.
  unfold pivots_len. lia.
Qed.

Lemma len_encode_internal_page g b :
  encode_internal_page g = Ok b → len b = internal_page_size_for_children g None.
Proof.
  intros (-> & _)%encode_internal_page_eq. rewrite internal_size_None, len_app, len_words.
  rewrite (len_concat_zsum pivot_bytes pivot_len).
  - autorewrite with len. unfold pivots_len. lia.
  - intros c. unfold pivot_bytes, pivot_len. autorewrite with len. lia.
Qed.

Abbreviation group_fits := (λ g, internal_page_size_for_children g None ≤ psize).

Lemma pack_internal_loop_fit cur children groups :
  pack_internal_loop psize cur children = Ok groups →
  (cur ≠ [] → group_fits cur) → Forall group_fits groups.
Proof.
  revert cur groups; induction children as [|c children IH]; intros cur groups H Hcur;
    cbn [pack_internal_loop] in H.
  { injection H as <-. destruct cur; [constructor|]. apply Forall_singleton. by apply Hcur. }
  inv_ok. zbool. apply IH in Ha; [|done].
  destruct (_ && _) eqn:Hfull; [|done]. constructor; [|done]. zbool. apply Hcur.
  intros ->. rewrite len_nil in *. lia.
Qed.

Lemma pivots_len_app g c : g ≠ [] → pivots_len (g ++ [c]) = pivots_len g + pivot_len c.
Proof.
  intros Hg. unfold pivots_len. destruct g as [|x g]; [done|]. simpl drop. rewrite !drop_0.
  rewrite fmap_app, zsum_app. simpl. lia.
Qed.

Lemma pivot_len_nonneg c : 0 ≤ pivot_len c.
Proof. unfold pivot_len. pose proof (len_nonneg (ns_first_key c)). lia. Qed.

(** Moving one child into the last group needs no check of its own: the two pages it
    yields fit because the keys were validated. *)
Lemma regroup_last_fit groups groups' :
  regroup_last psize groups = Ok groups' → Forall group_fits groups →
  Forall (λ s, key_fits (ns_first_key s)) (concat groups) → Forall group_fits groups'.
Proof.
  unfold regroup_last. intros H Hg Hk. destruct (reverse groups) as [|last [|previous earlier]] eqn:Hr.
  1, 2: by repeat case_match; simplify_eq.
  assert (groups = reverse earlier ++ [previous; last]) as ->.
  { rewrite <- (reverse_involutive groups), Hr. rewrite !reverse_cons, <- app_assoc. done. }
  clear Hr. destruct last as [|last [|? ?]]; [by simplify_eq| |by simplify_eq].
  apply Forall_app in Hg as [He Hg]. apply Forall_cons in Hg as [Hprev _].
  assert (28 + len (ns_first_key last) ≤ psize) as Hlast.
  { rewrite Forall_forall in Hk. apply Hk. rewrite concat_app. simpl. set_solver. }
  destruct (Z.leb_spec (len previous) 2).
  - inv_ok. zbool. apply Forall_app. split; [done|]. by apply Forall_singleton.
  - destruct (reverse previous) as [|moved kept] eqn:Hp.
    { apply (f_equal reverse) in Hp. rewrite reverse_involutive in Hp. subst. unfold len in *; simpl in *; lia. }
    injection H as <-. apply (f_equal reverse) in Hp. rewrite reverse_involutive, reverse_cons in Hp.
    subst previous. apply Forall_app. split; [done|]. rewrite Forall_cons, Forall_singleton.
    rewrite len_app, len_cons, len_nil in *.
    rewrite internal_size_None, len_app, len_cons, len_nil, pivots_len_app in Hprev
      by (intros Hnil; rewrite Hnil, len_nil in *; lia).
    pose proof (pivot_len_nonneg moved). rewrite !internal_size_None. split; [lia|].
    unfold pivots_len, pivot_len; simpl. autorewrite with len. lia.
Qed.

Lemma write_internal_pages_fit groups pages sums pages' :
  write_internal_pages groups pages = Ok (sums, pages') →
  Forall group_fits groups → Forall fits pages →
  Forall (λ s, key_fits (ns_first_key s)) (concat groups) →
  Forall fits pages' ∧ Forall (λ s, key_fits (ns_first_key s)) sums.
Proof.
  revert pages sums; induction groups as [|g groups IH]; intros pages sums H Hg Hp Hk;
    cbn [write_internal_pages] in H.
  { by injection H as <- <-. }
  apply bind_Ok in H as (page & _ & H). apply bind_Ok in H as (b & Hb & H).
  apply bind_Ok in H as ([s' p'] & Hrec & H). injection H as <- <-.
  apply Forall_cons in Hg as [Hg Hgs]. simpl in Hk. apply Forall_app in Hk as [Hk Hks].
  apply IH in Hrec as [H1 H2]; [|done| |done].
  - split; [done|]. constructor; [|done]. simpl.
    apply encode_internal_page_eq in Hb as (_ & Hlen & _).
    destruct g as [|c g]; [rewrite len_nil in Hlen; lia|]. by apply Forall_cons in Hk as [? _].
  - apply Forall_app. split; [done|]. apply Forall_singleton.
    by rewrite (len_encode_internal_page _ _ Hb).
Qed.

Lemma build_levels_fit fuel level pages level' pages' :
  build_levels fuel psize level pages = Ok (level', pages') → Forall fits pages →
  Forall (λ s, key_fits (ns_first_key s)) level → Forall fits pages'.
Proof.
  revert level pages; induction fuel as [|fuel IH]; intros level pages H Hp Hk;
    cbn [build_levels] in H; destruct (_ <=? _); try done; try by injection H as <- <-.
  apply bind_Ok in H as ([l2 p2] & Hb & H). unfold build_internal_level, pack_internal_groups in Hb.
  apply bind_Ok in Hb as (groups & Hg & Hb). apply bind_Ok in Hg as (groups0 & Hg0 & Hg).
  pose proof (regroup_last_concat _ _ _ Hg) as Hc. pose proof (pack_internal_loop_concat _ _ _ _ Hg0) as Hc0.
  simpl in Hc0. rewrite Hc0 in Hc.
  apply pack_internal_loop_fit in Hg0; [|done]. apply regroup_last_fit in Hg; [|done|by rewrite Hc0].
  apply write_internal_pages_fit in Hb as [H1 H2]; [|done|done|by rewrite Hc]. by eapply IH.
Qed.

Lemma chunks_fit l : 0 < psize → Forall fits (chunks psize l).
Proof.
  intros Hp. unfold chunks. generalize (length l) as fuel.
  intros fuel. revert l; induction fuel as [|fuel IH]; intros [|b l]; cbn [chunks_fuel]; try constructor.
  - unfold len. rewrite length_take. lia.
  - apply IH.
Qed.

Lemma validate_pairs_keys pairs :
  validate_pairs pairs psize = Ok tt → Forall (λ p, key_fits (pair_key p)) pairs.
Proof.
  unfold validate_pairs. intros H. apply bind_Ok in H as (? & _ & H). apply bind_Ok in H as (? & _ & H).
  revert H. generalize (@None bytes). induction pairs as [|p pairs IH]; intros previous H;
    cbn [validate_pairs_loop] in H; constructor.
  - inv_ok. zbool. unfold LEAF_HEADER_LEN, LEAF_ENTRY_FIXED_LEN, inline_value_len in *.
    pose proof (len_nonneg (pair_value p)). case_match; lia.
  - apply bind_Ok in H as (? & _ & H). apply bind_Ok in H as (? & _ & H).
    apply bind_Ok in H as (? & _ & H). apply bind_Ok in H as (? & _ & H). by eapply IH.
Qed.

Lemma entry_for_keys_fit vb pairs es :
  Forall2 (entry_for vb) pairs es → Forall (λ p, key_fits (pair_key p)) pairs →
  Forall (λ e, key_fits (le_key e)) es.
Proof.
  induction 1 as [|p e pairs es (Hk & _) _ IH]; [constructor|].
  intros [? ?]%Forall_cons. constructor; [by rewrite Hk|auto].
Qed.
End Fit.

Lemma build_pages_sized (pairs : list NavKvPair) (psize : Z) (extra : list NavKvPrefetch)
  (out : NavKvBuildOutput)
  (Hb : build_nav_kv_strict_with_extra_prefetch_keys pairs psize extra = Ok out)
  (Hps : in_u32 psize) :
  Forall (λ page, len page ≤ psize) (bo_pages out).
Proof.
  unfold build_nav_kv_strict_with_extra_prefetch_keys in Hb.
  apply bind_Ok in Hb as ([] & Hval & Hb). pose proof (validate_pairs_keys _ _ Hval) as Hkeys.
  apply validate_pairs_Ok in Hval as (Hps0 & _ & _). unfold in_u32 in Hps.
  apply bind_Ok in Hb as ([es vb] & Hsplit & Hb). apply bind_Ok in Hb as (vlen & _ & Hb).
  apply bind_Ok in Hb as ([level pages] & Hleaf & Hb).
  apply bind_Ok in Hb as ([level' pages'] & Hlevels & Hb). inv_ok. simpl.
  apply Forall_app. split; [|apply chunks_fit; lia].
  apply split_values_spec in Hsplit as (ext & -> & Hfor).
  unfold build_leaf_pages in Hleaf. apply bind_Ok in Hleaf as (groups & Hg & Hleaf).
  apply (pack_leaf_groups_spec psize []) in Hg as [Hc Hg]; [|done].
  apply bind_Ok in Hleaf as (first & _ & Hleaf).
  apply (write_leaf_pages_fit psize) in Hleaf as [Hpf Hkf].
  - by eapply build_levels_fit.
  - eapply Forall_impl; [exact Hg|]. by intros g [_ ?].
  - constructor.
  - assert (Forall (λ e, 28 + len (le_key e) ≤ psize) (concat groups)) as Hek.
    { rewrite Hc. by apply (entry_for_keys_fit psize _ _ _ Hfor). }
    apply Forall_concat in Hek. apply Forall_and. split; [|done].
    eapply Forall_impl; [exact Hg|]. by intros g [? _].
Qed.

(** Every page of a built store fits the page size: leaves, internal pages (also
    the ones that result from rebalancing the last two groups, where the code makes no
    size check) and value pages. *)
Theorem build_pages_fit (pairs : list NavKvPair) (psize : Z) (extra : list NavKvPrefetch)
  (out : NavKvBuildOutput)
  (Hb : build_nav_kv_strict_with_extra_prefetch_keys pairs psize extra = Ok out)
  (Hps : in_u32 psize) :
  Forall (λ page, len page ≤ psize) (bo_pages out).
Proof. by eapply build_pages_sized. Qed.

Lemma build_pages_fit_witness : Forall (λ page, len page ≤ 96) (bo_pages sample_out).
Proof. apply (build_pages_fit sample_pairs 96 sample_extra sample_out sample_build sample_size). Defined.

(** ** Termination *)

(** A computation that does not end by exhausting the rounds of a loop. *)
Definition ends {A} (r : result nav_kv_error A) : Prop := r ≠ Err LoopBound.

Lemma ends_Ok {A} (a : A) : ends (Ok a).
Proof. done. Qed.
Lemma ends_Err {A} e : e ≠ LoopBound → ends (Err e : result _ A).
Proof. intros He [= ->]. done. Qed.
Lemma ends_bind {A B} (r : result _ A) (f : A → result _ B) :
  ends r → (∀ a, r = Ok a → ends (f a)) → ends (r ≫= f).
Proof. destruct r as [a|e]; intros Hr Hf; [by apply Hf|]. intros [= ->]. by apply Hr. Qed.
Lemma ends_guard b e : e ≠ LoopBound → ends (guard_err b e).
Proof. destruct b; [apply ends_Err|done]. Qed.
Lemma ends_ok_or {A} (o : option A) e : e ≠ LoopBound → ends (ok_or o e).
Proof. destruct o; [done|apply ends_Err]. Qed.
Lemma ends_try_map {A B} (f : A → result _ B) l : (∀ a, ends (f a)) → ends (try_map f l).
Proof.
  intros Hf. induction l as [|x l IH]; [done|]. cbn [try_map].
  apply ends_bind; [done|]. intros. by apply ends_bind.
Qed.

Create HintDb ends.
#[export] Hint Resolve ends_Ok ends_bind ends_try_map : ends.
#[export] Hint Extern 1 (ends (Err _)) => apply ends_Err; discriminate : ends.
#[export] Hint Extern 1 (ends (guard_err _ _)) => apply ends_guard; discriminate : ends.
#[export] Hint Extern 1 (ends (ok_or _ _)) => apply ends_ok_or; discriminate : ends.
#[export] Hint Extern 2 (ends (match ?x with _ => _ end)) => destruct x : ends.

Lemma validate_pairs_ends pairs psize : ends (validate_pairs pairs psize).
Proof.
  unfold validate_pairs. apply ends_bind; [auto with ends|]. intros _ _.
  apply ends_bind; [auto with ends|]. intros _ _. generalize (@None bytes).
  induction pairs as [|p pairs IH]; intros previous; cbn [validate_pairs_loop check_order]; [done|].
  repeat (apply ends_bind; [unfold check_order; auto with ends|intros _ _]). apply IH.
Qed.
Lemma split_values_ends pairs vb : ends (split_values pairs vb).
Proof.
  revert vb; induction pairs as [|p pairs IH]; intros vb; cbn [split_values]; [done|].
  apply ends_bind; [auto with ends|]. intros n _. apply ends_bind; [auto 6 with ends|].
  intros [value vb'] _. apply ends_bind; [done|]. by intros [? ?] _.
Qed.
Lemma encode_leaf_page_ends es next : ends (encode_leaf_page es next).
Proof.
  unfold encode_leaf_page. apply ends_bind; [auto with ends|]. intros. apply ends_bind; [|done].
  apply ends_try_map. intros e. unfold encode_leaf_entry.
  repeat (apply ends_bind; [auto 6 with ends|intros]); auto with ends.
Qed.
Lemma encode_internal_page_ends cs : ends (encode_internal_page cs).
Proof.
  unfold encode_internal_page. repeat (apply ends_bind; [auto with ends|intros]); [|done].
  apply ends_try_map. intros c. unfold encode_pivot. auto with ends.
Qed.
Lemma build_leaf_pages_ends es psize pages : ends (build_leaf_pages es psize pages).
Proof.
  unfold build_leaf_pages. apply ends_bind.
  - generalize (@nil LeafEntry) LEAF_HEADER_LEN. induction es as [|e es IH]; intros cur size;
      cbn [pack_leaf_groups]; [done|].
    destruct (_ <? _ + leaf_entry_encoded_len e); [auto with ends|]. by apply ends_bind.
  - intros groups _. apply ends_bind; [auto with ends|]. intros first _. generalize (len groups) as total.
    intros total. generalize 0 as index. revert pages. induction groups as [|g groups IH];
      intros pages index; cbn [write_leaf_pages]; [done|].
    apply ends_bind; [apply encode_leaf_page_ends|]. intros b _. apply ends_bind; [apply IH|].
    by intros [? ?] _.
Qed.
Lemma build_internal_level_ends children psize pages : ends (build_internal_level children psize pages).
Proof.
  unfold build_internal_level, pack_internal_groups. apply ends_bind; [apply ends_bind|].
  - generalize (@nil NodeSummary). induction children as [|c children IH]; intros cur;
      cbn [pack_internal_loop]; [done|].
    destruct (_ <? internal_page_size_for_children _ None); [auto with ends|]. by apply ends_bind.
  - intros groups _. unfold regroup_last. repeat case_match; auto with ends.
  - intros groups _. revert pages. induction groups as [|g groups IH]; intros pages;
      cbn [write_internal_pages]; [done|].
    apply ends_bind; [auto with ends|]. intros. apply ends_bind; [apply encode_internal_page_ends|].
    intros b _. apply ends_bind; [apply IH|]. by intros [? ?] _.
Qed.

(** The number of summaries bounds the number of levels. *)
Lemma build_levels_ends fuel psize level pages :
  (length level ≤ fuel)%nat → ends (build_levels fuel psize level pages).
Proof.
  revert level pages; induction fuel as [|fuel IH]; intros level pages Hf; cbn [build_levels];
    destruct (Z.leb_spec (len level) 1) as [|H1]; try done; [unfold len in H1; lia|].
  apply ends_bind; [apply build_internal_level_ends|]. intros [level' pages'] Hb. apply IH.
  apply build_internal_level_halves in Hb. unfold len in H1. lia.
Qed.

Lemma build_root_bytes_ends a b c d e f g : ends (build_root_bytes a b c d e f g).
Proof. unfold build_root_bytes. auto with ends. Qed.

(** C39: the builder terminates. Its loops that are not bounded by their input, building
    level above level until one page is left and following page links while looking for
    pages to prefetch, end within the rounds the model allows them. *)
Theorem build_terminates (pairs : list NavKvPair) (psize : Z) (extra : list NavKvPrefetch)
  (Hps : in_u32 psize) (Hutf8 : keys_utf8 pairs) :
  build_nav_kv_strict_with_extra_prefetch_keys pairs psize extra ≠ Err LoopBound.
Proof.
  unfold build_nav_kv_strict_with_extra_prefetch_keys.
  apply ends_bind; [apply validate_pairs_ends|]. intros [] Hval.
  apply validate_pairs_Ok in Hval as (Hps0 & Hne & Hpok).
  apply ends_bind; [apply split_values_ends|]. intros [es vb] Hsplit.
  apply ends_bind; [auto with ends|]. intros vlen Hv.
  apply ends_bind; [apply build_leaf_pages_ends|]. intros [level pages] Hleaf.
  apply ends_bind; [by apply build_levels_ends|]. intros [level' pages'] Hlevels.
  apply ends_bind; [auto with ends|]. intros rp Hrp.
  apply ends_bind; [auto with ends|]. intros vps Hvps.
  apply ends_bind; [auto with ends|]. intros pc Hpc.
  apply ends_bind; [auto with ends|]. intros ll Hll.
  apply ends_bind; [auto with ends|]. intros ec Hec.
  apply ends_bind; [apply build_root_bytes_ends|]. intros rb Hrb. inv_ok. subst.
  unfold in_u32 in Hps.
  destruct (build_pages_spec pairs psize es vb level pages level' pages' _ Hpok Hne ltac:(lia)
    Hsplit Hleaf Hlevels eq_refl) as (s & h & ls & -> & Hb); try done; try lia.
  simpl in Hrp. injection Hrp as <-.
  rewrite (parse_root_build _ _ (built_root _ _ _ _ _ _ _ Hb) Hrb).
  apply ends_bind; [done|]. intros root [= <-].
  apply ends_bind; [apply (startup_prefetch_pages_ends Hb Hutf8)|]. intros l _.
  apply ends_bind; [apply build_root_bytes_ends|done].
Qed.

Lemma build_terminates_witness :
  build_nav_kv_strict_with_extra_prefetch_keys sample_pairs 96 [PrefetchValue (bs "missing")]
    ≠ Err LoopBound.
Proof. apply (build_terminates sample_pairs 96 _ sample_size sample_utf8). Defined.

(** ** A sum that wraps *)

(** A root of two pages that claims more value bytes than they hold. *)
Definition wrapped_root : bytes :=
  match build_root_bytes 1 1 0 2 2 4294967295 [] with Ok b => b | Err _ => [] end.

(** The check that value bytes fit the value pages passes when the sum of page numbers
    wraps around: the root is accepted although its values need more pages than it has. *)
Theorem parse_root_accepts_wrapped_sum :
  ∃ root, parse_root wrapped_root = Ok root ∧
    page_count root < value_page_start root + div_ceil (value_bytes_len root) (page_size root).
Proof. eexists. split; [vm_compute; reflexivity|vm_compute; reflexivity]. Qed.
