(* ===== verification/NavKvStore.v ===== *)
(** * A store with the pages fetched so far (crates/had-nav-kv, [NavKvStore])

    Lookups in a store that holds some of the pages: a lookup either answers or
    reports the pages it needs. The methods thread the set of missing pages and the
    probe statistics. *)

From Stdlib Require Import Strings.Byte.
From stdpp Require Import base list list_numbers strings gmap sorting.
From S2P Require Import Prelude Utf8 Search NavKvFormat NavKvRead.

Local Open Scope Z_scope.

Inductive NavKvLookup :=
| Hit (value : bytes)
| MissingKey
| MissingPages (pages : list Z).

Record NavKvPageProbeStats := {
  ps_keys : Z;
  ps_node_page_hits : Z;
  ps_node_page_misses : Z;
  ps_leaf_entries_scanned : Z;
  ps_inline_values : Z;
  ps_external_values : Z;
  ps_value_page_hits : Z;
  ps_value_page_misses : Z
}.

Definition default_stats : NavKvPageProbeStats :=
  {| ps_keys := 0; ps_node_page_hits := 0; ps_node_page_misses := 0; ps_leaf_entries_scanned := 0;
     ps_inline_values := 0; ps_external_values := 0; ps_value_page_hits := 0;
     ps_value_page_misses := 0 |}.

(** The increments of the counters, one field each. *)
Definition add_stats (k nh nm ls iv ev vh vm : Z) (s : NavKvPageProbeStats) : NavKvPageProbeStats :=
  {| ps_keys := ps_keys s + k; ps_node_page_hits := ps_node_page_hits s + nh;
     ps_node_page_misses := ps_node_page_misses s + nm;
     ps_leaf_entries_scanned := ps_leaf_entries_scanned s + ls;
     ps_inline_values := ps_inline_values s + iv;
     ps_external_values := ps_external_values s + ev;
     ps_value_page_hits := ps_value_page_hits s + vh;
     ps_value_page_misses := ps_value_page_misses s + vm |}.
Definition count_key := add_stats 1 0 0 0 0 0 0 0.
Definition count_node_hit := add_stats 0 1 0 0 0 0 0 0.
Definition count_node_miss := add_stats 0 0 1 0 0 0 0 0.
Definition count_scanned := add_stats 0 0 0 1 0 0 0 0.
Definition count_inline := add_stats 0 0 0 0 1 0 0 0.
Definition count_external := add_stats 0 0 0 0 0 1 0 0.
Definition count_value_hit := add_stats 0 0 0 0 0 0 1 0.
Definition count_value_miss := add_stats 0 0 0 0 0 0 0 1.

(** The two [&mut] arguments of the probing methods. *)
Record probe := { missing : gset Z; probe_stats : NavKvPageProbeStats }.
Definition record_missing (page : Z) (p : probe) : probe :=
  {| missing := {[page]} ∪ missing p; probe_stats := probe_stats p |}.
Definition on_stats (f : NavKvPageProbeStats → NavKvPageProbeStats) (p : probe) : probe :=
  {| missing := missing p; probe_stats := f (probe_stats p) |}.

Record NavKvStore := { ns_root : NavKvRoot; ns_pages : gmap Z bytes }.

Definition new (root : NavKvRoot) : NavKvStore := {| ns_root := root; ns_pages := ∅ |}.
Definition insert_page (store : NavKvStore) (page_index : Z) (b : bytes) : NavKvStore :=
  {| ns_root := ns_root store; ns_pages := <[page_index := b]> (ns_pages store) |}.
Definition clear_pages (store : NavKvStore) : NavKvStore :=
  {| ns_root := ns_root store; ns_pages := ∅ |}.
Definition missing_prefetch_pages (store : NavKvStore) : list Z :=
  filter (λ page, ns_pages store !! page = None) (prefetch_pages (ns_root store)).

(** ** Searching a page without parsing it *)

(** The pivot loop: [child_index] is the child chosen so far. *)
Fixpoint pivot_scan (l key : bytes) (n : nat) (pivot_index child_index offset : Z)
    : result nav_kv_error Z :=
  match n with
  | O => Ok child_index
  | S n =>
      key_len ← read_u32 l offset;
      let offset := offset + 4 in
      key_end ← ok_or (checked_add usize_max offset key_len) LengthOverflow;
      pivot ← ok_or (get_range l offset key_end) PivotPastPage;
      if bytes_leb pivot key
      then pivot_scan l key n (pivot_index + 1) (pivot_index + 1) key_end
      else Ok child_index
  end.

Definition internal_child_for_key_ref (l key : bytes) : result nav_kv_error Z :=
  pivot_count ← read_u32 l 4;
  child_count ← read_u32 l 8;
  _ ← guard_err (negb (child_count =? pivot_count + 1)) ChildPivotMismatch;
  let children_offset := INTERNAL_HEADER_LEN in
  table_len ← ok_or (checked_mul usize_max child_count 4) ChildTableOverflow;
  pivots_offset ← ok_or (checked_add usize_max children_offset table_len) ChildTableOverflow;
  child_index ← pivot_scan l key (Z.to_nat pivot_count) 0 0 pivots_offset;
  read_u32 l (children_offset + child_index * 4).

(** The entry loop. *)
Fixpoint leaf_scan (l key : bytes) (n : nat) (offset : Z)
    : ST probe nav_kv_error (option LeafEntryValue) :=
  match n with
  | O => mret None
  | S n =>
      _ ← st_modify (on_stats count_scanned);
      key_len ← st_lift (read_u32 l offset);
      let offset := offset + 4 in
      value_kind ← st_lift (read_u32 l offset);
      let offset := offset + 4 in
      value_a ← st_lift (read_u32 l offset);
      let offset := offset + 4 in
      value_b ← st_lift (read_u32 l offset);
      let offset := offset + 4 in
      key_end ← st_lift (ok_or (checked_add usize_max offset key_len) LengthOverflow);
      entry_key ← st_lift (ok_or (get_range l offset key_end) LeafKeyPastPage);
      let offset := key_end in
      match bytes_cmp entry_key key with
      | Eq =>
          if value_kind =? VALUE_KIND_INLINE then
            _ ← st_modify (on_stats count_inline);
            value_end ← st_lift (ok_or (checked_add usize_max offset value_a) LengthOverflow);
            value ← st_lift (ok_or (get_range l offset value_end) InlineValuePastPage);
            mret (Some (Inline value))
          else if value_kind =? VALUE_KIND_EXTERNAL then
            _ ← st_modify (on_stats count_external);
            mret (Some (External value_a value_b))
          else st_err InvalidValueKind
      | Gt => mret None
      | Lt =>
          if value_kind =? VALUE_KIND_INLINE then
            offset ← st_lift (ok_or (checked_add usize_max offset value_a) LengthOverflow);
            _ ← st_lift (guard_err (len l <? offset) InlineValuePastPage);
            leaf_scan l key n offset
          else if value_kind =? VALUE_KIND_EXTERNAL then leaf_scan l key n offset
          else st_err InvalidValueKind
      end
  end.

Definition leaf_entry_value_ref_for_key (l key : bytes)
    : ST probe nav_kv_error (option LeafEntryValue) :=
  count ← st_lift (read_u32 l 4);
  leaf_scan l key (Z.to_nat count) LEAF_HEADER_LEN.

(** ** Lookups *)

Definition node_page_bytes_or_record_missing (store : NavKvStore) (page : Z)
    : ST probe nav_kv_error (option bytes) :=
  if value_page_start (ns_root store) <=? page then mret None
  else
    match ns_pages store !! page with
    | Some b => _ ← st_modify (on_stats count_node_hit); mret (Some b)
    | None => _ ← st_modify (λ p, record_missing page (on_stats count_node_miss p)); mret None
    end.

Definition value_page_bytes_or_record_missing (store : NavKvStore) (page : Z)
    : ST probe nav_kv_error (option bytes) :=
  match ns_pages store !! page with
  | Some b => _ ← st_modify (on_stats count_value_hit); mret (Some b)
  | None => _ ← st_modify (λ p, record_missing page (on_stats count_value_miss p)); mret None
  end.

Definition value_page_present_or_record_missing (store : NavKvStore) (page : Z)
    : ST probe nav_kv_error bool :=
  if ns_pages store !! page
  is Some _ then _ ← st_modify (on_stats count_value_hit); mret true
  else _ ← st_modify (λ p, record_missing page (on_stats count_value_miss p)); mret false.

Fixpoint find_leaf_page_ref_loop (fuel : nat) (store : NavKvStore) (key : bytes) (page_index : Z)
    : ST probe nav_kv_error (option Z) :=
  match fuel with
  | O => st_err LoopBound
  | S fuel =>
      node ← node_page_bytes_or_record_missing store page_index;
      match node with
      | None => mret None
      | Some b =>
          kind ← st_lift (read_u32 b 0);
          if kind =? NODE_KIND_LEAF then mret (Some page_index)
          else if kind =? NODE_KIND_INTERNAL then
            page_index ← st_lift (internal_child_for_key_ref b key);
            find_leaf_page_ref_loop fuel store key page_index
          else st_err InvalidNodeKind
      end
  end.
Definition find_leaf_page_for_key_ref (fuel : nat) (store : NavKvStore) (key : bytes)
    : ST probe nav_kv_error (option Z) :=
  find_leaf_page_ref_loop fuel store key (root_page (ns_root store)).

Definition find_leaf_entry_ref (fuel : nat) (store : NavKvStore) (key : bytes)
    : ST probe nav_kv_error (option LeafEntryValue) :=
  leaf_page ← find_leaf_page_for_key_ref fuel store key;
  match leaf_page with
  | None => mret None
  | Some leaf_page =>
      leaf_bytes ← node_page_bytes_or_record_missing store leaf_page;
      match leaf_bytes with
      | None => mret None
      | Some b => leaf_entry_value_ref_for_key b key
      end
  end.

(** [for value_page in start_page..=end_page] of [record_missing_external_value_pages]. *)
Fixpoint probe_value_pages (store : NavKvStore) (value_pages : list Z)
    : ST probe nav_kv_error unit :=
  match value_pages with
  | [] => mret tt
  | value_page :: value_pages =>
      _ ← value_page_present_or_record_missing store
            (wrap32 (value_page_start (ns_root store) + value_page));
      probe_value_pages store value_pages
  end.

Definition record_missing_external_value_pages (store : NavKvStore) (start n : Z)
    : ST probe nav_kv_error unit :=
  let root := ns_root store in
  if n =? 0 then mret tt
  else
    end_ ← st_lift (ok_or (checked_add u32_max start n) ExternalRangeOverflow);
    _ ← st_lift (guard_err (value_bytes_len root <? end_) ExternalPastValueBytes);
    let start_page := start `div` page_size root in
    let end_page := (end_ - 1) `div` page_size root in
    probe_value_pages store (seqZ start_page (end_page - start_page + 1)).

(** The page loop of [read_external_value_borrowed]; [None] is its [None]. *)
Fixpoint read_borrowed_pages (store : NavKvStore) (start end_ : Z) (value_pages : list Z)
    : ST probe nav_kv_error (option bytes) :=
  match value_pages with
  | [] => mret (Some [])
  | value_page :: value_pages =>
      let root := ns_root store in
      page ← value_page_bytes_or_record_missing store (wrap32 (value_page_start root + value_page));
      match page with
      | None => mret None
      | Some page =>
          let page_start := wrap32 (value_page * page_size root) in
          let slice_start := saturating_sub start page_start in
          let slice_end := wrap32 (Z.min end_ (wrap32 (page_start + page_size root)) - page_start) in
          if (len page <? slice_end) || (slice_end <? slice_start) then mret None
          else
            rest ← read_borrowed_pages store start end_ value_pages;
            mret (slice ← get_range page slice_start slice_end; rest ← rest; Some (slice ++ rest))
      end
  end.

Definition read_external_value_borrowed (store : NavKvStore) (start n : Z)
    : ST probe nav_kv_error (option bytes) :=
  let root := ns_root store in
  if n =? 0 then mret (Some [])
  else
    match checked_add u32_max start n with
    | None => mret None
    | Some end_ =>
        if value_bytes_len root <? end_ then mret None
        else
          let start_page := start `div` page_size root in
          let end_page := (end_ - 1) `div` page_size root in
          read_borrowed_pages store start end_ (seqZ start_page (end_page - start_page + 1))
    end.

Definition missing_list (p : probe) : list Z := set_iter (missing p).

Definition fresh_probe (stats : NavKvPageProbeStats) : probe :=
  {| missing := ∅; probe_stats := stats |}.

Definition get_bytes (fuel : nat) (store : NavKvStore) (key : bytes)
    : result nav_kv_error NavKvLookup :=
  let '(entry, p) := find_leaf_entry_ref fuel store key (fresh_probe default_stats) in
  entry ← entry;
  match entry with
  | None =>
      match missing_list p with
      | [] => Ok MissingKey
      | pages => Ok (MissingPages pages)
      end
  | Some (Inline value) => Ok (Hit value)
  | Some (External offset n) =>
      let '(r, p) := record_missing_external_value_pages store offset n (fresh_probe (probe_stats p)) in
      _ ← r;
      match missing_list p with
      | (_ :: _) as pages => Ok (MissingPages pages)
      | [] =>
          let '(value, p) := read_external_value_borrowed store offset n p in
          value ← value;
          match value with
          | Some value => Ok (Hit value)
          | None =>
              match missing_list p with
              | [] => Err ExternalReadFailed
              | pages => Ok (MissingPages pages)
              end
          end
      end
  end.

(** [missing_pages_for_key]: its own set of missing pages, the caller's statistics. *)
Definition missing_pages_for_key (fuel : nat) (store : NavKvStore) (key : bytes)
    : ST NavKvPageProbeStats nav_kv_error (list Z) := λ stats,
  let c : ST probe nav_kv_error (list Z) :=
    entry ← find_leaf_entry_ref fuel store key;
    _ ← match entry with
        | Some (External offset n) => record_missing_external_value_pages store offset n
        | _ => mret tt
        end;
    p ← st_get; mret (missing_list p) in
  let '(r, p) := c (fresh_probe stats) in (r, probe_stats p).

Fixpoint missing_pages_loop (fuel : nat) (store : NavKvStore) (pages : gset Z) (keys : list bytes)
    : ST NavKvPageProbeStats nav_kv_error (gset Z) :=
  match keys with
  | [] => mret pages
  | key :: keys =>
      _ ← st_modify count_key;
      more ← missing_pages_for_key fuel store key;
      missing_pages_loop fuel store (pages ∪ list_to_set more) keys
  end.

Definition missing_pages_for_keys_with_stats (fuel : nat) (store : NavKvStore) (keys : list bytes)
    : result nav_kv_error (list Z * NavKvPageProbeStats) :=
  let '(r, stats) := missing_pages_loop fuel store ∅ keys default_stats in
  pages ← r; Ok (set_iter pages, stats).

Definition missing_pages_for_keys (fuel : nat) (store : NavKvStore) (keys : list bytes)
    : result nav_kv_error (list Z) :=
  fst <$> missing_pages_for_keys_with_stats fuel store keys.

(** ** Prefix scans: the provider is the store, and records what it does not have. *)

Definition page_bytes_or_record_missing (store : NavKvStore) (page : Z) (missing_pages : gset Z)
    : option bytes * gset Z :=
  match ns_pages store !! page with
  | Some b => (Some b, missing_pages)
  | None => (None, {[page]} ∪ missing_pages)
  end.

(** [join] with a newline between the keys. *)
Fixpoint join_lines (keys : list bytes) : bytes :=
  match keys with
  | [] => []
  | [key] => key
  | key :: keys => key ++ x0a :: join_lines keys
  end.

Definition keys_with_prefix_lookup (fuel links : nat) (store : NavKvStore) (prefix : bytes)
    : result nav_kv_error NavKvLookup :=
  match prefix_keys (page_bytes_or_record_missing store) fuel links (ns_root store) prefix ∅ with
  | (Ok keys, _) => Ok (Hit (join_lines keys))
  | (Err Absent, missing_pages) =>
      match set_iter missing_pages with
      | [] => Err PrefixScanFailed
      | pages => Ok (MissingPages pages)
      end
  | (Err RoundsExceeded, _) => Err LoopBound
  end.

(** [str::lines]: the parts between newlines, without a carriage return before the
    newline; an empty part after the last newline is not a line. *)
Definition strip_cr (line : bytes) : bytes :=
  match reverse line with
  | b :: rest => if bool_decide (b = x0d) then reverse rest else line
  | [] => line
  end.
Fixpoint lines_from (current : bytes) (l : bytes) : list bytes :=
  match l with
  | [] => match current with [] => [] | _ => [current] end
  | b :: l => if bool_decide (b = x0a) then strip_cr current :: lines_from [] l
              else lines_from (current ++ [b]) l
  end.
Definition lines (l : bytes) : list bytes := lines_from [] l.

Definition keys_with_prefix (fuel links : nat) (store : NavKvStore) (prefix : bytes) : list bytes :=
  match keys_with_prefix_lookup fuel links store prefix with
  | Ok (Hit b) => lines (from_utf8_lossy b)
  | _ => []
  end.
