(* ===== verification/NavKvStoreCorrect.v ===== *)
(** * What a partly fetched nav-kv store answers

    Searching the bytes of a page in place agrees with parsing it and searching the
    node; a lookup in a store that holds some pages of a built store gives the right
    answer or names pages of the store that it lacks. *)

From Stdlib Require Import Strings.Byte.
From stdpp Require Import base list list_numbers strings gmap sorting sets.
From S2P Require Import Prelude Utf8 Search NavKvFormat NavKvDelta NavKvRead NavKvBuild.
From S2P Require Import NavKvTree NavKvLookup NavKvBuildCorrect NavKvPrefetch NavKvCorrect NavKvBounds NavKvStore.

Local Open Scope Z_scope.

(** ** Internal pages *)

Lemma parse_children_spec l n off cs off' :
  parse_children l n off = Ok (cs, off') →
  off' = off + 4 * Z.of_nat n ∧ length cs = n ∧
  ∀ i c, cs !! i = Some c → read_u32 l (off + 4 * Z.of_nat i) = Ok c.
Proof.
  revert off cs; induction n as [|n IH]; intros off cs H; cbn [parse_children] in H.
  { injection H as <- <-. split_and!; [lia|done|by intros [|?] ?]. }
  apply bind_Ok in H as (c & Hc & H). apply bind_Ok in H as ([cs' o] & Hcs & H).
  injection H as <- <-. apply IH in Hcs as (-> & <- & Hr). split_and!; [lia|done|].
  intros [|i] x Hx; simpl in Hx.
  - injection Hx as <-. by rewrite Z.add_0_r.
  - apply Hr in Hx. by replace (off + 4 * Z.of_nat (S i)) with (off + 4 + 4 * Z.of_nat i) by lia.
Qed.

(** The linear scan stops at the first pivot above the key. *)
Lemma pivot_scan_spec l key n k off ps :
  len l ≤ usize_max → parse_pivots l n off = Ok ps →
  ∃ j, pivot_scan l key n k k off = Ok (k + Z.of_nat j) ∧ (j ≤ length ps)%nat ∧
    (∀ i p, (i < j)%nat → ps !! i = Some p → bytes_leb p key = true) ∧
    (∀ p, ps !! j = Some p → bytes_leb p key = false).
Proof.
  intros Hl. revert k off ps; induction n as [|n IH]; intros k off ps H; cbn [parse_pivots] in H.
  { injection H as <-. exists 0%nat. split_and!; [by rewrite Z.add_0_r|done|lia|done]. }
  inv_ok. rename a into key_len. cbn [pivot_scan]. rewrite Ha. cbn [mbind result_bind].
  pose proof (get_range_len _ _ _ _ Ha0) as (_ & _ & Hend).
  unfold checked_add. rewrite (proj2 (Z.leb_le _ _)) by lia. cbn [ok_or mbind result_bind].
  rewrite Ha0. cbn [ok_or mbind result_bind]. destruct (bytes_leb a0 key) eqn:Hle.
  - destruct (IH (k + 1) _ _ Ha1) as (j & -> & Hj & Hlt & Hge).
    exists (S j). split_and!; [f_equal; lia|simpl; lia| |done].
    intros [|i] p Hi Hp; [by injection Hp as <-|]. apply (Hlt i); [lia|done].
  - exists 0%nat. split_and!; [f_equal; lia|lia|lia|]. by intros p [= <-].
Qed.

Lemma pivot_scan_partition l key n off ps :
  len l ≤ usize_max → parse_pivots l n off = Ok ps → StronglySorted bytes_lt ps →
  pivot_scan l key n 0 0 off = Ok (Z.of_nat (partition_point ps (λ p, bytes_leb p key))).
Proof.
  intros Hl Hp Hs. destruct (pivot_scan_spec l key n 0 off ps Hl Hp) as (j & -> & Hj & Hlt & Hge).
  destruct (partition_point_spec ps (λ p, bytes_leb p key)) as (Hi & Hlt' & Hge').
  { intros a b x y Hab Hx Hy Hle. apply bytes_leb_le in Hle. apply bytes_leb_le.
    etrans; [|exact Hle]. apply bytes_le_lt_eq. left.
    apply list_elem_of_split_length in Hy as (p1 & p2 & -> & ->).
    eapply StronglySorted_app_1_elem_of; [exact Hs| |by left].
    rewrite lookup_app_l in Hx by lia. by eapply list_elem_of_lookup_2. }
  set (i := partition_point _ _) in *. do 2 f_equal.
  destruct (decide (j = i)) as [->|Hne]; [lia|exfalso]. destruct (decide (j < i)%nat).
  - destruct (lookup_lt_is_Some_2 ps j) as [p Hpj]; [lia|].
    specialize (Hlt' j p ltac:(lia) Hpj). rewrite (Hge p Hpj) in Hlt'. done.
  - destruct (lookup_lt_is_Some_2 ps i) as [p Hpi]; [lia|].
    specialize (Hge' i p ltac:(lia) Hpi). simpl in Hge'. rewrite (Hlt i p ltac:(lia) Hpi) in Hge'. done.
Qed.

Lemma internal_child_ref l key node c :
  len l ≤ usize_max → parse_internal_node l = Ok node → StronglySorted bytes_lt (pivots node) →
  children node !! partition_point (pivots node) (λ p, bytes_leb p key) = Some c →
  internal_child_for_key_ref l key = Ok c.
Proof.
  intros Hl Hn Hs Hc. unfold parse_internal_node in Hn.
  apply bind_Ok in Hn as (pc & Hpc & Hn). apply bind_Ok in Hn as (cc & Hcc & Hn).
  apply bind_Ok in Hn as ([] & Hg & Hn). apply bind_Ok in Hn as ([cs off] & Hcs & Hn). inv_ok.
  simpl in Hs, Hc. apply parse_children_spec in Hcs as (-> & Hlen & Hread).
  unfold internal_child_for_key_ref. rewrite Hpc, Hcc. cbn [mbind result_bind]. rewrite Hg.
  cbn [guard_err mbind result_bind]. apply read_u32_bound in Hcc. unfold in_u32, u32_max in Hcc.
  unfold checked_mul, checked_add, INTERNAL_HEADER_LEN, usize_max, u64_max in *.
  rewrite (proj2 (Z.leb_le _ _)) by lia. cbn [ok_or mbind result_bind].
  rewrite (proj2 (Z.leb_le _ _)) by lia. cbn [ok_or mbind result_bind].
  replace (12 + cc * 4) with (12 + 4 * Z.of_nat (Z.to_nat cc)) by lia.
  rewrite (pivot_scan_partition l key _ _ a) by (done || (unfold usize_max, u64_max; lia)).
  cbn [mbind result_bind]. rewrite Z.mul_comm. by apply Hread.
Qed.

(** ** Leaf pages *)

Definition find_entry (key : bytes) (es : list LeafEntry) : option LeafEntry :=
  head (filter (λ e, le_key e = key) es).

Lemma find_entry_cons key e es :
  find_entry key (e :: es) = if decide (le_key e = key) then Some e else find_entry key es.
Proof. unfold find_entry. rewrite filter_cons. by case_decide. Qed.
Lemma find_entry_none key es : (∀ e, e ∈ es → le_key e ≠ key) → find_entry key es = None.
Proof.
  induction es as [|e es IH]; [done|]. intros H. rewrite find_entry_cons, decide_False.
  - apply IH. intros. apply H. by right.
  - apply H. by left.
Qed.

Lemma find_entry_app key es1 es2 :
  find_entry key (es1 ++ es2) =
    match find_entry key es1 with Some e => Some e | None => find_entry key es2 end.
Proof.
  induction es1 as [|e es1 IH]; [done|]. cbn [app]. rewrite !find_entry_cons. by case_decide.
Qed.

(** Reading a word in the probing monad. *)
Lemma st_lift_bind_Ok {S E A B} (r : result E A) (f : A → ST S E B) a s :
  r = Ok a → (st_lift r ≫= f) s = f a s.
Proof. intros ->. done. Qed.
Lemma st_modify_bind {S E B} (g : S → S) (f : unit → ST S E B) s :
  (st_modify g ≫= f) s = f tt (g s).
Proof. done. Qed.

Lemma leaf_scan_spec l key n off es p :
  len l ≤ usize_max → parse_leaf_entries l n off = Ok es → sorted_by le_key es →
  ∃ p', leaf_scan l key n off p = (Ok (le_val <$> find_entry key es), p') ∧ missing p' = missing p.
Proof.
  intros Hl. revert off es p; induction n as [|n IH]; intros off es p H Hs; cbn [parse_leaf_entries] in H.
  { injection H as <-. by exists p. }
  apply bind_Ok in H as ([e off'] & He & H). inv_ok. apply sorted_by_cons in Hs as [Hs Hlt].
  unfold parse_leaf_entry in He. apply bind_Ok in He as (kl & Hkl & He).
  apply bind_Ok in He as (vk & Hvk & He). apply bind_Ok in He as (va & Hva & He).
  apply bind_Ok in He as (vb & Hvb & He). apply bind_Ok in He as (k & Hk & He). apply ok_or_Ok in Hk.
  pose proof (get_range_len _ _ _ _ Hk) as (_ & _ & Hend).
  cbn [leaf_scan]. rewrite st_modify_bind. set (p1 := on_stats count_scanned p).
  rewrite (st_lift_bind_Ok _ _ _ _ Hkl), (st_lift_bind_Ok _ _ _ _ Hvk),
    (st_lift_bind_Ok _ _ _ _ Hva), (st_lift_bind_Ok _ _ _ _ Hvb).
  rewrite (st_lift_bind_Ok _ _ (off + 4 + 4 + 4 + 4 + kl)).
  2: { unfold checked_add. rewrite (proj2 (Z.leb_le _ _)) by lia. done. }
  rewrite (st_lift_bind_Ok _ _ k) by (by rewrite Hk). rewrite find_entry_cons.
  assert (le_key e = k) as Hek by (repeat case_match; inv_ok; simplify_eq; done).
  rewrite Hek in Hlt |- *.
  destruct (bytes_cmp k key) eqn:Hcmp.
  - apply bytes_cmp_eq in Hcmp as ->. rewrite decide_True by done.
    destruct (Z.eqb_spec vk VALUE_KIND_INLINE) as [->|].
    + inv_ok. simplify_eq. rewrite st_modify_bind.
      pose proof (get_range_len _ _ _ _ Ha0) as (_ & _ & Hend').
      rewrite (st_lift_bind_Ok _ _ (off + 4 + 4 + 4 + 4 + kl + va)).
      2: { unfold checked_add. rewrite (proj2 (Z.leb_le _ _)) by lia. done. }
      rewrite (st_lift_bind_Ok _ _ a0) by (by rewrite Ha0). eexists. split; [reflexivity|done].
    + destruct (Z.eqb_spec vk VALUE_KIND_EXTERNAL) as [->|]; [|done]. simplify_eq.
      exists (on_stats count_external p1). split; [|done]. by rewrite <- He.
  - rewrite decide_False by (intros ->; by rewrite bytes_cmp_refl in Hcmp).
    destruct (Z.eqb_spec vk VALUE_KIND_INLINE) as [->|].
    + inv_ok. simplify_eq. pose proof (get_range_len _ _ _ _ Ha0) as (_ & _ & Hend').
      rewrite (st_lift_bind_Ok _ _ (off + 4 + 4 + 4 + 4 + kl + va)).
      2: { unfold checked_add. rewrite (proj2 (Z.leb_le _ _)) by lia. done. }
      rewrite (st_lift_bind_Ok _ _ tt) by by rewrite (proj2 (Z.ltb_ge _ _)) by lia.
      destruct (IH _ _ p1 Ha Hs) as (p' & -> & Hm). by exists p'.
    + destruct (Z.eqb_spec vk VALUE_KIND_EXTERNAL) as [->|]; [|done]. simplify_eq.
      destruct (IH _ _ p1 Ha Hs) as (p' & -> & Hm). by exists p'.
  - apply bytes_cmp_gt in Hcmp. rewrite decide_False by (intros ->; by apply bytes_lt_irrefl in Hcmp).
    exists p1. split; [|done]. rewrite find_entry_none; [done|]. intros x Hx Hxk.
    rewrite Forall_forall in Hlt. specialize (Hlt (le_key x) ltac:(by apply list_elem_of_fmap_2)).
    apply (bytes_lt_irrefl key). rewrite Hxk in Hlt. by etrans.
Qed.

Lemma leaf_ref_spec l key leaf p :
  len l ≤ usize_max → parse_leaf_node l = Ok leaf → sorted_by le_key (leaf_entries leaf) →
  ∃ p', leaf_entry_value_ref_for_key l key p =
    (Ok (le_val <$> find_entry key (leaf_entries leaf)), p') ∧ missing p' = missing p.
Proof.
  intros Hl Hn Hs. unfold parse_leaf_node in Hn. inv_ok. simpl in *.
  unfold leaf_entry_value_ref_for_key. rewrite (st_lift_bind_Ok _ _ _ _ Ha). by apply leaf_scan_spec.
Qed.

Lemma find_entry_search key es :
  sorted_by le_key es →
  match binary_search_by es (λ e, bytes_cmp (le_key e) key) with
  | Ok i => es !! i
  | Err _ => None
  end = find_entry key es.
Proof.
  intros Hs. pose proof (binary_search_key le_key es key Hs) as Hb.
  destruct (binary_search_by _ _) as [i|i].
  - destruct Hb as (x & Hx & Hk). rewrite Hx. symmetry.
    apply list_elem_of_lookup_2 in Hx. revert Hs Hx. clear i.
    induction es as [|e es IH]; [by intros _ ?%not_elem_of_nil|].
    intros Hs [->|Hx]%elem_of_cons; rewrite find_entry_cons; [by rewrite decide_True|].
    apply sorted_by_cons in Hs as [Hs Hlt]. rewrite decide_False; [by apply IH|].
    rewrite Forall_forall in Hlt. specialize (Hlt (le_key x) ltac:(by apply list_elem_of_fmap_2)).
    rewrite Hk in Hlt. by apply bytes_lt_ne.
  - destruct Hb as (_ & Hlt & Hge). symmetry. apply find_entry_none.
    intros e [j Hj]%list_elem_of_lookup Hk. apply (bytes_lt_irrefl key). rewrite <- Hk at 1 2.
    destruct (decide (j < i)%nat); [specialize (Hlt j e ltac:(lia) Hj)|specialize (Hge j e ltac:(lia) Hj)];
      by rewrite Hk in *.
Qed.

(** ** Descending in a partly fetched store *)

Section Partial.
Context (store : NavKvStore) {pairs : list NavKvPair} {psize : Z} {pages : list bytes}.
Context {h : nat} {ls : list leaf_ref} {vb : bytes}.
Let root := ns_root store.
Hypothesis Hbuilt : built pairs psize pages root h ls vb.
Hypothesis Hsizes : Forall (λ b, len b ≤ usize_max) pages.
(** Every page in the store is the page of that number. *)
Hypothesis Hpages : ∀ i b, ns_pages store !! i = Some b → get_at pages i = Some b.

Let Hok := built_ok _ _ _ _ _ _ _ Hbuilt.

Lemma page_len i b : ns_pages store !! i = Some b → len b ≤ usize_max.
Proof.
  intros Hi%Hpages. rewrite Forall_forall in Hsizes. apply Hsizes. unfold get_at in Hi.
  destruct (0 <=? i); [|done]. by eapply list_elem_of_lookup_2.
Qed.

(** A page that the store lacks and the built store has. *)
Definition lacks (q : Z) : Prop := 0 ≤ q < len pages ∧ ns_pages store !! q = None.

Lemma limit_pages : value_page_start root ≤ len pages.
Proof. apply (ok_start _ _ _ _ _ Hok). Qed.

Lemma node_page_cases page :
  0 ≤ page < value_page_start root →
  (∃ b, ns_pages store !! page = Some b ∧ ∀ p,
     node_page_bytes_or_record_missing store page p = (Ok (Some b), on_stats count_node_hit p)) ∨
  (lacks page ∧ ∀ p, node_page_bytes_or_record_missing store page p =
     (Ok None, record_missing page (on_stats count_node_miss p))).
Proof.
  intros Hp. unfold node_page_bytes_or_record_missing. pose proof limit_pages.
  rewrite (proj2 (Z.leb_gt _ _)) by (unfold root in *; lia).
  destruct (ns_pages store !! page) as [b|] eqn:Hb; [left|right].
  - by exists b.
  - split; [|done]. split; [lia|done].
Qed.

(** A run that yields [a] and leaves the missing pages alone, or adds [q] to them. *)
Definition quiet {A} (c : ST probe nav_kv_error A) (a : A) : Prop :=
  ∀ p, ∃ p', c p = (Ok a, p') ∧ missing p' = missing p.
Definition asks {A} (c : ST probe nav_kv_error (option A)) (q : Z) : Prop :=
  ∀ p, ∃ p', c p = (Ok None, p') ∧ missing p' = {[q]} ∪ missing p.

(** The outcome of a descent: the leaf that may hold the key, or one more page to
    fetch. *)
Lemma find_leaf_ref_spec fuel h' page ls' key :
  subtree pages (value_page_start root) h' page ls' → sorted_by le_key (entries_of ls') →
  (h' < fuel)%nat →
  (∃ l1 q es l2 b, splits_at key ls' l1 (q, es) l2 ∧ ns_pages store !! q = Some b ∧
     quiet (find_leaf_page_ref_loop fuel store key page) (Some q)) ∨
  (∃ q, lacks q ∧ asks (find_leaf_page_ref_loop fuel store key page) q).
Proof.
  revert h' page ls'; induction fuel as [|fuel IH]; intros h' page ls' Ht Hs Hh; [lia|].
  cbn [find_leaf_page_ref_loop]. pose proof (subtree_page _ _ _ _ _ Ht) as Hrange.
  destruct (node_page_cases page Hrange) as [(b & Hb & Hrun)|[Hl Hrun]].
  2: { right. exists page. split; [done|]. intros p. rewrite ST_bind_unfold, Hrun.
       eexists. split; [reflexivity|done]. }
  pose proof (Hpages _ _ Hb) as Hbp.
  destruct Ht as [page next es (_ & b' & Hb' & Hk & Hl) Hes
                 |h' page cs segs (_ & b' & Hb' & Hk & Hn) Hcs Hne]; simplify_eq.
  - left. exists [], page, es, [], b'. split_and!; [|done|].
    + split_and!; [done|by intros ? ?%not_elem_of_nil..].
    + intros p. rewrite ST_bind_unfold, Hrun, (st_lift_bind_Ok _ _ _ _ Hk).
      by exists (on_stats count_node_hit p).
  - destruct (pivot_choice pages (value_page_start root) h' cs segs key Hcs Hne Hs)
      as (c & seg & segs1 & segs2 & Hc & Hsub & Heq & Hlo & Hhi).
    assert (internal_child_for_key_ref b' key = Ok c) as Hchild.
    { eapply internal_child_ref; [by eapply page_len|exact Hn| |exact Hc]. eapply pivots_sorted; done. }
    subst segs. rewrite concat_app in Hs |- *. simpl in Hs |- *. rewrite !entries_of_app in Hs.
    destruct (IH h' c seg Hsub) as
      [(l1 & q & es & l2 & b2 & (-> & Hlo' & Hhi') & Hq & Hrec)|(q & Hq & Hrec)].
    { eapply sorted_app_l, sorted_app_r, Hs. }
    { lia. }
    1: left; exists (concat segs1 ++ l1), q, es, (l2 ++ concat segs2), b2; split_and!; [|done|];
      [split_and!; [by rewrite <- !app_assoc| |]; intros e; rewrite entries_of_app, elem_of_app; naive_solver|].
    2: right; exists q; split; [done|].
    all: intros p; rewrite ST_bind_unfold, Hrun, (st_lift_bind_Ok _ _ _ _ Hk);
      change (NODE_KIND_INTERNAL =? NODE_KIND_LEAF) with false; rewrite Z.eqb_refl;
      rewrite (st_lift_bind_Ok _ _ _ _ Hchild); apply (Hrec (on_stats count_node_hit p)).
Qed.

Lemma find_entry_ref_spec fuel key :
  (h < fuel)%nat →
  quiet (find_leaf_entry_ref fuel store key) (le_val <$> find_entry key (entries_of ls)) ∨
  (∃ q, lacks q ∧ asks (find_leaf_entry_ref fuel store key) q).
Proof.
  intros Hf. unfold find_leaf_entry_ref, find_leaf_page_for_key_ref. fold root.
  destruct (find_leaf_ref_spec fuel h (root_page root) ls key (ok_tree _ _ _ _ _ Hok)
    (ok_sorted _ _ _ _ _ Hok) Hf)
    as [(l1 & q & es & l2 & b & (Hls & Hlo & Hhi) & Hq & Hrun)|(q & Hq & Hrun)].
  2: { right. exists q. split; [done|]. intros p. destruct (Hrun p) as (p' & Hp & Hm).
       rewrite ST_bind_unfold, Hp. by exists p'. }
  left. intros p. destruct (Hrun p) as (p' & Hp & Hm). rewrite ST_bind_unfold, Hp.
  pose proof (ok_chain _ _ _ _ _ Hok) as Hc. pose proof (ok_sorted _ _ _ _ _ Hok) as Hs.
  rewrite Hls in Hc. apply chain_app in Hc as [(Hrange & b' & Hb' & _ & Hl) _].
  rewrite Hls, entries_of_app, entries_of_cons in Hs.
  assert (b' = b) as -> by (pose proof (Hpages _ _ Hq); congruence).
  destruct (node_page_cases q Hrange) as [(b2 & Hb2 & Hn)|[[_ Hl2] _]]; [|congruence].
  assert (b2 = b) as -> by congruence. rewrite ST_bind_unfold, Hn.
  edestruct (leaf_ref_spec b key _ (on_stats count_node_hit p') (page_len _ _ Hq) Hl)
    as (p2 & Hp2 & Hm2); [eapply sorted_app_l, sorted_app_r, Hs|].
  exists p2. split; [|by rewrite Hm2]. simpl in Hp2. rewrite Hp2. do 3 f_equal.
  rewrite Hls, entries_of_app, entries_of_cons, !find_entry_app.
  rewrite (find_entry_none key (entries_of l1)), (find_entry_none key (entries_of l2)).
  - by destruct (find_entry key es).
  - intros e He Hk. apply Hhi in He. rewrite Hk in He. by apply bytes_lt_irrefl in He.
  - intros e He Hk. apply Hlo in He. rewrite Hk in He. by apply bytes_lt_irrefl in He.
Qed.

(** *** Values *)

Abbreviation page_of i := (wrap32 (value_page_start root + i)).
Abbreviation value_index i := (0 ≤ i ∧ i * page_size root < len vb).

Lemma page_of_eq i :
  value_index i → page_of i = value_page_start root + i ∧ 0 ≤ page_of i < len pages.
Proof.
  intros [Hi Hlt]. destruct (page_bound pages root h ls vb Hok i Hi Hlt) as [Hb Hg].
  pose proof (ok_page_size _ _ _ _ _ Hok). pose proof (ok_start _ _ _ _ _ Hok).
  apply get_at_Some in Hg. rewrite wrap32_small by (unfold in_u32; nia). lia.
Qed.

Lemma probe_value_pages_spec idx p :
  Forall (λ i, value_index i) idx →
  ∃ p', probe_value_pages store idx p = (Ok tt, p') ∧
    (∀ q, q ∈ missing p' ↔ q ∈ missing p ∨ ∃ i, i ∈ idx ∧ q = page_of i ∧ lacks q).
Proof.
  intros His. revert p; induction His as [|i idx Hi _ IH]; intros p.
  { exists p. split; [done|]. intros q. split; [auto|]. intros [?|(i & ?%not_elem_of_nil & _)]; done. }
  destruct (page_of_eq i Hi) as [Heq Hrange]. cbn [probe_value_pages]. rewrite ST_bind_unfold.
  unfold value_page_present_or_record_missing. fold root.
  destruct (ns_pages store !! page_of i) as [b|] eqn:Hb; rewrite st_modify_bind; cbn [mret ST_ret].
  - destruct (IH (on_stats count_value_hit p)) as (p' & -> & Hm). exists p'. split; [done|].
    intros q. rewrite Hm. setoid_rewrite elem_of_cons. split; [naive_solver|].
    intros [?|(j & [->|Hj] & -> & Hl)]; [by left| |right; by exists j].
    destruct Hl as [_ Hl]. congruence.
  - destruct (IH (record_missing (page_of i) (on_stats count_value_miss p))) as (p' & -> & Hm).
    exists p'. split; [done|]. intros q. rewrite Hm. simpl. rewrite elem_of_union, elem_of_singleton.
    setoid_rewrite elem_of_cons. split.
    + intros [[->|?]|(j & ? & ?)]; [|by left|right; exists j; auto].
      right. exists i. split_and!; [by left|done|done..].
    + intros [?|(j & [->|Hj] & -> & Hl)]; [by left; right|by left; left|right; by exists j].
Qed.

(** With every page at hand, the borrowed read returns what the reader returns. *)
Lemma read_borrowed_spec start end_ idx x p :
  Forall (λ i, is_Some (ns_pages store !! page_of i)) idx →
  outcome (read_value_pages (λ page (s : unit), (get_at pages page, s)) root start end_ idx) (Ok x) →
  ∃ p', read_borrowed_pages store start end_ idx p = (Ok (Some x), p') ∧ missing p' = missing p.
Proof.
  intros His. revert x p; induction His as [|i idx [b Hb] _ IH]; intros x p Hx.
  { specialize (Hx tt). injection Hx as <-. by exists p. }
  specialize (Hx tt). cbn [read_value_pages] in Hx. unfold read_value_page in Hx.
  rewrite !ST_bind_unfold in Hx. unfold fetch in Hx at 1. rewrite (Hpages _ _ Hb) in Hx. simpl in Hx.
  cbn [read_borrowed_pages]. rewrite ST_bind_unfold. unfold value_page_bytes_or_record_missing.
  fold root. rewrite Hb, st_modify_bind. cbn [mret ST_ret].
  set (a := saturating_sub _ _) in *. set (e := wrap32 (_ - _)) in *.
  destruct (_ || _); [done|]. destruct (get_range b a e) as [sl|]; [|done]. simpl in Hx.
  rewrite ST_bind_unfold in Hx.
  destruct (read_value_pages (λ page (s : unit), (get_at pages page, s)) root start end_ idx tt)
    as [[rest|err] u] eqn:Hrest; [|done].
  injection Hx as <-. rewrite ST_bind_unfold.
  destruct (IH rest (on_stats count_value_hit p)) as (p' & -> & Hm).
  { intros []. by rewrite Hrest. }
  exists p'. done.
Qed.

(** What a lookup may answer. *)
Definition answers (key : bytes) (r : NavKvLookup) : Prop :=
  match r with
  | Hit value => pairs_map pairs !! key = Some value
  | MissingKey => pairs_map pairs !! key = None
  | MissingPages qs => qs ≠ [] ∧ Forall lacks qs
  end.

Lemma find_entry_Some key es e : find_entry key es = Some e → e ∈ es ∧ le_key e = key.
Proof.
  induction es as [|x es IH]; [done|]. rewrite find_entry_cons. case_decide.
  - intros [= <-]. split; [left|done].
  - intros [? ?]%IH. split; [by right|done].
Qed.
Lemma find_entry_None key es : find_entry key es = None → key ∉ le_key <$> es.
Proof.
  intros H (e & -> & He)%list_elem_of_fmap. induction es as [|x es IH]; [by apply not_elem_of_nil in He|].
  rewrite find_entry_cons in H. case_decide; [done|].
  apply elem_of_cons in He as [->|He]; [done|auto].
Qed.

(** The pairs and the entries agree. *)
Lemma find_entry_pairs key :
  match find_entry key (entries_of ls) with
  | Some e => ∃ v, pairs_map pairs !! key = Some v ∧ entry_value vb e = Some v ∧ external_nonempty e
  | None => pairs_map pairs !! key = None
  end.
Proof.
  pose proof (built_pairs _ _ _ _ _ _ _ Hbuilt) as Hp.
  destruct (find_entry key (entries_of ls)) as [e|] eqn:He.
  - apply find_entry_Some in He as [He <-]. apply list_elem_of_lookup in He as [i Hi].
    destruct (Forall2_lookup_r _ _ _ _ _ Hp Hi) as (p & Hpi & Hk & Hv & Hx & _).
    exists (pair_value p). split_and!; [|done|done]. rewrite Hk. apply pairs_map_elem.
    + eapply pairs_sorted, Hbuilt.
    + by eapply list_elem_of_lookup_2.
  - apply find_entry_None in He. apply not_elem_of_list_to_map. rewrite <- list_fmap_compose.
    by rewrite (entry_for_keys _ _ _ Hp) in He.
Qed.

Lemma external_indices offset n v :
  get_range vb offset (offset + n) = Some v → 0 < n →
  let idx := seqZ (offset `div` page_size root)
    ((offset + n - 1) `div` page_size root - offset `div` page_size root + 1) in
  offset + n ≤ len vb ∧ Forall (λ i, value_index i) idx.
Proof.
  intros Hv Hn idx. apply get_range_len in Hv as (_ & Ho & He). split; [done|].
  apply Forall_forall. intros i Hi%elem_of_seqZ. pose proof (ok_page_size _ _ _ _ _ Hok) as Hps.
  pose proof (Z.div_pos offset (page_size root)).
  pose proof (Z.mul_div_le (offset + n - 1) (page_size root) Hps). nia.
Qed.

Lemma value_bytes_u32 : len vb ≤ u32_max.
Proof.
  pose proof (built_root _ _ _ _ _ _ _ Hbuilt) as (_ & _ & _ & _ & _ & Hv & _).
  rewrite (ok_value_len _ _ _ _ _ Hok) in Hv. apply Hv.
Qed.

(** Probing the pages of an external value finds exactly the missing ones, and the
    value can be read when there are none. *)
Lemma record_external_spec offset n v :
  get_range vb offset (offset + n) = Some v → 0 < n →
  ∃ M : gset Z, (∀ q, q ∈ M → lacks q) ∧
    (∀ p, missing p = ∅ →
       ∃ p', record_missing_external_value_pages store offset n p = (Ok tt, p') ∧ missing p' = M) ∧
    (M = ∅ → quiet (read_external_value_borrowed store offset n) (Some v)).
Proof.
  intros Hv Hn. destruct (external_indices offset n v Hv Hn) as [He His].
  pose proof value_bytes_u32 as Hu. pose proof (ok_value_len _ _ _ _ _ Hok) as Hvl.
  set (idx := seqZ _ _) in His.
  destruct (probe_value_pages_spec idx (fresh_probe default_stats) His) as (p0 & _ & Hm0).
  assert (checked_add u32_max offset n = Some (offset + n)) as Hca
    by (apply checked_add_Some; split; [done|lia]).
  exists (missing p0). split_and!.
  - intros q [Hq|(i & _ & _ & Hl)]%Hm0; [set_solver|done].
  - intros p Hp. unfold record_missing_external_value_pages. fold root.
    rewrite (proj2 (Z.eqb_neq n 0)), Hca, (st_lift_bind_Ok _ _ (offset + n)) by (done || lia).
    rewrite Hvl, (proj2 (Z.ltb_ge _ _)), (st_lift_bind_Ok _ _ tt) by (done || lia).
    destruct (probe_value_pages_spec idx p His) as (p' & Hrun & Hm). exists p'. split; [exact Hrun|].
    apply set_eq. intros q. rewrite Hm, Hm0, Hp. done.
  - intros Hnil p. unfold read_external_value_borrowed. fold root.
    rewrite (proj2 (Z.eqb_neq n 0)), Hca, Hvl, (proj2 (Z.ltb_ge _ _)) by lia.
    apply read_borrowed_spec.
    + apply Forall_forall. intros i Hi. destruct (ns_pages store !! page_of i) as [b|] eqn:Hb; [by eexists|].
      exfalso. assert (page_of i ∈ missing p0) as Hin; [|rewrite Hnil in Hin; set_solver].
      apply Hm0. right. exists i. split; [done|]. split; [done|]. split; [|done].
      rewrite Forall_forall in His. by apply page_of_eq, His.
    + pose proof (read_external_value_outcome (λ page (s : unit), (get_at pages page, s)) pages root h
        ls vb ltac:(done) Hok offset n v Hv) as Hout. unfold read_external_value in Hout.
      rewrite (proj2 (Z.eqb_neq n 0)), Hca in Hout by lia. intros s. specialize (Hout s).
      rewrite ST_bind_unfold in Hout. simpl in Hout.
      rewrite Hvl, (proj2 (Z.ltb_ge _ _)) in Hout by lia. exact Hout.
Qed.

Lemma lacks_list (M : gset Z) : (∀ q, q ∈ M → lacks q) → Forall lacks (set_iter M).
Proof. intros H. apply Forall_forall. intros q Hq%elem_of_set_iter. auto. Qed.

(** A lookup answers [r], and probing the key reports the pages of [r]. *)
Definition reported (r : NavKvLookup) : list Z :=
  match r with MissingPages qs => qs | _ => [] end.
Definition verdict (fuel : nat) (key : bytes) (r : NavKvLookup) : Prop :=
  answers key r ∧ get_bytes fuel store key = Ok r ∧
  ∀ stats, ∃ stats', missing_pages_for_key fuel store key stats = (Ok (reported r), stats').

Lemma verdict_asks fuel key q :
  lacks q → asks (find_leaf_entry_ref fuel store key) q →
  verdict fuel key (MissingPages (set_iter {[q]})).
Proof.
  intros Hq Hasks.
  assert (set_iter {[q]} ≠ []) as Hne by (intros Hnil%set_iter_nil; set_solver). split_and!.
  - split; [done|]. apply lacks_list. intros x Hx. assert (x = q) as -> by set_solver. done.
  - unfold get_bytes. destruct (Hasks (fresh_probe default_stats)) as (p & -> & Hm). simpl in Hm.
    rewrite (right_id_L ∅ (∪)) in Hm. cbn [mbind result_bind]. unfold missing_list. rewrite Hm.
    by destruct (set_iter {[q]}).
  - intros stats. unfold missing_pages_for_key.
    destruct (Hasks (fresh_probe stats)) as (p1 & Hp1 & Hm1). simpl in Hm1.
    rewrite (right_id_L ∅ (∪)) in Hm1. rewrite ST_bind_unfold, Hp1. simpl.
    unfold missing_list. rewrite Hm1. by eexists.
Qed.

Lemma verdict_quiet fuel key o r :
  quiet (find_leaf_entry_ref fuel store key) o → answers key r →
  (o = None ∧ r = MissingKey ∨ ∃ value, o = Some (Inline value) ∧ r = Hit value) →
  verdict fuel key r.
Proof.
  intros Hquiet Hans Ho. split_and!; [done|..].
  - unfold get_bytes. destruct (Hquiet (fresh_probe default_stats)) as (p & -> & Hm). simpl in Hm.
    unfold missing_list. rewrite (proj2 (set_iter_nil (missing p)) Hm).
    by destruct Ho as [[-> ->]|(value & -> & ->)].
  - intros stats. unfold missing_pages_for_key.
    destruct (Hquiet (fresh_probe stats)) as (p1 & Hp1 & Hm1). rewrite ST_bind_unfold, Hp1.
    exists (probe_stats p1). unfold missing_list.
    destruct Ho as [[-> ->]|(value & -> & ->)]; rewrite ST_bind_unfold; simpl;
      by rewrite (proj2 (set_iter_nil (missing p1)) Hm1).
Qed.

Lemma verdict_external fuel key offset n v :
  quiet (find_leaf_entry_ref fuel store key) (Some (External offset n)) →
  pairs_map pairs !! key = Some v → get_range vb offset (offset + n) = Some v → 0 < n →
  ∃ r, verdict fuel key r.
Proof.
  intros Hquiet Hk Hv Hn. destruct (record_external_spec offset n v Hv Hn) as (M & HM & Hrec & Hread).
  exists (match set_iter M with [] => Hit v | qs => MissingPages qs end). split_and!.
  - destruct (set_iter M) eqn:HMl; [done|]. split; [done|]. rewrite <- HMl. by apply lacks_list.
  - unfold get_bytes. destruct (Hquiet (fresh_probe default_stats)) as (p & -> & Hm). cbn [mbind result_bind].
    destruct (Hrec (fresh_probe (probe_stats p)) eq_refl) as (p2 & -> & Hm2). cbn [mbind result_bind].
    unfold missing_list at 1. rewrite Hm2. destruct (set_iter M) eqn:HMl; [|done].
    apply set_iter_nil in HMl. by destruct (Hread HMl p2) as (p3 & -> & _).
  - intros stats. unfold missing_pages_for_key.
    destruct (Hquiet (fresh_probe stats)) as (p1 & Hp1 & Hm1). rewrite ST_bind_unfold, Hp1.
    destruct (Hrec p1 Hm1) as (p2 & Hp2 & Hm2). rewrite ST_bind_unfold, Hp2. simpl.
    unfold missing_list. rewrite Hm2. exists (probe_stats p2). by destruct (set_iter M).
Qed.

Lemma lookup_verdict fuel key : (h < fuel)%nat → ∃ r, verdict fuel key r.
Proof.
  intros Hf. destruct (find_entry_ref_spec fuel key Hf) as [Hquiet|(q & Hq & Hasks)].
  2: { eexists. by eapply verdict_asks. }
  pose proof (find_entry_pairs key) as Hpairs.
  destruct (find_entry key (entries_of ls)) as [e|]; simpl in Hquiet.
  2: { exists MissingKey. eapply verdict_quiet; [done|done|by left]. }
  destruct Hpairs as (v & Hk & Hv & Hx). unfold entry_value, external_nonempty in *.
  destruct (le_val e) as [value|offset n].
  - injection Hv as ->. exists (Hit v). eapply verdict_quiet; [done|done|right; by exists v].
  - by eapply verdict_external.
Qed.

(** Probing several keys. *)
Lemma missing_pages_loop_spec fuel keys acc stats :
  (h < fuel)%nat → (∀ q, q ∈ acc → lacks q) →
  ∃ M stats', missing_pages_loop fuel store acc keys stats = (Ok M, stats') ∧
    (∀ q, q ∈ M → lacks q) ∧ acc ⊆ M ∧
    (∀ key r, key ∈ keys → get_bytes fuel store key = Ok r → ∀ q, q ∈ reported r → q ∈ M).
Proof.
  intros Hf. revert acc stats; induction keys as [|key keys IH]; intros acc stats Hacc.
  { exists acc, stats. split_and!; [done|done|done|]. by intros key r ?%not_elem_of_nil. }
  destruct (lookup_verdict fuel key Hf) as (r & Hans & Hget & Hprobe).
  cbn [missing_pages_loop]. rewrite st_modify_bind, ST_bind_unfold.
  destruct (Hprobe (count_key stats)) as (stats1 & ->).
  destruct (IH (acc ∪ list_to_set (reported r)) stats1) as (M & stats' & -> & HM & Hsub & Hkeys).
  { intros q [?|Hq%elem_of_list_to_set]%elem_of_union; [auto|].
    destruct r as [| |qs]; simpl in Hq; try by apply not_elem_of_nil in Hq.
    destruct Hans as [_ Hall]. rewrite Forall_forall in Hall. auto. }
  exists M, stats'. split_and!; [done|done|set_solver|].
  intros key' r' [->|Hk]%elem_of_cons Hr' q Hq; [|by eapply Hkeys].
  assert (r' = r) as -> by congruence. set_solver.
Qed.
End Partial.

(** ** Prefix scans of a partly fetched store *)

Section PartialScan.
Context (store : NavKvStore) (pages : list bytes).
Hypothesis Hpages : ∀ i b, ns_pages store !! i = Some b → get_at pages i = Some b.
Hypothesis Hcount : page_count (ns_root store) = len pages.

(** A run either stops at a page the store lacks, which it records, or agrees with
    the run that has every page. *)
Definition partial {A} (c : ST (gset Z) read_failure A) (c' : ST unit read_failure A)
    (Q : A → Prop) : Prop :=
  ∀ m, m ⊆ (c m).2 ∧ (∀ q, q ∈ (c m).2 → q ∈ m ∨ lacks store (pages := pages) q) ∧
    (∀ a, (c m).1 = Ok a → Q a) ∧
    (((c m).1 = Err Absent ∧ ∃ q, q ∈ (c m).2 ∧ lacks store (pages := pages) q) ∨
     outcome c' (c m).1).

Lemma partial_bind {A B} (c : ST (gset Z) _ A) c' (f : A → ST (gset Z) _ B) f'
    (Q : A → Prop) (Q' : B → Prop) :
  partial c c' Q → (∀ a, Q a → partial (f a) (f' a) Q') → partial (c ≫= f) (c' ≫= f') Q'.
Proof.
  intros Hc Hf m. rewrite ST_bind_unfold. destruct (Hc m) as (Hsub & Hin & HQ & Hout).
  destruct (c m) as [[a|e] m1]; simpl in *.
  - destruct Hout as [[? _]|Hout]; [done|].
    destruct (Hf a (HQ a eq_refl) m1) as (Hsub' & Hin' & HQ' & Hout').
    split_and!; [set_solver| |done|].
    + intros q [?|?]%Hin'; auto.
    + destruct Hout' as [?|Hout']; [by left|]. right. by eapply outcome_bind.
  - split_and!; [done..|]. destruct Hout as [[[= ->] Hq]|Hout]; [by left|].
    right. by apply outcome_bind_err.
Qed.

#[local] Instance partial_sim :
  ReadSim (page_bytes_or_record_missing store) (λ page (s : unit), (get_at pages page, s))
    (page_count (ns_root store)) (@partial).
Proof.
  split.
  - intros A a Q HQ m. simpl. split_and!; [done|auto|by intros ? [= <-]|by right].
  - intros A e Q m. simpl. split_and!; [done|auto|done|by right].
  - intros. by eapply partial_bind.
  - intros page Hp m. rewrite Hcount in Hp. unfold fetch, page_bytes_or_record_missing.
    destruct (ns_pages store !! page) as [b|] eqn:Hb; simpl.
    + split_and!; [done|auto|done|]. right. intros s. by rewrite (Hpages _ _ Hb).
    + assert (lacks store (pages := pages) page) as Hl by done.
      split_and!; [set_solver| |done|].
      * intros q [->%elem_of_singleton|?]%elem_of_union; auto.
      * left. split; [done|]. exists page. split; [set_solver|done].
Qed.

Lemma partial_scan pairs psize h ls vb fuel links prefix :
  built pairs psize pages (ns_root store) h ls vb → keys_utf8 pairs →
  (length pages ≤ fuel)%nat → (length pages ≤ links)%nat →
  keys_with_prefix_lookup fuel links store prefix = Ok (Hit (join_lines (keys_matching prefix pairs))) ∨
  ∃ qs, keys_with_prefix_lookup fuel links store prefix = Ok (MissingPages qs) ∧ qs ≠ [] ∧
    Forall (lacks store (pages := pages)) qs.
Proof.
  intros Hbuilt Hutf8 Hf Hl. unfold keys_with_prefix_lookup.
  pose proof (sim_prefix_keys _ _ _ (@partial) (built_root _ _ _ _ _ _ _ Hbuilt) fuel links prefix ∅)
    as (_ & Hin & _ & Hout).
  destruct (prefix_keys _ fuel links (ns_root store) prefix ∅) as [r m]; simpl in *.
  destruct Hout as [(-> & q & Hq & Hlq)|Hout].
  - right. assert (set_iter m ≠ []) as Hne by (intros Hnil%set_iter_nil; set_solver).
    exists (set_iter m). split_and!; [by destruct (set_iter m)|done|].
    apply Forall_forall. intros x Hx%elem_of_set_iter. destruct (Hin x Hx); [set_solver|done].
  - left. pose proof (built_prefix_keys (λ page (s : unit), (get_at pages page, s)) (λ _ _, eq_refl)
      Hbuilt Hutf8 fuel Hf links Hl prefix tt) as Hp.
    rewrite (Hout tt) in Hp. by subst r.
Qed.
End PartialScan.

(** ** Lines *)

Definition no_newline (l : bytes) : Prop := x0a ∉ l ∧ x0d ∉ l.

Lemma lines_from_app cur key rest :
  x0a ∉ key → lines_from cur (key ++ rest) = lines_from (cur ++ key) rest.
Proof.
  revert cur; induction key as [|b key IH]; intros cur Hn; [by rewrite app_nil_r|].
  apply not_elem_of_cons in Hn as [Hb Hn]. cbn [app lines_from].
  rewrite bool_decide_eq_false_2 by congruence. rewrite IH by done. by rewrite <- app_assoc.
Qed.

Lemma strip_cr_id key : x0d ∉ key → strip_cr key = key.
Proof.
  intros Hn. unfold strip_cr. destruct (reverse key) as [|b rest] eqn:Hr; [done|].
  rewrite bool_decide_eq_false_2; [done|]. intros ->. apply Hn.
  rewrite <- elem_of_reverse, Hr. by left.
Qed.

Lemma lines_join keys :
  Forall (λ k, k ≠ [] ∧ no_newline k) keys → lines (join_lines keys) = keys.
Proof.
  unfold lines. induction 1 as [|key keys (Hne & Hn & Hr) _ IH]; [done|]. destruct keys as [|key2 keys].
  - cbn [join_lines]. rewrite <- (app_nil_r key) at 1. rewrite lines_from_app by done. by destruct key.
  - cbn [join_lines]. rewrite lines_from_app by done. cbn [lines_from app].
    rewrite bool_decide_eq_true_2, strip_cr_id by done. f_equal. exact IH.
Qed.

Lemma join_valid keys :
  Forall (λ k, utf8_valid k = true) keys → utf8_valid (join_lines keys) = true.
Proof.
  induction 1 as [|key keys Hk _ IH]; [done|]. destruct keys as [|key2 keys]; [done|].
  cbn [join_lines]. apply utf8_valid_app; [done|].
  apply (utf8_valid_app [x0a]); [by vm_compute|exact IH].
Qed.

(** ** Properties *)

(** A store that holds some of the pages of a built store. *)
Definition holds_pages_of (store : NavKvStore) (out : NavKvBuildOutput) : Prop :=
  parse_root (bo_root_bytes out) = Ok (ns_root store) ∧
  ∀ i b, ns_pages store !! i = Some b → get_at (bo_pages out) i = Some b.
(** A page number of the built store that the store does not hold yet. *)
Definition still_missing (store : NavKvStore) (out : NavKvBuildOutput) (q : Z) : Prop :=
  0 ≤ q < len (bo_pages out) ∧ ns_pages store !! q = None.

Lemma built_of_store pairs psize extra out store :
  build_nav_kv_strict_with_extra_prefetch_keys pairs psize extra = Ok out →
  in_u32 psize → keys_utf8 pairs → holds_pages_of store out →
  ∃ h ls vb, built pairs psize (bo_pages out) (ns_root store) h ls vb ∧
    Forall (λ b, len b ≤ usize_max) (bo_pages out).
Proof.
  intros Hb Hps Hutf8 [Hr _]. destruct (build_spec _ _ _ _ Hb Hps Hutf8)
    as (root & h & ls & vb & Hr' & Hbuilt & _). rewrite Hr in Hr'. injection Hr' as <-.
  exists h, ls, vb. split; [done|]. eapply Forall_impl; [by eapply build_pages_sized|].
  intros b Hlen. unfold in_u32, u32_max, usize_max, u64_max in *. simpl in Hlen. lia.
Qed.

(** What a lookup in a partly fetched store gives. *)
Lemma get_bytes_built (pairs : list NavKvPair) (psize : Z) (extra : list NavKvPrefetch)
  (out : NavKvBuildOutput) (store : NavKvStore) (fuel : nat) (key : bytes)
  (Hb : build_nav_kv_strict_with_extra_prefetch_keys pairs psize extra = Ok out)
  (Hps : in_u32 psize) (Hutf8 : keys_utf8 pairs) (Hstore : holds_pages_of store out)
  (Hfuel : (length (bo_pages out) ≤ fuel)%nat) :
  (∃ value, get_bytes fuel store key = Ok (Hit value) ∧ pairs_map pairs !! key = Some value) ∨
  (get_bytes fuel store key = Ok MissingKey ∧ pairs_map pairs !! key = None) ∨
  (∃ qs, get_bytes fuel store key = Ok (MissingPages qs) ∧ qs ≠ [] ∧
     Forall (still_missing store out) qs).
Proof.
  destruct (built_of_store _ _ _ _ _ Hb Hps Hutf8 Hstore) as (h & ls & vb & Hbuilt & Hsz).
  pose proof (built_height _ _ _ _ _ _ _ Hbuilt). destruct Hstore as [_ Hp].
  destruct (lookup_verdict store Hbuilt Hsz Hp fuel key) as ([value| |qs] & Hans & Hg & _); [lia|..].
  - left. by exists value.
  - right. by left.
  - right. right. exists qs. destruct Hans as [Hne Hall]. done.
Qed.

(** C6: a lookup in a partly fetched store never fails: it returns the value the key
    had in the pairs, or says that the key was not among them, or names at least one
    page to fetch, each of them a page of the store that is not held yet. *)
Theorem store_lookup (pairs : list NavKvPair) (psize : Z) (extra : list NavKvPrefetch)
  (out : NavKvBuildOutput) (store : NavKvStore) (fuel : nat) (key : bytes)
  (Hb : build_nav_kv_strict_with_extra_prefetch_keys pairs psize extra = Ok out)
  (Hps : in_u32 psize) (Hutf8 : keys_utf8 pairs) (Hstore : holds_pages_of store out)
  (Hfuel : (length (bo_pages out) ≤ fuel)%nat) :
  (∃ value, get_bytes fuel store key = Ok (Hit value) ∧ pairs_map pairs !! key = Some value) ∨
  (get_bytes fuel store key = Ok MissingKey ∧ pairs_map pairs !! key = None) ∨
  (∃ qs, get_bytes fuel store key = Ok (MissingPages qs) ∧ qs ≠ [] ∧
     Forall (still_missing store out) qs).
Proof. by eapply get_bytes_built. Qed.

(** The probe of a list of keys reports pages that are not held yet, covers the
    pages each lookup would ask for, and reports nothing only when every key of the list
    can be answered. *)
Theorem store_probe (pairs : list NavKvPair) (psize : Z) (extra : list NavKvPrefetch)
  (out : NavKvBuildOutput) (store : NavKvStore) (fuel : nat) (keys : list bytes)
  (Hb : build_nav_kv_strict_with_extra_prefetch_keys pairs psize extra = Ok out)
  (Hps : in_u32 psize) (Hutf8 : keys_utf8 pairs) (Hstore : holds_pages_of store out)
  (Hfuel : (length (bo_pages out) ≤ fuel)%nat) :
  ∃ qs, missing_pages_for_keys fuel store keys = Ok qs ∧ Forall (still_missing store out) qs ∧
    (∀ key ps, key ∈ keys → get_bytes fuel store key = Ok (MissingPages ps) → ps ⊆ qs) ∧
    (qs = [] → ∀ key, key ∈ keys →
       get_bytes fuel store key =
         Ok (match pairs_map pairs !! key with Some v => Hit v | None => MissingKey end)).
Proof.
  destruct (built_of_store _ _ _ _ _ Hb Hps Hutf8 Hstore) as (h & ls & vb & Hbuilt & Hsz).
  pose proof (built_height _ _ _ _ _ _ _ Hbuilt). destruct Hstore as [_ Hp].
  destruct (missing_pages_loop_spec store Hbuilt Hsz Hp fuel keys ∅ default_stats)
    as (M & stats & Hrun & HM & _ & Hkeys); [lia|set_solver|].
  assert (∀ key ps, key ∈ keys → get_bytes fuel store key = Ok (MissingPages ps) →
    ps ⊆ set_iter M) as Hcover.
  { intros key ps Hk Hg q Hq. apply elem_of_set_iter. by apply (Hkeys key (MissingPages ps)). }
  exists (set_iter M). split_and!; [|by apply lacks_list|done|].
  - unfold missing_pages_for_keys, missing_pages_for_keys_with_stats. by rewrite Hrun.
  - intros Hnil key Hk. destruct (lookup_verdict store Hbuilt Hsz Hp fuel key) as (r & Hans & Hg & _); [lia|].
    rewrite Hg. destruct r as [value| |qs]; simpl in Hans; [by rewrite Hans..|].
    destruct Hans as [Hne _]. specialize (Hcover key qs Hk Hg). rewrite Hnil in Hcover.
    destruct qs as [|q qs]; [done|]. specialize (Hcover q ltac:(left)). by apply not_elem_of_nil in Hcover.
Qed.

(** A prefix scan of a partly fetched store returns the matching keys, one per
    line, or names pages that are not held yet. *)
Theorem store_prefix_scan (pairs : list NavKvPair) (psize : Z) (extra : list NavKvPrefetch)
  (out : NavKvBuildOutput) (store : NavKvStore) (fuel links : nat) (prefix : bytes)
  (Hb : build_nav_kv_strict_with_extra_prefetch_keys pairs psize extra = Ok out)
  (Hps : in_u32 psize) (Hutf8 : keys_utf8 pairs) (Hstore : holds_pages_of store out)
  (Hfuel : (length (bo_pages out) ≤ fuel)%nat) (Hlinks : (length (bo_pages out) ≤ links)%nat)
  (Hlines : Forall (λ p, no_newline (pair_key p)) pairs) :
  (keys_with_prefix_lookup fuel links store prefix =
     Ok (Hit (join_lines (keys_matching prefix pairs))) ∧
   keys_with_prefix fuel links store prefix = keys_matching prefix pairs) ∨
  (∃ qs, keys_with_prefix_lookup fuel links store prefix = Ok (MissingPages qs) ∧ qs ≠ [] ∧
     Forall (still_missing store out) qs).
Proof.
  destruct (built_of_store _ _ _ _ _ Hb Hps Hutf8 Hstore) as (h & ls & vb & Hbuilt & Hsz).
  destruct Hstore as [_ Hp].
  destruct (partial_scan store (bo_pages out) Hp (built_count _ _ _ _ _ _ _ Hbuilt) pairs psize h ls vb
    fuel links prefix Hbuilt Hutf8 Hfuel Hlinks) as [Hhit|(qs & Hq & Hne & Hall)]; [left|right; by exists qs].
  split; [done|]. unfold keys_with_prefix. rewrite Hhit.
  assert (Forall (λ k, utf8_valid k = true ∧ k ≠ [] ∧ no_newline k) (keys_matching prefix pairs)) as Hk.
  { apply Forall_forall. intros k [_ Hk]%list_elem_of_filter. apply list_elem_of_fmap in Hk as (p & -> & Hin).
    rewrite Forall_forall in Hutf8, Hlines. split_and!; [auto| |apply Hlines, Hin..].
    unfold build_nav_kv_strict_with_extra_prefetch_keys in Hb. apply bind_Ok in Hb as ([] & Hval & _).
    apply validate_pairs_Ok in Hval as (_ & _ & Hf & _). rewrite Forall_forall in Hf. by apply Hf. }
  rewrite from_utf8_lossy_valid, lines_join; [done|..].
  - eapply Forall_impl; [exact Hk|]. naive_solver.
  - apply join_valid. eapply Forall_impl; [exact Hk|]. naive_solver.
Qed.

(** Searching a leaf page in place finds the same value as parsing the page and
    searching the parsed entries by bisection, for every page whose keys ascend; the
    search records no missing page. *)
Theorem leaf_scan_equiv (l key : bytes) (leaf : LeafNode) (p : probe)
  (Hl : len l ≤ usize_max) (Hparse : parse_leaf_node l = Ok leaf)
  (Hsorted : sorted_by le_key (leaf_entries leaf)) :
  ∃ p', leaf_entry_value_ref_for_key l key p =
      (Ok (le_val <$> match binary_search_by (leaf_entries leaf) (λ e, bytes_cmp (le_key e) key) with
                      | Ok i => leaf_entries leaf !! i
                      | Err _ => None
                      end), p') ∧
    missing p' = missing p.
Proof. rewrite find_entry_search by done. by apply leaf_ref_spec. Qed.

(** Choosing a child in place agrees with parsing the internal page and bisecting
    its pivots, for every page whose pivots ascend. *)
Theorem internal_child_equiv (l key : bytes) (node : InternalNode) (c : Z)
  (Hl : len l ≤ usize_max) (Hparse : parse_internal_node l = Ok node)
  (Hsorted : StronglySorted bytes_lt (pivots node))
  (Hc : children node !! partition_point (pivots node) (λ p, bytes_leb p key) = Some c) :
  internal_child_for_key_ref l key = Ok c.
Proof. by eapply internal_child_ref. Qed.

(** ** Witnesses: a store that holds the prefetched pages of the sample *)

Definition sample_store : NavKvStore :=
  match parse_root (bo_root_bytes sample_out) with
  | Ok root =>
      foldl (λ store page, match get_at (bo_pages sample_out) page with
                           | Some b => insert_page store page b
                           | None => store
                           end) (new root) (prefetch_pages root)
  | Err _ => new {| entry_count := 0; page_size := 0; root_page := 0; page_count := 0;
                    value_page_start := 0; value_bytes_len := 0; prefetch_pages := [] |}
  end.

Lemma sample_store_holds : holds_pages_of sample_store sample_out.
Proof.
  split; [vm_compute; reflexivity|].
  apply (bool_decide_unpack (map_Forall (λ i b, get_at (bo_pages sample_out) i = Some b)
    (ns_pages sample_store))). vm_compute. exact I.
Qed.

Lemma store_lookup_witness :
  get_bytes 200 sample_store (bs "package/by-id/a") = Ok (Hit (bs "pa")) ∧
  ((∃ value, get_bytes 200 sample_store (bs "airport/KSEA") = Ok (Hit value) ∧
      pairs_map sample_pairs !! bs "airport/KSEA" = Some value) ∨
   (get_bytes 200 sample_store (bs "airport/KSEA") = Ok MissingKey ∧
      pairs_map sample_pairs !! bs "airport/KSEA" = None) ∨
   (∃ qs, get_bytes 200 sample_store (bs "airport/KSEA") = Ok (MissingPages qs) ∧ qs ≠ [] ∧
      Forall (still_missing sample_store sample_out) qs)).
Proof.
  split; [vm_compute; reflexivity|].
  apply (store_lookup sample_pairs 96 sample_extra sample_out sample_store 200 (bs "airport/KSEA")
    sample_build sample_size sample_utf8 sample_store_holds sample_fuel).
Defined.

Lemma store_probe_witness :
  ∃ qs, missing_pages_for_keys 200 sample_store [bs "airport/KSEA"; bs "chart/catalog"] = Ok qs ∧
    Forall (still_missing sample_store sample_out) qs.
Proof.
  destruct (store_probe sample_pairs 96 sample_extra sample_out sample_store 200
    [bs "airport/KSEA"; bs "chart/catalog"] sample_build sample_size sample_utf8 sample_store_holds
    sample_fuel) as (qs & Hq & Hm & _).
  exists qs. split; [exact Hq|exact Hm].
Defined.

Lemma sample_no_newline : Forall (λ p, no_newline (pair_key p)) sample_pairs.
Proof.
  apply (bool_decide_unpack (Forall (λ p, x0a ∉ pair_key p ∧ x0d ∉ pair_key p) sample_pairs)).
  vm_compute. exact I.
Qed.

Lemma store_prefix_scan_witness :
  (keys_with_prefix_lookup 200 200 sample_store (bs "package/by-id/") =
     Ok (Hit (join_lines (keys_matching (bs "package/by-id/") sample_pairs))) ∧
   keys_with_prefix 200 200 sample_store (bs "package/by-id/") =
     keys_matching (bs "package/by-id/") sample_pairs) ∨
  (∃ qs, keys_with_prefix_lookup 200 200 sample_store (bs "package/by-id/") = Ok (MissingPages qs) ∧
     qs ≠ [] ∧ Forall (still_missing sample_store sample_out) qs).
Proof.
  apply (store_prefix_scan sample_pairs 96 sample_extra sample_out sample_store 200 200
    (bs "package/by-id/") sample_build sample_size sample_utf8 sample_store_holds sample_fuel sample_fuel
    sample_no_newline).
Defined.

Definition sample_leaf : LeafNode :=
  {| next_leaf := Some 7;
     leaf_entries := [{| le_key := bs "a"; le_val := Inline (bs "1") |};
                      {| le_key := bs "c"; le_val := External 5 9 |}] |}.
Definition sample_leaf_page : bytes :=
  match encode_leaf_page (leaf_entries sample_leaf) (Some 7) with Ok b => b | Err _ => [] end.

Lemma leaf_scan_equiv_witness :
  ∃ p', leaf_entry_value_ref_for_key sample_leaf_page (bs "c") (fresh_probe default_stats) =
    (Ok (Some (External 5 9)), p').
Proof.
  destruct (leaf_scan_equiv sample_leaf_page (bs "c") sample_leaf (fresh_probe default_stats))
    as (p' & Hp & _).
  - vm_compute. discriminate.
  - vm_compute. reflexivity.
  - repeat constructor.
  - exists p'. exact Hp.
Defined.

Lemma internal_child_equiv_witness :
  ∃ b, encode_internal_page sample_children = Ok b ∧ internal_child_for_key_ref b (bs "n") = Ok 1.
Proof.
  eexists. split; [reflexivity|].
  apply (internal_child_equiv _ (bs "n") {| children := [0; 1; 2]; pivots := [bs "mm"; bs "x"] |}).
  - vm_compute. discriminate.
  - vm_compute. reflexivity.
  - repeat constructor.
  - vm_compute. reflexivity.
Defined.
