(* ===== verification/ProcedureKeys.v ===== *)
(** * Procedure rendezvous keys (crates/product-contracts)

    The cycle-independent identity that joins a procedure NOTAM to published plates:
    its data, its canonical form and the nav-kv key it is looked up under. *)

From Stdlib Require Import Strings.Byte.
From stdpp Require Import base list strings gmap sorting.
From S2P Require Import Prelude Utf8 HadKey.

Local Open Scope Z_scope.

Inductive ProcedureRendezvousKind := Departure | Arrival | Approach.

Record ProcedurePublishedName := { pn_name : bytes; pn_revision : Z }.

Inductive ProcedureRendezvousIdentity :=
| CifpId (procedure_id : bytes)
| PublishedName (published : ProcedurePublishedName)
| TakeoffMinimums.

Record ProcedureRendezvousKey := {
  rk_kind : ProcedureRendezvousKind;
  rk_identity : ProcedureRendezvousIdentity;
  rk_airport_id : option bytes
}.

(** The messages of the validators, with what they print. *)
Inductive procedure_error :=
| RevisionRange (revision : Z)
| NameNotCanonical (name : bytes)
| NoRevision (value : bytes)
| NoName (value : bytes)
| ComponentEmpty (label : bytes)
| ComponentCharacters (label value : bytes)
| ProcedureNotCanonical (procedure_id canonical : bytes)
| ApproachPublishedName
| TakeoffNotDeparture
| ArrivalAirport
| AirportNotCanonical (airport_id canonical : bytes)
| AirportRequired
| PublishedNotDeparture.

#[export] Instance kind_eq_dec : EqDecision ProcedureRendezvousKind.
Proof. solve_decision. Defined.
#[export] Instance published_eq_dec : EqDecision ProcedurePublishedName.
Proof. solve_decision. Defined.
#[export] Instance identity_eq_dec : EqDecision ProcedureRendezvousIdentity.
Proof. solve_decision. Defined.
#[export] Instance rendezvous_eq_dec : EqDecision ProcedureRendezvousKey.
Proof. solve_decision. Defined.

Definition kind_code (k : ProcedureRendezvousKind) : nat :=
  match k with Departure => 0 | Arrival => 1 | Approach => 2 end.
#[export] Instance kind_countable : Countable ProcedureRendezvousKind.
Proof.
  refine (inj_countable kind_code
    (λ n, match n with 0%nat => Some Departure | 1%nat => Some Arrival | _ => Some Approach end) _).
  by intros [].
Defined.
#[export] Instance published_countable : Countable ProcedurePublishedName.
Proof.
  refine (inj_countable' (λ p, (pn_name p, pn_revision p))
    (λ p, {| pn_name := p.1; pn_revision := p.2 |}) _). by intros [].
Defined.
#[export] Instance identity_countable : Countable ProcedureRendezvousIdentity.
Proof.
  refine (inj_countable'
    (λ i, match i with
          | CifpId p => inl p
          | PublishedName p => inr (inl p)
          | TakeoffMinimums => inr (inr tt)
          end)
    (λ s, match s with
          | inl p => CifpId p
          | inr (inl p) => PublishedName p
          | inr (inr tt) => TakeoffMinimums
          end) _). by intros [].
Defined.
#[export] Instance rendezvous_countable : Countable ProcedureRendezvousKey.
Proof.
  refine (inj_countable' (λ k, (rk_kind k, rk_identity k, rk_airport_id k))
    (λ k, {| rk_kind := k.1.1; rk_identity := k.1.2; rk_airport_id := k.2 |}) _). by intros [].
Defined.

(** ** Words *)

(** A test on ASCII characters; a character of several bytes fails it. *)
Definition char_is (p : byte → bool) (c : bytes) : bool :=
  match c with [b] => p b | _ => false end.
Definition all_chars (p : byte → bool) (s : bytes) : bool := forallb (char_is p) (chars s).

Definition is_ascii_alphabetic (b : byte) : bool := is_ascii_uppercase b || is_ascii_lowercase b.

(** [str::split] by a class of characters: the pieces between separators, empty ones
    included. *)
Fixpoint split_loop (sep : bytes → bool) (run : bytes) (cs : list bytes) : list bytes :=
  match cs with
  | [] => [run]
  | c :: cs => if sep c then run :: split_loop sep [] cs else split_loop sep (run ++ c) cs
  end.
Definition split (sep : bytes → bool) (s : bytes) : list bytes := split_loop sep [] (chars s).

(** [words.join(" ")]. *)
Fixpoint join_words (words : list bytes) : bytes :=
  match words with
  | [] => []
  | [word] => word
  | word :: words => word ++ x20 :: join_words words
  end.

(** ** Published names *)

Definition published_procedure_revision (value : bytes) : option Z :=
  if bool_decide (value = bs "1" ∨ value = bs "ONE") then Some 1
  else if bool_decide (value = bs "2" ∨ value = bs "TWO") then Some 2
  else if bool_decide (value = bs "3" ∨ value = bs "THREE") then Some 3
  else if bool_decide (value = bs "4" ∨ value = bs "FOUR") then Some 4
  else if bool_decide (value = bs "5" ∨ value = bs "FIVE") then Some 5
  else if bool_decide (value = bs "6" ∨ value = bs "SIX") then Some 6
  else if bool_decide (value = bs "7" ∨ value = bs "SEVEN") then Some 7
  else if bool_decide (value = bs "8" ∨ value = bs "EIGHT") then Some 8
  else if bool_decide (value = bs "9" ∨ value = bs "NINE") then Some 9
  else None.

Definition canonical_name (name : bytes) : bytes :=
  join_words (to_ascii_uppercase <$> split_whitespace name).

Definition published_validate (p : ProcedurePublishedName) : result procedure_error unit :=
  _ ← guard_err ((pn_revision p =? 0) || (9 <? pn_revision p)) (RevisionRange (pn_revision p));
  let canonical := canonical_name (pn_name p) in
  guard_err
    (bool_decide (canonical = []) || negb (bool_decide (canonical = pn_name p))
     || negb (all_chars (λ b, is_ascii_alphanumeric b || bool_decide (b = x20)) canonical))
    (NameNotCanonical (pn_name p)).

(** The upper-cased alphanumeric words of a text. *)
Definition name_words (value : bytes) : list bytes :=
  to_ascii_uppercase <$>
    filter (λ word, word ≠ []) (split (λ ch, negb (char_is is_ascii_alphanumeric ch)) value).

(** The continuation marker [CONT <digits>] at the end is dropped. *)
Definition drop_continuation (words : list bytes) : list bytes :=
  if (2 <=? len words)
     && bool_decide (words !! (length words - 2)%nat = Some (bs "CONT"))
     && match last words with
        | Some word => negb (bool_decide (word = [])) && all_chars is_ascii_digit word
        | None => false
        end
  then take (length words - 2) words
  else words.

(** [while words.last() is RNAV or OBSTACLE { words.pop(); }]. *)
Definition is_annotation (word : bytes) : bool :=
  bool_decide (word = bs "RNAV") || bool_decide (word = bs "OBSTACLE").
Definition drop_annotations (words : list bytes) : list bytes :=
  reverse (skip_while is_annotation (reverse words)).

Definition published_parse (value : bytes) : result procedure_error ProcedurePublishedName :=
  let words := drop_annotations (drop_continuation (name_words value)) in
  revision ← ok_or (last words ≫= published_procedure_revision) (NoRevision value);
  let words := take (length words - 1) words in
  _ ← guard_err (bool_decide (words = [])) (NoName value);
  let published := {| pn_name := join_words words; pn_revision := revision |} in
  _ ← published_validate published;
  Ok published.

(** ** Canonical components *)

Definition canonical_procedure_component (value label : bytes) : result procedure_error bytes :=
  let value := to_ascii_uppercase (trim value) in
  _ ← guard_err (bool_decide (value = [])) (ComponentEmpty label);
  _ ← guard_err (negb (all_chars (λ b, is_ascii_alphanumeric b || bool_decide (b = x2d)) value))
        (ComponentCharacters label value);
  Ok value.

(** The letter and single digit of an approach runway: [R6] but not [R16]. *)
Definition one_digit_runway (l : bytes) : bool :=
  match l with
  | b0 :: b1 :: rest =>
      is_ascii_alphabetic b0 && byte_in 49 57 (b2z b1)
      && match rest with next :: _ => negb (is_ascii_digit next) | [] => true end
  | _ => false
  end.

Definition canonical_procedure_id (kind : ProcedureRendezvousKind) (value : bytes)
    : result procedure_error bytes :=
  value ← canonical_procedure_component value (bs "procedure ID");
  if negb (bool_decide (kind = Approach)) then Ok value
  else if one_digit_runway value then Ok (take 1 value ++ x30 :: drop 1 value)
  else Ok value.

(** ** Keys *)

(** The two matches of [validate]: the identity, then the scope. *)
Definition validate_identity (k : ProcedureRendezvousKey) : result procedure_error unit :=
  match rk_identity k with
  | CifpId procedure_id =>
      canonical ← canonical_procedure_id (rk_kind k) procedure_id;
      guard_err (negb (bool_decide (canonical = procedure_id)))
        (ProcedureNotCanonical procedure_id canonical)
  | PublishedName published =>
      _ ← guard_err (bool_decide (rk_kind k = Approach)) ApproachPublishedName;
      published_validate published
  | TakeoffMinimums =>
      guard_err (negb (bool_decide (rk_kind k = Departure))) TakeoffNotDeparture
  end.

Definition validate_scope (k : ProcedureRendezvousKey) : result procedure_error unit :=
  match rk_kind k, rk_airport_id k with
  | Arrival, None => Ok tt
  | Arrival, Some _ => Err ArrivalAirport
  | _, Some airport_id =>
      canonical ← canonical_procedure_component airport_id (bs "airport ID");
      guard_err (negb (bool_decide (canonical = airport_id)))
        (AirportNotCanonical airport_id canonical)
  | _, None => Err AirportRequired
  end.

Definition rendezvous_validate (k : ProcedureRendezvousKey) : result procedure_error unit :=
  _ ← validate_identity k; validate_scope k.

(** [key.validate()?; Ok(key)]. *)
Definition checked_key (k : ProcedureRendezvousKey) : result procedure_error ProcedureRendezvousKey :=
  _ ← rendezvous_validate k; Ok k.

Definition airport_scoped (kind : ProcedureRendezvousKind) (airport_id procedure_id : bytes)
    : result procedure_error ProcedureRendezvousKey :=
  _ ← guard_err (bool_decide (kind = Arrival)) ArrivalAirport;
  procedure ← canonical_procedure_id kind procedure_id;
  airport ← canonical_procedure_component airport_id (bs "airport ID");
  checked_key {| rk_kind := kind; rk_identity := CifpId procedure; rk_airport_id := Some airport |}.

Definition shared_arrival (procedure_id : bytes) : result procedure_error ProcedureRendezvousKey :=
  procedure ← canonical_procedure_id Arrival procedure_id;
  checked_key {| rk_kind := Arrival; rk_identity := CifpId procedure; rk_airport_id := None |}.

Definition airport_scoped_published_name (kind : ProcedureRendezvousKind)
    (airport_id published_name : bytes) : result procedure_error ProcedureRendezvousKey :=
  _ ← guard_err (negb (bool_decide (kind = Departure))) PublishedNotDeparture;
  published ← published_parse published_name;
  airport ← canonical_procedure_component airport_id (bs "airport ID");
  checked_key {| rk_kind := kind; rk_identity := PublishedName published;
                 rk_airport_id := Some airport |}.

Definition shared_arrival_published_name (published_name : bytes)
    : result procedure_error ProcedureRendezvousKey :=
  published ← published_parse published_name;
  checked_key {| rk_kind := Arrival; rk_identity := PublishedName published;
                 rk_airport_id := None |}.

Definition airport_scoped_takeoff_minimums (airport_id : bytes)
    : result procedure_error ProcedureRendezvousKey :=
  airport ← canonical_procedure_component airport_id (bs "airport ID");
  checked_key {| rk_kind := Departure; rk_identity := TakeoffMinimums;
                 rk_airport_id := Some airport |}.

Definition NAV_KV_PREFIX : bytes := bs "plate/procedure-rendezvous/by-key/".

Definition kind_text (kind : ProcedureRendezvousKind) : bytes :=
  match kind with
  | Departure => bs "DEPARTURE"
  | Arrival => bs "ARRIVAL"
  | Approach => bs "APPROACH"
  end.

(** The decimal text of a [u8]. *)
Definition u8_text (z : Z) : bytes :=
  let digit d := z2b (48 + d) in
  if z <? 10 then [digit z]
  else if z <? 100 then [digit (z `div` 10); digit (z `mod` 10)]
  else [digit (z `div` 100); digit (z `div` 10 `mod` 10); digit (z `mod` 10)].

Definition identity_text (identity : ProcedureRendezvousIdentity) : bytes :=
  match identity with
  | CifpId procedure_id => bs "CIFP/" ++ upper_component procedure_id
  | PublishedName published =>
      bs "PUBLISHED-NAME/" ++ upper_component (pn_name published) ++ x2f :: u8_text (pn_revision published)
  | TakeoffMinimums => bs "TAKEOFF-MINIMUMS"
  end.

Definition nav_kv_key (k : ProcedureRendezvousKey) : result procedure_error bytes :=
  _ ← rendezvous_validate k;
  let scope := match rk_airport_id k with Some airport => airport | None => bs "SHARED" end in
  Ok (NAV_KV_PREFIX ++ upper_component (kind_text (rk_kind k)) ++ x2f :: upper_component scope
        ++ x2f :: identity_text (rk_identity k)).

(** The examples of the crate's tests. *)
Example published_parse_tests :
  published_parse (bs " Joe Pool Eight (RNAV) ") = Ok {| pn_name := bs "JOE POOL"; pn_revision := 8 |} ∧
  published_parse (bs "SCBBY TWO (RNAV), CONT.1") = Ok {| pn_name := bs "SCBBY"; pn_revision := 2 |} ∧
  published_parse (bs "DALLES ONE (OBSTACLE) (RNAV)") = Ok {| pn_name := bs "DALLES"; pn_revision := 1 |}.
Proof. by vm_compute. Qed.
Example canonical_runway_tests :
  canonical_procedure_id Approach (bs "R6") = Ok (bs "R06") ∧
  canonical_procedure_id Approach (bs "I9R") = Ok (bs "I09R") ∧
  canonical_procedure_id Approach (bs "S3-Y") = Ok (bs "S03-Y") ∧
  canonical_procedure_id Departure (bs "FARM7") = Ok (bs "FARM7").
Proof. by vm_compute. Qed.
Example nav_kv_key_test :
  (airport_scoped Approach (bs " kpae ") (bs " i16r ") ≫= nav_kv_key)
  = Ok (bs "plate/procedure-rendezvous/by-key/APPROACH/KPAE/CIFP/I16R").
Proof. by vm_compute. Qed.
