(* ===== verification/ProcedureKeysCorrect.v ===== *)
(** * Correctness of the procedure rendezvous keys

    Canonical forms are fixed points of the functions that produce them, so the checks
    at the end of the constructors never fail; a published name is parsed back from its
    text; and two valid keys have the same storage key only when they are equal. *)

From Stdlib Require Import Strings.Byte.
From stdpp Require Import base list strings gmap sorting.
From S2P Require Import Prelude Utf8 HadKey ProcedureKeys.

Local Open Scope Z_scope.

(** ** ASCII text *)

Definition ascii (b : byte) : Prop := b2z b < 128.

(** The characters of ASCII text are its bytes. *)
Lemma chars_ascii s : Forall ascii s → chars s = (λ b, [b]) <$> s.
Proof.
  intros Hs. assert (s = concat ((λ b, [b]) <$> s)) as Hc.
  { clear. induction s as [|b s IH]; [done|]. cbn. f_equal. exact IH. }
  unfold chars. rewrite Hc at 1. rewrite utf8_chunks_concat_chars.
  - clear. induction s as [|b s IH]; [done|]. cbn. f_equal. exact IH.
  - apply Forall_fmap. eapply Forall_impl; [done|]. intros b Hb. split; [done|].
    unfold utf8_next, byte_or_0. simpl. by rewrite (proj2 (Z.ltb_lt _ _)).
Qed.

Lemma all_chars_Forall p s : all_chars p s = true → Forall (λ b, p b = true) s.
Proof.
  unfold all_chars. rewrite forallb_forall. intros Hp.
  rewrite <- (utf8_chunks_concat s). apply Forall_concat, Forall_forall. intros c Hc.
  specialize (Hp c (proj1 (list_elem_of_In _ _) Hc)).
  destruct c as [|b [|]]; [done| |done]. by apply Forall_singleton.
Qed.

Lemma Forall_all_chars p s :
  (∀ b, p b = true → ascii b) → Forall (λ b, p b = true) s → all_chars p s = true.
Proof.
  intros Hp Hs. unfold all_chars. rewrite chars_ascii by (eapply Forall_impl; eauto).
  apply forallb_forall. intros c Hc. apply list_elem_of_In, list_elem_of_fmap in Hc as (b & -> & Hb).
  cbn. by eapply Forall_forall in Hs.
Qed.

(** A fact about every byte that satisfies a test, by evaluation. *)
Ltac every_byte p :=
  let Hp := fresh in
  assert (∀ b, p b = true) as Hp by (apply byte_forallb; vm_compute; reflexivity).

(** ** Canonical bytes *)

(** The bytes of canonical components: upper-case letters, digits and hyphens. *)
Definition component_byte (b : byte) : bool := term_byte b || bool_decide (b = x2d).

Lemma component_byte_facts b :
  component_byte b = true →
  ascii b ∧ ascii_upper b = b ∧ is_unreserved b = true ∧ is_whitespace [b] = false ∧
  (is_ascii_alphanumeric b || bool_decide (b = x2d)) = true.
Proof.
  revert b. every_byte (λ b, negb (component_byte b) ||
    ((b2z b <? 128) && bool_decide (ascii_upper b = b) && is_unreserved b
     && negb (is_whitespace [b]) && (is_ascii_alphanumeric b || bool_decide (b = x2d)))).
  intros b Hb. specialize (H b). cbn beta in H. rewrite Hb in H. cbn [negb orb] in H.
  zbool. unfold ascii. rewrite ?negb_true_iff in *. naive_solver.
Qed.

Lemma upper_component_byte b :
  (is_ascii_alphanumeric (ascii_upper b) || bool_decide (ascii_upper b = x2d)) = true →
  component_byte (ascii_upper b) = true.
Proof.
  revert b. every_byte (λ b, negb (is_ascii_alphanumeric (ascii_upper b)
    || bool_decide (ascii_upper b = x2d)) || component_byte (ascii_upper b)).
  intros b Hb. specialize (H b). cbn beta in H. by rewrite Hb in H.
Qed.

Lemma upper_fixed s : Forall (λ b, ascii_upper b = b) s → to_ascii_uppercase s = s.
Proof. induction 1 as [|b s Hb _ IH]; [done|]. unfold to_ascii_uppercase. rewrite fmap_cons. by f_equal. Qed.

(** Text that neither starts nor ends with white space is its own trim. *)
Definition tight (s : bytes) : Prop :=
  Forall ascii s ∧ (∀ b, head s = Some b → is_whitespace [b] = false)
  ∧ (∀ b, last s = Some b → is_whitespace [b] = false).

Lemma skip_while_head {A} (p : A → bool) l :
  (∀ x, head l = Some x → p x = false) → skip_while p l = l.
Proof. destruct l as [|x l]; intros H; [done|]. simpl. by rewrite (H x). Qed.

Lemma trim_tight s : tight s → trim s = s.
Proof.
  intros (Ha & Hh & Hl). unfold trim, trim_chars. rewrite chars_ascii by done.
  rewrite !skip_while_head.
  - rewrite reverse_involutive. clear. induction s as [|b s IH]; [done|]. cbn. by f_equal.
  - intros c Hc. destruct s as [|b s]; [done|]. injection Hc as <-. by apply Hh.
  - rewrite skip_while_head.
    + intros c Hc. rewrite head_reverse, fmap_last in Hc.
      destruct (last s) as [b|] eqn:Hb; [|done]. injection Hc as <-. by apply Hl.
    + intros c Hc. destruct s as [|b s]; [done|]. injection Hc as <-. by apply Hh.
Qed.

Lemma component_tight s : Forall (λ b, component_byte b = true) s → tight s.
Proof.
  intros Hs. repeat split.
  - eapply Forall_impl; [done|]. by intros b (? & _)%component_byte_facts.
  - intros b Hb. eapply (proj1 (Forall_forall _ _)) in Hs; [by apply component_byte_facts in Hs as (_&_&_&?&_)|].
    destruct s; [done|]. injection Hb as ->. left.
  - intros b Hb. eapply (proj1 (Forall_forall _ _)) in Hs; [by apply component_byte_facts in Hs as (_&_&_&?&_)|].
    by apply last_Some_elem_of.
Qed.

Lemma component_upper s : Forall (λ b, component_byte b = true) s → to_ascii_uppercase s = s.
Proof.
  intros Hs. apply upper_fixed. eapply Forall_impl; [done|]. by intros b (_&?&_)%component_byte_facts.
Qed.

(** Such text is its own key component. *)
Lemma upper_component_fixed s :
  Forall (λ b, component_byte b = true) s → upper_component s = s.
Proof.
  intros Hs. unfold upper_component, component.
  rewrite component_upper, trim_tight by auto using component_tight.
  unfold percent_encode_component. induction Hs as [|b s Hb Hs IH]; [done|].
  apply component_byte_facts in Hb as (_&_&Hb&_&_).
  rewrite fmap_cons, Hb. cbn [concat]. cbn. by f_equal.
Qed.

(** ** Canonical components *)

Lemma component_Ok v label w :
  canonical_procedure_component v label = Ok w →
  w ≠ [] ∧ Forall (λ b, component_byte b = true) w.
Proof.
  unfold canonical_procedure_component.
  intros (? & Hne%guard_err_Ok & (? & Hc%guard_err_Ok & [= <-])%bind_Ok)%bind_Ok.
  split; [by apply bool_decide_eq_false in Hne|].
  apply negb_false_iff, all_chars_Forall in Hc. unfold to_ascii_uppercase in *.
  apply Forall_fmap in Hc. apply Forall_fmap. eapply Forall_impl; [done|].
  intros b Hb. by apply upper_component_byte.
Qed.

Lemma component_fixed w label :
  w ≠ [] → Forall (λ b, component_byte b = true) w →
  canonical_procedure_component w label = Ok w.
Proof.
  intros Hne Hw. unfold canonical_procedure_component.
  rewrite trim_tight, component_upper by auto using component_tight.
  rewrite bool_decide_eq_false_2 by done. cbn [guard_err mbind result_bind].
  rewrite Forall_all_chars; [done| |].
  - intros b. every_byte (λ b, negb (is_ascii_alphanumeric b || bool_decide (b = x2d)) || (b2z b <? 128)).
    intros Hb. specialize (H b). cbn beta in H. rewrite Hb in H. unfold ascii. by apply Z.ltb_lt.
  - eapply Forall_impl; [done|]. by intros b (_&_&_&_&?)%component_byte_facts.
Qed.

Lemma runway_padded w : one_digit_runway (take 1 w ++ x30 :: drop 1 w) = false.
Proof.
  destruct w as [|b w]; [done|]. change (take 1 (b :: w) ++ x30 :: drop 1 (b :: w)) with (b :: x30 :: w).
  unfold one_digit_runway. change (byte_in 49 57 (b2z x30)) with false. by rewrite andb_false_r.
Qed.

Lemma procedure_id_Ok kind v w :
  canonical_procedure_id kind v = Ok w →
  w ≠ [] ∧ Forall (λ b, component_byte b = true) w ∧ canonical_procedure_id kind w = Ok w.
Proof.
  unfold canonical_procedure_id.
  intros (u & (Hne & Hu)%component_Ok & Hw)%bind_Ok.
  destruct (negb (bool_decide (kind = Approach))) eqn:Hk; [|destruct (one_digit_runway u) eqn:Hr];
    injection Hw as <-.
  - split; [done|]. split; [done|]. by rewrite component_fixed.
  - assert (Forall (λ b, component_byte b = true) (take 1 u ++ x30 :: drop 1 u)) as Hp.
    { apply Forall_app. split; [by apply Forall_take|]. constructor; [done|]. by apply Forall_drop. }
    assert (take 1 u ++ x30 :: drop 1 u ≠ []) as Hn by by intros [_ ?]%app_eq_nil.
    split; [done|]. split; [done|]. rewrite component_fixed by done. cbn [mbind result_bind].
    by rewrite runway_padded.
  - split; [done|]. split; [done|]. rewrite component_fixed by done. cbn [mbind result_bind].
    by rewrite Hr.
Qed.

(** ** Words *)

Definition is_word (w : bytes) : Prop := w ≠ [] ∧ Forall (λ b, term_byte b = true) w.

Lemma term_byte_facts b :
  term_byte b = true →
  ascii b ∧ ascii_upper b = b ∧ is_whitespace [b] = false ∧ is_ascii_alphanumeric b = true ∧ b ≠ x20.
Proof.
  intros Hb. assert (component_byte b = true) as (?&?&?&?&?)%component_byte_facts
    by (unfold component_byte; by rewrite Hb).
  repeat split; try done; [|by intros ->].
  unfold is_ascii_alphanumeric. unfold term_byte in Hb. by rewrite Hb.
Qed.

Lemma alphanumeric_ascii b : is_ascii_alphanumeric b = true → ascii b.
Proof.
  every_byte (λ b, negb (is_ascii_alphanumeric b) || (b2z b <? 128)).
  intros Hb. specialize (H b). cbn beta in H. rewrite Hb in H. unfold ascii. by apply Z.ltb_lt.
Qed.

Lemma join_words_cons w ws : ws ≠ [] → join_words (w :: ws) = w ++ x20 :: join_words ws.
Proof. by destruct ws. Qed.

Lemma join_words_snoc ws w : ws ≠ [] → join_words (ws ++ [w]) = join_words ws ++ x20 :: w.
Proof.
  induction ws as [|v [|v' ws] IH]; intros Hne; [done|done|].
  rewrite <- app_comm_cons, join_words_cons by done.
  rewrite IH, (join_words_cons v) by done. by rewrite <- app_assoc.
Qed.

Lemma join_words_normalized ws : Forall is_word ws → Forall normalized_byte (join_words ws).
Proof.
  induction 1 as [|w ws [Hne Hw] Hws IH]; [constructor|].
  assert (Forall normalized_byte w) by (eapply Forall_impl; [done|]; by left).
  destruct ws as [|v ws]; [done|]. rewrite join_words_cons by done.
  apply Forall_app. split; [done|]. constructor; [by right|done].
Qed.

Lemma normalized_ascii s : Forall normalized_byte s → Forall ascii s.
Proof.
  intros Hs. eapply Forall_impl; [done|]. intros b [Hb| ->]; [|done].
  by apply term_byte_facts in Hb as [? _].
Qed.

(** Splitting at white space: a word, a word and a space. *)
Lemma split_ws_word run w cs :
  Forall (λ b, term_byte b = true) w →
  split_ws_loop run (((λ b, [b]) <$> w) ++ cs) = split_ws_loop (run ++ w) cs.
Proof.
  intros Hw. revert run. induction Hw as [|b w Hb Hw IH]; intros run; [by rewrite app_nil_r|].
  apply term_byte_facts in Hb as (_&_&Hb&_). rewrite fmap_cons, <- app_comm_cons.
  cbn [split_ws_loop]. rewrite Hb, IH. by rewrite <- app_assoc.
Qed.

Lemma split_whitespace_join ws :
  Forall is_word ws → split_whitespace (join_words ws) = ws.
Proof.
  intros Hws. unfold split_whitespace.
  rewrite chars_ascii by by apply normalized_ascii, join_words_normalized.
  induction Hws as [|w ws [Hne Hw] Hws IH]; [done|].
  destruct ws as [|v ws].
  - cbn [join_words]. rewrite <- (app_nil_r ((λ b, [b]) <$> w)), split_ws_word by done.
    by destruct w.
  - rewrite join_words_cons by done. rewrite fmap_app, split_ws_word, fmap_cons by done.
    cbn [split_ws_loop app]. change (is_whitespace [x20]) with true. cbn match.
    destruct w; [done|]. by rewrite IH.
Qed.

Lemma split_loop_word run w cs :
  Forall (λ b, term_byte b = true) w →
  split_loop (λ ch, negb (char_is is_ascii_alphanumeric ch)) run (((λ b, [b]) <$> w) ++ cs)
  = split_loop (λ ch, negb (char_is is_ascii_alphanumeric ch)) (run ++ w) cs.
Proof.
  intros Hw. revert run. induction Hw as [|b w Hb Hw IH]; intros run; [by rewrite app_nil_r|].
  apply term_byte_facts in Hb as (_&_&_&Hb&_). rewrite fmap_cons, <- app_comm_cons.
  cbn [split_loop char_is]. rewrite Hb. cbn [negb]. rewrite IH. by rewrite <- app_assoc.
Qed.

Lemma word_upper w : is_word w → to_ascii_uppercase w = w.
Proof.
  intros [_ Hw]. apply upper_fixed. eapply Forall_impl; [done|].
  by intros b (_&?&_)%term_byte_facts.
Qed.

Lemma words_upper ws : Forall is_word ws → to_ascii_uppercase <$> ws = ws.
Proof. induction 1; [done|]. rewrite fmap_cons. f_equal; auto using word_upper. Qed.

(** The words of joined words. *)
Lemma name_words_join ws : Forall is_word ws → ws ≠ [] → name_words (join_words ws) = ws.
Proof.
  intros Hws Hne. unfold name_words, split.
  rewrite chars_ascii by by apply normalized_ascii, join_words_normalized.
  rewrite <- (words_upper ws) at 2 by done. f_equal.
  induction Hws as [|w ws [Hw0 Hw] Hws IH]; [done|]. destruct ws as [|v ws].
  - cbn [join_words]. rewrite <- (app_nil_r ((λ b, [b]) <$> w)), split_loop_word by done.
    cbn [split_loop app]. by rewrite filter_cons_True by done.
  - rewrite join_words_cons by done. rewrite fmap_app, split_loop_word, fmap_cons by done.
    cbn [split_loop app char_is]. change (is_ascii_alphanumeric x20) with false. cbn [negb].
    rewrite filter_cons_True by done. f_equal. by apply IH.
Qed.

(** ** Published names *)

Lemma canonical_name_join ws : Forall is_word ws → canonical_name (join_words ws) = join_words ws.
Proof. intros Hws. unfold canonical_name. by rewrite split_whitespace_join, words_upper. Qed.

Lemma join_words_nil ws : Forall is_word ws → join_words ws = [] → ws = [].
Proof.
  intros [|w ws' [Hne _] _]; [done|]. destruct ws' as [|v ws'].
  - cbn. naive_solver.
  - rewrite join_words_cons by done. by intros [_ ?]%app_eq_nil.
Qed.

Lemma name_byte_ascii b : (is_ascii_alphanumeric b || bool_decide (b = x20)) = true → ascii b.
Proof.
  intros [Hb|Hb]%orb_true_iff; [by apply alphanumeric_ascii|]. apply bool_decide_eq_true in Hb. by subst.
Qed.

(** A name made of words, with a revision from 1 to 9, is valid. *)
Lemma validate_words ws revision :
  Forall is_word ws → ws ≠ [] → 1 ≤ revision ≤ 9 →
  published_validate {| pn_name := join_words ws; pn_revision := revision |} = Ok tt.
Proof.
  intros Hws Hne Hr. unfold published_validate. cbn [pn_name pn_revision].
  rewrite (proj2 (Z.eqb_neq revision 0)), (proj2 (Z.ltb_ge 9 revision)) by lia.
  cbn [orb guard_err mbind result_bind]. rewrite canonical_name_join by done.
  rewrite bool_decide_eq_false_2 by (intros ?%join_words_nil; done).
  rewrite bool_decide_eq_true_2 by done. cbn [orb negb].
  rewrite Forall_all_chars; [done|apply name_byte_ascii|].
  eapply Forall_impl; [by apply join_words_normalized|].
  intros b [(_&_&_&Hb&_)%term_byte_facts| ->]; [by rewrite Hb|done].
Qed.

Lemma split_ws_loop_nonempty run cs :
  Forall (λ w, w ≠ []) (split_ws_loop run ((λ b : byte, [b]) <$> cs)).
Proof.
  revert run; induction cs as [|b cs IH]; intros run.
  - cbn. destruct run; [constructor|]. by apply Forall_singleton.
  - rewrite fmap_cons. cbn [split_ws_loop]. destruct (is_whitespace [b]); [|apply IH].
    destruct run; [apply IH|]. by constructor.
Qed.

Lemma upper_normalized b :
  (is_ascii_alphanumeric (ascii_upper b) || bool_decide (ascii_upper b = x20)) = true →
  normalized_byte (ascii_upper b).
Proof.
  intros Hb. destruct (decide (ascii_upper b = x20)) as [->|Hne]; [by right|].
  rewrite bool_decide_eq_false_2, orb_false_r in Hb by done. left.
  assert (component_byte (ascii_upper b) = true) as Hc by (apply upper_component_byte; by rewrite Hb).
  unfold component_byte in Hc. apply orb_true_iff in Hc as [?|Hc]; [done|].
  apply bool_decide_eq_true in Hc. by rewrite Hc in Hb.
Qed.

Lemma join_words_Forall (P : byte → Prop) ws :
  P x20 → (Forall P (join_words ws) ↔ Forall (Forall P) ws).
Proof.
  intros Hsp. induction ws as [|w ws IH]; [by split; constructor|].
  destruct ws as [|v ws].
  - cbn [join_words]. by rewrite Forall_singleton.
  - rewrite join_words_cons by done. rewrite Forall_app, Forall_cons, IH, (Forall_cons _ w). tauto.
Qed.

(** A valid name is made of words. *)
Lemma validate_Ok p :
  published_validate p = Ok tt →
  0 ≤ pn_revision p →
  ∃ ws, Forall is_word ws ∧ ws ≠ [] ∧ pn_name p = join_words ws ∧ 1 ≤ pn_revision p ≤ 9.
Proof.
  destruct p as [name revision]. unfold published_validate. cbn [pn_name pn_revision].
  intros (? & Hr%guard_err_Ok & Hn%guard_err_Ok)%bind_Ok Hpos.
  apply orb_false_iff in Hr as [Hz%Z.eqb_neq Hr%Z.ltb_ge].
  apply orb_false_iff in Hn as [[Hne Heq]%orb_false_iff Hch].
  apply bool_decide_eq_false in Hne. apply negb_false_iff, bool_decide_eq_true in Heq.
  apply negb_false_iff, all_chars_Forall in Hch.
  assert (Forall normalized_byte name) as Hnorm.
  { rewrite <- Heq. unfold canonical_name in Hch |- *.
    apply join_words_Forall in Hch; [|done]. apply join_words_Forall; [by right|].
    rewrite !Forall_fmap in Hch |- *. eapply Forall_impl; [exact Hch|].
    intros w Hw. unfold compose, to_ascii_uppercase in *.
    rewrite Forall_fmap in Hw |- *. eapply Forall_impl; [exact Hw|].
    intros b. apply upper_normalized. }
  assert (Forall is_word (split_whitespace name)) as Hws.
  { unfold split_whitespace. rewrite chars_ascii by by apply normalized_ascii.
    pose proof (split_ws_loop_terms [] name (Forall_nil_2 _) Hnorm) as Ht.
    pose proof (split_ws_loop_nonempty [] name) as Hn0.
    apply Forall_forall. intros w Hw. by split; eapply Forall_forall in Hn0, Ht. }
  exists (split_whitespace name). unfold canonical_name in *. rewrite words_upper in Heq, Hne by done.
  repeat split; try done; [|lia]. intros Hnil. by rewrite Hnil in Hne.
Qed.

(** ** Parsing *)

Lemma split_loop_alphanumeric run cs :
  Forall (λ b, is_ascii_alphanumeric b = true) run →
  Forall (Forall (λ b, is_ascii_alphanumeric b = true))
    (split_loop (λ ch, negb (char_is is_ascii_alphanumeric ch)) run cs).
Proof.
  revert run; induction cs as [|c cs IH]; intros run Hrun; cbn [split_loop].
  - by apply Forall_singleton.
  - destruct (char_is is_ascii_alphanumeric c) eqn:Hc; cbn [negb].
    + apply IH, Forall_app. split; [done|]. destruct c as [|b [|]]; [done| |done].
      by apply Forall_singleton.
    + constructor; [done|]. by apply IH.
Qed.

Lemma name_words_words value : Forall is_word (name_words value).
Proof.
  unfold name_words, split. apply Forall_fmap, Forall_forall.
  intros w [Hne Hw]%list_elem_of_filter.
  pose proof (split_loop_alphanumeric [] (chars value) (Forall_nil_2 _)) as Ha.
  eapply Forall_forall in Ha; [|exact Hw]. split.
  - unfold to_ascii_uppercase. by destruct w.
  - apply Forall_fmap. eapply Forall_impl; [exact Ha|]. intros b. apply ascii_upper_term.
Qed.

Lemma drop_continuation_words ws : Forall is_word ws → Forall is_word (drop_continuation ws).
Proof. unfold drop_continuation. case_match; [apply Forall_take|done]. Qed.

Lemma drop_annotations_words ws : Forall is_word ws → Forall is_word (drop_annotations ws).
Proof.
  unfold drop_annotations. intros Hws. apply Forall_reverse.
  destruct (skip_while_suffix is_annotation (reverse ws)) as [pre Hpre].
  apply Forall_reverse in Hws. rewrite Hpre in Hws. by apply Forall_app in Hws as [_ ?].
Qed.

Lemma revision_word w r :
  published_procedure_revision w = Some r → is_word w ∧ is_annotation w = false ∧ 1 ≤ r ≤ 9.
Proof.
  unfold published_procedure_revision. intros Hr.
  repeat (case_bool_decide as Hw; [injection Hr as <-; destruct Hw as [-> | ->];
    (split; [by split; [done|repeat constructor]|split; [by vm_compute|lia]])|clear Hw]).
  done.
Qed.

(** The name that [parse] builds passes its own check. *)
Lemma published_parse_eq value :
  published_parse value =
    (let words := drop_annotations (drop_continuation (name_words value)) in
     revision ← ok_or (last words ≫= published_procedure_revision) (NoRevision value);
     let words := take (length words - 1) words in
     _ ← guard_err (bool_decide (words = [])) (NoName value);
     Ok {| pn_name := join_words words; pn_revision := revision |}).
Proof.
  unfold published_parse. cbn zeta. set (words := drop_annotations _).
  assert (Forall is_word words) as Hws
    by apply drop_annotations_words, drop_continuation_words, name_words_words.
  destruct (last words ≫= published_procedure_revision) as [r|] eqn:Hr; [|done].
  cbn [ok_or mbind result_bind]. case_bool_decide as Hne; [done|].
  cbn [guard_err]. apply bind_Some in Hr as (w & _ & (_ & _ & Hr)%revision_word).
  rewrite validate_words; [done|by apply Forall_take|done|done].
Qed.

Lemma published_parse_Ok value p :
  published_parse value = Ok p → published_validate p = Ok tt ∧ 1 ≤ pn_revision p ≤ 9.
Proof.
  rewrite published_parse_eq. cbn zeta. set (words := drop_annotations _).
  assert (Forall is_word words) as Hws
    by apply drop_annotations_words, drop_continuation_words, name_words_words.
  intros (r & Hr%ok_or_Ok & (? & Hne%guard_err_Ok & [= <-])%bind_Ok)%bind_Ok.
  apply bind_Some in Hr as (w & _ & (_ & _ & Hr)%revision_word).
  apply bool_decide_eq_false in Hne. split; [|done].
  apply validate_words; [by apply Forall_take|done|done].
Qed.

Lemma drop_continuation_keeps ws w :
  (all_chars is_ascii_digit w = true → last ws ≠ Some (bs "CONT")) →
  drop_continuation (ws ++ [w]) = ws ++ [w].
Proof.
  intros Hc. unfold drop_continuation. rewrite last_snoc.
  destruct (all_chars is_ascii_digit w) eqn:Hd; [|by rewrite !andb_false_r].
  rewrite (bool_decide_eq_false_2 (_ !! _ = _)); [by rewrite andb_false_r|].
  rewrite length_app. cbn [length]. intros Hl. apply (Hc eq_refl). clear Hc.
  rewrite last_lookup. destruct ws as [|v ws]; cbn [length] in *.
  - injection Hl as ->. by vm_compute in Hd.
  - rewrite lookup_app_l in Hl by (cbn; lia).
    by replace (pred (S (length ws))) with (S (length ws) + 1 - 2)%nat by lia.
Qed.

(** ** Storage keys *)

(** The revision of a published name is a [u8]. *)
Definition identity_typed (identity : ProcedureRendezvousIdentity) : Prop :=
  match identity with
  | PublishedName published => 0 ≤ pn_revision published ≤ u8_max
  | _ => True
  end.

Definition not_slash (b : byte) : Prop := b ≠ x2f.

(** A separator that does not occur in the first part determines it. *)
Lemma slash_inj a a' r r' :
  Forall not_slash a → Forall not_slash a' → a ++ x2f :: r = a' ++ x2f :: r' → a = a' ∧ r = r'.
Proof.
  intros Ha Ha'. revert a' Ha'. induction Ha as [|b a Hb Ha IH]; intros a' [|b' a'' Hb' Ha'] Heq;
    cbn [app] in Heq; injection Heq; intros; subst; try done.
  destruct (IH a'' Ha') as [-> ->]; done.
Qed.

Lemma upper_component_not_slash s : Forall not_slash (upper_component s).
Proof.
  unfold upper_component, component. eapply Forall_impl; [apply percent_encode_alphabet|].
  by intros b Hb ->.
Qed.

Lemma words_tight ws : Forall is_word ws → ws ≠ [] → tight (join_words ws).
Proof.
  intros Hws Hne. split; [by apply normalized_ascii, join_words_normalized|].
  split; intros b Hb.
  - destruct Hws as [|w ws' [Hw0 Hw] Hws']; [done|]. destruct w as [|c w]; [done|].
    apply Forall_inv in Hw. assert (b = c) as ->.
    { destruct ws'; cbn in Hb; by injection Hb as ->. }
    by apply term_byte_facts in Hw as (_&_&?&_).
  - destruct ws as [|w ws _] using rev_ind; [done|].
    apply Forall_app in Hws as [_ [Hw0 Hw]%Forall_singleton].
    assert (last w = Some b) as Hl.
    { destruct ws as [|v ws]; [done|]. rewrite join_words_snoc in Hb by done.
      rewrite last_app_cons, last_cons in Hb. by destruct (last w) eqn:E; [|apply last_None in E]. }
    eapply (proj1 (Forall_forall _ _)) in Hw; [by apply term_byte_facts in Hw as (_&_&?&_)|].
    by apply last_Some_elem_of.
Qed.

Lemma words_upper_join ws : Forall is_word ws → to_ascii_uppercase (join_words ws) = join_words ws.
Proof.
  intros Hws. apply upper_fixed. eapply Forall_impl; [by apply join_words_normalized|].
  intros b [(_&?&_)%term_byte_facts| ->]; done.
Qed.

(** The text of a valid identity determines it. *)
Definition identity_valid (kind : ProcedureRendezvousKind) (identity : ProcedureRendezvousIdentity)
    : Prop :=
  match identity with
  | CifpId procedure_id => Forall (λ b, component_byte b = true) procedure_id
  | PublishedName published =>
      ∃ ws, Forall is_word ws ∧ ws ≠ [] ∧ pn_name published = join_words ws
            ∧ 1 ≤ pn_revision published ≤ 9
  | TakeoffMinimums => True
  end.

Lemma digit_text_inj z z' : 1 ≤ z ≤ 9 → 1 ≤ z' ≤ 9 → u8_text z = u8_text z' → z = z'.
Proof.
  intros Hz Hz'. unfold u8_text. rewrite !(proj2 (Z.ltb_lt _ 10)) by lia.
  intros [= Heq]. apply (f_equal b2z) in Heq. rewrite !b2z_z2b, !Z.mod_small in Heq by lia. lia.
Qed.

Lemma identity_text_inj kind i i' :
  identity_valid kind i → identity_valid kind i' → identity_text i = identity_text i' → i = i'.
Proof.
  destruct i as [p|[n r]|], i' as [p'|[n' r']|]; cbn [identity_valid identity_text pn_name pn_revision];
    intros Hi Hi' Heq; try done.
  - apply app_inv_head in Heq. rewrite !upper_component_fixed in Heq by done. by subst.
  - apply app_inv_head in Heq. apply slash_inj in Heq as [Hn Hr]; [|apply upper_component_not_slash..].
    destruct Hi as (ws & Hws & Hne & -> & Hz), Hi' as (ws' & Hws' & Hne' & -> & Hz').
    apply digit_text_inj in Hr as ->; [|done..].
    unfold upper_component in Hn. rewrite !words_upper_join in Hn by done.
    apply component_unambiguous in Hn. rewrite !trim_tight in Hn by by apply words_tight.
    by rewrite Hn.
Qed.

(** What validation establishes. *)
Lemma rendezvous_valid k :
  rendezvous_validate k = Ok tt → identity_typed (rk_identity k) →
  identity_valid (rk_kind k) (rk_identity k) ∧
  match rk_airport_id k with
  | Some airport => rk_kind k ≠ Arrival ∧ Forall (λ b, component_byte b = true) airport
  | None => rk_kind k = Arrival
  end.
Proof.
  destruct k as [kind identity airport]. unfold rendezvous_validate, validate_identity, validate_scope.
  cbn [rk_kind rk_identity rk_airport_id]. intros ([] & Hi & Ha)%bind_Ok Ht. split.
  - destruct identity as [p|p|]; cbn [identity_valid]; [| |done].
    + apply bind_Ok in Hi as (c & (_ & Hc & _)%procedure_id_Ok & Heq%guard_err_Ok).
      apply negb_false_iff, bool_decide_eq_true in Heq. by subst.
    + apply bind_Ok in Hi as (? & _ & Hv). apply validate_Ok; [done|apply Ht].
  - destruct kind, airport as [airport|]; try done;
      (split; [done|]; apply bind_Ok in Ha as (c & (_ & Hc)%component_Ok & Heq%guard_err_Ok);
       apply negb_false_iff, bool_decide_eq_true in Heq; by subst).
Qed.

Lemma kind_text_inj kind kind' :
  upper_component (kind_text kind) = upper_component (kind_text kind') → kind = kind'.
Proof. by destruct kind, kind'. Qed.

#[local] Instance Ok_inj {E A} : Inj (=) (=) (@Ok E A).
Proof. by intros a b [= ->]. Qed.

(** The parts of the constructors pass validation. *)
Lemma scope_canonical kind identity airport label text :
  kind ≠ Arrival → canonical_procedure_component text label = Ok airport →
  validate_scope {| rk_kind := kind; rk_identity := identity; rk_airport_id := Some airport |} = Ok tt.
Proof.
  intros Hk [Hne Ha]%component_Ok. unfold validate_scope. cbn [rk_kind rk_airport_id].
  rewrite component_fixed by done. cbn [mbind result_bind].
  rewrite bool_decide_eq_true_2 by done. by destruct kind.
Qed.

Lemma cifp_canonical kind procedure airport text :
  canonical_procedure_id kind text = Ok procedure →
  validate_identity {| rk_kind := kind; rk_identity := CifpId procedure; rk_airport_id := airport |}
  = Ok tt.
Proof.
  intros (_ & _ & Hp)%procedure_id_Ok. unfold validate_identity. cbn [rk_kind rk_identity].
  rewrite Hp. cbn [mbind result_bind]. by rewrite bool_decide_eq_true_2.
Qed.

Lemma published_canonical kind published airport text :
  kind ≠ Approach → published_parse text = Ok published →
  validate_identity
    {| rk_kind := kind; rk_identity := PublishedName published; rk_airport_id := airport |} = Ok tt.
Proof.
  intros Hk [Hp _]%published_parse_Ok. unfold validate_identity. cbn [rk_kind rk_identity].
  by rewrite bool_decide_eq_false_2.
Qed.

Lemma checked_Ok k : validate_identity k = Ok tt → validate_scope k = Ok tt → checked_key k = Ok k.
Proof. unfold checked_key, rendezvous_validate. by intros -> ->. Qed.

(** ** Properties *)

(** C38: the storage key of a rendezvous key identifies it. Two valid keys stored under the
    same text have the same kind, the same identity and the same airport: no procedure
    can be joined to the plates of another. *)
Theorem rendezvous_key_injective (k k' : ProcedureRendezvousKey) (text : bytes)
    (Ht : identity_typed (rk_identity k)) (Ht' : identity_typed (rk_identity k'))
    (Hk : nav_kv_key k = Ok text) (Hk' : nav_kv_key k' = Ok text) : k = k'.
Proof.
  unfold nav_kv_key in Hk, Hk'. apply bind_Ok in Hk as ([] & Hv & Hk), Hk' as ([] & Hv' & Hk').
  rewrite <- Hk' in Hk. clear Hk' text. apply (inj Ok) in Hk.
  apply rendezvous_valid in Hv as [Hi Ha]; [|done]. apply rendezvous_valid in Hv' as [Hi' Ha']; [|done].
  destruct k as [kind i a], k' as [kind' i' a']. cbn [rk_kind rk_identity rk_airport_id] in *.
  apply app_inv_head in Hk.
  apply slash_inj in Hk as [->%kind_text_inj Hk]; [|apply upper_component_not_slash..].
  apply slash_inj in Hk as [Hscope Htext]; [|apply upper_component_not_slash..].
  apply (identity_text_inj kind') in Htext as ->; [|done..].
  f_equal. destruct a as [a|], a' as [a'|]; [|naive_solver..].
  rewrite !upper_component_fixed in Hscope by naive_solver. by subst.
Qed.

Lemma rendezvous_key_injective_witness :
  ∃ k k' text,
    airport_scoped Approach (bs " kpae ") (bs "r6") = Ok k ∧
    airport_scoped Approach (bs "KPAE") (bs "R06") = Ok k' ∧
    nav_kv_key k = Ok text ∧ nav_kv_key k' = Ok text ∧ k = k'.
Proof.
  set (key := {| rk_kind := Approach; rk_identity := CifpId (bs "R06"); rk_airport_id := Some (bs "KPAE") |}).
  exists key, key, (bs "plate/procedure-rendezvous/by-key/APPROACH/KPAE/CIFP/R06").
  assert (nav_kv_key key = Ok (bs "plate/procedure-rendezvous/by-key/APPROACH/KPAE/CIFP/R06")) as Hk
    by (vm_compute; reflexivity).
  split; [vm_compute; reflexivity|]. split; [vm_compute; reflexivity|].
  split; [exact Hk|]. split; [exact Hk|].
  exact (rendezvous_key_injective key key _ I I Hk Hk).
Defined.

(** A valid published name is parsed back from its text, whichever way the revision is
    written (a digit or its English name). The one text that means something else is
    a digit after the word [CONT], which [parse] takes for a continuation marker. *)
Theorem published_name_roundtrip (p : ProcedurePublishedName) (revision : bytes)
    (Ht : 0 ≤ pn_revision p ≤ u8_max) (Hv : published_validate p = Ok tt)
    (Hr : published_procedure_revision revision = Some (pn_revision p))
    (Hc : all_chars is_ascii_digit revision = true →
          last (split_whitespace (pn_name p)) ≠ Some (bs "CONT")) :
  published_parse (pn_name p ++ x20 :: revision) = Ok p.
Proof.
  apply validate_Ok in Hv as (ws & Hws & Hne & Hn & Hz); [|lia].
  rewrite Hn, split_whitespace_join in Hc by done.
  pose proof Hr as (Hw & Hnot & _)%revision_word.
  rewrite published_parse_eq, Hn, <- join_words_snoc by done.
  rewrite name_words_join; [|by apply Forall_app_2, Forall_singleton|by destruct ws].
  rewrite drop_continuation_keeps by done. unfold drop_annotations.
  rewrite reverse_snoc, skip_while_head by (intros x [= <-]; done).
  rewrite reverse_cons, reverse_involutive, last_snoc. cbn zeta. cbn [mbind option_bind].
  rewrite Hr, length_app. cbn [ok_or mbind result_bind length].
  rewrite Nat.add_sub, take_app_length, bool_decide_eq_false_2 by done. cbn.
  rewrite <- Hn. by destruct p.
Qed.

Lemma published_name_roundtrip_witness :
  published_parse (bs "JOE POOL EIGHT") = Ok {| pn_name := bs "JOE POOL"; pn_revision := 8 |}.
Proof.
  apply (published_name_roundtrip {| pn_name := bs "JOE POOL"; pn_revision := 8 |} (bs "EIGHT")).
  - cbn. unfold u8_max. lia.
  - vm_compute. reflexivity.
  - vm_compute. reflexivity.
  - vm_compute. discriminate.
Defined.

(** The constructors give exactly the key of the canonical parts: the validation at
    their end rejects nothing, so a constructor fails only for the kind it refuses or
    for a part without canonical form. *)
Theorem rendezvous_constructors (kind : ProcedureRendezvousKind) (airport_id text : bytes) :
  let airport := canonical_procedure_component airport_id (bs "airport ID") in
  airport_scoped kind airport_id text =
    (if bool_decide (kind = Arrival) then Err ArrivalAirport else
     procedure ← canonical_procedure_id kind text; airport ← airport;
     Ok {| rk_kind := kind; rk_identity := CifpId procedure; rk_airport_id := Some airport |}) ∧
  shared_arrival text =
    (procedure ← canonical_procedure_id Arrival text;
     Ok {| rk_kind := Arrival; rk_identity := CifpId procedure; rk_airport_id := None |}) ∧
  airport_scoped_published_name kind airport_id text =
    (if bool_decide (kind = Departure) then
       published ← published_parse text; airport ← airport;
       Ok {| rk_kind := kind; rk_identity := PublishedName published; rk_airport_id := Some airport |}
     else Err PublishedNotDeparture) ∧
  shared_arrival_published_name text =
    (published ← published_parse text;
     Ok {| rk_kind := Arrival; rk_identity := PublishedName published; rk_airport_id := None |}) ∧
  airport_scoped_takeoff_minimums airport_id =
    (airport ← airport;
     Ok {| rk_kind := Departure; rk_identity := TakeoffMinimums; rk_airport_id := Some airport |}).
Proof.
  cbn zeta. unfold airport_scoped, shared_arrival, airport_scoped_published_name,
    shared_arrival_published_name, airport_scoped_takeoff_minimums.
  destruct (canonical_procedure_component airport_id _) as [a|] eqn:Ha; split_and!.
  all: try (case_bool_decide as Hk; [|try done]; try done; cbn [negb guard_err mbind result_bind]).
  all: try (destruct (canonical_procedure_id _ text) as [p|] eqn:Hp; [|done]).
  all: try (destruct (published_parse text) as [n|] eqn:Hn; [|done]).
  all: cbn [mbind result_bind]; try done.
  all: apply checked_Ok; eauto using scope_canonical, cifp_canonical.
  all: eauto using scope_canonical, published_canonical with congruence.
  all: subst; eauto using scope_canonical, published_canonical.
Qed.
