(* ===== verification/NotamRecord.v ===== *)
(** * NOTAM records (crates/notam-state, crates/product-contracts)

    Records, mutations, checkpoints and deltas of the NOTAM feed with the validation
    the feed's contract asks for. *)

From Stdlib Require Import Strings.Byte.
From stdpp Require Import base list strings gmap sorting.
From S2P Require Import Prelude Utf8 ProcedureKeys.

Local Open Scope Z_scope.

(** ** Data *)

Inductive NotamSubjectKey :=
| Navaid (id : bytes)
| Airway (id : bytes).

Inductive AirportNotamEffect :=
| AirportClosed | RunwayClosed | AirTrafficServiceUnavailable | ProcedureUnavailable
| RunwayRestricted | RunwayEquipmentUnavailable | NavigationAidUnavailable
| CommunicationUnavailable | AirportServiceUnavailable | TaxiwayClosed | ApronClosed
| ProcedureRestricted | MovementAreaEquipmentUnavailable | SurfaceCondition | WorkInProgress
| RoutineAdvisory | Obstruction | Other.

#[export] Instance subject_eq_dec : EqDecision NotamSubjectKey.
Proof. solve_decision. Defined.
#[export] Instance subject_countable : Countable NotamSubjectKey.
Proof.
  refine (inj_countable' (λ s, match s with Navaid id => inl id | Airway id => inr id end)
    (λ s, match s with inl id => Navaid id | inr id => Airway id end) _). by intros [].
Defined.
#[export] Instance effect_eq_dec : EqDecision AirportNotamEffect.
Proof. solve_decision. Defined.
Definition all_effects : list AirportNotamEffect :=
  [AirportClosed; RunwayClosed; AirTrafficServiceUnavailable; ProcedureUnavailable;
   RunwayRestricted; RunwayEquipmentUnavailable; NavigationAidUnavailable;
   CommunicationUnavailable; AirportServiceUnavailable; TaxiwayClosed; ApronClosed;
   ProcedureRestricted; MovementAreaEquipmentUnavailable; SurfaceCondition; WorkInProgress;
   RoutineAdvisory; Obstruction; Other].
Definition effect_code (e : AirportNotamEffect) : nat :=
  match list_find (eq e) all_effects with Some (i, _) => i | None => 0%nat end.
#[export] Instance effect_countable : Countable AirportNotamEffect.
Proof. refine (inj_countable effect_code (λ n, all_effects !! n) _). by intros []. Defined.

(** Sets are [BTreeSet]s. *)
Record NotamRecord := {
  id : bytes;
  subjects : gset NotamSubjectKey;
  airport_id : option bytes;
  airport_aliases : gset bytes;
  airport_effects : gset AirportNotamEffect;
  procedure_rendezvous_keys : gset ProcedureRendezvousKey;
  notam_keyword : option bytes;
  effective_start_utc : option bytes;
  effective_end_utc : option bytes;
  text : option bytes;
  local_text : option bytes;
  icao_text : option bytes
}.

Record NotamCounters := {
  notam_count : Z;
  airport_notam_count : Z;
  airport_notams_with_multiple_effects : Z;
  airport_notams_with_other_effect : Z
}.
#[export] Instance counters_eq_dec : EqDecision NotamCounters.
Proof. solve_decision. Defined.

Inductive NotamMutation :=
| Upsert (record : NotamRecord)
| Remove (notam_id : bytes).

Record NotamCheckpoint := {
  cp_schema_version : Z;
  cp_product : bytes;
  cp_contract_version : Z;
  cp_state_id : bytes;
  cp_counters : NotamCounters;
  cp_records : list NotamRecord
}.

Record NotamDelta := {
  nd_schema_version : Z;
  nd_product : bytes;
  nd_contract_version : Z;
  nd_from_state_id : bytes;
  nd_to_state_id : bytes;
  nd_counters : NotamCounters;
  nd_mutations : list NotamMutation
}.

(** Errors. The texts the code formats are kept as what they are made of. *)
Inductive notam_message :=
| UnsupportedSchema (schema_version : Z)
| WrongProduct (product : bytes)
| UnsupportedContract (contract_version : Z)
| EncodingFailed (notam_id : bytes)
| InvalidNotamId (notam_id : bytes)
| InvalidAlias (alias : bytes) (airport : option bytes)
| InvalidSubject (subject : NotamSubjectKey)
| UpsertIdMismatch (record_id notam_id : bytes)
| NotStrictlyOrdered (previous next : bytes)
| AlreadyInIndex (notam_id : bytes)
| MissingAirportIndex (notam_id airport : bytes)
| MissingFromIndex (notam_id airport : bytes)
| CountUnderflow | AirportCountUnderflow | MultipleEffectUnderflow | OtherEffectUnderflow
| GroupInput (group bucket_hashes : Z)
| RootInput (group_hashes : Z).

Inductive NotamStateError :=
| Contract (message : notam_message)
| Encoding (message : notam_message)
| InvalidRecord (message : notam_message)
| InvalidOrdering (message : notam_message)
| BaseStateMismatch (expected actual : bytes)
| TargetStateMismatch (expected actual : bytes)
| CounterMismatch (expected actual : NotamCounters)
| Invariant (message : notam_message).

(** ** Constants *)

Definition NOTAM_PRODUCT_ID : bytes := bs "notams".
Definition LIVE_FEEDS_SCHEMA_VERSION : Z := 3.
Definition NOTAM_LIVE_FEED_CONTRACT_VERSION : Z := 9.

(** ** Records *)

(** [BTreeSet<String>] iterates in the order of the bytes. *)
Definition str_iter (s : gset bytes) : list bytes := merge_sort bytes_le (elements s).

Definition airport_ids (r : NotamRecord) : list bytes :=
  option_list (airport_id r) ++ str_iter (airport_aliases r).

Definition has_display_anchor (r : NotamRecord) : bool :=
  match airport_id r with
  | Some value => negb (bool_decide (trim value = []))
  | None => false
  end
  || negb (bool_decide (procedure_rendezvous_keys r = ∅))
  || negb (bool_decide (subjects r = ∅)).

Definition option_or {A} (a b : option A) : option A := match a with Some _ => a | None => b end.

Definition display_text (r : NotamRecord) : option bytes :=
  match option_or (option_or (text r) (local_text r)) (icao_text r) with
  | Some value => if bool_decide (trim value = []) then None else Some (trim value)
  | None => None
  end.

Definition is_displayable (r : NotamRecord) : bool :=
  has_display_anchor r && match display_text r with Some _ => true | None => false end.

Definition notam_id (m : NotamMutation) : bytes :=
  match m with Upsert record => id record | Remove notam_id => notam_id end.

(** ** Validation *)

Definition validate_contract (schema_version : Z) (product : bytes) (contract_version : Z)
    : result NotamStateError unit :=
  _ ← guard_err (negb (schema_version =? LIVE_FEEDS_SCHEMA_VERSION)) (Contract (UnsupportedSchema schema_version));
  _ ← guard_err (negb (bool_decide (product = NOTAM_PRODUCT_ID))) (Contract (WrongProduct product));
  guard_err (negb (contract_version =? NOTAM_LIVE_FEED_CONTRACT_VERSION))
    (Contract (UnsupportedContract contract_version)).

Definition validate_notam_id (i : bytes) : result NotamStateError unit :=
  guard_err (bool_decide (i = []) || negb (bool_decide (trim i = i))) (InvalidRecord (InvalidNotamId i)).

Definition is_upper_or_digit (b : byte) : bool := is_ascii_uppercase b || is_ascii_digit b.

Definition bad_alias (airport : option bytes) (alias : bytes) : bool :=
  bool_decide (airport = None) || bool_decide (Some alias = airport)
  || bool_decide (alias = []) || negb (forallb is_upper_or_digit alias).

Definition validate_airport_aliases (airport : option bytes) (aliases : gset bytes)
    : result NotamStateError unit :=
  try_fold (λ _ alias, guard_err (bad_alias airport alias) (InvalidRecord (InvalidAlias alias airport))) tt
    (str_iter aliases).

Definition ident (s : NotamSubjectKey) : bytes :=
  match s with Navaid i | Airway i => i end.

Definition between (lo hi z : Z) : bool := (lo <=? z) && (z <=? hi).

Definition subject_valid (s : NotamSubjectKey) : bool :=
  match s with
  | Navaid i => between 1 5 (len i) && forallb is_upper_or_digit i
  | Airway i =>
      between 2 5 (len i) &&
      match i with
      | first :: second :: _ =>
          bool_decide (first ∈ bs "VJTQABGR") && forallb is_ascii_digit (drop 1 i)
          && negb (bool_decide (second = x30))
      | _ => false
      end
  end.

(** The derived order of [NotamSubjectKey]. *)
Definition subject_le (s t : NotamSubjectKey) : Prop :=
  match s, t with
  | Navaid a, Navaid b | Airway a, Airway b => bytes_le a b
  | Navaid _, Airway _ => True
  | Airway _, Navaid _ => False
  end.
#[export] Instance subject_le_dec : RelDecision subject_le.
Proof. intros [] []; simpl; apply _. Defined.
Definition subject_iter (s : gset NotamSubjectKey) : list NotamSubjectKey :=
  merge_sort subject_le (elements s).

Fixpoint id_order_loop (previous : option bytes) (ids : list bytes) : result NotamStateError unit :=
  match ids with
  | [] => Ok tt
  | i :: ids =>
      _ ← validate_notam_id i;
      _ ← match previous with
          | Some p => guard_err (bytes_leb i p) (InvalidOrdering (NotStrictlyOrdered p i))
          | None => Ok tt
          end;
      id_order_loop (Some i) ids
  end.
Definition validate_id_order (ids : list bytes) : result NotamStateError unit := id_order_loop None ids.
Definition validate_mutation_order (ms : list NotamMutation) := validate_id_order (notam_id <$> ms).
Definition validate_record_order (rs : list NotamRecord) := validate_id_order (id <$> rs).

Definition normalize_airport_id (value : bytes) : bytes := to_ascii_uppercase (trim value).

Definition checkpoint_new (state_id : bytes) (counters : NotamCounters) (records : list NotamRecord)
    : NotamCheckpoint :=
  {| cp_schema_version := LIVE_FEEDS_SCHEMA_VERSION; cp_product := NOTAM_PRODUCT_ID;
     cp_contract_version := NOTAM_LIVE_FEED_CONTRACT_VERSION; cp_state_id := state_id;
     cp_counters := counters; cp_records := records |}.
Definition delta_new (from_state_id to_state_id : bytes) (counters : NotamCounters)
    (mutations : list NotamMutation) : NotamDelta :=
  {| nd_schema_version := LIVE_FEEDS_SCHEMA_VERSION; nd_product := NOTAM_PRODUCT_ID;
     nd_contract_version := NOTAM_LIVE_FEED_CONTRACT_VERSION; nd_from_state_id := from_state_id;
     nd_to_state_id := to_state_id; nd_counters := counters; nd_mutations := mutations |}.

(** ** Counters

    Each counts records held in memory, so its sums stay far below the width of [u64]. *)

Definition zero_counters : NotamCounters :=
  {| notam_count := 0; airport_notam_count := 0; airport_notams_with_multiple_effects := 0;
     airport_notams_with_other_effect := 0 |}.

Definition flag (b : bool) : Z := if b then 1 else 0.

Definition record_counter_contribution (r : NotamRecord) : NotamCounters :=
  let airport := match airport_id r with
                 | Some value => negb (bool_decide (normalize_airport_id value = []))
                 | None => false
                 end in
  {| notam_count := 1;
     airport_notam_count := flag airport;
     airport_notams_with_multiple_effects := flag (airport && (1 <? Z.of_nat (size (airport_effects r))));
     airport_notams_with_other_effect := flag (airport && bool_decide (Other ∈ airport_effects r)) |}.

Definition add_counters (a b : NotamCounters) : NotamCounters :=
  {| notam_count := notam_count a + notam_count b;
     airport_notam_count := airport_notam_count a + airport_notam_count b;
     airport_notams_with_multiple_effects :=
       airport_notams_with_multiple_effects a + airport_notams_with_multiple_effects b;
     airport_notams_with_other_effect :=
       airport_notams_with_other_effect a + airport_notams_with_other_effect b |}.
Definition add_record_counters (counters : NotamCounters) (r : NotamRecord) : NotamCounters :=
  add_counters counters (record_counter_contribution r).
