(* ===== verification/NotamState.v ===== *)
(** * The NOTAM state (crates/notam-state)

    The records of the feed with the indexes kept beside them: an index from airports
    to record ids, counters, and a two-level Merkle tree whose root names the state.
    The digest (crate sha2) and the record encoding (crate serde_json) are parameters. *)

From Stdlib Require Import Strings.Byte.
From stdpp Require Import base list strings gmap sorting.
From S2P Require Import Prelude Utf8 Search ProcedureKeys NotamRecord.

Local Open Scope Z_scope.

(** ** Constants *)

Definition NOTAM_MERKLE_BUCKET_COUNT : Z := 1024.
Definition NOTAM_MERKLE_GROUP_COUNT : Z := 32.
Definition NOTAM_MERKLE_BUCKETS_PER_GROUP : Z :=
  NOTAM_MERKLE_BUCKET_COUNT `div` NOTAM_MERKLE_GROUP_COUNT.
Definition LEAF_DOMAIN : bytes := bs "aerobag/notams/leaf/v1" ++ [x00].
Definition BUCKET_DOMAIN : bytes := bs "aerobag/notams/bucket/v1" ++ [x00].
Definition GROUP_DOMAIN : bytes := bs "aerobag/notams/group/v1" ++ [x00].
Definition STATE_DOMAIN : bytes := bs "aerobag/notams/state/v1" ++ [x00].

(** ** State *)

(** [Vec]s of fixed length: 1024 buckets and 32 groups. *)
Record NotamMerkleIndex := {
  bucket_members : list (gmap bytes bytes);
  bucket_hashes : list bytes;
  group_hashes : list bytes
}.

Record NotamState := {
  state_id : bytes;
  state_hash : bytes;
  counters : NotamCounters;
  records : gmap bytes NotamRecord;
  by_airport : gmap bytes (list bytes);
  merkle : NotamMerkleIndex
}.

Record NotamApplyWork := {
  mutations_applied : Z;
  canonical_record_lookups : Z;
  secondary_index_removals : Z;
  secondary_index_insertions : Z;
  leaf_hashes_computed : Z;
  bucket_records_hashed : Z;
  bucket_hashes_computed : Z;
  group_hashes_computed : Z;
  roots_computed : Z;
  full_record_collection_iterations : Z;
  full_state_serializations : Z
}.
Definition no_work : NotamApplyWork :=
  {| mutations_applied := 0; canonical_record_lookups := 0; secondary_index_removals := 0;
     secondary_index_insertions := 0; leaf_hashes_computed := 0; bucket_records_hashed := 0;
     bucket_hashes_computed := 0; group_hashes_computed := 0; roots_computed := 0;
     full_record_collection_iterations := 0; full_state_serializations := 0 |}.
(** Increments of the work counters; the last two are never incremented. *)
Definition add_work (ma cl sr si lh br bh gh rc : Z) (w : NotamApplyWork) : NotamApplyWork :=
  {| mutations_applied := mutations_applied w + ma;
     canonical_record_lookups := canonical_record_lookups w + cl;
     secondary_index_removals := secondary_index_removals w + sr;
     secondary_index_insertions := secondary_index_insertions w + si;
     leaf_hashes_computed := leaf_hashes_computed w + lh;
     bucket_records_hashed := bucket_records_hashed w + br;
     bucket_hashes_computed := bucket_hashes_computed w + bh;
     group_hashes_computed := group_hashes_computed w + gh;
     roots_computed := roots_computed w + rc;
     full_record_collection_iterations := full_record_collection_iterations w;
     full_state_serializations := full_state_serializations w |}.

(** [&mut self] and [&mut work]. *)
Record session := { state : NotamState; work : NotamApplyWork }.

Definition on_state (f : NotamState → NotamState) (x : session) : session :=
  {| state := f (state x); work := work x |}.
Definition on_work (f : NotamApplyWork → NotamApplyWork) (x : session) : session :=
  {| state := state x; work := f (work x) |}.

Definition set_records (f : gmap bytes NotamRecord → gmap bytes NotamRecord) (s : NotamState) :=
  {| state_id := state_id s; state_hash := state_hash s; counters := counters s;
     records := f (records s); by_airport := by_airport s; merkle := merkle s |}.
Definition set_airport (f : gmap bytes (list bytes) → gmap bytes (list bytes)) (s : NotamState) :=
  {| state_id := state_id s; state_hash := state_hash s; counters := counters s;
     records := records s; by_airport := f (by_airport s); merkle := merkle s |}.
Definition set_counters (f : NotamCounters → NotamCounters) (s : NotamState) :=
  {| state_id := state_id s; state_hash := state_hash s; counters := f (counters s);
     records := records s; by_airport := by_airport s; merkle := merkle s |}.
Definition set_merkle (f : NotamMerkleIndex → NotamMerkleIndex) (s : NotamState) :=
  {| state_id := state_id s; state_hash := state_hash s; counters := counters s;
     records := records s; by_airport := by_airport s; merkle := f (merkle s) |}.
(** [self.merkle.bucket_members[bucket]] as a place. *)
Definition on_bucket (bucket : Z) (f : gmap bytes bytes → gmap bytes bytes) (m : NotamMerkleIndex) :=
  {| bucket_members := alter f (Z.to_nat bucket) (bucket_members m);
     bucket_hashes := bucket_hashes m; group_hashes := group_hashes m |}.

Abbreviation step := (ST session NotamStateError).

(** ** Subtracting counters

    One field at a time: a field that would go below zero stops the rest. *)
Definition with_notam_count z (c : NotamCounters) : NotamCounters :=
  {| notam_count := z; airport_notam_count := airport_notam_count c;
     airport_notams_with_multiple_effects := airport_notams_with_multiple_effects c;
     airport_notams_with_other_effect := airport_notams_with_other_effect c |}.
Definition with_airport_count z (c : NotamCounters) : NotamCounters :=
  {| notam_count := notam_count c; airport_notam_count := z;
     airport_notams_with_multiple_effects := airport_notams_with_multiple_effects c;
     airport_notams_with_other_effect := airport_notams_with_other_effect c |}.
Definition with_multiple z (c : NotamCounters) : NotamCounters :=
  {| notam_count := notam_count c; airport_notam_count := airport_notam_count c;
     airport_notams_with_multiple_effects := z;
     airport_notams_with_other_effect := airport_notams_with_other_effect c |}.
Definition with_other z (c : NotamCounters) : NotamCounters :=
  {| notam_count := notam_count c; airport_notam_count := airport_notam_count c;
     airport_notams_with_multiple_effects := airport_notams_with_multiple_effects c;
     airport_notams_with_other_effect := z |}.

Definition subtract_field (get : NotamCounters → Z) (set : Z → NotamCounters → NotamCounters)
    (contribution : NotamCounters) (e : NotamStateError) : step unit :=
  x ← st_get;
  z ← st_lift (ok_or (checked_sub (get (counters (state x))) (get contribution)) e);
  st_modify (on_state (set_counters (set z))).

Definition subtract_record_counters (r : NotamRecord) : step unit :=
  let contribution := record_counter_contribution r in
  _ ← subtract_field notam_count with_notam_count contribution (Invariant CountUnderflow);
  _ ← subtract_field airport_notam_count with_airport_count contribution (Invariant AirportCountUnderflow);
  _ ← subtract_field airport_notams_with_multiple_effects with_multiple contribution
        (Invariant MultipleEffectUnderflow);
  subtract_field airport_notams_with_other_effect with_other contribution (Invariant OtherEffectUnderflow).

(** ** The airport index *)

Fixpoint insert_index_loop (i : bytes) (airports : list bytes) : step unit :=
  match airports with
  | [] => mret tt
  | a :: airports =>
      let a := normalize_airport_id a in
      if bool_decide (a = []) then insert_index_loop i airports
      else
        x ← st_get;
        let ids := default [] (by_airport (state x) !! a) in
        match binary_search_by ids (λ y, bytes_cmp y i) with
        | Ok _ => st_err (Invariant (AlreadyInIndex i))
        | Err index =>
            _ ← st_modify (on_state (set_airport (<[a := take index ids ++ i :: drop index ids]>)));
            _ ← st_modify (on_work (add_work 0 0 0 1 0 0 0 0 0));
            insert_index_loop i airports
        end
  end.
Definition insert_into_airport_index (r : NotamRecord) : step unit :=
  insert_index_loop (id r) (airport_ids r).

Fixpoint remove_index_loop (i : bytes) (airports : list bytes) : step unit :=
  match airports with
  | [] => mret tt
  | a :: airports =>
      let a := normalize_airport_id a in
      if bool_decide (a = []) then remove_index_loop i airports
      else
        x ← st_get;
        ids ← st_lift (ok_or (by_airport (state x) !! a) (Invariant (MissingAirportIndex i a)));
        match binary_search_by ids (λ y, bytes_cmp y i) with
        | Err _ => st_err (Invariant (MissingFromIndex i a))
        | Ok index =>
            let ids := delete index ids in
            _ ← st_modify (on_work (add_work 0 0 1 0 0 0 0 0 0));
            _ ← st_modify (on_state (set_airport
                  (if bool_decide (ids = []) then delete a else <[a := ids]>)));
            remove_index_loop i airports
        end
  end.
Definition remove_from_airport_index (r : NotamRecord) : step unit :=
  remove_index_loop (id r) (airport_ids r).

Section Notams.
(** [Sha256::digest] and [serde_json::to_vec]. *)
Context (sha256 : bytes → bytes) (to_vec : NotamRecord → option bytes).

(** ** Hashes *)

(** The bytes fed to the hasher, in order; [update_frame] prefixes a length. *)
Definition frame (l : bytes) : bytes := be_bytes 8 (len l) ++ l.

Definition hash_byte (h : bytes) (i : nat) : Z := b2z (default x00 (h !! i)).
Definition bucket_for_id (i : bytes) : Z :=
  let hash := sha256 i in
  Z.land (Z.lor (Z.shiftl (hash_byte hash 0) 2) (Z.shiftr (hash_byte hash 1) 6))
    (NOTAM_MERKLE_BUCKET_COUNT - 1).

Definition leaf_hash (i canonical : bytes) : bytes :=
  sha256 (LEAF_DOMAIN ++ frame i ++ frame canonical).
Definition bucket_hash (bucket : Z) (members : gmap bytes bytes) : bytes :=
  let members := map_iter members in
  sha256 (BUCKET_DOMAIN ++ be_bytes 2 bucket ++ be_bytes 4 (len members)
          ++ concat ((λ m, frame m.1 ++ m.2) <$> members)).
Definition group_hash (group : Z) (bucket_hashes : list bytes) : bytes :=
  let start := group * NOTAM_MERKLE_BUCKETS_PER_GROUP in
  sha256 (GROUP_DOMAIN ++ [z2b group]
          ++ concat (take (Z.to_nat NOTAM_MERKLE_BUCKETS_PER_GROUP)
                       (drop (Z.to_nat start) bucket_hashes))).
Definition compute_state_hash (group_hashes : list bytes) (c : NotamCounters) : bytes :=
  sha256 (STATE_DOMAIN ++ be_bytes 4 LIVE_FEEDS_SCHEMA_VERSION
          ++ be_bytes 4 NOTAM_LIVE_FEED_CONTRACT_VERSION
          ++ be_bytes 8 (notam_count c) ++ be_bytes 8 (airport_notam_count c)
          ++ be_bytes 8 (airport_notams_with_multiple_effects c)
          ++ be_bytes 8 (airport_notams_with_other_effect c) ++ concat group_hashes).
Definition hash_hex (hash : bytes) : bytes := hex_lower hash.

Definition compute_group_hash (group : Z) (bucket_hashes : list bytes)
    : result NotamStateError bytes :=
  _ ← guard_err ((NOTAM_MERKLE_GROUP_COUNT <=? group)
                 || negb (len bucket_hashes =? NOTAM_MERKLE_BUCKET_COUNT))
        (Invariant (GroupInput group (len bucket_hashes)));
  Ok (group_hash group bucket_hashes).
Definition compute_state_id (group_hashes : list bytes) (c : NotamCounters)
    : result NotamStateError bytes :=
  _ ← guard_err (negb (len group_hashes =? NOTAM_MERKLE_GROUP_COUNT)) (Invariant (RootInput (len group_hashes)));
  Ok (hash_hex (compute_state_hash group_hashes c)).

(** ** The Merkle index *)

(** [0..n]. *)
Definition indices (n : Z) : list Z := seqZ 0 n.

Definition all_bucket_hashes (members : list (gmap bytes bytes)) : list bytes :=
  (λ bucket, bucket_hash bucket (default ∅ (members !! Z.to_nat bucket)))
    <$> indices NOTAM_MERKLE_BUCKET_COUNT.
Definition all_group_hashes (bucket_hashes : list bytes) : list bytes :=
  (λ group, group_hash group bucket_hashes) <$> indices NOTAM_MERKLE_GROUP_COUNT.

Definition merkle_of (members : list (gmap bytes bytes)) : NotamMerkleIndex :=
  let bucket_hashes := all_bucket_hashes members in
  {| bucket_members := members; bucket_hashes := bucket_hashes;
     group_hashes := all_group_hashes bucket_hashes |}.
Definition merkle_empty : NotamMerkleIndex :=
  merkle_of (replicate (Z.to_nat NOTAM_MERKLE_BUCKET_COUNT) ∅).
Definition recompute_all (m : NotamMerkleIndex) : NotamMerkleIndex := merkle_of (bucket_members m).
Definition empty_merkle_hashes : list bytes * list bytes :=
  (bucket_hashes merkle_empty, group_hashes merkle_empty).

(** ** Records *)

Definition canonical_record_bytes (r : NotamRecord) : result NotamStateError bytes :=
  _ ← validate_notam_id (id r);
  _ ← validate_airport_aliases (airport_id r) (airport_aliases r);
  _ ← try_fold (λ _ s, guard_err (negb (subject_valid s)) (InvalidRecord (InvalidSubject s))) tt
        (subject_iter (subjects r));
  ok_or (to_vec r) (Encoding (EncodingFailed (id r))).

Definition record_leaf_hash (r : NotamRecord) : result NotamStateError bytes :=
  canonical ← canonical_record_bytes r;
  Ok (leaf_hash (id r) canonical).

(** ** Full recomputation *)

Definition identity_step (acc : NotamMerkleIndex * NotamCounters) (r : NotamRecord)
    : result NotamStateError (NotamMerkleIndex * NotamCounters) :=
  canonical ← canonical_record_bytes r;
  Ok (on_bucket (bucket_for_id (id r)) (<[id r := leaf_hash (id r) canonical]>) acc.1,
      add_record_counters acc.2 r).
Definition recompute_record_identity (rs : list NotamRecord)
    : result NotamStateError (bytes * NotamCounters) :=
  '(m, c) ← try_fold identity_step (merkle_empty, zero_counters) rs;
  let m := recompute_all m in
  Ok (hash_hex (compute_state_hash (group_hashes m) c), c).
Definition recompute_checkpoint_identity (rs : list NotamRecord)
    : result NotamStateError (bytes * NotamCounters) :=
  _ ← validate_record_order rs;
  recompute_record_identity rs.

(** ** The state *)

Definition notam_empty : NotamState :=
  let m := merkle_empty in
  let h := compute_state_hash (group_hashes m) zero_counters in
  {| state_id := hash_hex h; state_hash := h; counters := zero_counters; records := ∅;
     by_airport := ∅; merkle := m |}.

(** The values of a [BTreeMap], in the order of the keys. *)
Definition record_values (s : NotamState) : list NotamRecord := snd <$> map_iter (records s).

Definition checkpoint (s : NotamState) : NotamCheckpoint :=
  checkpoint_new (state_id s) (counters s) (record_values s).
Definition fully_recomputed_state_id (s : NotamState) : result NotamStateError bytes :=
  fst <$> recompute_record_identity (record_values s).
Definition airport_records (s : NotamState) (a : bytes) : list NotamRecord :=
  omap (λ i, records s !! i) (default [] (by_airport s !! normalize_airport_id a)).

Definition require_target (s : NotamState) (expected_state_id : bytes)
    (expected_counters : NotamCounters) : result NotamStateError unit :=
  _ ← guard_err (negb (bool_decide (counters s = expected_counters)))
        (CounterMismatch expected_counters (counters s));
  guard_err (negb (bool_decide (state_id s = expected_state_id)))
    (TargetStateMismatch expected_state_id (state_id s)).

(** The airport loop of [from_checkpoint]: ids are appended. *)
Fixpoint append_index (i : bytes) (airports : list bytes) (idx : gmap bytes (list bytes)) (n : Z)
    : gmap bytes (list bytes) * Z :=
  match airports with
  | [] => (idx, n)
  | a :: airports =>
      let a := normalize_airport_id a in
      if bool_decide (a = []) then append_index i airports idx n
      else append_index i airports (<[a := default [] (idx !! a) ++ [i]]> idx) (n + 1)
  end.

(** The record loop of [from_checkpoint]. *)
Record loading := {
  ld_merkle : NotamMerkleIndex;
  ld_counters : NotamCounters;
  ld_records : gmap bytes NotamRecord;
  ld_airport : gmap bytes (list bytes)
}.
Fixpoint load_records (rs : list NotamRecord) (ld : loading) (w : NotamApplyWork)
    : result NotamStateError loading * NotamApplyWork :=
  match rs with
  | [] => (Ok ld, w)
  | r :: rs =>
      match canonical_record_bytes r with
      | Err e => (Err e, w)
      | Ok canonical =>
          let m := on_bucket (bucket_for_id (id r)) (<[id r := leaf_hash (id r) canonical]>)
                     (ld_merkle ld) in
          let '(idx, n) := append_index (id r) (airport_ids r) (ld_airport ld) 0 in
          load_records rs
            {| ld_merkle := m; ld_counters := add_record_counters (ld_counters ld) r;
               ld_records := <[id r := r]> (ld_records ld); ld_airport := idx |}
            (add_work 0 0 0 n 1 0 0 0 0 w)
      end
  end.

Definition from_checkpoint (cp : NotamCheckpoint) (w : NotamApplyWork)
    : result NotamStateError NotamState * NotamApplyWork :=
  match (_ ← validate_contract (cp_schema_version cp) (cp_product cp) (cp_contract_version cp);
         validate_record_order (cp_records cp)) with
  | Err e => (Err e, w)
  | Ok _ =>
      let '(r, w) := load_records (cp_records cp)
        {| ld_merkle := merkle_empty; ld_counters := zero_counters; ld_records := ∅;
           ld_airport := ∅ |} w in
      match r with
      | Err e => (Err e, w)
      | Ok ld =>
          let n := Z.of_nat (size (ld_records ld)) in
          let w := add_work n n 0 0 0 n NOTAM_MERKLE_BUCKET_COUNT NOTAM_MERKLE_GROUP_COUNT 1 w in
          let m := recompute_all (ld_merkle ld) in
          let h := compute_state_hash (group_hashes m) (ld_counters ld) in
          let s := {| state_id := hash_hex h; state_hash := h; counters := ld_counters ld;
                      records := ld_records ld; by_airport := ld_airport ld; merkle := m |} in
          (_ ← require_target s (cp_state_id cp) (cp_counters cp); Ok s, w)
      end
  end.

(** *** Mutations *)

Definition rehash (bucket : Z) (s : NotamState) : NotamState :=
  let m := merkle s in
  let members := default ∅ (bucket_members m !! Z.to_nat bucket) in
  let bh := <[Z.to_nat bucket := bucket_hash bucket members]> (bucket_hashes m) in
  let group := bucket `div` NOTAM_MERKLE_BUCKETS_PER_GROUP in
  let gh := <[Z.to_nat group := group_hash group bh]> (group_hashes m) in
  let h := compute_state_hash gh (counters s) in
  {| state_id := hash_hex h; state_hash := h; counters := counters s; records := records s;
     by_airport := by_airport s;
     merkle := {| bucket_members := bucket_members m; bucket_hashes := bh; group_hashes := gh |} |}.

Definition recompute_after_bucket (bucket : Z) : step unit :=
  x ← st_get;
  let members := default ∅ (bucket_members (merkle (state x)) !! Z.to_nat bucket) in
  _ ← st_modify (on_work (add_work 0 0 0 0 0 (Z.of_nat (size members)) 1 1 1));
  st_modify (on_state (rehash bucket)).

Definition apply_mutation (m : NotamMutation) : step unit :=
  let i := notam_id m in
  _ ← st_lift (validate_notam_id i);
  _ ← st_modify (on_work (add_work 1 1 0 0 0 0 0 0 0));
  x ← st_get;
  let old_record := records (state x) !! i in
  _ ← st_modify (on_state (set_records (delete i)));
  _ ← match old_record with
      | Some r => _ ← remove_from_airport_index r; subtract_record_counters r
      | None => mret tt
      end;
  let bucket := bucket_for_id i in
  _ ← match m with
      | Upsert r =>
          _ ← st_lift (guard_err (negb (bool_decide (id r = i))) (InvalidRecord (UpsertIdMismatch (id r) i)));
          canonical ← st_lift (canonical_record_bytes r);
          let leaf := leaf_hash i canonical in
          _ ← st_modify (on_work (add_work 0 0 0 0 1 0 0 0 0));
          _ ← st_modify (on_state (set_merkle (on_bucket bucket (<[i := leaf]>))));
          _ ← st_modify (on_state (set_counters (λ c, add_record_counters c r)));
          _ ← insert_into_airport_index r;
          st_modify (on_state (set_records (<[i := r]>)))
      | Remove _ => st_modify (on_state (set_merkle (on_bucket bucket (delete i))))
      end;
  recompute_after_bucket bucket.

Fixpoint apply_mutations (ms : list NotamMutation) : step unit :=
  match ms with
  | [] => mret tt
  | m :: ms => _ ← apply_mutation m; apply_mutations ms
  end.

Definition apply_delta (d : NotamDelta) : step unit :=
  _ ← st_lift (validate_contract (nd_schema_version d) (nd_product d) (nd_contract_version d));
  x ← st_get;
  _ ← st_lift (guard_err (negb (bool_decide (state_id (state x) = nd_from_state_id d)))
        (BaseStateMismatch (nd_from_state_id d) (state_id (state x))));
  _ ← st_lift (validate_mutation_order (nd_mutations d));
  _ ← apply_mutations (nd_mutations d);
  x ← st_get;
  st_lift (require_target (state x) (nd_to_state_id d) (nd_counters d)).
End Notams.
