(* ===== verification/NotamIndex.v ===== *)
(** * The airport index of the NOTAM state

    Sorted lists of ids, the index as a relation between airports and ids, and the
    loops of notam-state that keep it: what each inserts, removes and appends. *)

From Stdlib Require Import Strings.Byte.
From stdpp Require Import base list list_numbers strings gmap sorting sets.
From S2P Require Import Prelude Utf8 Search ProcedureKeys NotamRecord NotamState.

Local Open Scope Z_scope.

Abbreviation sorted_ids := (StronglySorted bytes_lt).

(** ** Sorted lists of ids *)

Lemma sorted_search (l : list bytes) i :
  sorted_ids l →
  match binary_search_by l (λ y, bytes_cmp y i) with
  | Ok k => l !! k = Some i
  | Err k => (k ≤ length l)%nat ∧ Forall (λ y, bytes_lt y i) (take k l) ∧
             Forall (λ y, bytes_lt i y) (drop k l)
  end.
Proof.
  intros Hs. pose proof (binary_search_key (λ y : bytes, y) l i) as H.
  assert ((λ y : bytes, y) <$> l = l) as Heq by apply (list_fmap_id l).
  rewrite Heq in H. specialize (H Hs). simpl in H.
  destruct (binary_search_by _ _) as [k|k].
  - destruct H as (x & Hx & <-). done.
  - destruct H as (Hk & Hlt & Hge). split_and!; [done|..]; apply Forall_lookup; intros j x Hj.
    + apply lookup_take_Some in Hj as [Hj ?]. by eapply Hlt.
    + rewrite lookup_drop in Hj. eapply Hge; [|exact Hj]. lia.
Qed.

Lemma sorted_ids_unique (l l' : list bytes) :
  sorted_ids l → sorted_ids l' → (∀ i, i ∈ l ↔ i ∈ l') → l = l'.
Proof.
  intros Hl. revert l'. induction Hl as [|x l Hl IH Hx]; intros [|y l'] Hl' Heq; [done|..].
  - specialize (Heq y). set_solver.
  - specialize (Heq x). set_solver.
  - apply StronglySorted_inv in Hl' as [Hl' Hy]. rewrite Forall_forall in Hx, Hy.
    assert (x = y) as ->.
    { pose proof (proj1 (Heq x) ltac:(left)) as Hxl. pose proof (proj2 (Heq y) ltac:(left)) as Hyl.
      apply elem_of_cons in Hxl as [->|Hxl]; [done|]. apply elem_of_cons in Hyl as [->|Hyl]; [done|].
      exfalso. apply (bytes_lt_irrefl x). etrans; [by apply Hx|by apply Hy]. }
    f_equal. apply IH; [done|]. intros i. specialize (Heq i). rewrite !elem_of_cons in Heq.
    split; intros Hi.
    + destruct (proj1 Heq ltac:(by right)) as [->|]; [|done]. by apply Hx, bytes_lt_irrefl in Hi.
    + destruct (proj2 Heq ltac:(by right)) as [->|]; [|done]. by apply Hy, bytes_lt_irrefl in Hi.
Qed.

Lemma sorted_ids_app l1 l2 :
  sorted_ids l1 → sorted_ids l2 → (∀ x y, x ∈ l1 → y ∈ l2 → bytes_lt x y) → sorted_ids (l1 ++ l2).
Proof. intros H1 H2 H. by apply StronglySorted_app. Qed.

Lemma sorted_ids_insert l i k :
  sorted_ids l → Forall (λ y, bytes_lt y i) (take k l) → Forall (λ y, bytes_lt i y) (drop k l) →
  sorted_ids (take k l ++ i :: drop k l).
Proof.
  intros Hs Ht Hd. rewrite <- (take_drop k l) in Hs. rewrite Forall_forall in Ht.
  apply sorted_ids_app.
  - by eapply StronglySorted_app_1_l.
  - constructor; [by eapply StronglySorted_app_1_r|done].
  - rewrite Forall_forall in Hd. intros x y Hx [->|Hy]%elem_of_cons; [auto|].
    etrans; [by apply Ht|by apply Hd].
Qed.

Lemma sorted_ids_delete l k i :
  sorted_ids l → l !! k = Some i →
  sorted_ids (delete k l) ∧ ∀ j, j ∈ delete k l ↔ j ∈ l ∧ j ≠ i.
Proof.
  intros Hs Hk. apply list_elem_of_split_length in Hk as (l1 & l2 & -> & ->).
  rewrite delete_middle. split.
  - apply sorted_ids_app.
    + by eapply StronglySorted_app_1_l.
    + apply StronglySorted_app_1_r in Hs. by apply StronglySorted_inv in Hs as [? _].
    + intros x y Hx Hy. eapply StronglySorted_app_1_elem_of; [exact Hs|done|by right].
  - intros j. rewrite !elem_of_app, elem_of_cons. split; [|naive_solver].
    intros Hj. split; [naive_solver|]. intros ->. apply (bytes_lt_irrefl i). destruct Hj as [Hj|Hj].
    + eapply StronglySorted_app_1_elem_of; [exact Hs|done|by left].
    + apply StronglySorted_app_1_r, StronglySorted_inv in Hs as [_ Hs].
      rewrite Forall_forall in Hs. by apply Hs.
Qed.

#[export] Instance key_le_trans {V} : Transitive (@key_le V).
Proof. intros p q r. unfold key_le. apply transitivity. Qed.
#[export] Instance key_le_total {V} : Total (@key_le V).
Proof. intros p q. apply (total bytes_le). Qed.

(** The keys of an ordered map, in order. *)
Lemma sorted_map_iter {V} (m : gmap bytes V) : sorted_ids (fst <$> map_iter m).
Proof.
  assert (NoDup (fst <$> map_iter m)) as Hnd
    by (rewrite map_iter_Permutation; apply NoDup_fst_map_to_list).
  assert (StronglySorted key_le (map_iter m)) as Hs.
  { apply (StronglySorted_merge_sort _). }
  induction Hs as [|p l Hs IH Hp]; [constructor|]. rewrite fmap_cons in Hnd |- *.
  apply NoDup_cons in Hnd as [Hpl Hnd]. constructor; [auto|].
  rewrite Forall_fmap. apply Forall_forall. intros q Hq. rewrite Forall_forall in Hp.
  specialize (Hp q Hq). unfold key_le in Hp. apply bytes_le_lt_eq in Hp as [Hp|Hp]; [done|].
  exfalso. apply Hpl. rewrite Hp. by apply list_elem_of_fmap_2.
Qed.

(** The order the feed asks of its ids. *)
Lemma id_order_spec previous ids :
  id_order_loop previous ids = Ok tt ↔
    Forall (λ i, validate_notam_id i = Ok tt) ids ∧ sorted_ids ids ∧
    ∀ p, previous = Some p → Forall (bytes_lt p) ids.
Proof.
  revert previous; induction ids as [|i ids IH]; intros previous; simpl.
  { split; [|done]. intros _. split_and!; by constructor. }
  destruct (validate_notam_id i) as [[]|e] eqn:Hv; simpl.
  2: { split; [done|]. intros [Hf _]. inversion Hf; subst. congruence. }
  assert (∀ p, (guard_err (bytes_leb i p) (InvalidOrdering (NotStrictlyOrdered p i)) = Ok tt) ↔ bytes_lt p i) as Hguard.
  { intros p. rewrite guard_err_Ok, <- not_true_iff_false, bytes_leb_le, <- bytes_nlt_le.
    destruct (decide (bytes_lt p i)); tauto. }
  transitivity ((∀ p, previous = Some p → bytes_lt p i) ∧ id_order_loop (Some i) ids = Ok tt).
  { destruct previous as [p|]; simpl; [|naive_solver]. specialize (Hguard p).
    destruct (guard_err _ _) as [[]|]; simpl; naive_solver. }
  rewrite IH. split.
  - intros (Hp & Hf & Hs & Hi). specialize (Hi i eq_refl). split_and!; [by constructor|by constructor|].
    intros p Hpp. constructor; [auto|]. eapply Forall_impl; [exact Hi|]. intros j. by etrans; eauto.
  - intros (Hf & Hs & Hp). apply Forall_cons in Hf as [_ Hf]. apply StronglySorted_inv in Hs as [Hs Hi].
    split_and!; [|done..|by intros ? [= <-]]. intros p Hpp. specialize (Hp p Hpp). by inversion Hp.
Qed.

(** ** The airport index as a relation *)

(** The index lists, for each airport, the ids related to it, in order, and has no
    entry for an airport without ids. *)
Definition index_rep (idx : gmap bytes (list bytes)) (P : bytes → bytes → Prop) : Prop :=
  ∀ a, match idx !! a with
       | Some l => l ≠ [] ∧ sorted_ids l ∧ ∀ i, i ∈ l ↔ P a i
       | None => ∀ i, ¬ P a i
       end.

Lemma index_rep_unique idx idx' P : index_rep idx P → index_rep idx' P → idx = idx'.
Proof.
  intros H H'. apply map_eq. intros a. specialize (H a). specialize (H' a).
  assert (∀ l : list bytes, l ≠ [] → ∃ i, i ∈ l) as Hne.
  { intros [|i l] ?; [done|]. exists i. left. }
  destruct (idx !! a) as [l|], (idx' !! a) as [l'|]; [..|done].
  - destruct H as (_ & Hs & Hl), H' as (_ & Hs' & Hl'). f_equal.
    apply sorted_ids_unique; [done..|]. intros i. by rewrite Hl, Hl'.
  - destruct H as (Hn & _ & Hl). apply Hne in Hn as [i Hi]. apply Hl in Hi. by apply H' in Hi.
  - destruct H' as (Hn & _ & Hl). apply Hne in Hn as [i Hi]. apply Hl in Hi. by apply H in Hi.
Qed.

Lemma index_rep_ext idx P Q : (∀ a i, P a i ↔ Q a i) → index_rep idx P → index_rep idx Q.
Proof.
  intros HPQ H a. specialize (H a). destruct (idx !! a).
  - destruct H as (? & ? & Hl). split_and!; [done..|]. intros i. by rewrite Hl, HPQ.
  - intros i. rewrite <- HPQ. auto.
Qed.

(** Storing a list for one airport. *)
Lemma index_rep_set idx P a l :
  index_rep idx P → l ≠ [] → sorted_ids l →
  index_rep (<[a := l]> idx) (λ b j, if decide (b = a) then j ∈ l else P b j).
Proof.
  intros H Hne Hs b. destruct (decide (b = a)) as [->|].
  - rewrite lookup_insert_eq. split_and!; [done..|]. done.
  - rewrite lookup_insert_ne by done. apply (H b).
Qed.
Lemma index_rep_clear idx P a :
  index_rep idx P → index_rep (delete a idx) (λ b j, b ≠ a ∧ P b j).
Proof.
  intros H b. destruct (decide (b = a)) as [->|].
  - rewrite lookup_delete_eq. by intros i [? _].
  - rewrite lookup_delete_ne by done. specialize (H b). destruct (idx !! b).
    + destruct H as (? & ? & Hl). split_and!; [done..|]. intros i. rewrite Hl. naive_solver.
    + intros i [_ ?]. by eapply H.
Qed.
Lemma index_rep_lookup idx P a :
  index_rep idx P → sorted_ids (default [] (idx !! a)) ∧ ∀ i, i ∈ default [] (idx !! a) ↔ P a i.
Proof.
  intros H. specialize (H a). destruct (idx !! a) as [l|]; simpl.
  - by destruct H as (_ & ? & ?).
  - split; [constructor|]. intros i. split; [by intros ?%not_elem_of_nil|]. intros ?. by apply H in H0.
Qed.

(** ** The index loops *)

(** The index keys of a list of airport ids. *)
Definition keys_of (airports : list bytes) : list bytes :=
  filter (λ a, a ≠ []) (normalize_airport_id <$> airports).

Lemma keys_of_cons a airports :
  keys_of (a :: airports) =
    if decide (normalize_airport_id a = []) then keys_of airports
    else normalize_airport_id a :: keys_of airports.
Proof.
  unfold keys_of. rewrite fmap_cons, filter_cons. destruct (decide (normalize_airport_id a = [])).
  - rewrite decide_False by tauto. done.
  - rewrite decide_True by done. done.
Qed.

Definition at_session (s : NotamState) (idx : gmap bytes (list bytes)) (w : NotamApplyWork) : session :=
  {| state := set_airport (λ _, idx) s; work := w |}.

(** The loop succeeds exactly when the keys are distinct and new for the id. *)
Lemma insert_loop_spec i airports x P :
  index_rep (by_airport (state x)) P →
  match insert_index_loop i airports x with
  | (Ok _, x') =>
      NoDup (keys_of airports) ∧ (∀ a, a ∈ keys_of airports → ¬ P a i) ∧
      ∃ idx w, x' = at_session (state x) idx w ∧
        index_rep idx (λ a j, P a j ∨ (j = i ∧ a ∈ keys_of airports))
  | (Err e, _) =>
      e = Invariant (AlreadyInIndex i) ∧ ¬ (NoDup (keys_of airports) ∧ ∀ a, a ∈ keys_of airports → ¬ P a i)
  end.
Proof.
  revert x P; induction airports as [|a airports IH]; intros x P Hrep.
  { split_and!; [constructor|by intros ? ?%not_elem_of_nil|].
    exists (by_airport (state x)), (work x). split; [by destruct x as [[] ?]|].
    eapply index_rep_ext; [|exact Hrep]. set_solver. }
  cbn [insert_index_loop]. rewrite keys_of_cons.
  set (k := normalize_airport_id a) in *. destruct (decide (k = [])) as [Hk|Hk].
  { rewrite bool_decide_eq_true_2 by done. by apply IH. }
  rewrite bool_decide_eq_false_2 by done.
  rewrite ST_bind_unfold. cbn [st_get].
  destruct (index_rep_lookup _ _ k Hrep) as [Hs Hl]. set (ids := default [] _) in *.
  pose proof (sorted_search ids i Hs) as Hb. destruct (binary_search_by ids _) as [n|n].
  { split; [done|]. intros [_ Hfresh]. apply (Hfresh k); [by left|]. apply Hl.
    by eapply list_elem_of_lookup_2. }
  destruct Hb as (_ & Ht & Hd). set (l := take n ids ++ i :: drop n ids).
  assert (∀ j, j ∈ l ↔ P k j ∨ j = i) as Hjl.
  { intros j. rewrite <- Hl. assert (j ∈ ids ↔ j ∈ take n ids ∨ j ∈ drop n ids) as Hids
      by (by rewrite <- elem_of_app, take_drop).
    unfold l. rewrite elem_of_app, elem_of_cons. naive_solver. }
  assert (¬ P k i) as Hki.
  { rewrite <- Hl, <- (take_drop n ids), elem_of_app. rewrite Forall_forall in Ht, Hd.
    intros [Hi|Hi]; [apply Ht in Hi|apply Hd in Hi]; by apply bytes_lt_irrefl in Hi. }
  set (x1 := on_work (add_work 0 0 0 1 0 0 0 0 0) (on_state (set_airport (<[k := l]>)) x)).
  specialize (IH x1 (λ b j, if decide (b = k) then j ∈ l else P b j)).
  match goal with |- match ?r with _ => _ end => change r with (insert_index_loop i airports x1) end.
  destruct (insert_index_loop i airports x1) as [[u|e] x2].
  - destruct IH as (Hnd & Hfresh & idx & w & -> & Hrep').
    { apply index_rep_set; [done|by destruct (take n ids)|by apply sorted_ids_insert]. }
    assert (k ∉ keys_of airports) as Hka.
    { intros Hin. specialize (Hfresh k Hin). rewrite decide_True in Hfresh by done.
      apply Hfresh, Hjl. by right. }
    split_and!; [by constructor|..].
    + intros b [->|Hb]%elem_of_cons; [done|]. specialize (Hfresh b Hb).
      rewrite decide_False in Hfresh; [done|]. by intros ->.
    + exists idx, w. split; [done|]. eapply index_rep_ext; [|exact Hrep']. intros b j. simpl.
      rewrite elem_of_cons. destruct (decide (b = k)) as [->|]; [rewrite Hjl|]; naive_solver.
  - destruct IH as [-> Hn].
    { apply index_rep_set; [done|by destruct (take n ids)|by apply sorted_ids_insert]. }
    split; [done|]. intros [[Hka Hnd]%NoDup_cons Hfresh]. apply Hn. split; [done|].
    intros b Hb. rewrite decide_False by (by intros ->). apply Hfresh. by right.
Qed.

Lemma remove_loop_spec i airports x P :
  index_rep (by_airport (state x)) P → NoDup (keys_of airports) →
  (∀ a, a ∈ keys_of airports → P a i) →
  ∃ idx w, remove_index_loop i airports x = (Ok tt, at_session (state x) idx w) ∧
    index_rep idx (λ a j, P a j ∧ ¬ (j = i ∧ a ∈ keys_of airports)).
Proof.
  revert x P; induction airports as [|a airports IH]; intros x P Hrep Hnd Hhas.
  { exists (by_airport (state x)), (work x). split; [by destruct x as [[] ?]|].
    eapply index_rep_ext; [|exact Hrep]. set_solver. }
  cbn [remove_index_loop]. rewrite keys_of_cons in Hnd, Hhas |- *.
  set (k := normalize_airport_id a) in *. destruct (decide (k = [])) as [Hk|Hk].
  { rewrite bool_decide_eq_true_2 by done. by apply IH. }
  rewrite bool_decide_eq_false_2 by done. apply NoDup_cons in Hnd as [Hka Hnd].
  rewrite ST_bind_unfold. cbn [st_get]. pose proof (Hrep k) as Hat.
  destruct (by_airport (state x) !! k) as [ids|] eqn:Hids.
  2: { exfalso. apply (Hat i). apply Hhas. by left. }
  destruct Hat as (_ & Hs & Hl). rewrite ST_bind_unfold. cbn [st_lift ok_or].
  pose proof (sorted_search ids i Hs) as Hb. destruct (binary_search_by ids _) as [n|n].
  2: { exfalso. destruct Hb as (_ & Ht & Hd). assert (i ∈ ids) as Hi by (apply Hl, Hhas; by left).
       rewrite <- (take_drop n ids) in Hi. rewrite Forall_forall in Ht, Hd.
       apply elem_of_app in Hi as [Hi|Hi]; [apply Ht in Hi|apply Hd in Hi]; by apply bytes_lt_irrefl in Hi. }
  destruct (sorted_ids_delete ids n i Hs Hb) as [Hs' Hdel]. set (l := delete n ids) in *.
  set (f := if bool_decide (l = []) then delete k else <[k := l]>).
  set (x1 := on_state (set_airport f) (on_work (add_work 0 0 1 0 0 0 0 0 0) x)).
  destruct (IH x1 (λ b j, if decide (b = k) then j ∈ l else P b j)) as (idx & w & Hrun & Hrep').
  { unfold x1, f. simpl. destruct (bool_decide_reflect (l = [])) as [Hnil|Hne].
    - eapply index_rep_ext; [|by apply index_rep_clear]. intros b j. simpl. rewrite Hnil.
      destruct (decide (b = k)); set_solver.
    - by apply index_rep_set. }
  { done. }
  { intros b Hb'. rewrite decide_False by (intros ->; done). apply Hhas. by right. }
  exists idx, w. split; [exact Hrun|]. eapply index_rep_ext; [|exact Hrep']. intros b j. simpl.
  rewrite elem_of_cons. destruct (decide (b = k)) as [->|]; [rewrite Hdel, Hl|]; naive_solver.
Qed.

(** Whatever the index holds, the loops change nothing else. *)
Lemma insert_loop_frame i airports x u x' :
  insert_index_loop i airports x = (Ok u, x') → ∃ idx w, x' = at_session (state x) idx w.
Proof.
  revert x. induction airports as [|a airports IH]; intros x; cbn [insert_index_loop]; cbv zeta.
  { intros [= _ <-]. exists (by_airport (state x)), (work x). by destruct x as [[] ?]. }
  destruct (bool_decide _); [apply IH|]. rewrite ST_bind_unfold. cbn [st_get].
  destruct (binary_search_by _ _) as [n|n]; [done|].
  intros (_ & x1 & [= _ <-] & (_ & x2 & [= _ <-] & Hrun)%ST_bind_Ok)%ST_bind_Ok.
  apply IH in Hrun as (idx & w & ->). by exists idx, w.
Qed.
Lemma remove_loop_frame i airports x u x' :
  remove_index_loop i airports x = (Ok u, x') → ∃ idx w, x' = at_session (state x) idx w.
Proof.
  revert x. induction airports as [|a airports IH]; intros x; cbn [remove_index_loop]; cbv zeta.
  { intros [= _ <-]. exists (by_airport (state x)), (work x). by destruct x as [[] ?]. }
  destruct (bool_decide _); [apply IH|]. rewrite ST_bind_unfold. cbn [st_get].
  rewrite ST_bind_unfold. cbn [st_lift]. destruct (ok_or _ _) as [ids|]; [|done].
  destruct (binary_search_by _ _) as [n|n]; [|done].
  intros (_ & x1 & [= _ <-] & (_ & x2 & [= _ <-] & Hrun)%ST_bind_Ok)%ST_bind_Ok.
  apply IH in Hrun as (idx & w & ->). by exists idx, w.
Qed.

(** Appending keeps the lists sorted when the id is above those listed. *)
Lemma append_index_spec i airports idx n P :
  index_rep idx P → (∀ a j, P a j → bytes_lt j i) → NoDup (keys_of airports) →
  index_rep (append_index i airports idx n).1 (λ a j, P a j ∨ (j = i ∧ a ∈ keys_of airports)).
Proof.
  intros Hrep Hlt. assert (∀ a j, a ∈ keys_of airports → P a j → bytes_lt j i) as Hlt'
    by eauto. clear Hlt. revert idx n P Hrep Hlt'.
  induction airports as [|a airports IH]; intros idx n P Hrep Hlt Hnd.
  { eapply index_rep_ext; [|exact Hrep]. set_solver. }
  cbn [append_index]. rewrite keys_of_cons in Hnd, Hlt |- *.
  set (k := normalize_airport_id a) in *. destruct (decide (k = [])) as [Hk|Hk].
  { rewrite bool_decide_eq_true_2 by done. by apply IH. }
  rewrite bool_decide_eq_false_2 by done. apply NoDup_cons in Hnd as [Hka Hnd].
  destruct (index_rep_lookup _ _ k Hrep) as [Hs Hl]. set (ids := default [] _) in *.
  eapply index_rep_ext;
    [|apply (IH _ _ (λ b j, if decide (b = k) then j ∈ ids ++ [i] else P b j)); [..|done]].
  - intros b j. simpl. rewrite elem_of_cons. destruct (decide (b = k)) as [->|]; [|naive_solver].
    rewrite elem_of_app, Hl, list_elem_of_singleton. naive_solver.
  - apply index_rep_set; [done|by destruct ids|]. apply sorted_ids_app; [done|repeat constructor|].
    intros u v Hu ->%list_elem_of_singleton. apply (Hlt k); [by left|]. by apply Hl.
  - intros b j Hb. rewrite decide_False by (by intros ->). apply Hlt. by right.
Qed.
