(* ===== verification/NotamRefine.v ===== *)
(** * The NOTAM state is determined by its records

    The abstract state of the feed is the map from ids to records. [represents] relates
    the concrete state (records, airport index, counters, Merkle tree, state id) to it;
    loading a checkpoint and applying mutations and deltas preserve the relation. *)

From Stdlib Require Import Strings.Byte.
From stdpp Require Import base list list_numbers strings gmap sorting sets.
From S2P Require Import Prelude Utf8 Search ProcedureKeys NotamRecord NotamState NotamIndex.

Local Open Scope Z_scope.

(** ** Runs of the state monad *)

Lemma ST_bind_run {S E A B} (c : ST S E A) (f : A → ST S E B) s a s' :
  c s = (Ok a, s') → (c ≫= f) s = f a s'.
Proof. intros H. by rewrite ST_bind_unfold, H. Qed.
Lemma ST_bind_fail {S E A B} (c : ST S E A) (f : A → ST S E B) s e s' :
  c s = (Err e, s') → (c ≫= f) s = (Err e, s').
Proof. intros H. by rewrite ST_bind_unfold, H. Qed.

(** ** Counters *)

Definition total (rs : gmap bytes NotamRecord) : NotamCounters :=
  map_fold (λ _ r c, add_record_counters c r) zero_counters rs.

Definition counters_nonneg (c : NotamCounters) : Prop :=
  0 ≤ notam_count c ∧ 0 ≤ airport_notam_count c ∧
  0 ≤ airport_notams_with_multiple_effects c ∧ 0 ≤ airport_notams_with_other_effect c.

Lemma flag_nonneg b : 0 ≤ flag b.
Proof. by destruct b. Qed.

Lemma add_record_nonneg c r : counters_nonneg c → counters_nonneg (add_record_counters c r).
Proof.
  intros (? & ? & ? & ?). unfold counters_nonneg, add_record_counters, add_counters. simpl.
  split_and!; try lia; match goal with |- context [flag ?b] => pose proof (flag_nonneg b) end; lia.
Qed.

Lemma add_record_comm c r r' :
  add_record_counters (add_record_counters c r) r' = add_record_counters (add_record_counters c r') r.
Proof. unfold add_record_counters, add_counters. simpl. f_equal; lia. Qed.

Lemma total_nonneg rs : counters_nonneg (total rs).
Proof.
  unfold total. apply (map_fold_weak_ind (λ c _, counters_nonneg c)).
  - done.
  - intros i r m c _. apply add_record_nonneg.
Qed.
Lemma total_insert rs i r : rs !! i = None → total (<[i := r]> rs) = add_record_counters (total rs) r.
Proof. intros Hi. unfold total. rewrite map_fold_insert_L; auto using add_record_comm. Qed.
Lemma total_delete rs i r :
  rs !! i = Some r → total rs = add_record_counters (total (delete i rs)) r.
Proof. intros Hi. unfold total. rewrite (map_fold_delete_L _ _ i r rs); auto using add_record_comm. Qed.

Lemma checked_sub_add a b : 0 ≤ a → checked_sub (a + b) b = Some a.
Proof. intros. unfold checked_sub. rewrite (proj2 (Z.leb_le _ _)) by lia. f_equal. lia. Qed.

Lemma subtract_field_spec get set contribution e x a :
  get (counters (state x)) = a + get contribution → 0 ≤ a →
  subtract_field get set contribution e x = (Ok tt, on_state (set_counters (set a)) x).
Proof.
  intros Hget Ha. unfold subtract_field. rewrite ST_bind_unfold. cbn [st_get].
  rewrite Hget, checked_sub_add by done. done.
Qed.

Lemma subtract_spec c r x :
  counters (state x) = add_record_counters c r → counters_nonneg c →
  subtract_record_counters r x = (Ok tt, on_state (set_counters (λ _, c)) x).
Proof.
  intros Hc (H1 & H2 & H3 & H4). destruct x as [[sid h cs rs idx m] w]. simpl in Hc. subst cs.
  unfold subtract_record_counters.
  erewrite ST_bind_run by (apply subtract_field_spec; [reflexivity|done]).
  erewrite ST_bind_run by (apply subtract_field_spec; [reflexivity|done]).
  erewrite ST_bind_run by (apply subtract_field_spec; [reflexivity|done]).
  erewrite subtract_field_spec by first [reflexivity|done].
  unfold on_state, set_counters. simpl. by destruct c.
Qed.

(** ** Lists updated at one place *)

Lemma slice_insert_ne {A} (l : list A) i x m n :
  (i < m ∨ m + n ≤ i)%nat → take n (drop m (<[i := x]> l)) = take n (drop m l).
Proof.
  intros Hi. apply list_eq. intros k. destruct (decide (k < n)%nat) as [Hk|Hk].
  - rewrite !lookup_take_lt, !lookup_drop, list_lookup_insert_ne by lia. done.
  - rewrite !lookup_take_ge by lia. done.
Qed.

(** ** The abstract state *)

(** The airports a record is listed under. *)
Definition airport_keys (r : NotamRecord) : list bytes := keys_of (airport_ids r).
Definition listed (rs : gmap bytes NotamRecord) (a i : bytes) : Prop :=
  ∃ r, rs !! i = Some r ∧ a ∈ airport_keys r.

(** What a mutation does to the records. *)
Definition mutate (rs : gmap bytes NotamRecord) (m : NotamMutation) : gmap bytes NotamRecord :=
  match m with Upsert r => <[id r := r]> rs | Remove i => delete i rs end.

Lemma bucket_range sha256 i : 0 ≤ bucket_for_id sha256 i < NOTAM_MERKLE_BUCKET_COUNT.
Proof.
  unfold bucket_for_id, NOTAM_MERKLE_BUCKET_COUNT. change (1024 - 1) with (Z.ones 10).
  rewrite Z.land_ones by lia. apply Z.mod_pos_bound. lia.
Qed.

Lemma indices_lookup n k : 0 ≤ k < n → indices n !! Z.to_nat k = Some k.
Proof. intros. unfold indices. rewrite lookup_seqZ_lt by lia. f_equal. lia. Qed.
Lemma indices_fmap_eq {A} n (f : Z → A) (l : list A) :
  0 ≤ n → length l = Z.to_nat n → (∀ k, 0 ≤ k < n → l !! Z.to_nat k = Some (f k)) → l = f <$> indices n.
Proof.
  intros Hn Hlen Hl. apply list_eq. intros k. destruct (decide (k < length l)%nat) as [Hk|Hk].
  - rewrite list_lookup_fmap. rewrite <- (Nat2Z.id k), Hl, indices_lookup by lia. done.
  - rewrite !lookup_ge_None_2; [done|unfold indices; rewrite length_fmap, length_seqZ|]; lia.
Qed.
Lemma length_indices_fmap {A} n (f : Z → A) : length (f <$> indices n) = Z.to_nat n.
Proof. unfold indices. by rewrite length_fmap, length_seqZ. Qed.
Lemma indices_fmap_lookup {A} n (f : Z → A) k :
  0 ≤ k < n → (f <$> indices n) !! Z.to_nat k = Some (f k).
Proof. intros. by rewrite list_lookup_fmap, indices_lookup. Qed.

Section Refine.
Context (sha256 : bytes → bytes) (to_vec : NotamRecord → option bytes).
Abbreviation bucket_for_id := (bucket_for_id sha256).
Abbreviation leaf_hash := (leaf_hash sha256).
Abbreviation canonical := (canonical_record_bytes to_vec).
Abbreviation merkle_of := (merkle_of sha256).
Abbreviation all_bucket_hashes := (all_bucket_hashes sha256).
Abbreviation all_group_hashes := (all_group_hashes sha256).

(** Records the feed can hold: encodable, listed under distinct airports. *)
Definition valid_record (r : NotamRecord) : Prop :=
  is_err (canonical r) = false ∧ NoDup (airport_keys r).
Definition valid_mutation (m : NotamMutation) : Prop :=
  match m with Upsert r => valid_record r | Remove i => is_err (validate_notam_id i) = false end.
Definition valid_records (rs : gmap bytes NotamRecord) : Prop :=
  map_Forall (λ i r, NotamRecord.id r = i ∧ valid_record r) rs.

Definition leaf_of (r : NotamRecord) : option bytes :=
  leaf_hash (NotamRecord.id r) <$> ok (canonical r).
Definition members_of (rs : gmap bytes NotamRecord) (bucket : Z) : gmap bytes bytes :=
  map_imap (λ i r, if decide (bucket_for_id i = bucket) then leaf_of r else None) rs.
Definition members_list (rs : gmap bytes NotamRecord) : list (gmap bytes bytes) :=
  members_of rs <$> indices NOTAM_MERKLE_BUCKET_COUNT.
Definition root_hash (rs : gmap bytes NotamRecord) : bytes :=
  compute_state_hash sha256 (group_hashes (merkle_of (members_list rs))) (total rs).

Record represents (s : NotamState) (rs : gmap bytes NotamRecord) : Prop := {
  rep_records : records s = rs;
  rep_valid : valid_records rs;
  rep_counters : counters s = total rs;
  rep_index : index_rep (by_airport s) (listed rs);
  rep_merkle : merkle s = merkle_of (members_list rs);
  rep_hash : state_hash s = root_hash rs;
  rep_id : state_id s = hash_hex (root_hash rs)
}.

(** The records determine the whole state. *)
Lemma represents_unique s s' rs : represents s rs → represents s' rs → s = s'.
Proof.
  intros [] []. destruct s, s'. simpl in *.
  f_equal; try congruence. by eapply index_rep_unique.
Qed.

(** *** The Merkle tree *)

Lemma members_list_lookup rs b :
  0 ≤ b < NOTAM_MERKLE_BUCKET_COUNT → members_list rs !! Z.to_nat b = Some (members_of rs b).
Proof. apply indices_fmap_lookup. Qed.

Lemma members_list_change rs rs' b f :
  0 ≤ b < NOTAM_MERKLE_BUCKET_COUNT →
  f (members_of rs b) = members_of rs' b → (∀ b', b' ≠ b → members_of rs b' = members_of rs' b') →
  alter f (Z.to_nat b) (members_list rs) = members_list rs'.
Proof.
  intros Hb Hat Hoff. apply indices_fmap_eq; [done|..].
  - rewrite length_alter. apply length_indices_fmap.
  - intros k Hk. destruct (decide (k = b)) as [->|].
    + by rewrite list_lookup_alter_eq, members_list_lookup, <- Hat.
    + rewrite list_lookup_alter_ne by (unfold NOTAM_MERKLE_BUCKET_COUNT in *; lia).
      by rewrite members_list_lookup, Hoff.
Qed.

Lemma members_of_insert rs r b :
  members_of (<[NotamRecord.id r := r]> rs) b =
    if decide (bucket_for_id (NotamRecord.id r) = b)
    then match leaf_of r with
         | Some h => <[NotamRecord.id r := h]> (members_of rs b)
         | None => delete (NotamRecord.id r) (members_of rs b)
         end
    else members_of rs b.
Proof.
  apply map_eq. intros j. unfold members_of. rewrite map_lookup_imap.
  destruct (decide (j = NotamRecord.id r)) as [->|Hj].
  - rewrite lookup_insert_eq. simpl. destruct (decide _).
    + destruct (leaf_of r); [by rewrite lookup_insert_eq|by rewrite lookup_delete_eq].
    + rewrite map_lookup_imap. destruct (rs !! _); simpl; [by rewrite decide_False|done].
  - rewrite lookup_insert_ne by done.
    destruct (decide (bucket_for_id (NotamRecord.id r) = b)) as [<-|]; [|by rewrite map_lookup_imap].
    destruct (leaf_of r);
      [rewrite lookup_insert_ne by done|rewrite lookup_delete_ne by done]; by rewrite map_lookup_imap.
Qed.
Lemma members_of_delete rs i b :
  members_of (delete i rs) b =
    if decide (bucket_for_id i = b) then delete i (members_of rs b) else members_of rs b.
Proof.
  apply map_eq. intros j. unfold members_of. rewrite map_lookup_imap.
  destruct (decide (j = i)) as [->|Hj].
  - rewrite lookup_delete_eq. simpl. destruct (decide _); [by rewrite lookup_delete_eq|].
    rewrite map_lookup_imap. destruct (rs !! _); simpl; [by rewrite decide_False|done].
  - rewrite lookup_delete_ne by done. destruct (decide (bucket_for_id i = b)) as [<-|].
    + by rewrite lookup_delete_ne, map_lookup_imap by done.
    + by rewrite map_lookup_imap.
Qed.

(** Updating one bucket, its hash, its group's hash and the root recomputes the tree. *)
Lemma bucket_hashes_change rs rs' b :
  0 ≤ b < NOTAM_MERKLE_BUCKET_COUNT →
  (∀ b', b' ≠ b → members_of rs b' = members_of rs' b') →
  <[Z.to_nat b := bucket_hash sha256 b (members_of rs' b)]> (all_bucket_hashes (members_list rs)) =
    all_bucket_hashes (members_list rs').
Proof.
  intros Hb Hoff. apply indices_fmap_eq; [done|..].
  - rewrite length_insert. apply length_indices_fmap.
  - intros k Hk. rewrite members_list_lookup by done. simpl.
    destruct (decide (k = b)) as [->|].
    + rewrite list_lookup_insert_eq; [done|]. unfold NotamState.all_bucket_hashes.
      rewrite length_indices_fmap. unfold NOTAM_MERKLE_BUCKET_COUNT in *; lia.
    + rewrite list_lookup_insert_ne by (unfold NOTAM_MERKLE_BUCKET_COUNT in *; lia).
      unfold NotamState.all_bucket_hashes. rewrite indices_fmap_lookup by done.
      by rewrite members_list_lookup, Hoff.
Qed.

Lemma group_hashes_change bh b h :
  0 ≤ b < NOTAM_MERKLE_BUCKET_COUNT →
  let bh' := <[Z.to_nat b := h]> bh in
  let group := b `div` NOTAM_MERKLE_BUCKETS_PER_GROUP in
  <[Z.to_nat group := group_hash sha256 group bh']> (all_group_hashes bh) = all_group_hashes bh'.
Proof.
  intros Hb bh' group. change NOTAM_MERKLE_BUCKETS_PER_GROUP with 32 in group.
  unfold NOTAM_MERKLE_BUCKET_COUNT in Hb.
  pose proof (Z.div_mod b 32 ltac:(lia)) as Hdm. pose proof (Z.mod_pos_bound b 32 ltac:(lia)).
  assert (0 ≤ group < 32) as Hg by (unfold group; lia).
  apply indices_fmap_eq; [done|..].
  - rewrite length_insert. apply length_indices_fmap.
  - intros k Hk. unfold NOTAM_MERKLE_GROUP_COUNT in Hk. destruct (decide (k = group)) as [->|].
    + rewrite list_lookup_insert_eq; [done|]. unfold NotamState.all_group_hashes.
      rewrite length_indices_fmap. unfold NOTAM_MERKLE_GROUP_COUNT. lia.
    + rewrite list_lookup_insert_ne by lia. unfold NotamState.all_group_hashes.
      rewrite indices_fmap_lookup by done. unfold group_hash, bh'.
      change NOTAM_MERKLE_BUCKETS_PER_GROUP with 32. rewrite slice_insert_ne; [done|].
      unfold group in *. lia.
Qed.

Lemma rehash_merkle rs rs' b s :
  0 ≤ b < NOTAM_MERKLE_BUCKET_COUNT →
  (∀ b', b' ≠ b → members_of rs b' = members_of rs' b') →
  bucket_members (merkle s) = members_list rs' →
  bucket_hashes (merkle s) = all_bucket_hashes (members_list rs) →
  group_hashes (merkle s) = all_group_hashes (all_bucket_hashes (members_list rs)) →
  merkle (rehash sha256 b s) = merkle_of (members_list rs').
Proof.
  intros Hb Hoff Hm Hbh Hgh. unfold rehash. cbn [merkle]. rewrite Hm, Hbh, Hgh.
  rewrite members_list_lookup by done. cbn [from_option]. unfold Datatypes.id.
  rewrite group_hashes_change by done. by rewrite bucket_hashes_change.
Qed.

Lemma rehash_represents rs rs' b s :
  0 ≤ b < NOTAM_MERKLE_BUCKET_COUNT →
  (∀ b', b' ≠ b → members_of rs b' = members_of rs' b') →
  bucket_members (merkle s) = members_list rs' →
  bucket_hashes (merkle s) = all_bucket_hashes (members_list rs) →
  group_hashes (merkle s) = all_group_hashes (all_bucket_hashes (members_list rs)) →
  records s = rs' → valid_records rs' → counters s = total rs' →
  index_rep (by_airport s) (listed rs') →
  represents (rehash sha256 b s) rs'.
Proof.
  intros Hb Hoff Hm Hbh Hgh Hrs Hval Hc Hidx.
  pose proof (rehash_merkle rs rs' b s Hb Hoff Hm Hbh Hgh) as Hmerkle.
  assert (state_hash (rehash sha256 b s) = root_hash rs') as Hroot.
  { unfold root_hash. rewrite <- Hmerkle, <- Hc. done. }
  split; try done. by rewrite <- Hroot.
Qed.

(** *** The airport index across a mutation *)

Lemma listed_insert rs i r a j :
  listed (<[i := r]> rs) a j ↔ listed (delete i rs) a j ∨ (j = i ∧ a ∈ airport_keys r).
Proof.
  unfold listed. destruct (decide (j = i)) as [->|Hj].
  - rewrite lookup_insert_eq, lookup_delete_eq. naive_solver.
  - rewrite lookup_insert_ne, lookup_delete_ne by done. naive_solver.
Qed.
Lemma listed_delete rs i r a j :
  rs !! i = Some r →
  listed (delete i rs) a j ↔ listed rs a j ∧ ¬ (j = i ∧ a ∈ airport_keys r).
Proof.
  intros Hi. unfold listed. destruct (decide (j = i)) as [->|Hj].
  - rewrite lookup_delete_eq, Hi. naive_solver.
  - rewrite lookup_delete_ne by done. naive_solver.
Qed.
Lemma not_listed_delete rs i a : ¬ listed (delete i rs) a i.
Proof. intros (r & Hr & _). by rewrite lookup_delete_eq in Hr. Qed.

(** The first half of [apply_mutation]: the old record leaves index and counters. *)
Lemma detach_spec i rs x :
  valid_records rs → counters (state x) = total rs →
  index_rep (by_airport (state x)) (listed rs) →
  ∃ idx w,
    (match rs !! i with
     | Some r => _ ← remove_from_airport_index r; subtract_record_counters r
     | None => mret tt
     end : step unit) x =
      (Ok tt, {| state := set_counters (λ _, total (delete i rs)) (set_airport (λ _, idx) (state x));
                 work := w |}) ∧
    index_rep idx (listed (delete i rs)).
Proof.
  intros Hval Hc Hidx. destruct (rs !! i) as [r|] eqn:Hi.
  - destruct (Hval i r Hi) as [<- [_ Hnd]].
    destruct (remove_loop_spec (NotamRecord.id r) (airport_ids r) x (listed rs)) as (idx & w & Hrun & Hrep).
    { done. }
    { done. }
    { intros a Ha. by exists r. }
    exists idx, w. split.
    + rewrite (ST_bind_run _ _ _ _ _ Hrun).
      rewrite (subtract_spec (total (delete (NotamRecord.id r) rs))); [done|..].
      * simpl. rewrite Hc. by apply total_delete.
      * apply total_nonneg.
    + eapply index_rep_ext; [|exact Hrep]. intros a j. simpl. by rewrite (listed_delete _ _ r).
  - exists (by_airport (state x)), (work x). rewrite delete_id by done. split; [|done].
    rewrite <- Hc. by destruct x as [[] ?].
Qed.

(** Deleting or replacing the record of an id touches its bucket only. *)
Lemma valid_records_delete rs i : valid_records rs → valid_records (delete i rs).
Proof. apply map_Forall_delete. Qed.
Lemma valid_records_insert rs r :
  valid_records rs → valid_record r → valid_records (<[NotamRecord.id r := r]> rs).
Proof. intros. by apply map_Forall_insert_2. Qed.

Lemma valid_mutation_id m : valid_mutation m → validate_notam_id (notam_id m) = Ok tt.
Proof.
  destruct m as [r|i]; simpl.
  - intros [Hc _]. unfold canonical_record_bytes in Hc. by destruct (validate_notam_id _) as [[]|].
  - by destruct (validate_notam_id i) as [[]|].
Qed.

(** *** One mutation *)

(** The second half of [apply_mutation], after the old record is gone. *)
Definition attach (m : NotamMutation) : step unit :=
  let i := notam_id m in
  let bucket := bucket_for_id i in
  _ ← match m with
      | Upsert r =>
          _ ← st_lift (guard_err (negb (bool_decide (NotamRecord.id r = i)))
                         (InvalidRecord (UpsertIdMismatch (NotamRecord.id r) i)));
          canonical ← st_lift (canonical r);
          let leaf := leaf_hash i canonical in
          _ ← st_modify (on_work (add_work 0 0 0 0 1 0 0 0 0));
          _ ← st_modify (on_state (set_merkle (on_bucket bucket (<[i := leaf]>))));
          _ ← st_modify (on_state (set_counters (λ c, add_record_counters c r)));
          _ ← insert_into_airport_index r;
          st_modify (on_state (set_records (<[i := r]>)))
      | Remove _ => st_modify (on_state (set_merkle (on_bucket bucket (delete i))))
      end;
  recompute_after_bucket sha256 bucket.

(** A state whose old record for [i] is detached. *)
Definition detached (s : NotamState) (rs : gmap bytes NotamRecord) (i : bytes) : Prop :=
  records s = delete i rs ∧ valid_records rs ∧ counters s = total (delete i rs) ∧
  index_rep (by_airport s) (listed (delete i rs)) ∧ merkle s = merkle_of (members_list rs).

Lemma recompute_run b x :
  ∃ w, recompute_after_bucket sha256 b x = (Ok tt, {| state := rehash sha256 b (state x); work := w |}).
Proof.
  unfold recompute_after_bucket. rewrite ST_bind_unfold. cbn [st_get].
  rewrite ST_bind_unfold. cbn [st_modify]. by eexists.
Qed.

Lemma attach_remove rs i x :
  detached (state x) rs i →
  ∃ x', attach (Remove i) x = (Ok tt, x') ∧ represents (state x') (delete i rs).
Proof.
  intros (Hrs & Hval & Hc & Hidx & Hm). unfold attach. rewrite ST_bind_unfold. cbn [st_modify].
  match goal with |- context [recompute_after_bucket _ ?b ?x1] =>
    destruct (recompute_run b x1) as [w ->] end.
  eexists. split; [reflexivity|].
  pose proof (bucket_range sha256 i) as Hb. cbn [state on_state on_work].
  apply (rehash_represents rs); try done; cbn [merkle set_merkle on_bucket notam_id]; rewrite ?Hm; try done.
  - intros b' Hb'. by rewrite members_of_delete, decide_False.
  - apply members_list_change; [done|..].
    + by rewrite members_of_delete, decide_True.
    + intros b' Hb'. by rewrite members_of_delete, decide_False.
  - by apply valid_records_delete.
Qed.

Lemma attach_upsert rs r x :
  detached (state x) rs (NotamRecord.id r) →
  match attach (Upsert r) x with
  | (Ok _, x') => valid_record r ∧ represents (state x') (<[NotamRecord.id r := r]> rs)
  | (Err _, _) => ¬ valid_record r
  end.
Proof.
  intros (Hrs & Hval & Hc & Hidx & Hm). unfold attach. cbn [notam_id].
  rewrite bool_decide_eq_true_2 by done.
  destruct (canonical r) as [c|e] eqn:Hcan.
  2: { rewrite ST_bind_unfold, ST_bind_unfold. cbn. intros [Hv _]. by rewrite Hcan in Hv. }
  rewrite ST_bind_unfold, ST_bind_unfold. cbn [negb guard_err st_lift].
  rewrite ST_bind_unfold. cbn [st_lift].
  set (b := bucket_for_id (NotamRecord.id r)). set (leaf := leaf_hash (NotamRecord.id r) c).
  rewrite ST_bind_unfold. cbn [st_modify]. rewrite ST_bind_unfold. cbn [st_modify].
  rewrite ST_bind_unfold. cbn [st_modify]. rewrite ST_bind_unfold. cbn [st_modify].
  set (x1 := on_state (set_counters _) _).
  pose proof (insert_loop_spec (NotamRecord.id r) (airport_ids r) x1
    (listed (delete (NotamRecord.id r) rs)) Hidx) as Hins.
  unfold insert_into_airport_index. destruct (insert_index_loop _ _ x1) as [[u|e] x2].
  2: { destruct Hins as [_ Hn]. intros [_ Hnd]. apply Hn. split; [done|].
       intros a _. apply not_listed_delete. }
  destruct Hins as (Hnd & _ & idx & w & -> & Hrep).
  assert (valid_record r) as Hv by (split; [by rewrite Hcan|done]).
  split; [done|]. pose proof (bucket_range sha256 (NotamRecord.id r)) as Hb.
  assert (∀ b', b' ≠ b → members_of rs b' = members_of (<[NotamRecord.id r:=r]> rs) b') as Hoff
    by (intros b' Hb'; by rewrite members_of_insert, decide_False).
  cbn [state on_state on_work]. apply (rehash_represents rs); try done;
    cbn [merkle set_merkle on_bucket bucket_members bucket_hashes group_hashes set_records
         records counters set_counters set_airport at_session state x1 on_state on_work by_airport];
    rewrite ?Hm; try done.
  - apply members_list_change; [done| |done].
    rewrite members_of_insert, decide_True by done. unfold leaf_of. by rewrite Hcan.
  - by rewrite Hrs, insert_delete_eq.
  - by apply valid_records_insert.
  - rewrite Hc, <- (total_insert _ (NotamRecord.id r)) by apply lookup_delete_eq. by rewrite insert_delete_eq.
  - eapply index_rep_ext; [|exact Hrep]. intros a j. simpl. by rewrite listed_insert.
Qed.

(** A mutation succeeds exactly when it is valid, and does to the records what it says. *)
Lemma apply_mutation_spec m rs x :
  represents (state x) rs →
  match apply_mutation sha256 to_vec m x with
  | (Ok _, x') => valid_mutation m ∧ represents (state x') (mutate rs m)
  | (Err _, _) => ¬ valid_mutation m
  end.
Proof.
  intros [Hrs Hval Hc Hidx Hm Hh Hid]. unfold apply_mutation.
  destruct (validate_notam_id (notam_id m)) as [[]|e] eqn:Hvid.
  2: { rewrite ST_bind_unfold. cbn. intros Hv%valid_mutation_id. congruence. }
  rewrite ST_bind_unfold. cbn [st_lift]. rewrite ST_bind_unfold. cbn [st_modify].
  rewrite ST_bind_unfold. cbn [st_get]. cbn [state on_work]. rewrite Hrs.
  rewrite ST_bind_unfold. cbn [st_modify].
  set (x1 := on_state _ _).
  destruct (detach_spec (notam_id m) rs x1) as (idx & w & Hrun & Hrep); [done..|].
  rewrite (ST_bind_run _ _ _ _ _ Hrun).
  set (x2 := Build_session _ _).
  assert (detached (state x2) rs (notam_id m)) as Hdet by (split_and!; try done; by simpl; rewrite Hrs).
  destruct m as [r|i].
  - exact (attach_upsert rs r x2 Hdet).
  - destruct (attach_remove rs i x2 Hdet) as (x' & Hrun' & Hrep').
    change (match attach (Remove i) x2 with
            | (Ok _, x') => valid_mutation (Remove i) ∧ represents (state x') (mutate rs (Remove i))
            | (Err _, _) => ¬ valid_mutation (Remove i)
            end).
    rewrite Hrun'. split; [|done]. simpl in *. by rewrite Hvid.
Qed.

(** *** Deltas *)

Definition mutate_all : gmap bytes NotamRecord → list NotamMutation → gmap bytes NotamRecord :=
  foldl mutate.

Lemma apply_mutations_spec ms rs x :
  represents (state x) rs →
  match apply_mutations sha256 to_vec ms x with
  | (Ok _, x') => Forall valid_mutation ms ∧ represents (state x') (mutate_all rs ms)
  | (Err _, _) => ¬ Forall valid_mutation ms
  end.
Proof.
  revert rs x; induction ms as [|m ms IH]; intros rs x Hrep; cbn [apply_mutations].
  - split; [constructor|done].
  - pose proof (apply_mutation_spec m rs x Hrep) as Hm. rewrite ST_bind_unfold.
    destruct (apply_mutation _ _ m x) as [[u|e] x1].
    2: { intros [? _]%Forall_cons. done. }
    destruct Hm as [Hv Hrep1]. specialize (IH _ _ Hrep1).
    destruct (apply_mutations _ _ ms x1) as [[u'|e] x2].
    + destruct IH as [? ?]. split; [by constructor|done].
    + intros [? ?]%Forall_cons. done.
Qed.

(** The deltas a state with records [rs] accepts. *)
Definition acceptable_delta (rs : gmap bytes NotamRecord) (d : NotamDelta) : Prop :=
  validate_contract (nd_schema_version d) (nd_product d) (nd_contract_version d) = Ok tt ∧
  nd_from_state_id d = hash_hex (root_hash rs) ∧
  validate_mutation_order (nd_mutations d) = Ok tt ∧
  Forall valid_mutation (nd_mutations d) ∧
  nd_counters d = total (mutate_all rs (nd_mutations d)) ∧
  nd_to_state_id d = hash_hex (root_hash (mutate_all rs (nd_mutations d))).

Lemma require_target_spec s rs sid c :
  represents s rs →
  match require_target s sid c with
  | Ok _ => c = total rs ∧ sid = hash_hex (root_hash rs)
  | Err _ => ¬ (c = total rs ∧ sid = hash_hex (root_hash rs))
  end.
Proof.
  intros [_ _ Hc _ _ _ Hid]. unfold require_target. rewrite Hc, Hid.
  destruct (bool_decide_reflect (total rs = c)); simpl; [|naive_solver].
  destruct (bool_decide_reflect (hash_hex (root_hash rs) = sid)); simpl; naive_solver.
Qed.

Lemma apply_delta_spec d rs x :
  represents (state x) rs →
  match apply_delta sha256 to_vec d x with
  | (Ok _, x') => acceptable_delta rs d ∧ represents (state x') (mutate_all rs (nd_mutations d))
  | (Err _, _) => ¬ acceptable_delta rs d
  end.
Proof.
  intros Hrep. unfold apply_delta, acceptable_delta. rewrite ST_bind_unfold. cbn [st_lift].
  destruct (validate_contract _ _ _) as [[]|e]; [|naive_solver].
  rewrite ST_bind_unfold. cbn [st_get]. rewrite ST_bind_unfold. cbn [st_lift].
  rewrite (rep_id _ _ Hrep).
  destruct (bool_decide_reflect (hash_hex (root_hash rs) = nd_from_state_id d)) as [Hbase|Hbase];
    cbn [negb guard_err]; [|naive_solver].
  rewrite ST_bind_unfold. cbn [st_lift].
  destruct (validate_mutation_order _) as [[]|e]; [|naive_solver].
  pose proof (apply_mutations_spec (nd_mutations d) rs x Hrep) as Hms. rewrite ST_bind_unfold.
  destruct (apply_mutations _ _ _ x) as [[u|e] x1]; [|naive_solver].
  destruct Hms as [Hv Hrep1]. rewrite ST_bind_unfold. cbn [st_get]. unfold st_lift.
  pose proof (require_target_spec _ _ (nd_to_state_id d) (nd_counters d) Hrep1) as Ht.
  destruct (require_target _ _ _) as [u'|e]; naive_solver.
Qed.

(** *** Loading *)

Definition collect : gmap bytes NotamRecord → list NotamRecord → gmap bytes NotamRecord :=
  foldl (λ m r, <[NotamRecord.id r := r]> m).

Lemma members_list_empty : members_list ∅ = replicate (Z.to_nat NOTAM_MERKLE_BUCKET_COUNT) ∅.
Proof.
  symmetry. apply indices_fmap_eq; [done|by rewrite length_replicate|].
  intros k Hk. rewrite lookup_replicate_2 by (unfold NOTAM_MERKLE_BUCKET_COUNT in *; lia). done.
Qed.

Lemma bucket_insert m r c mk :
  canonical r = Ok c → bucket_members mk = members_list m →
  bucket_members (on_bucket (bucket_for_id (NotamRecord.id r))
    (<[NotamRecord.id r := leaf_hash (NotamRecord.id r) c]>) mk) =
    members_list (<[NotamRecord.id r := r]> m).
Proof.
  intros Hcan Hmk. cbn [bucket_members on_bucket]. rewrite Hmk.
  apply members_list_change; [apply bucket_range|..].
  - rewrite members_of_insert, decide_True by done. unfold leaf_of. by rewrite Hcan.
  - intros b Hb. by rewrite members_of_insert, decide_False.
Qed.

Lemma sorted_fresh i ids : sorted_ids (i :: ids) → (i ∉ ids) ∧ sorted_ids ids.
Proof.
  intros [Hs Hi]%StronglySorted_inv. split; [|done]. intros Hin.
  rewrite Forall_forall in Hi. apply (bytes_lt_irrefl i), Hi, Hin.
Qed.

Lemma identity_step_run mk cs r c :
  canonical r = Ok c →
  identity_step sha256 to_vec (mk, cs) r =
    Ok (on_bucket (bucket_for_id (NotamRecord.id r))
          (<[NotamRecord.id r := leaf_hash (NotamRecord.id r) c]>) mk, add_record_counters cs r).
Proof. intros Hc. unfold identity_step. by rewrite Hc. Qed.

Lemma identity_fold rs m mk :
  Forall (λ r, is_err (canonical r) = false) rs → sorted_ids (NotamRecord.id <$> rs) →
  (∀ r, r ∈ rs → m !! NotamRecord.id r = None) → bucket_members mk = members_list m →
  ∃ mk', try_fold (identity_step sha256 to_vec) (mk, total m) rs = Ok (mk', total (collect m rs)) ∧
    bucket_members mk' = members_list (collect m rs).
Proof.
  revert m mk; induction rs as [|r rs IH]; intros m mk Hcan Hs Hfresh Hmk; [by exists mk|].
  apply Forall_cons in Hcan as [Hr Hcan]. rewrite fmap_cons in Hs. apply sorted_fresh in Hs as [Hi Hs].
  destruct (canonical r) as [c|e] eqn:Hc; [|done].
  cbn [try_fold]. rewrite (identity_step_run mk _ r c) by done. cbn [mbind result_bind].
  rewrite <- (total_insert _ (NotamRecord.id r)) by (apply Hfresh; left).
  apply IH; [done..| |by apply bucket_insert].
  intros r' Hr'. rewrite lookup_insert_ne by (intros Heq; apply Hi; rewrite Heq; by apply list_elem_of_fmap_2).
  apply Hfresh. by right.
Qed.

Lemma recompute_spec rs :
  Forall (λ r, is_err (canonical r) = false) rs → sorted_ids (NotamRecord.id <$> rs) →
  recompute_record_identity sha256 to_vec rs =
    Ok (hash_hex (root_hash (collect ∅ rs)), total (collect ∅ rs)).
Proof.
  intros Hcan Hs. unfold recompute_record_identity.
  destruct (identity_fold rs ∅ (merkle_empty sha256)) as (mk & Hfold & Hmk); [done..| |].
  { cbn [merkle_empty NotamState.merkle_of bucket_members]. symmetry. apply members_list_empty. }
  change zero_counters with (total ∅). rewrite Hfold. cbn -[hash_hex compute_state_hash recompute_all].
  unfold recompute_all. by rewrite Hmk.
Qed.

(** What the record loop of [from_checkpoint] has built from the records so far. *)
Definition loaded (ld : loading) (m : gmap bytes NotamRecord) : Prop :=
  ld_records ld = m ∧ ld_counters ld = total m ∧ index_rep (ld_airport ld) (listed m) ∧
  bucket_members (ld_merkle ld) = members_list m.

Lemma loaded_empty :
  loaded {| ld_merkle := merkle_empty sha256; ld_counters := zero_counters; ld_records := ∅;
            ld_airport := ∅ |} ∅.
Proof.
  split_and!; [done|done| |symmetry; apply members_list_empty].
  intros a. cbn [ld_airport]. rewrite lookup_empty. intros i (r & Hr & _). done.
Qed.

Lemma load_records_spec rs ld w m :
  loaded ld m → Forall (λ r, NoDup (airport_keys r)) rs → sorted_ids (NotamRecord.id <$> rs) →
  (∀ r j, r ∈ rs → is_Some (m !! j) → bytes_lt j (NotamRecord.id r)) →
  match load_records sha256 to_vec rs ld w with
  | (Ok ld', _) => Forall valid_record rs ∧ loaded ld' (collect m rs)
  | (Err _, _) => ¬ Forall valid_record rs
  end.
Proof.
  revert ld w m; induction rs as [|r rs IH]; intros ld w m Hld Hnd Hs Hlt; [by split|].
  apply Forall_cons in Hnd as [Hr Hnd]. rewrite fmap_cons in Hs.
  apply StronglySorted_inv in Hs as [Hs Hi]. cbn [load_records].
  destruct (canonical r) as [c|e] eqn:Hc.
  2: { intros [[Hv _] _]%Forall_cons. by rewrite Hc in Hv. }
  destruct Hld as (Hrs & Hcs & Hidx & Hmk).
  assert (∀ a j, listed m a j → bytes_lt j (NotamRecord.id r)) as Hbelow.
  { intros a j (r' & Hr' & _). apply Hlt; [left|by rewrite Hr']. }
  pose proof (append_index_spec (NotamRecord.id r) (airport_ids r) (ld_airport ld) 0 _ Hidx Hbelow Hr) as Hap.
  destruct (append_index _ _ _ 0) as [idx n]. cbn [fst] in Hap.
  assert (m !! NotamRecord.id r = None) as Hfresh.
  { apply eq_None_not_Some. intros Hsome. apply (bytes_lt_irrefl (NotamRecord.id r)).
    apply Hlt; [left|done]. }
  set (ld1 := Build_loading _ _ _ _). set (w1 := add_work _ _ _ _ _ _ _ _ _ w).
  specialize (IH ld1 w1 (<[NotamRecord.id r := r]> m)).
  assert (valid_record r) as Hv by (by split; [rewrite Hc|]).
  assert (loaded ld1 (<[NotamRecord.id r := r]> m)) as Hld1.
  { split_and!; cbn [ld1 ld_records ld_counters ld_airport ld_merkle];
      [by rewrite Hrs|by rewrite Hcs, total_insert| |by apply bucket_insert].
    eapply index_rep_ext; [|exact Hap]. intros a j. simpl. by rewrite listed_insert, delete_id. }
  assert (∀ r' j, r' ∈ rs → is_Some (<[NotamRecord.id r := r]> m !! j) →
                  bytes_lt j (NotamRecord.id r')) as Hlt1.
  { intros r' j Hr' [<-|Hj]%lookup_insert_is_Some'; [|apply Hlt; [by right|done]].
    rewrite Forall_fmap, Forall_forall in Hi. by apply Hi. }
  specialize (IH Hld1 Hnd Hs Hlt1).
  destruct (load_records sha256 to_vec rs ld1 w1) as [[ld'|e'] w'].
  - destruct IH as [? ?]. split; [by constructor|done].
  - intros [_ ?]%Forall_cons. done.
Qed.

(** The checkpoints the code accepts. *)
Definition acceptable_checkpoint (cp : NotamCheckpoint) : Prop :=
  validate_contract (cp_schema_version cp) (cp_product cp) (cp_contract_version cp) = Ok tt ∧
  validate_record_order (cp_records cp) = Ok tt ∧
  Forall valid_record (cp_records cp) ∧
  cp_counters cp = total (collect ∅ (cp_records cp)) ∧
  cp_state_id cp = hash_hex (root_hash (collect ∅ (cp_records cp))).

Lemma collect_lookup rs m i r :
  sorted_ids (NotamRecord.id <$> rs) →
  collect m rs !! i = Some r ↔
    (r ∈ rs ∧ NotamRecord.id r = i) ∨ ((i ∉ NotamRecord.id <$> rs) ∧ m !! i = Some r).
Proof.
  revert m; induction rs as [|r' rs IH]; intros m Hs; cbn [collect foldl].
  { set_solver. }
  rewrite fmap_cons in Hs |- *. apply sorted_fresh in Hs as [Hi Hs]. change foldl with (@foldl).
  rewrite (IH (<[NotamRecord.id r' := r']> m) Hs). rewrite !elem_of_cons.
  destruct (decide (NotamRecord.id r' = i)) as [<-|Hne].
  - rewrite lookup_insert_eq. split; [naive_solver|]. intros [[[->|Hr] Heq]|[Hn _]]; [naive_solver| |naive_solver].
    left. by split.
  - rewrite lookup_insert_ne by done. naive_solver.
Qed.

Lemma collect_valid rs :
  sorted_ids (NotamRecord.id <$> rs) → Forall valid_record rs → valid_records (collect ∅ rs).
Proof.
  intros Hs Hv i r [[Hr <-]|[_ Hn]]%collect_lookup; [|done|done].
  rewrite Forall_forall in Hv. split; [done|by apply Hv].
Qed.

Lemma from_checkpoint_spec cp w :
  Forall (λ r, NoDup (airport_keys r)) (cp_records cp) →
  match from_checkpoint sha256 to_vec cp w with
  | (Ok s, _) => acceptable_checkpoint cp ∧ represents s (collect ∅ (cp_records cp))
  | (Err _, _) => ¬ acceptable_checkpoint cp
  end.
Proof.
  intros Hnd. unfold from_checkpoint, acceptable_checkpoint.
  destruct (validate_contract _ _ _) as [[]|e]; cbn [mbind result_bind]; [|by intros [? _]].
  destruct (validate_record_order _) as [[]|e] eqn:Hord; [|by intros (_ & ? & _)].
  apply id_order_spec in Hord as (_ & Hs & _). set (ld0 := Build_loading _ _ _ _).
  pose proof (load_records_spec (cp_records cp) ld0 w ∅) as Hload.
  destruct (load_records _ _ _ ld0 w) as [[ld|e] w']; [|].
  - destruct Hload as (Hv & Hrs & Hcs & Hidx & Hmk); [|done..|by intros ? ? ? []|].
    { apply loaded_empty. }
    set (s := Build_NotamState _ _ _ _ _ _). set (m := collect ∅ (cp_records cp)) in *.
    assert (represents s m) as Hrep.
    { assert (merkle s = merkle_of (members_list m)) as Hm
        by (cbn [merkle s]; unfold recompute_all; by rewrite Hmk).
      assert (state_hash s = root_hash m) as Hroot
        by (unfold root_hash; rewrite <- Hm, <- Hcs; done).
      split; [exact Hrs|by apply collect_valid|exact Hcs|exact Hidx|exact Hm|exact Hroot|].
      rewrite <- Hroot. reflexivity. }
    pose proof (require_target_spec _ _ (cp_state_id cp) (cp_counters cp) Hrep) as Ht.
    destruct (require_target _ _ _) as [u|e]; cbn [mbind result_bind].
    + destruct Ht as [? ?]. split; [split_and!|]; done.
    + intros (_ & _ & _ & ? & ?). apply Ht. by split.
  - intros (_ & _ & Hv & _). apply Hload; [|done..|by intros ? ? ? []|done].
    apply loaded_empty.
Qed.

(** *** Reading the state *)

Lemma record_values_ids s rs : represents s rs → NotamRecord.id <$> record_values s = fst <$> map_iter rs.
Proof.
  intros Hrep. unfold record_values. rewrite (rep_records _ _ Hrep), <- list_fmap_compose.
  apply list_fmap_ext. intros k [i r] Hk. apply list_elem_of_lookup_2, elem_of_map_iter in Hk.
  by destruct (rep_valid _ _ Hrep i r Hk).
Qed.
Lemma record_values_sorted s rs : represents s rs → sorted_ids (NotamRecord.id <$> record_values s).
Proof. intros Hrep. rewrite (record_values_ids _ _ Hrep). apply sorted_map_iter. Qed.
Lemma elem_of_record_values s rs r :
  represents s rs → r ∈ record_values s ↔ rs !! NotamRecord.id r = Some r.
Proof.
  intros Hrep. unfold record_values. rewrite (rep_records _ _ Hrep), list_elem_of_fmap. split.
  - intros ([i r'] & -> & Hr). cbn [snd]. apply elem_of_map_iter in Hr. by destruct (rep_valid _ _ Hrep i r' Hr) as [-> _].
  - intros Hr. exists (NotamRecord.id r, r). split; [done|]. by apply elem_of_map_iter.
Qed.
Lemma collect_record_values s rs : represents s rs → collect ∅ (record_values s) = rs.
Proof.
  intros Hrep. apply map_eq. intros i. apply option_eq. intros r.
  rewrite collect_lookup by (by eapply record_values_sorted).
  rewrite (elem_of_record_values s rs) by done. split.
  - intros [[Hr <-]|[_ Hr]]; done.
  - intros Hr. left. destruct (rep_valid _ _ Hrep i r Hr) as [<- _]. done.
Qed.
Lemma record_values_valid s rs : represents s rs → Forall valid_record (record_values s).
Proof.
  intros Hrep. apply Forall_forall. intros r Hr. rewrite (elem_of_record_values s rs) in Hr by done.
  by destruct (rep_valid _ _ Hrep _ r Hr).
Qed.

Lemma valid_record_id r : valid_record r → validate_notam_id (NotamRecord.id r) = Ok tt.
Proof. intros Hv. by apply (valid_mutation_id (Upsert r)). Qed.

Lemma checkpoint_acceptable s rs : represents s rs → acceptable_checkpoint (checkpoint s).
Proof.
  intros Hrep. unfold acceptable_checkpoint, checkpoint, checkpoint_new. cbn [cp_schema_version
    cp_product cp_contract_version cp_records cp_counters cp_state_id].
  rewrite (collect_record_values _ _ Hrep), (rep_counters _ _ Hrep), (rep_id _ _ Hrep).
  split_and!; try reflexivity.
  - apply id_order_spec. split_and!; [|by eapply record_values_sorted|done].
    rewrite Forall_fmap. eapply Forall_impl; [by eapply record_values_valid|].
    intros r. apply valid_record_id.
  - by eapply record_values_valid.
Qed.

(** The empty state. *)
Lemma represents_empty : represents (notam_empty sha256) ∅.
Proof.
  assert (merkle (notam_empty sha256) = merkle_of (members_list ∅)) as Hm
    by (unfold notam_empty, merkle_empty; cbn [merkle]; by rewrite members_list_empty).
  assert (state_hash (notam_empty sha256) = root_hash ∅) as Hroot
    by (unfold root_hash; rewrite <- Hm; reflexivity).
  split; [done|by apply map_Forall_empty|done| |exact Hm|exact Hroot|].
  - intros a. cbn [by_airport notam_empty]. rewrite lookup_empty. intros i (r & Hr & _). done.
  - rewrite <- Hroot. reflexivity.
Qed.

(** *** Records and identity alone

    What holds of the state whatever the airport index holds: a checkpoint may name an airport
    twice under spellings that normalise alike, and then the index is not that of the
    records. *)
Definition encodable (rs : gmap bytes NotamRecord) : Prop :=
  map_Forall (λ i r, NotamRecord.id r = i ∧ is_err (canonical r) = false) rs.
Record identified (s : NotamState) (rs : gmap bytes NotamRecord) : Prop := {
  idt_records : records s = rs;
  idt_encodable : encodable rs;
  idt_counters : counters s = total rs;
  idt_merkle : merkle s = merkle_of (members_list rs);
  idt_hash : state_hash s = root_hash rs;
  idt_id : state_id s = hash_hex (root_hash rs)
}.

Lemma represents_identified s rs : represents s rs → identified s rs.
Proof.
  intros [Hrs Hv Hc _ Hm Hh Hi]. split; try done. eapply map_Forall_impl; [exact Hv|]. by intros i r (? & ? & _).
Qed.

Lemma rehash_identified rs rs' b s :
  0 ≤ b < NOTAM_MERKLE_BUCKET_COUNT →
  (∀ b', b' ≠ b → members_of rs b' = members_of rs' b') →
  bucket_members (merkle s) = members_list rs' →
  bucket_hashes (merkle s) = all_bucket_hashes (members_list rs) →
  group_hashes (merkle s) = all_group_hashes (all_bucket_hashes (members_list rs)) →
  records s = rs' → encodable rs' → counters s = total rs' →
  identified (rehash sha256 b s) rs'.
Proof.
  intros Hb Hoff Hm Hbh Hgh Hrs Hval Hc.
  pose proof (rehash_merkle rs rs' b s Hb Hoff Hm Hbh Hgh) as Hmerkle.
  assert (state_hash (rehash sha256 b s) = root_hash rs') as Hroot.
  { unfold root_hash. rewrite <- Hmerkle, <- Hc. done. }
  split; try done. by rewrite <- Hroot.
Qed.

(** The old record leaves the counters. *)
Lemma detach_identified i rs x u x' :
  encodable rs → counters (state x) = total rs →
  (match rs !! i with
   | Some r => _ ← remove_from_airport_index r; subtract_record_counters r
   | None => mret tt
   end : step unit) x = (Ok u, x') →
  ∃ idx w, x' = {| state := set_counters (λ _, total (delete i rs)) (set_airport (λ _, idx) (state x)); work := w |}.
Proof.
  intros Hval Hc. destruct (rs !! i) as [r|] eqn:Hi.
  - intros ([] & x1 & Hrun & Hsub)%ST_bind_Ok. apply remove_loop_frame in Hrun as (idx & w & ->).
    destruct (Hval i r Hi) as [<- _].
    rewrite (subtract_spec (total (delete (NotamRecord.id r) rs))) in Hsub;
      [|simpl; rewrite Hc; by apply total_delete|apply total_nonneg].
    injection Hsub as _ <-. by exists idx, w.
  - intros [= _ <-]. exists (by_airport (state x)), (work x). rewrite delete_id, <- Hc by done. by destruct x as [[] ?].
Qed.

Lemma attach_identified m rs x u x' :
  records (state x) = delete (notam_id m) rs → encodable rs →
  counters (state x) = total (delete (notam_id m) rs) → merkle (state x) = merkle_of (members_list rs) →
  attach m x = (Ok u, x') → identified (state x') (mutate rs m).
Proof.
  intros Hrs Hval Hc Hm. unfold attach. cbv zeta. intros ([] & x1 & Hbody & Hrec)%ST_bind_Ok.
  destruct (recompute_run (bucket_for_id (notam_id m)) x1) as [w Hw]. rewrite Hw in Hrec. injection Hrec as _ <-.
  pose proof (bucket_range sha256 (notam_id m)) as Hb. cbn [state]. destruct m as [r|i]; cbn [notam_id mutate] in *.
  - apply ST_bind_Ok in Hbody as ([] & y0 & Hg & Hbody). injection Hg as _ <-.
    apply ST_bind_Ok in Hbody as (c & y1 & Hcan & Hbody). injection Hcan as Hcan <-.
    apply ST_bind_Ok in Hbody as ([] & y2 & Hy & Hbody). injection Hy as <-.
    apply ST_bind_Ok in Hbody as ([] & y3 & Hy & Hbody). injection Hy as <-.
    apply ST_bind_Ok in Hbody as ([] & y4 & Hy & Hbody). injection Hy as <-.
    apply ST_bind_Ok in Hbody as ([] & y5 & Hins & Hbody). injection Hbody as <-.
    apply insert_loop_frame in Hins as (idx & w' & ->).
    assert (∀ b', b' ≠ bucket_for_id (NotamRecord.id r) →
      members_of rs b' = members_of (<[NotamRecord.id r:=r]> rs) b') as Hoff
      by (intros b' Hb'; by rewrite members_of_insert, decide_False).
    apply (rehash_identified rs); try done;
      cbn [merkle set_merkle on_bucket bucket_members bucket_hashes group_hashes set_records
           records counters set_counters set_airport at_session state on_state on_work by_airport];
      rewrite ?Hm; try done.
    + apply members_list_change; [done| |done].
      rewrite members_of_insert, decide_True by done. unfold leaf_of. by rewrite Hcan.
    + by rewrite Hrs, insert_delete_eq.
    + apply map_Forall_insert_2; [|done]. by rewrite Hcan.
    + rewrite Hc, <- (total_insert _ (NotamRecord.id r)) by apply lookup_delete_eq. by rewrite insert_delete_eq.
  - injection Hbody as <-. apply (rehash_identified rs); try done; cbn [merkle set_merkle on_bucket state on_state];
      rewrite ?Hm; try done.
    + intros b' Hb'. by rewrite members_of_delete, decide_False.
    + apply members_list_change; [done|..].
      * by rewrite members_of_delete, decide_True.
      * intros b' Hb'. by rewrite members_of_delete, decide_False.
    + by apply map_Forall_delete.
Qed.

Lemma apply_mutation_identified m rs x u x' :
  identified (state x) rs → apply_mutation sha256 to_vec m x = (Ok u, x') → identified (state x') (mutate rs m).
Proof.
  intros [Hrs Hval Hc Hm _ _]. unfold apply_mutation. cbv zeta.
  intros ([] & x1 & Hv & Hrun)%ST_bind_Ok. injection Hv as _ <-.
  apply ST_bind_Ok in Hrun as ([] & x2 & Hy & Hrun). injection Hy as <-.
  apply ST_bind_Ok in Hrun as (y & x3 & Hy & Hrun). injection Hy as <- <-.
  apply ST_bind_Ok in Hrun as ([] & x4 & Hy & Hrun). injection Hy as <-.
  cbn [state on_work on_state] in Hrun. rewrite Hrs in Hrun.
  apply ST_bind_Ok in Hrun as ([] & x5 & Hdet & Hrun).
  apply (detach_identified (notam_id m) rs) in Hdet as (idx & w & ->); [|done|done].
  eapply attach_identified; [|done| | |exact Hrun]; cbn; by rewrite ?Hrs.
Qed.

Lemma apply_mutations_identified ms rs x u x' :
  identified (state x) rs → apply_mutations sha256 to_vec ms x = (Ok u, x') →
  identified (state x') (mutate_all rs ms).
Proof.
  revert rs x. induction ms as [|m ms IH]; intros rs x Hid; cbn [apply_mutations]; [by intros [= _ <-]|].
  intros ([] & x1 & Hm & Hms)%ST_bind_Ok. eapply IH; [|exact Hms]. by eapply apply_mutation_identified.
Qed.
Lemma apply_delta_identified d rs x u x' :
  identified (state x) rs → apply_delta sha256 to_vec d x = (Ok u, x') →
  identified (state x') (mutate_all rs (nd_mutations d)).
Proof.
  intros Hid. unfold apply_delta. cbv zeta. intros ([] & x1 & Hy & Hrun)%ST_bind_Ok. injection Hy as _ <-.
  apply ST_bind_Ok in Hrun as (y & x2 & Hy & Hrun). injection Hy as <- <-.
  apply ST_bind_Ok in Hrun as ([] & x3 & Hy & Hrun). injection Hy as _ <-.
  apply ST_bind_Ok in Hrun as ([] & x4 & Hy & Hrun). injection Hy as _ <-.
  apply ST_bind_Ok in Hrun as ([] & x5 & Hms & Hrun).
  apply ST_bind_Ok in Hrun as (y & x6 & Hy & Hrun). injection Hy as <- <-. injection Hrun as _ <-.
  by eapply apply_mutations_identified.
Qed.

Lemma load_records_identified rs ld w m ld' w' :
  ld_records ld = m → ld_counters ld = total m → bucket_members (ld_merkle ld) = members_list m → encodable m →
  sorted_ids (NotamRecord.id <$> rs) → (∀ r, r ∈ rs → m !! NotamRecord.id r = None) →
  load_records sha256 to_vec rs ld w = (Ok ld', w') →
  ld_records ld' = collect m rs ∧ ld_counters ld' = total (collect m rs)
  ∧ bucket_members (ld_merkle ld') = members_list (collect m rs) ∧ encodable (collect m rs).
Proof.
  revert ld w m. induction rs as [|r rs IH]; intros ld w m Hrs Hcs Hmk Henc Hs Hfresh; cbn [load_records].
  { by intros [= <- _]. }
  rewrite fmap_cons in Hs. apply sorted_fresh in Hs as [Hi Hs].
  destruct (canonical r) as [c|e] eqn:Hc; [|done]. destruct (append_index _ _ _ 0) as [idx n].
  pose proof (Hfresh r ltac:(by left)) as Hr. intros Hrun. eapply IH; [..|exact Hrun]; cbn;
    [by rewrite Hrs|by rewrite Hcs, total_insert|by apply bucket_insert| |done|].
  - apply map_Forall_insert_2; [|done]. by rewrite Hc.
  - intros r' Hr'. rewrite lookup_insert_ne by (intros Heq; apply Hi; rewrite Heq; by apply list_elem_of_fmap_2).
    apply Hfresh. by right.
Qed.
Lemma from_checkpoint_identified cp w s w' :
  from_checkpoint sha256 to_vec cp w = (Ok s, w') → identified s (collect ∅ (cp_records cp)).
Proof.
  unfold from_checkpoint. destruct (validate_contract _ _ _) as [[]|e]; cbn [mbind result_bind]; [|done].
  destruct (validate_record_order _) as [[]|e] eqn:Hord; [|done]. apply id_order_spec in Hord as (_ & Hs & _).
  destruct (load_records _ _ _ _ w) as [[ld|e] w1] eqn:Hload; [|done].
  apply (load_records_identified _ _ _ ∅) in Hload as (Hrs & Hcs & Hmk & Henc);
    [|done|done|symmetry; apply members_list_empty|by apply map_Forall_empty|done|done].
  set (st := Build_NotamState _ _ _ _ _ _). destruct (require_target st _ _) as [[]|]; [|done]. intros [= <- _].
  set (m := collect ∅ (cp_records cp)) in *.
  assert (merkle st = merkle_of (members_list m)) as Hm by (cbn [merkle st]; unfold recompute_all; by rewrite Hmk).
  assert (state_hash st = root_hash m) as Hroot by (unfold root_hash; rewrite <- Hm, <- Hcs; done).
  split; [exact Hrs|done|exact Hcs|exact Hm|exact Hroot|]. rewrite <- Hroot. reflexivity.
Qed.

(** *** The states the feed reaches

    From the empty state or a loaded checkpoint, by calls that succeed. The owner of a state
    (live_feeds.rs, [NotamProjectionPreparer]) takes it out for a call and keeps it only when the
    call succeeds, so a state that a failed call left half changed is not used again. *)
Section Reachable.
Context (loads : NotamCheckpoint → Prop).
Inductive reachable : NotamState → Prop :=
| reach_empty : reachable (notam_empty sha256)
| reach_checkpoint cp w s w' :
    loads cp → from_checkpoint sha256 to_vec cp w = (Ok s, w') → reachable s
| reach_mutation m x x' :
    reachable (state x) → apply_mutation sha256 to_vec m x = (Ok tt, x') → reachable (state x')
| reach_delta d x x' :
    reachable (state x) → apply_delta sha256 to_vec d x = (Ok tt, x') → reachable (state x').

Lemma reachable_identified s : reachable s → identified s (records s).
Proof.
  assert (∀ s rs, identified s rs → identified s (records s)) as Hown
    by (intros s' rs Hr; by rewrite (idt_records _ _ Hr)).
  induction 1 as [|cp w s w' _ Hrun|m x x' _ IH Hrun|d x x' _ IH Hrun].
  - apply represents_identified, represents_empty.
  - eapply Hown, from_checkpoint_identified, Hrun.
  - eapply Hown, apply_mutation_identified, Hrun. exact IH.
  - eapply Hown, apply_delta_identified, Hrun. exact IH.
Qed.
End Reachable.

(** A checkpoint whose records name each airport once, whatever the spelling. *)
Definition distinct_airports (cp : NotamCheckpoint) : Prop := Forall (λ r, NoDup (airport_keys r)) (cp_records cp).

Lemma reachable_represents s : reachable distinct_airports s → represents s (records s).
Proof.
  assert (∀ s rs, represents s rs → represents s (records s)) as Hown
    by (intros s' rs Hr; by rewrite (rep_records _ _ Hr)).
  induction 1 as [|cp w s w' Hnd Hrun|m x x' _ IH Hrun|d x x' _ IH Hrun].
  - apply represents_empty.
  - pose proof (from_checkpoint_spec cp w Hnd) as Hcp. rewrite Hrun in Hcp.
    destruct Hcp as [_ Hcp]. by eapply Hown.
  - pose proof (apply_mutation_spec m _ x IH) as Hm. rewrite Hrun in Hm.
    destruct Hm as [_ Hm]. by eapply Hown.
  - pose proof (apply_delta_spec d _ x IH) as Hd. rewrite Hrun in Hd.
    destruct Hd as [_ Hd]. by eapply Hown.
Qed.

(** The records found for an airport. *)
Lemma airport_records_spec s rs a :
  represents s rs →
  sorted_ids (NotamRecord.id <$> airport_records s a) ∧
  ∀ r, r ∈ airport_records s a ↔
       rs !! NotamRecord.id r = Some r ∧ normalize_airport_id a ∈ airport_keys r.
Proof.
  intros Hrep. unfold airport_records. rewrite (rep_records _ _ Hrep).
  destruct (index_rep_lookup _ _ (normalize_airport_id a) (rep_index _ _ Hrep)) as [Hs Hl].
  set (ids := default [] _) in *.
  assert (∀ i, i ∈ ids → ∃ r, rs !! i = Some r ∧ NotamRecord.id r = i) as Hhas.
  { intros i (r & Hr & _)%Hl. exists r. split; [done|]. by destruct (rep_valid _ _ Hrep i r Hr). }
  split.
  - clear Hl. induction Hs as [|i ids' Hs IH Hi]; [constructor|]. simpl.
    destruct (Hhas i ltac:(left)) as (r & -> & Hr).
    assert (∀ j, j ∈ ids' → ∃ r, rs !! j = Some r ∧ NotamRecord.id r = j) as Hhas'
      by (intros j Hj; apply Hhas; by right).
    change (sorted_ids (NotamRecord.id r :: (NotamRecord.id <$> omap (λ i, rs !! i) ids'))).
    constructor; [by apply IH|]. rewrite Forall_fmap. apply Forall_forall.
    intros r' (j & Hj & Hr')%list_elem_of_omap. rewrite Forall_forall in Hi.
    destruct (Hhas' j Hj) as (r2 & Hr2 & Hid). simplify_eq. simpl. by apply Hi.
  - intros r. rewrite list_elem_of_omap. split.
    + intros (i & Hi & Hr). apply Hl in Hi as (r' & Hr' & Hk). simplify_eq.
      destruct (rep_valid _ _ Hrep i r' Hr') as [Hid _]. by rewrite Hid.
    + intros [Hr Hk]. exists (NotamRecord.id r). split; [|done]. apply Hl. by exists r.
Qed.
End Refine.
