(* ===== verification/NotamCorrect.v ===== *)
(** * Correctness of the NOTAM state

    The operations of notam-state against the abstract state, the map from ids to
    records: every reachable state is the one its records determine, deltas and
    checkpoints are accepted exactly when they describe that state, and the state id
    names the records.

    The state id of the NOTAM feed is the root of a Merkle tree over the records. Two
    states with the same id hold the same records, or they exhibit two inputs with the
    same digest: each level of the tree is an injective encoding of the level below. *)

From Stdlib Require Import Strings.Byte.
From stdpp Require Import base list list_numbers strings gmap sorting sets.
From S2P Require Import Prelude Utf8 Search ProcedureKeys NotamRecord.
From S2P Require Import NotamState NotamIndex NotamRefine.

Local Open Scope Z_scope.

(** ** Injective encodings *)

Lemma hash_hex_inj a b : hash_hex a = hash_hex b → a = b.
Proof. apply hex_lower_inj. Qed.

Definition framable (l : bytes) : Prop := len l ≤ u64_max.

Lemma frame_inj a a' b b' :
  framable a → framable a' → frame a ++ b = frame a' ++ b' → a = a' ∧ b = b'.
Proof.
  unfold framable, frame, u64_max. intros Ha Ha' Heq. rewrite <- !app_assoc in Heq.
  apply app_inj_len in Heq as [Hlen Heq]; [|by rewrite !length_be_bytes].
  pose proof (len_nonneg a). pose proof (len_nonneg a').
  apply be_bytes_inj in Hlen; [|simpl; lia..]. apply app_inj_len in Heq; [done|]. unfold len in *. lia.
Qed.

(** A sequence of blocks of one size. *)
Lemma concat_blocks_inj n (l l' : list bytes) :
  (0 < n)%nat → Forall (λ x, length x = n) l → Forall (λ x, length x = n) l' →
  concat l = concat l' → l = l'.
Proof.
  intros Hn Hl. revert l'. induction Hl as [|x l Hx Hl IH]; intros [|y l'] Hl' Heq; [done|..].
  - apply Forall_cons in Hl' as [Hy _]. cbn [concat] in Heq. apply (f_equal length) in Heq.
    rewrite length_app in Heq. simpl in Heq. lia.
  - cbn [concat] in Heq. apply (f_equal length) in Heq. rewrite length_app in Heq. simpl in Heq. lia.
  - apply Forall_cons in Hl' as [Hy Hl']. cbn [concat] in Heq.
    apply app_inj_len in Heq as [-> Heq]; [|congruence]. f_equal. by apply IH.
Qed.

(** The members of a bucket, as hashed. *)
Lemma members_stream_inj n (l l' : list (bytes * bytes)) :
  Forall (λ m, framable m.1 ∧ length m.2 = n) l → Forall (λ m, framable m.1 ∧ length m.2 = n) l' →
  concat ((λ m, frame m.1 ++ m.2) <$> l) = concat ((λ m, frame m.1 ++ m.2) <$> l') → l = l'.
Proof.
  assert (∀ a b c : bytes, [] ≠ (frame a ++ b) ++ c) as Hne.
  { intros a b c Heq. apply (f_equal length) in Heq. unfold frame in Heq.
    rewrite !length_app, length_be_bytes in Heq. simpl in Heq. lia. }
  intros Hl. revert l'. induction Hl as [|[i h] l [Hi Hh] Hl IH]; intros [|[i' h'] l'] Hl' Heq; [done|..];
    rewrite ?fmap_cons in Heq; cbn [concat fst snd] in *.
  - by apply Hne in Heq.
  - symmetry in Heq. by apply Hne in Heq.
  - apply Forall_cons in Hl' as [[Hi' Hh'] Hl']. cbn [fst snd] in Hi', Hh'.
    rewrite <- !app_assoc in Heq. apply frame_inj in Heq as [-> Heq]; [|done..].
    apply app_inj_len in Heq as [-> Heq]; [|congruence]. f_equal. by apply IH.
Qed.

Lemma map_iter_inj {V} (m m' : gmap bytes V) : map_iter m = map_iter m' → m = m'.
Proof.
  intros Heq. apply map_eq. intros i. apply option_eq. intros v.
  by rewrite <- !elem_of_map_iter, Heq.
Qed.

(** ** The tree *)

Section Binding.
Context (sha256 : bytes → bytes) (to_vec : NotamRecord → option bytes).
Context (digest_length : ∀ b, length (sha256 b) = 32%nat).
Context (encoding_injective : ∀ r r' b, to_vec r = Some b → to_vec r' = Some b → r = r').

Abbreviation collision := (collision sha256).

(** Ids and encodings shorter than [2^64] bytes, as all data in memory is. *)
Definition framable_records (rs : gmap bytes NotamRecord) : Prop :=
  map_Forall (λ i r, framable i ∧ ∀ b, to_vec r = Some b → framable b) rs.

Lemma canonical_to_vec r c : canonical_record_bytes to_vec r = Ok c → to_vec r = Some c.
Proof. unfold canonical_record_bytes. intros H. inv_ok. done. Qed.

Lemma leaf_bind r r' h :
  (∀ b, to_vec r = Some b → framable b) → (∀ b, to_vec r' = Some b → framable b) →
  framable (id r) → framable (id r') →
  leaf_of sha256 to_vec r = Some h → leaf_of sha256 to_vec r' = Some h → r = r' ∨ collision.
Proof.
  intros Hf Hf' Hi Hi'. unfold leaf_of.
  destruct (canonical_record_bytes to_vec r) as [c|] eqn:Hc; [|done].
  destruct (canonical_record_bytes to_vec r') as [c'|] eqn:Hc'; [|done].
  apply canonical_to_vec in Hc, Hc'. simpl. intros [= <-] [= Heq]. unfold leaf_hash in Heq.
  apply digest_inj in Heq as [Heq|]; [left|by right].
  apply app_inj_len in Heq as [_ Heq]; [|done].
  apply frame_inj in Heq as [_ Heq]; [|done..].
  rewrite <- (app_nil_r (frame c)), <- (app_nil_r (frame c')) in Heq.
  apply frame_inj in Heq as [-> _]; eauto.
Qed.

Lemma bucket_bind b m m' :
  map_Forall (λ i h, framable i ∧ length h = 32%nat) m →
  map_Forall (λ i h, framable i ∧ length h = 32%nat) m' →
  bucket_hash sha256 b m = bucket_hash sha256 b m' → m = m' ∨ collision.
Proof.
  intros Hm Hm' Heq. unfold bucket_hash in Heq. apply digest_inj in Heq as [Heq|]; [left|by right].
  apply app_inj_len in Heq as [_ Heq]; [|done].
  apply app_inj_len in Heq as [_ Heq]; [|by rewrite !length_be_bytes].
  apply app_inj_len in Heq as [_ Heq]; [|by rewrite !length_be_bytes].
  assert (∀ m : gmap bytes bytes, map_Forall (λ i h, framable i ∧ length h = 32%nat) m →
    Forall (λ p, framable p.1 ∧ length p.2 = 32%nat) (map_iter m)) as Hall.
  { intros m0 H0. apply Forall_forall. intros [i h] Hi. apply elem_of_map_iter in Hi. by apply H0. }
  apply map_iter_inj. by apply (members_stream_inj 32); [apply Hall..|].
Qed.

Lemma group_bind g bh bh' :
  length bh = length bh' →
  Forall (λ x, length x = 32%nat) bh → Forall (λ x, length x = 32%nat) bh' →
  group_hash sha256 g bh = group_hash sha256 g bh' →
  take (Z.to_nat 32) (drop (Z.to_nat (g * 32)) bh) = take (Z.to_nat 32) (drop (Z.to_nat (g * 32)) bh')
    ∨ collision.
Proof.
  intros Hlen Hb Hb' Heq. unfold group_hash in Heq. apply digest_inj in Heq as [Heq|]; [left|by right].
  apply app_inj_len in Heq as [_ Heq]; [|done]. apply app_inj_len in Heq as [_ Heq]; [|done].
  apply (concat_blocks_inj 32) in Heq; [done|lia|..]; by apply Forall_take, Forall_drop.
Qed.

(** Either all of finitely many claims hold, or one yields the exception. *)
Lemma Forall_or {A} (P : A → Prop) (C : Prop) (l : list A) :
  (∀ x, x ∈ l → P x ∨ C) → (∀ x, x ∈ l → P x) ∨ C.
Proof.
  induction l as [|x l IH]; intros H; [left; by intros ? ?%not_elem_of_nil|].
  destruct (H x ltac:(left)) as [Hx|]; [|by right].
  destruct IH as [Hl|]; [intros y Hy; apply H; by right| |by right].
  left. intros y [->|Hy]%elem_of_cons; auto.
Qed.

Abbreviation members_of := (members_of sha256 to_vec).
Abbreviation members_list := (members_list sha256 to_vec).
Abbreviation bucket_hashes_of rs := (all_bucket_hashes sha256 (members_list rs)).

Lemma bucket_hashes_lookup rs b :
  0 ≤ b < NOTAM_MERKLE_BUCKET_COUNT →
  bucket_hashes_of rs !! Z.to_nat b = Some (bucket_hash sha256 b (members_of rs b)).
Proof.
  intros Hb. unfold all_bucket_hashes. rewrite indices_fmap_lookup by done.
  by rewrite members_list_lookup.
Qed.
Lemma bucket_hashes_blocks rs : Forall (λ x, length x = 32%nat) (bucket_hashes_of rs).
Proof. unfold all_bucket_hashes. rewrite Forall_fmap. apply Forall_forall. intros b _. apply digest_length. Qed.

(** Equal slices for all groups are equal lists. *)
Lemma slices_eq (rs rs' : gmap bytes NotamRecord) :
  (∀ g, 0 ≤ g < 32 →
     take (Z.to_nat 32) (drop (Z.to_nat (g * 32)) (bucket_hashes_of rs)) =
     take (Z.to_nat 32) (drop (Z.to_nat (g * 32)) (bucket_hashes_of rs'))) →
  ∀ b, 0 ≤ b < NOTAM_MERKLE_BUCKET_COUNT →
    bucket_hash sha256 b (members_of rs b) = bucket_hash sha256 b (members_of rs' b).
Proof.
  intros Hsl b Hb. pose proof Hb as Hb'. unfold NOTAM_MERKLE_BUCKET_COUNT in Hb'.
  pose proof (Z.div_mod b 32 ltac:(lia)). pose proof (Z.mod_pos_bound b 32 ltac:(lia)).
  assert (0 ≤ b `div` 32 < 32) as Hg
    by (split; [apply Z.div_pos|apply Z.div_lt_upper_bound]; lia).
  specialize (Hsl _ Hg). apply (f_equal (λ l, l !! Z.to_nat (b `mod` 32))) in Hsl.
  rewrite !lookup_take_lt, !lookup_drop in Hsl by lia.
  replace (Z.to_nat (b `div` 32 * 32) + Z.to_nat (b `mod` 32))%nat with (Z.to_nat b) in Hsl by lia.
  rewrite !bucket_hashes_lookup in Hsl by done. by injection Hsl.
Qed.

Lemma members_framable rs b :
  framable_records rs → map_Forall (λ i h, framable i ∧ length h = 32%nat) (members_of rs b).
Proof.
  intros Hf i h. unfold NotamRefine.members_of. rewrite map_lookup_imap.
  destruct (rs !! i) as [r|] eqn:Hi; [|done]. simpl. destruct (decide _); [|done].
  unfold leaf_of. destruct (canonical_record_bytes to_vec r) as [c|]; [|done]. intros [= <-].
  split; [by destruct (Hf i r Hi)|].
  apply digest_length.
Qed.

Lemma record_bind rs rs' i r :
  valid_records to_vec rs → valid_records to_vec rs' → framable_records rs → framable_records rs' →
  members_of rs (bucket_for_id sha256 i) = members_of rs' (bucket_for_id sha256 i) →
  rs !! i = Some r → rs' !! i = Some r ∨ collision.
Proof.
  intros Hv Hv' Hf Hf' Heq Hi. destruct (Hv i r Hi) as [Hid [Hcan _]]. destruct (Hf i r Hi) as [Hfi Hfr].
  assert (is_Some (leaf_of sha256 to_vec r)) as [h Hh]
    by (unfold leaf_of; destruct (canonical_record_bytes to_vec r); [by eexists|done]).
  assert (members_of rs' (bucket_for_id sha256 i) !! i = Some h) as Hm.
  { rewrite <- Heq. unfold NotamRefine.members_of. by rewrite map_lookup_imap, Hi; simpl; rewrite decide_True. }
  unfold NotamRefine.members_of in Hm. rewrite map_lookup_imap in Hm.
  destruct (rs' !! i) as [r'|] eqn:Hi'; [|done]. simpl in Hm. rewrite decide_True in Hm by done.
  destruct (Hv' i r' Hi') as [Hid' _]. destruct (Hf' i r' Hi') as [Hfi' Hfr'].
  destruct (leaf_bind r r' h) as [->|]; [done|done|congruence|congruence|done|done|by left|by right].
Qed.

Lemma record_sets_bind rs rs' :
  valid_records to_vec rs → valid_records to_vec rs' → framable_records rs → framable_records rs' →
  (∀ i, members_of rs (bucket_for_id sha256 i) = members_of rs' (bucket_for_id sha256 i)) →
  rs ⊆ rs' ∨ collision.
Proof.
  intros Hv Hv' Hf Hf' Hm.
  destruct (Forall_or (λ p, rs' !! p.1 = Some p.2) collision (map_to_list rs)) as [Hall|]; [| |by right].
  - intros [i r] Hi%elem_of_map_to_list. by apply (record_bind rs).
  - left. apply map_subseteq_spec. intros i r Hi. by apply (Hall (i, r)), elem_of_map_to_list.
Qed.

Lemma root_bind rs rs' :
  valid_records to_vec rs → valid_records to_vec rs' → framable_records rs → framable_records rs' →
  root_hash sha256 to_vec rs = root_hash sha256 to_vec rs' → rs = rs' ∨ collision.
Proof.
  intros Hv Hv' Hf Hf' Heq. unfold root_hash, compute_state_hash in Heq.
  apply digest_inj in Heq as [Heq|]; [|by right].
  do 7 (apply app_inj_len in Heq as [_ Heq]; [|by rewrite ?length_be_bytes]).
  cbn [group_hashes merkle_of] in Heq.
  apply (concat_blocks_inj 32) in Heq; [|lia|..];
    [|unfold all_group_hashes; rewrite Forall_fmap; apply Forall_forall; intros; apply digest_length..].
  assert (∀ g, g ∈ indices 32 → take (Z.to_nat 32) (drop (Z.to_nat (g * 32)) (bucket_hashes_of rs)) =
     take (Z.to_nat 32) (drop (Z.to_nat (g * 32)) (bucket_hashes_of rs')) ∨ collision) as Hg.
  { intros g Hg%elem_of_seqZ. apply group_bind; [|apply bucket_hashes_blocks..|].
    - unfold all_bucket_hashes. by rewrite !length_indices_fmap.
    - apply (f_equal (λ l, l !! Z.to_nat g)) in Heq. unfold all_group_hashes in Heq.
      rewrite !indices_fmap_lookup in Heq by (unfold NOTAM_MERKLE_GROUP_COUNT; lia). by injection Heq. }
  apply Forall_or in Hg as [Hg|]; [|by right].
  assert (∀ b, b ∈ indices 1024 → members_of rs b = members_of rs' b ∨ collision) as Hm.
  { intros b Hb%elem_of_seqZ. apply (bucket_bind b); [by apply members_framable..|].
    apply slices_eq; [|unfold NOTAM_MERKLE_BUCKET_COUNT; lia]. intros g ?. apply Hg. apply elem_of_seqZ. lia. }
  apply Forall_or in Hm as [Hm|]; [|by right].
  assert (∀ i, members_of rs (bucket_for_id sha256 i) = members_of rs' (bucket_for_id sha256 i)) as Hmi.
  { intros i. apply Hm, elem_of_seqZ. pose proof (bucket_range sha256 i).
    unfold NOTAM_MERKLE_BUCKET_COUNT in *. lia. }
  destruct (record_sets_bind rs rs') as [Hsub|]; [done..| |by right].
  destruct (record_sets_bind rs' rs) as [Hsub'|]; [done..| |by right].
  left. by apply (anti_symm (⊆)).
Qed.
End Binding.

(** ** A sample feed *)

#[export] Instance notam_record_eq_dec : EqDecision NotamRecord.
Proof. solve_decision. Defined.

Definition sample_record : NotamRecord :=
  {| id := bs "FDC 6/1234"; subjects := {[ Navaid (bs "SEA") ]}; airport_id := Some (bs "KSEA");
     airport_aliases := {[ bs "SEA" ]}; airport_effects := {[ RunwayClosed; Other ]};
     procedure_rendezvous_keys := ∅; notam_keyword := Some (bs "RWY"); effective_start_utc := None;
     effective_end_utc := None; text := Some (bs "RWY 16L CLSD"); local_text := None;
     icao_text := None |}.
Definition sample_digest (b : bytes) : bytes := replicate 32 (z2b (len b)).
Definition sample_encoding (r : NotamRecord) : option bytes :=
  if decide (r = sample_record) then Some (bs "{}") else None.

Lemma sample_digest_length b : length (sample_digest b) = 32%nat.
Proof. apply length_replicate. Qed.
Lemma sample_encoding_injective r r' b :
  sample_encoding r = Some b → sample_encoding r' = Some b → r = r'.
Proof. unfold sample_encoding. repeat case_decide; naive_solver. Qed.
Lemma sample_valid : valid_record sample_encoding sample_record.
Proof.
  split; [by vm_compute|]. apply (bool_decide_unpack (NoDup (airport_keys sample_record))). by vm_compute.
Qed.

(** The session of the empty state, and the state with the sample record. *)
Definition empty_session : session := {| state := notam_empty sample_digest; work := no_work |}.
Definition sample_session : session :=
  (apply_mutation sample_digest sample_encoding (Upsert sample_record) empty_session).2.

Lemma sample_run :
  apply_mutation sample_digest sample_encoding (Upsert sample_record) empty_session =
    (Ok tt, sample_session).
Proof.
  unfold sample_session. pose proof (apply_mutation_spec sample_digest sample_encoding
    (Upsert sample_record) ∅ empty_session (represents_empty _ _)) as H.
  destruct (apply_mutation _ _ _ _) as [[[]|e] x']; [done|]. exfalso. apply H, sample_valid.
Qed.
Lemma sample_represents :
  represents sample_digest sample_encoding (state sample_session) {[ id sample_record := sample_record ]}.
Proof.
  pose proof (apply_mutation_spec sample_digest sample_encoding
    (Upsert sample_record) ∅ empty_session (represents_empty _ _)) as H.
  rewrite sample_run in H. by destruct H.
Qed.
Lemma sample_reachable loads : reachable sample_digest sample_encoding loads (state sample_session).
Proof.
  apply (reach_mutation _ _ _ (Upsert sample_record) empty_session); [apply reach_empty|].
  apply sample_run.
Qed.
#[local] Opaque sample_session.

(** ** Properties *)

(** C10: in every state reached from the empty state or a loaded checkpoint by mutations and
    deltas that succeed, the counters, the Merkle tree, the state hash and the state id are
    those of the records held; and when no loaded checkpoint has a record that names an airport
    twice, up to spelling, so is the airport index. *)
Theorem notam_reachable_consistent sha256 to_vec s :
  (reachable sha256 to_vec (λ _, True) s → identified sha256 to_vec s (records s))
  ∧ (reachable sha256 to_vec distinct_airports s → represents sha256 to_vec s (records s)).
Proof. split; [apply reachable_identified|apply reachable_represents]. Qed.
Lemma notam_reachable_consistent_witness :
  identified sample_digest sample_encoding (state sample_session) (records (state sample_session))
  ∧ represents sample_digest sample_encoding (state sample_session) (records (state sample_session)).
Proof. split; apply notam_reachable_consistent; apply sample_reachable. Defined.

(** A mutation succeeds exactly when it is valid, and then inserts or deletes its
    record and updates every index to match. *)
Theorem notam_mutation_refines sha256 to_vec m rs x :
  represents sha256 to_vec (state x) rs →
  match apply_mutation sha256 to_vec m x with
  | (Ok _, x') => valid_mutation to_vec m ∧ represents sha256 to_vec (state x') (mutate rs m)
  | (Err _, _) => ¬ valid_mutation to_vec m
  end.
Proof. apply apply_mutation_spec. Qed.
Lemma notam_mutation_refines_witness :
  match apply_mutation sample_digest sample_encoding (Remove (bs "FDC 6/1234")) sample_session with
  | (Ok _, x') => valid_mutation sample_encoding (Remove (bs "FDC 6/1234")) ∧
      represents sample_digest sample_encoding (state x')
        (mutate {[ id sample_record := sample_record ]} (Remove (bs "FDC 6/1234")))
  | (Err _, _) => ¬ valid_mutation sample_encoding (Remove (bs "FDC 6/1234"))
  end.
Proof. apply notam_mutation_refines. apply sample_represents. Defined.

(** C3: a delta is accepted exactly when its contract is the supported one, it starts at
    the current state id, its mutations are valid and in strict id order, and its target
    id and counters are those of the records after its mutations; the new state is then
    the one those records determine. *)
Theorem notam_delta_refines sha256 to_vec d rs x :
  represents sha256 to_vec (state x) rs →
  match apply_delta sha256 to_vec d x with
  | (Ok _, x') => acceptable_delta sha256 to_vec rs d ∧
                  represents sha256 to_vec (state x') (mutate_all rs (nd_mutations d))
  | (Err _, _) => ¬ acceptable_delta sha256 to_vec rs d
  end.
Proof. apply apply_delta_spec. Qed.
Definition sample_delta : NotamDelta :=
  delta_new (hash_hex (root_hash sample_digest sample_encoding ∅))
    (hash_hex (root_hash sample_digest sample_encoding {[ id sample_record := sample_record ]}))
    (total {[ id sample_record := sample_record ]}) [Upsert sample_record].
Lemma sample_delta_acceptable : acceptable_delta sample_digest sample_encoding ∅ sample_delta.
Proof.
  split_and!; [reflexivity|reflexivity|by vm_compute| |reflexivity|reflexivity].
  constructor; [apply sample_valid|constructor].
Qed.
Lemma notam_delta_refines_witness :
  ∃ x', apply_delta sample_digest sample_encoding sample_delta empty_session = (Ok tt, x') ∧
        represents sample_digest sample_encoding (state x') (mutate_all ∅ [Upsert sample_record]).
Proof.
  pose proof (notam_delta_refines sample_digest sample_encoding sample_delta ∅ empty_session
    (represents_empty _ _)) as H.
  destruct (apply_delta _ _ _ _) as [[[]|e] x'].
  - exists x'. destruct H as [_ H]. exact (conj eq_refl H).
  - destruct (H sample_delta_acceptable).
Defined.

(** A checkpoint whose records list distinct airports is accepted exactly when its
    contract, order, records, counters and state id are right; the state loaded is then
    the one its records determine. *)
Theorem notam_checkpoint_loads sha256 to_vec cp w :
  Forall (λ r, NoDup (airport_keys r)) (cp_records cp) →
  match from_checkpoint sha256 to_vec cp w with
  | (Ok s, _) => acceptable_checkpoint sha256 to_vec cp ∧
                 represents sha256 to_vec s (collect ∅ (cp_records cp))
  | (Err _, _) => ¬ acceptable_checkpoint sha256 to_vec cp
  end.
Proof. apply from_checkpoint_spec. Qed.
Lemma notam_checkpoint_loads_witness :
  match from_checkpoint sample_digest sample_encoding
          (checkpoint_new [] zero_counters [sample_record]) no_work with
  | (Ok s, _) =>
      acceptable_checkpoint sample_digest sample_encoding
        (checkpoint_new [] zero_counters [sample_record]) ∧
      represents sample_digest sample_encoding s (collect ∅ [sample_record])
  | (Err _, _) => ¬ acceptable_checkpoint sample_digest sample_encoding
      (checkpoint_new [] zero_counters [sample_record])
  end.
Proof. apply notam_checkpoint_loads. constructor; [apply sample_valid|constructor]. Defined.

(** Saving a consistent state as a checkpoint and loading it gives the same state,
    with every index rebuilt. *)
Theorem notam_checkpoint_roundtrip sha256 to_vec s rs w :
  represents sha256 to_vec s rs → (from_checkpoint sha256 to_vec (checkpoint s) w).1 = Ok s.
Proof.
  intros Hrep. pose proof (from_checkpoint_spec sha256 to_vec (checkpoint s) w) as H.
  destruct (from_checkpoint _ _ _ w) as [[s'|e] w'].
  - destruct H as [_ H].
    { eapply Forall_impl; [by eapply record_values_valid|]. by intros r [_ ?]. }
    cbn [checkpoint checkpoint_new cp_records] in H. rewrite (collect_record_values _ _ _ _ Hrep) in H.
    cbn [fst]. f_equal. by eapply represents_unique.
  - exfalso. apply H.
    + eapply Forall_impl; [by eapply record_values_valid|]. by intros r [_ ?].
    + by eapply checkpoint_acceptable.
Qed.
Lemma notam_checkpoint_roundtrip_witness :
  (from_checkpoint sample_digest sample_encoding (checkpoint (state sample_session)) no_work).1 =
    Ok (state sample_session).
Proof. eapply notam_checkpoint_roundtrip. apply sample_represents. Defined.

(** Recomputing the identity of a consistent state from all its records gives the
    state id that was maintained incrementally. *)
Theorem notam_incremental_identity sha256 to_vec s rs :
  represents sha256 to_vec s rs →
  fully_recomputed_state_id sha256 to_vec s = Ok (state_id s) ∧
  recompute_checkpoint_identity sha256 to_vec (cp_records (checkpoint s)) = Ok (state_id s, counters s).
Proof.
  intros Hrep. pose proof (record_values_sorted _ _ _ _ Hrep) as Hs.
  pose proof (checkpoint_acceptable _ _ _ _ Hrep) as (_ & Hord & _).
  cbn [checkpoint checkpoint_new cp_records] in Hord |- *.
  assert (recompute_record_identity sha256 to_vec (record_values s) = Ok (state_id s, counters s)) as Hrec.
  { rewrite recompute_spec; [|eapply Forall_impl; [by eapply record_values_valid|by intros r [? _]]|done].
    by rewrite (collect_record_values _ _ _ _ Hrep), (rep_id _ _ _ _ Hrep), (rep_counters _ _ _ _ Hrep). }
  unfold fully_recomputed_state_id, recompute_checkpoint_identity. by rewrite Hord, Hrec.
Qed.
Lemma notam_incremental_identity_witness :
  fully_recomputed_state_id sample_digest sample_encoding (state sample_session) =
    Ok (state_id (state sample_session)).
Proof.
  apply (notam_incremental_identity sample_digest sample_encoding (state sample_session)
    {[ id sample_record := sample_record ]}). apply sample_represents.
Defined.

(** The records found for an airport are exactly those naming it as their airport or
    an alias, up to case and blanks, each once and in id order. *)
Theorem notam_airport_query sha256 to_vec s rs a :
  represents sha256 to_vec s rs →
  StronglySorted bytes_lt (id <$> airport_records s a) ∧
  ∀ r, r ∈ airport_records s a ↔
       rs !! id r = Some r ∧ normalize_airport_id a ∈ airport_keys r.
Proof. apply airport_records_spec. Qed.
Lemma notam_airport_query_witness : sample_record ∈ airport_records (state sample_session) (bs " sea ").
Proof.
  apply (notam_airport_query sample_digest sample_encoding (state sample_session)
    {[ id sample_record := sample_record ]}); [apply sample_represents|].
  split; [apply lookup_singleton_eq|].
  apply (bool_decide_unpack (normalize_airport_id (bs " sea ") ∈ airport_keys sample_record)).
  by vm_compute.
Defined.

(** A delta for another base state or contract, or out of order, changes nothing. *)
Theorem notam_delta_rejected sha256 to_vec d x :
  is_err (validate_contract (nd_schema_version d) (nd_product d) (nd_contract_version d)) = true ∨
  state_id (state x) ≠ nd_from_state_id d ∨
  is_err (validate_mutation_order (nd_mutations d)) = true →
  ∃ e, apply_delta sha256 to_vec d x = (Err e, x).
Proof.
  intros H. unfold apply_delta. rewrite ST_bind_unfold. cbn [st_lift].
  destruct (validate_contract _ _ _) as [[]|e]; [|by eexists].
  rewrite ST_bind_unfold. cbn [st_get]. rewrite ST_bind_unfold. cbn [st_lift].
  destruct (bool_decide_reflect (state_id (state x) = nd_from_state_id d)) as [Hbase|Hbase];
    cbn [negb guard_err]; [|by eexists].
  rewrite ST_bind_unfold. cbn [st_lift].
  destruct (validate_mutation_order _) as [[]|e]; [|by eexists].
  destruct H as [?|[?|?]]; done.
Qed.
Lemma notam_delta_rejected_witness :
  ∃ e, apply_delta sample_digest sample_encoding
         (delta_new (state_id (state empty_session)) [] zero_counters
            [Remove (bs "B"); Remove (bs "A")]) empty_session = (Err e, empty_session).
Proof. apply notam_delta_rejected. right. right. by vm_compute. Defined.

(** Two reachable states with the same state id are the same state, or they exhibit
    two inputs on which the digest collides. *)
Theorem notam_state_id_binds sha256 to_vec s s' :
  (∀ b, length (sha256 b) = 32%nat) →
  (∀ r r' b, to_vec r = Some b → to_vec r' = Some b → r = r') →
  reachable sha256 to_vec distinct_airports s → reachable sha256 to_vec distinct_airports s' →
  framable_records to_vec (records s) → framable_records to_vec (records s') →
  state_id s = state_id s' →
  s = s' ∨ ∃ a b, a ≠ b ∧ sha256 a = sha256 b.
Proof.
  intros Hlen Hinj Hs%reachable_represents Hs'%reachable_represents Hf Hf' Hid.
  rewrite (rep_id _ _ _ _ Hs), (rep_id _ _ _ _ Hs') in Hid. apply hash_hex_inj in Hid.
  destruct (root_bind sha256 to_vec Hlen Hinj (records s) (records s')) as [Heq|Hc];
    [by eapply rep_valid|by eapply rep_valid|exact Hf|exact Hf'|exact Hid|..].
  - left. rewrite <- Heq in Hs'. by eapply represents_unique.
  - by right.
Qed.
Lemma notam_state_id_binds_witness :
  state sample_session = state sample_session ∨ ∃ a b, a ≠ b ∧ sample_digest a = sample_digest b.
Proof.
  apply (notam_state_id_binds sample_digest sample_encoding);
    [apply sample_digest_length|apply sample_encoding_injective|apply sample_reachable..| | |reflexivity].
  all: rewrite (rep_records _ _ _ _ sample_represents); apply map_Forall_singleton; split; [by vm_compute|];
    intros b; unfold sample_encoding; rewrite decide_True by reflexivity; intros [= <-]; by vm_compute.
Defined.

(** ** Two spellings of one airport *)

Definition respelled_record : NotamRecord :=
  {| id := bs "N1"; subjects := ∅; airport_id := Some (bs "ksea"); airport_aliases := {[ bs "KSEA" ]};
     airport_effects := ∅; procedure_rendezvous_keys := ∅; notam_keyword := None;
     effective_start_utc := None; effective_end_utc := None; text := None; local_text := None;
     icao_text := None |}.
Definition any_encoding (r : NotamRecord) : option bytes := Some (id r).
Definition respelled_checkpoint : NotamCheckpoint :=
  match recompute_checkpoint_identity sample_digest any_encoding [respelled_record] with
  | Ok (i, c) => checkpoint_new i c [respelled_record]
  | Err _ => checkpoint_new [] zero_counters []
  end.

(** An alias that differs from the airport id only in case passes validation; a
    checkpoint with the record is accepted and lists it twice, while an upsert of the
    same record is refused. *)
Theorem notam_respelled_alias_diverges :
  is_err (canonical_record_bytes any_encoding respelled_record) = false ∧
  (λ s, by_airport s !! bs "KSEA") <$>
    (from_checkpoint sample_digest any_encoding respelled_checkpoint no_work).1 =
      Ok (Some [bs "N1"; bs "N1"]) ∧
  (apply_mutation sample_digest any_encoding (Upsert respelled_record) empty_session).1 =
    Err (Invariant (AlreadyInIndex (bs "N1"))).
Proof. split_and!; by vm_compute. Qed.
