(* ===== verification/NotamCatalog.v ===== *)
(** * The NOTAM airport catalog (crates/product-contracts)

    The airports a NOTAM can be filed against and the aliases of their identifiers:
    validation, the digest that identifies a catalog, and the union of the catalogs of
    several publication cycles, which follows chains of aliases and reports what it
    leaves out. [NotamAirportCatalog] is declared in lib.rs, the rest in
    notam_catalog_identity.rs. *)

From Stdlib Require Import Strings.Byte.
From stdpp Require Import base list strings gmap sorting sets.
From S2P Require Import Prelude Utf8 NotamRecord NotamState.

Local Open Scope Z_scope.

(** ** Data *)

Record NotamAirportCatalog := {
  cat_schema_version : Z;
  cat_airport_ids : gset bytes;
  cat_aliases : gmap bytes bytes
}.

Record NotamCatalogIdentity := {
  ci_schema_version : Z;
  ci_sha256 : bytes;
  ci_airport_count : Z
}.

Definition SCHEMA_VERSION : Z := 2.

(** The messages, with what they print. *)
Inductive catalog_error :=
| UnsupportedSchema (found : Z)
| DeliverySchema (found : Z)
| CatalogEmpty
| NonCanonicalId (airport_id : bytes)
| InvalidId (airport_id : bytes)
| InvalidAlias (alias target : bytes)
| ConflictingAlias (alias : bytes) (choices : gset bytes)
| DependsOnRejected (alias target : bytes)
| CyclicAlias (alias : bytes) (visited : gset bytes)
| IdentitySchema
| IdentityEmpty
| IdentityDigest.

#[export] Instance catalog_error_eq_dec : EqDecision catalog_error.
Proof. solve_decision. Defined.
#[export] Instance catalog_error_countable : Countable catalog_error.
Proof.
  refine (inj_countable'
    (λ e, match e with
          | UnsupportedSchema z => inl (inl (inl z))
          | DeliverySchema z => inl (inl (inr z))
          | CatalogEmpty => inl (inr (inl tt))
          | NonCanonicalId i => inl (inr (inr i))
          | InvalidId i => inr (inl (inl i))
          | InvalidAlias a t => inr (inl (inr (a, t)))
          | ConflictingAlias a c => inr (inr (inl (inl (a, c))))
          | DependsOnRejected a t => inr (inr (inl (inr (a, t))))
          | CyclicAlias a v => inr (inr (inr (inl (a, v))))
          | IdentitySchema => inr (inr (inr (inr 0%nat)))
          | IdentityEmpty => inr (inr (inr (inr 1%nat)))
          | IdentityDigest => inr (inr (inr (inr 2%nat)))
          end)
    (λ s, match s with
          | inl (inl (inl z)) => UnsupportedSchema z
          | inl (inl (inr z)) => DeliverySchema z
          | inl (inr (inl tt)) => CatalogEmpty
          | inl (inr (inr i)) => NonCanonicalId i
          | inr (inl (inl i)) => InvalidId i
          | inr (inl (inr (a, t))) => InvalidAlias a t
          | inr (inr (inl (inl (a, c)))) => ConflictingAlias a c
          | inr (inr (inl (inr (a, t)))) => DependsOnRejected a t
          | inr (inr (inr (inl (a, v)))) => CyclicAlias a v
          | inr (inr (inr (inr 0%nat))) => IdentitySchema
          | inr (inr (inr (inr 1%nat))) => IdentityEmpty
          | inr (inr (inr (inr _))) => IdentityDigest
          end) _).
  by intros [].
Defined.

(** Iteration over a [BTreeSet<String>], and its first element. *)
Definition ids_iter (s : gset bytes) : list bytes := merge_sort bytes_le (elements s).
Definition first_id (s : gset bytes) : option bytes := head (ids_iter s).

(** ** Validation *)

Definition upper_or_digit (b : byte) : bool := is_ascii_uppercase b || is_ascii_digit b.

Definition check_airport_id (airport_id : bytes) : result catalog_error unit :=
  guard_err (bool_decide (trim airport_id = [])
             || negb (bool_decide (airport_id = to_ascii_uppercase (trim airport_id))))
    (NonCanonicalId airport_id).

Definition check_alias (c : NotamAirportCatalog) (p : bytes * bytes) : result catalog_error unit :=
  let '(alias, target) := p in
  guard_err
    (bool_decide (alias = []) || negb (forallb upper_or_digit alias)
     || negb (bool_decide (target ∈ cat_airport_ids c))
     || (bool_decide (alias ∈ cat_airport_ids c) && negb (bool_decide (alias = target))))
    (InvalidAlias alias target).

Definition catalog_validate (c : NotamAirportCatalog) : result catalog_error unit :=
  _ ← guard_err (negb (cat_schema_version c =? SCHEMA_VERSION))
        (UnsupportedSchema (cat_schema_version c));
  _ ← guard_err (bool_decide (cat_airport_ids c = ∅)) CatalogEmpty;
  _ ← try_fold (λ _ i, check_airport_id i) tt (ids_iter (cat_airport_ids c));
  try_fold (λ _ p, check_alias c p) tt (map_iter (cat_aliases c)).

Definition identity_validate (i : NotamCatalogIdentity) : result catalog_error unit :=
  _ ← guard_err (negb (ci_schema_version i =? SCHEMA_VERSION)) IdentitySchema;
  _ ← guard_err (ci_airport_count i =? 0) IdentityEmpty;
  guard_err (negb (len (ci_sha256 i) =? 64)
             || negb (forallb (λ b, is_ascii_digit b || byte_in 97 102 (b2z b)) (ci_sha256 i)))
    IdentityDigest.

(** ** Identity *)

Section Catalog.
(** [Sha256::digest]. *)
Context (sha256 : bytes → bytes).

Definition IDENTITY_DOMAIN : bytes := bs "aerobag/notam-airport-catalog/v2" ++ [x00].

Definition canonical_identity (c : NotamAirportCatalog) : NotamCatalogIdentity :=
  let airport_count := Z.of_nat (size (cat_airport_ids c)) in
  {| ci_schema_version := cat_schema_version c;
     ci_airport_count := airport_count;
     ci_sha256 := hash_hex (sha256
       (IDENTITY_DOMAIN ++ be_bytes 4 (cat_schema_version c) ++ be_bytes 8 airport_count
        ++ concat (frame <$> ids_iter (cat_airport_ids c))
        ++ be_bytes 8 (Z.of_nat (size (cat_aliases c)))
        ++ concat ((λ p, frame p.1 ++ frame p.2) <$> map_iter (cat_aliases c)))) |}.

Definition catalog_identity (c : NotamAirportCatalog) : result catalog_error NotamCatalogIdentity :=
  _ ← catalog_validate c;
  _ ← try_fold (λ _ i, guard_err (negb (forallb upper_or_digit i)) (InvalidId i)) tt
        (ids_iter (cat_airport_ids c));
  Ok (canonical_identity c).

(** ** Union *)

Definition valid_id (i : bytes) : bool := negb (bool_decide (i = [])) && forallb upper_or_digit i.

(** The variables of [union_for_delivery]: the airports of the union, the diagnostics, the
    rejected aliases and the targets of every alias. *)
Record delivery := {
  dv_ids : gset bytes;
  dv_errors : gset catalog_error;
  dv_rejected : gset bytes;
  dv_targets : gmap bytes (gset bytes)
}.
Definition delivery_empty : delivery :=
  {| dv_ids := ∅; dv_errors := ∅; dv_rejected := ∅; dv_targets := ∅ |}.

Definition collect_id (d : delivery) (i : bytes) : delivery :=
  if valid_id i
  then {| dv_ids := {[i]} ∪ dv_ids d; dv_errors := dv_errors d; dv_rejected := dv_rejected d;
          dv_targets := dv_targets d |}
  else {| dv_ids := dv_ids d; dv_errors := {[InvalidId i]} ∪ dv_errors d;
          dv_rejected := dv_rejected d; dv_targets := dv_targets d |}.

Definition alias_invalid (c : NotamAirportCatalog) (alias target : bytes) : bool :=
  negb (valid_id alias) || negb (valid_id target)
  || negb (bool_decide (target ∈ cat_airport_ids c))
  || (bool_decide (alias ∈ cat_airport_ids c) && negb (bool_decide (alias = target))).

Definition collect_alias (c : NotamAirportCatalog) (d : delivery) (p : bytes * bytes) : delivery :=
  let '(alias, target) := p in
  let invalid := alias_invalid c alias target in
  {| dv_ids := dv_ids d;
     dv_errors := if invalid then {[InvalidAlias alias target]} ∪ dv_errors d else dv_errors d;
     dv_rejected := if invalid then {[alias]} ∪ dv_rejected d else dv_rejected d;
     dv_targets := <[alias := {[target]} ∪ default ∅ (dv_targets d !! alias)]> (dv_targets d) |}.

Definition collect_catalog (d : delivery) (c : NotamAirportCatalog) : result catalog_error delivery :=
  _ ← guard_err (negb (cat_schema_version c =? SCHEMA_VERSION))
        (DeliverySchema (cat_schema_version c));
  let d := if bool_decide (cat_airport_ids c = ∅)
           then {| dv_ids := dv_ids d; dv_errors := {[CatalogEmpty]} ∪ dv_errors d;
                   dv_rejected := dv_rejected d; dv_targets := dv_targets d |}
           else d in
  let d := foldl collect_id d (ids_iter (cat_airport_ids c)) in
  Ok (foldl (collect_alias c) d (map_iter (cat_aliases c))).

(** An alias with several targets is rejected. *)
Definition reject_conflict (d : delivery) (p : bytes * gset bytes) : delivery :=
  let '(alias, choices) := p in
  if negb (bool_decide (size choices = 1%nat))
  then {| dv_ids := dv_ids d; dv_errors := {[ConflictingAlias alias choices]} ∪ dv_errors d;
          dv_rejected := {[alias]} ∪ dv_rejected d; dv_targets := dv_targets d |}
  else d.

(** The loop that follows an alias. Every round but the last visits a new key of
    [targets], so their number bounds the rounds; [None] means the bound was hit. *)
Definition next_target (targets : gmap bytes (gset bytes)) (target : bytes) : option bytes :=
  targets !! target ≫= first_id.

Fixpoint resolve_loop (fuel : nat) (targets : gmap bytes (gset bytes)) (rejected : gset bytes)
    (alias : bytes) (visited : gset bytes) (target : bytes) : option (result catalog_error bytes) :=
  match fuel with
  | O => None
  | S fuel =>
      if bool_decide (target ∈ rejected) then Some (Err (DependsOnRejected alias target))
      else if bool_decide (target ∈ visited) then Some (Err (CyclicAlias alias visited))
      else
        let visited := {[target]} ∪ visited in
        match next_target targets target with
        | None => Some (Ok target)
        | Some next =>
            if bool_decide (next = target) then Some (Ok target)
            else resolve_loop fuel targets rejected alias visited next
        end
  end.
Definition resolve (targets : gmap bytes (gset bytes)) (rejected : gset bytes) (alias : bytes)
    : option (result catalog_error bytes) :=
  resolve_loop (S (S (size targets))) targets rejected alias ∅ alias.

(** The loop over the aliases. *)
Definition resolve_alias (targets : gmap bytes (gset bytes)) (rejected : gset bytes)
    (acc : gmap bytes bytes * gset catalog_error) (alias : bytes)
    : gmap bytes bytes * gset catalog_error :=
  if bool_decide (alias ∈ rejected) then acc
  else
    match resolve targets rejected alias with
    | Some (Ok target) => (<[alias := target]> acc.1, acc.2)
    | Some (Err e) => (acc.1, {[e]} ∪ acc.2)
    | None => acc
    end.

Definition drop_alias (aliases : gmap bytes bytes) (ids : gset bytes) (alias : bytes) : gset bytes :=
  if bool_decide (aliases !! alias = Some alias) then ids else ids ∖ {[alias]}.

(** The part after the catalogs were collected. *)
Definition deliver_union (d : delivery) : NotamAirportCatalog * gset catalog_error :=
  let d := foldl reject_conflict d (map_iter (dv_targets d)) in
  let keys := fst <$> map_iter (dv_targets d) in
  let '(aliases, errors) :=
    foldl (resolve_alias (dv_targets d) (dv_rejected d)) (∅, dv_errors d) keys in
  ({| cat_schema_version := SCHEMA_VERSION;
      cat_airport_ids := foldl (drop_alias aliases) (dv_ids d) keys;
      cat_aliases := aliases |}, errors).

Definition union_for_delivery (catalogs : list NotamAirportCatalog)
    : result catalog_error (NotamAirportCatalog * gset catalog_error) :=
  d ← try_fold collect_catalog delivery_empty catalogs;
  let '(union, errors) := deliver_union d in
  _ ← catalog_identity union;
  Ok (union, errors).

(** The errors of [union]: one message, or the diagnostics joined. *)
Inductive union_error :=
| UnionError (e : catalog_error)
| UnionDiagnostics (errors : gset catalog_error).

Definition catalog_union (catalogs : list NotamAirportCatalog)
    : result union_error NotamAirportCatalog :=
  _ ← map_err UnionError (try_fold (λ _ c, _ ← catalog_identity c; Ok tt) tt catalogs);
  '(catalog, errors) ← map_err UnionError (union_for_delivery catalogs);
  _ ← guard_err (negb (bool_decide (errors = ∅))) (UnionDiagnostics errors);
  Ok catalog.

End Catalog.

(** The examples of the crate's tests. *)
Definition sample_catalog (ids : list bytes) (aliases : list (bytes * bytes)) : NotamAirportCatalog :=
  {| cat_schema_version := SCHEMA_VERSION; cat_airport_ids := list_to_set ids;
     cat_aliases := list_to_map aliases |}.
(** A catalog as the lists of its airports and aliases, in order. *)
Definition catalog_lists (c : NotamAirportCatalog) : list bytes * list (bytes * bytes) :=
  (ids_iter (cat_airport_ids c), map_iter (cat_aliases c)).

Example union_flattens_chains :
  (λ r, catalog_lists r.1) <$>
    union_for_delivery (λ _, [])
      [sample_catalog [bs "BBB"] [(bs "AAA", bs "BBB")]; sample_catalog [bs "CCC"] [(bs "BBB", bs "CCC")]]
  = Ok ([bs "CCC"], [(bs "AAA", bs "CCC"); (bs "BBB", bs "CCC")]).
Proof. vm_compute. reflexivity. Qed.
Example union_drops_cycles :
  (λ r, (catalog_lists r.1, size r.2)) <$>
    union_for_delivery (λ _, [])
      [sample_catalog [bs "BBB"; bs "KSEA"] [(bs "AAA", bs "BBB")];
       sample_catalog [bs "AAA"] [(bs "BBB", bs "AAA")]]
  = Ok ([bs "KSEA"], [], 2%nat).
Proof. vm_compute. reflexivity. Qed.
Example union_conflict_and_dependent :
  (λ r, (catalog_lists r.1, size r.2)) <$>
    union_for_delivery (λ _, [])
      [sample_catalog [bs "PAFT"; bs "PXYZ"] [(bs "FLT", bs "PAFT")];
       sample_catalog [bs "PAFT"; bs "PXYZ"] [(bs "FLT", bs "PXYZ")];
       sample_catalog [bs "FLT"] [(bs "OLD", bs "FLT")]]
  = Ok ([bs "PAFT"; bs "PXYZ"], [], 2%nat).
Proof. vm_compute. reflexivity. Qed.
