(* ===== verification/NotamCatalogCorrect.v ===== *)
(** * Correctness of the airport catalog

    First what the loops of [union_for_delivery] compute, as a description that does not
    mention an order: which airports are known, where aliases point, which are rejected and
    where an alias leads. Following an alias always ends.

    What remains of a union is valid unless it is empty; the union does not depend on the
    order of the catalogs; a strict union loses no name; a valid catalog is its own union;
    and the digest of a catalog identifies it. *)

From Stdlib Require Import Strings.Byte.
From stdpp Require Import base list strings gmap sorting sets.
From S2P Require Import Prelude Utf8 HadKey Search ProcedureKeys ProcedureKeysCorrect.
From S2P Require Import NotamRecord NotamState NotamIndex NotamRefine NotamCorrect.
From S2P Require Import NotamCatalog.

Local Open Scope Z_scope.

(** ** Ordered iteration over sets of identifiers *)

Lemma elem_of_ids_iter s i : i ∈ ids_iter s ↔ i ∈ s.
Proof. unfold ids_iter. by rewrite merge_sort_Permutation, elem_of_elements. Qed.

Lemma first_id_None s : first_id s = None ↔ s = ∅.
Proof.
  unfold first_id. split.
  - intros Hh. apply set_eq. intros i. rewrite <- elem_of_ids_iter.
    destruct (ids_iter s); [|done]. set_solver.
  - by intros ->.
Qed.

Lemma first_id_elem s i : first_id s = Some i → i ∈ s.
Proof.
  unfold first_id. intros Hh. apply elem_of_ids_iter. destruct (ids_iter s); [done|].
  injection Hh as ->. left.
Qed.

Lemma first_id_singleton i : first_id {[i]} = Some i.
Proof. unfold first_id, ids_iter. by rewrite elements_singleton. Qed.

Lemma try_fold_unit {E A} (f : A → result E unit) l :
  try_fold (λ _ x, f x) tt l = Ok tt ↔ ∀ x, x ∈ l → f x = Ok tt.
Proof.
  induction l as [|x l IH]; cbn [try_fold]; [split; [set_solver|done]|].
  rewrite bind_Ok. split.
  - intros ([] & Hx & Hl) y Hy. apply elem_of_cons in Hy as [->|Hy]; [done|]. by apply IH.
  - intros Hall. exists tt. split; [apply Hall; left|]. apply IH. intros y Hy. apply Hall. by right.
Qed.

(** ** What the catalogs say *)

Section Facts.
Context (cs : list NotamAirportCatalog).

Definition known (i : bytes) : Prop := ∃ c, c ∈ cs ∧ i ∈ cat_airport_ids c ∧ valid_id i = true.
Definition edge (a t : bytes) : Prop := ∃ c, c ∈ cs ∧ cat_aliases c !! a = Some t.
Definition bad_alias (a : bytes) : Prop :=
  ∃ c t, c ∈ cs ∧ cat_aliases c !! a = Some t ∧ alias_invalid c a t = true.

Inductive diagnosed : catalog_error → Prop :=
| diagnosed_empty c : c ∈ cs → cat_airport_ids c = ∅ → diagnosed CatalogEmpty
| diagnosed_id c i : c ∈ cs → i ∈ cat_airport_ids c → valid_id i = false → diagnosed (InvalidId i)
| diagnosed_alias c a t :
    c ∈ cs → cat_aliases c !! a = Some t → alias_invalid c a t = true →
    diagnosed (InvalidAlias a t).

(** The variables after the loop over the catalogs. *)
Record collected (d : delivery) : Prop := {
  collected_ids i : i ∈ dv_ids d ↔ known i;
  collected_errors e : e ∈ dv_errors d ↔ diagnosed e;
  collected_rejected a : a ∈ dv_rejected d ↔ bad_alias a;
  collected_targets a t : t ∈ default ∅ (dv_targets d !! a) ↔ edge a t;
  collected_nonempty a : dv_targets d !! a ≠ Some ∅
}.
End Facts.

(** The description determines the variables. *)
Lemma targets_eq (m m' : gmap bytes (gset bytes)) :
  (∀ a, m !! a ≠ Some ∅) → (∀ a, m' !! a ≠ Some ∅) →
  (∀ a t, t ∈ default ∅ (m !! a) ↔ t ∈ default ∅ (m' !! a)) → m = m'.
Proof.
  intros Hm Hm' Heq. apply map_eq. intros a. specialize (Hm a). specialize (Hm' a).
  assert (default ∅ (m !! a) = default ∅ (m' !! a)) as Hd by (apply set_eq; apply Heq).
  destruct (m !! a) as [s|], (m' !! a) as [s'|]; cbn in Hd; subst; done.
Qed.

Lemma collected_det cs d d' : collected cs d → collected cs d' → d = d'.
Proof.
  intros [Hi He Hr Ht Hn] [Hi' He' Hr' Ht' Hn']. destruct d as [ids errors rej targets],
    d' as [ids' errors' rej' targets']; cbn in *.
  assert (ids = ids') as -> by (apply set_eq; intros; by rewrite Hi, Hi').
  assert (errors = errors') as -> by (apply set_eq; intros; by rewrite He, He').
  assert (rej = rej') as -> by (apply set_eq; intros; by rewrite Hr, Hr').
  f_equal. apply targets_eq; [done..|]. intros; by rewrite Ht, Ht'.
Qed.

Lemma collected_perm cs cs' d : cs ≡ₚ cs' → collected cs d → collected cs' d.
Proof.
  intros Hp [Hi He Hr Ht Hn]. split; [intros i|intros e|intros a|intros a t|done].
  - rewrite Hi. unfold known. by setoid_rewrite Hp.
  - rewrite He. split; intros []; econstructor; eauto; by (rewrite Hp || rewrite <- Hp).
  - rewrite Hr. unfold bad_alias. by setoid_rewrite Hp.
  - rewrite Ht. unfold edge. by setoid_rewrite Hp.
Qed.

(** ** Collecting *)

Lemma elem_of_snoc {A} (l : list A) x y : x ∈ l ++ [y] ↔ x ∈ l ∨ x = y.
Proof. by rewrite elem_of_app, list_elem_of_singleton. Qed.

Lemma collect_id_spec d i :
  (∀ x, x ∈ dv_ids (collect_id d i) ↔ x ∈ dv_ids d ∨ x = i ∧ valid_id i = true) ∧
  (∀ e, e ∈ dv_errors (collect_id d i) ↔ e ∈ dv_errors d ∨ valid_id i = false ∧ e = InvalidId i) ∧
  dv_rejected (collect_id d i) = dv_rejected d ∧ dv_targets (collect_id d i) = dv_targets d.
Proof.
  unfold collect_id. destruct (valid_id i); cbn; split_and!; try done; intros x;
    rewrite ?elem_of_union, ?elem_of_singleton; naive_solver.
Qed.

Lemma collect_ids_spec l d :
  let d' := foldl collect_id d l in
  (∀ i, i ∈ dv_ids d' ↔ i ∈ dv_ids d ∨ i ∈ l ∧ valid_id i = true) ∧
  (∀ e, e ∈ dv_errors d' ↔ e ∈ dv_errors d ∨ ∃ i, i ∈ l ∧ valid_id i = false ∧ e = InvalidId i) ∧
  dv_rejected d' = dv_rejected d ∧ dv_targets d' = dv_targets d.
Proof.
  cbn zeta. revert d. induction l as [|i l IH]; intros d; cbn [foldl].
  - split_and!; try done; intros x; split; try (by left); intros [?|Hx]; try done.
    + by destruct Hx as [?%elem_of_nil _].
    + by destruct Hx as (? & ?%elem_of_nil & _).
  - destruct (IH (collect_id d i)) as (Hi & He & Hr & Ht). clear IH.
    destruct (collect_id_spec d i) as (Hi1 & He1 & Hr1 & Ht1). split_and!.
    + intros x. rewrite Hi, Hi1, elem_of_cons. clear. naive_solver.
    + intros x. rewrite He, He1. setoid_rewrite elem_of_cons. clear. naive_solver.
    + by rewrite Hr.
    + by rewrite Ht.
Qed.

Lemma collect_alias_spec c d a t :
  let d' := collect_alias c d (a, t) in
  dv_ids d' = dv_ids d ∧
  (∀ e, e ∈ dv_errors d' ↔ e ∈ dv_errors d ∨ alias_invalid c a t = true ∧ e = InvalidAlias a t) ∧
  (∀ x, x ∈ dv_rejected d' ↔ x ∈ dv_rejected d ∨ x = a ∧ alias_invalid c a t = true) ∧
  (∀ x y, y ∈ default ∅ (dv_targets d' !! x) ↔ y ∈ default ∅ (dv_targets d !! x) ∨ x = a ∧ y = t) ∧
  ((∀ x, dv_targets d !! x ≠ Some ∅) → ∀ x, dv_targets d' !! x ≠ Some ∅).
Proof.
  cbn. split_and!; [done|intros x..|].
  - destruct (alias_invalid c a t); rewrite ?elem_of_union, ?elem_of_singleton; naive_solver.
  - destruct (alias_invalid c a t); rewrite ?elem_of_union, ?elem_of_singleton; naive_solver.
  - intros y. destruct (decide (a = x)) as [<-|Hne].
    + rewrite lookup_insert_eq. cbn. rewrite elem_of_union, elem_of_singleton. naive_solver.
    + rewrite lookup_insert_ne by done. naive_solver.
  - intros Hd x. destruct (decide (a = x)) as [<-|Hne].
    + rewrite lookup_insert_eq. intros [= Heq]. apply (not_elem_of_empty (C:=gset bytes) t).
      rewrite <- Heq. apply elem_of_union. left. by apply elem_of_singleton.
    + rewrite lookup_insert_ne by done. apply Hd.
Qed.

Lemma collect_aliases_spec c l d :
  let d' := foldl (collect_alias c) d l in
  dv_ids d' = dv_ids d ∧
  (∀ e, e ∈ dv_errors d' ↔ e ∈ dv_errors d ∨
     ∃ a t, (a, t) ∈ l ∧ alias_invalid c a t = true ∧ e = InvalidAlias a t) ∧
  (∀ a, a ∈ dv_rejected d' ↔ a ∈ dv_rejected d ∨ ∃ t, (a, t) ∈ l ∧ alias_invalid c a t = true) ∧
  (∀ a t, t ∈ default ∅ (dv_targets d' !! a) ↔ t ∈ default ∅ (dv_targets d !! a) ∨ (a, t) ∈ l) ∧
  ((∀ a, dv_targets d !! a ≠ Some ∅) → ∀ a, dv_targets d' !! a ≠ Some ∅).
Proof.
  cbn zeta. revert d. induction l as [|[a t] l IH]; intros d; cbn [foldl].
  - split_and!; try done; intros *; split; try (by left); intros [?|Hx]; try done.
    + by destruct Hx as (? & ? & ?%elem_of_nil & _).
    + by destruct Hx as (? & ?%elem_of_nil & _).
    + by apply elem_of_nil in Hx.
  - destruct (IH (collect_alias c d (a, t))) as (Hi & He & Hr & Ht & Hn). clear IH.
    destruct (collect_alias_spec c d a t) as (Hi1 & He1 & Hr1 & Ht1 & Hn1). split_and!.
    + by rewrite Hi.
    + intros e. rewrite He, He1. setoid_rewrite elem_of_cons. clear. naive_solver.
    + intros x. rewrite Hr, Hr1. setoid_rewrite elem_of_cons. clear. naive_solver.
    + intros x y. rewrite Ht, Ht1, elem_of_cons. clear. naive_solver.
    + auto.
Qed.

Lemma collected_nil : collected [] delivery_empty.
Proof.
  split; [intros i|intros e|intros a|intros a t|intros a]; cbn.
  - unfold known. setoid_rewrite elem_of_nil. set_solver.
  - split; [set_solver|]. intros [? []%elem_of_nil|? ? []%elem_of_nil|? ? ? []%elem_of_nil].
  - unfold bad_alias. setoid_rewrite elem_of_nil. set_solver.
  - unfold edge. setoid_rewrite elem_of_nil. rewrite lookup_empty. set_solver.
  - by rewrite lookup_empty.
Qed.

Lemma collected_snoc cs d c :
  collected cs d → cat_schema_version c = SCHEMA_VERSION →
  ∃ d', collect_catalog d c = Ok d' ∧ collected (cs ++ [c]) d'.
Proof.
  intros [Hi He Hr Ht Hn] Hc. unfold collect_catalog. rewrite Hc. cbn [guard_err negb].
  set (d0 := if bool_decide _ then _ else d).
  assert (dv_ids d0 = dv_ids d ∧ dv_rejected d0 = dv_rejected d ∧ dv_targets d0 = dv_targets d ∧
    ∀ e, e ∈ dv_errors d0 ↔ e ∈ dv_errors d ∨ cat_airport_ids c = ∅ ∧ e = CatalogEmpty)
    as (Hi0 & Hr0 & Ht0 & He0).
  { unfold d0. case_bool_decide; cbn; split_and!; try done; intros e;
      rewrite ?elem_of_union, ?elem_of_singleton; naive_solver. }
  destruct (collect_ids_spec (ids_iter (cat_airport_ids c)) d0) as (Hi1 & He1 & Hr1 & Ht1).
  destruct (collect_aliases_spec c (map_iter (cat_aliases c))
    (foldl collect_id d0 (ids_iter (cat_airport_ids c)))) as (Hi2 & He2 & Hr2 & Ht2 & Hn2).
  eexists. split; [reflexivity|].
  setoid_rewrite elem_of_map_iter in He2. setoid_rewrite elem_of_map_iter in Hr2.
  setoid_rewrite elem_of_map_iter in Ht2. setoid_rewrite elem_of_ids_iter in Hi1.
  setoid_rewrite elem_of_ids_iter in He1.
  split; [intros i|intros e|intros a|intros a t|].
  - rewrite Hi2, Hi1, Hi0, Hi. unfold known. setoid_rewrite elem_of_snoc. clear. naive_solver.
  - rewrite He2, He1, He0, He. clear. split.
    + intros [[[[]|[? ->]]|(i & ? & ? & ->)]|(a & t & ? & ? & ->)];
        econstructor; try done; apply elem_of_snoc; auto.
    + intros [x Hx ?|x ? Hx ?|x ?? Hx ?]; apply elem_of_snoc in Hx as [Hx|Hx];
        subst; try (left; left; left; by econstructor); naive_solver.
  - rewrite Hr2, Hr1, Hr0, Hr. unfold bad_alias. setoid_rewrite elem_of_snoc. clear. naive_solver.
  - rewrite Ht2, Ht1, Ht0, Ht. unfold edge. setoid_rewrite elem_of_snoc. clear. naive_solver.
  - apply Hn2. rewrite Ht1, Ht0. done.
Qed.

(** ** All catalogs *)

Definition supported (cs : list NotamAirportCatalog) : Prop :=
  Forall (λ c, cat_schema_version c = SCHEMA_VERSION) cs.

(** The catalog whose schema is not supported that comes first. *)
Definition first_unsupported (cs : list NotamAirportCatalog) : option NotamAirportCatalog :=
  find (λ c, negb (cat_schema_version c =? SCHEMA_VERSION)) cs.

Lemma first_unsupported_None cs : first_unsupported cs = None ↔ supported cs.
Proof.
  unfold first_unsupported, supported. rewrite Forall_forall. split.
  - intros Hf c Hc%list_elem_of_In. pose proof (find_none _ _ Hf c Hc) as Hn. simpl in Hn. lia.
  - intros Hs. destruct (find _ cs) as [c|] eqn:Hf; [|done].
    apply find_some in Hf as [Hc%list_elem_of_In Hv]. apply Hs in Hc. lia.
Qed.

Lemma collect_unsupported cs d c :
  first_unsupported cs = Some c →
  try_fold collect_catalog d cs = Err (DeliverySchema (cat_schema_version c)).
Proof.
  revert d. induction cs as [|c0 cs IH]; intros d; [done|]. unfold first_unsupported. cbn [find try_fold].
  destruct (Z.eqb_spec (cat_schema_version c0) SCHEMA_VERSION) as [Hv|Hv]; cbn [negb].
  - intros Hf. assert (∃ d', collect_catalog d c0 = Ok d') as [d' ->].
    { unfold collect_catalog. rewrite Hv. by eexists. }
    by apply IH.
  - intros [= <-]. assert (collect_catalog d c0 = Err (DeliverySchema (cat_schema_version c0))) as ->; [|done].
    unfold collect_catalog. by rewrite (proj2 (Z.eqb_neq _ _) Hv).
Qed.

Lemma collect_all cs0 cs d :
  collected cs0 d → supported cs →
  ∃ d', try_fold collect_catalog d cs = Ok d' ∧ collected (cs0 ++ cs) d'.
Proof.
  intros Hd Hcs. revert cs0 d Hd. induction Hcs as [|c cs Hc Hcs IH]; intros cs0 d Hd.
  - exists d. by rewrite app_nil_r.
  - destruct (collected_snoc cs0 d c Hd Hc) as (d1 & Hd1 & Hcol).
    destruct (IH _ _ Hcol) as (d2 & Hd2 & Hcol2). exists d2. split.
    + cbn [try_fold]. rewrite Hd1. exact Hd2.
    + by rewrite <- app_assoc in Hcol2.
Qed.

(** ** Conflicts *)

Lemma reject_conflicts_spec l d :
  let d' := foldl reject_conflict d l in
  dv_ids d' = dv_ids d ∧ dv_targets d' = dv_targets d ∧
  (∀ a, a ∈ dv_rejected d' ↔ a ∈ dv_rejected d ∨ ∃ s, (a, s) ∈ l ∧ size s ≠ 1%nat) ∧
  (∀ e, e ∈ dv_errors d' ↔ e ∈ dv_errors d ∨
     ∃ a s, (a, s) ∈ l ∧ size s ≠ 1%nat ∧ e = ConflictingAlias a s).
Proof.
  cbn zeta. revert d. induction l as [|[a s] l IH]; intros d; cbn [foldl].
  - split_and!; try done; intros x; split; try (by left); intros [?|Hx]; try done.
    + by destruct Hx as (? & ?%elem_of_nil & _).
    + by destruct Hx as (? & ? & ?%elem_of_nil & _).
  - destruct (IH (reject_conflict d (a, s))) as (Hi & Ht & Hr & He). clear IH.
    rewrite Hi, Ht. setoid_rewrite Hr. setoid_rewrite He. setoid_rewrite elem_of_cons. clear Hi Ht Hr He.
    unfold reject_conflict. case_bool_decide as Hs; cbn [negb].
    + split_and!; try done; intros x; naive_solver.
    + cbn. split_and!; try done; intros x; rewrite elem_of_union, elem_of_singleton; naive_solver.
Qed.

(** ** Following aliases *)

Section Resolve.
Context (targets : gmap bytes (gset bytes)) (rejected : gset bytes).

(** [leads n a t]: in [n] steps over aliases none of which is rejected, [a] leads to [t],
    which points nowhere else. *)
Inductive leads : nat → bytes → bytes → Prop :=
| leads_end a :
    a ∉ rejected → next_target targets a = None ∨ next_target targets a = Some a → leads 0 a a
| leads_step n a b t :
    a ∉ rejected → next_target targets a = Some b → b ≠ a → leads n b t → leads (S n) a t.

Lemma leads_det n m a t t' : leads n a t → leads m a t' → n = m ∧ t = t'.
Proof.
  intros Hn. revert m t'. induction Hn as [a Ha Hend|n a b t Ha Hb Hne Hn IH]; intros m t' Hm.
  - destruct Hm as [|m a b t' ? Hb]; [done|]. destruct Hend; congruence.
  - destruct Hm as [a ? [?|?]|m a b' t' ? Hb' ? Hm]; [congruence..|].
    rewrite Hb in Hb'. injection Hb' as <-. by destruct (IH m t' Hm) as [-> ->].
Qed.

Lemma leads_not_rejected n a t : leads n a t → a ∉ rejected ∧ t ∉ rejected.
Proof. induction 1; naive_solver. Qed.

Lemma next_target_dom a b : next_target targets a = Some b → a ∈ dom targets.
Proof. unfold next_target. intros (s & Hs & _)%bind_Some. by apply elem_of_dom_2 in Hs. Qed.

(** The loop ends within its bound. *)
Lemma resolve_loop_ends fuel alias visited a :
  (size (dom targets ∖ visited) < fuel)%nat →
  is_Some (resolve_loop fuel targets rejected alias visited a).
Proof.
  revert visited a. induction fuel as [|fuel IH]; intros visited a Hf; [lia|]. cbn [resolve_loop].
  case_bool_decide; [done|]. case_bool_decide as Hv; [done|].
  destruct (next_target targets a) as [b|] eqn:Hb; [|done]. case_bool_decide; [done|].
  apply IH. apply next_target_dom in Hb.
  assert (size (dom targets ∖ ({[a]} ∪ visited)) < size (dom targets ∖ visited))%nat; [|lia].
  apply subset_size. split; [set_solver|]. intros Hsub.
  assert (a ∈ dom targets ∖ visited) as Ha by set_solver. apply Hsub in Ha. set_solver.
Qed.

Lemma resolve_ends alias : is_Some (resolve targets rejected alias).
Proof.
  apply resolve_loop_ends. rewrite difference_empty_L, size_dom. lia.
Qed.

(** It answers with the alias's end, when there is one. *)
Lemma resolve_loop_sound fuel alias visited a t :
  resolve_loop fuel targets rejected alias visited a = Some (Ok t) → ∃ n, leads n a t.
Proof.
  revert visited a. induction fuel as [|fuel IH]; intros visited a; [done|]. cbn [resolve_loop].
  case_bool_decide as Hr; [done|]. case_bool_decide as Hv; [done|].
  destruct (next_target targets a) as [b|] eqn:Hb.
  - case_bool_decide as Hne.
    + intros [= <-]. exists 0%nat. subst. constructor; auto.
    + intros (n & Hn)%IH. exists (S n). by econstructor.
  - intros [= <-]. exists 0%nat. constructor; auto.
Qed.

Lemma resolve_loop_complete n fuel alias visited a t :
  leads n a t → (∀ x, x ∈ visited → ∃ m, (n < m)%nat ∧ leads m x t) →
  is_Some (resolve_loop fuel targets rejected alias visited a) →
  resolve_loop fuel targets rejected alias visited a = Some (Ok t).
Proof.
  revert fuel visited a. induction n as [n IH] using lt_wf_ind. intros [|fuel] visited a Hn Hvis Hs;
    cbn [resolve_loop] in *; [by destruct Hs|].
  pose proof (leads_not_rejected _ _ _ Hn) as [Ha _].
  rewrite bool_decide_eq_false_2 in Hs |- * by done.
  assert (a ∉ visited) as Hav.
  { intros (m & Hm & Hl)%Hvis. destruct (leads_det _ _ _ _ _ Hn Hl). lia. }
  rewrite bool_decide_eq_false_2 in Hs |- * by done.
  destruct Hn as [a _ [Hb|Hb]|n a b t _ Hb Hne Hn]; rewrite Hb in Hs |- *; [done|by rewrite bool_decide_eq_true_2|].
  rewrite bool_decide_eq_false_2 in Hs |- * by done. apply (IH n); [lia|done| |done].
  intros x [->%elem_of_singleton|(m & Hm & Hl)%Hvis]%elem_of_union.
  - exists (S n). split; [lia|]. by econstructor.
  - exists m. split; [lia|done].
Qed.

Lemma resolve_iff alias t : resolve targets rejected alias = Some (Ok t) ↔ ∃ n, leads n alias t.
Proof.
  split; [apply resolve_loop_sound|]. intros (n & Hn).
  apply (resolve_loop_complete n); [done|set_solver|apply resolve_ends].
Qed.

(** ** The loop over the aliases *)

Lemma resolve_aliases_spec keys acc :
  (∀ a, a ∈ keys → acc.1 !! a = None) → NoDup keys →
  let acc' := foldl (resolve_alias targets rejected) acc keys in
  (∀ a t, acc'.1 !! a = Some t ↔ acc.1 !! a = Some t ∨ a ∈ keys ∧ ∃ n, leads n a t) ∧
  (∀ e, e ∈ acc'.2 ↔ e ∈ acc.2 ∨
     ∃ a, a ∈ keys ∧ a ∉ rejected ∧ resolve targets rejected a = Some (Err e)).
Proof.
  cbn zeta. revert acc. induction keys as [|a keys IH]; intros acc Hacc Hnd; cbn [foldl].
  - split; intros *; split; try (by left); intros [?|Hx]; try done.
    + by destruct Hx as [?%elem_of_nil _].
    + by destruct Hx as (? & ?%elem_of_nil & _).
  - apply NoDup_cons in Hnd as [Hna Hnd].
    assert (∀ t, (resolve_alias targets rejected acc a).1 !! a = Some t ↔ ∃ n, leads n a t) as Hself.
    { intros t. unfold resolve_alias. rewrite <- resolve_iff. specialize (Hacc a ltac:(left)).
      case_bool_decide as Hr.
      - rewrite Hacc. split; [done|]. intros (n & Hn)%resolve_iff. by apply leads_not_rejected in Hn as [? _].
      - destruct (resolve targets rejected a) as [[u|e]|]; cbn; rewrite ?lookup_insert_eq, ?Hacc; naive_solver. }
    assert (∀ b, b ≠ a → (resolve_alias targets rejected acc a).1 !! b = acc.1 !! b) as Hother.
    { intros b Hb. unfold resolve_alias. case_bool_decide; [done|].
      destruct (resolve targets rejected a) as [[u|e]|]; cbn; by rewrite ?lookup_insert_ne by done. }
    assert (∀ e, e ∈ (resolve_alias targets rejected acc a).2 ↔ e ∈ acc.2 ∨
      a ∉ rejected ∧ resolve targets rejected a = Some (Err e)) as Herr.
    { intros e. unfold resolve_alias. case_bool_decide; [naive_solver|].
      destruct (resolve targets rejected a) as [[u|e']|]; cbn;
        rewrite ?elem_of_union, ?elem_of_singleton; naive_solver. }
    destruct (IH (resolve_alias targets rejected acc a)) as [Hl He].
    { intros b Hb. rewrite Hother by (by intros ->). apply Hacc. by right. }
    { done. }
    split.
    + intros b t. rewrite Hl, elem_of_cons. destruct (decide (b = a)) as [->|Hb].
      * rewrite Hself. rewrite (Hacc a) by left. naive_solver.
      * rewrite Hother by done. naive_solver.
    + intros e. rewrite He, Herr. setoid_rewrite elem_of_cons. clear. naive_solver.
Qed.
End Resolve.

(** ** The union *)

Lemma drop_aliases_spec aliases keys ids i :
  i ∈ foldl (drop_alias aliases) ids keys ↔ i ∈ ids ∧ (i ∈ keys → aliases !! i = Some i).
Proof.
  revert ids. induction keys as [|a keys IH]; intros ids; cbn [foldl].
  - split; [|naive_solver]. intros Hi. split; [done|]. by intros ?%elem_of_nil.
  - rewrite IH, elem_of_cons. unfold drop_alias. case_bool_decide as Ha.
    + naive_solver.
    + rewrite elem_of_difference, elem_of_singleton. naive_solver.
Qed.

Section Delivered.
Context (cs : list NotamAirportCatalog) (d : delivery) (Hd : collected cs d).

(** An alias is rejected when a catalog states it wrongly or when they disagree. *)
Definition all_rejected : gset bytes := dv_rejected (foldl reject_conflict d (map_iter (dv_targets d))).
Definition union_of : NotamAirportCatalog := (deliver_union d).1.

Lemma conflicts_kept :
  dv_ids (foldl reject_conflict d (map_iter (dv_targets d))) = dv_ids d ∧
  dv_targets (foldl reject_conflict d (map_iter (dv_targets d))) = dv_targets d.
Proof. by destruct (reject_conflicts_spec (map_iter (dv_targets d)) d) as (? & ? & _). Qed.

Lemma keys_spec a : a ∈ (map_iter (dv_targets d)).*1 ↔ ∃ t, edge cs a t.
Proof.
  destruct Hd as [_ _ _ Ht Hn]. rewrite list_elem_of_fmap. split.
  - intros ([a' s] & -> & Hs%elem_of_map_iter). cbn. destruct (set_choose_or_empty s) as [(t & Hin)|Hempty].
    + exists t. apply Ht. by rewrite Hs.
    + apply leibniz_equiv in Hempty. subst. by apply Hn in Hs.
  - intros (t & Hin%Ht). destruct (dv_targets d !! a) as [s|] eqn:Hs; [|by apply not_elem_of_empty in Hin].
    exists (a, s). split; [done|]. by apply elem_of_map_iter.
Qed.

Lemma keys_NoDup : NoDup (map_iter (dv_targets d)).*1.
Proof. rewrite map_iter_Permutation. apply NoDup_fst_map_to_list. Qed.

Lemma union_aliases_spec a t :
  cat_aliases union_of !! a = Some t ↔
  (∃ t0, edge cs a t0) ∧ ∃ n, leads (dv_targets d) all_rejected n a t.
Proof.
  unfold union_of, deliver_union, all_rejected. destruct conflicts_kept as [_ Htargets].
  rewrite Htargets. set (rej := dv_rejected _). set (errs := dv_errors _).
  destruct (resolve_aliases_spec (dv_targets d) rej (map_iter (dv_targets d)).*1 (∅, errs)) as [Hl _].
  { intros b _. apply lookup_empty. } { apply keys_NoDup. }
  destruct (foldl (resolve_alias _ _) _ _) as [aliases errors]. cbn in *. rewrite Hl, lookup_empty, keys_spec. naive_solver.
Qed.

Lemma union_ids_spec i :
  i ∈ cat_airport_ids union_of ↔
  known cs i ∧ ((∃ t, edge cs i t) → cat_aliases union_of !! i = Some i).
Proof.
  unfold union_of, deliver_union. destruct conflicts_kept as [Hids Htargets].
  rewrite Hids, Htargets. destruct (foldl (resolve_alias _ _) _ _) as [aliases errors]. cbn.
  rewrite drop_aliases_spec, keys_spec. by rewrite (collected_ids _ _ Hd).
Qed.

(** An alias that is not rejected is stated rightly wherever it is stated. *)
Lemma edge_good a t :
  a ∉ all_rejected → edge cs a t →
  valid_id a = true ∧ known cs t ∧ dv_targets d !! a = Some {[t]} ∧
  ∀ c, c ∈ cs → cat_aliases c !! a = Some t → a ∈ cat_airport_ids c → a = t.
Proof.
  intros Ha He.
  destruct (reject_conflicts_spec (map_iter (dv_targets d)) d) as (_ & _ & Hr & _).
  unfold all_rejected in Ha. rewrite Hr in Ha. apply Decidable.not_or in Ha as [Hbad Hsize].
  rewrite (collected_rejected _ _ Hd) in Hbad.
  assert (∀ c t, c ∈ cs → cat_aliases c !! a = Some t → alias_invalid c a t = false) as Hgood.
  { intros c t' Hc Ha. apply not_true_is_false. intros Hinv. apply Hbad. by exists c, t'. }
  pose proof He as (c & Hc & Hat). pose proof (Hgood c t Hc Hat) as Hv. unfold alias_invalid in Hv.
  apply orb_false_iff in Hv as [Hv Hself]. apply orb_false_iff in Hv as [Hv Hin].
  apply orb_false_iff in Hv as [Hva Hvt]. apply negb_false_iff in Hva, Hvt, Hin. apply bool_decide_eq_true in Hin.
  split; [done|]. split; [by exists c|]. split.
  - apply (collected_targets _ _ Hd) in He.
    destruct (dv_targets d !! a) as [s|] eqn:Hs; [|by apply not_elem_of_empty in He]. f_equal.
    assert (size s = 1%nat) as (x & Hx)%size_1_elem_of.
    { destruct (decide (size s = 1%nat)); [done|]. exfalso. apply Hsize. exists s. by rewrite elem_of_map_iter. }
    apply leibniz_equiv in Hx. subst. cbn in He. apply elem_of_singleton in He. by subst.
  - intros c' Hc' Hat' Hac'. specialize (Hgood c' t Hc' Hat'). unfold alias_invalid in Hgood.
    apply orb_false_iff in Hgood as [_ Hg]. rewrite bool_decide_eq_true_2 in Hg by done. cbn in Hg.
    by apply negb_false_iff, bool_decide_eq_true in Hg.
Qed.

Lemma next_edge a b : next_target (dv_targets d) a = Some b → edge cs a b.
Proof.
  unfold next_target. intros (s & Hs & Hb)%bind_Some. apply first_id_elem in Hb.
  apply (collected_targets _ _ Hd). by rewrite Hs.
Qed.

Lemma leads_stops n a t :
  leads (dv_targets d) all_rejected n a t → leads (dv_targets d) all_rejected 0 t t.
Proof. induction 1; [by constructor|done]. Qed.

Lemma leads_known n a t :
  leads (dv_targets d) all_rejected n a t → (∃ t0, edge cs a t0) → known cs t.
Proof.
  induction 1 as [a Ha Hend|n a b t Ha Hb Hne Hn IH]; intros (t0 & He).
  - destruct (edge_good a t0 Ha He) as (_ & _ & Ht & _).
    assert (next_target (dv_targets d) a = Some t0) as Hnext
      by (unfold next_target; rewrite Ht; apply first_id_singleton).
    assert (t0 = a) as -> by (destruct Hend; congruence). by apply edge_good in He as (_ & ? & _).
  - destruct Hn as [b Hrb Hend|n b b' t Hrb Hb' Hne' Hn].
    + apply next_edge in Hb. by apply edge_good in Hb as (_ & ? & _).
    + apply IH. exists b'. by apply next_edge.
Qed.

(** What remains is a valid catalog, if any airport remains. *)
Lemma union_alias_good a t :
  cat_aliases union_of !! a = Some t →
  valid_id a = true ∧ t ∈ cat_airport_ids union_of ∧ (a ∈ cat_airport_ids union_of → a = t).
Proof.
  intros Ha. pose proof Ha as ((t0 & He) & n & Hn)%union_aliases_spec. split_and!.
  - apply (edge_good a t0); [by apply leads_not_rejected in Hn as [? _]|done].
  - apply union_ids_spec. split; [by eapply leads_known; [|exists t0]|].
    intros Hkey. apply union_aliases_spec. split; [done|]. exists 0%nat. by eapply leads_stops.
  - intros [_ Hi]%union_ids_spec. rewrite Hi in Ha by (by exists t0). congruence.
Qed.
End Delivered.

(** ** The union, declaratively *)

(** [a] is an alias of [b] and nothing speaks against it: every catalog that has the
    alias gives it this target and states it rightly. *)
Definition sound_alias (cs : list NotamAirportCatalog) (a b : bytes) : Prop :=
  edge cs a b ∧ (∀ t, edge cs a t → t = b) ∧ ¬ bad_alias cs a.

(** [a] leads to [t] over sound aliases, and [t] is no alias or its own. *)
Inductive alias_path (cs : list NotamAirportCatalog) : bytes → bytes → Prop :=
| path_stop t : (∀ x, ¬ edge cs t x) ∨ sound_alias cs t t → alias_path cs t t
| path_step a b t : sound_alias cs a b → a ≠ b → alias_path cs b t → alias_path cs a t.

Section Declarative.
Context (cs : list NotamAirportCatalog) (d : delivery) (Hd : collected cs d).

Lemma sound_alias_iff a b : sound_alias cs a b ↔ a ∉ all_rejected d ∧ edge cs a b.
Proof.
  destruct (reject_conflicts_spec (map_iter (dv_targets d)) d) as (_ & _ & Hr & _). split.
  - intros (He & Huniq & Hbad). split; [|done]. unfold all_rejected. rewrite Hr.
    rewrite (collected_rejected _ _ Hd). intros [?|(s & Hs%elem_of_map_iter & Hsize)]; [done|].
    apply Hsize. assert (s = {[b]}) as ->; [|apply size_singleton]. apply set_eq. intros t.
    rewrite elem_of_singleton.
    assert (t ∈ s ↔ edge cs a t) as -> by (rewrite <- (collected_targets _ _ Hd), Hs; done).
    split; [apply Huniq|by intros ->].
  - intros [Ha He]. destruct (edge_good cs d Hd a b Ha He) as (_ & _ & Ht & _). split_and!; [done| |].
    + intros t Het%(collected_targets _ _ Hd). rewrite Ht in Het. cbn in Het. by apply elem_of_singleton in Het.
    + intros Hbad. apply Ha. unfold all_rejected. rewrite Hr. left. by apply (collected_rejected _ _ Hd).
Qed.

Lemma next_target_iff a b :
  a ∉ all_rejected d → next_target (dv_targets d) a = Some b ↔ edge cs a b.
Proof.
  intros Ha. split; [apply (next_edge cs d Hd)|]. intros He.
  destruct (edge_good cs d Hd a b Ha He) as (_ & _ & Ht & _).
  unfold next_target. rewrite Ht. apply first_id_singleton.
Qed.

Lemma no_edge_not_rejected a : (∀ x, ¬ edge cs a x) → a ∉ all_rejected d.
Proof.
  intros Hno. destruct (reject_conflicts_spec (map_iter (dv_targets d)) d) as (_ & _ & Hr & _).
  unfold all_rejected. rewrite Hr, (collected_rejected _ _ Hd).
  intros [(c & t & Hc & Ht & _)|(s & Hs & _)]; [by apply (Hno t); exists c|].
  assert (a ∈ (map_iter (dv_targets d)).*1) as (t & He)%(keys_spec cs d Hd)
    by (apply list_elem_of_fmap; by exists (a, s)). by apply (Hno t).
Qed.

Lemma leads_path a t : (∃ n, leads (dv_targets d) (all_rejected d) n a t) ↔ alias_path cs a t.
Proof.
  split.
  - intros (n & Hn). induction Hn as [a Ha Hend|n a b t Ha Hb Hne Hn IH].
    + apply path_stop. destruct Hend as [Hend|Hend].
      * left. intros x He%(next_target_iff a x Ha). congruence.
      * right. apply sound_alias_iff. split; [done|]. by apply next_target_iff.
    + apply (path_step _ a b); [|done..]. apply sound_alias_iff. split; [done|]. by apply next_target_iff.
  - induction 1 as [t [Hno|Hs]|a b t Hs Hne Hp [n IH]].
    + exists 0%nat. pose proof (no_edge_not_rejected t Hno) as Ht. constructor; [done|]. left.
      destruct (next_target (dv_targets d) t) as [x|] eqn:Hx; [|done].
      by apply (next_target_iff t x Ht), Hno in Hx.
    + exists 0%nat. apply sound_alias_iff in Hs as [Ht He]. constructor; [done|]. right.
      by apply next_target_iff.
    + exists (S n). apply sound_alias_iff in Hs as [Ha He].
      econstructor; [done|by apply next_target_iff|done|done].
Qed.

(** An alias that leads to itself is its own target. *)
Lemma path_self a : (∃ x, edge cs a x) → alias_path cs a a → sound_alias cs a a.
Proof.
  intros (x & He) Hp. apply leads_path in Hp as (n & Hn).
  pose proof (leads_stops d n a a Hn) as H0. destruct (leads_det _ _ _ _ _ _ _ Hn H0) as [-> _].
  inversion H0 as [? Ha Hend|]; subst. pose proof He as Hx%(next_target_iff a x Ha).
  destruct Hend as [Hend|Hend]; [congruence|]. apply sound_alias_iff. split; [done|].
  by apply next_target_iff.
Qed.

Lemma union_errors_spec e :
  e ∈ (deliver_union d).2 ↔
  diagnosed cs e ∨ (∃ a s, dv_targets d !! a = Some s ∧ size s ≠ 1%nat ∧ e = ConflictingAlias a s) ∨
  ∃ a t, edge cs a t ∧ a ∉ all_rejected d ∧ resolve (dv_targets d) (all_rejected d) a = Some (Err e).
Proof.
  unfold deliver_union, all_rejected. destruct (conflicts_kept d) as [_ Htargets].
  rewrite Htargets. set (rej := dv_rejected _).
  destruct (reject_conflicts_spec (map_iter (dv_targets d)) d) as (_ & _ & _ & Herr).
  set (errs := dv_errors _) in *.
  destruct (resolve_aliases_spec (dv_targets d) rej (map_iter (dv_targets d)).*1 (∅, errs)) as [_ He].
  { intros b _. apply lookup_empty. } { apply keys_NoDup. }
  destruct (foldl (resolve_alias _ _) _ _) as [aliases errors]. cbn in *.
  rewrite He. setoid_rewrite (keys_spec cs d Hd). rewrite Herr, (collected_errors _ _ Hd).
  setoid_rewrite elem_of_map_iter. clear. naive_solver.
Qed.

(** Nothing is reported exactly when every statement is right and every alias leads on. *)
Lemma union_errors_none :
  (deliver_union d).2 = ∅ ↔
  (∀ e, ¬ diagnosed cs e) ∧ (∀ a x, edge cs a x → ∃ t, alias_path cs a t).
Proof.
  split.
  - intros Hnone. assert (∀ e, e ∉ (deliver_union d).2) as Hno by (rewrite Hnone; set_solver).
    setoid_rewrite union_errors_spec in Hno. split; [intros e He; by apply (Hno e); left|].
    intros a x He. assert (a ∉ all_rejected d) as Ha.
    { destruct (reject_conflicts_spec (map_iter (dv_targets d)) d) as (_ & _ & Hr & _).
      unfold all_rejected. rewrite Hr, (collected_rejected _ _ Hd).
      intros [(c & t & Hc & Ht & Hi)|(s & Hs%elem_of_map_iter & Hsize)].
      - apply (Hno (InvalidAlias a t)). left. by econstructor.
      - apply (Hno (ConflictingAlias a s)). right. left. by exists a, s. }
    destruct (resolve_ends (dv_targets d) (all_rejected d) a) as [[t|e] Hres].
    + exists t. apply leads_path. by apply resolve_iff.
    + exfalso. apply (Hno e). right. right. by exists a, x.
  - intros [Hdiag Hpath]. apply set_eq. intros e. rewrite union_errors_spec. split; [|set_solver].
    intros [?|[(a & s & Hs & Hsize & ->)|(a & t & He & Ha & Hres)]]; [naive_solver|exfalso..].
    + assert (∃ x, edge cs a x) as (x & He).
      { apply (keys_spec cs d Hd), list_elem_of_fmap. exists (a, s). split; [done|]. by apply elem_of_map_iter. }
      destruct (Hpath a x He) as (t & Hp). apply leads_path in Hp as (n & Hn).
      apply leads_not_rejected in Hn as [Ha _]. apply (edge_good cs d Hd) in He as (_ & _ & Ht & _); [|done].
      rewrite Hs in Ht. injection Ht as ->. by rewrite size_singleton in Hsize.
    + destruct (Hpath a t He) as (t' & Hp). apply leads_path in Hp. apply resolve_iff in Hp. congruence.
Qed.
End Declarative.

(** ** Valid catalogs *)

Lemma upper_or_digit_component b : upper_or_digit b = true → component_byte b = true.
Proof. unfold upper_or_digit, component_byte, term_byte. by intros [-> | ->]%orb_true_iff; rewrite ?orb_true_r. Qed.

Lemma valid_id_iff i : valid_id i = true ↔ i ≠ [] ∧ forallb upper_or_digit i = true.
Proof. unfold valid_id. by rewrite andb_true_iff, negb_true_iff, bool_decide_eq_false. Qed.

Lemma check_airport_id_Ok i :
  forallb upper_or_digit i = true → check_airport_id i = Ok tt ↔ i ≠ [].
Proof.
  intros Hi. unfold check_airport_id. rewrite guard_err_Ok.
  assert (Forall (λ b, component_byte b = true) i) as Hc.
  { apply Forall_forall. intros b Hb. apply upper_or_digit_component.
    rewrite forallb_forall in Hi. by apply Hi, list_elem_of_In. }
  rewrite trim_tight, component_upper by auto using component_tight.
  rewrite (bool_decide_eq_true_2 (i = i)) by done. cbn. rewrite orb_false_r. apply bool_decide_eq_false.
Qed.

(** The conditions on a catalog. *)
Record catalog_good (c : NotamAirportCatalog) : Prop := {
  good_schema : cat_schema_version c = SCHEMA_VERSION;
  good_ids i : i ∈ cat_airport_ids c → valid_id i = true;
  good_aliases a t : cat_aliases c !! a = Some t →
    valid_id a = true ∧ t ∈ cat_airport_ids c ∧ (a ∈ cat_airport_ids c → a = t)
}.

Lemma check_alias_Ok c a t :
  check_alias c (a, t) = Ok tt ↔
  valid_id a = true ∧ t ∈ cat_airport_ids c ∧ (a ∈ cat_airport_ids c → a = t).
Proof.
  unfold check_alias. rewrite guard_err_Ok, valid_id_iff, !orb_false_iff, !negb_false_iff, bool_decide_eq_false,
    andb_false_iff, negb_false_iff, bool_decide_eq_false, !bool_decide_eq_true.
  split; [|destruct (decide (a ∈ cat_airport_ids c)); naive_solver]. naive_solver.
Qed.

Section Identity.
Context (sha256 : bytes → bytes).

Lemma catalog_identity_good c :
  catalog_good c →
  catalog_identity sha256 c =
    if bool_decide (cat_airport_ids c = ∅) then Err CatalogEmpty else Ok (canonical_identity sha256 c).
Proof.
  intros [Hs Hi Ha]. unfold catalog_identity, catalog_validate.
  rewrite Hs, Z.eqb_refl. cbn [negb guard_err mbind result_bind].
  case_bool_decide as Hempty; [done|]. cbn [guard_err mbind result_bind].
  assert (∀ i, i ∈ ids_iter (cat_airport_ids c) → i ≠ [] ∧ forallb upper_or_digit i = true) as Hids
    by (intros i Hin%elem_of_ids_iter; by apply valid_id_iff, Hi).
  assert (try_fold (λ _ i, check_airport_id i) tt (ids_iter (cat_airport_ids c)) = Ok tt) as ->.
  { apply try_fold_unit. intros i Hin. destruct (Hids i Hin). by apply check_airport_id_Ok. }
  assert (try_fold (λ _ p, check_alias c p) tt (map_iter (cat_aliases c)) = Ok tt) as ->.
  { apply try_fold_unit. intros [a t] Hin%elem_of_map_iter. by apply check_alias_Ok, Ha. }
  assert (try_fold (λ _ i, guard_err (negb (forallb upper_or_digit i)) (InvalidId i)) tt
            (ids_iter (cat_airport_ids c)) = Ok tt) as ->; [|done].
  apply try_fold_unit. intros i Hin. destruct (Hids i Hin) as [_ ->]. done.
Qed.

Lemma catalog_identity_Ok c i :
  catalog_identity sha256 c = Ok i →
  catalog_good c ∧ cat_airport_ids c ≠ ∅ ∧ i = canonical_identity sha256 c.
Proof.
  unfold catalog_identity, catalog_validate.
  intros ([] & ([] & Hs%guard_err_Ok & ([] & He%guard_err_Ok & ([] & Hi & Ha)%bind_Ok)%bind_Ok)%bind_Ok
    & ([] & Hu & [= <-])%bind_Ok)%bind_Ok.
  rewrite try_fold_unit in Hi. rewrite try_fold_unit in Ha. rewrite try_fold_unit in Hu.
  apply negb_false_iff, Z.eqb_eq in Hs. apply bool_decide_eq_false in He. split; [|done]. split; [done|..].
  - intros j Hj%elem_of_ids_iter. apply valid_id_iff. specialize (Hu j Hj).
    apply guard_err_Ok, negb_false_iff in Hu. split; [|done]. by apply check_airport_id_Ok, Hi.
  - intros a t Hat. by apply check_alias_Ok, Ha, elem_of_map_iter.
Qed.

Lemma union_good cs d : collected cs d → catalog_good (union_of d).
Proof.
  intros Hd. split.
  - unfold union_of, deliver_union. by destruct (foldl (resolve_alias _ _) _ _).
  - by intros i [(c & _ & _ & ?) _]%(union_ids_spec cs d Hd).
  - apply (union_alias_good cs d Hd).
Qed.

(** The whole function, once the catalogs are collected. *)
Lemma union_for_delivery_eq cs :
  supported cs →
  ∃ d, collected cs d ∧
    union_for_delivery sha256 cs =
      if bool_decide (cat_airport_ids (union_of d) = ∅) then Err CatalogEmpty
      else Ok (deliver_union d).
Proof.
  intros Hs. destruct (collect_all [] cs delivery_empty collected_nil Hs) as (d & Hd & Hcol).
  exists d. split; [done|]. unfold union_for_delivery. rewrite Hd. cbn [mbind result_bind].
  pose proof (catalog_identity_good _ (union_good cs d Hcol)) as Hid. unfold union_of in *.
  destruct (deliver_union d) as [u errs]. cbn [fst] in *. rewrite Hid. by case_bool_decide.
Qed.
End Identity.

Lemma try_fold_ids sha256 cs :
  try_fold (λ _ c, _ ← catalog_identity sha256 c; Ok tt) tt cs = Ok tt ↔
  ∀ c, c ∈ cs → ∃ i, catalog_identity sha256 c = Ok i.
Proof.
  rewrite (try_fold_unit (λ c, _ ← catalog_identity sha256 c; Ok tt)).
  split; intros H c Hc; specialize (H c Hc).
  - apply bind_Ok in H as (i & Hi & _). by exists i.
  - destruct H as (i & ->). done.
Qed.

Lemma identities_supported sha256 cs :
  (∀ c, c ∈ cs → ∃ i, catalog_identity sha256 c = Ok i) → supported cs.
Proof.
  intros Hc. apply Forall_forall. intros c (i & [Hg _]%catalog_identity_Ok)%Hc. apply Hg.
Qed.

(** What a strict union means. *)
Lemma catalog_union_Ok sha256 cs u :
  catalog_union sha256 cs = Ok u ↔
  (∀ c, c ∈ cs → ∃ i, catalog_identity sha256 c = Ok i) ∧
  ∃ d, collected cs d ∧ deliver_union d = (u, ∅) ∧ cat_airport_ids u ≠ ∅.
Proof.
  unfold catalog_union. rewrite bind_Ok.
  assert (map_err UnionError (try_fold (λ _ c, _ ← catalog_identity sha256 c; Ok tt) tt cs) = Ok tt ↔
          ∀ c, c ∈ cs → ∃ i, catalog_identity sha256 c = Ok i) as Hids.
  { rewrite <- (try_fold_ids sha256 cs). destruct (try_fold _ tt cs); naive_solver. }
  split.
  - intros ([] & Hfold & Hu). pose proof (proj1 Hids Hfold) as Hall. clear Hfold. split; [done|].
    destruct (union_for_delivery_eq sha256 cs (identities_supported sha256 cs Hall)) as (d & Hd & Heq).
    exists d. split; [done|]. rewrite Heq in Hu. unfold union_of in *.
    case_bool_decide as Hne; [done|]. cbn in Hu. destruct (deliver_union d) as [u' errors]. cbn in *.
    case_bool_decide as Herr; [|done]. injection Hu as <-. by subst.
  - intros [Hfold (d & Hd & Hdel & Hne)]. exists tt. split; [exact (proj2 Hids Hfold)|].
    destruct (union_for_delivery_eq sha256 cs (identities_supported sha256 cs Hfold)) as (d' & Hd' & ->).
    rewrite (collected_det _ _ _ Hd' Hd). unfold union_of. rewrite Hdel. cbn.
    rewrite bool_decide_eq_false_2 by done. cbn. by rewrite bool_decide_eq_true_2.
Qed.

(** ** The digest of a catalog *)

Lemma frames_inj (l l' : list bytes) (r r' : bytes) :
  length l = length l' → Forall framable l → Forall framable l' →
  concat (frame <$> l) ++ r = concat (frame <$> l') ++ r' → l = l' ∧ r = r'.
Proof.
  intros Hlen Hl. revert l' Hlen. induction Hl as [|x l Hx Hl IH]; intros [|y l'] Hlen Hl' Heq; try done.
  rewrite !fmap_cons in Heq. cbn [concat] in Heq. rewrite <- !app_assoc in Heq.
  apply Forall_cons in Hl' as [Hy Hl']. apply frame_inj in Heq as [-> Heq]; [|done..].
  destruct (IH l') as [-> ->]; auto.
Qed.

Lemma frame_pairs_inj (l l' : list (bytes * bytes)) :
  length l = length l' →
  Forall (λ p, framable p.1 ∧ framable p.2) l → Forall (λ p, framable p.1 ∧ framable p.2) l' →
  concat ((λ p, frame p.1 ++ frame p.2) <$> l) = concat ((λ p, frame p.1 ++ frame p.2) <$> l') → l = l'.
Proof.
  intros Hlen Hl. revert l' Hlen.
  induction Hl as [|[a t] l [Ha Ht] Hl IH]; intros [|[a' t'] l'] Hlen Hl' Heq; try done.
  rewrite !fmap_cons in Heq. cbn [concat fst snd] in *. rewrite <- !app_assoc in Heq.
  apply Forall_cons in Hl' as [[Ha' Ht'] Hl']. cbn [fst snd] in *.
  apply frame_inj in Heq as [-> Heq]; [|done..]. apply frame_inj in Heq as [-> Heq]; [|done..].
  f_equal. apply IH; auto.
Qed.

(** The lengths of data in memory fit [u64]. *)
Record catalog_fits (c : NotamAirportCatalog) : Prop := {
  fits_ids : Z.of_nat (size (cat_airport_ids c)) ≤ u64_max;
  fits_aliases : Z.of_nat (size (cat_aliases c)) ≤ u64_max;
  fits_id i : i ∈ cat_airport_ids c → framable i;
  fits_alias a t : cat_aliases c !! a = Some t → framable a ∧ framable t
}.

Lemma length_ids_iter s : length (ids_iter s) = size s.
Proof. unfold ids_iter. by rewrite merge_sort_Permutation. Qed.
Lemma length_map_iter {V} (m : gmap bytes V) : length (map_iter m) = size m.
Proof. by rewrite map_iter_Permutation, length_map_to_list. Qed.

Lemma canonical_bytes_inj sha256 c c' :
  catalog_fits c → catalog_fits c' → cat_schema_version c = cat_schema_version c' →
  ci_sha256 (canonical_identity sha256 c) = ci_sha256 (canonical_identity sha256 c') →
  c = c' ∨ collision sha256.
Proof.
  intros [Hn Hm Hi Ha] [Hn' Hm' Hi' Ha'] Hs Heq.
  unfold canonical_identity in Heq. cbn [ci_sha256] in Heq.
  apply hash_hex_inj, digest_inj in Heq as [Heq|]; [left|by right].
  apply app_inv_head in Heq. rewrite Hs in Heq. apply app_inv_head in Heq.
  apply app_inj_len in Heq as [Hc Heq]; [|by rewrite !length_be_bytes].
  apply be_bytes_inj in Hc; [|unfold u64_max in *; cbn; lia..].
  apply frames_inj in Heq as [Hids Heq].
  2:{ rewrite !length_ids_iter. lia. }
  2:{ apply Forall_forall. intros i ?%elem_of_ids_iter. by apply Hi. }
  2:{ apply Forall_forall. intros i ?%elem_of_ids_iter. by apply Hi'. }
  apply app_inj_len in Heq as [Hca Heq]; [|by rewrite !length_be_bytes].
  apply be_bytes_inj in Hca; [|unfold u64_max in *; cbn; lia..].
  apply frame_pairs_inj in Heq.
  2:{ rewrite !length_map_iter. lia. }
  2:{ apply Forall_forall. intros [a t] ?%elem_of_map_iter. by apply Ha. }
  2:{ apply Forall_forall. intros [a t] ?%elem_of_map_iter. by apply Ha'. }
  apply map_iter_inj in Heq. destruct c as [s ids al], c' as [s' ids' al']; cbn in *. subst.
  f_equal. apply set_eq. intros i. by rewrite <- !elem_of_ids_iter, Hids.
Qed.

(** ** Copies of one good catalog *)

Section Copies.
Context (cs : list NotamAirportCatalog) (d : delivery) (c : NotamAirportCatalog).
Context (Hd : collected cs d) (Hin : ∀ c', c' ∈ cs ↔ c' = c).
Context (Hg : catalog_good c) (Hne : cat_airport_ids c ≠ ∅).

Lemma self_edge a t : edge cs a t ↔ cat_aliases c !! a = Some t.
Proof. unfold edge. setoid_rewrite Hin. naive_solver. Qed.

Lemma self_valid a t : cat_aliases c !! a = Some t → alias_invalid c a t = false.
Proof.
  intros Hat. destruct (good_aliases c Hg a t Hat) as (Ha & Ht & Hself). unfold alias_invalid.
  rewrite Ha, (good_ids c Hg t Ht). rewrite (bool_decide_eq_true_2 (t ∈ _)) by done. cbn.
  case_bool_decide as Hac; [|done]. by rewrite bool_decide_eq_true_2 by auto.
Qed.

Lemma self_sound a t : cat_aliases c !! a = Some t → sound_alias cs a t.
Proof.
  intros Hat. split_and!; [by apply self_edge| |].
  - intros t' Ht'%self_edge. congruence.
  - intros (c' & t' & ->%Hin & Hat' & Hinv). apply self_valid in Hat'. congruence.
Qed.

Lemma self_path a t : cat_aliases c !! a = Some t → alias_path cs a t.
Proof.
  intros Hat. assert (alias_path cs t t) as Hstop.
  { apply path_stop. destruct (cat_aliases c !! t) as [t'|] eqn:Ht.
    - right. apply self_sound. destruct (good_aliases c Hg a t Hat) as (_ & Hin' & _).
      destruct (good_aliases c Hg t t' Ht) as (_ & _ & Hself). by rewrite (Hself Hin') at 2.
    - left. intros x Hx%self_edge. congruence. }
  destruct (decide (a = t)) as [->|Hat']; [done|]. by apply (path_step _ a t); [apply self_sound|..].
Qed.

Lemma self_aliases : cat_aliases (union_of d) = cat_aliases c.
Proof.
  apply map_eq. intros a. apply option_eq. intros t. rewrite (union_aliases_spec cs d Hd). split.
  - intros [(x & Hx%self_edge) (n & Hn)]. pose proof (self_path a x Hx) as (m & Hm)%(leads_path cs d Hd).
    by destruct (leads_det _ _ _ _ _ _ _ Hn Hm) as [_ ->].
  - intros Hat. split; [exists t; by apply self_edge|]. by apply (leads_path cs d Hd), self_path.
Qed.

Lemma self_union : union_of d = c ∧ (deliver_union d).2 = ∅.
Proof.
  split.
  - assert (cat_airport_ids (union_of d) = cat_airport_ids c) as Hids.
    { apply set_eq. intros i. rewrite (union_ids_spec cs d Hd), self_aliases. unfold known.
      setoid_rewrite Hin. split; [by intros [(c' & -> & Hi & _) _]|]. intros Hi. split.
      - exists c. split_and!; [done..|]. by apply (good_ids c Hg).
      - intros (t & Ht%self_edge). destruct (good_aliases c Hg i t Ht) as (_ & _ & Hself).
        by rewrite (Hself Hi) at 2. }
    pose proof self_aliases as Hal. pose proof (good_schema c Hg) as Hs.
    pose proof (good_schema _ (union_good cs d Hd)) as Hs'.
    destruct (union_of d), c. cbn in *. by subst.
  - apply (union_errors_none cs d Hd). split; [|intros a x Hx%self_edge; exists x; by apply self_path].
    intros e [c' Hc' He|c' i Hc' Hi Hv|c' a t Hc' Hat Hinv]; apply Hin in Hc' as ->.
    + done.
    + by rewrite (good_ids c Hg i Hi) in Hv.
    + apply self_valid in Hat. congruence.
Qed.
End Copies.

(** ** Properties *)



(** The order of the catalogs does not matter, neither to the result nor to the reports. *)
Theorem catalog_union_order (sha256 : bytes → bytes) (cs cs' : list NotamAirportCatalog)
    (Hs : supported cs) (Hp : cs ≡ₚ cs') :
  union_for_delivery sha256 cs = union_for_delivery sha256 cs'.
Proof.
  assert (supported cs') as Hs' by (unfold supported in *; by rewrite <- Hp).
  destruct (union_for_delivery_eq sha256 cs Hs) as (d & Hd & ->).
  destruct (union_for_delivery_eq sha256 cs' Hs') as (d' & Hd' & ->).
  apply (collected_perm cs cs') in Hd; [|done]. by rewrite (collected_det _ _ _ Hd Hd').
Qed.

Lemma catalog_union_order_witness :
  union_for_delivery (λ b, b) [sample_catalog [bs "FLT"] []; sample_catalog [bs "PAFT"] [(bs "FLT", bs "PAFT")]]
  = union_for_delivery (λ b, b) [sample_catalog [bs "PAFT"] [(bs "FLT", bs "PAFT")]; sample_catalog [bs "FLT"] []].
Proof. apply (catalog_union_order (λ b, b)); [repeat constructor|constructor]. Defined.

(** A strict union loses no name. Every airport and every alias of every catalog is an
    airport of the union or an alias that the union resolves to one of its airports. *)
Theorem catalog_union_keeps_names (sha256 : bytes → bytes) (cs : list NotamAirportCatalog)
    (u c : NotamAirportCatalog) (name : bytes)
    (Hu : catalog_union sha256 cs = Ok u) (Hc : c ∈ cs)
    (Hname : name ∈ cat_airport_ids c ∨ is_Some (cat_aliases c !! name)) :
  name ∈ cat_airport_ids u ∨ ∃ t, cat_aliases u !! name = Some t ∧ t ∈ cat_airport_ids u.
Proof.
  apply catalog_union_Ok in Hu as [Hids (d & Hd & Hdel & Hne)].
  assert (union_of d = u ∧ (deliver_union d).2 = ∅) as [Hunion Herr] by (unfold union_of; by rewrite Hdel).
  apply (union_errors_none cs d Hd) in Herr as [_ Hpath]. subst u.
  destruct (decide (is_Some (dv_targets d !! name))) as [[s Hs]|Hno].
  - assert (∃ x, edge cs name x) as (x & He).
    { apply (keys_spec cs d Hd), list_elem_of_fmap. exists (name, s). split; [done|]. by apply elem_of_map_iter. }
    right. destruct (Hpath name x He) as (t & Hp). exists t.
    assert (cat_aliases (union_of d) !! name = Some t) as Ht.
    { apply (union_aliases_spec cs d Hd). split; [by exists x|by apply (leads_path cs d Hd)]. }
    split; [done|]. by apply (union_alias_good cs d Hd) in Ht as (_ & ? & _).
  - assert (¬ ∃ x, edge cs name x) as Hnoedge.
    { intros (x & He%(collected_targets _ _ Hd)). apply Hno.
      destruct (dv_targets d !! name); [done|]. by apply not_elem_of_empty in He. }
    left. apply (union_ids_spec cs d Hd). split; [|done]. destruct Hname as [Hin|[t Ht]].
    + exists c. split_and!; [done..|]. destruct (Hids c Hc) as (i & [Hg _]%catalog_identity_Ok).
      by apply (good_ids c Hg).
    + exfalso. apply Hnoedge. by exists t, c.
Qed.

Lemma catalog_union_keeps_names_witness :
  ∃ u, catalog_union (λ b, b) [sample_catalog [bs "FLT"] []] = Ok u ∧
    (bs "FLT" ∈ cat_airport_ids u ∨ ∃ t, cat_aliases u !! bs "FLT" = Some t ∧ t ∈ cat_airport_ids u).
Proof.
  destruct (catalog_union (λ b, b) [sample_catalog [bs "FLT"] []]) as [u|] eqn:Hu;
    [|exfalso; revert Hu; vm_compute; discriminate].
  exists u. split; [done|].
  apply (catalog_union_keeps_names (λ b, b) [sample_catalog [bs "FLT"] []] u (sample_catalog [bs "FLT"] []));
    [exact Hu|left|left; apply elem_of_union; left; by apply elem_of_singleton].
Defined.

(** A catalog that has an identity is its own union, however often it is given: the
    union of valid catalogs that agree changes nothing and reports nothing. *)
Theorem catalog_union_self (sha256 : bytes → bytes) (c : NotamAirportCatalog)
    (i : NotamCatalogIdentity) (n : nat) (Hi : catalog_identity sha256 c = Ok i) (Hn : (0 < n)%nat) :
  catalog_union sha256 (replicate n c) = Ok c.
Proof.
  pose proof Hi as (Hgood & Hne & _)%catalog_identity_Ok.
  assert (∀ c', c' ∈ replicate n c ↔ c' = c) as Hin
    by (intros c'; rewrite elem_of_replicate; naive_solver lia).
  assert (∀ c', c' ∈ replicate n c → ∃ i, catalog_identity sha256 c' = Ok i) as Hids
    by (intros c' ->%Hin; by exists i).
  apply catalog_union_Ok. split; [done|].
  destruct (collect_all [] (replicate n c) delivery_empty collected_nil
    (identities_supported sha256 _ Hids)) as (d & _ & Hd). exists d. split; [done|].
  destruct (self_union (replicate n c) d c Hd Hin Hgood Hne) as [Hu Herr]. unfold union_of in Hu.
  destruct (deliver_union d) as [u errors] eqn:Hdel. cbn in *. by subst.
Qed.

Lemma catalog_union_self_witness :
  catalog_union (λ b, b) (replicate 2 (sample_catalog [bs "PAAB"] [(bs "4A2", bs "PAAB")]))
  = Ok (sample_catalog [bs "PAAB"] [(bs "4A2", bs "PAAB")]).
Proof.
  eapply (catalog_union_self (λ b, b) _ (canonical_identity (λ b, b) (sample_catalog [bs "PAAB"] [(bs "4A2", bs "PAAB")])));
    [vm_compute; reflexivity|lia].
Defined.

(** Two catalogs with the same identity are the same catalog, or they exhibit two inputs
    with the same digest. *)
Theorem catalog_identity_binds (sha256 : bytes → bytes) (c c' : NotamAirportCatalog)
    (i : NotamCatalogIdentity) (Hf : catalog_fits c) (Hf' : catalog_fits c')
    (Hi : catalog_identity sha256 c = Ok i) (Hi' : catalog_identity sha256 c' = Ok i) :
  c = c' ∨ collision sha256.
Proof.
  apply catalog_identity_Ok in Hi as (Hg & _ & ->), Hi' as (Hg' & _ & Heq).
  apply canonical_bytes_inj; [done..| |by rewrite Heq].
  by rewrite (good_schema c Hg), (good_schema c' Hg').
Qed.

Lemma catalog_identity_binds_witness :
  sample_catalog [bs "1S5"; bs "KSFO"] [] = sample_catalog [bs "KSFO"; bs "1S5"; bs "KSFO"] []
  ∨ collision (λ b, b).
Proof.
  assert (∀ ids, ids ⊆ [bs "1S5"; bs "KSFO"] → catalog_fits (sample_catalog ids [])) as Hf.
  { intros ids Hsub. split; cbn.
    - assert (size (list_to_set (C:=gset bytes) ids) ≤ 2)%nat; [|unfold u64_max; lia].
      transitivity (size (list_to_set (C:=gset bytes) [bs "1S5"; bs "KSFO"])); [|by vm_compute].
      apply subseteq_size. intros i Hi%elem_of_list_to_set. by apply elem_of_list_to_set, Hsub.
    - rewrite map_size_empty. unfold u64_max. lia.
    - intros i Hi%elem_of_list_to_set. apply Hsub in Hi.
      rewrite !elem_of_cons, elem_of_nil in Hi. unfold framable, u64_max.
      destruct Hi as [->|[->|[]]]; vm_compute; discriminate.
    - intros a t Ha. by rewrite lookup_empty in Ha. }
  apply (catalog_identity_binds (λ b, b) _ _
    (canonical_identity (λ b, b) (sample_catalog [bs "1S5"; bs "KSFO"] []))).
  - apply Hf. intros i. rewrite !elem_of_cons. naive_solver.
  - apply Hf. intros i. rewrite !elem_of_cons. naive_solver.
  - vm_compute. reflexivity.
  - vm_compute. reflexivity.
Defined.
