(* ===== verification/UiWorkScheduler.v ===== *)
(** * The UI work schedulers (app-core/src/ui_work_scheduler.rs)

    [WorkScheduler]: one input request and one background request run at a time; later
    requests wait, coalesced by key. [SnapshotRefresh]: one pending refresh, held back
    while the viewport moves. Times are [u64] milliseconds. *)

From stdpp Require Import base list strings gmap sorting.
From S2P Require Import Prelude.

Local Open Scope Z_scope.

Module WorkScheduler.

(** ** Data (app-ui-contracts/src/work.rs) *)

Inductive UiSessionWorkKind :=
| ChartAsset | MapOverlay | MapSelection | MapSelectionForNavRef | NexradOverlay | NexradTile
| TerrainOverlay | TerrainTile | GlideRing.

Record UiSessionWorkRequest := {
  id : Z;
  kind : UiSessionWorkKind;
  coalesce_key : option bytes;
  requested_at_ms : Z
}.

Inductive UiSessionWorkRequestDecision :=
| Start (request : UiSessionWorkRequest)
| Queued (replaced_request_id : option Z).

Inductive UiSessionWorkResultAction :=
| Land
| Drop (reason : bytes).

Record UiSessionWorkCompletionDecision := {
  result_action : UiSessionWorkResultAction;
  next : option UiSessionWorkRequest
}.

Record UiSessionWorkScheduler := {
  active_input : option UiSessionWorkRequest;
  active_background : option UiSessionWorkRequest;
  pending_input : option UiSessionWorkRequest;
  pending_background : gmap bytes UiSessionWorkRequest
}.
Definition scheduler_default : UiSessionWorkScheduler :=
  {| active_input := None; active_background := None; pending_input := None;
     pending_background := ∅ |}.

#[export] Instance kind_eq_dec : EqDecision UiSessionWorkKind.
Proof. solve_decision. Defined.
#[export] Instance request_eq_dec : EqDecision UiSessionWorkRequest.
Proof. solve_decision. Defined.

(** ** Kinds *)

Definition is_input_priority (k : UiSessionWorkKind) : bool :=
  match k with MapSelection | MapSelectionForNavRef => true | _ => false end.
Definition is_background (k : UiSessionWorkKind) : bool :=
  match k with
  | ChartAsset | MapOverlay | NexradOverlay | NexradTile | TerrainOverlay | TerrainTile
  | GlideRing => true
  | _ => false
  end.

(** [{:?}] of a kind. *)
Definition kind_debug (k : UiSessionWorkKind) : bytes :=
  match k with
  | ChartAsset => bs "ChartAsset" | MapOverlay => bs "MapOverlay" | MapSelection => bs "MapSelection"
  | MapSelectionForNavRef => bs "MapSelectionForNavRef" | NexradOverlay => bs "NexradOverlay"
  | NexradTile => bs "NexradTile" | TerrainOverlay => bs "TerrainOverlay"
  | TerrainTile => bs "TerrainTile" | GlideRing => bs "GlideRing"
  end.
Definition background_coalesce_key (r : UiSessionWorkRequest) : bytes :=
  match coalesce_key r with Some k => k | None => kind_debug (kind r) end.

(** ** Operations *)

Definition request_input (r : UiSessionWorkRequest) (s : UiSessionWorkScheduler)
    : UiSessionWorkRequestDecision * UiSessionWorkScheduler :=
  match active_input s with
  | None =>
      (Start r, {| active_input := Some r; active_background := active_background s;
                   pending_input := pending_input s; pending_background := pending_background s |})
  | Some _ =>
      (Queued (id <$> pending_input s),
       {| active_input := active_input s; active_background := active_background s;
          pending_input := Some r; pending_background := pending_background s |})
  end.

Definition request (r : UiSessionWorkRequest) (s : UiSessionWorkScheduler)
    : UiSessionWorkRequestDecision * UiSessionWorkScheduler :=
  if is_input_priority (kind r) then request_input r s
  else if is_background (kind r) then
    match active_background s, active_input s with
    | None, None =>
        (Start r, {| active_input := None; active_background := Some r;
                     pending_input := pending_input s; pending_background := pending_background s |})
    | _, _ =>
        let key := background_coalesce_key r in
        (Queued (id <$> pending_background s !! key),
         {| active_input := active_input s; active_background := active_background s;
            pending_input := pending_input s; pending_background := <[key := r]> (pending_background s) |})
    end
  else request_input r s.

(** [min_by_key] over the ordered map: the first entry with the least key. *)
Definition age_lt (a b : UiSessionWorkRequest) : bool :=
  (requested_at_ms a <? requested_at_ms b)
  || ((requested_at_ms a =? requested_at_ms b) && (id a <? id b)).
Fixpoint min_entry (l : list (bytes * UiSessionWorkRequest)) : option (bytes * UiSessionWorkRequest) :=
  match l with
  | [] => None
  | p :: l =>
      match min_entry l with
      | Some q => if age_lt q.2 p.2 then Some q else Some p
      | None => Some p
      end
  end.

Definition next_request_to_start (s : UiSessionWorkScheduler)
    : option UiSessionWorkRequest * UiSessionWorkScheduler :=
  match active_input s, pending_input s with
  | None, Some next_input =>
      (Some next_input,
       {| active_input := Some next_input; active_background := active_background s;
          pending_input := None; pending_background := pending_background s |})
  | None, None =>
      match active_background s with
      | None =>
          match min_entry (map_iter (pending_background s)) with
          | Some (next_key, next_background) =>
              (Some next_background,
               {| active_input := None; active_background := Some next_background;
                  pending_input := None; pending_background := delete next_key (pending_background s) |})
          | None => (None, s)
          end
      | Some _ => (None, s)
      end
  | Some _, _ => (None, s)
  end.

Definition complete_active_request (active : UiSessionWorkRequest) (s : UiSessionWorkScheduler)
    : UiSessionWorkCompletionDecision * UiSessionWorkScheduler :=
  let action := match is_input_priority (kind active), pending_input s with
                | true, Some _ => Drop (bs "superseded_by_newer_input")
                | _, _ => Land
                end in
  let '(n, s) := next_request_to_start s in
  ({| result_action := action; next := n |}, s).

(** [slot.as_ref().is_some_and(|active| active.id == request_id)], with the request. *)
Definition active_with_id (request_id : Z) (slot : option UiSessionWorkRequest)
    : option UiSessionWorkRequest :=
  match slot with
  | Some active => if id active =? request_id then Some active else None
  | None => None
  end.

Definition complete (request_id : Z) (s : UiSessionWorkScheduler)
    : UiSessionWorkCompletionDecision * UiSessionWorkScheduler :=
  match active_with_id request_id (active_input s) with
  | Some active =>
      complete_active_request active
        {| active_input := None; active_background := active_background s;
           pending_input := pending_input s; pending_background := pending_background s |}
  | None =>
      match active_with_id request_id (active_background s) with
      | Some active =>
          complete_active_request active
            {| active_input := active_input s; active_background := None;
               pending_input := pending_input s; pending_background := pending_background s |}
      | None =>
          match active_input s, active_background s with
          | None, None => ({| result_action := Drop (bs "no_active_request"); next := None |}, s)
          | _, _ => ({| result_action := Drop (bs "request_is_not_active"); next := None |}, s)
          end
      end
  end.

Definition active_request (s : UiSessionWorkScheduler) : option UiSessionWorkRequest :=
  match active_input s with Some r => Some r | None => active_background s end.

End WorkScheduler.

Module SnapshotRefresh.

(** ** Data *)

Inductive SessionSnapshotRefreshPriority := Timely | LowPriority.

Inductive SessionSnapshotRefreshDecision :=
| Idle
| Schedule (delay_ms : Z) (reason : bytes)
| StartRefresh (reason : bytes).

Record SessionSnapshotRefreshSchedulerConfig := {
  background_debounce_ms : Z;
  post_viewport_activity_idle_ms : Z;
  active_gesture_retry_ms : Z
}.
Definition config_default : SessionSnapshotRefreshSchedulerConfig :=
  {| background_debounce_ms := 250; post_viewport_activity_idle_ms := 400;
     active_gesture_retry_ms := 100 |}.

Record PendingSessionSnapshotRefresh := {
  p_reason : bytes;
  p_priority : SessionSnapshotRefreshPriority;
  p_requested_at_ms : Z
}.

Record SessionSnapshotRefreshScheduler := {
  config : SessionSnapshotRefreshSchedulerConfig;
  pending : option PendingSessionSnapshotRefresh;
  in_flight : bool;
  viewport_gesture_active : bool;
  viewport_quiet_at_ms : Z
}.

Definition refresh_new (c : SessionSnapshotRefreshSchedulerConfig) : SessionSnapshotRefreshScheduler :=
  {| config := c; pending := None; in_flight := false; viewport_gesture_active := false;
     viewport_quiet_at_ms := 0 |}.

(** ** Operations *)

Definition start_pending (s : SessionSnapshotRefreshScheduler)
    : SessionSnapshotRefreshDecision * SessionSnapshotRefreshScheduler :=
  match pending s with
  | None => (Idle, s)
  | Some p =>
      (StartRefresh (p_reason p),
       {| config := config s; pending := None; in_flight := true;
          viewport_gesture_active := viewport_gesture_active s;
          viewport_quiet_at_ms := viewport_quiet_at_ms s |})
  end.

Definition refresh_delay_ms (s : SessionSnapshotRefreshScheduler) (p : PendingSessionSnapshotRefresh)
    (now_ms : Z) : Z :=
  let debounce_ready_at_ms :=
    saturating_add u64_max (p_requested_at_ms p) (background_debounce_ms (config s)) in
  let debounce_remaining_ms := saturating_sub debounce_ready_at_ms now_ms in
  let quiet_remaining_ms := saturating_sub (viewport_quiet_at_ms s) now_ms in
  let gesture_retry_ms := if viewport_gesture_active s then active_gesture_retry_ms (config s) else 0 in
  Z.max (Z.max debounce_remaining_ms quiet_remaining_ms) gesture_retry_ms.

Definition refresh_decide (now_ms : Z) (s : SessionSnapshotRefreshScheduler)
    : SessionSnapshotRefreshDecision * SessionSnapshotRefreshScheduler :=
  match pending s with
  | None => (Idle, s)
  | Some p =>
      if in_flight s then (Schedule (active_gesture_retry_ms (config s)) (p_reason p), s)
      else
        match p_priority p with
        | Timely => start_pending s
        | LowPriority =>
            let delay_ms := refresh_delay_ms s p now_ms in
            if delay_ms >? 0 then (Schedule delay_ms (p_reason p), s) else start_pending s
        end
  end.

Definition merge_pending (now_ms : Z) (priority : SessionSnapshotRefreshPriority) (reason : bytes)
    (p : option PendingSessionSnapshotRefresh) : PendingSessionSnapshotRefresh :=
  match p with
  | Some p =>
      {| p_reason := reason;
         p_priority := match priority with Timely => Timely | LowPriority => p_priority p end;
         p_requested_at_ms := now_ms |}
  | None => {| p_reason := reason; p_priority := priority; p_requested_at_ms := now_ms |}
  end.

Definition refresh_request (now_ms : Z) (priority : SessionSnapshotRefreshPriority) (reason : bytes)
    (s : SessionSnapshotRefreshScheduler) :=
  refresh_decide now_ms
    {| config := config s; pending := Some (merge_pending now_ms priority reason (pending s));
       in_flight := in_flight s; viewport_gesture_active := viewport_gesture_active s;
       viewport_quiet_at_ms := viewport_quiet_at_ms s |}.

Definition record_viewport_activity_quiet_window (now_ms : Z) (s : SessionSnapshotRefreshScheduler) :=
  {| config := config s; pending := pending s; in_flight := in_flight s;
     viewport_gesture_active := viewport_gesture_active s;
     viewport_quiet_at_ms :=
       Z.max (viewport_quiet_at_ms s)
         (saturating_add u64_max now_ms (post_viewport_activity_idle_ms (config s))) |}.

Definition set_gesture (active : bool) (s : SessionSnapshotRefreshScheduler) :=
  {| config := config s; pending := pending s; in_flight := in_flight s;
     viewport_gesture_active := active; viewport_quiet_at_ms := viewport_quiet_at_ms s |}.
Definition viewport_gesture_active_changed (now_ms : Z) (active : bool)
    (s : SessionSnapshotRefreshScheduler) :=
  let s := set_gesture active s in
  refresh_decide now_ms (if active then s else record_viewport_activity_quiet_window now_ms s).

Definition viewport_activity (now_ms : Z) (s : SessionSnapshotRefreshScheduler) :=
  refresh_decide now_ms (record_viewport_activity_quiet_window now_ms s).

Definition refresh_completed (now_ms : Z) (s : SessionSnapshotRefreshScheduler) :=
  refresh_decide now_ms
    {| config := config s; pending := pending s; in_flight := false;
       viewport_gesture_active := viewport_gesture_active s;
       viewport_quiet_at_ms := viewport_quiet_at_ms s |}.

Definition poll (now_ms : Z) (s : SessionSnapshotRefreshScheduler) := refresh_decide now_ms s.

End SnapshotRefresh.
