(* ===== verification/UiWorkCorrect.v ===== *)
(** * Correctness of the UI work schedulers

    No request is lost, nothing waits while the scheduler is idle, the queue drains, and
    a pending refresh starts exactly when its debounce and the viewport allow. *)

From stdpp Require Import base list strings gmap sorting.
From S2P Require Import Prelude UiWorkScheduler.

Local Open Scope Z_scope.

Module WorkCorrect.
Import WorkScheduler.

(** ** Events and invariant *)

Inductive work_event :=
| Requested (r : UiSessionWorkRequest)
| Completed (request_id : Z).

Definition handle (e : work_event) (s : UiSessionWorkScheduler) : UiSessionWorkScheduler :=
  match e with
  | Requested r => (request r s).2
  | Completed i => (complete i s).2
  end.

Inductive reachable : UiSessionWorkScheduler → Prop :=
| reach_default : reachable scheduler_default
| reach_event e s : reachable s → reachable (handle e s).

(** Nothing waits unless something of its class, or of the class above, runs. *)
Record work_conserving (s : UiSessionWorkScheduler) : Prop := {
  wc_input : active_input s = None → pending_input s = None;
  wc_background :
    active_input s = None → active_background s = None → pending_background s = ∅
}.

(** The requests the scheduler holds. *)
Definition queued (s : UiSessionWorkScheduler) : list UiSessionWorkRequest :=
  option_list (pending_input s) ++ (snd <$> map_to_list (pending_background s)).
Definition running (s : UiSessionWorkScheduler) : list UiSessionWorkRequest :=
  option_list (active_input s) ++ option_list (active_background s).
Definition held (s : UiSessionWorkScheduler) : list UiSessionWorkRequest := running s ++ queued s.

(** ** Lemmas *)

Lemma age_lt_spec a b :
  age_lt a b = true ↔
    requested_at_ms a < requested_at_ms b ∨ (requested_at_ms a = requested_at_ms b ∧ id a < id b).
Proof. unfold age_lt. by rewrite orb_true_iff, andb_true_iff, !Z.ltb_lt, Z.eqb_eq. Qed.
Lemma age_nlt_spec a b :
  age_lt a b = false ↔
    requested_at_ms b < requested_at_ms a ∨ (requested_at_ms a = requested_at_ms b ∧ id b ≤ id a).
Proof. rewrite <- not_true_iff_false, age_lt_spec. lia. Qed.

Lemma min_entry_spec l :
  match min_entry l with
  | Some p => p ∈ l ∧ ∀ q, q ∈ l → age_lt q.2 p.2 = false
  | None => l = []
  end.
Proof.
  induction l as [|p l IH]; simpl; [done|]. destruct (min_entry l) as [q|].
  - destruct IH as [Hq Hmin]. destruct (age_lt q.2 p.2) eqn:Hlt.
    + split; [by right|]. intros q' [->|Hq']%elem_of_cons; [|auto].
      apply age_lt_spec in Hlt. apply age_nlt_spec. lia.
    + split; [by left|]. intros q' Hq'. apply age_nlt_spec in Hlt. apply age_nlt_spec.
      apply elem_of_cons in Hq' as [->|Hq']; [lia|]. specialize (Hmin q' Hq').
      apply age_nlt_spec in Hmin. lia.
  - subst l. split; [by left|]. intros q ->%list_elem_of_singleton. apply age_nlt_spec. lia.
Qed.

Lemma map_iter_empty {V} (m : gmap bytes V) : map_iter m = [] → m = ∅.
Proof.
  intros Hm. pose proof (map_iter_Permutation m) as Hp. rewrite Hm in Hp.
  apply Permutation_nil in Hp. by apply map_to_list_empty_iff.
Qed.

(** The next request is taken from the queue; when none is, there was nothing to start. *)
Lemma next_request_spec s :
  let '(n, s') := next_request_to_start s in
  held s' ≡ₚ held s ∧
  match n with
  | Some r => r ∈ running s'
  | None => s' = s
  end ∧
  (active_input s = None → pending_input s' = None) ∧
  (active_input s = None → active_background s = None → running s' = [] → queued s' = []) ∧
  queued s ≡ₚ option_list n ++ queued s'.
Proof.
  unfold next_request_to_start, held, running, queued.
  destruct s as [[ai|] ab [pi|] pb]; cbn [active_input active_background pending_input pending_background];
    try (split_and!; done).
  - split_and!; try done; [|by left]. simpl. by rewrite <- Permutation_middle.
  - destruct ab as [ab|]; [by split_and!|].
    pose proof (min_entry_spec (map_iter pb)) as Hmin.
    destruct (min_entry (map_iter pb)) as [[k r]|].
    + destruct Hmin as [Hin _]. apply elem_of_map_iter in Hin.
      cbn [active_input active_background pending_input pending_background option_list app].
      split_and!; try done; [|by left|]; by rewrite <- (map_to_list_delete pb k r Hin), fmap_cons.
    + apply map_iter_empty in Hmin as ->. by split_and!.
Qed.

(** What a submitted request does to the requests held: it starts, or waits and replaces
    at most one waiting request, whose id is reported. *)
Definition accounted (r : UiSessionWorkRequest) (s : UiSessionWorkScheduler)
    (result : UiSessionWorkRequestDecision * UiSessionWorkScheduler) : Prop :=
  match result with
  | (Start r', s') => r' = r ∧ r ∈ running s' ∧ held s' ≡ₚ r :: held s
  | (Queued replaced, s') =>
      r ∈ queued s' ∧ running s' = running s ∧
      ∃ old, replaced = id <$> old ∧ option_list old ++ held s' ≡ₚ r :: held s
  end.

Lemma request_input_held r s : accounted r s (request_input r s).
Proof.
  destruct s as [[ai|] ab pi pb]; unfold accounted, request_input, held, running, queued;
    cbn [active_input active_background pending_input pending_background].
  - split_and!; [by left|done|]. exists pi. split; [done|]. destruct pi; simpl; solve_Permutation.
  - split_and!; [done|by left|done].
Qed.

Lemma queue_background_held r s k :
  accounted r s (Queued (id <$> pending_background s !! k),
    {| active_input := active_input s; active_background := active_background s;
       pending_input := pending_input s; pending_background := <[k := r]> (pending_background s) |}).
Proof.
  split_and!; [|done|].
  - apply elem_of_app. right. apply list_elem_of_fmap. exists (k, r). split; [done|].
    apply elem_of_map_to_list, lookup_insert_eq.
  - destruct s as [ai ab pi pb]. exists (pb !! k). split; [done|]. unfold held, queued, running.
    cbn [active_input active_background pending_input pending_background].
    rewrite <- insert_delete_eq, map_to_list_insert by apply lookup_delete_eq. rewrite fmap_cons.
    destruct (pb !! k) as [old|] eqn:Hk; cbn [option_list app].
    + rewrite <- (map_to_list_delete pb k old Hk), fmap_cons. cbn [snd]. solve_Permutation.
    + rewrite delete_id by done. cbn [snd]. solve_Permutation.
Qed.

Lemma request_held r s : accounted r s (request r s).
Proof.
  unfold request. destruct (is_input_priority (kind r)); [apply request_input_held|].
  destruct (is_background (kind r)); [|apply request_input_held].
  destruct (active_background s) as [ab|] eqn:Hab, (active_input s) as [ai|] eqn:Hai;
    rewrite <- ?Hab, <- ?Hai; try apply queue_background_held.
  unfold accounted, held, running, queued. rewrite Hab, Hai.
  split_and!; [done|by left|]. simpl. solve_Permutation.
Qed.

Lemma request_conserving r s : work_conserving s → work_conserving (request r s).2.
Proof.
  intros [Hi Hb]. unfold request, request_input.
  destruct s as [ai ab pi pb]; cbn [active_input active_background pending_input pending_background] in *.
  destruct (is_input_priority (kind r)), (is_background (kind r)), ai, ab; split; simpl in *; naive_solver.
Qed.

Lemma list_elem_of_option_list {A} (o : option A) x : x ∈ option_list o → o = Some x.
Proof. destruct o; simpl; [by intros ->%list_elem_of_singleton|by intros ?%not_elem_of_nil]. Qed.

(** A completion frees its slot and starts the next request, or changes nothing. *)
Lemma complete_held i s :
  let '(d, s') := complete i s in
  (∃ active, active ∈ running s ∧ id active = i ∧ held s ≡ₚ active :: held s' ∧
     (∀ r, next d = Some r → r ∈ running s')) ∨
  (s' = s ∧ next d = None ∧ result_action d ≠ Land ∧ ∀ r, r ∈ running s → id r ≠ i).
Proof.
  assert (∀ slot a, active_with_id i slot = Some a → slot = Some a ∧ id a = i) as Hwith.
  { intros [a'|] a; simpl; [|done]. destruct (Z.eqb_spec (id a') i); naive_solver. }
  assert (∀ slot r, active_with_id i slot = None → slot = Some r → id r ≠ i) as Hwithout.
  { intros slot r Hn ->. simpl in Hn. by destruct (Z.eqb_spec (id r) i). }
  unfold complete. destruct (active_with_id i (active_input s)) as [a|] eqn:Ha.
  - apply Hwith in Ha as [Ha <-]. unfold complete_active_request.
    set (s1 := Build_UiSessionWorkScheduler _ _ _ _). pose proof (next_request_spec s1) as Hn.
    destruct (next_request_to_start s1) as [n s']. left. exists a.
    destruct Hn as (Hp & Hr & _). split_and!; [unfold running; rewrite Ha; by left|done| |].
    + rewrite Hp. unfold held, running, s1. rewrite Ha. done.
    + cbn [next]. intros r ->. done.
  - destruct (active_with_id i (active_background s)) as [a|] eqn:Hb.
    + apply Hwith in Hb as [Hb <-]. unfold complete_active_request.
      set (s1 := Build_UiSessionWorkScheduler _ _ _ _). pose proof (next_request_spec s1) as Hn.
      destruct (next_request_to_start s1) as [n s']. left. exists a.
      destruct Hn as (Hp & Hr & _). split_and!; [|done| |].
      * unfold running. rewrite Hb. apply elem_of_app. right. by left.
      * rewrite Hp. unfold held, running, queued, s1. rewrite Hb. simpl. solve_Permutation.
      * cbn [next]. intros r ->. done.
    + assert (∀ r, r ∈ running s → id r ≠ i) as Hid.
      { intros r [Hr|Hr]%elem_of_app; apply list_elem_of_option_list in Hr; (eapply Hwithout; [|exact Hr]; done). }
      destruct (active_input s), (active_background s); right; done.
Qed.

Lemma complete_active_conserving a s : work_conserving (complete_active_request a s).2.
Proof.
  unfold complete_active_request, next_request_to_start.
  destruct s as [[ai|] ab pi pb]; cbn [active_input active_background pending_input pending_background].
  - by split.
  - destruct pi as [pi|]; [by split|]. destruct ab as [ab|]; [by split|].
    pose proof (min_entry_spec (map_iter pb)) as Hmin.
    destruct (min_entry (map_iter pb)) as [[k r]|]; [by split|]. by apply map_iter_empty in Hmin as ->.
Qed.
Lemma complete_conserving i s : work_conserving s → work_conserving (complete i s).2.
Proof.
  intros Hs. unfold complete.
  destruct (active_with_id i (active_input s)); [apply complete_active_conserving|].
  destruct (active_with_id i (active_background s)); [apply complete_active_conserving|].
  by destruct (active_input s), (active_background s).
Qed.

Lemma reachable_conserving s : reachable s → work_conserving s.
Proof.
  induction 1 as [|[r|i] s _ IH]; [by split|by apply request_conserving|by apply complete_conserving].
Qed.

(** An idle scheduler holds nothing. *)
Lemma conserving_idle s : work_conserving s → running s = [] → held s = [].
Proof.
  intros [Hi Hb]. unfold held, running, queued. destruct s as [[ai|] [ab|] pi pb]; simpl in *; try done.
  intros _. by rewrite Hi, Hb, map_to_list_empty by done.
Qed.
Lemma held_nil s : held s = [] → s = scheduler_default.
Proof.
  unfold held, running, queued. destruct s as [[ai|] [ab|] [pi|] pb]; simpl; try done.
  intros Hpb%fmap_nil_inv%map_to_list_empty_iff. by rewrite Hpb.
Qed.

(** Completing whatever runs, over and over: each request completed, with what the
    scheduler answered. *)
Fixpoint drain (n : nat) (s : UiSessionWorkScheduler)
    : list (UiSessionWorkRequest * UiSessionWorkCompletionDecision) * UiSessionWorkScheduler :=
  match n with
  | O => ([], s)
  | S n =>
      match active_request s with
      | Some r =>
          let '(d, s) := complete (id r) s in
          let '(log, s) := drain n s in
          ((r, d) :: log, s)
      | None => ([], s)
      end
  end.

(** The result of a completed request lands, unless a newer input request starts in its
    place. *)
Definition lands_unless_superseded (p : UiSessionWorkRequest * UiSessionWorkCompletionDecision) : Prop :=
  result_action p.2 = Land
  ∨ result_action p.2 = Drop (bs "superseded_by_newer_input") ∧ is_input_priority (kind p.1) = true
    ∧ is_Some (next p.2).

Lemma active_request_idle s : active_request s = None → running s = [].
Proof. unfold active_request, running. destruct (active_input s); [done|]. by intros ->. Qed.

(** Completing the request that runs: it leaves, the request started is taken from the
    queue, and its result is dropped only for a newer input request. *)
Lemma complete_active_spec s r d s' :
  work_conserving s → active_request s = Some r → complete (id r) s = (d, s') →
  held s ≡ₚ r :: held s' ∧ queued s ≡ₚ option_list (next d) ++ queued s' ∧ lands_unless_superseded (r, d).
Proof.
  intros [Hi _] Hr. unfold active_request in Hr. unfold complete, active_with_id, complete_active_request.
  destruct s as [[ai|] ab pi pb]; cbn [active_input active_background pending_input pending_background] in Hr, Hi |- *.
  - injection Hr as ->. rewrite Z.eqb_refl. cbn [active_input active_background pending_input pending_background].
    set (s1 := Build_UiSessionWorkScheduler _ _ _ _). pose proof (next_request_spec s1) as Hn.
    destruct (next_request_to_start s1) as [n s2] eqn:Hs1. intros [= <- <-].
    destruct Hn as (Hp & _ & _ & _ & Hq). cbn [next]. split_and!; [by rewrite Hp|by rewrite <- Hq|].
    unfold lands_unless_superseded. cbn [fst snd result_action next].
    destruct (is_input_priority (kind r)) eqn:Hk; [|by left].
    destruct pi as [pi|]; [|by left]. right. split_and!; [done..|]. injection Hs1 as <- _. by eexists.
  - subst ab. specialize (Hi eq_refl) as ->. rewrite Z.eqb_refl.
    set (s1 := Build_UiSessionWorkScheduler _ _ _ _). pose proof (next_request_spec s1) as Hn.
    destruct (next_request_to_start s1) as [n s2]. intros [= <- <-].
    destruct Hn as (Hp & _ & _ & _ & Hq). cbn [next]. split_and!; [by rewrite Hp|by rewrite <- Hq|].
    left. cbn [snd result_action]. by destruct (is_input_priority (kind r)).
Qed.

Lemma drain_runs n s log s' :
  work_conserving s → length (held s) = n → drain n s = (log, s') →
  log.*1 ≡ₚ held s ∧ omap next log.*2 ≡ₚ queued s ∧ Forall lands_unless_superseded log ∧ s' = scheduler_default.
Proof.
  revert s log; induction n as [|n IH]; intros s log Hs Hlen; simpl.
  - intros [= <- <-]. apply length_zero_iff_nil in Hlen. apply held_nil in Hlen as ->. by split_and!.
  - destruct (active_request s) as [r|] eqn:Hr.
    + pose proof (complete_conserving (id r) s Hs) as Hs1. destruct (complete (id r) s) as [d s1] eqn:Hc.
      destruct (complete_active_spec s r d s1 Hs Hr Hc) as (Hp & Hq & Hl).
      destruct (drain n s1) as [log1 s2] eqn:Hd. intros [= <- <-].
      destruct (IH s1 log1 Hs1) as (Hlog & Hstarted & Hlands & ->);
        [apply Permutation_length in Hp; simpl in Hp; lia|done|].
      split_and!; [by rewrite Hp, <- Hlog| |by constructor|done].
      rewrite Hq, <- Hstarted. simpl. by destruct (next d).
    + apply active_request_idle in Hr. by rewrite (conserving_idle s) in Hlen.
Qed.

(** ** Properties *)

Definition sample_tile : UiSessionWorkRequest :=
  {| id := 1; kind := TerrainTile; coalesce_key := Some (bs "tile/4"); requested_at_ms := 10 |}.
Definition sample_selection : UiSessionWorkRequest :=
  {| id := 2; kind := MapSelection; coalesce_key := None; requested_at_ms := 11 |}.
Definition sample_overlay : UiSessionWorkRequest :=
  {| id := 3; kind := MapOverlay; coalesce_key := None; requested_at_ms := 12 |}.
Definition sample_scheduler : UiSessionWorkScheduler :=
  handle (Requested sample_overlay)
    (handle (Requested sample_selection) (handle (Requested sample_tile) scheduler_default)).
Lemma sample_scheduler_reachable : reachable sample_scheduler.
Proof. repeat constructor. Qed.

(** In every reachable state the scheduler is work conserving: an input request waits
    only behind a running one, and background work only behind a running request. *)
Theorem scheduler_work_conserving s : reachable s → work_conserving s.
Proof. apply reachable_conserving. Qed.
Lemma scheduler_work_conserving_witness : work_conserving sample_scheduler.
Proof. apply scheduler_work_conserving. apply sample_scheduler_reachable. Defined.

(** A submitted request starts at once or waits; what it replaces is one waiting
    request, whose id is reported, and no other request leaves the scheduler. *)
Theorem scheduler_request_accounted r s : accounted r s (request r s).
Proof. apply request_held. Qed.

(** Completing the id of a running request removes exactly that request and starts
    what the answer names; completing any other id changes nothing and lands nothing. *)
Theorem scheduler_complete_accounted i s :
  let '(d, s') := complete i s in
  (∃ active, active ∈ running s ∧ id active = i ∧ held s ≡ₚ active :: held s' ∧
     (∀ r, next d = Some r → r ∈ running s')) ∨
  (s' = s ∧ next d = None ∧ result_action d ≠ Land ∧ ∀ r, r ∈ running s → id r ≠ i).
Proof. apply complete_held. Qed.


(** Background work starts only when no input request runs or waits, and the request
    started is a waiting one with no older one waiting beside it. *)
Theorem scheduler_background_order s r s' :
  next_request_to_start s = (Some r, s') → active_background s' ≠ active_background s →
  active_input s' = None ∧ pending_input s' = None ∧ active_background s' = Some r ∧
  ∃ k, pending_background s !! k = Some r ∧ pending_background s' = delete k (pending_background s) ∧
       ∀ k' r', pending_background s !! k' = Some r' → age_lt r' r = false.
Proof.
  unfold next_request_to_start.
  destruct s as [[ai|] ab [pi|] pb]; cbn [active_input active_background pending_input pending_background];
    try by intros [= <- <-].
  destruct ab as [ab|]; [done|]. pose proof (min_entry_spec (map_iter pb)) as Hmin.
  destruct (min_entry (map_iter pb)) as [[k r0]|]; [|done]. intros [= <- <-] _.
  destruct Hmin as [Hin Hmin]. split_and!; [done..|]. exists k.
  split_and!; [by apply elem_of_map_iter|done|]. intros k' r' Hk'. by apply (Hmin (k', r')), elem_of_map_iter.
Qed.
Lemma scheduler_background_order_witness :
  ∃ s s', next_request_to_start s = (Some sample_overlay, s') ∧ active_input s' = None.
Proof.
  exists {| active_input := None; active_background := None; pending_input := None;
            pending_background := {[ bs "MapOverlay" := sample_overlay ]} |}.
  eexists. split; [vm_compute; reflexivity|].
  refine (proj1 (scheduler_background_order
    {| active_input := None; active_background := None; pending_input := None;
       pending_background := {[ bs "MapOverlay" := sample_overlay ]} |} sample_overlay _ _ _)).
  - vm_compute. reflexivity.
  - discriminate.
Defined.

End WorkCorrect.

Module RefreshCorrect.
Import SnapshotRefresh.

(** ** Times *)

Record in_range (s : SessionSnapshotRefreshScheduler) : Prop := {
  ir_debounce : 0 ≤ background_debounce_ms (config s);
  ir_idle : 0 ≤ post_viewport_activity_idle_ms (config s);
  ir_retry : 0 < active_gesture_retry_ms (config s);
  ir_quiet : in_u64 (viewport_quiet_at_ms s);
  ir_pending : match pending s with Some p => in_u64 (p_requested_at_ms p) | None => True end
}.

(** When a pending low-priority refresh may start. *)
Definition ready_at (s : SessionSnapshotRefreshScheduler) (p : PendingSessionSnapshotRefresh) : Z :=
  Z.max (Z.min u64_max (p_requested_at_ms p + background_debounce_ms (config s)))
    (viewport_quiet_at_ms s).

Lemma refresh_delay_spec s p now :
  refresh_delay_ms s p now =
    Z.max (Z.max 0 (ready_at s p - now))
      (if viewport_gesture_active s then active_gesture_retry_ms (config s) else 0).
Proof. unfold refresh_delay_ms, ready_at, saturating_add, saturating_sub. lia. Qed.

Inductive refresh_event :=
| RequestRefresh (now : Z) (priority : SessionSnapshotRefreshPriority) (reason : bytes)
| GestureChanged (now : Z) (active : bool)
| Activity (now : Z)
| RefreshDone (now : Z)
| Poll (now : Z).
Definition handle_refresh (e : refresh_event) (s : SessionSnapshotRefreshScheduler) :=
  match e with
  | RequestRefresh now priority reason => refresh_request now priority reason s
  | GestureChanged now active => viewport_gesture_active_changed now active s
  | Activity now => viewport_activity now s
  | RefreshDone now => refresh_completed now s
  | Poll now => poll now s
  end.

(** The pending refresh an event leaves to decide about. *)
Definition pending_after (e : refresh_event) (s : SessionSnapshotRefreshScheduler) :=
  match e with
  | RequestRefresh now priority reason => Some (merge_pending now priority reason (pending s))
  | _ => pending s
  end.

(** A decision starts the pending refresh or leaves everything as it is. *)
Lemma decide_spec now s :
  let '(d, s') := refresh_decide now s in
  match d with
  | Idle => pending s = None ∧ s' = s
  | Schedule delay reason => (∃ p, pending s = Some p ∧ reason = p_reason p) ∧ s' = s
  | StartRefresh reason =>
      (∃ p, pending s = Some p ∧ reason = p_reason p) ∧ in_flight s = false ∧
      pending s' = None ∧ in_flight s' = true
  end.
Proof.
  unfold refresh_decide, start_pending. destruct (pending s) as [p|] eqn:Hp; [|done].
  destruct (in_flight s) eqn:Hf; [split; [by exists p|done]|].
  destruct (p_priority p); [split_and!; [by exists p|done..]|].
  destruct (_ >? 0); [split; [by exists p|done]|]. split_and!; [by exists p|done..].
Qed.

(** What an event may lead to. *)
Definition refresh_outcome (e : refresh_event) (s : SessionSnapshotRefreshScheduler)
    (result : SessionSnapshotRefreshDecision * SessionSnapshotRefreshScheduler) : Prop :=
  match result with
  | (Idle, s') => pending_after e s = None ∧ pending s' = None
  | (Schedule _ reason, s') =>
      pending s' = pending_after e s ∧ p_reason <$> pending s' = Some reason
  | (StartRefresh reason, s') =>
      (in_flight s = false ∨ ∃ now, e = RefreshDone now) ∧
      p_reason <$> pending_after e s = Some reason ∧ in_flight s' = true ∧ pending s' = None
  end.

Lemma decide_outcome e s now s1 :
  pending s1 = pending_after e s →
  (in_flight s1 = false → in_flight s = false ∨ ∃ now, e = RefreshDone now) →
  refresh_outcome e s (refresh_decide now s1).
Proof.
  intros Hp Hb. unfold refresh_outcome. rewrite <- Hp. pose proof (decide_spec now s1) as H.
  destruct (refresh_decide now s1) as [[|delay reason|reason] s'].
  - by destruct H as [? ->].
  - destruct H as [(p & Hpp & ->) ->]. by rewrite Hpp.
  - destruct H as ((p & Hpp & ->) & Hf1 & -> & ->). rewrite Hpp. split_and!; try done. by apply Hb.
Qed.

(** ** Properties *)

(** Whatever happens, a refresh starts only when none is in flight (the event itself
    may end it), it carries the latest reason, and a pending refresh that is not started
    stays pending. *)
Theorem refresh_single_flight e s : refresh_outcome e s (handle_refresh e s).
Proof.
  destruct e as [now priority reason|now [|]|now|now|now]; apply decide_outcome; auto.
  right. by exists now.
Qed.

(** With no refresh in flight, a pending low-priority refresh starts exactly when no
    gesture is active and both its debounce and the viewport's quiet time are over; until
    then the delay answered is the time that remains, so polling after it starts it. *)
Theorem refresh_starts_on_time s p now :
  in_range s → pending s = Some p → p_priority p = LowPriority → in_flight s = false →
  (viewport_gesture_active s = true →
     ∃ delay, (poll now s).1 = Schedule delay (p_reason p) ∧ 0 < delay) ∧
  (viewport_gesture_active s = false →
     (poll now s).1 = (if ready_at s p <=? now then StartRefresh (p_reason p)
                       else Schedule (ready_at s p - now) (p_reason p)) ∧
     (now < ready_at s p →
        (poll (now + (ready_at s p - now)) (poll now s).2).1 = StartRefresh (p_reason p))).
Proof.
  intros Hr Hp Hprio Hf. pose proof (ir_retry _ Hr) as Hretry.
  assert (∀ t, poll t s = if refresh_delay_ms s p t >? 0 then (Schedule (refresh_delay_ms s p t) (p_reason p), s)
                          else start_pending s) as Hpoll
    by (intros t; unfold poll, refresh_decide; by rewrite Hp, Hf, Hprio).
  assert (∀ t, refresh_delay_ms s p t = Z.max (Z.max 0 (ready_at s p - t))
      (if viewport_gesture_active s then active_gesture_retry_ms (config s) else 0)) as Hdelay
    by (intros t; apply refresh_delay_spec).
  assert ((start_pending s).1 = StartRefresh (p_reason p)) as Hstart
    by (unfold start_pending; by rewrite Hp).
  split; intros Hg; rewrite Hg in Hdelay.
  - exists (refresh_delay_ms s p now). rewrite Hpoll.
    destruct (Z.gtb_spec (refresh_delay_ms s p now) 0); [done|]. rewrite Hdelay in *. lia.
  - split.
    + rewrite Hpoll. destruct (Z.gtb_spec (refresh_delay_ms s p now) 0) as [H|H]; rewrite Hdelay in H;
        destruct (Z.leb_spec (ready_at s p) now); try lia; [|done].
      cbn [fst]. f_equal. rewrite Hdelay. lia.
    + intros Hnow. rewrite (Hpoll now).
      destruct (Z.gtb_spec (refresh_delay_ms s p now) 0) as [H|H]; rewrite Hdelay in H; [|lia].
      cbn [snd]. rewrite Hpoll. destruct (Z.gtb_spec (refresh_delay_ms s p (now + (ready_at s p - now))) 0) as [H1|H1];
        [rewrite Hdelay in H1; lia|done].
Qed.
Definition sample_refresh : SessionSnapshotRefreshScheduler :=
  (refresh_request 1000 LowPriority (bs "weather") (refresh_new config_default)).2.
Lemma refresh_starts_on_time_witness : (poll 1250 sample_refresh).1 = StartRefresh (bs "weather").
Proof.
  refine (proj1 (proj2 (refresh_starts_on_time sample_refresh
    {| p_reason := bs "weather"; p_priority := LowPriority; p_requested_at_ms := 1000 |} 1250
    _ _ _ _) _)); try reflexivity.
  split; vm_compute; done.
Defined.

End RefreshCorrect.
