(* ===== verification/ReceiverFraming.v ===== *)
(** * Receiver framing (app-core/src/receiver/framing.rs)

    The transport framer, the application record stream with its product reassembly, and
    the receive sequence that filters retransmissions. Both streams collect input into a
    buffer until a header, then a whole unit, is there: that loop is [assemble]. *)

From Stdlib Require Import Strings.Byte.
From stdpp Require Import base list strings gmap.
From S2P Require Import Prelude.

Local Open Scope Z_scope.

(** ** Errors and limits (receiver/mod.rs) *)

Inductive decode_error := DecodeError (message : string).

Definition MAX_PRODUCT_BYTES : Z := 32 * 1024 * 1024.
Definition MAX_FRAME_BYTES : Z := u16_max.
Definition MAX_ASSEMBLIES : Z := 64.

(** ** Frames *)

Record Frame := {
  kind : byte;
  sequence : byte;
  acknowledgement : byte;
  payload : bytes
}.
#[export] Instance frame_eq_dec : EqDecision Frame.
Proof. solve_decision. Defined.

(** A [fold] of [u8::wrapping_sub] from zero. *)
Definition checksum (l : bytes) : byte :=
  fold_left (λ sum b, z2b (b2z sum - b2z b)) l x00.

Definition is_empty {A} (l : list A) : bool := match l with [] => true | _ => false end.

Definition frame_encode (f : Frame) : result decode_error bytes :=
  let length := 8 + len (payload f) + (if is_empty (payload f) then 0 else 1) in
  if length >? MAX_FRAME_BYTES then Err (DecodeError "frame too large")
  else
    let head := [xc0; x01] ++ le_bytes 2 length ++ [kind f; sequence f; acknowledgement f] in
    let head := head ++ [checksum head] in
    Ok (head ++ payload f ++ (if is_empty (payload f) then [] else [checksum (payload f)])).

(** ** The collecting loop

    [while !bytes.is_empty()] of both [feed_inner]s: fill the buffer up to the header, then
    up to the length the header gives, then hand the unit to [finish]. Each round consumes
    a byte at least, so the number of input bytes bounds the rounds. *)
Section Assemble.
Context {T Out : Type} (header : Z) (length_of : bytes → result decode_error Z)
  (finish : bytes → T → result decode_error (list Out) * (bytes * T)).

Fixpoint assemble (rounds : nat) (buffer : bytes) (t : T) (input : bytes) (out : list Out)
    : result decode_error (list Out) * (bytes * T) :=
  match rounds, input with
  | S rounds, _ :: _ =>
      match (if len buffer <? header then Ok header else length_of buffer) with
      | Err e => (Err e, (buffer, t))
      | Ok target =>
          let count := Z.min (target - len buffer) (len input) in
          let buffer := buffer ++ take (Z.to_nat count) input in
          let input := drop (Z.to_nat count) input in
          if len buffer <? header then assemble rounds buffer t input out
          else
            match length_of buffer with
            | Err e => (Err e, (buffer, t))
            | Ok length =>
                if len buffer <? length then assemble rounds buffer t input out
                else
                  match finish buffer t with
                  | (Err e, bt) => (Err e, bt)
                  | (Ok produced, (buffer, t)) => assemble rounds buffer t input (out ++ produced)
                  end
            end
      end
  | _, _ => (Ok out, (buffer, t))
  end.
End Assemble.

(** ** The framer *)

Record Framer := { fr_buffer : bytes; fr_failed : bool }.
Definition framer_default : Framer := {| fr_buffer := []; fr_failed := false |}.

(** [u16::from_le_bytes([buffer[i], buffer[i + 1]])]. *)
Definition u16_at (buffer : bytes) (i : nat) : Z := le_value (take 2 (drop i buffer)).

Definition frame_length (buffer : bytes) : result decode_error Z :=
  if negb (bool_decide (take 2 buffer = [xc0; x01]))
     || negb (bool_decide (checksum (take 8 buffer) = x00))
  then Err (DecodeError "transport header/checksum")
  else
    let length := u16_at buffer 2 in
    if (length <? 8) || (length =? 9) then Err (DecodeError "invalid transport length")
    else Ok length.

Definition byte_at (buffer : bytes) (i : nat) : byte := default x00 (buffer !! i).

Definition finish_frame (buffer : bytes) (t : unit) : result decode_error (list Frame) * (bytes * unit) :=
  if negb (bool_decide (checksum (drop 8 buffer) = x00)) then
    (Err (DecodeError "payload checksum"), (buffer, t))
  else
    (Ok [{| kind := byte_at buffer 4; sequence := byte_at buffer 5; acknowledgement := byte_at buffer 6;
            payload := if len buffer =? 8 then []
                       else take (Z.to_nat (len buffer - 9)) (drop 8 buffer) |}],
     ([], t)).

Definition framer_feed_inner (buffer input : bytes) : result decode_error (list Frame) * bytes :=
  if len input >? 4 * MAX_FRAME_BYTES then (Err (DecodeError "input chunk too large"), buffer)
  else
    let '(r, (buffer, _)) := assemble 8 frame_length finish_frame (length input) buffer tt input [] in
    (r, buffer).

Definition framer_feed (input : bytes) (f : Framer) : result decode_error (list Frame) * Framer :=
  if fr_failed f then (Err (DecodeError "reset required after framing failure"), f)
  else
    match framer_feed_inner (fr_buffer f) input with
    | (Ok frames, buffer) => (Ok frames, {| fr_buffer := buffer; fr_failed := false |})
    | (Err e, _) => (Err e, {| fr_buffer := []; fr_failed := true |})
    end.

Definition framer_reset (f : Framer) : Framer := framer_default.
Definition framer_is_incomplete (f : Framer) : bool := negb (is_empty (fr_buffer f)).

(** ** Application records *)

Inductive ApplicationRecord :=
| Control (message_id : Z) (commands : bytes)
| Message (message_id : Z) (attributes : byte) (data : bytes).
#[export] Instance application_record_eq_dec : EqDecision ApplicationRecord.
Proof. solve_decision. Defined.

(** The reassembly state: unfinished products by id, and their bytes in all. *)
Record assemblies := { files : gmap Z (byte * bytes); total_bytes : Z }.
Definition no_assemblies : assemblies := {| files := ∅; total_bytes := 0 |}.

Record ApplicationStream := { ap_buffer : bytes; ap_files : assemblies; ap_failed : bool }.
Definition application_default : ApplicationStream :=
  {| ap_buffer := []; ap_files := no_assemblies; ap_failed := false |}.

Definition application_length (buffer : bytes) : result decode_error Z :=
  let length := u16_at buffer 1 in
  if negb (bool_decide (byte_at buffer 0 = x01)) || (length <? 8)
  then Err (DecodeError "application header")
  else Ok length.

Definition has_flag (flags : byte) (mask : Z) : bool := negb (Z.land (b2z flags) mask =? 0).
(** [flags & !0x0e]. *)
Definition attribute_bits (flags : byte) : byte := z2b (Z.land (b2z flags) 241).

(** A start fragment discards an unfinished product with its id and opens a new one. *)
Definition open_assembly (i : Z) (flags : byte) (a : assemblies)
    : result decode_error unit * assemblies :=
  let a := match files a !! i with
           | Some (_, previous) =>
               {| files := delete i (files a); total_bytes := total_bytes a - len previous |}
           | None => a
           end in
  if Z.of_nat (size (files a)) =? MAX_ASSEMBLIES
  then (Err (DecodeError "too many unfinished products"), a)
  else (Ok tt, {| files := <[i := (attribute_bits flags, [])]> (files a); total_bytes := total_bytes a |}).

(** A fragment is appended; the last one completes the product. *)
Definition append_fragment (i : Z) (flags : byte) (body : bytes) (a : assemblies)
    : result decode_error (list ApplicationRecord) * assemblies :=
  if total_bytes a + len body >? MAX_PRODUCT_BYTES
  then (Err (DecodeError "product reassembly limit"), a)
  else
    match files a !! i with
    | None => (Err (DecodeError "fragment without start"), a)
    | Some (attributes, data) =>
        let attributes := z2b (Z.lor (b2z attributes) (b2z (attribute_bits flags))) in
        let data := data ++ body in
        let total := total_bytes a + len body in
        if has_flag flags 8 then
          (Ok [Message i attributes data],
           {| files := delete i (files a); total_bytes := total - len data |})
        else (Ok [], {| files := <[i := (attributes, data)]> (files a); total_bytes := total |})
    end.

Definition application_record (raw : bytes) (a : assemblies)
    : result decode_error (list ApplicationRecord) * assemblies :=
  let flags := byte_at raw 3 in
  let i := le_value (take 4 (drop 4 raw)) in
  let body := drop 8 raw in
  if has_flag flags 2 then (Ok [Control i body], a)
  else if has_flag flags 4 then
    match open_assembly i flags a with
    | (Err e, a) => (Err e, a)
    | (Ok _, a) => append_fragment i flags body a
    end
  else append_fragment i flags body a.

Definition finish_application (buffer : bytes) (a : assemblies)
    : result decode_error (list ApplicationRecord) * (bytes * assemblies) :=
  let '(r, a) := application_record buffer a in (r, ([], a)).

Definition application_feed_inner (buffer : bytes) (a : assemblies) (input : bytes)
    : result decode_error (list ApplicationRecord) * (bytes * assemblies) :=
  if len input >? MAX_PRODUCT_BYTES then (Err (DecodeError "application chunk too large"), (buffer, a))
  else assemble 4 application_length finish_application (length input) buffer a input [].

Definition application_feed (input : bytes) (s : ApplicationStream)
    : result decode_error (list ApplicationRecord) * ApplicationStream :=
  if ap_failed s then (Err (DecodeError "reset required after application failure"), s)
  else
    match application_feed_inner (ap_buffer s) (ap_files s) input with
    | (Ok out, (buffer, a)) => (Ok out, {| ap_buffer := buffer; ap_files := a; ap_failed := false |})
    | (Err e, _) => (Err e, {| ap_buffer := []; ap_files := no_assemblies; ap_failed := true |})
    end.

Definition application_reset (s : ApplicationStream) : ApplicationStream := application_default.
Definition application_is_incomplete (s : ApplicationStream) : bool :=
  negb (is_empty (ap_buffer s)) || negb (bool_decide (files (ap_files s) = ∅)).

(** ** Retransmissions *)

Record ReceiveSequence := { last : option byte; recent : list (byte * bytes) }.
Definition sequence_default : ReceiveSequence := {| last := None; recent := [] |}.

Section Sequence.
(** [Sha256::digest]. *)
Context (sha256 : bytes → bytes).

Definition accept (f : Frame) (s : ReceiveSequence) : result decode_error bool * ReceiveSequence :=
  let entry := (sequence f, sha256 (payload f)) in
  if bool_decide (entry ∈ recent s) then (Ok false, s)
  else if match last s with
          | Some l => negb (bool_decide (sequence f = z2b (b2z l + 1)))
          | None => false
          end
  then (Err (DecodeError "receiver transport sequence gap"), s)
  else
    let recent := recent s ++ [entry] in
    (Ok true, {| last := Some (sequence f);
                 recent := if len recent >? 64 then drop 1 recent else recent |}).
End Sequence.
