(* ===== verification/ReceiverProtocol.v ===== *)
(** * The receiver protocol (app-core/src/receiver/protocol.rs)

    The connection's state machine: transport acknowledgement and retransmission, the
    challenge-response handshake, subscriptions, and the delivery of messages. The digests
    (crates sha2 and md5) are parameters, and so is the decoder of product bodies. *)

From Stdlib Require Import Strings.Byte.
From stdpp Require Import base list strings gmap.
From S2P Require Import Prelude ReceiverFraming.

Local Open Scope Z_scope.

(** ** Constants *)

Definition SETUP_TIMEOUT_MS : Z := 15000.
Definition RETRANSMIT_MS : Z := 1000.
Definition MAX_RETRIES : Z := 3.
Definition MAX_PENDING : Z := 32.
Definition NEGOTIATION : bytes :=
  [x40; x0a; x01; x00; x04; xf4; x01; x96; x00; xb8; xab; x03; x00].
(** receiver/compatibility.rs *)
Definition CHALLENGE_SEED : bytes :=
  [x8d; xa1; x61; x22; x89; x87; x92; x6a; x52; x25; xbb; x97; x60; x4e; xf2; x2a;
   x78; x6d; x9a; xd7; x18; xd8; x50; x57; xca; xde; xbe; x54; xfc; xab; x53; xf9;
   xde; x3b; x06; x99; x03; x42; x9a; xd9; x97; x25; x0f; xf2; x9a; x49; xa1; x2a].

(** ** Record bytes *)

Definition record (flags : byte) (i : Z) (body : bytes) : bytes :=
  [x01] ++ le_bytes 2 (len body + 8) ++ [flags] ++ le_bytes 4 i ++ body.
Definition message (i : Z) (body : bytes) : bytes := record x0c i body.
Definition control (commands : list bytes) : bytes := record x02 0 (concat commands).
Definition subscription (i : Z) (rate : byte) : bytes := [x00] ++ le_bytes 4 i ++ [x01; rate].
Definition supported_ids : bytes := message 0 (concat (le_bytes 4 <$> [0; 258; 3; 1])).

(** The ids of the notify commands of a control record. *)
Fixpoint notifications (l : bytes) : result decode_error (list Z) :=
  match l with
  | [] => Ok []
  | command :: l =>
      if bool_decide (command = x00) then
        match l with
        | _ :: _ :: _ :: _ :: _ :: _ :: rest => notifications rest
        | _ => Err (DecodeError "truncated control command")
        end
      else if (1 <=? b2z command) && (b2z command <=? 3) then
        match l with
        | a :: b :: c :: d :: rest =>
            ids ← notifications rest;
            Ok (if bool_decide (command = x02) then le_value [a; b; c; d] :: ids else ids)
        | _ => Err (DecodeError "truncated control command")
        end
      else Err (DecodeError "unknown control syntax")
  end.

(** ** Weather messages (receiver/weather.rs) *)

Inductive WeatherKind :=
| Metar | GraphicalMetar | Pirep | Taf | Winds | Notam | Airmet | Sigmet | Sua | RegionalRadar
| ConusRadar.

Definition from_message_id (i : Z) : option WeatherKind :=
  if i =? 0x20000010 then Some Metar
  else if i =? 0x20000011 then Some GraphicalMetar
  else if i =? 0x20000020 then Some Pirep
  else if i =? 0x20000030 then Some Taf
  else if i =? 0x20000040 then Some Winds
  else if i =? 0x20000050 then Some Notam
  else if i =? 0x20000060 then Some Airmet
  else if i =? 0x20000070 then Some Sigmet
  else if i =? 0x20000080 then Some Sua
  else if i =? 0x20000090 then Some RegionalRadar
  else if i =? 0x200000a0 then Some ConusRadar
  else None.
Definition is_weather (i : Z) : bool :=
  match from_message_id i with Some _ => true | None => false end.

(** ** State *)

Inductive ProtocolPhase :=
| Negotiating | Capabilities | Challenge | VerifyResponse | ProductPhase | Receiving | Failed.
#[export] Instance phase_eq_dec : EqDecision ProtocolPhase.
Proof. solve_decision. Defined.

Record Pending := { pd_frame : Frame; last_sent_ms : Z; retries : Z }.

Record Protocol := {
  phase : ProtocolPhase;
  nonce : bytes;
  expected_response : option bytes;
  framer : Framer;
  application : ApplicationStream;
  advertised : gset Z;
  next_tx_sequence : byte;
  receive_sequence : ReceiveSequence;
  ack : byte;
  pending : list Pending;
  phase_since_ms : Z;
  last_clock_ms : Z
}.

Section Protocol.
Context (sha256 md5 : bytes → bytes) {Product : Type}
  (decode_product : Z → bytes → result decode_error Product).

Record ReceivedMessage := {
  rm_message_id : Z;
  rm_attributes : byte;
  payload_bytes : Z;
  product : result decode_error Product
}.
Definition received_message_decode (i : Z) (attributes : byte) (data : bytes) : ReceivedMessage :=
  {| rm_message_id := i; rm_attributes := attributes; payload_bytes := len data;
     product := if negb (bool_decide (attributes = x00))
                then Err (DecodeError "unverified application file attributes")
                else decode_product i data |}.

Record ProtocolOutput := { transmissions : list bytes; messages : list ReceivedMessage }.
Definition output_default : ProtocolOutput := {| transmissions := []; messages := [] |}.

(** [&mut self] and the [output] under construction. *)
Record io := { self : Protocol; output : ProtocolOutput }.
Abbreviation step := (ST io decode_error).

Definition on_self (f : Protocol → Protocol) (x : io) : io := {| self := f (self x); output := output x |}.
Definition transmit (b : bytes) (x : io) : io :=
  {| self := self x;
     output := {| transmissions := transmissions (output x) ++ [b]; messages := messages (output x) |} |}.
Definition deliver (m : ReceivedMessage) (x : io) : io :=
  {| self := self x;
     output := {| transmissions := transmissions (output x); messages := messages (output x) ++ [m] |} |}.

Definition set_phase (ph : ProtocolPhase) (since : Z) (p : Protocol) : Protocol :=
  {| phase := ph; nonce := nonce p; expected_response := expected_response p; framer := framer p;
     application := application p; advertised := advertised p; next_tx_sequence := next_tx_sequence p;
     receive_sequence := receive_sequence p; ack := ack p; pending := pending p;
     phase_since_ms := since; last_clock_ms := last_clock_ms p |}.
Definition set_expected (e : option bytes) (p : Protocol) : Protocol :=
  {| phase := phase p; nonce := nonce p; expected_response := e; framer := framer p;
     application := application p; advertised := advertised p; next_tx_sequence := next_tx_sequence p;
     receive_sequence := receive_sequence p; ack := ack p; pending := pending p;
     phase_since_ms := phase_since_ms p; last_clock_ms := last_clock_ms p |}.
Definition set_streams (f : Framer) (a : ApplicationStream) (p : Protocol) : Protocol :=
  {| phase := phase p; nonce := nonce p; expected_response := expected_response p; framer := f;
     application := a; advertised := advertised p; next_tx_sequence := next_tx_sequence p;
     receive_sequence := receive_sequence p; ack := ack p; pending := pending p;
     phase_since_ms := phase_since_ms p; last_clock_ms := last_clock_ms p |}.
Definition set_advertised (ids : gset Z) (p : Protocol) : Protocol :=
  {| phase := phase p; nonce := nonce p; expected_response := expected_response p; framer := framer p;
     application := application p; advertised := ids; next_tx_sequence := next_tx_sequence p;
     receive_sequence := receive_sequence p; ack := ack p; pending := pending p;
     phase_since_ms := phase_since_ms p; last_clock_ms := last_clock_ms p |}.
Definition set_received (r : ReceiveSequence) (a : byte) (p : Protocol) : Protocol :=
  {| phase := phase p; nonce := nonce p; expected_response := expected_response p; framer := framer p;
     application := application p; advertised := advertised p; next_tx_sequence := next_tx_sequence p;
     receive_sequence := r; ack := a; pending := pending p;
     phase_since_ms := phase_since_ms p; last_clock_ms := last_clock_ms p |}.
Definition set_pending (seq : byte) (l : list Pending) (p : Protocol) : Protocol :=
  {| phase := phase p; nonce := nonce p; expected_response := expected_response p; framer := framer p;
     application := application p; advertised := advertised p; next_tx_sequence := seq;
     receive_sequence := receive_sequence p; ack := ack p; pending := l;
     phase_since_ms := phase_since_ms p; last_clock_ms := last_clock_ms p |}.
Definition set_clock (now : Z) (p : Protocol) : Protocol :=
  {| phase := phase p; nonce := nonce p; expected_response := expected_response p; framer := framer p;
     application := application p; advertised := advertised p; next_tx_sequence := next_tx_sequence p;
     receive_sequence := receive_sequence p; ack := ack p; pending := pending p;
     phase_since_ms := phase_since_ms p; last_clock_ms := now |}.

(** ** Helpers *)

Definition check_clock (now_ms : Z) : step unit :=
  x ← st_get;
  _ ← st_lift (guard_err (bool_decide (phase (self x) = Failed))
        (DecodeError "receiver reconnect required"));
  _ ← st_lift (guard_err (now_ms <? last_clock_ms (self x))
        (DecodeError "receiver monotonic clock regressed"));
  st_modify (on_self (set_clock now_ms)).

Definition transition (ph : ProtocolPhase) (now_ms : Z) : step unit :=
  st_modify (on_self (set_phase ph now_ms)).

Definition fail (p : Protocol) : Protocol :=
  set_streams (framer_reset (framer p)) (application_reset (application p))
    (set_pending (next_tx_sequence p) [] (set_phase Failed (phase_since_ms p) p)).

Definition send (knd : byte) (pl : bytes) (now_ms : Z) : step unit :=
  x ← st_get;
  let p := self x in
  let frame := {| kind := knd; sequence := next_tx_sequence p; acknowledgement := ack p; payload := pl |} in
  _ ← st_lift (guard_err (negb (is_empty pl) && (len (pending p) =? MAX_PENDING))
        (DecodeError "receiver send window limit"));
  encoded ← st_lift (frame_encode frame);
  _ ← st_modify (transmit encoded);
  if is_empty pl then mret tt
  else
    st_modify (on_self (set_pending (z2b (b2z (next_tx_sequence p) + 1))
      (pending p ++ [{| pd_frame := frame; last_sent_ms := now_ms; retries := 0 |}]))).

Definition protocol_new (now_ms : Z) (nonce : bytes) : Protocol :=
  {| phase := Negotiating; nonce := nonce; expected_response := None; framer := framer_default;
     application := application_default; advertised := ∅; next_tx_sequence := x01;
     receive_sequence := sequence_default; ack := x00; pending := []; phase_since_ms := now_ms;
     last_clock_ms := now_ms |}.
Definition with_nonce (now_ms : Z) (nonce : bytes) : result decode_error io :=
  let '(r, x) := send x03 NEGOTIATION now_ms
                   {| self := protocol_new now_ms nonce; output := output_default |} in
  _ ← r; Ok x.

(** ** Receiving *)

(** [for x in l { body(x)?; }]. *)
Fixpoint for_each {A} (body : A → step unit) (l : list A) : step unit :=
  match l with
  | [] => mret tt
  | a :: l => _ ← body a; for_each body l
  end.

(** An acknowledged frame and those before it are no longer pending. *)
Definition acknowledge (a : byte) (l : list Pending) : list Pending :=
  match list_find (λ pd, sequence (pd_frame pd) = a) l with
  | Some (index, _) => drop (S index) l
  | None => l
  end.

(** The supported-id list of a message, four bytes an id. *)
Fixpoint id_chunks (l : bytes) : list Z :=
  match l with
  | a :: b :: c :: d :: rest => le_value [a; b; c; d] :: id_chunks rest
  | _ => []
  end.
Definition advertise (r : ApplicationRecord) : step unit :=
  match r with
  | Message i attributes data =>
      if (i =? 0) && bool_decide (attributes = x00) then
        _ ← st_lift (guard_err (negb (len data `mod` 4 =? 0) || (len data >? 4096 * 4))
              (DecodeError "supported message list length"));
        st_modify (on_self (set_advertised (list_to_set (id_chunks data))))
      else mret tt
  | Control _ _ => mret tt
  end.

Definition request_capabilities (now_ms : Z) : step unit :=
  x ← st_get;
  if bool_decide (phase (self x) = Capabilities) && bool_decide (2 ∈ advertised (self x))
     && bool_decide (4 ∈ advertised (self x))
  then
    _ ← send x02 (control [subscription 4 x13; subscription 2 x13] ++ supported_ids) now_ms;
    transition Challenge now_ms
  else mret tt.

(** A notification of new weather is answered with a request for it. *)
Definition handle_control (now_ms : Z) (commands : bytes) : step unit :=
  x ← st_get;
  ids ← st_lift (notifications commands);
  let wanted := filter (λ i, is_weather i = true ∧ i ∈ advertised (self x)) ids in
  let requests := (λ i, [x01] ++ le_bytes 4 i) <$> set_iter (list_to_set wanted) in
  if is_empty requests then mret tt else send x02 (control requests) now_ms.

Definition handle_challenge (now_ms : Z) (data : bytes) : step unit :=
  _ ← st_lift (guard_err (negb (len data =? 16)) (DecodeError "handshake challenge length"));
  x ← st_get;
  let response := le_bytes 4 1 ++ md5 (CHALLENGE_SEED ++ data) ++ nonce (self x) in
  _ ← st_modify (on_self (set_expected (Some (md5 (CHALLENGE_SEED ++ nonce (self x))))));
  _ ← send x02 (message 3 response) now_ms;
  transition VerifyResponse now_ms.

(** The comparison without an early exit. *)
Definition response_diff (data expected : bytes) : Z :=
  fold_left (λ diff ab, Z.lor diff (Z.lxor (b2z ab.1) (b2z ab.2))) (zip data expected) 0.

Definition subscriptions_for (ids : gset Z) (wanted : list (Z * byte)) : list bytes :=
  (λ p, subscription p.1 p.2) <$> filter (λ p, p.1 ∈ ids) wanted.

Definition handle_response (now_ms : Z) (data : bytes) : step unit :=
  x ← st_get;
  _ ← st_modify (on_self (set_expected None));
  expected ← st_lift (ok_or (expected_response (self x)) (DecodeError "handshake response state"));
  _ ← st_lift (guard_err (negb (len data =? len expected) || negb (response_diff data expected =? 0))
        (DecodeError "receiver challenge response mismatch"));
  let requests := subscriptions_for (advertised (self x))
    [(0x1000, x01); (0x2010, x01); (0x2110, x01); (0x20001100, x0a); (0x20001104, x0a)] in
  _ ← st_lift (guard_err (negb (bool_decide (0x1000 ∈ advertised (self x))))
        (DecodeError "receiver has no product identity message"));
  _ ← send x02 (control requests ++ supported_ids) now_ms;
  transition ProductPhase now_ms.

(** The product identity completes the setup. *)
Definition handle_product (now_ms : Z) : step unit :=
  x ← st_get;
  let ids := advertised (self x) in
  let subscriptions := subscriptions_for ids
    [(0x2100, x01); (0x2200, x01); (0x3010, x01); (0x20000000, x0a); (0x2001, x01); (0x2003, x01);
     (0x2005, x01)] in
  let weather := (λ i, subscription i xff) <$> filter (λ i, is_weather i = true) (set_iter ids) in
  _ ← send x02 (control (subscriptions ++ weather)) now_ms;
  transition Receiving now_ms.

Definition handle_record (now_ms : Z) (r : ApplicationRecord) : step unit :=
  x ← st_get;
  let ph := phase (self x) in
  match r with
  | Control _ commands =>
      if bool_decide (ph = Receiving) then handle_control now_ms commands else mret tt
  | Message i attributes data =>
      if (i =? 2) && bool_decide (attributes = x00) && bool_decide (ph = Challenge)
      then handle_challenge now_ms data
      else if (i =? 4) && bool_decide (attributes = x00) && bool_decide (ph = VerifyResponse)
      then handle_response now_ms data
      else
        _ ← (if (i =? 0x1000) && bool_decide (ph = ProductPhase) then handle_product now_ms else mret tt);
        x ← st_get;
        if (i >? 4) && bool_decide (phase (self x) = Receiving)
        then st_modify (deliver (received_message_decode i attributes data))
        else mret tt
  end.

(** The application records of one frame. *)
Definition receive_records (now_ms : Z) (pl : bytes) : step unit :=
  x ← st_get;
  let '(r, a) := application_feed pl (application (self x)) in
  _ ← st_modify (on_self (set_streams (framer (self x)) a));
  records ← st_lift r;
  _ ← for_each advertise records;
  _ ← request_capabilities now_ms;
  for_each (handle_record now_ms) records.

Definition receive_frame (now_ms : Z) (frame : Frame) : step unit :=
  _ ← st_lift (guard_err (negb (bool_decide (kind frame = x02)) && negb (bool_decide (kind frame = x03)))
        (DecodeError "unknown transport kind"));
  _ ← st_modify (on_self (λ p, set_pending (next_tx_sequence p)
        (acknowledge (acknowledgement frame) (pending p)) p));
  if is_empty (payload frame) then mret tt
  else
    x ← st_get;
    let '(accepted, seq) := accept sha256 frame (receive_sequence (self x)) in
    _ ← st_modify (on_self (set_received seq (ack (self x))));
    accepted ← st_lift accepted;
    if negb accepted then send x02 [] now_ms
    else
      _ ← st_modify (on_self (λ p, set_received (receive_sequence p) (sequence frame) p));
      x ← st_get;
      let before_tx := len (transmissions (output x)) in
      if bool_decide (phase (self x) = Negotiating) then
        _ ← st_lift (guard_err (negb (bool_decide (kind frame = x03)))
              (DecodeError "expected receiver negotiation"));
        _ ← send x02 (control [subscription 0 x14]) now_ms;
        transition Capabilities now_ms
      else
        _ ← st_lift (guard_err (negb (bool_decide (kind frame = x02)))
              (DecodeError "unexpected repeated negotiation"));
        _ ← receive_records now_ms (payload frame);
        x ← st_get;
        if len (transmissions (output x)) =? before_tx then send x02 [] now_ms else mret tt.

Definition receive_inner (input : bytes) (now_ms : Z) : step unit :=
  _ ← check_clock now_ms;
  x ← st_get;
  let '(r, f) := framer_feed input (framer (self x)) in
  _ ← st_modify (on_self (set_streams f (application (self x))));
  frames ← st_lift r;
  for_each (receive_frame now_ms) frames.

(** Both entry points return the output or fail the connection. *)
Definition settle (run : step unit) (p : Protocol) : result decode_error ProtocolOutput * Protocol :=
  match run {| self := p; output := output_default |} with
  | (Ok _, x) => (Ok (output x), self x)
  | (Err e, x) => (Err e, fail (self x))
  end.
Definition receive (input : bytes) (now_ms : Z) (p : Protocol)
    : result decode_error ProtocolOutput * Protocol :=
  settle (receive_inner input now_ms) p.

(** ** Time *)

(** The pending frames are sent again in order; one that was sent too often fails. *)
Fixpoint retransmit (now_ms : Z) (a : byte) (l : list Pending)
    : result decode_error (list Pending * list bytes) :=
  match l with
  | [] => Ok ([], [])
  | pd :: l =>
      _ ← guard_err (MAX_RETRIES <=? retries pd) (DecodeError "receiver acknowledgement deadline");
      let f := pd_frame pd in
      let f := {| kind := kind f; sequence := sequence f; acknowledgement := a; payload := payload f |} in
      encoded ← frame_encode f;
      '(l, sent) ← retransmit now_ms a l;
      Ok ({| pd_frame := f; last_sent_ms := now_ms; retries := retries pd + 1 |} :: l, encoded :: sent)
  end.

Definition tick_inner (now_ms : Z) : step unit :=
  _ ← check_clock now_ms;
  x ← st_get;
  let p := self x in
  _ ← st_lift (guard_err (negb (bool_decide (phase p = Receiving))
                          && (SETUP_TIMEOUT_MS <=? now_ms - phase_since_ms p))
        (DecodeError "receiver setup deadline"));
  match pending p with
  | first :: _ =>
      if RETRANSMIT_MS <=? now_ms - last_sent_ms first then
        '(l, sent) ← st_lift (retransmit now_ms (ack p) (pending p));
        _ ← st_modify (on_self (set_pending (next_tx_sequence p) l));
        for_each (λ b, st_modify (transmit b)) sent
      else mret tt
  | [] => mret tt
  end.
Definition tick (now_ms : Z) (p : Protocol) : result decode_error ProtocolOutput * Protocol :=
  settle (tick_inner now_ms) p.
End Protocol.
