(* ===== verification/ReceiverFramingCorrect.v ===== *)
(** * Correctness of the receiver framing

    The collecting loop is equal to a machine that takes one byte at a time, so the
    chunks the input comes in do not matter. Framing is a round trip, buffers stay
    bounded, reassembly gives back fragmented products, and retransmissions are
    filtered. *)

From Stdlib Require Import Strings.Byte.
From stdpp Require Import base list strings gmap.
From S2P Require Import Prelude ReceiverFraming.

Local Open Scope Z_scope.

(** ** The loop, one byte at a time *)

Section Bytewise.
Context {T Out : Type} (header : Z) (length_of : bytes → result decode_error Z)
  (finish : bytes → T → result decode_error (list Out) * (bytes * T)).

Definition push (buffer : bytes) (t : T) (b : byte) : result decode_error (list Out) * (bytes * T) :=
  let buffer := buffer ++ [b] in
  if len buffer <? header then (Ok [], (buffer, t))
  else match length_of buffer with
       | Err e => (Err e, (buffer, t))
       | Ok length => if len buffer <? length then (Ok [], (buffer, t)) else finish buffer t
       end.

Fixpoint run (buffer : bytes) (t : T) (input : bytes) (out : list Out)
    : result decode_error (list Out) * (bytes * T) :=
  match input with
  | [] => (Ok out, (buffer, t))
  | b :: input =>
      match push buffer t b with
      | (Err e, bt) => (Err e, bt)
      | (Ok produced, (buffer, t)) => run buffer t input (out ++ produced)
      end
  end.

(** A buffer short of its header or of the length the header gives. *)
Definition partial (buffer : bytes) : Prop :=
  len buffer < header ∨ ∃ L, header ≤ len buffer ∧ length_of buffer = Ok L ∧ len buffer < L.

Lemma run_app buffer t a b out :
  run buffer t (a ++ b) out =
    match run buffer t a out with
    | (Err e, bt) => (Err e, bt)
    | (Ok out, (buffer, t)) => run buffer t b out
    end.
Proof.
  revert buffer t out; induction a as [|x a IH]; intros buffer t out; simpl; [done|].
  destruct (push buffer t x) as [[o|e] [buffer' t']]; [apply IH|done].
Qed.

Lemma run_out buffer t input out :
  run buffer t input out =
    match run buffer t input [] with
    | (Ok o, bt) => (Ok (out ++ o), bt)
    | (Err e, bt) => (Err e, bt)
    end.
Proof.
  revert buffer t out; induction input as [|x input IH]; intros buffer t out; simpl.
  { by rewrite app_nil_r. }
  destruct (push buffer t x) as [[o|e] [buffer' t']]; [|done].
  rewrite (IH _ _ (out ++ o)), (IH _ _ o). destruct (run buffer' t' input []) as [[o'|e] bt]; [|done].
  by rewrite app_assoc.
Qed.

Lemma push_partial buffer t b : partial (buffer ++ [b]) → push buffer t b = (Ok [], (buffer ++ [b], t)).
Proof.
  unfold push. intros [Hlt|(L & Hge & HL & Hlt)].
  - by rewrite (proj2 (Z.ltb_lt _ _)).
  - rewrite (proj2 (Z.ltb_ge _ _)), HL by done. by rewrite (proj2 (Z.ltb_lt _ _)).
Qed.

Lemma run_partial buffer t chunk rest out :
  (∀ p, p `prefix_of` chunk → partial (buffer ++ p)) →
  run buffer t (chunk ++ rest) out = run (buffer ++ chunk) t rest out.
Proof.
  revert buffer; induction chunk as [|b chunk IH]; intros buffer Hp; simpl; [by rewrite app_nil_r|].
  rewrite push_partial by (apply Hp, prefix_cons, prefix_nil).
  rewrite app_nil_r, IH; [by rewrite <- app_assoc|].
  intros p Hpre. rewrite <- app_assoc. apply Hp. by apply prefix_cons.
Qed.

(** A unit whose length the header gives, read as a whole. *)
Lemma run_unit buffer t out :
  header ≤ len buffer → length_of buffer = Ok (len buffer) → buffer ≠ [] →
  (∀ p q, buffer = p ++ q → header ≤ len p → length_of p = Ok (len buffer)) →
  run [] t buffer out =
    match finish buffer t with
    | (Err e, bt) => (Err e, bt)
    | (Ok produced, (b, t')) => (Ok (out ++ produced), (b, t'))
    end.
Proof.
  intros Hh HL Hne Hpre. destruct (exists_last Hne) as (c & b & ->). rewrite run_partial.
  - cbn [app run]. unfold push. rewrite (proj2 (Z.ltb_ge _ _)), HL, Z.ltb_irrefl by done.
    by destruct (finish (c ++ [b]) t) as [[] [? ?]].
  - intros p [q ->]. cbn [app]. rewrite !len_app, len_cons, len_nil in *. pose proof (len_nonneg q).
    destruct (decide (len p < header)) as [|Hge]; [by left|]. right.
    exists (len p + len q + 1). rewrite (Hpre p (q ++ [b])) by (rewrite <- ?app_assoc; (done || lia)).
    split_and!; [lia|f_equal; lia|lia].
Qed.

(** An invariant of what the units change. *)
Lemma run_invariant (I : T → Prop) buffer t input out o b t' :
  (∀ b t o b' t', I t → finish b t = (Ok o, (b', t')) → I t') →
  I t → run buffer t input out = (Ok o, (b, t')) → I t'.
Proof.
  intros Hfin. revert buffer t out; induction input as [|x input IH]; intros buffer t out HI; cbn [run].
  { by intros [= _ _ <-]. }
  destruct (push buffer t x) as [[o'|e] [b1 t1]] eqn:Hpush; [|done]. apply IH. revert Hpush.
  unfold push. destruct (_ <? header); [by intros [= _ _ <-]|].
  destruct (length_of (buffer ++ [x])) as [L|e]; [|done].
  destruct (_ <? L); [by intros [= _ _ <-]|]. by apply Hfin.
Qed.

(** What both streams guarantee of their headers. *)
Hypothesis header_pos : 0 < header.
Hypothesis length_prefix : ∀ b c, header ≤ len b → length_of (b ++ c) = length_of b.
Hypothesis length_header : ∀ b L, length_of b = Ok L → header ≤ L.
Hypothesis finish_clears : ∀ b t o b' t', finish b t = (Ok o, (b', t')) → b' = [].

(** How far the loop fills a partial buffer. *)
Lemma partial_target buffer :
  partial buffer →
  ∃ target, (if len buffer <? header then Ok header else length_of buffer) = Ok target ∧
    len buffer < target ∧ ∀ p, len (buffer ++ p) < target → partial (buffer ++ p).
Proof.
  intros [Hlt|(L & Hge & HL & Hlt)].
  - rewrite (proj2 (Z.ltb_lt _ _)) by done. exists header. split_and!; [done..|]. intros p Hp. by left.
  - rewrite (proj2 (Z.ltb_ge _ _)) by done. exists L. split_and!; [done..|]. intros p Hp. right. exists L.
    rewrite length_prefix by done. rewrite len_app in *. pose proof (len_nonneg p). split_and!; [lia|done..].
Qed.

(** The rest of a round, once the buffer is filled. *)
Lemma push_fill buffer t b :
  push buffer t b =
    let buffer := buffer ++ [b] in
    if len buffer <? header then (Ok [], (buffer, t))
    else match length_of buffer with
         | Err e => (Err e, (buffer, t))
         | Ok length => if len buffer <? length then (Ok [], (buffer, t)) else finish buffer t
         end.
Proof. done. Qed.

Lemma assemble_run rounds buffer t input out :
  partial buffer → (length input ≤ rounds)%nat →
  assemble header length_of finish rounds buffer t input out = run buffer t input out.
Proof.
  revert buffer t input out; induction rounds as [|rounds IH]; intros buffer t input out Hpart Hlen.
  { destruct input; [done|simpl in Hlen; lia]. }
  destruct input as [|x input]; [done|]. cbn [assemble].
  destruct (partial_target buffer Hpart) as (target & -> & Hlt & Hquiet).
  set (inp := x :: input) in *. set (count := Z.min _ _).
  assert (0 < count ≤ len inp ∧ count ≤ target - len buffer) as Hcount.
  { unfold count. assert (0 < len inp) by (unfold inp; rewrite len_cons; pose proof (len_nonneg input); lia). lia. }
  set (chunk := take (Z.to_nat count) inp). set (rest := drop (Z.to_nat count) inp).
  assert (len chunk = count) as Hchunk by (unfold chunk, len in *; rewrite length_take; lia).
  assert (length rest ≤ rounds)%nat as Hrest
    by (unfold rest; rewrite length_drop; unfold len, inp in *; simpl in *; lia).
  assert (chunk ≠ []) as Hne by (intros Hnil; rewrite Hnil, len_nil in Hchunk; lia).
  destruct (exists_last Hne) as (c & b & Hc).
  assert (run buffer t inp out = run (buffer ++ c) t (b :: rest) out) as ->.
  { assert (inp = c ++ b :: rest) as Hinp
      by (rewrite cons_middle, app_assoc, <- Hc; symmetry; apply take_drop).
    rewrite Hinp. apply run_partial. intros p [q Hq]. apply Hquiet. rewrite len_app.
    apply (f_equal len) in Hq, Hc. rewrite !len_app in Hq, Hc. rewrite len_cons, len_nil in Hc.
    pose proof (len_nonneg q). lia. }
  cbn [run]. rewrite push_fill, <- app_assoc, <- Hc. cbn zeta.
  destruct (Z.ltb_spec (len (buffer ++ chunk)) header) as [Hh|Hh].
  { rewrite app_nil_r. apply IH; [by left|done]. }
  destruct (length_of (buffer ++ chunk)) as [L|e] eqn:HL; [|done].
  destruct (Z.ltb_spec (len (buffer ++ chunk)) L) as [Hl|Hl].
  { rewrite app_nil_r. apply IH; [right; by exists L|done]. }
  destruct (finish (buffer ++ chunk) t) as [[o|e] [b' t']] eqn:Hf; [|done].
  apply finish_clears in Hf as ->. apply IH; [left; by rewrite len_nil|done].
Qed.

Lemma run_partial_end buffer t input out o b t' :
  partial buffer → run buffer t input out = (Ok o, (b, t')) → partial b.
Proof.
  revert buffer t out; induction input as [|x input IH]; intros buffer t out Hp; cbn [run].
  { by intros [= _ <- _]. }
  destruct (push buffer t x) as [[o'|e] [b1 t1]] eqn:Hpush; [|done]. apply IH. revert Hpush.
  unfold push. destruct (Z.ltb_spec (len (buffer ++ [x])) header) as [Hh|Hh].
  { intros [= _ <- _]. by left. }
  destruct (length_of (buffer ++ [x])) as [L|e] eqn:HL; [|done].
  destruct (Z.ltb_spec (len (buffer ++ [x])) L) as [Hl|Hl].
  { intros [= _ <- _]. right. by exists L. }
  intros ->%finish_clears. left. by rewrite len_nil.
Qed.
End Bytewise.

(** ** Checksums *)

Definition byte_sum (l : bytes) : Z := foldr (λ b z, b2z b + z) 0 l.

Lemma checksum_from l a :
  b2z (fold_left (λ sum b, z2b (b2z sum - b2z b)) l a) = (b2z a - byte_sum l) `mod` 256.
Proof.
  revert a; induction l as [|b l IH]; intros a; simpl.
  - rewrite Z.sub_0_r, Z.mod_small; [done|apply b2z_range].
  - rewrite IH, b2z_z2b, Zminus_mod_idemp_l. f_equal. lia.
Qed.
Lemma checksum_value l : b2z (checksum l) = (- byte_sum l) `mod` 256.
Proof. unfold checksum. rewrite checksum_from. done. Qed.
Lemma byte_sum_snoc l c : byte_sum (l ++ [c]) = byte_sum l + b2z c.
Proof. induction l as [|b l IH]; simpl; [lia|]. rewrite IH. lia. Qed.

(** A unit ends with its checksum exactly when the whole sums to zero. *)
Lemma checksum_snoc l c : checksum (l ++ [c]) = x00 ↔ c = checksum l.
Proof.
  transitivity (b2z (checksum (l ++ [c])) = 0).
  { split; [by intros ->|]. intros H. by apply (inj b2z). }
  rewrite checksum_value, byte_sum_snoc. pose proof (b2z_range c). split.
  - intros H0. apply (inj b2z). rewrite checksum_value.
    rewrite <- (Z.mod_small (b2z c) 256) by done.
    replace (- byte_sum l) with (- (byte_sum l + b2z c) + b2z c) by lia.
    rewrite Z.add_mod, H0, Z.add_0_l, Z.mod_mod by lia. done.
  - intros ->. rewrite checksum_value. rewrite <- Z.sub_0_l, <- Zminus_mod_idemp_r, Zplus_mod_idemp_r.
    rewrite Z.add_opp_diag_r. done.
Qed.

(** ** Frames *)

Lemma frame_length_prefix b c : 8 ≤ len b → frame_length (b ++ c) = frame_length b.
Proof.
  unfold len. intros Hb. unfold frame_length, u16_at.
  rewrite !(take_app_le b c) by lia. rewrite drop_app_le by lia.
  rewrite take_app_le by (rewrite length_drop; lia). done.
Qed.
Lemma frame_length_header b L : frame_length b = Ok L → 8 ≤ L.
Proof.
  unfold frame_length. destruct (_ || _); [done|]. cbn zeta.
  destruct ((_ <? 8) || _) eqn:H; [done|]. intros [= <-]. zbool. lia.
Qed.
Lemma finish_frame_clears b t o b' t' : finish_frame b t = (Ok o, (b', t')) → b' = [].
Proof. unfold finish_frame. destruct (negb _); [done|]. by intros [= _ <- _]. Qed.

Abbreviation frame_partial := (partial 8 frame_length).
Abbreviation frame_run := (run 8 frame_length finish_frame).

Lemma frame_assemble_run buffer input :
  frame_partial buffer →
  assemble 8 frame_length finish_frame (length input) buffer tt input [] = frame_run buffer tt input [].
Proof.
  intros Hp. apply assemble_run; try done; [apply frame_length_prefix|apply finish_frame_clears].
Qed.
Lemma frame_run_partial buffer input o b t :
  frame_partial buffer → frame_run buffer tt input [] = (Ok o, (b, t)) → frame_partial b.
Proof. apply run_partial_end; [lia|apply finish_frame_clears]. Qed.

Lemma length_8_inv (l : bytes) :
  8 ≤ len l →
  ∃ a b c d e f g h r, l = a :: b :: c :: d :: e :: f :: g :: h :: r.
Proof.
  unfold len. intros Hl. do 8 (destruct l as [|? l]; [simpl in Hl; lia|]). by do 9 eexists.
Qed.

Lemma frame_length_cons a b c d k q ak h r L :
  frame_length (a :: b :: c :: d :: k :: q :: ak :: h :: r) = Ok L ↔
    a = xc0 ∧ b = x01 ∧ h = checksum [xc0; x01; c; d; k; q; ak] ∧ le_bytes 2 L = [c; d] ∧
    8 ≤ L < 65536 ∧ L ≠ 9.
Proof.
  unfold frame_length, u16_at. cbn [take drop]. rewrite !take_0.
  rewrite (bool_decide_ext ([a; b] = [xc0; x01]) (a = xc0 ∧ b = x01)) by naive_solver.
  destruct (bool_decide_reflect (a = xc0 ∧ b = x01)) as [[-> ->]|]; [|naive_solver].
  pose proof (checksum_snoc [xc0; x01; c; d; k; q; ak] h) as Hsum. cbn [app] in Hsum.
  destruct (bool_decide_reflect (checksum [xc0; x01; c; d; k; q; ak; h] = x00)) as [Hh|Hh]; [|naive_solver].
  apply Hsum in Hh. cbn [negb orb]. pose proof (le_value_bound [c; d]) as Hv.
  pose proof (le_bytes_le_value [c; d]) as Hcd. cbn [length] in Hcd. change (256 ^ len [c; d]) with 65536 in Hv.
  assert (∀ L, le_bytes 2 L = [c; d] → 0 ≤ L < 65536 → L = le_value [c; d]) as Hinv.
  { intros L' HL' HLr. rewrite <- HL', le_value_small; [done|]. simpl. lia. }
  destruct ((le_value [c; d] <? 8) || (le_value [c; d] =? 9)) eqn:Hr.
  - split; [done|]. intros (_ & _ & _ & HL & HLr & H9). rewrite <- (Hinv L) in Hr by (done || lia).
    apply orb_true_iff in Hr. rewrite Z.ltb_lt, Z.eqb_eq in Hr. lia.
  - zbool. split; [intros [= <-]; split_and!; (done || lia)|].
    intros (_ & _ & _ & HL & HLr & _). rewrite (Hinv L) by (done || lia). done.
Qed.

(** A full buffer whose checksums hold is the encoding of its frame. *)
Lemma finish_frame_encode buffer L o bt :
  frame_length buffer = Ok L → len buffer = L → finish_frame buffer tt = (Ok o, bt) →
  ∃ f, o = [f] ∧ frame_encode f = Ok buffer.
Proof.
  intros HL Hlen Hf. pose proof (frame_length_header _ _ HL) as H8.
  destruct (length_8_inv buffer) as (a & b & c & d & k & q & ak & h & r & ->); [lia|].
  apply frame_length_cons in HL as (-> & -> & Hh & Hcd & HLr & H9).
  unfold finish_frame in Hf. rewrite Hlen in Hf. change (drop 8 _) with r in Hf.
  destruct (bool_decide_reflect (checksum r = x00)) as [Hr|]; [|done]. cbn [negb] in Hf.
  injection Hf as <- _. eexists. split; [done|]. unfold byte_at. cbn [lookup list_lookup default from_option].
  rewrite !len_cons in Hlen. unfold frame_encode. cbn [payload kind sequence acknowledgement].
  destruct (list_eq_nil_dec r) as [->|Hne].
  - rewrite len_nil in Hlen. assert (L = 8) as -> by lia. rewrite Z.eqb_refl. cbn [is_empty].
    change (8 + len [] + 0) with 8. change (8 >? MAX_FRAME_BYTES) with false. by rewrite Hcd, Hh.
  - destruct (exists_last Hne) as (p & c' & ->). apply checksum_snoc in Hr.
    rewrite len_app, len_cons, len_nil in Hlen.
    assert (p ≠ []) as Hp by (intros ->; rewrite len_nil in Hlen; lia).
    pose proof (len_nonneg p). rewrite (proj2 (Z.eqb_neq L 8)) by lia.
    assert (take (Z.to_nat (L - 9)) (p ++ [c']) = p) as ->
      by (rewrite take_app_length'; [done|unfold len in Hlen; lia]).
    destruct p as [|p0 p]; [done|]. set (pp := p0 :: p) in *. cbn [is_empty pp].
    replace (8 + len pp + 1) with L by lia. unfold MAX_FRAME_BYTES, u16_max.
    destruct (Z.gtb_spec L 65535); [lia|]. rewrite Hcd, Hh, <- Hr. done.
Qed.

(** The encoding of a frame is a full buffer, and finishing it gives the frame back. *)
Lemma frame_encode_finish f e :
  frame_encode f = Ok e →
  8 ≤ len e ∧ frame_length e = Ok (len e) ∧ finish_frame e tt = (Ok [f], ([], tt)).
Proof.
  unfold frame_encode. set (L := 8 + len (payload f) + _).
  destruct (Z.gtb_spec L MAX_FRAME_BYTES) as [|Hmax]; [done|]. intros [= <-].
  unfold MAX_FRAME_BYTES, u16_max in Hmax. pose proof (len_nonneg (payload f)) as Hp.
  assert (8 ≤ L ∧ L ≠ 9 ∧ L = 8 + len (payload f ++ if is_empty (payload f) then [] else [checksum (payload f)]))
    as (H8 & H9 & HL).
  { unfold L. rewrite len_app. destruct (payload f) as [|x p]; [done|]. cbn [is_empty].
    rewrite !len_cons in *. rewrite len_nil. pose proof (len_nonneg p). lia. }
  pose proof (length_le_bytes 2 L) as Hle. destruct (le_bytes 2 L) as [|c [|d [|]]] eqn:Hcd; try done.
  set (tail := payload f ++ _) in *.
  set (h := checksum _).
  change (([xc0; x01] ++ [c; d] ++ [kind f; sequence f; acknowledgement f]) ++ [h]) with
    [xc0; x01; c; d; kind f; sequence f; acknowledgement f; h]. cbn [app].
  set (e := xc0 :: _). assert (len e = L) as He by (unfold e; rewrite !len_cons; lia).
  split_and!; [lia| |].
  - rewrite He. unfold e. apply frame_length_cons. split_and!; (done || lia).
  - unfold finish_frame. rewrite He. change (drop 8 e) with tail.
    assert (checksum tail = x00 ∧ (if L =? 8 then [] else take (Z.to_nat (L - 9)) tail) = payload f)
      as [-> ->]; [|by destruct f].
    unfold tail, L. destruct (payload f) as [|x p] eqn:Hpay; [done|]. cbn [is_empty].
    split; [by apply checksum_snoc|]. rewrite !len_cons in *. pose proof (len_nonneg p).
    rewrite (proj2 (Z.eqb_neq _ 8)) by lia. rewrite take_app_length'; [done|].
    simpl. unfold len. lia.
Qed.

Lemma frame_run_encode f e out :
  frame_encode f = Ok e → frame_run [] tt e out = (Ok (out ++ [f]), ([], tt)).
Proof.
  intros (H8 & HL & Hf)%frame_encode_finish. rewrite run_unit; [by rewrite Hf|done|done| |].
  - intros ->. rewrite len_nil in H8. lia.
  - intros p q -> Hp. by rewrite frame_length_prefix in HL.
Qed.

(** Encoded frames, as a relation between frames and bytes. *)
Definition encodes (frames : list Frame) (stream : bytes) : Prop :=
  ∃ es, Forall2 (λ f e, frame_encode f = Ok e) frames es ∧ stream = concat es.

Lemma frame_run_encodes frames stream out :
  encodes frames stream → frame_run [] tt stream out = (Ok (out ++ frames), ([], tt)).
Proof.
  intros (es & Hes & ->). revert out; induction Hes as [|f e frames es Hf Hes IH]; intros out.
  - by rewrite app_nil_r.
  - cbn [concat]. rewrite run_app, (frame_run_encode f e out Hf), IH. by rewrite <- app_assoc.
Qed.

Lemma encodes_nil : encodes [] [].
Proof. exists []. split; [constructor|done]. Qed.
Lemma encodes_app a b s t : encodes a s → encodes b t → encodes (a ++ b) (s ++ t).
Proof.
  intros (es & Hes & ->) (es' & Hes' & ->). exists (es ++ es').
  split; [by apply Forall2_app|]. by rewrite concat_app.
Qed.

(** What was read is exactly the encodings of the frames and the buffered rest. *)
Lemma frame_push_exact buffer x o b' t' :
  frame_partial buffer → push 8 frame_length finish_frame buffer tt x = (Ok o, (b', t')) →
  frame_partial b' ∧ ∃ s, encodes o s ∧ buffer ++ [x] = s ++ b'.
Proof.
  intros Hp Hpush. unfold push in Hpush.
  destruct (Z.ltb_spec (len (buffer ++ [x])) 8) as [Hh|Hh].
  { injection Hpush as <- <- _. split; [by left|]. exists []. split; [apply encodes_nil|done]. }
  destruct (frame_length (buffer ++ [x])) as [L|] eqn:HL; [|done].
  destruct (Z.ltb_spec (len (buffer ++ [x])) L) as [Hl|Hl].
  { injection Hpush as <- <- _. split; [right; by exists L|]. exists []. split; [apply encodes_nil|done]. }
  assert (len (buffer ++ [x]) = L) as Hlen.
  { rewrite len_app, len_cons, len_nil in *. destruct Hp as [Hp|(L' & Hp & HL' & Hlt)].
    - pose proof (frame_length_header _ _ HL). lia.
    - rewrite frame_length_prefix in HL by done. assert (L = L') by congruence. lia. }
  pose proof (finish_frame_clears _ _ _ _ _ Hpush) as ->.
  destruct (finish_frame_encode _ _ _ _ HL Hlen Hpush) as (f & -> & Hf).
  split; [by left|]. exists (buffer ++ [x]). split; [|by rewrite app_nil_r].
  exists [buffer ++ [x]]. split; [by repeat constructor|]. cbn. by rewrite app_nil_r.
Qed.

Lemma frame_run_exact buffer input frames rest t :
  frame_partial buffer → frame_run buffer tt input [] = (Ok frames, (rest, t)) →
  ∃ stream, encodes frames stream ∧ buffer ++ input = stream ++ rest.
Proof.
  revert buffer frames; induction input as [|x input IH]; intros buffer frames Hp; cbn [run].
  { intros [= <- <- _]. exists []. split; [apply encodes_nil|]. by rewrite app_nil_r. }
  destruct (push 8 frame_length finish_frame buffer tt x) as [[o|e] [b' []]] eqn:Hpush; [|done].
  rewrite run_out. destruct (frame_run b' tt input []) as [[o'|e] [rest' []]] eqn:Hrun; [|done].
  intros [= <- <- <-]. destruct (frame_push_exact _ _ _ _ _ Hp Hpush) as (Hb' & s & Hs & Heq).
  destruct (IH b' o' Hb' Hrun) as (s' & Hs' & Heq'). exists (s ++ s'). split; [by apply encodes_app|].
  rewrite (cons_middle x buffer input), app_assoc, Heq, <- !app_assoc, Heq'. done.
Qed.

(** ** The framer *)

(** Feeding a sequence of chunks. *)
Fixpoint framer_feed_all (chunks : list bytes) (f : Framer) : result decode_error (list Frame) * Framer :=
  match chunks with
  | [] => (Ok [], f)
  | c :: chunks =>
      match framer_feed c f with
      | (Err e, f) => (Err e, f)
      | (Ok a, f) =>
          match framer_feed_all chunks f with
          | (Err e, f) => (Err e, f)
          | (Ok b, f) => (Ok (a ++ b), f)
          end
      end
  end.

(** The framer as it is between calls. *)
Definition framer_ok (f : Framer) : Prop := frame_partial (fr_buffer f).
Definition framer_outcome (r : result decode_error (list Frame) * (bytes * unit)) :=
  match r with
  | (Ok out, (b, _)) => (Ok out, {| fr_buffer := b; fr_failed := false |})
  | (Err e, _) => (Err e, {| fr_buffer := []; fr_failed := true |})
  end.
Definition chunk_fits (c : bytes) : Prop := len c ≤ 4 * MAX_FRAME_BYTES.

Lemma framer_feed_run c f :
  framer_ok f → fr_failed f = false → chunk_fits c →
  framer_feed c f = framer_outcome (frame_run (fr_buffer f) tt c []).
Proof.
  intros Hf Hfail Hc. unfold framer_feed, framer_feed_inner. rewrite Hfail.
  destruct (Z.gtb_spec (len c) (4 * MAX_FRAME_BYTES)); [unfold chunk_fits in Hc; lia|].
  rewrite frame_assemble_run by done. by destruct (frame_run _ _ _ _) as [[] [? ?]].
Qed.

Lemma framer_feed_ok c f : framer_ok f → framer_ok (framer_feed c f).2.
Proof.
  intros Hf. unfold framer_feed, framer_feed_inner. destruct (fr_failed f); [done|].
  destruct (_ >? _); [by left|]. rewrite frame_assemble_run by done.
  destruct (frame_run _ _ _ _) as [[o|e] [b t]] eqn:Hrun; [|by left]. by eapply frame_run_partial.
Qed.

Lemma framer_feed_all_run chunks f :
  framer_ok f → fr_failed f = false → Forall chunk_fits chunks →
  framer_feed_all chunks f = framer_outcome (frame_run (fr_buffer f) tt (concat chunks) []).
Proof.
  intros Hf Hfail Hc. revert f Hf Hfail; induction Hc as [|c chunks Hc Hcs IH]; intros f Hf Hfail.
  { cbn. destruct f; simpl in *. by subst. }
  cbn [framer_feed_all concat]. pose proof (framer_feed_ok c f Hf) as Hok.
  rewrite framer_feed_run in * by done. rewrite run_app.
  destruct (frame_run (fr_buffer f) tt c []) as [[o|e] [b []]]; cbn [framer_outcome] in *; [|done].
  rewrite IH by done. rewrite (run_out _ _ _ b tt (concat chunks) o). cbn [fr_buffer].
  by destruct (frame_run b tt (concat chunks) []) as [[o'|e] [b' []]].
Qed.

Lemma frame_partial_bound buffer : frame_partial buffer → len buffer < MAX_FRAME_BYTES.
Proof.
  unfold MAX_FRAME_BYTES, u16_max. intros [Hlt|(L & Hge & HL & Hlt)]; [lia|].
  destruct (length_8_inv buffer) as (a & b & c & d & k & q & ak & h & r & ->); [done|].
  apply frame_length_cons in HL as (_ & _ & _ & _ & HL & _). lia.
Qed.
Lemma framer_feed_all_ok chunks f : framer_ok f → framer_ok (framer_feed_all chunks f).2.
Proof.
  revert f; induction chunks as [|c chunks IH]; intros f Hf; [done|]. cbn [framer_feed_all].
  pose proof (framer_feed_ok c f Hf) as Hok. destruct (framer_feed c f) as [[o|e] f']; [|done].
  specialize (IH f' Hok). by destruct (framer_feed_all chunks f') as [[]].
Qed.
Lemma framer_feed_failed c f e f' : framer_feed c f = (Err e, f') → fr_failed f' = true.
Proof.
  unfold framer_feed. destruct (fr_failed f) eqn:Hf; [by intros [= _ <-]|].
  destruct (framer_feed_inner _ _) as [[]]; [done|]. by intros [= _ <-].
Qed.

Lemma framer_feed_all_failed chunks f e f' :
  framer_feed_all chunks f = (Err e, f') → fr_failed f' = true.
Proof.
  revert f; induction chunks as [|c chunks IH]; intros f; [done|]. cbn [framer_feed_all].
  destruct (framer_feed c f) as [[o|e1] f1] eqn:Hf; [|intros [= _ <-]; by eapply framer_feed_failed].
  specialize (IH f1). destruct (framer_feed_all chunks f1) as [[o2|e2] f2]; [done|].
  intros [= -> <-]. by apply IH.
Qed.

(** ** Properties of the framer *)

Definition sample_frame : Frame := {| kind := x02; sequence := x05; acknowledgement := x01; payload := bs "hi" |}.
Definition sample_stream : bytes :=
  match frame_encode sample_frame with Ok e => e | Err _ => [] end.
Lemma sample_encodes : encodes [sample_frame] sample_stream.
Proof. exists [sample_stream]. split; [by repeat constructor|by vm_compute]. Qed.
Lemma default_ok : framer_ok framer_default.
Proof. by left. Qed.

(** The framer's answer and state depend only on the bytes received, not on how they
    were cut into chunks. *)
Theorem framer_chunking f chunks chunks' :
  framer_ok f → fr_failed f = false → Forall chunk_fits chunks → Forall chunk_fits chunks' →
  concat chunks = concat chunks' → framer_feed_all chunks f = framer_feed_all chunks' f.
Proof. intros Hf Hfail Hc Hc' Heq. by rewrite !framer_feed_all_run, Heq. Qed.
Lemma framer_chunking_witness :
  framer_feed_all [take 3 sample_stream; drop 3 sample_stream] framer_default =
    framer_feed_all [sample_stream] framer_default.
Proof.
  apply framer_chunking; [apply default_ok|reflexivity|..|by vm_compute]; repeat constructor; by vm_compute.
Defined.

(** C24: encoded frames, fed in any chunks, come back as the same frames in order, and leave
    the framer empty. *)
Theorem framer_roundtrip frames stream chunks :
  encodes frames stream → Forall chunk_fits chunks → concat chunks = stream →
  framer_feed_all chunks framer_default = (Ok frames, framer_default).
Proof.
  intros He Hc Heq. rewrite framer_feed_all_run by (done || apply default_ok).
  cbn [framer_default fr_buffer]. by rewrite Heq, (frame_run_encodes frames) by done.
Qed.
Lemma framer_roundtrip_witness :
  framer_feed_all [take 9 sample_stream; drop 9 sample_stream] framer_default =
    (Ok [sample_frame], framer_default).
Proof.
  eapply framer_roundtrip; [apply sample_encodes| |by vm_compute]. repeat constructor; by vm_compute.
Defined.

(** What the framer accepted is exactly the encodings of the frames it returned,
    followed by the bytes it still holds. *)
Theorem framer_exact chunks frames f :
  Forall chunk_fits chunks → framer_feed_all chunks framer_default = (Ok frames, f) →
  ∃ stream, encodes frames stream ∧ concat chunks = stream ++ fr_buffer f.
Proof.
  intros Hc. rewrite framer_feed_all_run by (done || apply default_ok). cbn [framer_default fr_buffer].
  destruct (frame_run [] tt (concat chunks) []) as [[o|e] [b []]] eqn:Hrun; [|done].
  intros [= <- <-]. apply frame_run_exact in Hrun; [done|apply default_ok].
Qed.
Lemma framer_exact_witness :
  ∃ stream, encodes [sample_frame] stream ∧ concat [sample_stream; [xc0]] = stream ++ [xc0].
Proof.
  apply (framer_exact _ _ {| fr_buffer := [xc0]; fr_failed := false |}); [|by vm_compute].
  repeat constructor; by vm_compute.
Defined.

(** Whatever is fed, the framer never holds a frame's worth of bytes, and after an
    error it holds nothing and refuses all input until it is reset. *)
Theorem framer_bounded chunks :
  let '(r, f) := framer_feed_all chunks framer_default in
  len (fr_buffer f) < MAX_FRAME_BYTES ∧
  match r with
  | Ok _ => True
  | Err _ => fr_failed f = true ∧
             (∀ c, framer_feed c f = (Err (DecodeError "reset required after framing failure"), f)) ∧
             framer_reset f = framer_default
  end.
Proof.
  pose proof (framer_feed_all_ok chunks framer_default default_ok) as Hok.
  destruct (framer_feed_all chunks framer_default) as [[o|e] f] eqn:Hrun;
    (split; [by apply frame_partial_bound|]); [done|].
  apply framer_feed_all_failed in Hrun. split_and!; [done| |done]. intros c. unfold framer_feed.
  by rewrite Hrun.
Qed.
