(* ===== verification/ReceiverApplication.v ===== *)
(** * Application records and retransmissions

    The application stream over the collecting loop: chunking does not matter, fragments
    give back the product, and the reassembly store stays within its limits. The receive
    sequence delivers each frame once. *)

From Stdlib Require Import Strings.Byte.
From stdpp Require Import base list strings gmap.
From S2P Require Import Prelude ReceiverFraming ReceiverProtocol ReceiverFramingCorrect.

Local Open Scope Z_scope.

(** ** The loop's instance *)

Lemma application_length_prefix b c : 4 ≤ len b → application_length (b ++ c) = application_length b.
Proof.
  unfold len. intros Hb. unfold application_length, u16_at, byte_at.
  rewrite lookup_app_l by lia. rewrite drop_app_le by lia.
  rewrite take_app_le by (rewrite length_drop; lia). done.
Qed.
Lemma finish_application_clears b a o b' a' : finish_application b a = (Ok o, (b', a')) → b' = [].
Proof. unfold finish_application. destruct (application_record b a). by intros [= _ <- _]. Qed.

Abbreviation app_partial := (partial 4 application_length).
Abbreviation app_run := (run 4 application_length finish_application).

Lemma app_assemble_run buffer a input :
  app_partial buffer →
  assemble 4 application_length finish_application (length input) buffer a input [] = app_run buffer a input [].
Proof.
  intros Hp. apply assemble_run; try done; [apply application_length_prefix|apply finish_application_clears].
Qed.

(** ** Limits of the reassembly store *)

Definition held_bytes (fs : gmap Z (byte * bytes)) : Z := map_fold (λ _ f z, len f.2 + z) 0 fs.

Lemma held_bytes_insert fs i f : fs !! i = None → held_bytes (<[i := f]> fs) = len f.2 + held_bytes fs.
Proof. intros Hi. unfold held_bytes. rewrite map_fold_insert_L; [done|intros; lia|done]. Qed.
Lemma held_bytes_delete fs i f : fs !! i = Some f → held_bytes fs = len f.2 + held_bytes (delete i fs).
Proof. intros Hi. unfold held_bytes. rewrite (map_fold_delete_L _ _ i f fs); [done|intros; lia|done]. Qed.
Lemma held_bytes_nonneg fs : 0 ≤ held_bytes fs.
Proof.
  unfold held_bytes. apply (map_fold_weak_ind (λ z _, 0 ≤ z)); [done|].
  intros i f m z _ Hz. pose proof (len_nonneg f.2). lia.
Qed.

Definition within_limits (a : assemblies) : Prop :=
  total_bytes a = held_bytes (files a) ∧ total_bytes a ≤ MAX_PRODUCT_BYTES ∧
  Z.of_nat (size (files a)) ≤ MAX_ASSEMBLIES.

Lemma size_delete_le (fs : gmap Z (byte * bytes)) i : (size (delete i fs) ≤ size fs)%nat.
Proof. apply map_subseteq_size, delete_subseteq. Qed.

Lemma append_fragment_limits i flags body a o a' :
  within_limits a → append_fragment i flags body a = (Ok o, a') → within_limits a'.
Proof.
  intros (Ht & Hmax & Hsize). unfold append_fragment.
  destruct (Z.gtb_spec (total_bytes a + len body) MAX_PRODUCT_BYTES) as [|Hle]; [done|].
  destruct (files a !! i) as [[at0 data]|] eqn:Hi; [|done].
  pose proof (held_bytes_delete _ _ _ Hi) as Hd. cbn [snd] in Hd. pose proof (len_nonneg body).
  destruct (has_flag flags 8); intros [= _ <-]; unfold within_limits; cbn [files total_bytes].
  - pose proof (size_delete_le (files a) i). rewrite len_app. pose proof (len_nonneg data).
    split_and!; [lia|lia|]. lia.
  - split_and!; [|done|].
    + rewrite <- insert_delete_eq, held_bytes_insert by apply lookup_delete_eq. cbn [snd]. rewrite len_app. lia.
    + by rewrite map_size_insert_Some by (by eexists).
Qed.

Lemma open_assembly_limits i flags a a' :
  within_limits a → open_assembly i flags a = (Ok tt, a') → within_limits a'.
Proof.
  intros Ha. unfold open_assembly.
  assert (within_limits (match files a !! i with
    | Some (_, previous) => {| files := delete i (files a); total_bytes := total_bytes a - len previous |}
    | None => a end) ∧ files (match files a !! i with
    | Some (_, previous) => {| files := delete i (files a); total_bytes := total_bytes a - len previous |}
    | None => a end) !! i = None) as [Hb Hbi].
  { destruct (files a !! i) as [[at0 data]|] eqn:Hi; [|done]. destruct Ha as (Ht & Hmax & Hsize).
    pose proof (held_bytes_delete _ _ _ Hi) as Hd. cbn [snd] in Hd.
    pose proof (size_delete_le (files a) i). pose proof (len_nonneg data).
    split; [|apply lookup_delete_eq]. split_and!; cbn [files total_bytes]; lia. }
  set (b := match files a !! i with Some _ => _ | None => _ end) in *. destruct Hb as (Ht & Hmax & Hsize).
  destruct (Z.eqb_spec (Z.of_nat (size (files b))) MAX_ASSEMBLIES); [done|]. intros [= <-].
  split_and!; cbn [files total_bytes].
  - rewrite held_bytes_insert by done. cbn [snd]. rewrite len_nil. lia.
  - done.
  - rewrite map_size_insert_None by done. lia.
Qed.

Lemma finish_application_limits b a o b' a' :
  within_limits a → finish_application b a = (Ok o, (b', a')) → within_limits a'.
Proof.
  intros Ha. unfold finish_application, application_record.
  destruct (has_flag _ 2); [by intros [= _ _ <-]|].
  destruct (has_flag _ 4).
  - destruct (open_assembly _ _ a) as [[[]|e] a1] eqn:Hopen; [|done].
    apply open_assembly_limits in Hopen; [|done].
    destruct (append_fragment _ _ _ a1) as [[o1|e] a2] eqn:Happ; [|done]. intros [= _ _ <-].
    by eapply append_fragment_limits.
  - destruct (append_fragment _ _ _ a) as [[o1|e] a2] eqn:Happ; [|done]. intros [= _ _ <-].
    by eapply append_fragment_limits.
Qed.

(** ** The stream *)

Definition stream_ok (s : ApplicationStream) : Prop :=
  app_partial (ap_buffer s) ∧ within_limits (ap_files s).

Lemma no_assemblies_limits : within_limits no_assemblies.
Proof. by split_and!. Qed.
Lemma application_default_ok : stream_ok application_default.
Proof. split; [by left|apply no_assemblies_limits]. Qed.

Definition app_chunk_fits (c : bytes) : Prop := len c ≤ MAX_PRODUCT_BYTES.
Definition app_outcome (r : result decode_error (list ApplicationRecord) * (bytes * assemblies)) :=
  match r with
  | (Ok out, (b, a)) => (Ok out, {| ap_buffer := b; ap_files := a; ap_failed := false |})
  | (Err e, _) => (Err e, {| ap_buffer := []; ap_files := no_assemblies; ap_failed := true |})
  end.

Lemma application_feed_run c s :
  stream_ok s → ap_failed s = false → app_chunk_fits c →
  application_feed c s = app_outcome (app_run (ap_buffer s) (ap_files s) c []).
Proof.
  intros [Hs _] Hfail Hc. unfold application_feed, application_feed_inner. rewrite Hfail.
  destruct (Z.gtb_spec (len c) MAX_PRODUCT_BYTES); [unfold app_chunk_fits in Hc; lia|].
  rewrite app_assemble_run by done. by destruct (app_run _ _ _ _) as [[] [? ?]].
Qed.

Lemma app_run_ok buffer a input o b a' :
  app_partial buffer → within_limits a → app_run buffer a input [] = (Ok o, (b, a')) →
  app_partial b ∧ within_limits a'.
Proof.
  intros Hp Ha Hrun. split.
  - eapply run_partial_end; [..|exact Hrun]; [lia|apply finish_application_clears|done].
  - eapply run_invariant; [apply finish_application_limits|done|exact Hrun].
Qed.

Lemma application_feed_ok c s : stream_ok s → stream_ok (application_feed c s).2.
Proof.
  intros [Hp Ha]. unfold application_feed, application_feed_inner. destruct (ap_failed s); [done|].
  assert (stream_ok {| ap_buffer := []; ap_files := no_assemblies; ap_failed := true |}) as Hfail
    by (split; [by left|apply no_assemblies_limits]).
  destruct (_ >? _); [done|]. rewrite app_assemble_run by done.
  destruct (app_run _ _ _ _) as [[o|e] [b a']] eqn:Hrun; [|done]. by eapply app_run_ok in Hrun.
Qed.

Fixpoint application_feed_all (chunks : list bytes) (s : ApplicationStream)
    : result decode_error (list ApplicationRecord) * ApplicationStream :=
  match chunks with
  | [] => (Ok [], s)
  | c :: chunks =>
      match application_feed c s with
      | (Err e, s) => (Err e, s)
      | (Ok a, s) =>
          match application_feed_all chunks s with
          | (Err e, s) => (Err e, s)
          | (Ok b, s) => (Ok (a ++ b), s)
          end
      end
  end.

Lemma application_feed_all_run chunks s :
  stream_ok s → ap_failed s = false → Forall app_chunk_fits chunks →
  application_feed_all chunks s = app_outcome (app_run (ap_buffer s) (ap_files s) (concat chunks) []).
Proof.
  intros Hs Hfail Hc. revert s Hs Hfail; induction Hc as [|c chunks Hc Hcs IH]; intros s Hs Hfail.
  { cbn. destruct s; simpl in *. by subst. }
  cbn [application_feed_all concat]. pose proof (application_feed_ok c s Hs) as Hok.
  rewrite application_feed_run in * by done. rewrite run_app.
  destruct (app_run (ap_buffer s) (ap_files s) c []) as [[o|e] [b a]]; cbn [app_outcome] in *; [|done].
  rewrite IH by done. rewrite (run_out _ _ _ b a (concat chunks) o). cbn [ap_buffer ap_files].
  by destruct (app_run b a (concat chunks) []) as [[o'|e] [b' a']].
Qed.
Lemma application_feed_all_ok chunks s : stream_ok s → stream_ok (application_feed_all chunks s).2.
Proof.
  revert s; induction chunks as [|c chunks IH]; intros s Hs; [done|]. cbn [application_feed_all].
  pose proof (application_feed_ok c s Hs) as Hok. destruct (application_feed c s) as [[o|e] s']; [|done].
  specialize (IH s' Hok). by destruct (application_feed_all chunks s') as [[]].
Qed.

(** ** Records *)

Definition record_fits (i : Z) (body : bytes) : Prop := in_u32 i ∧ len body + 8 ≤ u16_max.

Lemma record_shape flags i body :
  record_fits i body →
  ∃ a b c d e f, le_bytes 2 (len body + 8) = [a; b] ∧ le_bytes 4 i = [c; d; e; f] ∧
    record flags i body = x01 :: a :: b :: flags :: c :: d :: e :: f :: body.
Proof.
  intros _. pose proof (length_le_bytes 2 (len body + 8)) as H2. pose proof (length_le_bytes 4 i) as H4.
  unfold record. destruct (le_bytes 2 (len body + 8)) as [|a [|b [|]]]; try done.
  destruct (le_bytes 4 i) as [|c [|d [|e [|f [|]]]]]; try done. by do 6 eexists.
Qed.

(** A record is one unit of the stream, with its flags, id and body. *)
Lemma app_run_record flags i body a out :
  record_fits i body →
  app_run [] a (record flags i body) out =
    match application_record (record flags i body) a with
    | (Err e, a) => (Err e, ([], a))
    | (Ok o, a) => (Ok (out ++ o), ([], a))
    end.
Proof.
  intros Hfit. destruct (record_shape flags i body Hfit) as (l0 & l1 & c & d & e & f & H2 & H4 & Hr).
  destruct Hfit as [Hi Hlen]. unfold u16_max in Hlen. pose proof (len_nonneg body).
  assert (len (record flags i body) = len body + 8) as HL by (rewrite Hr, !len_cons; lia).
  assert (application_length (record flags i body) = Ok (len (record flags i body))) as Hal.
  { rewrite HL, Hr. unfold application_length, u16_at, byte_at. cbn [take drop lookup list_lookup].
    rewrite <- H2, le_value_small by (simpl; lia). cbn.
    destruct (Z.ltb_spec (len body + 8) 8); [lia|done]. }
  rewrite run_unit; [|lia|done| |].
  - unfold finish_application. by destruct (application_record _ a) as [[]].
  - intros Hnil. rewrite Hnil, len_nil in HL. lia.
  - intros p q Hpq Hp. rewrite Hpq in Hal at 1. by rewrite application_length_prefix in Hal.
Qed.

Lemma application_record_record flags i body a :
  record_fits i body →
  application_record (record flags i body) a =
    if has_flag flags 2 then (Ok [Control i body], a)
    else if has_flag flags 4 then
      match open_assembly i flags a with
      | (Err e, a) => (Err e, a)
      | (Ok _, a) => append_fragment i flags body a
      end
    else append_fragment i flags body a.
Proof.
  intros Hfit. destruct (record_shape flags i body Hfit) as (l0 & l1 & c & d & e & f & H2 & H4 & ->).
  unfold application_record, byte_at. cbn [lookup list_lookup from_option]. unfold Datatypes.id.
  change (drop 8 _) with body. change (take 4 (drop 4 _)) with [c; d; e; f].
  destruct Hfit as [Hi _]. unfold in_u32, u32_max in Hi. by rewrite <- H4, le_value_small by (simpl; lia).
Qed.

(** ** Fragmented products *)

(** The records that carry a product in parts: the first starts it, the last ends it. *)
Fixpoint later_fragments (i : Z) (parts : list bytes) (last_part : bytes) : bytes :=
  match parts with
  | [] => record x08 i last_part
  | p :: parts => record x00 i p ++ later_fragments i parts last_part
  end.
Definition fragments (i : Z) (first : bytes) (parts : list bytes) (last_part : bytes) : bytes :=
  record x04 i first ++ later_fragments i parts last_part.

Lemma append_more i flags body a attributes data :
  files a !! i = Some (attributes, data) → total_bytes a + len body ≤ MAX_PRODUCT_BYTES →
  append_fragment i flags body a =
    let attributes := z2b (Z.lor (b2z attributes) (b2z (attribute_bits flags))) in
    if has_flag flags 8 then
      (Ok [Message i attributes (data ++ body)],
       {| files := delete i (files a); total_bytes := total_bytes a + len body - len (data ++ body) |})
    else (Ok [], {| files := <[i := (attributes, data ++ body)]> (files a);
                    total_bytes := total_bytes a + len body |}).
Proof.
  intros Hi Hle. unfold append_fragment. destruct (Z.gtb_spec (total_bytes a + len body) MAX_PRODUCT_BYTES); [lia|].
  by rewrite Hi.
Qed.

Lemma later_fragments_run i parts last_part a data out :
  files a !! i = Some (x00, data) → Forall (record_fits i) parts → record_fits i last_part →
  total_bytes a + len (concat parts) + len last_part ≤ MAX_PRODUCT_BYTES →
  app_run [] a (later_fragments i parts last_part) out =
    (Ok (out ++ [Message i x00 (data ++ concat parts ++ last_part)]),
     ([], {| files := delete i (files a); total_bytes := total_bytes a - len data |})).
Proof.
  intros Hi Hparts Hlast. revert a data out Hi.
  induction Hparts as [|p parts Hp Hparts IH]; intros a data out Hi Hmax; cbn [later_fragments concat].
  - rewrite app_run_record, application_record_record by done. cbn [concat] in Hmax. rewrite len_nil in Hmax.
    rewrite (append_more _ _ _ _ _ _ Hi) by lia. change (has_flag x08 2) with false.
    change (has_flag x08 4) with false. change (has_flag x08 8) with true. cbn.
    change (z2b _) with x00. by replace (total_bytes a + len last_part - len (data ++ last_part))
      with (total_bytes a - len data) by (rewrite len_app; lia).
  - cbn [concat] in Hmax. rewrite len_app in Hmax. pose proof (len_nonneg (concat parts)).
    pose proof (len_nonneg last_part).
    rewrite run_app, app_run_record, application_record_record by done.
    rewrite (append_more _ _ _ _ _ _ Hi) by lia. change (has_flag x00 2) with false.
    change (has_flag x00 4) with false. change (has_flag x00 8) with false. cbn zeta iota.
    change (z2b _) with x00. rewrite app_nil_r.
    rewrite (IH _ (data ++ p)); cbn [files total_bytes]; [|apply lookup_insert_eq|lia].
    by replace (total_bytes a + len p - len (data ++ p)) with (total_bytes a - len data)
      by (rewrite len_app; lia); rewrite delete_insert_eq, <- !app_assoc.
Qed.

(** Opening drops an unfinished product with the id. *)
Definition without (i : Z) (a : assemblies) : assemblies :=
  match files a !! i with
  | Some (_, previous) =>
      {| files := delete i (files a); total_bytes := total_bytes a - len previous |}
  | None => a
  end.
Lemma without_lookup i a : files (without i a) !! i = None.
Proof. unfold without. destruct (files a !! i) as [[]|] eqn:Hi; [apply lookup_delete_eq|done]. Qed.
Lemma without_idem i a : delete i (files (without i a)) = files (without i a).
Proof. apply delete_id, without_lookup. Qed.

Lemma fragments_run i first parts last_part a out :
  record_fits i first → Forall (record_fits i) parts → record_fits i last_part →
  Z.of_nat (size (files (without i a))) ≠ MAX_ASSEMBLIES →
  total_bytes (without i a) + len (first ++ concat parts ++ last_part) ≤ MAX_PRODUCT_BYTES →
  app_run [] a (fragments i first parts last_part) out =
    (Ok (out ++ [Message i x00 (first ++ concat parts ++ last_part)]), ([], without i a)).
Proof.
  intros Hfirst Hparts Hlast Hsize Hmax. rewrite !len_app in Hmax.
  pose proof (len_nonneg (concat parts)). pose proof (len_nonneg last_part).
  unfold fragments. rewrite run_app, app_run_record, application_record_record by done.
  change (has_flag x04 2) with false. change (has_flag x04 4) with true.
  assert (open_assembly i x04 a =
    (Ok tt, {| files := <[i := (x00, [])]> (files (without i a)); total_bytes := total_bytes (without i a) |})) as ->.
  { unfold open_assembly. fold (without i a). by rewrite (proj2 (Z.eqb_neq _ _)). }
  rewrite (append_more _ _ _ _ x00 []) by (cbn [files total_bytes]; (apply lookup_insert_eq || lia)).
  change (has_flag x04 8) with false. cbn zeta iota. change (z2b _) with x00. rewrite app_nil_r.
  cbn [app files total_bytes]. rewrite insert_insert_eq.
  rewrite (later_fragments_run _ _ _ _ first); cbn [files total_bytes]; [|apply lookup_insert_eq|done|done|lia].
  rewrite delete_insert_eq, without_idem, Z.add_simpl_r. by destruct (without i a).
Qed.

(** ** Properties of the stream *)

(** The records and state of the application stream depend only on the bytes fed. *)
Theorem application_chunking s chunks chunks' :
  stream_ok s → ap_failed s = false → Forall app_chunk_fits chunks → Forall app_chunk_fits chunks' →
  concat chunks = concat chunks' → application_feed_all chunks s = application_feed_all chunks' s.
Proof. intros Hs Hfail Hc Hc' Heq. by rewrite !application_feed_all_run, Heq. Qed.
Lemma application_chunking_witness :
  application_feed_all [[x01; x0a]; [x00; x02; x00; x00; x00; x00; x07; x07]] application_default =
    application_feed_all [[x01; x0a; x00; x02; x00; x00; x00; x00; x07; x07]] application_default.
Proof.
  apply application_chunking; [apply application_default_ok|reflexivity|..|reflexivity];
    repeat constructor; by vm_compute.
Defined.

(** A product sent in fragments, fed in any chunks, comes back whole, whatever other
    products are unfinished; an unfinished product with its id is discarded. *)
Theorem application_reassembly i first parts last_part chunks a :
  within_limits a → record_fits i first → Forall (record_fits i) parts → record_fits i last_part →
  Z.of_nat (size (files (without i a))) ≠ MAX_ASSEMBLIES →
  total_bytes (without i a) + len (first ++ concat parts ++ last_part) ≤ MAX_PRODUCT_BYTES →
  Forall app_chunk_fits chunks → concat chunks = fragments i first parts last_part →
  application_feed_all chunks {| ap_buffer := []; ap_files := a; ap_failed := false |} =
    (Ok [Message i x00 (first ++ concat parts ++ last_part)],
     {| ap_buffer := []; ap_files := without i a; ap_failed := false |}).
Proof.
  intros Ha Hf Hp Hl Hs Hmax Hc Heq. rewrite application_feed_all_run; [|split; [by left|done]|done|done].
  cbn [ap_buffer ap_files]. by rewrite Heq, fragments_run.
Qed.
Lemma application_reassembly_witness :
  application_feed_all [fragments 8192 (bs "ab") [bs "cd"] (bs "e")]
    {| ap_buffer := []; ap_files := no_assemblies; ap_failed := false |} =
    (Ok [Message 8192 x00 (bs "ab" ++ concat [bs "cd"] ++ bs "e")],
     {| ap_buffer := []; ap_files := without 8192 no_assemblies; ap_failed := false |}).
Proof.
  apply application_reassembly; [apply no_assemblies_limits|..|by rewrite <- (app_nil_r (fragments _ _ _ _))].
  - by vm_compute.
  - constructor; [by vm_compute|constructor].
  - by vm_compute.
  - by vm_compute.
  - by vm_compute.
  - constructor; [by vm_compute|constructor].
Defined.

(** Whatever is fed, the bytes counted are those of the unfinished products, at most
    32 MiB in at most 64 products, and the record buffer stays below 64 KiB. *)
Theorem application_bounded chunks :
  let s := (application_feed_all chunks application_default).2 in
  within_limits (ap_files s) ∧ len (ap_buffer s) < u16_max.
Proof.
  destruct (application_feed_all_ok chunks application_default application_default_ok) as [Hp Ha].
  split; [done|]. destruct Hp as [Hp|(L & Hge & HL & Hlt)]; [unfold u16_max; lia|].
  unfold application_length in HL. destruct (_ || _); [done|]. injection HL as <-.
  unfold u16_at in Hlt. pose proof (le_value_bound (take 2 (drop 1 (ap_buffer
    (application_feed_all chunks application_default).2)))) as Hv.
  assert (len (take 2 (drop 1 (ap_buffer (application_feed_all chunks application_default).2))) ≤ 2) as H2
    by (unfold len; rewrite length_take; lia).
  pose proof (Z.pow_le_mono_r 256 _ 2 ltac:(lia) H2). unfold u16_max. lia.
Qed.
