(* ===== verification/ReceiverProtocolSteps.v ===== *)
(** * The receiver protocol as a step relation

    [proto_step] lists the changes the protocol makes to its state and output while it
    handles input at one clock value, each with the condition under which the code makes
    it. Every operation of [ReceiverProtocol] is a sequence of such steps, so what holds
    of the steps holds of the code. *)

From Stdlib Require Import Strings.Byte.
From stdpp Require Import base list strings gmap relations.
From S2P Require Import Prelude ReceiverFraming ReceiverProtocol.
From S2P Require Import ReceiverFramingCorrect ReceiverApplication.

Local Open Scope Z_scope.

(** ** Invariant *)

Definition rank (ph : ProtocolPhase) : Z :=
  match ph with
  | Negotiating => 0 | Capabilities => 1 | Challenge => 2 | VerifyResponse => 3 | ProductPhase => 4
  | Receiving => 5 | Failed => 6
  end.

Lemma z2b_mod a : z2b (a `mod` 256) = z2b a.
Proof. apply (inj b2z). by rewrite !b2z_z2b, Z.mod_mod. Qed.
Lemma z2b_add_z2b a b : z2b (b2z (z2b a) + b) = z2b (a + b).
Proof. rewrite b2z_z2b, <- z2b_mod, Zplus_mod_idemp_l. apply z2b_mod. Qed.

(** The window of unacknowledged frames: at most 32, none empty, each sendable again, with
    the sequence numbers that lead up to the next one. *)
Record window_ok (next : byte) (clock : Z) (l : list Pending) : Prop := {
  w_len : len l ≤ MAX_PENDING;
  w_frames : Forall (λ pd, payload (pd_frame pd) ≠ [] ∧ is_err (frame_encode (pd_frame pd)) = false ∧
                           0 ≤ retries pd ≤ MAX_RETRIES ∧ last_sent_ms pd ≤ clock) l;
  w_sequence : ∀ k pd, l !! k = Some pd →
                 sequence (pd_frame pd) = z2b (b2z next - len l + Z.of_nat k)
}.

Lemma window_empty next clock : window_ok next clock [].
Proof. split; [done|constructor|done]. Qed.

Lemma window_drop next clock l n : window_ok next clock l → window_ok next clock (drop n l).
Proof.
  intros [Hlen Hf Hs]. split.
  - unfold len in *. rewrite length_drop. lia.
  - by apply Forall_drop.
  - intros k pd. rewrite lookup_drop. intros Hk. rewrite (Hs _ _ Hk). f_equal.
    apply lookup_lt_Some in Hk. unfold len. rewrite length_drop. lia.
Qed.
Lemma window_acknowledge next clock l a : window_ok next clock l → window_ok next clock (acknowledge a l).
Proof. intros Hw. unfold acknowledge. destruct (list_find _ l) as [[k ?]|]; [by apply window_drop|done]. Qed.

Lemma window_push next clock l f :
  window_ok next clock l → len l ≠ MAX_PENDING → payload f ≠ [] → is_err (frame_encode f) = false →
  sequence f = next →
  window_ok (z2b (b2z next + 1)) clock (l ++ [{| pd_frame := f; last_sent_ms := clock; retries := 0 |}]).
Proof.
  intros [Hlen Hf Hs] Hmax Hne He Hseq. split.
  - rewrite len_app, len_cons, len_nil. unfold MAX_PENDING in *. lia.
  - apply Forall_app. split; [done|]. constructor; [|constructor]. cbn. unfold MAX_RETRIES.
    split_and!; [done|done|lia..].
  - intros k pd Hk. rewrite len_app, len_cons, len_nil.
    replace (b2z (z2b (b2z next + 1)) - (len l + (1 + 0)) + Z.of_nat k)
      with (b2z (z2b (b2z next + 1)) + (Z.of_nat k - len l - 1)) by lia.
    rewrite z2b_add_z2b. apply lookup_app_Some in Hk as [Hk|[Hge Hk]].
    + rewrite (Hs _ _ Hk). f_equal. lia.
    + apply list_lookup_singleton_Some in Hk as [Hk <-]. cbn [pd_frame]. rewrite Hseq.
      replace (b2z next + 1 + (Z.of_nat k - len l - 1)) with (b2z next) by (unfold len; lia).
      by rewrite z2b_b2z.
Qed.

(** Encoding depends on the payload alone. *)
Lemma frame_encode_err f g :
  payload f = payload g → is_err (frame_encode f) = is_err (frame_encode g).
Proof. intros Heq. unfold frame_encode. rewrite Heq. by destruct (_ >? _). Qed.

Lemma window_retransmit next clock now a l l' sent :
  window_ok next clock l → clock ≤ now → retransmit now a l = Ok (l', sent) →
  window_ok next now l' ∧ length sent = length l.
Proof.
  intros [Hlen Hf Hs] Hclock Hr.
  assert (Forall2 (λ pd pd', sequence (pd_frame pd') = sequence (pd_frame pd) ∧
    payload (pd_frame pd') ≠ [] ∧ is_err (frame_encode (pd_frame pd')) = false ∧
    0 ≤ retries pd' ≤ MAX_RETRIES ∧ last_sent_ms pd' ≤ now) l l' ∧ length sent = length l) as [H2 Hsent].
  { clear Hlen Hs. revert l' sent Hr; induction Hf as [|pd l (Hne & He & Hret & Hsent) Hf IH]; intros l' sent Hr.
    { injection Hr as <- <-. by split. }
    cbn [retransmit] in Hr. apply bind_Ok in Hr as ([] & Hg & Hr). apply guard_err_Ok in Hg.
    apply bind_Ok in Hr as (enc & Henc & Hr). apply bind_Ok in Hr as ([l1 s1] & Hrest & Hr).
    injection Hr as <- <-. destruct (IH _ _ Hrest) as [H2 Hs1]. split; [|simpl; lia]. constructor; [|done].
    cbn [pd_frame retries last_sent_ms sequence payload]. zbool.
    split_and!; [done|done|by rewrite Henc|lia..]. }
  split; [|done]. pose proof (Forall2_length _ _ _ H2) as Hll. split.
  - unfold len in *. lia.
  - eapply Forall2_Forall_r; [exact H2|]. apply Forall_true. naive_solver.
  - intros k pd' Hk. destruct (Forall2_lookup_r _ _ _ _ _ H2 Hk) as (pd & Hpd & -> & _).
    rewrite (Hs _ _ Hpd). unfold len. by rewrite Hll.
Qed.

Section Steps.
Context (sha256 md5 : bytes → bytes) {Product : Type}
  (decode_product : Z → bytes → result decode_error Product).
Abbreviation io := (@io Product).
Abbreviation step := (ST io decode_error).

(** ** What an input brings

    The application records a frame brings, and the receive sequence and the stream after it:
    an empty or repeated frame brings nothing, a new data frame what its payload completes. *)
Definition frame_records (f : Frame) (s : ReceiveSequence) (a : ApplicationStream)
    : list ApplicationRecord * (ReceiveSequence * ApplicationStream) :=
  if is_empty (payload f) then ([], (s, a))
  else
    match accept sha256 f s with
    | (Ok true, s) =>
        if bool_decide (kind f = x02) then
          match application_feed (payload f) a with
          | (Ok records, a) => (records, (s, a))
          | (Err _, a) => ([], (s, a))
          end
        else ([], (s, a))
    | (_, s) => ([], (s, a))
    end.
Fixpoint received_records (frames : list Frame) (s : ReceiveSequence) (a : ApplicationStream)
    : list ApplicationRecord :=
  match frames with
  | [] => []
  | f :: frames =>
      let '(records, (s, a)) := frame_records f s a in records ++ received_records frames s a
  end.

(** The answer to the challenge this end expects. *)
Definition proof_of (p : Protocol) : bytes := md5 (CHALLENGE_SEED ++ nonce p).

Record proto_ok (p : Protocol) : Prop := {
  ok_framer : framer_ok (framer p);
  ok_stream : stream_ok (application p);
  ok_window : window_ok (next_tx_sequence p) (last_clock_ms p) (pending p);
  ok_expected : ∀ e, expected_response p = Some e → e = proof_of p;
  ok_since : phase_since_ms p ≤ last_clock_ms p
}.
Definition ok_at (now : Z) (x : io) : Prop := proto_ok (self x) ∧ last_clock_ms (self x) = now.

(** ** Steps

    [seen] are the application records received. *)
Inductive proto_step (seen : ApplicationRecord → Prop) (now : Z) : io → io → Prop :=
| ps_acknowledge a x :
    proto_step seen now x (on_self (λ p, set_pending (next_tx_sequence p) (acknowledge a (pending p)) p) x)
| ps_received r a x : proto_step seen now x (on_self (set_received r a) x)
| ps_streams f a x :
    framer_ok f → stream_ok a → proto_step seen now x (on_self (set_streams f a) x)
| ps_advertised ids x : proto_step seen now x (on_self (set_advertised ids) x)
| ps_transmit b x : proto_step seen now x (transmit b x)
| ps_send f x :
    payload f ≠ [] → is_err (frame_encode f) = false → sequence f = next_tx_sequence (self x) →
    len (pending (self x)) ≠ MAX_PENDING →
    proto_step seen now x (on_self (set_pending (z2b (b2z (next_tx_sequence (self x)) + 1))
      (pending (self x) ++ [{| pd_frame := f; last_sent_ms := now; retries := 0 |}])) x)
| ps_retransmit l sent x :
    retransmit now (ack (self x)) (pending (self x)) = Ok (l, sent) →
    proto_step seen now x (on_self (set_pending (next_tx_sequence (self x)) l) x)
| ps_expect x : proto_step seen now x (on_self (set_expected (Some (proof_of (self x)))) x)
| ps_unexpect x : proto_step seen now x (on_self (set_expected None) x)
| ps_capabilities x :
    phase (self x) = Negotiating → proto_step seen now x (on_self (set_phase Capabilities now) x)
| ps_challenge x :
    phase (self x) = Capabilities → 2 ∈ advertised (self x) → 4 ∈ advertised (self x) →
    proto_step seen now x (on_self (set_phase Challenge now) x)
| ps_verify x :
    phase (self x) = Challenge → proto_step seen now x (on_self (set_phase VerifyResponse now) x)
| ps_product x :
    phase (self x) = VerifyResponse → seen (Message 4 x00 (proof_of (self x))) →
    proto_step seen now x (on_self (set_phase ProductPhase now) x)
| ps_receiving x :
    phase (self x) = ProductPhase → proto_step seen now x (on_self (set_phase Receiving now) x)
| ps_deliver m x : phase (self x) = Receiving → proto_step seen now x (deliver m x).

Abbreviation steps seen now := (rtc (proto_step seen now)).

(** ** What the steps keep *)

Lemma proto_step_ok seen now x y : ok_at now x → proto_step seen now x y → ok_at now y.
Proof.
  intros [[Hf Ha Hw He Hs] Hnow] Hstep.
  destruct Hstep; (split; [|exact Hnow]); split; cbn [self on_self transmit deliver framer application
    pending next_tx_sequence last_clock_ms phase_since_ms expected_response set_pending set_received
    set_streams set_advertised set_expected set_phase]; try assumption; try lia.
  - by apply window_acknowledge.
  - rewrite Hnow in *. by apply window_push.
  - rewrite Hnow in *. eapply window_retransmit; [exact Hw|lia|eassumption].
  - by intros e [= <-].
  - by intros e [=].
Qed.
Lemma steps_ok seen now x y : ok_at now x → steps seen now x y → ok_at now y.
Proof. intros Hx Hs. revert Hx. induction Hs; [done|]. intros Hx. eauto using proto_step_ok. Qed.

(** Phases only advance, one entry at a time; the nonce stays. *)
Lemma proto_step_phase seen now x y :
  proto_step seen now x y →
  nonce (self y) = nonce (self x) ∧
  (phase (self y) = phase (self x) ∨ rank (phase (self y)) = rank (phase (self x)) + 1 ∧
                                     phase (self y) ≠ Failed).
Proof. destruct 1; (split; [done|]); try (left; reflexivity); right; cbn; by rewrite H. Qed.

Lemma proto_step_authentic seen now x y :
  proto_step seen now x y → rank (phase (self x)) ≤ 3 → 4 ≤ rank (phase (self y)) →
  seen (Message 4 x00 (proof_of (self x))).
Proof.
  destruct 1 as [| | | | | | | | | | | |x Hph Hseen|x Hph|]; cbn; intros Hx Hy; try lia; [done|].
  rewrite Hph in Hx. cbn in Hx. lia.
Qed.

Lemma proto_step_messages seen now x y :
  proto_step seen now x y →
  messages (output y) = messages (output x) ∨ phase (self x) = Receiving.
Proof. destruct 1; try (left; reflexivity). by right. Qed.

(** What a sequence of steps has done. *)
Record advanced (seen : ApplicationRecord → Prop) (x y : io) : Prop := {
  adv_nonce : nonce (self y) = nonce (self x);
  adv_rank : rank (phase (self x)) ≤ rank (phase (self y));
  adv_failed : phase (self y) = Failed → phase (self x) = Failed;
  adv_authentic : rank (phase (self x)) ≤ 3 → 4 ≤ rank (phase (self y)) →
                  seen (Message 4 x00 (proof_of (self x)));
  adv_messages : messages (output y) = messages (output x) ∨ phase (self y) = Receiving
}.

Lemma steps_advanced seen now x y : steps seen now x y → phase (self x) ≠ Failed → advanced seen x y.
Proof.
  induction 1 as [x|x y z Hxy Hyz IH]; intros Hx; [by split; auto; lia|].
  pose proof (proto_step_phase _ _ _ _ Hxy) as [Hn Hph].
  assert (phase (self y) ≠ Failed) as Hy by (destruct Hph as [->|[_ ?]]; done).
  specialize (IH Hy). destruct IH as [In Ir If Ia Im].
  assert (rank (phase (self x)) ≤ rank (phase (self y))) by (destruct Hph as [->|[-> _]]; lia).
  split; [congruence|lia|naive_solver| |].
  - intros H3 H4. destruct (decide (rank (phase (self y)) ≤ 3)) as [Hle|Hgt].
    + specialize (Ia Hle H4). unfold proof_of in *. by rewrite Hn in Ia.
    + eapply proto_step_authentic; [done|done|lia].
  - destruct Im as [Im|?]; [|by right]. destruct (proto_step_messages _ _ _ _ Hxy) as [Hm|Hrec].
    + left. congruence.
    + right. assert (phase (self z) ≠ Failed) by naive_solver. rewrite Hrec in *. cbn in *.
      destruct (phase (self z)); cbn in *; (lia || done).
Qed.

(** ** The code takes such steps *)

Section Walk.
Context (seen : ApplicationRecord → Prop) (now : Z).

(** A computation run from an invariant state only takes steps. *)
Definition walks {A} (c : step A) : Prop := ∀ x, ok_at now x → steps seen now x (c x).2.

Lemma walks_ret {A} (a : A) : walks (mret a).
Proof. intros x _. apply rtc_refl. Qed.
Lemma walks_lift {A} (r : result decode_error A) : walks (st_lift r).
Proof. intros x _. apply rtc_refl. Qed.
Lemma walks_modify f : (∀ x, ok_at now x → proto_step seen now x (f x)) → walks (st_modify f).
Proof. intros Hf x Hx. apply rtc_once, Hf, Hx. Qed.
Lemma walks_bind {A B} (c : step A) (f : A → step B) :
  walks c → (∀ a, walks (f a)) → walks (c ≫= f).
Proof.
  intros Hc Hf x Hx. rewrite ST_bind_unfold. specialize (Hc x Hx).
  destruct (c x) as [[a|e] y]; [|done]. etrans; [exact Hc|]. apply Hf. by eapply steps_ok.
Qed.
(** Reading the state: the rest may use what it is. *)
Lemma walks_get {B} (f : io → step B) :
  (∀ x, ok_at now x → steps seen now x (f x x).2) → walks (st_get ≫= f).
Proof. intros Hf x Hx. rewrite ST_bind_unfold. by apply Hf. Qed.
Lemma walks_for_each {A} (body : A → step unit) l :
  (∀ a, a ∈ l → walks (body a)) → walks (for_each body l).
Proof.
  induction l as [|a l IH]; intros Hb; cbn [for_each]; [apply walks_ret|].
  apply walks_bind; [apply Hb; by left|]. intros _. apply IH. intros b Hb'. apply Hb. by right.
Qed.

(** Runs that know their state. *)
Lemma bind_walks {A B} (c : step A) (f : A → step B) x :
  ok_at now x → steps seen now x (c x).2 →
  (∀ a y, c x = (Ok a, y) → ok_at now y → steps seen now y (f a y).2) →
  steps seen now x ((c ≫= f) x).2.
Proof.
  intros Hx Hc Hf. rewrite ST_bind_unfold. destruct (c x) as [[a|e] y] eqn:Hcx; [|done].
  etrans; [exact Hc|]. apply Hf; [done|]. by eapply steps_ok.
Qed.
Lemma guard_walks {B} cond e (f : unit → step B) x :
  (cond = false → steps seen now x (f tt x).2) → steps seen now x ((st_lift (guard_err cond e) ≫= f) x).2.
Proof. intros Hf. rewrite ST_bind_unfold. unfold st_lift. destruct cond; [apply rtc_refl|by apply Hf]. Qed.
Lemma modify_walks {B} g (f : unit → step B) x :
  ok_at now x → proto_step seen now x (g x) →
  (ok_at now (g x) → steps seen now (g x) (f tt (g x)).2) →
  steps seen now x ((st_modify g ≫= f) x).2.
Proof.
  intros Hx Hg Hf. rewrite ST_bind_unfold. cbn [st_modify]. eapply rtc_l; [exact Hg|].
  apply Hf. by eapply proto_step_ok.
Qed.

Lemma walks_send k pl : walks (send k pl now).
Proof.
  unfold send. apply walks_get. intros x Hx. apply guard_walks. intros Hw.
  destruct (frame_encode _) as [b|e] eqn:Henc; [|rewrite ST_bind_unfold; apply rtc_refl].
  rewrite ST_bind_unfold. cbn [st_lift]. apply modify_walks; [done|constructor|]. intros Hy.
  destruct pl as [|c pl]; [apply rtc_refl|]. cbn [is_empty] in *. apply rtc_once.
  refine (ps_send seen now _ (transmit b x) _ _ _ _); [done|by rewrite Henc|done|].
  cbn [negb andb] in Hw. by apply Z.eqb_neq in Hw.
Qed.

(** Sending leaves the handshake as it is. *)
Lemma send_keeps k pl (x : io) u y :
  send k pl now x = (Ok u, y) →
  phase (self y) = phase (self x) ∧ advertised (self y) = advertised (self x) ∧
  nonce (self y) = nonce (self x).
Proof.
  unfold send. rewrite ST_bind_unfold. cbn [st_get]. rewrite ST_bind_unfold. cbn [st_lift].
  destruct (guard_err _ _) as [[]|]; [|done]. rewrite ST_bind_unfold. cbn [st_lift].
  destruct (frame_encode _) as [b|]; [|done]. rewrite ST_bind_unfold. cbn [st_modify].
  destruct (is_empty pl); intros [= _ <-]; done.
Qed.

(** A phase change made from a state in the phase that allows it. *)
Lemma send_transition k pl ph (x : io) :
  ok_at now x →
  (∀ y, phase (self y) = phase (self x) → advertised (self y) = advertised (self x) →
        nonce (self y) = nonce (self x) →
        proto_step seen now y (on_self (set_phase ph now) y)) →
  steps seen now x ((send k pl now ≫= λ _, transition ph now) x).2.
Proof.
  intros Hx Hph. apply bind_walks; [done|by apply walks_send|].
  intros [] y (Hp & Ha & Hn)%send_keeps Hy. apply rtc_once. by apply Hph.
Qed.

Lemma walks_advertise r : walks (advertise r).
Proof.
  destruct r as [i c|i at0 data]; cbn [advertise]; [apply walks_ret|].
  destruct (_ && _); [|apply walks_ret]. apply walks_bind; [apply walks_lift|].
  intros _. apply walks_modify. intros x _. constructor.
Qed.

Lemma walks_capabilities : walks (request_capabilities now).
Proof.
  apply walks_get. intros x Hx. destruct (_ && _) eqn:Hc; [|apply rtc_refl]. zbool.
  apply send_transition; [done|]. intros y Hp Ha _. constructor; congruence.
Qed.

Lemma walks_control commands : walks (handle_control now commands).
Proof.
  apply walks_get. intros x Hx. apply bind_walks; [done|apply rtc_refl|].
  intros ids y Hy Hok. cbn zeta. case_match; [apply rtc_refl|by apply walks_send].
Qed.

Lemma handle_challenge_steps data x :
  ok_at now x → phase (self x) = Challenge → steps seen now x (handle_challenge md5 now data x).2.
Proof.
  intros Hx Hph. unfold handle_challenge. apply guard_walks. intros _.
  rewrite ST_bind_unfold. cbn [st_get].
  apply modify_walks; [done|apply ps_expect|]. intros Hy.
  apply send_transition; [done|]. intros y Hp _ _. constructor. by rewrite Hp.
Qed.

(** Comparing without early exit is comparing. *)
Lemma response_diff_eq data expected :
  len data = len expected → response_diff data expected = 0 → data = expected.
Proof.
  unfold response_diff. intros Hlen.
  assert (∀ l d, 0 ≤ d → 0 ≤ fold_left (λ diff ab, Z.lor diff (Z.lxor (b2z ab.1) (b2z ab.2))) l d ∧
    (fold_left (λ diff ab, Z.lor diff (Z.lxor (b2z ab.1) (b2z ab.2))) l d = 0 →
     d = 0 ∧ Forall (λ ab : byte * byte, ab.1 = ab.2) l)) as Hfold.
  { induction l as [|[a b] l IH]; intros d Hd; cbn [fold_left fst snd]; [split; [done|by split]|].
    assert (0 ≤ Z.lxor (b2z a) (b2z b)) as Hx
      by (apply Z.lxor_nonneg; pose proof (b2z_range a); pose proof (b2z_range b); lia).
    destruct (IH (Z.lor d (Z.lxor (b2z a) (b2z b)))) as [Hn H0]; [by apply Z.lor_nonneg|].
    split; [done|]. intros Hz. apply H0 in Hz as [Hz Hl]. apply Z.lor_eq_0_iff in Hz as [-> Hab].
    split; [done|]. constructor; [|done]. apply Z.lxor_eq in Hab. by apply (inj b2z). }
  intros Hz. apply (Hfold (zip data expected) 0) in Hz as [_ Hz]; [|lia]. clear Hfold.
  assert (length data = length expected) as Hl by (unfold len in Hlen; lia). clear Hlen.
  revert expected Hz Hl. induction data as [|a data IH]; intros [|b expected] Hz Hl; try done.
  cbn [zip zip_with] in Hz. apply Forall_cons in Hz as [Hab Hz]. cbn in Hab. subst b. f_equal.
  apply IH; [done|]. simpl in Hl. lia.
Qed.

Lemma handle_response_steps data x :
  ok_at now x → phase (self x) = VerifyResponse → seen (Message 4 x00 data) →
  steps seen now x (handle_response now data x).2.
Proof.
  intros Hx Hph Hseen. unfold handle_response. rewrite ST_bind_unfold. cbn [st_get].
  apply modify_walks; [done|apply ps_unexpect|]. intros Hy.
  rewrite ST_bind_unfold. cbn [st_lift].
  destruct (expected_response (self x)) as [e|] eqn:He; [|apply rtc_refl]. cbn [ok_or].
  destruct Hx as [Hok _]. apply (ok_expected _ Hok) in He.
  apply guard_walks. intros Hcmp. zbool. assert (data = e) as -> by (by apply response_diff_eq).
  apply guard_walks. intros _.
  apply send_transition; [done|]. intros y Hp _ Hn. constructor; [by rewrite Hp|].
  unfold proof_of. rewrite Hn. change (nonce (self (on_self (set_expected None) x))) with (nonce (self x)).
  fold (proof_of (self x)). by rewrite <- He.
Qed.

Lemma handle_product_steps x :
  ok_at now x → phase (self x) = ProductPhase → steps seen now x (handle_product now x).2.
Proof.
  intros Hx Hph. unfold handle_product. rewrite ST_bind_unfold. cbn [st_get].
  apply send_transition; [done|]. intros y Hp _ _. constructor. by rewrite Hp.
Qed.

Lemma walks_record r : seen r → walks (handle_record md5 decode_product now r).
Proof.
  intros Hseen. apply walks_get. intros x Hx. destruct r as [i c|i at0 data]; cbn zeta.
  { destruct (bool_decide (phase (self x) = Receiving)); [by apply walks_control|apply rtc_refl]. }
  destruct ((i =? 2) && _ && _) eqn:H2; [zbool; by apply handle_challenge_steps|].
  destruct ((i =? 4) && _ && _) eqn:H4; [zbool; subst; by apply handle_response_steps|].
  apply bind_walks; [done| |].
  { destruct ((i =? 0x1000) && _) eqn:H1; [zbool; by apply handle_product_steps|apply rtc_refl]. }
  intros _ y _ Hy. rewrite ST_bind_unfold. cbn [st_get].
  destruct ((i >? 4) && _) eqn:Hd; [|apply rtc_refl]. zbool. apply rtc_once. by constructor.
Qed.

(** The records of one payload, fed to the stream as it is. *)
Lemma receive_records_steps pl x :
  ok_at now x →
  (∀ records a, application_feed pl (application (self x)) = (Ok records, a) → ∀ r, r ∈ records → seen r) →
  steps seen now x (receive_records md5 decode_product now pl x).2.
Proof.
  intros Hx Hfeed. unfold receive_records. rewrite ST_bind_unfold. cbn [st_get].
  pose proof (application_feed_ok pl (application (self x)) (ok_stream _ (proj1 Hx))) as Hs.
  destruct (application_feed pl (application (self x))) as [r a]. cbn [snd] in Hs.
  apply modify_walks; [done|constructor; [apply (ok_framer _ (proj1 Hx))|done]|]. intros Hy.
  destruct r as [records|e]; [|rewrite ST_bind_unfold; apply rtc_refl].
  rewrite ST_bind_unfold. cbn [st_lift].
  apply walks_bind; [|intros _|done].
  - apply walks_for_each. intros r _. apply walks_advertise.
  - apply walks_bind; [apply walks_capabilities|]. intros _.
    apply walks_for_each. intros r Hr. apply walks_record. by eapply Hfeed.
Qed.

(** A frame: what it feeds to the stream is what [frame_records] says. *)
Lemma receive_frame_steps f x :
  ok_at now x →
  (∀ r, r ∈ (frame_records f (receive_sequence (self x)) (application (self x))).1 → seen r) →
  steps seen now x (receive_frame sha256 md5 decode_product now f x).2.
Proof.
  intros Hx Hseen. unfold receive_frame. apply guard_walks. intros _.
  apply modify_walks; [done|constructor|]. intros Hx1. unfold frame_records in Hseen.
  destruct (is_empty (payload f)); [apply rtc_refl|].
  rewrite ST_bind_unfold. cbn [st_get self on_self receive_sequence set_pending].
  destruct (accept sha256 f (receive_sequence (self x))) as [[accepted|e] seq];
    (apply modify_walks; [done|constructor|]; intros Hx2; rewrite ST_bind_unfold; cbn [st_lift]);
    [|apply rtc_refl].
  destruct accepted; cbn [negb]; [|by apply walks_send].
  apply modify_walks; [done|apply (ps_received seen now)|]. intros Hx3.
  rewrite ST_bind_unfold. cbn [st_get]. cbn zeta.
  match type of Hx3 with ok_at _ ?y => set (z := y) in * end.
  assert (application (self z) = application (self x)) as Hz by done. clearbody z.
  destruct (bool_decide_reflect (phase (self z) = Negotiating)) as [Hneg|_].
  - apply guard_walks. intros _. apply send_transition; [done|]. intros y Hp _ _. constructor. by rewrite Hp.
  - apply guard_walks. intros Hkind. apply negb_false_iff in Hkind. rewrite Hkind in Hseen.
    apply bind_walks; [done| |].
    + apply receive_records_steps; [done|]. rewrite Hz. intros records a Hfeed. by rewrite Hfeed in Hseen.
    + intros _ y _ Hyy. rewrite ST_bind_unfold. cbn [st_get].
      destruct (_ =? _); [by apply walks_send|apply rtc_refl].
Qed.
End Walk.

(** Fewer records seen allow no more steps. *)
Lemma steps_mono seen seen' now x y : (∀ r, seen r → seen' r) → steps seen now x y → steps seen' now x y.
Proof.
  intros Hs. apply rtc_subrel. intros u v Hstep. destruct Hstep; try (by econstructor). by constructor; [|apply Hs].
Qed.

(** ** What is left of the streams

    Everything but a frame's own payload leaves the stream and the receive sequence alone. *)
Definition keeps {A} (c : step A) : Prop := ∀ x,
  receive_sequence (self (c x).2) = receive_sequence (self x) ∧ application (self (c x).2) = application (self x).

Lemma keeps_ret {A} (a : A) : keeps (mret a).
Proof. by intros x. Qed.
Lemma keeps_lift {A} (r : result decode_error A) : keeps (st_lift r).
Proof. by intros x. Qed.
Lemma keeps_st_modify f :
  (∀ x, receive_sequence (self (f x)) = receive_sequence (self x) ∧ application (self (f x)) = application (self x)) →
  keeps (st_modify f).
Proof. intros Hf x. apply Hf. Qed.
Lemma keeps_st_bind {A B} (c : step A) (f : A → step B) : keeps c → (∀ a, keeps (f a)) → keeps (c ≫= f).
Proof.
  intros Hc Hf x. rewrite ST_bind_unfold. specialize (Hc x). destruct (c x) as [[a|e] y]; [|done]. cbn [snd] in *.
  destruct (Hf a y) as [H1 H2], Hc as [H3 H4]. by rewrite H1, H2, H3, H4.
Qed.
Lemma keeps_get {B} (f : io → step B) : (∀ x, keeps (f x)) → keeps (st_get ≫= f).
Proof. intros Hf. apply keeps_st_bind; [by intros x|done]. Qed.
Lemma keeps_each {A} (body : A → step unit) l : (∀ a, keeps (body a)) → keeps (for_each body l).
Proof.
  intros Hb. induction l as [|a l IH]; cbn [for_each]; [apply keeps_ret|]. by apply keeps_st_bind.
Qed.
Ltac keeps_step :=
  lazymatch goal with
  | |- keeps (mret _) => apply keeps_ret
  | |- keeps (st_lift _) => apply keeps_lift
  | |- keeps (st_modify _) => apply keeps_st_modify; by intros
  | |- keeps (st_get ≫= _) => apply keeps_get; intros ?
  | |- keeps (_ ≫= _) => apply keeps_st_bind; [|intros ?]
  | |- keeps (for_each _ _) => apply keeps_each; intros ?
  | |- keeps (let _ := _ in _) => cbv zeta
  | |- keeps (match _ with _ => _ end) => case_match
  end.
Lemma keeps_send k pl now : keeps (send k pl now).
Proof. unfold send. repeat keeps_step. Qed.
Lemma keeps_transition ph now : keeps (transition ph now).
Proof. by apply keeps_st_modify. Qed.
Lemma keeps_advertise r : keeps (advertise r).
Proof. unfold advertise. repeat keeps_step. Qed.
Lemma keeps_capabilities now : keeps (request_capabilities now).
Proof. unfold request_capabilities. repeat first [apply keeps_send | apply keeps_transition | keeps_step]. Qed.
Lemma keeps_record now r : keeps (handle_record md5 decode_product now r).
Proof.
  unfold handle_record, handle_control, handle_challenge, handle_response, handle_product.
  repeat first [apply keeps_send | apply keeps_transition | keeps_step].
Qed.

(** After a frame that was received, the streams are what [frame_records] says. *)
Lemma receive_records_streams now pl x u y :
  receive_records md5 decode_product now pl x = (Ok u, y) →
  receive_sequence (self y) = receive_sequence (self x)
  ∧ application (self y) = (application_feed pl (application (self x))).2.
Proof.
  unfold receive_records. rewrite ST_bind_unfold. cbn [st_get].
  destruct (application_feed pl (application (self x))) as [[records|e] a]; rewrite ST_bind_unfold; cbn [st_modify];
    rewrite ST_bind_unfold; cbn [st_lift]; [|done]. intros Hrun.
  set (z := on_self _ x) in Hrun. change (receive_sequence (self x)) with (receive_sequence (self z)).
  change a with (application (self z)). cbn [snd].
  assert (keeps (for_each (@advertise Product) records ≫= λ _, request_capabilities now ≫= λ _,
    for_each (handle_record md5 decode_product now) records)) as Hk.
  { repeat first [apply keeps_advertise | apply keeps_capabilities | apply keeps_record | keeps_step]. }
  specialize (Hk z). by rewrite Hrun in Hk.
Qed.
Lemma receive_frame_streams now f x u y :
  receive_frame sha256 md5 decode_product now f x = (Ok u, y) →
  (receive_sequence (self y), application (self y))
  = (frame_records f (receive_sequence (self x)) (application (self x))).2.
Proof.
  unfold receive_frame. rewrite ST_bind_unfold. unfold st_lift at 1. destruct (guard_err _ _) as [[]|]; [|done].
  rewrite ST_bind_unfold. cbn [st_modify]. unfold frame_records.
  destruct (is_empty (payload f)); [by intros [= <- <-]|].
  rewrite ST_bind_unfold. cbn [st_get self on_self receive_sequence set_pending].
  destruct (accept sha256 f (receive_sequence (self x))) as [[accepted|e] seq];
    rewrite ST_bind_unfold; cbn [st_modify]; rewrite ST_bind_unfold; cbn [st_lift]; [|done].
  destruct accepted; cbn [negb].
  2:{ intros Hrun. set (z := on_self _ _) in Hrun. pose proof (keeps_send x02 [] now z) as [Hs Ha].
      rewrite Hrun in Hs, Ha. cbn [snd] in *. by rewrite Hs, Ha. }
  rewrite ST_bind_unfold. cbn [st_modify]. rewrite ST_bind_unfold. cbn [st_get]. cbn zeta.
  set (z := on_self _ (on_self _ _)). assert (receive_sequence (self z) = seq ∧ application (self z) = application (self x))
    as [Hz1 Hz2] by done. clearbody z.
  destruct (bool_decide (phase (self z) = Negotiating)).
  - rewrite ST_bind_unfold. unfold st_lift at 1. destruct (bool_decide (kind f = x03)) eqn:Hk; [|done].
    cbn [negb guard_err]. intros Hrun.
    assert (keeps (send (Product := Product) x02 (control [subscription 0 x14]) now ≫= λ _, transition Capabilities now)) as Hkeep
      by (apply keeps_st_bind; [apply keeps_send|intros _; apply keeps_transition]).
    specialize (Hkeep z). rewrite Hrun in Hkeep. cbn [snd] in Hkeep. destruct Hkeep as [-> ->].
    zbool. rewrite Hk. by rewrite bool_decide_eq_false_2, Hz1, Hz2 by done.
  - rewrite ST_bind_unfold. unfold st_lift at 1. destruct (bool_decide (kind f = x02)) eqn:Hk; [|done].
    cbn [negb guard_err]. rewrite ST_bind_unfold.
    destruct (receive_records md5 decode_product now (payload f) z) as [[[]|e] z'] eqn:Hrec; [|done].
    apply receive_records_streams in Hrec as [Hs Ha]. rewrite ST_bind_unfold. cbn [st_get].
    assert (receive_sequence (self y) = receive_sequence (self z') ∧ application (self y) = application (self z') →
      (receive_sequence (self y), application (self y))
      = (match application_feed (payload f) (application (self x)) with
         | (Ok records, a) => (records, (seq, a)) | (Err _, a) => ([], (seq, a)) end).2) as Hend.
    { intros [-> ->]. rewrite Hs, Ha, Hz1, Hz2. by destruct (application_feed (payload f) (application (self x))) as [[records|e] a]. }
    intros Hrun. apply Hend. clear Hend. destruct (_ =? _).
    + pose proof (keeps_send x02 [] now z') as [Hs' Ha']. by rewrite Hrun in Hs', Ha'.
    + by injection Hrun as _ <-.
Qed.

(** A run of frames. *)
Lemma receive_frames_steps now frames x :
  ok_at now x →
  steps (λ r, r ∈ received_records frames (receive_sequence (self x)) (application (self x))) now x
    (for_each (receive_frame sha256 md5 decode_product now) frames x).2.
Proof.
  revert x. induction frames as [|f frames IH]; intros x Hx; cbn [for_each received_records]; [apply rtc_refl|].
  set (seen := λ r, _). assert (steps seen now x (receive_frame sha256 md5 decode_product now f x).2) as Hf.
  { apply receive_frame_steps; [done|]. intros r Hr. unfold seen.
    destruct (frame_records f _ _) as [records [s a]]. apply elem_of_app. by left. }
  apply bind_walks; [done|exact Hf|]. intros [] y Hy Hok. eapply steps_mono; [|by apply IH].
  intros r Hr. unfold seen. apply receive_frame_streams in Hy. destruct (frame_records f _ _) as [records [s a]].
  cbn [snd] in Hy. injection Hy as <- <-. apply elem_of_app. by right.
Qed.
End Steps.
