(* ===== verification/ReceiverProtocolCorrect.v ===== *)
(** * Correctness of the receiver protocol

    The invariant of a connection, what its phases promise, how it fails, and what the
    retransmission timer does; and the receive sequence, which delivers a frame once. *)

From Stdlib Require Import Strings.Byte.
From stdpp Require Import base list strings gmap relations.
From S2P Require Import Prelude ReceiverFraming ReceiverProtocol.
From S2P Require Import ReceiverFramingCorrect ReceiverApplication ReceiverProtocolSteps.

Local Open Scope Z_scope.

Section Correct.
Context (sha256 md5 : bytes → bytes) {Product : Type}
  (decode_product : Z → bytes → result decode_error Product).
Abbreviation receive := (receive sha256 md5 decode_product).
Abbreviation tick := (@tick Product).
Abbreviation proto_ok := (proto_ok md5).

(** ** Whole calls *)

Lemma window_clock next clock clock' l : window_ok next clock l → clock ≤ clock' → window_ok next clock' l.
Proof.
  intros [Hlen Hf Hs] Hle. split; [done| |done]. eapply Forall_impl; [exact Hf|].
  intros pd (? & ? & ? & ?). split_and!; (done || lia).
Qed.
Lemma set_clock_ok now p : proto_ok p → last_clock_ms p ≤ now → proto_ok (set_clock now p).
Proof.
  intros [Hf Ha Hw He Hs] Hle. split; cbn; try done; [by eapply window_clock|lia].
Qed.
Lemma fail_ok p : proto_ok p → proto_ok (fail p).
Proof.
  intros [Hf Ha Hw He Hs]. split; cbn; [apply default_ok|apply application_default_ok|
    apply window_empty|done|done].
Qed.

Definition start (p : Protocol) : @io Product := {| self := p; output := output_default |}.

(** The clock check passes, or nothing happens. *)
Lemma check_clock_spec now p :
  check_clock now (start p) =
    if bool_decide (phase p = Failed) then (Err (DecodeError "receiver reconnect required"), start p)
    else if now <? last_clock_ms p then (Err (DecodeError "receiver monotonic clock regressed"), start p)
    else (Ok tt, start (set_clock now p)).
Proof.
  unfold check_clock. rewrite ST_bind_unfold. cbn [st_get]. rewrite ST_bind_unfold. cbn [st_lift self start].
  destruct (bool_decide (phase p = Failed)); [done|]. cbn [guard_err]. rewrite ST_bind_unfold. cbn [st_lift].
  by destruct (now <? last_clock_ms p).
Qed.

(** The application records an input brings to this connection: those its bytes complete, after
    what the connection has received before. *)
Definition input_records (p : Protocol) (input : bytes) : list ApplicationRecord :=
  match framer_feed input (framer p) with
  | (Ok frames, _) => received_records sha256 frames (receive_sequence p) (application p)
  | (Err _, _) => []
  end.
Definition brings (p : Protocol) (input : bytes) (r : ApplicationRecord) : Prop := r ∈ input_records p input.

Lemma receive_steps input now p :
  proto_ok p → phase p ≠ Failed → last_clock_ms p ≤ now →
  rtc (proto_step md5 (brings p input) now) (start (set_clock now p))
    (receive_inner sha256 md5 decode_product input now (start p)).2.
Proof.
  intros Hp Hph Hclock. unfold receive_inner. rewrite ST_bind_unfold, check_clock_spec.
  rewrite bool_decide_eq_false_2, (proj2 (Z.ltb_ge _ _)) by done.
  assert (ok_at md5 now (start (set_clock now p))) as Hx by (split; [by apply set_clock_ok|done]).
  rewrite ST_bind_unfold. cbn [st_get self start framer set_clock].
  pose proof (framer_feed_ok input (framer p) (ok_framer _ _ Hp)) as Hf. unfold brings, input_records.
  destruct (framer_feed input (framer p)) as [r f] eqn:Hfeed. cbn [snd] in Hf.
  apply (modify_walks md5); [done|constructor; [done|apply (ok_stream _ _ Hp)]|]. intros Hy.
  destruct r as [frames|e]; [|rewrite ST_bind_unfold; apply rtc_refl].
  rewrite ST_bind_unfold. cbn [st_lift]. exact (receive_frames_steps sha256 md5 decode_product now frames _ Hy).
Qed.

(** What a call to [receive] amounts to. *)
Lemma receive_spec input now p :
  proto_ok p →
  match receive input now p with
  | (Ok out, p') =>
      phase p ≠ Failed ∧ last_clock_ms p ≤ now ∧
      rtc (proto_step md5 (brings p input) now) (start (set_clock now p)) {| self := p'; output := out |}
  | (Err e, p') => ∃ q, proto_ok q ∧ p' = fail q
  end.
Proof.
  intros Hp. unfold ReceiverProtocol.receive, settle. fold (start p).
  destruct (decide (phase p = Failed)) as [Hph|Hph].
  { unfold receive_inner. rewrite ST_bind_unfold, check_clock_spec, bool_decide_eq_true_2 by done. by exists p. }
  destruct (Z.ltb_spec now (last_clock_ms p)) as [Hlt|Hle].
  { unfold receive_inner. rewrite ST_bind_unfold, check_clock_spec, bool_decide_eq_false_2 by done.
    rewrite (proj2 (Z.ltb_lt _ _)) by done. by exists p. }
  pose proof (receive_steps input now p Hp Hph Hle) as Hsteps.
  assert (ok_at md5 now (start (set_clock now p))) as Hx by (split; [by apply set_clock_ok|done]).
  destruct (receive_inner _ _ _ _ _ _) as [[u|e] x]; cbn [snd] in Hsteps.
  - split_and!; [done|done|]. by destruct x.
  - exists (self x). split; [|done]. by destruct (steps_ok _ _ _ _ _ Hx Hsteps).
Qed.

(** ** The timer *)

(** A pending frame as it is sent again. *)
Definition resent (a : byte) (pd : Pending) : Frame :=
  {| kind := kind (pd_frame pd); sequence := sequence (pd_frame pd); acknowledgement := a;
     payload := payload (pd_frame pd) |}.
Definition bump (now : Z) (a : byte) (pd : Pending) : Pending :=
  {| pd_frame := resent a pd; last_sent_ms := now; retries := retries pd + 1 |}.

Lemma retransmit_spec next clock now a l :
  window_ok next clock l →
  match retransmit now a l with
  | Ok (l', sent) =>
      Forall (λ pd, retries pd < MAX_RETRIES) l ∧ l' = (bump now a <$> l) ∧
      Forall2 (λ pd b, frame_encode (resent a pd) = Ok b) l sent
  | Err e => e = DecodeError "receiver acknowledgement deadline" ∧
             ¬ Forall (λ pd, retries pd < MAX_RETRIES) l
  end.
Proof.
  intros Hw. pose proof (w_frames _ _ _ Hw) as Hf. clear Hw.
  induction Hf as [|pd l (Hne & He & Hr & Ht) Hf IH]; [by split_and!; constructor|]. cbn [retransmit].
  destruct (Z.leb_spec MAX_RETRIES (retries pd)) as [Hm|Hm]; cbn [guard_err mbind result_bind].
  { split; [done|]. intros [? _]%Forall_cons. lia. }
  fold (resent a pd). assert (is_err (frame_encode (resent a pd)) = false) as He'
    by (by rewrite (frame_encode_err _ (pd_frame pd))).
  destruct (frame_encode (resent a pd)) as [b|] eqn:Hb; [|done]. cbn [mbind result_bind].
  destruct (retransmit now a l) as [[l' sent]|e]; cbn [mbind result_bind].
  - destruct IH as (Hall & -> & H2). split_and!; [by constructor|done|by constructor].
  - destruct IH as [-> Hn]. split; [done|]. by intros [_ ?]%Forall_cons.
Qed.

Lemma transmit_all_run sent (x : @io Product) :
  for_each (λ b, st_modify (transmit b)) sent x =
    (Ok tt, {| self := self x;
               output := {| transmissions := transmissions (output x) ++ sent;
                            messages := messages (output x) |} |}).
Proof.
  revert x; induction sent as [|b sent IH]; intros x; cbn [for_each].
  - rewrite app_nil_r. by destruct x as [? []].
  - rewrite ST_bind_unfold. cbn [st_modify]. rewrite IH. cbn. by rewrite <- app_assoc.
Qed.

(** When the timer fires, and for how long it retries. *)
Definition due (now : Z) (p : Protocol) : bool :=
  match pending p with first :: _ => RETRANSMIT_MS <=? now - last_sent_ms first | [] => false end.
Definition overdue (now : Z) (p : Protocol) : bool :=
  negb (bool_decide (phase p = Receiving)) && (SETUP_TIMEOUT_MS <=? now - phase_since_ms p).

Lemma tick_spec now p :
  proto_ok p → phase p ≠ Failed → last_clock_ms p ≤ now →
  match tick now p with
  | (Ok out, p') =>
      overdue now p = false ∧ messages out = [] ∧
      if due now p
      then Forall (λ pd, retries pd < MAX_RETRIES) (pending p) ∧
           Forall2 (λ pd b, frame_encode (resent (ack p) pd) = Ok b) (pending p) (transmissions out) ∧
           p' = set_pending (next_tx_sequence p) (bump now (ack p) <$> pending p) (set_clock now p)
      else transmissions out = [] ∧ p' = set_clock now p
  | (Err _, p') =>
      p' = fail (set_clock now p) ∧
      (overdue now p = true ∨ due now p = true ∧ ¬ Forall (λ pd, retries pd < MAX_RETRIES) (pending p))
  end.
Proof.
  intros Hp Hph Hclock. unfold ReceiverProtocol.tick, settle, tick_inner. fold (start p).
  rewrite ST_bind_unfold, check_clock_spec. rewrite bool_decide_eq_false_2, (proj2 (Z.ltb_ge _ _)) by done.
  rewrite ST_bind_unfold. cbn [st_get self start]. rewrite ST_bind_unfold. cbn [st_lift].
  change (negb _ && _) with (overdue now p). destruct (overdue now p); cbn [guard_err].
  { split; [done|by left]. }
  change (pending (set_clock now p)) with (pending p). unfold due.
  destruct (pending p) as [|first l] eqn:Hl; [done|].
  destruct (RETRANSMIT_MS <=? now - last_sent_ms first) eqn:Hdue; [|done].
  rewrite <- Hl. pose proof (retransmit_spec _ _ now (ack p) _ (ok_window _ _ Hp)) as Hr.
  change (ack (set_clock now p)) with (ack p).
  rewrite ST_bind_unfold. cbn [st_lift]. destruct (retransmit now (ack p) (pending p)) as [[l' sent]|e].
  - destruct Hr as (Hall & -> & H2). rewrite ST_bind_unfold. cbn [st_modify]. rewrite transmit_all_run.
    cbn [output self on_self start output_default transmissions messages app]. by split_and!.
  - destruct Hr as [_ Hn]. split; [done|]. right. by split.
Qed.

Lemma tick_ok now p : proto_ok p → proto_ok (tick now p).2.
Proof.
  intros Hp. unfold ReceiverProtocol.tick, settle, tick_inner. fold (start p).
  destruct (decide (phase p = Failed)) as [Hph|Hph].
  { rewrite ST_bind_unfold, check_clock_spec, bool_decide_eq_true_2 by done. by apply fail_ok. }
  destruct (Z.ltb_spec now (last_clock_ms p)) as [Hlt|Hle].
  { rewrite ST_bind_unfold, check_clock_spec, bool_decide_eq_false_2 by done.
    rewrite (proj2 (Z.ltb_lt _ _)) by done. by apply fail_ok. }
  pose proof (tick_spec now p Hp Hph Hle) as Ht. change (settle (tick_inner now) p) with (tick now p).
  change (proto_ok (tick now p).2).
  pose proof (set_clock_ok now p Hp Hle) as Hc.
  destruct (tick now p) as [[out|e] p']; cbn [snd].
  - destruct Ht as (_ & _ & Ht). destruct (due now p); [|by destruct Ht as [_ ->]].
    destruct Ht as (Hall & _ & ->).
    pose proof (retransmit_spec _ _ now (ack p) _ (ok_window _ _ Hp)) as Hr.
    destruct (retransmit now (ack p) (pending p)) as [[l' sent]|e] eqn:Hre; [|by destruct Hr].
    destruct Hr as (_ & -> & _).
    destruct Hc as [Hf Ha Hw He Hs]. split; cbn in *; try done.
    eapply window_retransmit; [exact (ok_window _ _ Hp)|done|exact Hre].
  - destruct Ht as [-> _]. by apply fail_ok.
Qed.

(** ** Connections *)

Inductive connection : Protocol → Prop :=
| conn_new now n x : with_nonce (Product := Product) now n = Ok x → connection (self x)
| conn_receive input now p : connection p → connection (receive input now p).2
| conn_tick now p : connection p → connection (tick now p).2.

Lemma with_nonce_ok now n (x : @io Product) : with_nonce now n = Ok x → proto_ok (self x).
Proof.
  unfold with_nonce. intros Hx.
  assert (ok_at md5 now (start (protocol_new now n))) as Hok.
  { split; [|done]. split; cbn; [apply default_ok|apply application_default_ok|apply window_empty|done|lia]. }
  pose proof (walks_send md5 (λ _, True) now x03 NEGOTIATION _ Hok) as Hs. unfold start in Hs.
  destruct (send x03 NEGOTIATION now _) as [[u|e] y]; [|done]. injection Hx as <-.
  by destruct (steps_ok _ _ _ _ _ Hok Hs).
Qed.

Lemma receive_ok input now p : proto_ok p → proto_ok (receive input now p).2.
Proof.
  intros Hp. pose proof (receive_spec input now p Hp) as Hr.
  destruct (receive input now p) as [[out|e] p']; cbn [snd].
  - destruct Hr as (_ & Hle & Hs).
    assert (ok_at md5 now (start (set_clock now p))) as Hx by (split; [by apply set_clock_ok|done]).
    by destruct (steps_ok _ _ _ _ _ Hx Hs).
  - destruct Hr as (q & Hq & ->). by apply fail_ok.
Qed.

Lemma connection_ok p : connection p → proto_ok p.
Proof. induction 1; [by eapply with_nonce_ok|by apply receive_ok|by apply tick_ok]. Qed.

Lemma receive_advanced input now p out p' :
  proto_ok p → receive input now p = (Ok out, p') →
  advanced md5 (brings p input) (start (set_clock now p)) {| self := p'; output := out |}.
Proof.
  intros Hp Hrun. pose proof (receive_spec input now p Hp) as Hr. rewrite Hrun in Hr.
  destruct Hr as (Hph & _ & Hs). by eapply steps_advanced.
Qed.

Lemma settle_failed (run : ST (@io Product) decode_error unit) p e p' :
  settle run p = (Err e, p') → ∃ q, p' = fail q.
Proof. unfold settle. destruct (run _) as [[u|e'] x]; [done|]. intros [= _ <-]. by eexists. Qed.

(** ** Properties *)

(** In every state of a connection the streams are within their limits, at most 32
    frames are unacknowledged, with the sequence numbers up to the next one, each sendable
    again; times never lie ahead of the clock; and the only response expected is the one
    for this connection's nonce. *)
Theorem protocol_invariant p : connection p → proto_ok p.
Proof. apply connection_ok. Qed.

(** C5: a connection leaves the handshake only when the bytes received complete a response
    message equal to the digest of the seed and this connection's nonce: it is one of the
    application records that the frames of this input, those delivered before left aside,
    bring after what the connection has received before. *)
Theorem protocol_authenticates p input now out p' :
  connection p → receive input now p = (Ok out, p') →
  rank (phase p) ≤ 3 → 4 ≤ rank (phase p') →
  brings p input (Message 4 x00 (md5 (CHALLENGE_SEED ++ nonce p))).
Proof.
  intros Hp%connection_ok Hr H3 H4. by apply (adv_authentic _ _ _ _ (receive_advanced _ _ _ _ _ Hp Hr)).
Qed.

(** A successful call never moves the phase back, never changes the nonce, never
    fails the connection, and delivers messages only when it ends in the receiving phase. *)
Theorem protocol_phases p input now out p' :
  connection p → receive input now p = (Ok out, p') →
  rank (phase p) ≤ rank (phase p') ≤ 5 ∧ nonce p' = nonce p ∧ last_clock_ms p ≤ now ∧
  (messages out ≠ [] → phase p' = Receiving).
Proof.
  intros Hp%connection_ok Hr. destruct (receive_advanced _ _ _ _ _ Hp Hr) as [Hn Hrank Hf _ Hm].
  cbn in *. pose proof (receive_spec input now p Hp) as Hs. rewrite Hr in Hs. destruct Hs as (Hph & Hle & _).
  split_and!; [done| |done|done|naive_solver].
  destruct (phase p'); cbn in *; (lia || by destruct (Hph (Hf eq_refl))).
Qed.

(** An error fails the connection for good: nothing stays pending or buffered, and
    every later call reports that a reconnect is needed and changes nothing. *)
Theorem protocol_failure_final p e p' :
  (∃ input now, receive input now p = (Err e, p')) ∨ (∃ now, tick now p = (Err e, p')) →
  phase p' = Failed ∧ pending p' = [] ∧ framer p' = framer_default ∧ application p' = application_default ∧
  (∀ input now, receive input now p' = (Err (DecodeError "receiver reconnect required"), p')) ∧
  (∀ now, tick now p' = (Err (DecodeError "receiver reconnect required"), p')).
Proof.
  intros Herr. assert (∃ q, p' = fail q) as [q ->].
  { destruct Herr as [(input & now & Hr)|(now & Ht)]; [apply settle_failed in Hr|apply settle_failed in Ht]; done. }
  by split_and!.
Qed.

(** The timer fails a connection exactly when its setup takes 15 s in one phase or a
    due frame was sent four times; otherwise, when the oldest frame is due, every pending
    frame is sent again in order with the current acknowledgement, and nothing else
    changes but the clock. *)
Theorem protocol_timer now p :
  connection p → phase p ≠ Failed → last_clock_ms p ≤ now →
  match tick now p with
  | (Ok out, p') =>
      overdue now p = false ∧ messages out = [] ∧
      if due now p
      then Forall (λ pd, retries pd < MAX_RETRIES) (pending p) ∧
           Forall2 (λ pd b, frame_encode (resent (ack p) pd) = Ok b) (pending p) (transmissions out) ∧
           p' = set_pending (next_tx_sequence p) (bump now (ack p) <$> pending p) (set_clock now p)
      else transmissions out = [] ∧ p' = set_clock now p
  | (Err _, p') =>
      p' = fail (set_clock now p) ∧
      (overdue now p = true ∨ due now p = true ∧ ¬ Forall (λ pd, retries pd < MAX_RETRIES) (pending p))
  end.
Proof. intros Hp%connection_ok. by apply tick_spec. Qed.
End Correct.

(** ** A sample handshake *)

Definition sample_md5 (b : bytes) : bytes := replicate 16 (checksum b).
Definition sample_decode (i : Z) (b : bytes) : result decode_error Z := Ok i.
Definition sample_nonce : bytes := replicate 16 x07.
Definition wire (k q : byte) (pl : bytes) : bytes :=
  match frame_encode {| kind := k; sequence := q; acknowledgement := x00; payload := pl |} with
  | Ok b => b | Err _ => [] end.
Abbreviation sample_receive := (receive sample_md5 sample_md5 sample_decode).

(** The receiver's side: negotiation, ids, challenge; then its response. *)
Definition sample_setup : list bytes :=
  [wire x03 x01 [x40];
   wire x02 x02 (message 0 (concat (le_bytes 4 <$> [2; 4; 0x1000; 0x20000010])));
   wire x02 x03 (message 2 (replicate 16 x01))].
Definition sample_response : bytes :=
  wire x02 x04 (message 4 (sample_md5 (CHALLENGE_SEED ++ sample_nonce))).

Definition sample_start : Protocol :=
  match with_nonce (Product := Z) 0 sample_nonce with Ok x => self x | Err _ => protocol_new 0 [] end.
Definition sample_verify : Protocol :=
  fold_left (λ p b, (sample_receive b 10 p).2) sample_setup sample_start.

Lemma sample_start_connection : connection sample_md5 sample_md5 sample_decode sample_start.
Proof.
  unfold sample_start. destruct (with_nonce 0 sample_nonce) as [x|e] eqn:Hx.
  - by eapply conn_new.
  - exfalso. revert Hx. by vm_compute.
Qed.
Lemma sample_verify_connection : connection sample_md5 sample_md5 sample_decode sample_verify.
Proof. unfold sample_verify. cbn [fold_left sample_setup]. do 3 apply conn_receive. apply sample_start_connection. Qed.

Lemma protocol_invariant_witness : proto_ok sample_md5 sample_verify.
Proof. eapply (protocol_invariant sample_md5 sample_md5 sample_decode). apply sample_verify_connection. Defined.

Lemma sample_product_run :
  ∃ out p', sample_receive sample_response 20 sample_verify = (Ok out, p') ∧
    rank (phase sample_verify) = 3 ∧ rank (phase p') = 4.
Proof. eexists _, _. split; [vm_compute; reflexivity|split; vm_compute; reflexivity]. Qed.

Lemma protocol_authenticates_witness :
  brings sample_md5 sample_verify sample_response
    (Message 4 x00 (sample_md5 (CHALLENGE_SEED ++ nonce sample_verify))).
Proof.
  destruct sample_product_run as (out & p' & Hr & H3 & H4).
  apply (protocol_authenticates sample_md5 sample_md5 sample_decode sample_verify sample_response 20 out p');
    [apply sample_verify_connection|exact Hr|by rewrite H3|by rewrite H4].
Defined.

Lemma protocol_phases_witness :
  ∃ p', rank (phase sample_verify) ≤ rank (phase p') ≤ 5 ∧ nonce p' = nonce sample_verify.
Proof.
  destruct sample_product_run as (out & p' & Hr & H3 & H4). exists p'.
  destruct (protocol_phases sample_md5 sample_md5 sample_decode sample_verify sample_response 20 out p'
    sample_verify_connection Hr) as (H & Hn & _). exact (conj H Hn).
Defined.

Lemma protocol_failure_final_witness :
  ∃ p', (sample_receive [xff] 0 sample_verify).2 = p' ∧ phase p' = Failed.
Proof.
  eexists. split; [reflexivity|].
  refine (proj1 (protocol_failure_final sample_md5 sample_md5 sample_decode sample_verify
    (DecodeError "receiver monotonic clock regressed") _ _)).
  left. exists [xff], 0. vm_compute. reflexivity.
Defined.

Lemma sample_due : overdue 1500 sample_verify = false ∧ due 1500 sample_verify = true.
Proof. by vm_compute. Qed.
Lemma protocol_timer_witness :
  match @tick Z 1500 sample_verify with
  | (Ok out, p') => messages out = [] ∧
      Forall2 (λ pd b, frame_encode (resent (ack sample_verify) pd) = Ok b)
        (pending sample_verify) (transmissions out)
  | (Err _, _) => False
  end.
Proof.
  pose proof (protocol_timer sample_md5 sample_md5 (Product := Z) sample_decode 1500 sample_verify
    sample_verify_connection) as Ht.
  assert (phase sample_verify ≠ Failed) as Hph by (by vm_compute).
  assert (last_clock_ms sample_verify ≤ 1500) as Hc by (by vm_compute).
  specialize (Ht Hph Hc).
  assert (Forall (λ pd, retries pd < MAX_RETRIES) (pending sample_verify)) as Hall.
  { apply (bool_decide_unpack (Forall (λ pd, retries pd < MAX_RETRIES) (pending sample_verify))). by vm_compute. }
  destruct (tick 1500 sample_verify) as [[out|e] p']; rewrite (proj1 sample_due), (proj2 sample_due) in Ht.
  - destruct Ht as (_ & Hm & _ & Hs & _). exact (conj Hm Hs).
  - destruct Ht as [_ [?|[_ Hn]]]; [discriminate|exact (Hn Hall)].
Defined.

(** ** The receive sequence *)

Section SequenceCorrect.
Context (sha256 : bytes → bytes).

(** The frames delivered from a list of frames. *)
Fixpoint accept_all (frames : list Frame) (s : ReceiveSequence)
    : result decode_error (list Frame) * ReceiveSequence :=
  match frames with
  | [] => (Ok [], s)
  | f :: frames =>
      match accept sha256 f s with
      | (Err e, s) => (Err e, s)
      | (Ok accepted, s) =>
          match accept_all frames s with
          | (Err e, s) => (Err e, s)
          | (Ok l, s) => (Ok (if accepted then f :: l else l), s)
          end
      end
  end.

Definition entry (f : Frame) : byte * bytes := (sequence f, sha256 (payload f)).
Definition successive (h : list Frame) : Prop :=
  ∀ k f g, h !! k = Some f → h !! S k = Some g → sequence g = z2b (b2z (sequence f) + 1).
Definition latest (h : list Frame) : list Frame := drop (length h - 64) h.

(** The sequence after the history [h] of delivered frames. *)
Definition follows (h : list Frame) (s : ReceiveSequence) : Prop :=
  recent s = (entry <$> latest h) ∧ successive h ∧
  match last s with
  | None => h = []
  | Some q => ∃ h' f, h = h' ++ [f] ∧ sequence f = q
  end.

Lemma latest_snoc h f :
  entry <$> latest (h ++ [f]) =
    let r := (entry <$> latest h) ++ [entry f] in if len r >? 64 then drop 1 r else r.
Proof.
  cbn zeta. unfold latest. rewrite len_app, len_fmap. unfold len. rewrite length_drop, length_app. cbn [length].
  destruct (Z.gtb_spec (Z.of_nat (length h - (length h - 64)) + Z.of_nat 1) 64) as [H|H].
  - replace (length h + 1 - 64)%nat with ((length h - 64) + 1)%nat by lia.
    rewrite drop_app_le by lia. rewrite fmap_app, fmap_cons, fmap_nil.
    rewrite <- drop_drop, (fmap_drop _ 1). rewrite drop_app_le; [done|].
    rewrite length_fmap, length_drop. lia.
  - replace (length h + 1 - 64)%nat with 0%nat by lia. replace (length h - 64)%nat with 0%nat by lia.
    rewrite !drop_0, fmap_app. done.
Qed.

Lemma accept_follows h s f :
  follows h s →
  match accept sha256 f s with
  | (Ok true, s') => follows (h ++ [f]) s'
  | (Ok false, s') => s' = s ∧ entry f ∈ recent s
  | (Err _, s') => s' = s
  end.
Proof.
  intros (Hr & Hs & Hl). unfold accept. fold (entry f).
  destruct (bool_decide_reflect (entry f ∈ recent s)) as [Hin|Hout]; [done|].
  destruct (match last s with Some l => _ | None => _ end) eqn:Hgap; [done|].
  split_and!; cbn [recent last].
  - by rewrite latest_snoc, Hr.
  - intros k g g' Hk Hk'. destruct (decide (S k < length h)%nat) as [Hlt|Hge].
    + rewrite lookup_app_l in Hk, Hk' by lia. by eapply Hs.
    + apply lookup_app_Some in Hk' as [?%lookup_lt_Some|[Hle Hk']]; [lia|].
      apply list_lookup_singleton_Some in Hk' as [HSk <-].
      rewrite lookup_app_l in Hk by lia. destruct (last s) as [q|]; [|subst h; done].
      destruct Hl as (h' & f' & -> & <-). rewrite length_app in *. simpl in *.
      rewrite lookup_app_r in Hk by lia. replace (k - length h')%nat with 0%nat in Hk by lia.
      injection Hk as <-. zbool. done.
  - by exists h, f.
Qed.

Lemma accept_all_follows frames h s l s' :
  follows h s → accept_all frames s = (Ok l, s') → follows (h ++ l) s'.
Proof.
  revert h s l; induction frames as [|f frames IH]; intros h s l Hf; cbn [accept_all].
  { intros [= <- <-]. by rewrite app_nil_r. }
  pose proof (accept_follows h s f Hf) as Ha.
  destruct (accept sha256 f s) as [[b|e] s1]; [|done].
  destruct (accept_all frames s1) as [[l1|e] s2] eqn:Hrest; [|done]. intros [= <- <-].
  destruct b.
  - rewrite (cons_middle f h l1), app_assoc. by eapply IH.
  - destruct Ha as [-> _]. by eapply IH.
Qed.

(** Of any run of frames, those delivered carry successive sequence numbers, and each
    of the last 64 delivered is recognised when it comes again and not delivered twice. *)
Theorem sequence_exactly_once frames delivered s :
  accept_all frames sequence_default = (Ok delivered, s) →
  successive delivered ∧ len (recent s) ≤ 64 ∧
  ∀ f, f ∈ latest delivered → accept sha256 f s = (Ok false, s).
Proof.
  intros Hrun. apply (accept_all_follows _ []) in Hrun as (Hr & Hs & _); [|by split_and!].
  cbn [app] in *. split_and!; [done| |].
  - rewrite Hr, len_fmap. unfold len, latest. rewrite length_drop. lia.
  - intros f Hf. unfold accept. fold (entry f). rewrite bool_decide_eq_true_2; [done|].
    rewrite Hr. by apply list_elem_of_fmap_2.
Qed.
End SequenceCorrect.

Definition sample_frames : list Frame :=
  (λ q, {| kind := x02; sequence := q; acknowledgement := x00; payload := [q] |}) <$> [xfe; xff; xff; x00].
Lemma sequence_exactly_once_witness :
  ∃ s, accept sample_md5 {| kind := x02; sequence := xff; acknowledgement := x00; payload := [xff] |} s
         = (Ok false, s).
Proof.
  destruct (accept_all sample_md5 sample_frames sequence_default) as [[l|e] s] eqn:Hrun;
    [|exfalso; revert Hrun; vm_compute; discriminate].
  exists s. apply (sequence_exactly_once sample_md5 sample_frames l s Hrun).
  revert Hrun. vm_compute. intros [= <- <-]. right. left.
Defined.
