(* ===== verification/ReceiverCapture.v ===== *)
(** * Receiver captures (app-core/src/receiver/capture.rs)

    The append-only capture file: a magic number, then records of a length, a sequence
    number, clocks, a kind, payload bytes and a SHA-256 digest. The traits [Recorder] and
    [CaptureSink] are classes; [DiagnosticCapture] seals a recording at its first failure. *)

From Stdlib Require Import Strings.Byte.
From stdpp Require Import base list strings.
From S2P Require Import Prelude.

Local Open Scope Z_scope.

(** ** Data *)

Inductive CaptureKind :=
| CkReceived | CkTransmitted | CkConnected | CkDisconnected | CkDiagnostic | CkWriteRequested
| CkWriteCompleted | CkConnectionRequested | CkSetup.
#[export] Instance capture_kind_eq_dec : EqDecision CaptureKind.
Proof. solve_decision. Defined.

(** [kind as u8]. *)
Definition capture_kind_code (k : CaptureKind) : byte :=
  match k with
  | CkReceived => x00 | CkTransmitted => x01 | CkConnected => x02 | CkDisconnected => x03
  | CkDiagnostic => x04 | CkWriteRequested => x05 | CkWriteCompleted => x06
  | CkConnectionRequested => x07 | CkSetup => x08
  end.

Record CaptureClock := { monotonic_ms : Z; wall_epoch_ms : Z }.
Record CaptureProgress := { written_records : Z; durable_records : Z; written_bytes : Z }.
Definition progress_default : CaptureProgress :=
  {| written_records := 0; durable_records := 0; written_bytes := 0 |}.

(** What the code reads of an [io::Error]: whether storage is full, and its text. *)
Record io_error := { io_storage_full : bool; io_text : string }.
Definition other_error (text : string) : io_error := {| io_storage_full := false; io_text := text |}.

Record CaptureFailure := { storage_full : bool; detail : string }.
Definition capture_failure_from (e : io_error) : CaptureFailure :=
  {| storage_full := io_storage_full e; detail := io_text e |}.

(** ** The recorder of a connection *)

Class Recorder (R : Type) := {
  rec_record : R → CaptureKind → CaptureClock → bytes → result io_error unit * R;
  rec_checkpoint : R → result io_error unit * R;
  rec_progress : R → CaptureProgress
}.

Inductive DiagnosticCapture (R : Type) :=
| Recording (recorder : R)
| CaptureStopped (progress : CaptureProgress) (failure : CaptureFailure).
Arguments Recording {R} recorder.
Arguments CaptureStopped {R} progress failure.

Section Diagnostic.
Context `{Recorder R}.

Definition capture_new (recorder : result io_error R) : DiagnosticCapture R :=
  match recorder with
  | Ok r => Recording r
  | Err e => CaptureStopped progress_default (capture_failure_from e)
  end.

Definition capture_progress (c : DiagnosticCapture R) : CaptureProgress :=
  match c with
  | Recording r => rec_progress r
  | CaptureStopped progress _ => progress
  end.

Definition capture_failure (c : DiagnosticCapture R) : option CaptureFailure :=
  match c with
  | Recording _ => None
  | CaptureStopped _ failure => Some failure
  end.

Definition capture_record (kind : CaptureKind) (clock : CaptureClock) (payload : bytes)
    (c : DiagnosticCapture R) : DiagnosticCapture R :=
  match c with
  | Recording r =>
      match rec_record r kind clock payload with
      | (Ok _, r) => Recording r
      | (Err e, r) =>
          let '(_, r) := rec_checkpoint r in
          CaptureStopped (rec_progress r) (capture_failure_from e)
      end
  | CaptureStopped _ _ => c
  end.

Definition capture_checkpoint (c : DiagnosticCapture R) : DiagnosticCapture R :=
  match c with
  | Recording r =>
      match rec_checkpoint r with
      | (Ok _, r) => Recording r
      | (Err e, r) => CaptureStopped (rec_progress r) (capture_failure_from e)
      end
  | CaptureStopped _ _ => c
  end.
End Diagnostic.

(** ** Writing *)

(** [Write::write_all], [Write::flush] and [CaptureSink::sync_data]. *)
Class CaptureSink (S : Type) := {
  write_all : S → bytes → result io_error unit * S;
  sink_flush : S → result io_error unit * S;
  sync_data : S → result io_error unit * S
}.

Definition MAGIC_V1 : bytes := bs "ABRX" ++ [x01; x00; x00; x00].
Definition CAPTURE_MAGIC : bytes := bs "ABRX" ++ [x02; x00; x00; x00].
Definition MAX_CHUNK_BYTES : Z := 65535.
Definition RECORD_METADATA_BYTES : Z := 25.
Definition HASH_BYTES : Z := 32.

Record CaptureWriter (S : Type) := {
  cw_sink : S;
  cw_bytes_written : Z;
  cw_max_bytes : Z;
  cw_sequence : Z;
  cw_last_monotonic_ms : option Z;
  cw_failed : bool
}.
Arguments cw_sink {S}. Arguments cw_bytes_written {S}. Arguments cw_max_bytes {S}.
Arguments cw_sequence {S}. Arguments cw_last_monotonic_ms {S}. Arguments cw_failed {S}.

Definition encoded_record_bytes (payload_bytes : Z) : Z :=
  4 + RECORD_METADATA_BYTES + payload_bytes + HASH_BYTES.

Definition clock_regressed (last : option Z) (now : Z) : bool :=
  match last with Some previous => now <? previous | None => false end.

Section Capture.
(** [Sha256::digest]. *)
Context (sha256 : bytes → bytes).

(** The bytes of a record, without and with its digest. *)
Definition record_prefix (sequence : Z) (kind : CaptureKind) (clock : CaptureClock)
    (payload : bytes) : bytes :=
  le_bytes 4 (RECORD_METADATA_BYTES + len payload) ++ le_bytes 8 sequence ++ [capture_kind_code kind]
    ++ le_bytes 8 (monotonic_ms clock) ++ le_bytes 8 (wall_epoch_ms clock) ++ payload.
Definition record_bytes (sequence : Z) (kind : CaptureKind) (clock : CaptureClock)
    (payload : bytes) : bytes :=
  let record := record_prefix sequence kind clock payload in record ++ sha256 record.

Section Writer.
Context `{CaptureSink Snk}.

Definition writer_fits (w : CaptureWriter Snk) (payload_bytes : Z) : bool :=
  saturating_add u64_max (cw_bytes_written w) (encoded_record_bytes payload_bytes) <=? cw_max_bytes w.

Definition writer_new (sink : Snk) (max_bytes : Z) : result io_error (CaptureWriter Snk) * Snk :=
  if max_bytes <? len CAPTURE_MAGIC + RECORD_METADATA_BYTES + HASH_BYTES + 4
  then (Err (other_error "capture quota too small"), sink)
  else
    match write_all sink CAPTURE_MAGIC with
    | (Err e, sink) => (Err e, sink)
    | (Ok _, sink) =>
        match sync_data sink with
        | (Err e, sink) => (Err e, sink)
        | (Ok _, sink) =>
            (Ok {| cw_sink := sink; cw_bytes_written := len CAPTURE_MAGIC; cw_max_bytes := max_bytes;
                   cw_sequence := 0; cw_last_monotonic_ms := None; cw_failed := false |}, sink)
        end
    end.

Definition set_sink (sink : Snk) (w : CaptureWriter Snk) : CaptureWriter Snk :=
  {| cw_sink := sink; cw_bytes_written := cw_bytes_written w; cw_max_bytes := cw_max_bytes w;
     cw_sequence := cw_sequence w; cw_last_monotonic_ms := cw_last_monotonic_ms w;
     cw_failed := cw_failed w |}.
Definition set_failed (w : CaptureWriter Snk) : CaptureWriter Snk :=
  {| cw_sink := cw_sink w; cw_bytes_written := cw_bytes_written w; cw_max_bytes := cw_max_bytes w;
     cw_sequence := cw_sequence w; cw_last_monotonic_ms := cw_last_monotonic_ms w;
     cw_failed := true |}.

Definition append_inner (kind : CaptureKind) (clock : CaptureClock) (payload : bytes)
    (w : CaptureWriter Snk) : result io_error unit * CaptureWriter Snk :=
  if (MAX_CHUNK_BYTES <? len payload)
     || clock_regressed (cw_last_monotonic_ms w) (monotonic_ms clock)
  then (Err (other_error "invalid capture chunk/clock"), w)
  else
    let record := record_bytes (cw_sequence w) kind clock payload in
    if cw_max_bytes w <? saturating_add u64_max (cw_bytes_written w) (len record)
    then (Err (other_error "capture quota reached"), w)
    else
      match write_all (cw_sink w) record with
      | (Err e, sink) => (Err e, set_sink sink w)
      | (Ok _, sink) =>
          (Ok tt, {| cw_sink := sink; cw_bytes_written := cw_bytes_written w + len record;
                     cw_max_bytes := cw_max_bytes w; cw_sequence := cw_sequence w + 1;
                     cw_last_monotonic_ms := Some (monotonic_ms clock); cw_failed := cw_failed w |})
      end.

Definition append (kind : CaptureKind) (clock : CaptureClock) (payload : bytes)
    (w : CaptureWriter Snk) : result io_error unit * CaptureWriter Snk :=
  if cw_failed w then (Err (other_error "capture writer failed; open a new capture"), w)
  else
    match append_inner kind clock payload w with
    | (Ok _, w) => (Ok tt, w)
    | (Err e, w) => (Err e, set_failed w)
    end.

Definition writer_checkpoint (w : CaptureWriter Snk) : result io_error Z * CaptureWriter Snk :=
  let '(r, sink) :=
    match sink_flush (cw_sink w) with
    | (Ok _, sink) => sync_data sink
    | (Err e, sink) => (Err e, sink)
    end in
  let w := set_sink sink w in
  match r with
  | Err e => (Err e, set_failed w)
  | Ok _ =>
      if cw_failed w then (Err (other_error "capture writer failed"), w)
      else (Ok (cw_sequence w), w)
  end.

Definition writer_finish (w : CaptureWriter Snk) : result io_error Snk :=
  let '(r, w) := writer_checkpoint w in _ ← r; Ok (cw_sink w).
End Writer.

(** ** Reading *)

Record CaptureRecord := {
  cr_sequence : Z;
  cr_kind : CaptureKind;
  cr_clock : CaptureClock;
  cr_bytes : bytes
}.

Inductive CaptureRead :=
| ReadRecord (r : CaptureRecord)
| ReadEnd
| TornTail.

(** The reader over the bytes of a file. *)
Record CaptureReader := {
  rd_input : bytes;
  rd_version : byte;
  rd_next_sequence : Z;
  rd_last_monotonic_ms : option Z;
  rd_ended : bool
}.

Definition reader_new (input : bytes) : result io_error CaptureReader :=
  magic ← ok_or (get_range input 0 8) (other_error "failed to fill whole buffer");
  _ ← guard_err (negb (bool_decide (magic = CAPTURE_MAGIC)) && negb (bool_decide (magic = MAGIC_V1)))
        (other_error "unknown receiver capture format");
  Ok {| rd_input := drop 8 input; rd_version := default x00 (magic !! 4%nat);
        rd_next_sequence := 0; rd_last_monotonic_ms := None; rd_ended := false |}.

Definition kind_of_code (version code : byte) : option CaptureKind :=
  if bool_decide (code = x00) then Some CkReceived
  else if bool_decide (code = x01) then Some CkTransmitted
  else if bool_decide (code = x02) then Some CkConnected
  else if bool_decide (code = x03) then Some CkDisconnected
  else if bool_decide (code = x04) then Some CkDiagnostic
  else if bool_decide (code = x05) then Some CkWriteRequested
  else if bool_decide (code = x06) then Some CkWriteCompleted
  else if bool_decide (code = x07) then Some CkConnectionRequested
  else if bool_decide (code = x08) && bool_decide (version = x02) then Some CkSetup
  else None.

(** [i64::from_le_bytes]. *)
Definition i64_of (u : Z) : Z := if u <? 9223372036854775808 then u else u - 18446744073709551616.

(** A slice of [body], which is long enough wherever it is taken. *)
Definition slice (l : bytes) (a b : Z) : bytes := take (Z.to_nat (b - a)) (drop (Z.to_nat a) l).

Definition read_record (rd : CaptureReader) : result io_error CaptureRead * CaptureReader :=
  let input := rd_input rd in
  match input with
  | [] => (Ok ReadEnd, rd)
  | _ =>
      match get_range input 0 4 with
      | None => (Ok TornTail, rd)
      | Some length_bytes =>
          let size := le_value length_bytes in
          if (size <? RECORD_METADATA_BYTES) || (RECORD_METADATA_BYTES + MAX_CHUNK_BYTES <? size)
          then (Err (other_error "invalid receiver capture record size"), rd)
          else
            match get_range input 4 (4 + size + HASH_BYTES) with
            | None => (Ok TornTail, rd)
            | Some body =>
                if negb (bool_decide (sha256 (length_bytes ++ slice body 0 size)
                                      = slice body size (size + HASH_BYTES)))
                then (Err (other_error "receiver capture checksum mismatch"), rd)
                else
                  let sequence := le_value (slice body 0 8) in
                  match kind_of_code (rd_version rd) (default x00 (body !! 8%nat)) with
                  | None => (Err (other_error "unknown capture record kind"), rd)
                  | Some kind =>
                      let clock := {| monotonic_ms := le_value (slice body 9 17);
                                      wall_epoch_ms := i64_of (le_value (slice body 17 25)) |} in
                      if negb (sequence =? rd_next_sequence rd)
                         || clock_regressed (rd_last_monotonic_ms rd) (monotonic_ms clock)
                      then (Err (other_error "receiver capture ordering"), rd)
                      else
                        (Ok (ReadRecord {| cr_sequence := sequence; cr_kind := kind; cr_clock := clock;
                                           cr_bytes := slice body 25 size |}),
                         {| rd_input := drop (Z.to_nat (4 + size + HASH_BYTES)) input;
                            rd_version := rd_version rd;
                            rd_next_sequence := rd_next_sequence rd + 1;
                            rd_last_monotonic_ms := Some (monotonic_ms clock);
                            rd_ended := rd_ended rd |})
                  end
            end
      end
  end.

Definition next_record (rd : CaptureReader) : result io_error CaptureRead * CaptureReader :=
  if rd_ended rd then (Ok ReadEnd, rd)
  else
    let '(r, rd) := read_record rd in
    match r with
    | Ok (ReadRecord _) => (r, rd)
    | _ => (r, {| rd_input := rd_input rd; rd_version := rd_version rd;
                  rd_next_sequence := rd_next_sequence rd;
                  rd_last_monotonic_ms := rd_last_monotonic_ms rd; rd_ended := true |})
    end.
End Capture.
