(* ===== verification/ReceiverCaptureCorrect.v ===== *)
(** * Correctness of receiver captures

    The reader accepts exactly the encodings the writer produces; whatever the writer's
    sink does, and wherever the file is cut, reading it back gives a prefix of the records
    that were appended, never a damaged or invented one. *)

From Stdlib Require Import Strings.Byte.
From stdpp Require Import base list strings.
From S2P Require Import Prelude ReceiverCapture.

Local Open Scope Z_scope.

(** ** Slices *)

Lemma slice_app pre mid post a b :
  a = len pre → b = a + len mid → slice (pre ++ mid ++ post) a b = mid.
Proof.
  intros Ha Hb. pose proof (get_range_app pre mid post a b Ha Hb) as Hg.
  unfold get_range in Hg. case_match; [|done]. by injection Hg.
Qed.

Lemma slice_len l a b : 0 ≤ a ≤ b → b ≤ len l → len (slice l a b) = b - a.
Proof. intros. unfold slice, len in *. rewrite length_take, length_drop. lia. Qed.

Lemma slice_join l a b c : 0 ≤ a ≤ b → b ≤ c → slice l a b ++ slice l b c = slice l a c.
Proof.
  intros. unfold slice. replace (Z.to_nat (c - a)) with (Z.to_nat (b - a) + Z.to_nat (c - b))%nat by lia.
  rewrite <- take_take_drop, drop_drop. do 3 f_equal. lia.
Qed.

Lemma slice_all l b : b = len l → slice l 0 b = l.
Proof. intros ->. unfold slice. rewrite Z.sub_0_r, to_nat_len, drop_0. apply firstn_all. Qed.

Lemma get_range_take (l : bytes) n :
  0 ≤ n → get_range l 0 n = if n <=? len l then Some (take (Z.to_nat n) l) else None.
Proof.
  intros Hn. unfold get_range. rewrite (proj2 (Z.leb_le 0 n)) by lia. cbn.
  case_match; [|done]. by rewrite Z.sub_0_r.
Qed.

Lemma ranges_cover (l : bytes) a m n b :
  get_range l 0 m = Some a → get_range l m n = Some b → l = a ++ b ++ drop (Z.to_nat n) l.
Proof.
  unfold get_range. repeat case_match; try done. intros [= <-] [= <-].
  assert (0 ≤ m ≤ n) as Hmn by lia. fold (slice l 0 m). fold (slice l m n).
  rewrite app_assoc, slice_join by lia. unfold slice. by rewrite Z.sub_0_r, drop_0, take_drop.
Qed.

(** ** Records *)

(** The values that fit their fields. *)
Record record_ok (r : CaptureRecord) : Prop := {
  ok_sequence : 0 ≤ cr_sequence r ≤ u64_max;
  ok_monotonic : 0 ≤ monotonic_ms (cr_clock r) ≤ u64_max;
  ok_wall : -9223372036854775808 ≤ wall_epoch_ms (cr_clock r) < 9223372036854775808;
  ok_length : len (cr_bytes r) ≤ MAX_CHUNK_BYTES
}.

Lemma kind_roundtrip k : kind_of_code x02 (capture_kind_code k) = Some k.
Proof. by destruct k. Qed.

Lemma kind_of_code_inv v c k : kind_of_code v c = Some k → c = capture_kind_code k.
Proof.
  unfold kind_of_code. repeat (case_bool_decide; [intros [= <-]; by subst|]).
  destruct (bool_decide (c = x08)) eqn:Hc; cbn; [|done]. apply bool_decide_eq_true in Hc as ->.
  case_bool_decide; [|done]. by intros [= <-].
Qed.

Lemma i64_roundtrip z :
  -9223372036854775808 ≤ z < 9223372036854775808 → i64_of (le_value (le_bytes 8 z)) = z.
Proof.
  intros Hz. rewrite le_value_le_bytes. change (256 ^ Z.of_nat 8) with 18446744073709551616. unfold i64_of.
  destruct (Z.le_gt_cases 0 z).
  - rewrite Z.mod_small by lia. by rewrite (proj2 (Z.ltb_lt _ _)) by lia.
  - rewrite <- (Z_mod_plus_full z 1), Z.mul_1_l, Z.mod_small by lia.
    rewrite (proj2 (Z.ltb_ge _ _)) by lia. lia.
Qed.

Lemma i64_of_range u : 0 ≤ u ≤ u64_max → -9223372036854775808 ≤ i64_of u < 9223372036854775808.
Proof. unfold i64_of, u64_max. intros. destruct (Z.ltb_spec u 9223372036854775808); lia. Qed.

Lemma i64_bytes u : 0 ≤ u ≤ u64_max → le_bytes 8 (i64_of u) = le_bytes 8 u.
Proof.
  unfold u64_max. intros Hu. rewrite <- (le_bytes_le_value (le_bytes 8 (i64_of u))), length_le_bytes.
  rewrite le_value_le_bytes. change (256 ^ Z.of_nat 8) with 18446744073709551616. f_equal.
  unfold i64_of. destruct (Z.ltb_spec u 9223372036854775808); [by rewrite Z.mod_small by lia|].
  replace (u - 18446744073709551616) with (u + (-1) * 18446744073709551616) by lia.
  rewrite Z_mod_plus_full. by rewrite Z.mod_small by lia.
Qed.

(** ** Storage *)

(** What a platform's sink must do: a write appends, a write that fails appends a part of
    what it was given, flushing and syncing leave the contents. *)
Class SinkLaws (Snk : Type) `{CaptureSink Snk} := {
  sink_contents : Snk → bytes;
  write_all_ok s b s' : write_all s b = (Ok tt, s') → sink_contents s' = sink_contents s ++ b;
  write_all_err s b e s' :
    write_all s b = (Err e, s') → ∃ p, p `prefix_of` b ∧ sink_contents s' = sink_contents s ++ p;
  flush_contents s : sink_contents (sink_flush s).2 = sink_contents s;
  sync_contents s : sink_contents (sync_data s).2 = sink_contents s
}.

Section Capture.
Context (sha256 : bytes → bytes) (digest_length : ∀ b, length (sha256 b) = 32%nat).

Definition encode (r : CaptureRecord) : bytes :=
  record_bytes sha256 (cr_sequence r) (cr_kind r) (cr_clock r) (cr_bytes r).

Lemma len_record_prefix s k c p : len (record_prefix s k c p) = 29 + len p.
Proof. unfold record_prefix. rewrite !len_app, !len_le_bytes, len_cons, len_nil. lia. Qed.

Lemma len_digest b : len (sha256 b) = 32.
Proof. unfold len. by rewrite digest_length. Qed.

Lemma len_encode r : len (encode r) = 61 + len (cr_bytes r).
Proof. unfold encode, record_bytes. rewrite len_app, len_record_prefix, len_digest. lia. Qed.

(** The size field of a record. *)
Lemma size_roundtrip r :
  record_ok r → le_value (le_bytes 4 (RECORD_METADATA_BYTES + len (cr_bytes r)))
                = RECORD_METADATA_BYTES + len (cr_bytes r).
Proof.
  intros Hr. pose proof (ok_length r Hr). pose proof (len_nonneg (cr_bytes r)).
  apply le_value_small. unfold RECORD_METADATA_BYTES, MAX_CHUNK_BYTES in *.
  change (256 ^ Z.of_nat 4) with 4294967296. lia.
Qed.

(** The state of a reader that expects a given record. *)
Definition expects (rd : CaptureReader) (r : CaptureRecord) : Prop :=
  rd_version rd = x02 ∧ rd_next_sequence rd = cr_sequence r ∧
  clock_regressed (rd_last_monotonic_ms rd) (monotonic_ms (cr_clock r)) = false.

Definition after_record (rd : CaptureReader) (r : CaptureRecord) (rest : bytes) : CaptureReader :=
  {| rd_input := rest; rd_version := rd_version rd; rd_next_sequence := rd_next_sequence rd + 1;
     rd_last_monotonic_ms := Some (monotonic_ms (cr_clock r)); rd_ended := rd_ended rd |}.

(** What follows the size field: the metadata and payload, then the digest. *)
Definition record_fields (r : CaptureRecord) : bytes :=
  le_bytes 8 (cr_sequence r) ++ [capture_kind_code (cr_kind r)]
    ++ le_bytes 8 (monotonic_ms (cr_clock r)) ++ le_bytes 8 (wall_epoch_ms (cr_clock r)) ++ cr_bytes r.

Lemma len_record_fields r : len (record_fields r) = RECORD_METADATA_BYTES + len (cr_bytes r).
Proof.
  unfold record_fields, RECORD_METADATA_BYTES. rewrite !len_app, !len_le_bytes, len_cons, len_nil. lia.
Qed.

Lemma encode_fields r :
  encode r = le_bytes 4 (RECORD_METADATA_BYTES + len (cr_bytes r)) ++ record_fields r
    ++ sha256 (le_bytes 4 (RECORD_METADATA_BYTES + len (cr_bytes r)) ++ record_fields r).
Proof. unfold encode, record_bytes, record_prefix, record_fields. by rewrite <- !app_assoc. Qed.

Lemma field_slices r post :
  let body := record_fields r ++ post in
  slice body 0 8 = le_bytes 8 (cr_sequence r) ∧
  body !! 8%nat = Some (capture_kind_code (cr_kind r)) ∧
  slice body 9 17 = le_bytes 8 (monotonic_ms (cr_clock r)) ∧
  slice body 17 25 = le_bytes 8 (wall_epoch_ms (cr_clock r)) ∧
  slice body 25 (RECORD_METADATA_BYTES + len (cr_bytes r)) = cr_bytes r.
Proof.
  cbn zeta. unfold record_fields, RECORD_METADATA_BYTES. rewrite <- !app_assoc. split_and!.
  - apply (slice_app []); [done|by rewrite len_le_bytes].
  - rewrite lookup_app_r by by rewrite length_le_bytes. by rewrite length_le_bytes.
  - rewrite (app_assoc (le_bytes 8 (cr_sequence r))).
    apply slice_app; rewrite ?len_app, ?len_le_bytes, ?len_cons; done.
  - rewrite (app_assoc (le_bytes 8 (cr_sequence r))), (app_assoc (_ ++ _)).
    apply slice_app; rewrite ?len_app, ?len_le_bytes, ?len_cons; done.
  - rewrite (app_assoc (le_bytes 8 (cr_sequence r))), (app_assoc (_ ++ _)), (app_assoc (_ ++ _)).
    apply slice_app; rewrite ?len_app, ?len_le_bytes, ?len_cons; done.
Qed.

(** The reader up to the digest: the size and the body of a record that is there in full. *)
Lemma size_in_range r :
  record_ok r →
  ((RECORD_METADATA_BYTES + len (cr_bytes r) <? RECORD_METADATA_BYTES)
   || (RECORD_METADATA_BYTES + MAX_CHUNK_BYTES <? RECORD_METADATA_BYTES + len (cr_bytes r))) = false.
Proof.
  intros Hr. pose proof (ok_length r Hr). pose proof (len_nonneg (cr_bytes r)).
  rewrite (proj2 (Z.ltb_ge _ _)), (proj2 (Z.ltb_ge _ _)) by lia. done.
Qed.

Lemma not_nil_len (l : bytes) : 0 < len l → ∃ b l', l = b :: l'.
Proof. destruct l as [|b l']; [done|]. by exists b, l'. Qed.

Lemma read_encoded rd r rest :
  record_ok r → expects rd r → rd_input rd = encode r ++ rest →
  read_record sha256 rd = (Ok (ReadRecord r), after_record rd r rest).
Proof.
  intros Hr (Hv & Hs & Hc) Hin.
  assert (0 < len (rd_input rd)) as (b0 & l0 & Hl)%not_nil_len.
  { rewrite Hin, len_app, len_encode. pose proof (len_nonneg (cr_bytes r)). pose proof (len_nonneg rest). lia. }
  unfold read_record. rewrite Hl, <- Hl, Hin, encode_fields.
  set (size := RECORD_METADATA_BYTES + len (cr_bytes r)).
  set (digest := sha256 (_ ++ _)). rewrite <- !app_assoc.
  rewrite (get_range_split _ [] (le_bytes 4 size) (record_fields r ++ digest ++ rest))
    by (done || by rewrite ?len_le_bytes).
  assert (le_value (le_bytes 4 size) = size) as Hsz by by apply size_roundtrip. rewrite !Hsz.
  unfold size at 1 2. rewrite size_in_range by done.
  assert (len (record_fields r ++ digest) = size + HASH_BYTES) as Hbody
    by (unfold digest; by rewrite len_app, len_record_fields, len_digest).
  rewrite (get_range_split _ (le_bytes 4 size) (record_fields r ++ digest) rest)
    by (rewrite ?len_le_bytes, ?Hbody, <- ?app_assoc; (done || lia)).
  rewrite (slice_app [] (record_fields r) digest) by (done || by rewrite len_record_fields).
  rewrite <- (app_nil_r digest), (slice_app (record_fields r) digest [])
    by (rewrite ?len_record_fields; unfold digest; by rewrite ?len_digest).
  rewrite bool_decide_eq_true_2 by done. cbn [negb]. rewrite app_nil_r.
  destruct (field_slices r digest) as (-> & -> & -> & -> & Hp).
  fold size in Hp. rewrite Hp, Hv. cbn [default id].
  rewrite kind_roundtrip. pose proof (ok_sequence r Hr). pose proof (ok_monotonic r Hr).
  rewrite !le_value_small by (unfold u64_max in *; change (256 ^ Z.of_nat 8) with 18446744073709551616; lia).
  rewrite i64_roundtrip by apply (ok_wall r Hr). cbn [monotonic_ms]. rewrite Hs, Z.eqb_refl, Hc. cbn [negb orb].
  f_equal; [by destruct r as [s k [m w] p]|]. unfold after_record. rewrite Hs, Hv. f_equal.
  rewrite (app_assoc (record_fields r)), app_assoc, drop_app_length'; [done|].
  unfold len in *. rewrite length_app, length_le_bytes. lia.
Qed.
(** ** Torn records *)

(** What the reader says of a file that ends inside a record. *)
Definition torn_end (l : bytes) : CaptureRead := if bool_decide (l = []) then ReadEnd else TornTail.

Lemma read_torn rd r l more :
  record_ok r → l ++ more = encode r → more ≠ [] → rd_input rd = l →
  read_record sha256 rd = (Ok (torn_end l), rd).
Proof.
  intros Hr Hl Hmore Hin. pose proof (f_equal len Hl) as Hlen. rewrite len_app, len_encode in Hlen.
  assert (0 < len more) as Hpos by (destruct more; [done|]; rewrite len_cons; pose proof (len_nonneg more); lia).
  unfold read_record. rewrite Hin. unfold torn_end. destruct l as [|b0 l0]; [done|].
  rewrite (bool_decide_eq_false_2 (b0 :: l0 = [])) by done. set (l := b0 :: l0) in *. clearbody l.
  rewrite get_range_take by lia. destruct (Z.leb_spec 4 (len l)) as [Hge|]; [|done].
  assert (take (Z.to_nat 4) l = le_bytes 4 (RECORD_METADATA_BYTES + len (cr_bytes r))) as ->.
  { apply (f_equal (take 4)) in Hl. rewrite take_app_le in Hl by (unfold len in *; lia).
    rewrite encode_fields, take_app_length' in Hl by by rewrite length_le_bytes. exact Hl. }
  rewrite size_roundtrip, size_in_range by done. unfold get_range.
  rewrite (proj2 (Z.leb_gt (4 + _ + HASH_BYTES) _)) by (unfold RECORD_METADATA_BYTES, HASH_BYTES; lia).
  by rewrite andb_false_r.
Qed.

(** ** Whole files *)

(** The records of a capture: numbered from [n], clocks not below [last], fields in range. *)
Fixpoint chained (n : Z) (last : option Z) (rs : list CaptureRecord) : Prop :=
  match rs with
  | [] => True
  | r :: rs =>
      record_ok r ∧ cr_sequence r = n ∧ clock_regressed last (monotonic_ms (cr_clock r)) = false ∧
      chained (n + 1) (Some (monotonic_ms (cr_clock r))) rs
  end.

Definition encode_all (rs : list CaptureRecord) : bytes := concat (encode <$> rs).
Definition capture_file (rs : list CaptureRecord) : bytes := CAPTURE_MAGIC ++ encode_all rs.

(** Calling [next_record] until it stops returning records. *)
Fixpoint drain (fuel : nat) (rd : CaptureReader) : list CaptureRecord * result io_error CaptureRead :=
  match fuel with
  | O => ([], Err (other_error ""))
  | S fuel =>
      match next_record sha256 rd with
      | (Ok (ReadRecord r), rd) => let '(rs, e) := drain fuel rd in (r :: rs, e)
      | (e, _) => ([], e)
      end
  end.

Definition read_file (input : bytes) : result io_error (list CaptureRecord * result io_error CaptureRead) :=
  rd ← reader_new input;
  Ok (drain (S (length input)) rd).

(** The records that are whole in the first [n] bytes, and how the file ends after them. *)
Fixpoint complete (n : Z) (rs : list CaptureRecord) : list CaptureRecord :=
  match rs with
  | [] => []
  | r :: rs => if len (encode r) <=? n then r :: complete (n - len (encode r)) rs else []
  end.
Fixpoint complete_end (n : Z) (rs : list CaptureRecord) : CaptureRead :=
  match rs with
  | [] => ReadEnd
  | r :: rs => if len (encode r) <=? n then complete_end (n - len (encode r)) rs
               else if n <=? 0 then ReadEnd else TornTail
  end.

Lemma complete_prefix n rs : complete n rs `prefix_of` rs.
Proof.
  revert n. induction rs as [|r rs IH]; intros n; cbn [complete]; [done|].
  case_match; [apply prefix_cons, IH|apply prefix_nil].
Qed.

Lemma complete_all n rs more : len (encode_all rs) ≤ n → rs `prefix_of` complete n (rs ++ more).
Proof.
  revert n. induction rs as [|r rs IH]; intros n Hn; [apply prefix_nil|].
  unfold encode_all in *. cbn [fmap list_fmap concat] in Hn. rewrite len_app in Hn.
  pose proof (len_nonneg (concat (encode <$> rs))). cbn [app complete].
  rewrite (proj2 (Z.leb_le _ _)) by lia. apply prefix_cons, IH. lia.
Qed.

Lemma drain_file fuel rd n rs :
  rd_version rd = x02 → rd_ended rd = false →
  chained (rd_next_sequence rd) (rd_last_monotonic_ms rd) rs → 0 ≤ n ≤ len (encode_all rs) →
  rd_input rd = take (Z.to_nat n) (encode_all rs) → (length (rd_input rd) < fuel)%nat →
  drain fuel rd = (complete n rs, Ok (complete_end n rs)).
Proof.
  revert rd n fuel. induction rs as [|r rs IH]; intros rd n fuel Hv He Hch Hn Hin Hfuel;
    (destruct fuel as [|fuel]; [lia|]); cbn [drain]; unfold next_record; rewrite He.
  - unfold encode_all in Hin. cbn in Hin. rewrite take_nil in Hin. unfold read_record. by rewrite Hin.
  - destruct Hch as (Hr & Hs & Hc & Hch). unfold encode_all in *. cbn [fmap list_fmap concat] in *.
    rewrite len_app in Hn. cbn [complete complete_end]. pose proof (len_encode r) as Hle.
    destruct (Z.leb_spec (len (encode r)) n) as [Hwhole|Hcut].
    + assert (rd_input rd = encode r ++ take (Z.to_nat (n - len (encode r))) (concat (encode <$> rs))) as Hin'.
      { rewrite Hin, take_app_ge by (unfold len in *; lia). do 2 f_equal. unfold len. lia. }
      rewrite (read_encoded rd r _ Hr) by done. cbn [next_record].
      rewrite (IH (after_record rd r _) (n - len (encode r)) fuel); try done; cbn; [lia|].
      rewrite Hin', length_app in Hfuel. pose proof (len_nonneg (cr_bytes r)). unfold len in *. lia.
    + rewrite take_app_le in Hin by (unfold len in *; lia).
      rewrite (read_torn rd r (take (Z.to_nat n) (encode r)) (drop (Z.to_nat n) (encode r))); [|done|apply take_drop| |done].
      * unfold torn_end. destruct (Z.leb_spec n 0); case_bool_decide as Hnil; try done.
        -- by replace n with 0 in Hnil by lia.
        -- apply (f_equal length) in Hnil. rewrite length_take in Hnil. unfold len in *. cbn in Hnil. lia.
      * intros Hnil. apply (f_equal length) in Hnil. rewrite length_drop in Hnil. unfold len in *. cbn in Hnil. lia.
Qed.

Lemma read_file_cut rs cut :
  chained 0 None rs → 8 ≤ cut ≤ len (capture_file rs) →
  read_file (take (Z.to_nat cut) (capture_file rs)) = Ok (complete (cut - 8) rs, Ok (complete_end (cut - 8) rs)).
Proof.
  intros Hch Hcut. unfold capture_file in *. rewrite len_app in Hcut.
  change (len CAPTURE_MAGIC) with 8 in Hcut.
  assert (take (Z.to_nat cut) (CAPTURE_MAGIC ++ encode_all rs)
          = CAPTURE_MAGIC ++ take (Z.to_nat (cut - 8)) (encode_all rs)) as ->.
  { rewrite take_app_ge by (cbn; lia). do 2 f_equal. cbn. lia. }
  unfold read_file, reader_new.
  rewrite (get_range_split _ [] CAPTURE_MAGIC (take (Z.to_nat (cut - 8)) (encode_all rs))) by done.
  cbn [ok_or mbind result_bind]. rewrite bool_decide_eq_true_2 by done. cbn [negb andb guard_err mbind result_bind].
  rewrite (drop_app_length' CAPTURE_MAGIC) by done. f_equal.
  apply drain_file; try done; [lia|]. cbn [rd_input]. rewrite length_app. lia.
Qed.
(** ** What the reader accepts *)

Lemma slice_bytes_value (l : bytes) a b :
  0 ≤ a ≤ b → b ≤ len l → le_bytes (Z.to_nat (b - a)) (le_value (slice l a b)) = slice l a b.
Proof.
  intros Hab Hb. rewrite <- (le_bytes_le_value (slice l a b)) at 2. f_equal.
  pose proof (slice_len l a b Hab Hb). unfold len in *. lia.
Qed.

Lemma u64_slice (l : bytes) a : 0 ≤ a → a + 8 ≤ len l → 0 ≤ le_value (slice l a (a + 8)) ≤ u64_max.
Proof.
  intros Ha Hl. pose proof (le_value_bound (slice l a (a + 8))) as Hb.
  rewrite slice_len in Hb by lia. replace (a + 8 - a) with 8 in Hb by lia.
  change (256 ^ 8) with 18446744073709551616 in Hb. unfold u64_max. lia.
Qed.

(** The metadata and payload, from the slices of the body. *)
Lemma fields_of_slices body size k :
  RECORD_METADATA_BYTES ≤ size → size ≤ len body → body !! 8%nat = Some (capture_kind_code k) →
  record_fields {| cr_sequence := le_value (slice body 0 8); cr_kind := k;
                   cr_clock := {| monotonic_ms := le_value (slice body 9 17);
                                  wall_epoch_ms := i64_of (le_value (slice body 17 25)) |};
                   cr_bytes := slice body 25 size |} = slice body 0 size.
Proof.
  unfold RECORD_METADATA_BYTES. intros Hlo Hhi Hk. unfold record_fields.
  cbn [cr_sequence cr_kind cr_clock cr_bytes monotonic_ms wall_epoch_ms].
  rewrite i64_bytes by (apply (u64_slice body 17); lia).
  change 8%nat with (Z.to_nat (8 - 0)) at 1. rewrite (slice_bytes_value body 0 8) by lia.
  change 8%nat with (Z.to_nat (17 - 9)) at 1. rewrite (slice_bytes_value body 9 17) by lia.
  change 8%nat with (Z.to_nat (25 - 17)) at 1. rewrite (slice_bytes_value body 17 25) by lia.
  assert ([capture_kind_code k] = slice body 8 9) as ->.
  { unfold slice. change (Z.to_nat 8) with 8%nat. by rewrite (drop_S _ _ _ Hk). }
  by rewrite !slice_join by lia.
Qed.

Lemma read_record_inv rd r rd' :
  read_record sha256 rd = (Ok (ReadRecord r), rd') →
  rd_input rd = encode r ++ rd_input rd' ∧ record_ok r ∧ cr_sequence r = rd_next_sequence rd ∧
  clock_regressed (rd_last_monotonic_ms rd) (monotonic_ms (cr_clock r)) = false ∧
  rd' = after_record rd r (rd_input rd').
Proof.
  unfold read_record. destruct (rd_input rd) as [|b0 l0] eqn:Hl; [done|]. rewrite <- Hl. clear b0 l0 Hl.
  destruct (get_range (rd_input rd) 0 4) as [lb|] eqn:Hlb; [|done].
  destruct (_ || _) eqn:Hsize; [done|]. apply orb_false_iff in Hsize as [Hlo%Z.ltb_ge Hhi%Z.ltb_ge].
  destruct (get_range (rd_input rd) 4 _) as [body|] eqn:Hbody; [|done].
  destruct (negb _) eqn:Hdigest; [done|].
  apply negb_false_iff, bool_decide_eq_true in Hdigest.
  destruct (kind_of_code _ _) as [k|] eqn:Hk; [|done]. destruct (negb _ || _) eqn:Hord; [done|].
  apply orb_false_iff in Hord as [Hseq%negb_false_iff%Z.eqb_eq Hclock].
  intros [= <- <-]. cbn [rd_input cr_sequence cr_clock].
  set (size := le_value lb) in *.
  assert (len body = size + HASH_BYTES) as Hlen.
  { apply get_range_len in Hbody. lia. }
  assert (0 ≤ size) as Hsz by (unfold RECORD_METADATA_BYTES in *; lia).
  assert (body !! 8%nat = Some (capture_kind_code k)) as Hcode.
  { apply kind_of_code_inv in Hk. rewrite <- Hk. unfold RECORD_METADATA_BYTES, HASH_BYTES, len in *.
    destruct (body !! 8%nat) eqn:Hb; [done|]. apply lookup_ge_None in Hb. lia. }
  split_and!; [|split|done|done|unfold after_record; by rewrite Hseq].
  - rewrite encode_fields. cbn [cr_bytes].
    rewrite fields_of_slices by (done || (unfold HASH_BYTES in *; lia)).
    replace (RECORD_METADATA_BYTES + len (slice body 25 size)) with size
      by (rewrite slice_len; unfold RECORD_METADATA_BYTES, HASH_BYTES in *; lia).
    rewrite (ranges_cover _ _ _ _ _ Hlb Hbody) at 1. pose proof (get_range_len _ _ _ _ Hlb) as [Hlb4 _].
    assert (le_bytes 4 size = lb) as ->.
    { rewrite <- (le_bytes_le_value lb). unfold size, len in *. f_equal. lia. }
    by rewrite Hdigest, slice_join, slice_all, <- !app_assoc by (unfold HASH_BYTES in *; lia).
  - apply (u64_slice body 0); unfold RECORD_METADATA_BYTES, HASH_BYTES in *; lia.
  - apply (u64_slice body 9); unfold RECORD_METADATA_BYTES, HASH_BYTES in *; lia.
  - apply i64_of_range, (u64_slice body 17); unfold RECORD_METADATA_BYTES, HASH_BYTES in *; lia.
  - cbn [cr_bytes]. rewrite slice_len; unfold RECORD_METADATA_BYTES, HASH_BYTES in *; lia.
Qed.
(** ** What the writer leaves behind *)

Section Writing.
Context `{SinkLaws Snk}.
Implicit Types w : CaptureWriter Snk.

Inductive writer_op :=
| OpAppend (kind : CaptureKind) (clock : CaptureClock) (payload : bytes)
| OpCheckpoint.

(** Clocks are a [u64] and an [i64]. *)
Definition clock_ok (c : CaptureClock) : Prop :=
  0 ≤ monotonic_ms c ≤ u64_max ∧ -9223372036854775808 ≤ wall_epoch_ms c < 9223372036854775808.
Definition op_ok (op : writer_op) : Prop :=
  match op with OpAppend _ clock _ => clock_ok clock | OpCheckpoint => True end.

Definition next_of w kind clock payload : CaptureRecord :=
  {| cr_sequence := cw_sequence w; cr_kind := kind; cr_clock := clock; cr_bytes := payload |}.

(** Runs operations: the records whose append returned [Ok], and the record of the append that
    made the writer fail, if one did. *)
Fixpoint run_writer (ops : list writer_op) w
    : list CaptureRecord * option CaptureRecord * CaptureWriter Snk :=
  match ops with
  | [] => ([], None, w)
  | OpAppend kind clock payload :: ops =>
      let '(out, w') := append sha256 kind clock payload w in
      let '(rs, interrupted, w'') := run_writer ops w' in
      match out with
      | Ok _ => (next_of w kind clock payload :: rs, interrupted, w'')
      | Err _ => (rs, if cw_failed w then interrupted else Some (next_of w kind clock payload), w'')
      end
  | OpCheckpoint :: ops => run_writer ops (writer_checkpoint w).2
  end.

(** The file of a writer: the records appended, then what a failed write left. *)
Record writer_file (w : CaptureWriter Snk) (rs : list CaptureRecord) (tail : bytes) : Prop := {
  wf_contents : sink_contents (cw_sink w) = capture_file rs ++ tail;
  wf_chained : chained 0 None rs;
  wf_sequence : cw_sequence w = len rs;
  wf_last : cw_last_monotonic_ms w = monotonic_ms ∘ cr_clock <$> last rs;
  wf_bytes : cw_bytes_written w = len (capture_file rs);
  wf_quota : cw_bytes_written w + len tail ≤ cw_max_bytes w;
  wf_max : cw_max_bytes w < u64_max;
  wf_clean : cw_failed w = false → tail = []
}.

(** What a failed write left is the beginning of the record that was being written. *)
Definition torn (rs : list CaptureRecord) (interrupted : option CaptureRecord) (tail : bytes) : Prop :=
  tail = [] ∨ ∃ r more, interrupted = Some r ∧ chained 0 None (rs ++ [r]) ∧ tail ++ more = encode r.

Lemma len_encode_all rs : 61 * len rs ≤ len (encode_all rs).
Proof.
  unfold encode_all. induction rs as [|r rs IH]; [done|]. cbn [fmap list_fmap concat].
  rewrite len_app, len_cons, len_encode. pose proof (len_nonneg (cr_bytes r)). lia.
Qed.

Lemma capture_file_snoc rs r : capture_file (rs ++ [r]) = capture_file rs ++ encode r.
Proof.
  unfold capture_file, encode_all. rewrite fmap_app, concat_app.
  cbn [fmap list_fmap concat]. by rewrite app_nil_r, app_assoc.
Qed.

Lemma chained_app n lst rs r :
  chained n lst rs → record_ok r → cr_sequence r = n + len rs →
  clock_regressed (match last rs with Some q => Some (monotonic_ms (cr_clock q)) | None => lst end)
    (monotonic_ms (cr_clock r)) = false →
  chained n lst (rs ++ [r]).
Proof.
  revert n lst. induction rs as [|q rs IH]; intros n lst; cbn [chained app].
  - intros _ Hr Hs Hc. rewrite len_nil in Hs. split_and!; [done|lia|done|done].
  - intros (Hq & Hn & Hcq & Hch) Hr Hs Hc. split_and!; try done. rewrite len_cons in Hs.
    apply IH; [done|done|lia|]. rewrite last_cons in Hc. by destruct (last rs).
Qed.

(** A record the writer's checks let through. *)
Lemma next_chained w rs kind clock payload :
  writer_file w rs [] → clock_ok clock → len payload ≤ MAX_CHUNK_BYTES →
  clock_regressed (cw_last_monotonic_ms w) (monotonic_ms clock) = false →
  chained 0 None (rs ++ [next_of w kind clock payload]).
Proof.
  intros [_ Hch Hseq Hlast Hb Hq Hmax _] [Hm Hwall] Hp Hc.
  assert (0 ≤ cw_sequence w ≤ u64_max).
  { rewrite len_nil in Hq. unfold capture_file in Hb. rewrite len_app in Hb.
    change (len CAPTURE_MAGIC) with 8 in Hb. pose proof (len_encode_all rs). pose proof (len_nonneg rs). lia. }
  apply chained_app; [done|by split|exact Hseq|].
  rewrite Hlast in Hc. cbn [next_of cr_clock]. by destruct (last rs).
Qed.

Ltac writer_cbn :=
  cbn [snd set_sink set_failed cw_sink cw_bytes_written cw_max_bytes cw_sequence cw_last_monotonic_ms cw_failed].

Lemma append_step w rs kind clock payload out w' :
  writer_file w rs [] → cw_failed w = false → clock_ok clock →
  append sha256 kind clock payload w = (out, w') →
  (out = Ok tt ∧ cw_failed w' = false ∧ writer_file w' (rs ++ [next_of w kind clock payload]) []) ∨
  (∃ e tail, out = Err e ∧ cw_failed w' = true ∧ writer_file w' rs tail
     ∧ torn rs (Some (next_of w kind clock payload)) tail).
Proof.
  intros Hw Hok Hclk Happ. unfold append in Happ. rewrite Hok in Happ. unfold append_inner in Happ.
  pose proof (next_chained w rs kind clock payload Hw Hclk) as Hnext. destruct Hw as [Hc Hch Hseq Hlast Hb Hq Hmax _].
  rewrite len_nil in Hq.
  destruct (_ || _) eqn:Hbad.
  { injection Happ as <- <-. right. eexists _, []. split_and!; [done|done|split; writer_cbn; try done; lia|by left]. }
  apply orb_false_iff in Hbad as [Hlen%Z.ltb_ge Hreg]. specialize (Hnext Hlen Hreg).
  fold (encode (next_of w kind clock payload)) in Happ. set (r := next_of w kind clock payload) in *.
  change (record_bytes sha256 (cw_sequence w) kind clock payload) with (encode r) in Happ.
  destruct (Z.ltb_spec (cw_max_bytes w) (saturating_add u64_max (cw_bytes_written w) (len (encode r)))) as [|Hfit].
  { injection Happ as <- <-. right. eexists _, []. split_and!; [done|done|split; writer_cbn; try done; lia|by left]. }
  unfold saturating_add in Hfit.
  destruct (write_all (cw_sink w) (encode r)) as [[[]|e] sink] eqn:Hwrite; injection Happ as <- <-.
  - left. split_and!; [done|done|]. split; writer_cbn; try done.
    + by rewrite (write_all_ok _ _ _ Hwrite), Hc, !app_nil_r, capture_file_snoc.
    + rewrite Hseq, len_app, len_cons, len_nil. lia.
    + by rewrite last_snoc.
    + by rewrite capture_file_snoc, len_app, Hb.
    + rewrite len_nil. lia.
  - right. destruct (write_all_err _ _ _ _ Hwrite) as (tail & [more Hmore] & Hcont). exists e, tail.
    pose proof (f_equal len Hmore) as Hl. rewrite len_app in Hl. pose proof (len_nonneg more).
    split_and!; [done|done| |right; by exists r, more].
    split; writer_cbn; try done; [|lia]. by rewrite Hcont, Hc, app_nil_r.
Qed.

Lemma checkpoint_step w rs tail :
  writer_file w rs tail → writer_file (writer_checkpoint w).2 rs tail ∧
  (cw_failed w = true → cw_failed (writer_checkpoint w).2 = true).
Proof.
  intros [Hc Hch Hseq Hlast Hb Hq Hmax Hcl]. unfold writer_checkpoint.
  pose proof (flush_contents (cw_sink w)) as Hf.
  destruct (sink_flush (cw_sink w)) as [[[]|e] s1] eqn:E1; cbn in Hf.
  - pose proof (sync_contents s1) as Hs. destruct (sync_data s1) as [[[]|e] s2] eqn:E2; cbn in Hs.
    + destruct (cw_failed (set_sink s2 w)) eqn:Hfail; cbn in *; (split; [|done]);
        split; writer_cbn; try done; by rewrite Hs, Hf.
    + split; [|done]. split; writer_cbn; try done. by rewrite Hs, Hf.
  - split; [|done]. split; writer_cbn; try done. by rewrite Hf.
Qed.

Lemma run_failed ops w rs tail :
  writer_file w rs tail → cw_failed w = true →
  (run_writer ops w).1 = ([], None) ∧ writer_file (run_writer ops w).2 rs tail.
Proof.
  revert w. induction ops as [|op ops IH]; intros w Hw Hf; [done|].
  destruct op as [kind clock payload|]; cbn [run_writer].
  - unfold append. rewrite Hf. destruct (IH w Hw Hf) as [Hrs Hw'].
    destruct (run_writer ops w) as [[rs' i] w']. cbn in *. by simplify_eq.
  - destruct (checkpoint_step w rs tail Hw) as [Hw' Hf']. by apply IH; [|apply Hf'].
Qed.

(** A writer that checkpoints with an error has failed, so either it is intact or it is not. *)
Lemma run_writer_file ops w rs :
  writer_file w rs [] → Forall op_ok ops →
  let '(rs', interrupted, w') := run_writer ops w in
  ∃ tail, writer_file w' (rs ++ rs') tail ∧ torn (rs ++ rs') interrupted tail.
Proof.
  revert w rs. induction ops as [|op ops IH]; intros w rs Hw Hops.
  { exists []. cbn. rewrite app_nil_r. split; [done|by left]. }
  destruct (cw_failed w) eqn:Hf.
  { destruct (run_failed (op :: ops) w rs [] Hw Hf) as [Hrs Hw'].
    destruct (run_writer (op :: ops) w) as [[rs' i] w']. cbn in *. simplify_eq. rewrite app_nil_r.
    exists []. split; [done|by left]. }
  apply Forall_cons in Hops as [Hop Hops]. destruct op as [kind clock payload|]; cbn [run_writer].
  - destruct (append sha256 kind clock payload w) as [out w'] eqn:Happ.
    destruct (append_step w rs kind clock payload out w' Hw Hf Hop Happ)
      as [(-> & Hf' & Hw')|(e & tail & -> & Hf' & Hw' & Htorn)].
    + specialize (IH w' _ Hw' Hops). destruct (run_writer ops w') as [[rs' i] w'']. cbn in *.
      by setoid_rewrite <- app_assoc in IH.
    + destruct (run_failed ops w' rs tail Hw' Hf') as [Hrs Hw'']. destruct (run_writer ops w') as [[rs' i] w''].
      cbn in *. simplify_eq. rewrite Hf, app_nil_r. by exists tail.
  - apply IH; [by apply checkpoint_step|done].
Qed.
Lemma writer_new_file sink max w s' :
  sink_contents sink = [] → max < u64_max → writer_new sink max = (Ok w, s') → writer_file w [] [].
Proof.
  intros Hs Hmax. unfold writer_new. destruct (_ <? _) eqn:Hq; [done|]. apply Z.ltb_ge in Hq.
  destruct (write_all sink CAPTURE_MAGIC) as [[[]|] s1] eqn:E1; [|done].
  pose proof (sync_contents s1) as Hc. destruct (sync_data s1) as [[[]|] s2]; [|done]. intros [= <- <-].
  split; writer_cbn; try done.
  - cbn in Hc. by rewrite Hc, (write_all_ok _ _ _ E1), Hs.
  - rewrite len_nil. unfold RECORD_METADATA_BYTES, HASH_BYTES in Hq. lia.
Qed.

Lemma complete_end_cases n rs : complete_end n rs = ReadEnd ∨ complete_end n rs = TornTail.
Proof. revert n. induction rs; intros; cbn [complete_end]; repeat case_match; auto. Qed.

(** A record of which nothing was stored is not read. *)
Lemma complete_before n rs more : n ≤ len (encode_all rs) → complete n (rs ++ more) = complete n rs.
Proof.
  revert n. induction rs as [|r rs IH]; intros n; unfold encode_all; cbn [app complete fmap list_fmap concat].
  - intros Hn. rewrite len_nil in Hn. destruct more as [|r more]; [done|]. cbn [complete]. rewrite len_encode.
    pose proof (len_nonneg (cr_bytes r)). by rewrite (proj2 (Z.leb_gt _ _)) by lia.
  - rewrite len_app. intros Hn. case_match; [|done]. f_equal. apply IH. unfold encode_all. lia.
Qed.

Lemma recover_file rs interrupted tail cut :
  chained 0 None rs → torn rs interrupted tail → 8 ≤ cut ≤ len (capture_file rs ++ tail) →
  ∃ e, read_file (take (Z.to_nat cut) (capture_file rs ++ tail))
       = Ok (complete (cut - 8) (rs ++ option_list interrupted), Ok e) ∧ (e = ReadEnd ∨ e = TornTail).
Proof.
  intros Hch [->|(r & more & -> & Hch' & Hmore)] Hcut.
  - rewrite app_nil_r in *. exists (complete_end (cut - 8) rs). split; [|apply complete_end_cases].
    rewrite complete_before; [by apply read_file_cut|]. unfold capture_file in Hcut. rewrite len_app in Hcut.
    change (len CAPTURE_MAGIC) with 8 in Hcut. lia.
  - exists (complete_end (cut - 8) (rs ++ [r])). split; [|apply complete_end_cases].
    assert (capture_file (rs ++ [r]) = (capture_file rs ++ tail) ++ more) as Hfile
      by by rewrite capture_file_snoc, <- Hmore, app_assoc.
    assert (take (Z.to_nat cut) (capture_file rs ++ tail) = take (Z.to_nat cut) (capture_file (rs ++ [r]))) as ->.
    { rewrite Hfile, (take_app_le _ more); [done|]. unfold len in *. lia. }
    apply read_file_cut; [done|]. rewrite Hfile, len_app. pose proof (len_nonneg more). lia.
Qed.

Lemma read_file_short input : len input < 8 → read_file input = Err (other_error "failed to fill whole buffer").
Proof.
  intros Hl. unfold read_file, reader_new, get_range. by rewrite (proj2 (Z.leb_gt 8 _)), andb_false_r by done.
Qed.
End Writing.

(** ** Whatever was read is what was encoded *)

Lemma drain_inv fuel rd rs e :
  rd_ended rd = false → drain fuel rd = (rs, e) →
  ∃ rest, rd_input rd = encode_all rs ++ rest ∧
    chained (rd_next_sequence rd) (rd_last_monotonic_ms rd) rs ∧ (e = Ok ReadEnd → rest = []).
Proof.
  revert rd rs e. induction fuel as [|fuel IH]; intros rd rs e He; cbn [drain].
  { intros [= <- <-]. by exists (rd_input rd). }
  unfold next_record. rewrite He. destruct (read_record sha256 rd) as [[[r| |]|x] rd'] eqn:Hread.
  - apply read_record_inv in Hread as (Hin & Hr & Hs & Hc & Hrd').
    destruct (drain fuel rd') as [rs' e'] eqn:Hd. intros [= <- <-].
    destruct (IH rd' rs' e') as (rest & Hin' & Hch & Hend); [by rewrite Hrd'|done|].
    exists rest. split_and!; [|split_and!; try done|done].
    + unfold encode_all in *. cbn [fmap list_fmap concat]. by rewrite Hin, Hin', app_assoc.
    + by rewrite Hrd' in Hch.
  - intros [= <- <-]. exists (rd_input rd). split_and!; [done|done|]. intros _.
    unfold read_record in Hread. repeat case_match; simplify_eq. done.
  - intros [= <- <-]. by exists (rd_input rd).
  - intros [= <- <-]. by exists (rd_input rd).
Qed.
End Capture.

Lemma run_writer_quota (sha256 : bytes → bytes) `{CaptureSink Snk} ops (w : CaptureWriter Snk) :
  cw_max_bytes (run_writer sha256 ops w).2 = cw_max_bytes w.
Proof.
  revert w. induction ops as [|[kind clock payload|] ops IH]; intros w; cbn [run_writer]; [done| |].
  - assert (cw_max_bytes (append sha256 kind clock payload w).2 = cw_max_bytes w) as Happ
      by (unfold append, append_inner; repeat case_match; simplify_eq; done).
    destruct (append sha256 kind clock payload w) as [out w'] eqn:?; cbn [snd] in Happ; rewrite <- Happ, <- (IH w').
    destruct (run_writer sha256 ops w') as [[rs i] w'']. by destruct out.
  - rewrite IH. unfold writer_checkpoint. repeat case_match; simplify_eq; done.
Qed.

Lemma writer_new_quota `{CaptureSink Snk} (sink : Snk) max w s' :
  writer_new sink max = (Ok w, s') → cw_max_bytes w = max.
Proof. unfold writer_new. repeat case_match; intros; simplify_eq; done. Qed.

Lemma magic_cases (magic : bytes) :
  negb (bool_decide (magic = CAPTURE_MAGIC)) && negb (bool_decide (magic = MAGIC_V1)) = false →
  magic = CAPTURE_MAGIC ∨ magic = MAGIC_V1.
Proof.
  intros [?%negb_false_iff%bool_decide_eq_true|?%negb_false_iff%bool_decide_eq_true]%andb_false_iff; auto.
Qed.

(** A store of bounded size, which keeps what fits of a write it refuses. *)
Record memory_sink := { mem_bytes : bytes; mem_limit : Z }.
#[export] Instance memory_capture_sink : CaptureSink memory_sink := {|
  write_all s b :=
    let room := mem_limit s - len (mem_bytes s) in
    if len b <=? room then (Ok tt, {| mem_bytes := mem_bytes s ++ b; mem_limit := mem_limit s |})
    else (Err {| io_storage_full := true; io_text := "no space left" |},
          {| mem_bytes := mem_bytes s ++ take (Z.to_nat room) b; mem_limit := mem_limit s |});
  sink_flush s := (Ok tt, s);
  sync_data s := (Ok tt, s)
|}.
#[export, refine] Instance memory_sink_laws : SinkLaws memory_sink := {| sink_contents := mem_bytes |}.
Proof.
  - intros s b s'. cbn. case_match; intros; by simplify_eq.
  - intros s b e s'. cbn. case_match; intros; simplify_eq/=. eexists. split; [|done].
    exists (drop (Z.to_nat (mem_limit s - len (mem_bytes s))) b). by rewrite take_drop.
  - done.
  - done.
Defined.

Definition example_digest (b : bytes) : bytes := replicate 32 (default x00 (last b)).
Definition example_records : list CaptureRecord :=
  [{| cr_sequence := 0; cr_kind := CkReceived; cr_clock := {| monotonic_ms := 7; wall_epoch_ms := -1 |};
      cr_bytes := bs "ab" |};
   {| cr_sequence := 1; cr_kind := CkSetup; cr_clock := {| monotonic_ms := 7; wall_epoch_ms := 99 |};
      cr_bytes := [] |}].
Definition example_ops : list writer_op :=
  [OpAppend CkReceived {| monotonic_ms := 7; wall_epoch_ms := -1 |} (bs "ab"); OpCheckpoint;
   OpAppend CkSetup {| monotonic_ms := 7; wall_epoch_ms := 99 |} []; OpCheckpoint].

Lemma example_digest_length b : length (example_digest b) = 32%nat.
Proof. apply length_replicate. Qed.
Lemma example_chained : chained 0 None example_records.
Proof. cbn. unfold u64_max, MAX_CHUNK_BYTES. repeat split; vm_compute; congruence. Qed.
Lemma example_ops_ok : Forall op_ok example_ops.
Proof. unfold example_ops. repeat constructor; vm_compute; congruence. Qed.

(** ** Theorems *)

(** A capture cut anywhere after its magic number reads back as exactly the records that
    are whole before the cut, in order and unchanged, and then as a clean end when the cut
    falls between two records and a torn tail when it falls inside one. *)
Theorem capture_recovers (sha256 : bytes → bytes) (rs : list CaptureRecord) (cut : Z) :
  (∀ b, length (sha256 b) = 32%nat) → chained 0 None rs → 8 ≤ cut ≤ len (capture_file sha256 rs) →
  read_file sha256 (take (Z.to_nat cut) (capture_file sha256 rs))
  = Ok (complete sha256 (cut - 8) rs, Ok (complete_end sha256 (cut - 8) rs)).
Proof. intros Hd. apply read_file_cut, Hd. Qed.

(** C23: whatever the storage does (a write may fail after storing any part of a record),
    whichever appends and checkpoints the owner runs, and wherever the file is cut afterwards,
    reading it back gives exactly the records that are whole before the cut: those appended,
    and after them at most the one whose append failed, when all of it was stored. So a file
    of at least [bytes_written] bytes gives every appended record. A file cut within its magic
    number is refused, and the file never outgrows its quota. *)
Theorem capture_crash_safe (sha256 : bytes → bytes) `{SinkLaws Snk} sink max w s' ops :
  (∀ b, length (sha256 b) = 32%nat) → sink_contents sink = [] → max < u64_max →
  writer_new sink max = (Ok w, s') → Forall op_ok ops →
  let '(rs, interrupted, w') := run_writer sha256 ops w in
  let stored := sink_contents (cw_sink w') in
  len stored ≤ max ∧
  ∀ cut, 0 ≤ cut ≤ len stored →
    if cut <? 8 then read_file sha256 (take (Z.to_nat cut) stored) = Err (other_error "failed to fill whole buffer")
    else
      ∃ recovered e, read_file sha256 (take (Z.to_nat cut) stored) = Ok (recovered, Ok e) ∧
        (e = ReadEnd ∨ e = TornTail) ∧
        recovered = complete sha256 (cut - 8) (rs ++ option_list interrupted) ∧
        recovered `prefix_of` rs ++ option_list interrupted ∧
        (cw_bytes_written w' ≤ cut → rs `prefix_of` recovered).
Proof.
  intros Hd Hs Hmax Hnew Hops.
  pose proof (writer_new_file sha256 sink max w s' Hs Hmax Hnew) as Hw.
  pose proof (run_writer_file sha256 Hd ops w [] Hw Hops) as Hrun.
  pose proof (run_writer_quota sha256 ops w) as Hquota.
  rewrite (writer_new_quota sink max w s' Hnew) in Hquota.
  destruct (run_writer sha256 ops w) as [[rs interrupted] w']. cbn [fst snd app] in *.
  destruct Hrun as (tail & [Hc Hch _ _ Hb Hq _ _] & Htorn). rewrite Hc, Hb in *. split.
  - rewrite len_app, <- Hquota. lia.
  - intros cut Hcut. destruct (Z.ltb_spec cut 8) as [Hshort|Hlong].
    { apply read_file_short. unfold len in *. rewrite length_take. lia. }
    destruct (recover_file sha256 Hd rs interrupted tail cut Hch Htorn ltac:(lia)) as (e & Hread & He).
    eexists _, e. split; [exact Hread|]. split_and!; [done|done|apply complete_prefix|].
    intros Hle. apply complete_all. unfold capture_file in Hle. rewrite len_app in Hle.
    change (len CAPTURE_MAGIC) with 8 in Hle. lia.
Qed.

(** The reader accepts nothing else: the records it returns are in range, numbered
    from zero, with clocks that never run backwards, and the file is a magic number, their
    encodings and a rest, which is empty when the reader reports a clean end. *)
Theorem capture_reader_exact (sha256 : bytes → bytes) (input : bytes) rs e :
  read_file sha256 input = Ok (rs, e) →
  chained 0 None rs ∧
  ∃ magic rest, input = magic ++ encode_all sha256 rs ++ rest ∧
    (magic = CAPTURE_MAGIC ∨ magic = MAGIC_V1) ∧ (e = Ok ReadEnd → rest = []).
Proof.
  unfold read_file, reader_new.
  destruct (get_range input 0 8) as [magic|] eqn:Hm; cbn [ok_or mbind result_bind]; [|done].
  destruct (_ && _) eqn:Hbad; cbn [guard_err mbind result_bind]; [done|].
  set (rd := Build_CaptureReader _ _ _ _ _). intros Hdr. injection Hdr as Hdr.
  destruct (drain_inv sha256 (S (length input)) rd rs e eq_refl Hdr) as (rest & Hin & Hch & Hend).
  split; [done|]. exists magic, rest. split_and!; [|by apply magic_cases|done].
  rewrite <- Hin. unfold rd. cbn [rd_input]. apply get_range_Some in Hm as (pre & post & -> & Hp & Hl).
  destruct pre; [|by rewrite len_cons in Hp; pose proof (len_nonneg pre); lia].
  cbn [app]. rewrite drop_app_length'; [done|]. unfold len in *. lia.
Qed.

Lemma capture_recovers_witness :
  (length (capture_file example_digest example_records) = 132)%nat ∧
  read_file example_digest (take 100 (capture_file example_digest example_records))
  = Ok (take 1 example_records, Ok TornTail).
Proof.
  split; [reflexivity|].
  apply (capture_recovers example_digest example_records 100 example_digest_length example_chained).
  vm_compute. split; discriminate.
Defined.

(** The second append does not fit the store: the first record is what a cut of the file gives,
    the torn second one is not. *)
Lemma capture_crash_safe_witness :
  let '(rs, interrupted, w') := run_writer example_digest example_ops
    {| cw_sink := {| mem_bytes := CAPTURE_MAGIC; mem_limit := 100 |}; cw_bytes_written := 8;
       cw_max_bytes := 1000; cw_sequence := 0; cw_last_monotonic_ms := None; cw_failed := false |} in
  rs = take 1 example_records ∧ interrupted = last example_records
  ∧ ∃ recovered e, read_file example_digest (take 90 (sink_contents (cw_sink w'))) = Ok (recovered, Ok e)
      ∧ rs `prefix_of` recovered.
Proof.
  pose proof (capture_crash_safe example_digest {| mem_bytes := []; mem_limit := 100 |} 1000
    {| cw_sink := {| mem_bytes := CAPTURE_MAGIC; mem_limit := 100 |}; cw_bytes_written := 8;
       cw_max_bytes := 1000; cw_sequence := 0; cw_last_monotonic_ms := None; cw_failed := false |}
    {| mem_bytes := CAPTURE_MAGIC; mem_limit := 100 |} example_ops
    example_digest_length eq_refl eq_refl eq_refl example_ops_ok) as H.
  destruct (run_writer example_digest example_ops _) as [[rs i] w'] eqn:E.
  vm_compute in E. injection E as <- <- <-. split; [reflexivity|]. split; [reflexivity|].
  destruct H as [_ H]. specialize (H 90 ltac:(vm_compute; split; discriminate)).
  destruct H as (recovered & e & Hr & _ & _ & _ & Hp). exists recovered, e. split; [exact Hr|].
  apply Hp. vm_compute. discriminate.
Defined.

Lemma capture_reader_exact_witness :
  read_file example_digest (capture_file example_digest example_records) = Ok (example_records, Ok ReadEnd) ∧
  chained 0 None example_records.
Proof.
  assert (read_file example_digest (capture_file example_digest example_records)
          = Ok (example_records, Ok ReadEnd)) as H by (vm_compute; reflexivity).
  split; [exact H|]. exact (proj1 (capture_reader_exact example_digest _ _ _ H)).
Defined.
