(* ===== verification/ReceiverConnection.v ===== *)
(** * The receiver connection (app-core/src/receiver/connection.rs)

    The single owner of one receiver connection: it turns socket events and clock ticks into
    effects for the adapter and messages for the products, drives the protocol
    ([ReceiverProtocol]), records everything through the [Recorder] interface
    ([ReceiverCapture]), and retries a lost connection with a growing delay. The setup
    record (receiver/setup.rs) and the reception counters (receiver/reception.rs) are here
    too. A [Turn] is one call: the owner, the process-wide connection ids, the output under
    construction, and whether an [expect] failed. *)

From Stdlib Require Import Strings.Byte.
From stdpp Require Import base list strings gmap.
From S2P Require Import Prelude ReceiverFraming ReceiverProtocol ReceiverCapture.

Local Open Scope Z_scope.

(** ** Constants *)

Definition CONNECT_TIMEOUT_MS : Z := 15000.
Definition WRITE_TIMEOUT_MS : Z := 5000.
Definition CHECKPOINT_MS : Z := 1000.
Definition CHECKPOINT_BYTES : Z := 256 * 1024.
Definition RETRY_INITIAL_MS : Z := 5000.
Definition RETRY_MAX_MS : Z := 65000.
Definition STABLE_CONNECTION_MS : Z := 60000.
Definition MAX_QUEUED_WRITE_BYTES : Z := 1024 * 1024.
(** receiver/mod.rs *)
Definition SERVICE_UUID : string := "58e1f790-aa26-11e3-a5e2-0800200c9a66".

(** ** Faults *)

Inductive IoFailure :=
| IoConnection | IoRead | IoWrite | IoEndOfStream | IoPermission | IoBluetoothDisabled.

Inductive Fault :=
| FaultIo (failure : IoFailure)
| FaultProtocol (reason : string)
| ConnectDeadline | WriteDeadline | WriteQueueLimit | ClockRegressed | UnexpectedCompletion
| ConnectionIdsExhausted.

Definition fault_description (f : Fault) : string :=
  match f with
  | FaultIo IoConnection => "Receiver connection failed"
  | FaultIo IoRead | FaultIo IoEndOfStream => "Receiver connection lost"
  | FaultIo IoWrite => "Receiver write failed; transmitted extent unknown"
  | FaultIo IoPermission => "Bluetooth permission required"
  | FaultIo IoBluetoothDisabled => "Bluetooth is disabled"
  | FaultProtocol reason => reason
  | ConnectDeadline => "Receiver connection timed out"
  | WriteDeadline => "Receiver write timed out; transmitted extent unknown"
  | WriteQueueLimit => "Receiver output queue limit reached"
  | ClockRegressed => "Receiver monotonic clock regressed"
  | UnexpectedCompletion => "Unexpected receiver IO completion"
  | ConnectionIdsExhausted => "Receiver connection IDs exhausted; restart application"
  end.

Inductive ConnectionPhase :=
| CpStopped
| CpConnecting
| CpProtocol (p : ProtocolPhase)
| CpWaitingToRetry (at_monotonic_ms : Z)
| CpBlocked.
#[export] Instance connection_phase_eq_dec : EqDecision ConnectionPhase.
Proof. solve_decision. Defined.

(** ** Setup metadata (receiver/setup.rs) *)

Inductive SetupMode := SetupNormal | OmitSetupPayload.
Record BlobFingerprint := { bf_length : Z; bf_sha256 : bytes }.
Definition fingerprint_of (sha256 : bytes → bytes) (b : bytes) : BlobFingerprint :=
  {| bf_length := len b; bf_sha256 := hex_lower (sha256 b) |}.
Record SetupMetadata {Build : Type} := {
  sm_mode : SetupMode;
  sm_build : option Build;
  sm_challenge_seed : BlobFingerprint;
  sm_setup_payload : BlobFingerprint
}.
Arguments SetupMetadata : clear implicits.
Definition setup_current {Build} (sha256 : bytes → bytes) (build : option Build) : SetupMetadata Build :=
  {| sm_mode := OmitSetupPayload; sm_build := build;
     sm_challenge_seed := fingerprint_of sha256 CHALLENGE_SEED;
     sm_setup_payload := fingerprint_of sha256 [] |}.

(** ** Reception counters (receiver/reception.rs) *)

Record WeatherReception := {
  wr_empty : Z; wr_nonempty : Z; wr_malformed : Z; wr_bytes : Z; wr_last_ms : Z }.
Definition weather_reception_default : WeatherReception :=
  {| wr_empty := 0; wr_nonempty := 0; wr_malformed := 0; wr_bytes := 0; wr_last_ms := 0 |}.
Record Reception := {
  rc_attitude : Z; rc_pressure : Z; rc_traffic : Z; rc_traffic_with_targets : Z;
  rc_weather : gmap Z WeatherReception }.
Definition reception_default : Reception :=
  {| rc_attitude := 0; rc_pressure := 0; rc_traffic := 0; rc_traffic_with_targets := 0; rc_weather := ∅ |}.

(** What the counters read of a product. *)
Inductive Observed :=
| ObservedAttitude | ObservedPressure | ObservedTraffic (has_targets : bool) | ObservedOther.

Definition observe {Product} (observed : Product → Observed) (m : @ReceivedMessage Product) (now_ms : Z)
    (r : Reception) : Reception :=
  let seen := match product m with Ok p => observed p | Err _ => ObservedOther end in
  let bump (b : bool) := if b then 1 else 0 in
  {| rc_attitude := rc_attitude r + match seen with ObservedAttitude => 1 | _ => 0 end;
     rc_pressure := rc_pressure r + match seen with ObservedPressure => 1 | _ => 0 end;
     rc_traffic := rc_traffic r + match seen with ObservedTraffic _ => 1 | _ => 0 end;
     rc_traffic_with_targets :=
       rc_traffic_with_targets r + match seen with ObservedTraffic b => bump b | _ => 0 end;
     rc_weather :=
       if is_weather (rm_message_id m) then
         let entry := default weather_reception_default (rc_weather r !! rm_message_id m) in
         <[rm_message_id m :=
             {| wr_empty := wr_empty entry + bump (payload_bytes m =? 0);
                wr_nonempty := wr_nonempty entry + bump (negb (payload_bytes m =? 0));
                wr_malformed := wr_malformed entry + bump (is_err (product m));
                wr_bytes := wr_bytes entry + payload_bytes m; wr_last_ms := now_ms |}]> (rc_weather r)
       else rc_weather r |}.

(** ** Effects and events *)

Inductive Effect :=
| EfConnect (id : Z) (device : string) (service_uuid : string)
| EfClose (id : Z)
| EfWrite (id : Z) (write_id : Z) (b : bytes).

Inductive Event :=
| EvConnected (id : Z)
| EvReceived (id : Z) (b : bytes)
| EvWritten (id : Z) (write_id : Z)
| EvFailed (id : Z) (reason : IoFailure)
| EvTick.

Definition event_id (e : Event) : option Z :=
  match e with
  | EvConnected i | EvReceived i _ | EvWritten i _ | EvFailed i _ => Some i
  | EvTick => None
  end.

Definition is_close (e : Effect) : bool := match e with EfClose _ => true | _ => false end.

(** [slice::chunks]. *)
Fixpoint chunks_fuel {A} (fuel : nat) (n : nat) (l : list A) : list (list A) :=
  match fuel, l with
  | O, _ | _, [] => []
  | S fuel, _ => take n l :: chunks_fuel fuel n (drop n l)
  end.
Definition chunks {A} (n : Z) (l : list A) : list (list A) := chunks_fuel (length l) (Z.to_nat n) l.

Record PendingWrite := { pw_id : Z; pw_since_ms : Z }.

Record ConnectionStatus := {
  st_reception : Reception;
  st_phase : ConnectionPhase;
  st_last_fault : option Fault;
  st_last_receive_monotonic_ms : option Z;
  st_captured : CaptureProgress;
  st_capture_failure : option CaptureFailure;
  st_decoded_messages : Z;
  st_malformed_messages : Z;
  st_ignored_stale_callbacks : Z
}.

Section Connection.
(** The protocol's parameters; what the counters read of a product; the JSON writer. *)
Context (sha256 md5 : bytes → bytes) {Product : Type}
  (decode_product : Z → bytes → result decode_error Product) (observed : Product → Observed)
  {Build : Type} (setup_json : SetupMetadata Build → bytes) `{Recorder R}.
Abbreviation SetupMetadata := (SetupMetadata Build).
Abbreviation ReceivedMessage := (@ReceivedMessage Product).
Abbreviation ProtocolOutput := (@ProtocolOutput Product).

Record Output := { effects : list Effect; out_messages : list ReceivedMessage }.
Definition no_output : Output := {| effects := []; out_messages := [] |}.

Record Connection := {
  c_setup : SetupMetadata;
  c_recorder : DiagnosticCapture R;
  c_device : option string;
  c_active : option Z;
  c_protocol : option Protocol;
  c_status : ConnectionStatus;
  c_pending_write : option PendingWrite;
  c_writes : list bytes;
  c_next_write_id : Z;
  c_queued_bytes : Z;
  c_connect_since_ms : Z;
  c_receiving_since_ms : option Z;
  c_next_retry_ms : Z;
  c_last_clock_ms : Z;
  c_last_checkpoint_ms : Z;
  c_checkpoint_bytes : Z
}.

Definition put_recorder (v : DiagnosticCapture R) (c : Connection) : Connection :=
  {| c_setup := c_setup c; c_recorder := v; c_device := c_device c; c_active := c_active c;
     c_protocol := c_protocol c; c_status := c_status c; c_pending_write := c_pending_write c;
     c_writes := c_writes c; c_next_write_id := c_next_write_id c;
     c_queued_bytes := c_queued_bytes c; c_connect_since_ms := c_connect_since_ms c;
     c_receiving_since_ms := c_receiving_since_ms c; c_next_retry_ms := c_next_retry_ms c;
     c_last_clock_ms := c_last_clock_ms c; c_last_checkpoint_ms := c_last_checkpoint_ms c;
     c_checkpoint_bytes := c_checkpoint_bytes c |}.
Definition put_device (v : option string) (c : Connection) : Connection :=
  {| c_setup := c_setup c; c_recorder := c_recorder c; c_device := v; c_active := c_active c;
     c_protocol := c_protocol c; c_status := c_status c; c_pending_write := c_pending_write c;
     c_writes := c_writes c; c_next_write_id := c_next_write_id c;
     c_queued_bytes := c_queued_bytes c; c_connect_since_ms := c_connect_since_ms c;
     c_receiving_since_ms := c_receiving_since_ms c; c_next_retry_ms := c_next_retry_ms c;
     c_last_clock_ms := c_last_clock_ms c; c_last_checkpoint_ms := c_last_checkpoint_ms c;
     c_checkpoint_bytes := c_checkpoint_bytes c |}.
Definition put_active (v : option Z) (c : Connection) : Connection :=
  {| c_setup := c_setup c; c_recorder := c_recorder c; c_device := c_device c; c_active := v;
     c_protocol := c_protocol c; c_status := c_status c; c_pending_write := c_pending_write c;
     c_writes := c_writes c; c_next_write_id := c_next_write_id c;
     c_queued_bytes := c_queued_bytes c; c_connect_since_ms := c_connect_since_ms c;
     c_receiving_since_ms := c_receiving_since_ms c; c_next_retry_ms := c_next_retry_ms c;
     c_last_clock_ms := c_last_clock_ms c; c_last_checkpoint_ms := c_last_checkpoint_ms c;
     c_checkpoint_bytes := c_checkpoint_bytes c |}.
Definition put_protocol (v : option Protocol) (c : Connection) : Connection :=
  {| c_setup := c_setup c; c_recorder := c_recorder c; c_device := c_device c;
     c_active := c_active c; c_protocol := v; c_status := c_status c;
     c_pending_write := c_pending_write c; c_writes := c_writes c;
     c_next_write_id := c_next_write_id c; c_queued_bytes := c_queued_bytes c;
     c_connect_since_ms := c_connect_since_ms c;
     c_receiving_since_ms := c_receiving_since_ms c; c_next_retry_ms := c_next_retry_ms c;
     c_last_clock_ms := c_last_clock_ms c; c_last_checkpoint_ms := c_last_checkpoint_ms c;
     c_checkpoint_bytes := c_checkpoint_bytes c |}.
Definition put_status (v : ConnectionStatus) (c : Connection) : Connection :=
  {| c_setup := c_setup c; c_recorder := c_recorder c; c_device := c_device c;
     c_active := c_active c; c_protocol := c_protocol c; c_status := v;
     c_pending_write := c_pending_write c; c_writes := c_writes c;
     c_next_write_id := c_next_write_id c; c_queued_bytes := c_queued_bytes c;
     c_connect_since_ms := c_connect_since_ms c;
     c_receiving_since_ms := c_receiving_since_ms c; c_next_retry_ms := c_next_retry_ms c;
     c_last_clock_ms := c_last_clock_ms c; c_last_checkpoint_ms := c_last_checkpoint_ms c;
     c_checkpoint_bytes := c_checkpoint_bytes c |}.
Definition put_pending_write (v : option PendingWrite) (c : Connection) : Connection :=
  {| c_setup := c_setup c; c_recorder := c_recorder c; c_device := c_device c;
     c_active := c_active c; c_protocol := c_protocol c; c_status := c_status c;
     c_pending_write := v; c_writes := c_writes c; c_next_write_id := c_next_write_id c;
     c_queued_bytes := c_queued_bytes c; c_connect_since_ms := c_connect_since_ms c;
     c_receiving_since_ms := c_receiving_since_ms c; c_next_retry_ms := c_next_retry_ms c;
     c_last_clock_ms := c_last_clock_ms c; c_last_checkpoint_ms := c_last_checkpoint_ms c;
     c_checkpoint_bytes := c_checkpoint_bytes c |}.
Definition put_writes (v : list bytes) (n : Z) (c : Connection) : Connection :=
  {| c_setup := c_setup c; c_recorder := c_recorder c; c_device := c_device c;
     c_active := c_active c; c_protocol := c_protocol c; c_status := c_status c;
     c_pending_write := c_pending_write c; c_writes := v; c_next_write_id := c_next_write_id c;
     c_queued_bytes := n; c_connect_since_ms := c_connect_since_ms c;
     c_receiving_since_ms := c_receiving_since_ms c; c_next_retry_ms := c_next_retry_ms c;
     c_last_clock_ms := c_last_clock_ms c; c_last_checkpoint_ms := c_last_checkpoint_ms c;
     c_checkpoint_bytes := c_checkpoint_bytes c |}.
Definition put_next_write_id (v : Z) (c : Connection) : Connection :=
  {| c_setup := c_setup c; c_recorder := c_recorder c; c_device := c_device c;
     c_active := c_active c; c_protocol := c_protocol c; c_status := c_status c;
     c_pending_write := c_pending_write c; c_writes := c_writes c; c_next_write_id := v;
     c_queued_bytes := c_queued_bytes c; c_connect_since_ms := c_connect_since_ms c;
     c_receiving_since_ms := c_receiving_since_ms c; c_next_retry_ms := c_next_retry_ms c;
     c_last_clock_ms := c_last_clock_ms c; c_last_checkpoint_ms := c_last_checkpoint_ms c;
     c_checkpoint_bytes := c_checkpoint_bytes c |}.
Definition put_connect_since (v : Z) (c : Connection) : Connection :=
  {| c_setup := c_setup c; c_recorder := c_recorder c; c_device := c_device c;
     c_active := c_active c; c_protocol := c_protocol c; c_status := c_status c;
     c_pending_write := c_pending_write c; c_writes := c_writes c;
     c_next_write_id := c_next_write_id c; c_queued_bytes := c_queued_bytes c;
     c_connect_since_ms := v; c_receiving_since_ms := c_receiving_since_ms c;
     c_next_retry_ms := c_next_retry_ms c; c_last_clock_ms := c_last_clock_ms c;
     c_last_checkpoint_ms := c_last_checkpoint_ms c;
     c_checkpoint_bytes := c_checkpoint_bytes c |}.
Definition put_receiving_since (v : option Z) (c : Connection) : Connection :=
  {| c_setup := c_setup c; c_recorder := c_recorder c; c_device := c_device c;
     c_active := c_active c; c_protocol := c_protocol c; c_status := c_status c;
     c_pending_write := c_pending_write c; c_writes := c_writes c;
     c_next_write_id := c_next_write_id c; c_queued_bytes := c_queued_bytes c;
     c_connect_since_ms := c_connect_since_ms c; c_receiving_since_ms := v;
     c_next_retry_ms := c_next_retry_ms c; c_last_clock_ms := c_last_clock_ms c;
     c_last_checkpoint_ms := c_last_checkpoint_ms c;
     c_checkpoint_bytes := c_checkpoint_bytes c |}.
Definition put_next_retry (v : Z) (c : Connection) : Connection :=
  {| c_setup := c_setup c; c_recorder := c_recorder c; c_device := c_device c;
     c_active := c_active c; c_protocol := c_protocol c; c_status := c_status c;
     c_pending_write := c_pending_write c; c_writes := c_writes c;
     c_next_write_id := c_next_write_id c; c_queued_bytes := c_queued_bytes c;
     c_connect_since_ms := c_connect_since_ms c;
     c_receiving_since_ms := c_receiving_since_ms c; c_next_retry_ms := v;
     c_last_clock_ms := c_last_clock_ms c; c_last_checkpoint_ms := c_last_checkpoint_ms c;
     c_checkpoint_bytes := c_checkpoint_bytes c |}.
Definition put_last_clock (v : Z) (c : Connection) : Connection :=
  {| c_setup := c_setup c; c_recorder := c_recorder c; c_device := c_device c;
     c_active := c_active c; c_protocol := c_protocol c; c_status := c_status c;
     c_pending_write := c_pending_write c; c_writes := c_writes c;
     c_next_write_id := c_next_write_id c; c_queued_bytes := c_queued_bytes c;
     c_connect_since_ms := c_connect_since_ms c;
     c_receiving_since_ms := c_receiving_since_ms c; c_next_retry_ms := c_next_retry_ms c;
     c_last_clock_ms := v; c_last_checkpoint_ms := c_last_checkpoint_ms c;
     c_checkpoint_bytes := c_checkpoint_bytes c |}.
Definition put_checkpoint (ms bytes : Z) (c : Connection) : Connection :=
  {| c_setup := c_setup c; c_recorder := c_recorder c; c_device := c_device c;
     c_active := c_active c; c_protocol := c_protocol c; c_status := c_status c;
     c_pending_write := c_pending_write c; c_writes := c_writes c;
     c_next_write_id := c_next_write_id c; c_queued_bytes := c_queued_bytes c;
     c_connect_since_ms := c_connect_since_ms c;
     c_receiving_since_ms := c_receiving_since_ms c; c_next_retry_ms := c_next_retry_ms c;
     c_last_clock_ms := c_last_clock_ms c; c_last_checkpoint_ms := ms;
     c_checkpoint_bytes := bytes |}.

Definition put_phase (ph : ConnectionPhase) (c : Connection) : Connection :=
  let s := c_status c in
  put_status {| st_reception := st_reception s; st_phase := ph; st_last_fault := st_last_fault s;
    st_last_receive_monotonic_ms := st_last_receive_monotonic_ms s; st_captured := st_captured s;
    st_capture_failure := st_capture_failure s; st_decoded_messages := st_decoded_messages s;
    st_malformed_messages := st_malformed_messages s;
    st_ignored_stale_callbacks := st_ignored_stale_callbacks s |} c.
Definition put_fault (f : option Fault) (c : Connection) : Connection :=
  let s := c_status c in
  put_status {| st_reception := st_reception s; st_phase := st_phase s; st_last_fault := f;
    st_last_receive_monotonic_ms := st_last_receive_monotonic_ms s; st_captured := st_captured s;
    st_capture_failure := st_capture_failure s; st_decoded_messages := st_decoded_messages s;
    st_malformed_messages := st_malformed_messages s;
    st_ignored_stale_callbacks := st_ignored_stale_callbacks s |} c.
Definition put_last_receive (ms : Z) (c : Connection) : Connection :=
  let s := c_status c in
  put_status {| st_reception := st_reception s; st_phase := st_phase s; st_last_fault := st_last_fault s;
    st_last_receive_monotonic_ms := Some ms; st_captured := st_captured s;
    st_capture_failure := st_capture_failure s; st_decoded_messages := st_decoded_messages s;
    st_malformed_messages := st_malformed_messages s;
    st_ignored_stale_callbacks := st_ignored_stale_callbacks s |} c.
Definition put_reception (r : Reception) (decoded malformed : Z) (c : Connection) : Connection :=
  let s := c_status c in
  put_status {| st_reception := r; st_phase := st_phase s; st_last_fault := st_last_fault s;
    st_last_receive_monotonic_ms := st_last_receive_monotonic_ms s; st_captured := st_captured s;
    st_capture_failure := st_capture_failure s; st_decoded_messages := decoded;
    st_malformed_messages := malformed;
    st_ignored_stale_callbacks := st_ignored_stale_callbacks s |} c.
Definition count_stale (c : Connection) : Connection :=
  let s := c_status c in
  put_status {| st_reception := st_reception s; st_phase := st_phase s; st_last_fault := st_last_fault s;
    st_last_receive_monotonic_ms := st_last_receive_monotonic_ms s; st_captured := st_captured s;
    st_capture_failure := st_capture_failure s; st_decoded_messages := st_decoded_messages s;
    st_malformed_messages := st_malformed_messages s;
    st_ignored_stale_callbacks := st_ignored_stale_callbacks s + 1 |} c.
Definition c_phase (c : Connection) : ConnectionPhase := st_phase (c_status c).

Definition connection_new (build : option Build) (recorder : result io_error R) (clock : CaptureClock)
    : Connection :=
  let recorder := capture_new recorder in
  let captured := capture_progress recorder in
  {| c_setup := setup_current sha256 build; c_recorder := recorder; c_device := None; c_active := None;
     c_protocol := None;
     c_status := {| st_reception := reception_default; st_phase := CpStopped; st_last_fault := None;
       st_last_receive_monotonic_ms := None; st_captured := captured; st_capture_failure := None;
       st_decoded_messages := 0; st_malformed_messages := 0; st_ignored_stale_callbacks := 0 |};
     c_pending_write := None; c_writes := []; c_next_write_id := 0; c_queued_bytes := 0;
     c_connect_since_ms := monotonic_ms clock; c_receiving_since_ms := None;
     c_next_retry_ms := RETRY_INITIAL_MS; c_last_clock_ms := monotonic_ms clock;
     c_last_checkpoint_ms := monotonic_ms clock; c_checkpoint_bytes := written_bytes captured |}.

Definition status (c : Connection) : ConnectionStatus :=
  let s := c_status c in
  {| st_reception := st_reception s; st_phase := st_phase s; st_last_fault := st_last_fault s;
     st_last_receive_monotonic_ms := st_last_receive_monotonic_ms s;
     st_captured := capture_progress (c_recorder c); st_capture_failure := capture_failure (c_recorder c);
     st_decoded_messages := st_decoded_messages s; st_malformed_messages := st_malformed_messages s;
     st_ignored_stale_callbacks := st_ignored_stale_callbacks s |}.

Definition recorder_healthy (c : Connection) : bool :=
  match capture_failure (c_recorder c) with None => true | Some _ => false end.

Definition next_wake_ms (c : Connection) : option Z :=
  let periodic := saturating_add u64_max (c_last_clock_ms c) 250 in
  match c_phase c with
  | CpStopped | CpBlocked => None
  | CpWaitingToRetry at_monotonic_ms => Some at_monotonic_ms
  | _ =>
      if recorder_healthy c
      then Some (Z.min periodic (saturating_add u64_max (c_last_checkpoint_ms c) CHECKPOINT_MS))
      else Some periodic
  end.

(** ** One call *)

(** [NEXT_CONNECTION_ID] is [t_ids]. *)
Record Turn := { t_conn : Connection; t_ids : Z; t_out : Output; t_panicked : bool }.

Definition on (f : Connection → Connection) (t : Turn) : Turn :=
  {| t_conn := f (t_conn t); t_ids := t_ids t; t_out := t_out t; t_panicked := t_panicked t |}.
Definition emit (e : Effect) (t : Turn) : Turn :=
  {| t_conn := t_conn t; t_ids := t_ids t;
     t_out := {| effects := effects (t_out t) ++ [e]; out_messages := out_messages (t_out t) |};
     t_panicked := t_panicked t |}.
Definition push_message (m : ReceivedMessage) (t : Turn) : Turn :=
  {| t_conn := t_conn t; t_ids := t_ids t;
     t_out := {| effects := effects (t_out t); out_messages := out_messages (t_out t) ++ [m] |};
     t_panicked := t_panicked t |}.
(** [effects.retain(Close); messages.clear()] *)
Definition retract (t : Turn) : Turn :=
  {| t_conn := t_conn t; t_ids := t_ids t;
     t_out := {| effects := filter (λ e, is_close e = true) (effects (t_out t)); out_messages := [] |};
     t_panicked := t_panicked t |}.
Definition set_ids (n : Z) (t : Turn) : Turn :=
  {| t_conn := t_conn t; t_ids := n; t_out := t_out t; t_panicked := t_panicked t |}.
Definition panic (t : Turn) : Turn :=
  {| t_conn := t_conn t; t_ids := t_ids t; t_out := t_out t; t_panicked := true |}.

Definition record_event (kind : CaptureKind) (clock : CaptureClock) (payload : bytes) : Turn → Turn :=
  on (λ c, put_recorder (capture_record kind clock payload (c_recorder c)) c).

Definition owner_checkpoint (clock : CaptureClock) : Turn → Turn :=
  on (λ c, let r := capture_checkpoint (c_recorder c) in
           put_checkpoint (monotonic_ms clock) (written_bytes (capture_progress r)) (put_recorder r c)).

Definition clear_connection (t : Turn) : Turn :=
  let t := match c_active (t_conn t) with Some i => emit (EfClose i) t | None => t end in
  on (λ c, put_receiving_since None (put_writes [] 0 (put_pending_write None
             (put_protocol None (put_active None c))))) t.

Definition disconnect (clock : CaptureClock) (t : Turn) : Turn :=
  let t := match c_active (t_conn t) with
           | Some _ => owner_checkpoint clock (record_event CkDisconnected clock [] t)
           | None => t
           end in
  clear_connection t.

Definition owner_fail (fault : Fault) (clock : CaptureClock) (t : Turn) : Turn :=
  let t := on (put_fault (Some fault)) t in
  let t := record_event CkDiagnostic clock (bs (fault_description fault)) t in
  let t := disconnect clock t in
  let c := t_conn t in
  let t := if bool_decide (c_phase c = CpBlocked) then t
           else on (λ c, put_next_retry (Z.min (c_next_retry_ms c * 2) RETRY_MAX_MS)
                           (put_phase (CpWaitingToRetry
                              (saturating_add u64_max (monotonic_ms clock) (c_next_retry_ms c))) c)) t in
  retract t.

Definition block (fault : Fault) (t : Turn) : Turn :=
  let t := on (λ c, put_phase CpBlocked (put_fault (Some fault) c)) t in
  let t := on (λ c, put_recorder (capture_checkpoint (c_recorder c)) c) t in
  retract (clear_connection t).

Definition owner_clock (clock : CaptureClock) (t : Turn) : Turn * bool :=
  if monotonic_ms clock <? c_last_clock_ms (t_conn t) then (block ClockRegressed t, false)
  else (on (put_last_clock (monotonic_ms clock)) t, true).

Definition dispatch_write (clock : CaptureClock) (t : Turn) : Turn :=
  match c_pending_write (t_conn t), c_writes (t_conn t) with
  | Some _, _ | None, [] => t
  | None, b :: writes =>
      let t := on (λ c, put_next_write_id (c_next_write_id c + 1)
                          (put_writes writes (c_queued_bytes c - len b) c)) t in
      let write_id := c_next_write_id (t_conn t) in
      let t := record_event CkWriteRequested clock (le_bytes 8 write_id ++ b) t in
      let t := on (put_pending_write (Some {| pw_id := write_id; pw_since_ms := monotonic_ms clock |})) t in
      match c_active (t_conn t) with
      | Some i => emit (EfWrite i write_id b) t
      | None => panic t
      end
  end.

(** The loop over [batch.transmissions]; [false] when it failed the connection. *)
Fixpoint enqueue (clock : CaptureClock) (l : list bytes) (t : Turn) : Turn * bool :=
  match l with
  | [] => (t, true)
  | b :: l =>
      if (MAX_CHUNK_BYTES <? len b + 8)
         || (MAX_QUEUED_WRITE_BYTES <? saturating_add usize_max (c_queued_bytes (t_conn t)) (len b))
      then (owner_fail WriteQueueLimit clock t, false)
      else enqueue clock l (on (λ c, put_writes (c_writes c ++ [b]) (c_queued_bytes c + len b) c) t)
  end.

(** The loop over [batch.messages]. *)
Definition deliver_message (clock : CaptureClock) (t : Turn) (m : ReceivedMessage) : Turn :=
  let t := on (λ c, let s := c_status c in
    put_reception (observe observed m (monotonic_ms clock) (st_reception s))
      (st_decoded_messages s + if is_err (product m) then 0 else 1)
      (st_malformed_messages s + if is_err (product m) then 1 else 0) c) t in
  push_message m t.

(** [Receiving]: the first time it is noted, and a stable connection resets the delay. *)
Definition note_receiving (clock : CaptureClock) (c : Connection) : Connection :=
  let since := default (monotonic_ms clock) (c_receiving_since_ms c) in
  let c := put_receiving_since (Some since) c in
  let c := if STABLE_CONNECTION_MS <=? saturating_sub (monotonic_ms clock) since
           then put_next_retry RETRY_INITIAL_MS c else c in
  put_fault None c.

Definition protocol_output (batch : ProtocolOutput) (clock : CaptureClock) (t : Turn) : Turn :=
  match c_protocol (t_conn t) with
  | None => panic t
  | Some p =>
      let t := on (put_phase (CpProtocol (phase p))) t in
      let t := if bool_decide (phase p = Receiving) then on (note_receiving clock) t else t in
      match enqueue clock (transmissions batch) t with
      | (t, false) => t
      | (t, true) =>
          let t := dispatch_write clock t in
          match c_active (t_conn t) with
          | Some _ => fold_left (deliver_message clock) (messages batch) t
          | None => t
          end
      end
  end.

Definition open (clock : CaptureClock) (t : Turn) : Turn :=
  match checked_add u64_max (t_ids t) 1 with
  | None => block ConnectionIdsExhausted t
  | Some next =>
      let i := t_ids t in
      let t := set_ids next t in
      let t := record_event CkConnectionRequested clock (le_bytes 8 i) t in
      let t := record_event CkSetup clock (setup_json (c_setup (t_conn t))) t in
      let t := owner_checkpoint clock t in
      let t := on (λ c, let c := put_active (Some i) c in
                        let c := put_reception reception_default (st_decoded_messages (c_status c))
                                   (st_malformed_messages (c_status c)) c in
                        let c := put_connect_since (monotonic_ms clock) c in
                        put_phase CpConnecting c) t in
      match c_device (t_conn t) with
      | Some device => emit (EfConnect i device SERVICE_UUID) t
      | None => panic t
      end
  end.

(** The result of a protocol call: its batch, or its failure. *)
Definition protocol_result (r : result decode_error ProtocolOutput) (clock : CaptureClock) (t : Turn) : Turn :=
  match r with
  | Ok batch => protocol_output batch clock t
  | Err (DecodeError reason) => owner_fail (FaultProtocol reason) clock t
  end.

(** The part of [tick] for an established connection. *)
Definition tick_protocol (clock : CaptureClock) (t : Turn) : Turn :=
  let now := monotonic_ms clock in
  match c_pending_write (t_conn t) with
  | Some write =>
      if WRITE_TIMEOUT_MS <=? saturating_sub now (pw_since_ms write)
      then owner_fail WriteDeadline clock t else t
  | None =>
      match c_protocol (t_conn t) with
      | Some p =>
          let '(r, p) := tick now p in
          protocol_result r clock (on (put_protocol (Some p)) t)
      | None => t
      end
  end.

Definition owner_tick (clock : CaptureClock) (t : Turn) : Turn :=
  let now := monotonic_ms clock in
  match c_phase (t_conn t) with
  | CpWaitingToRetry at_monotonic_ms => if at_monotonic_ms <=? now then open clock t else t
  | CpConnecting =>
      if CONNECT_TIMEOUT_MS <=? saturating_sub now (c_connect_since_ms (t_conn t))
      then owner_fail ConnectDeadline clock t else t
  | _ => tick_protocol clock t
  end.

(** [Protocol::connect], over the outcome of [getrandom]. *)
Definition protocol_connect (now_ms : Z) (entropy : option bytes) : result decode_error (@io Product) :=
  nonce ← ok_or entropy (DecodeError "receiver nonce generation failed");
  with_nonce now_ms nonce.

Definition handle_connected (entropy : option bytes) (clock : CaptureClock) (t : Turn) : Turn :=
  if negb (bool_decide (c_phase (t_conn t) = CpConnecting)) then owner_fail UnexpectedCompletion clock t
  else
    let t := record_event CkConnected clock [] t in
    match protocol_connect (monotonic_ms clock) entropy with
    | Ok x => protocol_output (output x) clock (on (put_protocol (Some (self x))) t)
    | Err (DecodeError reason) => owner_fail (FaultProtocol reason) clock t
    end.

Definition handle_received (b : bytes) (clock : CaptureClock) (t : Turn) : Turn :=
  let t := fold_left (λ t chunk, record_event CkReceived clock chunk t) (chunks MAX_CHUNK_BYTES b) t in
  let t := on (put_last_receive (monotonic_ms clock)) t in
  match c_protocol (t_conn t) with
  | Some p =>
      let '(r, p) := receive sha256 md5 decode_product b (monotonic_ms clock) p in
      protocol_result r clock (on (put_protocol (Some p)) t)
  | None => owner_fail UnexpectedCompletion clock t
  end.

Definition handle_written (write_id : Z) (clock : CaptureClock) (t : Turn) : Turn :=
  match c_pending_write (t_conn t) with
  | Some write =>
      if pw_id write =? write_id then
        let t := record_event CkWriteCompleted clock (le_bytes 8 write_id) t in
        dispatch_write clock (on (put_pending_write None) t)
      else owner_fail UnexpectedCompletion clock t
  | None => owner_fail UnexpectedCompletion clock t
  end.

Definition handle_event (entropy : option bytes) (e : Event) (clock : CaptureClock) (t : Turn) : Turn :=
  match e with
  | EvConnected _ => handle_connected entropy clock t
  | EvReceived _ b => handle_received b clock t
  | EvWritten _ write_id => handle_written write_id clock t
  | EvFailed _ reason => owner_fail (FaultIo reason) clock t
  | EvTick => owner_tick clock t
  end.

Definition checkpoint_due (clock : CaptureClock) (c : Connection) : bool :=
  bool_decide (is_Some (c_active c)) && recorder_healthy c
  && ((CHECKPOINT_MS <=? saturating_sub (monotonic_ms clock) (c_last_checkpoint_ms c))
      || (CHECKPOINT_BYTES <=?
            saturating_sub (written_bytes (capture_progress (c_recorder c))) (c_checkpoint_bytes c))).

Definition checkpoint_if_due (clock : CaptureClock) (t : Turn) : Turn :=
  if checkpoint_due clock (t_conn t) then owner_checkpoint clock t else t.

Definition begin (c : Connection) (ids : Z) : Turn :=
  {| t_conn := c; t_ids := ids; t_out := no_output; t_panicked := false |}.

Definition update (entropy : option bytes) (e : Event) (clock : CaptureClock) (c : Connection) (ids : Z) : Turn :=
  let t := begin c ids in
  if bool_decide (is_Some (event_id e)) && negb (bool_decide (event_id e = c_active c)) then
    let t := on count_stale t in
    match e with EvConnected i => emit (EfClose i) t | _ => t end
  else
    match owner_clock clock t with
    | (t, false) => t
    | (t, true) =>
        match c_phase (t_conn t) with
        | CpBlocked | CpStopped => t
        | _ =>
            checkpoint_if_due clock (handle_event entropy e clock t)
        end
    end.

Definition stop (clock : CaptureClock) (c : Connection) (ids : Z) : Turn :=
  match owner_clock clock (begin c ids) with
  | (t, false) => t
  | (t, true) =>
      let t := on (put_device None) t in
      let t := disconnect clock t in
      if bool_decide (c_phase (t_conn t) = CpBlocked) then t else on (put_phase CpStopped) t
  end.

Definition start (device : string) (clock : CaptureClock) (c : Connection) (ids : Z) : Turn :=
  let t := stop clock c ids in
  if bool_decide (c_phase (t_conn t) = CpBlocked) then t
  else open clock (on (λ c, put_next_retry RETRY_INITIAL_MS (put_device (Some device) c)) t).
End Connection.
