(* ===== verification/ReceiverConnectionCapture.v ===== *)
(** * Recording does not interfere

    Connections that differ only in what concerns the recording (the recorder, the progress
    noted when the owner was made, the checkpoint marks) are equivalent. Every operation
    respects the equivalence, so whether recording works changes neither what the owner
    sends, nor what it delivers, nor when it retries. *)

From Stdlib Require Import Strings.Byte.
From stdpp Require Import base list strings gmap.
From S2P Require Import Prelude ReceiverFraming ReceiverProtocol ReceiverCapture ReceiverConnection.

Local Open Scope Z_scope.

(** Reduces the field accesses of a turn and its connection. *)
Ltac turn_cbn :=
  cbn [t_conn t_ids t_out t_panicked on emit push_message retract set_ids panic effects out_messages
       put_recorder put_device put_active put_protocol put_status put_pending_write put_writes
       put_next_write_id put_connect_since put_receiving_since put_next_retry put_last_clock
       put_checkpoint put_phase put_fault put_last_receive put_reception count_stale
       c_setup c_recorder c_device c_active c_protocol c_status c_pending_write c_writes c_next_write_id
       c_queued_bytes c_connect_since_ms c_receiving_since_ms c_next_retry_ms c_last_clock_ms
       c_last_checkpoint_ms c_checkpoint_bytes st_phase c_phase begin no_output].

Section Erase.
Context (sha256 md5 : bytes → bytes) {Product : Type}
  (decode_product : Z → bytes → result decode_error Product) (observed : Product → Observed)
  {Build : Type} (setup_json : SetupMetadata Build → bytes) `{Recorder R}.
Abbreviation Connection := (@Connection Build R).
Abbreviation Turn := (@Turn Product Build R).

Definition erase_status (s : ConnectionStatus) : ConnectionStatus :=
  {| st_reception := st_reception s; st_phase := st_phase s; st_last_fault := st_last_fault s;
     st_last_receive_monotonic_ms := st_last_receive_monotonic_ms s; st_captured := progress_default;
     st_capture_failure := st_capture_failure s; st_decoded_messages := st_decoded_messages s;
     st_malformed_messages := st_malformed_messages s;
     st_ignored_stale_callbacks := st_ignored_stale_callbacks s |}.
Definition erase (c : Connection) : Connection :=
  put_checkpoint 0 0 (put_status (erase_status (c_status c))
    (put_recorder (CaptureStopped progress_default {| storage_full := false; detail := "" |}) c)).

#[export] Instance connection_equiv : Equiv Connection := λ c c', erase c = erase c'.
#[export] Instance turn_equiv : Equiv Turn := λ t t',
  t_conn t ≡ t_conn t' ∧ t_ids t = t_ids t' ∧ t_out t = t_out t' ∧ t_panicked t = t_panicked t'.
#[export] Instance connection_equivalence : Equivalence (≡@{Connection}).
Proof. split; unfold equiv, connection_equiv; congruence || (intros ???; congruence). Qed.
#[export] Instance turn_equivalence : Equivalence (≡@{Turn}).
Proof.
  split; unfold equiv, turn_equiv.
  - done.
  - intros t t' (? & ? & ? & ?). done.
  - intros t t' t'' (? & ? & ? & ?) (? & ? & ? & ?). split_and!; [by etrans|congruence..].
Qed.

(** What equivalent connections share. *)
Lemma equiv_fields (c c' : Connection) :
  c ≡ c' →
  c_setup c = c_setup c' ∧ c_device c = c_device c' ∧ c_active c = c_active c' ∧
  c_protocol c = c_protocol c' ∧ erase_status (c_status c) = erase_status (c_status c') ∧
  c_phase c = c_phase c' ∧
  c_pending_write c = c_pending_write c' ∧ c_writes c = c_writes c' ∧
  c_next_write_id c = c_next_write_id c' ∧ c_queued_bytes c = c_queued_bytes c' ∧
  c_connect_since_ms c = c_connect_since_ms c' ∧ c_receiving_since_ms c = c_receiving_since_ms c' ∧
  c_next_retry_ms c = c_next_retry_ms c' ∧ c_last_clock_ms c = c_last_clock_ms c'.
Proof.
  unfold equiv, connection_equiv. destruct c as [? ? ? ? ? s], c' as [? ? ? ? ? s']; destruct s, s'.
  unfold erase, erase_status. turn_cbn. intros [= ]. by subst.
Qed.

(** Operations on the connection that commute with erasing respect the equivalence. *)
Lemma on_respects (g : Connection → Connection) (t t' : Turn) :
  (∀ c, erase (g c) = g (erase c)) → t ≡ t' → on g t ≡ on g t'.
Proof.
  intros Hg (Hc & Hi & Ho & Hp). split_and!; try done. unfold equiv, connection_equiv in *.
  cbn [t_conn on]. by rewrite !Hg, Hc.
Qed.
(** Operations that touch only the recording are invisible. *)
Lemma on_invisible (g : Connection → Connection) (t : Turn) :
  (∀ c, erase (g c) = erase c) → on g t ≡ t.
Proof. intros Hg. split_and!; try done. apply Hg. Qed.

#[export] Instance emit_proper e : Proper ((≡@{Turn}) ==> (≡)) (emit e).
Proof. intros t t' (? & Hi & Ho & Hp). split_and!; try done. cbn. by rewrite Ho. Qed.
#[export] Instance push_proper m : Proper ((≡@{Turn}) ==> (≡)) (push_message m).
Proof. intros t t' (? & Hi & Ho & Hp). split_and!; try done. cbn. by rewrite Ho. Qed.
#[export] Instance retract_proper : Proper ((≡@{Turn}) ==> (≡)) retract.
Proof. intros t t' (? & Hi & Ho & Hp). split_and!; try done. cbn. by rewrite Ho. Qed.
#[export] Instance set_ids_proper n : Proper ((≡@{Turn}) ==> (≡)) (set_ids n).
Proof. by intros t t' (? & Hi & Ho & Hp). Qed.
#[export] Instance panic_proper : Proper ((≡@{Turn}) ==> (≡)) panic.
Proof. by intros t t' (? & Hi & Ho & Hp). Qed.

Lemma record_invisible k clk p (t : Turn) : record_event k clk p t ≡ t.
Proof. by apply on_invisible. Qed.
Lemma checkpoint_invisible clk (t : Turn) : owner_checkpoint clk t ≡ t.
Proof. by apply on_invisible. Qed.

Lemma if_due_invisible clk (t : Turn) : checkpoint_if_due clk t ≡ t.
Proof. unfold checkpoint_if_due. case_match; [apply checkpoint_invisible|done]. Qed.

#[export] Instance record_proper k clk p : Proper ((≡@{Turn}) ==> (≡)) (record_event k clk p).
Proof. intros t t' Ht. by rewrite !record_invisible. Qed.
#[export] Instance checkpoint_proper clk : Proper ((≡@{Turn}) ==> (≡)) (owner_checkpoint clk).
Proof. intros t t' Ht. by rewrite !checkpoint_invisible. Qed.

Lemma turn_fields (t t' : Turn) :
  t ≡ t' → t_conn t ≡ t_conn t' ∧ t_ids t = t_ids t' ∧ t_out t = t_out t' ∧ t_panicked t = t_panicked t'.
Proof. done. Qed.

(** Takes equivalent turns apart into the equations of what they share. *)
Ltac shared Ht :=
  let Hc := fresh "Hc" in
  pose proof (equiv_fields _ _ (proj1 Ht)) as Hc;
  destruct Hc as (Hsetup & Hdevice & Hactive & Hprotocol & Hstatus & Hphase & Hpending & Hwrites & Hnw
                  & Hqueued & Hsince & Hrecv & Hretry & Hclk).
#[export] Instance clear_proper : Proper ((≡@{Turn}) ==> (≡)) clear_connection.
Proof.
  intros t t' Ht. shared Ht. unfold clear_connection. rewrite Hactive.
  apply on_respects; [done|]. destruct (c_active (t_conn t')); by rewrite Ht.
Qed.

#[export] Instance disconnect_proper clk : Proper ((≡@{Turn}) ==> (≡)) (disconnect clk).
Proof.
  intros t t' Ht. shared Ht. unfold disconnect. rewrite Hactive.
  destruct (c_active (t_conn t')); by rewrite Ht.
Qed.

#[export] Instance fail_proper f clk : Proper ((≡@{Turn}) ==> (≡)) (owner_fail f clk).
Proof.
  intros t t' Ht. unfold owner_fail.
  set (u := disconnect clk _). set (u' := disconnect clk _).
  assert (u ≡ u') as Hu by (apply disconnect_proper, record_proper, on_respects; done).
  clearbody u u'. shared Hu. rewrite Hphase. apply retract_proper.
  case_bool_decide; [done|]. by apply on_respects.
Qed.

#[export] Instance block_proper f : Proper ((≡@{Turn}) ==> (≡)) (block f).
Proof.
  intros t t' Ht. unfold block. apply retract_proper, clear_proper.
  rewrite !(on_invisible (λ c, put_recorder _ c)) by done. by apply on_respects.
Qed.

Definition same_turn_flag (x y : Turn * bool) : Prop := x.1 ≡ y.1 ∧ x.2 = y.2.

Lemma clock_respects clk (t t' : Turn) : t ≡ t' → same_turn_flag (owner_clock clk t) (owner_clock clk t').
Proof.
  intros Ht. shared Ht. unfold owner_clock. rewrite Hclk. case_match; (split; [|done]); cbn [fst].
  - by rewrite Ht.
  - by apply on_respects.
Qed.

#[export] Instance dispatch_proper clk : Proper ((≡@{Turn}) ==> (≡)) (dispatch_write clk).
Proof.
  intros t t' Ht. shared Ht. unfold dispatch_write. rewrite Hpending, Hwrites.
  destruct (c_pending_write (t_conn t')); [done|]. destruct (c_writes (t_conn t')) as [|b l]; [done|].
  turn_cbn. rewrite Hnw. unfold record_event. turn_cbn. rewrite Hactive.
  destruct (c_active (t_conn t')); [apply emit_proper|apply panic_proper];
    (apply on_respects; [done|]; apply record_proper; by apply on_respects).
Qed.

Lemma enqueue_respects clk l (t t' : Turn) : t ≡ t' → same_turn_flag (enqueue clk l t) (enqueue clk l t').
Proof.
  revert t t'. induction l as [|b l IH]; intros t t' Ht; [done|]. cbn [enqueue]. shared Ht. rewrite Hqueued.
  case_match; [split; [cbn [fst]; by rewrite Ht|done]|]. apply IH. by apply on_respects.
Qed.

Lemma deliver_respects clk ms (t t' : Turn) :
  t ≡ t' → fold_left (deliver_message observed clk) ms t ≡ fold_left (deliver_message observed clk) ms t'.
Proof.
  revert t t'. induction ms as [|m ms IH]; intros t t' Ht; [done|]. cbn [fold_left]. apply IH.
  unfold deliver_message. apply push_proper. by apply on_respects.
Qed.

#[export] Instance protocol_output_proper b clk : Proper ((≡@{Turn}) ==> (≡)) (protocol_output observed b clk).
Proof.
  intros t t' Ht. shared Ht. unfold protocol_output. rewrite Hprotocol.
  destruct (c_protocol (t_conn t')) as [p|]; [|by rewrite Ht].
  set (u := if bool_decide _ then on _ _ else _). set (u' := if bool_decide _ then on _ (on _ t') else _).
  assert (u ≡ u') as Hu.
  { subst u u'. case_bool_decide; [apply on_respects; [intros c|]|]; [|by apply on_respects..].
    unfold note_receiving. by destruct (STABLE_CONNECTION_MS <=? _). }
  clearbody u u'. destruct (enqueue_respects clk (transmissions b) u u' Hu) as [He Hflag].
  destruct (enqueue clk (transmissions b) u) as [w f], (enqueue clk (transmissions b) u') as [w' f'].
  cbn [fst snd] in *. subst f'. destruct f; [|done].
  pose proof (dispatch_proper clk _ _ He) as Hd. destruct (equiv_fields _ _ (proj1 Hd)) as (_ & _ & Ha & _).
  rewrite Ha. case_match; [by apply deliver_respects|done].
Qed.

#[export] Instance open_proper clk : Proper ((≡@{Turn}) ==> (≡)) (open setup_json clk).
Proof.
  intros t t' Ht. shared Ht. pose proof Ht as (Hc & Hi & _). unfold open. rewrite Hi.
  destruct (checked_add u64_max (t_ids t') 1) as [n|]; [|by apply block_proper].
  set (u := on _ (owner_checkpoint _ _)). set (u' := on _ (owner_checkpoint _ _)).
  assert (u ≡ u') as Hu.
  { subst u u'. apply on_respects; [done|]. rewrite !checkpoint_invisible, !record_invisible. by rewrite Ht. }
  clearbody u u'. destruct (equiv_fields _ _ (proj1 Hu)) as (_ & Hd & _). rewrite Hd.
  destruct (c_device (t_conn u')); by rewrite Hu.
Qed.

Lemma result_respects r clk (t t' : Turn) :
  t ≡ t' → protocol_result observed r clk t ≡ protocol_result observed r clk t'.
Proof. intros Ht. unfold protocol_result. destruct r as [b|[reason]]; by rewrite Ht. Qed.

#[export] Instance tick_protocol_proper clk : Proper ((≡@{Turn}) ==> (≡)) (tick_protocol observed clk).
Proof.
  intros t t' Ht. shared Ht. unfold tick_protocol. rewrite Hpending, Hprotocol.
  destruct (c_pending_write (t_conn t')) as [w|]; [case_match; by rewrite Ht|].
  destruct (c_protocol (t_conn t')) as [p|]; [|done]. destruct (tick (monotonic_ms clk) p) as [r q].
  apply result_respects. by apply on_respects.
Qed.

#[export] Instance tick_proper clk : Proper ((≡@{Turn}) ==> (≡)) (owner_tick observed setup_json clk).
Proof.
  intros t t' Ht. shared Ht. unfold owner_tick. rewrite Hphase, Hsince.
  destruct (c_phase (t_conn t')); try case_match; by rewrite Ht.
Qed.

Lemma received_respects clk l (t t' : Turn) :
  t ≡ t' → fold_left (λ t chunk, record_event CkReceived clk chunk t) l t
           ≡ fold_left (λ t chunk, record_event CkReceived clk chunk t) l t'.
Proof. revert t t'. induction l as [|b l IH]; intros t t' Ht; [done|]. cbn. apply IH. by rewrite Ht. Qed.

#[export] Instance event_proper ent e clk :
  Proper ((≡@{Turn}) ==> (≡)) (handle_event sha256 md5 decode_product observed setup_json ent e clk).
Proof.
  intros t t' Ht. destruct e as [i|i b|i w|i r|]; cbn [handle_event].
  - shared Ht. unfold handle_connected. rewrite Hphase. case_match; [by rewrite Ht|].
    destruct (protocol_connect _ ent) as [x|[reason]].
    + apply protocol_output_proper, on_respects; [done|]. by rewrite Ht.
    + by rewrite Ht.
  - unfold handle_received. set (u := on _ _). set (u' := on _ _).
    assert (u ≡ u') as Hu by (apply on_respects; [done|]; by apply received_respects).
    clearbody u u'. shared Hu. rewrite Hprotocol. destruct (c_protocol (t_conn u')) as [p|]; [|by rewrite Hu].
    destruct (receive _ _ _ b _ p) as [r q]. apply result_respects. by apply on_respects.
  - shared Ht. unfold handle_written. rewrite Hpending. destruct (c_pending_write (t_conn t')); [|by rewrite Ht].
    case_match; [|by rewrite Ht]. apply dispatch_proper, on_respects; [done|]. by rewrite Ht.
  - by rewrite Ht.
  - by rewrite Ht.
Qed.

Lemma begin_equiv (c c' : Connection) ids : c ≡ c' → begin (Product := Product) c ids ≡ begin c' ids.
Proof. done. Qed.

Lemma update_respects ent e clk (c c' : Connection) ids :
  c ≡ c' → update sha256 md5 decode_product observed setup_json ent e clk c ids
           ≡ update sha256 md5 decode_product observed setup_json ent e clk c' ids.
Proof.
  intros Hc. pose proof (begin_equiv c c' ids Hc) as Ht. shared Ht. cbn [begin t_conn] in *. unfold update.
  rewrite Hactive. case_match.
  { set (u := on count_stale _). set (u' := on count_stale _).
    assert (u ≡ u') as Hu by by apply on_respects. clearbody u u'. destruct e; by rewrite Hu. }
  destruct (clock_respects clk _ _ Ht) as [Hu Hflag].
  destruct (owner_clock clk (begin c ids)) as [u f], (owner_clock clk (begin c' ids)) as [u' f'].
  cbn [fst snd] in *. subst f'. destruct f; [|done]. destruct (equiv_fields _ _ (proj1 Hu)) as (_ & _ & _ & _ & _ & Hph & _).
  rewrite Hph. pose proof (event_proper ent e clk _ _ Hu) as He.
  destruct (c_phase (t_conn u')); done || by rewrite !if_due_invisible.
Qed.

Lemma stop_respects clk (c c' : Connection) ids :
  c ≡ c' → stop (Product := Product) clk c ids ≡ stop clk c' ids.
Proof.
  intros Hc. unfold stop. destruct (clock_respects clk _ _ (begin_equiv c c' ids Hc)) as [Hu Hflag].
  destruct (owner_clock clk (begin c ids)) as [u f], (owner_clock clk (begin c' ids)) as [u' f'].
  cbn [fst snd] in *. subst f'. destruct f; [|done].
  assert (disconnect clk (on (put_device None) u) ≡ disconnect clk (on (put_device None) u')) as Hd
    by (apply disconnect_proper; by apply on_respects).
  destruct (equiv_fields _ _ (proj1 Hd)) as (_ & _ & _ & _ & _ & Hph & _). rewrite Hph.
  case_bool_decide; [done|]. by apply on_respects.
Qed.

Lemma start_respects device clk (c c' : Connection) ids :
  c ≡ c' → start (Product := Product) setup_json device clk c ids ≡ start setup_json device clk c' ids.
Proof.
  intros Hc. unfold start. pose proof (stop_respects clk c c' ids Hc) as Hs.
  destruct (equiv_fields _ _ (proj1 Hs)) as (_ & _ & _ & _ & _ & Hph & _). rewrite Hph.
  case_bool_decide; [done|]. apply open_proper. by apply on_respects.
Qed.

(** ** Runs *)

Inductive call :=
| CallStart (device : string) (clock : CaptureClock)
| CallStop (clock : CaptureClock)
| CallUpdate (entropy : option bytes) (e : Event) (clock : CaptureClock).

Definition perform (k : call) (c : Connection) (ids : Z) : Turn :=
  match k with
  | CallStart device clock => start setup_json device clock c ids
  | CallStop clock => stop clock c ids
  | CallUpdate entropy e clock => update sha256 md5 decode_product observed setup_json entropy e clock c ids
  end.

(** The outputs of a sequence of calls, and where they lead. *)
Fixpoint run_calls (ks : list call) (c : Connection) (ids : Z) : list (@Output Product) * Connection * Z :=
  match ks with
  | [] => ([], c, ids)
  | k :: ks =>
      let t := perform k c ids in
      let '(outs, c, ids) := run_calls ks (t_conn t) (t_ids t) in (t_out t :: outs, c, ids)
  end.

Lemma perform_respects k (c c' : Connection) ids : c ≡ c' → perform k c ids ≡ perform k c' ids.
Proof. destruct k; [apply start_respects|apply stop_respects|apply update_respects]. Qed.

Lemma run_respects ks (c c' : Connection) ids :
  c ≡ c' →
  (run_calls ks c ids).1.1 = (run_calls ks c' ids).1.1 ∧ (run_calls ks c ids).1.2 ≡ (run_calls ks c' ids).1.2 ∧
  (run_calls ks c ids).2 = (run_calls ks c' ids).2.
Proof.
  revert c c' ids. induction ks as [|k ks IH]; intros c c' ids Hc; [done|]. cbn [run_calls].
  destruct (perform_respects k c c' ids Hc) as (Hc1 & -> & -> & _).
  specialize (IH _ _ (t_ids (perform k c' ids)) Hc1).
  destruct (run_calls ks (t_conn (perform k c ids)) _) as [[o d] n],
    (run_calls ks (t_conn (perform k c' ids)) _) as [[o' d'] n'].
  cbn in *. destruct IH as (-> & ? & ->). done.
Qed.

(** Recording is diagnostic: whatever two recorders do (fail to open, fill the disk, fail
    later, report any progress), the same calls give the same effects and messages in the
    same order, and leave the owners in the same state but for the recording itself: same
    phase, same protocol, same queue, same next retry, same counters. *)
Theorem recording_independent build (r r' : result io_error R) clock ids ks :
  let '(outs, c, n) := run_calls ks (connection_new sha256 build r clock) ids in
  let '(outs', c', n') := run_calls ks (connection_new sha256 build r' clock) ids in
  outs = outs' ∧ n = n' ∧ c_phase c = c_phase c' ∧ c_active c = c_active c' ∧ c_protocol c = c_protocol c' ∧
  c_pending_write c = c_pending_write c' ∧ c_writes c = c_writes c' ∧ c_next_retry_ms c = c_next_retry_ms c' ∧
  erase_status (c_status c) = erase_status (c_status c').
Proof.
  destruct (run_respects ks (connection_new sha256 build r clock) (connection_new sha256 build r' clock) ids)
    as (Ho & Hc & Hn); [done|].
  destruct (run_calls ks (connection_new sha256 build r clock) ids) as [[o c] n],
    (run_calls ks (connection_new sha256 build r' clock) ids) as [[o' c'] n'].
  cbn [fst snd] in *. destruct (equiv_fields _ _ Hc) as (? & ? & ? & ? & ? & ? & ? & ? & ? & ? & ? & ? & ? & ?).
  by split_and!.
Qed.
End Erase.

(** ** What a working recorder holds *)

(** A recorder that keeps what it is given, in order. *)
#[export] Instance log_recorder : Recorder (list (CaptureKind * bytes)) := {|
  rec_record l kind _ payload := (Ok tt, l ++ [(kind, payload)]);
  rec_checkpoint l := (Ok tt, l);
  rec_progress l := {| written_records := len l; durable_records := len l; written_bytes := 0 |}
|}.

(** The bytes of the received chunks of a log. *)
Fixpoint received (l : list (CaptureKind * bytes)) : bytes :=
  match l with
  | [] => []
  | (CkReceived, b) :: l => b ++ received l
  | _ :: l => received l
  end.
Lemma received_app l l' : received (l ++ l') = received l ++ received l'.
Proof. induction l as [|[[] b] l IH]; cbn [app received]; rewrite ?IH, ?app_assoc; done. Qed.

Lemma chunks_fuel_concat {A} fuel n (l : list A) :
  (0 < n)%nat → (length l ≤ fuel)%nat → concat (chunks_fuel fuel n l) = l.
Proof.
  intros Hn. revert l. induction fuel as [|fuel IH]; intros l Hl; (destruct l as [|x l]; [done|]); [cbn in Hl; lia|].
  cbn [chunks_fuel concat]. rewrite IH; [apply take_drop|]. rewrite length_drop. cbn in *. lia.
Qed.
Lemma chunks_concat {A} n (l : list A) : 0 < n → concat (chunks n l) = l.
Proof. intros. apply chunks_fuel_concat; lia. Qed.

Section Log.
Context (sha256 md5 : bytes → bytes) {Product : Type}
  (decode_product : Z → bytes → result decode_error Product) (observed : Product → Observed)
  {Build : Type} (setup_json : SetupMetadata Build → bytes).
Abbreviation log := (list (CaptureKind * bytes)).
Abbreviation Connection := (@Connection Build log).
Abbreviation Turn := (@Turn Product Build log).

(** The records an effect must have. *)
Definition noted (setup : SetupMetadata Build) (new : log) (e : Effect) : Prop :=
  match e with
  | EfConnect i _ _ => (CkConnectionRequested, le_bytes 8 i) ∈ new ∧ (CkSetup, setup_json setup) ∈ new
  | EfWrite _ w b => (CkWriteRequested, le_bytes 8 w ++ b) ∈ new
  | EfClose _ => True
  end.

(** A turn that began with the log [l] has added records for its effects, and the bytes
    [rx] it was given. *)
Definition recorded (setup : SetupMetadata Build) (l : log) (rx : bytes) (t : Turn) : Prop :=
  ∃ new, c_recorder (t_conn t) = Recording (l ++ new) ∧ c_setup (t_conn t) = setup ∧ received new = rx ∧
         Forall (noted setup new) (effects (t_out t)).

Lemma noted_mono setup new new' e : noted setup new e → noted setup (new ++ new') e.
Proof. destruct e; cbn; rewrite ?elem_of_app; naive_solver. Qed.

Section Recorded.
Context (setup : SetupMetadata Build) (l : log) (rx : bytes).
Abbreviation recorded := (recorded setup l).

Lemma recorded_on g t :
  (∀ c, c_recorder (g c) = c_recorder c ∧ c_setup (g c) = c_setup c) → recorded rx t → recorded rx (on g t).
Proof.
  intros Hg (new & Hr & Hs & Hrx & He). exists new. destruct (Hg (t_conn t)) as [Hr' Hs'].
  cbn [t_conn t_out on]. by rewrite Hr', Hs'.
Qed.
Lemma recorded_record kind clk b t :
  recorded rx t → recorded (rx ++ received [(kind, b)]) (record_event kind clk b t).
Proof.
  intros (new & Hr & Hs & Hrx & He). exists (new ++ [(kind, b)]). unfold record_event. turn_cbn. rewrite Hr.
  cbn [capture_record rec_record log_recorder]. split_and!; [by rewrite app_assoc|done| |].
  - by rewrite received_app, Hrx.
  - eapply Forall_impl; [exact He|]. intros e. apply noted_mono.
Qed.
Lemma recorded_note kind clk b t :
  kind ≠ CkReceived → recorded rx t → recorded rx (record_event kind clk b t).
Proof. intros Hk Ht%(recorded_record kind clk b). destruct kind; try done; cbn in Ht; by rewrite app_nil_r in Ht. Qed.
Lemma recorded_checkpoint clk t : recorded rx t → recorded rx (owner_checkpoint clk t).
Proof.
  intros (new & Hr & Hs & Hrx & He). exists new. unfold owner_checkpoint. turn_cbn. rewrite Hr. done.
Qed.
Lemma recorded_retract t : recorded rx t → recorded rx (retract t).
Proof.
  intros (new & Hr & Hs & Hrx & He). exists new. split_and!; try done. cbn.
  apply Forall_forall. intros e [_ Hin]%list_elem_of_filter. by eapply Forall_forall in He.
Qed.
Lemma recorded_close i t : recorded rx t → recorded rx (emit (EfClose i) t).
Proof.
  intros (new & Hr & Hs & Hrx & He). exists new. split_and!; try done. cbn.
  apply Forall_app. split; [done|]. by repeat constructor.
Qed.

Lemma recorded_clear t : recorded rx t → recorded rx (clear_connection t).
Proof.
  intros Ht. unfold clear_connection. apply recorded_on; [done|].
  destruct (c_active (t_conn t)); [by apply recorded_close|done].
Qed.
Lemma recorded_disconnect clk t : recorded rx t → recorded rx (disconnect clk t).
Proof.
  intros Ht. unfold disconnect. apply recorded_clear.
  destruct (c_active (t_conn t)); [|done]. by apply recorded_checkpoint, recorded_note.
Qed.
Lemma recorded_fail f clk t : recorded rx t → recorded rx (owner_fail f clk t).
Proof.
  intros Ht. unfold owner_fail. apply recorded_retract. set (u := disconnect clk _).
  assert (recorded rx u) as Hu by (apply recorded_disconnect, recorded_note, recorded_on; done).
  clearbody u. destruct (bool_decide _); [done|]. by apply recorded_on.
Qed.
Lemma recorded_block f t : recorded rx t → recorded rx (block f t).
Proof.
  intros Ht. unfold block. apply recorded_retract, recorded_clear.
  apply (recorded_on (λ c, put_phase CpBlocked (put_fault (Some f) c))) in Ht; [|done].
  set (u := on (λ c, put_phase _ _) t) in *. clearbody u.
  destruct Ht as (new & Hr & Hs & Hrx & He). exists new. cbn in *. by rewrite Hr.
Qed.
Lemma recorded_clock clk t : recorded rx t → recorded rx (owner_clock clk t).1.
Proof.
  intros Ht. unfold owner_clock. destruct (_ <? _); cbn [fst]; [by apply recorded_block|by apply recorded_on].
Qed.

(** The last record made covers an effect. *)
Lemma recorded_emit kind clk b e g t :
  kind ≠ CkReceived → (∀ new, (kind, b) ∈ new → noted setup new e) →
  (∀ c, c_recorder (g c) = c_recorder c ∧ c_setup (g c) = c_setup c) →
  recorded rx t → recorded rx (emit e (on g (record_event kind clk b t))).
Proof.
  intros Hk Hn Hg (new & Hr & Hs & Hrx & He). exists (new ++ [(kind, b)]).
  destruct (Hg (t_conn (record_event kind clk b t))) as [Hr' Hs'].
  cbn [t_conn t_out on emit effects]. rewrite Hr', Hs'. unfold record_event. turn_cbn. rewrite Hr.
  cbn [capture_record rec_record log_recorder]. split_and!; [by rewrite app_assoc|done| |].
  - rewrite received_app, Hrx. destruct kind; try done; apply app_nil_r.
  - apply Forall_app. split; [eapply Forall_impl; [exact He|]; intros ?; apply noted_mono|].
    constructor; [|done]. apply Hn, elem_of_app. right. by apply list_elem_of_singleton.
Qed.

Lemma recorded_dispatch clk t : recorded rx t → recorded rx (dispatch_write clk t).
Proof.
  intros Ht. unfold dispatch_write. destruct (c_pending_write (t_conn t)); [done|].
  destruct (c_writes (t_conn t)) as [|b ws]; [done|].
  set (u := on (λ c, put_next_write_id _ _) t).
  assert (recorded rx u) as Hu by by apply recorded_on. clearbody u.
  destruct (c_active _); [by apply recorded_emit|].
  apply (recorded_note CkWriteRequested clk (le_bytes 8 (c_next_write_id (t_conn u)) ++ b)) in Hu; [|done].
  by apply (recorded_on (put_pending_write _)).
Qed.

Lemma recorded_enqueue clk bs t : recorded rx t → recorded rx (enqueue clk bs t).1.
Proof.
  revert t. induction bs as [|b bs IH]; intros t Ht; [done|]. cbn [enqueue].
  case_match; [by apply recorded_fail|]. apply IH. by apply recorded_on.
Qed.
Lemma recorded_deliver clk ms t : recorded rx t → recorded rx (fold_left (deliver_message observed clk) ms t).
Proof.
  revert t. induction ms as [|m ms IH]; intros t Ht; [done|]. cbn [fold_left]. apply IH.
  unfold deliver_message. apply (recorded_on (λ c, let s := c_status c in
    put_reception (observe observed m (monotonic_ms clk) (st_reception s))
      (st_decoded_messages s + if is_err (product m) then 0 else 1)
      (st_malformed_messages s + if is_err (product m) then 1 else 0) c)) in Ht; done.
Qed.
Lemma recorded_output b clk t : recorded rx t → recorded rx (protocol_output observed b clk t).
Proof.
  intros Ht. unfold protocol_output. destruct (c_protocol (t_conn t)) as [p|]; [|done].
  set (u := if bool_decide _ then on _ _ else _).
  assert (recorded rx u) as Hu.
  { subst u. case_bool_decide; [apply recorded_on|]; [|by apply recorded_on..].
    intros c. unfold note_receiving. by destruct (STABLE_CONNECTION_MS <=? _). }
  clearbody u. apply (recorded_enqueue clk (transmissions b)) in Hu.
  destruct (enqueue clk (transmissions b) u) as [w []]; [|done].
  apply (recorded_dispatch clk) in Hu. cbn [fst] in Hu. case_match; [by apply recorded_deliver|done].
Qed.
Lemma recorded_result r clk t : recorded rx t → recorded rx (protocol_result observed r clk t).
Proof. intros Ht. destruct r as [b|[reason]]; [by apply recorded_output|by apply recorded_fail]. Qed.

Lemma recorded_open clk t : recorded rx t → recorded rx (open setup_json clk t).
Proof.
  intros Ht. unfold open. destruct (checked_add u64_max (t_ids t) 1) as [n|]; [|by apply recorded_block].
  set (u := set_ids n t). assert (recorded rx u) as Hu by exact Ht. clearbody u.
  set (request := record_event CkConnectionRequested clk _ u).
  assert (c_setup (t_conn request) = setup ∧ ∃ new, c_recorder (t_conn request) = Recording (l ++ new) ∧
    received new = rx ∧ (CkConnectionRequested, le_bytes 8 (t_ids t)) ∈ new ∧
    Forall (noted setup new) (effects (t_out request))) as (Hs & new & Hr & Hrx & Hin & He).
  { destruct Hu as (new & Hr & Hs & Hrx & He). split; [done|].
    exists (new ++ [(CkConnectionRequested, le_bytes 8 (t_ids t))]). subst request. unfold record_event.
    turn_cbn. rewrite Hr. cbn [capture_record rec_record log_recorder]. split_and!.
    - by rewrite app_assoc.
    - rewrite received_app, Hrx. apply app_nil_r.
    - apply elem_of_app. right. by apply list_elem_of_singleton.
    - eapply Forall_impl; [exact He|]; intros ?; apply noted_mono. }
  clearbody request. rewrite Hs. set (meta := (CkSetup, setup_json setup)).
  assert (Forall (noted setup (new ++ [meta])) (effects (t_out request))) as He'
    by (eapply Forall_impl; [exact He|]; intros e; apply noted_mono).
  unfold record_event, owner_checkpoint. turn_cbn.
  destruct (c_device (t_conn request)); exists (new ++ [meta]); turn_cbn; rewrite Hr;
    (split_and!; [by rewrite app_assoc|done|rewrite received_app, Hrx; apply app_nil_r|]); [|done].
  apply Forall_app. split; [done|]. constructor; [|done]. cbn [noted]. rewrite !elem_of_app.
  split; [by left|right; by apply list_elem_of_singleton].
Qed.

Lemma recorded_tick clk t : recorded rx t → recorded rx (owner_tick observed setup_json clk t).
Proof.
  intros Ht. assert (recorded rx (tick_protocol observed clk t)) as Hp.
  { unfold tick_protocol. destruct (c_pending_write (t_conn t)); [case_match; [by apply recorded_fail|done]|].
    destruct (c_protocol (t_conn t)) as [p|]; [|done]. destruct (tick _ p) as [r q].
    apply recorded_result. by apply recorded_on. }
  unfold owner_tick. destruct (c_phase (t_conn t)); try done; (case_match; [|done]);
    [by apply recorded_fail|by apply recorded_open].
Qed.
End Recorded.

Lemma recorded_chunks setup l rx clk bs t :
  recorded setup l rx t →
  recorded setup l (rx ++ concat bs) (fold_left (λ t chunk, record_event CkReceived clk chunk t) bs t).
Proof.
  revert rx t. induction bs as [|b bs IH]; intros rx t Ht; cbn [fold_left concat]; [by rewrite app_nil_r|].
  apply (recorded_record setup l rx CkReceived clk b) in Ht. apply IH in Ht. cbn [received] in Ht.
  by rewrite app_nil_r, <- app_assoc in Ht.
Qed.

(** The bytes a call brings to the owner: those of a read of the active connection. *)
Definition brought (k : call) (c : Connection) : bytes :=
  match k with
  | CallUpdate _ (EvReceived i b) clock =>
      if bool_decide (c_active c = Some i) && (c_last_clock_ms c <=? monotonic_ms clock)
         && negb (bool_decide (c_phase c = CpBlocked)) && negb (bool_decide (c_phase c = CpStopped))
      then b else []
  | _ => []
  end.

Lemma recorded_event setup l ent e clk t :
  recorded setup l [] t →
  recorded setup l (match e with EvReceived _ b => b | _ => [] end)
    (handle_event sha256 md5 decode_product observed setup_json ent e clk t).
Proof.
  intros Ht. destruct e as [i|i b|i w|i r|]; cbn [handle_event].
  - unfold handle_connected. case_match; [by apply recorded_fail|].
    apply (recorded_note _ _ _ CkConnected clk []) in Ht; [|done].
    destruct (protocol_connect _ ent) as [x|[reason]]; [|by apply recorded_fail].
    apply recorded_output. by apply recorded_on.
  - unfold handle_received. apply (recorded_chunks _ _ _ clk (chunks MAX_CHUNK_BYTES b)) in Ht.
    rewrite chunks_concat in Ht by done. apply (recorded_on _ _ _ (put_last_receive (monotonic_ms clk))) in Ht; [|done].
    destruct (c_protocol _) as [p|]; [|by apply recorded_fail]. destruct (receive _ _ _ b _ p) as [r q].
    apply recorded_result. by apply recorded_on.
  - unfold handle_written. destruct (c_pending_write (t_conn t)); [|by apply recorded_fail].
    case_match; [|by apply recorded_fail]. apply recorded_dispatch, recorded_on; [done|]. by apply recorded_note.
  - by apply recorded_fail.
  - by apply recorded_tick.
Qed.

Lemma recorded_begin (c : Connection) l ids :
  c_recorder c = Recording l → recorded (c_setup c) l [] (begin c ids).
Proof. intros Hl. exists []. rewrite app_nil_r. by split_and!. Qed.

Lemma recorded_stop clk (c : Connection) l ids :
  c_recorder c = Recording l → recorded (c_setup c) l [] (stop clk c ids).
Proof.
  intros Hl. unfold stop. pose proof (recorded_clock _ _ _ clk _ (recorded_begin c l ids Hl)) as Ht.
  destruct (owner_clock clk (begin c ids)) as [t []]; cbn [fst] in Ht; [|done].
  assert (recorded (c_setup c) l [] (disconnect clk (on (put_device None) t))) as Hd
    by (apply recorded_disconnect; by apply recorded_on).
  case_bool_decide; [done|]. by apply recorded_on.
Qed.

Lemma recorded_update ent e clk (c : Connection) l ids :
  c_recorder c = Recording l →
  recorded (c_setup c) l (brought (CallUpdate ent e clk) c)
    (update sha256 md5 decode_product observed setup_json ent e clk c ids).
Proof.
  intros Hl. pose proof (recorded_begin c l ids Hl) as Ht. unfold update.
  destruct (bool_decide (is_Some (event_id e)) && _) eqn:Hstale.
  { apply andb_true_iff in Hstale as [_ Hstale%negb_true_iff%bool_decide_eq_false].
    apply (recorded_on _ _ _ count_stale) in Ht; [|done].
    destruct e; cbn [brought event_id] in *; try done; [by apply recorded_close|].
    by rewrite bool_decide_eq_false_2 by congruence. }
  assert (∀ i b, e = EvReceived i b → c_active c = Some i) as Hactive.
  { intros i b ->. cbn in Hstale. by apply negb_false_iff, bool_decide_eq_true in Hstale. }
  pose proof (recorded_clock _ _ _ clk _ Ht) as Hc. unfold owner_clock in *. cbn [begin t_conn] in *.
  destruct (Z.ltb_spec (monotonic_ms clk) (c_last_clock_ms c)) as [Hlt|Hge]; cbn [fst] in Hc.
  { destruct e; try done. cbn [brought]. by rewrite (proj2 (Z.leb_gt _ _)), andb_false_r by done. }
  set (t := on (put_last_clock (monotonic_ms clk)) _) in *.
  change (c_phase (t_conn t)) with (c_phase c). pose proof (recorded_event _ _ ent e clk t Hc) as He.
  assert (∀ rx u, recorded (c_setup c) l rx u → recorded (c_setup c) l rx (checkpoint_if_due clk u)) as Hdue.
  { intros rx u Hu. unfold checkpoint_if_due.
    destruct (checkpoint_due clk (t_conn u)); [by apply recorded_checkpoint|done]. }
  destruct e as [i|i b|i w|i r|]; cbn [brought] in *; [destruct (c_phase c); auto| |destruct (c_phase c); auto..].
  rewrite (bool_decide_eq_true_2 (c_active c = Some i)), (proj2 (Z.leb_le _ _)) by eauto.
  destruct (c_phase c) eqn:Hph; rewrite ?bool_decide_eq_true_2, ?(bool_decide_eq_false_2 (_ = _)) by done; cbn; auto.
Qed.

Lemma recorded_start device clk (c : Connection) l ids :
  c_recorder c = Recording l → recorded (c_setup c) l [] (start setup_json device clk c ids).
Proof.
  intros Hl. unfold start. pose proof (recorded_stop clk c l ids Hl) as Hs. case_bool_decide; [done|].
  apply recorded_open. by apply recorded_on.
Qed.

(** Everything is recorded before it happens: with a recorder that works, a call adds to
    the recording exactly the bytes it took from the active socket, in order, and a record
    for every effect it asks for: the bytes of each write with its id, and for each
    connection its id and the setup metadata. *)
Theorem connection_records k (c : Connection) l ids :
  c_recorder c = Recording l →
  let t := perform sha256 md5 decode_product observed setup_json k c ids in
  ∃ new, c_recorder (t_conn t) = Recording (l ++ new) ∧ received new = brought k c ∧
         Forall (noted (c_setup c) new) (effects (t_out t)).
Proof.
  intros Hl. assert (recorded (c_setup c) l (brought k c) (perform sha256 md5 decode_product observed setup_json k c ids))
    as (new & Hr & _ & Hrx & He).
  { destruct k; [by apply recorded_start|by apply recorded_stop|by apply recorded_update]. }
  by exists new.
Qed.
End Log.

(** ** Examples *)

Definition sample_clock (ms : Z) : CaptureClock := {| monotonic_ms := ms; wall_epoch_ms := 1000 + ms |}.
Definition sample_digest (b : bytes) : bytes := replicate 16 (default x00 (head b)).
Definition sample_json (s : SetupMetadata unit) : bytes := bs "{}".
Definition sample_perform : call → @Connection unit (list (CaptureKind * bytes)) → Z → @Turn Z unit _ :=
  perform sample_digest sample_digest (λ i _, Ok i) (λ _, ObservedOther) sample_json.
Definition sample_owner : @Connection unit (list (CaptureKind * bytes)) :=
  t_conn (sample_perform (CallStart "dev" (sample_clock 5))
    (connection_new sample_digest None (Ok []) (sample_clock 0)) 1).
Definition sample_live : @Connection unit (list (CaptureKind * bytes)) :=
  t_conn (sample_perform (CallUpdate (Some (replicate 16 x07)) (EvConnected 1) (sample_clock 6)) sample_owner 2).
Definition sample_log : list (CaptureKind * bytes) :=
  match c_recorder sample_live with Recording l => l | _ => [] end.

Lemma connection_records_witness :
  c_phase sample_live = CpProtocol Negotiating ∧ length sample_log = 4%nat ∧
  ∃ new, c_recorder (t_conn (sample_perform (CallUpdate None (EvReceived 1 (bs "noise")) (sample_clock 9)) sample_live 2))
         = Recording (sample_log ++ new) ∧ received new = bs "noise".
Proof.
  split; [vm_compute; reflexivity|]. split; [vm_compute; reflexivity|].
  destruct (connection_records sample_digest sample_digest (λ i _, Ok i) (λ _, ObservedOther) sample_json
    (CallUpdate None (EvReceived 1 (bs "noise")) (sample_clock 9)) sample_live sample_log 2)
    as (new & Hr & Hrx & _); [vm_compute; reflexivity|].
  exists new. split; [exact Hr|]. rewrite Hrx. vm_compute. reflexivity.
Defined.
