(* ===== verification/ReceiverConnectionCorrect.v ===== *)
(** * Correctness of the receiver connection

    The invariant of the connection's owner, kept by every call, and the contract it keeps
    with the adapter that executes its effects: one socket at a time, fresh ids, one write in
    flight, every socket closed. Then losing and regaining the receiver: callbacks of
    connections that are gone, when a connection is given up, how long the owner waits before
    the next attempt, and that a clock that runs backwards ends the owner's life. *)

From Stdlib Require Import Strings.Byte.
From stdpp Require Import base list strings gmap.
From S2P Require Import Prelude ReceiverFraming ReceiverProtocol ReceiverFramingCorrect ReceiverApplication.
From S2P Require Import ReceiverProtocolSteps ReceiverProtocolCorrect ReceiverCapture ReceiverConnection.
From S2P Require Import ReceiverConnectionCapture.

Local Open Scope Z_scope.

(** ** The adapter's view

    What the adapter knows: the open socket, the write in flight, a bound below which every
    connection id has been used, and the last write id. *)
Record view := { v_open : option Z; v_inflight : option Z; v_next : Z; v_written : Z }.

(** An effect the adapter may be asked for, and its view afterwards. A close of a socket that
    is not open discards a connection nobody waits for. *)
Definition apply_effect (v : view) (e : Effect) : option view :=
  match e with
  | EfConnect i _ uuid =>
      if bool_decide (v_open v = None) && (v_next v <=? i) && bool_decide (uuid = SERVICE_UUID)
      then Some {| v_open := Some i; v_inflight := None; v_next := i + 1; v_written := v_written v |}
      else None
  | EfClose i =>
      if bool_decide (v_open v = Some i)
      then Some {| v_open := None; v_inflight := None; v_next := v_next v; v_written := v_written v |}
      else Some v
  | EfWrite i w b =>
      if bool_decide (v_open v = Some i) && bool_decide (v_inflight v = None) && (w =? v_written v + 1)
         && (len b + 8 <=? MAX_CHUNK_BYTES)
      then Some {| v_open := v_open v; v_inflight := Some w; v_next := v_next v; v_written := w |}
      else None
  end.
Fixpoint apply_effects (v : view) (es : list Effect) : option view :=
  match es with
  | [] => Some v
  | e :: es => v ← apply_effect v e; apply_effects v es
  end.

Lemma apply_effects_app v es es' : apply_effects v (es ++ es') = v' ← apply_effects v es; apply_effects v' es'.
Proof.
  revert v. induction es as [|e es IH]; intros v; cbn [app apply_effects]; [done|].
  destruct (apply_effect v e); cbn; [apply IH|done].
Qed.

(** The adapter reports the end of the write in flight. *)
Definition event_view (e : Event) (v : view) : view :=
  match e with
  | EvWritten i w =>
      if bool_decide (v_open v = Some i) && bool_decide (v_inflight v = Some w)
      then {| v_open := v_open v; v_inflight := None; v_next := v_next v; v_written := v_written v |}
      else v
  | _ => v
  end.

Definition total (l : list bytes) : Z := foldr (λ b n, len b + n) 0 l.
Lemma total_app l l' : total (l ++ l') = total l + total l'.
Proof. induction l as [|b l IH]; cbn; [done|]. unfold total in *. lia. Qed.
Lemma queue_total_nonneg l : 0 ≤ total l.
Proof. induction l as [|b l IH]; cbn; [done|]. pose proof (len_nonneg b). unfold total in *. lia. Qed.

Section Owner.
Context (sha256 md5 : bytes → bytes) {Product : Type}
  (decode_product : Z → bytes → result decode_error Product) (observed : Product → Observed)
  {Build : Type} (setup_json : SetupMetadata Build → bytes) `{Recorder R}.
Abbreviation Connection := (@Connection Build R).
Abbreviation Turn := (@Turn Product Build R).
Abbreviation update := (update sha256 md5 decode_product observed setup_json).
Abbreviation start := (ReceiverConnection.start (Product := Product) setup_json).
Abbreviation stop := (stop (Product := Product)).

Definition view_of (c : Connection) (ids : Z) : view :=
  {| v_open := c_active c; v_inflight := pw_id <$> c_pending_write c; v_next := ids;
     v_written := c_next_write_id c |}.

(** ** Invariant *)

(** A protocol in use: reached from a handshake, not failed, not ahead of the owner's clock. *)
Record in_use (clock : Z) (p : Protocol) : Prop := {
  use_reached : connection sha256 md5 decode_product p;
  use_live : phase p ≠ Failed;
  use_clock : last_clock_ms p ≤ clock
}.

Definition running (ph : ConnectionPhase) : bool :=
  match ph with CpStopped | CpBlocked => false | _ => true end.

(** What failing the connection needs. *)
Record base_ok (c : Connection) (ids : Z) : Prop := {
  b_retry : RETRY_INITIAL_MS ≤ c_next_retry_ms c ≤ RETRY_MAX_MS;
  b_device : running (c_phase c) = true → is_Some (c_device c);
  b_ids : 1 ≤ ids;
  b_active : ∀ i, c_active c = Some i → 1 ≤ i < ids
}.

(** The write queue. *)
Record queue_ok (c : Connection) : Prop := {
  q_bytes : c_queued_bytes c = total (c_writes c);
  q_limit : c_queued_bytes c ≤ MAX_QUEUED_WRITE_BYTES;
  q_each : Forall (λ b, len b + 8 ≤ MAX_CHUNK_BYTES) (c_writes c);
  q_pending : ∀ w, c_pending_write c = Some w →
                pw_id w = c_next_write_id c ∧ pw_since_ms w ≤ c_last_clock_ms c
}.

(** The phase and what exists in it. *)
Definition shape_ok (c : Connection) : Prop :=
  match c_phase c with
  | CpConnecting => is_Some (c_active c) ∧ c_protocol c = None ∧ c_pending_write c = None
  | CpProtocol ph =>
      is_Some (c_active c) ∧ ∃ p, c_protocol c = Some p ∧ phase p = ph ∧ in_use (c_last_clock_ms c) p
  | _ => c_active c = None ∧ c_protocol c = None ∧ c_pending_write c = None
  end.

Record conn_ok (c : Connection) (ids : Z) : Prop := {
  ok_base : base_ok c ids;
  ok_queue : queue_ok c;
  ok_flow : c_pending_write c = None → c_writes c = [];
  ok_shape : shape_ok c;
  ok_since : ∀ s, c_receiving_since_ms c = Some s →
               s ≤ c_last_clock_ms c ∧ ∃ ph, c_phase c = CpProtocol ph
}.

Lemma connection_new_ok build recorder clock ids :
  1 ≤ ids → conn_ok (connection_new sha256 build recorder clock) ids.
Proof. intros Hids. split; [split|split| |split|]; cbn; try done; lia. Qed.

(** A turn that keeps the contract with an adapter that had the view [v]. *)
Record turn_ok (v : view) (t : Turn) : Prop := {
  t_ok : conn_ok (t_conn t) (t_ids t);
  t_calm : t_panicked t = false;
  t_receiving : out_messages (t_out t) ≠ [] → c_phase (t_conn t) = CpProtocol Receiving;
  t_view : apply_effects v (effects (t_out t)) = Some (view_of (t_conn t) (t_ids t))
}.
(** What a turn needs to fail the connection: nothing but closes were asked for. *)
Record failable (v : view) (t : Turn) : Prop := {
  f_base : base_ok (t_conn t) (t_ids t);
  f_calm : t_panicked t = false;
  f_quiet : c_active (t_conn t) = None → c_pending_write (t_conn t) = None;
  f_closes : Forall (λ e, is_close e = true) (effects (t_out t));
  f_view : apply_effects v (effects (t_out t)) = Some (view_of (t_conn t) (t_ids t))
}.

Lemma filter_closes (es : list Effect) :
  Forall (λ e, is_close e = true) es → filter (λ e, is_close e = true) es = es.
Proof. induction 1 as [|e es He Hes IH]; [done|]. rewrite filter_cons_True by done. by rewrite IH. Qed.

(** Closing the open socket, as [clear_connection] asks. *)
Definition close_effects (c : Connection) : list Effect :=
  match c_active c with Some i => [EfClose i] | None => [] end.

Definition cleared (c : Connection) : Connection :=
  put_receiving_since None (put_writes [] 0 (put_pending_write None (put_protocol None (put_active None c)))).

Lemma clear_connection_run (t : Turn) :
  clear_connection t =
    {| t_conn := cleared (t_conn t); t_ids := t_ids t;
       t_out := {| effects := effects (t_out t) ++ close_effects (t_conn t);
                   out_messages := out_messages (t_out t) |};
       t_panicked := t_panicked t |}.
Proof.
  unfold clear_connection, close_effects. destruct t as [c ids [es ms] pk]. turn_cbn.
  destruct (c_active c); turn_cbn; [done|]. by rewrite app_nil_r.
Qed.

(** ** The invariant and the equivalence *)

Lemma base_ok_equiv c c' ids : c ≡ c' → base_ok c ids → base_ok c' ids.
Proof.
  intros (? & Hd & Ha & ? & ? & Hph & ? & ? & ? & ? & ? & ? & Hr & ?)%equiv_fields [??? Hact].
  split; rewrite <- ?Hr, <- ?Hd, <- ?Ha, <- ?Hph; done.
Qed.
Lemma conn_ok_equiv c c' ids : c ≡ c' → conn_ok c ids → conn_ok c' ids.
Proof.
  intros Hc [Hb [Hq1 Hq2 Hq3 Hq4] Hf Hs Hr]. split; [by eapply base_ok_equiv|split|..]; unfold shape_ok in *;
    apply equiv_fields in Hc as (? & ? & Ha & Hp & ? & Hph & Hpw & Hw & Hn & Hq & ? & Hrs & ? & Hcl);
    rewrite <- ?Ha, <- ?Hp, <- ?Hph, <- ?Hpw, <- ?Hw, <- ?Hn, <- ?Hq, <- ?Hrs, <- ?Hcl; done.
Qed.
Lemma view_of_equiv c c' ids : c ≡ c' → view_of c ids = view_of c' ids.
Proof.
  intros (? & ? & Ha & ? & ? & ? & Hpw & ? & Hn & ?)%equiv_fields. unfold view_of. by rewrite Ha, Hpw, Hn.
Qed.

#[export] Instance turn_ok_proper v : Proper ((≡@{Turn}) ==> iff) (turn_ok v).
Proof.
  assert (∀ t t' : Turn, t ≡ t' → turn_ok v t → turn_ok v t') as Himp.
  { intros t t' (Hc & Hi & Ho & Hp) [Hok Hcalm Hm Hv]. split.
    - rewrite <- Hi. by eapply conn_ok_equiv.
    - by rewrite <- Hp.
    - destruct (equiv_fields _ _ Hc) as (_ & _ & _ & _ & _ & <- & _). by rewrite <- Ho.
    - by rewrite <- Ho, <- Hi, Hv, (view_of_equiv _ _ _ Hc). }
  intros t t' Ht. split; [by apply Himp|]. apply Himp. by symmetry.
Qed.
#[export] Instance failable_proper v : Proper ((≡@{Turn}) ==> iff) (failable v).
Proof.
  assert (∀ t t' : Turn, t ≡ t' → failable v t → failable v t') as Himp.
  { intros t t' (Hc & Hi & Ho & Hp) [Hb Hcalm Hq Hcl Hv]. split.
    - rewrite <- Hi. by eapply base_ok_equiv.
    - by rewrite <- Hp.
    - apply equiv_fields in Hc as (? & ? & Ha & ? & ? & ? & Hpw & _). by rewrite <- Ha, <- Hpw.
    - by rewrite <- Ho.
    - by rewrite <- Ho, <- Hi, Hv, (view_of_equiv _ _ _ Hc). }
  intros t t' Ht. split; [by apply Himp|]. apply Himp. by symmetry.
Qed.

(** ** Losing the connection *)

Lemma disconnect_equiv clk (t : Turn) : disconnect clk t ≡ clear_connection t.
Proof.
  unfold disconnect. destruct (c_active (t_conn t)); [|done].
  apply clear_proper. etrans; [apply checkpoint_invisible|apply record_invisible].
Qed.

Definition retry_later (clk : CaptureClock) (c : Connection) : Connection :=
  put_next_retry (Z.min (c_next_retry_ms c * 2) RETRY_MAX_MS)
    (put_phase (CpWaitingToRetry (saturating_add u64_max (monotonic_ms clk) (c_next_retry_ms c))) c).

Lemma cleared_view v (t : Turn) :
  (c_active (t_conn t) = None → c_pending_write (t_conn t) = None) →
  apply_effects v (effects (t_out t)) = Some (view_of (t_conn t) (t_ids t)) →
  apply_effects v (effects (t_out t) ++ close_effects (t_conn t)) = Some (view_of (cleared (t_conn t)) (t_ids t)).
Proof.
  intros Hq Hv. rewrite apply_effects_app, Hv. cbn [mbind option_bind]. unfold close_effects, view_of.
  turn_cbn. destruct (c_active (t_conn t)) as [i|]; cbn [apply_effects apply_effect v_open].
  - rewrite bool_decide_eq_true_2 by done. done.
  - by rewrite Hq.
Qed.

(** The turn after [fail] and [block], the recording aside. *)
Definition lost (g : Connection → Connection) (t : Turn) : Turn :=
  {| t_conn := g (cleared (t_conn t)); t_ids := t_ids t;
     t_out := {| effects := effects (t_out t) ++ close_effects (t_conn t); out_messages := [] |};
     t_panicked := t_panicked t |}.

Lemma closes_app (t : Turn) :
  Forall (λ e, is_close e = true) (effects (t_out t)) →
  Forall (λ e, is_close e = true) (effects (t_out t) ++ close_effects (t_conn t)).
Proof.
  intros Hc. apply Forall_app. split; [done|]. unfold close_effects. destruct (c_active (t_conn t)); by repeat constructor.
Qed.

Lemma fail_equiv f clk (t : Turn) :
  Forall (λ e, is_close e = true) (effects (t_out t)) → c_phase (t_conn t) ≠ CpBlocked →
  owner_fail f clk t ≡ lost (λ c, retry_later clk (put_fault (Some f) c)) t.
Proof.
  intros Hcl Hph. unfold owner_fail. set (u := on (put_fault (Some f)) t).
  assert (disconnect clk (record_event CkDiagnostic clk (bs (fault_description f)) u) ≡ clear_connection u) as Hd
    by (etrans; [apply disconnect_equiv|apply clear_proper, record_invisible]).
  set (w := disconnect clk _) in *. clearbody w.
  assert (c_phase (t_conn w) = c_phase (t_conn t)) as Hphw.
  { destruct (equiv_fields _ _ (proj1 Hd)) as (_ & _ & _ & _ & _ & -> & _). by rewrite clear_connection_run. }
  rewrite bool_decide_eq_false_2 by congruence.
  transitivity (retract (on (retry_later clk) (clear_connection u))).
  { apply retract_proper. by apply on_respects. }
  rewrite clear_connection_run. subst u. unfold retract, lost. turn_cbn.
  change (close_effects (put_fault (Some f) (t_conn t))) with (close_effects (t_conn t)).
  rewrite filter_closes by by apply closes_app. done.
Qed.

Lemma block_equiv f (t : Turn) :
  Forall (λ e, is_close e = true) (effects (t_out t)) →
  block f t ≡ lost (λ c, put_phase CpBlocked (put_fault (Some f) c)) t.
Proof.
  intros Hcl. unfold block.
  transitivity (retract (clear_connection (on (λ c, put_phase CpBlocked (put_fault (Some f) c)) t))).
  { by apply retract_proper, clear_proper, on_invisible. }
  rewrite clear_connection_run. unfold retract, lost. turn_cbn.
  change (close_effects (put_phase CpBlocked (put_fault (Some f) (t_conn t)))) with (close_effects (t_conn t)).
  rewrite filter_closes by by apply closes_app. done.
Qed.

Lemma lost_ok v (t : Turn) g :
  t_panicked t = false → (c_active (t_conn t) = None → c_pending_write (t_conn t) = None) →
  apply_effects v (effects (t_out t)) = Some (view_of (t_conn t) (t_ids t)) →
  conn_ok (g (cleared (t_conn t))) (t_ids t) →
  view_of (g (cleared (t_conn t))) (t_ids t) = view_of (cleared (t_conn t)) (t_ids t) →
  turn_ok v (lost g t).
Proof.
  intros Hk Hq Hv Hok Hview. split; cbn [lost t_conn t_ids t_out t_panicked effects out_messages]; try done.
  by rewrite cleared_view, Hview.
Qed.

Lemma fail_turn_ok f clk v (t : Turn) :
  failable v t → running (c_phase (t_conn t)) = true → turn_ok v (owner_fail f clk t).
Proof.
  intros Hf Hrun. rewrite fail_equiv; [|apply (f_closes _ _ Hf)|by intros Hb; rewrite Hb in Hrun].
  apply lost_ok; [apply Hf..| |done]. destruct (f_base _ _ Hf) as [Hr Hd Hi Ha].
  split; [split|split| |split|]; unfold retry_later, cleared; turn_cbn; try done; [|by eauto].
  unfold RETRY_MAX_MS, RETRY_INITIAL_MS in *. lia.
Qed.

Lemma block_turn_ok f v (t : Turn) : failable v t → turn_ok v (block f t).
Proof.
  intros Hf. rewrite block_equiv by apply (f_closes _ _ Hf). apply lost_ok; [apply Hf..| |done].
  destruct (f_base _ _ Hf) as [Hr Hd Hi Ha]. split; [split|split| |split|]; unfold cleared; turn_cbn; done.
Qed.

(** ** Starting a turn *)

Lemma idle_pending c ids : conn_ok c ids → c_active c = None → c_pending_write c = None.
Proof.
  intros Hok Ha. pose proof (ok_shape _ _ Hok) as Hs. unfold shape_ok in Hs.
  destruct (c_phase c); destruct Hs as (Hs & ?); try naive_solver; rewrite Ha in Hs; by destruct Hs.
Qed.

Lemma begin_failable c ids : conn_ok c ids → failable (view_of c ids) (begin c ids).
Proof.
  intros Hok. split; turn_cbn; try done; [apply Hok|by eapply idle_pending].
Qed.
Lemma begin_ok c ids : conn_ok c ids → turn_ok (view_of c ids) (begin c ids).
Proof. intros Hok. by split. Qed.

Lemma in_use_later clock clock' p : in_use clock p → clock ≤ clock' → in_use clock' p.
Proof. intros [? ? ?] ?. split; [done|done|lia]. Qed.

Lemma conn_ok_clock c ids now : conn_ok c ids → c_last_clock_ms c ≤ now → conn_ok (put_last_clock now c) ids.
Proof.
  intros [Hb [Hq1 Hq2 Hq3 Hq4] Hf Hs Hr] Hnow. split; [|split| | |]; turn_cbn; try done.
  - by destruct Hb.
  - intros w Hw. destruct (Hq4 w Hw). split; [done|lia].
  - unfold shape_ok in *. turn_cbn. change (c_phase (put_last_clock now c)) with (c_phase c).
    destruct (c_phase c); try done. destruct Hs as (? & q & ? & ? & ?). split; [done|].
    exists q. split_and!; [done|done|by eapply in_use_later].
  - intros s Hrs. destruct (Hr s Hrs). split; [lia|done].
Qed.

Lemma clock_turn_ok clk c ids :
  conn_ok c ids →
  match owner_clock clk (begin (Product := Product) c ids) with
  | (t, false) => turn_ok (view_of c ids) t ∧ c_phase (t_conn t) = CpBlocked ∧ monotonic_ms clk < c_last_clock_ms c
  | (t, true) => t = begin (put_last_clock (monotonic_ms clk) c) ids ∧ c_last_clock_ms c ≤ monotonic_ms clk ∧
                 conn_ok (put_last_clock (monotonic_ms clk) c) ids
  end.
Proof.
  intros Hok. unfold owner_clock. turn_cbn.
  destruct (Z.ltb_spec (monotonic_ms clk) (c_last_clock_ms c)) as [Hlt|Hge].
  - split_and!; [by apply block_turn_ok, begin_failable| |done].
    pose proof (block_equiv ClockRegressed (begin (Product := Product) c ids) (Forall_nil_2 _)) as Hb.
    by destruct (equiv_fields _ _ (proj1 Hb)) as (_ & _ & _ & _ & _ & -> & _).
  - split_and!; [done|done|by apply conn_ok_clock].
Qed.

(** ** A live protocol *)

(** A turn in the middle of handling the protocol's output: writes may be queued with none
    in flight. *)
Record live (v : view) (now : Z) (p : Protocol) (t : Turn) : Prop := {
  l_base : base_ok (t_conn t) (t_ids t);
  l_queue : queue_ok (t_conn t);
  l_clock : c_last_clock_ms (t_conn t) = now;
  l_active : is_Some (c_active (t_conn t));
  l_protocol : c_protocol (t_conn t) = Some p;
  l_use : in_use now p;
  l_phase : c_phase (t_conn t) = CpProtocol (phase p);
  l_since : ∀ s, c_receiving_since_ms (t_conn t) = Some s → s ≤ now;
  l_calm : t_panicked t = false;
  l_messages : out_messages (t_out t) = [];
  l_view : apply_effects v (effects (t_out t)) = Some (view_of (t_conn t) (t_ids t))
}.

Lemma live_failable v now p (t : Turn) : live v now p t → effects (t_out t) = [] → failable v t.
Proof.
  intros Hl He. destruct Hl as [Hb Hq Hc [i Ha] Hp Hu Hph Hs Hk Hm Hv].
  split; try done; [by rewrite Ha|by rewrite He].
Qed.

Lemma live_ok v now p (t : Turn) :
  live v now p t → (c_pending_write (t_conn t) = None → c_writes (t_conn t) = []) → turn_ok v t.
Proof.
  intros [Hb Hq Hc Ha Hp Hu Hph Hs Hk Hm Hv] Hflow. split; try done.
  split; try done.
  - unfold shape_ok. rewrite Hph. split; [done|]. exists p. by rewrite Hc.
  - intros s Hrs. rewrite Hc, Hph. split; [by apply Hs|by eexists].
Qed.

Lemma dispatch_live v clk p (t : Turn) :
  live v (monotonic_ms clk) p t →
  turn_ok v (dispatch_write clk t) ∧ c_phase (t_conn (dispatch_write clk t)) = CpProtocol (phase p) ∧
  c_active (t_conn (dispatch_write clk t)) = c_active (t_conn t) ∧
  out_messages (t_out (dispatch_write clk t)) = [].
Proof.
  intros Hl. unfold dispatch_write.
  destruct (c_pending_write (t_conn t)) as [w|] eqn:Hpw.
  { split_and!; [|apply Hl|done|apply Hl]. eapply live_ok; [done|]. by rewrite Hpw. }
  destruct (c_writes (t_conn t)) as [|b ws] eqn:Hws.
  { split_and!; [|apply Hl|done|apply Hl]. by eapply live_ok. }
  destruct Hl as [Hb [Hq1 Hq2 Hq3 Hq4] Hc [i Ha] Hp Hu Hph Hs Hk Hm Hv].
  rewrite Hws in Hq1, Hq3. apply Forall_cons in Hq3 as [Hq3 Hq3'].
  unfold record_event. turn_cbn. rewrite Ha. split_and!; try done.
  pose proof (queue_total_nonneg ws). pose proof (len_nonneg b). cbn [total foldr] in Hq1. fold (total ws) in Hq1.
  split; turn_cbn; try done.
  - split; [|split| | |]; turn_cbn; try done; try lia.
    + destruct Hb. by split.
    + intros w [= <-]. cbn. split; [done|lia].
    + unfold shape_ok. change (c_phase _) with (c_phase (t_conn t)). rewrite Hph. turn_cbn. rewrite Ha.
      split; [done|]. exists p. by rewrite Hc.
    + intros s Hrs. rewrite Hc. split; [by apply Hs|by exists (phase p)].
  - rewrite apply_effects_app, Hv. cbn [mbind option_bind apply_effects apply_effect view_of v_open v_inflight v_written].
    rewrite Ha, Hpw, !bool_decide_eq_true_2, Z.eqb_refl, (proj2 (Z.leb_le _ _)) by done.
    cbn [andb mbind option_bind]. unfold view_of. turn_cbn. by rewrite Ha.
Qed.

Lemma enqueue_live v clk p l (t : Turn) :
  live v (monotonic_ms clk) p t → effects (t_out t) = [] →
  match enqueue clk l t with
  | (t', true) => live v (monotonic_ms clk) p t'
  | (t', false) => turn_ok v t'
  end.
Proof.
  revert t. induction l as [|b l IH]; intros t Hl He; cbn [enqueue]; [done|].
  destruct (_ || _) eqn:Hfull.
  { apply fail_turn_ok; [by eapply live_failable|]. by rewrite (l_phase _ _ _ _ Hl). }
  apply orb_false_iff in Hfull as [Hchunk%Z.ltb_ge Hroom%Z.ltb_ge].
  apply IH; [|done]. destruct Hl as [Hb [Hq1 Hq2 Hq3 Hq4] Hc Ha Hp Hu Hph Hs Hk Hm Hv].
  split; [by destruct Hb; split|split|..]; turn_cbn; try done.
  - rewrite total_app. cbn. lia.
  - unfold saturating_add, usize_max, u64_max, MAX_QUEUED_WRITE_BYTES in *. lia.
  - apply Forall_app. split; [done|]. by repeat constructor.
Qed.

(** Delivering messages touches the counters and the output. *)
Lemma deliver_ok v clk ms (t : Turn) :
  turn_ok v t → c_phase (t_conn t) = CpProtocol Receiving →
  turn_ok v (fold_left (deliver_message observed clk) ms t).
Proof.
  revert t. induction ms as [|m ms IH]; intros t Ht Hph; [done|]. cbn [fold_left]. apply IH; [|done].
  destruct Ht as [Hok Hk Hm Hv]. unfold deliver_message. split; turn_cbn; try done.
  destruct Hok as [[? ? ? ?] [? ? ? ?] Hf Hs Hr]. split; [split|split|..]; turn_cbn; try done.
Qed.

Lemma note_receiving_live v clk p (t : Turn) :
  live v (monotonic_ms clk) p t → live v (monotonic_ms clk) p (on (note_receiving clk) t).
Proof.
  intros [[Hb1 Hb2 Hb3 Hb4] [Hq1 Hq2 Hq3 Hq4] Hc Ha Hp Hu Hph Hs Hk Hm Hv].
  assert (default (monotonic_ms clk) (c_receiving_since_ms (t_conn t)) ≤ monotonic_ms clk) as Hdef.
  { destruct (c_receiving_since_ms (t_conn t)) eqn:E; cbn; [by apply Hs|done]. }
  unfold note_receiving, on.
  destruct (STABLE_CONNECTION_MS <=? saturating_sub (monotonic_ms clk) (default (monotonic_ms clk) (c_receiving_since_ms (t_conn t))));
    (split; [split|split|..]; turn_cbn; try done);
    by intros s [= <-].
Qed.

Lemma output_live v clk p b (t : Turn) :
  failable v t → effects (t_out t) = [] → out_messages (t_out t) = [] → queue_ok (t_conn t) →
  c_last_clock_ms (t_conn t) = monotonic_ms clk → is_Some (c_active (t_conn t)) →
  c_protocol (t_conn t) = Some p → in_use (monotonic_ms clk) p → running (c_phase (t_conn t)) = true →
  (∀ s, c_receiving_since_ms (t_conn t) = Some s → s ≤ monotonic_ms clk) →
  (messages b ≠ [] → phase p = Receiving) →
  turn_ok v (protocol_output observed b clk t).
Proof.
  intros [[Hb1 Hb2 Hb3 Hb4] Hk Hquiet Hcl Hv] He Hm Hq Hc Ha Hp Hu Hrun Hs Hmsg. unfold protocol_output. rewrite Hp.
  set (u := if bool_decide _ then on _ _ else _).
  assert (live v (monotonic_ms clk) p u ∧ effects (t_out u) = []) as [Hl Heu].
  { assert (live v (monotonic_ms clk) p (on (put_phase (CpProtocol (phase p))) t)) as Hl.
    { destruct Hq. split; [split|split|..]; turn_cbn; try done. intros _. by apply Hb2. }
    subst u. case_bool_decide; [|done]. split; [by apply note_receiving_live|done]. }
  clearbody u. pose proof (enqueue_live v clk p (transmissions b) u Hl Heu) as Hen.
  destruct (enqueue clk (transmissions b) u) as [w []]; [|done].
  destruct (dispatch_live v clk p w Hen) as (Hd & Hph & Hact & Hnone).
  destruct (c_active (t_conn (dispatch_write clk w))); [|done].
  destruct (messages b) as [|m ms] eqn:Hmb; [done|]. apply deliver_ok; [done|].
  rewrite Hph. f_equal. by apply Hmsg.
Qed.

(** ** What the protocol's calls return *)

Lemma receive_in_use clock now input p out p' :
  in_use clock p → receive sha256 md5 decode_product input now p = (Ok out, p') →
  in_use now p' ∧ (messages out ≠ [] → phase p' = Receiving).
Proof.
  intros [Hr Hl Hc] Hrun. pose proof (connection_ok _ _ _ _ Hr) as Hok.
  pose proof (receive_spec sha256 md5 decode_product input now p Hok) as Hs. rewrite Hrun in Hs.
  destruct Hs as (_ & Hle & Hsteps).
  destruct (receive_advanced _ _ _ _ _ _ _ _ Hok Hrun) as [_ _ Hf _ Hm]. cbn in Hf, Hm.
  assert (ok_at (Product := Product) md5 now (ReceiverProtocolCorrect.start (set_clock now p))) as Hat by (split; [by apply set_clock_ok|done]).
  destruct (steps_ok _ _ _ _ _ Hat Hsteps) as [_ Hclk]. cbn in Hclk.
  split; [split|naive_solver].
  - pose proof (conn_receive _ _ _ input now p Hr) as Hreach. by rewrite Hrun in Hreach.
  - by intros ?%Hf.
  - lia.
Qed.

Lemma tick_in_use now p out p' :
  in_use now p → tick (Product := Product) now p = (Ok out, p') → in_use now p' ∧ messages out = [].
Proof.
  intros [Hr Hl Hc] Hrun. pose proof (tick_spec (Product := Product) md5 now p (connection_ok _ _ _ _ Hr) Hl Hc) as Hs.
  rewrite Hrun in Hs. destruct Hs as (_ & Hm & Hs). split; [|done]. split.
  - pose proof (conn_tick _ _ _ now p Hr) as Hreach. by rewrite Hrun in Hreach.
  - destruct (due now p); [by destruct Hs as (_ & _ & ->)|by destruct Hs as [_ ->]].
  - destruct (due now p); [by destruct Hs as (_ & _ & ->)|by destruct Hs as [_ ->]].
Qed.

Lemma connect_in_use now ent x :
  protocol_connect (Product := Product) now ent = Ok x → in_use now (self x) ∧ messages (output x) = [].
Proof.
  intros Hx. unfold protocol_connect in Hx. apply bind_Ok in Hx as (n & _ & Hx).
  assert (phase (self x) = Negotiating ∧ last_clock_ms (self x) = now ∧ messages (output x) = []) as (Hph & Hc & Hm).
  { unfold with_nonce in Hx. vm_compute in Hx. injection Hx as <-. done. }
  split; [split|done]; [by eapply conn_new|by rewrite Hph|lia].
Qed.

(** ** Opening *)

Lemma open_ok clk v (t : Turn) :
  turn_ok v t → c_active (t_conn t) = None → is_Some (c_device (t_conn t)) →
  Forall (λ e, is_close e = true) (effects (t_out t)) → out_messages (t_out t) = [] →
  c_protocol (t_conn t) = None → c_receiving_since_ms (t_conn t) = None →
  turn_ok v (open setup_json clk t).
Proof.
  intros [Hok Hk Hm Hv] Ha [d Hd] Hcl Hnone Hp Hrs. pose proof (idle_pending _ _ Hok Ha) as Hpw.
  destruct Hok as [[Hb1 Hb2 Hb3 Hb4] [Hq1 Hq2 Hq3 Hq4] Hf Hs Hr]. unfold open.
  destruct (checked_add u64_max (t_ids t) 1) as [n|] eqn:Hn.
  - apply checked_add_Some in Hn as [-> Hmax]. unfold record_event, owner_checkpoint. turn_cbn. rewrite Hd.
    split; turn_cbn; try done.
    + split; [split|split|..]; unfold shape_ok; turn_cbn; try done; [lia| |by rewrite Hrs].
      intros i [= <-]. lia.
    + rewrite apply_effects_app, Hv. cbn [mbind option_bind apply_effects apply_effect view_of v_open v_next].
      rewrite Ha, !bool_decide_eq_true_2, Z.leb_refl by done. cbn [andb mbind option_bind]. unfold view_of. turn_cbn.
      by rewrite Hpw.
  - by apply block_turn_ok.
Qed.

(** ** Events *)

Lemma shape_protocol c ids p :
  conn_ok c ids → c_protocol c = Some p →
  in_use (c_last_clock_ms c) p ∧ is_Some (c_active c) ∧ c_phase c = CpProtocol (phase p).
Proof.
  intros Hok Hp. pose proof (ok_shape _ _ Hok) as Hs. unfold shape_ok in Hs.
  destruct (c_phase c); try (destruct Hs as (_ & Hs & _); congruence).
  destruct Hs as (? & q & Hq & <- & ?). by simplify_eq.
Qed.

(** The result of a protocol call in a fresh turn. *)
Lemma result_ok v clk c ids p r (g : Connection → Connection) :
  conn_ok c ids → v = view_of c ids → c_last_clock_ms c = monotonic_ms clk → is_Some (c_active c) →
  running (c_phase c) = true →
  (∀ c, ∃ s, g c = put_status s c ∧ st_phase s = c_phase c) →
  (∀ b, r = Ok b → in_use (monotonic_ms clk) p ∧ (messages b ≠ [] → phase p = Receiving)) →
  turn_ok v (protocol_result observed r clk (on (put_protocol (Some p)) (on g (begin c ids)))).
Proof.
  intros Hok -> Hc Ha Hrun Hg Hr. destruct (Hg c) as (s & Hgc & Hph).
  assert (on (put_protocol (Some p)) (on g (begin (Product := Product) c ids))
          = begin (put_protocol (Some p) (put_status s c)) ids) as -> by (unfold on; turn_cbn; by rewrite Hgc).
  set (t := begin (put_protocol (Some p) (put_status s c)) ids).
  assert (c_phase (t_conn t) = c_phase c) as Hpht by exact Hph.
  assert (failable (view_of c ids) t) as Hf.
  { destruct Hok as [[Hb1 Hb2 Hb3 Hb4] Hq Hfl Hs Hrs]. split; [split|..]; try done.
    - by rewrite Hpht.
    - cbn. intros Hn. rewrite Hn in Ha. by destruct Ha. }
  destruct r as [b|[reason]]; cbn [protocol_result]; [|apply fail_turn_ok; [done|by rewrite Hpht]].
  destruct (Hr b eq_refl) as [Hu Hm]. destruct Hok as [[Hb1 Hb2 Hb3 Hb4] [Hq1 Hq2 Hq3 Hq4] Hfl Hs Hrs].
  eapply output_live; try done; [by rewrite Hpht|]. intros s' Hs'. rewrite <- Hc. by apply (Hrs s').
Qed.

Lemma chunks_invisible clk l (t : Turn) :
  fold_left (λ t chunk, record_event CkReceived clk chunk t) l t ≡ t.
Proof.
  revert t. induction l as [|b l IH]; intros t; [done|]. cbn [fold_left].
  etrans; [apply IH|apply record_invisible].
Qed.

Lemma connected_ok ent clk c ids :
  conn_ok c ids → c_last_clock_ms c = monotonic_ms clk → running (c_phase c) = true →
  turn_ok (view_of c ids) (handle_connected observed ent clk (begin c ids)).
Proof.
  intros Hok Hc Hrun. unfold handle_connected. turn_cbn.
  destruct (bool_decide (c_phase c = CpConnecting)) eqn:Hph; cbn [negb].
  2: { apply fail_turn_ok; [by apply begin_failable|done]. }
  apply bool_decide_eq_true in Hph. pose proof (ok_shape _ _ Hok) as Hs. unfold shape_ok in Hs. rewrite Hph in Hs.
  destruct (protocol_connect (monotonic_ms clk) ent) as [x|[reason]] eqn:Hx.
  - destruct (connect_in_use _ _ _ Hx) as [Hu Hm].
    assert (turn_ok (view_of c ids) (protocol_result observed (Ok (output x)) clk
      (on (put_protocol (Some (self x))) (on (λ c, c) (begin c ids))))) as Hres.
    { apply result_ok; try done; [apply Hs|intros c'; exists (c_status c'); by destruct c'|].
      intros b [= <-]. split; [done|by rewrite Hm]. }
    refine (proj2 (turn_ok_proper _ _ _ _) Hres). apply protocol_output_proper, on_respects; [done|].
    apply record_invisible.
  - apply fail_turn_ok; [|done].
    apply (proj2 (failable_proper _ _ _ (record_invisible CkConnected clk [] (begin c ids)))). by apply begin_failable.
Qed.

Lemma received_ok b clk c ids :
  conn_ok c ids → c_last_clock_ms c = monotonic_ms clk → running (c_phase c) = true →
  turn_ok (view_of c ids) (handle_received sha256 md5 decode_product observed b clk (begin c ids)).
Proof.
  intros Hok Hc Hrun. unfold handle_received. set (u := on _ (fold_left _ _ _)).
  assert (u ≡ on (put_last_receive (monotonic_ms clk)) (begin c ids)) as Hu
    by (apply on_respects; [done|apply chunks_invisible]).
  clearbody u. destruct (equiv_fields _ _ (proj1 Hu)) as (_ & _ & _ & Hp & _). rewrite Hp. turn_cbn.
  destruct (c_protocol c) as [p|] eqn:Hcp.
  - destruct (shape_protocol c ids p Hok Hcp) as (Huse & Ha & _).
    destruct (receive sha256 md5 decode_product b (monotonic_ms clk) p) as [r q] eqn:Hrun'.
    refine (proj2 (turn_ok_proper _ _ _ (result_respects _ _ _ _ _ (on_respects _ _ _ _ Hu))) _); [done|].
    apply result_ok; try done; [intros c'; by eexists|].
    intros out ->. by eapply receive_in_use.
  - refine (proj2 (turn_ok_proper _ _ _ (fail_proper _ _ _ _ Hu)) _). apply fail_turn_ok; [|done].
    destruct (begin_failable c ids Hok) as [[Hb1 Hb2 Hb3 Hb4] ? ? ? ?]. by split.
Qed.

Lemma pending_live c ids w :
  conn_ok c ids → c_pending_write c = Some w →
  ∃ i p, c_active c = Some i ∧ c_protocol c = Some p ∧ c_phase c = CpProtocol (phase p) ∧ in_use (c_last_clock_ms c) p.
Proof.
  intros Hok Hw. pose proof (ok_shape _ _ Hok) as Hs. unfold shape_ok in Hs.
  destruct (c_phase c); try (destruct Hs as (_ & _ & Hs); congruence).
  destruct Hs as ([i Hi] & q & Hq & <- & ?). by exists i, q.
Qed.

Lemma written_ok i w clk c ids :
  conn_ok c ids → c_last_clock_ms c = monotonic_ms clk → running (c_phase c) = true → c_active c = Some i →
  turn_ok (event_view (EvWritten i w) (view_of c ids)) (handle_written w clk (begin c ids)).
Proof.
  intros Hok Hc Hrun Ha. unfold handle_written, event_view. turn_cbn. cbn [view_of v_open v_inflight].
  rewrite bool_decide_eq_true_2 by done.
  destruct (c_pending_write c) as [pw|] eqn:Hpw; cbn [fmap option_fmap option_map andb].
  2: { rewrite bool_decide_eq_false_2 by done. apply fail_turn_ok; [by apply begin_failable|done]. }
  destruct (Z.eqb_spec (pw_id pw) w) as [Hid|Hid].
  - rewrite bool_decide_eq_true_2 by congruence.
    destruct (pending_live c ids pw Hok Hpw) as (i' & p & _ & Hp & Hph & Huse).
    refine (proj2 (turn_ok_proper _ _ _ (dispatch_proper clk _ _ (on_respects _ _ _ _ (record_invisible _ _ _ _)))) _); [done|].
    eapply dispatch_live. destruct Hok as [[Hb1 Hb2 Hb3 Hb4] [Hq1 Hq2 Hq3 Hq4] Hfl Hs Hrs].
    split; [split|split|..]; turn_cbn; try done; [by rewrite <- Hc|].
    intros s Hs'. rewrite <- Hc. by apply (Hrs s).
  - rewrite bool_decide_eq_false_2 by congruence. apply fail_turn_ok; [by apply begin_failable|done].
Qed.

Lemma tick_turn_ok clk c ids :
  conn_ok c ids → c_last_clock_ms c = monotonic_ms clk → running (c_phase c) = true →
  turn_ok (view_of c ids) (owner_tick observed setup_json clk (begin c ids)).
Proof.
  intros Hok Hc Hrun. pose proof (begin_ok c ids Hok) as Ht. pose proof (begin_failable c ids Hok) as Hf.
  assert (turn_ok (view_of c ids) (tick_protocol observed clk (begin c ids))) as Hp.
  { unfold tick_protocol. turn_cbn. destruct (c_pending_write c) as [w|]; [case_match; [by apply fail_turn_ok|done]|].
    destruct (c_protocol c) as [p|] eqn:Hcp; [|done]. destruct (shape_protocol c ids p Hok Hcp) as (Huse & Ha & _).
    rewrite Hc in Huse. destruct (tick (monotonic_ms clk) p) as [r q] eqn:Hrun'.
    change (begin c ids) with (on (λ c : Connection, c) (begin (Product := Product) c ids)) at 1.
    apply result_ok; try done; [intros c'; exists (c_status c'); by destruct c'|].
    intros out ->. destruct (tick_in_use _ _ _ _ Huse Hrun') as [? Hm]. split; [done|by rewrite Hm]. }
  unfold owner_tick. turn_cbn. change (st_phase (c_status c)) with (c_phase c).
  pose proof (ok_shape _ _ Hok) as Hs. unfold shape_ok in Hs.
  destruct (c_phase c) as [| |ph|w|] eqn:Hph; try done.
  - case_match; [|done]. apply fail_turn_ok; [done|]. turn_cbn. change (st_phase (c_status c)) with (c_phase c). by rewrite Hph.
  - case_match; [|done]. destruct Hs as (Ha & Hcp & Hpw). apply open_ok; try done.
    + apply (ok_base _ _ Hok). by rewrite Hph.
    + turn_cbn. destruct (c_receiving_since_ms c) as [s|] eqn:Hrs; [|done].
      destruct (ok_since _ _ Hok s Hrs) as (_ & ph & ?). congruence.
Qed.

Lemma event_turn_ok ent e clk c ids :
  conn_ok c ids → c_last_clock_ms c = monotonic_ms clk → running (c_phase c) = true →
  (∀ i, event_id e = Some i → c_active c = Some i) →
  turn_ok (event_view e (view_of c ids)) (handle_event sha256 md5 decode_product observed setup_json ent e clk (begin c ids)).
Proof.
  intros Hok Hc Hrun Hid. destruct e as [i|i b|i w|i r|]; cbn [handle_event event_view].
  - by apply connected_ok.
  - by apply received_ok.
  - apply written_ok; auto.
  - apply fail_turn_ok; [by apply begin_failable|done].
  - by apply tick_turn_ok.
Qed.

Lemma stale_ok e c ids :
  conn_ok c ids → is_Some (event_id e) → event_id e ≠ c_active c →
  turn_ok (event_view e (view_of c ids))
    (match e with EvConnected i => emit (EfClose i) (on count_stale (begin (Product := Product) c ids))
     | _ => on count_stale (begin c ids) end).
Proof.
  intros Hok [i Hi] Hne.
  assert (turn_ok (view_of c ids) (on count_stale (begin (Product := Product) c ids))) as Ht.
  { split; try done. destruct Hok as [[? ? ? ?] [? ? ? ?] Hf Hs Hr]. by split; [split|split|..]. }
  destruct e; cbn [event_view event_id] in *; try done; simplify_eq.
  - destruct Ht as [Hok' Hk Hm Hv]. split; try done. cbn. by rewrite bool_decide_eq_false_2 by congruence.
  - cbn [view_of v_open]. by rewrite bool_decide_eq_false_2 by congruence.
Qed.

(** Closing the socket ends the write in flight, reported or not. *)
Lemma event_view_close e c ids :
  apply_effects (event_view e (view_of c ids)) (close_effects c) = apply_effects (view_of c ids) (close_effects c)
  ∨ c_active c = None.
Proof.
  unfold close_effects. destruct (c_active c) as [i|] eqn:Ha; [left|by right].
  destruct e; cbn [event_view]; try done. case_match; [|done]. cbn. by rewrite Ha, bool_decide_eq_true_2.
Qed.

Lemma blocked_view e clk c ids :
  conn_ok c ids → monotonic_ms clk < c_last_clock_ms c →
  turn_ok (event_view e (view_of c ids)) (owner_clock clk (begin (Product := Product) c ids)).1.
Proof.
  intros Hok Hlt. pose proof (clock_turn_ok clk c ids Hok) as Hc. unfold owner_clock in *. turn_cbn.
  cbn [t_conn begin] in Hc. rewrite (proj2 (Z.ltb_lt _ _)) in * by done. cbn [fst]. destruct Hc as ([Ho Hk Hm Hv] & _ & _).
  split; try done. pose proof (block_equiv ClockRegressed (begin (Product := Product) c ids) (Forall_nil_2 _)) as (_ & _ & Hout & _).
  rewrite Hout in *. cbn [lost t_out effects begin no_output app t_conn] in *.
  destruct (event_view_close e c ids) as [->|Ha]; [done|]. unfold close_effects in *. rewrite Ha in *.
  destruct e; cbn [event_view]; try done. cbn [view_of v_open]. by rewrite bool_decide_eq_false_2 by congruence.
Qed.

Lemma update_ok ent e clk c ids :
  conn_ok c ids → turn_ok (event_view e (view_of c ids)) (update ent e clk c ids).
Proof.
  intros Hok. unfold ReceiverConnection.update. cbn [begin t_conn].
  destruct (bool_decide (is_Some (event_id e)) && _) eqn:Hstale.
  { apply andb_true_iff in Hstale as [Hs%bool_decide_eq_true Hne%negb_true_iff%bool_decide_eq_false].
    by apply (stale_ok e c ids Hok Hs Hne). }
  assert (∀ i, event_id e = Some i → c_active c = Some i) as Hid.
  { intros i Hi. rewrite Hi in Hstale. rewrite bool_decide_eq_true_2 in Hstale by done. cbn in Hstale.
    by apply negb_false_iff, bool_decide_eq_true in Hstale. }
  pose proof (clock_turn_ok clk c ids Hok) as Hclock. pose proof (blocked_view e clk c ids Hok) as Hblocked.
  destruct (owner_clock clk (begin c ids)) as [t []]; [|by apply Hblocked; destruct Hclock as (_ & _ & ?)].
  destruct Hclock as (-> & _ & Hok'). clear Hblocked. set (c' := put_last_clock (monotonic_ms clk) c) in *.
  change (view_of c ids) with (view_of c' ids). cbn [begin t_conn].
  assert (running (c_phase c') = true →
    turn_ok (event_view e (view_of c' ids)) (checkpoint_if_due clk
      (handle_event sha256 md5 decode_product observed setup_json ent e clk (begin c' ids)))) as Hrun.
  { intros Hr. refine (proj2 (turn_ok_proper _ _ _ (if_due_invisible clk _)) _). by apply event_turn_ok. }
  assert (c_active c' = None → event_view e (view_of c' ids) = view_of c' ids) as Hidle.
  { intros Ha. destruct e; try done. specialize (Hid _ eq_refl). cbn in Ha. congruence. }
  pose proof (ok_shape _ _ Hok') as Hs. unfold shape_ok in Hs. fold (begin (Product := Product) c' ids).
  destruct (c_phase c'); try (by apply Hrun); destruct Hs as (Ha & _); rewrite Hidle by done; by apply begin_ok.
Qed.

Lemma conn_ok_stopped c ids : conn_ok c ids → conn_ok (put_phase CpStopped (cleared (put_device None c))) ids.
Proof. intros [[Hb1 Hb2 Hb3 Hb4] _ _ _ _]. split; [split|split|..]; unfold shape_ok, cleared; turn_cbn; done. Qed.
Lemma conn_ok_blocked c ids :
  conn_ok c ids → c_phase c = CpBlocked → conn_ok (cleared (put_device None c)) ids.
Proof.
  intros [[Hb1 Hb2 Hb3 Hb4] _ _ _ _] Hph. unfold c_phase in *.
  split; [split|split|..]; unfold shape_ok, cleared, c_phase; turn_cbn; rewrite ?Hph; done.
Qed.

Lemma stop_ok clk c ids :
  conn_ok c ids → turn_ok (view_of c ids) (stop clk c ids) ∧
  (c_phase (t_conn (stop clk c ids)) ≠ CpBlocked →
   stop clk c ids ≡ lost (put_phase CpStopped) (begin (put_device None (put_last_clock (monotonic_ms clk) c)) ids)).
Proof.
  intros Hok. unfold ReceiverConnection.stop. pose proof (clock_turn_ok clk c ids Hok) as Hclock.
  destruct (owner_clock clk (begin c ids)) as [t []]; [|by destruct Hclock as (? & -> & _)].
  destruct Hclock as (-> & _ & Hok'). set (c' := put_last_clock (monotonic_ms clk) c) in *.
  change (on (put_device None) (begin c' ids)) with (begin (Product := Product) (put_device None c') ids).
  set (u := begin (put_device None c') ids).
  assert (disconnect clk u ≡ lost (λ c, c) u) as Hd.
  { etrans; [apply disconnect_equiv|]. by rewrite clear_connection_run. }
  set (w := disconnect clk u) in *. clearbody w.
  assert (c_phase (t_conn w) = c_phase c') as Hph by by destruct (equiv_fields _ _ (proj1 Hd)) as (_ & _ & _ & _ & _ & -> & _).
  rewrite Hph. change (view_of c ids) with (view_of (put_device None c') ids).
  assert (∀ g, conn_ok (g (cleared (t_conn u))) ids →
    view_of (g (cleared (t_conn u))) ids = view_of (cleared (t_conn u)) ids →
    turn_ok (view_of (put_device None c') ids) (lost g u)) as Hlost.
  { intros g Hg Hview. apply lost_ok; try done. by apply (idle_pending c' ids). }
  case_bool_decide as Hb.
  - split; [|intros Hn; by rewrite Hph in Hn]. refine (proj2 (turn_ok_proper _ _ _ Hd) _). apply Hlost; [by apply conn_ok_blocked|done].
  - assert (on (put_phase CpStopped) w ≡ lost (put_phase CpStopped) u) as Hw by (etrans; [by apply on_respects|done]).
    split; [|done]. refine (proj2 (turn_ok_proper _ _ _ Hw) _). apply Hlost; [by apply conn_ok_stopped|done].
Qed.

Lemma conn_ok_selected c ids device :
  conn_ok c ids → conn_ok (put_next_retry RETRY_INITIAL_MS (put_device (Some device) c)) ids.
Proof.
  intros [[Hb1 Hb2 Hb3 Hb4] [Hq1 Hq2 Hq3 Hq4] Hf Hs Hr]. split; [split|split|..]; turn_cbn; try done.
Qed.
Lemma turn_ok_selected v (t : Turn) device :
  turn_ok v t → turn_ok v (on (λ c, put_next_retry RETRY_INITIAL_MS (put_device (Some device) c)) t).
Proof. intros [Hok Hk Hm Hv]. split; [by apply conn_ok_selected|done..]. Qed.

Lemma start_ok device clk c ids :
  conn_ok c ids → turn_ok (view_of c ids) (start device clk c ids).
Proof.
  intros Hok. unfold ReceiverConnection.start. destruct (stop_ok clk c ids Hok) as [Ht Heq].
  set (t := stop clk c ids) in *. clearbody t. case_bool_decide as Hb; [done|].
  specialize (Heq Hb). set (u := lost _ _) in Heq.
  assert (on (λ c, put_next_retry RETRY_INITIAL_MS (put_device (Some device) c)) t
          ≡ on (λ c, put_next_retry RETRY_INITIAL_MS (put_device (Some device) c)) u) as Hon by by apply on_respects.
  refine (proj2 (turn_ok_proper _ _ _ (open_proper setup_json clk _ _ Hon)) _).
  apply (turn_ok_proper _ _ _ Heq) in Ht. apply open_ok; try done.
  - by apply turn_ok_selected.
  - cbn. apply (closes_app (begin c ids)). constructor.
Qed.

(** ** Reachable owners *)

Abbreviation perform := (perform sha256 md5 decode_product observed setup_json).

(** An owner and the process-wide counter of connection ids, which other owners advance too. *)
Inductive owner : Connection → Z → Prop :=
| owner_new build recorder clock ids : 1 ≤ ids → owner (connection_new sha256 build recorder clock) ids
| owner_call k c ids : owner c ids → owner (t_conn (perform k c ids)) (t_ids (perform k c ids))
| owner_others c ids ids' : owner c ids → ids ≤ ids' → owner c ids'.

(** The adapter's view when a call begins. *)
Definition call_view (k : call) (v : view) : view :=
  match k with CallUpdate _ e _ => event_view e v | _ => v end.

Lemma perform_ok k c ids : conn_ok c ids → turn_ok (call_view k (view_of c ids)) (perform k c ids).
Proof. destruct k; [apply start_ok|intros; by apply stop_ok|apply update_ok]. Qed.

Lemma owner_ok c ids : owner c ids → conn_ok c ids.
Proof.
  induction 1 as [build recorder clock ids Hids|k c ids _ IH|c ids ids' _ IH Hle].
  - by apply connection_new_ok.
  - eapply t_ok, (perform_ok k c ids IH).
  - destruct IH as [[Hb1 Hb2 Hb3 Hb4] ? ? ? ?]. split; try done. split; [done|done|lia|].
    intros i Hi. specialize (Hb4 i Hi). lia.
Qed.

Lemma owner_run ks c ids :
  owner c ids →
  owner (run_calls sha256 md5 decode_product observed setup_json ks c ids).1.2
    (run_calls sha256 md5 decode_product observed setup_json ks c ids).2.
Proof.
  revert c ids. induction ks as [|k ks IH]; intros c ids Ho; [done|]. cbn [run_calls].
  specialize (IH _ _ (owner_call k c ids Ho)). by destruct (run_calls _ _ _ _ _ ks _ _) as [[? ?] ?].
Qed.

(** ** Properties *)

(** In every state of an owner the phase says what exists (a socket exactly while
    connecting or running the protocol, a protocol exactly in its phases, never a failed
    one), at most one write is in flight and writes queue only behind it, within 1 MiB and
    one record each, the retry delay lies between 5 and 65 seconds, and no call ever panics:
    the device, the protocol and the socket it relies on are there. *)
Theorem connection_invariant c ids :
  owner c ids → conn_ok c ids ∧ ∀ k, t_panicked (perform k c ids) = false.
Proof. intros Hok%owner_ok. split; [done|]. intros k. eapply t_calm, (perform_ok k c ids Hok). Qed.

(** C13: every call keeps the contract with the adapter: connections are opened one at a time
    under ids never used before, a write goes to the open connection, alone, under the next
    write id, and a lost or abandoned connection is closed; after the call the adapter's
    view is again that of the owner. *)
Theorem connection_refines c ids k :
  owner c ids →
  let t := perform k c ids in
  apply_effects (call_view k (view_of c ids)) (effects (t_out t)) = Some (view_of (t_conn t) (t_ids t)).
Proof. intros Hok%owner_ok. eapply t_view, (perform_ok k c ids Hok). Qed.

(** Messages reach the products only from a protocol that was opened by this owner,
    passed the handshake, and is receiving. *)
Theorem connection_delivers c ids k :
  owner c ids →
  let t := perform k c ids in
  out_messages (t_out t) ≠ [] →
  ∃ p, c_protocol (t_conn t) = Some p ∧ phase p = Receiving ∧ connection sha256 md5 decode_product p ∧
       is_Some (c_active (t_conn t)).
Proof.
  intros Hok%owner_ok t Hm. destruct (perform_ok k c ids Hok) as [Hok' _ Hrec _]. specialize (Hrec Hm).
  pose proof (ok_shape _ _ Hok') as Hs. unfold shape_ok in Hs. rewrite Hrec in Hs.
  destruct Hs as (Ha & p & Hp & Hph & [Hr _ _]). by exists p.
Qed.
End Owner.

(** ** A sample connection *)

Abbreviation sample_log_connection := (@Connection unit (list (CaptureKind * bytes))).
Definition sample_act (k : call) (c : sample_log_connection) (ids : Z) : @Turn Z unit (list (CaptureKind * bytes)) :=
  perform sample_md5 sample_md5 sample_decode (λ _, ObservedOther) sample_json k c ids.
Abbreviation sample_owners := (owner sample_md5 sample_md5 sample_decode (λ _, ObservedOther) sample_json
  (R := list (CaptureKind * bytes))).

(** Up to the receiver's response; the product identity is still to come. *)
Definition sample_calls : list call :=
  [CallStart "dev" (sample_clock 0); CallUpdate (Some sample_nonce) (EvConnected 1) (sample_clock 1)]
    ++ ((λ b, CallUpdate None (EvReceived 1 b) (sample_clock 10)) <$> sample_setup ++ [sample_response]).
Definition sample_run : list Output * sample_log_connection * Z :=
  run_calls sample_md5 sample_md5 sample_decode (λ _, ObservedOther) sample_json sample_calls
    (connection_new sample_md5 None (Ok []) (sample_clock 0)) 1.
Definition sample_connected : sample_log_connection := sample_run.1.2.
Definition sample_identity : call :=
  CallUpdate None (EvReceived 1 (wire x02 x05 (message 0x1000 [x01; x02]))) (sample_clock 11).

Lemma sample_connected_owner : sample_owners sample_connected 2.
Proof.
  assert (sample_run.2 = 2) as <- by (vm_compute; reflexivity).
  apply owner_run. constructor. done.
Qed.

Lemma connection_invariant_witness :
  c_phase sample_connected = CpProtocol ProductPhase ∧ t_panicked (sample_act sample_identity sample_connected 2) = false.
Proof.
  split; [vm_compute; reflexivity|].
  apply (proj2 (connection_invariant sample_md5 sample_md5 sample_decode (λ _, ObservedOther) sample_json
    sample_connected 2 sample_connected_owner) sample_identity).
Defined.

Lemma connection_refines_witness :
  let v := view_of sample_connected 2 in
  let t := sample_act (CallUpdate None (EvWritten 1 1) (sample_clock 11)) sample_connected 2 in
  v = {| v_open := Some 1; v_inflight := Some 1; v_next := 2; v_written := 1 |} ∧ length (effects (t_out t)) = 1%nat ∧
  apply_effects {| v_open := Some 1; v_inflight := None; v_next := 2; v_written := 1 |} (effects (t_out t))
  = Some {| v_open := Some 1; v_inflight := Some 2; v_next := 2; v_written := 2 |}.
Proof.
  cbn zeta. split; [vm_compute; reflexivity|]. split; [vm_compute; reflexivity|].
  pose proof (connection_refines sample_md5 sample_md5 sample_decode (λ _, ObservedOther) sample_json
    sample_connected 2 (CallUpdate None (EvWritten 1 1) (sample_clock 11)) sample_connected_owner) as H.
  cbn zeta in H. etransitivity; [|etransitivity; [exact H|]]; vm_compute; reflexivity.
Defined.

Lemma connection_delivers_witness :
  ∃ p, c_protocol (t_conn (sample_act sample_identity sample_connected 2)) = Some p ∧ phase p = Receiving.
Proof.
  destruct (connection_delivers sample_md5 sample_md5 sample_decode (λ _, ObservedOther) sample_json
    sample_connected 2 sample_identity sample_connected_owner) as (p & Hp & Hph & _).
  - vm_compute. discriminate.
  - exists p. exact (conj Hp Hph).
Defined.

(** ** Losing and regaining the receiver *)

(** The delay before the attempt that follows [n + 1] failures in a row. *)
Definition retry_delay (n : Z) : Z := Z.min (RETRY_INITIAL_MS * 2 ^ n) RETRY_MAX_MS.

Lemma retry_delay_double n : 0 ≤ n → Z.min (retry_delay n * 2) RETRY_MAX_MS = retry_delay (n + 1).
Proof.
  intros Hn. unfold retry_delay, RETRY_INITIAL_MS, RETRY_MAX_MS. rewrite Z.pow_add_r by lia.
  pose proof (Z.pow_pos_nonneg 2 n ltac:(lia) Hn). lia.
Qed.

Section Retry.
Context (sha256 md5 : bytes → bytes) {Product : Type}
  (decode_product : Z → bytes → result decode_error Product) (observed : Product → Observed)
  {Build : Type} (setup_json : SetupMetadata Build → bytes) `{Recorder R}.
Abbreviation Connection := (@Connection Build R).
Abbreviation Turn := (@Turn Product Build R).
Abbreviation update := (update sha256 md5 decode_product observed setup_json).
Abbreviation perform := (perform sha256 md5 decode_product observed setup_json).
Abbreviation owner := (owner sha256 md5 decode_product observed setup_json).
Abbreviation conn_ok := (conn_ok sha256 md5 decode_product).

(** ** Events of the active connection *)

(** An event that is not stale, at a clock that does not run backwards, in a running phase. *)
Lemma update_run ent e clk (c : Connection) ids :
  (∀ i, event_id e = Some i → c_active c = Some i) → c_last_clock_ms c ≤ monotonic_ms clk →
  running (c_phase c) = true →
  update ent e clk c ids ≡
  handle_event sha256 md5 decode_product observed setup_json ent e clk (begin (put_last_clock (monotonic_ms clk) c) ids).
Proof.
  intros Hid Hclk Hrun. unfold ReceiverConnection.update. cbn [begin t_conn].
  assert (bool_decide (is_Some (event_id e)) && negb (bool_decide (event_id e = c_active c)) = false) as ->.
  { destruct (event_id e) as [i|] eqn:Hi; [|done]. rewrite (Hid i eq_refl), !bool_decide_eq_true_2 by done. done. }
  unfold owner_clock. cbn [t_conn begin]. rewrite (proj2 (Z.ltb_ge _ _)) by done. turn_cbn.
  change (c_phase (put_last_clock (monotonic_ms clk) c)) with (c_phase c).
  destruct (c_phase c); try done; apply if_due_invisible.
Qed.

Lemma active_running (c : Connection) ids i : conn_ok c ids → c_active c = Some i → running (c_phase c) = true.
Proof.
  intros Hok Ha. pose proof (ok_shape _ _ _ _ _ Hok) as Hs. unfold shape_ok in Hs.
  destruct (c_phase c); try done; destruct Hs as (? & _); congruence.
Qed.

(** Giving up the active connection. *)
Lemma fail_run f clk (c : Connection) ids i :
  conn_ok c ids → c_active c = Some i →
  owner_fail f clk (begin (Product := Product) (put_last_clock (monotonic_ms clk) c) ids) ≡
  {| t_conn := retry_later clk (put_fault (Some f) (cleared (put_last_clock (monotonic_ms clk) c)));
     t_ids := ids; t_out := {| effects := [EfClose i]; out_messages := [] |}; t_panicked := false |}.
Proof.
  intros Hok Ha. etrans; [apply fail_equiv; [constructor|]|].
  - change (c_phase _) with (c_phase c). intros Hb. pose proof (active_running c ids i Hok Ha) as Hr. by rewrite Hb in Hr.
  - unfold lost, close_effects. turn_cbn. by rewrite Ha.
Qed.

(** ** Waiting *)

Lemma waiting_tick ent clk (c : Connection) ids at_ms device :
  c_phase c = CpWaitingToRetry at_ms → c_device c = Some device → c_last_clock_ms c ≤ monotonic_ms clk →
  ids < u64_max →
  let t := update ent EvTick clk c ids in
  if monotonic_ms clk <? at_ms then
    effects (t_out t) = [] ∧ c_phase (t_conn t) = CpWaitingToRetry at_ms
  else
    effects (t_out t) = [EfConnect ids device SERVICE_UUID] ∧ c_phase (t_conn t) = CpConnecting ∧
    c_active (t_conn t) = Some ids ∧ c_next_retry_ms (t_conn t) = c_next_retry_ms c ∧ t_ids t = ids + 1.
Proof.
  intros Hph Hdev Hclk Hids. cbn zeta.
  pose proof (update_run ent EvTick clk c ids ltac:(done) Hclk ltac:(by rewrite Hph)) as Hu.
  cbn [handle_event] in Hu. unfold owner_tick in Hu. cbn [begin t_conn] in Hu.
  change (c_phase (put_last_clock (monotonic_ms clk) c)) with (c_phase c) in Hu. rewrite Hph in Hu.
  destruct (Z.ltb_spec (monotonic_ms clk) at_ms) as [Hlt|Hge].
  - rewrite (proj2 (Z.leb_gt _ _)) in Hu by done. destruct Hu as (Hc & _ & -> & _).
    destruct (equiv_fields _ _ Hc) as (_ & _ & _ & _ & _ & -> & _). done.
  - rewrite (proj2 (Z.leb_le _ _)) in Hu by done. unfold open in Hu. cbn [t_ids begin] in Hu.
    assert (checked_add u64_max ids 1 = Some (ids + 1)) as Hn by (apply checked_add_Some; lia). rewrite Hn in Hu.
    unfold record_event, owner_checkpoint in Hu. revert Hu. turn_cbn. rewrite Hdev. intros (Hc & Hi & -> & _).
    destruct (equiv_fields _ _ Hc) as (_ & _ & -> & _ & _ & -> & _ & _ & _ & _ & _ & _ & -> & _). by split_and!.
Qed.

(** ** Blocked *)

Lemma block_phase f (t : Turn) : c_phase (t_conn (block f t)) = CpBlocked.
Proof. unfold block. rewrite clear_connection_run. done. Qed.
Lemma block_effects f (t : Turn) :
  Forall (λ e, is_close e = true) (effects (t_out (block f t))) ∧ out_messages (t_out (block f t)) = [].
Proof. split; [|done]. apply Forall_forall. intros e He.
  unfold block in He. cbn [retract t_out effects] in He. by apply list_elem_of_filter in He as [? _].
Qed.

Lemma blocked_clock clk (c : Connection) ids :
  c_phase c = CpBlocked →
  let t := (owner_clock clk (begin (Product := Product) c ids)).1 in
  c_phase (t_conn t) = CpBlocked ∧ Forall (λ e, is_close e = true) (effects (t_out t)) ∧ out_messages (t_out t) = [].
Proof.
  intros Hb. unfold owner_clock. case_match; cbn [fst].
  - split; [apply block_phase|apply block_effects].
  - by split_and!.
Qed.

Lemma disconnect_blocked clk (t : Turn) :
  c_phase (t_conn t) = CpBlocked → Forall (λ e, is_close e = true) (effects (t_out t)) → out_messages (t_out t) = [] →
  c_phase (t_conn (disconnect clk t)) = CpBlocked ∧
  Forall (λ e, is_close e = true) (effects (t_out (disconnect clk t))) ∧ out_messages (t_out (disconnect clk t)) = [].
Proof.
  intros Hb Hc Hm. destruct (disconnect_equiv clk t) as (Heq & _ & -> & _).
  destruct (equiv_fields _ _ Heq) as (_ & _ & _ & _ & _ & -> & _). rewrite clear_connection_run.
  split_and!; [done|by apply closes_app|done].
Qed.

Lemma blocked_stop clk (c : Connection) ids :
  c_phase c = CpBlocked →
  let t := stop (Product := Product) clk c ids in
  c_phase (t_conn t) = CpBlocked ∧ Forall (λ e, is_close e = true) (effects (t_out t)) ∧ out_messages (t_out t) = [].
Proof.
  intros Hb. unfold stop. pose proof (blocked_clock clk c ids Hb) as Hc. cbn zeta in Hc.
  destruct (owner_clock clk (begin c ids)) as [t []]; [|done]. cbn [fst] in Hc. destruct Hc as (Hp & He & Hm).
  pose proof (disconnect_blocked clk (on (put_device None) t) Hp He Hm) as Hd.
  rewrite bool_decide_eq_true_2; [done|apply Hd].
Qed.

(** ** Properties *)

(** An owner that is blocked stays blocked whatever it is asked, and from then on only
    closes sockets: it neither connects nor writes nor delivers. *)
Theorem connection_blocked_final (c : Connection) ids k :
  c_phase c = CpBlocked →
  let t := perform k c ids in
  c_phase (t_conn t) = CpBlocked ∧ Forall (λ e, is_close e = true) (effects (t_out t)) ∧ out_messages (t_out t) = [].
Proof.
  intros Hb. destruct k as [device clk|clk|ent e clk]; cbn [ReceiverConnectionCapture.perform].
  - unfold start. pose proof (blocked_stop clk c ids Hb) as Hs. rewrite bool_decide_eq_true_2; [done|apply Hs].
  - by apply blocked_stop.
  - unfold ReceiverConnection.update. case_match.
    { destruct e; split_and!; try done; by repeat constructor. }
    pose proof (blocked_clock clk c ids Hb) as Hc. cbn zeta in Hc.
    destruct (owner_clock clk (begin c ids)) as [t []]; [|done]. cbn [fst] in Hc. by rewrite (proj1 Hc).
Qed.

(** A clock that runs backwards blocks the owner: the socket, if any, is closed and
    nothing else is asked for. *)
Theorem connection_clock_regression (c : Connection) ids k :
  let clk := match k with CallStart _ clk | CallStop clk | CallUpdate _ _ clk => clk end in
  monotonic_ms clk < c_last_clock_ms c →
  (∀ ent e clk', k = CallUpdate ent e clk' → event_id e = None ∨ event_id e = c_active c) →
  let t := perform k c ids in
  c_phase (t_conn t) = CpBlocked ∧ effects (t_out t) = close_effects c ∧ out_messages (t_out t) = [].
Proof.
  intros clk Hlt Hcur.
  assert (let t := (owner_clock clk (begin (Product := Product) c ids)).1 in
          (owner_clock clk (begin (Product := Product) c ids)).2 = false ∧ c_phase (t_conn t) = CpBlocked ∧
          effects (t_out t) = close_effects c ∧ out_messages (t_out t) = []) as Hc.
  { unfold owner_clock. cbn [begin t_conn]. rewrite (proj2 (Z.ltb_lt _ _)) by done. cbn [fst snd].
    split_and!; [done|apply block_phase| |done].
    by destruct (block_equiv ClockRegressed (begin (Product := Product) c ids) (Forall_nil_2 _)) as (_ & _ & -> & _). }
  cbn zeta in Hc. unfold clk in *. destruct k as [device clk'|clk'|ent e clk']; cbn [ReceiverConnectionCapture.perform].
  - unfold start, stop. destruct (owner_clock clk' (begin c ids)) as [t f]. cbn [fst snd] in Hc. destruct Hc as (-> & Hp & Hc).
    rewrite bool_decide_eq_true_2; done.
  - unfold stop. destruct (owner_clock clk' (begin c ids)) as [t f]. cbn [fst snd] in Hc. by destruct Hc as (-> & Hp & Hc).
  - unfold ReceiverConnection.update.
    assert (bool_decide (is_Some (event_id e)) && negb (bool_decide (event_id e = c_active c)) = false) as Hs.
    { destruct (Hcur ent e clk' eq_refl) as [Hn|Hn]; rewrite Hn; [done|].
      by rewrite (bool_decide_eq_true_2 (c_active c = c_active c)), andb_false_r. }
    cbn [begin t_conn] in *. rewrite Hs. fold (begin (Product := Product) c ids).
    destruct (owner_clock clk' (begin c ids)) as [t f]. cbn [fst snd] in Hc. by destruct Hc as (-> & Hp & Hc).
Qed.

(** A callback of a connection that is not the active one changes nothing but a counter;
    a socket that opened too late is closed. *)
Theorem connection_stale ent e clk (c : Connection) ids i :
  event_id e = Some i → c_active c ≠ Some i →
  let t := update ent e clk c ids in
  t_conn t = count_stale c ∧ t_ids t = ids ∧ out_messages (t_out t) = [] ∧
  effects (t_out t) = (match e with EvConnected _ => [EfClose i] | _ => [] end).
Proof.
  intros Hi Hne. unfold ReceiverConnection.update. cbn [begin t_conn]. rewrite Hi.
  rewrite (bool_decide_eq_true_2 (is_Some (Some i))), (bool_decide_eq_false_2 (Some i = c_active c)) by (done || congruence).
  destruct e; cbn in Hi; simplify_eq; by split_and!.
Qed.

(** The retry cycle. When the active connection fails after [n] failures in a row, it is
    closed, and the owner waits [min (5 s * 2^n) 65 s]: a tick before then does nothing, a
    tick from then on connects again under a fresh id, and the next failure will wait
    for the doubled delay. *)
Theorem connection_backoff (c : Connection) ids n i device ent reason clk clk' :
  owner c ids → 0 ≤ n → c_next_retry_ms c = retry_delay n → c_active c = Some i → c_device c = Some device →
  c_last_clock_ms c ≤ monotonic_ms clk ≤ monotonic_ms clk' → ids < u64_max →
  let at_ms := saturating_add u64_max (monotonic_ms clk) (retry_delay n) in
  let t := update ent (EvFailed i reason) clk c ids in
  let t' := update ent EvTick clk' (t_conn t) ids in
  effects (t_out t) = [EfClose i] ∧ c_phase (t_conn t) = CpWaitingToRetry at_ms ∧ c_active (t_conn t) = None ∧
  if monotonic_ms clk' <? at_ms then
    effects (t_out t') = [] ∧ c_phase (t_conn t') = CpWaitingToRetry at_ms
  else
    effects (t_out t') = [EfConnect ids device SERVICE_UUID] ∧ c_phase (t_conn t') = CpConnecting ∧
    c_active (t_conn t') = Some ids ∧ c_next_retry_ms (t_conn t') = retry_delay (n + 1) ∧ t_ids t' = ids + 1.
Proof.
  intros Hok%owner_ok Hn Hretry Ha Hdev Hclk Hids. cbn zeta.
  pose proof (active_running c ids i Hok Ha) as Hrun.
  pose proof (update_run ent (EvFailed i reason) clk c ids ltac:(naive_solver) ltac:(lia) Hrun) as Hu.
  cbn [handle_event] in Hu. pose proof (fail_run (FaultIo reason) clk c ids i Hok Ha) as Hf.
  pose proof (transitivity Hu Hf) as (Hc & _ & Ho & _). cbn [t_conn t_out] in Hc, Ho.
  destruct (equiv_fields _ _ Hc) as (_ & Hd' & Ha' & _ & _ & Hph' & _ & _ & _ & _ & _ & _ & Hr' & Hcl').
  cbn in Hd', Ha', Hph', Hr', Hcl'. rewrite Hretry in Hph', Hr'. rewrite retry_delay_double in Hr' by done.
  set (t := update ent (EvFailed i reason) clk c ids) in *. clearbody t.
  split_and!; [by rewrite Ho|done|done|].
  pose proof (waiting_tick ent clk' (t_conn t) ids _ device Hph' ltac:(congruence) ltac:(lia) Hids) as Hw.
  cbn zeta in Hw. destruct (_ <? _); [done|]. rewrite <- Hr'. exact Hw.
Qed.

(** What the owner is waiting for, since when, and for how long at most. *)
Definition deadline (c : Connection) : option (Fault * Z) :=
  match c_phase c, c_pending_write c with
  | CpConnecting, _ => Some (ConnectDeadline, c_connect_since_ms c + CONNECT_TIMEOUT_MS)
  | CpProtocol _, Some w => Some (WriteDeadline, pw_since_ms w + WRITE_TIMEOUT_MS)
  | _, _ => None
  end.

(** Nothing is waited for forever: a tick at the deadline of an attempt to connect (15 s)
    or of a write (5 s) gives the connection up with that fault, and an earlier tick
    leaves it alone. *)
Theorem connection_deadlines (c : Connection) ids i ent clk fault limit :
  owner c ids → c_active c = Some i → deadline c = Some (fault, limit) →
  0 ≤ c_last_clock_ms c ≤ monotonic_ms clk →
  let t := update ent EvTick clk c ids in
  if monotonic_ms clk <? limit then
    effects (t_out t) = [] ∧ c_phase (t_conn t) = c_phase c ∧ c_active (t_conn t) = Some i
  else
    effects (t_out t) = [EfClose i] ∧ st_last_fault (c_status (t_conn t)) = Some fault ∧
    c_phase (t_conn t) = CpWaitingToRetry (saturating_add u64_max (monotonic_ms clk) (c_next_retry_ms c)).
Proof.
  intros Hok%owner_ok Ha Hd Hclk. cbn zeta. pose proof (active_running c ids i Hok Ha) as Hrun.
  pose proof (update_run ent EvTick clk c ids ltac:(done) ltac:(lia) Hrun) as Hu. cbn [handle_event] in Hu.
  assert (∃ since, owner_tick observed setup_json clk (begin (put_last_clock (monotonic_ms clk) c) ids)
    = (if limit - since <=? saturating_sub (monotonic_ms clk) since
       then owner_fail fault clk (begin (put_last_clock (monotonic_ms clk) c) ids)
       else begin (put_last_clock (monotonic_ms clk) c) ids) ∧ 0 < limit - since) as (since & Ht & Hpos).
  { unfold deadline in Hd. unfold owner_tick, tick_protocol. turn_cbn.
    change (c_phase (put_last_clock (monotonic_ms clk) c)) with (c_phase c).
    destruct (c_phase c); try done.
    - injection Hd as <- <-. exists (c_connect_since_ms c). rewrite Z.add_simpl_l. done.
    - destruct (c_pending_write c) as [w|]; [|done]. injection Hd as <- <-. exists (pw_since_ms w).
      rewrite Z.add_simpl_l. done. }
  rewrite Ht in Hu. unfold saturating_sub in Hu.
  destruct (Z.ltb_spec (monotonic_ms clk) limit) as [Hlt|Hge].
  - rewrite (proj2 (Z.leb_gt _ _)) in Hu by lia. destruct Hu as (Hc & _ & -> & _).
    destruct (equiv_fields _ _ Hc) as (_ & _ & -> & _ & _ & -> & _). done.
  - rewrite (proj2 (Z.leb_le _ _)) in Hu by lia.
    pose proof (transitivity Hu (fail_run fault clk c ids i Hok Ha)) as (Hc & _ & Ho & _). cbn [t_conn t_out] in Hc, Ho.
    destruct (equiv_fields _ _ Hc) as (_ & _ & _ & _ & Hst & Hph & _).
    apply (f_equal st_last_fault) in Hst. by rewrite Ho, Hph.
Qed.
End Retry.

(** ** Examples *)

Definition sample_blocked : @Connection unit (list (CaptureKind * bytes)) :=
  t_conn (sample_act (CallStop (sample_clock 3)) sample_connected 2).

Lemma connection_blocked_final_witness :
  c_phase sample_blocked = CpBlocked ∧
  effects (t_out (sample_act (CallStart "dev" (sample_clock 50)) sample_blocked 2)) = [] ∧
  c_phase (t_conn (sample_act (CallStart "dev" (sample_clock 50)) sample_blocked 2)) = CpBlocked.
Proof.
  assert (c_phase sample_blocked = CpBlocked) as Hb by (vm_compute; reflexivity).
  split; [exact Hb|]. split; [vm_compute; reflexivity|].
  exact (proj1 (connection_blocked_final sample_md5 sample_md5 sample_decode (λ _, ObservedOther) sample_json
    sample_blocked 2 (CallStart "dev" (sample_clock 50)) Hb)).
Defined.

Lemma connection_clock_regression_witness :
  monotonic_ms (sample_clock 3) < c_last_clock_ms sample_connected ∧
  effects (t_out (sample_act (CallStop (sample_clock 3)) sample_connected 2)) = [EfClose 1].
Proof.
  assert (monotonic_ms (sample_clock 3) < c_last_clock_ms sample_connected) as Hlt by (vm_compute; reflexivity).
  split; [exact Hlt|].
  destruct (connection_clock_regression sample_md5 sample_md5 sample_decode (λ _, ObservedOther) sample_json
    sample_connected 2 (CallStop (sample_clock 3)) Hlt)
    as (_ & He & _); [discriminate|]. etransitivity; [exact He|]. vm_compute. reflexivity.
Defined.

Lemma connection_stale_witness :
  effects (t_out (sample_act (CallUpdate None (EvConnected 9) (sample_clock 12)) sample_connected 2)) = [EfClose 9].
Proof.
  refine (proj2 (proj2 (proj2 (connection_stale sample_md5 sample_md5 sample_decode (λ _, ObservedOther) sample_json
    None (EvConnected 9) (sample_clock 12)
    sample_connected 2 9 _ _)))); [reflexivity|vm_compute; discriminate].
Defined.

Lemma connection_backoff_witness :
  c_next_retry_ms sample_connected = retry_delay 0 ∧
  c_phase (t_conn (sample_act (CallUpdate None (EvFailed 1 IoRead) (sample_clock 20)) sample_connected 2))
  = CpWaitingToRetry 5020.
Proof.
  assert (c_next_retry_ms sample_connected = retry_delay 0) as Hr by (vm_compute; reflexivity).
  split; [exact Hr|].
  refine (proj1 (proj2 (connection_backoff sample_md5 sample_md5 sample_decode (λ _, ObservedOther) sample_json
    sample_connected 2 0 1 "dev"%string None IoRead
    (sample_clock 20) (sample_clock 30) sample_connected_owner _ Hr _ _ _ _)));
    [done|vm_compute; reflexivity|vm_compute; reflexivity|vm_compute; split; discriminate|reflexivity].
Defined.

Lemma connection_deadlines_witness :
  deadline sample_connected = Some (WriteDeadline, 5001) ∧
  effects (t_out (sample_act (CallUpdate None EvTick (sample_clock 6000)) sample_connected 2)) = [EfClose 1].
Proof.
  assert (deadline sample_connected = Some (WriteDeadline, 5001)) as Hd by (vm_compute; reflexivity).
  split; [exact Hd|].
  refine (proj1 (connection_deadlines sample_md5 sample_md5 sample_decode (λ _, ObservedOther) sample_json
    sample_connected 2 1 None (sample_clock 6000) WriteDeadline 5001
    sample_connected_owner _ Hd _)); [vm_compute; reflexivity|vm_compute; split; discriminate].
Defined.
