(* ===== verification/AcsContracts.v ===== *)
(** * Cloud contracts (product-contracts/src/aerobag_cloud.rs)

    What the application and the cloud server agree on: encrypted values with the digest
    that authenticates them and the objects they refer to, the bytes a request signature
    covers, the canonical request target, the events of the notification stream, and the
    timing of reconnects (lib.rs). SHA-256 and base64 are parameters. *)

From Stdlib Require Import Strings.Byte.
From stdpp Require Import base list strings sorting pretty.
From S2P Require Import Prelude Utf8 NavKvRead.

Local Open Scope Z_scope.

(** ** Constants *)

Definition ACS_CONTRACT_ID : bytes := bs "ACS1".
Definition ACS_API_PREFIX : bytes := bs "/cloud/v1".
Definition ACS_FIXED_ROOT_ID : bytes := bs "root".
Definition ACS_MAX_VISIBLE_CHILD_OBJECTS : Z := 4096.

Inductive AcsHttpMethod := AcsGet | AcsPost | AcsPut.
#[export] Instance acs_http_method_eq_dec : EqDecision AcsHttpMethod.
Proof. solve_decision. Defined.
Definition method_str (m : AcsHttpMethod) : bytes :=
  match m with AcsGet => bs "GET" | AcsPost => bs "POST" | AcsPut => bs "PUT" end.

Inductive AcsEncryptedValueKind := KindObject | KindRoot.
Definition kind_str (k : AcsEncryptedValueKind) : bytes :=
  match k with KindObject => bs "object" | KindRoot => bs "root" end.

Inductive AcsSignatureAlgorithm := Ed25519.

(** [s.contains(['\r', '\n'])], and the same for the characters of [cs]. *)
Definition contains_any (cs : list byte) (s : bytes) : bool := existsb (λ b, bool_decide (b ∈ cs)) s.
Definition CRLF : list byte := [x0d; x0a].

(** ** Request signatures *)

Record AcsRequestAuthentication := {
  contract_id : bytes; account_locator : bytes; signing_key_id : bytes;
  signature_algorithm : AcsSignatureAlgorithm; timestamp_epoch_ms : Z;
  nonce_base64url : bytes; body_sha256 : bytes; signature_base64url : bytes }.

(** The decimal text of an [i64]. *)
Definition dec (z : Z) : bytes := bs (pretty z).

Definition signature_fields (a : AcsRequestAuthentication) : list bytes :=
  [account_locator a; signing_key_id a; nonce_base64url a; body_sha256 a].

(** The lines of the signed text. *)
Definition signed_lines (a : AcsRequestAuthentication) (m : AcsHttpMethod) (target : bytes) : list bytes :=
  [ACS_CONTRACT_ID; method_str m; target; account_locator a; signing_key_id a; dec (timestamp_epoch_ms a);
   nonce_base64url a; body_sha256 a].
Definition as_lines (l : list bytes) : bytes := concat ((λ s, s ++ [x0a]) <$> l).

Definition signing_bytes (a : AcsRequestAuthentication) (m : AcsHttpMethod) (target : bytes)
    : result string bytes :=
  _ ← guard_err (negb (bool_decide (contract_id a = ACS_CONTRACT_ID))) "unsupported ACS contract"%string;
  _ ← guard_err (negb (starts_with target ACS_API_PREFIX) || contains_any CRLF target)
        "invalid ACS request target"%string;
  _ ← guard_err (existsb (λ s, bool_decide (s = []) || contains_any CRLF s) (signature_fields a))
        "invalid ACS signature field"%string;
  Ok (as_lines (signed_lines a m target)).

(** [str::split] at one character, [str::split_once], and [join]. *)
Fixpoint split_on (c : byte) (s : bytes) : list bytes :=
  match s with
  | [] => [[]]
  | b :: s =>
      if bool_decide (b = c) then [] :: split_on c s
      else match split_on c s with
           | [] => [[b]]
           | w :: ws => (b :: w) :: ws
           end
  end.
Fixpoint split_once (c : byte) (s : bytes) : option (bytes * bytes) :=
  match s with
  | [] => None
  | b :: s =>
      if bool_decide (b = c) then Some ([], s)
      else match split_once c s with
           | Some (p, q) => Some (b :: p, q)
           | None => None
           end
  end.
Fixpoint join (sep : bytes) (l : list bytes) : bytes :=
  match l with
  | [] => []
  | [s] => s
  | s :: l => s ++ sep ++ join sep l
  end.

(** Pairs of strings in the order of Rust's tuples. *)
Definition pair_le (p q : bytes * bytes) : Prop :=
  bytes_lt p.1 q.1 ∨ p.1 = q.1 ∧ bytes_le p.2 q.2.
#[export] Instance pair_le_dec : RelDecision pair_le.
Proof. intros p q. unfold pair_le. apply _. Defined.

Definition query_pairs (query : bytes) : list (bytes * bytes) :=
  (λ pair, default (pair, []) (split_once x3d pair)) <$> split_on x26 query.

Definition acs_canonical_request_target (path : bytes) (query : option bytes) : result string bytes :=
  if negb (starts_with path ACS_API_PREFIX) || contains_any (CRLF ++ [x3f; x23]) path
     || match query with Some q => contains_any (CRLF ++ [x23]) q | None => false end
  then Err "invalid ACS request target"%string
  else match query with
       | None | Some [] => Ok path
       | Some q =>
           let pairs := merge_sort pair_le (query_pairs q) in
           Ok (path ++ [x3f] ++ join [x26] ((λ kv, kv.1 ++ [x3d] ++ kv.2) <$> pairs))
       end.

(** ** Encrypted values *)

Record AcsEncryptedValue := {
  ciphertext_base64url : bytes; ciphertext_sha256 : bytes; child_object_ids : list bytes }.
#[export] Instance acs_encrypted_value_eq_dec : EqDecision AcsEncryptedValue.
Proof. solve_decision. Defined.

(** [Vec::dedup] *)
Fixpoint dedup (l : list bytes) : list bytes :=
  match l with
  | x :: (y :: _) as l' => if bool_decide (x = y) then dedup l' else x :: dedup l'
  | l => l
  end.

(** [windows(2).any(|pair| pair[0] >= pair[1])] *)
Fixpoint out_of_order (l : list bytes) : bool :=
  match l with
  | x :: (y :: _) as l' => negb (bytes_ltb x y) || out_of_order l'
  | _ => false
  end.

Definition validate_child_object_ids (children : list bytes) : result string unit :=
  _ ← guard_err (len children >? ACS_MAX_VISIBLE_CHILD_OBJECTS)
        "encrypted value has too many visible child objects"%string;
  _ ← guard_err (out_of_order children) "child object IDs must be sorted and unique"%string;
  guard_err (existsb (λ s, bool_decide (s = []) || contains_any CRLF s) children)
    "invalid child object ID"%string.

(** [len() as u32] in front of the bytes. *)
Definition framed32 (s : bytes) : bytes := be_bytes 4 (len s) ++ s.

Definition acs_encrypted_value_associated_data (kind : AcsEncryptedValueKind) (value_id : bytes)
    (children : list bytes) : result string bytes :=
  _ ← validate_child_object_ids children;
  _ ← guard_err (bool_decide (value_id = []) || contains_any CRLF value_id) "invalid encrypted value ID"%string;
  Ok (bs "aerobag-cloud-encrypted-value-v1" ++ [x00] ++ kind_str kind ++ [x00] ++ framed32 value_id
      ++ be_bytes 4 (len children) ++ concat (framed32 <$> children)).

Section values.
Context (sha256 : bytes → bytes) (b64_encode : bytes → bytes) (b64_decode : bytes → option bytes).

Definition from_ciphertext (ciphertext : bytes) (children : list bytes) : AcsEncryptedValue :=
  {| ciphertext_base64url := b64_encode ciphertext;
     ciphertext_sha256 := hex_lower (sha256 ciphertext);
     child_object_ids := dedup (merge_sort bytes_le children) |}.

Definition ciphertext (v : AcsEncryptedValue) : result string bytes :=
  ok_or (b64_decode (ciphertext_base64url v)) "ciphertext is not valid base64url"%string.

Definition validate_value (v : AcsEncryptedValue) : result string unit :=
  _ ← validate_child_object_ids (child_object_ids v);
  c ← ciphertext v;
  guard_err (negb (bool_decide (hex_lower (sha256 c) = ciphertext_sha256 v))) "ciphertext hash mismatch"%string.

Definition authenticated_hash (v : AcsEncryptedValue) (kind : AcsEncryptedValueKind) (value_id : bytes)
    : result string bytes :=
  _ ← validate_value v;
  aad ← acs_encrypted_value_associated_data kind value_id (child_object_ids v);
  Ok (hex_lower (sha256 (aad ++ ciphertext_sha256 v))).

End values.

(** ** The notification stream *)

Inductive AcsSseEvent :=
| SseReady (sequence root_revision : Z) (root_hash : option bytes)
| SseRootChanged (sequence root_revision : Z) (root_hash : bytes)
| SseReset (sequence root_revision : Z) (root_hash : option bytes)
| SseHeartbeat (sequence root_revision : Z) (root_hash : option bytes).
Definition sequence (e : AcsSseEvent) : Z :=
  match e with SseReady s _ _ | SseRootChanged s _ _ | SseReset s _ _ | SseHeartbeat s _ _ => s end.

(** ** Reconnects of event streams (lib.rs) *)

Record SseTransportPolicy := {
  heartbeat_interval_ms : Z; connect_timeout_ms : Z; idle_timeout_ms : Z;
  reconnect_initial_delay_ms : Z; reconnect_max_delay_ms : Z }.

(** [i64::saturating_mul(2)] of the delay so far, within the maximum. *)
Definition next_delay_ms (p : SseTransportPolicy) (delay_ms : Z) : Z :=
  Z.min (Z.max (-9223372036854775808) (Z.min 9223372036854775807 (delay_ms * 2))) (reconnect_max_delay_ms p).
Definition reconnect_delay_ms (p : SseTransportPolicy) (consecutive_errors : Z) : Z :=
  Nat.iter (Z.to_nat (consecutive_errors - 1)) (next_delay_ms p) (reconnect_initial_delay_ms p).

Definition AEROBAG_SSE_TRANSPORT_POLICY : SseTransportPolicy :=
  {| heartbeat_interval_ms := 30000; connect_timeout_ms := 5000; idle_timeout_ms := 65000;
     reconnect_initial_delay_ms := 5000; reconnect_max_delay_ms := 65000 |}.

(** ** Proofs *)

Lemma lines_inj a a' l l' :
  x0a ∉ a → x0a ∉ a' → a ++ x0a :: l = a' ++ x0a :: l' → a = a' ∧ l = l'.
Proof.
  revert a'. induction a as [|x a IH]; intros [|y a'] Ha Ha' Heq; simpl in Heq.
  - injection Heq as ->. done.
  - injection Heq as <- _. destruct Ha'. left.
  - injection Heq as -> _. destruct Ha. left.
  - injection Heq as -> Heq. apply not_elem_of_cons in Ha as [_ Ha]. apply not_elem_of_cons in Ha' as [_ Ha'].
    apply IH in Heq as [-> ->]; done.
Qed.

Lemma as_lines_inj l l' :
  Forall (λ s, x0a ∉ s) l → Forall (λ s, x0a ∉ s) l' → as_lines l = as_lines l' → l = l'.
Proof.
  intros Hl. revert l'. induction Hl as [|s l Hs Hl IH]; intros [|s' l'] Hl' Heq; [done|..];
    unfold as_lines in Heq; rewrite ?fmap_cons in Heq; cbn [concat] in Heq; rewrite <- ?app_assoc in Heq.
  - by destruct s'.
  - by destruct s.
  - apply Forall_cons in Hl' as [Hs' Hl']. apply lines_inj in Heq as [-> Heq]; [|done..].
    f_equal. by apply IH.
Qed.

Lemma contains_any_false cs s b : contains_any cs s = false → b ∈ cs → b ∉ s.
Proof.
  unfold contains_any. intros Hc Hb Hs. apply not_true_iff_false in Hc. apply Hc.
  apply existsb_exists. exists b. split; [by apply list_elem_of_In|by apply bool_decide_eq_true].
Qed.

Lemma pretty_N_go_no_nl x s : x0a ∉ bs s → x0a ∉ bs (pretty_N_go x s).
Proof.
  revert s. induction (N.lt_wf_0 x) as [x _ IH]; intros s Hs.
  destruct (decide (x = 0)%N) as [->|Hx]; [by rewrite pretty_N_go_0|].
  rewrite pretty_N_go_step by lia. apply IH; [apply N.div_lt; lia|].
  unfold bs in *. cbn [String.list_byte_of_string]. apply not_elem_of_cons. split; [|done].
  unfold pretty_N_char. by repeat case_match.
Qed.
Lemma pretty_no_nl (z : Z) : x0a ∉ bs (pretty z).
Proof.
  assert (∀ n : N, x0a ∉ bs (pretty n)) as HN.
  { intros n. unfold pretty, pretty_N. case_decide; [by vm_compute; intros ?%list_elem_of_singleton|].
    apply pretty_N_go_no_nl. by intros ?%not_elem_of_nil. }
  destruct z as [|p|p]; unfold pretty, pretty_Z.
  - by intros ?%list_elem_of_singleton.
  - apply HN.
  - unfold bs. cbn [String.append String.list_byte_of_string]. apply not_elem_of_cons. split; [done|apply HN].
Qed.

Lemma bs_inj s s' : bs s = bs s' → s = s'.
Proof.
  unfold bs. intros Heq. rewrite <- (String.string_of_list_byte_of_string s),
    <- (String.string_of_list_byte_of_string s'). by rewrite Heq.
Qed.
Lemma dec_inj z z' : dec z = dec z' → z = z'.
Proof. intros Heq%bs_inj. by apply (inj pretty) in Heq. Qed.

Lemma signed_lines_clean a m target b :
  signing_bytes a m target = Ok b →
  b = as_lines (signed_lines a m target) ∧ Forall (λ s, x0a ∉ s) (signed_lines a m target).
Proof.
  unfold signing_bytes. intros ([] & _ & H)%bind_Ok. apply bind_Ok in H as ([] & Ht & H).
  apply bind_Ok in H as ([] & Hf & [= <-]). apply guard_err_Ok in Ht, Hf.
  apply orb_false_iff in Ht as [_ Ht]. split; [done|].
  assert (∀ s, s ∈ signature_fields a → x0a ∉ s) as Hfields.
  { intros s Hs. apply not_true_iff_false in Hf.
    destruct (bool_decide (s = []) || contains_any CRLF s) eqn:Hb.
    - destruct Hf. apply existsb_exists. exists s. split; [by apply list_elem_of_In|done].
    - apply orb_false_iff in Hb as [_ Hb]. eapply contains_any_false; [done|]. right. left. }
  unfold signed_lines. unfold signature_fields in Hfields. rewrite !Forall_cons. repeat split.
  - apply (contains_any_false CRLF); [done|]. right. left.
  - apply (contains_any_false CRLF); [by destruct m|]. right. left.
  - eapply contains_any_false; [done|]. right. left.
  - apply Hfields. left.
  - apply Hfields. right. left.
  - apply pretty_no_nl.
  - apply Hfields. do 2 right. left.
  - apply Hfields. do 3 right. left.
  - apply Forall_nil_2.
Qed.

(** A signature covers what the request does: the signed bytes of two requests are equal
    only when the method, the target, the account, the key, the time, the nonce and the
    digest of the body all are. *)
Theorem signing_bytes_bind a a' m m' target target' b :
  signing_bytes a m target = Ok b → signing_bytes a' m' target' = Ok b →
  m = m' ∧ target = target' ∧ account_locator a = account_locator a' ∧ signing_key_id a = signing_key_id a'
  ∧ timestamp_epoch_ms a = timestamp_epoch_ms a' ∧ nonce_base64url a = nonce_base64url a'
  ∧ body_sha256 a = body_sha256 a'.
Proof.
  intros [Hb Hc]%signed_lines_clean [Hb' Hc']%signed_lines_clean. subst b.
  apply as_lines_inj in Hb'; [|done..]. unfold signed_lines in Hb'.
  injection Hb' as Hm Ht Ha Hk Hz Hn Hd. apply dec_inj in Hz.
  repeat split; try done. destruct m, m'; vm_compute in Hm; congruence.
Qed.

(** ** Canonical targets *)

#[export] Instance pair_le_total : Total pair_le.
Proof.
  intros [a b] [c d]. unfold pair_le. simpl. destruct (bytes_lt_trichotomy a c) as [?|[->|?]]; [auto| |auto].
  destruct (total bytes_le b d); auto.
Qed.
#[export] Instance pair_le_trans : Transitive pair_le.
Proof.
  intros [a b] [c d] [e f]. unfold pair_le. simpl. intros [?|[-> ?]] [?|[-> ?]]; auto.
  - left. by etrans.
  - right. split; [done|]. by etrans.
Qed.
#[export] Instance pair_le_antisymm : AntiSymm (=) pair_le.
Proof.
  intros [a b] [c d]. unfold pair_le. simpl. intros [Hac|[-> Hbd]] [Hca|[Hc Hdb]]; subst.
  - exfalso. apply (bytes_lt_irrefl a). by etrans.
  - by apply bytes_lt_irrefl in Hac.
  - by apply bytes_lt_irrefl in Hca.
  - f_equal. by apply (anti_symm bytes_le).
Qed.

(** The canonical target does not depend on the order of the query's parameters. *)
Theorem canonical_target_order path q q' t t' :
  q ≠ [] → q' ≠ [] → query_pairs q ≡ₚ query_pairs q' →
  acs_canonical_request_target path (Some q) = Ok t →
  acs_canonical_request_target path (Some q') = Ok t' → t = t'.
Proof.
  intros Hq Hq' Hperm. unfold acs_canonical_request_target.
  destruct (_ || contains_any _ q); [done|]. destruct (_ || contains_any _ q'); [done|].
  destruct q as [|b q]; [done|]. destruct q' as [|b' q']; [done|]. cbv zeta.
  assert (merge_sort pair_le (query_pairs (b :: q)) = merge_sort pair_le (query_pairs (b' :: q'))) as ->.
  { apply (StronglySorted_unique pair_le); try apply (StronglySorted_merge_sort _).
    by rewrite !merge_sort_Permutation. }
  congruence.
Qed.

(** ** Authenticated values *)

Lemma framed32_inj a a' b b' :
  len a ≤ u32_max → len a' ≤ u32_max → framed32 a ++ b = framed32 a' ++ b' → a = a' ∧ b = b'.
Proof.
  unfold framed32, u32_max. intros Ha Ha' Heq. rewrite <- !app_assoc in Heq.
  apply app_inj_len in Heq as [Hl Heq]; [|by rewrite !length_be_bytes].
  pose proof (len_nonneg a). pose proof (len_nonneg a').
  apply be_bytes_inj in Hl; [|simpl; lia..]. apply app_inj_len in Heq; [done|]. unfold len in *. lia.
Qed.
Lemma framed_list_inj l l' :
  length l = length l' → Forall (λ s, len s ≤ u32_max) l → Forall (λ s, len s ≤ u32_max) l' →
  concat (framed32 <$> l) = concat (framed32 <$> l') → l = l'.
Proof.
  revert l'. induction l as [|s l IH]; intros [|s' l'] Hlen; try done.
  rewrite !Forall_cons, !fmap_cons. cbn [concat]. intros [Hs Hl] [Hs' Hl'] Heq.
  apply framed32_inj in Heq as [-> Heq]; [|done..]. f_equal. apply IH; [simpl in Hlen; lia|done..].
Qed.

(** Strings short enough for their length to be written in 32 bits. *)
Definition sized (id : bytes) (children : list bytes) : Prop :=
  len id ≤ u32_max ∧ Forall (λ s, len s ≤ u32_max) children.

Lemma associated_data_inj kind kind' id id' c c' d :
  sized id c → sized id' c' →
  acs_encrypted_value_associated_data kind id c = Ok d →
  acs_encrypted_value_associated_data kind' id' c' = Ok d → kind = kind' ∧ id = id' ∧ c = c'.
Proof.
  intros [Hi Hc] [Hi' Hc']. unfold acs_encrypted_value_associated_data.
  intros ([] & Hv & H)%bind_Ok ([] & Hv' & H')%bind_Ok.
  apply bind_Ok in H as ([] & _ & H). apply bind_Ok in H' as ([] & _ & Heq). rewrite <- H in Heq. clear H.
  apply Ok_inj in Heq. assert (∀ l, validate_child_object_ids l = Ok tt → len l ≤ 4096) as Hcount.
  { intros l (u & Hl & _)%bind_Ok. apply guard_err_Ok in Hl. zbool. done. }
  apply Hcount in Hv, Hv'. symmetry in Heq. apply app_inj_len in Heq as [_ Heq]; [|done].
  apply app_inj_len in Heq as [_ Heq]; [|done].
  assert (kind = kind') as <-.
  { destruct kind, kind'; try done; vm_compute in Heq; discriminate Heq. }
  split; [done|]. apply app_inj_len in Heq as [_ Heq]; [|done]. apply app_inj_len in Heq as [_ Heq]; [|done].
  apply framed32_inj in Heq as [<- Heq]; [|done..]. split; [done|].
  apply app_inj_len in Heq as [Hn Heq]; [|by rewrite !length_be_bytes].
  pose proof (len_nonneg c). pose proof (len_nonneg c').
  apply be_bytes_inj in Hn; [|simpl; lia..]. apply framed_list_inj in Heq; [done| |done..]. unfold len in Hn. lia.
Qed.

Section binding.
Context (sha256 : bytes → bytes) (b64_decode : bytes → option bytes).
Context (digest_length : ∀ b, length (sha256 b) = 32%nat).

(** The authenticated hash of a value determines its kind, its id, the objects it refers to
    and its ciphertext, unless two inputs with the same SHA-256 digest are at hand. *)
Theorem authenticated_hash_binds v v' kind kind' id id' h :
  sized id (child_object_ids v) → sized id' (child_object_ids v') →
  authenticated_hash sha256 b64_decode v kind id = Ok h →
  authenticated_hash sha256 b64_decode v' kind' id' = Ok h →
  (kind = kind' ∧ id = id' ∧ child_object_ids v = child_object_ids v'
   ∧ ciphertext b64_decode v = ciphertext b64_decode v') ∨ collision sha256.
Proof.
  intros Hs Hs'. unfold authenticated_hash.
  intros ([] & Hv & H)%bind_Ok ([] & Hv' & H')%bind_Ok.
  apply bind_Ok in H as (d & Hd & [= <-]). apply bind_Ok in H' as (d' & Hd' & [= Heq]).
  assert (∀ v, validate_value sha256 b64_decode v = Ok tt →
            ∃ c, ciphertext b64_decode v = Ok c ∧ ciphertext_sha256 v = hex_lower (sha256 c)) as Hval.
  { intros w (u & _ & H)%bind_Ok. apply bind_Ok in H as (c & Hc & H). apply guard_err_Ok in H.
    zbool. eauto. }
  apply Hval in Hv as (c & Hc & Hh). apply Hval in Hv' as (c' & Hc' & Hh').
  rewrite Hh, Hh' in Heq. apply hex_lower_inj, digest_inj in Heq as [Heq|]; [|by right].
  apply app_inj_2 in Heq as [-> Heq]; [|by rewrite !length_hex_lower, !digest_length].
  apply hex_lower_inj, digest_inj in Heq as [->|]; [|by right]. left.
  destruct (associated_data_inj kind kind' id id' (child_object_ids v) (child_object_ids v') d)
    as (? & ? & ?); [done..|]. repeat split; try done. congruence.
Qed.

End binding.

(** ** Reconnect delays *)

Lemma next_delay_iter n :
  Nat.iter n (next_delay_ms AEROBAG_SSE_TRANSPORT_POLICY) 5000 = Z.min 65000 (5000 * 2 ^ Z.of_nat n).
Proof.
  induction n as [|n IH]; [done|]. rewrite Nat.iter_succ, IH, Nat2Z.inj_succ, Z.pow_succ_r by lia.
  unfold next_delay_ms, AEROBAG_SSE_TRANSPORT_POLICY. cbn [reconnect_max_delay_ms].
  pose proof (Z.pow_pos_nonneg 2 (Z.of_nat n)). lia.
Qed.

(** The delay before a reconnect doubles from five seconds with every failure in a row and
    stays at sixty-five. *)
Theorem reconnect_delay_doubles n :
  reconnect_delay_ms AEROBAG_SSE_TRANSPORT_POLICY n = Z.min 65000 (5000 * 2 ^ (Z.max 1 n - 1)).
Proof.
  unfold reconnect_delay_ms. cbn [reconnect_initial_delay_ms AEROBAG_SSE_TRANSPORT_POLICY].
  rewrite next_delay_iter. do 3 f_equal. lia.
Qed.
