(* ===== verification/CloudRecords.v ===== *)
(** * Cloud records (app-core/src/cloud/records.rs, account_format.rs and cloud.rs)

    The documents a device synchronises: typed records under registered key families, the
    order in which one record replaces another, the store of cached records with the keys
    that wait to be published, the merge of a page read from the server, and the account
    formats with the migrations between them. The JSON codec (serde_json), SHA-256 (sha2)
    and the flight-plan and aircraft types are parameters ([CloudCodecs]). *)

From Stdlib Require Import Strings.Byte.
From stdpp Require Import base list strings gmap sets.
From S2P Require Import Prelude Utf8 NavKvRead.

Local Open Scope Z_scope.

(** ** Signed integers of 64 bits *)

Definition i64_min : Z := -9223372036854775808.
Definition i64_max : Z := 9223372036854775807.
Definition in_i64 (z : Z) : Prop := i64_min ≤ z ≤ i64_max.
Definition i64_clamp (z : Z) : Z := Z.max i64_min (Z.min i64_max z).
(** [i64::saturating_add] and [i64::saturating_sub]. *)
Definition i64_saturating_add (a b : Z) : Z := i64_clamp (a + b).
Definition i64_saturating_sub (a b : Z) : Z := i64_clamp (a - b).

(** [str::strip_prefix]. *)
Definition strip_prefix (key pre : bytes) : option bytes :=
  if starts_with key pre then Some (drop (length pre) key) else None.

(** [for x in l { body(x)?; }] over a mutable state. *)
Fixpoint st_for {S E A} (l : list A) (f : A → ST S E unit) : ST S E unit :=
  match l with
  | [] => mret tt
  | x :: l => f x ≫= λ _, st_for l f
  end.

(** ** Key patterns *)

Inductive KeyPattern :=
| Exact (v : bytes)
| Prefix (v : bytes)
| Prefixes (values : list bytes).

Definition matches (p : KeyPattern) (key : bytes) : bool :=
  match p with
  | Exact v => bool_decide (v = key)
  | Prefix v => starts_with key v
  | Prefixes values => existsb (λ v, starts_with key v) values
  end.

(** ** Errors: the text with its arguments *)

Inductive ErrArg := ArgNum (z : Z) | ArgText (s : bytes) | ArgKey (p : KeyPattern).
Record AppError := app_error { ae_text : string; ae_args : list ErrArg }.
Definition cloud_error (text : string) : AppError := app_error text [].

Abbreviation AppResult := (result AppError).

(** ** Wire types *)

Inductive PackageSelection := Unselected | Pause | Play.
Inductive SleepTimeout := SleepThirtyMinutes | SleepOneHour | SleepTwoHours | SleepFourHours | SleepNever.
Inductive Coverage := ViewportOnly | FullOffline.
Inductive Detail := Offline0 | OfflineLow1.
Inductive Cadence := CadenceNever | CadenceThirtyMinutes | CadenceTenMinutes | CadenceEveryUpdate.
Record NexradPreferences := {
  np_coverage : Coverage; np_offline_profile : Detail;
  np_shown_cadence : Cadence; np_hidden_cadence : Cadence; np_asleep_cadence : Cadence }.
Record AircraftMembership := { am_included : bool }.
(** The retired shape of a membership, read by the migration to format 2. *)
Record LegacyMembership := { lm_included : bool; lm_deleted : bool }.

#[export] Instance package_selection_eq_dec : EqDecision PackageSelection.
Proof. solve_decision. Defined.
#[export] Instance sleep_timeout_eq_dec : EqDecision SleepTimeout.
Proof. solve_decision. Defined.
#[export] Instance coverage_eq_dec : EqDecision Coverage.
Proof. solve_decision. Defined.
#[export] Instance detail_eq_dec : EqDecision Detail.
Proof. solve_decision. Defined.
#[export] Instance cadence_eq_dec : EqDecision Cadence.
Proof. solve_decision. Defined.
#[export] Instance nexrad_preferences_eq_dec : EqDecision NexradPreferences.
Proof. solve_decision. Defined.
#[export] Instance aircraft_membership_eq_dec : EqDecision AircraftMembership.
Proof. solve_decision. Defined.

(** ** The node of a published state *)

Record CloudNode := {
  cn_version : Z; cn_generation : Z; cn_published_at_epoch_ms : option Z;
  cn_parent_node_id : option bytes; cn_parent_node_hash : option bytes;
  cn_merkle_root_id : bytes; cn_merkle_root_hash : bytes; cn_next_slot_id : bytes }.
#[export] Instance cloud_node_eq_dec : EqDecision CloudNode.
Proof. solve_decision. Defined.

(** A page of records as [serde_json] sees it; [Json] is the type of JSON values. *)
Record CloudRecord {Json : Type} := {
  schema_version : Z;
  modified_at_epoch_ms : option Z;
  value : Json }.
Arguments CloudRecord : clear implicits.
Record CloudPage {Json : Type} := {
  cp_version : Z;
  cp_records : gmap bytes (CloudRecord Json) }.
Arguments CloudPage : clear implicits.

(** ** What is used of other code

    [Codec] is [serde_json::to_value] and [from_value] at one type, their errors already
    turned into [AppError]. *)
Record Codec (Json A : Type) := {
  ser : A → AppResult Json;
  de : Json → AppResult A }.
Arguments ser {Json A} c a.
Arguments de {Json A} c v.

Class CloudCodecs := {
  Json : Type;
  json_eq_dec :: EqDecision Json;
  sha256 : bytes → bytes;
  (** [serde_json::to_vec(&(schema_version, value))] *)
  versioned_to_vec : Z → Json → AppResult bytes;
  (** Flight plans: the runtime type, its wire type, and the conversions. *)
  FlightPlan : Type;
  flight_plan_eq_dec :: EqDecision FlightPlan;
  StoredFlightPlan : Type;
  stored_of_plan : FlightPlan → StoredFlightPlan;
  plan_try_from : StoredFlightPlan → AppResult FlightPlan;
  (** [plan.normalized()] with its guidance cleared. *)
  plan_normalized : FlightPlan → FlightPlan;
  plan_without_guidance : FlightPlan → FlightPlan;
  (** Aircraft definitions of the shared contracts. *)
  AircraftDefinition : Type;
  definition_validate : AircraftDefinition → AppResult unit;
  content_hash : AircraftDefinition → AppResult bytes;
  flight_plan_codec : Codec Json StoredFlightPlan;
  package_selection_codec : Codec Json PackageSelection;
  sleep_timeout_codec : Codec Json SleepTimeout;
  nexrad_codec : Codec Json NexradPreferences;
  bool_codec : Codec Json bool;
  aircraft_codec : Codec Json AircraftDefinition;
  membership_codec : Codec Json AircraftMembership;
  legacy_membership_from_value : Json → AppResult LegacyMembership;
  page_codec : Codec Json (CloudPage Json);
  node_from_value : Json → AppResult CloudNode;
  (** The [version] field of a JSON object, alone. *)
  header_from_value : Json → AppResult Z }.

Section records.
Context `{!CloudCodecs}.

Abbreviation CloudRecord := (CloudRecord Json).
Abbreviation CloudPage := (CloudPage Json).

#[export] Instance cloud_record_eq_dec : EqDecision CloudRecord.
Proof. solve_decision. Defined.

(** ** Record families (records.rs) *)

Record RecordSpec := {
  Wire : Type;
  KEY : KeyPattern;
  VERSION : Z;
  MUTABLE : bool;
  codec : Codec Json Wire;
  spec_validate : Wire → AppResult unit }.

Definition check_timestamp (S : RecordSpec) (modified : option Z) : AppResult unit :=
  guard_err (negb (Bool.eqb (bool_decide (is_Some modified)) (MUTABLE S)))
    (app_error "invalid mutation timestamp for {:?}" [ArgKey (KEY S)]).

Definition encode (S : RecordSpec) (v : Wire S) (modified : option Z) : AppResult CloudRecord :=
  _ ← check_timestamp S modified;
  _ ← spec_validate S v;
  json ← ser (codec S) v;
  Ok {| schema_version := VERSION S; modified_at_epoch_ms := modified; value := json |}.

Definition decode (S : RecordSpec) (r : CloudRecord) : AppResult (Wire S) :=
  _ ← guard_err (negb (schema_version r =? VERSION S))
        (app_error "unsupported cloud record schema {} for {:?}; requires {}"
           [ArgNum (schema_version r); ArgKey (KEY S); ArgNum (VERSION S)]);
  _ ← check_timestamp S (modified_at_epoch_ms r);
  v ← de (codec S) (value r);
  _ ← spec_validate S v;
  Ok v.

Definition FLIGHT_PLAN_RECORD_KEY : bytes := bs "flight_plan/current".
Definition OFFLINE_PACKAGE_REGION_RECORD_PREFIX : bytes := bs "offline_packages/region/".
Definition OFFLINE_PACKAGE_PRODUCT_RECORD_PREFIX : bytes := bs "offline_packages/product/".
Definition INACTIVITY_SLEEP_TIMEOUT_RECORD_KEY : bytes := bs "settings/inactivity_sleep_timeout".
Definition NEXRAD_ACQUISITION_RECORD_KEY : bytes := bs "settings/nexrad_acquisition".
Definition DEBUG_FLAG_RECORD_PREFIX : bytes := bs "settings/debug/".
Definition AIRCRAFT_LIBRARY_RECORD_PREFIX : bytes := bs "aircraft/library/".
Definition AIRCRAFT_DEFINITION_KEY_PREFIX : bytes := bs "aircraft/definition/".
Definition AIRCRAFT_DEFINITION_SCHEMA_VERSION : Z := 3.
Definition SERVICE_RECEIPT_PREFIX : bytes := bs "service/read/".

Definition no_check {A} (_ : A) : AppResult unit := Ok tt.

Definition FlightPlanRecord : RecordSpec :=
  {| KEY := Exact FLIGHT_PLAN_RECORD_KEY; VERSION := 4; MUTABLE := true; codec := flight_plan_codec;
     spec_validate := λ v, _ ← plan_try_from v; Ok tt |}.
Definition PackageSelectionRecord : RecordSpec :=
  {| KEY := Prefixes [OFFLINE_PACKAGE_REGION_RECORD_PREFIX; OFFLINE_PACKAGE_PRODUCT_RECORD_PREFIX];
     VERSION := 1; MUTABLE := true; codec := package_selection_codec; spec_validate := no_check |}.
Definition SleepRecord : RecordSpec :=
  {| KEY := Exact INACTIVITY_SLEEP_TIMEOUT_RECORD_KEY; VERSION := 1; MUTABLE := true;
     codec := sleep_timeout_codec; spec_validate := no_check |}.
Definition NexradRecord : RecordSpec :=
  {| KEY := Exact NEXRAD_ACQUISITION_RECORD_KEY; VERSION := 1; MUTABLE := true;
     codec := nexrad_codec; spec_validate := no_check |}.
Definition DebugRecord : RecordSpec :=
  {| KEY := Prefix DEBUG_FLAG_RECORD_PREFIX; VERSION := 1; MUTABLE := true;
     codec := bool_codec; spec_validate := no_check |}.
Definition AircraftRecord : RecordSpec :=
  {| KEY := Prefix AIRCRAFT_DEFINITION_KEY_PREFIX; VERSION := AIRCRAFT_DEFINITION_SCHEMA_VERSION;
     MUTABLE := false; codec := aircraft_codec; spec_validate := definition_validate |}.
Definition AircraftMembershipRecord : RecordSpec :=
  {| KEY := Prefix AIRCRAFT_LIBRARY_RECORD_PREFIX; VERSION := 2; MUTABLE := true;
     codec := membership_codec; spec_validate := no_check |}.
Definition ServiceReceiptRecord : RecordSpec :=
  {| KEY := Prefix SERVICE_RECEIPT_PREFIX; VERSION := 1; MUTABLE := false; codec := bool_codec;
     spec_validate := λ v : bool, guard_err (negb v) (cloud_error "read receipt must be true") |}.

Definition record_specs : list RecordSpec :=
  [FlightPlanRecord; PackageSelectionRecord; SleepRecord; NexradRecord; DebugRecord;
   AircraftRecord; AircraftMembershipRecord; ServiceReceiptRecord].

Definition is_lower_hex (b : byte) : bool := is_ascii_digit b || byte_in 97 102 (b2z b).
Definition is_ascii_hexdigit (b : byte) : bool := is_lower_hex b || byte_in 65 70 (b2z b).
Definition validate_aircraft_definition_hash (hash : bytes) : AppResult unit :=
  guard_err (negb (len hash =? 64) || negb (forallb is_lower_hex hash))
    (app_error "invalid aircraft definition SHA-256: {hash}" [ArgText hash]).
Definition aircraft_definition_key (hash : bytes) : AppResult bytes :=
  _ ← validate_aircraft_definition_hash hash;
  Ok (AIRCRAFT_DEFINITION_KEY_PREFIX ++ hash).

Definition validate_key_binding (key : bytes) (r : CloudRecord) : AppResult unit :=
  match strip_prefix key AIRCRAFT_DEFINITION_KEY_PREFIX with
  | Some hash =>
      definition ← decode AircraftRecord r;
      actual ← content_hash definition;
      guard_err (negb (bool_decide (actual = hash))) (cloud_error "aircraft definition record hash mismatch")
  | None =>
      match strip_prefix key AIRCRAFT_LIBRARY_RECORD_PREFIX with
      | Some hash => validate_aircraft_definition_hash hash
      | None =>
          match strip_prefix key SERVICE_RECEIPT_PREFIX with
          | Some id => guard_err (negb (len id =? 64) || negb (forallb is_ascii_hexdigit id))
                         (cloud_error "invalid immutable service read receipt")
          | None => Ok tt
          end
      end
  end.

(** The first family whose pattern fits decides; a key of no family is accepted as it is. *)
Fixpoint validate_specs (specs : list RecordSpec) (key : bytes) (r : CloudRecord) : AppResult unit :=
  match specs with
  | [] => Ok tt
  | spec :: specs =>
      if matches (KEY spec) key then _ ← decode spec r; validate_key_binding key r
      else validate_specs specs key r
  end.
Definition validate (key : bytes) (r : CloudRecord) : AppResult unit := validate_specs record_specs key r.

Definition migrate_aircraft_definition (r : CloudRecord) : AppResult (option CloudRecord) :=
  let migrated := {| schema_version := VERSION AircraftRecord;
                     modified_at_epoch_ms := modified_at_epoch_ms r; value := value r |} in
  _ ← decode AircraftRecord migrated;
  Ok (Some migrated).

(** ** The order of records (cloud.rs) *)

Definition LEGACY_UNKNOWN_MUTATION_EPOCH_MS : Z := i64_min.

Definition compare_cloud_records (left right : CloudRecord) : AppResult comparison :=
  match Z.compare (default LEGACY_UNKNOWN_MUTATION_EPOCH_MS (modified_at_epoch_ms left))
                  (default LEGACY_UNKNOWN_MUTATION_EPOCH_MS (modified_at_epoch_ms right)) with
  | Eq =>
      left_bytes ← versioned_to_vec (schema_version left) (value left);
      right_bytes ← versioned_to_vec (schema_version right) (value right);
      Ok (bytes_cmp (sha256 left_bytes) (sha256 right_bytes))
  | order => Ok order
  end.

(** ** Pages *)

Definition CLOUD_PAGE_VERSION : Z := 3.
Definition CLOUD_NODE_VERSION : Z := 3.

Definition page_for_records (records : gmap bytes CloudRecord) : CloudPage :=
  {| cp_version := CLOUD_PAGE_VERSION; cp_records := records |}.

Fixpoint validate_all (l : list (bytes * CloudRecord)) : AppResult unit :=
  match l with
  | [] => Ok tt
  | (key, r) :: l => _ ← validate key r; validate_all l
  end.
Definition validate_cloud_records (records : gmap bytes CloudRecord) : AppResult unit :=
  validate_all (map_iter records).

Definition validate_cloud_page (page : CloudPage) : AppResult unit :=
  _ ← guard_err (negb (cp_version page =? CLOUD_PAGE_VERSION))
        (app_error "unsupported cloud page version {}" [ArgNum (cp_version page)]);
  validate_cloud_records (cp_records page).

(** ** The synchronised store and the merge of a page *)

Record SynchronizedRecordStore := {
  cached : gmap bytes CloudRecord;
  pending_keys : gset bytes;
  deferred_adoption : gmap bytes CloudRecord }.
Definition store_default : SynchronizedRecordStore :=
  {| cached := ∅; pending_keys := ∅; deferred_adoption := ∅ |}.

Inductive ReadPurpose := Link | Poll | PublishRace.
#[export] Instance read_purpose_eq_dec : EqDecision ReadPurpose.
Proof. solve_decision. Defined.
Definition is_link (p : ReadPurpose) : bool := match p with Link => true | _ => false end.

Definition remote_wins (purpose : ReadPurpose) (s : SynchronizedRecordStore) (key : bytes) (remote : CloudRecord)
    : AppResult bool :=
  if is_link purpose && negb (bool_decide (key ∈ pending_keys s)) then Ok true
  else match cached s !! key with
       | None => Ok true
       | Some local =>
           order ← compare_cloud_records remote local;
           Ok (match order with Lt => false | _ => true end)
       end.

(** One remote record: adopted, or the local one is left to be published. *)
Definition reconcile_record (purpose : ReadPurpose) (entry : bytes * CloudRecord)
    : ST (SynchronizedRecordStore * gmap bytes CloudRecord) AppError unit :=
  λ '(s, changed_records),
    let '(key, remote) := entry in
    match (_ ← validate key remote; remote_wins purpose s key remote) with
    | Err e => (Err e, (s, changed_records))
    | Ok true =>
        let changed := is_link purpose || negb (bool_decide (cached s !! key = Some remote)) in
        (Ok tt,
         ({| cached := <[key := remote]> (cached s);
             pending_keys := pending_keys s ∖ {[key]};
             deferred_adoption := deferred_adoption s |},
          if changed then <[key := remote]> changed_records else changed_records))
    | Ok false =>
        (Ok tt,
         ({| cached := cached s; pending_keys := pending_keys s ∪ {[key]};
             deferred_adoption := deferred_adoption s |}, changed_records))
    end.

(** The local records the page does not name are left to be published. *)
Definition keep_local (local_keys remote_keys : gset bytes) (s : SynchronizedRecordStore)
    : SynchronizedRecordStore :=
  {| cached := cached s; pending_keys := pending_keys s ∪ (local_keys ∖ remote_keys);
     deferred_adoption := deferred_adoption s |}.

Definition reconcile_page (page : CloudPage) (purpose : ReadPurpose)
    : ST SynchronizedRecordStore AppError (gmap bytes CloudRecord) :=
  λ s,
    match st_for (map_iter (cp_records page)) (reconcile_record purpose) (s, ∅) with
    | (Ok _, (s', changed_records)) =>
        (Ok changed_records, keep_local (dom (cached s)) (dom (cp_records page)) s')
    | (Err e, (s', _)) => (Err e, s')
    end.

(** ** The time of a local edit *)

Definition next_record_mutation_epoch_ms (s : SynchronizedRecordStore) (key : bytes) (now_epoch_ms : Z) : Z :=
  let times := omap (λ r, modified_at_epoch_ms r)
                 (option_list (cached s !! key) ++ option_list (deferred_adoption s !! key)) in
  let latest := match times with
                | [] => LEGACY_UNKNOWN_MUTATION_EPOCH_MS
                | t :: times => foldl Z.max t times
                end in
  Z.max now_epoch_ms (i64_saturating_add latest 1).

(** ** Account formats (account_format.rs) *)

Record RecordMigration := {
  mg_key : KeyPattern;
  mg_source_versions : list Z;
  mg_target_version : option Z;
  mg_convert : CloudRecord → AppResult (option CloudRecord);
  mg_explanation : string }.

Inductive AccountFormat := Format {
  af_version : Z;
  af_predecessor : option AccountFormat;
  af_decode_node : Json → AppResult CloudNode;
  af_decode_page : Json → AppResult CloudPage;
  af_encode_page : CloudPage → AppResult Json;
  af_migrations : list RecordMigration }.

(** [self.predecessor.filter(|prior| prior.version < self.version)] *)
Definition prior_of (f : AccountFormat) : option AccountFormat :=
  match af_predecessor f with
  | Some prior => if af_version prior <? af_version f then Some prior else None
  | None => None
  end.

Fixpoint find_format (f : AccountFormat) (version : Z) : option AccountFormat :=
  if version =? af_version f then Some f
  else match af_predecessor f with
       | Some prior => if af_version prior <? af_version f then find_format prior version else None
       | None => None
       end.

Definition can_upgrade (f : AccountFormat) (from : Z) : bool :=
  (from <? af_version f) && bool_decide (is_Some (find_format f from)).

Definition migrate_record (rules : list RecordMigration) (migrated : gmap bytes CloudRecord)
    (entry : bytes * CloudRecord) : AppResult (gmap bytes CloudRecord) :=
  let '(key, original) := entry in
  match filter (λ rule, matches (mg_key rule) key = true) rules with
  | [] => Ok migrated
  | _ :: _ :: _ => Err (cloud_error "Overlapping account migration rules")
  | [rule] =>
      _ ← guard_err (negb (bool_decide (schema_version original ∈ mg_source_versions rule)))
            (app_error "No migration for {key} schema {}" [ArgText key; ArgNum (schema_version original)]);
      converted ← mg_convert rule original;
      match converted with
      | Some r =>
          _ ← guard_err (negb (bool_decide (mg_target_version rule = Some (schema_version r)))
                         || negb (bool_decide (modified_at_epoch_ms r = modified_at_epoch_ms original)))
                (cloud_error "Account migration changed its declared schema or mutation timestamp");
          Ok (<[key := r]> migrated)
      | None =>
          _ ← guard_err (bool_decide (is_Some (mg_target_version rule)))
                (cloud_error "Account migration unexpectedly discarded a record");
          Ok (delete key migrated)
      end
  end.

Fixpoint migrate (f : AccountFormat) (from : Z) (records : gmap bytes CloudRecord)
    : AppResult (gmap bytes CloudRecord) :=
  if from =? af_version f then Ok records
  else
    let no_path := app_error "No account migration from format {from} to {}" [ArgNum from; ArgNum (af_version f)] in
    match af_predecessor f with
    | Some prior =>
        if af_version prior <? af_version f then
          migrated ← migrate prior from records;
          try_fold (migrate_record (af_migrations f)) migrated (map_iter migrated)
        else Err no_path
    | None => Err no_path
    end.

Definition migrate_legacy_membership (r : CloudRecord) : AppResult (option CloudRecord) :=
  v ← legacy_membership_from_value (value r);
  m ← encode AircraftMembershipRecord {| am_included := lm_included v |} (modified_at_epoch_ms r);
  Ok (Some m).

Definition decode_page_of (expected : Z) (text : string) (v : Json) : AppResult CloudPage :=
  page ← de page_codec v;
  _ ← guard_err (negb (cp_version page =? expected)) (cloud_error text);
  Ok page.

Definition LEGACY : AccountFormat :=
  {| af_version := 1; af_predecessor := None; af_decode_node := node_from_value;
     af_decode_page := decode_page_of 1 "Expected account format 1 page";
     af_encode_page := λ _, Err (cloud_error "Historical account format 1 is read-only");
     af_migrations := [] |}.

Definition FORMAT_2 : AccountFormat :=
  {| af_version := 2; af_predecessor := Some LEGACY; af_decode_node := node_from_value;
     af_decode_page := decode_page_of 2 "Expected account format 2 page";
     af_encode_page := λ _, Err (cloud_error "Historical account format 2 is read-only");
     af_migrations :=
       [{| mg_key := Exact FLIGHT_PLAN_RECORD_KEY; mg_source_versions := [1; 2; 3];
           mg_target_version := None; mg_convert := λ _, Ok None;
           mg_explanation := "This upgrade removes the previously shared flight plan. Other synchronized data is retained. It does not clear the flight plan currently open on this device." |};
        {| mg_key := Prefix AIRCRAFT_LIBRARY_RECORD_PREFIX; mg_source_versions := [1];
           mg_target_version := Some 2; mg_convert := migrate_legacy_membership; mg_explanation := EmptyString |}] |}.

Definition CURRENT : AccountFormat :=
  {| af_version := CLOUD_NODE_VERSION; af_predecessor := Some FORMAT_2; af_decode_node := node_from_value;
     af_decode_page := λ v, page ← de page_codec v; _ ← validate_cloud_page page; Ok page;
     af_encode_page := λ page, _ ← validate_cloud_page page; ser page_codec page;
     af_migrations :=
       [{| mg_key := Prefix AIRCRAFT_DEFINITION_KEY_PREFIX; mg_source_versions := [2; 3];
           mg_target_version := Some 3; mg_convert := migrate_aircraft_definition;
           mg_explanation := "This upgrade enables aircraft glide-performance data. Existing aircraft definitions and library choices are retained." |}] |}.

Fixpoint upgrade_explanation (f : AccountFormat) (from : Z) : string :=
  if from =? af_version f then EmptyString
  else
    let parts := match af_predecessor f with Some prior => upgrade_explanation prior from | None => EmptyString end in
    foldl (λ parts rule,
             if bool_decide (mg_explanation rule = EmptyString) then parts
             else ((if bool_decide (parts = EmptyString) then parts else parts +:+ " ") +:+ mg_explanation rule)%string)
      parts (af_migrations f).

(** The account format a published root declares. *)
Definition read_version (v : Json) : AppResult Z :=
  version ← header_from_value v;
  _ ← guard_err (version =? 0) (cloud_error "Invalid cloud account format 0");
  Ok version.

Record ObservedRoot := {
  or_version : Z; or_revision : Z; or_hash : bytes; or_records_verified : bool }.
Definition root_matches (o : ObservedRoot) (revision : Z) (hash : option bytes) : bool :=
  (or_revision o =? revision) && bool_decide (Some (or_hash o) = hash).

End records.

#[export] Existing Instance cloud_record_eq_dec.
#[export] Existing Instance read_purpose_eq_dec.
