(* ===== verification/CloudRecordsCorrect.v ===== *)
(** * Correctness of the cloud record merge

    The order of records is a total preorder on (time of the edit, digest of the content);
    reading a page merges it key by key, newest record first; what is pending afterwards is
    exactly what the server lacks; and devices that have read the same pages agree.

    A migration between account formats acts on each record by itself, whatever the order
    of the loop; it keeps the times of the edits and, for the formats that exist, every
    record but the retired flight plan. No key belongs to two record families, and what a
    family encodes it decodes. *)

From Stdlib Require Import Strings.Byte.
From stdpp Require Import base list strings gmap sets fin_maps.
From S2P Require Import Prelude Utf8 NavKvRead CloudRecords.

Local Open Scope Z_scope.

(** What the merge relies on: encoding a JSON value in memory does not fail. *)
Class CodecTotal `{!CloudCodecs} : Prop :=
  versioned_to_vec_total v j : ∃ b, versioned_to_vec v j = Ok b.

Section order.
Context {CC : CloudCodecs} {CT : CodecTotal}.
Implicit Types (a b c r : CloudRecord Json) (s : SynchronizedRecordStore) (k : bytes).

Definition stamp r : Z := default LEGACY_UNKNOWN_MUTATION_EPOCH_MS (modified_at_epoch_ms r).
Definition digest r : bytes :=
  match versioned_to_vec (schema_version r) (value r) with Ok b => sha256 b | Err _ => [] end.
Definition rank_cmp a b : comparison :=
  match Z.compare (stamp a) (stamp b) with Eq => bytes_cmp (digest a) (digest b) | o => o end.

(** [a] does not replace [b]. *)
Definition older_eq a b : Prop := rank_cmp a b ≠ Gt.
(** Neither replaces the other. *)
Definition same_rank a b : Prop := stamp a = stamp b ∧ digest a = digest b.

Lemma compare_rank a b : compare_cloud_records a b = Ok (rank_cmp a b).
Proof.
  unfold compare_cloud_records, rank_cmp, stamp, digest.
  destruct (versioned_to_vec_total (schema_version a) (value a)) as [ba ->].
  destruct (versioned_to_vec_total (schema_version b) (value b)) as [bb ->].
  by destruct (Z.compare _ _).
Qed.

Lemma rank_cmp_opp a b : rank_cmp b a = CompOpp (rank_cmp a b).
Proof.
  unfold rank_cmp. rewrite (Z.compare_antisym (stamp a) (stamp b)), (bytes_cmp_opp (digest a) (digest b)).
  by destruct (Z.compare _ _).
Qed.
Lemma rank_cmp_eq a b : rank_cmp a b = Eq ↔ same_rank a b.
Proof.
  unfold rank_cmp, same_rank. destruct (Z.compare_spec (stamp a) (stamp b)).
  - rewrite bytes_cmp_eq. naive_solver.
  - split; [done|lia].
  - split; [done|lia].
Qed.
Lemma older_eq_alt a b :
  older_eq a b ↔ stamp a < stamp b ∨ stamp a = stamp b ∧ bytes_le (digest a) (digest b).
Proof.
  unfold older_eq, rank_cmp, bytes_le. destruct (Z.compare_spec (stamp a) (stamp b)); split; try naive_solver lia.
Qed.

#[export] Instance older_eq_preorder : PreOrder older_eq.
Proof.
  split.
  - intros a. rewrite older_eq_alt. by right.
  - intros a b c. rewrite !older_eq_alt. intros [?|[? Hab]] [?|[? Hbc]]; [left; lia..|].
    right. split; [lia|]. by etrans.
Qed.
#[export] Instance older_eq_total : Total older_eq.
Proof.
  intros a b. unfold older_eq. rewrite (rank_cmp_opp a b).
  destruct (rank_cmp a b); simpl; [by left|by left|by right].
Qed.
#[export] Instance same_rank_equivalence : Equivalence same_rank.
Proof.
  split; [by intros a|by intros a b [? ?]|].
  intros a b c [? ?] [? ?]. split; by etrans.
Qed.
Lemma older_eq_antisymm a b : older_eq a b → older_eq b a → same_rank a b.
Proof.
  unfold older_eq. rewrite (rank_cmp_opp a b), <- rank_cmp_eq. by destruct (rank_cmp a b).
Qed.
Lemma same_rank_older_eq a b : same_rank a b → older_eq a b ∧ older_eq b a.
Proof. unfold older_eq. rewrite (rank_cmp_opp a b), <- rank_cmp_eq. by intros ->. Qed.

(** The record that survives; the remote one when neither is newer. *)
Definition newest (local remote : CloudRecord Json) : CloudRecord Json :=
  match rank_cmp remote local with Lt => local | _ => remote end.

Lemma newest_ub l r : older_eq l (newest l r) ∧ older_eq r (newest l r).
Proof.
  unfold newest. pose proof (rank_cmp_opp r l) as Hopp.
  destruct (rank_cmp r l) eqn:Hc; split; try reflexivity; unfold older_eq; by rewrite ?Hopp, ?Hc.
Qed.
Lemma newest_choice l r : newest l r = l ∨ newest l r = r.
Proof. unfold newest. destruct (rank_cmp r l); auto. Qed.
Lemma newest_older_eq l r : older_eq l r → newest l r = r.
Proof. unfold older_eq, newest. rewrite (rank_cmp_opp r l). by destruct (rank_cmp r l). Qed.
Lemma newest_strict l r : rank_cmp r l = Lt → newest l r = l.
Proof. unfold newest. by intros ->. Qed.

(** ** Keyed merge *)

Definition merge_records (local remote : gmap bytes (CloudRecord Json)) : gmap bytes (CloudRecord Json) :=
  union_with (λ l r, Some (newest l r)) local remote.

Lemma lookup_merge local remote k :
  merge_records local remote !! k =
  match local !! k, remote !! k with
  | Some l, Some r => Some (newest l r)
  | Some l, None => Some l
  | None, o => o
  end.
Proof.
  unfold merge_records. rewrite lookup_union_with.
  by destruct (local !! k), (remote !! k).
Qed.

(** ** The loop of [reconcile_page] *)

Definition adopts (purpose : ReadPurpose) s k (remote : CloudRecord Json) : bool :=
  is_link purpose && negb (bool_decide (k ∈ pending_keys s)) ||
  match cached s !! k with
  | None => true
  | Some local => match rank_cmp remote local with Lt => false | _ => true end
  end.

Lemma remote_wins_adopts purpose s k remote :
  remote_wins purpose s k remote = Ok (adopts purpose s k remote).
Proof.
  unfold remote_wins, adopts. destruct (is_link purpose && _); [done|]. simpl.
  destruct (cached s !! k) as [l|]; [|done]. rewrite compare_rank. done.
Qed.

Definition visibly_changed (purpose : ReadPurpose) s k (remote : CloudRecord Json) : bool :=
  is_link purpose || negb (bool_decide (cached s !! k = Some remote)).

(** What a pass over the remote entries leaves at one key. *)
Definition reconciled_at (purpose : ReadPurpose) (remote : option (CloudRecord Json)) k s
    (changed : gmap bytes (CloudRecord Json)) s' (changed' : gmap bytes (CloudRecord Json)) : Prop :=
  match remote with
  | None => cached s' !! k = cached s !! k ∧ (k ∈ pending_keys s' ↔ k ∈ pending_keys s) ∧ changed' !! k = changed !! k
  | Some r =>
      if adopts purpose s k r
      then cached s' !! k = Some r ∧ k ∉ pending_keys s' ∧
           changed' !! k = (if visibly_changed purpose s k r then Some r else changed !! k)
      else cached s' !! k = cached s !! k ∧ k ∈ pending_keys s' ∧ changed' !! k = changed !! k
  end.

Lemma reconcile_record_step purpose k r s changed :
  validate k r = Ok tt →
  ∃ s' changed', reconcile_record purpose (k, r) (s, changed) = (Ok tt, (s', changed'))
    ∧ deferred_adoption s' = deferred_adoption s
    ∧ reconciled_at purpose (Some r) k s changed s' changed'
    ∧ ∀ k', k' ≠ k → reconciled_at purpose None k' s changed s' changed'.
Proof.
  intros Hv. unfold reconcile_record. rewrite Hv. simpl. rewrite remote_wins_adopts.
  unfold reconciled_at, visibly_changed.
  destruct (adopts purpose s k r); do 2 eexists; (split; [done|]); simpl; (split; [done|]).
  - rewrite lookup_insert_eq. split; [split; [done|]; split; [set_solver|]|].
    + destruct (_ || _); [by rewrite lookup_insert_eq|done].
    + intros k' Hk. rewrite lookup_insert_ne by done. split; [done|].
      split; [set_solver|]. destruct (_ || _); [by rewrite lookup_insert_ne|done].
  - split; [split; [done|]; split; [set_solver|done]|]. intros k' Hk. set_solver.
Qed.

Lemma adopts_ext purpose s1 s2 k r :
  cached s1 !! k = cached s2 !! k → (k ∈ pending_keys s1 ↔ k ∈ pending_keys s2) →
  adopts purpose s1 k r = adopts purpose s2 k r.
Proof. intros Hc Hp. unfold adopts. rewrite Hc. by rewrite (bool_decide_ext _ _ Hp). Qed.

Lemma reconcile_for purpose l s changed :
  NoDup l.*1 → (∀ k r, (k, r) ∈ l → validate k r = Ok tt) →
  ∃ s' changed', st_for l (reconcile_record purpose) (s, changed) = (Ok tt, (s', changed'))
    ∧ deferred_adoption s' = deferred_adoption s
    ∧ ∀ k, reconciled_at purpose ((list_to_map l : gmap _ _) !! k) k s changed s' changed'.
Proof.
  revert s changed. induction l as [|[k r] l IH]; intros s changed Hnd Hv.
  { exists s, changed. split; [done|]. split; [done|]. intros k.
    rewrite list_to_map_nil, lookup_empty. done. }
  apply NoDup_cons in Hnd as [Hk Hnd].
  destruct (reconcile_record_step purpose k r s changed) as (s1 & ch1 & Hrun & Hd & Hat & Hne); [apply Hv; left|].
  destruct (IH s1 ch1 Hnd) as (s2 & ch2 & Hrun2 & Hd2 & Hat2); [intros; apply Hv; by right|].
  exists s2, ch2. split; [|split; [congruence|]].
  { simpl. rewrite ST_bind_unfold, Hrun. done. }
  intros k'. rewrite list_to_map_cons. destruct (decide (k' = k)) as [->|Hkk].
  - rewrite lookup_insert_eq. specialize (Hat2 k).
    rewrite (not_elem_of_list_to_map_1 l k) in Hat2 by done.
    destruct Hat2 as (Hc & Hp & Hch). unfold reconciled_at in Hat |- *.
    destruct (adopts purpose s k r); rewrite Hc, Hp, Hch; done.
  - rewrite lookup_insert_ne by done. specialize (Hat2 k'). specialize (Hne k' Hkk) as (Hc & Hp & Hch).
    unfold reconciled_at in Hat2 |- *. destruct (list_to_map l !! k') as [r'|].
    + rewrite (adopts_ext purpose s1 s) in Hat2 by done. unfold visibly_changed in *.
      rewrite Hc, Hch in Hat2. done.
    + rewrite Hc, Hp, Hch in Hat2. done.
Qed.

(** What reading a page leaves at one key. *)
Definition page_reconciled (purpose : ReadPurpose) (page : CloudPage Json) s
    (changed : gmap bytes (CloudRecord Json)) s' : Prop :=
  deferred_adoption s' = deferred_adoption s ∧
  ∀ k, match cp_records page !! k with
       | Some r =>
           if adopts purpose s k r
           then cached s' !! k = Some r ∧ k ∉ pending_keys s' ∧
                changed !! k = (if visibly_changed purpose s k r then Some r else None)
           else cached s' !! k = cached s !! k ∧ k ∈ pending_keys s' ∧ changed !! k = None
       | None =>
           cached s' !! k = cached s !! k ∧
           (k ∈ pending_keys s' ↔ k ∈ pending_keys s ∨ k ∈ dom (cached s)) ∧ changed !! k = None
       end.

Definition page_ok (page : CloudPage Json) : Prop := map_Forall (λ k r, validate k r = Ok tt) (cp_records page).

Lemma map_iter_fst_NoDup (m : gmap bytes (CloudRecord Json)) : NoDup (map_iter m).*1.
Proof. rewrite map_iter_Permutation. apply NoDup_fst_map_to_list. Qed.
Lemma list_to_map_map_iter (m : gmap bytes (CloudRecord Json)) : list_to_map (map_iter m) = m.
Proof.
  etrans; [|apply list_to_map_to_list]. apply list_to_map_proper; [apply map_iter_fst_NoDup|].
  apply map_iter_Permutation.
Qed.

Lemma reconcile_page_run page purpose s :
  page_ok page →
  ∃ changed s', reconcile_page page purpose s = (Ok changed, s') ∧ page_reconciled purpose page s changed s'.
Proof.
  intros Hok.
  destruct (reconcile_for purpose (map_iter (cp_records page)) s ∅ (map_iter_fst_NoDup _))
    as (s' & ch & Hrun & Hd & Hat).
  { intros k r Hk. apply Hok. by apply elem_of_map_iter. }
  exists ch, (keep_local (dom (cached s)) (dom (cp_records page)) s').
  unfold reconcile_page. rewrite Hrun. split; [done|]. split; [done|].
  intros k. specialize (Hat k). rewrite list_to_map_map_iter in Hat. unfold reconciled_at in Hat. simpl.
  destruct (cp_records page !! k) as [r|] eqn:Hk.
  - assert (k ∈ dom (cp_records page)) by (apply elem_of_dom; eauto).
    destruct (adopts purpose s k r).
    + destruct Hat as (Hc & Hp & Hch). rewrite lookup_empty in Hch. set_solver.
    + destruct Hat as (Hc & Hp & Hch). rewrite lookup_empty in Hch. set_solver.
  - assert (k ∉ dom (cp_records page)) by (by apply not_elem_of_dom).
    destruct Hat as (Hc & Hp & Hch). rewrite lookup_empty in Hch. set_solver.
Qed.

(** ** What a device knows after reading pages *)

Lemma page_reconciled_merge purpose page s changed s' :
  purpose ≠ Link → page_reconciled purpose page s changed s' →
  cached s' = merge_records (cached s) (cp_records page).
Proof.
  intros Hp [_ Hat]. apply map_eq. intros k. specialize (Hat k). rewrite lookup_merge.
  destruct (cp_records page !! k) as [r|].
  - unfold adopts in Hat. replace (is_link purpose) with false in Hat by (by destruct purpose). simpl in Hat.
    destruct (cached s !! k) as [l|].
    + unfold newest. destruct (rank_cmp r l); naive_solver.
    + naive_solver.
  - destruct Hat as [-> _]. by destruct (cached s !! k).
Qed.

Lemma page_reconciled_covers purpose page s changed s' k r :
  page_reconciled purpose page s changed s' → cp_records page !! k = Some r →
  ∃ r', cached s' !! k = Some r' ∧ older_eq r r' ∧ (k ∈ pending_keys s' ↔ r' ≠ r).
Proof.
  intros [_ Hat] Hk. specialize (Hat k). rewrite Hk in Hat.
  destruct (adopts purpose s k r) eqn:Had.
  - destruct Hat as (Hc & Hp & _). exists r. split; [done|]. split; [reflexivity|naive_solver].
  - destruct Hat as (Hc & Hp & _). unfold adopts in Had. apply orb_false_iff in Had as [_ Had].
    destruct (cached s !! k) as [l|]; [|done]. exists l. destruct (rank_cmp r l) eqn:Hrl; try done.
    split; [done|]. split; [unfold older_eq; by rewrite Hrl|]. split; [|done]. intros _ ->.
    pose proof (proj2 (rank_cmp_eq r r) ltac:(reflexivity)). congruence.
Qed.

Lemma page_reconciled_dom purpose page s changed s' :
  page_reconciled purpose page s changed s' → dom (cached s') = dom (cached s) ∪ dom (cp_records page).
Proof.
  intros Hpr. apply set_eq. intros k. rewrite elem_of_union, !elem_of_dom.
  pose proof Hpr as [_ Hat]. specialize (Hat k).
  destruct (cp_records page !! k) as [r|] eqn:Hk.
  - destruct (page_reconciled_covers _ _ _ _ _ _ _ Hpr Hk) as (r' & -> & _). naive_solver.
  - destruct Hat as [-> _]. naive_solver.
Qed.

Lemma page_reconciled_pending purpose page s changed s' k :
  pending_keys s ⊆ dom (cached s) → page_reconciled purpose page s changed s' →
  k ∈ pending_keys s' ↔ k ∈ dom (cached s') ∧ cached s' !! k ≠ cp_records page !! k.
Proof.
  intros Hsub Hpr. pose proof Hpr as [_ Hat]. specialize (Hat k).
  destruct (cp_records page !! k) as [r|] eqn:Hk.
  - destruct (page_reconciled_covers _ _ _ _ _ _ _ Hpr Hk) as (r' & Hc & _ & ->).
    rewrite elem_of_dom, Hc. naive_solver.
  - destruct Hat as (Hc & -> & _). rewrite !elem_of_dom, Hc.
    split; [|intros [? _]; by right]. intros H. assert (is_Some (cached s !! k)) as [r Hr].
    { destruct H as [H|H]; [|done]. apply elem_of_dom. by apply Hsub. }
    rewrite Hr. eauto.
Qed.

(** What is kept and what is reported, key by key. *)
Lemma page_reconciled_cached purpose page s changed s' k :
  page_reconciled purpose page s changed s' →
  cached s' !! k =
  match cp_records page !! k, cached s !! k with
  | None, local => local
  | Some r, None => Some r
  | Some r, Some l => Some (if is_link purpose && negb (bool_decide (k ∈ pending_keys s)) then r else newest l r)
  end.
Proof.
  intros [_ Hat]. specialize (Hat k). destruct (cp_records page !! k) as [r|]; [|by destruct Hat as [-> _]].
  unfold adopts in Hat. destruct (cached s !! k) as [l|] eqn:Hl.
  - destruct (is_link purpose && _); cbn [orb] in Hat; [naive_solver|].
    unfold newest. destruct (rank_cmp r l); naive_solver.
  - rewrite orb_true_r in Hat. naive_solver.
Qed.
Lemma page_reconciled_changed purpose page s changed s' k r :
  page_reconciled purpose page s changed s' →
  changed !! k = Some r ↔
  cp_records page !! k = Some r ∧ cached s' !! k = Some r ∧ (purpose = Link ∨ cached s !! k ≠ Some r).
Proof.
  intros [_ Hat]. specialize (Hat k). destruct (cp_records page !! k) as [r0|]; [|naive_solver].
  destruct (adopts purpose s k r0) eqn:Had; destruct Hat as (Hc & _ & Hch).
  - rewrite Hch, Hc. unfold visibly_changed. destruct purpose; cbn [is_link orb]; [naive_solver| |];
      case_bool_decide; naive_solver.
  - rewrite Hch, Hc. split; [done|]. intros (Hr & Hl & _). simplify_eq. unfold adopts in Had. rewrite Hl in Had.
    rewrite (proj2 (rank_cmp_eq r r)) in Had by reflexivity. by rewrite orb_true_r in Had.
Qed.

(** Reading a sequence of pages, as polling does. *)
Fixpoint read_pages (pages : list (CloudPage Json)) s : SynchronizedRecordStore :=
  match pages with
  | [] => s
  | p :: pages => read_pages pages (reconcile_page p Poll s).2
  end.

Lemma read_pages_newest pages s k :
  Forall page_ok pages →
  match cached (read_pages pages s) !! k with
  | Some r => (cached s !! k = Some r ∨ ∃ p, p ∈ pages ∧ cp_records p !! k = Some r)
              ∧ (∀ l, cached s !! k = Some l → older_eq l r)
              ∧ (∀ p l, p ∈ pages → cp_records p !! k = Some l → older_eq l r)
  | None => cached s !! k = None ∧ ∀ p, p ∈ pages → cp_records p !! k = None
  end.
Proof.
  intros Hok. revert s. induction Hok as [|p pages Hp Hok IH]; intros s; simpl.
  { destruct (cached s !! k); [|split; [done|]; by intros ? ?%not_elem_of_nil].
    split; [by left|]. split; [naive_solver|]. by intros ?? ?%not_elem_of_nil. }
  destruct (reconcile_page_run p Poll s Hp) as (ch & s' & -> & Hpr). simpl.
  assert (cached s' = merge_records (cached s) (cp_records p)) as Hm
    by (eapply page_reconciled_merge; [|exact Hpr]; done).
  specialize (IH s'). rewrite Hm, lookup_merge in IH.
  destruct (cached (read_pages pages s') !! k) as [r|].
  - destruct IH as (Hsrc & Hloc & Hrem).
    assert (∀ l, cached s !! k = Some l → older_eq l r) as H1.
    { intros l Hl. rewrite Hl in Hloc. destruct (cp_records p !! k) as [r0|]; [|by apply Hloc].
      etrans; [apply (newest_ub l r0)|]. by apply Hloc. }
    assert (∀ r0, cp_records p !! k = Some r0 → older_eq r0 r) as H2.
    { intros r0 Hr0. rewrite Hr0 in Hloc. destruct (cached s !! k) as [l|]; [|by apply Hloc].
      etrans; [apply (newest_ub l r0)|]. by apply Hloc. }
    split; [|split; [done|]].
    + destruct Hsrc as [Hsrc|(q & Hq & Hr)]; [|right; exists q; split; [by right|done]].
      destruct (cached s !! k) as [l|], (cp_records p !! k) as [r0|] eqn:Hpk; simplify_eq; try by left.
      * destruct (newest_choice l r0) as [->| ->]; [by left|]. right. exists p. split; [left|done].
      * right. exists p. split; [left|done].
    + intros q l [->|Hq]%elem_of_cons Hl; eauto.
  - destruct IH as [Hn Hrem]. destruct (cached s !! k), (cp_records p !! k) as [r0|] eqn:Hpk; try done.
    split; [done|]. intros q [->|Hq]%elem_of_cons; auto.
Qed.

(** Every record a device holds was published in one of the pages, or replaced there. *)
Definition published s (pages : list (CloudPage Json)) : Prop :=
  ∀ k r, cached s !! k = Some r → ∃ p r', p ∈ pages ∧ cp_records p !! k = Some r' ∧ older_eq r r'.

Lemma read_pages_agree pages1 pages2 s1 s2 k r1 :
  Forall page_ok pages1 → Forall page_ok pages2 → (∀ p, p ∈ pages1 → p ∈ pages2) → published s1 pages1 →
  cached (read_pages pages1 s1) !! k = Some r1 →
  ∃ r2, cached (read_pages pages2 s2) !! k = Some r2 ∧ older_eq r1 r2.
Proof.
  intros H1 H2 Hsub Hpub Hr. pose proof (read_pages_newest pages1 s1 k H1) as Hn1. rewrite Hr in Hn1.
  destruct Hn1 as (Hsrc & _ & _). assert (∃ p r', p ∈ pages1 ∧ cp_records p !! k = Some r' ∧ older_eq r1 r')
    as (p & r' & Hp & Hk & Hle).
  { destruct Hsrc as [Hs|(p & Hp & Hk)]; [by apply Hpub|]. exists p, r1. split; [done|]. split; [done|reflexivity]. }
  pose proof (read_pages_newest pages2 s2 k H2) as Hn2.
  destruct (cached (read_pages pages2 s2) !! k) as [r2|].
  - exists r2. split; [done|]. destruct Hn2 as (_ & _ & Hub). etrans; [done|]. eapply Hub; eauto.
  - destruct Hn2 as [_ Hno]. rewrite (Hno p) in Hk by auto. done.
Qed.

(** ** The theorems *)

(** C22: reading a valid page succeeds and is exact, key by key: where the page has a record,
    the newer of it and the cache's is kept, or, when the account is being linked and the key
    has no unpublished edit, the page's whatever its age; elsewhere the cache stays. Outside
    linking the cache is thus the key-by-key newest of the two. The keys left pending are
    exactly those where the page lacks or differs from the cache, and the reported changes are
    exactly the page's records now held that the cache did not hold before, all of them when
    linking. *)
Theorem reconcile_exact page purpose s :
  page_ok page → pending_keys s ⊆ dom (cached s) →
  ∃ changed s', reconcile_page page purpose s = (Ok changed, s')
    ∧ (∀ k, cached s' !! k =
         match cp_records page !! k, cached s !! k with
         | None, local => local
         | Some r, None => Some r
         | Some r, Some l =>
             Some (if is_link purpose && negb (bool_decide (k ∈ pending_keys s)) then r else newest l r)
         end)
    ∧ (purpose ≠ Link → cached s' = merge_records (cached s) (cp_records page))
    ∧ (∀ k, k ∈ pending_keys s' ↔ k ∈ dom (cached s') ∧ cached s' !! k ≠ cp_records page !! k)
    ∧ (∀ k r, changed !! k = Some r ↔
         cp_records page !! k = Some r ∧ cached s' !! k = Some r ∧ (purpose = Link ∨ cached s !! k ≠ Some r))
    ∧ deferred_adoption s' = deferred_adoption s.
Proof.
  intros Hok Hsub. destruct (reconcile_page_run page purpose s Hok) as (ch & s' & Hrun & Hpr).
  exists ch, s'. split; [done|]. split; [by intros; eapply page_reconciled_cached|].
  split; [by intros; eapply page_reconciled_merge|].
  split; [intros k; by eapply page_reconciled_pending|].
  split; [intros k r; by eapply page_reconciled_changed|]. apply Hpr.
Qed.

(** C35: convergence: devices that have read the same pages, in any order and however often, and
    whose own records have been published in them, hold records of the same rank under the
    same keys. *)
Theorem reconcile_converges pages1 pages2 s1 s2 :
  Forall page_ok pages1 → Forall page_ok pages2 → (∀ p, p ∈ pages1 ↔ p ∈ pages2) →
  published s1 pages1 → published s2 pages2 →
  ∀ k, option_Forall2 same_rank (cached (read_pages pages1 s1) !! k) (cached (read_pages pages2 s2) !! k).
Proof.
  intros H1 H2 Hsame Hp1 Hp2 k.
  destruct (cached (read_pages pages1 s1) !! k) as [r1|] eqn:Hr1.
  - destruct (read_pages_agree pages1 pages2 s1 s2 k r1) as (r2 & Hr2 & Hle); [naive_solver..|].
    destruct (read_pages_agree pages2 pages1 s2 s1 k r2) as (r1' & Hr1' & Hge); [naive_solver..|].
    rewrite Hr1 in Hr1'. simplify_eq. rewrite Hr2. constructor. by apply older_eq_antisymm.
  - destruct (cached (read_pages pages2 s2) !! k) as [r2|] eqn:Hr2; [|constructor].
    destruct (read_pages_agree pages2 pages1 s2 s1 k r2) as (r1 & Hr1' & _); [naive_solver..|]. congruence.
Qed.

Lemma foldl_max_spec t l : foldl Z.max t l ∈ t :: l ∧ ∀ x, x ∈ t :: l → x ≤ foldl Z.max t l.
Proof.
  revert t; induction l as [|y l IH]; intros t; simpl.
  { split; [left|]. intros x ->%list_elem_of_singleton. done. }
  destruct (IH (Z.max t y)) as [Hin Hub]. split.
  - apply elem_of_cons in Hin as [->|Hin]; [|by do 2 right].
    destruct (Z.max_spec t y) as [[_ ->]|[_ ->]]; [right; left|left].
  - intros x [->|[->|Hx]%elem_of_cons]%elem_of_cons; [| |apply Hub; by right];
      (etrans; [|apply Hub; left]); lia.
Qed.

Lemma elem_of_option_to_list {A} (x : A) (o : option A) : x ∈ option_list o ↔ o = Some x.
Proof. destruct o; simpl; [rewrite list_elem_of_singleton; naive_solver|]. split; [by intros ?%not_elem_of_nil|done]. Qed.

(** The times of the known versions of one record. *)
Definition known_times s k : list Z :=
  omap (λ r, modified_at_epoch_ms r) (option_list (cached s !! k) ++ option_list (deferred_adoption s !! k)).

Lemma elem_of_known_times s k t :
  t ∈ known_times s k ↔
  ∃ r, (cached s !! k = Some r ∨ deferred_adoption s !! k = Some r) ∧ modified_at_epoch_ms r = Some t.
Proof.
  unfold known_times. rewrite list_elem_of_omap. setoid_rewrite elem_of_app.
  setoid_rewrite elem_of_option_to_list. naive_solver.
Qed.

(** The time given to a local edit is a time the clock has reached, and later than that of
    every version of the record the device has seen, as long as such a time exists. *)
Theorem local_edit_is_newest s k now r :
  in_i64 now → (∀ r', cached s !! k = Some r' ∨ deferred_adoption s !! k = Some r' → in_i64 (stamp r')) →
  cached s !! k = Some r ∨ deferred_adoption s !! k = Some r →
  let t := next_record_mutation_epoch_ms s k now in
  now ≤ t ∧ in_i64 t ∧ stamp r ≤ t ∧ (stamp r < i64_max → stamp r < t).
Proof.
  intros Hnow Hall Hr. unfold next_record_mutation_epoch_ms. fold (known_times s k).
  assert (∀ x, x ∈ known_times s k → in_i64 x) as Hin.
  { intros x (r' & Hr' & Hx)%elem_of_known_times. specialize (Hall r' Hr'). unfold stamp in Hall. by rewrite Hx in Hall. }
  specialize (Hall r Hr). assert (∀ x, modified_at_epoch_ms r = Some x → x ∈ known_times s k) as Hmem.
  { intros x Hx. apply elem_of_known_times. eauto. }
  unfold stamp in *. unfold i64_saturating_add, i64_clamp, in_i64, LEGACY_UNKNOWN_MUTATION_EPOCH_MS in *.
  destruct (known_times s k) as [|t l].
  - destruct (modified_at_epoch_ms r) as [x|]; [by specialize (Hmem x eq_refl) as ?%not_elem_of_nil|].
    simpl in *. unfold i64_min, i64_max in *. repeat split; lia.
  - destruct (foldl_max_spec t l) as [Hf Hub]. apply Hin in Hf.
    destruct (modified_at_epoch_ms r) as [x|]; simpl in *.
    + specialize (Hub x (Hmem x eq_refl)). unfold i64_min, i64_max in *. repeat split; lia.
    + unfold i64_min, i64_max in *. repeat split; lia.
Qed.

End order.

(** ** Account formats and record families *)

Section formats.
Context {CC : CloudCodecs}.
Implicit Types (r : CloudRecord Json) (m : gmap bytes (CloudRecord Json)) (k : bytes) (f : AccountFormat).

(** ** One step, record by record *)

(** What the rules of one format make of a record. *)
Definition convert_record (rules : list RecordMigration) k r : AppResult (option (CloudRecord Json)) :=
  match filter (λ rule, matches (mg_key rule) k = true) rules with
  | [] => Ok (Some r)
  | _ :: _ :: _ => Err (cloud_error "Overlapping account migration rules")
  | [rule] =>
      _ ← guard_err (negb (bool_decide (schema_version r ∈ mg_source_versions rule)))
            (app_error "No migration for {key} schema {}" [ArgText k; ArgNum (schema_version r)]);
      converted ← mg_convert rule r;
      match converted with
      | Some r' =>
          _ ← guard_err (negb (bool_decide (mg_target_version rule = Some (schema_version r')))
                         || negb (bool_decide (modified_at_epoch_ms r' = modified_at_epoch_ms r)))
                (cloud_error "Account migration changed its declared schema or mutation timestamp");
          Ok (Some r')
      | None =>
          _ ← guard_err (bool_decide (is_Some (mg_target_version rule)))
                (cloud_error "Account migration unexpectedly discarded a record");
          Ok None
      end
  end.

Lemma migrate_record_convert rules m k r :
  m !! k = Some r →
  migrate_record rules m (k, r) = (o ← convert_record rules k r; Ok (partial_alter (λ _, o) k m)).
Proof.
  intros Hk. unfold migrate_record, convert_record. destruct (filter _ rules) as [|rule [|]]; [|..|done].
  - simpl. by rewrite <- Hk, partial_alter_self.
  - unfold guard_err. destruct (negb _); simpl; [reflexivity|].
    destruct (mg_convert rule r) as [[r'|]|]; simpl; [..|reflexivity].
    + by destruct (_ || _).
    + by destruct (bool_decide _).
Qed.

(** The state of a map when [conv] has been applied to the entries of [l]. *)
Definition converted (conv : bytes → CloudRecord Json → AppResult (option (CloudRecord Json)))
    (todo : gmap bytes (CloudRecord Json)) m m' : Prop :=
  ∀ k, match todo !! k with
       | None => m' !! k = m !! k
       | Some r => conv k r = Ok (m' !! k)
       end.

Lemma migrate_fold rules l m m' :
  NoDup l.*1 → (∀ k r, (k, r) ∈ l → m !! k = Some r) →
  try_fold (migrate_record rules) m l = Ok m' ↔ converted (convert_record rules) (list_to_map l) m m'.
Proof.
  revert m. induction l as [|[k r] l IH]; intros m Hnd Hin; unfold converted; cbn [try_fold list_to_map foldr curry fst snd].
  { split.
    - intros [= ->] k. by rewrite lookup_empty.
    - intros Hall. f_equal. apply map_eq. intros k. specialize (Hall k). by rewrite lookup_empty in Hall. }
  rewrite fmap_cons in Hnd. apply NoDup_cons in Hnd as [Hk Hnd].
  assert (∀ k', k' ∉ l.*1 → (list_to_map l : gmap _ (CloudRecord Json)) !! k' = None) as Hno.
  { intros k' ?. by apply not_elem_of_list_to_map_1. }
  rewrite (migrate_record_convert rules m k r) by (apply Hin; left).
  destruct (convert_record rules k r) as [o|e] eqn:Hcv; cbn [mbind result_bind].
  - rewrite (IH (partial_alter (λ _, o) k m)); [|done|].
    + unfold converted. split; intros Hall k'; specialize (Hall k'); destruct (decide (k' = k)) as [->|Hne].
      * rewrite Hno, lookup_partial_alter_eq in Hall by done. rewrite lookup_insert_eq. cbn [snd]. congruence.
      * rewrite lookup_insert_ne by done. by rewrite lookup_partial_alter_ne in Hall by done.
      * rewrite lookup_insert_eq in Hall. cbn [snd] in Hall. rewrite Hno, lookup_partial_alter_eq by done. congruence.
      * rewrite lookup_insert_ne in Hall by done. by rewrite lookup_partial_alter_ne by done.
    + intros k' r' Hk'. rewrite lookup_partial_alter_ne; [apply Hin; by right|].
      intros ->. apply Hk. apply list_elem_of_fmap. by exists (k', r').
  - split; [done|]. intros Hall. specialize (Hall k). rewrite lookup_insert_eq in Hall. cbn [snd] in Hall. congruence.
Qed.

Lemma migrate_step rules m m' :
  try_fold (migrate_record rules) m (map_iter m) = Ok m' ↔
  ∀ k, match m !! k with None => m' !! k = None | Some r => convert_record rules k r = Ok (m' !! k) end.
Proof.
  rewrite migrate_fold; [|apply map_iter_fst_NoDup|intros k r; by rewrite elem_of_map_iter].
  unfold converted. rewrite list_to_map_map_iter. split; intros Hall k; specialize (Hall k); by destruct (m !! k).
Qed.

(** ** The chain of formats *)

Lemma format_ind (P : AccountFormat → Prop) :
  (∀ f, af_predecessor f = None → P f) → (∀ f prior, af_predecessor f = Some prior → P prior → P f) → ∀ f, P f.
Proof.
  intros Hnone Hsome. fix IH 1. intros [v [prior|] dn dp ep mg]; [|by apply Hnone].
  apply (Hsome _ prior); [done|apply IH].
Qed.

(** What the chain of formats down to [from] makes of a record. *)
Fixpoint migrate_at f (from : Z) k r : AppResult (option (CloudRecord Json)) :=
  if from =? af_version f then Ok (Some r)
  else match af_predecessor f with
       | Some prior =>
           o ← migrate_at prior from k r;
           match o with None => Ok None | Some r' => convert_record (af_migrations f) k r' end
       | None => Ok (Some r)
       end.

(** Migrating a map succeeds exactly when there is a chain of formats from the old one and
    every record can be migrated by itself, and gives at each key what its own record
    becomes: the loop over the records is order-independent and the steps compose. *)
Theorem migrate_pointwise f from m m' :
  migrate f from m = Ok m' ↔
  is_Some (find_format f from) ∧
  ∀ k, match m !! k with None => m' !! k = None | Some r => migrate_at f from k r = Ok (m' !! k) end.
Proof.
  revert m m'. induction f as [f Hf|f prior Hf IH] using format_ind; intros m m'.
  - destruct f as [v p dn dp ep mg]. simpl in Hf |- *. subst p. destruct (Z.eqb_spec from v) as [->|Hne].
    + split; [intros [= <-]; split; [by eexists|]; intros k; by destruct (m !! k)|].
      intros [_ Hall]. f_equal. apply map_eq. intros k. specialize (Hall k). destruct (m !! k); congruence.
    + split; [done|]. by intros [[? [=]] _].
  - destruct f as [v p dn dp ep mg]. simpl in Hf |- *. subst p. destruct (Z.eqb_spec from v) as [->|Hne].
    { split; [intros [= <-]; split; [by eexists|]; intros k; by destruct (m !! k)|].
      intros [_ Hall]. f_equal. apply map_eq. intros k. specialize (Hall k). destruct (m !! k); congruence. }
    destruct (_ <? _); [|split; [done|]; by intros [[? [=]] _]].
    rewrite bind_Ok. setoid_rewrite migrate_step. setoid_rewrite IH. split.
    + intros (m1 & [Hfind Hm1] & Hm'). split; [done|]. intros k. specialize (Hm1 k). specialize (Hm' k).
      destruct (m !! k) as [r|]; [|by rewrite Hm1 in Hm']. rewrite Hm1. simpl.
      destruct (m1 !! k); [done|congruence].
    + intros [Hfind Hall].
      exists (map_imap (λ k r, match migrate_at prior from k r with Ok o => o | Err _ => None end) m).
      split; [split; [done|]|]; intros k; specialize (Hall k); rewrite map_lookup_imap.
      * destruct (m !! k) as [r|]; simpl; [|done].
        destruct (migrate_at prior from k r); [done|discriminate Hall].
      * destruct (m !! k) as [r|]; simpl; [|done].
        destruct (migrate_at prior from k r) as [[r'|]|]; simpl in Hall; [done|congruence|discriminate Hall].
Qed.

Lemma convert_record_keeps rules k r r' :
  convert_record rules k r = Ok (Some r') → modified_at_epoch_ms r' = modified_at_epoch_ms r.
Proof.
  unfold convert_record. destruct (filter _ rules) as [|rule [|]]; [congruence| |done].
  intros ([] & _ & H)%bind_Ok. apply bind_Ok in H as ([r0|] & _ & H); inv_ok; [zbool; congruence|done].
Qed.
Lemma migrate_at_keeps f from k r r' :
  migrate_at f from k r = Ok (Some r') → modified_at_epoch_ms r' = modified_at_epoch_ms r.
Proof.
  revert r'. induction f as [f Hf|f prior Hf IH] using format_ind; intros r'; destruct f as [v p dn dp ep mg];
    simpl in Hf |- *; subst p; destruct (from =? v); try congruence.
  rewrite bind_Ok. intros ([r0|] & Hr0 & Hc); [|done]. apply convert_record_keeps in Hc. by rewrite Hc, (IH r0).
Qed.

(** ** The formats that exist *)

Lemma find_CURRENT from : is_Some (find_format CURRENT from) ↔ from = 1 ∨ from = 2 ∨ from = 3.
Proof.
  cbn [find_format CURRENT FORMAT_2 LEGACY af_version af_predecessor]. unfold CLOUD_NODE_VERSION.
  change (2 <? 3) with true. change (1 <? 2) with true. cbn iota.
  destruct (Z.eqb_spec from 3); [split; [auto|by eexists]|].
  destruct (Z.eqb_spec from 2); [split; [auto|by eexists]|].
  destruct (Z.eqb_spec from 1); [split; [auto|by eexists]|].
  split; [by intros [? [=]]|lia].
Qed.

Lemma convert_record_cases rules k r o :
  convert_record rules k r = Ok o →
  (o = Some r ∧ ∀ rule, rule ∈ rules → matches (mg_key rule) k = false) ∨
  (∃ rule, rule ∈ rules ∧ matches (mg_key rule) k = true ∧ mg_convert rule r = Ok o ∧
           (is_Some o ↔ is_Some (mg_target_version rule))).
Proof.
  unfold convert_record. destruct (filter _ rules) as [|rule [|]] eqn:Hf; [| |done].
  - intros [= <-]. left. split; [done|]. intros rule Hin. apply not_true_is_false. intros Hm.
    assert (rule ∈ @nil RecordMigration) as []%not_elem_of_nil. rewrite <- Hf. by apply list_elem_of_filter.
  - intros ([] & _ & H)%bind_Ok. apply bind_Ok in H as (o' & Hconv & H). right. exists rule.
    assert (rule ∈ filter (λ rule, matches (mg_key rule) k = true) rules) as [Hm Hin]%list_elem_of_filter
      by (rewrite Hf; left).
    split; [done|]. split; [done|].
    destruct o' as [r0|]; inv_ok; zbool; (split; [done|]).
    + split; intros _; by eexists.
    + split; [by intros [? [=]]|done].
Qed.

(** Each step keeps what it does not name, and only the step to format 2 drops a record. *)
Lemma convert_to_3 k r o :
  convert_record (af_migrations CURRENT) k r = Ok o →
  is_Some o ∧ (starts_with k AIRCRAFT_DEFINITION_KEY_PREFIX = false → o = Some r).
Proof.
  intros [[-> _]|(rule & Hin & Hm & _ & Hs)]%convert_record_cases; [split; [by eexists|done]|].
  apply list_elem_of_singleton in Hin as ->. cbn [mg_key mg_target_version matches] in Hm, Hs.
  split; [apply Hs; by eexists|]. rewrite Hm. done.
Qed.
Lemma convert_to_2 k r o :
  convert_record (af_migrations FORMAT_2) k r = Ok o →
  (o = None → k = FLIGHT_PLAN_RECORD_KEY)
  ∧ (k ≠ FLIGHT_PLAN_RECORD_KEY → starts_with k AIRCRAFT_LIBRARY_RECORD_PREFIX = false → o = Some r).
Proof.
  intros [[-> _]|(rule & Hin & Hm & _ & Hs)]%convert_record_cases; [split; done|].
  apply elem_of_cons in Hin as [->|Hin]; [|apply list_elem_of_singleton in Hin as ->];
    cbn [mg_key mg_target_version matches] in Hm, Hs.
  - apply bool_decide_eq_true in Hm. split; congruence.
  - split; [|by rewrite Hm]. intros ->. destruct (proj2 Hs); [by eexists|done].
Qed.
Lemma migrate_at_CURRENT from k r o :
  from = 1 ∨ from = 2 ∨ from = 3 → migrate_at CURRENT from k r = Ok o →
  (o = None → from = 1 ∧ k = FLIGHT_PLAN_RECORD_KEY)
  ∧ (k ≠ FLIGHT_PLAN_RECORD_KEY → starts_with k AIRCRAFT_LIBRARY_RECORD_PREFIX = false →
     starts_with k AIRCRAFT_DEFINITION_KEY_PREFIX = false → o = Some r).
Proof.
  intros [-> | [-> | ->]].
  - change (migrate_at CURRENT 1 k r)
      with (o1 ← convert_record (af_migrations FORMAT_2) k r;
            match o1 with None => Ok None | Some r' => convert_record (af_migrations CURRENT) k r' end).
    intros (o1 & [H2 H2']%convert_to_2 & H)%bind_Ok. destruct o1 as [r1|].
    + apply convert_to_3 in H as [[r2 ->] H3]. split; [done|]. intros Hfp Hl Hd.
      specialize (H2' Hfp Hl). specialize (H3 Hd). congruence.
    + injection H as <-. split; [auto|]. intros Hfp. by specialize (H2 eq_refl).
  - change (migrate_at CURRENT 2 k r) with (convert_record (af_migrations CURRENT) k r).
    intros [[r2 ->] H3]%convert_to_3. split; [done|auto].
  - change (migrate_at CURRENT 3 k r) with (Ok (E:=AppError) (Some r)). intros [= <-]. split; [done|auto].
Qed.

(** An account brought up from an older format keeps, for every record, the time of its
    last edit; it loses no record but the shared flight plan of format 1; and it leaves
    records outside the aircraft library as they were. *)
Theorem migrate_current_keeps from m m' :
  migrate CURRENT from m = Ok m' →
  (∀ k r', m' !! k = Some r' → ∃ r, m !! k = Some r ∧ modified_at_epoch_ms r' = modified_at_epoch_ms r)
  ∧ (∀ k, k ∈ dom m → k ∉ dom m' → from = 1 ∧ k = FLIGHT_PLAN_RECORD_KEY)
  ∧ (∀ k, k ≠ FLIGHT_PLAN_RECORD_KEY → starts_with k AIRCRAFT_LIBRARY_RECORD_PREFIX = false →
       starts_with k AIRCRAFT_DEFINITION_KEY_PREFIX = false → m' !! k = m !! k).
Proof.
  intros [Hf%find_CURRENT Hall]%migrate_pointwise. split; [|split].
  - intros k r' Hr'. specialize (Hall k). destruct (m !! k) as [r|]; [|congruence].
    exists r. split; [done|]. rewrite Hr' in Hall. by eapply migrate_at_keeps.
  - intros k [r Hr]%elem_of_dom Hn%not_elem_of_dom. specialize (Hall k). rewrite Hr, Hn in Hall.
    by apply migrate_at_CURRENT in Hall as [Hdrop _]; [apply Hdrop|].
  - intros k Hfp Hl Hd. specialize (Hall k). destruct (m !! k) as [r|]; [|done].
    apply migrate_at_CURRENT in Hall as [_ Hkeep]; [|done]. auto.
Qed.

End formats.

(** ** Record families *)

(** Strings every key of a family begins with. *)
Definition heads (p : KeyPattern) : list bytes :=
  match p with Exact v | Prefix v => [v] | Prefixes vs => vs end.
Definition apart (p q : KeyPattern) : bool :=
  forallb (λ a, forallb (λ b, negb (starts_with a b || starts_with b a)) (heads q)) (heads p).
Fixpoint all_apart (ps : list KeyPattern) : bool :=
  match ps with [] => true | p :: ps => forallb (apart p) ps && all_apart ps end.

Lemma starts_with_refl k : starts_with k k = true.
Proof. induction k; simpl; [done|]. by rewrite bool_decide_true. Qed.
Lemma starts_with_both key a b :
  starts_with key a = true → starts_with key b = true → starts_with a b || starts_with b a = true.
Proof.
  revert key b. induction a as [|x a IH]; intros [|y key] [|z b]; simpl; try done.
  intros [H1 H1']%andb_true_iff [H2 H2']%andb_true_iff. zbool. subst.
  rewrite !bool_decide_true by done. simpl. by eapply IH.
Qed.
Lemma matches_head p key : matches p key = true → ∃ h, h ∈ heads p ∧ starts_with key h = true.
Proof.
  destruct p as [v|v|vs]; simpl.
  - intros ->%bool_decide_eq_true. exists key. split; [left|apply starts_with_refl].
  - intros H. exists v. split; [left|done].
  - intros (h & Hin & Hh)%existsb_exists. exists h. split; [by apply list_elem_of_In|done].
Qed.
Lemma apart_matches p q key : apart p q = true → matches p key = true → matches q key = false.
Proof.
  intros Hap (a & Ha & Hka)%matches_head. apply not_true_is_false. intros (b & Hb & Hkb)%matches_head.
  unfold apart in Hap. rewrite forallb_forall in Hap. specialize (Hap a ltac:(by apply list_elem_of_In)).
  rewrite forallb_forall in Hap. specialize (Hap b ltac:(by apply list_elem_of_In)).
  rewrite (starts_with_both key a b) in Hap; done.
Qed.

(** What the record families rely on: a value that was serialised deserialises to itself. *)
Class CodecLaws {CC : CloudCodecs} : Prop := {
  codec_round S v j : S ∈ record_specs → ser (codec S) v = Ok j → de (codec S) j = Ok v;
  page_round p j : ser page_codec p = Ok j → de page_codec j = Ok p }.

Section families.
Context {CC : CloudCodecs}.

Lemma families_apart : all_apart (KEY <$> record_specs) = true.
Proof. vm_compute. reflexivity. Qed.

Lemma validate_specs_match specs S key r :
  all_apart (KEY <$> specs) = true → S ∈ specs → matches (KEY S) key = true →
  validate_specs specs key r = (_ ← decode S r; validate_key_binding key r).
Proof.
  induction specs as [|S0 specs IH]; [by intros _ ?%not_elem_of_nil|].
  rewrite fmap_cons. simpl. intros [Hh Ht]%andb_true_iff [->|Hin]%elem_of_cons Hm; [by rewrite Hm|].
  destruct (matches (KEY S0) key) eqn:Hm0; [|by apply IH]. exfalso.
  rewrite forallb_forall in Hh. specialize (Hh (KEY S)).
  rewrite (apart_matches (KEY S0) (KEY S) key) in Hm; [done|apply Hh|done].
  apply list_elem_of_In, list_elem_of_fmap. by exists S.
Qed.

Lemma validate_match S key r :
  S ∈ record_specs → matches (KEY S) key = true →
  validate key r = (_ ← decode S r; validate_key_binding key r).
Proof. intros. apply validate_specs_match; [apply families_apart|done..]. Qed.

Context {CL : CodecLaws}.

Lemma encode_decode S v t r :
  S ∈ record_specs → encode S v t = Ok r →
  decode S r = Ok v ∧ schema_version r = VERSION S ∧ modified_at_epoch_ms r = t ∧ check_timestamp S t = Ok tt.
Proof.
  intros HS. unfold encode. intros ([] & Ht & H)%bind_Ok. apply bind_Ok in H as ([] & Hv & H).
  apply bind_Ok in H as (j & Hj & [= <-]). split; [|done].
  unfold decode. cbn [schema_version modified_at_epoch_ms value]. rewrite Z.eqb_refl. simpl.
  rewrite Ht. simpl. rewrite (codec_round S v j HS Hj). simpl. by rewrite Hv.
Qed.

(** What a family writes: the record decodes to the value it was made from, carries the
    family's version and a time exactly when the family is mutable, and under every key of
    the family is accepted if the key itself fits the content. *)
Theorem record_roundtrip S v t r :
  S ∈ record_specs → encode S v t = Ok r →
  decode S r = Ok v
  ∧ schema_version r = VERSION S ∧ modified_at_epoch_ms r = t ∧ (is_Some t ↔ MUTABLE S = true)
  ∧ ∀ key, matches (KEY S) key = true → validate key r = validate_key_binding key r.
Proof.
  intros HS (Hd & Hver & Hmod & Ht)%encode_decode; [|done]. split_and!; [done..| |].
  - unfold check_timestamp in Ht. apply guard_err_Ok, negb_false_iff, eqb_prop in Ht. rewrite <- Ht.
    by rewrite bool_decide_eq_true.
  - intros key Hm. rewrite (validate_match S) by done. by rewrite Hd.
Qed.

End families.
