(* ===== verification/CloudAcs.v ===== *)
(** * Requests to the cloud server (app-core/src/cloud_acs.rs)

    The operations the synchronisation engine asks for, the HTTP requests they become and
    what their responses are read as. base64, HKDF, Ed25519, ChaCha20-Poly1305 and the JSON
    of the message types are parameters ([CloudCrypto]); so are random bytes ([Random]: the
    i-th draw of a call, of so many bytes). *)

From Stdlib Require Import Strings.Byte.
From stdpp Require Import base list strings gmap.
From S2P Require Import Prelude Utf8 NavKvRead AcsContracts CloudRecords.

Local Open Scope Z_scope.

(** ** Messages of the contract *)

Record AcsCreateAccountRequest := {
  ca_contract_id : bytes; ca_account_locator : bytes; ca_signing_key_id : bytes;
  ca_signing_public_key_base64url : bytes; ca_creation_challenge : bytes }.
Record AcsCreationChallengeResponse := {
  cc_contract_id : bytes; cc_challenge : bytes; cc_expires_at_epoch_ms : Z; cc_server_time_epoch_ms : Z }.
Record AcsCreateAccountResponse := {
  ar_contract_id : bytes; ar_account_locator : bytes; ar_server_time_epoch_ms : Z;
  ar_quota_class : bytes; ar_quota_bytes : Z }.
Record AcsCreateObjectRequest := {
  co_contract_id : bytes; co_object_id : bytes; co_value : AcsEncryptedValue }.
Inductive AcsCreateObjectOutcome := OutcomeCreated | OutcomeAlreadyExists.
Record AcsObjectSnapshot := {
  os_object_id : bytes; os_value : AcsEncryptedValue; os_created_at_epoch_ms : Z }.
Record AcsRootSnapshot := {
  rs_revision : Z; rs_root_hash : bytes; rs_value : AcsEncryptedValue; rs_updated_at_epoch_ms : Z }.
Record AcsCompareAndSwapRootRequest := {
  cas_contract_id : bytes; cas_expected_revision : Z; cas_expected_root_hash : option bytes;
  cas_replacement : AcsEncryptedValue }.
Inductive AcsCompareAndSwapRootResponse :=
| Committed (root : AcsRootSnapshot)
| Conflict (current_revision : Z) (current_root_hash : option bytes).
Record AcsCreateSseTicketRequest := { st_contract_id : bytes; st_last_event_sequence : option Z }.
Record AcsCreateSseTicketResponse := {
  tk_contract_id : bytes; tk_ticket : bytes; tk_expires_at_epoch_ms : Z; tk_events_url : bytes }.

Inductive AcsErrorCode :=
| InvalidRequest | Unauthorized | RequestExpired | ReplayDetected | NotFound | ObjectIdCollision
| MissingChildObject | ErrConflict | QuotaExceeded | RateLimited | ReadOnly | AccountSuspended
| PayloadTooLarge | ResponseTooLarge | Internal.
Inductive AcsRateLimitGate :=
| AccountCreationNetwork | AccountCreationGlobal | OutstandingCreationChallenges | GlobalOperations
| NetworkOperations | AccountOperations | GlobalIngress | NetworkIngress | AccountIngress | GlobalEgress
| NetworkEgress | AccountEgress | GlobalSseConnections | AccountSseConnections | NetworkSseConnections.
Record AcsErrorResponse := {
  er_contract_id : bytes; er_request_id : bytes; er_code : AcsErrorCode; er_message : bytes;
  er_retry_after_ms : option Z; er_rate_limit_gate : option AcsRateLimitGate }.

(** ** Requests and responses of the engine (cloud.rs) *)

Inductive CloudProviderKind := AerobagCloud.
Inductive CloudProviderErrorKind := KindUnauthorized | KindTransient | KindPermanent.
#[export] Instance error_kind_eq_dec : EqDecision CloudProviderErrorKind.
Proof. solve_decision. Defined.

Inductive CloudProviderOperation :=
| AcsIssueAccountChallenge
| AcsCreateAccount (request : AcsCreateAccountRequest)
| AcsCreateObject (request : AcsCreateObjectRequest)
| AcsReadObject (id : bytes)
| AcsReadRoot
| AcsCompareAndSwapRoot (request : AcsCompareAndSwapRootRequest)
| AcsCreateSseTicket (request : AcsCreateSseTicketRequest).

Record CloudProviderRequest := {
  pr_request_id : Z; pr_provider : CloudProviderKind; pr_operation : CloudProviderOperation }.

Inductive CloudProviderResponse :=
| RespCreated
| RespAlreadyExists
| RespCreationChallenge (response : AcsCreationChallengeResponse)
| RespAccountCreated (response : AcsCreateAccountResponse)
| RespObject (object : option AcsObjectSnapshot)
| RespRoot (root : option AcsRootSnapshot)
| RespRootCas (response : AcsCompareAndSwapRootResponse)
| RespSseTicket (response : AcsCreateSseTicketResponse)
| RespError (kind : CloudProviderErrorKind) (detail : AppError) (retry_after_ms : option Z)
    (rate_limit_gate : option AcsRateLimitGate).

(** ** HTTP (app-ui-contracts/src/cloud.rs) *)

Inductive CloudHttpMethod := HttpGet | HttpPost | HttpPut | HttpDelete.
Record CloudHttpHeader := { hh_name : bytes; hh_value : bytes }.
Record CloudHttpRequest := {
  hr_request_id : Z; hr_provider : CloudProviderKind; hr_method : CloudHttpMethod; hr_url : bytes;
  hr_headers : list CloudHttpHeader; hr_body_base64 : option bytes; hr_max_response_bytes : Z }.
Inductive CloudHttpResponse :=
| Completed (status_code : Z) (body_base64 : bytes)
| TransportError (detail : bytes)
| HttpResponseTooLarge (limit_bytes : Z).

(** The envelope around a ciphertext. *)
Record CloudEnvelope := {
  ce_version : Z; ce_account_tag : bytes; ce_role : bytes; ce_nonce_base64 : bytes; ce_ciphertext_base64 : bytes }.

(** ** What is used of other crates

    Decoders return the error text of the library on failure. *)
Class CloudCrypto {CC : CloudCodecs} := {
  b64_encode : bytes → bytes;
  b64_decode : bytes → option bytes;
  (** HKDF-SHA256: salt, secret and label to 32 bytes. *)
  hkdf_expand : bytes → bytes → bytes → option bytes;
  ed25519_public : bytes → bytes;
  ed25519_sign : bytes → bytes → bytes;
  (** ChaCha20-Poly1305: key, nonce, associated data and text. *)
  aead_encrypt : bytes → bytes → bytes → bytes → option bytes;
  aead_decrypt : bytes → bytes → bytes → bytes → option bytes;
  json_to_vec : Json → AppResult bytes;
  json_from_slice : bytes → AppResult Json;
  node_to_vec : CloudNode → AppResult bytes;
  envelope_to_vec : CloudEnvelope → AppResult bytes;
  envelope_from_slice : bytes → AppResult CloudEnvelope;
  create_account_to_vec : AcsCreateAccountRequest → AppResult bytes;
  create_object_to_vec : AcsCreateObjectRequest → AppResult bytes;
  cas_to_vec : AcsCompareAndSwapRootRequest → AppResult bytes;
  sse_ticket_to_vec : AcsCreateSseTicketRequest → AppResult bytes;
  challenge_from_slice : bytes → result bytes AcsCreationChallengeResponse;
  account_from_slice : bytes → result bytes AcsCreateAccountResponse;
  outcome_from_slice : bytes → result bytes AcsCreateObjectOutcome;
  object_from_slice : bytes → result bytes AcsObjectSnapshot;
  root_from_slice : bytes → result bytes AcsRootSnapshot;
  cas_from_slice : bytes → result bytes AcsCompareAndSwapRootResponse;
  ticket_from_slice : bytes → result bytes AcsCreateSseTicketResponse;
  error_from_slice : bytes → result bytes AcsErrorResponse;
  sse_event_from_str : bytes → result bytes AcsSseEvent }.

(** The i-th draw of [n] random bytes in one call. *)
Definition Random : Type := nat → nat → AppResult bytes.

(** ** Paths (product-contracts/src/aerobag_cloud.rs) *)

Definition acs_account_path (locator : bytes) : bytes := ACS_API_PREFIX ++ bs "/accounts/" ++ locator.
Definition acs_creation_challenges_path : bytes := bs "/cloud/v1/account-challenges".
Definition acs_object_path (locator object_id : bytes) : bytes :=
  acs_account_path locator ++ bs "/objects/" ++ object_id.
Definition acs_root_path (locator : bytes) : bytes := acs_account_path locator ++ bs "/root".
Definition acs_sse_ticket_path (locator : bytes) : bytes := acs_account_path locator ++ bs "/event-tickets".

(** ** cloud_acs.rs *)

Definition MAX_SMALL_RESPONSE_BYTES : Z := 64 * 1024.
Definition MAX_OBJECT_RESPONSE_BYTES : Z := 2 * 1024 * 1024.
Definition ACS_BASE_SUFFIX : bytes := bs "/cloud/".
Definition ACS_KDF_SALT : bytes := bs "aerobag-cloud-account-v1".
Definition ACS_KDF_ACCOUNT_LOCATOR_LABEL : bytes := bs "account-locator".
Definition ACS_KDF_PAYLOAD_ENCRYPTION_LABEL : bytes := bs "payload-encryption".
Definition ACS_KDF_REQUEST_SIGNING_SEED_LABEL : bytes := bs "request-signing-ed25519-seed".
Definition ACS_SIGNING_KEY_ID_BYTES : nat := 16.
Definition ACS_REQUEST_NONCE_BYTES : nat := 16.

(** [str::ends_with] *)
Definition ends_with (s suffix : bytes) : bool := starts_with (reverse s) (reverse suffix).

Definition validate_base_url (value : bytes) : AppResult bytes :=
  let value := trim value in
  _ ← guard_err (negb (starts_with value (bs "http://") || starts_with value (bs "https://"))
                 || negb (ends_with value ACS_BASE_SUFFIX) || contains_any (CRLF ++ [x3f; x23]) value)
        (cloud_error "Aerobag Cloud URL must be an HTTP(S) URL ending in /cloud/");
  Ok value.

Definition url_for_path (base_url path : bytes) : AppResult bytes :=
  relative ← ok_or (strip_prefix path ACS_BASE_SUFFIX) (cloud_error "ACS request path is outside /cloud/");
  Ok (base_url ++ relative).

Definition resolve_event_url (base_url events_url : bytes) : AppResult bytes :=
  base_url ← validate_base_url base_url;
  _ ← guard_err (contains_any (CRLF ++ [x23]) events_url) (cloud_error "Aerobag Cloud event URL is invalid");
  let '(path, query) := default (events_url, []) (split_once x3f events_url) in
  url ← url_for_path base_url path;
  Ok (if bool_decide (query = []) then url else url ++ [x3f] ++ query).

Section acs.
Context {CC : CloudCodecs} {CX : CloudCrypto}.

Record AcsIdentity := {
  id_account_locator : bytes; id_signing_public_key_base64url : bytes; id_signing_key_id : bytes }.

Definition derive (secret label : bytes) : AppResult bytes :=
  ok_or (hkdf_expand ACS_KDF_SALT secret label) (cloud_error "Aerobag Cloud key derivation failed").

Definition derive_identity (secret : bytes) : AppResult AcsIdentity :=
  locator ← derive secret ACS_KDF_ACCOUNT_LOCATOR_LABEL;
  seed ← derive secret ACS_KDF_REQUEST_SIGNING_SEED_LABEL;
  let public := ed25519_public seed in
  Ok {| id_account_locator := b64_encode locator; id_signing_public_key_base64url := b64_encode public;
        id_signing_key_id := b64_encode (take ACS_SIGNING_KEY_ID_BYTES (sha256 public)) |}.

Definition text_error (r : result string bytes) : AppResult bytes := map_err cloud_error r.

Definition signing_headers (rand : Random) (draw : nat) (secret locator : bytes) (method : AcsHttpMethod)
    (path body : bytes) (now_epoch_ms : Z) : AppResult (list CloudHttpHeader) :=
  identity ← derive_identity secret;
  _ ← guard_err (negb (bool_decide (id_account_locator identity = locator)))
        (cloud_error "Aerobag Cloud account locator does not match its root secret");
  nonce ← rand draw ACS_REQUEST_NONCE_BYTES;
  let authentication :=
    {| contract_id := ACS_CONTRACT_ID; account_locator := locator;
       signing_key_id := id_signing_key_id identity; signature_algorithm := Ed25519;
       timestamp_epoch_ms := now_epoch_ms; nonce_base64url := b64_encode nonce;
       body_sha256 := hex_lower (sha256 body); signature_base64url := [] |} in
  target ← text_error (acs_canonical_request_target path None);
  seed ← derive secret ACS_KDF_REQUEST_SIGNING_SEED_LABEL;
  message ← text_error (signing_bytes authentication method target);
  let signature := b64_encode (ed25519_sign seed message) in
  Ok [{| hh_name := bs "Aerobag-Contract"; hh_value := contract_id authentication |};
      {| hh_name := bs "Aerobag-Account"; hh_value := account_locator authentication |};
      {| hh_name := bs "Aerobag-Key-Id"; hh_value := signing_key_id authentication |};
      {| hh_name := bs "Aerobag-Signature-Algorithm"; hh_value := bs "ed25519" |};
      {| hh_name := bs "Aerobag-Timestamp-Ms"; hh_value := dec (timestamp_epoch_ms authentication) |};
      {| hh_name := bs "Aerobag-Nonce"; hh_value := nonce_base64url authentication |};
      {| hh_name := bs "Aerobag-Body-SHA256"; hh_value := body_sha256 authentication |};
      {| hh_name := bs "Aerobag-Signature"; hh_value := signature |}].

(** Method, path, body, whether it is signed, and the limit on the response. *)
Definition request_parts (op : CloudProviderOperation) (locator : bytes)
    : AppResult (AcsHttpMethod * bytes * bytes * bool * Z) :=
  match op with
  | AcsIssueAccountChallenge => Ok (AcsPost, acs_creation_challenges_path, [], false, MAX_SMALL_RESPONSE_BYTES)
  | AcsCreateAccount request =>
      body ← create_account_to_vec request;
      Ok (AcsPost, bs "/cloud/v1/accounts", body, true, MAX_SMALL_RESPONSE_BYTES)
  | AcsCreateObject request =>
      body ← create_object_to_vec request;
      Ok (AcsPut, acs_object_path locator (co_object_id request), body, true, MAX_SMALL_RESPONSE_BYTES)
  | AcsReadObject id => Ok (AcsGet, acs_object_path locator id, [], true, MAX_OBJECT_RESPONSE_BYTES)
  | AcsReadRoot => Ok (AcsGet, acs_root_path locator, [], true, MAX_OBJECT_RESPONSE_BYTES)
  | AcsCompareAndSwapRoot request =>
      body ← cas_to_vec request;
      Ok (AcsPut, acs_root_path locator, body, true, MAX_OBJECT_RESPONSE_BYTES)
  | AcsCreateSseTicket request =>
      body ← sse_ticket_to_vec request;
      Ok (AcsPost, acs_sse_ticket_path locator, body, true, MAX_SMALL_RESPONSE_BYTES)
  end.

Definition plan_request (rand : Random) (draw : nat) (request : CloudProviderRequest)
    (base_url secret locator : bytes) (now_epoch_ms : Z) : AppResult CloudHttpRequest :=
  '(method, path, body, signed, max_response_bytes) ← request_parts (pr_operation request) locator;
  base_url ← validate_base_url base_url;
  url ← url_for_path base_url path;
  let content_type :=
    if bool_decide (body = []) then []
    else [{| hh_name := bs "Content-Type"; hh_value := bs "application/json" |}] in
  signature ← (if signed : bool then signing_headers rand draw secret locator method path body now_epoch_ms
               else Ok []);
  Ok {| hr_request_id := pr_request_id request; hr_provider := pr_provider request;
        hr_method := match method with AcsGet => HttpGet | AcsPost => HttpPost | AcsPut => HttpPut end;
        hr_url := url; hr_headers := content_type ++ signature;
        hr_body_base64 := if bool_decide (body = []) then None else Some (b64_encode body);
        hr_max_response_bytes := max_response_bytes |}.

Definition provider_error (kind : CloudProviderErrorKind) (detail : AppError) : CloudProviderResponse :=
  RespError kind detail None None.

Definition decode_http_response (response : CloudHttpResponse) : result CloudProviderResponse (Z * bytes) :=
  match response with
  | TransportError detail =>
      Err (provider_error KindTransient (app_error "Aerobag Cloud transport failed: {detail}" [ArgText detail]))
  | HttpResponseTooLarge limit_bytes =>
      Err (provider_error KindPermanent
             (app_error "Aerobag Cloud response exceeds {limit_bytes} bytes" [ArgNum limit_bytes]))
  | Completed status_code body_base64 =>
      match b64_decode body_base64 with
      | None => Err (provider_error KindPermanent (cloud_error "Aerobag Cloud response is not valid base64url"))
      | Some body => Ok (status_code, body)
      end
  end.

Definition decode_json {A} (parse : bytes → result bytes A) (body : bytes) (f : A → CloudProviderResponse)
    : CloudProviderResponse :=
  match parse body with
  | Ok v => f v
  | Err error =>
      provider_error KindPermanent (app_error "Aerobag Cloud returned invalid JSON: {error}" [ArgText error])
  end.

Definition parse_http_error (status : Z) (body : bytes) : CloudProviderResponse :=
  let parsed := ok (error_from_slice body) in
  let detail := match parsed with
                | Some error => app_error "{}" [ArgText (er_message error)]
                | None => app_error "Aerobag Cloud request failed with HTTP {status}" [ArgNum status]
                end in
  let kind :=
    match er_code <$> parsed with
    | Some RequestExpired | Some RateLimited | Some ReadOnly => KindTransient
    | Some Unauthorized | Some ReplayDetected => KindUnauthorized
    | None => if (status =? 408) || (status =? 429) || (500 <=? status) then KindTransient else KindPermanent
    | _ => KindPermanent
    end in
  RespError kind detail (parsed ≫= er_retry_after_ms) (parsed ≫= er_rate_limit_gate).

Definition parse_response (request : CloudProviderRequest) (response : CloudHttpResponse) : CloudProviderResponse :=
  match decode_http_response response with
  | Err response => response
  | Ok (status, body) =>
      match pr_operation request with
      | AcsIssueAccountChallenge =>
          if status =? 200 then decode_json challenge_from_slice body RespCreationChallenge
          else parse_http_error status body
      | AcsCreateAccount _ =>
          if status =? 201 then decode_json account_from_slice body RespAccountCreated
          else parse_http_error status body
      | AcsCreateObject _ =>
          if status =? 200 then
            decode_json outcome_from_slice body
              (λ o, match o with OutcomeCreated => RespCreated | OutcomeAlreadyExists => RespAlreadyExists end)
          else parse_http_error status body
      | AcsReadObject _ =>
          if status =? 404 then RespObject None
          else if status =? 200 then decode_json object_from_slice body (λ o, RespObject (Some o))
          else parse_http_error status body
      | AcsReadRoot =>
          if status =? 404 then RespRoot None
          else if status =? 200 then decode_json root_from_slice body (λ r, RespRoot (Some r))
          else parse_http_error status body
      | AcsCompareAndSwapRoot _ =>
          if (status =? 200) || (status =? 409) then decode_json cas_from_slice body RespRootCas
          else parse_http_error status body
      | AcsCreateSseTicket _ =>
          if status =? 200 then decode_json ticket_from_slice body RespSseTicket
          else parse_http_error status body
      end
  end.

End acs.
