(* ===== verification/DeviceSetupCode.v ===== *)
(** * Device setup codes (app-core/src/device_setup_code.rs)

    The code that links another device to a Sync Account: the account's secret and server
    as a protobuf message with a checksum, in base64 behind a prefix. The protobuf encoding
    (prost), base64 and SHA-256 are parameters. *)

From Stdlib Require Import Strings.Byte.
From stdpp Require Import base list strings.
From S2P Require Import Prelude Utf8 NavKvRead CloudRecords CloudAcs.

Local Open Scope Z_scope.

Definition SETUP_PREFIX : bytes := bs "AB3.".
Definition CHECKSUM_BYTES : nat := 8.

Inductive DeviceSetupProvider := SetupAerobagCloud (base_url account_locator : bytes).
Record DeviceSetupCode := { ds_root_secret : bytes; ds_provider : DeviceSetupProvider }.

Record WireAerobagCloudSetup := { wa_base_url : bytes; wa_account_locator : bytes }.
Record WireDeviceSetupCodeV3 := { wd_root_secret : bytes; wd_provider : option WireAerobagCloudSetup }.

(** [prost]'s [encode_to_vec] and [decode]. *)
Class SetupWire := {
  wire_encode : WireDeviceSetupCodeV3 → bytes;
  wire_decode : bytes → option WireDeviceSetupCodeV3 }.

Section codes.
Context {CC : CloudCodecs} {CX : CloudCrypto} {SW : SetupWire}.

Definition encode_wire_bytes (payload : bytes) : bytes :=
  SETUP_PREFIX ++ b64_encode (payload ++ take CHECKSUM_BYTES (sha256 payload)).

Definition encode_device_setup_code (c : DeviceSetupCode) : bytes :=
  let '(SetupAerobagCloud base_url locator) := ds_provider c in
  encode_wire_bytes (wire_encode
    {| wd_root_secret := ds_root_secret c;
       wd_provider := Some {| wa_base_url := base_url; wa_account_locator := locator |} |}).

Definition fixed_32 (b : bytes) (text : string) : result string bytes :=
  if len b =? 32 then Ok b else Err text.

Definition decode_device_setup_code (encoded : bytes) : result string DeviceSetupCode :=
  let encoded := trim encoded in
  body ← ok_or (strip_prefix encoded SETUP_PREFIX) "Device Setup Code has an unsupported format"%string;
  b ← ok_or (b64_decode body) "Device Setup Code is not valid base64"%string;
  _ ← guard_err (len b <=? Z.of_nat CHECKSUM_BYTES) "Device Setup Code content is truncated"%string;
  let payload_len := (length b - CHECKSUM_BYTES)%nat in
  let payload := take payload_len b in
  let supplied_checksum := drop payload_len b in
  _ ← guard_err (negb (bool_decide (supplied_checksum = take CHECKSUM_BYTES (sha256 payload))))
        "Device Setup Code checksum does not match"%string;
  wire ← ok_or (wire_decode payload) "Device Setup Code protobuf is invalid"%string;
  secret ← fixed_32 (wd_root_secret wire) "Device Setup Code root secret must be 256 bits";
  match wd_provider wire with
  | Some provider =>
      _ ← guard_err (bool_decide (trim (wa_base_url provider) = [])) "Aerobag Cloud provider URL is missing"%string;
      locator ← fixed_32 (wa_account_locator provider) "Aerobag Cloud account locator must be 256 bits";
      Ok {| ds_root_secret := secret; ds_provider := SetupAerobagCloud (wa_base_url provider) locator |}
  | None => Err "Device Setup Code has no storage provider"%string
  end.

End codes.

(** ** Proofs *)

(** Printable ASCII without the space. *)
Definition graphic (b : byte) : Prop := 33 ≤ b2z b ≤ 126.

Lemma chars_graphic s : Forall graphic s → chars s = (λ b, [b]) <$> s.
Proof.
  unfold chars. induction 1 as [|b s Hb Hs IH]; [done|].
  rewrite utf8_chunks_cons. unfold utf8_next, byte_or_0. cbn [lookup list_lookup].
  replace (b2z b <? 128) with true by (symmetry; apply Z.ltb_lt; unfold graphic in Hb; lia).
  rewrite !fmap_cons. cbn [take drop snd]. by rewrite <- IH.
Qed.
Lemma skip_while_none {A} (p : A → bool) l : (∀ x, x ∈ l → p x = false) → skip_while p l = l.
Proof. destruct l as [|x l]; [done|]. intros H. simpl. by rewrite (H x) by left. Qed.
Lemma trim_graphic s : Forall graphic s → trim s = s.
Proof.
  intros Hs. unfold trim, trim_chars. rewrite chars_graphic by done.
  assert (∀ c, c ∈ (λ b : byte, [b]) <$> s → is_whitespace c = false) as Hno.
  { intros c (b & -> & Hb)%list_elem_of_fmap. rewrite Forall_forall in Hs. specialize (Hs b Hb).
    unfold graphic in Hs. unfold is_whitespace. rewrite fmap_cons. cbn [fmap list_fmap].
    unfold byte_in. destruct (Z.eqb_spec (b2z b) 32), (Z.leb_spec 9 (b2z b)), (Z.leb_spec (b2z b) 13); simpl; lia || done. }
  rewrite (skip_while_none _ ((λ b : byte, [b]) <$> s)) by done.
  rewrite skip_while_none by (intros c; rewrite elem_of_reverse; apply Hno).
  rewrite reverse_involutive. clear. induction s as [|b s IH]; [done|]. rewrite fmap_cons. cbn [concat app]. by rewrite IH.
Qed.

Lemma strip_prefix_app pre s : strip_prefix (pre ++ s) pre = Some s.
Proof.
  unfold strip_prefix. assert (starts_with (pre ++ s) pre = true) as ->.
  { induction pre as [|b pre IH]; simpl; [by destruct s|]. by rewrite bool_decide_true. }
  by rewrite drop_app_length.
Qed.

Section roundtrip.
Context {CC : CloudCodecs} {CX : CloudCrypto} {SW : SetupWire}.
Context (b64_round : ∀ b, b64_decode (b64_encode b) = Some b)
        (b64_graphic : ∀ b, Forall graphic (b64_encode b))
        (digest_length : ∀ b, length (sha256 b) = 32%nat)
        (wire_round : ∀ w, (∀ p, wd_provider w = Some p → utf8_valid (wa_base_url p) = true) →
                           wire_decode (wire_encode w) = Some w)
        (wire_nonempty : ∀ w, wd_root_secret w ≠ [] → wire_encode w ≠ []).

(** A setup code reads back as what it was made from, if the secret and the account have
    their size and the server is named. *)
Theorem device_setup_code_roundtrip c base_url locator :
  ds_provider c = SetupAerobagCloud base_url locator →
  len (ds_root_secret c) = 32 → len locator = 32 → utf8_valid base_url = true → trim base_url ≠ [] →
  decode_device_setup_code (encode_device_setup_code c) = Ok c.
Proof.
  destruct c as [secret provider]. cbn [ds_provider ds_root_secret]. intros -> Hsec Hloc Hutf Hurl.
  unfold encode_device_setup_code, decode_device_setup_code, encode_wire_bytes. cbn [ds_provider ds_root_secret].
  set (w := {| wd_root_secret := secret; wd_provider := _ |}).
  rewrite trim_graphic.
  2: { apply Forall_app. split; [|done]. unfold SETUP_PREFIX. repeat constructor; done. }
  cbv zeta. rewrite strip_prefix_app. cbn [ok_or mbind result_bind]. rewrite b64_round. cbn [ok_or mbind result_bind].
  set (sum := take CHECKSUM_BYTES (sha256 (wire_encode w))).
  assert (length sum = CHECKSUM_BYTES) as Hsum by (unfold sum; rewrite length_take, digest_length; done).
  replace (length (wire_encode w ++ sum) - CHECKSUM_BYTES)%nat with (length (wire_encode w))
    by (rewrite length_app; lia).
  rewrite take_app_length, drop_app_length.
  assert (len (wire_encode w ++ sum) <=? Z.of_nat CHECKSUM_BYTES = false) as ->.
  { apply Z.leb_gt. unfold len. rewrite length_app. assert (wire_encode w ≠ []) by (apply wire_nonempty; by destruct secret).
    destruct (wire_encode w); [done|]. simpl. lia. }
  cbn [guard_err mbind result_bind]. rewrite bool_decide_true by done. cbn [negb guard_err mbind result_bind].
  rewrite wire_round by (intros p [= <-]; done). cbn [ok_or mbind result_bind]. unfold w, fixed_32. cbn [wd_root_secret wd_provider wa_base_url wa_account_locator].
  rewrite Hsec. cbn [Z.eqb Pos.eqb mbind result_bind]. rewrite bool_decide_false by done.
  cbn [guard_err mbind result_bind]. rewrite Hloc. done.
Qed.

End roundtrip.
