(* ===== verification/CloudEngine.v ===== *)
(** * The cloud synchronisation engine (app-core/src/cloud.rs)

    The engine owns the linked account, the synchronised records and one workflow at a time:
    it hands out requests, takes their responses, publishes what is pending by replacing the
    account's root and adopts what others have published. A method is a computation in [M]:
    it may fail with an error, which leaves the state as it is at that point, or panic on an
    [expect]. Details of provider failures are error texts with their arguments. *)

From Stdlib Require Import Strings.Byte.
From stdpp Require Import base list strings gmap sets.
From S2P Require Import Prelude Utf8 NavKvRead AcsContracts CloudRecords CloudAcs.

Local Open Scope Z_scope.

(** ** Constants *)

Definition CLOUD_PERSISTENCE_VERSION : Z := 6.
Definition CLOUD_ENVELOPE_VERSION : Z := 1.
Definition CLOUD_POLL_INTERVAL_MS : Z := 60000.
Definition CLOUD_TRANSIENT_RETRY_MS : Z := 5000.
Definition ACS_CORRECTNESS_POLL_INTERVAL_MS : Z := 30 * 60000.

(** ** State *)

Record VerifiedTip := {
  vt_node_id : bytes; vt_node_hash : bytes; vt_generation : Z; vt_published_at_epoch_ms : option Z;
  vt_merkle_root_id : bytes; vt_merkle_root_hash : bytes; vt_next_slot_id : bytes }.
Record AcsAccountState := {
  as_base_url : bytes; as_account_locator : bytes; as_root_revision : Z; as_root_hash : option bytes;
  as_last_event_sequence : option Z }.
Record CloudAccount := {
  ac_provider : CloudProviderKind; ac_root_secret_base64 : bytes;
  ac_imported_device_setup_code : option bytes; ac_tip : option VerifiedTip; ac_acs : option AcsAccountState }.

Inductive PublicationPurpose := PubCreateAccount | PubPublish | PubUpgrade.
#[export] Instance publication_purpose_eq_dec : EqDecision PublicationPurpose.
Proof. solve_decision. Defined.
Record StagedPublication := {
  sp_purpose : PublicationPurpose; sp_node_id : bytes; sp_page_id : bytes; sp_next_slot_id : bytes;
  sp_page_bytes_base64 : bytes; sp_node_bytes_base64 : bytes; sp_node_hash : bytes;
  sp_merkle_root_hash : bytes; sp_generation : Z; sp_published_at_epoch_ms : Z; sp_local_revision : Z }.

Inductive CloudWorkflow :=
| WfCreateChallenge
| WfCreateAccount (challenge : bytes)
| WfCreatePage (staged : StagedPublication) (expected_revision : Z) (expected_root_hash : option bytes)
| WfCommitRoot (staged : StagedPublication) (expected_revision : Z) (expected_root_hash : option bytes)
| WfReadRoot (purpose : ReadPurpose)
| WfReadPage (root : AcsRootSnapshot) (node : CloudNode) (purpose : ReadPurpose)
| WfCreateSseTicket.

Inductive CloudOnboardingIntent := IntentSetupFromDevice | IntentCreateAccount.
#[export] Instance intent_eq_dec : EqDecision CloudOnboardingIntent.
Proof. solve_decision. Defined.
Record CloudProviderFailure := { pf_kind : CloudProviderErrorKind; pf_detail : AppError }.
Inductive LinkedAccountDetail := BackupCode | AddDevice | ConfirmUnlink | ConfirmUpgrade (from : Z).
#[export] Instance linked_detail_eq_dec : EqDecision LinkedAccountDetail.
Proof. solve_decision. Defined.
Record CloudEventStreamPlan := {
  es_stream_id : Z; es_url : bytes; es_connect_timeout_ms : Z; es_idle_timeout_ms : Z }.
Inductive CloudEventStreamEventKind :=
| EvConnecting | EvConnected | EvMessage | EvError | EvClosed | EvIdleTimeout.
Record CloudEventStreamEvent := {
  ev_stream_id : Z; ev_kind : CloudEventStreamEventKind; ev_data : option bytes; ev_detail : option bytes }.

Section engine.
Context {CC : CloudCodecs} {CX : CloudCrypto}.

Record CloudPersistentState := {
  p_version : Z;
  p_records_format : Z;
  p_onboarding_intent : option CloudOnboardingIntent;
  p_account : option CloudAccount;
  p_workflow : option CloudWorkflow;
  p_records : SynchronizedRecordStore;
  p_local_revision : Z;
  p_next_request_id : Z;
  p_last_success_epoch_ms : option Z;
  p_last_read_epoch_ms : option Z;
  p_last_write_epoch_ms : option Z;
  p_last_poll_epoch_ms : option Z;
  p_next_retry_epoch_ms : option Z;
  p_force_poll : bool;
  p_last_provider_failure : option CloudProviderFailure }.

Definition persistent_default : CloudPersistentState :=
  {| p_version := CLOUD_PERSISTENCE_VERSION; p_records_format := CLOUD_NODE_VERSION;
     p_onboarding_intent := None; p_account := None; p_workflow := None; p_records := store_default;
     p_local_revision := 0; p_next_request_id := 1; p_last_success_epoch_ms := None;
     p_last_read_epoch_ms := None; p_last_write_epoch_ms := None; p_last_poll_epoch_ms := None;
     p_next_retry_epoch_ms := None; p_force_poll := false; p_last_provider_failure := None |}.

Record CloudEngine := {
  persistent : CloudPersistentState;
  format : AccountFormat;
  observed_root : option ObservedRoot;
  upgrade_from : option Z;
  action_revision : Z;
  provider_request_in_flight : option CloudProviderRequest;
  linked_account_detail : option LinkedAccountDetail;
  acs_default_base_url : option bytes;
  acs_event_stream_plan : option CloudEventStreamPlan;
  acs_event_stream_connected : bool;
  acs_event_stream_next_retry_epoch_ms : option Z;
  acs_event_stream_consecutive_failures : Z }.

(** Records that a response changed. *)
Abbreviation CloudCompletion := (gmap bytes (CloudRecord Json)).

(** Field updates. *)
Definition p_set_records_format (v : Z) (p : CloudPersistentState) : CloudPersistentState :=
  {|
     p_version := p_version p; p_records_format := v; p_onboarding_intent := p_onboarding_intent p;
     p_account := p_account p; p_workflow := p_workflow p; p_records := p_records p;
     p_local_revision := p_local_revision p; p_next_request_id := p_next_request_id p;
     p_last_success_epoch_ms := p_last_success_epoch_ms p; p_last_read_epoch_ms := p_last_read_epoch_ms p;
     p_last_write_epoch_ms := p_last_write_epoch_ms p; p_last_poll_epoch_ms := p_last_poll_epoch_ms p;
     p_next_retry_epoch_ms := p_next_retry_epoch_ms p; p_force_poll := p_force_poll p;
     p_last_provider_failure := p_last_provider_failure p |}.
Definition p_set_onboarding_intent (v : option CloudOnboardingIntent) (p : CloudPersistentState) : CloudPersistentState :=
  {|
     p_version := p_version p; p_records_format := p_records_format p; p_onboarding_intent := v;
     p_account := p_account p; p_workflow := p_workflow p; p_records := p_records p;
     p_local_revision := p_local_revision p; p_next_request_id := p_next_request_id p;
     p_last_success_epoch_ms := p_last_success_epoch_ms p; p_last_read_epoch_ms := p_last_read_epoch_ms p;
     p_last_write_epoch_ms := p_last_write_epoch_ms p; p_last_poll_epoch_ms := p_last_poll_epoch_ms p;
     p_next_retry_epoch_ms := p_next_retry_epoch_ms p; p_force_poll := p_force_poll p;
     p_last_provider_failure := p_last_provider_failure p |}.
Definition p_set_account (v : option CloudAccount) (p : CloudPersistentState) : CloudPersistentState :=
  {|
     p_version := p_version p; p_records_format := p_records_format p;
     p_onboarding_intent := p_onboarding_intent p; p_account := v; p_workflow := p_workflow p;
     p_records := p_records p; p_local_revision := p_local_revision p;
     p_next_request_id := p_next_request_id p; p_last_success_epoch_ms := p_last_success_epoch_ms p;
     p_last_read_epoch_ms := p_last_read_epoch_ms p; p_last_write_epoch_ms := p_last_write_epoch_ms p;
     p_last_poll_epoch_ms := p_last_poll_epoch_ms p; p_next_retry_epoch_ms := p_next_retry_epoch_ms p;
     p_force_poll := p_force_poll p; p_last_provider_failure := p_last_provider_failure p |}.
Definition p_set_workflow (v : option CloudWorkflow) (p : CloudPersistentState) : CloudPersistentState :=
  {|
     p_version := p_version p; p_records_format := p_records_format p;
     p_onboarding_intent := p_onboarding_intent p; p_account := p_account p; p_workflow := v;
     p_records := p_records p; p_local_revision := p_local_revision p;
     p_next_request_id := p_next_request_id p; p_last_success_epoch_ms := p_last_success_epoch_ms p;
     p_last_read_epoch_ms := p_last_read_epoch_ms p; p_last_write_epoch_ms := p_last_write_epoch_ms p;
     p_last_poll_epoch_ms := p_last_poll_epoch_ms p; p_next_retry_epoch_ms := p_next_retry_epoch_ms p;
     p_force_poll := p_force_poll p; p_last_provider_failure := p_last_provider_failure p |}.
Definition p_set_records (v : SynchronizedRecordStore) (p : CloudPersistentState) : CloudPersistentState :=
  {|
     p_version := p_version p; p_records_format := p_records_format p;
     p_onboarding_intent := p_onboarding_intent p; p_account := p_account p; p_workflow := p_workflow p;
     p_records := v; p_local_revision := p_local_revision p; p_next_request_id := p_next_request_id p;
     p_last_success_epoch_ms := p_last_success_epoch_ms p; p_last_read_epoch_ms := p_last_read_epoch_ms p;
     p_last_write_epoch_ms := p_last_write_epoch_ms p; p_last_poll_epoch_ms := p_last_poll_epoch_ms p;
     p_next_retry_epoch_ms := p_next_retry_epoch_ms p; p_force_poll := p_force_poll p;
     p_last_provider_failure := p_last_provider_failure p |}.
Definition p_set_local_revision (v : Z) (p : CloudPersistentState) : CloudPersistentState :=
  {|
     p_version := p_version p; p_records_format := p_records_format p;
     p_onboarding_intent := p_onboarding_intent p; p_account := p_account p; p_workflow := p_workflow p;
     p_records := p_records p; p_local_revision := v; p_next_request_id := p_next_request_id p;
     p_last_success_epoch_ms := p_last_success_epoch_ms p; p_last_read_epoch_ms := p_last_read_epoch_ms p;
     p_last_write_epoch_ms := p_last_write_epoch_ms p; p_last_poll_epoch_ms := p_last_poll_epoch_ms p;
     p_next_retry_epoch_ms := p_next_retry_epoch_ms p; p_force_poll := p_force_poll p;
     p_last_provider_failure := p_last_provider_failure p |}.
Definition p_set_next_request_id (v : Z) (p : CloudPersistentState) : CloudPersistentState :=
  {|
     p_version := p_version p; p_records_format := p_records_format p;
     p_onboarding_intent := p_onboarding_intent p; p_account := p_account p; p_workflow := p_workflow p;
     p_records := p_records p; p_local_revision := p_local_revision p; p_next_request_id := v;
     p_last_success_epoch_ms := p_last_success_epoch_ms p; p_last_read_epoch_ms := p_last_read_epoch_ms p;
     p_last_write_epoch_ms := p_last_write_epoch_ms p; p_last_poll_epoch_ms := p_last_poll_epoch_ms p;
     p_next_retry_epoch_ms := p_next_retry_epoch_ms p; p_force_poll := p_force_poll p;
     p_last_provider_failure := p_last_provider_failure p |}.
Definition p_set_last_success_epoch_ms (v : option Z) (p : CloudPersistentState) : CloudPersistentState :=
  {|
     p_version := p_version p; p_records_format := p_records_format p;
     p_onboarding_intent := p_onboarding_intent p; p_account := p_account p; p_workflow := p_workflow p;
     p_records := p_records p; p_local_revision := p_local_revision p;
     p_next_request_id := p_next_request_id p; p_last_success_epoch_ms := v;
     p_last_read_epoch_ms := p_last_read_epoch_ms p; p_last_write_epoch_ms := p_last_write_epoch_ms p;
     p_last_poll_epoch_ms := p_last_poll_epoch_ms p; p_next_retry_epoch_ms := p_next_retry_epoch_ms p;
     p_force_poll := p_force_poll p; p_last_provider_failure := p_last_provider_failure p |}.
Definition p_set_last_read_epoch_ms (v : option Z) (p : CloudPersistentState) : CloudPersistentState :=
  {|
     p_version := p_version p; p_records_format := p_records_format p;
     p_onboarding_intent := p_onboarding_intent p; p_account := p_account p; p_workflow := p_workflow p;
     p_records := p_records p; p_local_revision := p_local_revision p;
     p_next_request_id := p_next_request_id p; p_last_success_epoch_ms := p_last_success_epoch_ms p;
     p_last_read_epoch_ms := v; p_last_write_epoch_ms := p_last_write_epoch_ms p;
     p_last_poll_epoch_ms := p_last_poll_epoch_ms p; p_next_retry_epoch_ms := p_next_retry_epoch_ms p;
     p_force_poll := p_force_poll p; p_last_provider_failure := p_last_provider_failure p |}.
Definition p_set_last_write_epoch_ms (v : option Z) (p : CloudPersistentState) : CloudPersistentState :=
  {|
     p_version := p_version p; p_records_format := p_records_format p;
     p_onboarding_intent := p_onboarding_intent p; p_account := p_account p; p_workflow := p_workflow p;
     p_records := p_records p; p_local_revision := p_local_revision p;
     p_next_request_id := p_next_request_id p; p_last_success_epoch_ms := p_last_success_epoch_ms p;
     p_last_read_epoch_ms := p_last_read_epoch_ms p; p_last_write_epoch_ms := v;
     p_last_poll_epoch_ms := p_last_poll_epoch_ms p; p_next_retry_epoch_ms := p_next_retry_epoch_ms p;
     p_force_poll := p_force_poll p; p_last_provider_failure := p_last_provider_failure p |}.
Definition p_set_last_poll_epoch_ms (v : option Z) (p : CloudPersistentState) : CloudPersistentState :=
  {|
     p_version := p_version p; p_records_format := p_records_format p;
     p_onboarding_intent := p_onboarding_intent p; p_account := p_account p; p_workflow := p_workflow p;
     p_records := p_records p; p_local_revision := p_local_revision p;
     p_next_request_id := p_next_request_id p; p_last_success_epoch_ms := p_last_success_epoch_ms p;
     p_last_read_epoch_ms := p_last_read_epoch_ms p; p_last_write_epoch_ms := p_last_write_epoch_ms p;
     p_last_poll_epoch_ms := v; p_next_retry_epoch_ms := p_next_retry_epoch_ms p;
     p_force_poll := p_force_poll p; p_last_provider_failure := p_last_provider_failure p |}.
Definition p_set_next_retry_epoch_ms (v : option Z) (p : CloudPersistentState) : CloudPersistentState :=
  {|
     p_version := p_version p; p_records_format := p_records_format p;
     p_onboarding_intent := p_onboarding_intent p; p_account := p_account p; p_workflow := p_workflow p;
     p_records := p_records p; p_local_revision := p_local_revision p;
     p_next_request_id := p_next_request_id p; p_last_success_epoch_ms := p_last_success_epoch_ms p;
     p_last_read_epoch_ms := p_last_read_epoch_ms p; p_last_write_epoch_ms := p_last_write_epoch_ms p;
     p_last_poll_epoch_ms := p_last_poll_epoch_ms p; p_next_retry_epoch_ms := v;
     p_force_poll := p_force_poll p; p_last_provider_failure := p_last_provider_failure p |}.
Definition p_set_force_poll (v : bool) (p : CloudPersistentState) : CloudPersistentState :=
  {|
     p_version := p_version p; p_records_format := p_records_format p;
     p_onboarding_intent := p_onboarding_intent p; p_account := p_account p; p_workflow := p_workflow p;
     p_records := p_records p; p_local_revision := p_local_revision p;
     p_next_request_id := p_next_request_id p; p_last_success_epoch_ms := p_last_success_epoch_ms p;
     p_last_read_epoch_ms := p_last_read_epoch_ms p; p_last_write_epoch_ms := p_last_write_epoch_ms p;
     p_last_poll_epoch_ms := p_last_poll_epoch_ms p; p_next_retry_epoch_ms := p_next_retry_epoch_ms p;
     p_force_poll := v; p_last_provider_failure := p_last_provider_failure p |}.
Definition p_set_last_provider_failure (v : option CloudProviderFailure) (p : CloudPersistentState) : CloudPersistentState :=
  {|
     p_version := p_version p; p_records_format := p_records_format p;
     p_onboarding_intent := p_onboarding_intent p; p_account := p_account p; p_workflow := p_workflow p;
     p_records := p_records p; p_local_revision := p_local_revision p;
     p_next_request_id := p_next_request_id p; p_last_success_epoch_ms := p_last_success_epoch_ms p;
     p_last_read_epoch_ms := p_last_read_epoch_ms p; p_last_write_epoch_ms := p_last_write_epoch_ms p;
     p_last_poll_epoch_ms := p_last_poll_epoch_ms p; p_next_retry_epoch_ms := p_next_retry_epoch_ms p;
     p_force_poll := p_force_poll p; p_last_provider_failure := v |}.
Definition set_persistent (v : CloudPersistentState) (e : CloudEngine) : CloudEngine :=
  {|
     persistent := v; format := format e; observed_root := observed_root e; upgrade_from := upgrade_from e;
     action_revision := action_revision e; provider_request_in_flight := provider_request_in_flight e;
     linked_account_detail := linked_account_detail e; acs_default_base_url := acs_default_base_url e;
     acs_event_stream_plan := acs_event_stream_plan e;
     acs_event_stream_connected := acs_event_stream_connected e;
     acs_event_stream_next_retry_epoch_ms := acs_event_stream_next_retry_epoch_ms e;
     acs_event_stream_consecutive_failures := acs_event_stream_consecutive_failures e |}.
Definition set_observed_root (v : option ObservedRoot) (e : CloudEngine) : CloudEngine :=
  {|
     persistent := persistent e; format := format e; observed_root := v; upgrade_from := upgrade_from e;
     action_revision := action_revision e; provider_request_in_flight := provider_request_in_flight e;
     linked_account_detail := linked_account_detail e; acs_default_base_url := acs_default_base_url e;
     acs_event_stream_plan := acs_event_stream_plan e;
     acs_event_stream_connected := acs_event_stream_connected e;
     acs_event_stream_next_retry_epoch_ms := acs_event_stream_next_retry_epoch_ms e;
     acs_event_stream_consecutive_failures := acs_event_stream_consecutive_failures e |}.
Definition set_upgrade_from (v : option Z) (e : CloudEngine) : CloudEngine :=
  {|
     persistent := persistent e; format := format e; observed_root := observed_root e; upgrade_from := v;
     action_revision := action_revision e; provider_request_in_flight := provider_request_in_flight e;
     linked_account_detail := linked_account_detail e; acs_default_base_url := acs_default_base_url e;
     acs_event_stream_plan := acs_event_stream_plan e;
     acs_event_stream_connected := acs_event_stream_connected e;
     acs_event_stream_next_retry_epoch_ms := acs_event_stream_next_retry_epoch_ms e;
     acs_event_stream_consecutive_failures := acs_event_stream_consecutive_failures e |}.
Definition set_action_revision (v : Z) (e : CloudEngine) : CloudEngine :=
  {|
     persistent := persistent e; format := format e; observed_root := observed_root e;
     upgrade_from := upgrade_from e; action_revision := v;
     provider_request_in_flight := provider_request_in_flight e;
     linked_account_detail := linked_account_detail e; acs_default_base_url := acs_default_base_url e;
     acs_event_stream_plan := acs_event_stream_plan e;
     acs_event_stream_connected := acs_event_stream_connected e;
     acs_event_stream_next_retry_epoch_ms := acs_event_stream_next_retry_epoch_ms e;
     acs_event_stream_consecutive_failures := acs_event_stream_consecutive_failures e |}.
Definition set_provider_request_in_flight (v : option CloudProviderRequest) (e : CloudEngine) : CloudEngine :=
  {|
     persistent := persistent e; format := format e; observed_root := observed_root e;
     upgrade_from := upgrade_from e; action_revision := action_revision e; provider_request_in_flight := v;
     linked_account_detail := linked_account_detail e; acs_default_base_url := acs_default_base_url e;
     acs_event_stream_plan := acs_event_stream_plan e;
     acs_event_stream_connected := acs_event_stream_connected e;
     acs_event_stream_next_retry_epoch_ms := acs_event_stream_next_retry_epoch_ms e;
     acs_event_stream_consecutive_failures := acs_event_stream_consecutive_failures e |}.
Definition set_linked_account_detail (v : option LinkedAccountDetail) (e : CloudEngine) : CloudEngine :=
  {|
     persistent := persistent e; format := format e; observed_root := observed_root e;
     upgrade_from := upgrade_from e; action_revision := action_revision e;
     provider_request_in_flight := provider_request_in_flight e; linked_account_detail := v;
     acs_default_base_url := acs_default_base_url e; acs_event_stream_plan := acs_event_stream_plan e;
     acs_event_stream_connected := acs_event_stream_connected e;
     acs_event_stream_next_retry_epoch_ms := acs_event_stream_next_retry_epoch_ms e;
     acs_event_stream_consecutive_failures := acs_event_stream_consecutive_failures e |}.
Definition set_acs_default_base_url (v : option bytes) (e : CloudEngine) : CloudEngine :=
  {|
     persistent := persistent e; format := format e; observed_root := observed_root e;
     upgrade_from := upgrade_from e; action_revision := action_revision e;
     provider_request_in_flight := provider_request_in_flight e;
     linked_account_detail := linked_account_detail e; acs_default_base_url := v;
     acs_event_stream_plan := acs_event_stream_plan e;
     acs_event_stream_connected := acs_event_stream_connected e;
     acs_event_stream_next_retry_epoch_ms := acs_event_stream_next_retry_epoch_ms e;
     acs_event_stream_consecutive_failures := acs_event_stream_consecutive_failures e |}.
Definition set_acs_event_stream_plan (v : option CloudEventStreamPlan) (e : CloudEngine) : CloudEngine :=
  {|
     persistent := persistent e; format := format e; observed_root := observed_root e;
     upgrade_from := upgrade_from e; action_revision := action_revision e;
     provider_request_in_flight := provider_request_in_flight e;
     linked_account_detail := linked_account_detail e; acs_default_base_url := acs_default_base_url e;
     acs_event_stream_plan := v; acs_event_stream_connected := acs_event_stream_connected e;
     acs_event_stream_next_retry_epoch_ms := acs_event_stream_next_retry_epoch_ms e;
     acs_event_stream_consecutive_failures := acs_event_stream_consecutive_failures e |}.
Definition set_acs_event_stream_connected (v : bool) (e : CloudEngine) : CloudEngine :=
  {|
     persistent := persistent e; format := format e; observed_root := observed_root e;
     upgrade_from := upgrade_from e; action_revision := action_revision e;
     provider_request_in_flight := provider_request_in_flight e;
     linked_account_detail := linked_account_detail e; acs_default_base_url := acs_default_base_url e;
     acs_event_stream_plan := acs_event_stream_plan e; acs_event_stream_connected := v;
     acs_event_stream_next_retry_epoch_ms := acs_event_stream_next_retry_epoch_ms e;
     acs_event_stream_consecutive_failures := acs_event_stream_consecutive_failures e |}.
Definition set_acs_event_stream_next_retry_epoch_ms (v : option Z) (e : CloudEngine) : CloudEngine :=
  {|
     persistent := persistent e; format := format e; observed_root := observed_root e;
     upgrade_from := upgrade_from e; action_revision := action_revision e;
     provider_request_in_flight := provider_request_in_flight e;
     linked_account_detail := linked_account_detail e; acs_default_base_url := acs_default_base_url e;
     acs_event_stream_plan := acs_event_stream_plan e;
     acs_event_stream_connected := acs_event_stream_connected e; acs_event_stream_next_retry_epoch_ms := v;
     acs_event_stream_consecutive_failures := acs_event_stream_consecutive_failures e |}.
Definition set_acs_event_stream_consecutive_failures (v : Z) (e : CloudEngine) : CloudEngine :=
  {|
     persistent := persistent e; format := format e; observed_root := observed_root e;
     upgrade_from := upgrade_from e; action_revision := action_revision e;
     provider_request_in_flight := provider_request_in_flight e;
     linked_account_detail := linked_account_detail e; acs_default_base_url := acs_default_base_url e;
     acs_event_stream_plan := acs_event_stream_plan e;
     acs_event_stream_connected := acs_event_stream_connected e;
     acs_event_stream_next_retry_epoch_ms := acs_event_stream_next_retry_epoch_ms e;
     acs_event_stream_consecutive_failures := v |}.
Definition put_records_format (v : Z) (e : CloudEngine) : CloudEngine :=
  set_persistent (p_set_records_format v (persistent e)) e.
Definition put_onboarding_intent (v : option CloudOnboardingIntent) (e : CloudEngine) : CloudEngine :=
  set_persistent (p_set_onboarding_intent v (persistent e)) e.
Definition put_account (v : option CloudAccount) (e : CloudEngine) : CloudEngine :=
  set_persistent (p_set_account v (persistent e)) e.
Definition put_workflow (v : option CloudWorkflow) (e : CloudEngine) : CloudEngine :=
  set_persistent (p_set_workflow v (persistent e)) e.
Definition put_records (v : SynchronizedRecordStore) (e : CloudEngine) : CloudEngine :=
  set_persistent (p_set_records v (persistent e)) e.
Definition put_local_revision (v : Z) (e : CloudEngine) : CloudEngine :=
  set_persistent (p_set_local_revision v (persistent e)) e.
Definition put_next_request_id (v : Z) (e : CloudEngine) : CloudEngine :=
  set_persistent (p_set_next_request_id v (persistent e)) e.
Definition put_last_success_epoch_ms (v : option Z) (e : CloudEngine) : CloudEngine :=
  set_persistent (p_set_last_success_epoch_ms v (persistent e)) e.
Definition put_last_read_epoch_ms (v : option Z) (e : CloudEngine) : CloudEngine :=
  set_persistent (p_set_last_read_epoch_ms v (persistent e)) e.
Definition put_last_write_epoch_ms (v : option Z) (e : CloudEngine) : CloudEngine :=
  set_persistent (p_set_last_write_epoch_ms v (persistent e)) e.
Definition put_last_poll_epoch_ms (v : option Z) (e : CloudEngine) : CloudEngine :=
  set_persistent (p_set_last_poll_epoch_ms v (persistent e)) e.
Definition put_next_retry_epoch_ms (v : option Z) (e : CloudEngine) : CloudEngine :=
  set_persistent (p_set_next_retry_epoch_ms v (persistent e)) e.
Definition put_force_poll (v : bool) (e : CloudEngine) : CloudEngine :=
  set_persistent (p_set_force_poll v (persistent e)) e.
Definition put_last_provider_failure (v : option CloudProviderFailure) (e : CloudEngine) : CloudEngine :=
  set_persistent (p_set_last_provider_failure v (persistent e)) e.

(** [Option::is_none] and [Option::is_some]. *)
Definition is_none {A} (o : option A) : bool := match o with None => true | Some _ => false end.
Definition is_some {A} (o : option A) : bool := negb (is_none o).

(** ** Errors, panics and the monad *)

Inductive Fault := Error (e : AppError) | Panic (expectation : string).
Abbreviation M := (ST CloudEngine Fault).

Definition lift {A} (r : AppResult A) : M A := st_lift (map_err Error r).
Definition fail {A} (e : AppError) : M A := st_err (Error e).
Definition expect {A} (o : option A) (text : string) : M A :=
  match o with Some a => mret a | None => st_err (Panic text) end.
Definition modify (f : CloudEngine → CloudEngine) : M unit := st_modify f.
Definition get : M CloudEngine := st_get.

(** ** The account *)

Definition account (e : CloudEngine) : AppResult CloudAccount :=
  ok_or (p_account (persistent e)) (cloud_error "no cloud account is linked").

Definition acs_of (e : CloudEngine) (text : string) : AppResult AcsAccountState :=
  a ← account e; ok_or (ac_acs a) (cloud_error text).

Definition put_tip (tip : VerifiedTip) : M unit :=
  e ← get;
  a ← lift (account e);
  modify (put_account (Some {| ac_provider := ac_provider a; ac_root_secret_base64 := ac_root_secret_base64 a;
    ac_imported_device_setup_code := ac_imported_device_setup_code a; ac_tip := Some tip; ac_acs := ac_acs a |})).

Definition put_acs (f : AcsAccountState → AcsAccountState) : M unit :=
  e ← get;
  a ← lift (account e);
  acs ← lift (ok_or (ac_acs a) (cloud_error "Aerobag Cloud configuration is missing"));
  modify (put_account (Some {| ac_provider := ac_provider a; ac_root_secret_base64 := ac_root_secret_base64 a;
    ac_imported_device_setup_code := ac_imported_device_setup_code a; ac_tip := ac_tip a;
    ac_acs := Some (f acs) |})).

Definition with_root (revision : Z) (hash : bytes) (a : AcsAccountState) : AcsAccountState :=
  {| as_base_url := as_base_url a; as_account_locator := as_account_locator a; as_root_revision := revision;
     as_root_hash := Some hash; as_last_event_sequence := as_last_event_sequence a |}.
Definition with_sequence (sequence : Z) (a : AcsAccountState) : AcsAccountState :=
  {| as_base_url := as_base_url a; as_account_locator := as_account_locator a;
     as_root_revision := as_root_revision a; as_root_hash := as_root_hash a;
     as_last_event_sequence := Some sequence |}.

Definition account_secret (a : CloudAccount) : AppResult bytes :=
  secret ← ok_or (b64_decode (ac_root_secret_base64 a)) (cloud_error "cloud root secret is not valid base64");
  _ ← guard_err (negb (len secret =? 32)) (cloud_error "cloud root secret has the wrong size");
  Ok secret.

Definition derive_acs_payload_key (secret : bytes) : AppResult bytes :=
  ok_or (hkdf_expand ACS_KDF_SALT secret ACS_KDF_PAYLOAD_ENCRYPTION_LABEL)
    (cloud_error "Aerobag Cloud payload key derivation failed").

Definition account_tag (secret : bytes) : bytes :=
  hex_lower (take 16 (sha256 (bs "aerobag-cloud-account-locator-v1" ++ secret))).

Definition text_err {A} (r : result string A) : AppResult A := map_err cloud_error r.

Abbreviation authenticated_hash_of := (authenticated_hash sha256 b64_decode).

(** ** Encryption *)

Definition encrypt_acs_value (rand : Random) (draw : nat) (e : CloudEngine) (plaintext : AppResult bytes)
    (role : bytes) (kind : AcsEncryptedValueKind) (value_id : bytes) (children : list bytes)
    : AppResult AcsEncryptedValue :=
  a ← account e;
  secret ← account_secret a;
  key ← derive_acs_payload_key secret;
  nonce ← rand draw 12%nat;
  aad ← text_err (acs_encrypted_value_associated_data kind value_id children);
  msg ← plaintext;
  ct ← ok_or (aead_encrypt key nonce aad msg) (cloud_error "Aerobag Cloud encryption failed");
  envelope ← envelope_to_vec {| ce_version := CLOUD_ENVELOPE_VERSION; ce_account_tag := account_tag secret;
               ce_role := role; ce_nonce_base64 := b64_encode nonce; ce_ciphertext_base64 := b64_encode ct |};
  Ok (from_ciphertext sha256 b64_encode envelope children).

Definition decrypt_acs_value (e : CloudEngine) (v : AcsEncryptedValue) (role : bytes)
    (kind : AcsEncryptedValueKind) (value_id : bytes) : AppResult Json :=
  _ ← text_err (validate_value sha256 b64_decode v);
  outer ← text_err (ciphertext b64_decode v);
  envelope ← envelope_from_slice outer;
  a ← account e;
  secret ← account_secret a;
  _ ← guard_err (negb (ce_version envelope =? CLOUD_ENVELOPE_VERSION)
                 || negb (bool_decide (ce_account_tag envelope = account_tag secret))
                 || negb (bool_decide (ce_role envelope = role)))
        (cloud_error "Aerobag Cloud envelope binding does not match this account");
  nonce ← ok_or (b64_decode (ce_nonce_base64 envelope)) (cloud_error "Aerobag Cloud envelope nonce is invalid");
  _ ← guard_err (negb (len nonce =? 12)) (cloud_error "Aerobag Cloud envelope nonce has the wrong size");
  ct ← ok_or (b64_decode (ce_ciphertext_base64 envelope))
         (cloud_error "Aerobag Cloud envelope ciphertext is invalid");
  aad ← text_err (acs_encrypted_value_associated_data kind value_id (child_object_ids v));
  key ← derive_acs_payload_key secret;
  msg ← ok_or (aead_decrypt key nonce aad ct) (cloud_error "Aerobag Cloud envelope authentication failed");
  json_from_slice msg.

Definition ROLE_PAGE : bytes := bs "merkle_page".
Definition ROLE_NODE : bytes := bs "state_node".

(** ** Staging a publication *)

Definition stage_acs_page (rand : Random) (e : CloudEngine) (purpose : PublicationPurpose) (generation : Z)
    (parent : option VerifiedTip) (now_epoch_ms : Z) (page : CloudPage Json) : AppResult StagedPublication :=
  id ← rand 0%nat 24%nat;
  let page_id := b64_encode id in
  page ← af_encode_page (format e) page;
  page_value ← encrypt_acs_value rand 1 e (json_to_vec page) ROLE_PAGE KindObject page_id [];
  page_bytes ← text_err (ciphertext b64_decode page_value);
  page_hash ← text_err (authenticated_hash_of page_value KindObject page_id);
  let node := {| cn_version := af_version (format e); cn_generation := generation;
                 cn_published_at_epoch_ms := Some now_epoch_ms;
                 cn_parent_node_id := vt_node_id <$> parent; cn_parent_node_hash := vt_node_hash <$> parent;
                 cn_merkle_root_id := page_id; cn_merkle_root_hash := page_hash; cn_next_slot_id := [] |} in
  node_value ← encrypt_acs_value rand 2 e (node_to_vec node) ROLE_NODE KindRoot ACS_FIXED_ROOT_ID [page_id];
  node_bytes ← text_err (ciphertext b64_decode node_value);
  node_hash ← text_err (authenticated_hash_of node_value KindRoot ACS_FIXED_ROOT_ID);
  Ok {| sp_purpose := purpose; sp_node_id := ACS_FIXED_ROOT_ID; sp_page_id := page_id; sp_next_slot_id := [];
        sp_page_bytes_base64 := b64_encode page_bytes; sp_node_bytes_base64 := b64_encode node_bytes;
        sp_node_hash := node_hash; sp_merkle_root_hash := page_hash; sp_generation := generation;
        sp_published_at_epoch_ms := now_epoch_ms; sp_local_revision := p_local_revision (persistent e) |}.

Definition stage_acs_publication (rand : Random) (e : CloudEngine) (purpose : PublicationPurpose)
    (generation : Z) (parent : option VerifiedTip) (now_epoch_ms : Z) : AppResult StagedPublication :=
  stage_acs_page rand e purpose generation parent now_epoch_ms (page_for_records (cached (p_records (persistent e)))).

Definition acs_staged_page_value (s : StagedPublication) : AppResult AcsEncryptedValue :=
  b ← ok_or (b64_decode (sp_page_bytes_base64 s)) (cloud_error "staged Aerobag Cloud page is not valid base64url");
  let v := from_ciphertext sha256 b64_encode b [] in
  hash ← text_err (authenticated_hash_of v KindObject (sp_page_id s));
  _ ← guard_err (negb (bool_decide (hash = sp_merkle_root_hash s)))
        (cloud_error "staged Aerobag Cloud page hash changed");
  Ok v.

Definition acs_staged_root_value (s : StagedPublication) : AppResult AcsEncryptedValue :=
  b ← ok_or (b64_decode (sp_node_bytes_base64 s)) (cloud_error "staged Aerobag Cloud root is not valid base64url");
  let v := from_ciphertext sha256 b64_encode b [sp_page_id s] in
  hash ← text_err (authenticated_hash_of v KindRoot ACS_FIXED_ROOT_ID);
  _ ← guard_err (negb (bool_decide (hash = sp_node_hash s))) (cloud_error "staged Aerobag Cloud root hash changed");
  Ok v.

(** ** Checks of what the server returns *)

Definition validate_acs_root_snapshot (root : AcsRootSnapshot) : AppResult unit :=
  _ ← guard_err (rs_revision root =? 0) (cloud_error "Aerobag Cloud returned root revision zero");
  hash ← text_err (authenticated_hash_of (rs_value root) KindRoot ACS_FIXED_ROOT_ID);
  guard_err (negb (bool_decide (hash = rs_root_hash root)))
    (app_error "Aerobag Cloud root hash mismatch: expected {}, got {hash}" [ArgText (rs_root_hash root); ArgText hash]).

Definition validate_acs_node (root : AcsRootSnapshot) (node : CloudNode) (current_tip : option VerifiedTip)
    (purpose : ReadPurpose) : AppResult unit :=
  _ ← guard_err (negb (bool_decide (child_object_ids (rs_value root) = [cn_merkle_root_id node])))
        (cloud_error "Aerobag Cloud root does not describe one valid state page");
  if is_link purpose then Ok tt
  else match current_tip with
       | None => Ok tt
       | Some tip =>
           if bool_decide (vt_node_hash tip = rs_root_hash root) && (vt_generation tip =? cn_generation node)
           then Ok tt
           else guard_err (cn_generation node <=? vt_generation tip)
                  (cloud_error "Aerobag Cloud root generation did not advance")
       end.

(** The debug text of the response is not kept. *)
Definition unexpected_response (context : string) : AppError :=
  app_error "unexpected provider response for {context}: {response:?}" [ArgText (bs context)].

(** ** Local records *)

Definition prepare_local_records : M unit :=
  e ← get;
  let p := persistent e in
  let f := format e in
  _ ← (if p_records_format p =? af_version f then mret tt
       else
         c ← lift (migrate f (p_records_format p) (cached (p_records p)));
         d ← lift (migrate f (p_records_format p) (deferred_adoption (p_records p)));
         _ ← lift (validate_cloud_records c);
         _ ← lift (validate_cloud_records d);
         _ ← modify (put_records {| cached := c;
                       pending_keys := filter (λ k, is_Some (c !! k)) (pending_keys (p_records p));
                       deferred_adoption := d |});
         _ ← modify (put_records_format (af_version f));
         _ ← modify (put_last_provider_failure None);
         _ ← modify (put_next_retry_epoch_ms None);
         modify (put_force_poll (is_some (p_account p))));
  e ← get;
  lift (validate_cloud_records (cached (p_records (persistent e)))).

Definition commit_provider_completion_failure (error : AppError) (e : CloudEngine) : CloudEngine :=
  set_acs_event_stream_next_retry_epoch_ms None
    (set_acs_event_stream_connected false
      (set_acs_event_stream_plan None
        (put_last_provider_failure (Some {| pf_kind := KindPermanent; pf_detail := error |})
          (put_next_retry_epoch_ms None (put_workflow None (set_upgrade_from None e)))))).

(** ** Construction from the persisted state *)

(** A publication cannot be resumed by a new process; a page read starts over at the root. *)
Definition restart_workflow (w : option CloudWorkflow) : option CloudWorkflow :=
  let w := match w with
           | Some (WfCreatePage s _ _) | Some (WfCommitRoot s _ _) =>
               match sp_purpose s with
               | PubPublish | PubUpgrade => Some (WfReadRoot Poll)
               | PubCreateAccount => w
               end
           | _ => w
           end in
  match w with
  | Some (WfReadPage _ _ purpose) => Some (WfReadRoot purpose)
  | _ => w
  end.

Definition has_tip (p : CloudPersistentState) : bool :=
  match p_account p with Some a => is_some (ac_tip a) | None => false end.

Definition restart_persistent (p : CloudPersistentState) : CloudPersistentState :=
  let old := p_version p <? 3 in
  let records := if old then {| cached := cached (p_records p); pending_keys := ∅; deferred_adoption := ∅ |}
                 else p_records p in
  let force := if old then is_some (p_account p) else p_force_poll p in
  let w := restart_workflow (p_workflow p) in
  {| p_version := CLOUD_PERSISTENCE_VERSION; p_records_format := p_records_format p;
     p_onboarding_intent := p_onboarding_intent p; p_account := p_account p;
     p_workflow := (if has_tip p then match w with Some WfCreateSseTicket => Some (WfReadRoot Poll) | _ => w end
                    else w);
     p_records := records; p_local_revision := p_local_revision p; p_next_request_id := p_next_request_id p;
     p_last_success_epoch_ms := p_last_success_epoch_ms p; p_last_read_epoch_ms := p_last_read_epoch_ms p;
     p_last_write_epoch_ms := p_last_write_epoch_ms p; p_last_poll_epoch_ms := p_last_poll_epoch_ms p;
     p_next_retry_epoch_ms := p_next_retry_epoch_ms p; p_force_poll := (if has_tip p then true else force);
     p_last_provider_failure := p_last_provider_failure p |}.

Definition new_with_format (p : CloudPersistentState) (f : AccountFormat) : CloudEngine :=
  let e := {| persistent := restart_persistent p; format := f; observed_root := None; upgrade_from := None;
              action_revision := 0; provider_request_in_flight := None; linked_account_detail := None;
              acs_default_base_url := None; acs_event_stream_plan := None; acs_event_stream_connected := false;
              acs_event_stream_next_retry_epoch_ms := None; acs_event_stream_consecutive_failures := 0 |} in
  match prepare_local_records e with
  | (Err (Error error), e) => commit_provider_completion_failure error e
  | (_, e) => e
  end.

Definition new (p : CloudPersistentState) : CloudEngine := new_with_format p CURRENT.

(** ** Choosing what to do next *)

Definition compatibility_detail (e : CloudEngine) : option AppError :=
  match observed_root e with
  | None => None
  | Some root =>
      let version := or_version root in
      let required := af_version (format e) in
      if version =? required then None
      else
        let text := if version <? required
          then "Your account uses format {version} and this client requires format {required}, so cloud sync is paused. Use the Cloud page to upgrade your account. Local changes stay on this device until sync resumes."%string
          else "Your account uses format {version} and this client requires format {required}, so cloud sync is paused. Update this application, or reload this tab on web, to resume cloud sync. Local changes stay on this device until sync resumes."%string in
        Some (match p_last_provider_failure (persistent e) with
              | Some failure =>
                  app_error (text +:+ " Last sync attempt failed: {}")
                    ([ArgNum version; ArgNum required; ArgText (bs (ae_text (pf_detail failure)))]
                     ++ ae_args (pf_detail failure))
              | None => app_error text [ArgNum version; ArgNum required]
              end)
  end.

Definition read_purpose (a : CloudAccount) : ReadPurpose :=
  match ac_tip a with None => Link | Some _ => Poll end.

(** The root was read, has this client's format, and its records were merged. *)
Definition root_verified (e : CloudEngine) (root : ObservedRoot) : bool :=
  (or_version root =? af_version (format e)) && or_records_verified root.

Definition publish_pending (rand : Random) (a : CloudAccount) (now_epoch_ms : Z) : M unit :=
  e ← get;
  acs ← lift (ok_or (ac_acs a) (cloud_error "Aerobag Cloud account configuration is missing"));
  let verified := match observed_root e with
                  | Some root => root_verified e root && root_matches root (as_root_revision acs) (as_root_hash acs)
                  | None => false
                  end in
  _ ← lift (guard_err (negb verified)
              (cloud_error "Cannot publish without a verified account format for this root"));
  _ ← prepare_local_records;
  e ← get;
  a ← lift (account e);
  acs ← expect (ac_acs a) "ACS checked above";
  tip ← expect (ac_tip a) "tip checked above";
  staged ← lift (stage_acs_publication rand e PubPublish (saturating_add u64_max (vt_generation tip) 1)
                   (Some tip) now_epoch_ms);
  modify (put_workflow (Some (WfCreatePage staged (as_root_revision acs) (as_root_hash acs)))).

Definition poll_due (e : CloudEngine) (now_epoch_ms : Z) : bool :=
  let compatible := is_none (compatibility_detail e) in
  let interval := if compatible && acs_event_stream_connected e then ACS_CORRECTNESS_POLL_INTERVAL_MS
                  else CLOUD_POLL_INTERVAL_MS in
  p_force_poll (persistent e) ||
  match p_last_poll_epoch_ms (persistent e) with
  | None => true
  | Some last => interval <=? i64_saturating_sub now_epoch_ms last
  end.

Definition due (retry : option Z) (now_epoch_ms : Z) : bool :=
  match retry with None => true | Some t => t <=? now_epoch_ms end.

Definition ensure_workflow (rand : Random) (now_epoch_ms : Z) : M unit :=
  e ← get;
  let p := persistent e in
  match p_workflow p, p_account p with
  | Some _, _ | None, None => mret tt
  | None, Some a =>
      let unread := match observed_root e with
                    | None => true
                    | Some root => (or_version root =? af_version (format e)) && negb (or_records_verified root)
                    end in
      if unread then modify (put_workflow (Some (WfReadRoot (read_purpose a))))
      else if is_none (compatibility_detail e)
              && negb (bool_decide (pending_keys (p_records p) = ∅))
      then publish_pending rand a now_epoch_ms
      else
        _ ← (if poll_due e now_epoch_ms then
               _ ← modify (put_force_poll false);
               modify (put_workflow (Some (WfReadRoot (read_purpose a))))
             else mret tt);
        e ← get;
        if is_none (p_workflow (persistent e))
           && is_none (acs_event_stream_plan e)
           && due (acs_event_stream_next_retry_epoch_ms e) now_epoch_ms
        then modify (put_workflow (Some WfCreateSseTicket))
        else mret tt
  end.

(** ** Handing out requests *)

Definition current_provider (e : CloudEngine) : option CloudProviderKind :=
  match p_account (persistent e) with
  | Some a => Some (ac_provider a)
  | None => match acs_default_base_url e with Some _ => Some AerobagCloud | None => None end
  end.

Definition provider_ready (e : CloudEngine) : bool :=
  is_some (p_account (persistent e) ≫= ac_acs) || is_some (acs_default_base_url e).

Definition operation_for_workflow (w : CloudWorkflow) (account : option CloudAccount)
    : AppResult CloudProviderOperation :=
  match w with
  | WfCreateChallenge => Ok AcsIssueAccountChallenge
  | WfCreateAccount challenge =>
      a ← ok_or account (cloud_error "Aerobag Cloud account is missing");
      acs ← ok_or (ac_acs a) (cloud_error "Aerobag Cloud configuration is missing");
      secret ← account_secret a;
      identity ← derive_identity secret;
      Ok (AcsCreateAccount
            {| ca_contract_id := ACS_CONTRACT_ID; ca_account_locator := as_account_locator acs;
               ca_signing_key_id := id_signing_key_id identity;
               ca_signing_public_key_base64url := id_signing_public_key_base64url identity;
               ca_creation_challenge := challenge |})
  | WfCreatePage staged _ _ =>
      v ← acs_staged_page_value staged;
      Ok (AcsCreateObject
            {| co_contract_id := ACS_CONTRACT_ID; co_object_id := sp_page_id staged; co_value := v |})
  | WfCommitRoot staged expected_revision expected_root_hash =>
      v ← acs_staged_root_value staged;
      Ok (AcsCompareAndSwapRoot
            {| cas_contract_id := ACS_CONTRACT_ID; cas_expected_revision := expected_revision;
               cas_expected_root_hash := expected_root_hash; cas_replacement := v |})
  | WfReadRoot _ => Ok AcsReadRoot
  | WfReadPage _ node _ => Ok (AcsReadObject (cn_merkle_root_id node))
  | WfCreateSseTicket =>
      a ← ok_or account (cloud_error "Aerobag Cloud account is missing");
      acs ← ok_or (ac_acs a) (cloud_error "Aerobag Cloud configuration is missing");
      Ok (AcsCreateSseTicket
            {| st_contract_id := ACS_CONTRACT_ID; st_last_event_sequence := as_last_event_sequence acs |})
  end.

(** Whether a publication may be sent: it starts an account, or replaces a root this process
    has read and merged, or one the user has agreed to upgrade. *)
Definition publication_authorized (e : CloudEngine) (staged : StagedPublication) (expected_revision : Z)
    (expected_root_hash : option bytes) : bool :=
  match sp_purpose staged with
  | PubCreateAccount => (expected_revision =? 0) && is_none expected_root_hash
  | PubPublish =>
      match observed_root e with
      | Some root => root_matches root expected_revision expected_root_hash && root_verified e root
      | None => false
      end
  | PubUpgrade =>
      match observed_root e with
      | Some root => root_matches root expected_revision expected_root_hash
                     && (bool_decide (upgrade_from e = Some (or_version root)) && can_upgrade (format e) (or_version root))
      | None => false
      end
  end.

Definition workflow_authorized (e : CloudEngine) (w : CloudWorkflow) : bool :=
  match w with
  | WfCreatePage s r h | WfCommitRoot s r h => publication_authorized e s r h
  | _ => true
  end.

(** Nothing is sent while a request is out, the server is unknown, a failure stands or the
    time of the next attempt has not come. *)
Definition request_blocked (e : CloudEngine) (now_epoch_ms : Z) : bool :=
  is_some (provider_request_in_flight e) || negb (provider_ready e)
  || match p_last_provider_failure (persistent e) with
     | Some failure => negb (bool_decide (pf_kind failure = KindTransient))
     | None => false
     end
  || match p_next_retry_epoch_ms (persistent e) with Some retry => now_epoch_ms <? retry | None => false end.

Definition take_provider_request (rand : Random) (now_epoch_ms : Z) : M (option CloudHttpRequest) :=
  e ← get;
  match current_provider e with
  | None => mret None
  | Some provider =>
      if request_blocked e now_epoch_ms then mret None
      else
        _ ← ensure_workflow rand now_epoch_ms;
        e ← get;
        match p_workflow (persistent e) with
        | None => mret None
        | Some w =>
            _ ← lift (guard_err (negb (workflow_authorized e w))
                  (cloud_error "Cloud publication has no verified format or upgrade consent for its expected root"));
            operation ← lift (operation_for_workflow w (p_account (persistent e)));
            let request_id := Z.max (p_next_request_id (persistent e)) 1 in
            _ ← modify (put_next_request_id (saturating_add u64_max request_id 1));
            let request := {| pr_request_id := request_id; pr_provider := provider; pr_operation := operation |} in
            a ← lift (account e);
            acs ← lift (ok_or (ac_acs a) (cloud_error "Aerobag Cloud account configuration is missing"));
            secret ← lift (account_secret a);
            http ← lift (plan_request rand 3 request (as_base_url acs) secret (as_account_locator acs) now_epoch_ms);
            _ ← modify (set_provider_request_in_flight (Some request));
            mret (Some http)
        end
  end.

(** ** Taking responses *)

Definition finish_publication (staged : StagedPublication) : M unit :=
  let upgraded := bool_decide (sp_purpose staged = PubUpgrade) in
  _ ← put_tip {| vt_node_id := sp_node_id staged; vt_node_hash := sp_node_hash staged;
                 vt_generation := sp_generation staged;
                 vt_published_at_epoch_ms := Some (sp_published_at_epoch_ms staged);
                 vt_merkle_root_id := sp_page_id staged; vt_merkle_root_hash := sp_merkle_root_hash staged;
                 vt_next_slot_id := sp_next_slot_id staged |};
  _ ← modify (put_last_write_epoch_ms (Some (sp_published_at_epoch_ms staged)));
  e ← get;
  let s := p_records (persistent e) in
  _ ← (if negb upgraded && (p_local_revision (persistent e) =? sp_local_revision staged)
       then modify (put_records {| cached := cached s; pending_keys := ∅; deferred_adoption := deferred_adoption s |})
       else mret tt);
  _ ← modify (put_workflow None);
  _ ← modify (put_force_poll true);
  if upgraded then modify (λ e, set_observed_root None (set_upgrade_from None e)) else mret tt.

Definition advance_create_challenge (response : CloudProviderResponse) (now_epoch_ms : Z) : M CloudCompletion :=
  match response with
  | RespCreationChallenge r =>
      _ ← lift (guard_err (negb (bool_decide (cc_contract_id r = ACS_CONTRACT_ID))
                           || bool_decide (trim (cc_challenge r) = []) || (cc_expires_at_epoch_ms r <=? now_epoch_ms))
                  (cloud_error "Aerobag Cloud returned an invalid account-creation challenge"));
      _ ← modify (put_workflow (Some (WfCreateAccount (cc_challenge r))));
      mret ∅
  | _ => fail (unexpected_response "request ACS account challenge")
  end.

Definition advance_create_account (rand : Random) (response : CloudProviderResponse) (now_epoch_ms : Z)
    : M CloudCompletion :=
  match response with
  | RespAccountCreated r =>
      e ← get;
      acs ← lift (acs_of e "Aerobag Cloud configuration is missing");
      _ ← lift (guard_err (negb (bool_decide (ar_contract_id r = ACS_CONTRACT_ID))
                           || negb (bool_decide (ar_account_locator r = as_account_locator acs)))
                  (cloud_error "Aerobag Cloud created a different account than requested"));
      staged ← lift (stage_acs_publication rand e PubCreateAccount 0 None now_epoch_ms);
      _ ← modify (put_workflow (Some (WfCreatePage staged 0 None)));
      mret ∅
  | _ => fail (unexpected_response "create ACS account")
  end.

Definition advance_create_page (staged : StagedPublication) (expected_revision : Z)
    (expected_root_hash : option bytes) (response : CloudProviderResponse) : M CloudCompletion :=
  match response with
  | RespCreated | RespAlreadyExists =>
      _ ← modify (put_workflow (Some (WfCommitRoot staged expected_revision expected_root_hash)));
      mret ∅
  | _ => fail (unexpected_response "create ACS state page")
  end.

Definition advance_commit_root (staged : StagedPublication) (response : CloudProviderResponse) : M CloudCompletion :=
  match response with
  | RespRootCas (Committed root) =>
      _ ← lift (validate_acs_root_snapshot root);
      _ ← lift (guard_err (negb (bool_decide (rs_root_hash root = sp_node_hash staged)))
                  (cloud_error "Aerobag Cloud committed a different root than requested"));
      _ ← put_acs (with_root (rs_revision root) (rs_root_hash root));
      _ ← modify (λ e, set_observed_root
            (Some {| or_version := af_version (format e); or_revision := rs_revision root;
                     or_hash := sp_node_hash staged; or_records_verified := true |}) e);
      _ ← finish_publication staged;
      mret ∅
  | RespRootCas (Conflict _ _) =>
      _ ← modify (set_observed_root None);
      _ ← modify (put_workflow (Some (WfReadRoot PublishRace)));
      mret ∅
  | _ => fail (unexpected_response "commit ACS root")
  end.

Definition note_read (now_epoch_ms : Z) : M unit :=
  _ ← modify (put_last_read_epoch_ms (Some now_epoch_ms));
  modify (put_last_poll_epoch_ms (Some now_epoch_ms)).

(** The root is the one already merged. *)
Definition root_unchanged (e : CloudEngine) (current : AcsAccountState) (root : AcsRootSnapshot)
    (purpose : ReadPurpose) : bool :=
  is_none (upgrade_from e)
  && match observed_root e with
     | Some o => root_verified e o && root_matches o (rs_revision root) (Some (rs_root_hash root))
     | None => false
     end
  && (as_root_revision current =? rs_revision root)
  && bool_decide (as_root_hash current = Some (rs_root_hash root))
  && negb (is_link purpose).

(** A root of this client's format ends a pending upgrade. *)
Definition clear_upgrade : M unit :=
  _ ← modify (set_upgrade_from None);
  e ← get;
  match linked_account_detail e with
  | Some (ConfirmUpgrade _) => modify (set_linked_account_detail None)
  | _ => mret tt
  end.

(** The node of the root names the page to read next. *)
Definition begin_page_read (root : AcsRootSnapshot) (version : Z) (v : Json) (purpose : ReadPurpose)
    : M CloudCompletion :=
  e ← get;
  decoder ← expect (find_format (format e) version) "format checked before body decoding";
  node ← lift (af_decode_node decoder v);
  a ← lift (account e);
  _ ← lift (validate_acs_node root node (ac_tip a) purpose);
  _ ← modify (put_workflow (Some (WfReadPage root node purpose)));
  mret ∅.

Definition advance_read_root (purpose : ReadPurpose) (response : CloudProviderResponse) (now_epoch_ms : Z)
    : M CloudCompletion :=
  match response with
  | RespRoot o =>
      root ← lift (ok_or o (cloud_error "The Sync Account has no published root"));
      _ ← lift (validate_acs_root_snapshot root);
      e ← get;
      current ← lift (acs_of e "Aerobag Cloud configuration is missing");
      if root_unchanged e current root purpose then
        _ ← note_read now_epoch_ms;
        _ ← modify (put_workflow None);
        mret ∅
      else
        v ← lift (decrypt_acs_value e (rs_value root) ROLE_NODE KindRoot ACS_FIXED_ROOT_ID);
        version ← lift (read_version v);
        _ ← modify (set_observed_root (Some {| or_version := version; or_revision := rs_revision root;
                                               or_hash := rs_root_hash root; or_records_verified := false |}));
        _ ← note_read now_epoch_ms;
        if negb (version =? af_version (format e))
           && (negb (bool_decide (upgrade_from e = Some version)) || negb (can_upgrade (format e) version))
        then
          _ ← modify (set_upgrade_from None);
          _ ← modify (put_workflow None);
          mret ∅
        else
          _ ← (if version =? af_version (format e) then clear_upgrade else mret tt);
          begin_page_read root version v purpose
  | _ => fail (unexpected_response "read ACS root")
  end.

Definition tip_of_node (root : AcsRootSnapshot) (node : CloudNode) : VerifiedTip :=
  {| vt_node_id := ACS_FIXED_ROOT_ID; vt_node_hash := rs_root_hash root; vt_generation := cn_generation node;
     vt_published_at_epoch_ms := cn_published_at_epoch_ms node; vt_merkle_root_id := cn_merkle_root_id node;
     vt_merkle_root_hash := cn_merkle_root_hash node; vt_next_slot_id := [] |}.

(** The page a root names, checked, decrypted and decoded in the format of its node. *)
Definition open_page (e : CloudEngine) (node : CloudNode) (o : option AcsObjectSnapshot) : AppResult (CloudPage Json) :=
  object ← ok_or o (app_error "Aerobag Cloud state page {} is missing" [ArgText (cn_merkle_root_id node)]);
  _ ← guard_err (negb (bool_decide (os_object_id object = cn_merkle_root_id node)))
        (cloud_error "Aerobag Cloud returned the wrong state page");
  actual_hash ← text_err (authenticated_hash_of (os_value object) KindObject (os_object_id object));
  _ ← guard_err (negb (bool_decide (actual_hash = cn_merkle_root_hash node)))
        (app_error "Aerobag Cloud page hash mismatch: expected {}, got {actual_hash}"
           [ArgText (cn_merkle_root_hash node); ArgText actual_hash]);
  v ← decrypt_acs_value e (os_value object) ROLE_PAGE KindObject (os_object_id object);
  decoder ← ok_or (find_format (format e) (cn_version node)) (cloud_error "Account format changed during page read");
  af_decode_page decoder v.

(** The page of an older format becomes the first page of the upgraded account. *)
Definition upgrade_page (rand : Random) (root : AcsRootSnapshot) (node : CloudNode) (page : CloudPage Json)
    (now_epoch_ms : Z) : M CloudCompletion :=
  e ← get;
  _ ← lift (guard_err (negb (bool_decide (upgrade_from e = Some (cn_version node)))
                       || negb (can_upgrade (format e) (cn_version node)))
              (cloud_error "Account upgrade is not authorized"));
  records ← lift (migrate (format e) (cn_version node) (cp_records page));
  staged ← lift (stage_acs_page rand e PubUpgrade (saturating_add u64_max (cn_generation node) 1)
                   (Some (tip_of_node root node)) now_epoch_ms (page_for_records records));
  _ ← modify (put_workflow (Some (WfCreatePage staged (rs_revision root) (Some (rs_root_hash root)))));
  mret ∅.

Definition reconcile (page : CloudPage Json) (purpose : ReadPurpose) : M CloudCompletion :=
  e ← get;
  let '(r, s) := reconcile_page page purpose (p_records (persistent e)) in
  _ ← modify (put_records s);
  lift r.

Definition adopt_page (root : AcsRootSnapshot) (node : CloudNode) (page : CloudPage Json) (purpose : ReadPurpose)
    (now_epoch_ms : Z) : M CloudCompletion :=
  _ ← prepare_local_records;
  _ ← put_tip (tip_of_node root node);
  _ ← put_acs (with_root (rs_revision root) (rs_root_hash root));
  _ ← note_read now_epoch_ms;
  _ ← modify (put_workflow None);
  changed ← reconcile page purpose;
  e ← get;
  o ← expect (observed_root e) "root read before page";
  _ ← modify (set_observed_root (Some {| or_version := or_version o; or_revision := or_revision o;
                                         or_hash := or_hash o; or_records_verified := true |}));
  _ ← (if negb (bool_decide (changed = ∅)) || bool_decide (purpose = PublishRace)
       then modify (put_force_poll true) else mret tt);
  mret changed.

Definition advance_read_page (rand : Random) (root : AcsRootSnapshot) (node : CloudNode) (purpose : ReadPurpose)
    (response : CloudProviderResponse) (now_epoch_ms : Z) : M CloudCompletion :=
  match response with
  | RespObject o =>
      e ← get;
      page ← lift (open_page e node o);
      if cn_version node =? af_version (format e) then adopt_page root node page purpose now_epoch_ms
      else upgrade_page rand root node page now_epoch_ms
  | _ => fail (unexpected_response "read ACS state page")
  end.

Definition advance_create_ticket (response : CloudProviderResponse) (now_epoch_ms : Z) : M CloudCompletion :=
  match response with
  | RespSseTicket r =>
      _ ← lift (guard_err (negb (bool_decide (tk_contract_id r = ACS_CONTRACT_ID))
                           || bool_decide (trim (tk_ticket r) = []) || (tk_expires_at_epoch_ms r <=? now_epoch_ms))
                  (cloud_error "Aerobag Cloud returned an invalid event-stream ticket"));
      e ← get;
      acs ← lift (acs_of e "Aerobag Cloud configuration is missing");
      let stream_id := Z.max (p_next_request_id (persistent e)) 1 in
      _ ← modify (put_next_request_id (saturating_add u64_max stream_id 1));
      url ← lift (resolve_event_url (as_base_url acs) (tk_events_url r));
      _ ← modify (set_acs_event_stream_plan (Some {| es_stream_id := stream_id; es_url := url;
             es_connect_timeout_ms := connect_timeout_ms AEROBAG_SSE_TRANSPORT_POLICY;
             es_idle_timeout_ms := idle_timeout_ms AEROBAG_SSE_TRANSPORT_POLICY |}));
      _ ← modify (set_acs_event_stream_connected false);
      _ ← modify (set_acs_event_stream_next_retry_epoch_ms None);
      _ ← modify (put_workflow None);
      mret ∅
  | _ => fail (unexpected_response "create ACS event ticket")
  end.

Definition advance_workflow (rand : Random) (w : CloudWorkflow) (response : CloudProviderResponse)
    (now_epoch_ms : Z) : M CloudCompletion :=
  match w with
  | WfCreateChallenge => advance_create_challenge response now_epoch_ms
  | WfCreateAccount _ => advance_create_account rand response now_epoch_ms
  | WfCreatePage staged revision hash => advance_create_page staged revision hash response
  | WfCommitRoot staged _ _ => advance_commit_root staged response
  | WfReadRoot purpose => advance_read_root purpose response now_epoch_ms
  | WfReadPage root node purpose => advance_read_page rand root node purpose response now_epoch_ms
  | WfCreateSseTicket => advance_create_ticket response now_epoch_ms
  end.

(** ** Provider failures *)

Definition compact_retry_duration (retry_after_ms : Z) : bytes :=
  let total_minutes := Z.max ((retry_after_ms + 59999) `div` 60000) 1 in
  let days := total_minutes `div` (24 * 60) in
  let hours := (total_minutes `mod` (24 * 60)) `div` 60 in
  let minutes := total_minutes `mod` 60 in
  if 0 <? days then
    if 0 <? hours then dec days ++ bs "d " ++ dec hours ++ bs "h" else dec days ++ bs "d"
  else if 0 <? hours then
    if 0 <? minutes then dec hours ++ bs "h " ++ dec minutes ++ bs "m" else dec hours ++ bs "h"
  else dec minutes ++ bs "m".

Definition cloud_provider_failure_detail (fallback : AppError) (gate : option AcsRateLimitGate)
    (retry_after_ms : option Z) : AppError :=
  let retry := match retry_after_ms with Some ms => bs " in " ++ compact_retry_duration ms | None => [] end in
  match gate with
  | Some AccountCreationNetwork =>
      app_error "This network has created several Sync Accounts recently. Try again{}." [ArgText retry]
  | Some AccountCreationGlobal =>
      app_error "Aerobag Cloud is temporarily limiting new Sync Accounts. Try again{}. Existing accounts are unaffected."
        [ArgText retry]
  | _ => fallback
  end.

Definition creation_limited (gate : option AcsRateLimitGate) : bool :=
  match gate with Some AccountCreationNetwork | Some AccountCreationGlobal => true | _ => false end.

Definition provider_failed (kind : CloudProviderErrorKind) (detail : AppError) (retry_after_ms : option Z)
    (gate : option AcsRateLimitGate) (now_epoch_ms : Z) (e : CloudEngine) : CloudEngine :=
  let retry_delay_ms := default CLOUD_TRANSIENT_RETRY_MS (retry_after_ms ≫= try_into i64_max) in
  let e := put_last_provider_failure
             (Some {| pf_kind := kind; pf_detail := cloud_provider_failure_detail detail gate retry_after_ms |}) e in
  let e := match creation_limited gate, p_workflow (persistent e) with
           | true, Some (WfCreateAccount _) => put_workflow (Some WfCreateChallenge) e
           | _, _ => e
           end in
  match kind with
  | KindUnauthorized | KindPermanent =>
      set_acs_event_stream_next_retry_epoch_ms None
        (set_acs_event_stream_connected false
          (set_acs_event_stream_plan None (put_next_retry_epoch_ms None e)))
  | KindTransient => put_next_retry_epoch_ms (Some (i64_saturating_add now_epoch_ms retry_delay_ms)) e
  end.

(** An error of the workflow ends it and stands as a permanent failure. *)
Definition complete_workflow (rand : Random) (w : CloudWorkflow) (response : CloudProviderResponse)
    (now_epoch_ms : Z) : M CloudCompletion :=
  λ e, match advance_workflow rand w response now_epoch_ms e with
       | (Ok completion, e') => (Ok completion, put_last_success_epoch_ms (Some now_epoch_ms) e')
       | (Err (Error error), e') => (Ok ∅, commit_provider_completion_failure error e')
       | (Err (Panic text), e') => (Err (Panic text), e')
       end.

Definition complete_provider_request (rand : Random) (request_id : Z) (response : CloudHttpResponse)
    (now_epoch_ms : Z) : M CloudCompletion :=
  e ← get;
  match provider_request_in_flight e with
  | None => fail (app_error "cloud provider response {request_id} arrived with no request in flight" [ArgNum request_id])
  | Some request =>
      _ ← lift (guard_err (negb (pr_request_id request =? request_id))
                  (app_error "cloud provider response {request_id} does not match in-flight request {}"
                     [ArgNum request_id; ArgNum (pr_request_id request)]));
      _ ← modify (set_provider_request_in_flight None);
      match parse_response request response with
      | RespError kind detail retry_after_ms gate =>
          _ ← modify (provider_failed kind detail retry_after_ms gate now_epoch_ms);
          mret ∅
      | response =>
          _ ← modify (put_last_provider_failure None);
          _ ← modify (put_next_retry_epoch_ms None);
          e ← get;
          match p_workflow (persistent e) with
          | None =>
              _ ← modify (commit_provider_completion_failure
                            (cloud_error "cloud provider completed with no active workflow"));
              mret ∅
          | Some w => complete_workflow rand w response now_epoch_ms
          end
      end
  end.

(** ** The notification stream *)

Definition report_message (data : option bytes) : M unit :=
  d ← lift (ok_or data (cloud_error "Aerobag Cloud event has no data"));
  message ← lift (map_err (λ error, app_error "Aerobag Cloud event is invalid: {error}" [ArgText error])
                    (sse_event_from_str d));
  e ← get;
  acs ← lift (acs_of e "Aerobag Cloud configuration is missing");
  if match as_last_event_sequence acs with Some last => sequence message <=? last | None => false end
  then mret tt
  else
    _ ← put_acs (with_sequence (sequence message));
    let '(root_revision, root_hash, force_read) :=
      match message with
      | SseReady _ revision hash | SseHeartbeat _ revision hash => (revision, hash, false)
      | SseRootChanged _ revision hash => (revision, Some hash, false)
      | SseReset _ revision hash => (revision, hash, true)
      end in
    _ ← (if force_read || negb (root_revision =? as_root_revision acs)
            || negb (bool_decide (root_hash = as_root_hash acs))
         then modify (put_force_poll true) else mret tt);
    _ ← modify (set_acs_event_stream_connected true);
    _ ← modify (set_acs_event_stream_consecutive_failures 0);
    modify (set_acs_event_stream_next_retry_epoch_ms None).

Definition report_event_stream_event (event : CloudEventStreamEvent) (now_epoch_ms : Z) : M unit :=
  e ← get;
  if match acs_event_stream_plan e with None => true | Some plan => negb (es_stream_id plan =? ev_stream_id event) end
  then mret tt
  else
    match ev_kind event with
    | EvConnecting => mret tt
    | EvConnected =>
        _ ← modify (set_acs_event_stream_connected true);
        _ ← modify (set_acs_event_stream_consecutive_failures 0);
        _ ← modify (set_acs_event_stream_next_retry_epoch_ms None);
        _ ← modify (put_force_poll true);
        match p_last_provider_failure (persistent e) with
        | Some failure =>
            if bool_decide (pf_kind failure = KindTransient) then modify (put_last_provider_failure None) else mret tt
        | None => mret tt
        end
    | EvMessage => report_message (ev_data event)
    | EvError | EvClosed | EvIdleTimeout =>
        _ ← modify (set_acs_event_stream_plan None);
        _ ← modify (set_acs_event_stream_connected false);
        let failures := saturating_add u32_max (acs_event_stream_consecutive_failures e) 1 in
        _ ← modify (set_acs_event_stream_consecutive_failures failures);
        let delay := match ev_kind event with
                     | EvIdleTimeout => 0
                     | _ => reconnect_delay_ms AEROBAG_SSE_TRANSPORT_POLICY failures
                     end in
        _ ← modify (set_acs_event_stream_next_retry_epoch_ms (Some (i64_saturating_add now_epoch_ms delay)));
        modify (put_last_provider_failure (Some {| pf_kind := KindTransient;
          pf_detail := match ev_detail event with
                       | Some d => app_error "{}" [ArgText d]
                       | None => cloud_error "Aerobag Cloud notification stream disconnected; synchronization will retry."
                       end |}))
    end.

End engine.
