(* ===== verification/CloudActions.v ===== *)
(** * Local edits and user actions of the cloud engine (app-core/src/cloud.rs)

    What the application does to the engine besides the server traffic: recording local
    changes of each record family, reading them back, creating, linking, upgrading and
    unlinking an account, and adopting a flight plan that arrived while another was open. *)

From Stdlib Require Import Strings.Byte.
From stdpp Require Import base list strings gmap sets.
From S2P Require Import Prelude Utf8 NavKvRead AcsContracts CloudRecords CloudAcs DeviceSetupCode CloudEngine.

Local Open Scope Z_scope.

(** ** Debug flags (settings_controller.rs) *)

Inductive DebugFlagId :=
| TileLabels | NexradTileLabels | FastTiles | OfflineSimulatedClockButtons | SequencingFinishLines
| PlateFlightPlan | BadAutopilot | InternetAdsb | GpsCapture | DebugLogToDeveloperServer.

Definition all_debug_flags : list DebugFlagId :=
  [TileLabels; NexradTileLabels; FastTiles; OfflineSimulatedClockButtons; SequencingFinishLines;
   PlateFlightPlan; BadAutopilot; GpsCapture; DebugLogToDeveloperServer].

Definition debug_flag_id (f : DebugFlagId) : bytes :=
  match f with
  | TileLabels => bs "tile_labels"
  | NexradTileLabels => bs "nexrad_tile_labels"
  | FastTiles => bs "fast_tiles"
  | OfflineSimulatedClockButtons => bs "offline_simulated_clock_buttons"
  | SequencingFinishLines => bs "sequencing_finish_lines"
  | PlateFlightPlan => bs "plate_flight_plan"
  | BadAutopilot => bs "bad_autopilot"
  | InternetAdsb => bs "internet_adsb"
  | GpsCapture => bs "gps_capture"
  | DebugLogToDeveloperServer => bs "debug_log_to_developer_server"
  end.

Definition debug_flag_from_id (id : bytes) : option DebugFlagId :=
  find (λ f, bool_decide (debug_flag_id f = id)) all_debug_flags.

Definition debug_flag_record_key (f : DebugFlagId) : bytes := DEBUG_FLAG_RECORD_PREFIX ++ debug_flag_id f.

Record OfflinePackagePreferences := {
  op_regions : gmap bytes PackageSelection; op_products : gmap bytes PackageSelection }.

Inductive CloudAction :=
| BeginSetupFromDevice | BeginCreateAccount | BackSetup | CreateAccount
| AcceptDeviceSetupCode (setup_code : bytes)
| BackUpDeviceSetupCode | AddAnotherDevice | CloseLinkedAccountDetail | BeginUnlinkDevice
| ConfirmUnlinkDevice | BeginAccountUpgrade | ConfirmAccountUpgrade | SyncNow.

Inductive CloudUiActionId :=
| UiBeginSetup | UiBeginCreate | UiBackSetup | UiScanSetupCode | UiAcceptSetupCode | UiCreateAccount
| UiBackupSetupCode | UiAddDevice | UiCloseLinkedDetail | UiBeginUnlink | UiConfirmUnlink
| UiBeginAccountUpgrade | UiConfirmAccountUpgrade | UiSyncNow | UiCopySetupCode.

Section actions.
Context {CC : CloudCodecs} {CX : CloudCrypto} {SW : SetupWire}.

Abbreviation M := (ST CloudEngine Fault).

(** ** Typed views of records *)

Record StampedFlightPlan := { sf_plan : FlightPlan; sf_modified_at_epoch_ms : Z }.

Definition cloud_record_for_flight_plan (r : StampedFlightPlan) : AppResult (CloudRecord Json) :=
  encode FlightPlanRecord (stored_of_plan (sf_plan r)) (Some (sf_modified_at_epoch_ms r)).

Definition flight_plan_from_record (r : CloudRecord Json) : result Fault StampedFlightPlan :=
  wire ← map_err Error (decode FlightPlanRecord r);
  plan ← map_err Error (plan_try_from wire);
  match modified_at_epoch_ms r with
  | Some t => Ok {| sf_plan := plan; sf_modified_at_epoch_ms := t |}
  | None => Err (Panic "mutable record validated")
  end.

Definition aircraft_definition_from_record (expected_hash : bytes) (r : CloudRecord Json) : AppResult AircraftDefinition :=
  definition ← decode AircraftRecord r;
  actual ← content_hash definition;
  _ ← guard_err (negb (bool_decide (actual = expected_hash))) (cloud_error "aircraft definition record hash mismatch");
  Ok definition.

Definition validate_service_receipt (id : bytes) (r : CloudRecord Json) : AppResult unit :=
  validate (SERVICE_RECEIPT_PREFIX ++ id) r.

Definition cloud_flight_plan_definition (p : FlightPlan) : FlightPlan := plan_without_guidance (plan_normalized p).

(** [map.get(key).map(decode).transpose()] *)
Definition cached_value (S : RecordSpec) (e : CloudEngine) (key : bytes) : AppResult (option (Wire S)) :=
  match cached (p_records (persistent e)) !! key with
  | None => Ok None
  | Some r => v ← decode S r; Ok (Some v)
  end.

(** ** Recording local changes *)

Definition next_mutation (e : CloudEngine) (key : bytes) (now_epoch_ms : Z) : Z :=
  next_record_mutation_epoch_ms (p_records (persistent e)) key now_epoch_ms.

Definition record_local_cloud_record (key : bytes) (r : CloudRecord Json) (e : CloudEngine) : CloudEngine :=
  let p := persistent e in
  let s := p_records p in
  put_records {| cached := <[key := r]> (cached s);
                 pending_keys := if is_some (p_account p) then pending_keys s ∪ {[key]} else pending_keys s;
                 deferred_adoption := delete key (deferred_adoption s) |}
    (put_local_revision (saturating_add u64_max (p_local_revision p) 1) e).

(** The steps shared by the mutable families: nothing when the value is the cached one,
    otherwise a record with a fresh time. *)
Definition record_local_value (S : RecordSpec) `{EqDecision (Wire S)} (key : bytes) (v : Wire S) (now_epoch_ms : Z)
    : M bool :=
  e ← get;
  existing ← lift (cached_value S e key);
  if bool_decide (existing = Some v) then mret false
  else
    r ← lift (encode S v (Some (next_mutation e key now_epoch_ms)));
    _ ← modify (record_local_cloud_record key r);
    mret true.

Definition record_local_flight_plan_mutation (before after : FlightPlan) (now_epoch_ms : Z) : M bool :=
  let before := cloud_flight_plan_definition before in
  let after := cloud_flight_plan_definition after in
  if bool_decide (before = after) then mret false
  else
    e ← get;
    r ← lift (cloud_record_for_flight_plan
                {| sf_plan := after;
                   sf_modified_at_epoch_ms := next_mutation e FLIGHT_PLAN_RECORD_KEY now_epoch_ms |});
    _ ← modify (record_local_cloud_record FLIGHT_PLAN_RECORD_KEY r);
    mret true.

Fixpoint record_selections (l : list (bytes * PackageSelection)) (now_epoch_ms : Z) (changed : bool) : M bool :=
  match l with
  | [] => mret changed
  | (key, selection) :: l =>
      b ← @record_local_value PackageSelectionRecord package_selection_eq_dec key selection now_epoch_ms;
      record_selections l now_epoch_ms (changed || b)
  end.

Definition prefixed (prefix : bytes) (m : gmap bytes PackageSelection) : list (bytes * PackageSelection) :=
  (λ kv, (prefix ++ kv.1, kv.2)) <$> map_iter m.

Definition record_local_offline_package_preferences (preferences : OfflinePackagePreferences) (now_epoch_ms : Z)
    : M bool :=
  record_selections (prefixed OFFLINE_PACKAGE_REGION_RECORD_PREFIX (op_regions preferences)
                     ++ prefixed OFFLINE_PACKAGE_PRODUCT_RECORD_PREFIX (op_products preferences)) now_epoch_ms false.

Definition record_local_inactivity_sleep_timeout (timeout : SleepTimeout) (now_epoch_ms : Z) : M bool :=
  @record_local_value SleepRecord sleep_timeout_eq_dec INACTIVITY_SLEEP_TIMEOUT_RECORD_KEY timeout now_epoch_ms.

Definition record_local_nexrad_acquisition (preferences : NexradPreferences) (now_epoch_ms : Z) : M bool :=
  @record_local_value NexradRecord nexrad_preferences_eq_dec NEXRAD_ACQUISITION_RECORD_KEY preferences now_epoch_ms.

Definition record_local_debug_flag (f : DebugFlagId) (enabled : bool) (now_epoch_ms : Z) : M bool :=
  @record_local_value DebugRecord bool_eq_dec (debug_flag_record_key f) enabled now_epoch_ms.

Definition record_local_aircraft_library_membership (hash : bytes) (membership : AircraftMembership)
    (now_epoch_ms : Z) : M bool :=
  _ ← lift (validate_aircraft_definition_hash hash);
  @record_local_value AircraftMembershipRecord aircraft_membership_eq_dec
    (AIRCRAFT_LIBRARY_RECORD_PREFIX ++ hash) membership now_epoch_ms.

Definition record_local_aircraft_definition (definition : AircraftDefinition) : M bool :=
  hash ← lift (content_hash definition);
  key ← lift (aircraft_definition_key hash);
  r ← lift (encode AircraftRecord definition None);
  e ← get;
  if bool_decide (cached (p_records (persistent e)) !! key = Some r) then mret false
  else _ ← modify (record_local_cloud_record key r); mret true.

Definition record_service_read (id : bytes) : M bool :=
  r ← lift (encode ServiceReceiptRecord true None);
  _ ← lift (validate_service_receipt id r);
  let key := SERVICE_RECEIPT_PREFIX ++ id in
  e ← get;
  if is_some (cached (p_records (persistent e)) !! key) then mret false
  else _ ← modify (record_local_cloud_record key r); mret true.

(** ** Reading records back *)

Definition cached_flight_plan (e : CloudEngine) : option FlightPlan :=
  r ← cached (p_records (persistent e)) !! FLIGHT_PLAN_RECORD_KEY;
  s ← ok (flight_plan_from_record r);
  Some (sf_plan s).

Definition inactivity_sleep_timeout (e : CloudEngine) : AppResult (option SleepTimeout) :=
  cached_value SleepRecord e INACTIVITY_SLEEP_TIMEOUT_RECORD_KEY.
Definition nexrad_acquisition (e : CloudEngine) : AppResult (option NexradPreferences) :=
  cached_value NexradRecord e NEXRAD_ACQUISITION_RECORD_KEY.

(** [filter_map(..).collect::<AppResult<_>>()] over the cached records under a prefix. *)
Definition collect_under {A} (prefix : bytes) (f : bytes → CloudRecord Json → AppResult A) (e : CloudEngine)
    : AppResult (list (bytes * A)) :=
  try_map (λ '(id, r), a ← f id r; Ok (id, a))
    (omap (λ kv, id ← strip_prefix kv.1 prefix; Some (id, kv.2)) (map_iter (cached (p_records (persistent e))))).

Definition aircraft_definitions (e : CloudEngine) : AppResult (list (bytes * AircraftDefinition)) :=
  collect_under AIRCRAFT_DEFINITION_KEY_PREFIX aircraft_definition_from_record e.
Definition aircraft_library_memberships (e : CloudEngine) : AppResult (list (bytes * AircraftMembership)) :=
  collect_under AIRCRAFT_LIBRARY_RECORD_PREFIX
    (λ hash r, _ ← validate_aircraft_definition_hash hash; decode AircraftMembershipRecord r) e.
Definition service_read_receipts (e : CloudEngine) : AppResult (list (bytes * unit)) :=
  collect_under SERVICE_RECEIPT_PREFIX validate_service_receipt e.

Definition debug_flags (e : CloudEngine) : AppResult (list (DebugFlagId * bool)) :=
  try_map (λ '(f, r), b ← decode DebugRecord r; Ok (f, b : bool))
    (omap (λ f, r ← cached (p_records (persistent e)) !! debug_flag_record_key f; Some (f, r)) all_debug_flags).

Definition offline_package_step (preferences : OfflinePackagePreferences) (entry : bytes * CloudRecord Json)
    : AppResult OfflinePackagePreferences :=
  let '(key, r) := entry in
  match strip_prefix key OFFLINE_PACKAGE_REGION_RECORD_PREFIX with
  | Some id =>
      selection ← decode PackageSelectionRecord r;
      Ok {| op_regions := <[id := selection]> (op_regions preferences); op_products := op_products preferences |}
  | None =>
      match strip_prefix key OFFLINE_PACKAGE_PRODUCT_RECORD_PREFIX with
      | Some id =>
          selection ← decode PackageSelectionRecord r;
          Ok {| op_regions := op_regions preferences; op_products := <[id := selection]> (op_products preferences) |}
      | None => Ok preferences
      end
  end.

Definition offline_package_preferences (e : CloudEngine) : AppResult OfflinePackagePreferences :=
  try_fold offline_package_step {| op_regions := ∅; op_products := ∅ |} (map_iter (cached (p_records (persistent e)))).

Definition aircraft_library_digest (e : CloudEngine) : AppResult bytes :=
  definitions ← aircraft_definitions e;
  hashes ← try_map (λ '(hash, definition), actual ← content_hash definition; Ok (hash ++ actual)) definitions;
  memberships ← aircraft_library_memberships e;
  Ok (sha256 (concat hashes
              ++ concat ((λ '(hash, m), hash ++ [if am_included m then x01 else x00]) <$> memberships))).

(** ** What a response changed *)

Definition remote_flight_plan (changed : gmap bytes (CloudRecord Json)) : result Fault (option FlightPlan) :=
  match changed !! FLIGHT_PLAN_RECORD_KEY with
  | None => Ok None
  | Some r => stamped ← flight_plan_from_record r; Ok (Some (sf_plan stamped))
  end.
(** [keys().any(|key| key.starts_with(a) || key.starts_with(b))] *)
Definition any_key (p : bytes → bool) (changed : gmap bytes (CloudRecord Json)) : bool :=
  existsb p (map_iter changed).*1.
Definition offline_package_preferences_changed (changed : gmap bytes (CloudRecord Json)) : bool :=
  any_key (λ key, starts_with key OFFLINE_PACKAGE_REGION_RECORD_PREFIX
                  || starts_with key OFFLINE_PACKAGE_PRODUCT_RECORD_PREFIX) changed.
Definition inactivity_sleep_timeout_changed (changed : gmap bytes (CloudRecord Json)) : bool :=
  is_some (changed !! INACTIVITY_SLEEP_TIMEOUT_RECORD_KEY).
Definition nexrad_acquisition_changed (changed : gmap bytes (CloudRecord Json)) : bool :=
  is_some (changed !! NEXRAD_ACQUISITION_RECORD_KEY).
Definition aircraft_library_changed (changed : gmap bytes (CloudRecord Json)) : bool :=
  any_key (λ key, starts_with key AIRCRAFT_DEFINITION_KEY_PREFIX
                  || starts_with key AIRCRAFT_LIBRARY_RECORD_PREFIX) changed.
Definition changed_debug_flags (changed : gmap bytes (CloudRecord Json)) : AppResult (list (DebugFlagId * bool)) :=
  try_map (λ '(f, r), b ← decode DebugRecord r; Ok (f, b : bool))
    (omap (λ kv, id ← strip_prefix kv.1 DEBUG_FLAG_RECORD_PREFIX; f ← debug_flag_from_id id; Some (f, kv.2))
       (map_iter changed)).

(** ** A flight plan that arrived while another was open *)

Definition set_pending_remote_flight_plan (plan : FlightPlan) : M unit :=
  e ← get;
  let s := p_records (persistent e) in
  let found := match cached s !! FLIGHT_PLAN_RECORD_KEY with
               | Some r => match flight_plan_from_record r with
                           | Ok stamped => if bool_decide (sf_plan stamped = plan) then Some r else None
                           | Err _ => None
                           end
               | None => None
               end in
  r ← lift (ok_or found (cloud_error "remote flight-plan completion did not match the reconciled record"));
  modify (put_records {| cached := cached s; pending_keys := pending_keys s;
                         deferred_adoption := <[FLIGHT_PLAN_RECORD_KEY := r]> (deferred_adoption s) |}).

Definition take_pending_remote_flight_plan : M (option FlightPlan) :=
  e ← get;
  let s := p_records (persistent e) in
  _ ← modify (put_records {| cached := cached s; pending_keys := pending_keys s;
                             deferred_adoption := delete FLIGHT_PLAN_RECORD_KEY (deferred_adoption s) |});
  mret (r ← deferred_adoption s !! FLIGHT_PLAN_RECORD_KEY;
        stamped ← ok (flight_plan_from_record r);
        Some (sf_plan stamped)).

(** ** User actions *)

Definition require_unlinked_and_idle (e : CloudEngine) : AppResult unit :=
  guard_err (is_some (p_account (persistent e)) || is_some (p_workflow (persistent e)))
    (cloud_error "unlink this device before changing Sync Account setup").

Definition has_linked_account (e : CloudEngine) : bool :=
  match p_account (persistent e) with
  | Some a => (is_some (ac_tip a) || is_some (observed_root e)) && is_some (ac_acs a)
  | None => false
  end.

Definition require_linked_account (e : CloudEngine) : AppResult unit :=
  guard_err (negb (has_linked_account e)) (cloud_error "no verified Sync Account is linked").

Definition upgradeable_account_format (e : CloudEngine) : AppResult Z :=
  version ← ok_or (root ← observed_root e;
                   if can_upgrade (format e) (or_version root) then Some (or_version root) else None)
              (cloud_error "This client has no migration for the account's format");
  _ ← guard_err (is_some (upgrade_from e)) (cloud_error "Account upgrade is already in progress");
  Ok version.

Definition reset_sync_activity (e : CloudEngine) : CloudEngine :=
  set_acs_event_stream_consecutive_failures 0
    (set_acs_event_stream_next_retry_epoch_ms None
      (set_acs_event_stream_connected false
        (set_acs_event_stream_plan None
          (put_force_poll false
            (put_last_poll_epoch_ms None
              (put_last_write_epoch_ms None
                (put_last_read_epoch_ms None
                  (put_last_success_epoch_ms None
                    (set_upgrade_from None (set_observed_root None e)))))))))).

Definition clear_pending (e : CloudEngine) : CloudEngine :=
  put_records {| cached := cached (p_records (persistent e)); pending_keys := ∅; deferred_adoption := ∅ |} e.

Definition new_account (secret : bytes) (imported : option bytes) (base_url locator : bytes) : CloudAccount :=
  {| ac_provider := AerobagCloud; ac_root_secret_base64 := b64_encode secret;
     ac_imported_device_setup_code := imported; ac_tip := None;
     ac_acs := Some {| as_base_url := base_url; as_account_locator := locator; as_root_revision := 0;
                       as_root_hash := None; as_last_event_sequence := None |} |}.

Definition back_setup : M unit :=
  e ← get;
  _ ← lift (guard_err (has_tip (persistent e)) (cloud_error "unlink this device before starting over"));
  _ ← (match p_onboarding_intent (persistent e) with
       | Some _ =>
           if is_some (p_account (persistent e)) then modify (put_account None)
           else modify (put_onboarding_intent None)
       | None => fail (cloud_error "cloud setup has no earlier step")
       end);
  _ ← modify (put_workflow None);
  _ ← modify clear_pending;
  _ ← modify (put_last_provider_failure None);
  _ ← modify (set_provider_request_in_flight None);
  modify (set_linked_account_detail None).

(** The flight plan a new account starts with: the cached record when it is the open plan
    with a known time of change, otherwise the open plan, changed now. *)
Definition initial_plan (e : CloudEngine) (plan : FlightPlan) (now_epoch_ms : Z) : StampedFlightPlan :=
  let fresh := {| sf_plan := plan; sf_modified_at_epoch_ms := now_epoch_ms |} in
  match cached (p_records (persistent e)) !! FLIGHT_PLAN_RECORD_KEY with
  | Some r =>
      match flight_plan_from_record r with
      | Ok stamped =>
          if bool_decide (sf_plan stamped = plan)
             && negb (sf_modified_at_epoch_ms stamped =? LEGACY_UNKNOWN_MUTATION_EPOCH_MS)
          then stamped else fresh
      | Err _ => fresh
      end
  | None => fresh
  end.

Definition create_account (rand : Random) (current_plan : FlightPlan) (now_epoch_ms : Z) : M unit :=
  e ← get;
  _ ← lift (require_unlinked_and_idle e);
  _ ← lift (guard_err (negb (bool_decide (p_onboarding_intent (persistent e) = Some IntentCreateAccount)))
              (cloud_error "choose to create a Sync Account before creating it"));
  base_url ← lift (ok_or (acs_default_base_url e) (cloud_error "this build has no Aerobag Cloud server configured"));
  secret ← lift (rand 0%nat 32%nat);
  identity ← lift (derive_identity secret);
  _ ← modify reset_sync_activity;
  _ ← modify (put_account (Some (new_account secret None base_url (id_account_locator identity))));
  let stamped := initial_plan e (cloud_flight_plan_definition current_plan) now_epoch_ms in
  r ← lift (cloud_record_for_flight_plan stamped);
  let s := p_records (persistent e) in
  let c := <[FLIGHT_PLAN_RECORD_KEY := r]> (cached s) in
  _ ← modify (put_records {| cached := c; pending_keys := dom c; deferred_adoption := deferred_adoption s |});
  _ ← modify (put_workflow (Some WfCreateChallenge));
  modify (put_last_provider_failure None).

Definition accept_device_setup_code (setup_code : bytes) : M unit :=
  e ← get;
  _ ← lift (guard_err (is_some (p_workflow (persistent e))) (cloud_error "cloud synchronization is already busy"));
  _ ← lift (guard_err (is_some (p_account (persistent e)))
              (cloud_error "unlink this device before accepting another device setup code"));
  payload ← lift (text_err (decode_device_setup_code setup_code));
  let '(SetupAerobagCloud base_url locator) := ds_provider payload in
  base_url ← lift (validate_base_url base_url);
  identity ← lift (derive_identity (ds_root_secret payload));
  let encoded_locator := b64_encode locator in
  _ ← lift (guard_err (negb (bool_decide (id_account_locator identity = encoded_locator)))
              (cloud_error "Device Setup Code account locator does not match its root secret"));
  _ ← modify (put_onboarding_intent (Some IntentSetupFromDevice));
  _ ← modify reset_sync_activity;
  _ ← modify (put_account (Some (new_account (ds_root_secret payload) (Some (trim setup_code)) base_url
                                   encoded_locator)));
  _ ← modify clear_pending;
  _ ← modify (put_workflow (Some (WfReadRoot Link)));
  modify (put_last_provider_failure None).

Definition confirm_unlink : M unit :=
  e ← get;
  _ ← lift (require_linked_account e);
  _ ← lift (guard_err (negb (bool_decide (linked_account_detail e = Some ConfirmUnlink)))
              (cloud_error "confirm unlink before deleting this device's copy"));
  _ ← modify (put_account None);
  _ ← modify (put_onboarding_intent None);
  _ ← modify (put_workflow None);
  _ ← modify clear_pending;
  _ ← modify (put_last_provider_failure None);
  _ ← modify reset_sync_activity;
  _ ← modify (set_provider_request_in_flight None);
  modify (set_linked_account_detail None).

(** Opening a panel of the linked account. *)
Definition open_detail (detail : LinkedAccountDetail) : M unit :=
  e ← get;
  _ ← lift (require_linked_account e);
  modify (set_linked_account_detail (Some detail)).

Definition begin_onboarding (intent : CloudOnboardingIntent) : M unit :=
  e ← get;
  _ ← lift (require_unlinked_and_idle e);
  _ ← modify (put_onboarding_intent (Some intent));
  modify (put_last_provider_failure None).

Definition confirm_account_upgrade : M unit :=
  e ← get;
  from ← lift (upgradeable_account_format e);
  _ ← lift (guard_err (negb (bool_decide (linked_account_detail e = Some (ConfirmUpgrade from))))
              (cloud_error "Review the account upgrade before confirming it"));
  _ ← modify (set_upgrade_from (Some from));
  _ ← modify (set_linked_account_detail None);
  _ ← modify (put_force_poll true);
  modify (put_last_provider_failure None).

Definition perform_action_at (rand : Random) (action : CloudAction) (current_plan : FlightPlan) (now_epoch_ms : Z)
    : M unit :=
  match action with
  | BeginSetupFromDevice => begin_onboarding IntentSetupFromDevice
  | BeginCreateAccount => begin_onboarding IntentCreateAccount
  | BackSetup => back_setup
  | CreateAccount => create_account rand current_plan now_epoch_ms
  | AcceptDeviceSetupCode setup_code => accept_device_setup_code setup_code
  | BackUpDeviceSetupCode => open_detail BackupCode
  | AddAnotherDevice => open_detail AddDevice
  | CloseLinkedAccountDetail => modify (set_linked_account_detail None)
  | BeginUnlinkDevice => open_detail ConfirmUnlink
  | ConfirmUnlinkDevice => confirm_unlink
  | BeginAccountUpgrade =>
      e ← get;
      from ← lift (upgradeable_account_format e);
      modify (set_linked_account_detail (Some (ConfirmUpgrade from)))
  | ConfirmAccountUpgrade => confirm_account_upgrade
  | SyncNow =>
      _ ← modify (put_force_poll true);
      _ ← modify (put_next_retry_epoch_ms None);
      modify (put_last_provider_failure None)
  end.

Definition device_setup_code (e : CloudEngine) : AppResult bytes :=
  a ← account e;
  _ ← guard_err (negb (has_linked_account e)) (cloud_error "cloud account creation has not completed");
  match ac_imported_device_setup_code a with
  | Some imported => Ok imported
  | None =>
      secret ← account_secret a;
      acs ← ok_or (ac_acs a) (cloud_error "Aerobag Cloud configuration is unavailable");
      locator ← ok_or (b64_decode (as_account_locator acs)) (cloud_error "Aerobag Cloud account locator is invalid");
      _ ← guard_err (negb (len locator =? 32)) (cloud_error "Aerobag Cloud account locator has the wrong size");
      Ok (encode_device_setup_code
            {| ds_root_secret := secret; ds_provider := SetupAerobagCloud (as_base_url acs) locator |})
  end.

(** The text of the setup-code field, if one was given. *)
Definition required_ui_field (fields : list bytes) : AppResult bytes :=
  ok_or (v ← head fields; let v := trim v in if bool_decide (v = []) then None else Some v)
    (cloud_error "Device Setup Code is required").

Definition action_of_ui (action_id : CloudUiActionId) (fields : list bytes) (e : CloudEngine)
    : AppResult (option CloudAction) :=
  match action_id with
  | UiBeginSetup => Ok (Some BeginSetupFromDevice)
  | UiBeginCreate => Ok (Some BeginCreateAccount)
  | UiBackSetup => Ok (Some BackSetup)
  | UiCreateAccount => Ok (Some CreateAccount)
  | UiAcceptSetupCode => code ← required_ui_field fields; Ok (Some (AcceptDeviceSetupCode code))
  | UiBackupSetupCode => Ok (Some BackUpDeviceSetupCode)
  | UiAddDevice => Ok (Some AddAnotherDevice)
  | UiCloseLinkedDetail => Ok (Some CloseLinkedAccountDetail)
  | UiBeginUnlink => Ok (Some BeginUnlinkDevice)
  | UiConfirmUnlink => Ok (Some ConfirmUnlinkDevice)
  | UiBeginAccountUpgrade => Ok (Some BeginAccountUpgrade)
  | UiConfirmAccountUpgrade => Ok (Some ConfirmAccountUpgrade)
  | UiSyncNow => Ok (Some SyncNow)
  | UiCopySetupCode => _ ← device_setup_code e; Ok None
  | UiScanSetupCode => Ok None
  end.

Definition perform_ui_action (rand : Random) (action_id : CloudUiActionId) (fields : list bytes)
    (current_plan : FlightPlan) (now_epoch_ms : Z) : M unit :=
  e ← get;
  action ← lift (action_of_ui action_id fields e);
  _ ← (match action with
       | Some action => perform_action_at rand action current_plan now_epoch_ms
       | None => mret tt
       end);
  e ← get;
  modify (set_action_revision (saturating_add u64_max (action_revision e) 1)).

Definition set_default_base_url (base_url : option bytes) : M unit :=
  v ← lift (match base_url with Some u => v ← validate_base_url u; Ok (Some v) | None => Ok None end);
  modify (set_acs_default_base_url v).

End actions.
