(* ===== verification/CloudEngineCorrect.v ===== *)
(** * Invariant of the cloud engine

    Along every sequence of requests, responses, stream events, local edits and user actions:
    a request in flight belongs to the workflow at hand, a publication is only staged against
    a root that was read and merged (or whose upgrade was agreed to), what is verified is
    what the account remembers, pending keys have records, and a staged page is the cache
    unless the user has edited since. No [expect] fails. *)

From Stdlib Require Import Strings.Byte.
From stdpp Require Import base list strings gmap sets.
From S2P Require Import Prelude Utf8 NavKvRead AcsContracts CloudRecords CloudRecordsCorrect.
From S2P Require Import CloudAcs DeviceSetupCode CloudEngine CloudActions.

Local Open Scope Z_scope.

Section invariant.
Context {CC : CloudCodecs} {CX : CloudCrypto} {SW : SetupWire}.
Implicit Types (e : CloudEngine).

Abbreviation M := (ST CloudEngine Fault).

(** ** Weakest preconditions *)

Definition wp {A} (c : M A) (Q : result Fault A → CloudEngine → Prop) e : Prop := Q (c e).1 (c e).2.

Lemma wp_ret {A} (a : A) Q e : wp (mret a) Q e ↔ Q (Ok a) e.
Proof. done. Qed.
Lemma wp_bind {A B} (c : M A) (f : A → M B) Q e :
  wp (c ≫= f) Q e ↔ wp c (λ r e', match r with Ok a => wp (f a) Q e' | Err x => Q (Err x) e' end) e.
Proof. unfold wp. rewrite ST_bind_unfold. by destruct (c e) as [[a|x] e']. Qed.
Lemma wp_get Q e : wp get Q e ↔ Q (Ok e) e.
Proof. done. Qed.
Lemma wp_modify f Q e : wp (modify f) Q e ↔ Q (Ok tt) (f e).
Proof. done. Qed.
Lemma wp_lift {A} (r : AppResult A) (Q : result Fault A → CloudEngine → Prop) e :
  (∀ a, r = Ok a → Q (Ok a) e) → (∀ x, r = Err x → Q (Err (Error x)) e) → wp (lift r) Q e.
Proof. intros HOk HErr. unfold wp, lift, st_lift. simpl. destruct r; simpl; auto. Qed.
Lemma wp_fail {A} x (Q : result Fault A → CloudEngine → Prop) e : wp (fail x) Q e ↔ Q (Err (Error x)) e.
Proof. done. Qed.
Lemma wp_expect {A} (o : option A) a text Q e : o = Some a → Q (Ok a) e → wp (expect o text) Q e.
Proof. by intros ->. Qed.
Lemma wp_mono {A} (c : M A) (Q Q' : result Fault A → CloudEngine → Prop) e :
  wp c Q e → (∀ r e', Q r e' → Q' r e') → wp c Q' e.
Proof. unfold wp. auto. Qed.

(** ** The invariant *)

Definition op_fits (w : CloudWorkflow) (op : CloudProviderOperation) : Prop :=
  match w, op with
  | WfCreateChallenge, AcsIssueAccountChallenge => True
  | WfCreateAccount challenge, AcsCreateAccount r => ca_creation_challenge r = challenge
  | WfCreatePage s _ _, AcsCreateObject r => co_object_id r = sp_page_id s
  | WfCommitRoot s revision hash, AcsCompareAndSwapRoot r =>
      cas_expected_revision r = revision ∧ cas_expected_root_hash r = hash
      ∧ acs_staged_root_value s = Ok (cas_replacement r)
  | WfReadRoot _, AcsReadRoot => True
  | WfReadPage _ node _, AcsReadObject id => id = cn_merkle_root_id node
  | WfCreateSseTicket, AcsCreateSseTicket _ => True
  | _, _ => False
  end.

Definition verified (f : AccountFormat) (o : ObservedRoot) : bool :=
  (or_version o =? af_version f) && or_records_verified o.

Definition authorized (f : AccountFormat) (obs : option ObservedRoot) (up : option Z) (w : CloudWorkflow) : bool :=
  match w with
  | WfCreatePage s r h | WfCommitRoot s r h =>
      match sp_purpose s with
      | PubCreateAccount => (r =? 0) && is_none h
      | PubPublish => match obs with Some o => root_matches o r h && verified f o | None => false end
      | PubUpgrade =>
          match obs with
          | Some o => root_matches o r h && (bool_decide (up = Some (or_version o)) && can_upgrade f (or_version o))
          | None => false
          end
      end
  | _ => true
  end.

Lemma workflow_authorized_core e w :
  workflow_authorized e w = authorized (format e) (observed_root e) (upgrade_from e) w.
Proof. by destruct w. Qed.

(** The publication a workflow carries. *)
Definition staged_of (w : CloudWorkflow) : option StagedPublication :=
  match w with WfCreatePage s _ _ | WfCommitRoot s _ _ => Some s | _ => None end.

(** [s] was made from the records [c] in format [f]. *)
Definition stages (f : AccountFormat) (s : StagedPublication) (c : gmap bytes (CloudRecord Json)) : Prop :=
  ∃ rand e0 generation parent now,
    format e0 = f ∧ stage_acs_page rand e0 (sp_purpose s) generation parent now (page_for_records c) = Ok s.

(** The account is the one whose root [o] is. *)
Definition remembers (acc : option CloudAccount) (o : ObservedRoot) : Prop :=
  ∃ a acs tip, acc = Some a ∧ ac_acs a = Some acs ∧ ac_tip a = Some tip
    ∧ root_matches o (as_root_revision acs) (as_root_hash acs) = true.

Record core_ok (f : AccountFormat) (w : option CloudWorkflow) (acc : option CloudAccount)
    (obs : option ObservedRoot) (up : option Z) (fl : option CloudProviderRequest)
    (rec : SynchronizedRecordStore) (rev : Z) : Prop := {
  ok_flight rq : fl = Some rq → ∃ w', w = Some w' ∧ op_fits w' (pr_operation rq);
  ok_auth w' : w = Some w' → authorized f obs up w' = true;
  ok_verified o : obs = Some o → verified f o = true → remembers acc o;
  ok_page root node purpose : w = Some (WfReadPage root node purpose) →
    is_Some (acc ≫= ac_acs) ∧
    ∃ o, obs = Some o ∧ root_matches o (rs_revision root) (Some (rs_root_hash root)) = true
      ∧ or_records_verified o = false ∧ or_version o = cn_version node;
  ok_account w' s : w = Some w' → staged_of w' = Some s → is_Some (acc ≫= ac_acs);
  ok_pending : pending_keys rec ⊆ dom (cached rec);
  ok_staged w' s : w = Some w' → staged_of w' = Some s →
    sp_local_revision s ≤ rev ∧
    (sp_purpose s ≠ PubUpgrade → sp_local_revision s = rev → stages f s (cached rec)) }.

Definition engine_ok e : Prop :=
  core_ok (format e) (p_workflow (persistent e)) (p_account (persistent e)) (observed_root e) (upgrade_from e)
    (provider_request_in_flight e) (p_records (persistent e)) (p_local_revision (persistent e)).

Definition no_panic {A} (r : result Fault A) : Prop := ∀ text, r ≠ Err (Panic text).

(** What every operation guarantees. *)
Definition safe {A} (f : AccountFormat) (r : result Fault A) e : Prop :=
  no_panic r ∧ engine_ok e ∧ format e = f.

Lemma safe_ok {A} f (a : A) e : engine_ok e → format e = f → safe f (Ok a) e.
Proof. done. Qed.
Lemma safe_error {A} f x e : engine_ok e → format e = f → safe (A:=A) f (Err (Error x)) e.
Proof. done. Qed.

End invariant.

(** Evaluates the fields of an updated state. *)
Ltac ecbn := cbn [persistent format observed_root upgrade_from action_revision provider_request_in_flight
  linked_account_detail acs_default_base_url acs_event_stream_plan acs_event_stream_connected
  acs_event_stream_next_retry_epoch_ms acs_event_stream_consecutive_failures
  p_version p_records_format p_onboarding_intent p_account p_workflow p_records p_local_revision
  p_next_request_id p_last_success_epoch_ms p_last_read_epoch_ms p_last_write_epoch_ms p_last_poll_epoch_ms
  p_next_retry_epoch_ms p_force_poll p_last_provider_failure
  set_persistent set_observed_root set_upgrade_from set_action_revision set_provider_request_in_flight
  set_linked_account_detail set_acs_default_base_url set_acs_event_stream_plan set_acs_event_stream_connected
  set_acs_event_stream_next_retry_epoch_ms set_acs_event_stream_consecutive_failures
  put_records_format put_onboarding_intent put_account put_workflow put_records put_local_revision
  put_next_request_id put_last_success_epoch_ms put_last_read_epoch_ms put_last_write_epoch_ms
  put_last_poll_epoch_ms put_next_retry_epoch_ms put_force_poll put_last_provider_failure
  p_set_records_format p_set_onboarding_intent p_set_account p_set_workflow p_set_records p_set_local_revision
  p_set_next_request_id p_set_last_success_epoch_ms p_set_last_read_epoch_ms p_set_last_write_epoch_ms
  p_set_last_poll_epoch_ms p_set_next_retry_epoch_ms p_set_force_poll p_set_last_provider_failure
  cached pending_keys deferred_adoption].

Section proofs.
Context {CC : CloudCodecs} {CX : CloudCrypto} {SW : SetupWire} {CT : CodecTotal}.
Implicit Types (e : CloudEngine).

Abbreviation M := (ST CloudEngine Fault).

(** ** Changing one part of the state *)

Lemma core_no_flight f w acc obs up fl rec rev :
  core_ok f w acc obs up fl rec rev → core_ok f w acc obs up None rec rev.
Proof. intros []. by split. Qed.

Lemma core_workflow f w w' acc obs up rec rev :
  core_ok f w acc obs up None rec rev →
  (∀ x, w' = Some x → authorized f obs up x = true ∧ staged_of x = None
     ∧ ∀ root node purpose, x ≠ WfReadPage root node purpose) →
  core_ok f w' acc obs up None rec rev.
Proof.
  intros [] Hw. split; try done.
  - intros x Hx. by apply Hw.
  - intros root node purpose Hx. by destruct (Hw _ Hx) as (_ & _ & Hno); destruct (Hno root node purpose).
  - intros x s Hx Hs. destruct (Hw x Hx) as (_ & Hno & _). congruence.
  - intros x s Hx Hs. destruct (Hw x Hx) as (_ & Hno & _). congruence.
Qed.

Lemma core_idle f w acc obs up up' fl rec rev :
  core_ok f w acc obs up fl rec rev → core_ok f None acc obs up' None rec rev.
Proof. intros []. by split. Qed.

(** Without a publication or page in hand, what is observed can be forgotten. *)
Lemma core_forget f w acc acc' obs up up' fl rec rev :
  core_ok f w acc obs up fl rec rev → core_ok f None acc' None up' None rec rev.
Proof. intros []. by split. Qed.

Lemma core_records f acc obs up rec rec' rev rev' :
  core_ok f None acc obs up None rec rev → pending_keys rec' ⊆ dom (cached rec') →
  core_ok f None acc obs up None rec' rev'.
Proof. intros [] Hp. by split. Qed.

(** ** Local preparation *)

Definition same_but_records e e' : Prop :=
  format e' = format e ∧ p_workflow (persistent e') = p_workflow (persistent e)
  ∧ p_account (persistent e') = p_account (persistent e) ∧ observed_root e' = observed_root e
  ∧ upgrade_from e' = upgrade_from e ∧ provider_request_in_flight e' = provider_request_in_flight e
  ∧ p_local_revision (persistent e') = p_local_revision (persistent e).

Definition pending_ok e : Prop := pending_keys (p_records (persistent e)) ⊆ dom (cached (p_records (persistent e))).

Lemma prepare_wp e :
  wp prepare_local_records (λ r e', no_panic r ∧ same_but_records e e' ∧ (pending_ok e → pending_ok e')
    ∧ (p_records_format (persistent e) = af_version (format e) → e' = e)) e.
Proof.
  unfold prepare_local_records. rewrite wp_bind, wp_get, wp_bind.
  destruct (Z.eqb_spec (p_records_format (persistent e)) (af_version (format e))) as [Heq|Hne].
  - rewrite wp_ret, wp_bind, wp_get. by apply wp_lift; intros; repeat split.
  - assert (∀ x, no_panic (A:=unit) (Err (Error x)) ∧ same_but_records e e ∧ (pending_ok e → pending_ok e)
      ∧ (p_records_format (persistent e) = af_version (format e) → e = e)) as Herr by (by repeat split).
    rewrite wp_bind. apply wp_lift; [intros c Hc|done]. rewrite wp_bind. apply wp_lift; [intros d Hd|done].
    rewrite wp_bind. apply wp_lift; [intros _ _|done]. rewrite wp_bind. apply wp_lift; [intros _ _|done].
    rewrite wp_bind, wp_modify, wp_bind, wp_modify, wp_bind, wp_modify, wp_bind, wp_modify, wp_modify.
    rewrite wp_bind, wp_get. unfold pending_ok.
    apply wp_lift; intros; ecbn; repeat split; try done;
      intros _ k [Hk _]%elem_of_filter; by apply elem_of_dom.
Qed.

(** ** Tactics *)

End proofs.

(** Runs the next steps of a computation; a failing check leaves the state as it is. *)
Ltac wp_run := repeat first
  [ rewrite wp_bind | rewrite wp_get | rewrite wp_modify | rewrite wp_ret | rewrite wp_fail ].
(** The guarantee at a state that is known to be right. *)
Ltac sdone := intros; unfold safe; split_and!; try done; try congruence.

Section steps.
Context {CC : CloudCodecs} {CX : CloudCrypto} {SW : SetupWire} {CT : CodecTotal}.
Implicit Types (e : CloudEngine).

Abbreviation M := (ST CloudEngine Fault).

Lemma stage_fields rand e purpose generation parent now page s :
  stage_acs_page rand e purpose generation parent now page = Ok s →
  sp_purpose s = purpose ∧ sp_local_revision s = p_local_revision (persistent e)
  ∧ sp_generation s = generation ∧ sp_published_at_epoch_ms s = now.
Proof. unfold stage_acs_page. intros H. inv_ok. done. Qed.

Lemma stage_stages rand e purpose generation parent now c s :
  stage_acs_page rand e purpose generation parent now (page_for_records c) = Ok s → stages (format e) s c.
Proof.
  intros H. destruct (stage_fields _ _ _ _ _ _ _ _ H) as [Hp _]. subst purpose.
  by exists rand, e, generation, parent, now.
Qed.

(** A freshly staged publication takes the place of an idle workflow. *)
Lemma core_stage f acc obs up rec rev s revision hash :
  core_ok f None acc obs up None rec rev → is_Some (acc ≫= ac_acs) →
  authorized f obs up (WfCreatePage s revision hash) = true →
  sp_local_revision s = rev → (sp_purpose s ≠ PubUpgrade → stages f s (cached rec)) →
  core_ok f (Some (WfCreatePage s revision hash)) acc obs up None rec rev.
Proof.
  intros [] Hacc Hau Hrev Hst. split; try done.
  - intros x [= <-]. done.
  - intros x s' [= <-] [= <-]. split; [lia|auto].
Qed.

Lemma read_root_authorized f obs up purpose : authorized f obs up (WfReadRoot purpose) = true.
Proof. done. Qed.

Lemma publish_wp rand now e a :
  engine_ok e → provider_request_in_flight e = None → p_workflow (persistent e) = None →
  p_account (persistent e) = Some a →
  wp (publish_pending rand a now)
    (λ r e', safe (format e) r e' ∧ provider_request_in_flight e' = None ∧ p_account (persistent e') = Some a) e.
Proof.
  intros Hok Hfl Hw Ha. unfold publish_pending. wp_run.
  apply wp_lift; [intros acs Hacs|by sdone]. wp_run.
  apply wp_lift; [intros u Hv|by sdone]. wp_run.
  apply guard_err_Ok, negb_false_iff in Hv. destruct (observed_root e) as [o|] eqn:Ho; [|done].
  apply andb_true_iff in Hv as [Hv Hm]. apply ok_or_Ok in Hacs.
  pose proof (ok_verified _ _ _ _ _ _ _ _ Hok o Ho Hv) as (a' & acs' & tip & Ha' & Hacs' & Htip & _).
  rewrite Ha in Ha'. injection Ha' as <-. rewrite Hacs in Hacs'. injection Hacs' as <-.
  eapply wp_mono; [apply prepare_wp|]. intros r e1 (Hnp & (Hf & Hw1 & Ha1 & Ho1 & Hup1 & Hfl1 & Hrev1) & Hpend & _).
  assert (engine_ok e1) as Hok1.
  { unfold engine_ok in Hok |- *. rewrite Hf, Hw1, Ha1, Ho1, Hup1, Hfl1, Hrev1. rewrite Hfl, Hw in Hok |- *.
    eapply core_records; [done|]. apply Hpend. by destruct Hok. }
  destruct r as [[]|x]; [|by sdone]. wp_run.
  apply wp_lift; [intros a2 Ha2|by sdone]. wp_run.
  unfold account in Ha2. rewrite Ha1, Ha in Ha2. injection Ha2 as <-.
  eapply wp_expect; [done|]. wp_run. eapply wp_expect; [done|]. wp_run.
  apply wp_lift; [intros s Hs|by sdone]. wp_run.
  pose proof Hs as Hs'. unfold stage_acs_publication in Hs. apply stage_fields in Hs as (Hpur & Hrev & _ & _).
  unfold stage_acs_publication in Hs'. apply stage_stages in Hs'.
  split; [|split; [by ecbn; congruence|by ecbn; congruence]]. split; [done|]. split; [|done].
  unfold engine_ok in Hok1 |- *. ecbn. rewrite Hw1, Hw, Hfl1, Hfl in Hok1. rewrite Hfl1, Hfl.
  apply core_stage; [done| | |done|done].
  - rewrite Ha1, Ha. by eexists.
  - unfold authorized. rewrite Hpur, Ho1, Ho, Hm. simpl. unfold verified. by rewrite Hf.
Qed.

Lemma ensure_wp rand now e :
  engine_ok e → provider_request_in_flight e = None →
  wp (ensure_workflow rand now)
    (λ r e', safe (format e) r e' ∧ provider_request_in_flight e' = None
             ∧ p_account (persistent e') = p_account (persistent e)) e.
Proof.
  intros Hok Hfl. unfold ensure_workflow. wp_run.
  destruct (p_workflow (persistent e)) as [w|] eqn:Hw; [by wp_run|].
  destruct (p_account (persistent e)) as [a|] eqn:Ha; [|by wp_run].
  assert (core_ok (format e) None (p_account (persistent e)) (observed_root e) (upgrade_from e) None
            (p_records (persistent e)) (p_local_revision (persistent e))) as Hcore.
  { unfold engine_ok in Hok. by rewrite Hfl, Hw in Hok. }
  assert (∀ x, authorized (format e) (observed_root e) (upgrade_from e) x = true → staged_of x = None →
            (∀ root node purpose, x ≠ WfReadPage root node purpose) →
            core_ok (format e) (Some x) (p_account (persistent e)) (observed_root e) (upgrade_from e) None
              (p_records (persistent e)) (p_local_revision (persistent e))) as Hnew.
  { intros x Hx1 Hx2 Hx3. eapply core_workflow; [done|]. by intros y [= <-]. }
  destruct (match observed_root e with None => true | Some root => _ end).
  { wp_run. sdone; ecbn; try done. unfold engine_ok. ecbn. rewrite Hfl. by apply Hnew. }
  destruct (_ && negb _).
  { eapply wp_mono; [by apply publish_wp|]. intros r e' (Hs & ? & ?). done. }
  wp_run. destruct (poll_due e now); wp_run; ecbn.
  - cbn [is_none andb]. wp_run. sdone; ecbn; try done. unfold engine_ok. ecbn. rewrite Hfl. by apply Hnew.
  - rewrite Hw. destruct (_ && _); wp_run; [|done].
    sdone; ecbn; try done. unfold engine_ok. ecbn. rewrite Hfl. by apply Hnew.
Qed.

Lemma operation_fits w acc op : operation_for_workflow w acc = Ok op → op_fits w op.
Proof.
  by destruct w; simpl; intros H; inv_ok.
Qed.

Lemma take_wp rand now e : engine_ok e → wp (take_provider_request rand now) (safe (format e)) e.
Proof.
  intros Hok. unfold take_provider_request. wp_run.
  destruct (current_provider e) as [provider|]; [|by wp_run].
  destruct (request_blocked e now) eqn:Hb; [by wp_run|]. wp_run.
  assert (provider_request_in_flight e = None) as Hfl.
  { unfold request_blocked in Hb. zbool. by destruct (provider_request_in_flight e). }
  eapply wp_mono; [by apply ensure_wp|]. intros r e1 ((Hnp & Hok1 & Hf) & Hfl1 & _).
  destruct r as [[]|x]; [|split; [by intros t [= ->]; eapply Hnp|done]]. wp_run.
  destruct (p_workflow (persistent e1)) as [w|] eqn:Hw; [|by wp_run]. wp_run.
  apply wp_lift; [intros _ _|done]. wp_run. apply wp_lift; [intros op Hop|done]. wp_run.
  assert (∀ n, engine_ok (put_next_request_id n e1)) as Hok2 by (intros n; done).
  apply wp_lift; [intros a Ha|done]. wp_run. apply wp_lift; [intros acs Hacs|done]. wp_run.
  apply wp_lift; [intros secret Hsec|done]. wp_run. apply wp_lift; [intros http Hhttp|done]. wp_run.
  split; [done|]. split; [|done]. unfold engine_ok in Hok1 |- *. ecbn. rewrite Hfl1 in Hok1.
  destruct Hok1. split; try done. intros rq [= <-]. cbn [pr_operation].
  exists w. split; [done|]. by eapply operation_fits.
Qed.

End steps.

(** What reading a root relies on: the version a node decodes to is the one its header has. *)
Class HeaderLaw {CC : CloudCodecs} : Prop :=
  node_header v node version : node_from_value v = Ok node → header_from_value v = Ok version →
    cn_version node = version.

(** All formats in the chain decode their nodes alike, as those that exist do. *)
Definition plain_nodes {CC : CloudCodecs} (f : AccountFormat) : Prop :=
  ∀ version g, find_format f version = Some g → af_decode_node g = node_from_value.

Section responses.
Context {CC : CloudCodecs} {CX : CloudCrypto} {SW : SetupWire} {CT : CodecTotal} {HL : HeaderLaw}.
Implicit Types (e : CloudEngine).

Abbreviation M := (ST CloudEngine Fault).

(** ** Reading a page keeps the store in order, also when it fails half-way *)

Lemma reconcile_record_pending purpose entry s changed :
  pending_keys s ⊆ dom (cached s) →
  let s' := (reconcile_record purpose entry (s, changed)).2.1 in
  pending_keys s' ⊆ dom (cached s') ∧ dom (cached s) ⊆ dom (cached s').
Proof.
  intros Hp. destruct entry as [k r]. unfold reconcile_record. destruct (validate k r) as [[]|]; [|done].
  cbn [mbind result_bind]. unfold remote_wins. destruct (is_link purpose && _).
  { cbn. rewrite dom_insert. set_solver. }
  destruct (cached s !! k) as [l|] eqn:Hk; [|cbn; rewrite dom_insert; set_solver].
  destruct (compare_cloud_records r l) as [[]|]; cbn; rewrite ?dom_insert; [set_solver| |set_solver|done].
  apply elem_of_dom_2 in Hk. set_solver.
Qed.

Lemma reconcile_loop_pending purpose l s changed :
  pending_keys s ⊆ dom (cached s) →
  let s' := (st_for l (reconcile_record purpose) (s, changed)).2.1 in
  pending_keys s' ⊆ dom (cached s') ∧ dom (cached s) ⊆ dom (cached s').
Proof.
  revert s changed. induction l as [|x l IH]; intros s changed Hp; [done|].
  cbn [st_for]. rewrite ST_bind_unfold.
  pose proof (reconcile_record_pending purpose x s changed Hp) as [Hp1 Hd1].
  destruct (reconcile_record purpose x (s, changed)) as [[[]|err] [s1 ch1]]; [|done]. cbn [fst snd] in *.
  destruct (IH s1 ch1 Hp1) as [Hp2 Hd2]. split; [done|]. by etrans.
Qed.

Lemma reconcile_page_pending page purpose s :
  pending_keys s ⊆ dom (cached s) →
  pending_keys (reconcile_page page purpose s).2 ⊆ dom (cached (reconcile_page page purpose s).2).
Proof.
  intros Hp. unfold reconcile_page.
  pose proof (reconcile_loop_pending purpose (map_iter (cp_records page)) s ∅ Hp) as [Hp1 Hd1].
  destruct (st_for _ _ _) as [[[]|err] [s1 ch1]]; [|done]. cbn in *. set_solver.
Qed.

(** ** The arms of [advance_workflow] *)

(** After a response: the invariant, or after an error at least an idle engine's. *)
Definition settled e : Prop :=
  core_ok (format e) None (p_account (persistent e)) (observed_root e) (upgrade_from e) None
    (p_records (persistent e)) (p_local_revision (persistent e)).
Definition answered {A} (f : AccountFormat) (r : result Fault A) e : Prop :=
  no_panic r ∧ format e = f ∧ provider_request_in_flight e = None ∧
  match r with Ok _ => engine_ok e | Err _ => settled e end.

Lemma settled_of_ok e : engine_ok e → settled e.
Proof. apply core_idle. Qed.

(** A response to the workflow [w]. *)
Definition answering (w : CloudWorkflow) e : Prop :=
  engine_ok e ∧ p_workflow (persistent e) = Some w ∧ provider_request_in_flight e = None.

Lemma answering_core w e :
  answering w e →
  core_ok (format e) (Some w) (p_account (persistent e)) (observed_root e) (upgrade_from e) None
    (p_records (persistent e)) (p_local_revision (persistent e)).
Proof. intros (Hok & Hw & Hfl). unfold engine_ok in Hok. by rewrite Hw, Hfl in Hok. Qed.

Lemma answered_error {A} w x e : answering w e → answered (A:=A) (format e) (Err (Error x)) e.
Proof. intros (Hok & Hw & Hfl). split; [done|]. split; [done|]. split; [done|]. by apply settled_of_ok. Qed.

(** The next workflow is one without a publication or page. *)
Lemma answered_next {A} w x (a : A) e e' :
  answering w e → format e' = format e → provider_request_in_flight e' = None →
  p_workflow (persistent e') = x → p_account (persistent e') = p_account (persistent e) →
  observed_root e' = observed_root e → p_records (persistent e') = p_records (persistent e) →
  p_local_revision (persistent e') = p_local_revision (persistent e) →
  (∀ y, x = Some y → authorized (format e) (observed_root e) (upgrade_from e') y = true ∧ staged_of y = None
     ∧ ∀ root node purpose, y ≠ WfReadPage root node purpose) →
  answered (format e) (Ok a) e'.
Proof.
  intros Han%answering_core Hf Hfl Hw Ha Ho Hr Hv Hx. split_and!; [done..|].
  unfold engine_ok. rewrite Hf, Hfl, Hw, Ha, Ho, Hr, Hv.
  eapply (core_workflow _ None); [by eapply core_idle|done].
Qed.

Lemma acs_of_account e text acs : acs_of e text = Ok acs → is_Some (p_account (persistent e) ≫= ac_acs).
Proof. unfold acs_of, account. intros H. inv_ok. rewrite Ha. simpl. by eexists. Qed.

Lemma challenge_wp response now e :
  answering WfCreateChallenge e → wp (advance_create_challenge response now) (answered (format e)) e.
Proof.
  intros Han. unfold advance_create_challenge. destruct response; wp_run; try by eapply answered_error.
  apply wp_lift; [intros _ _|intros; by eapply answered_error]. wp_run.
  eapply answered_next; try done; [by destruct Han as (_ & _ & ?)|]. by intros y [= <-].
Qed.

Lemma account_wp rand challenge response now e :
  answering (WfCreateAccount challenge) e → wp (advance_create_account rand response now) (answered (format e)) e.
Proof.
  intros Han. unfold advance_create_account. destruct response; wp_run; try by eapply answered_error.
  apply wp_lift; [intros acs Hacs|intros; by eapply answered_error]. wp_run.
  apply wp_lift; [intros _ _|intros; by eapply answered_error]. wp_run.
  apply wp_lift; [intros s Hs|intros; by eapply answered_error]. wp_run.
  unfold stage_acs_publication in Hs. pose proof Hs as (Hpur & Hrev & _)%stage_fields. apply stage_stages in Hs.
  pose proof (answering_core _ _ Han) as Hcore. destruct Han as (_ & _ & Hfl).
  split_and!; [done|done|done|]. unfold engine_ok. ecbn. rewrite Hfl. apply core_stage; [by eapply core_idle|..|done|done].
  - by eapply acs_of_account.
  - unfold authorized. by rewrite Hpur.
Qed.

Lemma create_page_wp s revision hash response e :
  answering (WfCreatePage s revision hash) e →
  wp (advance_create_page s revision hash response) (answered (format e)) e.
Proof.
  intros Han. unfold advance_create_page.
  assert (answered (format e) (Ok (∅ : gmap bytes (CloudRecord Json)))
            (put_workflow (Some (WfCommitRoot s revision hash)) e)) as Hnext.
  { pose proof (answering_core _ _ Han) as []. destruct Han as (_ & _ & Hfl).
    split_and!; [done..|]. unfold engine_ok. ecbn. rewrite Hfl. split; try done.
    - intros x [= <-]. by apply (ok_auth0 (WfCreatePage s revision hash)).
    - intros x s' [= <-] [= <-]. by apply (ok_account0 (WfCreatePage s revision hash) s).
    - intros x s' [= <-] [= <-]. by apply (ok_staged0 (WfCreatePage s revision hash) s). }
  destruct response; wp_run; done || by eapply answered_error.
Qed.

Lemma ticket_wp response now e :
  answering WfCreateSseTicket e → wp (advance_create_ticket response now) (answered (format e)) e.
Proof.
  intros Han. unfold advance_create_ticket. destruct response; wp_run; try by eapply answered_error.
  apply wp_lift; [intros _ _|intros; by eapply answered_error]. wp_run.
  apply wp_lift; [intros acs Hacs|intros; by eapply answered_error]. wp_run.
  apply wp_lift; [intros url Hurl|intros x _; exact (answered_error _ x e Han)]. wp_run.
  eapply answered_next; try done; by destruct Han as (_ & _ & ?).
Qed.

Lemma put_acs_wp f Q e a acs :
  p_account (persistent e) = Some a → ac_acs a = Some acs →
  Q (Ok tt) (put_account (Some {| ac_provider := ac_provider a; ac_root_secret_base64 := ac_root_secret_base64 a;
    ac_imported_device_setup_code := ac_imported_device_setup_code a; ac_tip := ac_tip a;
    ac_acs := Some (f acs) |}) e) → wp (put_acs f) Q e.
Proof.
  intros Ha Hacs HQ. unfold put_acs. wp_run. apply wp_lift; unfold account; rewrite Ha; [|done].
  intros ? [= <-]. wp_run. apply wp_lift; rewrite Hacs; [|done]. intros ? [= <-]. by wp_run.
Qed.

Lemma put_tip_wp tip Q e a :
  p_account (persistent e) = Some a →
  Q (Ok tt) (put_account (Some {| ac_provider := ac_provider a; ac_root_secret_base64 := ac_root_secret_base64 a;
    ac_imported_device_setup_code := ac_imported_device_setup_code a; ac_tip := Some tip;
    ac_acs := ac_acs a |}) e) → wp (put_tip tip) Q e.
Proof.
  intros Ha HQ. unfold put_tip. wp_run. apply wp_lift; unfold account; rewrite Ha; [|done].
  intros ? [= <-]. by wp_run.
Qed.

(** The account and the root it remembers are replaced together. *)
Lemma core_adopt f w acc acc' obs o up up' fl rec rec' rev :
  core_ok f w acc obs up fl rec rev → remembers acc' o → pending_keys rec' ⊆ dom (cached rec') →
  core_ok f None acc' (Some o) up' None rec' rev.
Proof. intros [] Ho Hp. split; try done. by intros ? [= <-]. Qed.

Definition staged_tip (s : StagedPublication) : VerifiedTip :=
  {| vt_node_id := sp_node_id s; vt_node_hash := sp_node_hash s; vt_generation := sp_generation s;
     vt_published_at_epoch_ms := Some (sp_published_at_epoch_ms s); vt_merkle_root_id := sp_page_id s;
     vt_merkle_root_hash := sp_merkle_root_hash s; vt_next_slot_id := sp_next_slot_id s |}.

Lemma commit_wp s revision hash response e :
  answering (WfCommitRoot s revision hash) e → wp (advance_commit_root s response) (answered (format e)) e.
Proof.
  intros Han. pose proof (answering_core _ _ Han) as Hcore. pose proof Han as (_ & _ & Hfl).
  unfold advance_commit_root. destruct response as [| | | | | |response| |]; wp_run; try by eapply answered_error.
  destruct response as [root|]; wp_run.
  2: { split_and!; [done..|]. unfold engine_ok. ecbn. rewrite Hfl.
       eapply core_workflow; [by eapply core_forget|]. by intros x [= <-]. }
  apply wp_lift; [intros _ _|intros; by eapply answered_error]. wp_run.
  apply wp_lift; [intros [] Hh|intros; by eapply answered_error]. wp_run.
  apply guard_err_Ok in Hh. zbool.
  destruct (ok_account _ _ _ _ _ _ _ _ Hcore (WfCommitRoot s revision hash) s eq_refl eq_refl) as [acs Hacs].
  destruct (p_account (persistent e)) as [a|] eqn:Ha; [|done]. simpl in Hacs.
  eapply put_acs_wp; [done..|]. wp_run. unfold finish_publication. wp_run.
  eapply put_tip_wp; [done|]. wp_run. ecbn.
  pose proof (ok_pending _ _ _ _ _ _ _ _ Hcore) as Hpend.
  destruct (bool_decide (sp_purpose s = PubUpgrade)) eqn:Hup; cbn [negb andb].
  - wp_run. split_and!; [done..|]. unfold engine_ok. ecbn. rewrite Hfl. by eapply core_forget.
  - assert (remembers (Some {| ac_provider := ac_provider a; ac_root_secret_base64 := ac_root_secret_base64 a;
        ac_imported_device_setup_code := ac_imported_device_setup_code a; ac_tip := Some (staged_tip s);
        ac_acs := Some (with_root (rs_revision root) (rs_root_hash root) acs) |})
      {| or_version := af_version (format e); or_revision := rs_revision root; or_hash := sp_node_hash s;
         or_records_verified := true |}) as Hrem.
    { do 3 eexists. split_and!; [done..|]. unfold root_matches, with_root. cbn.
      rewrite Z.eqb_refl. simpl. apply bool_decide_eq_true. congruence. }
    destruct (_ =? _); wp_run; (split_and!; [done..|]); unfold engine_ok; ecbn; rewrite Hfl;
      (eapply core_adopt; [exact Hcore|exact Hrem|]); [set_solver|done].
Qed.

Lemma read_root_wp purpose response now e :
  plain_nodes (format e) → answering (WfReadRoot purpose) e → wp (advance_read_root purpose response now) (answered (format e)) e.
Proof.
  intros Hplain Han. pose proof (answering_core _ _ Han) as Hcore. pose proof Han as (_ & _ & Hfl).
  unfold advance_read_root. destruct response as [| | | | |o| | |]; wp_run; try by eapply answered_error.
  apply wp_lift; [intros root _|intros; by eapply answered_error]. wp_run.
  apply wp_lift; [intros _ _|intros; by eapply answered_error]. wp_run.
  apply wp_lift; [intros current Hcur|intros; by eapply answered_error].
  destruct (root_unchanged e current root purpose).
  { unfold note_read. wp_run. by eapply answered_next. }
  wp_run. apply wp_lift; [intros v _|intros; by eapply answered_error]. wp_run.
  apply wp_lift; [intros version Hversion|intros; by eapply answered_error]. unfold note_read. wp_run.
  set (o' := {| or_version := version; or_revision := rs_revision root; or_hash := rs_root_hash root;
                or_records_verified := false |}).
  assert (∀ up, core_ok (format e) None (p_account (persistent e)) (Some o') up None
            (p_records (persistent e)) (p_local_revision (persistent e))) as Hidle.
  { intros up. destruct Hcore. split; try done. intros o1 [= <-]. unfold verified. cbn. by rewrite andb_false_r. }
  destruct (negb (version =? af_version (format e)) && _) eqn:Hguard.
  { wp_run. split_and!; [done..|]. unfold engine_ok. ecbn. rewrite Hfl. apply Hidle. }
  assert (is_Some (find_format (format e) version)) as [decoder Hfind].
  { destruct (Z.eqb_spec version (af_version (format e))) as [->|Hne].
    - destruct (format e). simpl. rewrite Z.eqb_refl. by eexists.
    - simpl in Hguard. zbool. unfold can_upgrade in *. zbool. done. }
  assert (∀ e2, format e2 = format e → provider_request_in_flight e2 = None →
            p_account (persistent e2) = p_account (persistent e) → observed_root e2 = Some o' →
            p_records (persistent e2) = p_records (persistent e) →
            p_local_revision (persistent e2) = p_local_revision (persistent e) →
            wp (begin_page_read root version v purpose) (answered (format e)) e2) as Hrest.
  { intros e2 Hf2 Hfl2 Ha2 Ho2 Hr2 Hv2.
    assert (∀ x : AppError, answered (A:=gmap bytes (CloudRecord Json)) (format e) (Err (Error x)) e2) as Herr.
    { intros x. split_and!; [done..|]. unfold settled. rewrite Hf2, Ha2, Ho2, Hr2, Hv2. apply Hidle. }
    unfold begin_page_read. wp_run. rewrite Hf2. eapply wp_expect; [done|]. wp_run.
    apply wp_lift; [intros node Hnode|done]. wp_run. apply wp_lift; [intros a _|done]. wp_run.
    apply wp_lift; [intros _ _|done]. wp_run. split_and!; [done..|].
    rewrite (Hplain version decoder Hfind) in Hnode. unfold read_version in Hversion. inv_ok.
    pose proof (node_header _ _ _ Hnode Ha) as Hnv.
    unfold engine_ok. ecbn. rewrite Hfl2, Hf2, Ha2, Ho2, Hr2, Hv2. destruct (Hidle (upgrade_from e2)).
    split; try done.
    - by intros x [= <-].
    - intros root' node' purpose' [= <- <- <-]. split.
      { by eapply acs_of_account. }
      exists o'. split_and!; [done| |done|by simpl]. unfold root_matches. cbn. rewrite Z.eqb_refl. by apply bool_decide_eq_true.
    - by intros x s [= <-].
    - by intros x s [= <-]. }
  rewrite wp_bind. destruct (version =? _); [|wp_run; by apply Hrest].
  unfold clear_upgrade. wp_run. ecbn. destruct (linked_account_detail e) as [[]|]; wp_run; by apply Hrest.
Qed.

(** ** Reading the page *)

Lemma upgrade_wp rand root node purpose page now e :
  answering (WfReadPage root node purpose) e →
  wp (upgrade_page rand root node page now) (answered (format e)) e.
Proof.
  intros Han. pose proof (answering_core _ _ Han) as Hcore. pose proof Han as (_ & _ & Hfl).
  unfold upgrade_page. wp_run. apply wp_lift; [intros [] Hup|intros; by eapply answered_error]. wp_run.
  apply wp_lift; [intros records _|intros; by eapply answered_error]. wp_run.
  apply wp_lift; [intros s Hs|intros; by eapply answered_error]. wp_run.
  pose proof Hs as (Hpur & Hrev & _)%stage_fields. apply guard_err_Ok in Hup. zbool.
  destruct (ok_page _ _ _ _ _ _ _ _ Hcore root node purpose eq_refl) as (Hacc & o & Ho & Hm & _ & Hver).
  split_and!; [done..|]. unfold engine_ok. ecbn. rewrite Hfl.
  apply core_stage; [by eapply core_idle|done| |done|congruence].
  unfold authorized. rewrite Hpur, Ho, Hm, Hver. simpl. rewrite bool_decide_true by done. done.
Qed.

Lemma adopt_wp root node page purpose now e :
  answering (WfReadPage root node purpose) e →
  wp (adopt_page root node page purpose now) (answered (format e)) e.
Proof.
  intros Han. pose proof (answering_core _ _ Han) as Hcore. pose proof Han as (_ & _ & Hfl).
  destruct (ok_page _ _ _ _ _ _ _ _ Hcore root node purpose eq_refl) as (Hacc & o & Ho & Hm & Hnv & Hver).
  destruct (p_account (persistent e)) as [a|] eqn:Ha; [|by destruct Hacc]. destruct Hacc as [acs Hacs]. simpl in Hacs.
  unfold adopt_page. wp_run. eapply wp_mono; [apply prepare_wp|].
  intros r e1 (Hnp & (Hf & Hw1 & Ha1 & Ho1 & Hup1 & Hfl1 & Hrev1) & Hpend & _).
  assert (pending_keys (p_records (persistent e1)) ⊆ dom (cached (p_records (persistent e1)))) as Hpend1.
  { apply Hpend. unfold pending_ok. by destruct Hcore. }
  (* The observed root stays unverified until the page has been merged. *)
  assert (∀ e2, format e2 = format e → provider_request_in_flight e2 = None → observed_root e2 = Some o →
            p_local_revision (persistent e2) = p_local_revision (persistent e) →
            pending_keys (p_records (persistent e2)) ⊆ dom (cached (p_records (persistent e2))) → settled e2) as Hset.
  { intros e2 Hf2 Hfl2 Ho2 Hv2 Hp2. unfold settled. rewrite Hf2, Ho2, Hv2. split; try done.
    intros o1 [= <-]. unfold verified. by rewrite Hnv, andb_false_r. }
  destruct r as [[]|x].
  2: { split_and!; [by intros t [= ->]; eapply Hnp|congruence|congruence|]. by apply Hset; try congruence. }
  wp_run. eapply put_tip_wp; [by rewrite Ha1|]. wp_run. eapply put_acs_wp; [done|done|]. unfold note_read. wp_run.
  unfold reconcile. wp_run. ecbn.
  pose proof (reconcile_page_pending page purpose _ Hpend1) as Hpend2.
  destruct (reconcile_page page purpose (p_records (persistent e1))) as [rr s2]. cbn [snd] in Hpend2. wp_run.
  apply wp_lift; [intros changed Hch|intros x _]; wp_run.
  2: { split_and!; [done|done|by ecbn; congruence|]. apply Hset; ecbn; try done; congruence. }
  eapply wp_expect; [by ecbn; rewrite Ho1|]. wp_run.
  assert (∀ b, answered (format e) (Ok changed) (put_force_poll b (set_observed_root
     (Some {| or_version := or_version o; or_revision := or_revision o; or_hash := or_hash o;
              or_records_verified := true |})
     (put_records s2 (put_workflow None
       (put_account (Some {| ac_provider := ac_provider a; ac_root_secret_base64 := ac_root_secret_base64 a;
          ac_imported_device_setup_code := ac_imported_device_setup_code a; ac_tip := Some (tip_of_node root node);
          ac_acs := Some (with_root (rs_revision root) (rs_root_hash root) acs) |}) e1)))))) as Hfin.
  { intros b. split_and!; [done|done|by ecbn; congruence|]. unfold engine_ok. ecbn. rewrite Hfl1, Hfl, Hf, Hrev1.
    eapply core_adopt; [exact Hcore| |done].
    do 3 eexists. split_and!; [done..|]. unfold root_matches in *. cbn. zbool.
    replace (or_revision o) with (rs_revision root) by done. rewrite Z.eqb_refl. simpl. by apply bool_decide_eq_true. }
  destruct (_ || _); wp_run; [exact (Hfin true)|exact (Hfin (p_force_poll (persistent e1)))].
Qed.

Lemma read_page_wp rand root node purpose response now e :
  answering (WfReadPage root node purpose) e →
  wp (advance_read_page rand root node purpose response now) (answered (format e)) e.
Proof.
  intros Han. unfold advance_read_page. destruct response; wp_run; try by eapply answered_error.
  apply wp_lift; [intros page _|intros; by eapply answered_error].
  destruct (_ =? _); [by apply adopt_wp|by eapply upgrade_wp].
Qed.

Lemma advance_wp rand w response now e :
  plain_nodes (format e) → answering w e → wp (advance_workflow rand w response now) (answered (format e)) e.
Proof.
  intros Hplain Han. destruct w; simpl.
  - by apply challenge_wp.
  - by eapply account_wp.
  - by apply create_page_wp.
  - by eapply commit_wp.
  - by apply read_root_wp.
  - by apply read_page_wp.
  - by apply ticket_wp.
Qed.

End responses.
