(* ===== verification/CloudEngineReach.v ===== *)
(** * Reachable states of the cloud engine

    The operations of the engine as the application calls them, the states they lead to, and
    what holds in all of them. *)

From Stdlib Require Import Strings.Byte.
From stdpp Require Import base list strings gmap sets.
From S2P Require Import Prelude Utf8 NavKvRead AcsContracts CloudRecords CloudRecordsCorrect.
From S2P Require Import CloudAcs DeviceSetupCode CloudEngine CloudActions CloudEngineCorrect.

Local Open Scope Z_scope.

Section reach.
Context {CC : CloudCodecs} {CX : CloudCrypto} {SW : SetupWire} {CT : CodecTotal} {HL : HeaderLaw}.
Implicit Types (e : CloudEngine).

Abbreviation M := (ST CloudEngine Fault).

(** ** Responses *)

Lemma provider_failed_ok kind detail retry gate now e :
  engine_ok e → provider_request_in_flight e = None → engine_ok (provider_failed kind detail retry gate now e).
Proof.
  intros Hok Hfl. unfold provider_failed. ecbn.
  assert (engine_ok (match creation_limited gate, p_workflow (persistent e) with
    | true, Some (WfCreateAccount _) =>
        put_workflow (Some WfCreateChallenge) (put_last_provider_failure
          (Some {| pf_kind := kind; pf_detail := cloud_provider_failure_detail detail gate retry |}) e)
    | _, _ => put_last_provider_failure
          (Some {| pf_kind := kind; pf_detail := cloud_provider_failure_detail detail gate retry |}) e
    end)) as Hok'.
  { destruct (creation_limited gate); [|done].
    destruct (p_workflow (persistent e)) as [w|] eqn:Hw; [|done]. destruct w; try done.
    unfold engine_ok in Hok |- *. ecbn. rewrite Hfl in Hok |- *. eapply core_workflow; [done|]. by intros x [= <-]. }
  destruct kind; done.
Qed.

Lemma commit_failure_ok x e : settled e → provider_request_in_flight e = None →
  engine_ok (commit_provider_completion_failure x e).
Proof.
  intros Hs Hfl. unfold commit_provider_completion_failure, engine_ok. ecbn. rewrite Hfl.
  by eapply core_idle.
Qed.

Lemma complete_workflow_wp rand w response now e :
  plain_nodes (format e) → answering w e → wp (complete_workflow rand w response now) (safe (format e)) e.
Proof.
  intros Hplain Han. pose proof (advance_wp rand w response now e Hplain Han) as Hwp.
  unfold wp in Hwp |- *. unfold complete_workflow.
  destruct (advance_workflow rand w response now e) as [[c|[x|text]] e']; cbn [fst snd] in *;
    destruct Hwp as (Hnp & Hf & Hfl & Hok).
  - sdone.
  - sdone. by apply commit_failure_ok.
  - by destruct (Hnp text).
Qed.

Lemma complete_wp rand request_id response now e :
  plain_nodes (format e) → engine_ok e →
  wp (complete_provider_request rand request_id response now) (safe (format e)) e.
Proof.
  intros Hplain Hok. unfold complete_provider_request. wp_run.
  destruct (provider_request_in_flight e) as [rq|] eqn:Hfl; wp_run; [|by sdone].
  apply wp_lift; [intros _ _|by sdone]. wp_run.
  assert (engine_ok (set_provider_request_in_flight None e)) as Hok1.
  { unfold engine_ok in Hok |- *. ecbn. by eapply core_no_flight. }
  assert (∀ answer,
    wp (_ ← modify (put_last_provider_failure None);
        _ ← modify (put_next_retry_epoch_ms None);
        e ← get;
        match p_workflow (persistent e) with
        | None => _ ← modify (commit_provider_completion_failure
                               (cloud_error "cloud provider completed with no active workflow")); mret ∅
        | Some w => complete_workflow rand w answer now
        end) (safe (format e)) (set_provider_request_in_flight None e)) as Hgo.
  { intros answer. wp_run. ecbn. destruct (p_workflow (persistent e)) as [w|] eqn:Hw.
    - eapply wp_mono; [apply complete_workflow_wp; [exact Hplain|split_and!; [exact Hok1|exact Hw|done]]|].
      intros r e' H. exact H.
    - wp_run. sdone. apply commit_failure_ok; [by apply settled_of_ok|done]. }
  destruct (parse_response rq response); try apply Hgo. wp_run. sdone; [by apply provider_failed_ok|].
  unfold provider_failed. ecbn. repeat case_match; done.
Qed.

(** ** Stream events *)

Lemma core_account f w acc acc' obs up fl rec rev :
  core_ok f w acc obs up fl rec rev →
  (∀ o, remembers acc o → remembers acc' o) → (is_Some (acc ≫= ac_acs) → is_Some (acc' ≫= ac_acs)) →
  core_ok f w acc' obs up fl rec rev.
Proof.
  intros [] Hrem Hacs. split; try done.
  - intros o Ho Hv. auto.
  - intros root node purpose Hw. destruct (ok_page root node purpose Hw) as [? ?]. auto.
  - intros w' s Hw Hs. eauto.
Qed.

Lemma message_wp data e : engine_ok e → wp (report_message data) (safe (format e)) e.
Proof.
  intros Hok. unfold report_message. wp_run. apply wp_lift; [intros d _|by sdone]. wp_run.
  apply wp_lift; [intros message _|by sdone]. wp_run. apply wp_lift; [intros acs Hacs|by sdone].
  destruct (match as_last_event_sequence acs with Some last => _ | None => false end); wp_run; [by sdone|].
  unfold acs_of, account in Hacs. inv_ok. 
  eapply put_acs_wp; [done..|]. wp_run.
  set (e1 := put_account _ e). assert (engine_ok e1) as Hok1.
  { unfold engine_ok in Hok |- *. unfold e1. ecbn. eapply core_account; [done| |].
    - intros o (a' & acs' & tip & Ha' & Hacs' & Htip & Hm). rewrite Ha in Ha'. injection Ha' as <-.
      rewrite Hacs in Hacs'. injection Hacs' as <-. by do 3 eexists.
    - intros _. simpl. by eexists. }
  assert (format e1 = format e) as Hf1 by done. clearbody e1. destruct (match message with SseReady _ revision hash => _ | _ => _ end) as [[revision hash] force].
  wp_run. destruct (_ || _); wp_run; by sdone.
Qed.

Lemma event_wp event now e : engine_ok e → wp (report_event_stream_event event now) (safe (format e)) e.
Proof.
  intros Hok. unfold report_event_stream_event. wp_run.
  destruct (match acs_event_stream_plan e with None => true | Some plan => _ end); wp_run; [by sdone|].
  destruct (ev_kind event); wp_run; try by sdone.
  - destruct (p_last_provider_failure (persistent e)) as [failure|]; wp_run; [|by sdone].
    destruct (bool_decide _); wp_run; by sdone.
  - by apply message_wp.
Qed.

(** ** Local edits *)

(** The edits to come fit the counter of local revisions. *)
Definition room (n : Z) e : Prop := p_local_revision (persistent e) + n ≤ u64_max.

Lemma record_local_ok key r e :
  engine_ok e → room 1 e → engine_ok (record_local_cloud_record key r e).
Proof.
  intros Hok Hroom. unfold record_local_cloud_record, engine_ok, room in *. ecbn. destruct Hok. split; try done.
  - ecbn. rewrite dom_insert. destruct (is_some _); set_solver.
  - intros w s Hw Hs. destruct (ok_staged w s Hw Hs) as [Hle _]. unfold saturating_add. split; [lia|].
    intros _ Heq. lia.
Qed.
Lemma record_local_format key r e : format (record_local_cloud_record key r e) = format e.
Proof. done. Qed.
Lemma record_local_revision key r e :
  room 1 e → p_local_revision (persistent (record_local_cloud_record key r e)) = p_local_revision (persistent e) + 1.
Proof. unfold room, record_local_cloud_record, saturating_add. ecbn. lia. Qed.

(** An edit is safe and uses up at most one revision. *)
Definition edited e (r : result Fault bool) e' : Prop :=
  safe (format e) r e' ∧ p_local_revision (persistent e') ≤ p_local_revision (persistent e) + 1.

Lemma edited_same e r : no_panic r → engine_ok e → edited e r e.
Proof. intros Hnp Hok. split; [by sdone|lia]. Qed.
Lemma edited_record key r e : engine_ok e → room 1 e → edited e (Ok true) (record_local_cloud_record key r e).
Proof.
  intros Hok Hroom. split; [|rewrite record_local_revision by done; lia].
  sdone. by apply record_local_ok.
Qed.

Lemma value_wp S `{EqDecision (Wire S)} key v now e :
  engine_ok e → room 1 e → wp (record_local_value S key v now) (edited e) e.
Proof.
  intros Hok Hroom. unfold record_local_value. wp_run. apply wp_lift; [intros o _|by intros; apply edited_same].
  destruct (bool_decide _); wp_run; [by apply edited_same|].
  apply wp_lift; [intros r _|by intros; apply edited_same]. wp_run. by apply edited_record.
Qed.

Lemma selections_wp l now b e :
  engine_ok e → room (len l) e → wp (record_selections l now b) (safe (format e)) e.
Proof.
  revert b e. induction l as [|[key selection] l IH]; intros b e Hok Hroom; cbn [record_selections]; wp_run; [by sdone|].
  unfold room in Hroom. rewrite len_cons in Hroom. pose proof (len_nonneg l).
  eapply wp_mono; [apply value_wp; [done|unfold room; lia]|].
  intros r e' ((Hnp & Hok' & Hf) & Hrev). destruct r as [b'|x]; [|by sdone].
  eapply wp_mono; [apply IH; [done|unfold room; lia]|]. by rewrite Hf.
Qed.

(** The local changes the application makes. *)
Inductive Edit :=
| EditFlightPlan (before after : FlightPlan) (now : Z)
| EditPackages (preferences : OfflinePackagePreferences) (now : Z)
| EditSleep (timeout : SleepTimeout) (now : Z)
| EditNexrad (preferences : NexradPreferences) (now : Z)
| EditDebugFlag (f : DebugFlagId) (enabled : bool) (now : Z)
| EditMembership (hash : bytes) (membership : AircraftMembership) (now : Z)
| EditDefinition (definition : AircraftDefinition)
| EditReceipt (id : bytes).

Definition run_edit (x : Edit) : M bool :=
  match x with
  | EditFlightPlan before after now => record_local_flight_plan_mutation before after now
  | EditPackages preferences now => record_local_offline_package_preferences preferences now
  | EditSleep timeout now => record_local_inactivity_sleep_timeout timeout now
  | EditNexrad preferences now => record_local_nexrad_acquisition preferences now
  | EditDebugFlag f enabled now => record_local_debug_flag f enabled now
  | EditMembership hash membership now => record_local_aircraft_library_membership hash membership now
  | EditDefinition definition => record_local_aircraft_definition definition
  | EditReceipt id => record_service_read id
  end.

Definition edit_size (x : Edit) : Z :=
  match x with
  | EditPackages p _ => len (map_iter (op_regions p)) + len (map_iter (op_products p))
  | _ => 1
  end.

Lemma edit_wp x e : engine_ok e → room (edit_size x) e → wp (run_edit x) (safe (format e)) e.
Proof.
  intros Hok Hroom.
  assert (∀ c : M bool, wp c (edited e) e → wp c (safe (format e)) e) as Hweak.
  { intros c Hc. eapply wp_mono; [done|]. by intros r e' [? _]. }
  destruct x; cbn [run_edit edit_size] in *.
  - unfold record_local_flight_plan_mutation. destruct (bool_decide _); [by wp_run; sdone|]. wp_run.
    apply wp_lift; [intros r _|by sdone]. wp_run. sdone. by apply record_local_ok.
  - unfold record_local_offline_package_preferences. apply selections_wp; [done|].
    rewrite len_app. unfold prefixed. by rewrite !len_fmap.
  - apply Hweak. by apply value_wp.
  - apply Hweak. by apply value_wp.
  - apply Hweak. by apply value_wp.
  - unfold record_local_aircraft_library_membership. wp_run. apply wp_lift; [intros _ _|by sdone].
    apply Hweak. by apply value_wp.
  - unfold record_local_aircraft_definition. wp_run. apply wp_lift; [intros hash _|by sdone]. wp_run.
    apply wp_lift; [intros key _|by sdone]. wp_run. apply wp_lift; [intros r _|by sdone]. wp_run.
    destruct (bool_decide _); wp_run; sdone. by apply record_local_ok.
  - unfold record_service_read. wp_run. apply wp_lift; [intros r _|by sdone]. wp_run.
    apply wp_lift; [intros _ _|by sdone]. wp_run.
    destruct (is_some _); wp_run; sdone. by apply record_local_ok.
Qed.

(** ** User actions *)

(** An account without a verified root can be dropped. *)
Lemma core_unlinked f w acc acc' obs up fl rec rec' rev :
  core_ok f w acc obs up fl rec rev → (∀ a, acc = Some a → ac_tip a = None) →
  pending_keys rec' ⊆ dom (cached rec') → core_ok f None acc' obs up None rec' rev.
Proof.
  intros [] Htip Hp. split; try done. intros o Ho Hv.
  destruct (ok_verified o Ho Hv) as (a & acs & tip & Ha & _ & Ht & _). rewrite (Htip a Ha) in Ht. done.
Qed.

(** Consent to an upgrade does not authorise anything already staged. *)
Lemma core_consent f w acc obs up' fl rec rev :
  core_ok f w acc obs None fl rec rev → core_ok f w acc obs up' fl rec rev.
Proof.
  intros []. split; try done. intros w' Hw. specialize (ok_auth w' Hw). unfold authorized in *.
  destruct w'; try done; (destruct (sp_purpose staged); try done; destruct obs; [|done];
    cbn in ok_auth; by rewrite andb_false_r in ok_auth).
Qed.

Lemma core_same_records f w acc obs up fl rec rec' rev :
  core_ok f w acc obs up fl rec rev → cached rec' = cached rec → pending_keys rec' = pending_keys rec →
  core_ok f w acc obs up fl rec' rev.
Proof. intros [] Hc Hp. split; try done; [by rewrite Hc, Hp|]. intros w' s Hw Hs. rewrite Hc. by apply (ok_staged w' s). Qed.

Lemma unlinked_idle e :
  engine_ok e → require_unlinked_and_idle e = Ok tt →
  p_account (persistent e) = None ∧ p_workflow (persistent e) = None ∧ provider_request_in_flight e = None.
Proof.
  intros Hok H. unfold require_unlinked_and_idle in H. apply guard_err_Ok in H. zbool.
  destruct (p_account (persistent e)); [done|]. destruct (p_workflow (persistent e)) eqn:Hw; [done|].
  split_and!; [done..|]. destruct (provider_request_in_flight e) as [rq|] eqn:Hfl; [|done].
  destruct (ok_flight _ _ _ _ _ _ _ _ Hok rq Hfl) as (w & Hw' & _). congruence.
Qed.

Lemma action_wp rand action plan now e :
  engine_ok e → wp (perform_action_at rand action plan now) (safe (format e)) e.
Proof.
  intros Hok. pose proof (ok_pending _ _ _ _ _ _ _ _ Hok) as Hpend.
  assert (∀ d, wp (open_detail d) (safe (format e)) e) as Hopen.
  { intros d. unfold open_detail. wp_run. apply wp_lift; [intros _ _|by sdone]. wp_run. by sdone. }
  assert (∀ i, wp (begin_onboarding i) (safe (format e)) e) as Hbegin.
  { intros i. unfold begin_onboarding. wp_run. apply wp_lift; [intros _ _|by sdone]. wp_run. by sdone. }
  destruct action; cbn [perform_action_at]; try done.
  - (* BackSetup *)
    unfold back_setup. wp_run. apply wp_lift; [intros [] Htip|by sdone]. wp_run. apply guard_err_Ok in Htip.
    assert (∀ a, p_account (persistent e) = Some a → ac_tip a = None) as Hno.
    { intros a Ha. unfold has_tip in Htip. rewrite Ha in Htip. by destruct (ac_tip a). }
    destruct (p_onboarding_intent (persistent e)); [|by wp_run; sdone].
    destruct (is_some _); wp_run; sdone; unfold engine_ok, clear_pending; ecbn;
      (eapply core_unlinked; [exact Hok|exact Hno|set_solver]).
  - (* CreateAccount *)
    unfold create_account. wp_run. apply wp_lift; [intros [] Hidle|by sdone]. wp_run.
    apply (unlinked_idle e Hok) in Hidle as (Ha & Hw & Hfl).
    apply wp_lift; [intros _ _|by sdone]. wp_run. apply wp_lift; [intros base_url _|by sdone]. wp_run.
    apply wp_lift; [intros secret _|by sdone]. wp_run. apply wp_lift; [intros identity _|by sdone]. wp_run.
    apply wp_lift.
    + intros r _. wp_run. sdone. unfold engine_ok, reset_sync_activity. ecbn. rewrite Hfl.
      eapply core_workflow; [eapply core_records; [by eapply core_forget|]|by intros x [= <-]]. ecbn. done.
    + sdone. unfold engine_ok, reset_sync_activity. ecbn. rewrite Hfl, Hw. by eapply core_forget.
  - (* AcceptDeviceSetupCode *)
    unfold accept_device_setup_code. wp_run. apply wp_lift; [intros [] Hw|by sdone]. wp_run.
    apply wp_lift; [intros [] Ha|by sdone]. wp_run.
    assert (require_unlinked_and_idle e = Ok tt) as Hidle.
    { apply guard_err_Ok in Hw, Ha. unfold require_unlinked_and_idle. by rewrite Hw, Ha. }
    apply (unlinked_idle e Hok) in Hidle as (_ & _ & Hfl).
    apply wp_lift; [intros payload _|by sdone]. destruct (ds_provider payload) as [base_url locator]. wp_run.
    apply wp_lift; [intros url _|by sdone]. wp_run. apply wp_lift; [intros identity _|by sdone]. wp_run.
    apply wp_lift; [intros _ _|by sdone]. wp_run. sdone.
    unfold engine_ok, clear_pending, reset_sync_activity. ecbn. rewrite Hfl.
    eapply core_workflow; [eapply core_records; [by eapply core_forget|]|by intros x [= <-]]. ecbn. set_solver.
  - (* ConfirmUnlinkDevice *)
    unfold confirm_unlink. wp_run. apply wp_lift; [intros _ _|by sdone]. wp_run.
    apply wp_lift; [intros _ _|by sdone]. wp_run. by sdone.
  - (* BeginAccountUpgrade *)
    wp_run. apply wp_lift; [intros from _|by sdone]. wp_run. by sdone.
  - (* ConfirmAccountUpgrade *)
    unfold confirm_account_upgrade. wp_run. apply wp_lift; [intros from Hfrom|by sdone]. wp_run.
    apply wp_lift; [intros _ _|by sdone]. wp_run. sdone.
    unfold upgradeable_account_format in Hfrom. inv_ok. unfold engine_ok in Hok |- *. ecbn.
    destruct (upgrade_from e); [done|]. by apply core_consent.
Qed.

Lemma ui_wp rand id fields plan now e :
  engine_ok e → wp (perform_ui_action rand id fields plan now) (safe (format e)) e.
Proof.
  intros Hok. unfold perform_ui_action. wp_run. apply wp_lift; [intros action _|by sdone]. wp_run.
  destruct action as [action|]; wp_run; [|by sdone].
  eapply wp_mono; [by apply action_wp|]. intros [[]|x] e' (Hnp & Hok' & Hf); wp_run; by sdone.
Qed.

Lemma pending_plan_wp plan e : engine_ok e → wp (set_pending_remote_flight_plan plan) (safe (format e)) e.
Proof.
  intros Hok. unfold set_pending_remote_flight_plan. wp_run. apply wp_lift; [intros r _|by sdone]. wp_run. sdone.
  unfold engine_ok in *. ecbn. by eapply core_same_records.
Qed.
Lemma take_plan_wp e : engine_ok e → wp take_pending_remote_flight_plan (safe (format e)) e.
Proof.
  intros Hok. unfold take_pending_remote_flight_plan. wp_run. sdone.
  unfold engine_ok in *. ecbn. by eapply core_same_records.
Qed.

(** ** Restarts *)

(** A new process may start from this persisted state. *)
Definition startable (p : CloudPersistentState) : Prop :=
  pending_keys (p_records p) ⊆ dom (cached (p_records p)) ∧
  ∀ w, restart_workflow (p_workflow p) = Some w → staged_of w = None.

Lemma restart_workflow_shape p w :
  p_workflow (restart_persistent p) = Some w →
  (∀ root node purpose, w ≠ WfReadPage root node purpose)
  ∧ (∀ s, staged_of w = Some s → p_workflow p = Some w ∧ sp_purpose s = PubCreateAccount)
  ∧ (staged_of w = None ∨ restart_workflow (p_workflow p) = Some w).
Proof.
  unfold restart_persistent, restart_workflow. ecbn.
  destruct (has_tip p), (p_workflow p) as [x|]; try done;
    destruct x as [| |s ? ?|s ? ?| | |]; simpl; try (intros [= <-]; split_and!; (done || by left));
    destruct (sp_purpose s) eqn:Hpur; simpl; intros [= <-]; split_and!; try done; try (by left); try (by right);
    by intros ? [= <-].
Qed.

Lemma new_engine_ok p f :
  core_ok f (p_workflow (restart_persistent p)) (p_account p) None None None
    (p_records (restart_persistent p)) (p_local_revision p) →
  p_records_format p = af_version f ∨ (∀ w, p_workflow (restart_persistent p) = Some w → staged_of w = None) →
  engine_ok (new_with_format p f).
Proof.
  intros Hcore Hfmt. unfold new_with_format. set (e0 := {| persistent := restart_persistent p |}).
  assert (engine_ok e0) as Hok0 by exact Hcore.
  pose proof (prepare_wp e0) as Hp. unfold wp in Hp.
  destruct (prepare_local_records e0) as [r e1]. cbn [fst snd] in Hp.
  destruct Hp as (Hnp & (Hf & Hw1 & Ha1 & Ho1 & Hup1 & Hfl1 & Hrev1) & Hpend & Hsame).
  assert (engine_ok e1) as Hok1.
  { destruct Hfmt as [Hfmt|Hno]; [rewrite Hsame by (exact Hfmt); done|].
    unfold engine_ok in Hok0 |- *. rewrite Hf, Hw1, Ha1, Ho1, Hup1, Hfl1, Hrev1.
    eapply core_workflow; [eapply core_records; [by eapply core_idle|]|].
    - apply Hpend. by destruct Hok0.
    - intros x Hx. split_and!; [by apply (ok_auth _ _ _ _ _ _ _ _ Hok0)|by apply Hno|].
      by apply (restart_workflow_shape p). }
  destruct r as [[]|[x|t]]; [done| |done]. apply commit_failure_ok; [by apply settled_of_ok|by rewrite Hfl1].
Qed.

Lemma start_engine_ok p f : startable p → engine_ok (new_with_format p f).
Proof.
  intros [Hpend Hno]. assert (∀ w, p_workflow (restart_persistent p) = Some w → staged_of w = None) as Hst.
  { intros w Hw. destruct (restart_workflow_shape p w Hw) as (_ & _ & [?|Hr]); [done|by apply Hno]. }
  apply new_engine_ok; [|by right]. split; try done.
  - intros w Hw. specialize (Hst w Hw). by destruct w.
  - intros root node purpose Hw. by destruct (restart_workflow_shape p _ Hw) as (H & _); destruct (H root node purpose).
  - intros w s Hw Hs. rewrite (Hst w Hw) in Hs. done.
  - unfold restart_persistent. ecbn. destruct (_ <? 3); [set_solver|done].
  - intros w s Hw Hs. rewrite (Hst w Hw) in Hs. done.
Qed.

Lemma restart_engine_ok e :
  engine_ok e → p_records_format (persistent e) = af_version (format e) →
  engine_ok (new_with_format (persistent e) (format e)).
Proof.
  intros Hok Hfmt. apply new_engine_ok; [|by left]. destruct Hok. split; try done.
  - intros w Hw. destruct (restart_workflow_shape _ w Hw) as (_ & Hs & _). destruct w as [| |s r h|s r h| | |]; try done;
      destruct (Hs s eq_refl) as [Hold Hpur]; specialize (ok_auth _ Hold); unfold authorized in *; by rewrite Hpur in *.
  - intros root node purpose Hw.
    by destruct (restart_workflow_shape _ _ Hw) as (H & _); destruct (H root node purpose).
  - intros w s Hw Hs. destruct (restart_workflow_shape _ w Hw) as (_ & Hsp & _).
    destruct (Hsp s Hs) as [Hold _]. by eapply ok_account.
  - unfold restart_persistent. ecbn. destruct (_ <? 3); [set_solver|done].
  - intros w s Hw Hs. destruct (restart_workflow_shape _ w Hw) as (_ & Hsp & _).
    destruct (Hsp s Hs) as [Hold _]. destruct (ok_staged w s Hold Hs) as [Hle Hst]. split; [done|].
    intros Hp Hr. unfold restart_persistent. ecbn. specialize (Hst Hp Hr). by destruct (_ <? 3).
Qed.

(** ** Reachability *)

Inductive Op :=
| OpTake (rand : Random) (now : Z)
| OpComplete (rand : Random) (request_id : Z) (response : CloudHttpResponse) (now : Z)
| OpEvent (event : CloudEventStreamEvent) (now : Z)
| OpUi (rand : Random) (id : CloudUiActionId) (fields : list bytes) (plan : FlightPlan) (now : Z)
| OpEdit (edit : Edit)
| OpSetPendingPlan (plan : FlightPlan)
| OpTakePendingPlan
| OpSetBaseUrl (base_url : option bytes).

Definition discard {A} (c : M A) : M unit := _ ← c; mret tt.

Definition run (op : Op) : M unit :=
  match op with
  | OpTake rand now => discard (take_provider_request rand now)
  | OpComplete rand id response now => discard (complete_provider_request rand id response now)
  | OpEvent event now => report_event_stream_event event now
  | OpUi rand id fields plan now => perform_ui_action rand id fields plan now
  | OpEdit edit => discard (run_edit edit)
  | OpSetPendingPlan plan => set_pending_remote_flight_plan plan
  | OpTakePendingPlan => discard take_pending_remote_flight_plan
  | OpSetBaseUrl base_url => set_default_base_url base_url
  end.

(** The counter of local revisions has room for what the operation edits. *)
Definition op_room (op : Op) e : Prop :=
  match op with OpEdit edit => room (edit_size edit) e | _ => True end.

Lemma discard_wp {A} (c : M A) f e : wp c (safe f) e → wp (discard c) (safe f) e.
Proof.
  intros Hc. unfold discard. wp_run. eapply wp_mono; [done|]. intros [a|x] e' (Hnp & Hok & Hf); [by sdone|].
  sdone. intros t [= ->]. by eapply Hnp.
Qed.

Lemma run_wp op e :
  plain_nodes (format e) → engine_ok e → op_room op e → wp (run op) (safe (format e)) e.
Proof.
  intros Hplain Hok Hroom. destruct op; cbn [run].
  - apply discard_wp. by apply take_wp.
  - apply discard_wp. by apply complete_wp.
  - by apply event_wp.
  - by apply ui_wp.
  - apply discard_wp. by apply edit_wp.
  - by apply pending_plan_wp.
  - apply discard_wp. by apply take_plan_wp.
  - unfold set_default_base_url. wp_run. apply wp_lift; [intros v _|by sdone]. wp_run. by sdone.
Qed.

Inductive reachable (f : AccountFormat) : CloudEngine → Prop :=
| reach_start p : startable p → reachable f (new_with_format p f)
| reach_step e op : reachable f e → op_room op e → reachable f (run op e).2
| reach_restart e : reachable f e → p_records_format (persistent e) = af_version f →
    reachable f (new_with_format (persistent e) f).

Lemma new_format p f : format (new_with_format p f) = f.
Proof.
  unfold new_with_format. set (e0 := {| persistent := restart_persistent p |}).
  pose proof (prepare_wp e0) as Hp. unfold wp in Hp. destruct (prepare_local_records e0) as [r e1].
  destruct Hp as (_ & (Hf & _) & _). by destruct r as [[]|[]].
Qed.

Lemma reachable_ok f e : plain_nodes f → reachable f e → engine_ok e ∧ format e = f.
Proof.
  intros Hplain. induction 1 as [p Hs|e op _ [Hok Hf] Hroom|e _ [Hok Hf] Hfmt].
  - split; [by apply start_engine_ok|apply new_format].
  - subst f. pose proof (run_wp op e Hplain Hok Hroom) as (_ & ? & ?). done.
  - subst f. split; [by apply restart_engine_ok|apply new_format].
Qed.

End reach.
