(* ===== verification/CloudSyncCorrect.v ===== *)
(** * What the cloud engine guarantees

    In every state the engine can reach: no operation panics; a root is replaced only when
    this process has read and merged it, when the user has agreed to upgrade it, or when the
    account is new; every response fits the workflow that asked for it; and a local change
    stays pending until it has been published or a version at least as new was adopted. *)

From Stdlib Require Import Strings.Byte.
From stdpp Require Import base list strings gmap sets.
From S2P Require Import Prelude Utf8 NavKvRead AcsContracts CloudRecords CloudRecordsCorrect.
From S2P Require Import CloudAcs DeviceSetupCode CloudEngine CloudActions CloudEngineCorrect CloudEngineReach.

Local Open Scope Z_scope.

Section sync.
Context {CC : CloudCodecs} {CX : CloudCrypto} {SW : SetupWire} {CT : CodecTotal} {HL : HeaderLaw}.
Implicit Types (e : CloudEngine) (s : StagedPublication) (k : bytes).

Lemma plain_CURRENT : plain_nodes CURRENT.
Proof.
  intros version g. cbn [find_format CURRENT FORMAT_2 LEGACY af_version af_predecessor].
  unfold CLOUD_NODE_VERSION. change (2 <? 3) with true. change (1 <? 2) with true. cbn iota.
  destruct (version =? 3); [by intros [= <-]|]. destruct (version =? 2); [by intros [= <-]|].
  by destruct (version =? 1); [intros [= <-]|].
Qed.

Lemma discard_state {A} (c : ST CloudEngine Fault A) e : (discard c e).2 = (c e).2.
Proof. unfold discard. rewrite ST_bind_unfold. by destruct (c e) as [[] ?]. Qed.

(** ** Responses *)

(** The response a workflow can be answered with. *)
Definition response_fits (w : CloudWorkflow) (r : CloudProviderResponse) : Prop :=
  match r with
  | RespError _ _ _ _ => True
  | RespCreated | RespAlreadyExists => ∃ s revision hash, w = WfCreatePage s revision hash
  | RespCreationChallenge _ => w = WfCreateChallenge
  | RespAccountCreated _ => ∃ challenge, w = WfCreateAccount challenge
  | RespObject _ => ∃ root node purpose, w = WfReadPage root node purpose
  | RespRoot _ => ∃ purpose, w = WfReadRoot purpose
  | RespRootCas _ => ∃ s revision hash, w = WfCommitRoot s revision hash
  | RespSseTicket _ => w = WfCreateSseTicket
  end.

Lemma parse_http_error_fits w status body : response_fits w (parse_http_error status body).
Proof. done. Qed.
Lemma decode_json_fits {A} w (parse : bytes → result bytes A) body f :
  (∀ v, response_fits w (f v)) → response_fits w (decode_json parse body f).
Proof. intros Hf. unfold decode_json. by destruct (parse body). Qed.

Lemma parse_fits w rq response : op_fits w (pr_operation rq) → response_fits w (parse_response rq response).
Proof.
  intros Hfit. unfold parse_response, decode_http_response.
  destruct response as [status body64|detail|limit]; [|done..].
  destruct (b64_decode body64) as [body|]; [|done].
  destruct w, (pr_operation rq); try done; simpl in Hfit;
    repeat case_match; try apply parse_http_error_fits; try apply decode_json_fits; try (intros []); simpl; eauto 10.
Qed.

(** C34: every response the engine waits for is read as an error or as an answer to the workflow
    at hand, so the engine never takes one for something it did not ask. *)
Theorem cloud_response_fits f e rq response :
  plain_nodes f → reachable f e → provider_request_in_flight e = Some rq →
  ∃ w, p_workflow (persistent e) = Some w ∧ op_fits w (pr_operation rq)
    ∧ response_fits w (parse_response rq response).
Proof.
  intros Hplain [Hok _]%reachable_ok Hfl; [|done].
  destruct (ok_flight _ _ _ _ _ _ _ _ Hok rq Hfl) as (w & Hw & Hfit).
  exists w. split_and!; [done..|]. by apply parse_fits.
Qed.

(** C33: no operation of the engine panics. *)
Theorem cloud_never_panics f e op text :
  plain_nodes f → reachable f e → op_room op e → (run op e).1 ≠ Err (Panic text).
Proof.
  intros Hplain [Hok Hf]%reachable_ok Hroom; [|done]. subst f.
  destruct (run_wp op e Hplain Hok Hroom) as (Hnp & _). apply Hnp.
Qed.

(** ** Publications *)

(** Why a publication may replace the root it expects. *)
Definition publication_reason e (s : StagedPublication) (revision : Z) (hash : option bytes) : Prop :=
  match sp_purpose s with
  | PubCreateAccount => revision = 0 ∧ hash = None
  | PubPublish => ∃ o, observed_root e = Some o ∧ or_revision o = revision ∧ Some (or_hash o) = hash
      ∧ or_version o = af_version (format e) ∧ or_records_verified o = true
  | PubUpgrade => ∃ o, observed_root e = Some o ∧ or_revision o = revision ∧ Some (or_hash o) = hash
      ∧ upgrade_from e = Some (or_version o) ∧ can_upgrade (format e) (or_version o) = true
  end.

Lemma authorized_reason e w s revision hash :
  authorized (format e) (observed_root e) (upgrade_from e) w = true →
  w = WfCreatePage s revision hash ∨ w = WfCommitRoot s revision hash → publication_reason e s revision hash.
Proof.
  intros Hau Hw. assert (authorized (format e) (observed_root e) (upgrade_from e) (WfCreatePage s revision hash) = true)
    as Hau' by (by destruct Hw; subst w). clear Hau Hw. unfold authorized in Hau'. unfold publication_reason.
  destruct (sp_purpose s).
  - zbool. by destruct hash.
  - destruct (observed_root e) as [o|]; [|done]. unfold root_matches, verified in Hau'. zbool. by exists o.
  - destruct (observed_root e) as [o|]; [|done]. unfold root_matches in Hau'. zbool. by exists o.
Qed.


(** ** Local changes *)

Definition recs e : SynchronizedRecordStore := p_records (persistent e).
Definition same_recs {A} e (_ : result Fault A) e' : Prop :=
  recs e' = recs e ∧ p_local_revision (persistent e') = p_local_revision (persistent e).

Lemma wp_expect_any {A} (o : option A) text Q e :
  (∀ a, Q (Ok a) e) → Q (Err (Panic text)) e → wp (expect o text) Q e.
Proof. by destruct o; intros; [apply H|]. Qed.

(** Runs a computation that touches no record. *)
Ltac frame := repeat first
  [ done | progress wp_run | apply wp_lift; intros | apply wp_expect_any; intros | case_match ].

Lemma put_acs_recs f e : wp (put_acs f) (same_recs e) e.
Proof. unfold put_acs. frame. Qed.
Lemma put_tip_recs tip e : wp (put_tip tip) (same_recs e) e.
Proof. unfold put_tip. frame. Qed.
Lemma prepare_recs e :
  p_records_format (persistent e) = af_version (format e) → wp prepare_local_records (λ _ e', e' = e) e.
Proof. intros Hf. eapply wp_mono; [apply prepare_wp|]. intros r e' (_ & _ & _ & Hsame). auto. Qed.

Lemma publish_recs rand a now e :
  p_records_format (persistent e) = af_version (format e) → wp (publish_pending rand a now) (same_recs e) e.
Proof.
  intros Hf. unfold publish_pending. wp_run. apply wp_lift; [intros acs _|done]. wp_run.
  apply wp_lift; [intros _ _|done]. wp_run. eapply wp_mono; [by apply prepare_recs|].
  intros [[]|x] e' ->; [|done]. frame.
Qed.

Lemma ensure_recs rand now e :
  p_records_format (persistent e) = af_version (format e) → wp (ensure_workflow rand now) (same_recs e) e.
Proof.
  intros Hf. unfold ensure_workflow. wp_run. destruct (p_workflow (persistent e)) as [w|]; [done|].
  destruct (p_account (persistent e)) as [a|]; [|done].
  destruct (match observed_root e with None => true | Some root => _ end); [done|].
  destruct (_ && negb _); [by apply publish_recs|]. wp_run. destruct (poll_due e now); wp_run; by destruct (_ && _).
Qed.

Lemma take_recs rand now e :
  p_records_format (persistent e) = af_version (format e) → wp (take_provider_request rand now) (same_recs e) e.
Proof.
  intros Hf. unfold take_provider_request. wp_run. destruct (current_provider e); [|done].
  destruct (request_blocked e now); [done|]. wp_run. eapply wp_mono; [by apply ensure_recs|].
  intros [[]|x] e1 Hr; [|done]. wp_run. destruct (p_workflow (persistent e1)); [|done]. unfold same_recs in *. frame.
Qed.

Lemma event_recs event now e : wp (report_event_stream_event event now) (same_recs e) e.
Proof.
  unfold report_event_stream_event. wp_run.
  destruct (match acs_event_stream_plan e with None => true | Some plan => _ end); [done|].
  destruct (ev_kind event); try (by frame).
  unfold report_message. wp_run. apply wp_lift; [intros d _|done]. wp_run. apply wp_lift; [intros message _|done].
  wp_run. apply wp_lift; [intros acs _|done].
  destruct (match as_last_event_sequence acs with Some last => _ | None => false end); [done|].
  wp_run. eapply wp_mono; [apply put_acs_recs|]. intros [[]|x] e1 Hr; [|done].
  destruct (match message with SseReady _ revision hash => _ | _ => _ end) as [[revision hash] force].
  wp_run. by destruct (_ || _).
Qed.

(** A record of the page other than the one at [k] leaves it alone. *)
Lemma reconcile_record_other purpose k' r (s : SynchronizedRecordStore) changed k :
  k ≠ k' → let s' := (reconcile_record purpose (k', r) (s, changed)).2.1 in
  cached s' !! k = cached s !! k ∧ (k ∈ pending_keys s' ↔ k ∈ pending_keys s).
Proof.
  intros Hk. unfold reconcile_record. destruct (_ ← validate k' r; _) as [[]|]; cbn; [|set_solver|done].
  rewrite lookup_insert_ne by done. set_solver.
Qed.

(** One record of the page at a pending key: the local one stays pending, or the page's, which
    is at least as new, takes its place. *)
Lemma reconcile_record_pending_key purpose k r (s : SynchronizedRecordStore) changed l :
  k ∈ pending_keys s → cached s !! k = Some l →
  let s' := (reconcile_record purpose (k, r) (s, changed)).2.1 in
  k ∈ pending_keys s' ∧ cached s' !! k = Some l ∨ cached s' !! k = Some r ∧ older_eq l r.
Proof.
  intros Hp Hl. unfold reconcile_record. destruct (validate k r) as [[]|]; [|by left].
  cbn [mbind result_bind]. rewrite remote_wins_adopts. destruct (adopts purpose s k r) eqn:Had; cbn; [|left; set_solver].
  rewrite lookup_insert_eq. right. split; [done|]. unfold adopts in Had. rewrite (bool_decide_true (k ∈ _)) in Had by done.
  rewrite andb_false_r, Hl in Had. simpl in Had. unfold older_eq. rewrite (rank_cmp_opp r l).
  by destruct (rank_cmp r l).
Qed.

Lemma reconcile_loop_other purpose l (s : SynchronizedRecordStore) changed k :
  k ∉ l.*1 → let s' := (st_for l (reconcile_record purpose) (s, changed)).2.1 in
  cached s' !! k = cached s !! k ∧ (k ∈ pending_keys s' ↔ k ∈ pending_keys s).
Proof.
  revert s changed. induction l as [|[k' r] l IH]; intros s changed Hk; [done|].
  rewrite fmap_cons in Hk. apply not_elem_of_cons in Hk as [Hne Hk].
  pose proof (reconcile_record_other purpose k' r s changed k Hne) as [Hc Hpe].
  cbn [st_for]. rewrite ST_bind_unfold.
  destruct (reconcile_record purpose (k', r) (s, changed)) as [[[]|x] [s1 ch1]]; [|done]. cbn [fst snd] in *.
  destruct (IH s1 ch1 Hk) as [-> ->]. done.
Qed.

Lemma reconcile_loop_pending_key purpose l (s : SynchronizedRecordStore) changed k lo :
  NoDup l.*1 → k ∈ pending_keys s → cached s !! k = Some lo →
  let s' := (st_for l (reconcile_record purpose) (s, changed)).2.1 in
  k ∈ pending_keys s' ∧ cached s' !! k = Some lo ∨ ∃ r, (k, r) ∈ l ∧ cached s' !! k = Some r ∧ older_eq lo r.
Proof.
  revert s changed. induction l as [|[k' r] l IH]; intros s changed Hnd Hp Hlo; [by left|].
  rewrite fmap_cons in Hnd. apply NoDup_cons in Hnd as [Hk' Hnd]. cbn [st_for]. rewrite ST_bind_unfold.
  destruct (decide (k = k')) as [<-|Hne].
  - pose proof (reconcile_record_pending_key purpose k r s changed lo Hp Hlo) as Hone.
    destruct (reconcile_record purpose (k, r) (s, changed)) as [[[]|x] [s1 ch1]]; cbn [fst snd] in *.
    + destruct (reconcile_loop_other purpose l s1 ch1 k Hk') as [-> ->].
      destruct Hone as [Hone|Hone]; [by left|]. right. exists r. split; [left|done].
    + destruct Hone as [Hone|Hone]; [by left|]. right. exists r. split; [left|done].
  - pose proof (reconcile_record_other purpose k' r s changed k Hne) as [Hc Hpe].
    destruct (reconcile_record purpose (k', r) (s, changed)) as [[[]|x] [s1 ch1]]; cbn [fst snd] in *.
    + destruct (IH s1 ch1 Hnd) as [H|(r' & Hin & H)]; [by apply Hpe|by rewrite Hc|by left|].
      right. exists r'. split; [by right|done].
    + left. rewrite Hc. split; [by apply Hpe|done].
Qed.

Lemma reconcile_page_pending_key page purpose (s : SynchronizedRecordStore) k lo :
  k ∈ pending_keys s → cached s !! k = Some lo →
  let s' := (reconcile_page page purpose s).2 in
  k ∈ pending_keys s' ∧ cached s' !! k = Some lo
  ∨ ∃ r, cp_records page !! k = Some r ∧ cached s' !! k = Some r ∧ older_eq lo r.
Proof.
  intros Hp Hlo. unfold reconcile_page.
  pose proof (reconcile_loop_pending_key purpose (map_iter (cp_records page)) s ∅ k lo
              (map_iter_fst_NoDup _) Hp Hlo) as H.
  cbv zeta in H. setoid_rewrite elem_of_map_iter in H.
  destruct (st_for _ _ _) as [[[]|x] [s1 ch1]]; [|exact H]. cbn [fst snd] in *.
  destruct H as [[Hk Hc]|H]; [left|by right]. split; [|done]. unfold keep_local. cbn. set_solver.
Qed.

(** The root the server committed carries the page staged from the records at hand. *)
Definition was_published e (response : CloudProviderResponse) : Prop :=
  ∃ s revision hash root, p_workflow (persistent e) = Some (WfCommitRoot s revision hash)
    ∧ response = RespRootCas (Committed root) ∧ rs_root_hash root = sp_node_hash s
    ∧ stages (format e) s (cached (recs e)).

(** The server's answer is the page the engine was reading, and it holds the version [r] of the
    record, which is at least as new as [l] and now the one held. *)
Definition was_superseded k (l : CloudRecord Json) e (response : CloudProviderResponse) e' : Prop :=
  ∃ root node purpose o page r, p_workflow (persistent e) = Some (WfReadPage root node purpose)
    ∧ response = RespObject o ∧ open_page e node o = Ok page ∧ cp_records page !! k = Some r
    ∧ cached (recs e') !! k = Some r ∧ older_eq l r.

(** A pending change is still pending with its record, or published, or superseded by a version
    at least as new that was read. *)
Definition accounted {A} k (l : CloudRecord Json) e (response : CloudProviderResponse)
    (_ : result Fault A) e' : Prop :=
  (k ∈ pending_keys (recs e') ∧ cached (recs e') !! k = Some l)
  ∨ was_published e response ∨ was_superseded k l e response e'.

Lemma same_accounted {A} k l e response (r : result Fault A) e' :
  k ∈ pending_keys (recs e) → cached (recs e) !! k = Some l → same_recs e r e' → accounted k l e response r e'.
Proof. intros Hk Hl [Hr _]. left. by rewrite Hr. Qed.

Lemma commit_accounted s revision hash response k l e :
  answering (WfCommitRoot s revision hash) e → k ∈ pending_keys (recs e) → cached (recs e) !! k = Some l →
  wp (advance_commit_root s response) (accounted k l e response) e.
Proof.
  intros Han Hk Hl. pose proof (answering_core _ _ Han) as Hcore. destruct Han as (_ & Hw & _).
  unfold advance_commit_root. destruct response as [| | | | | |[root|]| |]; try (by left).
  wp_run. apply wp_lift; [intros _ _|by left]. wp_run.
  apply wp_lift; [intros [] Hh|by left]. apply guard_err_Ok in Hh. zbool. wp_run.
  eapply wp_mono; [apply put_acs_recs|]. intros [[]|x] e1 Hr1; [|by apply same_accounted]. wp_run.
  unfold finish_publication. wp_run. eapply wp_mono; [apply put_tip_recs|].
  intros r e2 Hr2. assert (same_recs e r e2) as Hr by (destruct Hr1, Hr2; split; by etrans).
  clear e1 Hr1 Hr2. destruct r as [[]|x]; [|by apply same_accounted]. wp_run.
  destruct (bool_decide (sp_purpose s = PubUpgrade)) eqn:Hup; cbn [negb andb].
  { wp_run. by apply same_accounted. }
  destruct (_ =? _) eqn:Hrev; wp_run; [|by apply same_accounted].
  right. left. exists s, revision, hash, root. split_and!; [done..|].
  apply (ok_staged _ _ _ _ _ _ _ _ Hcore _ _ eq_refl eq_refl); [by zbool|].
  destruct Hr as [_ <-]. by zbool.
Qed.

Lemma adopt_accounted root node page purpose now o k l e :
  p_workflow (persistent e) = Some (WfReadPage root node purpose) → open_page e node o = Ok page →
  p_records_format (persistent e) = af_version (format e) →
  k ∈ pending_keys (recs e) → cached (recs e) !! k = Some l →
  wp (adopt_page root node page purpose now) (accounted k l e (RespObject o)) e.
Proof.
  intros Hw Ho Hf Hk Hl. unfold adopt_page. wp_run. eapply wp_mono; [by apply prepare_recs|].
  intros [[]|x] e0 ->; [|by left]. wp_run. eapply wp_mono; [apply put_tip_recs|].
  intros [[]|x] e1 Hr1; [|by apply same_accounted]. wp_run. eapply wp_mono; [apply put_acs_recs|].
  intros r e2 Hr2. assert (recs e2 = recs e) as Hr by (destruct Hr1, Hr2; by etrans). clear e1 Hr1 Hr2.
  destruct r as [[]|x]; [|left; by rewrite Hr]. unfold note_read. wp_run. unfold reconcile. wp_run. ecbn.
  fold (recs e2). rewrite Hr.
  pose proof (reconcile_page_pending_key page purpose (recs e) k l Hk Hl) as Hpage.
  destruct (reconcile_page page purpose (recs e)) as [rr s']. cbn [snd] in Hpage. wp_run.
  assert (∀ A (r : result Fault A) e', recs e' = s' → accounted k l e (RespObject o) r e') as Hacc.
  { intros A r e' <-. destruct Hpage as [Hkeep|(r' & Hin & Hr' & Hle)]; [by left|right; right].
    by exists root, node, purpose, o, page, r'. }
  apply wp_lift; [intros changed _|intros x _; by apply Hacc]. wp_run.
  apply wp_expect_any; [intros o'|by apply Hacc]. wp_run. destruct (_ || _); wp_run; by apply Hacc.
Qed.

Lemma advance_accounted rand w response now k l e :
  answering w e → p_records_format (persistent e) = af_version (format e) →
  k ∈ pending_keys (recs e) → cached (recs e) !! k = Some l →
  wp (advance_workflow rand w response now) (accounted k l e response) e.
Proof.
  intros Han Hf Hk Hl. pose proof Han as (_ & Hw & _).
  assert (∀ A (c : ST CloudEngine Fault A),
            wp c (same_recs e) e → wp c (accounted k l e response) e) as Hsame.
  { intros A c Hc. eapply wp_mono; [done|]. intros r e'. by apply same_accounted. }
  destruct w; simpl.
  - apply Hsame. unfold advance_create_challenge. frame.
  - apply Hsame. unfold advance_create_account. frame.
  - apply Hsame. unfold advance_create_page. frame.
  - by eapply commit_accounted.
  - apply Hsame. unfold advance_read_root, note_read, clear_upgrade, begin_page_read. frame.
  - unfold advance_read_page. destruct response as [| | | |o| | | |]; try (by left). wp_run.
    apply wp_lift; [intros page Hpage|by left]. destruct (_ =? _); [by apply adopt_accounted|].
    apply Hsame. unfold upgrade_page. frame.
  - apply Hsame. unfold advance_create_ticket. frame.
Qed.

Lemma provider_failed_recs kind detail retry gate now e : recs (provider_failed kind detail retry gate now e) = recs e.
Proof. unfold provider_failed, recs. ecbn. repeat case_match; done. Qed.

Lemma complete_accounted rand id response now rq k l e :
  engine_ok e → provider_request_in_flight e = Some rq →
  p_records_format (persistent e) = af_version (format e) →
  k ∈ pending_keys (recs e) → cached (recs e) !! k = Some l →
  wp (complete_provider_request rand id response now) (accounted k l e (parse_response rq response)) e.
Proof.
  intros Hok Hfl Hf Hk Hl. unfold complete_provider_request. wp_run. rewrite Hfl. wp_run.
  apply wp_lift; [intros _ _|by left]. wp_run.
  assert (∀ answer,
    wp (_ ← modify (put_last_provider_failure None);
        _ ← modify (put_next_retry_epoch_ms None);
        e ← get;
        match p_workflow (persistent e) with
        | None => _ ← modify (commit_provider_completion_failure
                               (cloud_error "cloud provider completed with no active workflow")); mret ∅
        | Some w => complete_workflow rand w answer now
        end) (accounted k l e answer) (set_provider_request_in_flight None e)) as Hgo.
  { intros answer. wp_run. ecbn. destruct (p_workflow (persistent e)) as [w|] eqn:Hw; [|by left].
    assert (answering w (put_next_retry_epoch_ms None (put_last_provider_failure None
              (set_provider_request_in_flight None e)))) as Han.
    { split_and!; [|done..]. unfold engine_ok in Hok |- *. ecbn. by eapply core_no_flight. }
    pose proof (advance_accounted rand w answer now k l _ Han Hf Hk Hl) as Hwp.
    unfold wp in Hwp |- *. unfold complete_workflow.
    by destruct (advance_workflow rand w answer now _) as [[c|[x|text]] e']. }
  destruct (parse_response rq response); try apply Hgo. wp_run. left. by rewrite provider_failed_recs.
Qed.

(** What the device's own edits do to a pending change: it stays pending, at the newest edit. *)
Lemma edit_pending x e k : k ∈ pending_keys (recs e) → wp (run_edit x) (λ _ e', k ∈ pending_keys (recs e')) e.
Proof.
  assert (∀ key r e, k ∈ pending_keys (recs e) → k ∈ pending_keys (recs (record_local_cloud_record key r e))) as Hrec.
  { intros key r e1 Hk. unfold recs, record_local_cloud_record in *. ecbn. destruct (is_some _); set_solver. }
  assert (∀ S (E : EqDecision (Wire S)) key v now e, k ∈ pending_keys (recs e) →
            wp (@record_local_value _ S E key v now) (λ _ e', k ∈ pending_keys (recs e')) e) as Hval.
  { intros S E key v now e1 Hk. unfold record_local_value. wp_run. apply wp_lift; [intros o _|done].
    destruct (bool_decide _); [done|]. wp_run. apply wp_lift; [intros r _|done]. wp_run. by apply Hrec. }
  intros Hk. destruct x; cbn [run_edit].
  - unfold record_local_flight_plan_mutation. frame; by apply Hrec.
  - unfold record_local_offline_package_preferences. generalize false.
    revert e Hk. induction (_ ++ _) as [|[key selection] l IH]; intros e Hk b; [done|]. cbn [record_selections]. wp_run.
    eapply wp_mono; [by apply Hval|]. intros [b'|x] e' Hk'; [by apply IH|done].
  - by apply Hval.
  - by apply Hval.
  - by apply Hval.
  - unfold record_local_aircraft_library_membership. wp_run. apply wp_lift; [intros _ _|done]. by apply Hval.
  - unfold record_local_aircraft_definition. frame; by apply Hrec.
  - unfold record_service_read. frame; by apply Hrec.
Qed.

(** The user's own actions create, link and unlink accounts. *)
Definition is_ui (op : Op) : bool := match op with OpUi _ _ _ _ _ => true | _ => false end.

(** What the server answered, if this operation is its answer. *)
Definition answer_of (op : Op) e : option CloudProviderResponse :=
  match op, provider_request_in_flight e with
  | OpComplete _ _ response _, Some rq => Some (parse_response rq response)
  | _, _ => None
  end.

(** An edit of the user's on this device, which may replace a record by a newer one. *)
Definition is_edit (op : Op) : bool := match op with OpEdit _ => true | _ => false end.

(** C7: no local change is lost: while the cached records are of the engine's format, whatever
    the engine does other than on the user's own account actions, a change that was pending
    still is, with its record unless an edit replaces that; or the server has just committed a
    root staged from exactly the records at hand; or the server's answer is the page that was
    being read, and it holds a version of the record at least as new, now the one held. *)
Theorem cloud_no_lost_edit f e op k l :
  plain_nodes f → reachable f e → p_records_format (persistent e) = af_version f → is_ui op = false →
  k ∈ pending_keys (recs e) → cached (recs e) !! k = Some l →
  let e' := (run op e).2 in
  (k ∈ pending_keys (recs e') ∧ (is_edit op = false → cached (recs e') !! k = Some l))
  ∨ ∃ response, answer_of op e = Some response ∧ (was_published e response ∨ was_superseded k l e response e').
Proof.
  intros Hplain [Hok Hf]%reachable_ok Hfmt Hui Hk Hl; [|done]. subst f.
  destruct op; cbn [run is_ui is_edit] in *; rewrite ?discard_state; try done.
  - left. by rewrite (proj1 (take_recs rand now e Hfmt)).
  - cbn [answer_of]. destruct (provider_request_in_flight e) as [rq|] eqn:Hfl.
    + destruct (complete_accounted rand request_id response now rq k l e Hok Hfl Hfmt Hk Hl) as [[]|H]; [by left|].
      right. by eexists.
    + left. unfold complete_provider_request. rewrite ST_bind_unfold. cbn. by rewrite Hfl.
  - left. by rewrite (proj1 (event_recs event now e)).
  - left. split; [by apply (edit_pending edit e k Hk)|done].
  - left. assert (wp (set_pending_remote_flight_plan plan)
      (λ _ e', k ∈ pending_keys (recs e') ∧ cached (recs e') !! k = Some l) e) as [? ?]; [|done].
    unfold set_pending_remote_flight_plan. frame.
  - by left.
  - left. assert (wp (set_default_base_url base_url)
      (λ _ e', k ∈ pending_keys (recs e') ∧ cached (recs e') !! k = Some l) e) as [? ?]; [|done].
    unfold set_default_base_url. frame.
Qed.

(** ** Local edits *)

Context {CL : CodecLaws}.

(** Recording a value of one of the mutable families: it then reads back; if it was already
    the cached one nothing happens; otherwise its record has a fresh time, is pending when an
    account is linked, and no other record changes. *)
Theorem local_edit_recorded S `{EqDecision (Wire S)} key v now e b e' :
  S ∈ record_specs → record_local_value S key v now e = (Ok b, e') →
  cached_value S e' key = Ok (Some v)
  ∧ (b = false → e' = e)
  ∧ (b = true →
       modified_at_epoch_ms <$> cached (recs e') !! key = Some (Some (next_mutation e key now))
       ∧ (is_Some (p_account (persistent e)) → key ∈ pending_keys (recs e')))
  ∧ (∀ k, k ≠ key → cached (recs e') !! k = cached (recs e) !! k
       ∧ (k ∈ pending_keys (recs e') ↔ k ∈ pending_keys (recs e))).
Proof.
  intros HS. unfold record_local_value. intros H.
  apply ST_bind_Ok in H as (e0 & e1 & [= <- <-] & H). apply ST_bind_Ok in H as (o & e1 & Ho & H).
  unfold lift, st_lift in Ho. injection Ho as Ho <-. destruct (cached_value S e key) as [o'|] eqn:Hc; [|done].
  injection Ho as ->. destruct (bool_decide (o = Some v)) eqn:Hb.
  - injection H as <- <-. apply bool_decide_eq_true in Hb as ->. split_and!; [done..|]. by intros k Hk.
  - apply ST_bind_Ok in H as (r & e1 & Hr & H). apply ST_bind_Ok in H as ([] & e2 & [= <-] & H). injection H as <- <-.
    unfold lift, st_lift in Hr. injection Hr as Hr <-.
    destruct (encode S v (Some (next_mutation e key now))) as [r'|] eqn:Henc; [|done]. injection Hr as ->.
    destruct (encode_decode S v _ r HS Henc) as (Hd & _ & Hmod & _).
    unfold cached_value, recs, record_local_cloud_record. ecbn. rewrite lookup_insert_eq.
    split_and!; [by rewrite Hd|done| |].
    + intros _. split; [by cbn; rewrite Hmod|]. intros [a Ha]. rewrite Ha. cbn. set_solver.
    + intros k Hk. rewrite lookup_insert_ne by done. split; [done|]. destruct (is_some _); set_solver.
Qed.

End sync.
