(* ===== verification/CloudExample.v ===== *)
(** * A concrete cloud

    Small executable stand-ins for the libraries the cloud model takes as parameters, which
    satisfy what the theorems ask of them, and a device that creates an account, edits and
    publishes, on which the theorems are applied. *)

From Stdlib Require Import Strings.Byte.
From stdpp Require Import base list strings gmap sets countable.
From S2P Require Import Prelude Utf8 NavKvRead AcsContracts CloudRecords CloudRecordsCorrect.
From S2P Require Import CloudAcs DeviceSetupCode CloudEngine CloudActions CloudEngineCorrect CloudEngineReach CloudSyncCorrect.

Local Open Scope Z_scope.

(** ** Encodings *)

#[local] Instance selection_countable : Countable PackageSelection :=
  inj_countable' (λ s, match s with Unselected => 0%nat | Pause => 1%nat | Play => 2%nat end)
    (λ n, match n with O => Unselected | 1%nat => Pause | _ => Play end) ltac:(by intros []).
#[local] Instance sleep_countable : Countable SleepTimeout :=
  inj_countable' (λ s, match s with SleepThirtyMinutes => 0%nat | SleepOneHour => 1%nat | SleepTwoHours => 2%nat
                                  | SleepFourHours => 3%nat | SleepNever => 4%nat end)
    (λ n, match n with O => SleepThirtyMinutes | 1%nat => SleepOneHour | 2%nat => SleepTwoHours
                     | 3%nat => SleepFourHours | _ => SleepNever end) ltac:(by intros []).
#[local] Instance coverage_countable : Countable Coverage :=
  inj_countable' (λ c, match c with ViewportOnly => true | FullOffline => false end)
    (λ b : bool, if b then ViewportOnly else FullOffline) ltac:(by intros []).
#[local] Instance detail_countable : Countable Detail :=
  inj_countable' (λ c, match c with Offline0 => true | OfflineLow1 => false end)
    (λ b : bool, if b then Offline0 else OfflineLow1) ltac:(by intros []).
#[local] Instance cadence_countable : Countable Cadence :=
  inj_countable' (λ c, match c with CadenceNever => 0%nat | CadenceThirtyMinutes => 1%nat
                                  | CadenceTenMinutes => 2%nat | CadenceEveryUpdate => 3%nat end)
    (λ n, match n with O => CadenceNever | 1%nat => CadenceThirtyMinutes | 2%nat => CadenceTenMinutes
                     | _ => CadenceEveryUpdate end) ltac:(by intros []).
#[local] Instance nexrad_countable : Countable NexradPreferences :=
  inj_countable' (λ p, (np_coverage p, np_offline_profile p, np_shown_cadence p, np_hidden_cadence p, np_asleep_cadence p))
    (λ '(a, b, c, d, e), {| np_coverage := a; np_offline_profile := b; np_shown_cadence := c;
                            np_hidden_cadence := d; np_asleep_cadence := e |}) ltac:(by intros []).
#[local] Instance membership_countable : Countable AircraftMembership :=
  inj_countable' am_included (λ b, {| am_included := b |}) ltac:(by intros []).
#[local] Instance node_countable : Countable CloudNode :=
  inj_countable' (λ n, (cn_version n, cn_generation n, cn_published_at_epoch_ms n, cn_parent_node_id n,
                        cn_parent_node_hash n, cn_merkle_root_id n, cn_merkle_root_hash n, cn_next_slot_id n))
    (λ '(a, b, c, d, e, f, g, h), {| cn_version := a; cn_generation := b; cn_published_at_epoch_ms := c;
       cn_parent_node_id := d; cn_parent_node_hash := e; cn_merkle_root_id := f; cn_merkle_root_hash := g;
       cn_next_slot_id := h |}) ltac:(by intros []).
#[local] Instance record_eq_dec : EqDecision (CloudRecord positive).
Proof. solve_decision. Defined.
#[local] Instance record_countable : Countable (CloudRecord positive) :=
  inj_countable' (λ r, (schema_version r, modified_at_epoch_ms r, value r))
    (λ '(a, b, c), {| schema_version := a; modified_at_epoch_ms := b; value := c |}) ltac:(by intros []).
#[local] Instance page_eq_dec : EqDecision (CloudPage positive).
Proof. solve_decision. Defined.
#[local] Instance page_countable : Countable (CloudPage positive) :=
  inj_countable' (λ p, (cp_version p, cp_records p)) (λ '(a, b), {| cp_version := a; cp_records := b |}) ltac:(by intros []).

Definition of_json {A} `{Countable A} (j : positive) : AppResult A :=
  match countable.decode j with Some a => Ok a | None => Err (cloud_error "unexpected JSON") end.
Definition json_codec (A : Type) `{Countable A} : Codec positive A :=
  {| ser a := Ok (countable.encode a); de := of_json |}.
Lemma json_codec_round {A} `{Countable A} (a : A) j : ser (json_codec A) a = Ok j → de (json_codec A) j = Ok a.
Proof. cbn. intros [= <-]. unfold of_json. by rewrite decode_encode. Qed.

(** A digest of 32 bytes. *)
Definition toy_digest (b : bytes) : bytes :=
  be_bytes 32 (foldl (λ acc x, Z.land (33 * acc + b2z x + 1) 65535) 7 b).

Fixpoint bits (p : positive) : bytes :=
  match p with xH => [x02] | xO p => x00 :: bits p | xI p => x01 :: bits p end.
Fixpoint of_bits (l : bytes) : option positive :=
  match l with
  | [] => None
  | x00 :: l => xO <$> of_bits l
  | x01 :: l => xI <$> of_bits l
  | _ :: l => Some xH
  end.
Lemma of_bits_bits p : of_bits (bits p) = Some p.
Proof. induction p as [p IH|p IH|]; simpl; by rewrite ?IH. Qed.

Definition hex_nibble (b : byte) : option Z :=
  let z := b2z b in
  if byte_in 48 57 z then Some (z - 48) else if byte_in 97 102 z then Some (z - 87) else None.
Fixpoint unhex (l : bytes) : option bytes :=
  match l with
  | [] => Some []
  | a :: b :: l => x ← hex_nibble a; y ← hex_nibble b; r ← unhex l; Some (z2b (16 * x + y) :: r)
  | [_] => None
  end.
Lemma unhex_hex b : unhex (hex_lower b) = Some b.
Proof.
  unfold hex_lower. induction b as [|x b IH]; [done|]. rewrite fmap_cons. cbn [concat app unhex].
  rewrite IH. by destruct x.
Qed.
Lemma hex_graphic b : Forall graphic (hex_lower b).
Proof.
  unfold hex_lower. induction b as [|x b IH]; [constructor|]. rewrite fmap_cons. cbn [concat app].
  constructor; [|constructor; [|done]]; unfold graphic; by destruct x.
Qed.

(** ** The libraries *)

#[local] Instance toy_codecs : CloudCodecs :=
  {| Json := positive; sha256 := toy_digest;
     versioned_to_vec := λ v j, Ok (bits (countable.encode (v, j)));
     FlightPlan := Z; StoredFlightPlan := Z; stored_of_plan := id; plan_try_from := λ z, Ok z;
     plan_normalized := id; plan_without_guidance := id;
     AircraftDefinition := bytes; definition_validate := λ _, Ok tt;
     content_hash := λ d, Ok (hex_lower (toy_digest d));
     flight_plan_codec := json_codec Z; package_selection_codec := json_codec PackageSelection;
     sleep_timeout_codec := json_codec SleepTimeout; nexrad_codec := json_codec NexradPreferences;
     bool_codec := json_codec bool; aircraft_codec := json_codec bytes;
     membership_codec := json_codec AircraftMembership;
     legacy_membership_from_value := λ j, b ← of_json j; Ok {| lm_included := b; lm_deleted := negb b |};
     page_codec := json_codec (CloudPage positive); node_from_value := of_json;
     header_from_value := λ j, n ← of_json j; Ok (cn_version n) |}.

#[local] Instance toy_total : CodecTotal.
Proof. intros v j. by eexists. Qed.
#[local] Instance toy_header : HeaderLaw.
Proof. intros v node version Hn Hv. cbn in *. rewrite Hn in Hv. cbn in Hv. congruence. Qed.
#[local] Instance toy_laws : CodecLaws.
Proof.
  split; [|by intros p j; apply json_codec_round].
  intros S v j HS. unfold record_specs in HS. rewrite !elem_of_cons, elem_of_nil in HS.
  destruct HS as [->|[->|[->|[->|[->|[->|[->|[->|[]]]]]]]]]; apply json_codec_round.
Qed.

Definition toy_secret : bytes := replicate 32 x01.
Definition toy_rand : Random := λ i n, Ok (replicate n x01).
Definition toy_page_id : bytes := hex_lower (replicate 24 x01).
Definition toy_locator : bytes := replicate 32 x09.

(** A root as the server stores it, made from its ciphertext. *)
Definition toy_root (ct : bytes) : AcsRootSnapshot :=
  let v := from_ciphertext toy_digest hex_lower ct [toy_page_id] in
  {| rs_revision := 1; rs_value := v; rs_updated_at_epoch_ms := 0;
     rs_root_hash := match authenticated_hash toy_digest unhex v KindRoot ACS_FIXED_ROOT_ID with Ok h => h | Err _ => [] end |}.

#[local] Instance toy_crypto : CloudCrypto :=
  {| b64_encode := hex_lower; b64_decode := unhex; hkdf_expand := λ _ _ _, Some toy_locator;
     ed25519_public := id; ed25519_sign := λ seed _, seed;
     aead_encrypt := λ _ _ _ msg, Some msg; aead_decrypt := λ _ _ _ ct, Some ct;
     json_to_vec := λ j, Ok (bits j);
     json_from_slice := λ b, match of_bits b with Some j => Ok j | None => Err (cloud_error "invalid JSON") end;
     node_to_vec := λ n, Ok (bits (countable.encode n));
     envelope_to_vec := λ e, Ok ((if bool_decide (ce_role e = ROLE_PAGE) then x00 else x01)
                                  :: default [] (unhex (ce_ciphertext_base64 e)));
     envelope_from_slice := λ b,
       match b with
       | [] => Err (cloud_error "empty envelope")
       | k :: ct => Ok {| ce_version := CLOUD_ENVELOPE_VERSION; ce_account_tag := account_tag toy_secret;
                          ce_role := if bool_decide (k = x00) then ROLE_PAGE else ROLE_NODE;
                          ce_nonce_base64 := hex_lower (replicate 12 x01); ce_ciphertext_base64 := hex_lower ct |}
       end;
     create_account_to_vec := λ r, Ok (ca_account_locator r);
     create_object_to_vec := λ r, Ok (default [] (unhex (ciphertext_base64url (co_value r))));
     cas_to_vec := λ r, Ok (default [] (unhex (ciphertext_base64url (cas_replacement r))));
     sse_ticket_to_vec := λ r, Ok [];
     challenge_from_slice := λ b, Ok {| cc_contract_id := ACS_CONTRACT_ID; cc_challenge := b;
                                        cc_expires_at_epoch_ms := 1000; cc_server_time_epoch_ms := 0 |};
     account_from_slice := λ b, Ok {| ar_contract_id := ACS_CONTRACT_ID; ar_account_locator := b;
                                      ar_server_time_epoch_ms := 0; ar_quota_class := []; ar_quota_bytes := 0 |};
     outcome_from_slice := λ b, Ok OutcomeCreated;
     object_from_slice := λ b, Ok {| os_object_id := toy_page_id; os_created_at_epoch_ms := 0;
                                     os_value := from_ciphertext toy_digest hex_lower b [] |};
     root_from_slice := λ b, Ok (toy_root b);
     cas_from_slice := λ b, Ok (Committed (toy_root b));
     ticket_from_slice := λ b, Err b; error_from_slice := λ b, Err b; sse_event_from_str := λ b, Err b |}.

#[local] Instance setup_eq_dec : EqDecision WireAerobagCloudSetup.
Proof. solve_decision. Defined.
#[local] Instance setup_countable : Countable WireAerobagCloudSetup :=
  inj_countable' (λ w, (wa_base_url w, wa_account_locator w))
    (λ '(a, b), {| wa_base_url := a; wa_account_locator := b |}) ltac:(by intros []).
#[local] Instance setup_code_eq_dec : EqDecision WireDeviceSetupCodeV3.
Proof. solve_decision. Defined.
#[local] Instance setup_code_countable : Countable WireDeviceSetupCodeV3 :=
  inj_countable' (λ w, (wd_root_secret w, wd_provider w))
    (λ '(a, b), {| wd_root_secret := a; wd_provider := b |}) ltac:(by intros []).
#[local] Instance toy_wire : SetupWire :=
  {| wire_encode := λ w, bits (countable.encode w); wire_decode := λ b, of_bits b ≫= countable.decode |}.

(** ** A device *)

(** The server's answer to the request in flight. *)
Definition toy_reply (e : CloudEngine) : CloudHttpResponse :=
  match provider_request_in_flight e with
  | Some rq =>
      match pr_operation rq with
      | AcsIssueAccountChallenge => Completed 200 (hex_lower (bs "challenge"))
      | AcsCreateAccount r => Completed 201 (hex_lower (ca_account_locator r))
      | AcsCreateObject r => Completed 200 []
      | AcsCompareAndSwapRoot r => Completed 200 (ciphertext_base64url (cas_replacement r))
      | _ => TransportError (bs "offline")
      end
  | None => TransportError (bs "offline")
  end.
Definition toy_answer (e : CloudEngine) : Op :=
  OpComplete toy_rand (match provider_request_in_flight e with Some rq => pr_request_id rq | None => 0 end)
    (toy_reply e) 20.
Definition toy_take : Op := OpTake toy_rand 20.

Definition play (ops : list (CloudEngine → Op)) (e : CloudEngine) : CloudEngine :=
  foldl (λ e op, (run (op e) e).2) e ops.
Fixpoint roomy (ops : list (CloudEngine → Op)) (e : CloudEngine) : Prop :=
  match ops with [] => True | op :: ops => op_room (op e) e ∧ roomy ops (run (op e) e).2 end.
Lemma play_reachable f ops e : reachable f e → roomy ops e → reachable f (play ops e).
Proof.
  revert e. induction ops as [|op ops IH]; intros e He; [done|]. intros [Hop Hr]. apply IH; [|done].
  by apply reach_step.
Qed.

Definition fresh : CloudEngine := new_with_format persistent_default CURRENT.
Lemma fresh_reachable : reachable CURRENT fresh.
Proof. apply reach_start. split; [done|]. intros w H. vm_compute in H. done. Qed.

(** The account is asked for, created, and its first page uploaded; the root is on its way. *)
Definition committing : CloudEngine :=
  play [λ _, OpSetBaseUrl (Some (bs "https://aerobag.example/cloud/"));
        λ _, OpUi toy_rand UiBeginCreate [] 5 10; λ _, OpUi toy_rand UiCreateAccount [] 5 10;
        λ _, toy_take; toy_answer; λ _, toy_take; toy_answer; λ _, toy_take; toy_answer] fresh.
Lemma committing_reachable : reachable CURRENT committing.
Proof. apply play_reachable; [apply fresh_reachable|]. repeat (split; [exact I|]). exact I. Qed.

(** ** Records *)

Definition flag_record (b : bool) (t : Z) : CloudRecord Json :=
  {| schema_version := 1; modified_at_epoch_ms := Some t; value := countable.encode b |}.
Definition flag_key : bytes := bs "settings/debug/fast_tiles".
Definition newer_page : CloudPage Json := page_for_records {[flag_key := flag_record true 9]}.
Definition older_page : CloudPage Json := page_for_records {[flag_key := flag_record false 4]}.
Definition edited_store : SynchronizedRecordStore :=
  {| cached := {[flag_key := flag_record false 4]}; pending_keys := {[flag_key]}; deferred_adoption := ∅ |}.

Lemma page_ok_singleton k r : validate k r = Ok tt → page_ok (page_for_records {[k := r]}).
Proof. unfold page_ok, page_for_records. cbn [cp_records]. by rewrite map_Forall_singleton. Qed.
Lemma newer_page_ok : page_ok newer_page.
Proof. apply page_ok_singleton. vm_compute. done. Qed.
Lemma older_page_ok : page_ok older_page.
Proof. apply page_ok_singleton. vm_compute. done. Qed.

Lemma reconcile_exact_witness :
  ∃ changed s', reconcile_page newer_page Poll edited_store = (Ok changed, s')
    ∧ cached s' = merge_records (cached edited_store) (cp_records newer_page).
Proof.
  destruct (reconcile_exact newer_page Poll edited_store newer_page_ok) as (changed & s' & Hrun & _ & Hm & _).
  - unfold edited_store. cbn [cached pending_keys]. by rewrite dom_singleton_L.
  - exists changed, s'. split; [exact Hrun|]. by apply Hm.
Defined.

Lemma reconcile_converges_witness :
  option_Forall2 same_rank (cached (read_pages [older_page; newer_page] edited_store) !! flag_key)
    (cached (read_pages [newer_page; older_page] store_default) !! flag_key).
Proof.
  apply (reconcile_converges [older_page; newer_page] [newer_page; older_page] edited_store store_default).
  - repeat constructor; [exact older_page_ok|exact newer_page_ok].
  - repeat constructor; [exact newer_page_ok|exact older_page_ok].
  - intros p. rewrite !elem_of_cons. tauto.
  - intros k r Hk. unfold edited_store in Hk. cbn [cached] in Hk. apply lookup_singleton_Some in Hk as [<- <-]. exists older_page, (flag_record false 4).
    split; [left|]. split; [apply lookup_singleton_eq|reflexivity].
  - intros k r Hk. done.
Defined.

Lemma local_edit_is_newest_witness :
  let t := next_record_mutation_epoch_ms edited_store flag_key 2 in
  2 ≤ t ∧ in_i64 t ∧ 4 ≤ t ∧ (4 < i64_max → 4 < t).
Proof.
  apply (local_edit_is_newest edited_store flag_key 2 (flag_record false 4)).
  - unfold in_i64, i64_min, i64_max. lia.
  - intros r' [Hr|Hr]; [|done]. unfold edited_store in Hr. cbn [cached] in Hr. apply lookup_singleton_Some in Hr as [_ <-]. unfold in_i64, i64_min, i64_max. cbn. lia.
  - left. apply lookup_singleton_eq.
Defined.

Definition legacy_records : gmap bytes (CloudRecord Json) :=
  {[FLIGHT_PLAN_RECORD_KEY := {| schema_version := 2; modified_at_epoch_ms := Some 3; value := 1%positive |};
    AIRCRAFT_LIBRARY_RECORD_PREFIX ++ bs "x" :=
      {| schema_version := 1; modified_at_epoch_ms := Some 7; value := countable.encode true |};
    flag_key := flag_record true 5]}.
Definition migrated_records : gmap bytes (CloudRecord Json) :=
  match migrate CURRENT 1 legacy_records with Ok m => m | Err _ => ∅ end.

Lemma legacy_migrates : migrate CURRENT 1 legacy_records = Ok migrated_records.
Proof.
  assert (match migrate CURRENT 1 legacy_records with Ok _ => true | Err _ => false end = true) as H
    by (vm_compute; reflexivity).
  unfold migrated_records. by destruct (migrate CURRENT 1 legacy_records).
Qed.

Lemma migrate_current_keeps_witness : migrated_records !! flag_key = legacy_records !! flag_key.
Proof.
  destruct (migrate_current_keeps 1 legacy_records migrated_records legacy_migrates) as (_ & _ & Hsame).
  apply Hsame; [by intros [=]|vm_compute; reflexivity..].
Defined.

Lemma record_roundtrip_witness : decode DebugRecord (flag_record true 9) = Ok true.
Proof.
  apply (record_roundtrip DebugRecord true (Some 9) (flag_record true 9)).
  - unfold record_specs. set_solver.
  - vm_compute. reflexivity.
Defined.

(** ** Contracts and setup codes *)

Definition toy_authentication : AcsRequestAuthentication :=
  {| contract_id := ACS_CONTRACT_ID; account_locator := bs "aaaa"; signing_key_id := bs "kkkk";
     signature_algorithm := Ed25519; timestamp_epoch_ms := 5; nonce_base64url := bs "nnnn";
     body_sha256 := hex_lower (toy_digest []); signature_base64url := [] |}.
Definition toy_signed : bytes :=
  match signing_bytes toy_authentication AcsGet (bs "/cloud/v1/x") with Ok b => b | Err _ => [] end.

Lemma signing_bytes_bind_witness :
  signing_bytes toy_authentication AcsGet (bs "/cloud/v1/x") = Ok toy_signed ∧ AcsGet = AcsGet ∧ bs "/cloud/v1/x" = bs "/cloud/v1/x".
Proof.
  assert (signing_bytes toy_authentication AcsGet (bs "/cloud/v1/x") = Ok toy_signed) as H by (vm_compute; reflexivity).
  destruct (signing_bytes_bind toy_authentication toy_authentication AcsGet AcsGet _ _ _ H H) as (Hm & Ht & _).
  split; [exact H|]. split; [exact Hm|exact Ht].
Defined.

Definition toy_value : AcsEncryptedValue := from_ciphertext toy_digest hex_lower [x01; x02] [bs "child"].

Lemma authenticated_hash_binds_witness :
  ∃ h, authenticated_hash toy_digest unhex toy_value KindObject (bs "id") = Ok h
    ∧ (bs "id" = bs "id" ∧ ciphertext unhex toy_value = Ok [x01; x02] ∨ collision toy_digest).
Proof.
  eexists. assert (authenticated_hash toy_digest unhex toy_value KindObject (bs "id") = Ok _) as H
    by (vm_compute; reflexivity).
  split; [exact H|].
  assert (sized (bs "id") (child_object_ids toy_value)) as Hs.
  { split; [by vm_compute|]. replace (child_object_ids toy_value) with [bs "child"] by (vm_compute; reflexivity).
    apply Forall_singleton. by vm_compute. }
  destruct (authenticated_hash_binds toy_digest unhex (λ b, length_be_bytes 32 _) toy_value toy_value
              KindObject KindObject (bs "id") (bs "id") _ Hs Hs H H) as [(_ & Hid & _)|Hc]; [left|by right].
  split; [exact Hid|vm_compute; reflexivity].
Defined.

Definition toy_code : DeviceSetupCode :=
  {| ds_root_secret := toy_secret; ds_provider := SetupAerobagCloud (bs "https://aerobag.example/cloud/") toy_locator |}.

Lemma device_setup_code_roundtrip_witness : decode_device_setup_code (encode_device_setup_code toy_code) = Ok toy_code.
Proof.
  apply (@device_setup_code_roundtrip toy_codecs toy_crypto toy_wire unhex_hex hex_graphic (λ b, length_be_bytes 32 _))
    with (base_url := bs "https://aerobag.example/cloud/") (locator := toy_locator).
  - intros w _. cbn. by rewrite of_bits_bits; cbn; rewrite decode_encode.
  - intros w _. cbn. by destruct (countable.encode w).
  - reflexivity.
  - reflexivity.
  - reflexivity.
  - vm_compute. reflexivity.
  - vm_compute. discriminate.
Defined.

(** ** The engine *)

(** The request for the first root is in flight. *)
Definition publishing : CloudEngine := (run toy_take committing).2.
Lemma publishing_reachable : reachable CURRENT publishing.
Proof. apply reach_step; [apply committing_reachable|exact I]. Qed.

Lemma publishing_request : ∃ rq r, provider_request_in_flight publishing = Some rq ∧ pr_operation rq = AcsCompareAndSwapRoot r.
Proof.
  assert (match provider_request_in_flight publishing with
          | Some rq => match pr_operation rq with AcsCompareAndSwapRoot _ => true | _ => false end
          | None => false
          end = true) as H by (vm_compute; reflexivity).
  destruct (provider_request_in_flight publishing) as [rq|]; [|done].
  destruct (pr_operation rq) as [| | | | |r|] eqn:Hr; try done. by exists rq, r.
Qed.

Lemma publishing_taken : ∃ http, take_provider_request toy_rand 20 committing = (Ok (Some http), publishing).
Proof.
  assert (match (take_provider_request toy_rand 20 committing).1 with Ok (Some _) => true | _ => false end = true) as H
    by (vm_compute; reflexivity).
  unfold publishing, toy_take. cbn [run]. rewrite discard_state.
  destruct (take_provider_request toy_rand 20 committing) as [[[http|]|x] e']; [by exists http|done..].
Qed.

Lemma publishing_pending :
  FLIGHT_PLAN_RECORD_KEY ∈ pending_keys (recs publishing) ∧ ∃ l, cached (recs publishing) !! FLIGHT_PLAN_RECORD_KEY = Some l.
Proof.
  split; [apply (bool_decide_eq_true (FLIGHT_PLAN_RECORD_KEY ∈ pending_keys (recs publishing))); vm_compute; reflexivity|].
  assert (is_some (cached (recs publishing) !! FLIGHT_PLAN_RECORD_KEY) = true) as H by (vm_compute; reflexivity).
  destruct (cached (recs publishing) !! FLIGHT_PLAN_RECORD_KEY) as [l|]; [by exists l|done].
Qed.


Lemma cloud_response_fits_witness :
  ∃ w rq, p_workflow (persistent publishing) = Some w ∧ response_fits w (parse_response rq (toy_reply publishing)).
Proof.
  destruct publishing_request as (rq & r & Hrq & _).
  destruct (cloud_response_fits CURRENT publishing rq (toy_reply publishing) plain_CURRENT publishing_reachable Hrq)
    as (w & Hw & _ & Hfits).
  exists w, rq. split; [exact Hw|exact Hfits].
Defined.

Lemma cloud_never_panics_witness :
  (run (toy_answer publishing) publishing).1 ≠ Err (Panic "root read before page").
Proof.
  apply (cloud_never_panics CURRENT publishing (toy_answer publishing) _ plain_CURRENT publishing_reachable). exact I.
Defined.

Lemma cloud_no_lost_edit_witness :
  ∃ l, cached (recs publishing) !! FLIGHT_PLAN_RECORD_KEY = Some l ∧
  let e' := (run (toy_answer publishing) publishing).2 in
  ((FLIGHT_PLAN_RECORD_KEY ∈ pending_keys (recs e')
    ∧ (is_edit (toy_answer publishing) = false → cached (recs e') !! FLIGHT_PLAN_RECORD_KEY = Some l))
   ∨ ∃ response, answer_of (toy_answer publishing) publishing = Some response
       ∧ (was_published publishing response ∨ was_superseded FLIGHT_PLAN_RECORD_KEY l publishing response e')).
Proof.
  destruct publishing_pending as (Hk & l & Hl). exists l. split; [exact Hl|].
  apply (cloud_no_lost_edit CURRENT publishing (toy_answer publishing) FLIGHT_PLAN_RECORD_KEY l plain_CURRENT
           publishing_reachable); [vm_compute; reflexivity|reflexivity|exact Hk|exact Hl].
Defined.

(** The answer publishes the change: nothing is pending afterwards and the root is known. *)
Example publishing_completes :
  let e := (run (toy_answer publishing) publishing).2 in
  bool_decide (pending_keys (recs e) = ∅) && is_some (observed_root e) && is_none (p_last_provider_failure (persistent e)) = true.
Proof. vm_compute. reflexivity. Qed.

Lemma local_edit_recorded_witness :
  ∃ b e', @record_local_value _ DebugRecord bool_eq_dec flag_key true 9 fresh = (Ok b, e')
    ∧ cached_value DebugRecord e' flag_key = Ok (Some true).
Proof.
  assert (match (@record_local_value _ DebugRecord bool_eq_dec flag_key true 9 fresh).1 with Ok _ => true | Err _ => false end = true)
    as H by (vm_compute; reflexivity).
  destruct (@record_local_value _ DebugRecord bool_eq_dec flag_key true 9 fresh) as [[b|x] e'] eqn:Hrun; [|done].
  exists b, e'. split; [reflexivity|].
  apply (local_edit_recorded DebugRecord flag_key true 9 fresh b e'); [unfold record_specs; set_solver|exact Hrun].
Defined.
