(* ===== verification/AcsLimits.v ===== *)
(** * Token buckets and rolling counters of the cloud server (aerobag-cloud-server/src/store.rs)

    The limiter every request passes: a bucket holds at most its capacity in quanta (tokens
    times the refill period), refills with the time that passed and is asked for so many
    tokens; and the per-minute counters of account creation. *)

From stdpp Require Import base list.
From S2P Require Import Prelude CloudRecords.

Local Open Scope Z_scope.

Definition RATE_WINDOW_MS : Z := 60000.
Definition DAY_MS : Z := 24 * 60 * 60 * 1000.

(** ** Token buckets *)

Record TokenBucketConfig := { capacity : Z; refill_amount : Z; refill_period_ms : Z }.

Definition per_minute (cap amount : Z) : TokenBucketConfig :=
  {| capacity := cap; refill_amount := amount; refill_period_ms := RATE_WINDOW_MS |}.
Definition per_day (cap amount : Z) : TokenBucketConfig :=
  {| capacity := cap; refill_amount := amount; refill_period_ms := DAY_MS |}.

(** What [validate] complains of. *)
Inductive BucketFault := BucketNotPositive | BucketTooLarge.
Definition bucket_validate (c : TokenBucketConfig) : result BucketFault unit :=
  _ ← guard_err ((capacity c =? 0) || (refill_amount c =? 0) || (refill_period_ms c =? 0)) BucketNotPositive;
  _ ← ok_or (checked_mul u64_max (capacity c) (refill_period_ms c)) BucketTooLarge;
  Ok tt.

Record TokenBucket := { available_quanta : Z; updated_at_epoch_ms : Z; initialized : bool }.
Definition bucket_default : TokenBucket :=
  {| available_quanta := 0; updated_at_epoch_ms := 0; initialized := false |}.

Definition u128_max : Z := 340282366920938463463374607431768211455.

(** The quanta of a full bucket. *)
Definition full_quanta (c : TokenBucketConfig) : Z := capacity c * refill_period_ms c.

(** [now.saturating_sub(then).max(0)] *)
Definition elapsed_since (now_epoch_ms then_epoch_ms : Z) : Z :=
  Z.max (i64_clamp (now_epoch_ms - then_epoch_ms)) 0.

Definition refill (c : TokenBucketConfig) (now_epoch_ms : Z) (b : TokenBucket) : TokenBucket :=
  if negb (initialized b)
  then {| available_quanta := full_quanta c; updated_at_epoch_ms := now_epoch_ms; initialized := true |}
  else let elapsed_ms := elapsed_since now_epoch_ms (updated_at_epoch_ms b) in
       {| available_quanta :=
            Z.min (saturating_add u128_max (available_quanta b) (elapsed_ms * refill_amount c)) (full_quanta c);
          updated_at_epoch_ms := now_epoch_ms; initialized := true |}.

(** [u128::div_ceil] *)
Definition div_ceil (a b : Z) : Z := (a + b - 1) `div` b.

Definition reserve (amount : Z) (c : TokenBucketConfig) (now_epoch_ms : Z) (b : TokenBucket)
    : result Z unit * TokenBucket :=
  let b := refill c now_epoch_ms b in
  let required := amount * refill_period_ms c in
  if available_quanta b <? required
  then let deficit := required - available_quanta b in
       (Err (default u64_max (try_into u64_max (div_ceil deficit (refill_amount c)))), b)
  else (Ok tt, {| available_quanta := available_quanta b - required;
                  updated_at_epoch_ms := updated_at_epoch_ms b; initialized := initialized b |}).

Definition consumed (c : TokenBucketConfig) (now_epoch_ms : Z) (b : TokenBucket) : Z :=
  let current := refill c now_epoch_ms b in
  default u64_max (try_into u64_max ((full_quanta c - available_quanta current) `div` refill_period_ms c)).

Definition is_full (c : TokenBucketConfig) (now_epoch_ms : Z) (b : TokenBucket) : bool :=
  consumed c now_epoch_ms b =? 0.

(** ** Rolling counters of account creation *)

Inductive CreationMetric := MetricAttempt | MetricSuccess | MetricNetworkRate | MetricGlobalRate | MetricOther.
Definition metric_index (m : CreationMetric) : nat :=
  match m with
  | MetricAttempt => 0 | MetricSuccess => 1 | MetricNetworkRate => 2 | MetricGlobalRate => 3 | MetricOther => 4
  end.
Definition CREATION_METRIC_COUNT : nat := 5.

Record CreationMinuteBucket := { cb_minute : Z; cb_counts : list Z }.
(** The deque of [RollingCreationMetrics], oldest bucket first. *)
Definition RollingCreationMetrics : Type := list CreationMinuteBucket.

(** [counts[metric as usize] += 1] of the last bucket. *)
Definition bump (m : CreationMetric) (b : CreationMinuteBucket) : CreationMinuteBucket :=
  {| cb_minute := cb_minute b; cb_counts := alter (λ n, n + 1) (metric_index m) (cb_counts b) |}.

(** The bucket of this minute is at the back. *)
Definition with_minute (minute : Z) (buckets : list CreationMinuteBucket) : list CreationMinuteBucket :=
  if match last buckets with None => true | Some b => negb (cb_minute b =? minute) end
  then buckets ++ [{| cb_minute := minute; cb_counts := replicate CREATION_METRIC_COUNT 0 |}]
  else buckets.

(** Buckets of an hour ago and earlier leave at the front. *)
Fixpoint drop_old (minute : Z) (buckets : list CreationMinuteBucket) : list CreationMinuteBucket :=
  match buckets with
  | b :: rest => if i64_clamp (minute - cb_minute b) >=? 60 then drop_old minute rest else buckets
  | [] => []
  end.

Definition record_metric (m : CreationMetric) (now_epoch_ms : Z) (buckets : list CreationMinuteBucket)
    : list CreationMinuteBucket :=
  let minute := now_epoch_ms `div` 60000 in
  let buckets := with_minute minute buckets in
  drop_old minute (alter (bump m) (pred (length buckets)) buckets).

Definition count_metric (m : CreationMetric) (now_epoch_ms minutes : Z) (buckets : list CreationMinuteBucket) : Z :=
  let current_minute := now_epoch_ms `div` 60000 in
  foldr Z.add 0 ((λ b, default 0 (cb_counts b !! metric_index m)) <$>
    filter (λ b, i64_clamp (current_minute - cb_minute b) < minutes) buckets).

(** ** Proofs *)

(** A configuration that [open] accepts, with values a [u64] can have. *)
Definition bucket_ok (c : TokenBucketConfig) : Prop :=
  0 < capacity c ∧ 0 < refill_amount c ∧ 0 < refill_period_ms c ∧ full_quanta c ≤ u64_max.

Lemma bucket_validate_Ok c u :
  0 ≤ capacity c → 0 ≤ refill_amount c → 0 ≤ refill_period_ms c →
  bucket_validate c = Ok u ↔ bucket_ok c.
Proof.
  intros Hc Ha Hp. unfold bucket_validate, bucket_ok, full_quanta. split.
  - intros H. inv_ok. zbool. repeat split; lia.
  - intros (? & ? & ? & ?). destruct u.
    rewrite !(proj2 (Z.eqb_neq _ 0)) by lia. simpl. unfold checked_mul. rewrite (proj2 (Z.leb_le _ _)) by lia. done.
Qed.

(** A bucket as the code can leave it. *)
Definition bucket_inv (c : TokenBucketConfig) (b : TokenBucket) : Prop :=
  initialized b = true → 0 ≤ available_quanta b ≤ full_quanta c.

Section bucket.
Context (c : TokenBucketConfig) (Hc : bucket_ok c).

Lemma full_quanta_pos : 0 < full_quanta c.
Proof. destruct Hc as (? & ? & ? & ?). unfold full_quanta. nia. Qed.

Lemma elapsed_nonneg now t : 0 ≤ elapsed_since now t.
Proof. unfold elapsed_since. lia. Qed.
(** Times are the milliseconds a clock shows: far from the ends of [i64]. *)
Lemma elapsed_small now t : 0 ≤ t ≤ now → now ≤ i64_max → elapsed_since now t = now - t.
Proof. unfold elapsed_since, i64_clamp, i64_min, i64_max. lia. Qed.

Lemma refill_inv now b : bucket_inv c b → bucket_inv c (refill c now b) ∧ initialized (refill c now b) = true
  ∧ updated_at_epoch_ms (refill c now b) = now.
Proof.
  intros Hb. pose proof full_quanta_pos. destruct Hc as (? & ? & ? & ?).
  unfold refill, bucket_inv in *. destruct (initialized b) eqn:Hi; simpl; repeat split; intros; try lia.
  specialize (Hb eq_refl). pose proof (elapsed_nonneg now (updated_at_epoch_ms b)).
  unfold saturating_add. apply Z.min_glb; [|lia]. apply Z.min_glb; [unfold u128_max; lia|].
  apply Z.add_nonneg_nonneg; [lia|]. apply Z.mul_nonneg_nonneg; lia.
Qed.

Lemma reserve_inv amount now b : 0 ≤ amount → bucket_inv c b → bucket_inv c (reserve amount c now b).2.
Proof.
  intros Ha Hb. destruct (refill_inv now b Hb) as (Hr & Hi & _). destruct Hc as (? & ? & ? & ?).
  unfold reserve. destruct (Z.ltb_spec (available_quanta (refill c now b)) (amount * refill_period_ms c)) as [|Hge];
    [done|].
  unfold bucket_inv in *. simpl. specialize (Hr Hi). intros _. nia.
Qed.

(** What is available after a refill, the clock going forward. *)
Lemma refill_available now b :
  bucket_inv c b → initialized b = true → 0 ≤ updated_at_epoch_ms b ≤ now → now ≤ i64_max →
  available_quanta (refill c now b)
  = Z.min (available_quanta b + (now - updated_at_epoch_ms b) * refill_amount c) (full_quanta c).
Proof.
  intros Hb Hi Ht Hn. unfold refill. rewrite Hi. simpl. rewrite elapsed_small by lia.
  specialize (Hb Hi). destruct Hc as (? & ? & ? & Hu). unfold saturating_add, u128_max, u64_max in *. lia.
Qed.

(** Refilling in two steps is refilling in one. *)
Lemma refill_twice t now b :
  bucket_inv c b → initialized b = true → 0 ≤ updated_at_epoch_ms b ≤ t → t ≤ now → now ≤ i64_max →
  refill c now (refill c t b) = refill c now b.
Proof.
  intros Hb Hi Ht Hn Hm. destruct (refill_inv t b Hb) as (Hb' & Hi' & Hu').
  assert (available_quanta (refill c now (refill c t b)) = available_quanta (refill c now b)) as Ha.
  { rewrite refill_available by (rewrite ?Hu'; auto with lia). rewrite Hu'.
    rewrite refill_available by (auto with lia). rewrite (refill_available now) by (auto with lia).
    destruct Hc as (? & ? & ? & ?).
    replace ((now - updated_at_epoch_ms b) * refill_amount c)
      with ((t - updated_at_epoch_ms b) * refill_amount c + (now - t) * refill_amount c) by ring.
    assert (0 ≤ (now - t) * refill_amount c) by (apply Z.mul_nonneg_nonneg; lia). lia. }
  destruct (refill_inv now (refill c t b) Hb') as (_ & Hi2 & Hu2).
  destruct (refill_inv now b Hb) as (_ & Hi3 & Hu3).
  destruct (refill c now (refill c t b)), (refill c now b). simpl in *. congruence.
Qed.

Lemma div_ceil_spec a b : 0 < b → ∀ n, a ≤ n * b ↔ div_ceil a b ≤ n.
Proof.
  intros Hb n. unfold div_ceil. split; intros H.
  - apply Z.lt_succ_r, Z.div_lt_upper_bound; nia.
  - pose proof (Z.mul_succ_div_gt (a + b - 1) b Hb). nia.
Qed.

Lemma reserve_after amount now b :
  bucket_inv c b → initialized b = true → 0 ≤ updated_at_epoch_ms b ≤ now → now ≤ i64_max →
  (reserve amount c now b).1 = Ok tt ↔
    amount * refill_period_ms c
    ≤ Z.min (available_quanta b + (now - updated_at_epoch_ms b) * refill_amount c) (full_quanta c).
Proof.
  intros Hb Hi Ht Hm. rewrite <- (refill_available now b) by done. unfold reserve.
  destruct (Z.ltb_spec (available_quanta (refill c now b)) (amount * refill_period_ms c)); simpl.
  - split; [done|lia].
  - done.
Qed.

(** A rejected reservation names the wait that is needed: repeated that much later on an
    otherwise unused bucket it succeeds, and at any moment before it is rejected again,
    whether or not the rejected attempt's refill was kept. *)
Theorem retry_after_exact amount now b r b' kept d :
  bucket_inv c b → initialized b = true → 0 ≤ amount ≤ capacity c →
  0 ≤ updated_at_epoch_ms b ≤ now → 0 ≤ d → now + d ≤ i64_max →
  reserve amount c now b = (Err r, b') → kept = b ∨ kept = b' →
  (reserve amount c (now + d) kept).1 = Ok tt ↔ r ≤ d.
Proof.
  intros Hb Hi Ha Ht Hd Hm Hr Hk. destruct (refill_inv now b Hb) as (Hb1 & Hi1 & Hu1).
  assert (b' = refill c now b ∧ available_quanta b' < amount * refill_period_ms c
    ∧ r = Z.min u64_max (div_ceil (amount * refill_period_ms c - available_quanta b') (refill_amount c)))
    as (Hb' & Hlt & Hrv).
  { unfold reserve in Hr.
    destruct (Z.ltb_spec (available_quanta (refill c now b)) (amount * refill_period_ms c)); [|done].
    injection Hr as Hr <-. split; [done|]. split; [done|]. rewrite <- Hr. unfold try_into.
    destruct (Z.leb_spec (div_ceil (amount * refill_period_ms c - available_quanta (refill c now b))
      (refill_amount c)) u64_max); simpl; lia. }
  assert (refill c (now + d) kept = refill c (now + d) b') as Hkept.
  { destruct Hk as [->| ->]; [|done]. subst b'. symmetry. apply refill_twice; auto with lia. }
  assert ((reserve amount c (now + d) kept).1 = (reserve amount c (now + d) b').1) as ->.
  { unfold reserve. by rewrite Hkept. }
  rewrite <- Hb' in Hb1, Hi1, Hu1. rewrite reserve_after by (auto with lia).
  destruct Hc as (? & ? & ? & Hfull). specialize (Hb1 Hi1). rewrite Hu1.
  replace (now + d - now) with d by lia.
  assert (amount * refill_period_ms c ≤ full_quanta c) by (unfold full_quanta; nia).
  pose proof (div_ceil_spec (amount * refill_period_ms c - available_quanta b') (refill_amount c) ltac:(lia)) as Hdc.
  assert (div_ceil (amount * refill_period_ms c - available_quanta b') (refill_amount c) ≤ u64_max).
  { apply Hdc. nia. }
  specialize (Hdc d). rewrite Hrv, (Z.min_r u64_max) by lia. rewrite <- Hdc. lia.
Qed.

(** ** The rate a bucket allows *)

(** Requests for tokens at times, in order; what is admitted. *)
Fixpoint admitted (reqs : list (Z * Z)) (b : TokenBucket) : Z :=
  match reqs with
  | [] => 0
  | (amount, now) :: reqs =>
      let '(r, b) := reserve amount c now b in
      (if is_err r then 0 else amount) + admitted reqs b
  end.

(** How far a clock runs forward over the requests, the steps in which it goes back left
    out; the clock that never goes back, and the time it shows at the end. *)
Fixpoint ran_forward (t : Z) (reqs : list (Z * Z)) : Z :=
  match reqs with [] => 0 | (_, now) :: reqs => Z.max 0 (now - t) + ran_forward now reqs end.
Fixpoint never_back (t : Z) (reqs : list (Z * Z)) : bool :=
  match reqs with [] => true | (_, now) :: reqs => (t <=? now) && never_back now reqs end.
Fixpoint last_time (t : Z) (reqs : list (Z * Z)) : Z :=
  match reqs with [] => t | (_, now) :: reqs => last_time now reqs end.

Lemma ran_forward_monotone t reqs : never_back t reqs = true → ran_forward t reqs = last_time t reqs - t.
Proof.
  revert t. induction reqs as [|[a n] reqs IH]; intros t; simpl; [lia|].
  intros [Hn H]%andb_prop. rewrite IH by done. apply Z.leb_le in Hn. lia.
Qed.

(** A refill adds no more than the time that passed gives, whatever the clock shows. *)
Lemma refill_at_most now b :
  bucket_inv c b → initialized b = true →
  available_quanta (refill c now b)
  ≤ available_quanta b + Z.max 0 (now - updated_at_epoch_ms b) * refill_amount c.
Proof.
  intros Hb Hi. unfold refill. rewrite Hi. simpl. destruct Hc as (? & ? & ? & Hu).
  assert (elapsed_since now (updated_at_epoch_ms b) ≤ Z.max 0 (now - updated_at_epoch_ms b))
    by (unfold elapsed_since, i64_clamp, i64_min, i64_max; lia).
  unfold saturating_add. nia.
Qed.

Lemma admitted_potential reqs b :
  bucket_inv c b → initialized b = true → Forall (λ q, 0 ≤ q.1) reqs →
  admitted reqs b * refill_period_ms c
  ≤ available_quanta b + ran_forward (updated_at_epoch_ms b) reqs * refill_amount c.
Proof.
  revert b. induction reqs as [|[amount now] reqs IH]; intros b Hb Hi Hf; cbn [admitted ran_forward].
  { specialize (Hb Hi). lia. }
  apply Forall_cons in Hf as [Ha Hf]. simpl in Ha.
  pose proof (reserve_inv amount now b Ha Hb) as Hb2.
  pose proof (refill_at_most now b Hb Hi) as Hav.
  destruct (refill_inv now b Hb) as (_ & Hi1 & Hu1).
  destruct (reserve amount c now b) as [r b2] eqn:Hr. simpl in Hb2.
  assert (initialized b2 = true ∧ updated_at_epoch_ms b2 = now ∧
    available_quanta b2 + (if is_err r then 0 else amount) * refill_period_ms c = available_quanta (refill c now b))
    as (Hi2 & Hu2 & Hq).
  { unfold reserve in Hr.
    destruct (available_quanta (refill c now b) <? amount * refill_period_ms c); injection Hr as <- <-; simpl;
      repeat split; auto; lia. }
  specialize (IH b2 Hb2 Hi2 Hf). rewrite Hu2 in IH. destruct Hc as (? & ? & ? & ?). nia.
Qed.

(** C37: from a fresh bucket on, whatever the clock shows, what is admitted stays within the
    capacity and what was refilled while the clock ran forward; for a clock that never goes
    back that is the time since the first request, so no burst exceeds the capacity and the
    sustained rate is the refill rate. Where the clock goes back, the time it then runs
    through again counts again. *)
Theorem bucket_rate amount now reqs :
  Forall (λ q, 0 ≤ q.1) ((amount, now) :: reqs) →
  admitted ((amount, now) :: reqs) bucket_default * refill_period_ms c
  ≤ full_quanta c + ran_forward now reqs * refill_amount c
  ∧ (never_back now reqs = true → ran_forward now reqs = last_time now reqs - now).
Proof.
  intros Hf. split; [|apply ran_forward_monotone].
  set (b0 := {| available_quanta := full_quanta c; updated_at_epoch_ms := now; initialized := true |}).
  assert (reserve amount c now bucket_default = reserve amount c now b0) as Heq.
  { unfold reserve. cut (refill c now bucket_default = refill c now b0); [by intros ->|].
    assert (full_quanta c ≤ u64_max) by apply Hc. pose proof full_quanta_pos.
    unfold refill, b0. simpl. f_equal. unfold elapsed_since, i64_clamp, i64_min, i64_max, saturating_add, u128_max, u64_max in *.
    rewrite Z.sub_diag. simpl. lia. }
  assert (admitted ((amount, now) :: reqs) bucket_default = admitted ((amount, now) :: reqs) b0) as ->
    by (cbn [admitted]; by rewrite Heq).
  pose proof full_quanta_pos.
  transitivity (full_quanta c + ran_forward now ((amount, now) :: reqs) * refill_amount c).
  - apply (admitted_potential ((amount, now) :: reqs) b0); [|done|done]. intros _. simpl. lia.
  - simpl. rewrite Z.sub_diag. lia.
Qed.
End bucket.

(** ** Rolling counters *)

(** The events of one kind whose minute satisfies [P], as the buckets count them and as a
    log of the events does. *)
Definition weight (m : CreationMetric) (P : Z → bool) (b : CreationMinuteBucket) : Z :=
  if P (cb_minute b) then default 0 (cb_counts b !! metric_index m) else 0.
Definition total (m : CreationMetric) (P : Z → bool) (l : list CreationMinuteBucket) : Z := foldr Z.add 0 (weight m P <$> l).
Definition logged (m : CreationMetric) (P : Z → bool) (e : CreationMetric * Z) : Z :=
  if bool_decide (metric_index e.1 = metric_index m) && P (e.2 `div` 60000) then 1 else 0.
Definition log_total (m : CreationMetric) (P : Z → bool) (l : list (CreationMetric * Z)) : Z := foldr Z.add 0 (logged m P <$> l).

(** The counters after the events of a log. *)
Definition run_metrics (log : list (CreationMetric * Z)) : list CreationMinuteBucket :=
  foldl (λ l e, record_metric e.1 e.2 l) [] log.

Lemma foldr_add_app (l l' : list Z) : foldr Z.add 0 (l ++ l') = foldr Z.add 0 l + foldr Z.add 0 l'.
Proof. induction l as [|x l IH]; simpl; lia. Qed.
Lemma log_count_app m P l l' : total m P (l ++ l') = total m P l + total m P l'.
Proof. unfold total. by rewrite fmap_app, foldr_add_app. Qed.

Definition full_counts (b : CreationMinuteBucket) : Prop := length (cb_counts b) = CREATION_METRIC_COUNT.

Lemma bump_weight e m P b : full_counts b →
  weight m P (bump e b) = weight m P b + (if bool_decide (metric_index e = metric_index m) && P (cb_minute b) then 1 else 0).
Proof.
  intros Hb. unfold weight, bump. simpl. destruct (P (cb_minute b)); [|by rewrite andb_false_r].
  rewrite andb_true_r. case_bool_decide as He.
  - rewrite He, list_lookup_alter_eq.
    destruct (lookup_lt_is_Some_2 (cb_counts b) (metric_index m)) as [x ->]; [|done].
    rewrite Hb. unfold CREATION_METRIC_COUNT. destruct m; simpl; lia.
  - rewrite list_lookup_alter_ne by done. lia.
Qed.

Lemma drop_old_total m P minute l :
  (∀ z, P z = true → i64_clamp (minute - z) < 60) → total m P (drop_old minute l) = total m P l.
Proof.
  intros HP. induction l as [|b l IH]; simpl; [done|].
  destruct (i64_clamp (minute - cb_minute b) >=? 60) eqn:Hb; [|done].
  rewrite IH. unfold total. cbn [fmap list_fmap foldr]. unfold weight at 2.
  destruct (P (cb_minute b)) eqn:Hp; [|lia]. apply HP in Hp. lia.
Qed.
Lemma drop_old_suffix minute l : ∃ l', l = l' ++ drop_old minute l.
Proof.
  induction l as [|b l [l' IH]]; [by exists []|]. simpl. destruct (_ >=? _); [|by exists []].
  exists (b :: l'). simpl. by f_equal.
Qed.

Lemma with_minute_snoc minute l :
  Forall full_counts l →
  ∃ pre b, with_minute minute l = pre ++ [b] ∧ cb_minute b = minute ∧ Forall full_counts pre ∧ full_counts b
    ∧ (∀ m P, total m P (pre ++ [b]) = total m P l).
Proof.
  intros Hl. unfold with_minute.
  set (new := {| cb_minute := minute; cb_counts := replicate CREATION_METRIC_COUNT 0 |}).
  assert (∃ pre b, l ++ [new] = pre ++ [b] ∧ cb_minute b = minute ∧ Forall full_counts pre ∧ full_counts b
    ∧ (∀ m P, total m P (pre ++ [b]) = total m P l)) as Hnew.
  { exists l, new. do 4 (split; [done|]). intros m P. rewrite log_count_app. unfold total at 2, weight. simpl.
    destruct (P minute); [|lia]. destruct m; simpl; lia. }
  destruct (last l) as [b|] eqn:Hlast; [|done].
  destruct (Z.eqb_spec (cb_minute b) minute) as [Hm|Hm]; [|done]. simpl.
  apply last_Some in Hlast as [pre ->]. apply Forall_app in Hl as [Hpre Hb]. apply Forall_cons in Hb as [Hb _].
  exists pre, b. done.
Qed.

Lemma record_total e t l m P :
  Forall full_counts l → (∀ z, P z = true → i64_clamp (t `div` 60000 - z) < 60) →
  Forall full_counts (record_metric e t l)
  ∧ total m P (record_metric e t l) = total m P l + logged m P (e, t).
Proof.
  intros Hl HP. unfold record_metric.
  destruct (with_minute_snoc (t `div` 60000) l Hl) as (pre & b & -> & Hm & Hpre & Hfull & Ht).
  rewrite length_app. simpl. rewrite Nat.add_1_r. simpl.
  assert (alter (bump e) (length pre) (pre ++ [b]) = pre ++ [bump e b]) as ->.
  { clear. induction pre as [|x pre IH]; [done|]. simpl. f_equal. exact IH. }
  split.
  - destruct (drop_old_suffix (t `div` 60000) (pre ++ [bump e b])) as [l' Hl'].
    assert (Forall full_counts (pre ++ [bump e b])) as HF.
    { apply Forall_app_2; [done|]. constructor; [|constructor]. unfold full_counts, bump. simpl. by rewrite length_alter. }
    rewrite Hl' in HF. by apply Forall_app in HF as [_ HF].
  - rewrite drop_old_total by done. rewrite <- Ht, !log_count_app. unfold total at 2 4. cbn [fmap list_fmap foldr].
    rewrite bump_weight by done. rewrite Hm. unfold logged. simpl. lia.
Qed.

(** The clock of a log goes forward. *)
Fixpoint log_forward (t : Z) (log : list (CreationMetric * Z)) : Prop :=
  match log with [] => True | (_, now) :: log => t ≤ now ∧ log_forward now log end.
Fixpoint log_last (t : Z) (log : list (CreationMetric * Z)) : Z :=
  match log with [] => t | (_, now) :: log => log_last now log end.
Lemma log_forward_last t log : log_forward t log → t ≤ log_last t log.
Proof. revert t. induction log as [|[e n] log IH]; intros t; simpl; [lia|]. intros [? H]. apply IH in H. lia. Qed.

Lemma i64_clamp_mono a b : a ≤ b → i64_clamp a ≤ i64_clamp b.
Proof. unfold i64_clamp. lia. Qed.

Lemma run_metrics_total m P log t l :
  Forall full_counts l → log_forward t log →
  (∀ z, P z = true → i64_clamp (log_last t log `div` 60000 - z) < 60) →
  total m P (foldl (λ l e, record_metric e.1 e.2 l) l log) = total m P l + log_total m P log.
Proof.
  revert t l. induction log as [|[e now] log IH]; intros t l Hl Hf HP; simpl in *; [unfold log_total; simpl; lia|].
  destruct Hf as [Hle Hf]. pose proof (log_forward_last now log Hf) as Hlast.
  destruct (record_total e now l m P Hl) as [Hl' Htot].
  { intros z Hp. specialize (HP z Hp).
    assert (now `div` 60000 ≤ log_last now log `div` 60000) by (apply Z.div_le_mono; lia).
    pose proof (i64_clamp_mono (now `div` 60000 - z) (log_last now log `div` 60000 - z)). lia. }
  rewrite (IH now) by done. rewrite Htot. unfold log_total. rewrite fmap_cons. cbn [foldr]. lia.
Qed.

Lemma count_metric_total m now minutes l :
  count_metric m now minutes l = total m (λ z, i64_clamp (now `div` 60000 - z) <? minutes) l.
Proof.
  unfold count_metric, total. cbv zeta. induction l as [|b l IH]; [done|]. rewrite filter_cons, (fmap_cons (weight _ _)).
  cbn [foldr]. unfold weight at 1.
  case_decide; destruct (Z.ltb_spec (i64_clamp (now `div` 60000 - cb_minute b)) minutes); try lia.
  rewrite fmap_cons. cbn [foldr]. lia.
Qed.

(** The counters are exact: over a window of up to an hour they show the events of the log
    in that window, whatever older buckets were dropped. *)
Theorem count_metric_exact m now minutes log t :
  log_forward t log → log_last t log ≤ now → minutes ≤ 60 →
  count_metric m now minutes (run_metrics log)
  = log_total m (λ minute, i64_clamp (now `div` 60000 - minute) <? minutes) log.
Proof.
  intros Hf Hle Hm. rewrite count_metric_total. unfold run_metrics.
  rewrite (run_metrics_total _ _ log t); [unfold total; simpl; lia|constructor|done|].
  intros z Hz. zbool.
  assert (log_last t log `div` 60000 ≤ now `div` 60000) by (apply Z.div_le_mono; lia).
  pose proof (i64_clamp_mono (log_last t log `div` 60000 - z) (now `div` 60000 - z)). lia.
Qed.
