(* ===== verification/AcsStoreState.v ===== *)
(** * State of the cloud server's store (aerobag-cloud-server/src/store.rs)

    The configuration, the tables of the database, the files of the blob store, the
    counters and limits kept in memory, and the errors of the store. A table whose primary
    key starts with the account is a map of maps. The outside world (statements and file
    operations that fail, free space, random bytes, the file system's clock) is a script
    the operations read from.

    An operation is a function of the state that survives its error. A transaction keeps
    the tables as they were when it began; they come back when it is dropped before it was
    committed. *)

From Stdlib Require Import Strings.Byte.
From stdpp Require Import base gmap list strings.
From S2P Require Import Prelude CloudRecords AcsContracts CloudAcs AcsLimits.

Local Open Scope Z_scope.

(** ** Configuration *)

Record StoreConfig := {
  storage_root : bytes;
  anonymous_quota_bytes : Z; anonymous_object_limit : Z; global_storage_limit_bytes : Z;
  inline_threshold_bytes : Z; event_retention : Z;
  global_operation_bucket : TokenBucketConfig; network_operation_bucket : TokenBucketConfig;
  account_operation_bucket : TokenBucketConfig;
  global_ingress_bucket : TokenBucketConfig; network_ingress_bucket : TokenBucketConfig;
  account_ingress_bucket : TokenBucketConfig;
  global_egress_bucket : TokenBucketConfig; network_egress_bucket : TokenBucketConfig;
  account_egress_bucket : TokenBucketConfig;
  global_sse_limit : Z; account_sse_limit : Z; network_sse_limit : Z;
  creation_network_bucket : TokenBucketConfig; creation_global_bucket : TokenBucketConfig;
  stored_bytes_warning : Z; stored_bytes_critical : Z;
  filesystem_free_bytes_warning : Z; filesystem_free_bytes_critical : Z;
  sse_connections_warning : Z; sse_connections_critical : Z;
  gc_database_pause_ms_warning : Z; gc_database_pause_ms_critical : Z;
  gc_elapsed_ms_warning : Z; gc_elapsed_ms_critical : Z;
  write_resume_headroom_bytes : Z; write_resume_min_filesystem_free_bytes : Z;
  backup_interval_seconds : Z; backup_retained_snapshots : Z;
  backup_age_seconds_warning : Z; backup_age_seconds_critical : Z;
  backup_elapsed_ms_warning : Z; backup_elapsed_ms_critical : Z;
  backup_sqlite_snapshot_ms_warning : Z; backup_sqlite_snapshot_ms_critical : Z;
  backup_wal_growth_bytes_warning : Z; backup_wal_growth_bytes_critical : Z;
  backup_linked_blob_count_warning : Z; backup_linked_blob_count_critical : Z;
  backup_linked_blob_bytes_warning : Z; backup_linked_blob_bytes_critical : Z }.

Definition SCHEMA_VERSION : Z := 3.
Definition CHALLENGE_TTL_MS : Z := 5 * 60 * 1000.
Definition OUTSTANDING_CHALLENGES_PER_NETWORK : Z := 8.
Definition DEFAULT_LIST_LIMIT : Z := 100.
Definition MAX_LIST_LIMIT : Z := 500.
Definition MAX_TRACKED_NETWORK_WINDOWS : nat := 4096.
Definition OBJECT_STORAGE_ACCOUNTING_OVERHEAD_BYTES : Z := 512.
Definition ROOT_STORAGE_ACCOUNTING_OVERHEAD_BYTES : Z := 512.

(** ** Errors *)

#[export] Instance acs_error_code_eq_dec : EqDecision AcsErrorCode.
Proof. solve_decision. Defined.
#[export] Instance acs_rate_limit_gate_eq_dec : EqDecision AcsRateLimitGate.
Proof. solve_decision. Defined.

Record StoreError := {
  code : AcsErrorCode; message : bytes; retry_after_ms : option Z; rate_limit_gate : option AcsRateLimitGate }.

Definition store_error (c : AcsErrorCode) (m : bytes) : StoreError :=
  {| code := c; message := m; retry_after_ms := None; rate_limit_gate := None |}.
Definition internal (m : bytes) : StoreError := store_error Internal m.
Definition sqlite (e : bytes) : StoreError := internal (bs "cloud database failure: " ++ e).
Definition io (context e : bytes) : StoreError := internal (context ++ bs ": " ++ e).

(** ** Modes *)

Inductive AccountMode := ModeNormal | ModeReadOnly | ModeSuspended.
#[export] Instance account_mode_eq_dec : EqDecision AccountMode.
Proof. solve_decision. Defined.

Definition mode_str (m : AccountMode) : bytes :=
  match m with ModeNormal => bs "normal" | ModeReadOnly => bs "read_only" | ModeSuspended => bs "suspended" end.
Definition mode_parse (value : bytes) : result StoreError AccountMode :=
  if bool_decide (value = bs "normal") then Ok ModeNormal
  else if bool_decide (value = bs "read_only") then Ok ModeReadOnly
  else if bool_decide (value = bs "suspended") then Ok ModeSuspended
  else Err (internal (bs "invalid persisted service mode")).

(** ** Tables *)

Record AccountRow := {
  a_signing_key_id : bytes; a_signing_public_key : bytes; a_mode : bytes; a_quota_class : bytes;
  a_quota_bytes : Z; a_object_limit : Z; a_stored_bytes : Z; a_object_count : Z; a_event_sequence : Z;
  a_creation_network_pseudonym : bytes; a_created_at_epoch_ms : Z; a_updated_at_epoch_ms : Z }.
Record RootRow := {
  r_revision : Z; r_root_hash : bytes; r_ciphertext_sha256 : bytes; r_ciphertext_bytes : Z;
  r_ciphertext : bytes; r_children_json : bytes; r_updated_at_epoch_ms : Z }.
Inductive ObjectState := ObjPending | ObjReady.
#[export] Instance object_state_eq_dec : EqDecision ObjectState.
Proof. solve_decision. Defined.
Record ObjectRow := {
  o_authenticated_hash : bytes; o_ciphertext_sha256 : bytes; o_ciphertext_bytes : Z; o_children_json : bytes;
  o_state : ObjectState; o_inline_ciphertext : option bytes; o_blob_storage_key : option bytes;
  o_created_at_epoch_ms : Z }.
Record ChallengeRow := {
  c_network_pseudonym : bytes; c_issued_at_epoch_ms : Z; c_expires_at_epoch_ms : Z; c_used : bool }.
Record EventRow := { e_root_revision : Z; e_root_hash : bytes; e_created_at_epoch_ms : Z }.
Record TicketRow := {
  t_account_locator : bytes; t_network_pseudonym : bytes; t_last_event_sequence : option Z;
  t_expires_at_epoch_ms : Z }.

(** The database. [service_mode] is the row of [service_state]; nonces are kept by account,
    key and nonce. *)
Record Db := {
  metadata : option Z; service_mode : option bytes;
  accounts : gmap bytes AccountRow; roots : gmap bytes RootRow;
  objects : gmap bytes (gmap bytes ObjectRow);
  request_nonces : gmap (bytes * bytes * bytes) Z;
  challenges : gmap bytes ChallengeRow;
  root_events : gmap bytes (gmap Z EventRow);
  sse_tickets : gmap bytes TicketRow;
  durable_token_buckets : gmap bytes (Z * Z);
  operator_audit : list (bytes * bytes * Z) }.

Definition empty_db : Db :=
  {| metadata := None; service_mode := None; accounts := ∅; roots := ∅; objects := ∅; request_nonces := ∅;
     challenges := ∅; root_events := ∅; sse_tickets := ∅; durable_token_buckets := ∅; operator_audit := [] |}.

Definition put_metadata (x : option Z) (d : Db) : Db :=
  {| metadata := x; service_mode := service_mode d; accounts := accounts d; roots := roots d; objects := objects d;
     request_nonces := request_nonces d; challenges := challenges d; root_events := root_events d;
     sse_tickets := sse_tickets d; durable_token_buckets := durable_token_buckets d; operator_audit := operator_audit d |}.
Definition put_service_mode (x : option bytes) (d : Db) : Db :=
  {| metadata := metadata d; service_mode := x; accounts := accounts d; roots := roots d; objects := objects d;
     request_nonces := request_nonces d; challenges := challenges d; root_events := root_events d;
     sse_tickets := sse_tickets d; durable_token_buckets := durable_token_buckets d; operator_audit := operator_audit d |}.
Definition put_accounts (x : gmap bytes AccountRow) (d : Db) : Db :=
  {| metadata := metadata d; service_mode := service_mode d; accounts := x; roots := roots d; objects := objects d;
     request_nonces := request_nonces d; challenges := challenges d; root_events := root_events d;
     sse_tickets := sse_tickets d; durable_token_buckets := durable_token_buckets d; operator_audit := operator_audit d |}.
Definition put_roots (x : gmap bytes RootRow) (d : Db) : Db :=
  {| metadata := metadata d; service_mode := service_mode d; accounts := accounts d; roots := x; objects := objects d;
     request_nonces := request_nonces d; challenges := challenges d; root_events := root_events d;
     sse_tickets := sse_tickets d; durable_token_buckets := durable_token_buckets d; operator_audit := operator_audit d |}.
Definition put_objects (x : gmap bytes (gmap bytes ObjectRow)) (d : Db) : Db :=
  {| metadata := metadata d; service_mode := service_mode d; accounts := accounts d; roots := roots d; objects := x;
     request_nonces := request_nonces d; challenges := challenges d; root_events := root_events d;
     sse_tickets := sse_tickets d; durable_token_buckets := durable_token_buckets d; operator_audit := operator_audit d |}.
Definition put_nonces (x : gmap (bytes * bytes * bytes) Z) (d : Db) : Db :=
  {| metadata := metadata d; service_mode := service_mode d; accounts := accounts d; roots := roots d; objects := objects d;
     request_nonces := x; challenges := challenges d; root_events := root_events d;
     sse_tickets := sse_tickets d; durable_token_buckets := durable_token_buckets d; operator_audit := operator_audit d |}.
Definition put_challenges (x : gmap bytes ChallengeRow) (d : Db) : Db :=
  {| metadata := metadata d; service_mode := service_mode d; accounts := accounts d; roots := roots d; objects := objects d;
     request_nonces := request_nonces d; challenges := x; root_events := root_events d;
     sse_tickets := sse_tickets d; durable_token_buckets := durable_token_buckets d; operator_audit := operator_audit d |}.
Definition put_events (x : gmap bytes (gmap Z EventRow)) (d : Db) : Db :=
  {| metadata := metadata d; service_mode := service_mode d; accounts := accounts d; roots := roots d; objects := objects d;
     request_nonces := request_nonces d; challenges := challenges d; root_events := x;
     sse_tickets := sse_tickets d; durable_token_buckets := durable_token_buckets d; operator_audit := operator_audit d |}.
Definition put_tickets (x : gmap bytes TicketRow) (d : Db) : Db :=
  {| metadata := metadata d; service_mode := service_mode d; accounts := accounts d; roots := roots d; objects := objects d;
     request_nonces := request_nonces d; challenges := challenges d; root_events := root_events d;
     sse_tickets := x; durable_token_buckets := durable_token_buckets d; operator_audit := operator_audit d |}.
Definition put_buckets (x : gmap bytes (Z * Z)) (d : Db) : Db :=
  {| metadata := metadata d; service_mode := service_mode d; accounts := accounts d; roots := roots d; objects := objects d;
     request_nonces := request_nonces d; challenges := challenges d; root_events := root_events d;
     sse_tickets := sse_tickets d; durable_token_buckets := x; operator_audit := operator_audit d |}.
Definition put_audit (x : list (bytes * bytes * Z)) (d : Db) : Db :=
  {| metadata := metadata d; service_mode := service_mode d; accounts := accounts d; roots := roots d; objects := objects d;
     request_nonces := request_nonces d; challenges := challenges d; root_events := root_events d;
     sse_tickets := sse_tickets d; durable_token_buckets := durable_token_buckets d; operator_audit := x |}.

(** Rows of one account. *)
Definition objects_of (account : bytes) (d : Db) : gmap bytes ObjectRow := default ∅ (objects d !! account).
Definition events_of (account : bytes) (d : Db) : gmap Z EventRow := default ∅ (root_events d !! account).
Definition put_objects_of (account : bytes) (rows : gmap bytes ObjectRow) (d : Db) : Db :=
  put_objects (<[account := rows]> (objects d)) d.
Definition put_events_of (account : bytes) (rows : gmap Z EventRow) (d : Db) : Db :=
  put_events (<[account := rows]> (root_events d)) d.

(** ** Counters and limits in memory *)

(** The fields of [OperationCounters]. *)
Inductive Counter :=
| CReads | CCreates | CRootCas | CLists | CIngressBytes | CEgressBytes | CAuthenticationRejections
| CReplayRejections | CQuotaRejections | CRateLimitRejections | CMalformedRejections | CCreationAttempts
| CCreationSuccesses | CCreationRejections | CCreationNetworkRate | CCreationGlobalRate | CCreationOther
| CCreationIdempotent | CCurrentSse | CPeakSse | CGcRuns | CGcLastPause | CGcPeakPause | CGcTotalWork
| CGcLastElapsed | CGcPeakElapsed.
#[export] Instance counter_eq_dec : EqDecision Counter.
Proof. solve_decision. Defined.
Definition OperationCounters : Type := Counter → Z.

Record RuntimeLimits := {
  global_operations : TokenBucket; network_operations : gmap bytes TokenBucket; account_operations : gmap bytes TokenBucket;
  global_ingress_bytes : TokenBucket; network_ingress_bytes : gmap bytes TokenBucket;
  account_ingress_bytes : gmap bytes TokenBucket;
  global_egress_bytes : TokenBucket; network_egress_bytes : gmap bytes TokenBucket;
  account_egress_bytes : gmap bytes TokenBucket;
  account_sse : gmap bytes Z; network_sse : gmap bytes Z }.
Definition limits_default : RuntimeLimits :=
  {| global_operations := bucket_default; network_operations := ∅; account_operations := ∅;
     global_ingress_bytes := bucket_default; network_ingress_bytes := ∅; account_ingress_bytes := ∅;
     global_egress_bytes := bucket_default; network_egress_bytes := ∅; account_egress_bytes := ∅;
     account_sse := ∅; network_sse := ∅ |}.

(** ** Files and the world *)

(** A file of the blob store, under its shard directory and name. *)
Record BlobFile := { f_bytes : bytes; f_modified_epoch_ms : Z }.
Definition FilePath : Type := (bytes * bytes)%type.

(** What the world does next: whether the coming statements and file operations fail (with
    the library's text; a write that fails has written so many bytes), the free space, the
    coming random draws, the time a written file gets, and the time work takes. A script
    that ran out means no more failures. *)
Record World := {
  w_sql : list (option bytes); w_io : list (option (bytes * nat)); w_free : result bytes Z;
  w_random : list (result bytes bytes); w_file_time : Z; w_elapsed : list Z; w_integrity : bytes }.

Record RootEventRecord := { ev_account_locator : bytes; ev_event : AcsSseEvent }.

Record Store := {
  db : Db; saved : option Db; files : gmap FilePath BlobFile;
  limits : RuntimeLimits; counters : OperationCounters; creation_metrics : list CreationMinuteBucket;
  last_durable_read : Z; last_durable_write : Z; events : list RootEventRecord; world : World }.

Definition put_db (x : Db) (s : Store) : Store :=
  {| db := x; saved := saved s; files := files s; limits := limits s; counters := counters s;
     creation_metrics := creation_metrics s; last_durable_read := last_durable_read s;
     last_durable_write := last_durable_write s; events := events s; world := world s |}.
Definition put_saved (x : option Db) (s : Store) : Store :=
  {| db := db s; saved := x; files := files s; limits := limits s; counters := counters s;
     creation_metrics := creation_metrics s; last_durable_read := last_durable_read s;
     last_durable_write := last_durable_write s; events := events s; world := world s |}.
Definition put_files (x : gmap FilePath BlobFile) (s : Store) : Store :=
  {| db := db s; saved := saved s; files := x; limits := limits s; counters := counters s;
     creation_metrics := creation_metrics s; last_durable_read := last_durable_read s;
     last_durable_write := last_durable_write s; events := events s; world := world s |}.
Definition put_limits (x : RuntimeLimits) (s : Store) : Store :=
  {| db := db s; saved := saved s; files := files s; limits := x; counters := counters s;
     creation_metrics := creation_metrics s; last_durable_read := last_durable_read s;
     last_durable_write := last_durable_write s; events := events s; world := world s |}.
Definition put_counters (x : OperationCounters) (s : Store) : Store :=
  {| db := db s; saved := saved s; files := files s; limits := limits s; counters := x;
     creation_metrics := creation_metrics s; last_durable_read := last_durable_read s;
     last_durable_write := last_durable_write s; events := events s; world := world s |}.
Definition put_creation_metrics (x : list CreationMinuteBucket) (s : Store) : Store :=
  {| db := db s; saved := saved s; files := files s; limits := limits s; counters := counters s;
     creation_metrics := x; last_durable_read := last_durable_read s;
     last_durable_write := last_durable_write s; events := events s; world := world s |}.
Definition put_last_read (x : Z) (s : Store) : Store :=
  {| db := db s; saved := saved s; files := files s; limits := limits s; counters := counters s;
     creation_metrics := creation_metrics s; last_durable_read := x;
     last_durable_write := last_durable_write s; events := events s; world := world s |}.
Definition put_last_write (x : Z) (s : Store) : Store :=
  {| db := db s; saved := saved s; files := files s; limits := limits s; counters := counters s;
     creation_metrics := creation_metrics s; last_durable_read := last_durable_read s;
     last_durable_write := x; events := events s; world := world s |}.
Definition put_sent (x : list RootEventRecord) (s : Store) : Store :=
  {| db := db s; saved := saved s; files := files s; limits := limits s; counters := counters s;
     creation_metrics := creation_metrics s; last_durable_read := last_durable_read s;
     last_durable_write := last_durable_write s; events := x; world := world s |}.
Definition put_world (x : World) (s : Store) : Store :=
  {| db := db s; saved := saved s; files := files s; limits := limits s; counters := counters s;
     creation_metrics := creation_metrics s; last_durable_read := last_durable_read s;
     last_durable_write := last_durable_write s; events := events s; world := x |}.

(** ** Operations of the store *)

Abbreviation M := (ST Store StoreError).

Definition gets {A} (f : Store → A) : M A := λ s, (Ok (f s), s).
Definition raise {A} (e : StoreError) : M A := st_err e.
Definition lift {A} (r : result StoreError A) : M A := st_lift r.
Definition modify (f : Store → Store) : M unit := st_modify f.
(** [if cond { return Err(e) }] *)
Definition ensure (ok : bool) (e : StoreError) : M unit := if ok then mret tt else raise e.
(** The result of a call that is examined instead of propagated. *)
Definition catch {A} (m : M A) : M (result StoreError A) := λ s, let '(r, s) := m s in (Ok r, s).
(** [for x in l { body(x)?; }] *)
Fixpoint for_each {A} (body : A → M unit) (l : list A) : M unit :=
  match l with [] => mret tt | x :: l => _ ← body x; for_each body l end.

(** The next entries of the script. *)
Definition pop_sql (w : World) : option bytes * World :=
  match w_sql w with
  | [] => (None, w)
  | e :: l => (e, {| w_sql := l; w_io := w_io w; w_free := w_free w; w_random := w_random w;
                     w_file_time := w_file_time w; w_elapsed := w_elapsed w; w_integrity := w_integrity w |})
  end.
Definition pop_io (w : World) : option (bytes * nat) * World :=
  match w_io w with
  | [] => (None, w)
  | e :: l => (e, {| w_sql := w_sql w; w_io := l; w_free := w_free w; w_random := w_random w;
                     w_file_time := w_file_time w; w_elapsed := w_elapsed w; w_integrity := w_integrity w |})
  end.
Definition pop_random (w : World) : result bytes bytes * World :=
  match w_random w with
  | [] => (Err [], w)
  | e :: l => (e, {| w_sql := w_sql w; w_io := w_io w; w_free := w_free w; w_random := l;
                     w_file_time := w_file_time w; w_elapsed := w_elapsed w; w_integrity := w_integrity w |})
  end.
Definition pop_elapsed (w : World) : Z * World :=
  match w_elapsed w with
  | [] => (0, w)
  | e :: l => (e, {| w_sql := w_sql w; w_io := w_io w; w_free := w_free w; w_random := w_random w;
                     w_file_time := w_file_time w; w_elapsed := l; w_integrity := w_integrity w |})
  end.

(** A statement is executed, or fails with the database's text. *)
Definition statement : M unit := λ s,
  let '(e, w) := pop_sql (world s) in
  (match e with None => Ok tt | Some text => Err (sqlite text) end, put_world w s).
(** [query_row] and [execute]; a row or a parameter that does not convert is an error too. *)
Definition query {A} (f : Db → A) : M A := _ ← statement; gets (λ s, f (db s)).
Definition try_query {A} (f : Db → result bytes A) : M A :=
  _ ← statement; r ← gets (λ s, f (db s)); lift (map_err sqlite r).
Definition execute (f : Db → Db) : M unit := _ ← statement; modify (λ s, put_db (f (db s)) s).
Definition try_execute (f : Db → result bytes Db) : M unit :=
  _ ← statement; r ← gets (λ s, f (db s)); d ← lift (map_err sqlite r); modify (put_db d).

(** A statement that changes rows and returns something of them. *)
Definition execute_returning {A} (f : Db → result bytes (A * Db)) : M A :=
  _ ← statement; r ← gets (λ s, f (db s)); p ← lift (map_err sqlite r); _ ← modify (put_db p.2); mret p.1.

(** [transaction_with_behavior(Immediate)], [commit], and the end of the transaction's
    scope, where it is rolled back unless it was committed. *)
Definition begin_immediate : M unit := _ ← statement; modify (λ s, put_saved (Some (db s)) s).
Definition commit : M unit := _ ← statement; modify (put_saved None).
Definition rollback (s : Store) : Store :=
  match saved s with Some d => put_saved None (put_db d s) | None => s end.
Definition transaction {A} (body : M A) : M A := λ s,
  let '(r, s) := (_ ← begin_immediate; body) s in (r, rollback s).

(** File operations with the error context they report. *)
Definition file_step (context : bytes) : M unit := λ s,
  let '(e, w) := pop_io (world s) in
  (match e with None => Ok tt | Some (text, _) => Err (io context text) end, put_world w s).
Definition random_bytes : M bytes := λ s,
  let '(r, w) := pop_random (world s) in
  (map_err (λ e, internal (bs "secure random generation failed: " ++ e)) r, put_world w s).
Definition measured : M Z := λ s, let '(ms, w) := pop_elapsed (world s) in (Ok ms, put_world w s).

(** ** Reads outside a transaction

    A reader that opens no transaction sees, with each of its statements, the database as it
    is then. Such a read is a program of its statements: other work goes on between them. *)
Inductive Reading (A : Type) :=
| Done (r : result StoreError A)
| Select {B : Type} (q : M B) (k : B → Reading A).
Arguments Done {A} r.
Arguments Select {A B} q k.
#[export] Instance reading_ret : MRet Reading := λ A a, Done (Ok a).
#[export] Instance reading_bind : MBind Reading := λ A B f,
  fix bind m :=
    match m with
    | Done (Ok a) => f a
    | Done (Err e) => Done (Err e)
    | Select q k => Select q (λ b, bind (k b))
    end.
(** One statement. *)
Definition read_one {A} (q : M A) : Reading A := Select q (λ a, mret a).
(** All statements with nothing between them. *)
Fixpoint at_once {A} (rd : Reading A) : M A :=
  match rd with
  | Done r => lift r
  | Select q k => b ← q; at_once (k b)
  end.
(** The next statement. *)
Definition read_on {A} (rd : Reading A) (s : Store) : Reading A * Store :=
  match rd with
  | Done r => (Done r, s)
  | Select q k => match q s with (Ok b, s) => (k b, s) | (Err e, s) => (Done (Err e), s) end
  end.

(** Counters: [fetch_add], [store] and [fetch_max] of an [AtomicU64]. *)
Definition add_counter (c : Counter) (n : Z) : M unit :=
  modify (λ s, put_counters (λ c', if decide (c = c') then wrap64 (counters s c + n) else counters s c') s).
Definition set_counter (c : Counter) (n : Z) : M unit :=
  modify (λ s, put_counters (λ c', if decide (c = c') then n else counters s c') s).
Definition max_counter (c : Counter) (n : Z) : M unit :=
  modify (λ s, put_counters (λ c', if decide (c = c') then Z.max (counters s c) n else counters s c') s).

(** ** Responses (product-contracts/src/aerobag_cloud.rs) *)

Record AcsObjectSummary := {
  sm_object_id : bytes; sm_authenticated_hash : bytes; sm_ciphertext_bytes : Z; sm_created_at_epoch_ms : Z }.
Record AcsListObjectsResponse := {
  lo_contract_id : bytes; lo_objects : list AcsObjectSummary; lo_next_cursor : option bytes;
  lo_total_object_count : Z }.

(** ** What is used of other crates *)

Class ServerLibs := {
  sv_sha256 : bytes → bytes;
  sv_b64_encode : bytes → bytes;
  sv_b64_decode : bytes → option bytes;
  (** HMAC-SHA256 of a key and a text. *)
  sv_hmac : bytes → bytes → bytes;
  (** Ed25519: reading a signature and a public key, and verification. *)
  sv_signature_ok : bytes → bool;
  sv_key_ok : bytes → bool;
  sv_verify : bytes → bytes → bytes → bool;
  (** JSON: lists of child ids both ways, and the size of responses. *)
  children_to_json : list bytes → result bytes bytes;
  children_from_json : bytes → result bytes (list bytes);
  object_json_bytes : AcsObjectSnapshot → result bytes Z;
  root_json_bytes : AcsRootSnapshot → result bytes Z;
  cas_json_bytes : AcsCompareAndSwapRootResponse → result bytes Z;
  list_json_bytes : AcsListObjectsResponse → result bytes Z;
  event_json_bytes : AcsSseEvent → result bytes Z;
  (** Texts of the database library. *)
  text_no_rows : bytes; text_out_of_range : bytes; text_constraint : bytes; text_overflow : bytes;
  (** Texts of the file system for a file that exists already and one that does not. *)
  text_file_exists : bytes; text_file_missing : bytes }.
