(* ===== verification/AcsStore.v ===== *)
(** * Operations of the cloud server's store (aerobag-cloud-server/src/store.rs)

    Admission by token buckets, account creation, create-once objects with their upload in
    two transactions around the write of the blob, the compare-and-swap of an account's
    root, event tickets and the replay of events, the operator's operations, and what is
    repaired when the store is opened. Clock readings are arguments. *)

From Stdlib Require Import Strings.Byte.
From stdpp Require Import base gmap list strings sorting.
From S2P Require Import Prelude Utf8 HadKey CloudRecords AcsContracts CloudAcs AcsLimits AcsStoreState.

Local Open Scope Z_scope.

Definition ACS_SSE_TICKET_TTL_MS : Z := 2 * 60 * 1000.
Definition acs_events_path : bytes := bs "/cloud/v1/events".

Definition enforce_mode (mode : AccountMode) (write : bool) (subject : bytes) : result StoreError unit :=
  match mode with
  | ModeNormal => Ok tt
  | ModeReadOnly => if negb write then Ok tt else Err (store_error ReadOnly (subject ++ bs " is read-only"))
  | ModeSuspended => Err (store_error AccountSuspended (subject ++ bs " is suspended"))
  end.

Definition validate_opaque_id (value : bytes) (label : bytes) : result StoreError unit :=
  if bool_decide (value = []) || (len value >? 128)
     || negb (forallb (λ b, is_ascii_alphanumeric b || bool_decide (b ∈ [x2d; x5f])) value)
  then Err (store_error InvalidRequest (label ++ bs " is invalid"))
  else Ok tt.

Definition object_storage_bytes (object_id : bytes) (ciphertext_bytes : Z) (children_json : bytes) : Z :=
  saturating_add u64_max
    (saturating_add u64_max (saturating_add u64_max ciphertext_bytes (len object_id)) (len children_json))
    OBJECT_STORAGE_ACCOUNTING_OVERHEAD_BYTES.
Definition root_storage_bytes (ciphertext_bytes : Z) (children_json : bytes) : Z :=
  saturating_add u64_max (saturating_add u64_max ciphertext_bytes (len children_json))
    ROOT_STORAGE_ACCOUNTING_OVERHEAD_BYTES.

(** [decrement_scope] *)
Definition decrement_scope (scopes : gmap bytes Z) (scope : bytes) : gmap bytes Z :=
  match scopes !! scope with
  | Some count =>
      let count := saturating_sub count 1 in
      if count =? 0 then delete scope scopes else <[scope := count]> scopes
  | None => scopes
  end.

(** ** Updates of the limits *)

Definition put_operations (g : TokenBucket) (n : gmap bytes TokenBucket) (l : RuntimeLimits) : RuntimeLimits :=
  {| global_operations := g; network_operations := n; account_operations := account_operations l;
     global_ingress_bytes := global_ingress_bytes l; network_ingress_bytes := network_ingress_bytes l;
     account_ingress_bytes := account_ingress_bytes l; global_egress_bytes := global_egress_bytes l;
     network_egress_bytes := network_egress_bytes l; account_egress_bytes := account_egress_bytes l;
     account_sse := account_sse l; network_sse := network_sse l |}.
Definition put_account_operations (a : gmap bytes TokenBucket) (l : RuntimeLimits) : RuntimeLimits :=
  {| global_operations := global_operations l; network_operations := network_operations l; account_operations := a;
     global_ingress_bytes := global_ingress_bytes l; network_ingress_bytes := network_ingress_bytes l;
     account_ingress_bytes := account_ingress_bytes l; global_egress_bytes := global_egress_bytes l;
     network_egress_bytes := network_egress_bytes l; account_egress_bytes := account_egress_bytes l;
     account_sse := account_sse l; network_sse := network_sse l |}.
Definition put_ingress (g : TokenBucket) (n : gmap bytes TokenBucket) (l : RuntimeLimits) : RuntimeLimits :=
  {| global_operations := global_operations l; network_operations := network_operations l;
     account_operations := account_operations l;
     global_ingress_bytes := g; network_ingress_bytes := n;
     account_ingress_bytes := account_ingress_bytes l; global_egress_bytes := global_egress_bytes l;
     network_egress_bytes := network_egress_bytes l; account_egress_bytes := account_egress_bytes l;
     account_sse := account_sse l; network_sse := network_sse l |}.
Definition put_account_ingress (a : gmap bytes TokenBucket) (l : RuntimeLimits) : RuntimeLimits :=
  {| global_operations := global_operations l; network_operations := network_operations l;
     account_operations := account_operations l;
     global_ingress_bytes := global_ingress_bytes l; network_ingress_bytes := network_ingress_bytes l;
     account_ingress_bytes := a; global_egress_bytes := global_egress_bytes l;
     network_egress_bytes := network_egress_bytes l; account_egress_bytes := account_egress_bytes l;
     account_sse := account_sse l; network_sse := network_sse l |}.
Definition put_egress (g : TokenBucket) (n a : gmap bytes TokenBucket) (l : RuntimeLimits) : RuntimeLimits :=
  {| global_operations := global_operations l; network_operations := network_operations l;
     account_operations := account_operations l;
     global_ingress_bytes := global_ingress_bytes l; network_ingress_bytes := network_ingress_bytes l;
     account_ingress_bytes := account_ingress_bytes l; global_egress_bytes := g;
     network_egress_bytes := n; account_egress_bytes := a;
     account_sse := account_sse l; network_sse := network_sse l |}.
Definition put_sse (a n : gmap bytes Z) (l : RuntimeLimits) : RuntimeLimits :=
  {| global_operations := global_operations l; network_operations := network_operations l;
     account_operations := account_operations l;
     global_ingress_bytes := global_ingress_bytes l; network_ingress_bytes := network_ingress_bytes l;
     account_ingress_bytes := account_ingress_bytes l; global_egress_bytes := global_egress_bytes l;
     network_egress_bytes := network_egress_bytes l; account_egress_bytes := account_egress_bytes l;
     account_sse := a; network_sse := n |}.
Definition modify_limits (f : RuntimeLimits → RuntimeLimits) : M unit := modify (λ s, put_limits (f (limits s)) s).

(** ** Admission *)

Section store.
Context `{ServerLibs} (cfg : StoreConfig).

Definition sha256_hex (b : bytes) : bytes := hex_lower (sv_sha256 b).

Definition note_durable_read (now : Z) : M unit := modify (put_last_read now).
Definition note_durable_write (now : Z) : M unit := modify (put_last_write now).

Definition increment_authentication_rejection (replay : bool) : M unit :=
  _ ← add_counter CAuthenticationRejections 1;
  if replay then add_counter CReplayRejections 1 else mret tt.
Definition increment_malformed_rejection : M unit := add_counter CMalformedRejections 1.
Definition record_creation_metric (m : CreationMetric) (now : Z) : M unit :=
  modify (λ s, put_creation_metrics (record_metric m now (creation_metrics s)) s).
Definition record_other_creation_rejection (now : Z) : M unit :=
  _ ← add_counter CCreationRejections 1;
  _ ← add_counter CCreationOther 1;
  record_creation_metric MetricOther now.

Definition rate_limited_error (gate : AcsRateLimitGate) (text : bytes) (retry : Z) : StoreError :=
  {| code := RateLimited; message := text; retry_after_ms := Some retry; rate_limit_gate := Some gate |}.
Definition rate_limited {A} (gate : AcsRateLimitGate) (text : bytes) (retry : Z) : M A :=
  _ ← add_counter CRateLimitRejections 1;
  raise (rate_limited_error gate text retry).

(** Full buckets of other networks are forgotten when too many networks are tracked; if
    there are still too many, an unknown one is not admitted. *)
Definition crowded (network : bytes) (m : gmap bytes TokenBucket) : bool :=
  (MAX_TRACKED_NETWORK_WINDOWS <=? size m)%nat && bool_decide (m !! network = None).
Definition make_room (c : TokenBucketConfig) (network : bytes) (now : Z) (m : gmap bytes TokenBucket)
    : gmap bytes TokenBucket :=
  if crowded network m then filter (λ kv, is_full c now kv.2 = false) m else m.
Definition bucket_of (key : bytes) (m : gmap bytes TokenBucket) : TokenBucket := default bucket_default (m !! key).

Definition check_network_operation (network : bytes) (now : Z) : M unit :=
  l ← gets limits;
  let '(admitted, global) := reserve 1 (global_operation_bucket cfg) now (global_operations l) in
  match admitted with
  | Err retry => rate_limited GlobalOperations (bs "global cloud request rate is exceeded") retry
  | Ok _ =>
      let networks := make_room (network_operation_bucket cfg) network now (network_operations l) in
      _ ← modify_limits (λ l, put_operations (global_operations l) networks l);
      if crowded network networks
      then rate_limited NetworkOperations (bs "too many distinct source networks") RATE_WINDOW_MS
      else
        let '(admitted, bucket) := reserve 1 (network_operation_bucket cfg) now (bucket_of network networks) in
        match admitted with
        | Err retry => rate_limited NetworkOperations (bs "source network request rate is exceeded") retry
        | Ok _ => modify_limits (put_operations global (<[network := bucket]> networks))
        end
  end.

Definition check_account_operation (account : bytes) (now : Z) : M unit :=
  l ← gets limits;
  let '(admitted, bucket) := reserve 1 (account_operation_bucket cfg) now (bucket_of account (account_operations l)) in
  _ ← modify_limits (put_account_operations (<[account := bucket]> (account_operations l)));
  match admitted with
  | Err retry => rate_limited AccountOperations (bs "cloud account request rate is exceeded") retry
  | Ok _ => mret tt
  end.

Definition admit_network_ingress (network : bytes) (size : Z) (now : Z) : M unit :=
  if size =? 0 then mret tt
  else
    l ← gets limits;
    let networks := make_room (network_ingress_bucket cfg) network now (network_ingress_bytes l) in
    _ ← modify_limits (λ l, put_ingress (global_ingress_bytes l) networks l);
    if crowded network networks
    then rate_limited NetworkIngress (bs "too many distinct cloud ingress source networks") RATE_WINDOW_MS
    else
      let '(admitted, global) := reserve size (global_ingress_bucket cfg) now (global_ingress_bytes l) in
      match admitted with
      | Err retry => rate_limited GlobalIngress (bs "global cloud ingress rate is exceeded") retry
      | Ok _ =>
          let '(admitted, bucket) := reserve size (network_ingress_bucket cfg) now (bucket_of network networks) in
          match admitted with
          | Err retry => rate_limited NetworkIngress (bs "source network cloud ingress rate is exceeded") retry
          | Ok _ =>
              _ ← modify_limits (put_ingress global (<[network := bucket]> networks));
              add_counter CIngressBytes size
          end
      end.

Definition admit_account_ingress (account : bytes) (size : Z) (now : Z) : M unit :=
  if size =? 0 then mret tt
  else
    l ← gets limits;
    let '(admitted, bucket) :=
      reserve size (account_ingress_bucket cfg) now (bucket_of account (account_ingress_bytes l)) in
    _ ← modify_limits (put_account_ingress (<[account := bucket]> (account_ingress_bytes l)));
    match admitted with
    | Err retry => rate_limited AccountIngress (bs "cloud account ingress rate is exceeded") retry
    | Ok _ => mret tt
    end.

Definition admit_egress (account network : bytes) (size : Z) (now : Z) : M unit :=
  l ← gets limits;
  let networks := make_room (network_egress_bucket cfg) network now (network_egress_bytes l) in
  _ ← modify_limits (λ l, put_egress (global_egress_bytes l) networks (account_egress_bytes l) l);
  if crowded network networks
  then rate_limited NetworkEgress (bs "too many distinct cloud egress source networks") RATE_WINDOW_MS
  else
    let '(admitted, global) := reserve size (global_egress_bucket cfg) now (global_egress_bytes l) in
    match admitted with
    | Err retry => rate_limited GlobalEgress (bs "global cloud egress rate is exceeded") retry
    | Ok _ =>
        let '(admitted, bucket) := reserve size (network_egress_bucket cfg) now (bucket_of network networks) in
        match admitted with
        | Err retry => rate_limited NetworkEgress (bs "source network cloud egress rate is exceeded") retry
        | Ok _ =>
            let '(admitted, account_bucket) :=
              reserve size (account_egress_bucket cfg) now (bucket_of account (account_egress_bytes l)) in
            match admitted with
            | Err retry => rate_limited AccountEgress (bs "cloud account egress rate is exceeded") retry
            | Ok _ =>
                _ ← modify_limits (put_egress global (<[network := bucket]> networks)
                                     (<[account := account_bucket]> (account_egress_bytes l)));
                add_counter CEgressBytes size
            end
        end
    end.

(** ** Rows and parameters *)

(** Integers of the database have 64 bits and a sign; a [u64] converts when it fits. *)
Definition row_u64 (z : Z) : result bytes Z := if (z <? 0) || (z >? i64_max) then Err text_out_of_range else Ok z.
Definition param_u64 (z : Z) : result bytes Z := if (z <? 0) || (z >? i64_max) then Err text_out_of_range else Ok z.

(** [SELECT mode FROM service_state WHERE singleton = 1] and [UPDATE service_state] *)
Definition select_service_mode : M AccountMode :=
  text ← try_query (λ d, ok_or (service_mode d) text_no_rows);
  lift (mode_parse text).
Definition update_service_mode (m : AccountMode) (d : Db) : Db :=
  put_service_mode ((λ _, mode_str m) <$> service_mode d) d.
(** [UPDATE accounts SET ... WHERE account_locator = ?1] *)
Definition update_account (account : bytes) (f : AccountRow → AccountRow) (d : Db) : Db :=
  put_accounts (alter f account (accounts d)) d.

Definition with_stored (stored count : Z) (a : AccountRow) : AccountRow :=
  {| a_signing_key_id := a_signing_key_id a; a_signing_public_key := a_signing_public_key a; a_mode := a_mode a;
     a_quota_class := a_quota_class a; a_quota_bytes := a_quota_bytes a; a_object_limit := a_object_limit a;
     a_stored_bytes := stored; a_object_count := count; a_event_sequence := a_event_sequence a;
     a_creation_network_pseudonym := a_creation_network_pseudonym a; a_created_at_epoch_ms := a_created_at_epoch_ms a;
     a_updated_at_epoch_ms := a_updated_at_epoch_ms a |}.
Definition with_mode (mode : bytes) (now : Z) (a : AccountRow) : AccountRow :=
  {| a_signing_key_id := a_signing_key_id a; a_signing_public_key := a_signing_public_key a; a_mode := mode;
     a_quota_class := a_quota_class a; a_quota_bytes := a_quota_bytes a; a_object_limit := a_object_limit a;
     a_stored_bytes := a_stored_bytes a; a_object_count := a_object_count a; a_event_sequence := a_event_sequence a;
     a_creation_network_pseudonym := a_creation_network_pseudonym a; a_created_at_epoch_ms := a_created_at_epoch_ms a;
     a_updated_at_epoch_ms := now |}.
Definition with_quota (quota now : Z) (a : AccountRow) : AccountRow :=
  {| a_signing_key_id := a_signing_key_id a; a_signing_public_key := a_signing_public_key a; a_mode := a_mode a;
     a_quota_class := bs "operator"; a_quota_bytes := quota; a_object_limit := a_object_limit a;
     a_stored_bytes := a_stored_bytes a; a_object_count := a_object_count a; a_event_sequence := a_event_sequence a;
     a_creation_network_pseudonym := a_creation_network_pseudonym a; a_created_at_epoch_ms := a_created_at_epoch_ms a;
     a_updated_at_epoch_ms := now |}.
Definition with_event_sequence (seq now : Z) (a : AccountRow) : AccountRow :=
  {| a_signing_key_id := a_signing_key_id a; a_signing_public_key := a_signing_public_key a; a_mode := a_mode a;
     a_quota_class := a_quota_class a; a_quota_bytes := a_quota_bytes a; a_object_limit := a_object_limit a;
     a_stored_bytes := a_stored_bytes a; a_object_count := a_object_count a; a_event_sequence := seq;
     a_creation_network_pseudonym := a_creation_network_pseudonym a; a_created_at_epoch_ms := a_created_at_epoch_ms a;
     a_updated_at_epoch_ms := now |}.

(** [COALESCE(SUM(stored_bytes), 0)]; a sum outside 64 bits is an error of the database. *)
Definition sum_stored (d : Db) : Z := map_fold (λ _ a acc, a_stored_bytes a + acc) 0 (accounts d).
Definition select_sum_stored (d : Db) : result bytes Z :=
  if (sum_stored d >? i64_max) || (sum_stored d <? i64_min) then Err text_overflow else row_u64 (sum_stored d).

Definition available_space : M Z :=
  r ← gets (λ s, w_free (world s)); lift (map_err (io (bs "measure cloud filesystem free space")) r).
Definition random_token : M bytes := b ← random_bytes; mret (sv_b64_encode b).

(** ** Modes *)

Definition ensure_service_writeable : M unit :=
  mode ← select_service_mode; lift (enforce_mode mode true (bs "service")).
Definition select_account_mode (account : bytes) : M AccountMode :=
  row ← query (λ d, a_mode <$> accounts d !! account);
  text ← lift (ok_or row (store_error NotFound (bs "cloud account does not exist")));
  lift (mode_parse text).
Definition account_readable (account : bytes) : Reading unit :=
  service ← read_one select_service_mode;
  _ ← Done (enforce_mode service false (bs "service"));
  mode ← read_one (select_account_mode account);
  Done (enforce_mode mode false (bs "account")).
Definition ensure_account_readable (account : bytes) : M unit := at_once (account_readable account).
Definition ensure_account_writeable (account : bytes) : M unit :=
  _ ← ensure_service_writeable;
  mode ← select_account_mode account;
  lift (enforce_mode mode true (bs "account")).

(** Writes stop before the file system is full. *)
Definition ensure_new_storage_write (now : Z) : M unit :=
  _ ← ensure_service_writeable;
  free ← available_space;
  if free >=? filesystem_free_bytes_critical cfg then mret tt
  else
    _ ← execute (update_service_mode ModeReadOnly);
    _ ← note_durable_write now;
    raise (store_error ReadOnly (bs "cloud service stopped writes before filesystem exhaustion")).

(** ** Account creation *)

Definition issue_creation_challenge (network : bytes) (now : Z) : M AcsCreationChallengeResponse :=
  _ ← ensure_new_storage_write now;
  transaction (
    _ ← ensure_service_writeable;
    _ ← execute (λ d, put_challenges (filter (λ kv, ¬ (c_expires_at_epoch_ms kv.2 < now)) (challenges d)) d);
    outstanding ← query (λ d, Z.of_nat (size
      (filter (λ kv, c_network_pseudonym kv.2 = network ∧ c_used kv.2 = false) (challenges d))));
    if outstanding >=? OUTSTANDING_CHALLENGES_PER_NETWORK
    then _ ← add_counter CRateLimitRejections 1;
         rate_limited OutstandingCreationChallenges (bs "too many outstanding account challenges") 60000
    else
      challenge ← random_token;
      let expires := now + CHALLENGE_TTL_MS in
      _ ← try_execute (λ d,
        match challenges d !! challenge with
        | Some _ => Err text_constraint
        | None => Ok (put_challenges (<[challenge := {| c_network_pseudonym := network; c_issued_at_epoch_ms := now;
                        c_expires_at_epoch_ms := expires; c_used := false |}]> (challenges d)) d)
        end);
      _ ← commit;
      _ ← note_durable_write now;
      mret {| cc_contract_id := ACS_CONTRACT_ID; cc_challenge := challenge; cc_expires_at_epoch_ms := expires;
              cc_server_time_epoch_ms := now |}).

Definition reserve_durable_token_bucket (key : bytes) (c : TokenBucketConfig) (now : Z) : M (result Z unit) :=
  persisted ← try_query (λ d,
    match durable_token_buckets d !! key with
    | None => Ok None
    | Some (quanta, updated) => q ← row_u64 quanta; Ok (Some (q, updated))
    end);
  let bucket := match persisted with
                | Some (quanta, updated) =>
                    {| available_quanta := quanta; updated_at_epoch_ms := updated; initialized := true |}
                | None => bucket_default
                end in
  let '(admitted, bucket) := reserve 1 c now bucket in
  match admitted with
  | Err retry => mret (Err retry)
  | Ok _ =>
      quanta ← lift (ok_or (try_into u64_max (available_quanta bucket))
                       (internal (bs "durable token bucket exceeds SQLite range")));
      _ ← try_execute (λ d,
        q ← param_u64 quanta;
        Ok (put_buckets (<[key := (q, updated_at_epoch_ms bucket)]> (durable_token_buckets d)) d));
      mret (Ok tt)
  end.

Definition mark_challenge_used (challenge : bytes) (d : Db) : Db :=
  put_challenges (alter (λ c, {| c_network_pseudonym := c_network_pseudonym c;
     c_issued_at_epoch_ms := c_issued_at_epoch_ms c; c_expires_at_epoch_ms := c_expires_at_epoch_ms c;
     c_used := true |}) challenge (challenges d)) d.

Definition new_account_row (request : AcsCreateAccountRequest) (key network : bytes) (now : Z) : AccountRow :=
  {| a_signing_key_id := ca_signing_key_id request; a_signing_public_key := key; a_mode := bs "normal";
     a_quota_class := bs "anonymous"; a_quota_bytes := anonymous_quota_bytes cfg;
     a_object_limit := anonymous_object_limit cfg; a_stored_bytes := 0; a_object_count := 0; a_event_sequence := 0;
     a_creation_network_pseudonym := network; a_created_at_epoch_ms := now; a_updated_at_epoch_ms := now |}.

Definition account_response (request : AcsCreateAccountRequest) (now : Z) (quota_class : bytes) (quota : Z)
    : AcsCreateAccountResponse :=
  {| ar_contract_id := ACS_CONTRACT_ID; ar_account_locator := ca_account_locator request;
     ar_server_time_epoch_ms := now; ar_quota_class := quota_class; ar_quota_bytes := quota |}.

Definition create_account (request : AcsCreateAccountRequest) (key network : bytes) (now : Z)
    : M AcsCreateAccountResponse :=
  _ ← ensure_new_storage_write now;
  _ ← add_counter CCreationAttempts 1;
  _ ← record_creation_metric MetricAttempt now;
  transaction (
    _ ← ensure_service_writeable;
    challenge ← query (λ d, challenges d !! ca_creation_challenge request);
    match challenge with
    | None =>
        _ ← record_other_creation_rejection now;
        raise (store_error Unauthorized (bs "account challenge is unknown"))
    | Some c =>
        if negb (bool_decide (c_network_pseudonym c = network)) || (c_expires_at_epoch_ms c <? now) || c_used c
        then _ ← record_other_creation_rejection now;
             raise (store_error Unauthorized (bs "account challenge is expired, used, or belongs to another network"))
        else
          existing ← try_query (λ d,
            match accounts d !! ca_account_locator request with
            | None => Ok None
            | Some a => q ← row_u64 (a_quota_bytes a); Ok (Some (a_signing_key_id a, a_signing_public_key a, a_quota_class a, q))
            end);
          match existing with
          | Some (key_id, public_key, quota_class, quota) =>
              if negb (bool_decide (key_id = ca_signing_key_id request)) || negb (bool_decide (public_key = key))
              then _ ← record_other_creation_rejection now;
                   raise (store_error ErrConflict (bs "account locator is already registered to another key"))
              else
                _ ← execute (mark_challenge_used (ca_creation_challenge request));
                _ ← commit;
                _ ← add_counter CCreationIdempotent 1;
                mret (account_response request now quota_class quota)
          | None =>
              admitted ← reserve_durable_token_bucket (bs "account_creation_network:" ++ network)
                           (creation_network_bucket cfg) now;
              match admitted with
              | Err retry =>
                  _ ← add_counter CCreationRejections 1;
                  _ ← add_counter CCreationNetworkRate 1;
                  _ ← add_counter CRateLimitRejections 1;
                  _ ← record_creation_metric MetricNetworkRate now;
                  raise (rate_limited_error AccountCreationNetwork
                           (bs "source network account creation rate is exceeded") retry)
              | Ok _ =>
                  admitted ← reserve_durable_token_bucket (bs "account_creation_global") (creation_global_bucket cfg) now;
                  match admitted with
                  | Err retry =>
                      _ ← add_counter CCreationRejections 1;
                      _ ← add_counter CCreationGlobalRate 1;
                      _ ← add_counter CRateLimitRejections 1;
                      _ ← record_creation_metric MetricGlobalRate now;
                      raise (rate_limited_error AccountCreationGlobal (bs "global account creation rate is exceeded") retry)
                  | Ok _ =>
                      _ ← try_execute (λ d,
                        _ ← param_u64 (anonymous_quota_bytes cfg);
                        _ ← param_u64 (anonymous_object_limit cfg);
                        match accounts d !! ca_account_locator request with
                        | Some _ => Err text_constraint
                        | None => Ok (put_accounts (<[ca_account_locator request := new_account_row request key network now]>
                                                      (accounts d)) d)
                        end);
                      _ ← execute (mark_challenge_used (ca_creation_challenge request));
                      _ ← commit;
                      _ ← add_counter CCreationSuccesses 1;
                      _ ← record_creation_metric MetricSuccess now;
                      _ ← note_durable_write now;
                      mret (account_response request now (bs "anonymous") (anonymous_quota_bytes cfg))
                  end
              end
          end
    end).

(** ** Authentication *)

Record AccountAuthentication := { au_signing_key_id : bytes; au_signing_public_key : bytes }.

Definition account_authentication (account : bytes) (write : bool) : M AccountAuthentication :=
  service ← select_service_mode;
  _ ← lift (enforce_mode service write (bs "service"));
  row ← query (λ d, accounts d !! account);
  a ← lift (ok_or row (store_error NotFound (bs "cloud account does not exist")));
  mode ← lift (mode_parse (a_mode a));
  _ ← lift (enforce_mode mode write (bs "account"));
  _ ← ensure (len (a_signing_public_key a) =? 32) (internal (bs "stored signing public key has wrong size"));
  mret {| au_signing_key_id := a_signing_key_id a; au_signing_public_key := a_signing_public_key a |}.

Definition consume_nonce (account key_id nonce : bytes) (expires now : Z) : M unit :=
  _ ← execute (λ d, put_nonces (filter (λ kv, ¬ (kv.2 < now)) (request_nonces d)) d);
  inserted ← execute_returning (λ d,
    match request_nonces d !! (account, key_id, nonce) with
    | Some _ => Ok (0, d)
    | None => Ok (1, put_nonces (<[(account, key_id, nonce) := expires]> (request_nonces d)) d)
    end);
  if inserted =? 0
  then _ ← increment_authentication_rejection true;
       raise (store_error ReplayDetected (bs "request nonce was already used"))
  else mret tt.

(** ** Storage accounting *)

(** [reserve_account_usage]: the quota of the account, then the ceiling of the service. *)
Definition quota_exceeded : StoreError := store_error QuotaExceeded (bs "cloud account storage quota is exceeded").
Definition ceiling_reached : StoreError := store_error ReadOnly (bs "cloud service storage ceiling is reached").

Definition reserve_account_usage (account : bytes) (size global_limit : Z) : M unit :=
  row ← try_query (λ d,
    a ← ok_or (accounts d !! account) text_no_rows;
    stored ← row_u64 (a_stored_bytes a); count ← row_u64 (a_object_count a);
    quota ← row_u64 (a_quota_bytes a); limit ← row_u64 (a_object_limit a);
    Ok (stored, count, quota, limit));
  let '(stored, count, quota, limit) := row in
  if (saturating_add u64_max stored size >? quota) || (saturating_add u64_max count 1 >? limit)
  then raise quota_exceeded
  else
    total ← try_query select_sum_stored;
    if saturating_add u64_max total size >? global_limit then raise ceiling_reached
    else try_execute (λ d,
      n ← param_u64 size;
      Ok (update_account account (λ a, with_stored (a_stored_bytes a + n) (a_object_count a + 1) a) d)).

Definition replace_account_root_usage (account : bytes) (previous replacement global_limit : Z) : M unit :=
  row ← try_query (λ d,
    a ← ok_or (accounts d !! account) text_no_rows;
    stored ← row_u64 (a_stored_bytes a); quota ← row_u64 (a_quota_bytes a); Ok (stored, quota));
  let '(stored, quota) := row in
  let replacement_total := saturating_add u64_max (saturating_sub stored previous) replacement in
  if replacement_total >? quota then raise quota_exceeded
  else
    total ← try_query select_sum_stored;
    if saturating_add u64_max (saturating_sub total previous) replacement >? global_limit then raise ceiling_reached
    else try_execute (λ d,
      n ← param_u64 replacement_total;
      Ok (update_account account (λ a, with_stored n (a_object_count a) a) d)).

Definition release_account_usage (account : bytes) (size count : Z) : M unit :=
  try_execute (λ d,
    n ← param_u64 size; k ← param_u64 count;
    Ok (update_account account
          (λ a, with_stored (Z.max (a_stored_bytes a - n) 0) (Z.max (a_object_count a - k) 0) a) d)).

(** A write the storage limits refuse: the quota is counted; the ceiling makes the service
    read-only, which is committed. *)
Definition refuse_usage {A} (error : StoreError) (now : Z) : M A :=
  _ ← (if bool_decide (code error = QuotaExceeded) then add_counter CQuotaRejections 1 else mret tt);
  _ ← (if bool_decide (code error = ReadOnly)
       then _ ← execute (update_service_mode ModeReadOnly);
            _ ← commit;
            note_durable_write now
       else mret tt);
  raise error.

(** [ensure_children_exist] *)
Definition ready_ids (account : bytes) (d : Db) : gset bytes :=
  dom (filter (λ kv, o_state kv.2 = ObjReady) (objects_of account d)).
Definition ensure_children_exist (account : bytes) (children : list bytes) : M unit :=
  _ ← for_each (λ child, lift (validate_opaque_id child (bs "child object ID"))) children;
  if bool_decide (children = []) then mret tt
  else
    existing ← query (ready_ids account);
    for_each (λ child, ensure (bool_decide (child ∈ existing))
      (store_error MissingChildObject (bs "referenced child object " ++ [x22] ++ child ++ [x22] ++ bs " does not exist"))) children.

(** ** Blobs *)

Definition blob_storage_key (account object_id digest : bytes) : bytes :=
  hex_lower (sv_sha256 (bs "aerobag-cloud-blob-v2" ++ [x00] ++ account ++ [x00] ++ object_id ++ [x00] ++ digest)).
(** The shard is the first two characters of the key. *)
Definition blob_path (key : bytes) : FilePath := (take 2 key, key ++ bs ".blob").
Definition temporary_path (key token : bytes) : FilePath :=
  (take 2 key, bs "." ++ key ++ bs "." ++ token ++ bs ".tmp").

Definition put_file (path : FilePath) (content : bytes) : M unit :=
  modify (λ s, put_files (<[path := {| f_bytes := content; f_modified_epoch_ms := w_file_time (world s) |}]> (files s)) s).

(** [write_all]: a failing write leaves a part. *)
Definition write_all (path : FilePath) (content : bytes) : M unit := λ s,
  let '(e, w) := pop_io (world s) in
  match e with
  | None => put_file path content (put_world w s)
  | Some (text, n) =>
      (Err (io (bs "write temporary blob") text), (put_file path (take n content) (put_world w s)).2)
  end.

Definition write_blob (key content : bytes) : M unit :=
  let path := blob_path key in
  _ ← file_step (bs "create blob shard");
  existing ← gets (λ s, files s !! path);
  match existing with
  | Some file =>
      _ ← file_step (bs "read existing blob");
      ensure (bool_decide (f_bytes file = content)) (internal (bs "blob storage key collision"))
  | None =>
      token ← random_token;
      let temporary := temporary_path key token in
      _ ← file_step (bs "create temporary blob");
      taken ← gets (λ s, files s !! temporary);
      _ ← ensure (bool_decide (taken = None)) (io (bs "create temporary blob") text_file_exists);
      _ ← put_file temporary [];
      _ ← write_all temporary content;
      _ ← file_step (bs "sync temporary blob");
      _ ← file_step (bs "install blob");
      _ ← modify (λ s, put_files (delete temporary (files s)) s);
      _ ← put_file path content;
      file_step (bs "sync blob directory")
  end.

Definition read_file (context : bytes) (path : FilePath) : M bytes :=
  _ ← file_step context;
  file ← gets (λ s, files s !! path);
  lift (ok_or (f_bytes <$> file) (io context text_file_missing)).

Definition read_placed_ciphertext (inline key : option bytes) : M bytes :=
  match inline, key with
  | Some content, None => mret content
  | None, Some key => read_file (bs "read cloud blob") (blob_path key)
  | _, _ => raise (internal (bs "object has invalid storage placement"))
  end.

(** ** Objects *)

Definition invalid (e : string) : StoreError := store_error InvalidRequest (bs e).

(** What is left to do for an object after its row was written. *)
Inductive CreateProgress :=
| AlreadyThere
| StoredInline
| Uploading (key content : bytes) (storage_bytes : Z).

Definition object_row (value : AcsEncryptedValue) (hash : bytes) (content children_json : bytes) (now : Z)
    (place : option bytes) : ObjectRow :=
  {| o_authenticated_hash := hash; o_ciphertext_sha256 := ciphertext_sha256 value; o_ciphertext_bytes := len content;
     o_children_json := children_json;
     o_state := match place with None => ObjReady | Some _ => ObjPending end;
     o_inline_ciphertext := match place with None => Some content | Some _ => None end;
     o_blob_storage_key := place; o_created_at_epoch_ms := now |}.

(** [INSERT INTO objects]; the account is a foreign key. *)
Definition insert_object (account object_id : bytes) (row : ObjectRow) (d : Db) : result bytes Db :=
  match accounts d !! account, objects_of account d !! object_id with
  | Some _, None => Ok (put_objects_of account (<[object_id := row]> (objects_of account d)) d)
  | _, _ => Err text_constraint
  end.

(** The transaction of [create_object]. *)
Definition create_object_row (account object_id : bytes) (value : AcsEncryptedValue) (now : Z) : M CreateProgress :=
  _ ← ensure_new_storage_write now;
  _ ← lift (map_err invalid (validate_value sv_sha256 sv_b64_decode value));
  _ ← lift (validate_opaque_id object_id (bs "object ID"));
  content ← lift (map_err invalid (ciphertext sv_b64_decode value));
  children_json ← lift (map_err (λ e, internal (bs "encode object children: " ++ e))
                          (children_to_json (child_object_ids value)));
  let storage_bytes := object_storage_bytes object_id (len content) children_json in
  hash ← lift (map_err invalid (authenticated_hash sv_sha256 sv_b64_decode value KindObject object_id));
  transaction (
    _ ← ensure_account_writeable account;
    existing ← query (λ d, o_authenticated_hash <$> objects_of account d !! object_id);
    match existing with
    | Some existing_hash =>
        if bool_decide (existing_hash = hash) then mret AlreadyThere
        else raise (store_error ObjectIdCollision (bs "object ID already contains different authenticated data"))
    | None =>
        _ ← ensure_children_exist account (child_object_ids value);
        reserved ← catch (reserve_account_usage account storage_bytes (global_storage_limit_bytes cfg));
        match reserved with
        | Err error => refuse_usage error now
        | Ok _ =>
            if len content <=? inline_threshold_bytes cfg
            then
              _ ← try_execute (insert_object account object_id (object_row value hash content children_json now None));
              _ ← commit;
              mret StoredInline
            else
              let key := blob_storage_key account object_id (ciphertext_sha256 value) in
              _ ← try_execute (insert_object account object_id (object_row value hash content children_json now (Some key)));
              _ ← commit;
              mret (Uploading key content storage_bytes)
        end
    end).

(** [UPDATE objects SET state = 'ready' ... AND state = 'pending'] and
    [DELETE FROM objects ... AND state = 'pending'] *)
Definition with_ready (o : ObjectRow) : ObjectRow :=
  {| o_authenticated_hash := o_authenticated_hash o; o_ciphertext_sha256 := o_ciphertext_sha256 o;
     o_ciphertext_bytes := o_ciphertext_bytes o; o_children_json := o_children_json o; o_state := ObjReady;
     o_inline_ciphertext := o_inline_ciphertext o; o_blob_storage_key := o_blob_storage_key o;
     o_created_at_epoch_ms := o_created_at_epoch_ms o |}.
Definition make_ready (account object_id : bytes) (d : Db) : Db :=
  match objects_of account d !! object_id with
  | Some o => if bool_decide (o_state o = ObjPending)
              then put_objects_of account (<[object_id := with_ready o]> (objects_of account d)) d else d
  | None => d
  end.
Definition delete_pending (account object_id : bytes) (d : Db) : Db :=
  match objects_of account d !! object_id with
  | Some o => if bool_decide (o_state o = ObjPending)
              then put_objects_of account (delete object_id (objects_of account d)) d else d
  | None => d
  end.

Definition remove_pending_object (account object_id : bytes) (storage_bytes : Z) : M unit :=
  transaction (
    _ ← execute (delete_pending account object_id);
    _ ← release_account_usage account storage_bytes 1;
    commit).

(** The end of a creation. *)
Definition object_created (now : Z) : M AcsCreateObjectOutcome :=
  _ ← add_counter CCreates 1;
  _ ← note_durable_write now;
  mret OutcomeCreated.

(** After the upload: the object becomes ready, or goes. *)
Definition finish_upload (account object_id : bytes) (storage_bytes now : Z) (written : result StoreError unit)
    : M AcsCreateObjectOutcome :=
  match written with
  | Err error => _ ← remove_pending_object account object_id storage_bytes; raise error
  | Ok _ =>
      _ ← execute (make_ready account object_id);
      object_created now
  end.

Definition create_object (account object_id : bytes) (value : AcsEncryptedValue) (now : Z) : M AcsCreateObjectOutcome :=
  progress ← create_object_row account object_id value now;
  match progress with
  | AlreadyThere => mret OutcomeAlreadyExists
  | StoredInline => object_created now
  | Uploading key content storage_bytes =>
      written ← catch (write_blob key content);
      finish_upload account object_id storage_bytes now written
  end.

Definition corrupt : StoreError := internal (bs "stored object ciphertext is corrupt").

Definition response_bytes {A} (r : result bytes A) : M A :=
  lift (map_err (λ e, internal (bs "encode cloud response: " ++ e)) r).

Definition read_object (account object_id network : bytes) (now now' : Z) : M AcsObjectSnapshot :=
  _ ← lift (validate_opaque_id object_id (bs "object ID"));
  _ ← ensure_account_readable account;
  found ← try_query (λ d,
    match objects_of account d !! object_id with
    | Some o => if bool_decide (o_state o = ObjReady) then size ← row_u64 (o_ciphertext_bytes o); Ok (Some (o, size)) else Ok None
    | None => Ok None
    end);
  row ← lift (ok_or found (store_error NotFound (bs "cloud object does not exist")));
  let '(o, size) := row in
  content ← read_placed_ciphertext (o_inline_ciphertext o) (o_blob_storage_key o);
  _ ← ensure ((len content =? size) && bool_decide (sha256_hex content = o_ciphertext_sha256 o)) corrupt;
  children ← lift (map_err (λ e, internal (bs "decode object children: " ++ e)) (children_from_json (o_children_json o)));
  let snapshot :=
    {| os_object_id := object_id;
       os_value := {| ciphertext_base64url := sv_b64_encode content; ciphertext_sha256 := o_ciphertext_sha256 o;
                      child_object_ids := children |};
       os_created_at_epoch_ms := o_created_at_epoch_ms o |} in
  bytes ← response_bytes (object_json_bytes snapshot);
  _ ← admit_egress account network bytes now;
  _ ← add_counter CReads 1;
  _ ← note_durable_read now';
  mret snapshot.

(** The ready objects of an account after the cursor, in order. *)
Definition objects_after (account cursor : bytes) (d : Db) : list (bytes * ObjectRow) :=
  map_iter (filter (λ kv, o_state kv.2 = ObjReady ∧ bytes_lt cursor kv.1) (objects_of account d)).

Definition summary (kv : bytes * ObjectRow) : result bytes AcsObjectSummary :=
  size ← row_u64 (o_ciphertext_bytes kv.2);
  Ok {| sm_object_id := kv.1; sm_authenticated_hash := o_authenticated_hash kv.2; sm_ciphertext_bytes := size;
        sm_created_at_epoch_ms := o_created_at_epoch_ms kv.2 |}.

Definition list_objects (account : bytes) (cursor : option bytes) (limit : Z) (network : bytes) (now now' : Z)
    : M AcsListObjectsResponse :=
  _ ← ensure (negb (limit >? MAX_LIST_LIMIT)) (store_error InvalidRequest (bs "object list limit exceeds 500"));
  let limit := if limit =? 0 then DEFAULT_LIST_LIMIT else limit in
  _ ← match cursor with
      | Some cursor => lift (validate_opaque_id cursor (bs "object list cursor"))
      | None => mret tt
      end;
  let cursor := default [] cursor in
  _ ← ensure_account_readable account;
  count ← query (λ d, Z.of_nat (size (ready_ids account d)));
  found ← try_query (λ d, try_map summary (take (Z.to_nat (limit + 1)) (objects_after account cursor d)));
  let page := take (Z.to_nat limit) found in
  let response :=
    {| lo_contract_id := ACS_CONTRACT_ID;
       lo_objects := if len found >? limit then page else found;
       lo_next_cursor := if len found >? limit then sm_object_id <$> last page else None;
       lo_total_object_count := count |} in
  bytes ← response_bytes (list_json_bytes response);
  _ ← admit_egress account network bytes now;
  _ ← add_counter CLists 1;
  _ ← note_durable_read now';
  mret response.

(** ** The root *)

Definition root_snapshot (r : RootRow) : result bytes AcsRootSnapshot :=
  children ← children_from_json (r_children_json r);
  revision ← row_u64 (r_revision r);
  Ok {| rs_revision := revision; rs_root_hash := r_root_hash r;
        rs_value := {| ciphertext_base64url := sv_b64_encode (r_ciphertext r);
                       ciphertext_sha256 := r_ciphertext_sha256 r; child_object_ids := children |};
        rs_updated_at_epoch_ms := r_updated_at_epoch_ms r |}.
Definition read_root_row (account : bytes) : M (option AcsRootSnapshot) :=
  try_query (λ d,
    match roots d !! account with
    | None => Ok None
    | Some r => snapshot ← root_snapshot r; Ok (Some snapshot)
    end).

Definition read_root (account network : bytes) (now now' : Z) : M AcsRootSnapshot :=
  _ ← ensure_account_readable account;
  found ← read_root_row account;
  root ← lift (ok_or found (store_error NotFound (bs "cloud account has no root")));
  bytes ← response_bytes (root_json_bytes root);
  _ ← admit_egress account network bytes now;
  _ ← add_counter CReads 1;
  _ ← note_durable_read now';
  mret root.

(** The bytes the root being replaced is charged for. *)
Definition charged_root_bytes (current : option AcsRootSnapshot) : result StoreError Z :=
  match current with
  | None => Ok 0
  | Some root =>
      children_json ← map_err (λ e, internal (bs "encode stored root children: " ++ e))
                        (children_to_json (child_object_ids (rs_value root)));
      content ← map_err (λ e, internal (bs "decode stored root ciphertext: " ++ bs e))
                  (ciphertext sv_b64_decode (rs_value root));
      Ok (root_storage_bytes (len content) children_json)
  end.

Definition root_row (value : AcsEncryptedValue) (revision : Z) (hash content children_json : bytes) (now : Z) : RootRow :=
  {| r_revision := revision; r_root_hash := hash; r_ciphertext_sha256 := ciphertext_sha256 value;
     r_ciphertext_bytes := len content; r_ciphertext := content; r_children_json := children_json;
     r_updated_at_epoch_ms := now |}.

(** [UPDATE accounts SET event_sequence = event_sequence + 1 ... RETURNING event_sequence] *)
Definition next_event_sequence (account : bytes) (now : Z) (d : Db) : result bytes (Z * Db) :=
  match accounts d !! account with
  | None => Err text_no_rows
  | Some a =>
      seq ← row_u64 (a_event_sequence a + 1);
      Ok (seq, update_account account (with_event_sequence seq now) d)
  end.
(** [INSERT INTO root_events] *)
Definition insert_event (account : bytes) (seq revision : Z) (hash : bytes) (now : Z) (d : Db) : result bytes Db :=
  match events_of account d !! seq with
  | Some _ => Err text_constraint
  | None => Ok (put_events_of account (<[seq := {| e_root_revision := revision; e_root_hash := hash;
                  e_created_at_epoch_ms := now |}]> (events_of account d)) d)
  end.
(** [DELETE FROM root_events WHERE account_locator = ?1 AND sequence <= ?2] *)
Definition trim_events (account : bytes) (upto : Z) (d : Db) : Db :=
  put_events_of account (filter (λ kv, ¬ (kv.1 ≤ upto)) (events_of account d)) d.

(** The root, its event and the trimmed history, written in the transaction. *)
Definition write_root (account : bytes) (value : AcsEncryptedValue) (revision : Z) (hash content children_json : bytes)
    (now : Z) : M Z :=
  _ ← try_execute (λ d,
    _ ← param_u64 revision;
    Ok (put_roots (<[account := root_row value revision hash content children_json now]> (roots d)) d));
  seq ← execute_returning (next_event_sequence account now);
  _ ← try_execute (λ d, _ ← param_u64 seq; insert_event account seq revision hash now d);
  _ ← execute (trim_events account (saturating_sub seq (event_retention cfg)));
  mret seq.

Definition compare_and_swap_root (account : bytes) (request : AcsCompareAndSwapRootRequest) (network : bytes) (now : Z)
    : M AcsCompareAndSwapRootResponse :=
  _ ← ensure_new_storage_write now;
  let value := cas_replacement request in
  _ ← lift (map_err invalid (validate_value sv_sha256 sv_b64_decode value));
  hash ← lift (map_err invalid (authenticated_hash sv_sha256 sv_b64_decode value KindRoot ACS_FIXED_ROOT_ID));
  content ← lift (map_err invalid (ciphertext sv_b64_decode value));
  children_json ← lift (map_err (λ e, internal (bs "encode root children: " ++ e))
                          (children_to_json (child_object_ids value)));
  let replacement_bytes := root_storage_bytes (len content) children_json in
  done ← transaction (
    _ ← ensure_account_writeable account;
    current ← read_root_row account;
    let current_revision := match current with Some root => rs_revision root | None => 0 end in
    let current_hash := rs_root_hash <$> current in
    if negb (cas_expected_revision request =? current_revision)
       || negb (bool_decide (cas_expected_root_hash request = current_hash))
    then
      let response := Conflict current_revision current_hash in
      bytes ← response_bytes (cas_json_bytes response);
      _ ← admit_egress account network bytes now;
      mret (response, None)
    else
      _ ← ensure_children_exist account (child_object_ids value);
      previous ← lift (charged_root_bytes current);
      replaced ← catch (replace_account_root_usage account previous replacement_bytes (global_storage_limit_bytes cfg));
      match replaced with
      | Err error => refuse_usage error now
      | Ok _ =>
          let revision := current_revision + 1 in
          seq ← write_root account value revision hash content children_json now;
          written ← read_root_row account;
          root ← lift (ok_or written (internal (bs "committed root disappeared")));
          let response := Committed root in
          bytes ← response_bytes (cas_json_bytes response);
          _ ← admit_egress account network bytes now;
          _ ← commit;
          mret (response, Some (SseRootChanged seq revision hash))
      end);
  match done.2 with
  | None => mret done.1
  | Some event =>
      _ ← add_counter CRootCas 1;
      _ ← note_durable_write now;
      _ ← modify (λ s, put_sent (events s ++ [{| ev_account_locator := account; ev_event := event |}]) s);
      mret done.1
  end.

(** ** Event streams *)

Definition create_sse_ticket (account : bytes) (last_sequence : option Z) (network : bytes) (now : Z)
    : M AcsCreateSseTicketResponse :=
  ticket ← random_token;
  let hash := sha256_hex ticket in
  let expires := now + ACS_SSE_TICKET_TTL_MS in
  _ ← ensure_account_readable account;
  _ ← execute (λ d, put_tickets (filter (λ kv, ¬ (t_expires_at_epoch_ms kv.2 < now)) (sse_tickets d)) d);
  _ ← try_execute (λ d,
    seq ← match last_sequence with Some z => n ← param_u64 z; Ok (Some n) | None => Ok None end;
    match accounts d !! account, sse_tickets d !! hash with
    | Some _, None => Ok (put_tickets (<[hash := {| t_account_locator := account; t_network_pseudonym := network;
                            t_last_event_sequence := seq; t_expires_at_epoch_ms := expires |}]> (sse_tickets d)) d)
    | _, _ => Err text_constraint
    end);
  mret {| tk_contract_id := ACS_CONTRACT_ID; tk_ticket := ticket; tk_expires_at_epoch_ms := expires;
          tk_events_url := acs_events_path ++ bs "?ticket=" ++ ticket |}.

Record ConsumedTicket := { ct_account_locator : bytes; ct_last_event_sequence : option Z }.

Definition consume_sse_ticket (ticket network : bytes) (now : Z) : M ConsumedTicket :=
  let hash := sha256_hex ticket in
  row ← transaction (
    found ← execute_returning (λ d,
      match sse_tickets d !! hash with
      | None => Ok (None, d)
      | Some t =>
          seq ← match t_last_event_sequence t with Some z => n ← row_u64 z; Ok (Some n) | None => Ok None end;
          Ok (Some (t, seq), put_tickets (delete hash (sse_tickets d)) d)
      end);
    row ← lift (ok_or found (store_error Unauthorized (bs "SSE ticket is invalid or already used")));
    _ ← commit;
    mret row);
  let '(t, seq) := row in
  _ ← ensure (bool_decide (t_network_pseudonym t = network) && negb (t_expires_at_epoch_ms t <? now))
        (store_error Unauthorized (bs "SSE ticket is expired or belongs to another network"));
  mret {| ct_account_locator := t_account_locator t; ct_last_event_sequence := seq |}.

(** Event streams read from a pooled connection, without a transaction. *)
Definition select_event_sequence (account : bytes) : M (option Z) :=
  try_query (λ d,
    match accounts d !! account with
    | None => Ok None
    | Some a => seq ← row_u64 (a_event_sequence a); Ok (Some seq)
    end).
Definition current_event_state (account : bytes) : Reading (Z * Z * option bytes) :=
  found ← read_one (select_event_sequence account);
  seq ← Done (ok_or found (store_error NotFound (bs "cloud account does not exist")));
  root ← read_one (read_root_row account);
  mret (seq, match root with Some root => rs_revision root | None => 0 end, rs_root_hash <$> root).

(** The retained events of an account in order. *)
Definition seq_le (p q : Z * EventRow) : Prop := p.1 ≤ q.1.
#[local] Instance seq_le_dec : RelDecision seq_le.
Proof. intros p q. unfold seq_le. apply _. Defined.
Definition events_in_order (m : gmap Z EventRow) : list (Z * EventRow) := merge_sort seq_le (map_to_list m).

(** [SELECT MIN(sequence)], and [... AND sequence <= ?2 ORDER BY sequence DESC LIMIT 1] *)
Definition min_sequence (m : gmap Z EventRow) : option Z := fst <$> head (events_in_order m).
Definition last_event_at (m : gmap Z EventRow) (cursor : Z) : option EventRow :=
  snd <$> last (events_in_order (filter (λ kv, kv.1 ≤ cursor) m)).

Definition select_event_at (account : bytes) (cursor : Z) : M (option (Z * option bytes)) :=
  try_query (λ d,
    _ ← param_u64 cursor;
    match last_event_at (events_of account d) cursor with
    | None => Ok None
    | Some e => rev ← row_u64 (e_root_revision e); Ok (Some (rev, Some (e_root_hash e)))
    end).
Definition event_state_at (account : bytes) (cursor : Z) : Reading (Z * option bytes) :=
  if cursor =? 0 then mret (0, None)
  else
    found ← read_one (select_event_at account cursor);
    Done (ok_or found (store_error ErrConflict (bs "SSE cursor state is no longer retained"))).

Definition event_of_row (kv : Z * EventRow) : result bytes AcsSseEvent :=
  seq ← row_u64 kv.1; rev ← row_u64 (e_root_revision kv.2); Ok (SseRootChanged seq rev (e_root_hash kv.2)).

Definition select_minimum_retained (account : bytes) : M (option Z) :=
  try_query (λ d,
    match min_sequence (events_of account d) with
    | None => Ok None
    | Some z => n ← row_u64 z; Ok (Some n)
    end).
Definition select_later_events (account : bytes) (cursor : Z) : M (list AcsSseEvent) :=
  try_query (λ d,
    _ ← param_u64 cursor;
    try_map event_of_row (events_in_order (filter (λ kv, cursor < kv.1) (events_of account d)))).

Definition initial_sse_events (account : bytes) (cursor : option Z) : Reading (list AcsSseEvent) :=
  _ ← account_readable account;
  state ← current_event_state account;
  let '(seq, revision, hash) := state in
  match cursor with
  | None => mret [SseReady seq revision hash]
  | Some cursor =>
      if cursor >? seq then mret [SseReset seq revision hash]
      else
        minimum ← read_one (select_minimum_retained account);
        if match minimum with
           | Some minimum => (cursor <? minimum) && negb ((cursor =? 0) && (minimum =? 1))
           | None => false
           end
        then mret [SseReset seq revision hash]
        else
          at_cursor ← event_state_at account cursor;
          later ← read_one (select_later_events account cursor);
          mret (SseReady cursor at_cursor.1 at_cursor.2 :: later)
  end.

Definition heartbeat_event (account : bytes) : Reading AcsSseEvent :=
  state ← current_event_state account;
  let '(seq, revision, hash) := state in
  mret (SseHeartbeat seq revision hash).

Definition scope_count (scopes : gmap bytes Z) (scope : bytes) : Z := default 0 (scopes !! scope).

Definition begin_sse_connection (account network : bytes) : M unit :=
  l ← gets limits;
  current ← gets (λ s, counters s CCurrentSse);
  let rejected :=
    if current >=? global_sse_limit cfg then Some GlobalSseConnections
    else if scope_count (account_sse l) account >=? account_sse_limit cfg then Some AccountSseConnections
    else if scope_count (network_sse l) network >=? network_sse_limit cfg then Some NetworkSseConnections
    else None in
  match rejected with
  | Some gate => rate_limited gate (bs "SSE connection limit is exceeded") 30000
  | None =>
      _ ← modify_limits (put_sse (<[account := scope_count (account_sse l) account + 1]> (account_sse l))
                                 (<[network := scope_count (network_sse l) network + 1]> (network_sse l)));
      _ ← add_counter CCurrentSse 1;
      max_counter CPeakSse (current + 1)
  end.

Definition end_sse_connection (account network : bytes) : M unit :=
  _ ← modify_limits (λ l, put_sse (decrement_scope (account_sse l) account) (decrement_scope (network_sse l) network) l);
  add_counter CCurrentSse (-1).

(** ** The operator *)

Definition set_service_mode (mode : AccountMode) (now : Z) : M unit :=
  _ ← execute (update_service_mode mode);
  note_durable_write now.

Record ResumeWritesReport := {
  rw_resumed : bool; rw_forced : bool; rw_stored_bytes : Z; rw_storage_headroom_bytes : Z;
  rw_filesystem_free_bytes : Z }.

Definition resume_refused (text : bytes) : StoreError := internal (bs "write resume refused: " ++ text).

Definition resume_writes_inner (forced : bool) (reason : bytes) (now : Z) : M ResumeWritesReport :=
  mode ← select_service_mode;
  _ ← ensure (negb (bool_decide (mode = ModeSuspended)))
        (internal (bs "suspended service cannot resume writes; set it read-only first"));
  stored ← try_query select_sum_stored;
  let headroom := saturating_sub (global_storage_limit_bytes cfg) stored in
  free ← gets (λ s, default 0 (ok (w_free (world s))));
  _ ← (if negb forced then
         integrity ← (_ ← statement; gets (λ s, w_integrity (world s)));
         _ ← ensure (bool_decide (integrity = bs "ok")) (resume_refused (bs "SQLite integrity check failed: " ++ integrity));
         _ ← ensure (negb (headroom <? write_resume_headroom_bytes cfg))
               (resume_refused (dec headroom ++ bs " bytes of ACS quota headroom is below required "
                                ++ dec (write_resume_headroom_bytes cfg)));
         ensure (negb (free <? write_resume_min_filesystem_free_bytes cfg))
           (resume_refused (dec free ++ bs " filesystem bytes free is below required "
                            ++ dec (write_resume_min_filesystem_free_bytes cfg)))
       else mret tt);
  _ ← execute (update_service_mode ModeNormal);
  _ ← execute (λ d, put_audit (operator_audit d ++
        [(if forced then bs "force_resume_writes" else bs "resume_writes", reason, now)]) d);
  _ ← note_durable_write now;
  mret {| rw_resumed := negb (bool_decide (mode = ModeNormal)); rw_forced := forced; rw_stored_bytes := stored;
          rw_storage_headroom_bytes := headroom; rw_filesystem_free_bytes := free |}.

Definition resume_writes (now : Z) : M ResumeWritesReport :=
  resume_writes_inner false (bs "checked operator write resume") now.
Definition force_resume_writes (reason : bytes) (now : Z) : M ResumeWritesReport :=
  let reason := trim reason in
  _ ← ensure (negb (bool_decide (reason = [])))
        (internal (bs "forced write resume requires a non-empty operator reason"));
  resume_writes_inner true reason now.

Definition set_account_mode (account : bytes) (mode : AccountMode) (now : Z) : M unit :=
  changed ← execute_returning (λ d,
    Ok (if bool_decide (accounts d !! account = None) then 0 else 1,
        update_account account (with_mode (mode_str mode) now) d));
  _ ← ensure (negb (changed =? 0)) (store_error NotFound (bs "cloud account does not exist"));
  note_durable_write now.

Definition set_account_quota (account : bytes) (quota now : Z) : M unit :=
  changed ← execute_returning (λ d,
    q ← param_u64 quota;
    match accounts d !! account with
    | Some a => if a_stored_bytes a <=? q then Ok (1, update_account account (with_quota q now) d) else Ok (0, d)
    | None => Ok (0, d)
    end);
  _ ← ensure (negb (changed =? 0))
        (store_error ErrConflict (bs "account is missing or currently uses more than the requested quota"));
  note_durable_write now.

(** [DELETE FROM accounts], which takes the rows that refer to the account with it. *)
Definition drop_account (account : bytes) (d : Db) : Db :=
  put_tickets (filter (λ kv, t_account_locator kv.2 ≠ account) (sse_tickets d))
    (put_events (delete account (root_events d))
      (put_objects (delete account (objects d))
        (put_roots (delete account (roots d)) (put_accounts (delete account (accounts d)) d)))).
Definition delete_account (account : bytes) : M unit :=
  transaction (
    changed ← execute_returning (λ d,
      if bool_decide (accounts d !! account = None) then Ok (0, d) else Ok (1, drop_account account d));
    _ ← ensure (negb (changed =? 0)) (store_error NotFound (bs "cloud account does not exist"));
    commit).

(** ** Opening the store *)

Definition initialize_schema : M unit :=
  _ ← statement;
  version ← query metadata;
  _ ← match version with
      | None => execute (put_metadata (Some SCHEMA_VERSION))
      | Some v =>
          if (v =? 1) || (v =? 2) then execute (put_metadata (Some SCHEMA_VERSION))
          else ensure (v =? SCHEMA_VERSION) (internal (bs "unsupported ACS database schema " ++ dec v
                                                 ++ bs "; expected " ++ dec SCHEMA_VERSION))
      end;
  _ ← execute (λ d, put_service_mode (Some (default (bs "normal") (service_mode d))) d);
  statement.

(** The rows of all objects. *)
Definition object_rows (d : Db) : list (bytes * bytes * ObjectRow) :=
  '(account, rows) ← map_to_list (objects d);
  '(object_id, o) ← map_to_list rows;
  [(account, object_id, o)].

(** What a row charges its account for, as the rows are read. *)
Definition charge (missing account : bytes) (n : Z) (usage : gmap bytes Z) : result StoreError (gmap bytes Z) :=
  used ← ok_or (usage !! account) (internal missing);
  Ok (<[account := saturating_add u64_max used n]> usage).
Definition charge_object (usage : gmap bytes Z) (row : bytes * bytes * ObjectRow) : result StoreError (gmap bytes Z) :=
  let '(account, object_id, o) := row in
  size ← map_err sqlite (row_u64 (o_ciphertext_bytes o));
  charge (bs "object belongs to a missing account") account (object_storage_bytes object_id size (o_children_json o)) usage.
Definition charge_root (usage : gmap bytes Z) (row : bytes * RootRow) : result StoreError (gmap bytes Z) :=
  size ← map_err sqlite (row_u64 (r_ciphertext_bytes row.2));
  charge (bs "root belongs to a missing account") row.1 (root_storage_bytes size (r_children_json row.2)) usage.
(** Sets what differs. *)
Definition set_stored (kv : bytes * Z) : M unit :=
  try_execute (λ d,
    n ← param_u64 kv.2;
    Ok (update_account kv.1 (λ a, with_stored n (a_object_count a) a) d)).
Definition repair_storage_accounting : M unit :=
  transaction (
    usage ← query (λ d, (λ _, 0) <$> accounts d);
    rows ← query object_rows;
    usage ← lift (try_fold charge_object usage rows);
    rows ← query (λ d, map_to_list (roots d));
    usage ← lift (try_fold charge_root usage rows);
    _ ← for_each set_stored (map_iter usage);
    let total := foldl (saturating_add u64_max) 0 (map_iter usage).*2 in
    _ ← (if total >? global_storage_limit_bytes cfg then execute (update_service_mode ModeReadOnly) else mret tt);
    commit).

(** Uploads that were cut off: the blob is there and right, or the object goes. *)
Record PendingRow := {
  pd_account : bytes; pd_object_id : bytes; pd_sha256 : bytes; pd_bytes : Z; pd_children_json : bytes; pd_key : bytes }.
Definition pending_row (account object_id : bytes) (o : ObjectRow) : result bytes PendingRow :=
  size ← row_u64 (o_ciphertext_bytes o);
  key ← ok_or (o_blob_storage_key o) text_out_of_range;
  Ok {| pd_account := account; pd_object_id := object_id; pd_sha256 := o_ciphertext_sha256 o; pd_bytes := size;
        pd_children_json := o_children_json o; pd_key := key |}.
Definition pending_objects (d : Db) : list (bytes * bytes * ObjectRow) :=
  '(account, rows) ← map_to_list (objects d);
  '(object_id, o) ← map_to_list (filter (λ kv, o_state kv.2 = ObjPending) rows);
  [(account, object_id, o)].

(** [fs::read(path).ok()] *)
Definition try_read (path : FilePath) : M (option bytes) :=
  r ← catch (read_file [] path); mret (ok r).

Definition reconcile_row (row : PendingRow) : M unit :=
  content ← try_read (blob_path (pd_key row));
  if match content with
     | Some b => (len b =? pd_bytes row) && bool_decide (sha256_hex b = pd_sha256 row)
     | None => false
     end
  then execute (make_ready (pd_account row) (pd_object_id row))
  else
    _ ← execute (delete_pending (pd_account row) (pd_object_id row));
    try_execute (λ d,
      n ← param_u64 (object_storage_bytes (pd_object_id row) (pd_bytes row) (pd_children_json row));
      Ok (update_account (pd_account row) (λ a, with_stored (a_stored_bytes a - n) (a_object_count a - 1) a) d)).
Definition reconcile_pending_blobs : M unit :=
  rows ← try_query (λ d, try_map (λ r, pending_row r.1.1 r.1.2 r.2) (pending_objects d));
  for_each reconcile_row rows.

Definition config_buckets : list (bytes * TokenBucketConfig) :=
  [(bs "global operation", global_operation_bucket cfg); (bs "network operation", network_operation_bucket cfg);
   (bs "account operation", account_operation_bucket cfg); (bs "global ingress", global_ingress_bucket cfg);
   (bs "network ingress", network_ingress_bucket cfg); (bs "account ingress", account_ingress_bucket cfg);
   (bs "global egress", global_egress_bucket cfg); (bs "network egress", network_egress_bucket cfg);
   (bs "account egress", account_egress_bucket cfg);
   (bs "network account creation", creation_network_bucket cfg);
   (bs "global account creation", creation_global_bucket cfg)].
Definition bucket_error (label : bytes) (f : BucketFault) : StoreError :=
  internal (label ++ match f with
                     | BucketNotPositive => bs " token bucket values must be positive"
                     | BucketTooLarge => bs " token bucket is too large"
                     end).

(** The store as [open] leaves it: memory is fresh, the database repaired. *)
Definition fresh_memory (s : Store) : Store :=
  {| db := db s; saved := None; files := files s; limits := limits_default; counters := λ _, 0;
     creation_metrics := []; last_durable_read := 0; last_durable_write := 0; events := []; world := world s |}.
Definition open : M unit :=
  _ ← for_each (λ lc, lift (map_err (bucket_error lc.1) (bucket_validate lc.2))) config_buckets;
  _ ← for_each (λ _, file_step (bs "create cloud storage directory")) (replicate 6 tt);
  _ ← statement;
  _ ← statement;
  _ ← initialize_schema;
  _ ← repair_storage_accounting;
  _ ← for_each (λ _, statement) (replicate 24 tt);
  _ ← modify fresh_memory;
  reconcile_pending_blobs.
End store.
