(* ===== verification/AcsGc.v ===== *)
(** * Garbage collection of the cloud server (aerobag-cloud-server/src/store/gc.rs)

    Per account, in one transaction: the objects reachable from the root are marked and
    the others deleted when they are older than the grace period. Then the files of deleted
    objects and old files no row refers to are removed. The phases are separate operations,
    as other requests run between them. *)

From Stdlib Require Import Strings.Byte.
From stdpp Require Import base gmap list strings sorting.
From S2P Require Import Prelude CloudRecords AcsContracts CloudAcs AcsLimits AcsStoreState AcsStore.

Local Open Scope Z_scope.

Record GcReport := {
  marked_objects : Z; deleted_objects : Z; deleted_ciphertext_bytes : Z; deleted_blob_files : Z;
  database_pause_ms : Z; database_work_ms : Z; total_elapsed_ms : Z }.
Definition report_empty : GcReport :=
  {| marked_objects := 0; deleted_objects := 0; deleted_ciphertext_bytes := 0; deleted_blob_files := 0;
     database_pause_ms := 0; database_work_ms := 0; total_elapsed_ms := 0 |}.

Record GcObject := {
  g_children : list bytes; g_storage_bytes : Z; g_ciphertext_bytes : Z; g_blob_storage_key : option bytes;
  g_created_at_epoch_ms : Z }.

Section gc.
Context `{ServerLibs}.

Definition decode_children (json : bytes) : result StoreError (list bytes) :=
  map_err (λ e, internal (bs "decode visible object edges: " ++ e)) (children_from_json json).

(** The rows of the account, read and decoded, in the order of their ids. *)
Definition gc_object (kv : bytes * ObjectRow) : result StoreError (bytes * GcObject) :=
  children ← decode_children (o_children_json kv.2);
  Ok (kv.1, {| g_children := children;
               g_storage_bytes := object_storage_bytes kv.1 (o_ciphertext_bytes kv.2) (o_children_json kv.2);
               g_ciphertext_bytes := o_ciphertext_bytes kv.2; g_blob_storage_key := o_blob_storage_key kv.2;
               g_created_at_epoch_ms := o_created_at_epoch_ms kv.2 |}).
Definition load_object_graph (account : bytes) : M (list (bytes * GcObject)) :=
  rows ← try_query (λ d, try_map (λ kv, _ ← row_u64 (o_ciphertext_bytes kv.2); Ok kv) (map_iter (objects_of account d)));
  lift (try_map gc_object rows).

(** The children of an object, when there is one. *)
Definition children_in (rows : gmap bytes GcObject) (object_id : bytes) : list bytes :=
  match rows !! object_id with Some object => g_children object | None => [] end.

(** [while let Some(object_id) = pending.pop_front()]; each round takes one entry off the
    queue and only a first visit adds any. *)
Fixpoint mark_loop (fuel : nat) (rows : gmap bytes GcObject) (marked : gset bytes) (pending : list bytes)
    : option (gset bytes) :=
  match pending with
  | [] => Some marked
  | object_id :: pending =>
      match fuel with
      | O => None
      | S fuel =>
          if bool_decide (object_id ∈ marked) then mark_loop fuel rows marked pending
          else mark_loop fuel rows ({[object_id]} ∪ marked) (pending ++ children_in rows object_id)
      end
  end.
(** All entries that can come into the queue. *)
Definition edge_count (rows : gmap bytes GcObject) : nat :=
  map_fold (λ _ o n, (length (g_children o) + n)%nat) 0%nat rows.
Definition mark (rows : gmap bytes GcObject) (roots : list bytes) : gset bytes :=
  default ∅ (mark_loop (length roots + edge_count rows) rows ∅ roots).

(** One object of the sweep. *)
Definition sweep_object (account : bytes) (marked : gset bytes) (cutoff : Z) (acc : GcReport * list bytes)
    (kv : bytes * GcObject) : M (GcReport * list bytes) :=
  let '(report, blob_keys) := acc in
  let '(object_id, object) := kv in
  if bool_decide (object_id ∈ marked) || (g_created_at_epoch_ms object >? cutoff) then mret acc
  else
    _ ← execute (λ d, put_objects_of account (delete object_id (objects_of account d)) d);
    _ ← release_account_usage account (g_storage_bytes object) 1;
    mret ({| marked_objects := marked_objects report; deleted_objects := deleted_objects report + 1;
             deleted_ciphertext_bytes := deleted_ciphertext_bytes report + g_ciphertext_bytes object;
             deleted_blob_files := deleted_blob_files report; database_pause_ms := database_pause_ms report;
             database_work_ms := database_work_ms report; total_elapsed_ms := total_elapsed_ms report |},
          match g_blob_storage_key object with Some key => blob_keys ++ [key] | None => blob_keys end).

(** [for x in l { acc = body(acc, x)?; }] *)
Fixpoint fold_m {A B} (body : B → A → M B) (acc : B) (l : list A) : M B :=
  match l with [] => mret acc | x :: l => acc ← body acc x; fold_m body acc l end.

(** The transaction of one account. *)
Definition gc_account (cutoff : Z) (acc : GcReport * list bytes) (account : bytes) : M (GcReport * list bytes) :=
  acc ← transaction (
    rows ← load_object_graph account;
    root_json ← query (λ d, r_children_json <$> roots d !! account);
    root_children ← lift (match root_json with Some json => decode_children json | None => Ok [] end);
    let marked := mark (list_to_map rows) root_children in
    let report := acc.1 in
    let report := {| marked_objects := marked_objects report + Z.of_nat (size marked);
                     deleted_objects := deleted_objects report;
                     deleted_ciphertext_bytes := deleted_ciphertext_bytes report;
                     deleted_blob_files := deleted_blob_files report; database_pause_ms := database_pause_ms report;
                     database_work_ms := database_work_ms report; total_elapsed_ms := total_elapsed_ms report |} in
    acc ← fold_m (sweep_object account marked cutoff) (report, acc.2) rows;
    _ ← commit;
    mret acc);
  ms ← measured;
  let report := acc.1 in
  mret ({| marked_objects := marked_objects report; deleted_objects := deleted_objects report;
           deleted_ciphertext_bytes := deleted_ciphertext_bytes report; deleted_blob_files := deleted_blob_files report;
           database_pause_ms := Z.max (database_pause_ms report) ms;
           database_work_ms := saturating_add u64_max (database_work_ms report) ms;
           total_elapsed_ms := total_elapsed_ms report |}, acc.2).

(** [remove_file_if_present] *)
Definition remove_file_if_present (path : FilePath) : M bool :=
  found ← gets (λ s, files s !! path);
  match found with
  | None => mret false
  | Some _ =>
      _ ← file_step (bs "remove cloud blob");
      _ ← modify (λ s, put_files (delete path (files s)) s);
      mret true
  end.

Definition add_files (n bytes : Z) (report : GcReport) : GcReport :=
  {| marked_objects := marked_objects report; deleted_objects := deleted_objects report;
     deleted_ciphertext_bytes := deleted_ciphertext_bytes report + bytes;
     deleted_blob_files := deleted_blob_files report + n; database_pause_ms := database_pause_ms report;
     database_work_ms := database_work_ms report; total_elapsed_ms := total_elapsed_ms report |}.

(** The files of the deleted objects. *)
Definition remove_deleted (report : GcReport) (key : bytes) : M GcReport :=
  removed ← remove_file_if_present (blob_path key);
  mret (if (removed : bool) then add_files 1 0 report else report).

(** [strip_suffix(".blob")] *)
Definition strip_blob (name : bytes) : option bytes :=
  if (5 <=? len name) && bool_decide (drop (length name - 5) name = bs ".blob")
  then Some (take (length name - 5) name) else None.

Definition referenced_keys (d : Db) : gset bytes :=
  list_to_set ('(_, rows) ← map_to_list (objects d);
               '(_, o) ← map_to_list rows;
               match o_blob_storage_key o with Some key => [key] | None => [] end).

(** Files that no row refers to and that are not recent. *)
Definition remove_orphan (referenced : gset bytes) (cutoff : Z) (report : GcReport) (entry : FilePath * BlobFile)
    : M GcReport :=
  let '(path, file) := entry in
  if match strip_blob path.2 with Some key => bool_decide (key ∈ referenced) | None => false end
     || (f_modified_epoch_ms file >? cutoff)
  then mret report
  else
    removed ← remove_file_if_present path;
    mret (if (removed : bool) then add_files 1 (len (f_bytes file)) report else report).

(** After the accounts: what is referenced is read once, then files are removed. *)
Definition gc_files (cutoff : Z) (acc : GcReport * list bytes) : M GcReport :=
  referenced ← query referenced_keys;
  report ← fold_m remove_deleted acc.1 acc.2;
  _ ← file_step (bs "scan cloud blob root");
  entries ← gets (λ s, map_to_list (files s));
  fold_m (remove_orphan referenced cutoff) report entries.

Definition gc_accounts : M (list bytes) := query (λ d, (map_iter (accounts d)).*1).

Definition run_gc_inner (now grace : Z) : M GcReport :=
  let cutoff := now - grace in
  accounts ← gc_accounts;
  acc ← fold_m (gc_account cutoff) (report_empty, []) accounts;
  report ← gc_files cutoff acc;
  _ ← (if deleted_objects report >? 0 then note_durable_write now else mret tt);
  mret report.

Definition run_gc (now grace : Z) : M GcReport :=
  _ ← file_step (bs "create cloud lock directory");
  _ ← file_step (bs "open cloud storage lock");
  _ ← file_step (bs "acquire cloud storage lock");
  report ← run_gc_inner now grace;
  ms ← measured;
  let report := {| marked_objects := marked_objects report; deleted_objects := deleted_objects report;
                   deleted_ciphertext_bytes := deleted_ciphertext_bytes report;
                   deleted_blob_files := deleted_blob_files report; database_pause_ms := database_pause_ms report;
                   database_work_ms := database_work_ms report; total_elapsed_ms := ms |} in
  _ ← add_counter CGcRuns 1;
  _ ← set_counter CGcLastPause (database_pause_ms report);
  _ ← max_counter CGcPeakPause (database_pause_ms report);
  _ ← add_counter CGcTotalWork (database_work_ms report);
  _ ← set_counter CGcLastElapsed (total_elapsed_ms report);
  _ ← max_counter CGcPeakElapsed (total_elapsed_ms report);
  mret report.
End gc.
