(* ===== verification/AcsAuth.v ===== *)
(** * Authentication of requests to the cloud server (aerobag-cloud-server/src/auth.rs)

    The signature over the request, the clock window, the registered key and the nonce that
    may be used once. Headers are read by name, as text. *)

From Stdlib Require Import Strings.Byte.
From stdpp Require Import base gmap list strings.
From S2P Require Import Prelude Utf8 HadKey CloudRecords AcsContracts CloudAcs AcsLimits AcsStoreState AcsStore.

Local Open Scope Z_scope.

Definition ACS_SIGNATURE_CLOCK_WINDOW_MS : Z := 5 * 60 * 1000.
Definition ACS_ACCOUNT_LOCATOR_BYTES : Z := 32.
Definition ACS_AUTH_CONTRACT_HEADER : bytes := bs "Aerobag-Contract".
Definition ACS_AUTH_ACCOUNT_HEADER : bytes := bs "Aerobag-Account".
Definition ACS_AUTH_KEY_ID_HEADER : bytes := bs "Aerobag-Key-Id".
Definition ACS_AUTH_ALGORITHM_HEADER : bytes := bs "Aerobag-Signature-Algorithm".
Definition ACS_AUTH_TIMESTAMP_HEADER : bytes := bs "Aerobag-Timestamp-Ms".
Definition ACS_AUTH_NONCE_HEADER : bytes := bs "Aerobag-Nonce".
Definition ACS_AUTH_BODY_HASH_HEADER : bytes := bs "Aerobag-Body-SHA256".
Definition ACS_AUTH_SIGNATURE_HEADER : bytes := bs "Aerobag-Signature".

(** [headers.get(name).and_then(to_str)] *)
Definition HeaderMap : Type := bytes → option bytes.

Record SignedRequest := {
  sr_headers : HeaderMap; sr_method : AcsHttpMethod; sr_path : bytes; sr_query : option bytes; sr_body : bytes;
  sr_now_epoch_ms : Z }.

Inductive IpAddr := V4 (octets : bytes) | V6 (octets : bytes).

(** [str::parse::<i64>]: an optional sign and decimal digits, within range. *)
Fixpoint digits_value (acc : Z) (s : bytes) : option Z :=
  match s with
  | [] => Some acc
  | b :: s => if is_ascii_digit b then digits_value (10 * acc + (b2z b - 48)) s else None
  end.
Definition parse_i64 (s : bytes) : option Z :=
  z ← match s with
      | [] | [x2d] | [x2b] => None
      | x2d :: digits => Z.opp <$> digits_value 0 digits
      | x2b :: digits => digits_value 0 digits
      | _ => digits_value 0 s
      end;
  if (i64_min <=? z) && (z <=? i64_max) then Some z else None.

Definition unauthorized (m : bytes) : StoreError := store_error Unauthorized m.

Definition required_header (headers : HeaderMap) (name : bytes) : result StoreError bytes :=
  match headers name with
  | Some (b :: value) => Ok (b :: value)
  | _ => Err (unauthorized (bs "required authentication header " ++ name ++ bs " is missing or invalid"))
  end.

Section auth.
Context `{ServerLibs} (cfg : StoreConfig).

Definition source_network_pseudonym (secret : bytes) (address : IpAddr) : bytes :=
  let text := bs "aerobag-cloud-source-network-v1" ++ [x00] ++
    match address with
    | V4 octets => bs "ipv4/32" ++ [x00] ++ octets
    | V6 octets => bs "ipv6/64" ++ [x00] ++ take 8 octets
    end in
  hex_lower (take 16 (sv_hmac secret text)).

Definition parse_authentication (headers : HeaderMap) : result StoreError AcsRequestAuthentication :=
  algorithm ← required_header headers ACS_AUTH_ALGORITHM_HEADER;
  _ ← guard_err (negb (bool_decide (algorithm = bs "ed25519"))) (unauthorized (bs "unsupported signature algorithm"));
  contract ← required_header headers ACS_AUTH_CONTRACT_HEADER;
  account ← required_header headers ACS_AUTH_ACCOUNT_HEADER;
  key_id ← required_header headers ACS_AUTH_KEY_ID_HEADER;
  timestamp_text ← required_header headers ACS_AUTH_TIMESTAMP_HEADER;
  timestamp ← ok_or (parse_i64 timestamp_text) (unauthorized (bs "invalid request timestamp"));
  nonce ← required_header headers ACS_AUTH_NONCE_HEADER;
  body_hash ← required_header headers ACS_AUTH_BODY_HASH_HEADER;
  signature ← required_header headers ACS_AUTH_SIGNATURE_HEADER;
  Ok {| contract_id := contract; account_locator := account; signing_key_id := key_id; signature_algorithm := Ed25519;
        timestamp_epoch_ms := timestamp; nonce_base64url := nonce; body_sha256 := body_hash;
        signature_base64url := signature |}.

Definition decode_exact (value : bytes) (length : Z) (label : bytes) : result StoreError bytes :=
  _ ← guard_err (len value >? div_ceil length 3 * 4) (unauthorized (label ++ bs " has the wrong length"));
  decoded ← ok_or (sv_b64_decode value) (unauthorized (label ++ bs " is not valid base64url"));
  _ ← guard_err (negb (len decoded =? length)) (unauthorized (label ++ bs " has the wrong length"));
  Ok decoded.
Definition validate_account_locator (account : bytes) : result StoreError unit :=
  _ ← decode_exact account ACS_ACCOUNT_LOCATOR_BYTES (bs "account locator"); Ok tt.

Definition reject {A} (replay : bool) (m : bytes) : M A :=
  _ ← increment_authentication_rejection replay; raise (unauthorized m).

Definition verify_authentication (a : AcsRequestAuthentication) (request : SignedRequest) (public_key : bytes) : M unit :=
  if negb (bool_decide (contract_id a = ACS_CONTRACT_ID))
  then reject false (bs "unsupported request authentication contract")
  else
    _ ← lift (validate_account_locator (account_locator a));
    _ ← lift (decode_exact (signing_key_id a) (Z.of_nat ACS_SIGNING_KEY_ID_BYTES) (bs "signing key ID"));
    if Z.abs (sr_now_epoch_ms request - timestamp_epoch_ms a) >? ACS_SIGNATURE_CLOCK_WINDOW_MS
    then
      _ ← increment_authentication_rejection false;
      raise (store_error RequestExpired (bs "signed request timestamp is outside the accepted clock window"))
    else
      _ ← lift (decode_exact (nonce_base64url a) (Z.of_nat ACS_REQUEST_NONCE_BYTES) (bs "request nonce"));
      if negb (bool_decide (body_sha256 a = sha256_hex (sr_body request)))
      then reject false (bs "signed request body hash does not match body")
      else
        target ← lift (map_err invalid (acs_canonical_request_target (sr_path request) (sr_query request)));
        signed ← lift (map_err invalid (signing_bytes a (sr_method request) target));
        signature ← lift (decode_exact (signature_base64url a) 64 (bs "signature"));
        _ ← ensure (sv_signature_ok signature) (unauthorized (bs "signature is malformed"));
        _ ← ensure (sv_key_ok public_key) (unauthorized (bs "signing public key is invalid"));
        if sv_verify public_key signed signature then mret tt
        else reject false (bs "request signature is invalid").

Definition verify_registered_request (request : SignedRequest) (path_account : bytes) (write : bool) : M unit :=
  a ← lift (parse_authentication (sr_headers request));
  if negb (bool_decide (account_locator a = path_account))
  then reject false (bs "signed account does not match request path")
  else
    registered ← account_authentication path_account write;
    if negb (bool_decide (signing_key_id a = au_signing_key_id registered))
    then reject false (bs "request signing key is not registered for this account")
    else
      _ ← verify_authentication a request (au_signing_public_key registered);
      _ ← check_account_operation cfg path_account (sr_now_epoch_ms request);
      _ ← admit_account_ingress cfg path_account (len (sr_body request)) (sr_now_epoch_ms request);
      consume_nonce path_account (signing_key_id a) (nonce_base64url a)
        (sr_now_epoch_ms request + ACS_SIGNATURE_CLOCK_WINDOW_MS) (sr_now_epoch_ms request).

Definition verify_account_creation_request (signed : SignedRequest) (request : AcsCreateAccountRequest) : M bytes :=
  _ ← lift (validate_account_locator (ca_account_locator request));
  a ← lift (parse_authentication (sr_headers signed));
  if negb (bool_decide (account_locator a = ca_account_locator request))
     || negb (bool_decide (signing_key_id a = ca_signing_key_id request))
  then reject false (bs "signed identity does not match account request")
  else
    public_key ← lift (decode_exact (ca_signing_public_key_base64url request) 32 (bs "signing public key"));
    let expected_key_id := sv_b64_encode (take ACS_SIGNING_KEY_ID_BYTES (sv_sha256 public_key)) in
    if negb (bool_decide (ca_signing_key_id request = expected_key_id))
    then reject false (bs "signing key ID does not match public key")
    else
      _ ← verify_authentication a signed public_key;
      _ ← consume_nonce (ca_account_locator request) (ca_signing_key_id request) (nonce_base64url a)
            (sr_now_epoch_ms signed + ACS_SIGNATURE_CLOCK_WINDOW_MS) (sr_now_epoch_ms signed);
      mret public_key.
End auth.
