(* ===== verification/AcsStoreRun.v ===== *)
(** * Running the store's operations

    What the store keeps durably is the core of its state: the tables, the tables a running
    transaction would restore, the files and the events sent. [run m c Q] says that from
    every state with core [c] the operation [m] ends in a result and core that satisfy [Q].
    Operations that leave the core alone are [Quiet]. *)

From stdpp Require Import base gmap list strings.
From S2P Require Import Prelude CloudRecords AcsContracts CloudAcs AcsLimits AcsStoreState AcsStore AcsGc AcsAuth.

Local Open Scope Z_scope.

(** ** Fallible maps *)

Lemma try_map_keys {E A V W} (f : A * V → result E (A * W)) l l' :
  (∀ x y, f x = Ok y → y.1 = x.1) → try_map f l = Ok l' → l'.*1 = l.*1.
Proof.
  intros Hf. revert l'. induction l as [|x l IH]; simpl; intros l' Hl; [by injection Hl as <-|].
  apply bind_Ok in Hl as (y & Hy & Hl). apply bind_Ok in Hl as (l1 & Hl1 & [= <-]).
  rewrite !fmap_cons. f_equal; [by apply Hf|by apply IH].
Qed.
Lemma try_map_elem {E A B} (f : A → result E B) l l' y : try_map f l = Ok l' → y ∈ l' → ∃ x, x ∈ l ∧ f x = Ok y.
Proof.
  revert l'. induction l as [|x l IH]; simpl; intros l' Hl Hy; [injection Hl as <-; by apply elem_of_nil in Hy|].
  apply bind_Ok in Hl as (z & Hz & Hl). apply bind_Ok in Hl as (l1 & Hl1 & [= <-]).
  apply elem_of_cons in Hy as [->|Hy]; [exists x; split; [by left|done]|].
  destruct (IH _ Hl1 Hy) as (x' & Hx' & Hf). exists x'. split; [by right|done].
Qed.
Lemma try_map_id {E A} (f : A → result E A) l l' : (∀ x y, f x = Ok y → y = x) → try_map f l = Ok l' → l' = l.
Proof.
  intros Hf. revert l'. induction l as [|x l IH]; simpl; intros l' Hl; [by injection Hl as <-|].
  apply bind_Ok in Hl as (y & ->%Hf & Hl). apply bind_Ok in Hl as (l1 & ->%IH & [= <-]). done.
Qed.

(** ** The core *)

Record Core := {
  c_db : Db; c_saved : option Db; c_files : gmap FilePath BlobFile; c_events : list RootEventRecord }.
Definition core (s : Store) : Core :=
  {| c_db := db s; c_saved := saved s; c_files := files s; c_events := events s |}.

Definition run {A} (m : M A) (c : Core) (Q : result StoreError A → Core → Prop) : Prop :=
  ∀ s, core s = c → Q (m s).1 (core (m s).2).

Class Quiet {A} (m : M A) : Prop := quiet s : core (m s).2 = core s.

Lemma run_mono {A} (m : M A) c (Q Q' : _ → _ → Prop) : run m c Q → (∀ r c', Q r c' → Q' r c') → run m c Q'.
Proof. intros Hm HQ s Hs. apply HQ, Hm, Hs. Qed.

Lemma run_quiet {A} (m : M A) c Q : Quiet m → (∀ r, Q r c) → run m c Q.
Proof. intros Hm HQ s <-. rewrite (quiet s). apply HQ. Qed.

Lemma run_read {A} (q : M A) c (Q : _ → _ → Prop) :
  Quiet q → (∀ s a, core s = c → (q s).1 = Ok a → Q (Ok a) c) → (∀ e, Q (Err e) c) → run q c Q.
Proof.
  intros Hq HO HE s Hs. specialize (Hq s). destruct (q s) as [[a|e] s1] eqn:Hr; simpl in *; rewrite Hq, Hs; [|apply HE].
  apply (HO s); [done|by rewrite Hr].
Qed.

(** The state after a chain of operations. *)
Definition next {A B} (Q : result StoreError B → Core → Prop) (f : A → M B) (r : result StoreError A) (c : Core) : Prop :=
  match r with Ok a => run (f a) c Q | Err e => Q (Err e) c end.

Lemma run_bind {A B} (m : M A) (f : A → M B) c Q : run m c (next Q f) → run (m ≫= f) c Q.
Proof.
  intros Hm s Hs. specialize (Hm s Hs). rewrite ST_bind_unfold. unfold next in Hm.
  destruct (m s) as [[a|e] s1]; simpl in *; [by apply Hm|done].
Qed.

Lemma run_ret {A} (a : A) c (Q : _ → _ → Prop) : Q (Ok a) c → run (mret a) c Q.
Proof. intros HQ s <-. done. Qed.
Lemma run_raise {A} e c (Q : result StoreError A → _ → Prop) : Q (Err e) c → run (raise e) c Q.
Proof. intros HQ s <-. done. Qed.
Lemma run_lift {A} (r : result StoreError A) c (Q : _ → _ → Prop) : Q r c → run (lift r) c Q.
Proof. intros HQ s <-. done. Qed.
Lemma run_ensure (b : bool) e c (Q : _ → _ → Prop) : Q (if b then Ok tt else Err e) c → run (ensure b e) c Q.
Proof. intros HQ s <-. by destruct b. Qed.
Lemma run_gets {A} (f : Store → A) c (Q : _ → _ → Prop) : (∀ s, core s = c → Q (Ok (f s)) c) → run (gets f) c Q.
Proof. intros HQ s Hs. simpl. rewrite Hs. by apply HQ. Qed.
Lemma run_catch {A} (m : M A) c (Q : _ → _ → Prop) : run m c (λ r c', Q (Ok r) c') → run (catch m) c Q.
Proof. intros Hm s Hs. specialize (Hm s Hs). unfold catch. by destruct (m s). Qed.

Definition with_c_db (d : Db) (c : Core) : Core :=
  {| c_db := d; c_saved := c_saved c; c_files := c_files c; c_events := c_events c |}.
Definition with_c_files (f : gmap FilePath BlobFile) (c : Core) : Core :=
  {| c_db := c_db c; c_saved := c_saved c; c_files := f; c_events := c_events c |}.

(** Failures of the database are internal errors. *)
Lemma statement_cases s :
  (∃ w, statement s = (Ok tt, put_world w s)) ∨ ∃ w text, statement s = (Err (sqlite text), put_world w s).
Proof. unfold statement. destruct (pop_sql (world s)) as [[text|] w]; [right|left]; eauto. Qed.

Lemma run_statement c (Q : _ → _ → Prop) : Q (Ok tt) c → (∀ text, Q (Err (sqlite text)) c) → run statement c Q.
Proof. intros HO HE s <-. destruct (statement_cases s) as [[w ->]|(w & text & ->)]; simpl; [exact HO|apply HE]. Qed.

Lemma run_query {A} (f : Db → A) c (Q : _ → _ → Prop) :
  Q (Ok (f (c_db c))) c → (∀ text, Q (Err (sqlite text)) c) → run (query f) c Q.
Proof.
  intros HO HE. apply run_bind, run_statement; [|done]. apply run_gets. intros s <-. done.
Qed.
Lemma run_try_query {A} (f : Db → result bytes A) c (Q : _ → _ → Prop) :
  (∀ a, f (c_db c) = Ok a → Q (Ok a) c) → (∀ text, Q (Err (sqlite text)) c) → run (try_query f) c Q.
Proof.
  intros HO HE. apply run_bind, run_statement; [|done]. apply run_bind, run_gets. intros s <-. apply run_lift. simpl.
  destruct (f (db s)) eqn:Hf; simpl; [by apply HO|apply HE].
Qed.
Lemma try_query_Ok {A} (f : Db → result bytes A) s a : (try_query f s).1 = Ok a → f (db s) = Ok a.
Proof.
  intros Ha. assert (run (try_query f) (core s) (λ r _, r = Ok a → f (db s) = Ok a)) as Hr by by apply run_try_query; [intros b Hb [= <-]|].
  exact (Hr s eq_refl Ha).
Qed.
Lemma run_modify f c (Q : _ → _ → Prop) : (∀ s, core s = c → Q (Ok tt) (core (f s))) → run (modify f) c Q.
Proof. intros HQ s Hs. by apply HQ. Qed.
Lemma run_execute (f : Db → Db) c (Q : _ → _ → Prop) :
  Q (Ok tt) (with_c_db (f (c_db c)) c) → (∀ text, Q (Err (sqlite text)) c) → run (execute f) c Q.
Proof.
  intros HO HE. apply run_bind, run_statement; [|done]. apply run_modify. intros s <-. done.
Qed.
Lemma run_try_execute (f : Db → result bytes Db) c (Q : _ → _ → Prop) :
  (∀ d, f (c_db c) = Ok d → Q (Ok tt) (with_c_db d c)) → (∀ text, Q (Err (sqlite text)) c) → run (try_execute f) c Q.
Proof.
  intros HO HE. apply run_bind, run_statement; [|done]. apply run_bind, run_gets. intros s <-.
  apply run_bind, run_lift. simpl. destruct (f (db s)) eqn:Hf; simpl; [|apply HE].
  apply run_modify. intros s' Hs'. specialize (HO _ Hf). by rewrite <- Hs' in HO.
Qed.
Lemma run_execute_returning {A} (f : Db → result bytes (A * Db)) c (Q : _ → _ → Prop) :
  (∀ a d, f (c_db c) = Ok (a, d) → Q (Ok a) (with_c_db d c)) → (∀ text, Q (Err (sqlite text)) c) →
  run (execute_returning f) c Q.
Proof.
  intros HO HE. apply run_bind, run_statement; [|done]. apply run_bind, run_gets. intros s <-.
  apply run_bind, run_lift. simpl. destruct (f (db s)) as [[a d]|] eqn:Hf; simpl; [|apply HE].
  apply run_bind, run_modify. intros s' Hs'. apply run_ret. specialize (HO _ _ Hf). by rewrite <- Hs' in HO.
Qed.

(** ** Transactions *)

Definition rolled_back (c : Core) : Core :=
  match c_saved c with
  | Some d => {| c_db := d; c_saved := None; c_files := c_files c; c_events := c_events c |}
  | None => c
  end.
Definition committed (c : Core) : Core :=
  {| c_db := c_db c; c_saved := None; c_files := c_files c; c_events := c_events c |}.
Definition began (c : Core) : Core :=
  {| c_db := c_db c; c_saved := Some (c_db c); c_files := c_files c; c_events := c_events c |}.

Lemma core_rollback s : core (rollback s) = rolled_back (core s).
Proof. unfold rollback, rolled_back. simpl. by destruct (saved s). Qed.

Lemma run_commit c (Q : _ → _ → Prop) : Q (Ok tt) (committed c) → (∀ text, Q (Err (sqlite text)) c) → run commit c Q.
Proof. intros HO HE. apply run_bind, run_statement; [|done]. apply run_modify. intros s <-. done. Qed.

Lemma run_transaction {A} (body : M A) c (Q : _ → _ → Prop) :
  c_saved c = None → run body (began c) (λ r c', Q r (rolled_back c')) → (∀ text, Q (Err (sqlite text)) c) →
  run (transaction body) c Q.
Proof.
  intros Hn Hb HE.
  assert (run (_ ← begin_immediate; body) c (λ r c', Q r (rolled_back c'))) as Hrun.
  { apply run_bind. unfold begin_immediate. apply run_bind, run_statement.
    - apply run_modify. intros s <-. exact Hb.
    - intros text. unfold next, rolled_back. rewrite Hn. apply HE. }
  intros s Hs. specialize (Hrun s Hs). unfold transaction.
  destruct ((_ ← begin_immediate; body) s) as [r s']. simpl in *. by rewrite core_rollback.
Qed.

(** ** Quiet operations *)

#[export] Instance quiet_ret {A} (a : A) : Quiet (mret a).
Proof. done. Qed.
#[export] Instance quiet_raise {A} e : Quiet (A:=A) (raise e).
Proof. done. Qed.
#[export] Instance quiet_lift {A} (r : result StoreError A) : Quiet (lift r).
Proof. done. Qed.
#[export] Instance quiet_gets {A} (f : Store → A) : Quiet (gets f).
Proof. done. Qed.
#[export] Instance quiet_ensure b e : Quiet (ensure b e).
Proof. by destruct b. Qed.
#[export] Instance quiet_bind {A B} (m : M A) (f : A → M B) : Quiet m → (∀ a, Quiet (f a)) → Quiet (m ≫= f).
Proof.
  intros Hm Hf s. rewrite ST_bind_unfold. specialize (Hm s). destruct (m s) as [[a|e] s1]; simpl in *; [|done].
  rewrite <- Hm. apply Hf.
Qed.
#[export] Instance quiet_catch {A} (m : M A) : Quiet m → Quiet (catch m).
Proof. intros Hm s. specialize (Hm s). unfold catch. by destruct (m s). Qed.
#[export] Instance quiet_for_each {A} (body : A → M unit) l : (∀ x, Quiet (body x)) → Quiet (for_each body l).
Proof. intros Hb. induction l as [|x l IH]; simpl; apply _. Qed.
#[export] Instance quiet_statement : Quiet statement.
Proof. intros s. destruct (statement_cases s) as [[w ->]|(w & text & ->)]; done. Qed.
#[export] Instance quiet_query {A} (f : Db → A) : Quiet (query f).
Proof. unfold query. apply _. Qed.
#[export] Instance quiet_try_query {A} (f : Db → result bytes A) : Quiet (try_query f).
Proof. unfold try_query. apply _. Qed.
#[export] Instance quiet_file_step t : Quiet (file_step t).
Proof. intros s. unfold file_step. by destruct (pop_io (world s)) as [[[]|] w]. Qed.
#[export] Instance quiet_random_bytes : Quiet random_bytes.
Proof. intros s. unfold random_bytes. by destruct (pop_random (world s)) as [[] w]. Qed.
#[export] Instance quiet_measured : Quiet measured.
Proof. intros s. unfold measured. by destruct (pop_elapsed (world s)). Qed.
#[export] Instance quiet_add_counter c n : Quiet (add_counter c n).
Proof. done. Qed.
#[export] Instance quiet_set_counter c n : Quiet (set_counter c n).
Proof. done. Qed.
#[export] Instance quiet_max_counter c n : Quiet (max_counter c n).
Proof. done. Qed.
#[export] Instance quiet_modify_limits f : Quiet (modify_limits f).
Proof. done. Qed.

(** Composite operations are quiet when their parts are. *)
Ltac quiet_tac :=
  repeat match goal with
  | |- Quiet _ => apply _
  | |- Quiet (_ ≫= _) => apply quiet_bind; [|intros ?]
  | |- Quiet (if _ then _ else _) => case_match
  | |- Quiet (match _ with _ => _ end) => case_match
  | |- Quiet (let '(_, _) := _ in _) => case_match
  end.

(** ** Readings *)

Lemma at_once_bind {A B} (m : Reading A) (f : A → Reading B) s :
  at_once (m ≫= f) s = (a ← at_once m; at_once (f a)) s.
Proof.
  revert s. induction m as [[a|e]|C q k IH]; intros s; [done..|]. rewrite ST_bind_unfold. simpl. rewrite !ST_bind_unfold.
  destruct (q s) as [[b|e] s1]; [|done]. rewrite <- ST_bind_unfold. apply IH.
Qed.
Lemma at_once_select {A} (q : M A) s : at_once (read_one q) s = q s.
Proof. simpl. rewrite ST_bind_unfold. by destruct (q s) as [[a|e] s1]. Qed.
Lemma at_once_done {A} (r : result StoreError A) s : at_once (Done r) s = (r, s).
Proof. done. Qed.

Lemma run_at_once_bind {A B} (m : Reading A) (f : A → Reading B) c Q :
  run (at_once m) c (next Q (λ a, at_once (f a))) → run (at_once (m ≫= f)) c Q.
Proof. intros Hm%run_bind s Hs. rewrite at_once_bind. by apply Hm. Qed.
Lemma run_at_once_select {A} (q : M A) c Q : run q c Q → run (at_once (read_one q)) c Q.
Proof. intros Hq s Hs. rewrite at_once_select. by apply Hq. Qed.

(** A reading whose statements only read. *)
Fixpoint only_reads {A} (rd : Reading A) : Prop :=
  match rd with Done _ => True | Select q k => Quiet q ∧ ∀ b, only_reads (k b) end.
Existing Class only_reads.
Lemma only_reads_bind {A B} (m : Reading A) (f : A → Reading B) :
  only_reads m → (∀ a, only_reads (f a)) → only_reads (m ≫= f).
Proof. intros Hm Hf. induction m as [[a|e]|C q k IH]; [apply Hf|done|]. destruct Hm as [Hq Hk]. split; [done|]. intros b. apply IH, Hk. Qed.
#[export] Instance only_reads_done {A} (r : result StoreError A) : only_reads (Done r).
Proof. done. Qed.
#[export] Instance only_reads_ret {A} (a : A) : only_reads (mret a).
Proof. done. Qed.
#[export] Instance only_reads_select {A} (q : M A) : Quiet q → only_reads (read_one q).
Proof. by split. Qed.
#[export] Instance quiet_at_once {A} (rd : Reading A) : only_reads rd → Quiet (at_once rd).
Proof. induction rd as [r|C q k IH]; [intros _; apply quiet_lift|]. intros [Hq Hk]. apply quiet_bind; [done|]. intros b. apply IH, Hk. Qed.
Lemma quiet_read_on {A} (rd : Reading A) s : only_reads rd → core (read_on rd s).2 = core s.
Proof. destruct rd as [r|C q k]; [done|]. intros [Hq _]. simpl. specialize (Hq s). by destruct (q s) as [[b|e] s1]. Qed.
Lemma only_reads_on {A} (rd : Reading A) s : only_reads rd → only_reads (read_on rd s).1.
Proof. destruct rd as [r|C q k]; [done|]. intros [_ Hk]. simpl. destruct (q s) as [[b|e] s1]; [apply Hk|done]. Qed.
#[global] Arguments at_once {A} rd : simpl never.
#[global] Arguments read_one {A} q : simpl never.
Ltac reading_tac :=
  repeat match goal with
  | |- only_reads _ => apply _
  | |- only_reads (_ ≫= _) => apply only_reads_bind; [|intros ?]
  | |- only_reads (if _ then _ else _) => case_match
  | |- only_reads (match _ with _ => _ end) => case_match
  | |- only_reads (read_one _) => apply only_reads_select; quiet_tac
  end.

Section quiet.
Context `{ServerLibs} (cfg : StoreConfig).

#[export] Instance quiet_note_durable_read now : Quiet (note_durable_read now).
Proof. done. Qed.
#[export] Instance quiet_note_durable_write now : Quiet (note_durable_write now).
Proof. done. Qed.
#[export] Instance quiet_increment_authentication_rejection b : Quiet (increment_authentication_rejection b).
Proof. unfold increment_authentication_rejection. quiet_tac. Qed.
#[export] Instance quiet_record_creation_metric m now : Quiet (record_creation_metric m now).
Proof. done. Qed.
#[export] Instance quiet_record_other_creation_rejection now : Quiet (record_other_creation_rejection now).
Proof. unfold record_other_creation_rejection. quiet_tac. Qed.
#[export] Instance quiet_rate_limited {A} g t n : Quiet (A:=A) (rate_limited g t n).
Proof. unfold rate_limited. quiet_tac. Qed.
#[export] Instance quiet_check_network_operation network now : Quiet (check_network_operation cfg network now).
Proof. unfold check_network_operation. quiet_tac. Qed.
#[export] Instance quiet_check_account_operation account now : Quiet (check_account_operation cfg account now).
Proof. unfold check_account_operation. quiet_tac. Qed.
#[export] Instance quiet_admit_network_ingress network n now : Quiet (admit_network_ingress cfg network n now).
Proof. unfold admit_network_ingress. quiet_tac. Qed.
#[export] Instance quiet_admit_account_ingress account n now : Quiet (admit_account_ingress cfg account n now).
Proof. unfold admit_account_ingress. quiet_tac. Qed.
#[export] Instance quiet_admit_egress account network n now : Quiet (admit_egress cfg account network n now).
Proof. unfold admit_egress. quiet_tac. Qed.
#[export] Instance quiet_select_service_mode : Quiet select_service_mode.
Proof. unfold select_service_mode. quiet_tac. Qed.
#[export] Instance quiet_available_space : Quiet available_space.
Proof. unfold available_space. quiet_tac. Qed.
#[export] Instance quiet_random_token : Quiet random_token.
Proof. unfold random_token. quiet_tac. Qed.
#[export] Instance quiet_ensure_service_writeable : Quiet ensure_service_writeable.
Proof. unfold ensure_service_writeable. quiet_tac. Qed.
#[export] Instance quiet_select_account_mode account : Quiet (select_account_mode account).
Proof. unfold select_account_mode. quiet_tac. Qed.
#[export] Instance account_readable_reads account : only_reads (account_readable account).
Proof. unfold account_readable. reading_tac. Qed.
#[export] Instance quiet_ensure_account_readable account : Quiet (ensure_account_readable account).
Proof. unfold ensure_account_readable. quiet_tac. Qed.
#[export] Instance quiet_ensure_account_writeable account : Quiet (ensure_account_writeable account).
Proof. unfold ensure_account_writeable. quiet_tac. Qed.
#[export] Instance quiet_account_authentication account w : Quiet (account_authentication account w).
Proof. unfold account_authentication. quiet_tac. Qed.
#[export] Instance quiet_ensure_children_exist account l : Quiet (ensure_children_exist account l).
Proof. unfold ensure_children_exist. quiet_tac. Qed.
#[export] Instance quiet_read_file t p : Quiet (read_file t p).
Proof. unfold read_file. quiet_tac. Qed.
#[export] Instance quiet_read_placed_ciphertext i k : Quiet (read_placed_ciphertext i k).
Proof. unfold read_placed_ciphertext. quiet_tac. Qed.
#[export] Instance quiet_response_bytes {A} (r : result bytes A) : Quiet (response_bytes r).
Proof. unfold response_bytes. quiet_tac. Qed.
#[export] Instance quiet_read_object account oid network now now' : Quiet (read_object cfg account oid network now now').
Proof. unfold read_object. quiet_tac. Qed.
#[export] Instance quiet_list_objects account cursor limit network now now' :
  Quiet (list_objects cfg account cursor limit network now now').
Proof. unfold list_objects. quiet_tac. Qed.
#[export] Instance quiet_read_root_row account : Quiet (read_root_row account).
Proof. unfold read_root_row. quiet_tac. Qed.
#[export] Instance quiet_read_root account network now now' : Quiet (read_root cfg account network now now').
Proof. unfold read_root. quiet_tac. Qed.
#[export] Instance quiet_select_event_sequence account : Quiet (select_event_sequence account).
Proof. unfold select_event_sequence. quiet_tac. Qed.
#[export] Instance quiet_select_event_at account cursor : Quiet (select_event_at account cursor).
Proof. unfold select_event_at. quiet_tac. Qed.
#[export] Instance quiet_select_minimum_retained account : Quiet (select_minimum_retained account).
Proof. unfold select_minimum_retained. quiet_tac. Qed.
#[export] Instance quiet_select_later_events account cursor : Quiet (select_later_events account cursor).
Proof. unfold select_later_events. quiet_tac. Qed.
#[export] Instance current_event_state_reads account : only_reads (current_event_state account).
Proof. unfold current_event_state. reading_tac. Qed.
#[export] Instance event_state_at_reads account cursor : only_reads (event_state_at account cursor).
Proof. unfold event_state_at. reading_tac. Qed.
#[export] Instance initial_sse_events_reads account cursor : only_reads (initial_sse_events account cursor).
Proof. unfold initial_sse_events. reading_tac. Qed.
#[export] Instance heartbeat_event_reads account : only_reads (heartbeat_event account).
Proof. unfold heartbeat_event. reading_tac. Qed.
#[export] Instance quiet_begin_sse_connection account network : Quiet (begin_sse_connection cfg account network).
Proof. unfold begin_sse_connection. quiet_tac. Qed.
#[export] Instance quiet_end_sse_connection account network : Quiet (end_sse_connection account network).
Proof. unfold end_sse_connection. quiet_tac. Qed.
#[export] Instance quiet_try_read p : Quiet (try_read p).
Proof. unfold try_read. quiet_tac. Qed.
#[export] Instance quiet_load_object_graph account : Quiet (load_object_graph account).
Proof. unfold load_object_graph. quiet_tac. Qed.
#[export] Instance quiet_verify_authentication a r k : Quiet (verify_authentication a r k).
Proof. unfold verify_authentication, reject. quiet_tac. Qed.
End quiet.

Lemma run_add_counter k n c (Q : _ → _ → Prop) : Q (Ok tt) c → run (add_counter k n) c Q.
Proof. intros HQ s <-. exact HQ. Qed.
Lemma run_note_durable_write now c (Q : _ → _ → Prop) : Q (Ok tt) c → run (note_durable_write now) c Q.
Proof. intros HQ s <-. exact HQ. Qed.

Lemma run_measured c (Q : _ → _ → Prop) : (∀ ms, Q (Ok ms) c) → run measured c Q.
Proof. intros HQ s <-. unfold measured. destruct (pop_elapsed (world s)) as [ms w]. apply HQ. Qed.

(** One rule of the operations at a time. *)
Ltac run_step :=
  lazymatch goal with
  | |- run (_ ≫= _) _ _ => apply run_bind
  | |- run (at_once (_ ≫= _)) _ _ => apply run_at_once_bind
  | |- run (at_once (read_one _)) _ _ => apply run_at_once_select
  | |- run (at_once (Done ?r)) ?c ?Q => change (run (lift r) c Q); apply run_lift
  | |- run (at_once (mret ?a)) ?c ?Q => change (run (mret a) c Q); apply run_ret
  | |- run (at_once (if ?b then _ else _)) _ _ => let E := fresh "Hif" in destruct b eqn:E
  | |- run (mret _) _ _ => apply run_ret
  | |- run (raise _) _ _ => apply run_raise
  | |- run (lift _) _ _ => apply run_lift
  | |- run (ensure _ _) _ _ => apply run_ensure
  | |- run (catch _) _ _ => apply run_catch
  | |- run (query _) _ _ => apply run_query
  | |- run (try_query _) _ _ => apply run_try_query; [intros ? ?|intros ?]
  | |- run (execute _) _ _ => apply run_execute; [|intros ?]
  | |- run (try_execute _) _ _ => apply run_try_execute; [intros ? ?|intros ?]
  | |- run (execute_returning _) _ _ => apply run_execute_returning; [intros ? ? ?|intros ?]
  | |- run (add_counter _ _) _ _ => apply run_add_counter
  | |- run (note_durable_write _) _ _ => apply run_note_durable_write
  | |- run measured _ _ => apply run_measured; intros ?
  | |- run commit _ _ => apply run_commit; [|intros ?]
  | |- next ?Q ?f (Ok ?a) ?c => change (run (f a) c Q); cbv beta
  | |- next ?Q ?f (Err ?e) ?c => change (Q (Err e) c); cbv beta
  | |- run (if ?b then _ else _) _ _ => let E := fresh "Hif" in destruct b eqn:E
  end.
(** A quiet part whose result does not matter. *)
Ltac run_skip := apply run_quiet; [first [apply _ | quiet_tac]|intros [?|?]].
