(* ===== verification/AcsStoreInv.v ===== *)
(** * What the cloud server's tables keep true

    The transitions of the tables that the operations make, and the invariants they keep:
    what an account is charged for is what it stores, within its quota and the ceiling of
    the service; rows belong to accounts; what a root refers to is there; and the root, its
    revision, the event counter and the retained events are those of one append-only
    history of root hashes. *)

From Stdlib Require Import Strings.Byte.
From stdpp Require Import base gmap list strings sorting relations.
From S2P Require Import Prelude CloudRecords AcsContracts CloudAcs AcsLimits AcsStoreState AcsStore AcsGc.

Local Open Scope Z_scope.

(** What the codecs are relied on for: what was encoded reads back. *)
Class ServerLaws `{ServerLibs} := {
  b64_round b : sv_b64_decode (sv_b64_encode b) = Some b;
  children_round c j : children_to_json c = Ok j → children_from_json j = Ok c }.

(** ** Charges *)

Definition object_charge (object_id : bytes) (o : ObjectRow) : Z :=
  object_storage_bytes object_id (o_ciphertext_bytes o) (o_children_json o).
Definition root_charge (r : option RootRow) : Z :=
  match r with Some r => root_storage_bytes (r_ciphertext_bytes r) (r_children_json r) | None => 0 end.
Definition objects_charge (rows : gmap bytes ObjectRow) : Z :=
  map_fold (λ object_id o acc, object_charge object_id o + acc) 0 rows.
(** What the rows of an account amount to. *)
Definition usage (account : bytes) (d : Db) : Z :=
  objects_charge (objects_of account d) + root_charge (roots d !! account).

Lemma saturating_add_nonneg mx a b : 0 ≤ mx → 0 ≤ a → 0 ≤ b → 0 ≤ saturating_add mx a b.
Proof. unfold saturating_add. lia. Qed.
Lemma object_charge_nonneg i o : 0 ≤ o_ciphertext_bytes o → 0 ≤ object_charge i o.
Proof.
  intros Ho. unfold object_charge, object_storage_bytes. pose proof (len_nonneg i). pose proof (len_nonneg (o_children_json o)).
  repeat apply saturating_add_nonneg; unfold u64_max, OBJECT_STORAGE_ACCOUNTING_OVERHEAD_BYTES; lia.
Qed.
Lemma objects_charge_insert i o rows :
  rows !! i = None → objects_charge (<[i := o]> rows) = object_charge i o + objects_charge rows.
Proof. intros Hi. unfold objects_charge. rewrite map_fold_insert_L; [done|intros; lia|done]. Qed.
Lemma objects_charge_delete i o rows :
  rows !! i = Some o → objects_charge rows = object_charge i o + objects_charge (delete i rows).
Proof. intros Hi. unfold objects_charge. rewrite (map_fold_delete_L _ _ i o); [done|intros; lia|done]. Qed.
Lemma objects_charge_replace i o o' rows :
  rows !! i = Some o → object_charge i o' = object_charge i o → objects_charge (<[i := o']> rows) = objects_charge rows.
Proof.
  intros Hi Hc. rewrite <- insert_delete_eq, objects_charge_insert by apply lookup_delete_eq.
  rewrite Hc. symmetry. by apply objects_charge_delete.
Qed.

(** Names for the cases of a transition. *)
Ltac step_cases H :=
  destruct H as
    [d' Hs | account a d' Hnone Hst Hct Hsq Hq Hl Hs | account f Hk Hquota
    | account a i o d' Ha Hi Hwf Hplace Hkids Hquota Hlimit Hceil Hs | account i o Hmay Hi
    | account i o f d' Hi Hout Hreturns Hs
    | account a r rev hash upto e now d' Hswap Ha Hwf Hrv Hrh Hrev Hch Hquota Hceil Her Heh Hup Hacc Hroots Hobj Hev
    | account d' Hdrop Hs | account f Hunfair Hk ].

(** ** Well-formed rows *)

Section rows.
Context `{ServerLibs}.

Definition object_wf (account object_id : bytes) (o : ObjectRow) : Prop :=
  0 ≤ o_ciphertext_bytes o ∧ (∃ c, children_to_json c = Ok (o_children_json o)) ∧
  match o_inline_ciphertext o, o_blob_storage_key o with
  | Some content, None =>
      o_state o = ObjReady ∧ len content = o_ciphertext_bytes o ∧ sha256_hex content = o_ciphertext_sha256 o
  | None, Some key => key = blob_storage_key account object_id (o_ciphertext_sha256 o)
  | _, _ => False
  end.
Definition root_wf (r : RootRow) : Prop :=
  r_ciphertext_bytes r = len (r_ciphertext r) ∧ (∃ c, children_to_json c = Ok (r_children_json r)).
(** The objects a root refers to. *)
Definition root_children (account : bytes) (d : Db) : list bytes :=
  match roots d !! account with
  | Some r => default [] (ok (children_from_json (r_children_json r)))
  | None => []
  end.

Definition rows_inv (d : Db) : Prop :=
  (∀ account object_id o, objects_of account d !! object_id = Some o → object_wf account object_id o)
  ∧ (∀ account r, roots d !! account = Some r → root_wf r).

(** Rows belong to accounts. *)
Definition link_inv (d : Db) : Prop :=
  ∀ account, accounts d !! account = None →
    roots d !! account = None ∧ objects_of account d = ∅ ∧ events_of account d = ∅.

(** What a root refers to is there and readable. *)
Definition is_ready (account object_id : bytes) (d : Db) : Prop :=
  ∃ o, objects_of account d !! object_id = Some o ∧ o_state o = ObjReady.
Definition closed_inv (d : Db) : Prop :=
  ∀ account child, child ∈ root_children account d → is_ready account child d.

(** Charges are exact and within the limits. *)
Definition account_ok (d : Db) (account : bytes) (a : AccountRow) : Prop :=
  a_stored_bytes a = usage account d ∧ a_object_count a = Z.of_nat (size (objects_of account d))
  ∧ 0 ≤ a_stored_bytes a ≤ a_quota_bytes a ∧ a_quota_bytes a ≤ i64_max
  ∧ a_object_count a ≤ a_object_limit a ∧ a_object_limit a ≤ i64_max.
Definition usage_inv (ceiling : Z) (d : Db) : Prop :=
  map_Forall (account_ok d) (accounts d) ∧ sum_stored d ≤ ceiling.

(** ** The history of an account's root *)

Definition hash_at (h : list bytes) (seq : Z) : option bytes := if seq =? 0 then None else h !! Z.to_nat (seq - 1).

(** [h] lists the hashes the root has had, the first revision first. The last [n] of their
    events are retained. *)
Definition history (d : Db) (account : bytes) (h : list bytes) : Prop :=
  match accounts d !! account with
  | None => h = []
  | Some a => a_event_sequence a = len h
  end
  ∧ match roots d !! account with
    | None => h = []
    | Some r => r_revision r = len h ∧ last h = Some (r_root_hash r)
    end
  ∧ ∃ lo, 1 ≤ lo ≤ Z.max 1 (len h) ∧
      ∀ seq, match events_of account d !! seq with
             | Some e => lo ≤ seq ≤ len h ∧ e_root_revision e = seq ∧ h !! Z.to_nat (seq - 1) = Some (e_root_hash e)
             | None => ¬ (lo ≤ seq ≤ len h)
             end.
Definition history_inv (d : Db) : Prop := ∀ account, ∃ h, history d account h.

(** ** Transitions of the tables *)

(** Accounts, roots, objects and events; the service mode is not among them. *)
Definition same_data (d d' : Db) : Prop :=
  accounts d' = accounts d ∧ roots d' = roots d ∧ objects d' = objects d ∧ root_events d' = root_events d.

(** What an update of an account's row keeps. *)
Definition keeps_usage (f : AccountRow → AccountRow) : Prop :=
  ∀ a, a_stored_bytes (f a) = a_stored_bytes a ∧ a_object_count (f a) = a_object_count a
       ∧ a_event_sequence (f a) = a_event_sequence a ∧ a_object_limit (f a) = a_object_limit a.
Definition keeps_rest (f : AccountRow → AccountRow) : Prop :=
  ∀ a, a_event_sequence (f a) = a_event_sequence a ∧ a_quota_bytes (f a) = a_quota_bytes a
       ∧ a_object_limit (f a) = a_object_limit a.
(** What an operation may do beyond its own rows: change a charge without the row that is
    charged for, make an object ready, write files, remove ready objects, swap a root,
    delete an account. *)
Record Perm := {
  p_unfair : Prop; p_ready : Prop; p_files : Prop; p_collect : Prop; p_swap : Prop; p_drop : bytes → Prop }.
Definition plain : Perm :=
  {| p_unfair := False; p_ready := False; p_files := False; p_collect := False; p_swap := False; p_drop := λ _, False |}.
Definition anything : Perm :=
  {| p_unfair := True; p_ready := True; p_files := True; p_collect := True; p_swap := True; p_drop := λ _, True |}.

(** An object's charge is returned, exactly unless [unfair]. *)
Definition returns (unfair : Prop) (n : Z) (f : AccountRow → AccountRow) : Prop :=
  keeps_rest f ∧
  (unfair ∨ ∀ a, n ≤ a_stored_bytes a → 1 ≤ a_object_count a →
       a_stored_bytes (f a) = a_stored_bytes a - n ∧ a_object_count (f a) = a_object_count a - 1).

(** The steps the operations take. *)
Inductive db_step (p : Perm) (ceiling : Z) (d : Db) : Db → Prop :=
| step_same d' : same_data d d' → db_step p ceiling d d'
| step_new_account account a d' :
    accounts d !! account = None →
    a_stored_bytes a = 0 → a_object_count a = 0 → a_event_sequence a = 0 →
    0 ≤ a_quota_bytes a ≤ i64_max → 0 ≤ a_object_limit a ≤ i64_max →
    same_data (put_accounts (<[account := a]> (accounts d)) d) d' → db_step p ceiling d d'
| step_update account f :
    keeps_usage f →
    (∀ a, accounts d !! account = Some a →
       a_quota_bytes (f a) = a_quota_bytes a ∨ a_stored_bytes a ≤ a_quota_bytes (f a) ≤ i64_max) →
    db_step p ceiling d (update_account account f d)
| step_insert account a object_id o d' :
    accounts d !! account = Some a → objects_of account d !! object_id = None → object_wf account object_id o →
    (o_state o = ObjPending ∨ o_blob_storage_key o = None) →
    (∀ c child, children_from_json (o_children_json o) = Ok c → child ∈ c → is_ready account child d) →
    a_stored_bytes a + object_charge object_id o ≤ a_quota_bytes a → a_object_count a + 1 ≤ a_object_limit a →
    sum_stored d + object_charge object_id o ≤ ceiling →
    same_data (put_objects_of account (<[object_id := o]> (objects_of account d))
      (update_account account (λ a, with_stored (a_stored_bytes a + object_charge object_id o) (a_object_count a + 1) a) d)) d' →
    db_step p ceiling d d'
| step_ready account object_id o :
    p_ready p → objects_of account d !! object_id = Some o →
    db_step p ceiling d (put_objects_of account (<[object_id := with_ready o]> (objects_of account d)) d)
| step_remove account object_id o f d' :
    objects_of account d !! object_id = Some o → (o_state o = ObjPending ∨ p_collect p ∧ object_id ∉ root_children account d) →
    returns (p_unfair p) (object_charge object_id o) f →
    same_data (update_account account f (put_objects_of account (delete object_id (objects_of account d)) d)) d' →
    db_step p ceiling d d'
| step_swap account a r revision hash upto e now d' :
    p_swap p → accounts d !! account = Some a → root_wf r → r_revision r = revision → r_root_hash r = hash →
    revision = match roots d !! account with Some r0 => r_revision r0 | None => 0 end + 1 →
    (∀ c child, children_from_json (r_children_json r) = Ok c → child ∈ c → is_ready account child d) →
    a_stored_bytes a - root_charge (roots d !! account) + root_charge (Some r) ≤ a_quota_bytes a →
    sum_stored d - root_charge (roots d !! account) + root_charge (Some r) ≤ ceiling →
    e_root_revision e = revision → e_root_hash e = hash → 0 ≤ upto ≤ Z.max 0 (a_event_sequence a) →
    accounts d' = <[account := with_event_sequence (a_event_sequence a + 1) now
        (with_stored (saturating_sub (a_stored_bytes a) (root_charge (roots d !! account)) + root_charge (Some r))
           (a_object_count a) a)]> (accounts d) →
    roots d' = <[account := r]> (roots d) → objects d' = objects d →
    root_events d' = <[account := filter (λ kv, ¬ (kv.1 ≤ upto))
        (<[a_event_sequence a + 1 := e]> (events_of account d))]> (root_events d) →
    db_step p ceiling d d'
| step_drop account d' :
    p_drop p account → same_data (drop_account account d) d' → db_step p ceiling d d'
| step_miscount account f :
    p_unfair p → keeps_rest f → db_step p ceiling d (update_account account f d).

(** ** What the transitions keep *)

(** What is allowed with less is allowed with more. *)
Definition perm_le (p q : Perm) : Prop :=
  (p_unfair p → p_unfair q) ∧ (p_ready p → p_ready q) ∧ (p_files p → p_files q) ∧ (p_collect p → p_collect q)
  ∧ (p_swap p → p_swap q) ∧ ∀ account, p_drop p account → p_drop q account.
Lemma perm_le_anything p : perm_le p anything.
Proof. by repeat split. Qed.
Lemma db_step_weaken p q ceiling d d' : perm_le p q → db_step p ceiling d d' → db_step q ceiling d d'.
Proof.
  intros (Hu & Hr & _ & Hc & Hsw & Hd) Hst. destruct Hst.
  - by apply step_same.
  - by eapply step_new_account.
  - by apply step_update.
  - by eapply step_insert.
  - apply step_ready; auto.
  - eapply step_remove; [done|naive_solver| |done]. match goal with Hx : returns _ _ _ |- _ => destruct Hx as [? [?|?]] end;
      (split; [done|]); [left|right]; auto.
  - by eapply step_swap; eauto.
  - by eapply step_drop; eauto.
  - by apply step_miscount; auto.
Qed.

Lemma objects_of_put account account' rows d :
  objects_of account' (put_objects_of account rows d) = if decide (account = account') then rows else objects_of account' d.
Proof. unfold objects_of, put_objects_of. simpl. rewrite lookup_insert. by case_decide. Qed.
Lemma objects_of_put_ne account account' rows d :
  account ≠ account' → objects_of account' (put_objects_of account rows d) = objects_of account' d.
Proof. intros. rewrite objects_of_put. by rewrite decide_False. Qed.
Lemma objects_of_put_eq account rows d : objects_of account (put_objects_of account rows d) = rows.
Proof. rewrite objects_of_put. by rewrite decide_True. Qed.

Lemma same_objects_of d d' account : same_data d d' → objects_of account d' = objects_of account d.
Proof. intros (_ & _ & Ho & _). unfold objects_of. by rewrite Ho. Qed.
Lemma same_events_of d d' account : same_data d d' → events_of account d' = events_of account d.
Proof. intros (_ & _ & _ & He). unfold events_of. by rewrite He. Qed.
Lemma same_children d d' account : same_data d d' → root_children account d' = root_children account d.
Proof. intros (_ & Hr & _). unfold root_children. by rewrite Hr. Qed.
Lemma same_ready d d' account i : same_data d d' → is_ready account i d' ↔ is_ready account i d.
Proof. intros Hs. unfold is_ready. by rewrite (same_objects_of _ _ account Hs). Qed.
Lemma same_usage d d' account : same_data d d' → usage account d' = usage account d.
Proof. intros Hs. unfold usage. rewrite (same_objects_of _ _ account Hs). destruct Hs as (_ & -> & _). done. Qed.
Lemma same_sum d d' : same_data d d' → sum_stored d' = sum_stored d.
Proof. intros (Ha & _). unfold sum_stored. by rewrite Ha. Qed.
Lemma same_data_refl d : same_data d d.
Proof. done. Qed.

Lemma same_rows d d' : same_data d d' → rows_inv d → rows_inv d'.
Proof.
  intros Hs [Ho Hr]. split.
  - intros account i o. rewrite (same_objects_of _ _ account Hs). apply Ho.
  - destruct Hs as (_ & -> & _). exact Hr.
Qed.
Lemma same_link d d' : same_data d d' → link_inv d → link_inv d'.
Proof.
  intros Hs Hl account. rewrite (same_objects_of _ _ account Hs), (same_events_of _ _ account Hs).
  destruct Hs as (-> & -> & _). apply Hl.
Qed.
Lemma same_closed d d' : same_data d d' → closed_inv d → closed_inv d'.
Proof. intros Hs Hc account child. rewrite (same_children _ _ account Hs), (same_ready _ _ account child Hs). apply Hc. Qed.
Lemma same_history d d' account h : same_data d d' → history d account h → history d' account h.
Proof. intros Hs. unfold history. rewrite (same_events_of _ _ account Hs). by destruct Hs as (-> & -> & _). Qed.
Lemma same_usage_inv ceiling d d' : same_data d d' → usage_inv ceiling d → usage_inv ceiling d'.
Proof.
  intros Hs [Ha Hsum]. split; [|by rewrite (same_sum _ _ Hs)].
  intros account a Hacc. unfold account_ok. rewrite (same_usage _ _ account Hs), (same_objects_of _ _ account Hs).
  apply Ha. by destruct Hs as (<- & _).
Qed.
#[local] Hint Resolve same_rows same_link same_closed same_history same_usage_inv : aerobag.

Lemma update_account_lookup account account' f d :
  accounts (update_account account f d) !! account'
  = (if decide (account = account') then f <$> accounts d !! account' else accounts d !! account').
Proof. unfold update_account. simpl. rewrite lookup_alter. by case_decide; subst. Qed.

(** Rows *)
Lemma with_ready_wf account i o : object_wf account i o → object_wf account i (with_ready o).
Proof. unfold object_wf. simpl. destruct (o_inline_ciphertext o), (o_blob_storage_key o); naive_solver. Qed.

Lemma rows_put account rows d :
  rows_inv d → (∀ i o, rows !! i = Some o → object_wf account i o) → rows_inv (put_objects_of account rows d).
Proof.
  intros [Ho Hr] Hrows. split; [|exact Hr]. intros account' i o. rewrite objects_of_put. case_decide; subst; auto.
Qed.

Lemma db_step_rows p ceiling d d' : db_step p ceiling d d' → rows_inv d → rows_inv d'.
Proof.
  intros Hstep Hinv. step_cases Hstep.
  - eauto with aerobag.
  - by eapply same_rows.
  - exact Hinv.
  - eapply same_rows; [exact Hs|]. apply rows_put; [exact Hinv|]. intros j o'. rewrite lookup_insert_Some.
    intros [[<- <-]|[_ Hj]]; [done|]. by apply Hinv.
  - apply rows_put; [exact Hinv|]. intros j o'. rewrite lookup_insert_Some.
    intros [[<- <-]|[_ Hj]]; [|by apply Hinv]. apply with_ready_wf. by apply Hinv.
  - eapply same_rows; [exact Hs|]. apply rows_put; [exact Hinv|]. intros j o'. rewrite lookup_delete_Some.
    intros [_ Hj]. by apply Hinv.
  - destruct Hinv as [HO HR]. split.
    + intros account' i o. unfold objects_of. rewrite Hobj. apply HO.
    + intros account' r'. rewrite Hroots, lookup_insert_Some. intros [[_ <-]|[_ Hr']]; [done|]. by eapply HR.
  - eapply same_rows; [exact Hs|]. destruct Hinv as [HO HR]. unfold drop_account. split; simpl.
    + intros account' i o. unfold objects_of. simpl. rewrite lookup_delete. case_decide; [done|]. apply HO.
    + intros account' r'. rewrite lookup_delete_Some. intros [_ Hr]. by eapply HR.
  - exact Hinv.
Qed.

Lemma objects_of_drop account account' d :
  objects_of account' (drop_account account d) = if decide (account = account') then ∅ else objects_of account' d.
Proof. unfold objects_of, drop_account. simpl. rewrite lookup_delete. by case_decide. Qed.
Lemma events_of_drop account account' d :
  events_of account' (drop_account account d) = if decide (account = account') then ∅ else events_of account' d.
Proof. unfold events_of, drop_account. simpl. rewrite lookup_delete. by case_decide. Qed.

Lemma db_step_link p ceiling d d' : db_step p ceiling d d' → link_inv d → link_inv d'.
Proof.
  intros Hstep Hinv. step_cases Hstep.
  - eauto with aerobag.
  - eapply same_link; [exact Hs|]. intros account'. simpl. rewrite lookup_insert_None. intros [? _]. by apply Hinv.
  - intros account'. rewrite update_account_lookup. intros Hn. apply Hinv. case_decide; [|done]. by apply fmap_None in Hn.
  - eapply same_link; [exact Hs|]. intros account' Hn. simpl in Hn. rewrite lookup_alter in Hn.
    case_decide; subst; [by rewrite Ha in Hn|]. rewrite objects_of_put_ne by done. by apply (Hinv account').
  - intros account' Hn. simpl in Hn. destruct (Hinv _ Hn) as (Hr & Ho & He). rewrite objects_of_put_ne; [done|].
    intros <-. by rewrite Ho in Hi.
  - eapply same_link; [exact Hs|]. intros account' Hn. rewrite update_account_lookup in Hn.
    assert (accounts d !! account' = None) as Hn'.
    { case_decide; [|done]. by apply fmap_None in Hn. }
    destruct (Hinv _ Hn') as (Hr & Ho & He).
    assert (account ≠ account') by (intros <-; by rewrite Ho in Hi).
    pose proof (objects_of_put_ne account account' (delete i (objects_of account d)) d) as Hput.
    unfold objects_of, events_of in *. simpl in *. rewrite Hput by done. done.
  - intros account'. rewrite Hacc, Hroots, lookup_insert_None. intros [Hn Hne]. rewrite lookup_insert_ne by done.
    destruct (Hinv _ Hn) as (Hr & Ho & He). unfold objects_of, events_of in *. rewrite Hobj, Hev, lookup_insert_ne by done. done.
  - eapply same_link; [exact Hs|]. intros account' Hn. rewrite objects_of_drop, events_of_drop. simpl in Hn.
    unfold drop_account. simpl. rewrite lookup_delete_None in Hn. rewrite lookup_delete. case_decide; [done|].
    destruct Hn as [?|Hn]; [done|]. by apply Hinv.
  - intros account'. rewrite update_account_lookup. intros Hn. apply Hinv. case_decide; [|done]. by apply fmap_None in Hn.
Qed.

(** Readiness survives what does not touch a ready object. *)
Lemma ready_put account rows d account' child :
  (account = account' → is_ready account' child d → ∃ o, rows !! child = Some o ∧ o_state o = ObjReady) →
  is_ready account' child d → is_ready account' child (put_objects_of account rows d).
Proof.
  intros Hrows Hr. unfold is_ready. rewrite objects_of_put. case_decide; [by apply Hrows|exact Hr].
Qed.

Lemma db_step_closed p ceiling d d' : db_step p ceiling d d' → closed_inv d → closed_inv d'.
Proof.
  intros Hstep Hinv. step_cases Hstep.
  - eauto with aerobag.
  - by eapply same_closed.
  - exact Hinv.
  - eapply same_closed; [exact Hs|]. intros account' child Hc. apply ready_put; [|by apply (Hinv account')].
    intros <- (o' & Ho & Hr). exists o'. split; [|done]. apply lookup_insert_Some. right. split; [|done].
    intros <-. change (objects_of account d !! i = Some o') in Ho. congruence.
  - intros account' child Hc. apply ready_put; [|by apply (Hinv account')]. intros <- (o' & Ho & Hr).
    destruct (decide (i = child)) as [<-|].
    + exists (with_ready o). by rewrite lookup_insert_eq.
    + exists o'. by rewrite lookup_insert_ne.
  - eapply same_closed; [exact Hs|]. intros account' child Hc.
    change (child ∈ root_children account' d) in Hc.
    assert (is_ready account' child (put_objects_of account (delete i (objects_of account d)) d)) as H'; [|exact H'].
    apply ready_put; [|by apply Hinv]. intros <- (o' & Ho & Hr). exists o'. split; [|done].
    apply lookup_delete_Some. split; [|done]. intros <-. destruct Hout as [Hp|[_ Hout]]; [congruence|done].
  - intros account' child Hc.
    assert (is_ready account' child d) as (o' & Ho & Hr); [|exists o'; unfold objects_of in *; by rewrite Hobj].
    unfold root_children in Hc. rewrite Hroots in Hc. destruct (decide (account = account')) as [<-|Hne].
    + rewrite lookup_insert_eq in Hc. destruct (children_from_json (r_children_json r)) as [c|] eqn:Hc'; simpl in Hc.
      * by eapply Hch.
      * by apply elem_of_nil in Hc.
    + rewrite lookup_insert_ne in Hc by done. by apply Hinv.
  - eapply same_closed; [exact Hs|]. intros account' child Hc. unfold root_children, drop_account in Hc. simpl in Hc.
    rewrite lookup_delete in Hc. case_decide as Hd; [by apply elem_of_nil in Hc|].
    destruct (Hinv account' child Hc) as (o & Ho & Hr). exists o. rewrite objects_of_drop, decide_False by done. done.
  - exact Hinv.
Qed.

(** The history of each account only grows at its end, by the root that is swapped in; it
    starts over when the account is deleted. *)
Inductive history_change (account : bytes) (h : list bytes) (d d' : Db) : list bytes → Prop :=
| history_stays : roots d' !! account = roots d !! account → history_change account h d d' h
| history_grows hash r :
    roots d' !! account = Some r → r_root_hash r = hash → history_change account h d d' (h ++ [hash])
| history_ends : accounts d' !! account = None → history_change account h d d' [].

Lemma history_account_only d d' account h :
  (∀ a, accounts d !! account = Some a → ∃ a', accounts d' !! account = Some a' ∧ a_event_sequence a' = a_event_sequence a) →
  (accounts d !! account = None → ∀ a', accounts d' !! account = Some a' → a_event_sequence a' = 0) →
  roots d' !! account = roots d !! account → events_of account d' = events_of account d →
  history d account h → history d' account h.
Proof.
  intros Hsome Hnone Hr He (Ha & Hroot & Hev). unfold history. rewrite Hr, He. split; [|done].
  destruct (accounts d !! account) as [a|].
  - destruct (Hsome a eq_refl) as (a' & -> & Hs). congruence.
  - subst h. destruct (accounts d' !! account) as [a'|]; [|done]. by rewrite (Hnone eq_refl a' eq_refl).
Qed.

Lemma history_swap d d' account a r e now upto h x :
  accounts d !! account = Some a → r_revision r = match roots d !! account with Some r0 => r_revision r0 | None => 0 end + 1 →
  e_root_revision e = r_revision r → e_root_hash e = r_root_hash r → 0 ≤ upto ≤ Z.max 0 (a_event_sequence a) →
  accounts d' !! account = Some (with_event_sequence (a_event_sequence a + 1) now x) → roots d' !! account = Some r →
  events_of account d' = filter (λ kv, ¬ (kv.1 ≤ upto)) (<[a_event_sequence a + 1 := e]> (events_of account d)) →
  history d account h → history d' account (h ++ [r_root_hash r]).
Proof.
  intros Ha Hrev Her Heh Hup Ha' Hr' Hev' (Hseq & Hroot & lo & Hlo & Hev). rewrite Ha in Hseq.
  assert (r_revision r = len h + 1) as Hrl.
  { rewrite Hrev. destruct (roots d !! account); [lia|]. by subst h. }
  pose proof (len_nonneg h). unfold history. rewrite Ha', Hr', Hev', len_app. change (len [r_root_hash r]) with 1.
  split; [simpl; lia|]. split; [split; [lia|by rewrite last_snoc]|].
  exists (Z.max lo (upto + 1)). split; [lia|]. intros seq. rewrite map_lookup_filter, lookup_insert.
  destruct (decide (a_event_sequence a + 1 = seq)) as [Hs|Hs]; simpl.
  - case_guard as Hg; simpl; [|lia]. split; [lia|]. split; [lia|].
    rewrite lookup_app_r by (unfold len in *; lia). rewrite Heh.
    replace (Z.to_nat (seq - 1) - length h)%nat with 0%nat by (unfold len in *; lia). done.
  - specialize (Hev seq). destruct (events_of account d !! seq) as [e'|]; simpl; [|lia].
    case_guard as Hg; simpl in *; [|lia]. destruct Hev as (Hrange & Hre & Hh).
    split; [lia|]. split; [done|]. rewrite lookup_app_l; [done|]. unfold len in *. lia.
Qed.

Lemma db_step_history p ceiling d d' account h :
  db_step p ceiling d d' → link_inv d → history d account h →
  ∃ h', history d' account h' ∧ history_change account h d d' h'.
Proof.
  intros Hstep Hlink Hh. rename account into acct. step_cases Hstep.
  - exists h. split; [eauto with aerobag|]. constructor. by destruct Hs as (_ & -> & _).
  - exists h. split; [|constructor; by destruct Hs as (_ & -> & _)]. eapply same_history; [exact Hs|].
    eapply history_account_only; [| | | |exact Hh]; try done; simpl.
    + intros a0 Ha0. exists a0. split; [|done]. rewrite lookup_insert_ne; [done|]. congruence.
    + intros Hn a'. rewrite lookup_insert_Some. intros [[_ <-]|[_ ?]]; [done|congruence].
  - exists h. split; [|by constructor]. eapply history_account_only; [| | | |exact Hh]; try done.
    + intros a0 Ha0. rewrite update_account_lookup, Ha0. case_decide; [|by eexists]. simpl. eexists. split; [done|]. apply Hk.
    + intros Hn a'. rewrite update_account_lookup, Hn. by case_decide.
  - exists h. split; [|constructor; by destruct Hs as (_ & -> & _)]. eapply same_history; [exact Hs|].
    eapply history_account_only; [| | | |exact Hh]; try done; simpl.
    + intros a0 Ha0. rewrite lookup_alter. case_decide; subst; rewrite Ha0; by eexists.
    + intros Hn a'. rewrite lookup_alter. by case_decide; subst; rewrite Hn.
  - exists h. split; [|by constructor]. eapply history_account_only; [| | | |exact Hh]; try done; simpl.
    + intros a0 Ha0. by exists a0.
    + intros Hn a'. congruence.
  - exists h. split; [|constructor; by destruct Hs as (_ & -> & _)]. eapply same_history; [exact Hs|].
    eapply history_account_only; [| | | |exact Hh]; try done; simpl.
    + intros a0 Ha0. rewrite lookup_alter. case_decide; subst; rewrite Ha0; simpl; eexists; (split; [done|]); [apply Hreturns|done].
    + intros Hn a'. rewrite lookup_alter. by case_decide; subst; rewrite Hn.
  - destruct (decide (account = acct)) as [->|Hne].
    + exists (h ++ [r_root_hash r]). split.
      * eapply (history_swap d d' acct a r e now upto); [exact Ha|by rewrite Hrv|congruence|congruence|exact Hup|..|exact Hh].
        -- by rewrite Hacc, lookup_insert_eq.
        -- by rewrite Hroots, lookup_insert_eq.
        -- unfold events_of at 1. by rewrite Hev, lookup_insert_eq.
      * eapply history_grows; [by rewrite Hroots, lookup_insert_eq|done].
    + exists h. split; [|constructor; by rewrite Hroots, lookup_insert_ne].
      eapply history_account_only; [| | | |exact Hh].
      * intros a0 Ha0. exists a0. by rewrite Hacc, lookup_insert_ne.
      * intros Hn a'. rewrite Hacc, lookup_insert_ne by done. congruence.
      * by rewrite Hroots, lookup_insert_ne.
      * unfold events_of. by rewrite Hev, lookup_insert_ne.
  - destruct (decide (account = acct)) as [->|Hne].
    + exists []. split.
      * eapply same_history; [exact Hs|]. unfold history. rewrite events_of_drop, decide_True by done.
        unfold drop_account. simpl. rewrite !lookup_delete_eq. split; [done|]. split; [done|].
        exists 1. split; [done|]. intros seq. rewrite lookup_empty. unfold len. simpl. lia.
      * apply history_ends. destruct Hs as (-> & _). unfold drop_account. simpl. by rewrite lookup_delete_eq.
    + exists h. assert (roots (drop_account account d) !! acct = roots d !! acct) as Hr
        by (unfold drop_account; simpl; by rewrite lookup_delete_ne).
      split; [|constructor; by destruct Hs as (_ & -> & _)].
      eapply same_history; [exact Hs|]. eapply history_account_only; [| |exact Hr| |exact Hh].
      * intros a0 Ha0. exists a0. unfold drop_account. simpl. by rewrite lookup_delete_ne.
      * intros Hn a'. unfold drop_account. simpl. rewrite lookup_delete_ne by done. congruence.
      * by rewrite events_of_drop, decide_False.
  - exists h. split; [|by constructor]. eapply history_account_only; [| | | |exact Hh]; try done.
    + intros a0 Ha0. rewrite update_account_lookup, Ha0. case_decide; [|by eexists]. simpl. eexists. split; [done|]. apply Hk.
    + intros Hn a'. rewrite update_account_lookup, Hn. by case_decide.
Qed.

(** Charges *)
Definition sum_accounts (m : gmap bytes AccountRow) : Z := map_fold (λ _ a acc, a_stored_bytes a + acc) 0 m.
Lemma sum_insert account a m : m !! account = None → sum_accounts (<[account := a]> m) = a_stored_bytes a + sum_accounts m.
Proof. intros Hm. unfold sum_accounts. rewrite map_fold_insert_L; [done|intros; lia|done]. Qed.
Lemma sum_delete account a m : m !! account = Some a → sum_accounts m = a_stored_bytes a + sum_accounts (delete account m).
Proof. intros Hm. unfold sum_accounts. rewrite (map_fold_delete_L _ _ account a); [done|intros; lia|done]. Qed.
Lemma sum_replace account a a' m :
  m !! account = Some a → sum_accounts (<[account := a']> m) = sum_accounts m - a_stored_bytes a + a_stored_bytes a'.
Proof.
  intros Hm. rewrite <- insert_delete_eq, sum_insert by apply lookup_delete_eq. rewrite (sum_delete account a m) by done. lia.
Qed.
Lemma sum_alter account f m :
  sum_accounts (alter f account m)
  = sum_accounts m + match m !! account with Some a => a_stored_bytes (f a) - a_stored_bytes a | None => 0 end.
Proof.
  destruct (m !! account) as [a|] eqn:Hm.
  - assert (alter f account m = <[account := f a]> m) as ->.
    { apply map_eq. intros k. rewrite lookup_alter, lookup_insert. case_decide; subst; [by rewrite Hm|done]. }
    rewrite (sum_replace account a) by done. lia.
  - assert (alter f account m = m) as ->; [|lia].
    apply map_eq. intros k. rewrite lookup_alter. case_decide; subst; [by rewrite Hm|done].
Qed.
Lemma sum_stored_accounts d : sum_stored d = sum_accounts (accounts d).
Proof. done. Qed.

(** Charges of accounts that a transition does not touch. *)
Lemma account_ok_other d d' account a :
  roots d' !! account = roots d !! account → objects_of account d' = objects_of account d →
  account_ok d account a → account_ok d' account a.
Proof. intros Hr Ho. unfold account_ok, usage. by rewrite Hr, Ho. Qed.

Lemma usage_put account account' rows d :
  usage account' (put_objects_of account rows d)
  = (if decide (account = account') then objects_charge rows else objects_charge (objects_of account' d))
    + root_charge (roots d !! account').
Proof. unfold usage. rewrite objects_of_put. by case_decide. Qed.

Lemma root_bytes_nonneg n json : 0 ≤ n → 0 ≤ root_storage_bytes n json.
Proof.
  intros Hn. unfold root_storage_bytes. pose proof (len_nonneg json).
  repeat apply saturating_add_nonneg; unfold u64_max, ROOT_STORAGE_ACCOUNTING_OVERHEAD_BYTES; lia.
Qed.
Lemma root_charge_nonneg r : (∀ x, r = Some x → root_wf x) → 0 ≤ root_charge r.
Proof.
  intros Hr. destruct r as [r|]; [|done]. destruct (Hr r eq_refl) as [Hb _]. simpl.
  apply root_bytes_nonneg. rewrite Hb. apply len_nonneg.
Qed.
Lemma objects_charge_nonneg account rows :
  (∀ i o, rows !! i = Some o → object_wf account i o) → 0 ≤ objects_charge rows.
Proof.
  induction rows as [|i o rows Hi IH] using map_ind; intros Hwf; [done|]. rewrite objects_charge_insert by done.
  assert (0 ≤ object_charge i o) by (apply object_charge_nonneg, (Hwf i o), lookup_insert_eq).
  assert (0 ≤ objects_charge rows); [|lia]. apply IH. intros j o' Hj. apply Hwf. rewrite lookup_insert_ne; [done|].
  intros ->. congruence.
Qed.

Lemma account_update_ok f account d a :
  keeps_usage f → (a_quota_bytes (f a) = a_quota_bytes a ∨ a_stored_bytes a ≤ a_quota_bytes (f a) ≤ i64_max) →
  account_ok d account a → account_ok d account (f a).
Proof.
  intros Hk Hq (Hs & Hc & Hr & Hqm & Hl & Hlm). destruct (Hk a) as (Es & Ec & _ & El).
  unfold account_ok. rewrite Es, Ec, El. repeat split; try done; lia.
Qed.

(** The charged account after a transition of its rows. *)
Lemma usage_inv_touch ceiling d d' account a a' :
  usage_inv ceiling d → accounts d !! account = Some a → accounts d' = <[account := a']> (accounts d) →
  (∀ acct, acct ≠ account → roots d' !! acct = roots d !! acct ∧ objects_of acct d' = objects_of acct d) →
  account_ok d' account a' → sum_stored d - a_stored_bytes a + a_stored_bytes a' ≤ ceiling → usage_inv ceiling d'.
Proof.
  intros [Hok Hsum] Ha Hacc Hother Hok' Hc. split.
  - intros acct b. rewrite Hacc, lookup_insert_Some. intros [[<- <-]|[Hne Hb]]; [done|].
    destruct (Hother acct) as [Hr Ho]; [done|]. eapply account_ok_other; [exact Hr|exact Ho|by apply Hok].
  - rewrite sum_stored_accounts, Hacc, (sum_replace account a) by done. exact Hc.
Qed.

Lemma alter_insert (account : bytes) (f : AccountRow → AccountRow) (m : gmap bytes AccountRow) a :
  m !! account = Some a → alter f account m = <[account := f a]> m.
Proof.
  intros Hm. apply map_eq. intros k. rewrite lookup_alter, lookup_insert. case_decide; subst; [by rewrite Hm|done].
Qed.

Lemma account_of_object d account i o :
  link_inv d → objects_of account d !! i = Some o → ∃ a, accounts d !! account = Some a.
Proof.
  intros Hlink Hi. destruct (accounts d !! account) as [a|] eqn:Ha; [by exists a|].
  destruct (Hlink account Ha) as (_ & Ho & _). by rewrite Ho in Hi.
Qed.

Lemma usage_insert ceiling d account a i o :
  usage_inv ceiling d → accounts d !! account = Some a → objects_of account d !! i = None → object_wf account i o →
  a_stored_bytes a + object_charge i o ≤ a_quota_bytes a → a_object_count a + 1 ≤ a_object_limit a →
  sum_stored d + object_charge i o ≤ ceiling →
  usage_inv ceiling (put_objects_of account (<[i := o]> (objects_of account d))
    (update_account account (λ a, with_stored (a_stored_bytes a + object_charge i o) (a_object_count a + 1) a) d)).
Proof.
  intros Hinv Ha Hi Hwf Hq Hl Hc. eapply usage_inv_touch; [exact Hinv|exact Ha|simpl; by rewrite (alter_insert _ _ _ a)|..].
  - intros acct Hne. split; [done|]. by rewrite objects_of_put_ne.
  - destruct Hinv as [Hok _]. destruct (Hok _ _ Ha) as (Es & Ec & Hr & Hqm & _ & Hlm).
    assert (0 ≤ object_charge i o) by (apply object_charge_nonneg, Hwf).
    unfold account_ok. rewrite usage_put, decide_True, objects_of_put_eq by done. simpl.
    rewrite objects_charge_insert, map_size_insert_None by done. unfold usage in Es. repeat split; try lia.
  - simpl. lia.
Qed.

Lemma usage_ready ceiling d account i o :
  link_inv d → usage_inv ceiling d → objects_of account d !! i = Some o →
  usage_inv ceiling (put_objects_of account (<[i := with_ready o]> (objects_of account d)) d).
Proof.
  intros Hlink Hinv Hi. destruct (account_of_object d account i o Hlink Hi) as [a Ha].
  eapply (usage_inv_touch _ _ _ account a a); [exact Hinv|exact Ha|simpl; by rewrite insert_id|..].
  - intros acct Hne. split; [done|]. by rewrite objects_of_put_ne.
  - destruct Hinv as [Hok _]. destruct (Hok _ _ Ha) as (Es & Ec & Hr & Hrest).
    unfold account_ok. rewrite usage_put, decide_True, objects_of_put_eq by done.
    rewrite (objects_charge_replace i o) by done. rewrite map_size_insert_Some by (by eexists). done.
  - destruct Hinv. lia.
Qed.

Lemma usage_remove ceiling d account i o f :
  rows_inv d → link_inv d → usage_inv ceiling d → objects_of account d !! i = Some o → returns False (object_charge i o) f →
  usage_inv ceiling (update_account account f (put_objects_of account (delete i (objects_of account d)) d)).
Proof.
  intros Hrows Hlink Hinv Hi [Hk [[]|Hf]]. destruct (account_of_object d account i o Hlink Hi) as [a Ha].
  pose proof Hinv as [Hok Hsum]. destruct (Hok _ _ Ha) as (Es & Ec & Hr & Hqm & Hl & Hlm).
  assert (0 ≤ object_charge i o) by (apply object_charge_nonneg, (proj1 Hrows account i o), Hi).
  pose proof (objects_charge_delete i o _ Hi) as Hdel.
  assert (0 ≤ objects_charge (delete i (objects_of account d))).
  { apply (objects_charge_nonneg account). intros j o'. rewrite lookup_delete_Some. intros [_ Hj]. by apply Hrows. }
  assert (0 ≤ root_charge (roots d !! account)) by (apply root_charge_nonneg; intros x; apply Hrows).
  assert (size (objects_of account d) ≠ 0%nat) by (intros Hz%map_size_empty_iff; by rewrite Hz in Hi).
  unfold usage in Es. destruct (Hf a) as [Fs Fc]; [lia|lia|]. destruct (Hk a) as (_ & Fq & Fl).
  eapply usage_inv_touch; [exact Hinv|exact Ha|simpl; by rewrite (alter_insert _ _ _ a)|..].
  - intros acct Hne. split; [done|].
    change (objects_of acct (put_objects_of account (delete i (objects_of account d)) d) = objects_of acct d).
    by rewrite objects_of_put_ne.
  - assert (account_ok (put_objects_of account (delete i (objects_of account d)) d) account (f a)) as Hdone; [|exact Hdone].
    unfold account_ok. rewrite usage_put, decide_True, objects_of_put_eq by done. rewrite Fs, Fc, Fq, Fl.
    rewrite map_size_delete_Some by (by eexists). repeat split; lia.
  - rewrite Fs. lia.
Qed.

Lemma db_step_usage p ceiling d d' :
  ¬ p_unfair p → db_step p ceiling d d' → rows_inv d → link_inv d → usage_inv ceiling d → usage_inv ceiling d'.
Proof.
  intros Hfair Hstep Hrows Hlink Hinv. pose proof Hinv as [Hok Hsum]. step_cases Hstep.
  - by eapply same_usage_inv.
  - eapply same_usage_inv; [exact Hs|]. split.
    + intros acct a'. simpl. rewrite lookup_insert_Some. intros [[<- <-]|[Hne Ha']].
      * destruct (Hlink account Hnone) as (Hr & Ho & _). unfold account_ok, usage.
        change (objects_of account (put_accounts (<[account:=a]> (accounts d)) d)) with (objects_of account d).
        simpl. rewrite Hr, Ho, Hst, Hct. repeat split; try done; lia.
      * eapply account_ok_other; [..|by apply Hok]; done.
    + rewrite sum_stored_accounts. simpl. rewrite sum_insert by done. rewrite Hst. exact Hsum.
  - split.
    + intros acct a'. rewrite update_account_lookup. case_decide as He; [subst acct|by apply Hok].
      intros (a & Ha & ->)%fmap_Some_1. by apply (account_update_ok f account d a); auto.
    + rewrite sum_stored_accounts. unfold update_account. simpl. rewrite sum_alter.
      destruct (accounts d !! account) as [a|]; [destruct (Hk a) as (-> & _)|]; rewrite <- sum_stored_accounts; lia.
  - eapply same_usage_inv; [exact Hs|]. by eapply usage_insert.
  - by apply usage_ready.
  - eapply same_usage_inv; [exact Hs|]. eapply usage_remove; [done..|].
    destruct Hreturns as [Hk [Hu|Hf]]; [done|]. split; [done|by right].
  - eapply (usage_inv_touch _ d d' account a); [exact Hinv|exact Ha|exact Hacc|..].
    + intros acct Hne. unfold objects_of. by rewrite Hroots, lookup_insert_ne, Hobj.
    + destruct (Hok _ _ Ha) as (Es & Ec & Hr & Hqm & Hl & Hlm). unfold account_ok, usage, objects_of in *.
      rewrite Hroots, Hobj, lookup_insert_eq.
      cbn [with_event_sequence with_stored a_stored_bytes a_object_count a_quota_bytes a_object_limit].
      assert (0 ≤ objects_charge (default ∅ (objects d !! account))) by (apply (objects_charge_nonneg account); apply Hrows).
      assert (0 ≤ root_charge (roots d !! account)) by (apply root_charge_nonneg; intros x; apply Hrows).
      assert (0 ≤ root_charge (Some r)) by (apply root_charge_nonneg; by intros x [= <-]).
      unfold saturating_sub. repeat split; lia.
    + destruct (Hok _ _ Ha) as (Es & _). unfold usage in Es. cbn [with_event_sequence with_stored a_stored_bytes].
      assert (0 ≤ objects_charge (objects_of account d)) by (apply (objects_charge_nonneg account); apply Hrows).
      assert (0 ≤ root_charge (roots d !! account)) by (apply root_charge_nonneg; intros x; apply Hrows).
      unfold saturating_sub. lia.
  - eapply same_usage_inv; [exact Hs|]. split.
    + intros acct a Ha. unfold drop_account in Ha. simpl in Ha. apply lookup_delete_Some in Ha as [Hne Ha].
      eapply account_ok_other; [..|by apply Hok].
      * unfold drop_account. simpl. by rewrite lookup_delete_ne.
      * by rewrite objects_of_drop, decide_False.
    + rewrite sum_stored_accounts. unfold drop_account. simpl. destruct (accounts d !! account) as [a|] eqn:Ha.
      * rewrite sum_stored_accounts, (sum_delete account a) in Hsum by done. destruct (Hok _ _ Ha) as (_ & _ & Hr & _). lia.
      * by rewrite delete_id.
  - done.
Qed.
End rows.
