(* ===== verification/AcsStoreSteps.v ===== *)
(** * The operations of the cloud server's store as transitions of its tables

    Every operation leaves no transaction open and takes its tables through transitions of
    [AcsStoreInv], whatever the database and the file system do. Operations that another
    request may run between the parts of are treated part by part. *)

From Stdlib Require Import Strings.Byte.
From stdpp Require Import base gmap list strings sorting relations.
From S2P Require Import Prelude CloudRecords AcsContracts CloudAcs AcsLimits AcsStoreState AcsStore AcsGc AcsAuth.
From S2P Require Import AcsStoreRun AcsStoreInv.

Local Open Scope Z_scope.

Section steps.
Context `{ServerLaws} (cfg : StoreConfig) (Hret : 1 ≤ event_retention cfg).

Definition steps (p : Perm) : Db → Db → Prop := rtc (db_step p (global_storage_limit_bytes cfg)).

(** What an operation may do to the tables and the files. *)
Definition files_may (p : Perm) (fs fs' : gmap FilePath BlobFile) : Prop := p_files p ∨ fs' = fs.
Definition moves (p : Perm) (c : Core) {A} (r : result StoreError A) (c' : Core) : Prop :=
  c_saved c' = None ∧ steps p (c_db c) (c_db c') ∧ files_may p (c_files c) (c_files c').
Definition Moves (p : Perm) {A} (m : M A) : Prop :=
  ∀ c, c_saved c = None → rows_inv (c_db c) → run m c (moves p c).

Lemma moves_refl p c {A} (r : result StoreError A) : c_saved c = None → moves p c r c.
Proof. intros Hc. split; [done|]. split; [apply rtc_refl|by right]. Qed.
Lemma moves_trans p c c1 c2 {A B} (r : result StoreError A) (r' : result StoreError B) :
  moves p c r c1 → moves p c1 r' c2 → moves p c r' c2.
Proof.
  intros (_ & Hst & Hf) (Hc & Hst' & Hf'). split; [done|]. split; [unfold steps in *; by etrans|].
  destruct Hf as [Hf|Hf], Hf' as [Hf'|Hf']; [by left..|right; by rewrite Hf'].
Qed.
Lemma moves_same p c {A} (r : result StoreError A) c' :
  c_saved c' = None → same_data (c_db c) (c_db c') → c_files c' = c_files c → moves p c r c'.
Proof. intros Hc Hs Hf. split; [done|]. split; [by apply rtc_once, step_same|by right]. Qed.
Lemma steps_rows p d d' : steps p d d' → rows_inv d → rows_inv d'.
Proof. induction 1; eauto using db_step_rows. Qed.

Lemma steps_weaken p q d d' : perm_le p q → steps p d d' → steps q d d'.
Proof. intros Hle Hst. eapply rtc_subrel; [|exact Hst]. intros ? ?. by apply db_step_weaken. Qed.

Lemma Moves_quiet p {A} (m : M A) : Quiet m → Moves p m.
Proof. intros Hq c Hc _. apply run_quiet; [done|]. intros r. by apply moves_refl. Qed.
Lemma Moves_bind p {A B} (m : M A) (f : A → M B) : Moves p m → (∀ a, Moves p (f a)) → Moves p (m ≫= f).
Proof.
  intros Hm Hf c Hc Hrows. apply run_bind. eapply run_mono; [by apply Hm|]. intros [a|e] c' Hm'; simpl; [|done].
  pose proof Hm' as (Hc' & Hst & _). eapply run_mono; [apply Hf; [done|by eapply steps_rows]|].
  intros r c2 Hm2. by eapply moves_trans.
Qed.

(** Administrative tables *)
Lemma Moves_execute_same p f : (∀ d, same_data d (f d)) → Moves p (execute f).
Proof. intros Hf c Hc _. run_step; [by apply moves_same|by apply moves_refl]. Qed.
Lemma Moves_try_execute_same p f :
  (∀ d d', f d = Ok d' → same_data d d') → Moves p (try_execute f).
Proof. intros Hf c Hc _. run_step; [by apply moves_same; eauto|by apply moves_refl]. Qed.
Lemma Moves_execute_returning_same p {A} (f : Db → result bytes (A * Db)) :
  (∀ d a d', f d = Ok (a, d') → same_data d d') → Moves p (execute_returning f).
Proof. intros Hf c Hc _. run_step; [apply moves_same; simpl; [done|eauto|done]|by apply moves_refl]. Qed.

(** ** Inside a transaction

    The tables have moved on from those the transaction began with, which come back unless
    it has been committed. *)
Definition tx_ok (p : Perm) (d0 : Db) (fs : gmap FilePath BlobFile) (c : Core) : Prop :=
  (c_saved c = None ∨ c_saved c = Some d0) ∧ steps p d0 (c_db c) ∧ files_may p fs (c_files c).
Definition InTx (p : Perm) {A} (m : M A) : Prop :=
  ∀ d0 fs c, rows_inv d0 → tx_ok p d0 fs c → run m c (λ _ c', tx_ok p d0 fs c').

Lemma InTx_quiet p {A} (m : M A) : Quiet m → InTx p m.
Proof. intros Hq d0 fs c _ Hc. by apply run_quiet. Qed.
Lemma InTx_bind p {A B} (m : M A) (f : A → M B) : InTx p m → (∀ a, InTx p (f a)) → InTx p (m ≫= f).
Proof.
  intros Hm Hf d0 fs c Hr Hc. apply run_bind. eapply run_mono; [by apply Hm|]. intros [a|e] c' Hc'; simpl; [|done].
  by apply Hf.
Qed.
Lemma InTx_step p (f : Db → Db) :
  (∀ d, rows_inv d → db_step p (global_storage_limit_bytes cfg) d (f d)) → InTx p (execute f).
Proof.
  intros Hf d0 fs c Hr (Hs & Hst & Hfs). run_step; [|done]. split; [done|]. split; [|done]. simpl. unfold steps in *.
  eapply rtc_r; [exact Hst|]. apply Hf. by eapply steps_rows.
Qed.
Lemma InTx_try_step p (f : Db → result bytes Db) :
  (∀ d d', rows_inv d → f d = Ok d' → db_step p (global_storage_limit_bytes cfg) d d') → InTx p (try_execute f).
Proof.
  intros Hf d0 fs c Hr (Hs & Hst & Hfs). run_step; [|done]. split; [done|]. split; [|done]. simpl. unfold steps in *.
  eapply rtc_r; [exact Hst|]. apply Hf; [by eapply steps_rows|done].
Qed.
Lemma InTx_execute_returning p {A} (f : Db → result bytes (A * Db)) :
  (∀ d a d', rows_inv d → f d = Ok (a, d') → db_step p (global_storage_limit_bytes cfg) d d') →
  InTx p (execute_returning f).
Proof.
  intros Hf d0 fs c Hr (Hs & Hst & Hfs). run_step; [|done]. split; [done|]. split; [|done]. simpl. unfold steps in *.
  eapply rtc_r; [exact Hst|]. eapply Hf; [by eapply steps_rows|done].
Qed.
Lemma InTx_commit p : InTx p commit.
Proof. intros d0 fs c Hr [Hs Hst]. run_step; [|done]. split; [by left|done]. Qed.

Lemma rolled_back_moves p c c' {A} (r : result StoreError A) :
  tx_ok p (c_db c) (c_files c) c' → moves p c r (rolled_back c').
Proof.
  intros (Hs & Hst & Hfs). unfold rolled_back. destruct (c_saved c') as [d|] eqn:Hsv; [|done].
  destruct Hs as [?|[= ->]]; [done|]. split; [done|]. split; [apply rtc_refl|done].
Qed.
Lemma Moves_transaction p {A} (body : M A) : InTx p body → Moves p (transaction body).
Proof.
  intros Hb c Hc Hr. apply run_transaction; [done| |intros text; by apply moves_refl].
  eapply run_mono; [apply (Hb (c_db c) (c_files c)); [done|]|].
  - split; [by right|]. split; [apply rtc_refl|by right].
  - intros r c'. by apply rolled_back_moves.
Qed.

(** Decomposes an operation into its statements. *)
Ltac parts :=
  repeat match goal with
  | |- Moves _ (_ ≫= _) => apply Moves_bind; [|intros ?]
  | |- Moves _ (transaction _) => apply Moves_transaction
  | |- InTx _ (_ ≫= _) => apply InTx_bind; [|intros ?]
  | |- InTx _ commit => apply InTx_commit
  | |- Moves _ _ => solve [apply Moves_quiet; quiet_tac]
  | |- InTx _ _ => solve [apply InTx_quiet; quiet_tac]
  | |- Moves _ (match _ with _ => _ end) => case_match
  | |- InTx _ (match _ with _ => _ end) => case_match
  | |- Moves _ (execute _) => apply Moves_execute_same; by intros
  | |- InTx _ (execute _) => apply InTx_step; intros ? _; by apply step_same
  end.

(** A statement that only touches administrative tables, whatever it decides. *)
Ltac same_tac :=
  intros; repeat (case_match; simplify_eq/=); inv_ok; try done;
  repeat match goal with H : (_ ≫= _) = Ok _ |- _ => apply bind_Ok in H as (? & ? & H) end; simplify_eq/=; done.

Lemma Moves_ensure_new_storage_write p now : Moves p (ensure_new_storage_write cfg now).
Proof. unfold ensure_new_storage_write. parts. Qed.

Lemma Moves_issue_creation_challenge p network now : Moves p (issue_creation_challenge cfg network now).
Proof.
  unfold issue_creation_challenge. parts; [apply Moves_ensure_new_storage_write|].
  apply InTx_try_step. intros d d' _ Hd. apply step_same. case_match; [done|]. by injection Hd as <-.
Qed.

Lemma InTx_reserve_durable_token_bucket p key c now : InTx p (reserve_durable_token_bucket key c now).
Proof.
  unfold reserve_durable_token_bucket. parts;
    (apply InTx_try_step; intros d d' _ Hd; apply step_same; apply bind_Ok in Hd as (q & _ & [= <-]); done).
Qed.

Lemma param_u64_Ok z n : param_u64 z = Ok n → n = z ∧ 0 ≤ z ≤ i64_max.
Proof. unfold param_u64. destruct (_ || _) eqn:Hb; [done|]. intros [= <-]. zbool. split; [done|lia]. Qed.
Lemma row_u64_Ok z n : row_u64 z = Ok n → n = z ∧ 0 ≤ z ≤ i64_max.
Proof. unfold row_u64. destruct (_ || _) eqn:Hb; [done|]. intros [= <-]. zbool. split; [done|lia]. Qed.

Lemma Moves_create_account p request key network now : Moves p (create_account cfg request key network now).
Proof.
  unfold create_account. parts; try apply Moves_ensure_new_storage_write; try apply InTx_reserve_durable_token_bucket.
  apply InTx_try_step. intros d d' _ Hd. apply bind_Ok in Hd as (q & [-> Hq]%param_u64_Ok & Hd).
  apply bind_Ok in Hd as (l & [-> Hl]%param_u64_Ok & Hd). case_match eqn:Hacc; [done|]. injection Hd as <-.
  by eapply (step_new_account _ _ _ (ca_account_locator request) (new_account_row cfg request key network now)).
Qed.

Lemma Moves_consume_nonce p account key_id nonce expires now :
  Moves p (consume_nonce account key_id nonce expires now).
Proof.
  unfold consume_nonce. parts. apply Moves_execute_returning_same. intros d x d' Hd.
  case_match; by injection Hd as <- <-.
Qed.

Lemma Moves_create_sse_ticket p account seq network now : Moves p (create_sse_ticket account seq network now).
Proof.
  unfold create_sse_ticket. parts. apply Moves_try_execute_same. intros d d' Hd.
  apply bind_Ok in Hd as (n & _ & Hd). repeat case_match; try done. by injection Hd as <-.
Qed.
Lemma Moves_consume_sse_ticket p ticket network now : Moves p (consume_sse_ticket ticket network now).
Proof.
  unfold consume_sse_ticket. parts. apply InTx_execute_returning. intros d x d' _ Hd. apply step_same.
  case_match; [|by injection Hd as <- <-]. apply bind_Ok in Hd as (n & _ & [= <- <-]). done.
Qed.

Lemma Moves_set_service_mode p mode now : Moves p (set_service_mode mode now).
Proof. unfold set_service_mode. parts. Qed.
Lemma Moves_resume_writes_inner p forced reason now : Moves p (resume_writes_inner cfg forced reason now).
Proof. unfold resume_writes_inner. parts. Qed.
Lemma Moves_force_resume_writes p reason now : Moves p (force_resume_writes cfg reason now).
Proof. unfold force_resume_writes. parts. apply Moves_resume_writes_inner. Qed.

Lemma Moves_execute_returning p {A} (f : Db → result bytes (A * Db)) :
  (∀ d a d', f d = Ok (a, d') → db_step p (global_storage_limit_bytes cfg) d d') → Moves p (execute_returning f).
Proof.
  intros Hf c Hc _. run_step; [|by apply moves_refl]. split; [done|]. split; [|by right]. simpl. apply rtc_once. by eapply Hf.
Qed.
Lemma Moves_set_account_mode p account mode now : Moves p (set_account_mode account mode now).
Proof.
  unfold set_account_mode. parts. apply Moves_execute_returning. intros d x d' [= <- <-].
  apply step_update; [done|]. intros b _. by left.
Qed.
Lemma Moves_set_account_quota p account quota now : Moves p (set_account_quota account quota now).
Proof.
  unfold set_account_quota. parts. apply Moves_execute_returning. intros d x d' Hd.
  apply bind_Ok in Hd as (q & [-> Hq]%param_u64_Ok & Hd). case_match eqn:Hacc; [|injection Hd as <- <-; by apply step_same].
  case_match eqn:Hle; injection Hd as <- <-; [|by apply step_same]. zbool. apply step_update; [done|].
  intros b Hb. right. simpl. simplify_eq. lia.
Qed.
Lemma Moves_delete_account p account : p_drop p account → Moves p (delete_account account).
Proof.
  intros Hp.   unfold delete_account. parts. apply InTx_execute_returning. intros d x d' _ Hd.
  case_match; injection Hd as <- <-; [by apply step_same|]. by eapply step_drop.
Qed.

(** ** Objects *)

Lemma sum_Ok d n : select_sum_stored d = Ok n → n = sum_stored d ∧ 0 ≤ n ≤ i64_max.
Proof. unfold select_sum_stored. case_match; [done|]. intros [-> ?]%row_u64_Ok. done. Qed.

(** A reservation that succeeds has found room and charged for it. *)
Lemma run_reserve account size limit c (Q : _ → _ → Prop) :
  (∀ a, accounts (c_db c) !! account = Some a → 0 ≤ size →
     a_stored_bytes a + size ≤ a_quota_bytes a → a_object_count a + 1 ≤ a_object_limit a →
     sum_stored (c_db c) + size ≤ limit →
     Q (Ok tt) (with_c_db (update_account account
         (λ a, with_stored (a_stored_bytes a + size) (a_object_count a + 1) a) (c_db c)) c)) →
  (∀ e, Q (Err e) c) →
  run (reserve_account_usage account size limit) c Q.
Proof.
  intros HO HE. unfold reserve_account_usage. run_step. run_step; [|apply HE]. run_step.
  destruct a as [[[stored count] quota] olimit].
  match goal with H : (_ ≫= _) = Ok _ |- _ => rename H into Hrow end.
  apply bind_Ok in Hrow as (a & Ha%ok_or_Ok & Hrow). apply bind_Ok in Hrow as (? & [-> ?]%row_u64_Ok & Hrow).
  apply bind_Ok in Hrow as (? & [-> ?]%row_u64_Ok & Hrow). apply bind_Ok in Hrow as (? & [-> ?]%row_u64_Ok & Hrow).
  apply bind_Ok in Hrow as (? & [-> ?]%row_u64_Ok & Hrow). injection Hrow as <- <- <- <-.
  run_step; [run_step; apply HE|]. run_step. run_step; [|apply HE]. run_step.
  match goal with H : select_sum_stored _ = Ok _ |- _ => apply sum_Ok in H as [-> Hsum] end.
  run_step; [run_step; apply HE|]. run_step; [|apply HE].
  match goal with H : (_ ≫= _) = Ok _ |- _ => apply bind_Ok in H as (n & [-> Hn]%param_u64_Ok & [= <-]) end.
  zbool. unfold saturating_add, u64_max, i64_max in *. apply (HO a); try done; lia.
Qed.

(** What validation of a value establishes. *)
Lemma map_err_Ok {E F A} (f : E → F) (r : result E A) a : map_err f r = Ok a ↔ r = Ok a.
Proof. destruct r; simpl; naive_solver. Qed.
Lemma validate_value_digest v u content :
  validate_value sv_sha256 sv_b64_decode v = Ok u → ciphertext sv_b64_decode v = Ok content →
  sha256_hex content = ciphertext_sha256 v.
Proof.
  unfold validate_value. intros Hv Hc. apply bind_Ok in Hv as (? & _ & Hv). rewrite Hc in Hv. simpl in Hv.
  apply guard_err_Ok in Hv. zbool. done.
Qed.

(** A refused write leaves the tables, or makes the service read-only. *)
Lemma run_refuse {A} error now d0 c (Q : result StoreError A → Core → Prop) :
  c_saved c = Some d0 → c_db c = d0 →
  (∀ e c', (c_saved c' = None ∨ c_saved c' = Some d0) → same_data d0 (c_db c') → c_files c' = c_files c →
     c_events c' = c_events c → Q (Err e) c') →
  run (refuse_usage error now) c Q.
Proof.
  intros Hs Hd HQ. unfold refuse_usage. run_step. run_skip; [|apply HQ; [by right|by rewrite Hd|done|done]]. run_step.
  run_step. case_match.
  - run_step. run_step; run_step; [|run_step; by apply HQ; [right|rewrite Hd| |]]. run_step. run_step; run_step.
    + run_skip; run_step; [run_step|]; (apply HQ; [by left|simpl; by rewrite Hd|done|done]).
    + run_step. apply HQ; [right; exact Hs|simpl; by rewrite Hd|done|done].
  - run_step. run_step. run_step. apply HQ; [by right|by rewrite Hd|done|done].
Qed.

(** The row an upload writes. *)
Definition row_of (v : AcsEncryptedValue) (hash : bytes) (now : Z) (place : option bytes) (o : ObjectRow) : Prop :=
  ∃ content json, ciphertext sv_b64_decode v = Ok content ∧ children_to_json (child_object_ids v) = Ok json
    ∧ sha256_hex content = ciphertext_sha256 v ∧ o = object_row v hash content json now place.
(** Where an upload stands after its row was written. *)
Definition uploading (account object_id : bytes) (v : AcsEncryptedValue) (now : Z) (progress : CreateProgress) (d : Db)
    : Prop :=
  ∃ hash o, authenticated_hash sv_sha256 sv_b64_decode v KindObject object_id = Ok hash
    ∧ objects_of account d !! object_id = Some o ∧
  match progress with
  | Uploading key content size =>
      key = blob_storage_key account object_id (ciphertext_sha256 v) ∧ row_of v hash now (Some key) o
      ∧ ciphertext sv_b64_decode v = Ok content ∧ object_charge object_id o = size
  | StoredInline => row_of v hash now None o
  | AlreadyThere => o_authenticated_hash o = hash
  end.

Definition row_done (p : Perm) (account object_id : bytes) (v : AcsEncryptedValue) (now : Z) (c : Core)
    (r : result StoreError CreateProgress) (c' : Core) : Prop :=
  moves p c r c' ∧ c_files c' = c_files c ∧
  match r with
  | Ok progress => uploading account object_id v now progress (c_db c') ∧ (progress = AlreadyThere → c_db c' = c_db c)
  | Err _ => same_data (c_db c) (c_db c')
  end.

Lemma object_row_wf account object_id v hash content children_json now place c :
  children_to_json c = Ok children_json → sha256_hex content = ciphertext_sha256 v →
  place = None ∨ place = Some (blob_storage_key account object_id (ciphertext_sha256 v)) →
  object_wf account object_id (object_row v hash content children_json now place).
Proof.
  intros Hj Hd Hp. unfold object_wf. simpl. split; [apply len_nonneg|]. split; [by exists c|].
  by destruct Hp as [->| ->].
Qed.

(** The row and its charge are one transition. *)
Lemma insert_charged p d account a object_id o d' :
  accounts d !! account = Some a → object_wf account object_id o →
  (o_state o = ObjPending ∨ o_blob_storage_key o = None) →
  (∀ c child, children_from_json (o_children_json o) = Ok c → child ∈ c → is_ready account child d) →
  a_stored_bytes a + object_charge object_id o ≤ a_quota_bytes a → a_object_count a + 1 ≤ a_object_limit a →
  sum_stored d + object_charge object_id o ≤ global_storage_limit_bytes cfg →
  insert_object account object_id o (update_account account
    (λ a, with_stored (a_stored_bytes a + object_charge object_id o) (a_object_count a + 1) a) d) = Ok d' →
  steps p d d' ∧ objects_of account d' !! object_id = Some o.
Proof.
  intros Ha Hwf Hplace Hkids Hq Hl Hc Hins. unfold insert_object in Hins. simpl in Hins.
  rewrite lookup_alter_eq, Ha in Hins. simpl in Hins.
  change (objects_of account (update_account _ _ d)) with (objects_of account d) in Hins.
  case_match eqn:Hi; [done|]. injection Hins as <-. split.
  - apply rtc_once. by eapply step_insert.
  - by rewrite objects_of_put_eq, lookup_insert_eq.
Qed.

Lemma for_each_ensure {A} (p : A → bool) e l c (Q : _ → _ → Prop) :
  (Forall (λ x, p x = true) l → Q (Ok tt) c) → (∀ e, Q (Err e) c) →
  run (for_each (λ x, ensure (p x) (e x)) l) c Q.
Proof.
  intros HO HE. revert HO. induction l as [|x l IH]; intros HO; simpl; [by run_step; apply HO|].
  run_step. run_step. destruct (p x) eqn:Hx; run_step; [|apply HE]. apply IH. intros HF. apply HO. by constructor.
Qed.

Lemma run_ensure_children account children c (Q : _ → _ → Prop) :
  ((∀ child, child ∈ children → is_ready account child (c_db c)) → Q (Ok tt) c) → (∀ e, Q (Err e) c) →
  run (ensure_children_exist account children) c Q.
Proof.
  intros HO HE. unfold ensure_children_exist. run_step. run_skip; run_step; [|apply HE]. run_step.
  - run_step. zbool. subst. apply HO. intros child Hc. by apply elem_of_nil in Hc.
  - run_step. run_step; [|intros text; run_step; apply HE]. run_step. apply for_each_ensure; [|done].
    intros HF. apply HO. intros child Hc. rewrite Forall_forall in HF. specialize (HF child Hc). zbool.
    unfold ready_ids in HF. apply elem_of_dom in HF as [o Ho]. apply map_lookup_filter_Some in Ho as [Ho Hr]. by exists o.
Qed.

(** Storage writes are admitted without a change, or refused. *)
Lemma run_storage_write now c (Q : _ → _ → Prop) :
  c_saved c = None → Q (Ok tt) c →
  (∀ e c', c_saved c' = None → same_data (c_db c) (c_db c') → c_files c' = c_files c → c_events c' = c_events c →
     Q (Err e) c') →
  run (ensure_new_storage_write cfg now) c Q.
Proof.
  intros Hc HO HE. unfold ensure_new_storage_write. run_step. run_skip; [|by apply HE]. run_step.
  run_step. run_skip; [|by apply HE]. run_step. run_step; [by run_step|]. run_step. run_step; [|by apply HE].
  run_step. run_step. run_skip; run_step; [run_step|]; by apply HE.
Qed.

Lemma run_create_object_row p account object_id v now c :
  c_saved c = None → rows_inv (c_db c) →
  run (create_object_row cfg account object_id v now) c (row_done p account object_id v now c).
Proof.
  intros Hc Hrows. unfold create_object_row. run_step.
  assert (∀ e, row_done p account object_id v now c (Err e) c) as Herr by (intros e; split; [by apply moves_refl|done]).
  apply run_storage_write; [done| |].
  2: { intros e c' Hc' Hs Hf _. split; [by apply moves_same|done]. }
  run_step. run_step. run_step. destruct (map_err invalid (validate_value _ _ v)) as [u|e] eqn:Hval; run_step; [|apply Herr].
  apply map_err_Ok in Hval.
  run_step. run_step. destruct (validate_opaque_id _ _); run_step; [|apply Herr].
  run_step. run_step. destruct (map_err invalid (ciphertext _ v)) as [content|e] eqn:Hct; run_step; [|apply Herr].
  apply map_err_Ok in Hct. pose proof (validate_value_digest v u content Hval Hct) as Hdigest.
  run_step. run_step. destruct (map_err _ (children_to_json _)) as [json|e] eqn:Hjson; run_step; [|apply Herr].
  apply map_err_Ok in Hjson.
  run_step. run_step. destruct (map_err invalid (authenticated_hash _ _ v _ _)) as [hash|e] eqn:Hhash; run_step; [|apply Herr].
  apply map_err_Ok in Hhash. apply run_transaction; [done| |intros; apply Herr].
  set (Q := λ r c', row_done p account object_id v now c r (rolled_back c')).
  assert (∀ e c', c_saved c' = Some (c_db c) → c_files c' = c_files c → Q (Err e) c') as HQ.
  { intros e c' Hs Hf. unfold Q, rolled_back. rewrite Hs. split; [|done]. split; [done|]. split; [apply rtc_refl|by right]. }
  assert (∀ e c', (c_saved c' = None ∨ c_saved c' = Some (c_db c)) → same_data (c_db c) (c_db c') →
            c_files c' = c_files c → c_events c' = c_events c → Q (Err e) c') as HQ'.
  { intros e c' [Hs|Hs] Hd Hf _; [|by apply HQ]. unfold Q, rolled_back. rewrite Hs. split; [by apply moves_same|done]. }
  run_step. run_skip; [|by apply HQ]. run_step. run_step. run_step; [|intros; by apply HQ].
  simpl c_db. destruct (objects_of account (c_db c) !! object_id) as [o|] eqn:Ho; simpl; run_step.
  - run_step. zbool. unfold Q, rolled_back. simpl. split; [split; [done|split; [apply rtc_refl|by right]]|].
    split; [done|]. split; [|done]. by exists hash, o.
  - run_step. by apply HQ.
  - apply run_ensure_children; [|intros e; run_step; by apply HQ]. intros Hkids. run_step. run_step. run_step.
    apply run_reserve; [|intros e; run_step; by eapply run_refuse; [..|apply HQ']].
    intros acc Hacc Hn Hquota Hlimit Hceil. run_step. cbv iota beta.
    assert (∀ place d', place = None ∨ place = Some (blob_storage_key account object_id (ciphertext_sha256 v)) →
      insert_object account object_id (object_row v hash content json now place)
        (update_account account (λ a, with_stored (a_stored_bytes a + object_storage_bytes object_id (len content) json)
                                     (a_object_count a + 1) a) (c_db c)) = Ok d' →
      steps p (c_db c) d' ∧ objects_of account d' !! object_id = Some (object_row v hash content json now place)) as Hins.
    { intros place d' Hp Hd. eapply insert_charged; [exact Hacc|by eapply object_row_wf|..|exact Hd]; try done.
      - destruct Hp as [->| ->]; [by right|by left].
      - intros ch child Hch Hin. apply Hkids. simpl in Hch. rewrite (children_round _ _ Hjson) in Hch. by injection Hch as <-. }
    case_match; run_step; (run_step; [|run_step; by apply HQ]); run_step; run_step; (run_step; run_step; [run_step|by apply HQ]).
    + match goal with H : insert_object _ _ _ _ = Ok _ |- _ => apply (Hins None) in H as [Hst Hrow]; [|by left] end.
      unfold Q, rolled_back, committed. simpl. split; [split; [done|split; [done|by right]]|]. split; [done|]. split; [|done].
      exists hash. eexists. split; [done|]. split; [exact Hrow|]. by exists content, json.
    + match goal with H : insert_object _ _ _ _ = Ok _ |- _ => eapply Hins in H as [Hst Hrow]; [|by right] end.
      unfold Q, rolled_back, committed. simpl. split; [split; [done|split; [done|by right]]|]. split; [done|]. split; [|done].
      exists hash. eexists. split; [done|]. split; [exact Hrow|]. repeat split; [by exists content, json|done].
Qed.

(** Writing a blob touches its file and a temporary one, never a blob that was there; when
    it reports success the blob is there. *)
Definition keeps_blobs (fs fs' : gmap FilePath BlobFile) : Prop :=
  ∀ key file, fs !! blob_path key = Some file → fs' !! blob_path key = Some file.
#[export] Instance keeps_blobs_refl : Reflexive keeps_blobs.
Proof. by intros fs key file. Qed.
Definition only_files (c c' : Core) : Prop :=
  c_db c' = c_db c ∧ c_saved c' = c_saved c ∧ c_events c' = c_events c ∧ keeps_blobs (c_files c) (c_files c').
Definition blob_written (key content : bytes) (c : Core) (r : result StoreError unit) (c' : Core) : Prop :=
  only_files c c'
  ∧ match r with
    | Ok _ => ∃ file, c_files c' !! blob_path key = Some file ∧ f_bytes file = content
    | Err _ => True
    end.

Lemma run_put_file path content c (Q : _ → _ → Prop) :
  (∀ t, Q (Ok tt) (with_c_files (<[path := {| f_bytes := content; f_modified_epoch_ms := t |}]> (c_files c)) c)) →
  run (put_file path content) c Q.
Proof. intros HQ. apply run_modify. intros s <-. apply HQ. Qed.
Lemma run_write_all path content c (Q : _ → _ → Prop) :
  (∀ r t b, (r = Ok tt → b = content) →
     Q r (with_c_files (<[path := {| f_bytes := b; f_modified_epoch_ms := t |}]> (c_files c)) c)) →
  run (write_all path content) c Q.
Proof.
  intros HQ s <-. unfold write_all. destruct (pop_io (world s)) as [[[text n]|] w]; simpl.
  - by apply (HQ (Err _) (w_file_time w) (take n content)).
  - by apply (HQ (Ok tt) (w_file_time w) content).
Qed.

Lemma temporary_not_blob key token key' : temporary_path key token ≠ blob_path key'.
Proof.
  unfold temporary_path, blob_path. intros Heq. apply (f_equal (λ p, last (snd p))) in Heq. cbn [snd] in Heq.
  assert (bs "." ++ key ++ bs "." ++ token ++ bs ".tmp" = (bs "." ++ key ++ bs "." ++ token ++ bs ".tm") ++ [x70]) as E1
    by (rewrite <- !app_assoc; done).
  assert (key' ++ bs ".blob" = (key' ++ bs ".blo") ++ [x62]) as E2 by (rewrite <- !app_assoc; done).
  rewrite E1, E2, !last_snoc in Heq. done.
Qed.
Lemma keeps_temporary fs fs' key token file :
  keeps_blobs fs fs' → keeps_blobs fs (<[temporary_path key token := file]> fs').
Proof. intros Hk key' f Hf. rewrite lookup_insert_ne; [by apply Hk|]. apply temporary_not_blob. Qed.

Lemma run_write_blob key content c : run (write_blob key content) c (blob_written key content c).
Proof.
  assert (∀ e c', only_files c c' → blob_written key content c (Err e) c') as Herr by by split.
  assert (only_files c c) as Hrefl by by repeat split.
  unfold write_blob. run_step. run_skip; run_step; [|by apply Herr]. run_step. apply run_gets. intros s Hs. run_step.
  destruct (files s !! blob_path key) as [file|] eqn:Hfile.
  - run_step. run_skip; run_step; [|by apply Herr]. run_step. case_match; [|by apply Herr]. zbool. split; [done|].
    exists file. by rewrite <- Hs.
  - assert (c_files c !! blob_path key = None) as Hnone by (by rewrite <- Hs). clear Hfile Hs s.
    run_step. run_skip; run_step; [|by apply Herr]. run_step. run_skip; run_step; [|by apply Herr].
    run_step. apply run_gets. intros s1 Hs1. run_step. run_step. run_step. case_match; run_step; [|by apply Herr].
    run_step. apply run_put_file. intros t1. run_step. run_step. apply run_write_all. intros r t2 b Hb.
    match goal with |- next _ _ _ ?x => set (c1 := x) end.
    assert (only_files c c1) as Hc1 by (repeat split; simpl; by do 2 apply keeps_temporary).
    clearbody c1. destruct r as [u|e]; run_step; [|by apply Herr].
    run_step. run_skip; run_step; [|by apply Herr]. run_step. run_skip; run_step; [|by apply Herr].
    run_step. apply run_modify. intros s2 Hs2. run_step. run_step. apply run_put_file. intros t3. run_step.
    match goal with |- run _ ?x _ => set (c2 := x) end.
    assert (only_files c c2 ∧ ∃ file, c_files c2 !! blob_path key = Some file ∧ f_bytes file = content) as [Hc2 Hwritten].
    { destruct Hc1 as (E1 & E2 & E3 & Hk). subst c1. unfold c2. simpl. split.
      - repeat split; try done. simpl. intros key' f Hf. destruct (decide (blob_path key = blob_path key')) as [Heq|Hne].
        + rewrite <- Heq in Hf. congruence.
        + rewrite lookup_insert_ne, lookup_delete_ne; [by apply Hk|apply temporary_not_blob|done].
      - eexists. by rewrite lookup_insert_eq. }
    run_skip; split; done.
Qed.

Lemma make_ready_steps p account object_id d : p_ready p → steps p d (make_ready account object_id d).
Proof.
  intros Hp. unfold make_ready. case_match eqn:Ho; [|apply rtc_refl]. case_match; [|apply rtc_refl].
  apply rtc_once. by apply step_ready.
Qed.

Lemma returns_release u size :
  returns u size (λ a, with_stored (Z.max (a_stored_bytes a - size) 0) (Z.max (a_object_count a - 1) 0) a).
Proof. split; [done|]. right. intros a Hs Hc. simpl. lia. Qed.

Lemma run_release account size c (Q : _ → _ → Prop) :
  Q (Ok tt) (with_c_db (update_account account
       (λ a, with_stored (Z.max (a_stored_bytes a - size) 0) (Z.max (a_object_count a - 1) 0) a) (c_db c)) c) →
  (∀ e, Q (Err e) c) → run (release_account_usage account size 1) c Q.
Proof.
  intros HO HE. unfold release_account_usage. run_step; [|by apply HE].
  match goal with H : (_ ≫= _) = Ok _ |- _ => apply bind_Ok in H as (n & [-> _]%param_u64_Ok & H);
    apply bind_Ok in H as (k & [-> _]%param_u64_Ok & [= <-]) end. exact HO.
Qed.

(** A failed upload that still has its pending row gives back exactly what it was charged. *)
Lemma remove_pending_step p account object_id size c :
  c_saved c = None → 
  (p_unfair p ∨ ∃ o, objects_of account (c_db c) !! object_id = Some o ∧ o_state o = ObjPending ∧ object_charge object_id o = size) →
  run (remove_pending_object account object_id size) c (λ r c', moves p c r c' ∧ c_files c' = c_files c).
Proof.
  intros Hc Hfair. unfold remove_pending_object.
  apply run_transaction; [done| |intros; split; [by apply moves_refl|done]].
  assert (∀ (e : StoreError) c', c_saved c' = Some (c_db c) → c_files c' = c_files c →
    moves p c (Err (A:=unit) e) (rolled_back c') ∧ c_files (rolled_back c') = c_files c) as HQ.
  { intros e c' Hs Hf. unfold rolled_back. rewrite Hs. split; [split; [done|split; [apply rtc_refl|by right]]|done]. }
  run_step. run_step; run_step; [|by apply HQ]. run_step. apply run_release; [|intros e; run_step; by apply HQ].
  run_step. run_step; [|by apply HQ]. unfold rolled_back, committed. simpl. split; [|done]. split; [done|]. split; [|by right]. simpl.
  unfold delete_pending. destruct (objects_of account (c_db c) !! object_id) as [o|] eqn:Ho.
  - case_match eqn:Hp; zbool.
    + apply rtc_once. eapply step_remove; [exact Ho|by left| |done].
      destruct Hfair as [Hu|(o' & Ho' & _ & <-)]; [|simplify_eq; apply returns_release]. split; [done|by left].
    + destruct Hfair as [Hu|(o' & Ho' & Hp' & _)]; [|by simplify_eq]. apply rtc_once. by apply step_miscount.
  - destruct Hfair as [Hu|(o' & Ho' & _)]; [|by simplify_eq]. apply rtc_once. by apply step_miscount.
Qed.

Lemma run_object_created now c (Q : _ → _ → Prop) : Q (Ok OutcomeCreated) c → run (object_created now) c Q.
Proof. intros HQ. unfold object_created. do 7 run_step. exact HQ. Qed.

Lemma run_finish_upload p account object_id size now written c :
  c_saved c = None → p_ready p →
  (p_unfair p ∨ ∃ o, objects_of account (c_db c) !! object_id = Some o ∧ o_state o = ObjPending ∧ object_charge object_id o = size) →
  run (finish_upload account object_id size now written) c (λ r c', moves p c r c' ∧ c_files c' = c_files c
    ∧ match r with
      | Ok created => written = Ok tt ∧ created = OutcomeCreated ∧ c_db c' = make_ready account object_id (c_db c)
      | Err _ => written = Ok tt → c_db c' = c_db c
      end).
Proof.
  intros Hc Hp Hfair. unfold finish_upload. destruct written as [[]|e]; run_step.
  - run_step; run_step; [|split; [by apply moves_refl|done]]. apply run_object_created.
    assert (moves p c (Ok tt) (with_c_db (make_ready account object_id (c_db c)) c)) as Hm.
    { split; [done|]. split; [by apply make_ready_steps|by right]. }
    by destruct Hm as (? & ? & ?).
  - eapply run_mono; [by apply (remove_pending_step p)|]. intros [u|e'] c' [Hm Hf]; run_step; [run_step|]; by split.
Qed.

(** An upload whose blob was written charges nothing and gives nothing back. *)
Lemma run_finish_written p account object_id size now c :
  c_saved c = None → p_ready p → run (finish_upload account object_id size now (Ok tt)) c (moves p c).
Proof.
  intros Hc Hp. unfold finish_upload. run_step. run_step; run_step; [|by apply moves_refl]. apply run_object_created.
  split; [done|]. split; [by apply make_ready_steps|by right].
Qed.

Lemma Moves_create_object p account object_id v now :
  p_ready p → p_files p → Moves p (create_object cfg account object_id v now).
Proof.
  intros Hp Hfiles c Hc Hrows. unfold create_object. run_step.
  eapply run_mono; [by apply (run_create_object_row p)|]. intros [progress|e] c1 (Hm & Hf & Hprog); run_step; [|done].
  destruct progress as [| |key content size].
  - run_step. done.
  - by apply run_object_created.
  - pose proof Hm as (Hc1 & Hst & _). destruct Hprog as [(hash & o & Hh & Ho & Hkey & Hrow & Hct & Hsize) _].
    run_step. run_step. eapply run_mono; [apply run_write_blob|]. intros r c2 [(Ed & Es & _ & _) _]. run_step.
    eapply run_mono; [apply (run_finish_upload p); [congruence|done|]|].
    + right. rewrite Ed. exists o. split; [done|]. split; [|done]. by destruct Hrow as (? & ? & _ & _ & _ & ->).
    + intros r' c3 [Hm3 _]. eapply moves_trans; [exact Hm|]. destruct Hm3 as (Hc3 & Hst3 & _).
      split; [done|]. split; [by rewrite Ed in Hst3|by left].
Qed.

(** ** The root *)

Lemma root_snapshot_Ok r root :
  root_snapshot r = Ok root → rs_revision root = r_revision r ∧ rs_root_hash root = r_root_hash r
    ∧ children_from_json (r_children_json r) = Ok (child_object_ids (rs_value root))
    ∧ ciphertext_base64url (rs_value root) = sv_b64_encode (r_ciphertext r)
    ∧ ciphertext_sha256 (rs_value root) = r_ciphertext_sha256 r ∧ 0 ≤ r_revision r ≤ i64_max.
Proof.
  unfold root_snapshot. intros (ch & Hch & H1)%bind_Ok. apply bind_Ok in H1 as (rev & [-> Hrev]%row_u64_Ok & [= <-]). done.
Qed.

(** The charge of the root being replaced is that of its row. *)
Lemma charged_root_exact d account current n :
  rows_inv d →
  (match roots d !! account with None => Ok None | Some r => root ← root_snapshot r; Ok (Some root) end) = Ok current →
  charged_root_bytes current = Ok n → n = root_charge (roots d !! account).
Proof.
  intros Hrows Hcur Hn. destruct (roots d !! account) as [r|] eqn:Hr.
  - apply bind_Ok in Hcur as (root & (_ & _ & Hch & Hb64 & _)%root_snapshot_Ok & [= <-]). simpl in Hn.
    destruct (proj2 Hrows account r Hr) as [Hbytes [ch Hj]].
    rewrite (children_round _ _ Hj) in Hch. injection Hch as Hch. rewrite <- Hch, Hj in Hn. simpl in Hn.
    unfold ciphertext in Hn. rewrite Hb64, b64_round in Hn. simpl in Hn. injection Hn as <-. simpl. by rewrite Hbytes.
  - injection Hcur as <-. simpl in Hn. by injection Hn as <-.
Qed.

Lemma run_replace account previous replacement limit c (Q : _ → _ → Prop) :
  0 ≤ previous → 0 ≤ replacement →
  (∀ a, accounts (c_db c) !! account = Some a →
     a_stored_bytes a - previous + replacement ≤ a_quota_bytes a → sum_stored (c_db c) - previous + replacement ≤ limit →
     Q (Ok tt) (with_c_db (update_account account
       (λ b, with_stored (saturating_sub (a_stored_bytes a) previous + replacement) (a_object_count b) b) (c_db c)) c)) →
  (∀ e, Q (Err e) c) →
  run (replace_account_root_usage account previous replacement limit) c Q.
Proof.
  intros Hp Hr HO HE. unfold replace_account_root_usage. run_step. run_step; [|apply HE]. run_step.
  destruct a as [stored quota].
  match goal with H : (_ ≫= _) = Ok _ |- _ => rename H into Hrow end.
  apply bind_Ok in Hrow as (a & Ha%ok_or_Ok & Hrow). apply bind_Ok in Hrow as (? & [-> ?]%row_u64_Ok & Hrow).
  apply bind_Ok in Hrow as (? & [-> ?]%row_u64_Ok & Hrow). injection Hrow as <- <-.
  run_step; [run_step; apply HE|]. run_step. run_step; [|apply HE]. run_step.
  match goal with H : select_sum_stored _ = Ok _ |- _ => apply sum_Ok in H as [-> Hsum] end.
  run_step; [run_step; apply HE|]. run_step; [|apply HE].
  match goal with H : (_ ≫= _) = Ok _ |- _ => apply bind_Ok in H as (n & [-> Hn]%param_u64_Ok & [= <-]) end.
  zbool. assert (saturating_add u64_max (saturating_sub (a_stored_bytes a) previous) replacement
    = saturating_sub (a_stored_bytes a) previous + replacement) as ->.
  { unfold saturating_add, saturating_sub, u64_max, i64_max in *. lia. }
  apply (HO a); [done|..]; unfold saturating_add, saturating_sub, u64_max, i64_max in *; lia.
Qed.

(** The root, the counter and the events, as they are written in one transaction. *)
Definition root_written (account : bytes) (r : RootRow) (e : EventRow) (now : Z) (b : AccountRow) (d d' : Db) : Prop :=
  accounts d' = <[account := with_event_sequence (a_event_sequence b + 1) now b]> (accounts d)
  ∧ roots d' = <[account := r]> (roots d) ∧ objects d' = objects d
  ∧ root_events d' = <[account := filter (λ kv, ¬ (kv.1 ≤ saturating_sub (a_event_sequence b + 1) (event_retention cfg)))
        (<[a_event_sequence b + 1 := e]> (events_of account d))]> (root_events d).

Lemma run_write_root account v revision hash content json now b c (Q : _ → _ → Prop) :
  accounts (c_db c) !! account = Some b →
  (∀ d', 0 ≤ a_event_sequence b + 1 →
     root_written account (root_row v revision hash content json now)
       {| e_root_revision := revision; e_root_hash := hash; e_created_at_epoch_ms := now |} now b (c_db c) d' →
     Q (Ok (a_event_sequence b + 1)) (with_c_db d' c)) →
  (∀ e c', c_saved c' = c_saved c → c_files c' = c_files c → c_events c' = c_events c → Q (Err e) c') →
  run (write_root cfg account v revision hash content json now) c Q.
Proof.
  intros Ha HO HE. unfold write_root. run_step. run_step; run_step; [|by apply HE].
  match goal with H : (_ ≫= _) = Ok _ |- _ => apply bind_Ok in H as (rev & [-> Hrev]%param_u64_Ok & [= <-]) end.
  run_step. run_step; run_step; [|by apply HE].
  match goal with H : next_event_sequence _ _ _ = Ok _ |- _ => rename H into Hseq end.
  unfold next_event_sequence in Hseq. cbn [with_c_db c_db put_roots accounts] in Hseq. rewrite Ha in Hseq.
  apply bind_Ok in Hseq as (seq & [-> Hpos]%row_u64_Ok & [= <- <-]).
  run_step. run_step; run_step; [|by apply HE].
  match goal with H : (_ ≫= _) = Ok _ |- _ => apply bind_Ok in H as (? & [-> _]%param_u64_Ok & Hins) end.
  unfold insert_event in Hins. case_match; [done|]. injection Hins as <-.
  run_step. run_step; run_step; [|by apply HE]. run_step. apply (HO _); [lia|].
  unfold root_written, trim_events, put_events_of. simpl. repeat split.
  - by apply alter_insert.
  - rewrite insert_insert_eq. f_equal. f_equal. unfold events_of. simpl. by rewrite lookup_insert_eq.
Qed.

(** The root an account has. *)
Definition current_revision (account : bytes) (d : Db) : Z :=
  match roots d !! account with Some r => r_revision r | None => 0 end.
Definition current_hash (account : bytes) (d : Db) : option bytes := r_root_hash <$> roots d !! account.
Definition expects (request : AcsCompareAndSwapRootRequest) (account : bytes) (d : Db) : Prop :=
  cas_expected_revision request = current_revision account d ∧ cas_expected_root_hash request = current_hash account d.

(** What a swap may do. *)
Definition swapping : Perm :=
  {| p_unfair := False; p_ready := False; p_files := False; p_collect := False; p_swap := True; p_drop := λ _, False |}.

(** A swap commits exactly when the root is the expected one, and then the account has the
    new root, its next revision and one more event; otherwise nothing changes but, when a
    storage limit is reached, the mode of the service. *)
Definition cas_done (account : bytes) (request : AcsCompareAndSwapRootRequest) (now : Z) (c : Core)
    (r : result StoreError AcsCompareAndSwapRootResponse) (c' : Core) : Prop :=
  c_saved c' = None ∧ c_files c' = c_files c ∧
  match r with
  | Ok (Committed root) =>
      expects request account (c_db c) ∧ db_step swapping (global_storage_limit_bytes cfg) (c_db c) (c_db c')
      ∧ (∀ acct, acct ≠ account → roots (c_db c') !! acct = roots (c_db c) !! acct)
      ∧ rs_revision root = current_revision account (c_db c) + 1
      ∧ current_revision account (c_db c') = rs_revision root ∧ current_hash account (c_db c') = Some (rs_root_hash root)
      ∧ Ok (rs_root_hash root) = authenticated_hash sv_sha256 sv_b64_decode (cas_replacement request) KindRoot ACS_FIXED_ROOT_ID
      ∧ child_object_ids (rs_value root) = child_object_ids (cas_replacement request)
      ∧ ciphertext_sha256 (rs_value root) = ciphertext_sha256 (cas_replacement request)
      ∧ ciphertext sv_b64_decode (rs_value root) = ciphertext sv_b64_decode (cas_replacement request)
      ∧ ∃ seq, c_events c' = c_events c ++ [{| ev_account_locator := account;
           ev_event := SseRootChanged seq (rs_revision root) (rs_root_hash root) |}]
           ∧ (∃ a, accounts (c_db c) !! account = Some a ∧ seq = a_event_sequence a + 1)
  | Ok (Conflict revision hash) =>
      ¬ expects request account (c_db c) ∧ c_db c' = c_db c ∧ c_events c' = c_events c
      ∧ revision = current_revision account (c_db c) ∧ hash = current_hash account (c_db c)
  | Err _ => same_data (c_db c) (c_db c') ∧ c_events c' = c_events c
  end.

(** Writing the root is one transition. *)
Lemma root_written_step account a r e now d d' :
  accounts d !! account = Some a → root_wf r → r_revision r = current_revision account d + 1 →
  e_root_revision e = r_revision r → e_root_hash e = r_root_hash r →
  (∀ c child, children_from_json (r_children_json r) = Ok c → child ∈ c → is_ready account child d) →
  a_stored_bytes a - root_charge (roots d !! account) + root_charge (Some r) ≤ a_quota_bytes a →
  sum_stored d - root_charge (roots d !! account) + root_charge (Some r) ≤ global_storage_limit_bytes cfg →
  0 ≤ a_event_sequence a + 1 →
  (let stored := saturating_sub (a_stored_bytes a) (root_charge (roots d !! account)) + root_charge (Some r) in
   root_written account r e now (with_stored stored (a_object_count a) a)
     (update_account account (λ b, with_stored stored (a_object_count b) b) d) d') →
  db_step swapping (global_storage_limit_bytes cfg) d d'.
Proof.
  intros Ha Hwf Hrev Her Heh Hch Hq Hc Hseq Hw. cbv zeta in Hw. destruct Hw as (Eacc & Eroots & Eobj & Eev).
  eapply (step_swap swapping _ _ account a r (r_revision r) (r_root_hash r)
            (saturating_sub (a_event_sequence a + 1) (event_retention cfg)) e now d' I Ha Hwf);
    [done|done|done|done|done|done|done|done| | |done|done|done].
  - unfold saturating_sub. lia.
  - rewrite Eacc. simpl. rewrite (alter_insert _ _ _ a) by done. by rewrite insert_insert_eq.
Qed.

(** After the root was written in the transaction: it is read back, the response is
    admitted and the transaction committed. *)
Definition commit_swap (account network : bytes) (now seq revision : Z) (hash : bytes)
    : M (AcsCompareAndSwapRootResponse * option AcsSseEvent) :=
  written ← read_root_row account;
  root ← lift (ok_or written (internal (bs "committed root disappeared")));
  let response := Committed root in
  bytes ← response_bytes (cas_json_bytes response);
  _ ← admit_egress cfg account network bytes now;
  _ ← commit;
  mret (response, Some (SseRootChanged seq revision hash)).

Lemma run_commit_swap account network now seq revision hash r c (Q : _ → _ → Prop) :
  roots (c_db c) !! account = Some r →
  (∀ root, root_snapshot r = Ok root → Q (Ok (Committed root, Some (SseRootChanged seq revision hash))) (committed c)) →
  (∀ e, Q (Err e) c) →
  run (commit_swap account network now seq revision hash) c Q.
Proof.
  intros Hroot HO HE. unfold commit_swap, read_root_row. run_step. run_step; run_step; [|by apply HE].
  match goal with H : match roots _ !! _ with _ => _ end = Ok _ |- _ => rename H into Hread end.
  rewrite Hroot in Hread. apply bind_Ok in Hread as (root & Hsnap & [= <-]).
  run_step. run_step. cbn [ok_or]. run_step. run_step. run_skip; run_step; [|by apply HE].
  run_step. run_skip; run_step; [|by apply HE]. run_step. run_step; run_step; [|by apply HE]. run_step. by apply HO.
Qed.

(** The transaction when the root is the expected one. *)
Definition swap_body (account : bytes) (v : AcsEncryptedValue) (current : option AcsRootSnapshot) (revision : Z)
    (hash content json network : bytes) (now : Z) : M (AcsCompareAndSwapRootResponse * option AcsSseEvent) :=
  _ ← ensure_children_exist account (child_object_ids v);
  previous ← lift (charged_root_bytes current);
  replaced ← catch (replace_account_root_usage account previous (root_storage_bytes (len content) json)
                      (global_storage_limit_bytes cfg));
  match replaced with
  | Err error => refuse_usage error now
  | Ok _ =>
      seq ← write_root cfg account v (revision + 1) hash content json now;
      commit_swap account network now seq (revision + 1) hash
  end.

Lemma run_swap_body account v current hash content json network now c (Q : _ → _ → Prop) :
  let d := c_db c in
  let r := root_row v (current_revision account d + 1) hash content json now in
  c_saved c = Some d → rows_inv d → children_to_json (child_object_ids v) = Ok json →
  (match roots d !! account with None => Ok None | Some r => root ← root_snapshot r; Ok (Some root) end) = Ok current →
  (∀ d' root a, accounts d !! account = Some a → db_step swapping (global_storage_limit_bytes cfg) d d' →
     roots d' = <[account := r]> (roots d) → root_snapshot r = Ok root →
     Q (Ok (Committed root, Some (SseRootChanged (a_event_sequence a + 1) (current_revision account d + 1) hash)))
       (committed (with_c_db d' c))) →
  (∀ e c', c_saved c' = None → same_data d (c_db c') → c_files c' = c_files c → c_events c' = c_events c → Q (Err e) c') →
  (∀ e c', c_saved c' = Some d → c_files c' = c_files c → c_events c' = c_events c → Q (Err e) c') →
  run (swap_body account v current (current_revision account d) hash content json network now) c Q.
Proof.
  intros d r Hs Hrows Hjson Hcur HO HE HQ. unfold swap_body.
  run_step. apply run_ensure_children; [|intros; run_step; by apply HQ]. intros Hready. run_step.
  run_step. run_step. destruct (charged_root_bytes current) as [previous|e] eqn:Hprev; run_step; [|by apply HQ].
  apply (charged_root_exact d account) in Hprev as ->; [|done|exact Hcur].
  assert (0 ≤ root_charge (roots d !! account)) as Hprev by (apply root_charge_nonneg; intros x; apply Hrows).
  assert (root_wf r) as Hwf by (split; [done|by eexists]).
  change (root_storage_bytes (len content) json) with (root_charge (Some r)).
  assert (0 ≤ root_charge (Some r)) as Hnew by (apply root_charge_nonneg; by intros x [= <-]).
  run_step. run_step. apply run_replace; [done|done| |].
  2: { intros e. run_step. cbv beta iota. eapply run_refuse; [exact Hs|done|]. intros e' c' [Hn|Hn] Hd Hf He.
       - by apply HE.
       - by apply HQ. }
  intros a Ha Hquota Hceil. run_step. cbv iota beta. run_step.
  eapply run_write_root; [simpl; by rewrite (alter_insert _ _ _ a), lookup_insert_eq| |].
  2: { intros e c' Hs' Hf He. run_step. apply HQ; [by rewrite Hs'|done|done]. }
  intros d' Hseq Hw. run_step.
  assert (roots d' = <[account := r]> (roots d)) as Hroot by (by destruct Hw as (_ & -> & _)).
  apply (run_commit_swap _ _ _ _ _ _ r); [simpl; by rewrite Hroot, lookup_insert_eq| |intros; by apply HQ].
  intros root Hsnap. apply (HO d' root a); [done| |done|done].
  eapply (root_written_step account a r _ now d d'); [exact Ha|exact Hwf|done|..|exact Hseq|exact Hw]; [done|done| |done|done].
  intros ch child Hch Hin. apply Hready. simpl in Hch. rewrite (children_round _ _ Hjson) in Hch. by injection Hch as <-.
Qed.

Lemma run_compare_and_swap_root account request network now c :
  c_saved c = None → rows_inv (c_db c) →
  run (compare_and_swap_root cfg account request network now) c (cas_done account request now c).
Proof.
  intros Hc Hrows. unfold compare_and_swap_root.
  assert (∀ e, cas_done account request now c (Err e) c) as Herr by (intros e; by repeat split).
  run_step. apply run_storage_write; [done| |intros e c' Hc' Hs Hf He; by repeat split; try apply Hs].
  run_step. run_step. run_step. destruct (map_err invalid (validate_value _ _ _)) as [u|e] eqn:Hval; run_step; [|apply Herr].
  run_step. run_step.
  destruct (map_err invalid (authenticated_hash _ _ _ _ _)) as [hash|e] eqn:Hhash; run_step; [|apply Herr].
  apply map_err_Ok in Hhash. run_step. run_step.
  destruct (map_err invalid (ciphertext _ _)) as [content|e] eqn:Hct; run_step; [|apply Herr]. apply map_err_Ok in Hct.
  run_step. run_step. destruct (map_err _ (children_to_json _)) as [json|e] eqn:Hjson; run_step; [|apply Herr].
  apply map_err_Ok in Hjson. run_step.
  apply run_transaction; [done| |intros; run_step; apply Herr].
  match goal with |- run _ _ ?x => set (Q := x) end.
  assert (∀ e c', c_saved c' = Some (c_db c) → c_files c' = c_files c → c_events c' = c_events c → Q (Err e) c') as HQ.
  { intros e c' Hs Hf He. unfold Q, rolled_back. rewrite Hs. run_step. by repeat split. }
  run_step. run_skip; run_step; [|by apply HQ]. run_step. unfold read_root_row at 1. run_step; run_step; [|by apply HQ].
  match goal with H : match roots _ !! _ with _ => _ end = Ok ?x |- _ => rename H into Hcur; rename x into current end.
  cbn [began c_db] in Hcur.
  assert (match current with Some root => rs_revision root | None => 0 end = current_revision account (c_db c)
    ∧ rs_root_hash <$> current = current_hash account (c_db c)) as [Hcr Hch].
  { unfold current_revision, current_hash. destruct (roots (c_db c) !! account) as [r|].
    - apply bind_Ok in Hcur as (root & (Hr & Hh & _)%root_snapshot_Ok & [= <-]). simpl. by rewrite Hr, Hh.
    - by injection Hcur as <-. }
  rewrite Hcr, Hch. run_step.
  - run_step. run_skip; run_step; [|by apply HQ]. run_step. run_skip; run_step; [|by apply HQ]. run_step.
    unfold Q, rolled_back. cbn [began c_saved]. run_step. cbn [fst snd]. run_step.
    split; [done|]. split; [done|]. split; [|by repeat split; destruct c; simpl in *; subst].
    intros [He1 He2]. rewrite He1, He2, Z.eqb_refl, bool_decide_eq_true_2 in Hif by done. done.
  - apply orb_false_iff in Hif as [He1 He2]. zbool.
    apply (run_swap_body account (cas_replacement request) current hash content json network now (began c));
      [done|done|done|done| | |done].
    2: { intros e c' Hs Hd Hf He. unfold Q, rolled_back. rewrite Hs. run_step. by split; [|split]. }
    intros d' root a0 Ha0 Hstep Hroot (Hrev & Hrh & Hrc & Hrb & Hrd & _)%root_snapshot_Ok.
    unfold Q, rolled_back, committed. cbn [c_saved]. run_step. cbn [fst snd].
    do 7 run_step. apply run_modify. intros s2 Hs2. run_step. run_step.
    apply (f_equal c_events) in Hs2 as Hs2e. apply (f_equal c_db) in Hs2 as Hs2d.
    apply (f_equal c_saved) in Hs2 as Hs2s. apply (f_equal c_files) in Hs2 as Hs2f. cbn in Hs2s, Hs2f, Hs2e, Hs2d.
    split; [exact Hs2s|]. split; [exact Hs2f|]. cbn [core put_sent c_db db events c_events].
    rewrite Hs2d, Hrev, Hrh. split; [done|]. split; [done|].
    split; [intros acct Hne; by rewrite Hroot, lookup_insert_ne|]. split; [done|].
    unfold current_revision, current_hash. rewrite Hroot, lookup_insert_eq. split; [done|]. split; [done|]. split; [by rewrite Hhash|].
    split; [simpl in Hrc; rewrite (children_round _ _ Hjson) in Hrc; by injection Hrc|]. split; [done|].
    split; [unfold ciphertext at 1; rewrite Hrb, b64_round; by rewrite Hct|].
    eexists. rewrite Hs2e. split; [done|]. exists a0. by split.
Qed.
End steps.
