(* ===== verification/AcsGcSteps.v ===== *)
(** * What garbage collection of the cloud server does

    Marking ends and finds exactly the objects that can be reached; a collected account
    keeps exactly its reachable and its recent objects. *)

From Stdlib Require Import Strings.Byte.
From stdpp Require Import base gmap list strings sorting relations.
From S2P Require Import Prelude CloudRecords AcsContracts CloudAcs AcsLimits AcsStoreState AcsStore AcsGc AcsAuth.
From S2P Require Import AcsStoreRun AcsStoreInv AcsStoreSteps.

Local Open Scope Z_scope.

(** ** Marking *)

Section mark.
Context (rows : gmap bytes GcObject).

Definition leads (x y : bytes) : Prop := y ∈ children_in rows x.
(** The edges of objects not yet visited. *)
Definition unseen (marked : gset bytes) : nat := edge_count (filter (λ kv, kv.1 ∉ marked) rows).

Lemma edge_count_insert i o m :
  m !! i = None → edge_count (<[i := o]> m) = (length (g_children o) + edge_count m)%nat.
Proof. intros Hi. unfold edge_count. rewrite map_fold_insert_L; [done|intros; lia|done]. Qed.

Lemma unseen_visit x marked : x ∉ marked → unseen marked = (length (children_in rows x) + unseen ({[x]} ∪ marked))%nat.
Proof.
  intros Hx. unfold unseen, children_in.
  assert (filter (λ kv : bytes * GcObject, kv.1 ∉ {[x]} ∪ marked) rows
          = delete x (filter (λ kv : bytes * GcObject, kv.1 ∉ marked) rows)) as ->.
  { apply map_eq. intros k. apply option_eq. intros o.
    rewrite lookup_delete_Some, !map_lookup_filter_Some. simpl. set_solver. }
  destruct (rows !! x) as [o|] eqn:Ho; simpl.
  - rewrite <- (edge_count_insert x) by apply lookup_delete_eq. rewrite insert_delete_id; [done|].
    by apply map_lookup_filter_Some.
  - rewrite delete_id; [done|]. apply map_lookup_filter_None. by left.
Qed.

(** What the loop finds: all that is marked or waiting, closed under children, and
    nothing that is not needed for that. *)
Definition found (marked : gset bytes) (pending : list bytes) (result : gset bytes) : Prop :=
  (∀ x, x ∈ marked ∨ x ∈ pending → x ∈ result)
  ∧ (∀ x y, x ∈ result → leads x y → y ∈ result)
  ∧ ∀ P : bytes → Prop, (∀ x, x ∈ marked ∨ x ∈ pending → P x) → (∀ x y, P x → leads x y → P y) → ∀ x, x ∈ result → P x.

Lemma mark_loop_found fuel marked pending :
  (length pending + unseen marked ≤ fuel)%nat →
  (∀ x y, x ∈ marked → leads x y → y ∈ marked ∨ y ∈ pending) →
  ∃ result, mark_loop fuel rows marked pending = Some result ∧ found marked pending result.
Proof.
  revert marked pending. induction fuel as [|fuel IH]; intros marked [|x pending] Hfuel Hclosed; simpl in Hfuel |- *;
    [|lia| |].
  1, 2: exists marked; split; [done|]; split; [set_solver|]; split; [|naive_solver];
    intros u v Hu Huv; destruct (Hclosed u v Hu Huv); set_solver.
  case_bool_decide as Hx.
  - destruct (IH marked pending) as (result & -> & Hin & Hcl & Hmin); [lia| |].
    { intros u v Hu Huv. destruct (Hclosed u v Hu Huv) as [|[->|]%elem_of_cons]; auto. }
    exists result. split; [done|]. split; [set_solver|]. split; [done|]. intros P HP. apply Hmin. set_solver.
  - destruct (IH ({[x]} ∪ marked) (pending ++ children_in rows x)) as (result & -> & Hin & Hcl & Hmin).
    { rewrite length_app. rewrite (unseen_visit x) in Hfuel by done. lia. }
    { intros u v [->%elem_of_singleton|Hu]%elem_of_union Huv; [by right; apply elem_of_app; right|].
      destruct (Hclosed u v Hu Huv) as [|[->|]%elem_of_cons]; set_solver. }
    exists result. split; [done|]. split; [set_solver|]. split; [done|]. intros P HP Hstep. apply Hmin; [|done].
    intros u [[->%elem_of_singleton|Hu]%elem_of_union|[Hu|Hu]%elem_of_app]; [set_solver|set_solver|set_solver|].
    apply (Hstep x); [set_solver|exact Hu].
Qed.

Definition reachable (start : list bytes) (x : bytes) : Prop := ∃ r, r ∈ start ∧ rtc leads r x.

Lemma unseen_start : unseen ∅ = edge_count rows.
Proof.
  unfold unseen. f_equal. apply map_eq. intros k. apply option_eq. intros o. rewrite map_lookup_filter_Some. set_solver.
Qed.

Lemma mark_reachable start x : x ∈ mark rows start ↔ reachable start x.
Proof.
  unfold mark. destruct (mark_loop_found (length start + edge_count rows) ∅ start) as (result & -> & Hin & Hcl & Hmin).
  - by rewrite unseen_start.
  - set_solver.
  - simpl. split.
    + apply (Hmin (reachable start)).
      * intros u [?|Hu]; [set_solver|]. exists u. split; [done|apply rtc_refl].
      * intros u v (r & Hr & Hru) Huv. exists r. split; [done|]. by eapply rtc_r.
    + intros (r & Hr & Hrx). assert (r ∈ result) as Hres by (apply Hin; by right). clear Hr.
      induction Hrx as [|u v w Huv _ IH]; [done|]. apply IH. by eapply Hcl.
Qed.

(** Marking ends, within as many rounds as there are roots and edges, and marks exactly
    what can be reached. *)
Theorem mark_terminates start :
  ∃ marked, mark_loop (length start + edge_count rows) rows ∅ start = Some marked ∧ ∀ x, x ∈ marked ↔ reachable start x.
Proof.
  destruct (mark_loop_found (length start + edge_count rows) ∅ start) as (marked & Hm & _); [by rewrite unseen_start|set_solver|].
  exists marked. split; [done|]. intros x. rewrite <- mark_reachable. unfold mark. by rewrite Hm.
Qed.
End mark.

(** ** One account *)

Section account.
Context `{ServerLaws} (cfg : StoreConfig) (account : bytes).

(** The graph of the account's objects, in its tables. *)
Definition edge (d : Db) (x y : bytes) : Prop :=
  ∃ o c, objects_of account d !! x = Some o ∧ children_from_json (o_children_json o) = Ok c ∧ y ∈ c.
Definition from_root (d : Db) (x : bytes) : Prop := ∃ r, r ∈ root_children account d ∧ rtc (edge d) r x.

(** What was read of the objects. *)
Definition loaded (d : Db) (l : list (bytes * GcObject)) : Prop :=
  NoDup l.*1 ∧ (∀ i g, (i, g) ∈ l → ∃ o, objects_of account d !! i = Some o ∧ gc_object (i, o) = Ok (i, g)).
Definition loaded_all (d : Db) (l : list (bytes * GcObject)) : Prop :=
  loaded d l ∧ ∀ i, i ∈ l.*1 ↔ is_Some (objects_of account d !! i).

Lemma gc_object_Ok i o j g :
  gc_object (i, o) = Ok (j, g) →
  j = i ∧ children_from_json (o_children_json o) = Ok (g_children g) ∧ g_storage_bytes g = object_charge i o
  ∧ g_blob_storage_key g = o_blob_storage_key o ∧ g_created_at_epoch_ms g = o_created_at_epoch_ms o.
Proof.
  unfold gc_object. simpl. intros (ch & Hch & [= <- <-])%bind_Ok. unfold decode_children in Hch.
  apply map_err_Ok in Hch. done.
Qed.

Lemma run_load c (Q : _ → _ → Prop) :
  (∀ l, loaded_all (c_db c) l → Q (Ok l) c) → (∀ e, Q (Err e) c) → run (load_object_graph account) c Q.
Proof.
  intros HO HE. unfold load_object_graph. run_step. run_step; run_step; [|apply HE]. run_step.
  match goal with Hx : try_map _ (map_iter _) = Ok _ |- _ => rename Hx into Hrows end.
  apply try_map_id in Hrows as ->.
  2: { intros x y Hx. apply bind_Ok in Hx as (? & _ & [= <-]). done. }
  destruct (try_map gc_object _) as [l|e] eqn:Hl; [|apply HE]. apply HO.
  assert (l.*1 = (map_iter (objects_of account (c_db c))).*1) as Hkeys.
  { eapply try_map_keys; [|exact Hl]. intros [i o] [j g] (-> & _)%gc_object_Ok. done. }
  split; [split|].
  - rewrite Hkeys, map_iter_Permutation. apply NoDup_fst_map_to_list.
  - intros i g Hig. destruct (try_map_elem _ _ _ _ Hl Hig) as ([j o] & Hj%elem_of_map_iter & Hg).
    pose proof Hg as (<- & _)%gc_object_Ok. by exists o.
  - intros i. rewrite Hkeys, list_elem_of_fmap. split.
    + intros ([j o] & -> & Hj%elem_of_map_iter). by exists o.
    + intros [o Ho]. exists (i, o). split; [done|]. by apply elem_of_map_iter.
Qed.

(** The graph that was read is the one in the tables. *)
Lemma loaded_edge d l x y : loaded_all d l → leads (list_to_map l) x y ↔ edge d x y.
Proof.
  intros [[Hnd Hl] Hall]. unfold leads, children_in, edge. split.
  - destruct (list_to_map l !! x) as [g|] eqn:Hg; [|by intros ?%elem_of_nil].
    apply elem_of_list_to_map_2, Hl in Hg as (o & Ho & (_ & Hch & _)%gc_object_Ok). intros Hy. by exists o, (g_children g).
  - intros (o & ch & Ho & Hch & Hy). assert (x ∈ l.*1) as Hx by (apply Hall; by exists o).
    apply list_elem_of_fmap in Hx as ([x' g] & -> & Hx). simpl in *. pose proof Hx as Hm.
    apply elem_of_list_to_map_1 in Hm; [|done]. rewrite Hm. destruct (Hl _ _ Hx) as (o' & Ho' & (_ & Hch' & _)%gc_object_Ok).
    simplify_eq. by rewrite Hch' in Hch; simplify_eq.
Qed.
Lemma loaded_mark d l x : loaded_all d l → x ∈ mark (list_to_map l) (root_children account d) ↔ from_root d x.
Proof.
  intros Hl. rewrite mark_reachable. unfold reachable, from_root.
  assert (∀ u v, rtc (leads (list_to_map l)) u v ↔ rtc (edge d) u v) as Hrtc.
  { intros u v. split; intros Huv; (eapply rtc_subrel; [|exact Huv]); intros ? ?; by apply loaded_edge. }
  split; intros (r & Hr & Hx); exists r; (split; [done|]); by apply Hrtc.
Qed.

(** What the sweep removes, and the blobs that go with it. *)
Definition goes (marked : gset bytes) (cutoff : Z) (l : list (bytes * GcObject)) (i : bytes) (g : GcObject) : Prop :=
  (i, g) ∈ l ∧ i ∉ marked ∧ g_created_at_epoch_ms g ≤ cutoff.
Definition swept (marked : gset bytes) (cutoff : Z) (l : list (bytes * GcObject)) (d d' : Db) : Prop :=
  roots d' = roots d ∧ root_events d' = root_events d
  ∧ (∀ acct, acct ≠ account → accounts d' !! acct = accounts d !! acct ∧ objects_of acct d' = objects_of acct d)
  ∧ ∀ i, (∀ g, ¬ goes marked cutoff l i g) ∧ objects_of account d' !! i = objects_of account d !! i
         ∨ (∃ g, goes marked cutoff l i g) ∧ objects_of account d' !! i = None.
Definition keys_swept (marked : gset bytes) (cutoff : Z) (l : list (bytes * GcObject)) (keys keys' : list bytes) : Prop :=
  ∀ k, k ∈ keys' ↔ k ∈ keys ∨ ∃ i g, goes marked cutoff l i g ∧ g_blob_storage_key g = Some k.

Lemma goes_cons marked cutoff i0 g0 l i g :
  goes marked cutoff ((i0, g0) :: l) i g
  ↔ (i = i0 ∧ g = g0 ∧ i0 ∉ marked ∧ g_created_at_epoch_ms g0 ≤ cutoff) ∨ goes marked cutoff l i g.
Proof. unfold goes. rewrite elem_of_cons. naive_solver. Qed.

(** The tables after one object was removed. *)
Definition removed (i : bytes) (n : Z) (d : Db) : Db :=
  update_account account (λ a, with_stored (Z.max (a_stored_bytes a - n) 0) (Z.max (a_object_count a - 1) 0) a)
    (put_objects_of account (delete i (objects_of account d)) d).
Lemma removed_lookup i n d j : objects_of account (removed i n d) !! j = if decide (i = j) then None else objects_of account d !! j.
Proof.
  change (objects_of account (removed i n d)) with (objects_of account (put_objects_of account (delete i (objects_of account d)) d)).
  rewrite objects_of_put_eq, lookup_delete. done.
Qed.
Lemma removed_other i n d acct : acct ≠ account →
  accounts (removed i n d) !! acct = accounts d !! acct ∧ objects_of acct (removed i n d) = objects_of acct d.
Proof.
  intros Hne. split; [simpl; by rewrite lookup_alter_ne|].
  change (objects_of acct (removed i n d)) with (objects_of acct (put_objects_of account (delete i (objects_of account d)) d)).
  by rewrite objects_of_put_ne.
Qed.

Lemma removed_loaded i n d l : loaded d l → i ∉ l.*1 → loaded (removed i n d) l.
Proof.
  intros [Hnd Hl] Hi. split; [done|]. intros j g Hj. destruct (Hl j g Hj) as (o & Ho & Hg). exists o. split; [|done].
  rewrite removed_lookup, decide_False; [done|]. intros ->. apply Hi. apply list_elem_of_fmap. by exists (j, g).
Qed.

Lemma swept_skip marked cutoff i0 g0 l d d' :
  ¬ (i0 ∉ marked ∧ g_created_at_epoch_ms g0 ≤ cutoff) → swept marked cutoff l d d' → swept marked cutoff ((i0, g0) :: l) d d'.
Proof.
  intros Hno (Hr & He & Hother & Hs). split; [done|]. split; [done|]. split; [done|]. intros i.
  destruct (Hs i) as [[Hg Ho]|[[g Hg] Ho]].
  - left. split; [|done]. intros g. rewrite goes_cons. intros [(_ & _ & ?)|?]; [done|by eapply Hg].
  - right. split; [|done]. exists g. apply goes_cons. by right.
Qed.
Lemma swept_remove marked cutoff i0 g0 n l d d' :
  i0 ∉ marked → g_created_at_epoch_ms g0 ≤ cutoff →
  swept marked cutoff l (removed i0 n d) d' → swept marked cutoff ((i0, g0) :: l) d d'.
Proof.
  intros Hm Hc (Hr & He & Hother & Hs). split; [by rewrite Hr|]. split; [by rewrite He|]. split.
  - intros acct Hne. destruct (Hother acct Hne) as [-> ->]. by apply removed_other.
  - intros i. destruct (Hs i) as [[Hg Ho]|[[g Hg] Ho]]; rewrite Ho.
    + rewrite removed_lookup. case_decide as Heq.
      * right. split; [|done]. exists g0. apply goes_cons. by left.
      * left. split; [|done]. intros g. rewrite goes_cons. intros [(<- & _)|?]; [done|by eapply Hg].
    + right. split; [|done]. exists g. apply goes_cons. by right.
Qed.

Lemma removed_step p i g o d :
  p_collect p → objects_of account d !! i = Some o → gc_object (i, o) = Ok (i, g) → i ∉ root_children account d →
  db_step p (global_storage_limit_bytes cfg) d (removed i (g_storage_bytes g) d).
Proof.
  intros Hp Ho (_ & _ & -> & _)%gc_object_Ok Hi.
  eapply step_remove; [exact Ho|by right|apply returns_release|done].
Qed.

(** The sweep removes what is neither marked nor recent, each with its charge. *)
Lemma run_sweep p marked cutoff l acc c (Q : _ → _ → Prop) :
  p_collect p → loaded (c_db c) l → (∀ i, i ∈ root_children account (c_db c) → i ∈ marked) →
  (∀ acc' d', steps cfg p (c_db c) d' → swept marked cutoff l (c_db c) d' → keys_swept marked cutoff l acc.2 acc'.2 →
     Q (Ok acc') (with_c_db d' c)) →
  (∀ e c', c_saved c' = c_saved c → c_files c' = c_files c → c_events c' = c_events c → Q (Err e) c') →
  run (fold_m (sweep_object account marked cutoff) acc l) c Q.
Proof.
  intros Hp. revert acc c Q. induction l as [|[i g] l IH]; intros [report keys] c Q [Hnd Hl] Hroots HO HE.
  - simpl. run_step. destruct c. apply (HO (report, keys)); [apply rtc_refl|..].
    + repeat split. intros i. left. split; [|done]. intros g [?%elem_of_nil _]. done.
    + intros k. split; [by left|]. intros [?|(? & ? & [?%elem_of_nil _] & _)]; done.
  - apply NoDup_cons in Hnd as [Hi Hnd].
    assert (loaded (c_db c) l) as Hl' by (split; [done|]; intros j g' Hj; apply Hl; by right).
    simpl fold_m. run_step. unfold sweep_object at 1. destruct (_ || _) eqn:Hskip.
    + run_step. run_step. assert (¬ (i ∉ marked ∧ g_created_at_epoch_ms g ≤ cutoff)) as Hno.
      { intros [Hm Hc]. rewrite bool_decide_eq_false_2 in Hskip by done. simpl in Hskip. lia. }
      apply IH; [done|done| |done]. intros acc' d' Hst Hs Hk. apply HO; [done|by apply swept_skip|].
      intros k. rewrite (Hk k). setoid_rewrite goes_cons. naive_solver.
    + apply orb_false_iff in Hskip as [Hm%bool_decide_eq_false Hc]. assert (g_created_at_epoch_ms g ≤ cutoff) by lia.
      destruct (Hl i g) as (o & Ho & Hg); [by left|].
      run_step. run_step; run_step; [|by apply HE].
      run_step. apply run_release; [|intros e; run_step; by apply HE]. run_step. run_step. run_step.
      match goal with |- run _ ?x _ => change x with (with_c_db (removed i (g_storage_bytes g) (c_db c)) c) end.
      assert (db_step p (global_storage_limit_bytes cfg) (c_db c) (removed i (g_storage_bytes g) (c_db c))) as Hstep.
      { eapply removed_step; [done|exact Ho|done|]. intros ?%Hroots. done. }
      apply IH; [by apply removed_loaded|done| |].
      * intros acc' d' Hst Hs Hk. apply HO; [eapply rtc_l; [exact Hstep|exact Hst]|eapply swept_remove; [done|done|exact Hs]|].
        intros k. rewrite (Hk k). setoid_rewrite goes_cons. simpl. destruct (g_blob_storage_key g) eqn:Hkey.
        -- rewrite elem_of_app, list_elem_of_singleton. naive_solver.
        -- naive_solver.
      * intros e c' Hs Hf He. by apply HE.
Qed.

(** What collecting the account leaves: what can be reached from its root, and what is
    recent. *)
Definition collected (cutoff : Z) (d d' : Db) : Prop :=
  roots d' = roots d ∧ root_events d' = root_events d
  ∧ (∀ acct, acct ≠ account → accounts d' !! acct = accounts d !! acct ∧ objects_of acct d' = objects_of acct d)
  ∧ ∀ i o, objects_of account d' !! i = Some o
           ↔ objects_of account d !! i = Some o ∧ (from_root d i ∨ cutoff < o_created_at_epoch_ms o).
(** The blobs of what it removes. *)
Definition keys_collected (d d' : Db) (keys keys' : list bytes) : Prop :=
  ∀ k, k ∈ keys' ↔ k ∈ keys ∨ ∃ i o, objects_of account d !! i = Some o ∧ objects_of account d' !! i = None
                                     ∧ o_blob_storage_key o = Some k.

Section swept.
Context (cutoff : Z) (l : list (bytes * GcObject)) (d d' : Db).
Let marked := mark (list_to_map l) (root_children account d).
Hypothesis (Hl : loaded_all d l) (Hs : swept marked cutoff l d d').

Lemma goes_iff i : (∃ g, goes marked cutoff l i g) ↔
  ∃ o, objects_of account d !! i = Some o ∧ ¬ from_root d i ∧ o_created_at_epoch_ms o ≤ cutoff.
Proof.
  unfold goes, marked. split.
  - intros (g & Hg & Hm & Hc). destruct (proj2 (proj1 Hl) i g Hg) as (o & Ho & (_ & _ & _ & _ & Ht)%gc_object_Ok).
    exists o. rewrite <- (loaded_mark d l i Hl), <- Ht. done.
  - intros (o & Ho & Hr & Hc). assert (i ∈ l.*1) as Hi by (apply (proj2 Hl); by exists o).
    apply list_elem_of_fmap in Hi as ([i' g] & -> & Hi). exists g. rewrite (loaded_mark d l _ Hl).
    split; [done|]. split; [done|]. destruct (proj2 (proj1 Hl) _ g Hi) as (o' & Ho' & (_ & _ & _ & _ & Ht)%gc_object_Ok).
    simpl in *. simplify_eq. by rewrite Ht.
Qed.
Lemma swept_collected : collected cutoff d d'.
Proof.
  destruct Hs as (Hr & He & Hother & Hrows). split; [done|]. split; [done|]. split; [done|]. intros i o.
  destruct (Hrows i) as [[Hg ->]|[Hg ->]].
  - split; [|naive_solver]. intros Ho. split; [done|]. destruct (decide (i ∈ marked)) as [Hm|Hm].
    + left. by apply (loaded_mark d l i Hl).
    + right. destruct (Z.lt_ge_cases cutoff (o_created_at_epoch_ms o)) as [|Hc]; [done|]. exfalso.
      assert (∃ g, goes marked cutoff l i g) as [g ?]; [|by eapply Hg]. apply goes_iff. exists o.
      split; [done|]. split; [|done]. by rewrite <- (loaded_mark d l i Hl).
  - split; [done|]. intros [Ho Hkeep]. apply goes_iff in Hg as (o' & Ho' & Hn & Hc). simplify_eq.
    destruct Hkeep; [done|lia].
Qed.
Lemma swept_keys keys keys' : keys_swept marked cutoff l keys keys' → keys_collected d d' keys keys'.
Proof.
  intros Hk k. rewrite (Hk k). f_equiv. destruct Hs as (_ & _ & _ & Hrows). split.
  - intros (i & g & Hg & Hkey). destruct (proj2 (proj1 Hl) i g (proj1 Hg)) as (o & Ho & (_ & _ & _ & Hk' & _)%gc_object_Ok).
    exists i, o. split; [done|]. split; [|congruence]. destruct (Hrows i) as [[Hno _]|[_ ?]]; [by destruct (Hno g)|done].
  - intros (i & o & Ho & Hn & Hkey). destruct (Hrows i) as [[_ Hsame]|[[g Hg] _]]; [congruence|]. exists i, g.
    split; [done|]. destruct (proj2 (proj1 Hl) i g (proj1 Hg)) as (o' & Ho' & (_ & _ & _ & Hk' & _)%gc_object_Ok).
    congruence.
Qed.
End swept.

Definition account_done (p : Perm) (cutoff : Z) (acc : GcReport * list bytes) (c : Core)
    (r : result StoreError (GcReport * list bytes)) (c' : Core) : Prop :=
  moves cfg p c r c' ∧ c_files c' = c_files c ∧ c_events c' = c_events c ∧
  match r with
  | Ok acc' => collected cutoff (c_db c) (c_db c') ∧ keys_collected (c_db c) (c_db c') acc.2 acc'.2
  | Err _ => c_db c' = c_db c
  end.

Lemma run_gc_account p cutoff acc c :
  p_collect p → c_saved c = None → run (gc_account cutoff acc account) c (account_done p cutoff acc c).
Proof.
  intros Hp Hc. unfold gc_account. run_step.
  assert (∀ e c', c_saved c' = Some (c_db c) → c_files c' = c_files c → c_events c' = c_events c →
    account_done p cutoff acc c (Err e) (rolled_back c')) as HQ.
  { intros e c' Hs Hf He. unfold rolled_back. rewrite Hs. split; [|done]. split; [done|]. split; [apply rtc_refl|by right]. }
  apply run_transaction; [done| |intros text; run_step; split; [by apply moves_refl|done]].
  run_step. apply run_load; [|intros e; run_step; by apply (HQ e (began c))].
  intros l Hl. cbn [began c_db] in Hl. run_step. run_step. run_step; [|intros text; run_step; by apply (HQ (sqlite text) (began c))]. run_step.
  run_step. run_step. cbn [began c_db].
  assert (∀ rc, match r_children_json <$> roots (c_db c) !! account with Some json => decode_children json | None => Ok [] end
            = Ok rc → rc = root_children account (c_db c)) as Hrc.
  { intros rc. unfold root_children. destruct (roots (c_db c) !! account) as [r|]; simpl; [|by intros [= <-]].
    unfold decode_children. intros Hd%map_err_Ok. by rewrite Hd. }
  destruct (match _ with Some json => _ | None => _ end) as [rc|e]; [|run_step; by apply (HQ e (began c))].
  rewrite (Hrc rc eq_refl). run_step. run_step.
  apply (run_sweep p); [done|exact (proj1 Hl)| |..].
  - intros i Hi. rewrite (loaded_mark _ l _ Hl). exists i. split; [done|apply rtc_refl].
  - intros acc' d' Hst Hs Hk. cbn [began c_db with_c_db] in Hst, Hs. run_step. run_step. run_step.
    + run_step. run_step. unfold rolled_back. cbn [committed c_saved]. run_step. run_step. run_step. run_step. run_step. split; [split; [done|split; [done|by right]]|]. split; [done|]. split; [done|].
      split; [by eapply swept_collected|by eapply swept_keys].
    + run_step. by apply HQ.
  - intros e c' Hs Hf He. run_step. by apply HQ.
Qed.
End account.

(** ** All accounts *)

Section all.
Context `{ServerLaws} (cfg : StoreConfig).

Lemma from_root_same account d d' x :
  objects_of account d' = objects_of account d → roots d' = roots d → from_root account d' x ↔ from_root account d x.
Proof. intros Ho Hr. unfold from_root, edge, root_children. by rewrite Ho, Hr. Qed.

(** The accounts [done] are collected, the others as they were. *)
Definition gc_upto (done : list bytes) (cutoff : Z) (d d' : Db) : Prop :=
  roots d' = roots d ∧ root_events d' = root_events d
  ∧ ∀ account, (account ∈ done ∧ ∀ i o, objects_of account d' !! i = Some o
                  ↔ objects_of account d !! i = Some o ∧ (from_root account d i ∨ cutoff < o_created_at_epoch_ms o))
               ∨ (account ∉ done ∧ objects_of account d' = objects_of account d).
Definition keys_upto (d d' : Db) (keys keys' : list bytes) : Prop :=
  ∀ k, k ∈ keys' ↔ k ∈ keys ∨ ∃ account i o, objects_of account d !! i = Some o ∧ objects_of account d' !! i = None
                                             ∧ o_blob_storage_key o = Some k.

Lemma gc_upto_nil cutoff d : gc_upto [] cutoff d d.
Proof. split; [done|]. split; [done|]. intros account. right. split; [by apply not_elem_of_nil|done]. Qed.

Lemma gc_upto_cons account done cutoff d d1 d2 :
  account ∉ done → collected account cutoff d d1 → gc_upto done cutoff d1 d2 → gc_upto (account :: done) cutoff d d2.
Proof.
  intros Hnot (Hr & He & Hother & Hrows) (Hr2 & He2 & Hrest). split; [congruence|]. split; [congruence|].
  intros acct. destruct (decide (acct = account)) as [->|Hne].
  - left. split; [by left|]. destruct (Hrest account) as [[? _]|[_ Ho]]; [done|]. by rewrite Ho.
  - destruct (Hother acct Hne) as [_ Ho]. destruct (Hrest acct) as [[Hin Hc]|[Hin Hc]].
    + left. split; [by right|]. intros i o. rewrite (Hc i o), Ho, (from_root_same acct d d1) by done. done.
    + right. split; [|congruence]. intros [->|?]%elem_of_cons; done.
Qed.

Lemma gc_upto_sub done cutoff d d' account i o :
  gc_upto done cutoff d d' → objects_of account d' !! i = Some o → objects_of account d !! i = Some o.
Proof. intros (_ & _ & Hrows). destruct (Hrows account) as [[_ Hc]|[_ ->]]; [|done]. intros Ho. by apply Hc. Qed.

Lemma keys_upto_cons account done cutoff d d1 d2 keys keys1 keys2 :
  account ∉ done → collected account cutoff d d1 → gc_upto done cutoff d1 d2 →
  keys_collected account d d1 keys keys1 → keys_upto d1 d2 keys1 keys2 → keys_upto d d2 keys keys2.
Proof.
  intros Hnot (_ & _ & Hother & Hrows) Hup Hk1 Hk2 k. rewrite (Hk2 k), (Hk1 k). split.
  - intros [[?|(i & o & Ho & Hn & Hk)]|(acct & i & o & Ho & Hn & Hk)]; [by left|right..].
    + exists account, i, o. split; [done|]. split; [|done]. destruct (objects_of account d2 !! i) eqn:Ho2; [|done].
      apply (gc_upto_sub _ _ _ _ _ _ _ Hup) in Ho2. congruence.
    + exists acct, i, o. split; [|done]. destruct (decide (acct = account)) as [->|Hne]; [by apply Hrows in Ho as [Ho _]|].
      by destruct (Hother acct Hne) as [_ <-].
  - intros [?|(acct & i & o & Ho & Hn & Hk)]; [by left; left|]. destruct (objects_of acct d1 !! i) as [o'|] eqn:Ho1.
    + right. exists acct, i, o'. split; [done|]. split; [done|]. destruct (decide (acct = account)) as [->|Hne].
      * apply Hrows in Ho1 as [Ho1 _]. congruence.
      * destruct (Hother acct Hne) as [_ E]. congruence.
    + left. right. destruct (decide (acct = account)) as [->|Hne]; [by exists i, o|].
      destruct (Hother acct Hne) as [_ E]. congruence.
Qed.

Definition accounts_done (p : Perm) (cutoff : Z) (l keys : list bytes) (c : Core)
    (r : result StoreError (GcReport * list bytes)) (c' : Core) : Prop :=
  moves cfg p c r c' ∧ c_files c' = c_files c ∧ c_events c' = c_events c ∧
  match r with
  | Ok acc' => gc_upto l cutoff (c_db c) (c_db c') ∧ keys_upto (c_db c) (c_db c') keys acc'.2
  | Err _ => ∃ done, done ⊆ l ∧ gc_upto done cutoff (c_db c) (c_db c')
  end.

Lemma run_gc_accounts p cutoff l acc c :
  p_collect p → NoDup l → c_saved c = None →
  run (fold_m (gc_account cutoff) acc l) c (accounts_done p cutoff l acc.2 c).
Proof.
  intros Hp. revert acc c. induction l as [|account l IH]; intros acc c Hnd Hc.
  - simpl. run_step. split; [by apply moves_refl|]. split; [done|]. split; [done|]. split; [apply gc_upto_nil|].
    intros k. split; [by left|]. intros [?|(? & ? & ? & ? & ? & _)]; [done|congruence].
  - apply NoDup_cons in Hnd as [Hnot Hnd]. simpl fold_m. run_step.
    eapply run_mono; [by apply (run_gc_account cfg account p)|].
    intros [acc1|e] c1 (Hm & Hf & He & Hcol); run_step.
    + destruct Hcol as [Hcol Hk]. eapply run_mono; [apply (IH acc1 c1); [done|apply Hm]|].
      intros r c2 (Hm2 & Hf2 & He2 & Hres). split; [by eapply moves_trans|]. split; [congruence|]. split; [congruence|].
      destruct r as [acc2|e].
      * destruct Hres as [Hup Hk2]. split; [by eapply gc_upto_cons|by eapply keys_upto_cons].
      * destruct Hres as (done & Hsub & Hup). exists (account :: done). split; [set_solver|].
        eapply gc_upto_cons; [|exact Hcol|exact Hup]. intros ?%Hsub. done.
    + split; [done|]. split; [done|]. split; [done|]. exists []. rewrite Hcol. split; [set_solver|apply gc_upto_nil].
Qed.

(** ** Files *)

Lemma strip_blob_key key : strip_blob (key ++ bs ".blob") = Some key.
Proof.
  unfold strip_blob. rewrite !len_app, !length_app. change (len (bs ".blob")) with 5. change (length (bs ".blob")) with 5%nat.
  pose proof (len_nonneg key). replace (5 <=? len key + 5) with true by lia.
  replace (length key + 5 - 5)%nat with (length key) by lia. rewrite drop_app_length, bool_decide_eq_true_2 by done.
  simpl. by rewrite take_app_length.
Qed.

(** Files only go; [P] says which may. *)
Definition shrinks (P : FilePath → BlobFile → Prop) (fs fs' : gmap FilePath BlobFile) : Prop :=
  (∀ path file, fs' !! path = Some file → fs !! path = Some file)
  ∧ ∀ path file, fs !! path = Some file → fs' !! path = Some file ∨ P path file.
Lemma shrinks_refl P fs : shrinks P fs fs.
Proof. split; auto. Qed.
Lemma shrinks_trans P fs fs1 fs2 : shrinks P fs fs1 → shrinks P fs1 fs2 → shrinks P fs fs2.
Proof. intros [Ha Hb] [Hc Hd]. split; [auto|]. intros path file Hf. destruct (Hb _ _ Hf) as [Hf1|]; auto. Qed.

Definition only_shrinks (P : FilePath → BlobFile → Prop) (c c' : Core) : Prop :=
  c_db c' = c_db c ∧ c_saved c' = c_saved c ∧ c_events c' = c_events c ∧ shrinks P (c_files c) (c_files c').

Lemma run_remove_file path c (Q : _ → _ → Prop) :
  (∀ b, Q (Ok b) (with_c_files (delete path (c_files c)) c)) → (∀ e, Q (Err e) c) →
  run (remove_file_if_present path) c Q.
Proof.
  intros HO HE. unfold remove_file_if_present. run_step. apply run_gets. intros s Hs. run_step.
  destruct (files s !! path) as [file|] eqn:Hf.
  - run_step. run_skip; run_step; [|apply HE]. run_step. apply run_modify. intros s' <-. run_step. run_step. apply HO.
  - run_step. assert (delete path (c_files c) = c_files c) as E by (apply delete_id; by rewrite <- Hs).
    specialize (HO false). rewrite E in HO. by destruct c.
Qed.

Lemma run_fold_shrinks {A B} (body : B → A → M B) (P : FilePath → BlobFile → Prop) (gone : A → Core → Prop) l acc c :
  (∀ x c c', gone x c → shrinks P (c_files c) (c_files c') → gone x c') →
  (∀ acc x c1, x ∈ l → shrinks P (c_files c) (c_files c1) →
     run (body acc x) c1 (λ r c', only_shrinks P c1 c' ∧ (∀ b, r = Ok b → gone x c'))) →
  run (fold_m body acc l) c (λ r c', only_shrinks P c c' ∧ (∀ b, r = Ok b → ∀ x, x ∈ l → gone x c')).
Proof.
  intros Hgone. revert acc c. induction l as [|x l IH]; intros acc c Hb; simpl.
  - run_step. split; [repeat split; auto|]. intros b _ x Hx. by apply elem_of_nil in Hx.
  - run_step. eapply run_mono; [apply Hb; [by left|apply shrinks_refl]|]. intros [acc1|e] c1 [(Ed & Es & Ee & Hf) Hx]; run_step.
    + eapply run_mono; [apply IH; intros; apply Hb; [by right|by eapply shrinks_trans]|]. intros r c2 [(Ed2 & Es2 & Ee2 & Hf2) Hl].
      split; [split; [congruence|]; split; [congruence|]; split; [congruence|by eapply shrinks_trans]|].
      intros b Hr y [->|Hy]%elem_of_cons; [|by eapply Hl]. eapply Hgone; [by eapply Hx|exact Hf2].
    + by split.
Qed.

(** A row refers to the blob [k]. *)
Definition refers (d : Db) (k : bytes) : Prop :=
  ∃ account i o, objects_of account d !! i = Some o ∧ o_blob_storage_key o = Some k.
Lemma elem_of_referenced d k : k ∈ referenced_keys d ↔ refers d k.
Proof.
  unfold referenced_keys, refers. rewrite elem_of_list_to_set, list_elem_of_bind. split.
  - intros ([account rows] & Hk & Hrows%elem_of_map_to_list). apply list_elem_of_bind in Hk as ([i o] & Hk & Hi%elem_of_map_to_list).
    exists account, i, o. unfold objects_of. rewrite Hrows. split; [done|].
    destruct (o_blob_storage_key o); [|by apply elem_of_nil in Hk]. by apply list_elem_of_singleton in Hk as ->.
  - intros (account & i & o & Ho & Hk). unfold objects_of in Ho. destruct (objects d !! account) as [rows|] eqn:Hrows; [|done].
    exists (account, rows). split; [|by apply elem_of_map_to_list]. apply list_elem_of_bind. exists (i, o).
    split; [|by apply elem_of_map_to_list]. rewrite Hk. by left.
Qed.

(** Files that may go: those of removed objects, and old ones that no row refers to. *)
Definition named (referenced : bytes → Prop) (path : FilePath) : Prop := ∃ k, strip_blob path.2 = Some k ∧ referenced k.
Definition may_go (cutoff : Z) (keys : list bytes) (d : Db) (path : FilePath) (file : BlobFile) : Prop :=
  (∃ k, k ∈ keys ∧ path = blob_path k) ∨ (¬ named (refers d) path ∧ f_modified_epoch_ms file ≤ cutoff).

Lemma shrinks_delete (P : FilePath → BlobFile → Prop) path fs :
  (∀ file, fs !! path = Some file → P path file) → shrinks P fs (delete path fs).
Proof.
  intros HP. split.
  - intros path' file Hf. by apply lookup_delete_Some in Hf as [_ ?].
  - intros path' file Hf. destruct (decide (path = path')) as [<-|Hne]; [right; by apply HP|left; by rewrite lookup_delete_ne].
Qed.
Lemma only_shrinks_refl P c : only_shrinks P c c.
Proof. repeat split; auto. Qed.
Lemma only_shrinks_delete (P : FilePath → BlobFile → Prop) path c :
  (∀ file, c_files c !! path = Some file → P path file) →
  only_shrinks P c (with_c_files (delete path (c_files c)) c).
Proof. intros HP. do 3 (split; [done|]). by apply shrinks_delete. Qed.

Lemma run_remove_deleted cutoff keys d report key c :
  key ∈ keys → run (remove_deleted report key) c (λ r c', only_shrinks (may_go cutoff keys d) c c').
Proof.
  intros Hk. unfold remove_deleted. run_step.
  apply run_remove_file; [|intros e; run_step; apply only_shrinks_refl]. intros b. run_step. run_step.
  apply only_shrinks_delete. intros file _. left. by exists key.
Qed.

(** An orphan does not survive the scan. *)
Definition scanned (cutoff : Z) (d : Db) (entry : FilePath * BlobFile) (c : Core) : Prop :=
  named (refers d) entry.1 ∨ cutoff < f_modified_epoch_ms entry.2 ∨ c_files c !! entry.1 = None.

Lemma run_remove_orphan cutoff keys d report path file c :
  (∀ f, c_files c !! path = Some f → f = file) →
  run (remove_orphan (referenced_keys d) cutoff report (path, file)) c
    (λ r c', only_shrinks (may_go cutoff keys d) c c' ∧ (∀ b, r = Ok b → scanned cutoff d (path, file) c')).
Proof.
  intros Hfile. unfold remove_orphan. destruct (_ || _) eqn:Hkeep.
  - run_step. split; [apply only_shrinks_refl|]. intros b _. apply orb_true_iff in Hkeep as [Hn|Hr].
    + left. simpl. unfold named. destruct (strip_blob path.2) as [k|]; [|done]. zbool. exists k.
      split; [done|]. by apply elem_of_referenced.
    + right. left. simpl. lia.
  - apply orb_false_iff in Hkeep as [Hn Hr].
    assert (¬ named (refers d) path) as Hnot.
    { intros (k & Hk & Href). rewrite Hk in Hn. zbool. apply Hn. by apply elem_of_referenced. }
    run_step. apply run_remove_file; [|intros e; run_step; split; [apply only_shrinks_refl|done]]. intros b. run_step. run_step.
    split; [|intros ? _; right; right; simpl; apply lookup_delete_eq].
    apply only_shrinks_delete. intros f Hf. right. apply Hfile in Hf as ->. split; [done|lia].
Qed.

Definition files_done (cutoff : Z) (keys : list bytes) (c : Core) (r : result StoreError GcReport) (c' : Core) : Prop :=
  only_shrinks (may_go cutoff keys (c_db c)) c c' ∧
  ∀ report, r = Ok report → ∀ path file, c_files c' !! path = Some file →
    named (refers (c_db c)) path ∨ cutoff < f_modified_epoch_ms file.

Lemma run_gc_files cutoff acc c : run (gc_files cutoff acc) c (files_done cutoff acc.2 c).
Proof.
  assert (∀ e c', only_shrinks (may_go cutoff acc.2 (c_db c)) c c' → files_done cutoff acc.2 c (Err e) c') as HE by by split.
  unfold gc_files. run_step. run_step; [|intros; run_step; apply HE, only_shrinks_refl]. run_step.
  run_step. eapply run_mono; [apply (run_fold_shrinks _ (may_go cutoff acc.2 (c_db c)) (λ _ _, True)); [done|]|].
  { intros report key c1 Hk _. eapply run_mono; [by apply (run_remove_deleted cutoff acc.2 (c_db c))|]. done. }
  intros [report|e] c1 [Hs1 _]; run_step; [|by apply HE]. run_step. run_skip; run_step; [|by apply HE].
  run_step. apply run_gets. intros s Hs. run_step. pose proof Hs1 as (Ed & Es & Ee & Hsh).
  assert (∀ path file, (path, file) ∈ map_to_list (files s) ↔ c_files c1 !! path = Some file) as Hent.
  { intros path file. rewrite elem_of_map_to_list. by rewrite <- Hs. }
  eapply run_mono.
  - apply (run_fold_shrinks _ (may_go cutoff acc.2 (c_db c)) (scanned cutoff (c_db c))).
    + intros [path file] c2 c3 [?|[?|Hn]] Hsh'; [by left|by right; left|right; right]. simpl in *.
      destruct (c_files c3 !! path) eqn:Hf; [|done]. apply Hsh' in Hf. congruence.
    + intros report' [path file] c2 Hin%Hent [Hsub _]. apply run_remove_orphan. intros f Hf. apply Hsub in Hf. congruence.
  - intros r c2 [(Ed2 & Es2 & Ee2 & Hsh2) Hdone]. split.
    + split; [congruence|]. split; [congruence|]. split; [congruence|]. by eapply shrinks_trans.
    + intros report' Hr path file Hf. pose proof Hf as Hin. apply Hsh2, Hent in Hin.
      destruct (Hdone _ Hr _ Hin) as [?|[?|Hn]]; [by left|by right|]. simpl in Hn. congruence.
Qed.

(** ** The whole run *)

(** Files that a run may remove. *)
Definition file_goes (cutoff : Z) (d d' : Db) (path : FilePath) (file : BlobFile) : Prop :=
  (∃ account i o k, objects_of account d !! i = Some o ∧ objects_of account d' !! i = None
      ∧ o_blob_storage_key o = Some k ∧ path = blob_path k)
  ∨ (¬ named (refers d') path ∧ f_modified_epoch_ms file ≤ cutoff).

Definition gc_done (p : Perm) (cutoff : Z) (c : Core) (r : result StoreError GcReport) (c' : Core) : Prop :=
  moves cfg p c r c' ∧ c_events c' = c_events c
  ∧ shrinks (file_goes cutoff (c_db c) (c_db c')) (c_files c) (c_files c')
  ∧ (∃ done, gc_upto done cutoff (c_db c) (c_db c') ∧
       ∀ report, r = Ok report → ∀ account, is_Some (accounts (c_db c) !! account) → account ∈ done)
  ∧ ∀ report, r = Ok report → ∀ path file, c_files c' !! path = Some file →
      named (refers (c_db c')) path ∨ cutoff < f_modified_epoch_ms file.

Lemma gc_done_err p cutoff c e c' : gc_done p cutoff c (Err e) c' → ∀ e', gc_done p cutoff c (Err e') c'.
Proof. intros (Hm & He & Hs & (done & Hup & _) & _) e'. split; [exact Hm|]. split; [done|]. split; [done|]. split; [by exists done|done]. Qed.

Lemma gc_done_refl p cutoff e c : c_saved c = None → gc_done p cutoff c (Err e) c.
Proof.
  intros Hc. split; [by apply moves_refl|]. split; [done|]. split; [apply shrinks_refl|]. split; [|done].
  exists []. split; [apply gc_upto_nil|done].
Qed.

Lemma run_gc_inner_done p now grace c :
  p_collect p → p_files p → c_saved c = None → run (run_gc_inner now grace) c (gc_done p (now - grace) c).
Proof.
  intros Hp Hfiles Hc. unfold run_gc_inner. run_step. unfold gc_accounts.
  run_step; [|intros; run_step; by apply gc_done_refl]. run_step. run_step.
  eapply run_mono; [apply (run_gc_accounts p); [done| |done]|].
  { rewrite map_iter_Permutation. apply NoDup_fst_map_to_list. }
  intros [acc|e] c1 (Hm & Hf & He & Hres); run_step.
  2: { destruct Hres as (done & _ & Hup). split; [done|]. split; [done|]. split; [rewrite Hf; apply shrinks_refl|].
       split; [by exists done|done]. }
  destruct Hres as [Hup Hk]. run_step. eapply run_mono; [apply run_gc_files|].
  intros r c2 [(Ed & Es & Ee & Hsh) Hclean].
  assert (∀ e, gc_done p (now - grace) c (Err e) c2 ∧ (∀ report, r = Ok report → gc_done p (now - grace) c (Ok report) c2)) as Hd.
  { assert (gc_done p (now - grace) c r c2) as Hdone; [|intros e; split; [|by intros report ->]].
    - split; [eapply moves_trans; [exact Hm|]; split; [rewrite Es; apply Hm|rewrite Ed; split; [apply rtc_refl|by left]]|].
      split; [congruence|]. split.
      { rewrite <- Hf. destruct Hsh as [Hsub Hkeep]. split; [done|]. intros path file Hfile.
        destruct (Hkeep _ _ Hfile) as [?|[(k & Hkin & ->)|Ho]]; [by left|right; left|right; right; by rewrite Ed].
        apply Hk in Hkin as [?%elem_of_nil|(account & i & o & Ho & Hn & Hkey)]; [done|].
        exists account, i, o, k. by rewrite Ed. }
      split.
      { eexists. split; [rewrite Ed; exact Hup|]. intros report _ account [a Ha]. apply list_elem_of_fmap.
        exists (account, a). split; [done|]. by apply elem_of_map_iter. }
      intros report Hr path file Hfile. rewrite Ed. by eapply Hclean.
    - destruct r as [report|e']; [|by eapply gc_done_err].
      destruct Hdone as (Hm' & He' & Hs' & (done & Hup' & _) & _).
      split; [exact Hm'|]. split; [done|]. split; [done|]. split; [by exists done|done]. }
  destruct r as [report|e]; run_step; [|by apply Hd]. run_step. destruct (deleted_objects report >? 0).
  - run_step. run_step. run_step. by apply (Hd (internal [])).
  - run_step. run_step. run_step. by apply (Hd (internal [])).
Qed.

(** The durations and counters do not matter for what is stored. *)
Lemma gc_done_ok p cutoff c c' report report' : gc_done p cutoff c (Ok report) c' → gc_done p cutoff c (Ok report') c'.
Proof.
  intros (Hm & He & Hs & (done & Hup & Hall) & Hclean). split; [exact Hm|]. split; [done|]. split; [done|].
  split; [exists done; split; [done|]; intros ? _; by eapply Hall|]. intros ? _. by eapply Hclean.
Qed.

Lemma run_gc_run p now grace c :
  p_collect p → p_files p → c_saved c = None → run (run_gc now grace) c (gc_done p (now - grace) c).
Proof.
  intros Hp Hfiles Hc. unfold run_gc.
  do 3 (run_step; run_skip; run_step; [|by apply gc_done_refl]).
  run_step. eapply run_mono; [by apply (run_gc_inner_done p)|]. intros [report|e] c1 Hd; run_step; [|done].
  run_step. run_step. run_step.
  assert (∀ r, gc_done p (now - grace) c r c1) as Hall.
  { intros [report'|e]; [by eapply gc_done_ok|].
    destruct Hd as (Hm & He & Hs & (done & Hup & _) & _). split; [exact Hm|]. split; [done|]. split; [done|].
    split; [by exists done|done]. }
  apply run_quiet; [quiet_tac|done].
Qed.

Lemma Moves_run_gc p now grace : p_collect p → p_files p → Moves cfg p (run_gc now grace).
Proof. intros Hp Hf c Hc _. eapply run_mono; [by apply (run_gc_run p)|]. by intros r c' [Hm _]. Qed.
Lemma Moves_gc_account p cutoff acc account : p_collect p → Moves cfg p (gc_account cutoff acc account).
Proof. intros Hp c Hc _. eapply run_mono; [by apply (run_gc_account cfg account p)|]. by intros r c' [Hm _]. Qed.
Lemma Moves_gc_files p cutoff acc : p_files p → Moves cfg p (gc_files cutoff acc).
Proof.
  intros Hp c Hc _. eapply run_mono; [apply run_gc_files|]. intros r c' [(Ed & Es & _ & _) _].
  split; [congruence|]. rewrite Ed. split; [apply rtc_refl|by left].
Qed.
End all.
