(* ===== verification/AcsStoreOpen.v ===== *)
(** * Starting the cloud server's store

    What [open] does to the tables of an earlier run: the charges of the accounts are
    computed again from the rows, and uploads that were cut off are finished or undone. *)

From Stdlib Require Import Strings.Byte.
From stdpp Require Import base gmap list strings sorting relations.
From S2P Require Import Prelude CloudRecords AcsContracts CloudAcs AcsLimits AcsStoreState AcsStore AcsGc AcsAuth.
From S2P Require Import AcsStoreRun AcsStoreInv AcsStoreSteps.

Local Open Scope Z_scope.

(** ** The charges, from the rows *)

(** What rows charge an account for. *)
Definition owed (account : bytes) (rows : list (bytes * bytes * ObjectRow)) : Z :=
  foldr (λ row acc, (if decide (row.1.1 = account) then object_charge row.1.2 row.2 else 0) + acc) 0 rows.
Definition owed_root (account : bytes) (rows : list (bytes * RootRow)) : Z :=
  foldr (λ row acc, (if decide (row.1 = account) then root_charge (Some row.2) else 0) + acc) 0 rows.

Lemma owed_app account l l' : owed account (l ++ l') = owed account l + owed account l'.
Proof. unfold owed. induction l as [|x l IH]; simpl; [lia|]. rewrite IH. lia. Qed.

Lemma owed_account (account acct : bytes) (rows : gmap bytes ObjectRow) :
  owed account ('(object_id, o) ← map_to_list rows; [(acct, object_id, o)])
  = if decide (acct = account) then objects_charge rows else 0.
Proof.
  unfold objects_charge. rewrite map_fold_foldr. induction (map_to_list rows) as [|[i o] l IH]; simpl.
  - by case_decide.
  - change (owed account ([(acct, i, o)] ++ ('(object_id, o) ← l; [(acct, object_id, o)])) =
      (if decide (acct = account) then object_charge i o + foldr (uncurry (λ object_id o acc, object_charge object_id o + acc)) 0 l else 0)).
    rewrite owed_app, IH. unfold owed. simpl. case_decide; lia.
Qed.

Lemma owed_objects (account : bytes) (l : list (bytes * gmap bytes ObjectRow)) :
  NoDup l.*1 →
  owed account ('(acct, rows) ← l; '(object_id, o) ← map_to_list rows; [(acct, object_id, o)])
  = objects_charge (default ∅ ((list_to_map l : gmap bytes (gmap bytes ObjectRow)) !! account)).
Proof.
  induction l as [|[acct rows] l IH]; intros Hnd; [done|]. apply NoDup_cons in Hnd as [Hnot Hnd].
  rewrite bind_cons, owed_app, owed_account, (IH Hnd). simpl. rewrite lookup_insert. case_decide as Heq; [subst acct|lia].
  assert ((list_to_map l : gmap bytes (gmap bytes ObjectRow)) !! account = None) as -> by by apply not_elem_of_list_to_map.
  simpl. change (objects_charge ∅) with 0. lia.
Qed.
Lemma owed_exact (account : bytes) d : owed account (object_rows d) = objects_charge (objects_of account d).
Proof.
  unfold object_rows, objects_of. rewrite owed_objects by apply NoDup_fst_map_to_list. by rewrite list_to_map_to_list.
Qed.

Lemma owed_root_list (account : bytes) (l : list (bytes * RootRow)) :
  NoDup l.*1 → owed_root account l = root_charge ((list_to_map l : gmap bytes RootRow) !! account).
Proof.
  induction l as [|[acct r] l IH]; intros Hnd; [done|]. apply NoDup_cons in Hnd as [Hnot Hnd].
  simpl. rewrite lookup_insert.
  rewrite (IH Hnd). case_decide as Heq; [subst acct|lia].
  assert ((list_to_map l : gmap bytes RootRow) !! account = None) as -> by by apply not_elem_of_list_to_map.
  simpl. lia.
Qed.
Lemma owed_root_exact (account : bytes) d : owed_root account (map_to_list (roots d)) = root_charge (roots d !! account).
Proof. rewrite owed_root_list by apply NoDup_fst_map_to_list. by rewrite list_to_map_to_list. Qed.

(** A saturating sum per account: what is tallied so far, of amounts that are not negative. *)
Definition tallies (due : bytes → Z) (m : gmap bytes Z) : Prop :=
  (∀ account, 0 ≤ due account) ∧ ∀ account n, m !! account = Some n → n = Z.min u64_max (due account).

Lemma charge_Ok (missing account : bytes) (n : Z) (due : bytes → Z) (m m' : gmap bytes Z) :
  0 ≤ n → tallies due m → charge missing account n m = Ok m' →
  tallies (λ a, due a + if decide (account = a) then n else 0) m' ∧ dom m' = dom m.
Proof.
  intros Hn [Hd Hm] (used & Hu%ok_or_Ok & [= <-])%bind_Ok. split; [split|].
  - intros a. specialize (Hd a). case_decide; lia.
  - intros a x. rewrite lookup_insert. case_decide as Heq.
    + subst a. intros [= <-]. rewrite (Hm _ _ Hu). specialize (Hd account). unfold saturating_add, u64_max in *. lia.
    + intros Ha. rewrite (Hm _ _ Ha). f_equal. lia.
  - apply dom_insert_lookup_L. by exists used.
Qed.
Lemma tallies_ext (due due' : bytes → Z) m : (∀ a, due a = due' a) → tallies due m → tallies due' m.
Proof. intros He [Hd Hm]. split; [intros a; rewrite <- He; apply Hd|]. intros a n Ha. rewrite <- He. by apply Hm. Qed.

Section opening.
Context `{ServerLaws} (cfg : StoreConfig).

Lemma charge_objects (rows : list (bytes * bytes * ObjectRow)) (due : bytes → Z) (m m' : gmap bytes Z) :
  tallies due m → try_fold charge_object m rows = Ok m' → tallies (λ a, due a + owed a rows) m' ∧ dom m' = dom m.
Proof.
  revert due m. induction rows as [|[[account i] o] rows IH]; intros due m Hm; simpl.
  - intros [= <-]. split; [|done]. eapply tallies_ext; [|exact Hm]. intros a. unfold owed. simpl. lia.
  - intros (m1 & H1 & H2)%bind_Ok. apply bind_Ok in H1 as (size & Hs%map_err_Ok & H1). apply row_u64_Ok in Hs as [-> Hs].
    apply (charge_Ok _ _ _ due) in H1 as [Ht Hdom]; [|apply (object_charge_nonneg i o); lia|done].
    apply (IH _ _ Ht) in H2 as [Ht2 Hdom2]. split; [|congruence]. eapply tallies_ext; [|exact Ht2].
    intros a. unfold object_charge. simpl. case_decide; lia.
Qed.
Lemma charge_roots (rows : list (bytes * RootRow)) (due : bytes → Z) (m m' : gmap bytes Z) :
  tallies due m → try_fold charge_root m rows = Ok m' → tallies (λ a, due a + owed_root a rows) m' ∧ dom m' = dom m.
Proof.
  revert due m. induction rows as [|[account r] rows IH]; intros due m Hm; simpl.
  - intros [= <-]. split; [|done]. eapply tallies_ext; [|exact Hm]. intros a. unfold owed_root. simpl. lia.
  - intros (m1 & H1 & H2)%bind_Ok. apply bind_Ok in H1 as (size & Hs%map_err_Ok & H1). apply row_u64_Ok in Hs as [-> Hs].
    apply (charge_Ok _ _ _ due) in H1 as [Ht Hdom]; [|apply root_bytes_nonneg; lia|done].
    apply (IH _ _ Ht) in H2 as [Ht2 Hdom2]. split; [|congruence]. eapply tallies_ext; [|exact Ht2].
    intros a. simpl. case_decide; lia.
Qed.

(** What a start may do: set charges, finish uploads. *)
Definition starting : Perm :=
  {| p_unfair := True; p_ready := True; p_files := False; p_collect := False; p_swap := False; p_drop := λ _, False |}.

(** What finishing uploads may do. *)
Definition settling : Perm :=
  {| p_unfair := False; p_ready := True; p_files := False; p_collect := False;
     p_swap := False; p_drop := λ _, False |}.

Lemma perm_le_starting : perm_le settling starting.
Proof. by repeat split. Qed.

(** ** The charges are set *)

Lemma run_set_stored account n c (Q : _ → _ → Prop) :
  (n ≤ i64_max → Q (Ok tt) (with_c_db (update_account account (λ a, with_stored n (a_object_count a) a) (c_db c)) c)) →
  (∀ e, Q (Err e) c) → run (set_stored (account, n)) c Q.
Proof.
  intros HO HE. unfold set_stored. run_step; [|apply HE].
  match goal with Hx : (_ ≫= _) = Ok _ |- _ => apply bind_Ok in Hx as (x & [-> Hn]%param_u64_Ok & [= <-]) end. apply HO. simpl in Hn. lia.
Qed.

(** The rows but those of the accounts stay; an account has the amount listed for it. *)
Definition charges_set (l : list (bytes * Z)) (d d' : Db) : Prop :=
  roots d' = roots d ∧ objects d' = objects d ∧ root_events d' = root_events d
  ∧ ∀ account, accounts d' !! account
      = (λ a, match (list_to_map l : gmap bytes Z) !! account with
              | Some n => with_stored n (a_object_count a) a
              | None => a
              end) <$> accounts d !! account.

Lemma with_stored_twice n m k a : with_stored n k (with_stored m k a) = with_stored n k a.
Proof. done. Qed.

Lemma run_set_all l c (Q : _ → _ → Prop) :
  NoDup l.*1 →
  (∀ d', charges_set l (c_db c) d' → Forall (λ kv, kv.2 ≤ i64_max) l → steps cfg starting (c_db c) d' → Q (Ok tt) (with_c_db d' c)) →
  (∀ e c', c_saved c' = c_saved c → c_files c' = c_files c → c_events c' = c_events c → Q (Err e) c') →
  run (for_each set_stored l) c Q.
Proof.
  revert c Q. induction l as [|[account n] l IH]; intros c Q Hnd HO HE; simpl.
  - run_step. destruct c. apply HO; [|constructor|apply rtc_refl]. repeat split. simpl. intros account.
    symmetry. apply option_fmap_id.
  - apply NoDup_cons in Hnd as [Hnot Hnd]. run_step. apply run_set_stored; [|intros e; run_step; by apply HE].
    intros Hn. run_step. apply IH; [done| |intros e c' Hs Hf He; by apply HE].
    intros d' (Hr & Ho & He & Ha) Hall Hst. apply (HO d'); [|by constructor|].
    + split; [done|]. split; [done|]. split; [done|]. intros acct. rewrite (Ha acct). simpl.
      rewrite lookup_alter, lookup_insert.
      case_decide as Heq; [|done]. subst acct. destruct (accounts (c_db c) !! account) as [a|]; [|done]. simpl.
      assert ((list_to_map l : gmap bytes Z) !! account = None) as ->; [|done]. by apply not_elem_of_list_to_map.
    + eapply rtc_l; [|exact Hst]. by apply step_miscount.
Qed.

(** What recomputing the charges achieves: each account is charged for exactly its rows. *)
Definition recharged (d d' : Db) : Prop :=
  roots d' = roots d ∧ objects d' = objects d ∧ root_events d' = root_events d
  ∧ ∀ account, accounts d' !! account = (λ a, with_stored (usage account d) (a_object_count a) a) <$> accounts d !! account.

Lemma charges_recharged (d d' : Db) (m : gmap bytes Z) :
  dom m = dom (accounts d) → tallies (λ a, usage a d) m → Forall (λ kv, kv.2 ≤ i64_max) (map_iter m) →
  charges_set (map_iter m) d d' → recharged d d'.
Proof.
  intros Hdom [Hpos Hm] Hall (Hr & Ho & He & Ha). split; [done|]. split; [done|]. split; [done|].
  intros account. rewrite (Ha account). destruct (accounts d !! account) as [a|] eqn:Hacc; [|done]. simpl.
  assert (is_Some (m !! account)) as [n Hn] by (apply elem_of_dom; rewrite Hdom; by apply elem_of_dom).
  assert ((list_to_map (map_iter m) : gmap bytes Z) !! account = Some n) as ->.
  { apply elem_of_list_to_map_1; [|by apply elem_of_map_iter]. rewrite map_iter_Permutation. apply NoDup_fst_map_to_list. }
  rewrite Forall_forall in Hall. specialize (Hall (account, n) (proj2 (elem_of_map_iter _ _ _) Hn)). simpl in Hall.
  do 2 f_equal. rewrite (Hm _ _ Hn) in *. specialize (Hpos account). unfold u64_max, i64_max in *. lia.
Qed.

Lemma rolled_back_all c c' :
  c_saved c = None → c_saved c' = Some (c_db c) → c_files c' = c_files c → c_events c' = c_events c → rolled_back c' = c.
Proof. intros Hn Hs Hf He. unfold rolled_back. rewrite Hs, Hf, He. destruct c; simpl in *. by subst. Qed.

Lemma run_repair c (Q : _ → _ → Prop) :
  c_saved c = None →
  (∀ d1 d', recharged (c_db c) d1 → same_data d1 d' → steps cfg starting (c_db c) d' → Q (Ok tt) (with_c_db d' c)) →
  (∀ e, Q (Err e) c) → run (repair_storage_accounting cfg) c Q.
Proof.
  intros Hc HO HE. unfold repair_storage_accounting. apply run_transaction; [done| |intros; apply HE].
  match goal with |- run _ _ ?x => set (Q' := x) end.
  assert (∀ e c', c_saved c' = Some (c_db c) → c_files c' = c_files c → c_events c' = c_events c → Q' (Err e) c') as HQ.
  { intros e c' Hs Hf He. unfold Q'. rewrite (rolled_back_all c c') by done. apply HE. }
  run_step. run_step; [|intros; by apply HQ]. run_step. cbn [began c_db].
  run_step. run_step; [|intros; by apply HQ]. run_step. run_step. run_step.
  destruct (try_fold charge_object _ _) as [m1|e] eqn:H1; run_step; [|by apply HQ].
  run_step. run_step; [|intros; by apply HQ]. run_step. run_step. run_step. cbn [began c_db] in *.
  destruct (try_fold charge_root _ _) as [m2|e] eqn:H2; run_step; [|by apply HQ].
  apply (charge_objects _ (λ _, 0)) in H1 as [Ht1 Hd1].
  2: { split; [done|]. intros account n. rewrite lookup_fmap. by intros (a & _ & ->)%fmap_Some_1. }
  apply (charge_roots _ _ _ _ Ht1) in H2 as [Ht2 Hd2]. rewrite Hd1, dom_fmap_L in Hd2.
  apply (tallies_ext _ (λ a, usage a (c_db c))) in Ht2.
  2: { intros account. rewrite owed_exact, owed_root_exact. done. }
  run_step. apply run_set_all; [rewrite map_iter_Permutation; apply NoDup_fst_map_to_list| |intros e c' Hs Hf He; run_step; by apply HQ].
  intros d1 Hset Hall Hst. run_step. apply (charges_recharged (c_db c)) in Hset; [|done..].
  assert (∀ d', same_data d1 d' → run commit (with_c_db d' (began c)) Q') as Hcommit.
  { intros d' Hs. run_step; [|by apply HQ]. unfold Q', rolled_back, committed. simpl.
    assert ({| c_db := d'; c_saved := None; c_files := c_files c; c_events := c_events c |} = with_c_db d' c) as ->
      by (unfold with_c_db; by rewrite Hc).
    apply (HO d1); [done|done|]. unfold steps in *. eapply rtc_r; [exact Hst|]. by apply step_same. }
  run_step. run_step.
  - run_step; run_step; [by apply Hcommit|by apply HQ].
  - run_step. run_step. by apply Hcommit.
Qed.

(** When the charges are right, computing them again changes nothing. *)
Lemma recharged_same ceiling d d1 d' : usage_inv ceiling d → recharged d d1 → same_data d1 d' → same_data d d'.
Proof.
  intros [Hok _] (Hr & Ho & He & Ha) (Ea & Er & Eo & Ee). split; [|by rewrite Er, Eo, Ee].
  rewrite Ea. apply map_eq. intros account. rewrite (Ha account). destruct (accounts d !! account) as [a|] eqn:Hacc; [|done].
  simpl. destruct (Hok account a Hacc) as (<- & _). by destruct a.
Qed.

(** ** Uploads that were cut off *)

(** The row read of a pending object. *)
Definition cut (d : Db) (row : PendingRow) : Prop :=
  ∃ o, objects_of (pd_account row) d !! pd_object_id row = Some o ∧ o_state o = ObjPending
    ∧ pd_sha256 row = o_ciphertext_sha256 o ∧ pd_bytes row = o_ciphertext_bytes o
    ∧ pd_children_json row = o_children_json o ∧ o_blob_storage_key o = Some (pd_key row).
Definition upload_of (row : PendingRow) : bytes * bytes := (pd_account row, pd_object_id row).

(** The blob of an object is there, with its content. *)
Definition blob_there (fs : gmap FilePath BlobFile) (o : ObjectRow) : Prop :=
  match o_blob_storage_key o with
  | None => True
  | Some key => ∃ file, fs !! blob_path key = Some file ∧ len (f_bytes file) = o_ciphertext_bytes o
                        ∧ sha256_hex (f_bytes file) = o_ciphertext_sha256 o
  end.

(** One upload is settled: nothing else changes, and what becomes ready has its blob. *)
Definition settled (fs : gmap FilePath BlobFile) (row : PendingRow) (d d' : Db) : Prop :=
  (∀ acct i, (acct, i) ≠ upload_of row → objects_of acct d' !! i = objects_of acct d !! i)
  ∧ ∀ o, objects_of (pd_account row) d' !! pd_object_id row = Some o → o_state o = ObjReady ∧ blob_there fs o.

Lemma objects_of_update acct account f d : objects_of acct (update_account account f d) = objects_of acct d.
Proof. done. Qed.

Lemma run_try_read path c (Q : _ → _ → Prop) :
  (∀ content, (∀ b, content = Some b → ∃ file, c_files c !! path = Some file ∧ f_bytes file = b) → Q (Ok content) c) →
  run (try_read path) c Q.
Proof.
  intros HQ. unfold try_read, read_file. run_step. run_step. run_step. run_skip; run_step; [|run_step; run_step; by apply HQ].
  run_step. apply run_gets. intros s <-. run_step. run_step. run_step. run_step. apply HQ. intros b Hb.
  destruct (files s !! path) as [file|] eqn:Hf; [|done]. exists file. split; [done|]. by injection Hb.
Qed.

(** The upload can be finished, or is undone with its charge. *)
Lemma ready_settled row c o file :
  objects_of (pd_account row) (c_db c) !! pd_object_id row = Some o → o_state o = ObjPending →
  o_blob_storage_key o = Some (pd_key row) → c_files c !! blob_path (pd_key row) = Some file →
  len (f_bytes file) = o_ciphertext_bytes o → sha256_hex (f_bytes file) = o_ciphertext_sha256 o →
  let d' := make_ready (pd_account row) (pd_object_id row) (c_db c) in
  db_step settling (global_storage_limit_bytes cfg) (c_db c) d' ∧ settled (c_files c) row (c_db c) d'.
Proof.
  intros Ho Hp Hk Hfile Hlen Hdig. unfold make_ready. rewrite Ho, bool_decide_eq_true_2 by done. split; [by apply step_ready|]. split.
  - intros acct i Hne. rewrite objects_of_put. case_decide as Heq; [subst acct|done]. rewrite lookup_insert_ne; [done|].
    intros <-. by apply Hne.
  - intros o'. rewrite objects_of_put_eq, lookup_insert_eq. intros [= <-]. split; [done|]. unfold blob_there. simpl.
    rewrite Hk. by exists file.
Qed.
Lemma undone_settled row fs d o :
  objects_of (pd_account row) d !! pd_object_id row = Some o → o_state o = ObjPending →
  let n := object_charge (pd_object_id row) o in
  let d1 := put_objects_of (pd_account row) (delete (pd_object_id row) (objects_of (pd_account row) d)) d in
  let d' := update_account (pd_account row) (λ a, with_stored (a_stored_bytes a - n) (a_object_count a - 1) a) d1 in
  db_step settling (global_storage_limit_bytes cfg) d d' ∧ settled fs row d d' ∧ steps cfg starting d d1.
Proof.
  intros Ho Hp n d1 d'. split; [|split; [split|]].
  - eapply step_remove; [exact Ho|by left| |done]. split; [done|]. right. intros a _ _. done.
  - intros acct i Hne. unfold d'. rewrite objects_of_update. unfold d1. rewrite objects_of_put.
    case_decide as Heq; [subst acct|done]. rewrite lookup_delete_ne; [done|]. intros <-. by apply Hne.
  - intros o'. unfold d'. rewrite objects_of_update. unfold d1. by rewrite objects_of_put_eq, lookup_delete_eq.
  - apply rtc_once. eapply (step_remove _ _ _ _ _ o (λ a, a)); [exact Ho|by left| |].
    + split; [done|by left].
    + repeat split; simpl. apply map_eq. intros k. rewrite lookup_alter. case_decide; [subst|done]. by rewrite option_fmap_id.
Qed.

Lemma run_reconcile_row row c (Q : _ → _ → Prop) :
  cut (c_db c) row →
  (∀ d', db_step settling (global_storage_limit_bytes cfg) (c_db c) d' → settled (c_files c) row (c_db c) d' →
     Q (Ok tt) (with_c_db d' c)) →
  (∀ e d', steps cfg starting (c_db c) d' → Q (Err e) (with_c_db d' c)) →
  run (reconcile_row row) c Q.
Proof.
  intros (o & Ho & Hp & Hsha & Hb & Hj & Hk) HO HE.
  assert (∀ e, Q (Err e) c) as HE' by (intros e; destruct c; apply HE, rtc_refl).
  unfold reconcile_row. run_step. apply run_try_read. intros content Hcontent. run_step. run_step.
  - destruct content as [b|]; [|done]. destruct (Hcontent b eq_refl) as (file & Hfile & Hfb). zbool.
    run_step; [|apply HE'].
    destruct (ready_settled row c o file) as [Hst Hset]; [congruence..|]. by apply HO.
  - destruct (undone_settled row (c_files c) (c_db c) o Ho Hp) as (Hst & Hset & Hmis).
    assert (delete_pending (pd_account row) (pd_object_id row) (c_db c)
            = put_objects_of (pd_account row) (delete (pd_object_id row) (objects_of (pd_account row) (c_db c))) (c_db c)) as Hdel
      by (unfold delete_pending; by rewrite Ho, bool_decide_eq_true_2).
    run_step. run_step; [|run_step; apply HE']. run_step. run_step; [|apply HE; by rewrite Hdel].
    match goal with Hx : (_ ≫= _) = Ok _ |- _ => apply bind_Ok in Hx as (n & [-> Hn]%param_u64_Ok & [= <-]) end.
    change (with_c_db ?x (with_c_db _ c)) with (with_c_db x c). cbn [with_c_db c_db]. rewrite Hb, Hj, Hdel. by apply HO.
Qed.

(** All of them. *)
Definition all_settled (fs : gmap FilePath BlobFile) (l : list PendingRow) (d d' : Db) : Prop :=
  ∀ acct i, ((acct, i) ∉ upload_of <$> l ∧ objects_of acct d' !! i = objects_of acct d !! i)
          ∨ ((acct, i) ∈ upload_of <$> l ∧ ∀ o, objects_of acct d' !! i = Some o → o_state o = ObjReady ∧ blob_there fs o).

Lemma cut_other fs row row' d d' : settled fs row d d' → upload_of row' ≠ upload_of row → cut d row' → cut d' row'.
Proof. intros [Hs _] Hne (o & Ho & Hrest). exists o. split; [|done]. by rewrite Hs. Qed.

Lemma run_reconcile l c (Q : _ → _ → Prop) :
  NoDup (upload_of <$> l) → Forall (cut (c_db c)) l →
  (∀ d', steps cfg settling (c_db c) d' → all_settled (c_files c) l (c_db c) d' → Q (Ok tt) (with_c_db d' c)) →
  (∀ e d', steps cfg starting (c_db c) d' → Q (Err e) (with_c_db d' c)) →
  run (for_each reconcile_row l) c Q.
Proof.
  revert c Q. induction l as [|row l IH]; intros c Q Hnd Hcut HO HE; simpl.
  - run_step. destruct c. apply HO; [apply rtc_refl|]. intros acct i. left. split; [apply not_elem_of_nil|done].
  - apply NoDup_cons in Hnd as [Hnot Hnd]. apply Forall_cons in Hcut as [Hrow Hcut]. run_step.
    apply run_reconcile_row; [done| |intros e d' Hst; run_step; by apply HE].
    intros d1 Hst Hset. run_step. apply (IH (with_c_db d1 c)); [done| | |].
    + rewrite Forall_forall in Hcut |- *. intros row' Hin. eapply cut_other; [exact Hset| |by apply Hcut].
      intros Heq. apply Hnot. rewrite <- Heq. by apply list_elem_of_fmap_2.
    + intros d2 Hst2 Hset2. apply HO; [by eapply rtc_l|]. destruct Hset as [Hother Hself]. intros acct i.
      destruct (Hset2 acct i) as [[Hn Hsame]|[Hin Hr]].
      * destruct (decide ((acct, i) = upload_of row)) as [Heq|Hne].
        -- right. split; [rewrite fmap_cons, Heq; by left|]. injection Heq as -> ->. simpl in Hsame. rewrite Hsame. done.
        -- left. split; [rewrite fmap_cons; by apply not_elem_of_cons|]. simpl in Hsame. by rewrite Hsame, Hother.
      * right. split; [rewrite fmap_cons; by right|done].
    + intros e d' Hst2. apply HE. eapply rtc_l; [|exact Hst2]. eapply db_step_weaken; [apply perm_le_starting|exact Hst].
Qed.

Lemma elem_of_pending d account i o :
  (account, i, o) ∈ pending_objects d ↔ objects_of account d !! i = Some o ∧ o_state o = ObjPending.
Proof.
  unfold pending_objects, objects_of. rewrite list_elem_of_bind. split.
  - intros ([acct rows] & Hk & Hrows%elem_of_map_to_list). apply list_elem_of_bind in Hk as ([j o'] & Hk & Hj%elem_of_map_to_list).
    apply list_elem_of_singleton in Hk as [= -> -> ->]. rewrite Hrows. by apply map_lookup_filter_Some in Hj.
  - intros [Ho Hp]. destruct (objects d !! account) as [rows|] eqn:Hrows; [|done].
    exists (account, rows). split; [|by apply elem_of_map_to_list]. apply list_elem_of_bind. exists (i, o).
    split; [by left|]. apply elem_of_map_to_list. by apply map_lookup_filter_Some.
Qed.
Lemma NoDup_pending d : NoDup (pending_objects d).*1.
Proof.
  apply NoDup_fmap_2_strong.
  - intros [[a i] o] [[a' i'] o'] [Ho _]%elem_of_pending [Ho' _]%elem_of_pending. simpl. intros [= -> ->]. congruence.
  - unfold pending_objects. apply NoDup_bind.
    + intros [a rows] [a' rows'] y Ha%elem_of_map_to_list Ha'%elem_of_map_to_list Hy Hy'.
      apply list_elem_of_bind in Hy as ([i o] & ->%list_elem_of_singleton & _).
      apply list_elem_of_bind in Hy' as ([i' o'] & [= -> -> ->]%list_elem_of_singleton & _). congruence.
    + intros [a rows] _. apply NoDup_bind.
      * intros [i o] [i' o'] y _ _ ->%list_elem_of_singleton [= -> ->]%list_elem_of_singleton. done.
      * intros [i o] _. apply NoDup_singleton.
      * apply NoDup_map_to_list.
    + apply NoDup_map_to_list.
Qed.

Lemma pending_row_Ok account i o row :
  pending_row account i o = Ok row →
  upload_of row = (account, i) ∧ pd_sha256 row = o_ciphertext_sha256 o ∧ pd_bytes row = o_ciphertext_bytes o
  ∧ pd_children_json row = o_children_json o ∧ o_blob_storage_key o = Some (pd_key row).
Proof.
  unfold pending_row. intros (n & [-> _]%row_u64_Ok & Hx)%bind_Ok. apply bind_Ok in Hx as (key & Hk%ok_or_Ok & [= <-]). done.
Qed.

(** No upload is left half done, and what became ready has its blob. *)
Definition finished (fs : gmap FilePath BlobFile) (d d' : Db) : Prop :=
  ∀ account i o, objects_of account d' !! i = Some o →
    o_state o = ObjReady ∧ (objects_of account d !! i = Some o ∨ blob_there fs o).

Lemma settled_finished fs l d d' :
  upload_of <$> l = (pending_objects d).*1 → all_settled fs l d d' → finished fs d d'.
Proof.
  intros Hl Hs account i o Ho. destruct (Hs account i) as [[Hn Hsame]|[_ Hr]]; [|by destruct (Hr o Ho); auto].
  rewrite Hsame in Ho. split; [|by left]. destruct (o_state o) eqn:Hst; [|done]. exfalso. apply Hn. rewrite Hl.
  apply list_elem_of_fmap. exists (account, i, o). split; [done|]. by apply elem_of_pending.
Qed.

Lemma run_reconcile_pending c (Q : _ → _ → Prop) :
  (∀ d', steps cfg settling (c_db c) d' → finished (c_files c) (c_db c) d' → Q (Ok tt) (with_c_db d' c)) →
  (∀ e d', steps cfg starting (c_db c) d' → Q (Err e) (with_c_db d' c)) →
  run reconcile_pending_blobs c Q.
Proof.
  intros HO HE. unfold reconcile_pending_blobs. run_step.
  run_step; [|run_step; destruct c; apply HE, rtc_refl].
  match goal with Hx : try_map _ _ = Ok ?l |- _ => rename Hx into Hmap; rename l into rows end. run_step.
  assert (upload_of <$> rows = (pending_objects (c_db c)).*1) as Hkeys.
  { revert rows Hmap. induction (pending_objects (c_db c)) as [|[[a i] o] l IH]; simpl; intros rows Hmap.
    - by injection Hmap as <-.
    - apply bind_Ok in Hmap as (row & (Hrow & _)%pending_row_Ok & Hmap). apply bind_Ok in Hmap as (rows' & Hr & [= <-]).
      rewrite fmap_cons, Hrow. f_equal. by apply IH. }
  apply run_reconcile.
  - rewrite Hkeys. apply NoDup_pending.
  - rewrite Forall_forall. intros row Hin. destruct (try_map_elem _ _ _ _ Hmap Hin) as ([[a i] o] & [Ho Hp]%elem_of_pending & Hrow).
    apply pending_row_Ok in Hrow as ([= Ha Hi] & Hsha & Hb & Hj & Hk). exists o. by rewrite Ha, Hi.
  - intros d' Hst Hs. apply HO; [done|]. by eapply settled_finished.
  - done.
Qed.

(** ** Opening *)

Lemma run_for_each_quiet {A} (body : A → M unit) l c (Q : _ → _ → Prop) :
  (∀ x, Quiet (body x)) → (∀ r, Q r c) → run (for_each body l) c Q.
Proof. intros Hb HQ. apply run_quiet; [apply _|done]. Qed.

Lemma run_initialize_schema c (Q : _ → _ → Prop) :
  (∀ r d', same_data (c_db c) d' → Q r (with_c_db d' c)) → run initialize_schema c Q.
Proof.
  intros HQ. unfold initialize_schema.
  assert (∀ r, Q r c) as HQ0 by (intros r; destruct c; by apply HQ).
  assert (∀ d', same_data (c_db c) d' →
    run (_ ← execute (λ d, put_service_mode (Some (default (bs "normal") (service_mode d))) d); statement) (with_c_db d' c) Q) as Hrest.
  { intros d' Hs. run_step. run_step; run_step; [|by apply HQ]. run_skip; (apply HQ; exact Hs). }
  run_step. run_skip; run_step; [|done]. run_step. run_step; [|intros; run_step; done]. run_step. run_step.
  destruct (metadata (c_db c)) as [v|].
  - run_step; [run_step; run_step; [by apply Hrest|done]|]. run_skip; run_step; [|done].
    specialize (Hrest (c_db c)). destruct c. by apply Hrest.
  - run_step; run_step; [by apply Hrest|done].
Qed.

Definition opened (c : Core) (r : result StoreError unit) (c' : Core) : Prop :=
  c_saved c' = None ∧ c_files c' = c_files c ∧ steps cfg starting (c_db c) (c_db c') ∧
  match r with
  | Ok _ => ∃ d0 d1 d2, same_data (c_db c) d0 ∧ recharged d0 d1 ∧ same_data d1 d2
              ∧ steps cfg settling d2 (c_db c') ∧ finished (c_files c) d2 (c_db c')
  | Err _ => True
  end.

Lemma run_open c : c_saved c = None → run (open cfg) c (opened c).
Proof.
  intros Hc. assert (∀ e d', same_data (c_db c) d' → opened c (Err e) (with_c_db d' c)) as HE.
  { intros e d' Hs. split; [done|]. split; [done|]. split; [by apply rtc_once, step_same|done]. }
  assert (∀ e, opened c (Err e) c) as HE0 by (intros e; destruct c; by apply (HE e)).
  unfold open. run_step. apply run_for_each_quiet; [apply _|]. intros [u|e]; run_step; [|done].
  run_step. apply run_for_each_quiet; [apply _|]. intros [u1|e]; run_step; [|done].
  run_step. run_skip; run_step; [|done]. run_step. run_skip; run_step; [|done].
  run_step. apply run_initialize_schema. intros [u2|e] d0 Hs0; run_step; [|by apply HE].
  run_step. apply run_repair; [done| |intros e; run_step; by apply HE].
  intros d1 d2 Hre Hs2 Hst. run_step. cbn [with_c_db c_db] in *.
  assert (steps cfg starting (c_db c) d2) as Hst2 by (eapply rtc_l; [by apply (step_same _ _ _ d0)|exact Hst]).
  run_step. apply run_for_each_quiet; [apply _|]. intros [u3|e]; run_step.
  2: { split; [done|]. split; [done|]. split; [exact Hst2|done]. }
  run_step. apply run_modify. intros s Hs. run_step.
  match goal with |- run _ ?x _ => set (c1 := x) end.
  assert (c_db c1 = d2 ∧ c_saved c1 = None ∧ c_files c1 = c_files c) as (Ed & Es & Ef).
  { unfold c1. simpl. apply (f_equal c_db) in Hs as E1. apply (f_equal c_files) in Hs as E2. by simpl in *. }
  clearbody c1. apply run_reconcile_pending; rewrite Ed, ?Ef.
  - intros d' Hst' Hfin. split; [done|]. split; [done|]. split.
    + unfold steps in *. etrans; [exact Hst2|]. by eapply steps_weaken; [apply perm_le_starting|].
    + by exists d0, d1, d2.
  - intros e d' Hst'. split; [done|]. split; [done|]. split; [|done]. unfold steps in *. by etrans.
Qed.
End opening.
