(* ===== verification/AcsStoreCorrect.v ===== *)
(** * The cloud server's store, request after request

    The invariants of every state the store can be served into, whatever fails, and what
    they mean for the operations: charges are exact, roots form one history, stored objects
    can be read, authentication lets a request in once. *)

From Stdlib Require Import Strings.Byte.
From stdpp Require Import base gmap list strings sorting relations.
From S2P Require Import Prelude CloudRecords AcsContracts CloudAcs AcsLimits AcsStoreState AcsStore AcsGc AcsAuth.
From S2P Require Import AcsStoreRun AcsStoreInv AcsStoreSteps AcsGcSteps AcsStoreOpen.

Local Open Scope Z_scope.

Section correct.
Context `{ServerLaws} (cfg : StoreConfig) (Hret : 1 ≤ event_retention cfg).

(** ** Blobs *)

(** What can be read has its content. *)
Definition blobs_inv (d : Db) (fs : gmap FilePath BlobFile) : Prop :=
  ∀ account i o, objects_of account d !! i = Some o → o_state o = ObjReady → blob_there fs o.

Lemma same_blobs d d' fs : same_data d d' → blobs_inv d fs → blobs_inv d' fs.
Proof. intros Hs Hb account i o. rewrite (same_objects_of _ _ account Hs). apply Hb. Qed.

Lemma db_step_blobs p d d' fs : ¬ p_ready p → db_step p (global_storage_limit_bytes cfg) d d' → blobs_inv d fs → blobs_inv d' fs.
Proof.
  intros Hp Hst Hb. step_cases Hst.
  - by eapply same_blobs.
  - by eapply same_blobs.
  - exact Hb.
  - eapply same_blobs; [exact Hs|]. intros acct j o'. rewrite objects_of_put. case_decide; [subst acct|apply Hb].
    rewrite lookup_insert_Some. intros [[<- <-]|[_ Hj]] Hr; [|by eapply Hb].
    unfold blob_there. destruct Hplace as [Hpd| ->]; [congruence|done].
  - done.
  - eapply same_blobs; [exact Hs|]. intros acct j o'. rewrite objects_of_update, objects_of_put.
    case_decide; [subst acct|apply Hb]. rewrite lookup_delete_Some. intros [_ Hj]. by apply Hb in Hj.
  - intros acct j o'. unfold objects_of. rewrite Hobj. apply Hb.
  - eapply same_blobs; [exact Hs|]. intros acct j o'. rewrite objects_of_drop. case_decide; [done|]. apply Hb.
  - exact Hb.
Qed.
Lemma steps_blobs p d d' fs : ¬ p_ready p → steps cfg p d d' → blobs_inv d fs → blobs_inv d' fs.
Proof. intros Hp. induction 1; eauto using db_step_blobs. Qed.

Lemma blob_there_keeps fs fs' o : keeps_blobs fs fs' → blob_there fs o → blob_there fs' o.
Proof.
  intros Hk. unfold blob_there. destruct (o_blob_storage_key o) as [key|]; [|done].
  intros (file & Hf & Hrest). exists file. split; [by apply Hk|done].
Qed.
Lemma blobs_inv_keeps d fs fs' : keeps_blobs fs fs' → blobs_inv d fs → blobs_inv d fs'.
Proof. intros Hk Hb account i o Ho Hr. eapply blob_there_keeps; [exact Hk|by eapply Hb]. Qed.

(** ** Creating an object *)

(** Where the content of an object is. *)
Definition placed (fs : gmap FilePath BlobFile) (o : ObjectRow) (content : bytes) : Prop :=
  match o_inline_ciphertext o, o_blob_storage_key o with
  | Some inline, None => content = inline
  | None, Some key => ∃ file, fs !! blob_path key = Some file ∧ f_bytes file = content
  | _, _ => False
  end.
(** The object is stored as it was sent. *)
Definition stored (account object_id : bytes) (v : AcsEncryptedValue) (now : Z) (c : Core) : Prop :=
  ∃ hash place o content, authenticated_hash sv_sha256 sv_b64_decode v KindObject object_id = Ok hash
    ∧ row_of v hash now place o ∧ ciphertext sv_b64_decode v = Ok content
    ∧ objects_of account (c_db c) !! object_id = Some (with_ready o) ∧ placed (c_files c) o content.
Definition storing : Perm :=
  {| p_unfair := False; p_ready := True; p_files := True; p_collect := False;
     p_swap := False; p_drop := λ _, False |}.

Definition create_done (account object_id : bytes) (v : AcsEncryptedValue) (now : Z) (c : Core)
    (r : result StoreError AcsCreateObjectOutcome) (c' : Core) : Prop :=
  moves cfg storing c r c' ∧ keeps_blobs (c_files c) (c_files c')
  ∧ (blobs_inv (c_db c) (c_files c) → blobs_inv (c_db c') (c_files c'))
  ∧ match r with
    | Ok OutcomeCreated => stored account object_id v now c'
    | Ok OutcomeAlreadyExists => c_db c' = c_db c ∧ c_files c' = c_files c ∧ ∃ o, objects_of account (c_db c) !! object_id = Some o
        ∧ authenticated_hash sv_sha256 sv_b64_decode v KindObject object_id = Ok (o_authenticated_hash o)
    | Err _ => True
    end.

Lemma ready_blobs account i o d fs :
  objects_of account d !! i = Some o → o_state o = ObjPending → blob_there fs o → blobs_inv d fs →
  blobs_inv (make_ready account i d) fs.
Proof.
  intros Ho Hp Hthere Hb acct j o'. unfold make_ready. rewrite Ho, bool_decide_eq_true_2 by done.
  rewrite objects_of_put. case_decide; [subst acct|apply Hb]. rewrite lookup_insert_Some.
  intros [[<- <-]|[_ Hj]] Hr; [exact Hthere|by eapply Hb].
Qed.

(** The upload succeeded, or its row goes again. *)
Lemma run_finish_spec account object_id v now hash key content o c (written : result StoreError unit) :
  c_saved c = None → objects_of account (c_db c) !! object_id = Some o →
  authenticated_hash sv_sha256 sv_b64_decode v KindObject object_id = Ok hash → row_of v hash now (Some key) o →
  ciphertext sv_b64_decode v = Ok content →
  (written = Ok tt → ∃ file, c_files c !! blob_path key = Some file ∧ f_bytes file = content) →
  run (finish_upload account object_id (object_charge object_id o) now written) c
    (λ r c', create_done account object_id v now c r c' ∧ r ≠ Ok OutcomeAlreadyExists).
Proof.
  intros Hc Ho Hhash Hrow Hct Hw. pose proof Hrow as (content' & json & Hct' & _ & Hsha & Eo).
  assert (content' = content) as -> by congruence.
  assert (o_state o = ObjPending) as Hp by (by rewrite Eo).
  unfold finish_upload. destruct written as [[]|e].
  - assert (blob_there (c_files c) o) as Hthere.
    { destruct (Hw eq_refl) as (file & Hf & Hb). unfold blob_there. rewrite Eo. simpl. exists file. by rewrite Hb. }
    run_step. run_step; run_step.
    + apply run_object_created. split; [|done]. split; [split; [done|split; [apply make_ready_steps; exact I|left; exact I]]|]. split; [done|].
      split; [by apply (ready_blobs account object_id o)|]. exists hash, (Some key), o, content. split; [done|]. split; [done|]. split; [done|].
      split; [|unfold placed; rewrite Eo; by apply Hw]. simpl. unfold make_ready. rewrite Ho, bool_decide_eq_true_2 by done.
      by rewrite objects_of_put_eq, lookup_insert_eq.
    + split; [|done]. split; [by apply moves_refl|done].
  - run_step. eapply run_mono; [apply (remove_pending_step cfg plain); [done|right; by exists o]|].
    intros r c' [(Hc' & Hst & Hf) Hfs]. 
    assert (∀ e, create_done account object_id v now c (Err e) c') as Hd.
    { split; [split; [done|split; [eapply steps_weaken; [|exact Hst]; by repeat split|left; exact I]]|]. rewrite Hfs. split; [done|]. split; [|done].
      intros Hb. by eapply (steps_blobs plain); [intros []|exact Hst|]. }
    destruct r as [u|e']; run_step; [run_step|]; (split; [apply Hd|done]).
Qed.

Lemma create_done_trans account object_id v now c c1 c2 {A} (r1 : result StoreError A) r :
  moves cfg plain c r1 c1 ∨ moves cfg storing c r1 c1 ∧ c_db c1 = c_db c → keeps_blobs (c_files c) (c_files c1) →
  create_done account object_id v now c1 r c2 → r ≠ Ok OutcomeAlreadyExists → create_done account object_id v now c r c2.
Proof.
  intros Hm1 Hk1 (Hm & Hk & Hb & Hr) Hne.
  assert (moves cfg storing c r1 c1) as Hm1'.
  { destruct Hm1 as [(Hc & Hst & Hf)|[? _]]; [|done]. split; [done|]. split; [eapply steps_weaken; [|exact Hst]; by repeat split|left; exact I]. }
  split; [by eapply moves_trans|]. split; [unfold keeps_blobs in *; auto|]. split.
  - intros Hinv. apply Hb. eapply blobs_inv_keeps; [exact Hk1|]. destruct Hm1 as [(_ & Hst & _)|[_ ->]]; [|done].
    by eapply (steps_blobs plain); [intros []|exact Hst|].
  - destruct r as [[]|e]; done.
Qed.

Lemma run_create_object account object_id v now c :
  c_saved c = None → rows_inv (c_db c) →
  run (create_object cfg account object_id v now) c (create_done account object_id v now c).
Proof.
  intros Hc Hrows. unfold create_object. run_step.
  eapply run_mono; [by apply (run_create_object_row cfg plain)|]. intros r c1 (Hm & Hf & Hprog).
  assert (∀ r', moves cfg storing c (r' : result StoreError AcsCreateObjectOutcome) c1) as Hm'.
  { intros r'. destruct Hm as (Hc1 & Hst & Hfs). split; [done|]. split; [eapply steps_weaken; [|exact Hst]; by repeat split|left; exact I]. }
  assert (blobs_inv (c_db c) (c_files c) → blobs_inv (c_db c1) (c_files c1)) as Hb.
  { intros Hb. rewrite Hf. destruct Hm as (_ & Hst & _). by eapply (steps_blobs plain); [intros []|exact Hst|]. }
  assert (keeps_blobs (c_files c) (c_files c1)) as Hk by by rewrite Hf.
  destruct r as [progress|e]; run_step; [|done].
  destruct Hprog as [(hash & o & Hhash & Ho & Hprog) Hsame]. destruct progress as [| |key content size].
  - run_step. split; [done|]. split; [done|]. split; [done|]. rewrite (Hsame eq_refl) in *. split; [done|]. split; [done|].
    exists o. split; [done|]. by rewrite Hprog.
  - apply run_object_created. split; [done|]. split; [done|]. split; [done|].
    pose proof Hprog as (content & json & Hct & _ & _ & ->). by exists hash, None, (object_row v hash content json now None), content.
  - destruct Hprog as (-> & Hrow & Hct & <-). run_step. run_step. eapply run_mono; [apply run_write_blob|].
    intros r c2 [(Ed & Es & _ & Hkeep) Hw]. run_step.
    eapply run_mono; [eapply (run_finish_spec _ _ v now hash _ content); [..|intros ->; exact Hw]; try done|].
    + rewrite Es. apply Hm.
    + by rewrite Ed.
    + intros r' c3 [Hd Hne]. eapply (create_done_trans _ _ _ _ c c1 c3 (Ok tt)); [left; exact Hm|done| |done].
      eapply (create_done_trans _ _ _ _ c1 c2 c3 (Ok tt)); [|exact Hkeep|exact Hd|done].
      right. split; [|done]. split; [rewrite Es; apply Hm|]. rewrite Ed. split; [apply rtc_refl|left; exact I].
Qed.

(** ** Collecting garbage *)

Definition collecting : Perm :=
  {| p_unfair := False; p_ready := False; p_files := True; p_collect := True; p_swap := False; p_drop := λ _, False |}.

(** No two objects share a blob. *)
Definition distinct_keys (d : Db) : Prop :=
  ∀ account i o account' i' o' k,
    objects_of account d !! i = Some o → objects_of account' d !! i' = Some o' →
    o_blob_storage_key o = Some k → o_blob_storage_key o' = Some k → account = account' ∧ i = i'.

Lemma blob_path_inj k k' : blob_path k = blob_path k' → k = k'.
Proof. unfold blob_path. intros [= _ Hk]. by apply app_inv_tail in Hk. Qed.

Lemma gc_done_blobs cutoff c r c' :
  distinct_keys (c_db c) → gc_done cfg collecting cutoff c r c' →
  blobs_inv (c_db c) (c_files c) → blobs_inv (c_db c') (c_files c').
Proof.
  intros Hkeys (_ & _ & [_ Hkeep] & (done & Hup & _) & _) Hb account i o Ho Hr.
  pose proof (gc_upto_sub _ _ _ _ _ _ _ Hup Ho) as Ho0. specialize (Hb account i o Ho0 Hr). unfold blob_there in *.
  destruct (o_blob_storage_key o) as [k|] eqn:Hk; [|done]. destruct Hb as (file & Hf & Hrest). exists file. split; [|done].
  destruct (Hkeep _ _ Hf) as [?|[(acct & j & o' & k' & Ho' & Hn & Hk' & Hpath)|[Hno _]]]; [done|exfalso..].
  - apply blob_path_inj in Hpath as <-. destruct (Hkeys account i o acct j o' k) as [-> ->]; congruence.
  - apply Hno. exists k. split; [apply strip_blob_key|]. by exists account, i, o.
Qed.

(** ** Requests *)

Inductive Request :=
| RqAdmit (network : bytes) (now : Z)
| RqIngress (network : bytes) (size now : Z)
| RqChallenge (network : bytes) (now : Z)
| RqVerify (signed : SignedRequest) (account : bytes) (write : bool)
| RqVerifyCreation (signed : SignedRequest) (request : AcsCreateAccountRequest)
| RqCreateAccount (request : AcsCreateAccountRequest) (key network : bytes) (now : Z)
| RqCreateObject (account object_id : bytes) (value : AcsEncryptedValue) (now : Z)
| RqReadObject (account object_id network : bytes) (now now' : Z)
| RqListObjects (account : bytes) (cursor : option bytes) (limit : Z) (network : bytes) (now now' : Z)
| RqReadRoot (account network : bytes) (now now' : Z)
| RqSwapRoot (account : bytes) (request : AcsCompareAndSwapRootRequest) (network : bytes) (now : Z)
| RqTicket (account : bytes) (last_sequence : option Z) (network : bytes) (now : Z)
| RqConsumeTicket (ticket network : bytes) (now : Z)
| RqInitialEvents (account : bytes) (cursor : option Z)
| RqHeartbeat (account : bytes)
| RqBeginStream (account network : bytes)
| RqEndStream (account network : bytes)
| RqServiceMode (mode : AccountMode) (now : Z)
| RqResume (now : Z)
| RqForceResume (reason : bytes) (now : Z)
| RqAccountMode (account : bytes) (mode : AccountMode) (now : Z)
| RqQuota (account : bytes) (quota now : Z)
| RqDelete (account : bytes)
| RqGc (now grace : Z).

Definition ignore {A} (m : M A) : M unit := _ ← m; mret tt.
Definition perform (q : Request) : M unit :=
  match q with
  | RqAdmit network now => check_network_operation cfg network now
  | RqIngress network size now => admit_network_ingress cfg network size now
  | RqChallenge network now => ignore (issue_creation_challenge cfg network now)
  | RqVerify signed account write => verify_registered_request cfg signed account write
  | RqVerifyCreation signed request => ignore (verify_account_creation_request signed request)
  | RqCreateAccount request key network now => ignore (create_account cfg request key network now)
  | RqCreateObject account object_id value now => ignore (create_object cfg account object_id value now)
  | RqReadObject account object_id network now now' => ignore (read_object cfg account object_id network now now')
  | RqListObjects account cursor limit network now now' => ignore (list_objects cfg account cursor limit network now now')
  | RqReadRoot account network now now' => ignore (read_root cfg account network now now')
  | RqSwapRoot account request network now => ignore (compare_and_swap_root cfg account request network now)
  | RqTicket account seq network now => ignore (create_sse_ticket account seq network now)
  | RqConsumeTicket ticket network now => ignore (consume_sse_ticket ticket network now)
  | RqInitialEvents account cursor => ignore (at_once (initial_sse_events account cursor))
  | RqHeartbeat account => ignore (at_once (heartbeat_event account))
  | RqBeginStream account network => begin_sse_connection cfg account network
  | RqEndStream account network => end_sse_connection account network
  | RqServiceMode mode now => set_service_mode mode now
  | RqResume now => ignore (resume_writes cfg now)
  | RqForceResume reason now => ignore (force_resume_writes cfg reason now)
  | RqAccountMode account mode now => set_account_mode account mode now
  | RqQuota account quota now => set_account_quota account quota now
  | RqDelete account => delete_account account
  | RqGc now grace => ignore (run_gc now grace)
  end.

Lemma run_ignore {A} (m : M A) c (Q : _ → _ → Prop) : run m c (λ r c', Q (r ≫= λ _, Ok tt) c') → run (ignore m) c Q.
Proof.
  intros Hm. unfold ignore. run_step. eapply run_mono; [exact Hm|]. intros [a|e] c' HQ; [|exact HQ]. run_step. run_step. exact HQ.
Qed.
Lemma Moves_ignore p {A} (m : M A) : Moves cfg p m → Moves cfg p (ignore m).
Proof. intros Hm c Hc Hr. apply run_ignore. eapply run_mono; [by apply Hm|]. by intros r c'. Qed.

Lemma Moves_verify_registered p signed account write : Moves cfg p (verify_registered_request cfg signed account write).
Proof.
  unfold verify_registered_request, reject. repeat first [apply Moves_consume_nonce | solve [apply Moves_quiet; quiet_tac]
    | case_match | apply Moves_bind; [|intros ?]].
Qed.
Lemma Moves_verify_creation p signed request : Moves cfg p (verify_account_creation_request signed request).
Proof.
  unfold verify_account_creation_request, reject. repeat first [apply Moves_consume_nonce | solve [apply Moves_quiet; quiet_tac]
    | case_match | apply Moves_bind; [|intros ?]].
Qed.

(** The requests that only take plain steps, but for dropping an account. *)
Definition ordinary (q : Request) : bool :=
  match q with RqCreateObject _ _ _ _ | RqSwapRoot _ _ _ _ | RqGc _ _ => false | _ => true end.
Definition deletes (q : Request) (account : bytes) : Prop := q = RqDelete account.

Lemma Moves_resume_writes p now : Moves cfg p (resume_writes cfg now).
Proof. apply Moves_resume_writes_inner. Qed.

Lemma Moves_ordinary p q : ordinary q = true → (∀ account, deletes q account → p_drop p account) → Moves cfg p (perform q).
Proof.
  intros Ho Hd. unfold deletes in Hd. destruct q; try done; simpl; try apply Moves_ignore;
    try solve [apply Moves_quiet; quiet_tac];
    eauto using Moves_issue_creation_challenge, Moves_verify_registered, Moves_verify_creation, Moves_create_account,
      Moves_create_sse_ticket, Moves_consume_sse_ticket, Moves_set_service_mode, Moves_resume_writes,
      Moves_force_resume_writes, Moves_set_account_mode, Moves_set_account_quota, Moves_delete_account.
Qed.

(** ** Invariants *)

(** What holds however requests interleave, and what holds when they do not. *)
Definition data_inv (d : Db) : Prop := rows_inv d ∧ link_inv d ∧ closed_inv d ∧ history_inv d.
Definition store_inv (c : Core) : Prop :=
  c_saved c = None ∧ data_inv (c_db c) ∧ usage_inv (global_storage_limit_bytes cfg) (c_db c) ∧ blobs_inv (c_db c) (c_files c).

Lemma db_step_data p d d' : db_step p (global_storage_limit_bytes cfg) d d' → data_inv d → data_inv d'.
Proof.
  intros Hst (Hr & Hl & Hc & Hh). split; [|split; [|split]].
  - by eapply db_step_rows.
  - by eapply db_step_link.
  - by eapply db_step_closed.
  - intros account. destruct (Hh account) as [h Hh']. destruct (db_step_history _ _ _ _ _ _ Hst Hl Hh') as (h' & ? & _).
    by exists h'.
Qed.
Lemma steps_data p d d' : steps cfg p d d' → data_inv d → data_inv d'.
Proof. induction 1; eauto using db_step_data. Qed.
Lemma steps_usage p d d' :
  ¬ p_unfair p → steps cfg p d d' → data_inv d → usage_inv (global_storage_limit_bytes cfg) d →
  usage_inv (global_storage_limit_bytes cfg) d'.
Proof.
  intros Hp Hst Hd Hu. induction Hst as [|d d1 d2 Hstep _ IH]; [done|]. apply IH; [by eapply db_step_data|].
  by eapply db_step_usage; [exact Hp|exact Hstep|apply Hd..|].
Qed.

Lemma data_inv_same d d' : same_data d d' → data_inv d → data_inv d'.
Proof. intros Hs. apply (db_step_data plain). by apply step_same. Qed.

Lemma store_inv_moves p c {A} (r : result StoreError A) c' :
  ¬ p_unfair p → moves cfg p c r c' → store_inv c → (blobs_inv (c_db c) (c_files c) → blobs_inv (c_db c') (c_files c')) →
  store_inv c'.
Proof.
  intros Hp (Hc & Hst & _) (_ & Hd & Hu & Hb) Hblobs. split; [done|]. split; [by eapply steps_data|].
  split; [by eapply steps_usage|by apply Hblobs].
Qed.

(** Deleting accounts is a plain step otherwise. *)
Definition dropping : Perm :=
  {| p_unfair := False; p_ready := False; p_files := False; p_collect := False; p_swap := False; p_drop := λ _, True |}.

Lemma moves_plain_blobs p c {A} (r : result StoreError A) c' :
  ¬ p_ready p → ¬ p_files p → moves cfg p c r c' → blobs_inv (c_db c) (c_files c) → blobs_inv (c_db c') (c_files c').
Proof. intros Hp Hf (_ & Hst & [?|Hfs]) Hb; [done|]. rewrite Hfs. by eapply steps_blobs. Qed.

Lemma store_inv_plain p c {A} (r : result StoreError A) c' :
  ¬ p_unfair p → ¬ p_ready p → ¬ p_files p → moves cfg p c r c' → store_inv c → store_inv c'.
Proof. intros Hu Hp Hf Hm Hinv. eapply (store_inv_moves p); [done|exact Hm|done|]. by eapply moves_plain_blobs. Qed.

Lemma cas_inv account request now c r c' : cas_done cfg account request now c r c' → store_inv c → store_inv c'.
Proof.
  intros (Hc & Hf & Hr) Hinv. apply (store_inv_moves swapping c r c'); [intros []| |done|].
  - split; [done|]. split; [|by right]. destruct r as [[root|]|e].
    + destruct Hr as (_ & Hst & _). by apply rtc_once.
    + destruct Hr as (_ & -> & _). apply rtc_refl.
    + destruct Hr as [Hs _]. by apply rtc_once, step_same.
  - intros Hb. rewrite Hf. destruct r as [[root|]|e].
    + destruct Hr as (_ & Hst & _). eapply (db_step_blobs swapping); [intros []|exact Hst|exact Hb].
    + destruct Hr as (_ & -> & _). done.
    + destruct Hr as [Hs _]. by eapply same_blobs.
Qed.

Lemma perform_inv q c :
  store_inv c → (∀ now grace, q = RqGc now grace → distinct_keys (c_db c)) → run (perform q) c (λ _ c', store_inv c').
Proof.
  intros Hinv Hgc. pose proof Hinv as (Hc & Hd & _). pose proof Hd as (Hrows & _). destruct (ordinary q) eqn:Ho.
  - eapply run_mono; [apply (Moves_ordinary dropping q Ho); [|done|done]; by intros|].
    intros r c' Hm. by apply (store_inv_plain dropping c r c'); [intros []|intros []|intros []|exact Hm|].
  - destruct q; try done; simpl; apply run_ignore.
    + eapply run_mono; [by apply run_create_object|]. intros r c' (Hm & _ & Hb & _).
      eapply store_inv_moves; [|exact Hm|done|exact Hb]. by intros [].
    + eapply run_mono; [by apply run_compare_and_swap_root|]. intros r c' Hcas. by eapply cas_inv.
    + eapply run_mono; [by apply (run_gc_run cfg collecting)|]. intros r c' Hg. pose proof Hg as [Hm _].
      eapply store_inv_moves; [|exact Hm|done|]; [by intros []|]. eapply gc_done_blobs; [by eapply Hgc|exact Hg].
Qed.

(** A process that ends in the middle of an upload leaves its row, and perhaps its blob. *)
Definition cut_upload (account object_id : bytes) (value : AcsEncryptedValue) (now : Z) (wrote : bool) : M unit :=
  progress ← create_object_row cfg account object_id value now;
  match progress with
  | Uploading key content _ => if wrote then write_blob key content else mret tt
  | _ => mret tt
  end.
Lemma cut_upload_inv account object_id v now wrote c :
  store_inv c → run (cut_upload account object_id v now wrote) c (λ _ c', store_inv c').
Proof.
  intros Hinv. pose proof Hinv as (Hc & (Hrows & _) & _). unfold cut_upload. run_step.
  eapply run_mono; [by apply (run_create_object_row cfg plain)|]. intros r c1 (Hm & Hf & _).
  assert (store_inv c1) as Hinv1.
  { by apply (store_inv_plain plain c r c1); [intros []|intros []|intros []|exact Hm|]. }
  destruct r as [progress|e]; run_step; [|done]. destruct progress as [| |key content size]; try by run_step.
  destruct wrote; [|by run_step]. eapply run_mono; [apply run_write_blob|]. intros r c2 [(Ed & Es & _ & Hk) _].
  destruct Hinv1 as (Hc1 & Hd & Hu & Hb). split; [congruence|]. rewrite Ed. split; [done|]. split; [done|].
  by eapply blobs_inv_keeps.
Qed.

(** A start that succeeds. *)
Lemma finished_blobs fs d d' : finished fs d d' → blobs_inv d fs → blobs_inv d' fs.
Proof. intros Hf Hb account i o Ho Hr. destruct (Hf account i o Ho) as [_ [Hold|?]]; [by eapply Hb|done]. Qed.

Lemma open_inv c c' u : opened cfg c (Ok u) c' → store_inv c → store_inv c'.
Proof.
  intros (Hc & Hf & _ & d0 & d1 & d2 & Hs0 & Hre & Hs2 & Hst & Hfin) (_ & Hd & Hu & Hb).
  assert (usage_inv (global_storage_limit_bytes cfg) d0) as Hu0 by by eapply same_usage_inv.
  pose proof (recharged_same _ _ _ _ Hu0 Hre Hs2) as Hs02.
  assert (data_inv d2) as Hd2 by (eapply data_inv_same; [exact Hs02|]; by eapply data_inv_same).
  split; [done|]. split; [by eapply steps_data|]. split.
  - eapply (steps_usage settling); [intros []|exact Hst|done|]. by eapply same_usage_inv.
  - rewrite Hf. eapply finished_blobs; [exact Hfin|]. eapply same_blobs; [exact Hs02|]. by eapply same_blobs.
Qed.

(** ** Serving *)

(** One request at a time; the process may end within an upload and start again; what the
    database and the file system do next may be anything. *)
Inductive serve : Store → Store → Prop :=
| serve_request q s : (∀ now grace, q = RqGc now grace → distinct_keys (db s)) → serve s (perform q s).2
| serve_cut account object_id value now wrote s : serve s (cut_upload account object_id value now wrote s).2
| serve_start s s' : open cfg s = (Ok tt, s') → serve s s'
| serve_world w s : serve s (put_world w s).

Lemma serve_inv s s' : serve s s' → store_inv (core s) → store_inv (core s').
Proof.
  intros Hs Hinv. destruct Hs as [q s Hgc|account object_id v now wrote s|s s' Hopen|w s].
  - by apply (perform_inv q (core s) Hinv Hgc s).
  - by apply (cut_upload_inv account object_id v now wrote (core s) Hinv s).
  - pose proof (run_open cfg (core s) (proj1 Hinv) s eq_refl) as Hrun. rewrite Hopen in Hrun. by eapply open_inv.
  - exact Hinv.
Qed.
End correct.
