(* ===== verification/AcsServer.v ===== *)
(** * What the cloud server promises

    The promises of the store, for every state it can be served into: charges, stored
    content, one history of roots per account however requests interleave, events that
    replay it, objects that garbage collection keeps. *)

From Stdlib Require Import Strings.Byte.
From stdpp Require Import base gmap list strings sorting relations.
From S2P Require Import Prelude AcsContracts CloudRecords CloudAcs AcsLimits AcsStoreState AcsStore AcsGc AcsAuth.
From S2P Require Import AcsStoreRun AcsStoreInv AcsStoreSteps AcsGcSteps AcsStoreOpen AcsStoreCorrect.

Local Open Scope Z_scope.

(** ** The events of the cloud server replay the history of the root

    A stream that starts from a cursor gets what happened after it, exactly, or is told to
    start over. *)

(** ** Events in order *)

#[local] Instance seq_le_trans : Transitive seq_le.
Proof. intros x y z. unfold seq_le. lia. Qed.
#[local] Instance seq_le_total : Total seq_le.
Proof. intros x y. unfold seq_le. lia. Qed.

(** The events there are among some sequence numbers. *)
Definition picked (m : gmap Z EventRow) (keys : list Z) : list (Z * EventRow) := omap (λ k, pair k <$> m !! k) keys.

Lemma elem_of_picked m keys k e : (k, e) ∈ picked m keys ↔ k ∈ keys ∧ m !! k = Some e.
Proof.
  unfold picked. rewrite list_elem_of_omap. split.
  - intros (k' & Hk & (e' & He & [= -> ->])%fmap_Some_1). done.
  - intros [Hk He]. exists k. by rewrite He.
Qed.
Lemma picked_sorted m keys : StronglySorted Z.lt keys → StronglySorted (λ p q, p.1 < q.1) (picked m keys).
Proof.
  induction 1 as [|k l Hl IH HF]; simpl; [constructor|]. unfold picked. simpl. destruct (m !! k) as [e|]; simpl; [|done].
  constructor; [done|]. apply Forall_forall. intros [k' e'] [Hk _]%elem_of_picked. rewrite Forall_forall in HF.
  by apply HF.
Qed.
Lemma events_NoDup (l : list (Z * EventRow)) : StronglySorted (λ p q, p.1 < q.1) l → NoDup l.
Proof.
  induction 1 as [|x l Hl IH HF]; constructor; [|done]. intros Hx. rewrite Forall_forall in HF. specialize (HF x Hx). simpl in HF. lia.
Qed.
Lemma seqZ_sorted lo n : StronglySorted Z.lt (seqZ lo n).
Proof.
  unfold seqZ. generalize 0%nat. induction (Z.to_nat n) as [|k IH]; intros i; simpl; constructor; [apply IH|].
  apply Forall_fmap, Forall_forall. intros j Hj%elem_of_seq. simpl. lia.
Qed.

Lemma picked_ext m m' keys : (∀ k, k ∈ keys → m !! k = m' !! k) → picked m keys = picked m' keys.
Proof.
  induction keys as [|k keys IH]; intros Hk; [done|]. unfold picked in *. csimpl. rewrite (Hk k) by left.
  rewrite IH; [done|]. intros j Hj. apply Hk. by right.
Qed.

Lemma events_dense m lo n :
  (∀ k e, m !! k = Some e → lo ≤ k < lo + n) → events_in_order m = picked m (seqZ lo n).
Proof.
  intros Hm. pose proof (picked_sorted m _ (seqZ_sorted lo n)) as Hs.
  eapply (StronglySorted_unique_strong seq_le).
  - intros [k e] [k' e'] Hk [_ Hk']%elem_of_picked H1 H2. unfold events_in_order in Hk. rewrite merge_sort_Permutation in Hk.
    apply elem_of_map_to_list in Hk. unfold seq_le in *. simpl in *. assert (k = k') as -> by lia. congruence.
  - apply (StronglySorted_merge_sort _).
  - clear Hm. induction Hs as [|x l Hl IH HF]; constructor; [done|]. eapply Forall_impl; [exact HF|].
    intros y Hy. unfold seq_le. simpl in Hy. lia.
  - unfold events_in_order. rewrite merge_sort_Permutation. apply NoDup_Permutation.
    + apply NoDup_map_to_list.
    + by apply events_NoDup.
    + intros [k e]. rewrite elem_of_map_to_list, elem_of_picked, elem_of_seqZ. naive_solver.
Qed.

(** ** Replay *)

(** What happened after [n] changes. *)
Definition replay (h : list bytes) (n : Z) : list AcsSseEvent :=
  zip_with (λ k hash, SseRootChanged k k hash) (seqZ (n + 1) (len h - n)) (drop (Z.to_nat n) h).

(** The retained events of a history. *)
Definition retained (h : list bytes) (lo : Z) (m : gmap Z EventRow) : Prop :=
  ∀ seq, match m !! seq with
         | Some e => lo ≤ seq ≤ len h ∧ e_root_revision e = seq ∧ h !! Z.to_nat (seq - 1) = Some (e_root_hash e)
         | None => ¬ (lo ≤ seq ≤ len h)
         end.

Section replay.
Context `{ServerLibs} (h : list bytes) (lo : Z) (m : gmap Z EventRow) (Hlo : 1 ≤ lo) (Hm : retained h lo m).

Lemma retained_some k : lo ≤ k ≤ len h → ∃ hash, h !! Z.to_nat (k - 1) = Some hash
  ∧ ∃ e, m !! k = Some e ∧ e_root_revision e = k ∧ e_root_hash e = hash.
Proof.
  intros Hk. specialize (Hm k). destruct (m !! k) as [e|]; [|lia]. destruct Hm as (_ & Hr & Hh).
  exists (e_root_hash e). split; [done|]. by exists e.
Qed.

(** The numbers from one on are all there. *)
Lemma picked_replay n evs :
  lo - 1 ≤ n ≤ len h → try_map event_of_row (picked m (seqZ (n + 1) (len h - n))) = Ok evs → evs = replay h n.
Proof.
  intros Hn. unfold replay. remember (Z.to_nat (len h - n)) as k eqn:Hk.
  revert n evs Hn Hk. induction k as [|k IH]; intros n evs Hn Hk.
  - assert (len h - n = 0) as -> by lia. intros [= <-]. done.
  - rewrite (seqZ_cons (n + 1)) by lia. unfold picked. simpl.
    destruct (retained_some (n + 1)) as (hash & Hhash & e & -> & Hr & He); [lia|]. simpl.
    intros (ev & Hev & Hevs)%bind_Ok. apply bind_Ok in Hevs as (evs' & Hevs' & [= <-]).
    unfold event_of_row in Hev. simpl in Hev. apply bind_Ok in Hev as (s1 & [-> _]%row_u64_Ok & Hev).
    apply bind_Ok in Hev as (s2 & [-> _]%row_u64_Ok & [= <-]).
    replace (Z.to_nat (n + 1 - 1)) with (Z.to_nat n) in Hhash by lia.
    rewrite (drop_S _ hash) by done. simpl. rewrite Hr, He. f_equal.
    replace (S (Z.to_nat n)) with (Z.to_nat (n + 1)) by lia.
    replace (Z.succ (n + 1)) with (n + 1 + 1) in * by lia. replace (Z.pred (len h - n)) with (len h - (n + 1)) in * by lia.
    apply IH; [lia|lia|done].
Qed.

Lemma later_replay n evs :
  lo - 1 ≤ n ≤ len h →
  try_map event_of_row (events_in_order (filter (λ kv, n < kv.1) m)) = Ok evs → evs = replay h n.
Proof.
  intros Hn Hevs. apply picked_replay; [done|]. rewrite <- Hevs. f_equal. symmetry.
  rewrite (events_dense _ (n + 1) (len h - n)).
  - apply picked_ext. intros k Hk%elem_of_seqZ. rewrite map_lookup_filter. destruct (m !! k); [|done]. simpl.
    case_guard; [done|simpl in *; lia].
  - intros k e [Hk Hlt]%map_lookup_filter_Some. simpl in Hlt. specialize (Hm k). rewrite Hk in Hm. lia.
Qed.

Lemma min_retained : lo ≤ len h → min_sequence m = Some lo.
Proof.
  intros Hle. unfold min_sequence. rewrite (events_dense m lo (len h - lo + 1)).
  - rewrite seqZ_cons by lia. unfold picked. simpl. destruct (retained_some lo) as (_ & _ & e & -> & _); [lia|]. done.
  - intros k e Hk. specialize (Hm k). rewrite Hk in Hm. lia.
Qed.
Lemma min_empty : len h < lo → min_sequence m = None.
Proof.
  intros Hlt. assert (m = ∅) as ->; [|done]. apply map_empty. intros k. specialize (Hm k). destruct (m !! k); [lia|done].
Qed.

Lemma last_retained n : lo ≤ n ≤ len h →
  ∃ e, last_event_at m n = Some e ∧ e_root_revision e = n ∧ h !! Z.to_nat (n - 1) = Some (e_root_hash e).
Proof.
  intros Hn. destruct (retained_some n) as (hash & Hhash & e & He & Hr & <-); [done|]. exists e. split; [|done].
  unfold last_event_at. rewrite (events_dense _ lo (n - lo + 1)).
  - replace (n - lo + 1) with (Z.of_nat (S (Z.to_nat (n - lo)))) by lia. rewrite seqZ_S. unfold picked. rewrite omap_app. simpl.
    replace (lo + Z.of_nat (Z.to_nat (n - lo))) with n by lia.
    rewrite map_lookup_filter, He. simpl. case_guard as Hg; [|simpl in Hg; lia]. simpl. by rewrite last_snoc.
  - intros k e' [Hk Hle]%map_lookup_filter_Some. simpl in Hle. specialize (Hm k). rewrite Hk in Hm. lia.
Qed.
End replay.

(** ** Streams *)

Section stream.
Context `{ServerLaws}.

(** The answers of the statements at a history. *)
Lemma event_sequence_at account h s found :
  history (db s) account h → (select_event_sequence account s).1 = Ok found → found = None ∨ found = Some (len h).
Proof.
  intros (Ha & _) Hf%try_query_Ok. destruct (accounts (db s) !! account) as [a|]; [|injection Hf as <-; by left].
  apply bind_Ok in Hf as (seq & [-> _]%row_u64_Ok & [= <-]). right. by rewrite Ha.
Qed.
Lemma root_at account h s root :
  history (db s) account h → (read_root_row account s).1 = Ok root →
  match root with Some root => rs_revision root | None => 0 end = len h ∧ rs_root_hash <$> root = last h.
Proof.
  intros (_ & Hr & _) Hf%try_query_Ok. destruct (roots (db s) !! account) as [r|]; [|injection Hf as <-; by subst h].
  apply bind_Ok in Hf as (snapshot & (Hrev & Hh & _)%root_snapshot_Ok & [= <-]). simpl. rewrite Hrev, Hh.
  by destruct Hr as [-> <-].
Qed.
Lemma event_at_cursor account h lo n s found :
  1 ≤ lo → retained h lo (events_of account (db s)) → n ≤ len h → n ≠ 0 → 0 ≤ n →
  (select_event_at account n s).1 = Ok (Some found) → found = (n, hash_at h n).
Proof.
  intros Hlo Hm Hn Hz Hpos Hf%try_query_Ok. apply bind_Ok in Hf as (_ & _ & Hf).
  destruct (last_event_at (events_of account (db s)) n) as [e|] eqn:He; [|done].
  assert (lo ≤ n) as Hle.
  { unfold last_event_at in He. destruct (last _) as [[k x]|] eqn:Hlast; [|done]. apply last_Some_elem_of in Hlast.
    unfold events_in_order in Hlast. rewrite merge_sort_Permutation in Hlast.
    apply elem_of_map_to_list, map_lookup_filter_Some in Hlast as [Hk Hkn]. specialize (Hm k). rewrite Hk in Hm. simpl in Hkn. lia. }
  destruct (last_retained h lo (events_of account (db s)) Hm n) as (e' & He' & Hr & Hh); [lia|]. rewrite He in He'. injection He' as <-.
  apply bind_Ok in Hf as (rev & [-> _]%row_u64_Ok & [= <-]). unfold hash_at. rewrite (proj2 (Z.eqb_neq _ _) Hz). by rewrite Hr, Hh.
Qed.
Lemma minimum_at account h lo s minimum :
  1 ≤ lo → retained h lo (events_of account (db s)) → (select_minimum_retained account s).1 = Ok minimum →
  minimum = if decide (lo ≤ len h) then Some lo else None.
Proof.
  intros Hlo Hm Hf%try_query_Ok. case_decide.
  - rewrite (min_retained h lo) in Hf by done. by apply bind_Ok in Hf as (k & [-> _]%row_u64_Ok & [= <-]).
  - rewrite (min_empty h lo) in Hf by (done || lia). by injection Hf.
Qed.

Lemma run_current_event_state account h c (Q : _ → _ → Prop) :
  history (c_db c) account h → Q (Ok (len h, len h, last h)) c → (∀ e, Q (Err e) c) →
  run (at_once (current_event_state account)) c Q.
Proof.
  intros Hh HO HE. unfold current_event_state. run_step. run_step. apply run_read; [apply _| |apply HE]. intros s found <- Hf.
  run_step. run_step. run_step. destruct (event_sequence_at account h s found Hh Hf) as [->| ->]; [apply HE|]. cbn [ok_or].
  run_step. run_step. run_step. apply run_read; [apply _| |apply HE]. intros s1 root Hs1 Hr. run_step. run_step.
  assert (history (db s1) account h) as Hh1 by (apply (f_equal c_db) in Hs1; simpl in Hs1; by rewrite Hs1).
  destruct (root_at account h s1 root Hh1 Hr) as [-> ->]. exact HO.
Qed.

(** The state of a retained cursor. *)
Lemma run_event_state_at account h lo n c (Q : _ → _ → Prop) :
  1 ≤ lo → retained h lo (events_of account (c_db c)) → n = 0 ∨ lo ≤ n ≤ len h →
  Q (Ok (n, hash_at h n)) c → (∀ e, Q (Err e) c) → run (at_once (event_state_at account n)) c Q.
Proof.
  intros Hlo Hm Hn HO HE. unfold event_state_at. destruct (n =? 0) eqn:Hz; zbool; [subst; by run_step|].
  run_step. run_step. apply run_read; [apply _| |apply HE]. intros s [found|] <- Hf; run_step; run_step; [|apply HE].
  rewrite (event_at_cursor account h lo n s found) by (done || lia). exact HO.
Qed.

(** What a stream may start with. *)
Definition stream_start (h : list bytes) (retained_at : Z → Prop) (cursor : option Z) (evs : list AcsSseEvent) : Prop :=
  match cursor with
  | None => evs = [SseReady (len h) (len h) (last h)]
  | Some n =>
      (evs = [SseReset (len h) (len h) (last h)] ∧ (len h < n ∨ ¬ retained_at (Z.max 1 n)))
      ∨ (n ≤ len h ∧ evs = SseReady n n (hash_at h n) :: replay h n)
  end.

Lemma run_initial_sse_events account h cursor c :
  history (c_db c) account h → (∀ n, cursor = Some n → 0 ≤ n) →
  run (at_once (initial_sse_events account cursor)) c (λ r c', c' = c ∧ ∀ evs, r = Ok evs →
    stream_start h (λ k, is_Some (events_of account (c_db c) !! k)) cursor evs).
Proof.
  intros Hh Hcur. set (Q := λ r c', _). assert (∀ e, Q (Err e) c) as HE by (intros e; by split).
  unfold initial_sse_events. run_step. run_skip; run_step; [|apply HE]. run_step.
  apply (run_current_event_state account h); [done| |intros; run_step; apply HE]. run_step.
  destruct cursor as [n|]; [|run_step; split; [done|]; by intros evs [= <-]]. specialize (Hcur n eq_refl).
  destruct Hh as (_ & _ & lo & Hlo & Hm). change (retained h lo (events_of account (c_db c))) in Hm.
  run_step; [run_step; split; [done|]; intros evs [= <-]; left; split; [done|]; left; lia|].
  run_step. run_step. apply run_read; [apply _| |apply HE]. intros s minimum Hs Hmin. run_step.
  assert (retained h lo (events_of account (db s))) as Hms by (apply (f_equal c_db) in Hs; simpl in Hs; by rewrite Hs).
  rewrite (minimum_at account h lo s minimum) by (done || lia). clear Hmin.
  assert (n ≤ len h) as Hle by lia.
  match goal with |- run (at_once (if ?b then _ else _)) _ _ => destruct b eqn:Hreset end.
  - run_step. split; [done|]. intros evs [= <-]. left. split; [done|]. right. case_decide as Hll; [|done].
    apply andb_true_iff in Hreset as [Hlt Hno]. zbool. intros [e He]. specialize (Hm (Z.max 1 n)). rewrite He in Hm. lia.
  - assert ((n = 0 ∨ lo ≤ n ≤ len h) ∧ lo - 1 ≤ n) as [Hn Hn1] by (case_decide; lia).
    run_step. apply (run_event_state_at account h lo); [lia|done|done| |intros; run_step; apply HE]. run_step.
    run_step. run_step. apply run_read; [apply _| |apply HE]. intros s1 later Hs1 Hlater%try_query_Ok. run_step. run_step. split; [done|]. intros evs [= <-]. right. split; [done|].
    apply bind_Ok in Hlater as (? & _ & Hlater). apply (f_equal c_db) in Hs1. simpl in Hs1. rewrite Hs1 in Hlater.
    f_equal. eapply later_replay; [|exact Hm|split; [exact Hn1|done]|exact Hlater]. lia.
Qed.
End stream.

(** A store that has never been used. *)
Definition new_store (w : World) : Store :=
  {| db := empty_db; saved := None; files := ∅; limits := limits_default; counters := λ _, 0; creation_metrics := [];
     last_durable_read := 0; last_durable_write := 0; events := []; world := w |}.

Section server.
Context `{ServerLaws} (cfg : StoreConfig).

(** ** Histories *)

(** Steps that neither swap a root nor delete the account keep its history. *)
Lemma db_step_roots p ceiling d d' acct :
  ¬ p_swap p → ¬ p_drop p acct → db_step p ceiling d d' → roots d' !! acct = roots d !! acct.
Proof.
  intros Hsw Hdr Hst. step_cases Hst; try done; try by destruct Hs as (_ & -> & _).
  destruct Hs as (_ & -> & _). unfold drop_account. simpl. rewrite lookup_delete_ne; [done|]. by intros ->.
Qed.

(** A history is determined by the root. *)
Lemma history_length d account h :
  history d account h → len h = match roots d !! account with Some r => r_revision r | None => 0 end.
Proof. intros (_ & Hr & _). destruct (roots d !! account) as [r|]; [by destruct Hr as [-> _]|by subst h]. Qed.
Lemma history_last d account h : history d account h → last h = r_root_hash <$> roots d !! account.
Proof. intros (_ & Hr & _). destruct (roots d !! account) as [r|]; [by destruct Hr as [_ ->]|by subst h]. Qed.

Lemma history_same_root p ceiling d d' account h :
  db_step p ceiling d d' → link_inv d → history d account h → roots d' !! account = roots d !! account → history d' account h.
Proof.
  intros Hst Hl Hh Hr. destruct (db_step_history p _ _ _ _ _ Hst Hl Hh) as (h' & Hh' & Hch).
  pose proof (history_length _ _ _ Hh) as E. pose proof (history_length _ _ _ Hh') as E'. rewrite Hr, <- E in E'.
  destruct Hch as [_|hash r _ _|_]; [done| |].
  - rewrite len_app in E'. change (len [hash]) with 1 in E'. lia.
  - destruct h; [done|]. unfold len in E'. simpl in E'. lia.
Qed.
Lemma steps_keep_history p d d' account h :
  ¬ p_swap p → ¬ p_drop p account → steps cfg p d d' → data_inv d → history d account h → history d' account h.
Proof.
  intros Hs Hd Hst Hinv Hh. induction Hst as [|d d1 d2 Hstep _ IH]; [done|]. apply IH.
  - by eapply db_step_data.
  - eapply history_same_root; [exact Hstep|apply Hinv|exact Hh|by eapply db_step_roots].
Qed.

(** The root of an account as a register of an append-only list: the specification of the
    swap. *)
Definition spec_swap (revision : Z) (expected : option bytes) (hash : bytes) (h : list bytes) : bool * list bytes :=
  if (revision =? len h) && bool_decide (expected = last h) then (true, h ++ [hash]) else (false, h).

(** What the swap does to the history of any account. *)
Lemma cas_history account request now c r c' acct h :
  cas_done cfg account request now c r c' → data_inv (c_db c) → history (c_db c) acct h →
  history (c_db c') acct (h ++ match r with
                               | Ok (Committed root) => if decide (acct = account) then [rs_root_hash root] else []
                               | _ => []
                               end).
Proof.
  intros (_ & _ & Hr) Hinv Hh. destruct r as [[root|rev hash]|e].
  - destruct Hr as (_ & Hst & Hother & Hrev & Hcr & Hch & _). case_decide as Heq.
    + subst acct. destruct (db_step_history swapping _ _ _ _ _ Hst (proj1 (proj2 Hinv)) Hh) as (h' & Hh' & Hchange).
      pose proof (history_length _ _ _ Hh) as E. pose proof (history_length _ _ _ Hh') as E'.
      unfold current_revision, current_hash in *. rewrite <- E in Hrev. rewrite <- E' in Hcr.
      destruct Hchange as [_|x r Hroot Hx|Hn].
      * lia.
      * rewrite Hroot in Hch. simpl in Hch. injection Hch as <-. by subst x.
      * pose proof (len_nonneg h). unfold len in Hcr at 1. simpl in Hcr. lia.
    + rewrite app_nil_r. eapply history_same_root; [exact Hst|apply Hinv|done|by apply Hother].
  - destruct Hr as (_ & -> & _). by rewrite app_nil_r.
  - destruct Hr as [Hs _]. rewrite app_nil_r. by eapply same_history.
Qed.

(** ** Interleaving *)

(** What the server does at once: a request, or a part of an upload, of a garbage collection
    or of a start. Parts of several requests may come in any order. *)
Inductive Phase :=
| PhRequest (q : Request)
| PhRow (account object_id : bytes) (value : AcsEncryptedValue) (now : Z)
| PhBlob (key content : bytes)
| PhFinish (account object_id : bytes) (size now : Z) (written : result StoreError unit)
| PhCollect (cutoff : Z) (report : GcReport) (keys : list bytes) (account : bytes)
| PhFiles (cutoff : Z) (report : GcReport) (keys : list bytes)
| PhStart.

Definition phase_op (ph : Phase) : M unit :=
  match ph with
  | PhRequest q => perform cfg q
  | PhRow account object_id value now => ignore (create_object_row cfg account object_id value now)
  | PhBlob key content => write_blob key content
  | PhFinish account object_id size now written => ignore (finish_upload account object_id size now written)
  | PhCollect cutoff report keys account => ignore (gc_account cutoff (report, keys) account)
  | PhFiles cutoff report keys => ignore (gc_files cutoff (report, keys))
  | PhStart => open cfg
  end.

(** The swaps that were committed, with the hash of the new root. *)
Definition committed_by (ph : Phase) (s : Store) : list (bytes * bytes) :=
  match ph with
  | PhRequest (RqSwapRoot account request network now) =>
      match (compare_and_swap_root cfg account request network now s).1 with
      | Ok (Committed root) => [(account, rs_root_hash root)]
      | _ => []
      end
  | _ => []
  end.
Fixpoint run_phases (l : list Phase) (s : Store) : list (bytes * bytes) * Store :=
  match l with
  | [] => ([], s)
  | ph :: l =>
      let r := run_phases l (phase_op ph s).2 in
      (committed_by ph s ++ r.1, r.2)
  end.

(** What the parts may do, but for swaps. *)
Definition others (account : bytes) : Perm :=
  {| p_unfair := True; p_ready := True; p_files := True; p_collect := True; p_swap := False; p_drop := λ a, a ≠ account |}.

Lemma steps_others p account d d' :
  ¬ p_swap p → ¬ p_drop p account → steps cfg p d d' → steps cfg (others account) d d'.
Proof. intros Hs Hd. apply steps_weaken. repeat split; try done. intros a Ha ->. done. Qed.

Context (Hret : 1 ≤ event_retention cfg).

Lemma phase_moves ph account :
  ph ≠ PhRequest (RqDelete account) → (∀ a r n t, ph ≠ PhRequest (RqSwapRoot a r n t)) →
  Moves cfg (others account) (phase_op ph).
Proof.
  intros Hdel Hswap. destruct ph as [q|acct i v now|key content|acct i size now written|cutoff report keys acct|cutoff report keys|]; simpl.
  - destruct (ordinary q) eqn:Ho.
    + apply Moves_ordinary; [done|]. intros a ->. intros ->. done.
    + destruct q; try done; [|by destruct (Hswap account0 request network now)|]; apply Moves_ignore.
      * by apply Moves_create_object.
      * by apply Moves_run_gc.
  - apply Moves_ignore. intros c Hc Hr. eapply run_mono; [by apply (run_create_object_row cfg (others account))|].
    by intros r c' [Hm _].
  - intros c Hc _. eapply run_mono; [apply run_write_blob|]. intros r c' [(Ed & Es & _ & _) _]. split; [congruence|].
    rewrite Ed. split; [apply rtc_refl|left; exact I].
  - apply Moves_ignore. intros c Hc _. eapply run_mono; [apply (run_finish_upload cfg (others account)); [done|exact I|left; exact I]|].
    by intros r c' [Hm _].
  - apply Moves_ignore. by apply Moves_gc_account.
  - apply Moves_ignore. by apply Moves_gc_files.
  - intros c Hc _. eapply run_mono; [by apply run_open|]. intros r c' (Hs & Hf & Hst & _). split; [done|].
    split; [|by right]. eapply (steps_others starting); [intros []|intros []|exact Hst].
Qed.

Lemma phase_history ph account h s :
  saved s = None → data_inv (db s) → history (db s) account h → ph ≠ PhRequest (RqDelete account) →
  let s' := (phase_op ph s).2 in
  saved s' = None ∧ data_inv (db s')
  ∧ history (db s') account (h ++ (filter (λ ah, ah.1 = account) (committed_by ph s)).*2).
Proof.
  intros Hs Hinv Hh Hdel. cbv zeta.
  assert ((∃ a r n t, ph = PhRequest (RqSwapRoot a r n t)) ∨ ∀ a r n t, ph ≠ PhRequest (RqSwapRoot a r n t)) as [Hsw|Hsw].
  { destruct ph as [[]| | | | | |]; try (right; congruence). left. eauto. }
  - destruct Hsw as (a & rq & n & t & ->). simpl. unfold ignore. rewrite ST_bind_unfold.
    pose proof (run_compare_and_swap_root cfg Hret a rq n t (core s) Hs (proj1 Hinv) s eq_refl) as Hcas.
    destruct (compare_and_swap_root cfg a rq n t s) as [r s'] eqn:Hr. simpl in Hcas.
    pose proof (cas_history a rq t _ _ _ account h Hcas Hinv Hh) as Hh'.
    assert (saved s' = None ∧ data_inv (db s')) as Hdone.
    { split; [apply Hcas|]. destruct Hcas as (_ & _ & Hres). destruct r as [[root|]|e].
      - destruct Hres as (_ & Hst & _). by eapply db_step_data.
      - destruct Hres as (_ & Hd & _). simpl in Hd. by rewrite Hd.
      - destruct Hres as [Hd _]. by eapply (data_inv_same cfg (db s)). }
    destruct r as [[root|rev hash]|e]; simpl in *; (split; [apply Hdone|]); (split; [apply Hdone|]); try exact Hh'.
    rewrite filter_cons, filter_nil. simpl. case_decide as E1; case_decide as E2; congruence || exact Hh'.
  - destruct (phase_moves ph account Hdel Hsw (core s) Hs (proj1 Hinv) s eq_refl) as (Hs' & Hst & _).
    split; [done|]. split; [by eapply steps_data|].
    assert (committed_by ph s = []) as ->.
    { destruct ph as [[]| | | | | |]; try done. by destruct (Hsw account0 request network now). }
    rewrite app_nil_r. eapply (steps_keep_history (others account)); [intros []|intros Hne; by apply Hne|exact Hst|done|done].
Qed.

Lemma run_phases_history l account h s :
  saved s = None → data_inv (db s) → history (db s) account h → PhRequest (RqDelete account) ∉ l →
  let '(commits, s') := run_phases l s in
  saved s' = None ∧ data_inv (db s') ∧ history (db s') account (h ++ (filter (λ ah, ah.1 = account) commits).*2).
Proof.
  revert h s. induction l as [|ph l IH]; intros h s Hs Hinv Hh Hdel; simpl.
  - by rewrite app_nil_r.
  - apply not_elem_of_cons in Hdel as [Hph Hdel].
    destruct (phase_history ph account h s Hs Hinv Hh (not_eq_sym Hph)) as (Hs1 & Hinv1 & Hh1).
    specialize (IH _ _ Hs1 Hinv1 Hh1 Hdel). destruct (run_phases l (phase_op ph s).2) as [commits s']. simpl.
    by rewrite filter_app, fmap_app, (assoc_L (++)).
Qed.

(** ** Promises *)

(** The states the store can be served into, one request at a time. *)
Definition served (s : Store) : Prop := ∃ w, rtc (serve cfg) (new_store w) s.

Lemma objects_of_empty account : objects_of account empty_db = ∅.
Proof. done. Qed.
Lemma empty_history account : history empty_db account [].
Proof.
  split; [done|]. split; [done|]. exists 1. split; [done|]. intros seq.
  change (events_of account empty_db) with (∅ : gmap Z EventRow). rewrite lookup_empty. unfold len. simpl. lia.
Qed.
Lemma empty_data_inv : data_inv empty_db.
Proof.
  split; [|split; [|split]].
  - split; [intros account i o; by rewrite objects_of_empty|intros account r; done].
  - intros account _. done.
  - intros account child Hc. by apply elem_of_nil in Hc.
  - intros account. exists []. apply empty_history.
Qed.
Lemma served_inv s : 0 ≤ global_storage_limit_bytes cfg → served s → store_inv cfg (core s).
Proof.
  intros Hlim (w & Hs). assert (store_inv cfg (core (new_store w))) as Hinv.
  { split; [done|]. split; [exact empty_data_inv|]. split; [split; [by apply map_Forall_empty|exact Hlim]|].
    intros account i o. simpl. by rewrite objects_of_empty. }
  revert Hinv. induction Hs as [|s0 s1 s2 Hst _ IH]; intros Hinv; [done|]. apply IH. by eapply serve_inv.
Qed.

(** *** Charges however requests interleave

    The parts that keep the charges exact: all, but an upload that gives its space back after
    its row was taken by another (the row it takes back has to be the one it made), and a start
    that does not come to its end. *)
Definition orderly (ph : Phase) (s : Store) : Prop :=
  match ph with
  | PhFinish account object_id size _ (Err _) =>
      ∃ o, objects_of account (db s) !! object_id = Some o ∧ o_state o = ObjPending ∧ object_charge object_id o = size
  | PhStart => (open cfg s).1 = Ok tt
  | _ => True
  end.
Inductive proceed : Store → Store → Prop :=
| proceed_phase ph s : orderly ph s → proceed s (phase_op ph s).2
| proceed_world w s : proceed s (put_world w s).
Definition attained (s : Store) : Prop := ∃ w, rtc proceed (new_store w) s.

(** What orderly parts may do. *)
Definition fairly : Perm :=
  {| p_unfair := False; p_ready := True; p_files := True; p_collect := True; p_swap := True; p_drop := λ _, True |}.
Definition charged (c : Core) : Prop :=
  c_saved c = None ∧ data_inv (c_db c) ∧ usage_inv (global_storage_limit_bytes cfg) (c_db c).

Lemma charged_moves c {A} (r : result StoreError A) c' : moves cfg fairly c r c' → charged c → charged c'.
Proof.
  intros (Hc & Hst & _) (_ & Hd & Hu). split; [done|]. split; [by eapply steps_data|].
  eapply (steps_usage cfg fairly); [intros []|exact Hst|done|done].
Qed.
Lemma cas_moves account request now c r c' : cas_done cfg account request now c r c' → moves cfg fairly c r c'.
Proof.
  intros (Hc & Hf & Hr). split; [done|]. split; [|by right]. destruct r as [[root|]|e].
  - destruct Hr as (_ & Hst & _). apply rtc_once. eapply db_step_weaken; [|exact Hst]. by repeat split.
  - destruct Hr as (_ & -> & _). apply rtc_refl.
  - destruct Hr as [Hs _]. by apply rtc_once, step_same.
Qed.
Lemma Moves_perform q : Moves cfg fairly (perform cfg q).
Proof.
  destruct (ordinary q) eqn:Ho; [by apply Moves_ordinary|].
  destruct q; try done; simpl; apply Moves_ignore; [by apply Moves_create_object| |by apply Moves_run_gc].
  intros c Hc Hr. eapply run_mono; [by apply run_compare_and_swap_root|]. intros r c' Hcas. by eapply cas_moves.
Qed.

(** A start that ends well sets what was exact to what it was. *)
Lemma charged_open c c' u : opened cfg c (Ok u) c' → charged c → charged c'.
Proof.
  intros (Hc & _ & _ & d0 & d1 & d2 & Hs0 & Hre & Hs2 & Hst & _) (_ & Hd & Hu).
  assert (usage_inv (global_storage_limit_bytes cfg) d0) as Hu0 by by eapply same_usage_inv.
  pose proof (recharged_same _ _ _ _ Hu0 Hre Hs2) as Hs02.
  assert (data_inv d2) as Hd2 by (eapply (data_inv_same cfg); [exact Hs02|]; by eapply (data_inv_same cfg)).
  split; [done|]. split; [by eapply steps_data|].
  eapply (steps_usage cfg settling); [intros []|exact Hst|done|]. by eapply same_usage_inv.
Qed.

Lemma proceed_charged s s' : proceed s s' → charged (core s) → charged (core s').
Proof.
  intros Hp Hinv. destruct Hp as [ph s Ho|w s]; [|exact Hinv]. pose proof Hinv as (Hs & (Hrows & _) & _).
  destruct ph as [q|acct i v now|key content|acct i size now written|cutoff report keys acct|cutoff report keys|]; simpl in *.
  - eapply charged_moves; [|exact Hinv]. by apply (Moves_perform q (core s) Hs Hrows s).
  - assert (run (ignore (create_object_row cfg acct i v now)) (core s) (λ _ c', charged c')) as Hrun; [|by apply Hrun].
    apply run_ignore. eapply run_mono; [by apply (run_create_object_row cfg fairly)|].
    intros r c' [Hm _]. by eapply charged_moves.
  - assert (run (write_blob key content) (core s) (λ _ c', charged c')) as Hrun; [|by apply Hrun].
    eapply run_mono; [apply run_write_blob|]. intros r c' [(Ed & Es & _ & _) _]. destruct Hinv as (_ & Hd & Hu).
    split; [by rewrite Es|]. by rewrite Ed.
  - assert (run (ignore (finish_upload acct i size now written)) (core s) (λ _ c', charged c')) as Hrun; [|by apply Hrun].
    apply run_ignore. destruct written as [[]|e].
    + eapply run_mono; [by apply (run_finish_written cfg fairly)|]. intros r c' Hm. by eapply charged_moves.
    + eapply run_mono; [apply (run_finish_upload cfg fairly); [done|exact I|by right]|].
      intros r c' [Hm _]. by eapply charged_moves.
  - eapply charged_moves; [|exact Hinv].
    by apply (Moves_ignore cfg fairly (gc_account cutoff (report, keys) acct) (Moves_gc_account cfg fairly cutoff _ acct I) (core s) Hs Hrows s).
  - eapply charged_moves; [|exact Hinv].
    by apply (Moves_ignore cfg fairly (gc_files cutoff (report, keys)) (Moves_gc_files cfg fairly cutoff _ I) (core s) Hs Hrows s).
  - pose proof (run_open cfg (core s) Hs s eq_refl) as Hrun. destruct (open cfg s) as [r s']. simpl in *. subst r.
    by eapply charged_open.
Qed.

(** C8: whatever is requested, in whatever order the requests and the parts of uploads and
    collections come, whatever fails in them and wherever the process ends, what an account is
    charged is exactly what it stores, within its quota and object limit, and all charges are
    within the ceiling of the service: as long as an upload that takes its row back still finds
    it pending, and starts succeed. *)
Theorem charges_exact s :
  0 ≤ global_storage_limit_bytes cfg → attained s →
  (∀ account a, accounts (db s) !! account = Some a →
     a_stored_bytes a = objects_charge (objects_of account (db s)) + root_charge (roots (db s) !! account)
     ∧ a_object_count a = Z.of_nat (size (objects_of account (db s)))
     ∧ a_stored_bytes a ≤ a_quota_bytes a ∧ a_object_count a ≤ a_object_limit a)
  ∧ sum_stored (db s) ≤ global_storage_limit_bytes cfg.
Proof.
  intros Hlim (w & Hs). assert (charged (core (new_store w))) as Hinv.
  { split; [done|]. split; [exact empty_data_inv|]. split; [by apply map_Forall_empty|exact Hlim]. }
  assert (charged (core s)) as (_ & _ & [Hok Hsum]).
  { revert Hinv. induction Hs as [|s0 s1 s2 Hst _ IH]; intros Hinv; [done|]. apply IH. by eapply proceed_charged. }
  split; [|done].
  intros account a Ha. destruct (Hok account a Ha) as (Hst & Hc & Hq & _ & Hl & _). repeat split; [done|done|lia|done].
Qed.

(** *** Content *)

(** Whatever the order of the parts, and whatever fails, the tables stay sound. *)
Lemma run_phases_data l s :
  saved s = None → data_inv (db s) → saved (run_phases l s).2 = None ∧ data_inv (db (run_phases l s).2).
Proof.
  revert s. induction l as [|ph l IH]; intros s Hs Hinv; [done|]. simpl.
  assert (∃ account, ph ≠ PhRequest (RqDelete account)) as [account Hph].
  { destruct ph as [q| | | | | |]; try by exists []. destruct q; try by exists []. exists (x00 :: account).
    intros [= E]. apply (f_equal length) in E. simpl in E. lia. }
  destruct (proj2 (proj2 (proj2 Hinv)) account) as [h Hh].
  destruct (phase_history ph account h s Hs Hinv Hh Hph) as (Hs1 & Hinv1 & _). by apply IH.
Qed.

(** C21: every object the root of an account refers to is recorded as ready, with its place and,
    when it is stored in the table, content of the recorded length and digest: however requests
    and the parts of uploads, collections and starts interleave and whatever fails. When requests
    come one at a time, starts succeed and no two rows share a blob when a collection begins
    (blob keys are digests), the content of every ready object is there, in the table or in its
    file, with the recorded length and digest. *)
Theorem content_kept :
  0 ≤ global_storage_limit_bytes cfg →
  (∀ l w account child, let s := (run_phases l (new_store w)).2 in
     child ∈ root_children account (db s) →
     ∃ o, objects_of account (db s) !! child = Some o ∧ o_state o = ObjReady
       ∧ match o_inline_ciphertext o, o_blob_storage_key o with
         | Some inline, None => len inline = o_ciphertext_bytes o ∧ sha256_hex inline = o_ciphertext_sha256 o
         | None, Some key => key = blob_storage_key account child (o_ciphertext_sha256 o)
         | _, _ => False
         end)
  ∧ ∀ s, served s →
    (∀ account i o, objects_of account (db s) !! i = Some o → o_state o = ObjReady →
       ∃ content, len content = o_ciphertext_bytes o ∧ sha256_hex content = o_ciphertext_sha256 o
         ∧ match o_inline_ciphertext o, o_blob_storage_key o with
           | Some inline, None => inline = content
           | None, Some key => ∃ file, files s !! blob_path key = Some file ∧ f_bytes file = content
           | _, _ => False
           end)
    ∧ ∀ account child, child ∈ root_children account (db s) → is_ready account child (db s).
Proof.
  intros Hlim. split.
  - intros l w account child s Hchild.
    destruct (run_phases_data l (new_store w) eq_refl empty_data_inv) as [_ (Hrows & _ & Hclosed & _)].
    destruct (Hclosed account child Hchild) as (o & Ho & Hr). exists o. split; [done|]. split; [done|].
    destruct (proj1 Hrows account child o Ho) as (_ & _ & Hplace).
    destruct (o_inline_ciphertext o) as [inline|], (o_blob_storage_key o) as [key|]; try done. by destruct Hplace as (_ & ? & ?).
  - intros s Hs. destruct (served_inv s Hlim Hs) as (_ & (Hrows & _ & Hclosed & _) & _ & Hb). split; [|exact Hclosed].
    intros account i o Ho Hr. destruct (proj1 Hrows account i o Ho) as (_ & _ & Hplace). specialize (Hb account i o Ho Hr).
    unfold blob_there in Hb. destruct (o_inline_ciphertext o) as [inline|], (o_blob_storage_key o) as [key|]; try done.
    + destruct Hplace as (_ & Hl & Hd). by exists inline.
    + destruct Hb as (file & Hf & Hl & Hd). exists (f_bytes file). split; [done|]. split; [done|]. by exists file.
Qed.

(** C2: the swap implements the register: it commits exactly when the specification does, with
    the next revision and what was sent, and publishes the change; a conflict reports the
    current root; an error leaves accounts, roots, objects and events as they were (it may make
    the service read-only, when its ceiling is reached). *)
Theorem swap_refines_register s account request network now h :
  saved s = None → data_inv (db s) → history (db s) account h →
  let '(r, s') := compare_and_swap_root cfg account request network now s in
  let spec hash := spec_swap (cas_expected_revision request) (cas_expected_root_hash request) hash h in
  match r with
  | Ok (Committed root) =>
      spec (rs_root_hash root) = (true, h ++ [rs_root_hash root]) ∧ history (db s') account (h ++ [rs_root_hash root])
      ∧ rs_revision root = len h + 1
      ∧ Ok (rs_root_hash root) = authenticated_hash sv_sha256 sv_b64_decode (cas_replacement request) KindRoot ACS_FIXED_ROOT_ID
      ∧ ciphertext sv_b64_decode (rs_value root) = ciphertext sv_b64_decode (cas_replacement request)
      ∧ child_object_ids (rs_value root) = child_object_ids (cas_replacement request)
      ∧ events s' = events s ++ [{| ev_account_locator := account;
                                    ev_event := SseRootChanged (len h + 1) (len h + 1) (rs_root_hash root) |}]
  | Ok (Conflict revision hash) =>
      (∀ x, spec x = (false, h)) ∧ db s' = db s ∧ events s' = events s ∧ revision = len h ∧ hash = last h
  | Err _ => same_data (db s) (db s') ∧ events s' = events s
  end.
Proof.
  intros Hs Hinv Hh.
  pose proof (run_compare_and_swap_root cfg Hret account request network now (core s) Hs (proj1 Hinv) s eq_refl) as Hcas.
  destruct (compare_and_swap_root cfg account request network now s) as [r s']. simpl in Hcas.
  pose proof (cas_history account request now _ _ _ account h Hcas Hinv Hh) as Hh'.
  assert (expects request account (db s) ↔ cas_expected_revision request = len h ∧ cas_expected_root_hash request = last h) as Hexp.
  { unfold expects, current_revision, current_hash. by rewrite (history_length _ _ _ Hh), (history_last _ _ _ Hh). }
  destruct Hcas as (_ & _ & Hres). destruct r as [[root|revision hash]|e]; simpl in *.
  - destruct Hres as (He & _ & _ & Hrev & _ & _ & Hhash & Hch & _ & Hct & seq & Hev & a & Ha & ->).
    rewrite decide_True in Hh' by done. apply Hexp in He as [Hr Hx].
    unfold current_revision in Hrev. rewrite <- (history_length _ _ _ Hh) in Hrev.
    assert (a_event_sequence a = len h) as Hseq by (destruct Hh as (Hacc & _); by rewrite Ha in Hacc).
    split; [unfold spec_swap; by rewrite Hr, Hx, Z.eqb_refl, bool_decide_eq_true_2|]. do 5 (split; [done|]).
    by rewrite Hev, Hseq, Hrev.
  - destruct Hres as (He & Hd & Hev & -> & ->). unfold current_revision, current_hash.
    rewrite <- (history_length _ _ _ Hh), <- (history_last _ _ _ Hh). split; [|done]. intros x. unfold spec_swap.
    destruct ((_ =? _) && _) eqn:Hb; [|done]. zbool. by destruct He; apply Hexp.
  - done.
Qed.

(** C9: any interleaving of requests and of the parts of uploads, collections and starts keeps,
    for each account that is not deleted, one history: what it was, followed by the roots
    whose swaps were committed, in order. *)
Theorem interleaved_roots l account w :
  PhRequest (RqDelete account) ∉ l →
  let '(commits, s') := run_phases l (new_store w) in
  history (db s') account ((filter (λ ah, ah.1 = account) commits).*2).
Proof.
  intros Hdel.
  pose proof (run_phases_history l account [] (new_store w) eq_refl empty_data_inv (empty_history account) Hdel) as Hrun.
  destruct (run_phases l (new_store w)) as [commits s']. apply Hrun.
Qed.
End server.
