(* ===== verification/AcsObjects.v ===== *)
(** * Objects of the cloud server: trees, uploads and collection

    Objects refer to objects, and the root to some of them. Uploads check what they refer
    to, and garbage collection keeps what can be reached. *)

From Stdlib Require Import Strings.Byte.
From stdpp Require Import base gmap list strings sorting relations.
From S2P Require Import Prelude CloudRecords AcsContracts CloudAcs AcsLimits AcsStoreState AcsStore AcsGc AcsAuth.
From S2P Require Import AcsStoreRun AcsStoreInv AcsStoreSteps AcsGcSteps AcsStoreOpen AcsStoreCorrect AcsServer.

Local Open Scope Z_scope.

Section objects.
Context `{ServerLaws} (cfg : StoreConfig) (Hret : 1 ≤ event_retention cfg).

(** ** Trees *)

(** What an object refers to is there and readable. *)
Definition kids_inv (d : Db) : Prop :=
  ∀ account i o c child, objects_of account d !! i = Some o → children_from_json (o_children_json o) = Ok c → child ∈ c →
    is_ready account child d.

(** Objects that are ready stay so without garbage collection. *)
Lemma ready_insert account acct d i o child :
  objects_of account d !! i = None → is_ready acct child d →
  is_ready acct child (put_objects_of account (<[i := o]> (objects_of account d)) d).
Proof.
  intros Hi Hr. apply ready_put; [|done]. intros <- (o' & Ho & Hst). exists o'. split; [|done].
  rewrite lookup_insert_ne; [done|]. intros <-. congruence.
Qed.
Lemma ready_remove account acct d i o child :
  objects_of account d !! i = Some o → o_state o = ObjPending → is_ready acct child d →
  is_ready acct child (put_objects_of account (delete i (objects_of account d)) d).
Proof.
  intros Hi Hp Hr. apply ready_put; [|done]. intros <- (o' & Ho & Hst). exists o'. split; [|done].
  rewrite lookup_delete_ne; [done|]. intros <-. congruence.
Qed.
Lemma ready_with_ready account acct d i o child :
  is_ready acct child d → is_ready acct child (put_objects_of account (<[i := with_ready o]> (objects_of account d)) d).
Proof.
  intros Hr. apply ready_put; [|done]. intros <- (o' & Ho & Hst). destruct (decide (i = child)) as [<-|Hne].
  - exists (with_ready o). by rewrite lookup_insert_eq.
  - exists o'. by rewrite lookup_insert_ne.
Qed.

Lemma same_kids d d' : same_data d d' → kids_inv d → kids_inv d'.
Proof.
  intros Hs Hk account i o c child. rewrite (same_objects_of _ _ account Hs), (same_ready _ _ account child Hs). apply Hk.
Qed.

Lemma db_step_kids p d d' : ¬ p_collect p → db_step p (global_storage_limit_bytes cfg) d d' → kids_inv d → kids_inv d'.
Proof.
  intros Hp Hst Hkid. step_cases Hst.
  - by eapply same_kids.
  - by eapply same_kids.
  - exact Hkid.
  - eapply same_kids; [exact Hs|]. intros acct j o' c child Hj Hc Hin.
    assert (is_ready acct child d) as Hr; [|by apply (ready_insert account acct d i o child)].
    rewrite objects_of_put in Hj. case_decide; [subst acct|by eapply Hkid].
    apply lookup_insert_Some in Hj as [[<- <-]|[_ Hj]]; [by eapply Hkids|by eapply Hkid].
  - intros acct j o' c child Hj Hc Hin. apply ready_with_ready. rewrite objects_of_put in Hj.
    case_decide; [subst acct|by eapply Hkid]. apply lookup_insert_Some in Hj as [[<- <-]|[_ Hj]]; [|by eapply Hkid].
    by eapply (Hkid account i o).
  - eapply same_kids; [exact Hs|]. intros acct j o' c child Hj Hc Hin. destruct Hout as [Hpd|[? _]]; [|done].
    assert (is_ready acct child d) as Hr; [|by apply (ready_remove account acct d i o child)].
    rewrite objects_of_update, objects_of_put in Hj. case_decide; [subst acct|by eapply Hkid].
    apply lookup_delete_Some in Hj as [_ Hj]. by eapply Hkid.
  - intros acct j o' c child. unfold is_ready, objects_of. rewrite Hobj. apply Hkid.
  - eapply same_kids; [exact Hs|]. intros acct j o' c child. unfold is_ready. rewrite !objects_of_drop.
    case_decide; [done|]. apply Hkid.
  - exact Hkid.
Qed.
Lemma steps_kids p d d' : ¬ p_collect p → steps cfg p d d' → kids_inv d → kids_inv d'.
Proof. intros Hp. induction 1; eauto using db_step_kids. Qed.

(** What can be reached from the root is there and readable. *)
Definition tree_inv (d : Db) : Prop := ∀ account x, from_root account d x → is_ready account x d.

Lemma kids_tree d : closed_inv d → kids_inv d → tree_inv d.
Proof.
  intros Hc Hk account x (r & Hr & Hx). apply Hc in Hr. induction Hx as [|u v w Huv _ IH]; [done|]. apply IH.
  destruct Huv as (o & c & Ho & Hch & Hin). by eapply Hk.
Qed.

Lemma from_root_kept account d d' x :
  roots d' = roots d → (∀ i o, objects_of account d !! i = Some o → from_root account d i → objects_of account d' !! i = Some o) →
  (∀ i o, objects_of account d' !! i = Some o → objects_of account d !! i = Some o) →
  from_root account d' x → from_root account d x.
Proof.
  intros Hr _ Hsub (r & Hin & Hx). exists r. unfold root_children in *. rewrite Hr in Hin. split; [done|].
  eapply rtc_subrel; [|exact Hx]. intros u v (o & c & Ho & Hrest). exists o, c. split; [by apply Hsub|done].
Qed.

(** ** Collection *)

(** C11: whatever fails in between, a collection keeps what can be reached from a root and what
    is recent; when it succeeds, it leaves nothing else. Files of the objects that are kept
    stay when no two rows share a blob key, and of the others only recent ones. It is a
    collection with no request in between. *)
Theorem gc_keeps_reachable s now grace :
  saved s = None →
  let '(r, s') := run_gc now grace s in
  roots (db s') = roots (db s)
  ∧ (∀ account i o, objects_of account (db s) !! i = Some o →
       from_root account (db s) i ∨ now - grace < o_created_at_epoch_ms o → objects_of account (db s') !! i = Some o)
  ∧ (∀ report, r = Ok report → ∀ account i o, is_Some (accounts (db s) !! account) →
       objects_of account (db s') !! i = Some o →
       objects_of account (db s) !! i = Some o ∧ (from_root account (db s) i ∨ now - grace < o_created_at_epoch_ms o))
  ∧ (distinct_keys (db s) → ∀ account i o, objects_of account (db s') !! i = Some o →
       blob_there (files s) o → blob_there (files s') o)
  ∧ ∀ report, r = Ok report → ∀ path file, files s' !! path = Some file →
      named (refers (db s')) path ∨ now - grace < f_modified_epoch_ms file.
Proof.
  intros Hs. pose proof (run_gc_run cfg collecting now grace (core s) I I Hs s eq_refl) as Hg.
  destruct (run_gc now grace s) as [r s']. destruct Hg as (_ & _ & [_ Hkeep] & (done & Hup & Hall) & Hclean). simpl in *.
  pose proof Hup as (Hr & _ & Hrows). split; [done|]. split; [|split; [|split; [|done]]].
  - intros account i o Ho Hk. destruct (Hrows account) as [[_ Hc]|[_ ->]]; [by apply Hc|done].
  - intros report Hok account i o Ha Ho. destruct (Hrows account) as [[_ Hc]|[Hn _]]; [by apply Hc|].
    destruct Hn. by eapply Hall.
  - intros Hkeys account i o Ho Hb. pose proof (gc_upto_sub _ _ _ _ _ _ _ Hup Ho) as Ho0. unfold blob_there in *.
    destruct (o_blob_storage_key o) as [k|] eqn:Hk; [|done]. destruct Hb as (file & Hf & Hrest). exists file. split; [|done].
    destruct (Hkeep _ _ Hf) as [?|[(acct & j & o' & k' & Ho' & Hn & Hk' & Hpath)|[Hno _]]]; [done|exfalso..].
    + apply blob_path_inj in Hpath as <-. destruct (Hkeys account i o acct j o' k) as [-> ->]; congruence.
    + apply Hno. exists k. split; [apply strip_blob_key|]. by exists account, i, o.
Qed.

Lemma gc_tree cutoff c r c' : gc_done cfg collecting cutoff c r c' → tree_inv (c_db c) → tree_inv (c_db c').
Proof.
  intros (_ & _ & _ & (done & Hup & _) & _) Ht account x Hx. pose proof Hup as (Hr & _ & Hrows).
  assert (∀ i o, objects_of account (c_db c) !! i = Some o → from_root account (c_db c) i →
            objects_of account (c_db c') !! i = Some o) as Hkeep.
  { intros i o Ho Hi. destruct (Hrows account) as [[_ Hc]|[_ ->]]; [by apply Hc; auto|done]. }
  apply (from_root_kept account (c_db c)) in Hx; [|done|done|by intros i o; apply (gc_upto_sub done cutoff)].
  destruct (Ht account x Hx) as (o & Ho & Hst). exists o. split; [by apply Hkeep|done].
Qed.

(** ** Whole trees *)

Definition perform_all (qs : list Request) (s : Store) : Store := foldl (λ s q, (perform cfg q s).2) s qs.
Definition collects (q : Request) : bool := match q with RqGc _ _ => true | _ => false end.

(** Requests other than collections remove no readable object. *)
Definition uncollected : Perm :=
  {| p_unfair := False; p_ready := True; p_files := True; p_collect := False; p_swap := True; p_drop := λ _, True |}.
Lemma moves_uncollected p c {A} (r : result StoreError A) c' :
  ¬ p_unfair p → ¬ p_collect p → moves cfg p c r c' → steps cfg uncollected (c_db c) (c_db c').
Proof. intros Hu Hc (_ & Hst & _). eapply steps_weaken; [|exact Hst]. by repeat split. Qed.

Lemma perform_uncollected q c :
  collects q = false → c_saved c = None → rows_inv (c_db c) →
  run (perform cfg q) c (λ _ c', c_saved c' = None ∧ steps cfg uncollected (c_db c) (c_db c')).
Proof.
  intros Hq Hc Hrows. destruct (ordinary q) eqn:Ho.
  - eapply run_mono; [apply (Moves_ordinary cfg dropping q Ho); [|done|done]; by intros|].
    intros r c' Hm. split; [apply Hm|]. by eapply (moves_uncollected dropping c r c'); [intros []|intros []|].
  - destruct q; try done; simpl; apply run_ignore.
    + eapply run_mono; [by apply run_create_object|]. intros r c' (Hm & _). split; [apply Hm|].
      by eapply (moves_uncollected storing c r c'); [intros []|intros []|].
    + eapply run_mono; [by apply run_compare_and_swap_root|]. intros r c' (Hs & _ & Hr). split; [done|].
      destruct r as [[root|]|e].
      * destruct Hr as (_ & Hst & _). apply rtc_once. eapply db_step_weaken; [|exact Hst]. by repeat split.
      * destruct Hr as (_ & -> & _). apply rtc_refl.
      * destruct Hr as [Hd _]. by apply rtc_once, step_same.
Qed.

Lemma perform_all_uncollected qs s :
  forallb (λ q, negb (collects q)) qs = true → saved s = None → data_inv (db s) →
  saved (perform_all qs s) = None ∧ steps cfg uncollected (db s) (db (perform_all qs s)).
Proof.
  unfold perform_all. revert s. induction qs as [|q qs IH]; simpl; intros s Hq Hs Hinv.
  - split; [done|apply rtc_refl].
  - apply andb_true_iff in Hq as [Hq Hqs]. apply negb_true_iff in Hq.
    destruct (perform_uncollected q (core s) Hq Hs (proj1 Hinv) s eq_refl) as [Hs1 Hst1]. simpl in *.
    destruct (IH _ Hqs Hs1) as [Hs2 Hst2]; [by eapply steps_data|]. split; [done|]. unfold steps in *. by etrans.
Qed.

(** A store that was started for the first time. *)
Definition started (w : World) : Store := (open cfg (new_store w)).2.
Lemma started_ok w : saved (started w) = None ∧ data_inv (db (started w)) ∧ kids_inv (db (started w)).
Proof.
  destruct (run_open cfg (core (new_store w)) eq_refl (new_store w) eq_refl) as (Hs & _ & Hst & _). split; [exact Hs|].
  split; [eapply steps_data; [exact Hst|exact empty_data_inv]|]. eapply (steps_kids starting); [intros []|exact Hst|].
  intros account i o c child. simpl. by rewrite objects_of_empty.
Qed.

Lemma collections_tree gcs s :
  saved s = None → tree_inv (db s) → tree_inv (db (perform_all ((λ g, RqGc g.1 g.2) <$> gcs) s)).
Proof.
  revert s. induction gcs as [|[now grace] gcs IH]; intros s Hs Ht; [done|].
  pose proof (run_gc_run cfg collecting now grace (core s) I I Hs s eq_refl) as Hg.
  unfold perform_all. simpl. apply IH; unfold ignore; rewrite ST_bind_unfold; destruct (run_gc now grace s) as [[report|e] s']; simpl in *;
    first [exact (gc_tree _ _ _ _ Hg Ht)|apply Hg].
Qed.


(** ** Uploads *)

Lemma run_read_placed o c (Q : _ → _ → Prop) :
  (∀ content, placed (c_files c) o content → Q (Ok content) c) → (∀ e, Q (Err e) c) →
  run (read_placed_ciphertext (o_inline_ciphertext o) (o_blob_storage_key o)) c Q.
Proof.
  intros HO HE. unfold read_placed_ciphertext, placed in *.
  destruct (o_inline_ciphertext o) as [inline|], (o_blob_storage_key o) as [key|]; try (run_step; by auto).
  unfold read_file. run_step. run_skip; run_step; [|apply HE]. run_step. apply run_gets. intros s <-. run_step. run_step.
  destruct (files s !! blob_path key) as [file|] eqn:Hf; simpl; [|apply HE]. apply HO. by exists file.
Qed.

(** What a read returns. *)
Definition reads (account object_id : bytes) (c : Core) (snapshot : AcsObjectSnapshot) : Prop :=
  ∃ o content, objects_of account (c_db c) !! object_id = Some o ∧ o_state o = ObjReady ∧ placed (c_files c) o content
    ∧ len content = o_ciphertext_bytes o ∧ sha256_hex content = o_ciphertext_sha256 o
    ∧ ciphertext_base64url (os_value snapshot) = sv_b64_encode content
    ∧ ciphertext_sha256 (os_value snapshot) = o_ciphertext_sha256 o
    ∧ children_from_json (o_children_json o) = Ok (child_object_ids (os_value snapshot))
    ∧ os_object_id snapshot = object_id ∧ os_created_at_epoch_ms snapshot = o_created_at_epoch_ms o.
Lemma run_read_object account object_id network t t' c :
  run (read_object cfg account object_id network t t') c (λ r c', ∀ snapshot, r = Ok snapshot → reads account object_id c snapshot).
Proof.
  set (Q := λ r c', _). assert (∀ e, Q (Err e) c) as HE by done.
  unfold read_object. run_step. run_step. destruct (validate_opaque_id _ _); run_step; [|done].
  run_step. run_skip; run_step; [|done]. run_step. run_step; run_step; [|done].
  match goal with Hx : match objects_of _ _ !! _ with _ => _ end = Ok _ |- _ => rename Hx into Hfound end.
  destruct (objects_of account (c_db c) !! object_id) as [o|] eqn:Ho; [|injection Hfound as <-; run_step; run_step; done].
  destruct (bool_decide _) eqn:Hst; [|injection Hfound as <-; run_step; run_step; done]. zbool.
  apply bind_Ok in Hfound as (n & [-> _]%row_u64_Ok & [= <-]). run_step. run_step. simpl. run_step.
  apply run_read_placed; [|intros e; run_step; done]. intros content Hplaced. run_step. run_step. run_step.
  destruct (_ && _) eqn:Hok; run_step; [|done]. apply andb_true_iff in Hok as [Hlen Hsha]. zbool.
  run_step. destruct (children_from_json (o_children_json o)) as [ch|] eqn:Hch; simpl; run_step; [|done].
  run_step. run_step. run_skip; run_step; [|done]. run_step. run_skip; run_step; [|done].
  run_step. run_step. run_step. run_step. run_skip; run_step; [|done]. run_step.
  unfold Q. intros snapshot [= <-]. by exists o, content.
Qed.

(** ** Starts *)

(** Steps that swap, delete and collect nothing keep roots, events and ready objects. *)
Definition keeps_ready (d d' : Db) : Prop :=
  roots d' = roots d ∧ root_events d' = root_events d
  ∧ ∀ account i o, objects_of account d !! i = Some o → o_state o = ObjReady → objects_of account d' !! i = Some o.
Lemma keeps_ready_same d d' : same_data d d' → keeps_ready d d'.
Proof.
  intros Hs. pose proof Hs as (_ & Hr & _ & He). split; [done|]. split; [done|]. intros account i o.
  by rewrite (same_objects_of _ _ account Hs).
Qed.
Lemma keeps_ready_put account rows d :
  (∀ i o, objects_of account d !! i = Some o → o_state o = ObjReady → rows !! i = Some o) →
  keeps_ready d (put_objects_of account rows d).
Proof. intros Hrows. split; [done|]. split; [done|]. intros acct i o. rewrite objects_of_put. case_decide; [subst; auto|done]. Qed.
Lemma keeps_ready_trans d d1 d2 : keeps_ready d d1 → keeps_ready d1 d2 → keeps_ready d d2.
Proof. intros (E1 & E2 & E3) (F1 & F2 & F3). split; [congruence|]. split; [congruence|]. auto. Qed.

Lemma db_step_keeps_ready p ceiling d d' :
  ¬ p_swap p → (∀ account, ¬ p_drop p account) → ¬ p_collect p → db_step p ceiling d d' → keeps_ready d d'.
Proof.
  intros Hsw Hdr Hcol Hst. step_cases Hst; try done; try by apply keeps_ready_same.
  - exact (keeps_ready_same _ _ Hs).
  - eapply keeps_ready_trans; [|exact (keeps_ready_same _ _ Hs)].
    eapply (keeps_ready_trans _ (update_account account _ d)); [done|]. apply keeps_ready_put. intros j o' Hj _.
    rewrite lookup_insert_ne; [done|]. intros <-. change (objects_of account d !! i = Some o') in Hj. congruence.
  - apply keeps_ready_put. intros j o' Hj Hr. rewrite lookup_insert. case_decide; [subst|done].
    rewrite Hi in Hj. injection Hj as <-. f_equal. unfold with_ready. rewrite <- Hr. by destruct o.
  - eapply keeps_ready_trans; [|exact (keeps_ready_same _ _ Hs)]. destruct Hout as [Hp|[? _]]; [|done].
    eapply (keeps_ready_trans _ (put_objects_of account (delete i (objects_of account d)) d)); [|done].
    apply keeps_ready_put. intros j o' Hj Hr. rewrite lookup_delete_ne; [done|]. intros <-. congruence.
  - by destruct (Hdr account).
Qed.
Lemma steps_keeps_ready p d d' :
  ¬ p_swap p → (∀ account, ¬ p_drop p account) → ¬ p_collect p → steps cfg p d d' → keeps_ready d d'.
Proof.
  intros Hsw Hdr Hcol. induction 1 as [|d d1 d2 Hstep _ IH]; [done|].
  eapply keeps_ready_trans; [by eapply db_step_keeps_ready|done].
Qed.

(** After a start that succeeds no upload is left half done: every object is ready, and one
    that was not ready before has its blob, of the recorded length and digest. Roots,
    histories and the objects that were ready stay. *)
Theorem start_settles s s' :
  saved s = None → open cfg s = (Ok tt, s') →
  roots (db s') = roots (db s) ∧ root_events (db s') = root_events (db s)
  ∧ (∀ account i o, objects_of account (db s') !! i = Some o →
       o_state o = ObjReady ∧ (objects_of account (db s) !! i = Some o ∨ blob_there (files s') o))
  ∧ ∀ account i o, objects_of account (db s) !! i = Some o → o_state o = ObjReady →
      objects_of account (db s') !! i = Some o.
Proof.
  intros Hs Ho. pose proof (run_open cfg (core s) Hs s eq_refl) as Hopen. rewrite Ho in Hopen.
  destruct Hopen as (_ & Hf & _ & d0 & d1 & d2 & Hs0 & (Hr1 & Ho1 & He1 & _) & Hs2 & Hst & Hfin). simpl in *.
  assert (∀ account, objects_of account d2 = objects_of account (db s)) as Hobj.
  { intros account. rewrite (same_objects_of _ _ account Hs2). unfold objects_of. rewrite Ho1. by destruct Hs0 as (_ & _ & -> & _). }
  assert (roots d2 = roots (db s) ∧ root_events d2 = root_events (db s)) as [Hr2 He2].
  { destruct Hs2 as (_ & -> & _ & ->), Hs0 as (_ & E1 & _ & E2). by rewrite Hr1, He1. }
  destruct (steps_keeps_ready settling d2 (db s')) as (Er & Ee & Eo); [by intros []|by intros ? []|by intros []|done|].
  split; [congruence|]. split; [congruence|]. split.
  - intros account i o Hi. destruct (Hfin account i o Hi) as [Hready Hor]. split; [done|].
    rewrite Hf. by rewrite Hobj in Hor.
  - intros account i o Hi Hready. apply Eo; [by rewrite Hobj|done].
Qed.
End objects.
