(* ===== verification/AcsAnswers.v ===== *)
(** * The cloud server answers when nothing fails

    With no failing statement or file operation ahead, an account that may be read gets its
    objects and its events: what was stored reads back, and a stream starts. *)

From Stdlib Require Import Strings.Byte.
From stdpp Require Import base gmap list strings sorting relations.
From S2P Require Import Prelude CloudRecords AcsContracts CloudAcs AcsLimits AcsStoreState AcsStore AcsGc AcsAuth.
From S2P Require Import AcsStoreRun AcsStoreInv AcsStoreSteps AcsGcSteps AcsStoreOpen AcsStoreCorrect AcsServer AcsObjects.

Local Open Scope Z_scope.

(** ** Steps that do not fail *)

(** Nothing is going to fail. *)
Definition calm (w : World) : Prop := w_sql w = [] ∧ w_io w = [].

Lemma put_world_same s : put_world (world s) s = s.
Proof. by destruct s. Qed.
Lemma statement_calm s : calm (world s) → statement s = (Ok tt, s).
Proof. intros [Hq _]. unfold statement, pop_sql. rewrite Hq. by rewrite put_world_same. Qed.
Lemma file_step_calm t s : calm (world s) → file_step t s = (Ok tt, s).
Proof. intros [_ Hi]. unfold file_step, pop_io. rewrite Hi. by rewrite put_world_same. Qed.
Lemma query_calm {A} (f : Db → A) s : calm (world s) → query f s = (Ok (f (db s)), s).
Proof. intros Hc. unfold query. by rewrite ST_bind_unfold, statement_calm. Qed.
Lemma try_query_calm {A} `{ServerLibs} (f : Db → result bytes A) a s :
  calm (world s) → f (db s) = Ok a → try_query f s = (Ok a, s).
Proof. intros Hc Hf. unfold try_query. rewrite ST_bind_unfold, statement_calm by done. rewrite ST_bind_unfold. simpl. by rewrite Hf. Qed.
Lemma lift_Ok {A} (r : result StoreError A) a s : r = Ok a → lift r s = (Ok a, s).
Proof. by intros ->. Qed.

Lemma row_u64_fits `{ServerLibs} z : 0 ≤ z ≤ i64_max → row_u64 z = Ok z ∧ param_u64 z = Ok z.
Proof. intros Hz. unfold row_u64, param_u64. destruct (_ || _) eqn:Hb; [zbool; lia|done]. Qed.
Lemma try_map_all {A B E} (f : A → result E B) l :
  (∀ x, x ∈ l → ∃ y, f x = Ok y) → ∃ l', try_map f l = Ok l'.
Proof.
  induction l as [|x l IH]; intros Hf; [by exists []|]. destruct (Hf x) as [y Hy]; [left|].
  destruct IH as [l' Hl]; [intros z Hz; apply Hf; by right|]. exists (y :: l'). simpl. rewrite Hy. simpl. by rewrite Hl.
Qed.

Lemma mode_parse_str m : mode_parse (mode_str m) = Ok m.
Proof. by destruct m. Qed.

Section answers.
Context `{ServerLaws} (cfg : StoreConfig).

(** Neither the service nor the account is suspended. *)
Definition readable (account : bytes) (d : Db) : Prop :=
  (∃ m, service_mode d = Some (mode_str m) ∧ m ≠ ModeSuspended)
  ∧ ∃ a m, accounts d !! account = Some a ∧ a_mode a = mode_str m ∧ m ≠ ModeSuspended.

Lemma enforce_reads m subject : m ≠ ModeSuspended → enforce_mode m false subject = Ok tt.
Proof. by destruct m. Qed.

Lemma ensure_readable_calm account s :
  calm (world s) → readable account (db s) → ensure_account_readable account s = (Ok tt, s).
Proof.
  intros Hc [(m & Hm & Hms) (a & ma & Ha & Hma & Hmas)].
  assert (select_service_mode s = (Ok m, s)) as Hservice.
  { unfold select_service_mode. rewrite ST_bind_unfold, (try_query_calm _ (mode_str m)) by (done || by rewrite Hm).
    by rewrite (lift_Ok _ m) by apply mode_parse_str. }
  assert (select_account_mode account s = (Ok ma, s)) as Haccount.
  { unfold select_account_mode. rewrite ST_bind_unfold, query_calm by done. rewrite ST_bind_unfold, Ha.
    simpl. rewrite Hma. apply lift_Ok, mode_parse_str. }
  unfold ensure_account_readable, account_readable. rewrite at_once_bind, ST_bind_unfold, at_once_select, Hservice.
  rewrite at_once_bind, ST_bind_unfold, at_once_done, enforce_reads by done.
  rewrite at_once_bind, ST_bind_unfold, at_once_select, Haccount. by rewrite at_once_done, enforce_reads.
Qed.

(** ** Objects *)

Lemma read_placed_calm o content s :
  calm (world s) → placed (files s) o content →
  read_placed_ciphertext (o_inline_ciphertext o) (o_blob_storage_key o) s = (Ok content, s).
Proof.
  intros Hc Hp. unfold placed in Hp. unfold read_placed_ciphertext.
  destruct (o_inline_ciphertext o) as [inline|], (o_blob_storage_key o) as [key|]; try done; [by subst|].
  destruct Hp as (file & Hf & <-). unfold read_file. rewrite ST_bind_unfold, file_step_calm by done.
  rewrite ST_bind_unfold. simpl. by rewrite Hf.
Qed.

(** An answer of this size is admitted now. *)
Definition egress_open (account network : bytes) (now : Z) (s : Store) (size : result bytes Z) : Prop :=
  ∃ n, size = Ok n ∧ (admit_egress cfg account network n now s).1 = Ok tt.

Lemma read_object_calm account object_id network t t' o content children s :
  calm (world s) → readable account (db s) → validate_opaque_id object_id (bs "object ID") = Ok tt →
  objects_of account (db s) !! object_id = Some o → o_state o = ObjReady → placed (files s) o content →
  len content = o_ciphertext_bytes o → len content ≤ i64_max → sha256_hex content = o_ciphertext_sha256 o →
  children_from_json (o_children_json o) = Ok children →
  (∀ snapshot, egress_open account network t s (object_json_bytes snapshot)) →
  ∃ snapshot, (read_object cfg account object_id network t t' s).1 = Ok snapshot.
Proof.
  intros Hc Hr Hid Ho Hst Hp Hlen Hmax Hsha Hch Hout. unfold read_object.
  rewrite ST_bind_unfold, (lift_Ok _ tt) by done. rewrite ST_bind_unfold, ensure_readable_calm by done.
  rewrite ST_bind_unfold, (try_query_calm _ (Some (o, len content))).
  2: done.
  2: { rewrite Ho, bool_decide_eq_true_2 by done. rewrite <- Hlen. destruct (row_u64_fits (len content)) as [-> _]; [|done].
       pose proof (len_nonneg content). lia. }
  rewrite ST_bind_unfold. simpl. rewrite ST_bind_unfold, (read_placed_calm o content) by done.
  rewrite ST_bind_unfold, Z.eqb_refl, bool_decide_eq_true_2 by done. simpl. rewrite ST_bind_unfold, Hch. simpl.
  match goal with |- context [object_json_bytes ?x] => destruct (Hout x) as (n & Hn & Hadmit) end.
  rewrite ST_bind_unfold. unfold response_bytes. rewrite Hn. simpl. rewrite ST_bind_unfold.
  destruct (admit_egress cfg account network n t s) as [r s1]. simpl in Hadmit. subst r. by eexists.
Qed.

Lemma create_validates account object_id v now s x s1 :
  create_object cfg account object_id v now s = (Ok x, s1) → validate_opaque_id object_id (bs "object ID") = Ok tt.
Proof.
  unfold create_object, create_object_row. intros (p & s2 & Hrow & _)%ST_bind_Ok.
  do 2 apply ST_bind_Ok in Hrow as (? & ? & _ & Hrow). apply ST_bind_Ok in Hrow as ([] & ? & Hv & _). by injection Hv.
Qed.

(** An object that was created is found again, and reads back as it was sent. *)
Theorem create_then_read s account object_id v now s1 w network t t' :
  saved s = None → rows_inv (db s) →
  create_object cfg account object_id v now s = (Ok OutcomeCreated, s1) →
  (∀ content, ciphertext sv_b64_decode v = Ok content → len content ≤ i64_max) →
  calm w → readable account (db s1) →
  (∀ snapshot, egress_open account network t (put_world w s1) (object_json_bytes snapshot)) →
  ∃ snapshot, (read_object cfg account object_id network t t' (put_world w s1)).1 = Ok snapshot
    ∧ ciphertext sv_b64_decode (os_value snapshot) = ciphertext sv_b64_decode v
    ∧ ciphertext_sha256 (os_value snapshot) = ciphertext_sha256 v
    ∧ child_object_ids (os_value snapshot) = child_object_ids v
    ∧ os_object_id snapshot = object_id ∧ os_created_at_epoch_ms snapshot = now.
Proof.
  intros Hs Hrows Hc Hsize Hcalm Hread Hout. pose proof (create_validates _ _ _ _ _ _ _ Hc) as Hid.
  pose proof (run_create_object cfg account object_id v now (core s) Hs Hrows s eq_refl) as Hd. rewrite Hc in Hd.
  destruct Hd as (_ & _ & _ & hash & place & o & content0 & _ & Hrow & Hct0 & Ho & Hpl). simpl in Ho, Hpl.
  destruct Hrow as (content & json & Hct & Hjson & Hsha & ->). rewrite Hct in Hct0. injection Hct0 as <-.
  destruct (read_object_calm account object_id network t t' (with_ready (object_row v hash content json now place))
    content (child_object_ids v) (put_world w s1)) as [snapshot Hsnap]; try done; [by apply Hsize|by apply children_round|].
  exists snapshot. split; [done|].
  pose proof (run_read_object cfg account object_id network t t' (core s1) (put_world w s1) eq_refl snapshot Hsnap)
    as (o' & content' & Ho' & _ & Hplaced & _ & _ & Eb & Es & Ech & Ei & Et).
  simpl in Ho'. rewrite Ho in Ho'. injection Ho' as <-. simpl in *. split; [|split; [done|split; [|done]]].
  - unfold ciphertext at 1. rewrite Eb, b64_round. simpl. rewrite Hct. f_equal. unfold placed in Hplaced, Hpl. simpl in Hplaced, Hpl.
    destruct place as [key|]; [|congruence].
    destruct Hplaced as (file & Hf & <-), Hpl as (file' & Hf' & <-). congruence.
  - rewrite (children_round _ _ Hjson) in Ech. by injection Ech.
Qed.

(** ** Streams *)

Lemma current_event_calm account h s :
  calm (world s) → rows_inv (db s) → history (db s) account h → len h ≤ i64_max → is_Some (accounts (db s) !! account) →
  at_once (current_event_state account) s = (Ok (len h, len h, last h), s).
Proof.
  intros Hc [_ Hroots] (Ha & Hr & _) Hmax [a Hacc]. rewrite Hacc in Ha. pose proof (len_nonneg h).
  unfold current_event_state. rewrite at_once_bind, ST_bind_unfold, at_once_select.
  unfold select_event_sequence. rewrite (try_query_calm _ (Some (len h))).
  2: done.
  2: { rewrite Hacc, Ha. by destruct (row_u64_fits (len h)) as [-> _]. }
  rewrite at_once_bind, ST_bind_unfold, at_once_done. cbn [ok_or]. rewrite at_once_bind, ST_bind_unfold, at_once_select. unfold read_root_row.
  destruct (roots (db s) !! account) as [r|] eqn:Hroot.
  - destruct Hr as [Hrev Hlast]. destruct (Hroots account r Hroot) as [_ [ch Hch]].
    destruct (root_snapshot r) as [snapshot|] eqn:Hsnap.
    + rewrite (try_query_calm _ (Some snapshot)) by (done || by rewrite Hroot, Hsnap).
      destruct (root_snapshot_Ok _ _ Hsnap) as (E1 & E2 & _). simpl. by rewrite E1, E2, Hrev, Hlast.
    + unfold root_snapshot in Hsnap. rewrite (children_round _ _ Hch), Hrev in Hsnap. simpl in Hsnap.
      by destruct (row_u64_fits (len h)) as [E _]; [lia|]; rewrite E in Hsnap.
  - rewrite (try_query_calm _ None) by (done || by rewrite Hroot). by subst h.
Qed.

Lemma event_state_calm account h lo n s :
  calm (world s) → retained h lo (events_of account (db s)) → len h ≤ i64_max → n = 0 ∨ lo ≤ n ≤ len h → 1 ≤ lo →
  ∃ x, at_once (event_state_at account n) s = (Ok x, s).
Proof.
  intros Hc Hm Hmax Hn Hlo. unfold event_state_at. destruct (n =? 0) eqn:Hz; zbool; [by eexists|].
  destruct (last_retained h lo (events_of account (db s)) Hm n) as (e & He & Hr & _); [lia|].
  rewrite at_once_bind, ST_bind_unfold, at_once_select. unfold select_event_at.
  rewrite (try_query_calm _ (Some (n, Some (e_root_hash e)))); [by eexists|done|].
  destruct (row_u64_fits n) as [E1 E2]; [lia|]. rewrite E2. simpl. rewrite He, Hr. simpl. by rewrite E1.
Qed.

Lemma later_calm h lo n m :
  retained h lo m → 1 ≤ lo → len h ≤ i64_max →
  ∃ evs, try_map event_of_row (events_in_order (filter (λ kv, n < kv.1) m)) = Ok evs.
Proof.
  intros Hm Hlo Hmax. apply try_map_all. intros [k e] Hk. unfold events_in_order in Hk. rewrite merge_sort_Permutation in Hk.
  apply elem_of_map_to_list, map_lookup_filter_Some in Hk as [Hk _]. specialize (Hm k). rewrite Hk in Hm.
  destruct Hm as (Hr & Hrev & _). unfold event_of_row. simpl. destruct (row_u64_fits k) as [E _]; [lia|].
  rewrite Hrev, E. simpl. by eexists.
Qed.

Lemma initial_events_calm account h cursor s :
  calm (world s) → readable account (db s) → rows_inv (db s) → history (db s) account h → len h ≤ i64_max →
  (∀ n, cursor = Some n → 0 ≤ n) → ∃ evs, (at_once (initial_sse_events account cursor) s).1 = Ok evs.
Proof.
  intros Hc Hr Hrows Hh Hmax Hcur. unfold initial_sse_events. rewrite at_once_bind, ST_bind_unfold.
  change (at_once (account_readable account)) with (ensure_account_readable account). rewrite ensure_readable_calm by done.
  rewrite at_once_bind, ST_bind_unfold, (current_event_calm account h); [|done..|by destruct Hr as [_ (a & ? & -> & _)]].
  destruct cursor as [n|]; [|by eexists]. specialize (Hcur n eq_refl). cbv beta iota zeta.
  destruct Hh as (_ & _ & lo & Hlo & Hm). change (retained h lo (events_of account (db s))) in Hm.
  destruct (n >? len h) eqn:Hn; zbool; [by eexists|].
  set (smallest := if decide (lo ≤ len h) then Some lo else None).
  assert (min_sequence (events_of account (db s)) = smallest) as Hmin.
  { unfold smallest. case_decide; [eapply min_retained|eapply min_empty]; (done || lia). }
  rewrite at_once_bind, ST_bind_unfold, at_once_select. unfold select_minimum_retained. rewrite (try_query_calm _ smallest).
  2: done.
  2: { rewrite Hmin. unfold smallest. case_decide; [|done]. by destruct (row_u64_fits lo) as [-> _]; [lia|]. }
  case_match eqn:Hreset; [by eexists|].
  assert (n = 0 ∨ lo ≤ n ≤ len h) as Hat by (unfold smallest in Hreset; case_decide; lia).
  destruct (event_state_calm account h lo n s) as [x Hx]; [done|done|done|done|lia|].
  destruct (later_calm h lo n (events_of account (db s))) as [evs Hevs]; [done|lia|done|].
  rewrite at_once_bind, ST_bind_unfold, Hx, at_once_bind, ST_bind_unfold, at_once_select. unfold select_later_events.
  rewrite (try_query_calm _ evs); [by eexists|done|].
  by destruct (row_u64_fits n) as [_ ->]; [lia|].
Qed.

(** With nothing between its statements, a stream that starts from a cursor gets every
    change after it, in order, or is told that the cursor is unknown or no longer retained;
    and when nothing fails it starts. *)
Theorem stream_replays l account w cursor commits s :
  1 ≤ event_retention cfg → PhRequest (RqDelete account) ∉ l → (∀ n, cursor = Some n → 0 ≤ n) →
  run_phases cfg l (new_store w) = (commits, s) →
  let h := (filter (λ ah, ah.1 = account) commits).*2 in
  (∀ evs, (at_once (initial_sse_events account cursor) s).1 = Ok evs →
     stream_start h (λ k, is_Some (events_of account (db s) !! k)) cursor evs)
  ∧ ∀ w', calm w' → readable account (db s) → len h ≤ i64_max →
      ∃ evs, (at_once (initial_sse_events account cursor) (put_world w' s)).1 = Ok evs.
Proof.
  intros Hret Hdel Hcur Hl.
  pose proof (run_phases_history cfg Hret l account [] (new_store w) eq_refl empty_data_inv (empty_history account) Hdel) as Hrun.
  rewrite Hl in Hrun. destruct Hrun as (_ & Hd & Hh'). split.
  - intros evs Hevs. destruct (run_initial_sse_events account _ cursor (core s) Hh' Hcur s eq_refl) as [_ Hst]. by apply Hst.
  - intros w' Hw Hr Hmax. by eapply initial_events_calm; [| |apply Hd|exact Hh'| |].
Qed.
End answers.
