(* ===== verification/AcsPolicy.v ===== *)
(** * The runtime policy of the cloud server (aerobag-cloud-server/src/policy.rs)

    The limits an operator writes down, their validation, and the configuration of the store
    made from them. A validated policy is one the store starts with. *)

From Stdlib Require Import Strings.Byte.
From stdpp Require Import base gmap list strings.
From S2P Require Import Prelude CloudRecords AcsContracts CloudAcs AcsLimits AcsStoreState AcsStore AcsAuth.
From S2P Require Import AcsStoreRun AcsStoreInv AcsStoreSteps AcsStoreCorrect AcsServer AcsAnswers.

Local Open Scope Z_scope.

Definition ACS_POLICY_SCHEMA_VERSION : Z := 3.

Record RequestPolicy := { rp_max_body_bytes : Z; rp_max_concurrent_requests : Z; rp_max_target_bytes : Z }.
Record StoragePolicy := {
  sp_anonymous_account_quota_bytes : Z; sp_anonymous_account_object_limit : Z; sp_global_storage_limit_bytes : Z;
  sp_inline_ciphertext_threshold_bytes : Z; sp_retained_sse_events : Z; sp_write_resume_headroom_bytes : Z;
  sp_write_resume_min_filesystem_free_bytes : Z }.
Record TokenBucketPolicy := { tb_capacity : Z; tb_refill_amount : Z; tb_refill_period_seconds : Z }.
Record RateLimitPolicy := {
  rl_account_creation_per_network : TokenBucketPolicy; rl_account_creation_global : TokenBucketPolicy;
  rl_operations_global : TokenBucketPolicy; rl_operations_per_network : TokenBucketPolicy;
  rl_operations_per_account : TokenBucketPolicy; rl_ingress_bytes_global : TokenBucketPolicy;
  rl_ingress_bytes_per_network : TokenBucketPolicy; rl_ingress_bytes_per_account : TokenBucketPolicy;
  rl_egress_bytes_global : TokenBucketPolicy; rl_egress_bytes_per_network : TokenBucketPolicy;
  rl_egress_bytes_per_account : TokenBucketPolicy }.
Record SsePolicy := {
  ss_max_connections_global : Z; ss_max_connections_per_account : Z; ss_max_connections_per_network : Z }.
Record GarbageCollectionPolicy := { gp_interval_seconds : Z; gp_orphan_grace_seconds : Z }.
Record BackupPolicy := { bp_interval_seconds : Z; bp_retained_snapshots : Z }.
Record MonitoringPolicy := {
  mp_stored_bytes_warning : Z; mp_stored_bytes_critical : Z; mp_filesystem_free_bytes_warning : Z;
  mp_filesystem_free_bytes_critical : Z; mp_sse_connections_warning : Z; mp_sse_connections_critical : Z;
  mp_gc_database_pause_ms_warning : Z; mp_gc_database_pause_ms_critical : Z; mp_gc_elapsed_ms_warning : Z;
  mp_gc_elapsed_ms_critical : Z; mp_backup_age_seconds_warning : Z; mp_backup_age_seconds_critical : Z;
  mp_backup_elapsed_ms_warning : Z; mp_backup_elapsed_ms_critical : Z; mp_backup_sqlite_snapshot_ms_warning : Z;
  mp_backup_sqlite_snapshot_ms_critical : Z; mp_backup_wal_growth_bytes_warning : Z;
  mp_backup_wal_growth_bytes_critical : Z; mp_backup_linked_blob_count_warning : Z;
  mp_backup_linked_blob_count_critical : Z; mp_backup_linked_blob_bytes_warning : Z;
  mp_backup_linked_blob_bytes_critical : Z }.
Record AcsRuntimePolicy := {
  policy_schema_version : Z; trusted_proxy_ips : list IpAddr; policy_request : RequestPolicy; policy_storage : StoragePolicy;
  policy_rate_limits : RateLimitPolicy; policy_sse : SsePolicy; garbage_collection : GarbageCollectionPolicy;
  policy_backup : BackupPolicy; policy_monitoring : MonitoringPolicy }.

(** ** Validation *)

Abbreviation Checked := (result bytes unit).

Definition positive (label : bytes) (value : Z) : Checked := guard_err (value =? 0) (label ++ bs " must be positive").

Definition bucket_policy_validate (label : bytes) (b : TokenBucketPolicy) : Checked :=
  _ ← positive (label ++ bs ".capacity") (tb_capacity b);
  _ ← positive (label ++ bs ".refill_amount") (tb_refill_amount b);
  _ ← positive (label ++ bs ".refill_period_seconds") (tb_refill_period_seconds b);
  refill_period_ms ← ok_or (checked_mul u64_max (tb_refill_period_seconds b) 1000)
                       (label ++ bs " refill period overflows milliseconds");
  _ ← ok_or (checked_mul u64_max (tb_capacity b) refill_period_ms) (label ++ bs " values overflow");
  Ok tt.

Definition validate_thresholds (label : bytes) (warning critical hard : Z) : Checked :=
  _ ← positive (label ++ bs "_warning") warning;
  guard_err ((warning >=? critical) || (critical >=? hard))
    (label ++ bs " thresholds must satisfy warning < critical < hard limit").
Definition validate_low_thresholds (label : bytes) (warning critical : Z) : Checked :=
  _ ← positive (label ++ bs "_critical") critical;
  guard_err (warning <=? critical) (label ++ bs " thresholds must satisfy warning > critical").
Definition validate_pair (label : bytes) (warning critical : Z) : Checked :=
  _ ← positive (label ++ bs "_warning") warning;
  guard_err (warning >=? critical) (label ++ bs " thresholds must satisfy warning < critical").

(** [usize::try_from] *)
Definition fits_platform (label : bytes) (value : Z) : Checked :=
  _ ← ok_or (try_into usize_max value) (label ++ bs " exceeds this platform"); Ok tt.

(** [for x in l { check(x)?; }] *)
Fixpoint check_all {A} (check : A → Checked) (l : list A) : Checked :=
  match l with [] => Ok tt | x :: l => _ ← check x; check_all check l end.

Definition rate_limit_buckets (l : RateLimitPolicy) : list (bytes * TokenBucketPolicy) :=
  [(bs "rate_limits.account_creation_per_network", rl_account_creation_per_network l);
   (bs "rate_limits.account_creation_global", rl_account_creation_global l);
   (bs "rate_limits.operations_global", rl_operations_global l);
   (bs "rate_limits.operations_per_network", rl_operations_per_network l);
   (bs "rate_limits.operations_per_account", rl_operations_per_account l);
   (bs "rate_limits.ingress_bytes_global", rl_ingress_bytes_global l);
   (bs "rate_limits.ingress_bytes_per_network", rl_ingress_bytes_per_network l);
   (bs "rate_limits.ingress_bytes_per_account", rl_ingress_bytes_per_account l);
   (bs "rate_limits.egress_bytes_global", rl_egress_bytes_global l);
   (bs "rate_limits.egress_bytes_per_network", rl_egress_bytes_per_network l);
   (bs "rate_limits.egress_bytes_per_account", rl_egress_bytes_per_account l)].
Definition backup_thresholds (m : MonitoringPolicy) : list (bytes * Z * Z) :=
  [(bs "monitoring.backup_age_seconds", mp_backup_age_seconds_warning m, mp_backup_age_seconds_critical m);
   (bs "monitoring.backup_elapsed_ms", mp_backup_elapsed_ms_warning m, mp_backup_elapsed_ms_critical m);
   (bs "monitoring.backup_sqlite_snapshot_ms", mp_backup_sqlite_snapshot_ms_warning m, mp_backup_sqlite_snapshot_ms_critical m);
   (bs "monitoring.backup_wal_growth_bytes", mp_backup_wal_growth_bytes_warning m, mp_backup_wal_growth_bytes_critical m);
   (bs "monitoring.backup_linked_blob_count", mp_backup_linked_blob_count_warning m, mp_backup_linked_blob_count_critical m);
   (bs "monitoring.backup_linked_blob_bytes", mp_backup_linked_blob_bytes_warning m, mp_backup_linked_blob_bytes_critical m)].

Definition validate_policy (p : AcsRuntimePolicy) : Checked :=
  let r := policy_request p in let s := policy_storage p in let e := policy_sse p in let m := policy_monitoring p in
  _ ← guard_err (negb (policy_schema_version p =? ACS_POLICY_SCHEMA_VERSION))
        (bs "unsupported ACS policy schema " ++ dec (policy_schema_version p) ++ bs "; expected " ++ dec ACS_POLICY_SCHEMA_VERSION);
  _ ← positive (bs "request.max_body_bytes") (rp_max_body_bytes r);
  _ ← positive (bs "request.max_concurrent_requests") (rp_max_concurrent_requests r);
  _ ← positive (bs "request.max_target_bytes") (rp_max_target_bytes r);
  _ ← fits_platform (bs "request.max_body_bytes") (rp_max_body_bytes r);
  _ ← fits_platform (bs "request.max_concurrent_requests") (rp_max_concurrent_requests r);
  _ ← fits_platform (bs "request.max_target_bytes") (rp_max_target_bytes r);
  _ ← positive (bs "storage.anonymous_account_quota_bytes") (sp_anonymous_account_quota_bytes s);
  _ ← positive (bs "storage.anonymous_account_object_limit") (sp_anonymous_account_object_limit s);
  _ ← positive (bs "storage.global_storage_limit_bytes") (sp_global_storage_limit_bytes s);
  _ ← positive (bs "storage.inline_ciphertext_threshold_bytes") (sp_inline_ciphertext_threshold_bytes s);
  _ ← positive (bs "storage.retained_sse_events") (sp_retained_sse_events s);
  _ ← positive (bs "storage.write_resume_headroom_bytes") (sp_write_resume_headroom_bytes s);
  _ ← positive (bs "storage.write_resume_min_filesystem_free_bytes") (sp_write_resume_min_filesystem_free_bytes s);
  _ ← guard_err (sp_anonymous_account_quota_bytes s >? sp_global_storage_limit_bytes s)
        (bs "anonymous account quota exceeds the global storage limit");
  _ ← guard_err (sp_write_resume_headroom_bytes s >=? sp_global_storage_limit_bytes s)
        (bs "write resume headroom must be below the global storage limit");
  _ ← check_all (λ lb, bucket_policy_validate lb.1 lb.2) (rate_limit_buckets (policy_rate_limits p));
  _ ← positive (bs "sse.max_connections_global") (ss_max_connections_global e);
  _ ← positive (bs "sse.max_connections_per_account") (ss_max_connections_per_account e);
  _ ← positive (bs "sse.max_connections_per_network") (ss_max_connections_per_network e);
  _ ← guard_err ((ss_max_connections_per_account e >? ss_max_connections_global e)
                 || (ss_max_connections_per_network e >? ss_max_connections_global e))
        (bs "per-account/per-network SSE limits must not exceed the global SSE limit");
  _ ← positive (bs "garbage_collection.interval_seconds") (gp_interval_seconds (garbage_collection p));
  _ ← positive (bs "backup.interval_seconds") (bp_interval_seconds (policy_backup p));
  _ ← positive (bs "backup.retained_snapshots") (bp_retained_snapshots (policy_backup p));
  _ ← guard_err (mp_backup_age_seconds_warning m <? bp_interval_seconds (policy_backup p))
        (bs "backup age warning must not be shorter than the backup interval");
  _ ← validate_thresholds (bs "monitoring.stored_bytes") (mp_stored_bytes_warning m) (mp_stored_bytes_critical m)
        (sp_global_storage_limit_bytes s);
  _ ← validate_low_thresholds (bs "monitoring.filesystem_free_bytes") (mp_filesystem_free_bytes_warning m)
        (mp_filesystem_free_bytes_critical m);
  _ ← validate_thresholds (bs "monitoring.sse_connections") (mp_sse_connections_warning m) (mp_sse_connections_critical m)
        (ss_max_connections_global e);
  _ ← validate_pair (bs "monitoring.gc_database_pause_ms") (mp_gc_database_pause_ms_warning m) (mp_gc_database_pause_ms_critical m);
  _ ← validate_pair (bs "monitoring.gc_elapsed_ms") (mp_gc_elapsed_ms_warning m) (mp_gc_elapsed_ms_critical m);
  check_all (λ lwc, validate_pair lwc.1.1 lwc.1.2 lwc.2) (backup_thresholds m).

(** ** Configuration *)

(** [From<TokenBucketPolicy>]; [saturating_mul(1_000)] *)
Definition bucket_of_policy (b : TokenBucketPolicy) : TokenBucketConfig :=
  {| capacity := tb_capacity b; refill_amount := tb_refill_amount b;
     refill_period_ms := Z.min (tb_refill_period_seconds b * 1000) u64_max |}.

Definition store_config (p : AcsRuntimePolicy) (root : bytes) : StoreConfig :=
  {| storage_root := root;
     anonymous_quota_bytes := sp_anonymous_account_quota_bytes (policy_storage p);
     anonymous_object_limit := sp_anonymous_account_object_limit (policy_storage p);
     global_storage_limit_bytes := sp_global_storage_limit_bytes (policy_storage p);
     inline_threshold_bytes := sp_inline_ciphertext_threshold_bytes (policy_storage p);
     event_retention := sp_retained_sse_events (policy_storage p);
     global_operation_bucket := bucket_of_policy (rl_operations_global (policy_rate_limits p));
     network_operation_bucket := bucket_of_policy (rl_operations_per_network (policy_rate_limits p));
     account_operation_bucket := bucket_of_policy (rl_operations_per_account (policy_rate_limits p));
     global_ingress_bucket := bucket_of_policy (rl_ingress_bytes_global (policy_rate_limits p));
     network_ingress_bucket := bucket_of_policy (rl_ingress_bytes_per_network (policy_rate_limits p));
     account_ingress_bucket := bucket_of_policy (rl_ingress_bytes_per_account (policy_rate_limits p));
     global_egress_bucket := bucket_of_policy (rl_egress_bytes_global (policy_rate_limits p));
     network_egress_bucket := bucket_of_policy (rl_egress_bytes_per_network (policy_rate_limits p));
     account_egress_bucket := bucket_of_policy (rl_egress_bytes_per_account (policy_rate_limits p));
     global_sse_limit := ss_max_connections_global (policy_sse p);
     account_sse_limit := ss_max_connections_per_account (policy_sse p);
     network_sse_limit := ss_max_connections_per_network (policy_sse p);
     creation_network_bucket := bucket_of_policy (rl_account_creation_per_network (policy_rate_limits p));
     creation_global_bucket := bucket_of_policy (rl_account_creation_global (policy_rate_limits p));
     stored_bytes_warning := mp_stored_bytes_warning (policy_monitoring p);
     stored_bytes_critical := mp_stored_bytes_critical (policy_monitoring p);
     filesystem_free_bytes_warning := mp_filesystem_free_bytes_warning (policy_monitoring p);
     filesystem_free_bytes_critical := mp_filesystem_free_bytes_critical (policy_monitoring p);
     sse_connections_warning := mp_sse_connections_warning (policy_monitoring p);
     sse_connections_critical := mp_sse_connections_critical (policy_monitoring p);
     gc_database_pause_ms_warning := mp_gc_database_pause_ms_warning (policy_monitoring p);
     gc_database_pause_ms_critical := mp_gc_database_pause_ms_critical (policy_monitoring p);
     gc_elapsed_ms_warning := mp_gc_elapsed_ms_warning (policy_monitoring p);
     gc_elapsed_ms_critical := mp_gc_elapsed_ms_critical (policy_monitoring p);
     write_resume_headroom_bytes := sp_write_resume_headroom_bytes (policy_storage p);
     write_resume_min_filesystem_free_bytes := sp_write_resume_min_filesystem_free_bytes (policy_storage p);
     backup_interval_seconds := bp_interval_seconds (policy_backup p);
     backup_retained_snapshots := bp_retained_snapshots (policy_backup p);
     backup_age_seconds_warning := mp_backup_age_seconds_warning (policy_monitoring p);
     backup_age_seconds_critical := mp_backup_age_seconds_critical (policy_monitoring p);
     backup_elapsed_ms_warning := mp_backup_elapsed_ms_warning (policy_monitoring p);
     backup_elapsed_ms_critical := mp_backup_elapsed_ms_critical (policy_monitoring p);
     backup_sqlite_snapshot_ms_warning := mp_backup_sqlite_snapshot_ms_warning (policy_monitoring p);
     backup_sqlite_snapshot_ms_critical := mp_backup_sqlite_snapshot_ms_critical (policy_monitoring p);
     backup_wal_growth_bytes_warning := mp_backup_wal_growth_bytes_warning (policy_monitoring p);
     backup_wal_growth_bytes_critical := mp_backup_wal_growth_bytes_critical (policy_monitoring p);
     backup_linked_blob_count_warning := mp_backup_linked_blob_count_warning (policy_monitoring p);
     backup_linked_blob_count_critical := mp_backup_linked_blob_count_critical (policy_monitoring p);
     backup_linked_blob_bytes_warning := mp_backup_linked_blob_bytes_warning (policy_monitoring p);
     backup_linked_blob_bytes_critical := mp_backup_linked_blob_bytes_critical (policy_monitoring p) |}.

(** ** A validated policy starts *)

(** The numbers of the policy that reach the store's arithmetic, at their width. *)
Definition bucket_policy_u64 (b : TokenBucketPolicy) : Prop :=
  in_u64 (tb_capacity b) ∧ in_u64 (tb_refill_amount b) ∧ in_u64 (tb_refill_period_seconds b).
Definition policy_u64 (p : AcsRuntimePolicy) : Prop :=
  in_u64 (sp_global_storage_limit_bytes (policy_storage p)) ∧ in_u64 (sp_retained_sse_events (policy_storage p))
  ∧ in_u64 (sp_anonymous_account_quota_bytes (policy_storage p))
  ∧ ∀ label b, (label, b) ∈ rate_limit_buckets (policy_rate_limits p) → bucket_policy_u64 b.

Lemma check_all_Ok {A} (check : A → Checked) l u : check_all check l = Ok u → ∀ x, x ∈ l → check x = Ok tt.
Proof.
  induction l as [|y l IH]; simpl; [by intros _ x ?%not_elem_of_nil|]. intros ([] & Hy & Hl)%bind_Ok x [->|Hx]%elem_of_cons; auto.
Qed.

Lemma bucket_policy_ok label b u :
  bucket_policy_u64 b → bucket_policy_validate label b = Ok u → bucket_ok (bucket_of_policy b).
Proof.
  intros (Hc & Ha & Hp). unfold bucket_policy_validate, positive, in_u64 in *.
  intros (? & H1%guard_err_Ok & H)%bind_Ok. apply bind_Ok in H as (? & H2%guard_err_Ok & H).
  apply bind_Ok in H as (? & H3%guard_err_Ok & H). apply bind_Ok in H as (ms & H4%ok_or_Ok & H).
  apply bind_Ok in H as (q & H5%ok_or_Ok & _). apply checked_mul_Some in H4 as [-> H4], H5 as [-> H5]. zbool.
  unfold bucket_ok, full_quanta. simpl. rewrite Z.min_l by done. lia.
Qed.

Lemma for_each_all {A} (body : A → M unit) l s : (∀ x, x ∈ l → body x s = (Ok tt, s)) → for_each body l s = (Ok tt, s).
Proof.
  induction l as [|x l IH]; intros Hb; [done|]. simpl. rewrite ST_bind_unfold, Hb by left. apply IH. intros y Hy. apply Hb. by right.
Qed.

Lemma policy_buckets p root label c :
  policy_u64 p → validate_policy p = Ok tt → (label, c) ∈ config_buckets (store_config p root) → bucket_ok c.
Proof.
  intros (_ & _ & _ & Hu) Hv Hin. unfold validate_policy in Hv. do 16 apply bind_Ok in Hv as (? & _ & Hv).
  apply bind_Ok in Hv as (? & Hb & _). pose proof (check_all_Ok _ _ _ Hb) as Hall. clear Hb.
  assert (∀ label b, (label, b) ∈ rate_limit_buckets (policy_rate_limits p) → bucket_ok (bucket_of_policy b)) as Hok.
  { intros l b Hl. eapply bucket_policy_ok; [by eapply Hu|exact (Hall _ Hl)]. }
  clear Hall Hu. unfold config_buckets in Hin. simpl in Hin.
  repeat (apply elem_of_cons in Hin as [[= -> ->]|Hin]; [eapply Hok; unfold rate_limit_buckets; repeat first [left|right]|]).
  by apply not_elem_of_nil in Hin.
Qed.

(** An empty store opens when nothing fails. *)
Lemma open_empty `{ServerLibs} cfg w :
  calm w → 0 ≤ global_storage_limit_bytes cfg → (∀ label c, (label, c) ∈ config_buckets cfg → bucket_ok c) →
  (open cfg (new_store w)).1 = Ok tt.
Proof.
  intros [Hq Hi] Hlim Hb. unfold open. rewrite ST_bind_unfold, for_each_all.
  - destruct w as [q i f r t e g]. simpl in Hq, Hi. subst q i. unfold repair_storage_accounting.
    destruct cfg. simpl in Hlim. destruct global_storage_limit_bytes; [vm_compute; reflexivity..|lia].
  - intros [label c] Hc. pose proof (Hb label c Hc) as Hok. pose proof Hok as (H1 & H2 & H3 & _). simpl.
    rewrite (proj2 (bucket_validate_Ok c tt ltac:(lia) ltac:(lia) ltac:(lia)) Hok). done.
Qed.

(** The store starts with every policy that was validated, and the policy's configuration
    meets what the guarantees of the store ask: events are retained, the ceiling is a
    number, no account may exceed it, and every bucket is one the limiter works with. *)
Theorem policy_starts `{ServerLibs} p root w :
  policy_u64 p → validate_policy p = Ok tt → calm w →
  let cfg := store_config p root in
  (open cfg (new_store w)).1 = Ok tt
  ∧ 1 ≤ event_retention cfg ∧ 0 ≤ anonymous_quota_bytes cfg ≤ global_storage_limit_bytes cfg
  ∧ ∀ label c, (label, c) ∈ config_buckets cfg → bucket_ok c.
Proof.
  intros Hu Hv Hw cfg. assert (∀ label c, (label, c) ∈ config_buckets cfg → bucket_ok c) as Hb
    by (intros label c; by apply policy_buckets).
  assert (1 ≤ event_retention cfg ∧ 0 ≤ anonymous_quota_bytes cfg ≤ global_storage_limit_bytes cfg) as [He Hl].
  { destruct Hu as (Hg & Hr & Hq & _). unfold validate_policy, positive, in_u64 in *. do 11 apply bind_Ok in Hv as (? & _ & Hv).
    apply bind_Ok in Hv as (? & H1%guard_err_Ok & Hv). do 2 apply bind_Ok in Hv as (? & _ & Hv).
    apply bind_Ok in Hv as (? & H2%guard_err_Ok & _). zbool. simpl. lia. }
  split; [|done]. apply open_empty; [done|lia|done].
Qed.
