(* ===== verification/AcsHttp.v ===== *)
(** * The HTTP interface of the cloud server (aerobag-cloud-server/src/http.rs)

    What happens to a request between the router and the store: the checks every request
    passes, the handler of each route, the answers, and the event stream a ticket opens. The
    router, the connection and JSON belong to other crates; a request comes with the route it
    was matched to. [clock] gives the successive readings of the clock. *)

From Stdlib Require Import Strings.Byte.
From stdpp Require Import base gmap list strings.
From S2P Require Import Prelude Utf8 HadKey CloudRecords AcsContracts CloudAcs AcsLimits AcsStoreState AcsStore AcsAuth AcsPolicy.

Local Open Scope Z_scope.

(** ** Addresses *)

#[export] Instance ip_addr_eq_dec : EqDecision IpAddr.
Proof. solve_decision. Defined.

(** [IpAddr::from_str]: four decimal numbers without leading zeros, or groups of up to four
    hexadecimal digits of which two colons leave some out, the last two possibly written as
    an IPv4 address. *)
Definition parse_octet (s : bytes) : option byte :=
  match s with
  | [] => None
  | x30 :: _ :: _ => None
  | _ => if len s >? 3 then None else z ← digits_value 0 s; if z <=? 255 then Some (z2b z) else None
  end.
Definition parse_ipv4 (s : bytes) : option bytes :=
  match split_on x2e s with
  | [a; b; c; d] => a ← parse_octet a; b ← parse_octet b; c ← parse_octet c; d ← parse_octet d; Some [a; b; c; d]
  | _ => None
  end.
Fixpoint hex_number (acc : Z) (s : bytes) : option Z :=
  match s with
  | [] => Some acc
  | b :: s => match hex_value b with Ok d => hex_number (16 * acc + d) s | Err _ => None end
  end.
Definition parse_group (s : bytes) : option bytes :=
  if (len s =? 0) || (len s >? 4) then None
  else z ← hex_number 0 s; Some [z2b (z `div` 256); z2b (z `mod` 256)].
(** The groups of a part, in bytes, and whether it ends with an IPv4 address. *)
Fixpoint parse_groups (pieces : list bytes) : option (bytes * bool) :=
  match pieces with
  | [] => Some ([], false)
  | [piece] => match parse_group piece with
               | Some g => Some (g, false)
               | None => g ← parse_ipv4 piece; Some (g, true)
               end
  | piece :: pieces => g ← parse_group piece; rest ← parse_groups pieces; Some (g ++ rest.1, rest.2)
  end.
Definition parse_part (s : bytes) : option (bytes * bool) :=
  match s with [] => Some ([], false) | _ => parse_groups (split_on x3a s) end.
(** The text before and after the first two colons. *)
Fixpoint split_colons (s : bytes) : option (bytes * bytes) :=
  match s with
  | x3a :: x3a :: rest => Some ([], rest)
  | b :: s => p ← split_colons s; Some (b :: p.1, p.2)
  | [] => None
  end.
Definition parse_ipv6 (s : bytes) : option bytes :=
  match split_colons s with
  | None => p ← parse_part s; if len p.1 =? 16 then Some p.1 else None
  | Some (front, back) =>
      head ← parse_part front;
      tail ← parse_part back;
      if head.2 || (len head.1 + len tail.1 >? 14) then None
      else Some (head.1 ++ replicate (Z.to_nat (16 - len head.1 - len tail.1)) x00 ++ tail.1)
  end.
Definition parse_ip (s : bytes) : option IpAddr :=
  match parse_ipv4 s with Some o => Some (V4 o) | None => V6 <$> parse_ipv6 s end.

(** [str::parse::<u32>] *)
Definition parse_u32 (s : bytes) : option Z :=
  z ← match s with
      | [] | [x2b] => None
      | x2b :: digits => digits_value 0 digits
      | _ => digits_value 0 s
      end;
  if z <=? u32_max then Some z else None.

(** ** Messages *)

(** What a JSON answer carries. *)
Inductive Answer :=
| AnChallenge (r : AcsCreationChallengeResponse) | AnAccount (r : AcsCreateAccountResponse)
| AnCreated (r : AcsCreateObjectOutcome) | AnObject (r : AcsObjectSnapshot) | AnList (r : AcsListObjectsResponse)
| AnRoot (r : AcsRootSnapshot) | AnSwap (r : AcsCompareAndSwapRootResponse) | AnTicket (r : AcsCreateSseTicketResponse)
| AnHealth (server_time : Z) (mode : AccountMode) | AnError (r : AcsErrorResponse).

(** JSON of requests and answers. *)
Class HttpLibs := {
  json_create_account : bytes → result bytes AcsCreateAccountRequest;
  json_create_object : bytes → result bytes AcsCreateObjectRequest;
  json_swap_root : bytes → result bytes AcsCompareAndSwapRootRequest;
  json_create_ticket : bytes → result bytes AcsCreateSseTicketRequest;
  json_answer : Answer → result bytes bytes }.

Inductive Route :=
| RtChallenge | RtCreateAccount
| RtReadObject (account object_id : bytes) | RtCreateObject (account object_id : bytes)
| RtListObjects (account : bytes) | RtReadRoot (account : bytes) | RtSwapRoot (account : bytes) | RtTicket (account : bytes)
| RtEvents | RtHealth | RtUnknown | RtMethodNotAllowed.

(** A request as the router hands it over: the whole target and its parts, the header with
    the client's address and its text if it has one, the body unless reading it failed, and
    the address of the peer. *)
Record HttpRequest := {
  hq_uri : bytes; hq_path : bytes; hq_query : option bytes; hq_route : Route; hq_headers : HeaderMap;
  hq_client_address : option (option bytes); hq_body : option bytes; hq_peer : option IpAddr }.

(** An open stream: its account and network, the last sequence number it sent. *)
Record EventStream := { es_account : bytes; es_network : bytes; es_last_sequence : Z }.
(** What goes out on a stream. *)
Record SseMessage := { sm_kind : bytes; sm_id : bytes; sm_event : AcsSseEvent }.

Inductive ResponseBody :=
| JsonBody (body : bytes) | NoBody
| StreamBody (stream : EventStream) (initial : list AcsSseEvent).
Record Response := { rp_status : Z; rp_retry_after : option bytes; rp_body : ResponseBody }.

(** ** Errors *)

Definition http_status (code : AcsErrorCode) : Z :=
  match code with
  | InvalidRequest => 400
  | Unauthorized | RequestExpired | ReplayDetected => 401
  | NotFound => 404
  | ObjectIdCollision | MissingChildObject | ErrConflict => 409
  | QuotaExceeded | AccountSuspended => 403
  | PayloadTooLarge | ResponseTooLarge => 413
  | RateLimited => 429
  | ReadOnly => 503
  | Internal => 500
  end.

Definition api_invalid (m : bytes) : StoreError := store_error InvalidRequest m.
Definition api_not_found (m : bytes) : StoreError := store_error NotFound m.
Definition payload_too_large : StoreError := store_error PayloadTooLarge (bs "request body exceeds the ACS limit").

Definition CLIENT_ADDRESS_HEADER : bytes := bs "aerobag-client-address".

Section http.
Context `{ServerLibs} `{HttpLibs} (secret : bytes) (policy : AcsRuntimePolicy) (cfg : StoreConfig).

(** An error gets an id when it becomes an answer. *)
Definition request_id : M bytes := λ s,
  let '(r, w) := pop_random (world s) in
  (Ok match r with Ok b => sv_b64_encode b | Err _ => bs "request-id-unavailable" end, put_world w s).

Definition json (status : Z) (value : Answer) : M Response :=
  body ← lift (map_err (λ e, internal (bs "encode JSON response: " ++ e)) (json_answer value));
  mret {| rp_status := status; rp_retry_after := None; rp_body := JsonBody body |}.

(** [IntoResponse for ApiError] *)
Definition public_message (e : StoreError) : bytes :=
  if bool_decide (code e = Internal)
  then bs "Aerobag Cloud encountered an internal failure; report the request ID" else message e.
Definition error_response (e : StoreError) : M Response :=
  id ← request_id;
  encoded ← catch (json (http_status (code e))
    (AnError {| er_contract_id := ACS_CONTRACT_ID; er_request_id := id; er_code := code e; er_message := public_message e;
                er_retry_after_ms := retry_after_ms e; er_rate_limit_gate := rate_limit_gate e |}));
  response ← match encoded with
             | Ok r => mret r
             | Err _ => _ ← request_id; mret {| rp_status := 500; rp_retry_after := None; rp_body := NoBody |}
             end;
  mret match retry_after_ms e with
       | Some ms => {| rp_status := rp_status response; rp_retry_after := Some (dec (div_ceil ms 1000)); rp_body := rp_body response |}
       | None => response
       end.
(** A handler's error is answered. *)
Definition respond (handler : M Response) : M Response :=
  r ← catch handler;
  match r with Ok response => mret response | Err e => error_response e end.

(** An error that counts as malformed. *)
Definition malformed {A} (e : StoreError) : M A := _ ← increment_malformed_rejection; raise e.

(** ** Queries *)

Definition valid_query_token (value : bytes) : bool :=
  negb (bool_decide (value = [])) && (len value <=? 128)
  && forallb (λ b, is_ascii_alphanumeric b || bool_decide (b ∈ [x2d; x5f])) value.

Fixpoint split_pairs (pairs : list bytes) : M (list (bytes * bytes)) :=
  match pairs with
  | [] => mret []
  | piece :: pairs =>
      p ← match split_once x3d piece with
          | Some p => mret p
          | None => malformed (api_invalid (bs "query parameter is malformed"))
          end;
      rest ← split_pairs pairs;
      mret (p :: rest)
  end.
Definition http_query_pairs (query : option bytes) : M (list (bytes * bytes)) :=
  match query with
  | None | Some [] => mret []
  | Some query => split_pairs (split_on x26 query)
  end.

Record ListQuery := { lq_cursor : option bytes; lq_limit : option Z }.
Fixpoint list_query_loop (q : ListQuery) (pairs : list (bytes * bytes)) : M ListQuery :=
  match pairs with
  | [] => mret q
  | (key, value) :: pairs =>
      if bool_decide (key = bs "cursor") && bool_decide (lq_cursor q = None) && valid_query_token value
      then list_query_loop {| lq_cursor := Some value; lq_limit := lq_limit q |} pairs
      else if bool_decide (key = bs "limit") && bool_decide (lq_limit q = None)
      then match parse_u32 value with
           | Some n => list_query_loop {| lq_cursor := lq_cursor q; lq_limit := Some n |} pairs
           | None => malformed (api_invalid (bs "object list limit is invalid"))
           end
      else if bool_decide (key = bs "cursor") || bool_decide (key = bs "limit")
      then malformed (api_invalid (bs "duplicate or invalid object list query"))
      else malformed (api_invalid (bs "unknown object list query parameter"))
  end.
Definition parse_list_query (query : option bytes) : M ListQuery :=
  pairs ← http_query_pairs query; list_query_loop {| lq_cursor := None; lq_limit := None |} pairs.

Definition parse_event_query (query : option bytes) : M bytes :=
  pairs ← http_query_pairs query;
  match pairs with
  | [(key, ticket)] =>
      if bool_decide (key = bs "ticket") && valid_query_token ticket then mret ticket
      else malformed (api_invalid (bs "SSE request requires exactly one valid ticket"))
  | _ => malformed (api_invalid (bs "SSE request requires exactly one valid ticket"))
  end.

(** ** What every request passes *)

Definition effective_client_ip (peer : IpAddr) (header : option (option bytes)) (trusted : list IpAddr) : result StoreError IpAddr :=
  if negb (bool_decide (peer ∈ trusted)) then Ok peer
  else match header with
       | None => Ok peer
       | Some value => ok_or (value ≫= parse_ip) (api_invalid (bs "trusted proxy supplied an invalid client address"))
       end.

(** [enforce_network_request_limit]: the pseudonym of the network the request comes from. *)
Definition admit_network (clock : nat → Z) (request : HttpRequest) : M bytes :=
  if len (hq_uri request) >? rp_max_target_bytes (policy_request policy)
  then malformed (api_invalid (bs "request target exceeds the ACS limit"))
  else
    peer ← lift (ok_or (hq_peer request) (internal (bs "request source address is unavailable")));
    ip ← match effective_client_ip peer (hq_client_address request) (trusted_proxy_ips policy) with
         | Ok ip => mret ip
         | Err e => malformed e
         end;
    let network := source_network_pseudonym secret ip in
    _ ← check_network_operation cfg network (clock 0%nat);
    mret network.

(** [bound_request_body] *)
Definition admit_body (clock : nat → Z) (network : bytes) (request : HttpRequest) : M bytes :=
  match hq_body request with
  | Some body =>
      if len body >? rp_max_body_bytes (policy_request policy) then malformed payload_too_large
      else _ ← admit_network_ingress cfg network (len body) (clock 1%nat); mret body
  | None => malformed payload_too_large
  end.

Definition require_contract (contract_id : bytes) : M unit :=
  if bool_decide (contract_id = ACS_CONTRACT_ID) then mret tt else malformed (api_invalid (bs "unsupported ACS contract")).
(** [decode_json] *)
Definition decode_body {A} (decoded : result bytes A) : M A :=
  match decoded with
  | Ok a => mret a
  | Err e => malformed (api_invalid (bs "malformed JSON request: " ++ e))
  end.

(** ** Handlers *)

Definition signed_request (request : HttpRequest) (method : AcsHttpMethod) (query : option bytes) (body : bytes) (now : Z)
    : SignedRequest :=
  {| sr_headers := hq_headers request; sr_method := method; sr_path := hq_path request; sr_query := query; sr_body := body;
     sr_now_epoch_ms := now |}.

Definition handle_issue_challenge (clock : nat → Z) (network : bytes) : M Response :=
  response ← issue_creation_challenge cfg network (clock 2%nat);
  json 200 (AnChallenge response).

Definition handle_create_account (clock : nat → Z) (network : bytes) (http : HttpRequest) (body : bytes) : M Response :=
  request ← decode_body (json_create_account body);
  _ ← require_contract (ca_contract_id request);
  let now := clock 2%nat in
  public_key ← verify_account_creation_request (signed_request http AcsPost None body now) request;
  response ← create_account cfg request public_key network now;
  json 201 (AnAccount response).

Definition handle_create_object (clock : nat → Z) (account object_id : bytes) (http : HttpRequest) (body : bytes) : M Response :=
  request ← decode_body (json_create_object body);
  _ ← require_contract (co_contract_id request);
  _ ← (if bool_decide (co_object_id request = object_id) then mret tt
       else malformed (api_invalid (bs "object ID does not match request path")));
  let now := clock 2%nat in
  _ ← verify_registered_request cfg (signed_request http AcsPut (hq_query http) body now) account true;
  response ← create_object cfg account object_id (co_value request) now;
  json 200 (AnCreated response).

Definition handle_read_object (clock : nat → Z) (network account object_id : bytes) (http : HttpRequest) : M Response :=
  _ ← verify_registered_request cfg (signed_request http AcsGet (hq_query http) [] (clock 2%nat)) account false;
  response ← read_object cfg account object_id network (clock 3%nat) (clock 4%nat);
  json 200 (AnObject response).

Definition handle_list_objects (clock : nat → Z) (network account : bytes) (http : HttpRequest) : M Response :=
  request ← parse_list_query (hq_query http);
  _ ← verify_registered_request cfg (signed_request http AcsGet (hq_query http) [] (clock 2%nat)) account false;
  response ← list_objects cfg account (lq_cursor request) (default 100 (lq_limit request)) network (clock 3%nat) (clock 4%nat);
  json 200 (AnList response).

Definition handle_read_root (clock : nat → Z) (network account : bytes) (http : HttpRequest) : M Response :=
  _ ← verify_registered_request cfg (signed_request http AcsGet (hq_query http) [] (clock 2%nat)) account false;
  response ← read_root cfg account network (clock 3%nat) (clock 4%nat);
  json 200 (AnRoot response).

Definition handle_swap_root (clock : nat → Z) (network account : bytes) (http : HttpRequest) (body : bytes) : M Response :=
  request ← decode_body (json_swap_root body);
  _ ← require_contract (cas_contract_id request);
  let now := clock 2%nat in
  _ ← verify_registered_request cfg (signed_request http AcsPut (hq_query http) body now) account true;
  response ← compare_and_swap_root cfg account request network now;
  json match response with Conflict _ _ => 409 | Committed _ => 200 end (AnSwap response).

Definition handle_ticket (clock : nat → Z) (network account : bytes) (http : HttpRequest) (body : bytes) : M Response :=
  request ← decode_body (json_create_ticket body);
  _ ← require_contract (st_contract_id request);
  let now := clock 2%nat in
  _ ← verify_registered_request cfg (signed_request http AcsPost (hq_query http) body now) account false;
  response ← create_sse_ticket account (st_last_event_sequence request) network now;
  json 200 (AnTicket response).

(** [SseConnectionGuard] ends the connection when the handler fails after it began. *)
Definition handle_events (clock : nat → Z) (network : bytes) (http : HttpRequest) : M Response :=
  ticket ← parse_event_query (hq_query http);
  consumed ← consume_sse_ticket ticket network (clock 2%nat);
  let account := ct_account_locator consumed in
  _ ← begin_sse_connection cfg account network;
  initial ← catch (at_once (initial_sse_events account (ct_last_event_sequence consumed)));
  match initial with
  | Err e => _ ← end_sse_connection account network; raise e
  | Ok initial =>
      mret {| rp_status := 200; rp_retry_after := None;
              rp_body := StreamBody {| es_account := account; es_network := network; es_last_sequence := 0 |} initial |}
  end.

(** [CloudStore::health] and its handler. *)
Definition health (now : Z) : M Answer := mode ← select_service_mode; mret (AnHealth now mode).
Definition handle_health (clock : nat → Z) : M Response := answer ← health (clock 2%nat); json 200 answer.

Definition unknown_route : M Response := malformed (api_not_found (bs "ACS resource does not exist")).
Definition method_not_allowed : M Response := malformed (api_invalid (bs "HTTP method is not allowed for this ACS resource")).

Definition dispatch (clock : nat → Z) (network : bytes) (http : HttpRequest) (body : bytes) : M Response :=
  match hq_route http with
  | RtChallenge => handle_issue_challenge clock network
  | RtCreateAccount => handle_create_account clock network http body
  | RtReadObject account object_id => handle_read_object clock network account object_id http
  | RtCreateObject account object_id => handle_create_object clock account object_id http body
  | RtListObjects account => handle_list_objects clock network account http
  | RtReadRoot account => handle_read_root clock network account http
  | RtSwapRoot account => handle_swap_root clock network account http body
  | RtTicket account => handle_ticket clock network account http body
  | RtEvents => handle_events clock network http
  | RtHealth => handle_health clock
  | RtUnknown => unknown_route
  | RtMethodNotAllowed => method_not_allowed
  end.

(** A request from the router on: the layers around the handlers, then the handler. *)
Definition serve_http (clock : nat → Z) (http : HttpRequest) : M Response :=
  respond (
    network ← admit_network clock http;
    body ← admit_body clock network http;
    dispatch clock network http body).

(** ** Streams *)

Definition event_kind (e : AcsSseEvent) : bytes :=
  match e with
  | SseReady _ _ _ => bs "ready" | SseRootChanged _ _ _ => bs "root-changed"
  | SseReset _ _ _ => bs "reset" | SseHeartbeat _ _ _ => bs "heartbeat"
  end.
Definition metered_sse_event (account network : bytes) (event : AcsSseEvent) (now : Z) : M SseMessage :=
  data_bytes ← lift (map_err (λ e, internal (bs "encode ACS SSE event: " ++ e)) (event_json_bytes event));
  let kind := event_kind event in
  let id := dec (sequence event) in
  let wire_bytes :=
    saturating_add u64_max (saturating_add u64_max (saturating_add u64_max data_bytes (len kind)) (len id)) 32 in
  _ ← admit_egress cfg account network wire_bytes now;
  mret {| sm_kind := kind; sm_id := id; sm_event := event |}.

Definition with_last_sequence (n : Z) (st : EventStream) : EventStream :=
  {| es_account := es_account st; es_network := es_network st; es_last_sequence := n |}.
(** The stream ends, and its guard with it. *)
Definition stream_end (st : EventStream) : M (option EventStream * list SseMessage) :=
  _ ← end_sse_connection (es_account st) (es_network st); mret (None, []).
(** An event goes out, or the stream ends because it is not admitted. *)
Definition stream_send (st : EventStream) (event : AcsSseEvent) (now : Z) : M (option EventStream * list SseMessage) :=
  sent ← catch (metered_sse_event (es_account st) (es_network st) event now);
  match sent with Ok m => mret (Some st, [m]) | Err _ => stream_end st end.

(** The next of the events a stream starts with. *)
Definition stream_first (st : EventStream) (event : AcsSseEvent) (now : Z) : M (option EventStream * list SseMessage) :=
  stream_send (with_last_sequence (Z.max (es_last_sequence st) (sequence event)) st) event now.

(** What a stream wakes up for: a record from the channel, records it was too slow for, the
    end of the channel, the heartbeat; or its client is gone. *)
Inductive StreamInput := InReceived (r : RootEventRecord) | InLagged | InClosed | InHeartbeat | InDisconnected.

(** The answer to what it asks of the store, because it lagged or the heartbeat is due. *)
Definition stream_asked (st : EventStream) (lagged : bool) (heartbeat : result StoreError AcsSseEvent) (now : Z)
    : M (option EventStream * list SseMessage) :=
  match heartbeat with
  | Ok event =>
      if lagged then
        match event with
        | SseHeartbeat seq revision hash =>
            let reset := SseReset seq revision hash in
            stream_send (with_last_sequence (sequence reset) st) reset now
        | _ => stream_end st
        end
      else stream_send (with_last_sequence (Z.max (es_last_sequence st) (sequence event)) st) event now
  | Err _ => stream_end st
  end.

(** Then the stream goes on at once, or it first asks the store for the current state. *)
Inductive Turn := Goes (m : M (option EventStream * list SseMessage)) | Asks (lagged : bool) (rd : Reading AcsSseEvent).
Definition stream_step (st : EventStream) (input : StreamInput) (now : Z) : Turn :=
  match input with
  | InReceived r => Goes (
      if bool_decide (ev_account_locator r = es_account st) && (sequence (ev_event r) >? es_last_sequence st)
      then stream_send (with_last_sequence (sequence (ev_event r)) st) (ev_event r) now
      else mret (Some st, []))
  | InLagged => Asks true (heartbeat_event (es_account st))
  | InClosed | InDisconnected => Goes (stream_end st)
  | InHeartbeat => Asks false (heartbeat_event (es_account st))
  end.
End http.
