(* ===== verification/AcsAccess.v ===== *)
(** * Who gets in: authentication of requests to the cloud server

    An operation keeps a part of the tables when the part is the same after it, whatever
    failed on the way, a transaction that is rolled back included. A request that is let in was signed with the key of the account it names, over its
    method, target and body, within the clock window, and is not let in a second time. *)

From Stdlib Require Import Strings.Byte.
From stdpp Require Import base gmap list strings sorting relations.
From S2P Require Import Prelude CloudRecords AcsContracts CloudAcs AcsLimits AcsStoreState AcsStore AcsGc AcsAuth.
From S2P Require Import AcsStoreRun AcsStoreInv AcsStoreSteps AcsGcSteps AcsStoreOpen AcsStoreCorrect AcsServer AcsObjects.

Local Open Scope Z_scope.

(** ** What operations leave alone *)

Section keeps.
Context {X : Type} (part : Db → X).

(** The part is [n], also in the tables that come back when a transaction is dropped. *)
Definition shows (n : X) (s : Store) : Prop := part (db s) = n ∧ ∀ d, saved s = Some d → part d = n.
Class Keeps {A} (m : M A) : Prop := keeps n s : shows n s → shows n (m s).2.

Lemma keeps_quiet {A} (m : M A) : Quiet m → Keeps m.
Proof.
  intros Hq n s [Hd Hs]. specialize (Hq s). apply (f_equal c_db) in Hq as E1. apply (f_equal c_saved) in Hq as E2.
  simpl in *. split; [by rewrite E1|by rewrite E2].
Qed.
Lemma keeps_bind {A B} (m : M A) (f : A → M B) : Keeps m → (∀ a, Keeps (f a)) → Keeps (m ≫= f).
Proof.
  intros Hm Hf n s Hs. rewrite ST_bind_unfold. specialize (Hm n s Hs). destruct (m s) as [[a|e] s1]; simpl in *; [|done]. by apply Hf.
Qed.
Lemma keeps_catch {A} (m : M A) : Keeps m → Keeps (catch m).
Proof. intros Hm n s Hs. specialize (Hm n s Hs). unfold catch. by destruct (m s). Qed.
Lemma keeps_for_each {A} (body : A → M unit) l : (∀ x, Keeps (body x)) → Keeps (for_each body l).
Proof. intros Hb. induction l as [|x l IH]; simpl; [by apply keeps_quiet, quiet_ret|]. by apply keeps_bind. Qed.
Lemma keeps_modify f : (∀ s n, shows n s → shows n (f s)) → Keeps (modify f).
Proof. intros Hf n s Hs. by apply Hf. Qed.
Lemma keeps_put_db f : (∀ d, part (f d) = part d) → Keeps (execute f).
Proof.
  intros Hf. unfold execute. apply keeps_bind; [apply keeps_quiet, _|]. intros _. apply keeps_modify. intros s n [Hd Hs].
  split; [by rewrite <- Hd; apply Hf|done].
Qed.
Lemma keeps_try_execute f : (∀ d d', f d = Ok d' → part d' = part d) → Keeps (try_execute f).
Proof.
  intros Hf n s Hs. unfold try_execute. rewrite ST_bind_unfold. pose proof (keeps_quiet statement _ n s Hs) as H1.
  destruct (statement s) as [[[]|e] s1]; [|done]. simpl in H1. rewrite ST_bind_unfold. simpl.
  destruct (f (db s1)) as [d|e] eqn:Hd; simpl; [|done]. split; simpl; [rewrite (Hf _ _ Hd); exact (proj1 H1)|exact (proj2 H1)].
Qed.
Lemma keeps_execute_returning {A} (f : Db → result bytes (A * Db)) :
  (∀ d a d', f d = Ok (a, d') → part d' = part d) → Keeps (execute_returning f).
Proof.
  intros Hf n s Hs. unfold execute_returning. rewrite ST_bind_unfold. pose proof (keeps_quiet statement _ n s Hs) as H1.
  destruct (statement s) as [[[]|e] s1]; [|done]. simpl in H1. rewrite ST_bind_unfold. simpl.
  destruct (f (db s1)) as [[a d]|e] eqn:Hd; simpl; [|done]. split; [simpl; rewrite (Hf _ _ _ Hd); exact (proj1 H1)|exact (proj2 H1)].
Qed.
Lemma keeps_commit : Keeps commit.
Proof.
  unfold commit. apply keeps_bind; [apply keeps_quiet, _|]. intros _. apply keeps_modify. intros s n [Hd _]. by split.
Qed.
Lemma keeps_transaction {A} (body : M A) : Keeps body → Keeps (transaction body).
Proof.
  intros Hb n s Hs. unfold transaction.
  assert (Keeps (_ ← begin_immediate; body)) as Hall.
  { apply keeps_bind; [|done]. unfold begin_immediate. apply keeps_bind; [apply keeps_quiet, _|]. intros _.
    apply keeps_modify. intros s' n' [Hd _]. split; [done|]. intros d [= <-]. done. }
  specialize (Hall n s Hs). destruct ((_ ← begin_immediate; body) s) as [r s']. simpl in *. destruct Hall as [Hd Hsv].
  unfold rollback. destruct (saved s') as [d|] eqn:E; split; simpl; auto; congruence.
Qed.

Lemma keeps_fold_m {A B} (body : B → A → M B) acc l : (∀ acc x, Keeps (body acc x)) → Keeps (fold_m body acc l).
Proof.
  intros Hb. revert acc. induction l as [|x l IH]; intros acc; simpl; [by apply keeps_quiet, quiet_ret|].
  apply keeps_bind; [apply Hb|]. intros acc'. apply IH.
Qed.
Lemma keeps_files {A} (m : M A) : (∀ s, db (m s).2 = db s ∧ saved (m s).2 = saved s) → Keeps m.
Proof. intros Hm n s [Hd Hs]. destruct (Hm s) as [E1 E2]. split; [by rewrite E1|by rewrite E2]. Qed.
Lemma keeps_ignore {A} (m : M A) : Keeps m → Keeps (ignore m).
Proof. intros Hm. unfold ignore. apply keeps_bind; [done|]. intros a. by apply keeps_quiet, quiet_ret. Qed.
Lemma keeps_write_blob `{ServerLaws} key content : Keeps (write_blob key content).
Proof.
  apply keeps_files. intros s. destruct (run_write_blob key content (core s) s eq_refl) as [(E1 & E2 & _) _]. done.
Qed.
End keeps.

Create HintDb keeps.
#[export] Hint Resolve keeps_write_blob : keeps.

(** A statement on other tables: what it did to the part is settled by cases. *)
Ltac other_table :=
  intros;
  repeat match goal with
  | Hx : (_ ≫= _) = Ok _ |- _ => apply bind_Ok in Hx as (? & _ & Hx)
  | Hx : Ok _ = Ok _ |- _ => injection Hx as ?; subst
  | Hx : Err _ = Ok _ |- _ => discriminate Hx
  | Hx : match ?x with _ => _ end = Ok _ |- _ => destruct x
  end;
  repeat case_match; try done.
(** The rules for operations; [table] settles what a statement does to the part. *)
Ltac keep_with table :=
  repeat match goal with
  | |- Keeps _ (transaction _) => apply keeps_transaction
  | |- Keeps _ (execute _) => apply keeps_put_db; table
  | |- Keeps _ (try_execute _) => apply keeps_try_execute; table
  | |- Keeps _ (execute_returning _) => apply keeps_execute_returning; table
  | |- Keeps _ commit => apply keeps_commit
  | |- Keeps _ (catch _) => apply keeps_catch
  | |- Keeps _ (for_each _ _) => apply keeps_for_each; intros ?
  | |- Keeps _ _ => solve [eauto 2 with keeps]
  | |- Keeps _ _ => solve [apply keeps_quiet; quiet_tac]
  | |- Keeps _ (_ ≫= _) => apply keeps_bind; [|intros ?]
  | |- Keeps _ (match _ with _ => _ end) => case_match
  end.
Ltac keep_tac := keep_with ltac:(other_table; done).

(** ** Which operations of the cloud server use nonces

    All but authentication leave the nonces that were used alone, whatever fails. *)

Section nonces.
Context `{ServerLaws} (cfg : StoreConfig).

Lemma keeps_ensure_new_storage_write now : Keeps request_nonces (ensure_new_storage_write cfg now).
Proof. unfold ensure_new_storage_write. keep_tac. Qed.
Lemma keeps_refuse_usage {A} e now : Keeps request_nonces (A:=A) (refuse_usage e now).
Proof. unfold refuse_usage. keep_tac. Qed.
Lemma keeps_release account n k : Keeps request_nonces (release_account_usage account n k).
Proof. unfold release_account_usage. keep_tac. Qed.
Lemma keeps_reserve account n limit : Keeps request_nonces (reserve_account_usage account n limit).
Proof. unfold reserve_account_usage. keep_tac. Qed.
Lemma keeps_replace account n m limit : Keeps request_nonces (replace_account_root_usage account n m limit).
Proof. unfold replace_account_root_usage. keep_tac. Qed.
Lemma keeps_bucket key c now : Keeps request_nonces (reserve_durable_token_bucket key c now).
Proof. unfold reserve_durable_token_bucket. keep_tac. Qed.
#[local] Hint Resolve keeps_ensure_new_storage_write keeps_refuse_usage keeps_release keeps_reserve keeps_replace keeps_bucket : keeps.

Lemma keeps_create_object_row account i v now : Keeps request_nonces (create_object_row cfg account i v now).
Proof. unfold create_object_row, insert_object. keep_tac. Qed.
Lemma keeps_remove_pending account i n : Keeps request_nonces (remove_pending_object account i n).
Proof. unfold remove_pending_object, delete_pending. keep_tac. Qed.
#[local] Hint Resolve keeps_create_object_row keeps_remove_pending : keeps.
Lemma keeps_create_object account i v now : Keeps request_nonces (create_object cfg account i v now).
Proof. unfold create_object, finish_upload, make_ready, object_created. keep_tac. Qed.

Lemma keeps_write_root account v revision hash content json now :
  Keeps request_nonces (write_root cfg account v revision hash content json now).
Proof. unfold write_root, next_event_sequence, insert_event, trim_events. keep_tac. Qed.
#[local] Hint Resolve keeps_write_root : keeps.
Lemma keeps_compare_and_swap_root account request network now :
  Keeps request_nonces (compare_and_swap_root cfg account request network now).
Proof. unfold compare_and_swap_root. keep_tac; apply keeps_modify; intros s n Hs; exact Hs. Qed.

Lemma keeps_run_gc now grace : Keeps request_nonces (run_gc now grace).
Proof.
  assert (∀ path, Keeps request_nonces (remove_file_if_present path)) as Hrm.
  { intros path. unfold remove_file_if_present. keep_tac. apply keeps_modify. intros s n Hs. exact Hs. }
  unfold run_gc, run_gc_inner, gc_accounts, gc_files, gc_account. keep_tac; apply keeps_fold_m; intros acc x.
  - unfold gc_account, sweep_object. keep_tac. apply keeps_fold_m. intros acc' [i g]. keep_tac.
  - unfold remove_deleted. apply keeps_bind; [apply Hrm|]. intros b. keep_tac.
  - unfold remove_orphan. destruct x as [path file]. case_match; [keep_tac|]. apply keeps_bind; [apply Hrm|]. intros b. keep_tac.
Qed.

(** The requests that use a nonce. *)
Definition authenticates (q : Request) : option Z :=
  match q with
  | RqVerify signed _ _ | RqVerifyCreation signed _ => Some (sr_now_epoch_ms signed)
  | _ => None
  end.

Lemma keeps_perform q : authenticates q = None → Keeps request_nonces (perform cfg q).
Proof.
  intros Hq. destruct q; try done; simpl; try apply keeps_ignore;
    try solve [apply keeps_quiet; quiet_tac]; auto using keeps_create_object, keeps_compare_and_swap_root, keeps_run_gc.
  - unfold issue_creation_challenge. keep_tac.
  - unfold create_account. keep_tac.
  - unfold create_sse_ticket. keep_tac.
  - unfold consume_sse_ticket. keep_tac.
  - unfold set_service_mode. keep_tac.
  - unfold resume_writes, resume_writes_inner. keep_tac.
  - unfold force_resume_writes, resume_writes_inner. keep_tac.
  - unfold set_account_mode. keep_tac.
  - unfold set_account_quota. keep_tac.
  - unfold delete_account. keep_tac.
Qed.
End nonces.

(** ** Operations of the cloud server on other accounts

    What an operation on one account leaves alone of another: its root, objects and events. *)

(** What is kept for an account. *)
Definition part (account : bytes) (d : Db) : option RootRow * gmap bytes ObjectRow * gmap Z EventRow :=
  (roots d !! account, objects_of account d, events_of account d).

Lemma part_put_objects b account rows d : account ≠ b → part b (put_objects_of account rows d) = part b d.
Proof. intros Hne. unfold part. rewrite objects_of_put. by case_decide. Qed.
Lemma part_put_events b account rows d : account ≠ b → part b (put_events_of account rows d) = part b d.
Proof. intros Hne. unfold part, events_of. simpl. by rewrite lookup_insert_ne. Qed.
Lemma part_put_root b account r d : account ≠ b → part b (put_roots (<[account := r]> (roots d)) d) = part b d.
Proof. intros Hne. unfold part. simpl. by rewrite lookup_insert_ne. Qed.

Ltac other_account :=
  other_table; rewrite ?part_put_objects, ?part_put_events, ?part_put_root by done; try done.

Section others.
Context `{ServerLaws} (cfg : StoreConfig) (b : bytes).

Lemma part_ensure_new_storage_write now : Keeps (part b) (ensure_new_storage_write cfg now).
Proof. unfold ensure_new_storage_write. keep_tac. Qed.
Lemma part_refuse_usage {A} e now : Keeps (part b) (A:=A) (refuse_usage e now).
Proof. unfold refuse_usage. keep_tac. Qed.
Lemma part_release account n k : Keeps (part b) (release_account_usage account n k).
Proof. unfold release_account_usage. keep_tac. Qed.
Lemma part_reserve account n limit : Keeps (part b) (reserve_account_usage account n limit).
Proof. unfold reserve_account_usage. keep_tac. Qed.
Lemma part_replace account n m limit : Keeps (part b) (replace_account_root_usage account n m limit).
Proof. unfold replace_account_root_usage. keep_tac. Qed.
Lemma part_bucket key c now : Keeps (part b) (reserve_durable_token_bucket key c now).
Proof. unfold reserve_durable_token_bucket. keep_tac. Qed.
#[local] Hint Resolve part_ensure_new_storage_write part_refuse_usage part_release part_reserve part_replace part_bucket : keeps.

Lemma part_create_object_row account i v now : account ≠ b → Keeps (part b) (create_object_row cfg account i v now).
Proof. intros Hne. unfold create_object_row, insert_object. keep_with other_account. Qed.
Lemma part_remove_pending account i n : account ≠ b → Keeps (part b) (remove_pending_object account i n).
Proof. intros Hne. unfold remove_pending_object, delete_pending. keep_with other_account. Qed.
#[local] Hint Resolve part_create_object_row part_remove_pending : keeps.
Lemma part_create_object account i v now : account ≠ b → Keeps (part b) (create_object cfg account i v now).
Proof. intros Hne. unfold create_object, finish_upload, make_ready, object_created. keep_with other_account. Qed.

Lemma part_write_root account v revision hash content json now :
  account ≠ b → Keeps (part b) (write_root cfg account v revision hash content json now).
Proof. intros Hne. unfold write_root, next_event_sequence, insert_event, trim_events. keep_with other_account. Qed.
#[local] Hint Resolve part_write_root : keeps.
Lemma part_compare_and_swap_root account request network now :
  account ≠ b → Keeps (part b) (compare_and_swap_root cfg account request network now).
Proof. intros Hne. unfold compare_and_swap_root. keep_with other_account; apply keeps_modify; intros s n Hs; exact Hs. Qed.

Lemma part_consume_nonce account key nonce expires now : Keeps (part b) (consume_nonce account key nonce expires now).
Proof. unfold consume_nonce. keep_tac. Qed.
#[local] Hint Resolve part_consume_nonce : keeps.
Lemma part_verify_registered request account write : Keeps (part b) (verify_registered_request cfg request account write).
Proof. unfold verify_registered_request, reject. keep_tac. Qed.
Lemma part_verify_creation signed request : Keeps (part b) (verify_account_creation_request signed request).
Proof. unfold verify_account_creation_request, reject. keep_tac. Qed.
Lemma part_challenge network now : Keeps (part b) (issue_creation_challenge cfg network now).
Proof. unfold issue_creation_challenge. keep_tac. Qed.
Lemma part_create_account request key network now : Keeps (part b) (create_account cfg request key network now).
Proof. unfold create_account. keep_tac. Qed.
Lemma part_create_ticket account seq network now : Keeps (part b) (create_sse_ticket account seq network now).
Proof. unfold create_sse_ticket. keep_tac. Qed.
Lemma part_consume_ticket ticket network now : Keeps (part b) (consume_sse_ticket ticket network now).
Proof. unfold consume_sse_ticket. keep_tac. Qed.
End others.

(** ** Authentication *)

Section access.
Context `{ServerLaws} (cfg : StoreConfig) (Hret : 1 ≤ event_retention cfg).

(** ** Nonces *)

(** Nonces that have not expired stay; one that is accepted was not live, and now is. *)
Definition nonce_used (k : bytes * bytes * bytes) (expires now : Z) (d : Db) (r : result StoreError unit) (d' : Db) : Prop :=
  (∀ k' e, request_nonces d !! k' = Some e → now ≤ e → request_nonces d' !! k' = Some e)
  ∧ ∀ u, r = Ok u → request_nonces d' !! k = Some expires ∧ ∀ e, request_nonces d !! k = Some e → e < now.

Lemma run_consume_nonce account key_id nonce expires now c :
  run (consume_nonce account key_id nonce expires now) c
    (λ r c', nonce_used (account, key_id, nonce) expires now (c_db c) r (c_db c')).
Proof.
  set (Q := λ r c', _).
  assert (∀ e, Q (Err e) c) as HE by (intros e; by split).
  unfold consume_nonce. run_step. run_step; run_step; [|apply HE].
  set (m := filter (λ kv : _ * Z, ¬ (kv.2 < now)) (request_nonces (c_db c))).
  assert (∀ k' e, m !! k' = Some e ↔ request_nonces (c_db c) !! k' = Some e ∧ now ≤ e) as Hm.
  { intros k' e. unfold m. rewrite map_lookup_filter_Some. simpl. rewrite Z.nlt_ge. done. }
  assert (∀ e d', request_nonces d' = m → Q (Err e) (with_c_db d' c)) as HE'.
  { intros e d' Hd. split; [|done]. intros k' e' Hk He. simpl. rewrite Hd. by apply Hm. }
  run_step. run_step; run_step; [|by apply HE'].
  match goal with Hx : match request_nonces _ !! _ with _ => _ end = Ok _ |- _ => rename Hx into Hins end.
  change (request_nonces (c_db (with_c_db _ c))) with m in Hins.
  destruct (m !! (account, key_id, nonce)) as [e0|] eqn:Hk; injection Hins as <- <-; simpl.
  - run_step. run_skip; run_step; [run_step|]; by apply HE'.
  - run_step. split.
    + intros k' e Hk' He. simpl. rewrite lookup_insert_ne; [by apply Hm|]. intros <-.
      assert (m !! (account, key_id, nonce) = Some e) by by apply Hm. congruence.
    + intros u _. simpl. rewrite lookup_insert_eq. split; [done|]. intros e He. destruct (Z.lt_ge_cases e now); [done|].
      assert (m !! (account, key_id, nonce) = Some e) by by apply Hm. congruence.
Qed.

(** ** Signatures *)

(** The request as it was signed with a key. *)
Definition signed_by (a : AcsRequestAuthentication) (request : SignedRequest) (key : bytes) : Prop :=
  contract_id a = ACS_CONTRACT_ID
  ∧ Z.abs (sr_now_epoch_ms request - timestamp_epoch_ms a) ≤ ACS_SIGNATURE_CLOCK_WINDOW_MS
  ∧ body_sha256 a = sha256_hex (sr_body request)
  ∧ ∃ target text signature, acs_canonical_request_target (sr_path request) (sr_query request) = Ok target
      ∧ signing_bytes a (sr_method request) target = Ok text
      ∧ sv_b64_decode (signature_base64url a) = Some signature ∧ sv_verify key text signature = true.

Lemma decode_exact_Ok value n label b : decode_exact value n label = Ok b → sv_b64_decode value = Some b ∧ len b = n.
Proof.
  unfold decode_exact. intros (? & _ & Hx)%bind_Ok. apply bind_Ok in Hx as (d & Hd%ok_or_Ok & Hx).
  apply bind_Ok in Hx as (? & Hl%guard_err_Ok & [= <-]). zbool. done.
Qed.

Lemma run_verify_authentication a request key c (Q : _ → _ → Prop) :
  (signed_by a request key → Q (Ok tt) c) → (∀ e, Q (Err e) c) → run (verify_authentication a request key) c Q.
Proof.
  intros HO HE. unfold verify_authentication, reject.
  run_step; [run_step; run_skip; run_step; [run_step|]; apply HE|]. zbool.
  run_step. run_step. destruct (validate_account_locator _); run_step; [|apply HE].
  run_step. run_step. destruct (decode_exact (signing_key_id a) _ _); run_step; [|apply HE].
  run_step; [run_step; run_skip; run_step; [run_step|]; apply HE|].
  run_step. run_step. destruct (decode_exact (nonce_base64url a) _ _); run_step; [|apply HE].
  run_step; [run_step; run_skip; run_step; [run_step|]; apply HE|].
  run_step. run_step. destruct (map_err _ (acs_canonical_request_target _ _)) as [target|] eqn:Ht; run_step; [|apply HE].
  run_step. run_step. destruct (map_err _ (signing_bytes _ _ _)) as [text|] eqn:Htext; run_step; [|apply HE].
  run_step. run_step. destruct (decode_exact (signature_base64url a) _ _) as [signature|] eqn:Hsig; run_step; [|apply HE].
  run_step. run_step. destruct (sv_signature_ok signature); run_step; [|apply HE].
  run_step. run_step. destruct (sv_key_ok key); run_step; [|apply HE].
  run_step; [|run_step; run_skip; run_step; [run_step|]; apply HE].
  run_step. apply HO. apply map_err_Ok in Ht, Htext. apply decode_exact_Ok in Hsig as [Hsig _].
  zbool. split; [done|]. split; [lia|]. split; [done|]. by exists target, text, signature.
Qed.

Lemma run_account_authentication account write c (Q : _ → _ → Prop) :
  (∀ row, accounts (c_db c) !! account = Some row →
     Q (Ok {| au_signing_key_id := a_signing_key_id row; au_signing_public_key := a_signing_public_key row |}) c) →
  (∀ e, Q (Err e) c) → run (account_authentication account write) c Q.
Proof.
  intros HO HE. unfold account_authentication. run_step. run_skip; run_step; [|apply HE].
  run_step. run_step. destruct (enforce_mode _ _ _); run_step; [|apply HE].
  run_step. run_step; [|intros; run_step; apply HE]. run_step. run_step. run_step.
  destruct (accounts (c_db c) !! account) as [row|] eqn:Hrow; cbn [ok_or]; run_step; [|apply HE].
  run_step. run_step. destruct (mode_parse _); run_step; [|apply HE].
  run_step. run_step. destruct (enforce_mode _ _ _); run_step; [|apply HE].
  run_step. run_step. case_match; run_step; [|apply HE]. run_step. by apply HO.
Qed.

Definition let_in (request : SignedRequest) (account : bytes) (d : Db) (a : AcsRequestAuthentication) : Prop :=
  parse_authentication (sr_headers request) = Ok a ∧ account_locator a = account
  ∧ ∃ row, accounts d !! account = Some row ∧ signing_key_id a = a_signing_key_id row
           ∧ signed_by a request (a_signing_public_key row).

Lemma run_verify_registered request account write c :
  run (verify_registered_request cfg request account write) c (λ r c',
    (∀ k e, request_nonces (c_db c) !! k = Some e → sr_now_epoch_ms request ≤ e → request_nonces (c_db c') !! k = Some e)
    ∧ ∀ u, r = Ok u → ∃ a, let_in request account (c_db c) a
      ∧ nonce_used (account, signing_key_id a, nonce_base64url a)
          (sr_now_epoch_ms request + ACS_SIGNATURE_CLOCK_WINDOW_MS) (sr_now_epoch_ms request) (c_db c) (Ok u) (c_db c')).
Proof.
  set (Q := λ r c', _). assert (∀ e, Q (Err e) c) as HE by (intros e; by split).
  unfold verify_registered_request, reject. run_step. run_step.
  destruct (parse_authentication (sr_headers request)) as [a|] eqn:Ha; run_step; [|apply HE].
  run_step; [run_step; run_skip; run_step; [run_step|]; apply HE|]. zbool.
  run_step. apply run_account_authentication; [|intros; run_step; apply HE]. intros row Hrow. run_step.
  run_step; [run_step; run_skip; run_step; [run_step|]; apply HE|]. zbool.
  run_step. apply run_verify_authentication; [|intros; run_step; apply HE]. intros Hsigned. run_step.
  run_step. run_skip; run_step; [|apply HE]. run_step. run_skip; run_step; [|apply HE].
  eapply run_mono; [apply run_consume_nonce|]. intros r c' [Hkeep Hok]. split; [done|]. intros u ->.
  exists a. split; [by repeat split; try done; exists row|]. split; [done|]. intros u' [= <-]. by eapply Hok.
Qed.

Lemma run_verify_creation signed request c :
  run (verify_account_creation_request signed request) c (λ r c',
    ∀ k e, request_nonces (c_db c) !! k = Some e → sr_now_epoch_ms signed ≤ e → request_nonces (c_db c') !! k = Some e).
Proof.
  set (Q := λ r c', _). assert (∀ r, Q r c) as HE by (intros r k e Hk _; exact Hk).
  unfold verify_account_creation_request, reject. run_step. run_skip; run_step; [|apply (HE (Ok []))].
  run_step. run_step. destruct (parse_authentication (sr_headers signed)) as [a'|e] eqn:Ha; run_step; [|apply (HE (Err e))].
  run_step; [run_step; run_skip; run_step; [run_step|]; apply (HE (Ok []))|].
  run_step. run_step. destruct (decode_exact (ca_signing_public_key_base64url request) _ _) as [key|e]; run_step; [|apply (HE (Err e))].
  run_step; [run_step; run_skip; run_step; [run_step|]; apply (HE (Ok []))|].
  run_step. run_skip; run_step; [|apply (HE (Ok []))].
  run_step. eapply run_mono; [apply run_consume_nonce|]. intros [u|e] c' [Hkeep _]; run_step; [run_step|]; exact Hkeep.
Qed.

(** Requests keep the nonces that are live, as long as the clock has not passed them. *)
Lemma perform_data q c :
  c_saved c = None → data_inv (c_db c) → run (perform cfg q) c (λ _ c', c_saved c' = None ∧ data_inv (c_db c')).
Proof.
  intros Hs Hinv. pose proof (proj1 Hinv) as Hrows. destruct (collects q) eqn:Hq.
  - destruct q; try done. simpl. eapply run_mono; [apply (Moves_ignore cfg collecting); [by apply Moves_run_gc|done|done]|].
    intros r c' (Hs' & Hst & _). split; [done|]. by eapply steps_data.
  - eapply run_mono; [by apply (perform_uncollected cfg Hret)|]. intros r c' [Hs' Hst]. split; [done|]. by eapply steps_data.
Qed.
Lemma perform_nonces q s k e :
  saved s = None → (∀ t, authenticates q = Some t → t ≤ e) → request_nonces (db s) !! k = Some e →
  request_nonces (db (perform cfg q s).2) !! k = Some e.
Proof.
  intros Hs Ht Hk. destruct (authenticates q) as [t|] eqn:Hq.
  - specialize (Ht t eq_refl). destruct q; try done; injection Hq as <-; simpl.
    + by apply (run_verify_registered signed account write (core s) s eq_refl).
    + unfold ignore. rewrite ST_bind_unfold. pose proof (run_verify_creation signed request (core s) s eq_refl k e Hk Ht) as Hr.
      by destruct (verify_account_creation_request signed request s) as [[b|err] s'].
  - destruct (keeps_perform cfg q Hq (request_nonces (db s)) s) as [-> _]; [|done].
    split; [done|]. intros d. by rewrite Hs.
Qed.
Lemma perform_all_nonces qs s k e :
  saved s = None → data_inv (db s) → Forall (λ q, ∀ t, authenticates q = Some t → t ≤ e) qs →
  request_nonces (db s) !! k = Some e → request_nonces (db (perform_all cfg qs s)) !! k = Some e.
Proof.
  intros Hs Hinv Hqs. revert s Hs Hinv. induction Hqs as [|q qs Hq _ IH]; intros s Hs Hinv Hk; [done|].
  destruct (perform_data q (core s) Hs Hinv s eq_refl) as [Hs1 Hinv1]. apply IH; [done|done|]. by apply perform_nonces.
Qed.

(** ** What authentication gives *)

(** A request is let in only if it was signed with the key registered for the account it
    names, over its method, target and body, within the clock window. *)
Theorem let_in_signed s request account write s' :
  verify_registered_request cfg request account write s = (Ok tt, s') →
  ∃ a row, parse_authentication (sr_headers request) = Ok a ∧ account_locator a = account
    ∧ accounts (db s) !! account = Some row ∧ signing_key_id a = a_signing_key_id row
    ∧ signed_by a request (a_signing_public_key row).
Proof.
  intros Hv. destruct (run_verify_registered request account write (core s) s eq_refl) as [_ Hok]. rewrite Hv in Hok.
  destruct (Hok tt eq_refl) as (a & (Hp & Ha & row & Hrow & Hk & Hs) & _). by exists a, row.
Qed.

(** C31: a signed request that was let in, and whose timestamp was not ahead of the clock then,
    is never let in again, whatever is requested meanwhile by a clock that does not pass
    the one of the second attempt. *)
Theorem single_use s request account write s1 a qs again write' :
  saved s = None → data_inv (db s) →
  verify_registered_request cfg request account write s = (Ok tt, s1) →
  parse_authentication (sr_headers request) = Ok a → timestamp_epoch_ms a ≤ sr_now_epoch_ms request →
  Forall (λ q, ∀ t, authenticates q = Some t → t ≤ sr_now_epoch_ms again) qs →
  sr_headers again = sr_headers request →
  (verify_registered_request cfg again account write' (perform_all cfg qs s1)).1 ≠ Ok tt.
Proof.
  intros Hs Hinv Hv Ha Hts Hqs Hh Hagain.
  assert (saved s1 = None ∧ data_inv (db s1)) as [Hs1 Hinv1].
  { destruct (perform_data (RqVerify request account write) (core s) Hs Hinv s eq_refl) as [Hs1 Hinv1].
    simpl in Hs1, Hinv1. by rewrite Hv in Hs1, Hinv1. }
  destruct (run_verify_registered request account write (core s) s eq_refl) as [_ Hok]. rewrite Hv in Hok.
  destruct (Hok tt eq_refl) as (a1 & (Hp & _) & [_ Hused]). rewrite Ha in Hp. injection Hp as <-.
  destruct (Hused tt eq_refl) as [Hnonce _]. simpl in Hnonce.
  destruct (run_verify_registered again account write' (core (perform_all cfg qs s1)) (perform_all cfg qs s1) eq_refl) as [_ Hok2].
  destruct (Hok2 tt Hagain) as (a2 & (Hp2 & _ & row & _ & _ & _ & Hwin & _) & [_ Hused2]). rewrite Hh, Ha in Hp2. injection Hp2 as <-.
  destruct (Hused2 tt eq_refl) as [_ Hdead].
  assert (sr_now_epoch_ms again ≤ sr_now_epoch_ms request + ACS_SIGNATURE_CLOCK_WINDOW_MS) as Hle by lia.
  assert (request_nonces (db (perform_all cfg qs s1)) !! (account, signing_key_id a, nonce_base64url a)
          = Some (sr_now_epoch_ms request + ACS_SIGNATURE_CLOCK_WINDOW_MS)) as Hlive.
  { apply perform_all_nonces; [done|done| |done]. eapply Forall_impl; [exact Hqs|]. intros q Hq t Ht. specialize (Hq t Ht). lia. }
  specialize (Hdead _ Hlive). lia.
Qed.
End access.
