(* ===== verification/AcsHttpCorrect.v ===== *)
(** * Requests to the cloud server are guarded

    A request changes the root, the objects and the events of the one account its route
    names, and is answered with that account's data, only if it was signed with the key
    registered for the account. *)

From Stdlib Require Import Strings.Byte.
From stdpp Require Import base gmap list strings sorting relations.
From S2P Require Import Prelude CloudRecords AcsContracts CloudAcs AcsLimits AcsStoreState AcsStore AcsGc AcsAuth AcsPolicy AcsHttp.
From S2P Require Import AcsStoreRun AcsStoreInv AcsStoreSteps AcsGcSteps AcsStoreOpen AcsStoreCorrect AcsAccess.

Local Open Scope Z_scope.

(** ** Guards *)

(** The account a route names, and what its handler has the signature checked over. *)
Definition route_account (r : Route) : option bytes :=
  match r with
  | RtReadObject a _ | RtCreateObject a _ | RtListObjects a | RtReadRoot a | RtSwapRoot a | RtTicket a => Some a
  | _ => None
  end.
Definition route_method (r : Route) : AcsHttpMethod :=
  match r with RtCreateObject _ _ | RtSwapRoot _ => AcsPut | RtTicket _ | RtCreateAccount | RtChallenge => AcsPost | _ => AcsGet end.
Definition route_signed (clock : nat → Z) (http : HttpRequest) : SignedRequest :=
  signed_request http (route_method (hq_route http)) (hq_query http)
    (if bool_decide (route_method (hq_route http) = AcsGet) then [] else default [] (hq_body http)) (clock 2%nat).

Section guards.
Context `{ServerLaws} `{HttpLibs} (secret : bytes) (policy : AcsRuntimePolicy) (cfg : StoreConfig).

(** The request was signed with the key of the account. *)
Definition authorized (clock : nat → Z) (http : HttpRequest) (account : bytes) (d : Db) : Prop :=
  ∃ a row, parse_authentication (hq_headers http) = Ok a ∧ account_locator a = account
    ∧ accounts d !! account = Some row ∧ signing_key_id a = a_signing_key_id row
    ∧ signed_by a (route_signed clock http) (a_signing_public_key row).

(** An operation touches one account, and only when [A] holds; it succeeds only then. *)
Definition Guards {B} (account : bytes) (A : Db → Prop) (m : M B) : Prop :=
  ∀ s, saved s = None →
    (∀ b, part b (db (m s).2) ≠ part b (db s) → b = account ∧ A (db s))
    ∧ ∀ x, (m s).1 = Ok x → A (db s).

Lemma guards_quiet {B C} account A (m : M B) (f : B → M C) :
  Quiet m → (∀ s x, (m s).1 = Ok x → Guards account A (f x)) → Guards account A (m ≫= f).
Proof.
  intros Hm Hf s Hs. rewrite ST_bind_unfold. specialize (Hm s). specialize (Hf s).
  apply (f_equal c_db) in Hm as Hd. apply (f_equal c_saved) in Hm as Hsv. simpl in Hd, Hsv.
  destruct (m s) as [[x|e] s1]; simpl in *.
  - destruct (Hf x eq_refl s1) as [HA HB]; [congruence|]. rewrite Hd in HA, HB. done.
  - split; [|done]. intros b. by rewrite Hd.
Qed.

Lemma keeps_part {B} (m : M B) b s : Keeps (part b) m → saved s = None → part b (db (m s).2) = part b (db s).
Proof. intros Hm Hs. destruct (Hm (part b (db s)) s) as [E _]; [|done]. split; [done|]. intros d. by rewrite Hs. Qed.

Lemma guards_verify {C} account request write (k : unit → M C) :
  (∀ b, account ≠ b → Keeps (part b) (k tt)) →
  Guards account (λ d, ∃ a, let_in request account d a) (_ ← verify_registered_request cfg request account write; k tt).
Proof.
  intros Hk s Hs.
  pose proof (run_verify_registered cfg request account write (core s) s eq_refl) as [_ Hlet].
  assert (∀ b, account ≠ b → part b (db ((_ ← verify_registered_request cfg request account write; k tt) s).2) = part b (db s)) as Hoth.
  { intros b Hne. apply keeps_part; [|done]. apply keeps_bind; [apply part_verify_registered|]. intros []. by apply Hk. }
  assert (∀ b, part b (db (verify_registered_request cfg request account write s).2) = part b (db s)) as Hsame.
  { intros b. apply keeps_part; [apply part_verify_registered|done]. }
  rewrite ST_bind_unfold in *. destruct (verify_registered_request cfg request account write s) as [[[]|e] s1]; simpl in *.
  - destruct (Hlet tt eq_refl) as (a & Ha & _). split; [|by exists a].
    intros b Hb. split; [|by exists a]. destruct (decide (account = b)) as [->|Hne]; [done|]. by destruct Hb; apply Hoth.
  - split; [|done]. intros b Hb. by destruct Hb.
Qed.

Lemma guards_mono {B} account (A A' : Db → Prop) (m : M B) : (∀ d, A d → A' d) → Guards account A m → Guards account A' m.
Proof. intros Himp Hm s Hs. destruct (Hm s Hs) as [HA HB]. split; [|eauto]. intros b Hb. destruct (HA b Hb). auto. Qed.

Lemma let_in_authorized clock http account request d :
  request = route_signed clock http → (∃ a, let_in request account d a) → authorized clock http account d.
Proof. intros -> (a & Hp & Ha & row & Hrow & Hk & Hs). by exists a, row. Qed.

(** ** Routes *)

#[local] Instance quiet_request_id : Quiet request_id.
Proof. intros s. unfold request_id. by destruct (pop_random (world s)) as [[] w]. Qed.
#[local] Instance quiet_json status a : Quiet (json status a).
Proof. unfold json. quiet_tac. Qed.
#[local] Instance quiet_error_response e : Quiet (error_response e).
Proof. unfold error_response. quiet_tac. Qed.
#[local] Instance quiet_malformed {A} e : Quiet (malformed (A:=A) e).
Proof. unfold malformed, increment_malformed_rejection. quiet_tac. Qed.
#[local] Instance quiet_require_contract c : Quiet (require_contract c).
Proof. unfold require_contract. quiet_tac. Qed.
#[local] Instance quiet_decode_body {A} (r : result bytes A) : Quiet (decode_body r).
Proof. unfold decode_body. quiet_tac. Qed.
#[local] Instance quiet_admit_network clock http : Quiet (admit_network secret policy cfg clock http).
Proof. unfold admit_network. quiet_tac. Qed.
#[local] Instance quiet_admit_body clock network http : Quiet (admit_body policy cfg clock network http).
Proof. unfold admit_body. quiet_tac. Qed.
#[local] Instance quiet_split_pairs l : Quiet (split_pairs l).
Proof. induction l as [|p l IH]; simpl; quiet_tac. Qed.
#[local] Instance quiet_query_pairs q : Quiet (http_query_pairs q).
Proof. unfold http_query_pairs. quiet_tac. Qed.
#[local] Instance quiet_list_query_loop q l : Quiet (list_query_loop q l).
Proof. revert q. induction l as [|[key value] l IH]; intros q; simpl; quiet_tac. Qed.
#[local] Instance quiet_parse_list_query q : Quiet (parse_list_query q).
Proof. unfold parse_list_query. quiet_tac. Qed.
#[local] Instance quiet_parse_event_query q : Quiet (parse_event_query q).
Proof. unfold parse_event_query. quiet_tac. Qed.
#[local] Instance quiet_health clock : Quiet (handle_health clock).
Proof. unfold handle_health, health. quiet_tac. Qed.

(** An account's handler, once its signature is checked. *)
Ltac guard_tac clock http :=
  repeat first [apply guards_quiet; [apply _ || (case_match; apply _)|intros ? ? _]
    | eapply guards_mono; [intros d; apply (let_in_authorized clock http); unfold route_signed;
        repeat match goal with E : hq_route http = _ |- _ => rewrite E | E : hq_body http = _ |- _ => rewrite E end; reflexivity|];
      apply (guards_verify _ _ _ (λ _, _)); intros b Hne].
#[local] Hint Resolve part_create_object part_compare_and_swap_root part_create_ticket part_challenge part_create_account
  part_verify_creation part_consume_ticket : keeps.

Lemma dispatch_guards clock network http body account :
  hq_body http = Some body → route_account (hq_route http) = Some account →
  Guards account (authorized clock http account) (dispatch cfg clock network http body).
Proof.
  intros Hbody Hacc. unfold dispatch.
  destruct (hq_route http) eqn:Hroute; try done; injection Hacc as ->;
    unfold handle_read_object, handle_create_object, handle_list_objects, handle_read_root, handle_swap_root, handle_ticket;
    guard_tac clock http; keep_tac.
Qed.

Lemma dispatch_open clock network http body b :
  route_account (hq_route http) = None → Keeps (part b) (dispatch cfg clock network http body).
Proof.
  intros Hacc. unfold dispatch. destruct (hq_route http); try done;
    unfold handle_issue_challenge, handle_create_account, handle_events, unknown_route, method_not_allowed; keep_tac.
Qed.

Lemma serve_guards clock http account :
  route_account (hq_route http) = Some account →
  Guards account (authorized clock http account)
    (network ← admit_network secret policy cfg clock http;
     body ← admit_body policy cfg clock network http; dispatch cfg clock network http body).
Proof.
  intros Hacc. apply guards_quiet; [apply _|]. intros s0 network _. apply guards_quiet; [apply _|]. intros s1 body Hb.
  apply dispatch_guards; [|done]. unfold admit_body in Hb. destruct (hq_body http) as [body'|]; [|done].
  case_match; [done|]. rewrite ST_bind_unfold in Hb. destruct (admit_network_ingress _ _ _ _ s1) as [[[]|e] s2]; [|done].
  by injection Hb as ->.
Qed.
Lemma serve_open clock http b :
  route_account (hq_route http) = None →
  Keeps (part b)
    (network ← admit_network secret policy cfg clock http;
     body ← admit_body policy cfg clock network http; dispatch cfg clock network http body).
Proof.
  intros Hacc. apply keeps_bind; [apply keeps_quiet, _|]. intros network.
  apply keeps_bind; [apply keeps_quiet, _|]. intros body. by apply dispatch_open.
Qed.

Lemma request_id_ok s : ∃ id s', request_id s = (Ok id, s').
Proof. unfold request_id. destruct (pop_random (world s)) as [r w]. by eexists _, _. Qed.
Lemma error_status e s : ∃ r, (error_response e s).1 = Ok r ∧ rp_status r ≠ 200.
Proof.
  assert (http_status (code e) ≠ 200) as Hne by by destruct (code e).
  unfold error_response. destruct (request_id_ok s) as (id & s1 & E1). rewrite ST_bind_unfold, E1, ST_bind_unfold.
  unfold catch, json at 1. rewrite ST_bind_unfold. simpl. destruct (request_id_ok s1) as (id2 & s2 & E2).
  destruct (json_answer _) as [body|e']; simpl; [|rewrite ST_bind_unfold, ST_bind_unfold, E2; simpl];
    destruct (retry_after_ms e); eexists; (split; [reflexivity|done]).
Qed.

(** C4: every request is answered. It changes the root, objects and events of an account only
    if its route names the account and it was signed with the account's key; a request to an
    account succeeds only then. *)
Theorem http_guarded clock http s r s' :
  saved s = None → serve_http secret policy cfg clock http s = (r, s') →
  ∃ response, r = Ok response
  ∧ (∀ account, part account (db s') ≠ part account (db s) →
       route_account (hq_route http) = Some account ∧ authorized clock http account (db s))
  ∧ ∀ account, route_account (hq_route http) = Some account → rp_status response = 200 →
      authorized clock http account (db s).
Proof.
  intros Hs Hserve. set (h := network ← admit_network secret policy cfg clock http;
    body ← admit_body policy cfg clock network http; dispatch cfg clock network http body).
  change (serve_http secret policy cfg clock http) with (respond h) in Hserve.
  assert ((∀ account, part account (db (h s).2) ≠ part account (db s) →
             route_account (hq_route http) = Some account ∧ authorized clock http account (db s))
    ∧ ∀ account x, route_account (hq_route http) = Some account → (h s).1 = Ok x → authorized clock http account (db s)) as [Hch Hok].
  { destruct (route_account (hq_route http)) as [account|] eqn:Hacc.
    - destruct (serve_guards clock http account Hacc s Hs) as [HA HB]. fold h in HA, HB. split.
      + intros b Hb. destruct (HA b Hb) as [-> Hau]. done.
      + intros ? x [= <-] Hx. by eapply HB.
    - split; [|done]. intros b Hb. destruct Hb. apply keeps_part; [|done]. by apply serve_open. }
  unfold respond in Hserve. rewrite ST_bind_unfold in Hserve. unfold catch in Hserve. destruct (h s) as [[response|e] s1]; simpl in *.
  - injection Hserve as <- <-. exists response. split; [done|]. split; [done|]. intros account Ha _. by eapply Hok.
  - destruct (error_status e s1) as (response & Hr & Hne). pose proof (quiet_error_response e s1) as Hq.
    apply (f_equal c_db) in Hq. rewrite Hserve in Hr, Hq. simpl in Hr, Hq. subst r.
    exists response. split; [done|]. rewrite Hq. split; [done|]. done.
Qed.
End guards.
