(* ===== verification/AcsStream.v ===== *)
(** * Event streams of the cloud server miss nothing

    A stream with the queue of records it has not received yet, beside everything else the
    server does. What it sends is true, and once it has received all it has told its client
    of the current root. *)

From Stdlib Require Import Strings.Byte.
From stdpp Require Import base gmap list strings sorting relations.
From S2P Require Import Prelude AcsContracts CloudRecords CloudAcs AcsLimits AcsStoreState AcsStore AcsGc AcsAuth.
From S2P Require Import AcsStoreRun AcsStoreInv AcsStoreSteps AcsGcSteps AcsStoreOpen AcsStoreCorrect AcsServer.
From S2P Require Import AcsServer AcsPolicy AcsHttp.

Local Open Scope Z_scope.

(** ** What the cloud server sends to its event streams

    Only a swap of a root that was committed sends anything, whatever else the server does. *)

Class Silent {A} (m : M A) : Prop := silent s : events (m s).2 = events s.

Lemma silent_quiet {A} (m : M A) : Quiet m → Silent m.
Proof. intros Hq s. specialize (Hq s). by apply (f_equal c_events) in Hq. Qed.
Lemma silent_bind {A B} (m : M A) (f : A → M B) : Silent m → (∀ a, Silent (f a)) → Silent (m ≫= f).
Proof. intros Hm Hf s. rewrite ST_bind_unfold. specialize (Hm s). destruct (m s) as [[a|e] s1]; simpl in *; [|done]. by rewrite Hf. Qed.
Lemma silent_catch {A} (m : M A) : Silent m → Silent (catch m).
Proof. intros Hm s. specialize (Hm s). unfold catch. by destruct (m s). Qed.
Lemma silent_for_each {A} (body : A → M unit) l : (∀ x, Silent (body x)) → Silent (for_each body l).
Proof. intros Hb. induction l as [|x l IH]; simpl; [by apply silent_quiet, quiet_ret|]. by apply silent_bind. Qed.
Lemma silent_modify f : (∀ s, events (f s) = events s) → Silent (modify f).
Proof. intros Hf s. apply Hf. Qed.
Lemma silent_fold_m {A B} (body : B → A → M B) acc l : (∀ acc x, Silent (body acc x)) → Silent (fold_m body acc l).
Proof.
  intros Hb. revert acc. induction l as [|x l IH]; intros acc; simpl; [by apply silent_quiet, quiet_ret|].
  apply silent_bind; [apply Hb|]. intros acc'. apply IH.
Qed.
Lemma silent_execute f : Silent (execute f).
Proof. unfold execute. apply silent_bind; [apply silent_quiet, _|]. intros _. by apply silent_modify. Qed.
Lemma silent_try_execute f : Silent (try_execute f).
Proof.
  unfold try_execute. apply silent_bind; [apply silent_quiet, _|]. intros _. apply silent_bind; [apply silent_quiet, _|]. intros r.
  apply silent_bind; [apply silent_quiet, _|]. intros d. by apply silent_modify.
Qed.
Lemma silent_execute_returning {A} (f : Db → result bytes (A * Db)) : Silent (execute_returning f).
Proof.
  unfold execute_returning. apply silent_bind; [apply silent_quiet, _|]. intros _. apply silent_bind; [apply silent_quiet, _|]. intros r.
  apply silent_bind; [apply silent_quiet, _|]. intros d. apply silent_bind; [by apply silent_modify|]. intros _. apply silent_quiet, _.
Qed.
Lemma silent_commit : Silent commit.
Proof. unfold commit. apply silent_bind; [apply silent_quiet, _|]. intros _. by apply silent_modify. Qed.
Lemma silent_transaction {A} (body : M A) : Silent body → Silent (transaction body).
Proof.
  intros Hb s. unfold transaction. assert (Silent (_ ← begin_immediate; body)) as Hall.
  { apply silent_bind; [|done]. unfold begin_immediate. apply silent_bind; [apply silent_quiet, _|]. intros _. by apply silent_modify. }
  specialize (Hall s). destruct ((_ ← begin_immediate; body) s) as [r s']. simpl in *. unfold rollback. by destruct (saved s').
Qed.
Lemma silent_ignore {A} (m : M A) : Silent m → Silent (ignore m).
Proof. intros Hm. unfold ignore. apply silent_bind; [done|]. intros a. by apply silent_quiet, quiet_ret. Qed.

Create HintDb silent.
#[export] Hint Resolve silent_execute silent_try_execute silent_execute_returning silent_commit : silent.
Ltac silent_tac :=
  repeat match goal with
  | |- Silent (transaction _) => apply silent_transaction
  | |- Silent (catch _) => apply silent_catch
  | |- Silent (for_each _ _) => apply silent_for_each; intros ?
  | |- Silent (fold_m _ _ _) => apply silent_fold_m; intros ? ?
  | |- Silent _ => solve [eauto 2 with silent]
  | |- Silent _ => solve [apply silent_quiet; quiet_tac]
  | |- Silent (modify _) => apply silent_modify; intros ?; done
  | |- Silent (_ ≫= _) => apply silent_bind; [|intros ?]
  | |- Silent (match _ with _ => _ end) => case_match
  end.

Section silent.
Context `{ServerLaws} (cfg : StoreConfig).

Lemma silent_ensure_new_storage_write now : Silent (ensure_new_storage_write cfg now).
Proof. unfold ensure_new_storage_write. silent_tac. Qed.
Lemma silent_refuse_usage {A} e now : Silent (A:=A) (refuse_usage e now).
Proof. unfold refuse_usage. silent_tac. Qed.
Lemma silent_release account n k : Silent (release_account_usage account n k).
Proof. unfold release_account_usage. silent_tac. Qed.
Lemma silent_reserve account n limit : Silent (reserve_account_usage account n limit).
Proof. unfold reserve_account_usage. silent_tac. Qed.
Lemma silent_bucket key c now : Silent (reserve_durable_token_bucket key c now).
Proof. unfold reserve_durable_token_bucket. silent_tac. Qed.
Lemma silent_consume_nonce account key nonce expires now : Silent (consume_nonce account key nonce expires now).
Proof. unfold consume_nonce. silent_tac. Qed.
Lemma silent_write_blob key content : Silent (write_blob key content).
Proof. intros s. destruct (run_write_blob key content (core s) s eq_refl) as [(_ & _ & E & _) _]. exact E. Qed.
Lemma silent_remove_file path : Silent (remove_file_if_present path).
Proof. unfold remove_file_if_present. silent_tac. Qed.
#[local] Hint Resolve silent_ensure_new_storage_write silent_refuse_usage silent_release silent_reserve silent_bucket
  silent_consume_nonce silent_write_blob silent_remove_file : silent.
Lemma silent_create_object_row account i v now : Silent (create_object_row cfg account i v now).
Proof. unfold create_object_row. silent_tac. Qed.
Lemma silent_finish account i size now written : Silent (finish_upload account i size now written).
Proof. unfold finish_upload, remove_pending_object, object_created. silent_tac. Qed.
Lemma silent_gc_account cutoff acc account : Silent (gc_account cutoff acc account).
Proof. unfold gc_account, sweep_object. silent_tac. Qed.
Lemma silent_gc_files cutoff acc : Silent (gc_files cutoff acc).
Proof. unfold gc_files, remove_deleted, remove_orphan. silent_tac. Qed.
#[local] Hint Resolve silent_create_object_row silent_finish silent_gc_account silent_gc_files : silent.

(** Only swaps send events, and a start forgets the streams. *)
Lemma silent_phase ph :
  (∀ a r n t, ph ≠ PhRequest (RqSwapRoot a r n t)) → ph ≠ PhStart → Silent (phase_op cfg ph).
Proof.
  intros Hswap Hstart. destruct ph as [q| | | | | |]; simpl; try apply silent_ignore; try done; try solve [silent_tac].
  destruct q; simpl; try apply silent_ignore; try solve [apply silent_quiet; quiet_tac].
  - unfold issue_creation_challenge. silent_tac.
  - unfold verify_registered_request, reject. silent_tac.
  - unfold verify_account_creation_request, reject. silent_tac.
  - unfold create_account. silent_tac.
  - unfold create_object. silent_tac.
  - by destruct (Hswap account request network now).
  - unfold create_sse_ticket. silent_tac.
  - unfold consume_sse_ticket. silent_tac.
  - unfold set_service_mode. silent_tac.
  - unfold resume_writes, resume_writes_inner. silent_tac.
  - unfold force_resume_writes, resume_writes_inner. silent_tac.
  - unfold set_account_mode. silent_tac.
  - unfold set_account_quota. silent_tac.
  - unfold delete_account. silent_tac.
  - unfold run_gc, run_gc_inner. silent_tac.
Qed.
End silent.

Lemma try_map_snoc {E A B} (f : A → result E B) l x l' :
  try_map f (l ++ [x]) = Ok l' → ∃ l1 y, l' = l1 ++ [y] ∧ f x = Ok y.
Proof.
  revert l'. induction l as [|a l IH]; simpl; intros l' (y & Hy & Hl)%bind_Ok.
  - injection Hl as <-. by exists [], y.
  - apply bind_Ok in Hl as (l2 & Hl2 & [= <-]). destruct (IH _ Hl2) as (l1 & z & -> & Hz). by exists (y :: l1), z.
Qed.

(** ** A stream beside the store *)

(** The handler of [events] from its subscription on: it has not subscribed yet, it has, it
    reads what the stream starts with, it sends that, it streams, it waits for an answer of
    the store, or it has ended. *)
Inductive Tap :=
| Absent | Subscribed | Starting (rd : Reading (list AcsSseEvent)) | Opening (st : EventStream) (initial : list AcsSseEvent)
| Streaming (st : EventStream) | Asking (st : EventStream) (lagged : bool) (rd : Reading AcsSseEvent) | Ended.
(** The records that were committed and are not yet sent, and those the stream has to take. *)
Record Sys := {
  y_store : Store; y_tap : Tap; y_sending : list RootEventRecord; y_queue : list RootEventRecord; y_out : list SseMessage }.

(** What happens next: the server does something, or sends a record of what it committed; the
    handler subscribes, starts to read from a cursor, gets its next statement or answer, sends
    the next of the first events; the stream takes a record, notices that records were dropped,
    its heartbeat is due, or its client goes. *)
Inductive Act :=
| AcPhase (ph : Phase) | AcSend | AcSubscribe | AcStart (cursor : option Z) | AcRead (now : Z) | AcOpen (now : Z)
| AcReceive (now : Z) | AcLag (dropped : nat) (now : Z) | AcHeartbeat (now : Z) | AcClose (now : Z).

Section stream.
Context `{ServerLaws} `{HttpLibs} (cfg : StoreConfig) (account network : bytes).

Definition move (s : Store) (tap : Tap) (y : Sys) : Sys :=
  {| y_store := s; y_tap := tap; y_sending := y_sending y; y_queue := y_queue y; y_out := y_out y |}.
Definition put_queue (queue : list RootEventRecord) (y : Sys) : Sys :=
  {| y_store := y_store y; y_tap := y_tap y; y_sending := y_sending y; y_queue := queue; y_out := y_out y |}.
(** The stream takes a step on the store. *)
Definition emit (after : EventStream → Tap) (m : M (option EventStream * list SseMessage)) (y : Sys) : Sys :=
  match m (y_store y) with
  | (Ok (st, sent), s) =>
      {| y_store := s; y_tap := match st with Some st => after st | None => Ended end;
         y_sending := y_sending y; y_queue := y_queue y; y_out := y_out y ++ sent |}
  | (Err _, s) => move s Ended y
  end.
Definition on_stream (input : StreamInput) (now : Z) (y : Sys) : Sys :=
  match y_tap y with
  | Streaming st =>
      match stream_step cfg st input now with
      | Goes m => emit Streaming m y
      | Asks lagged rd => move (y_store y) (Asking st lagged rd) y
      end
  | _ => y
  end.
Definition first_state : EventStream := {| es_account := account; es_network := network; es_last_sequence := 0 |}.
(** The guard ends the connection. *)
Definition hang_up (y : Sys) : Sys := move (end_sse_connection account network (y_store y)).2 Ended y.
Definition read_step (now : Z) (y : Sys) : Sys :=
  match y_tap y with
  | Starting (Done (Ok initial)) => move (y_store y) (Opening first_state initial) y
  | Starting (Done (Err _)) => hang_up y
  | Starting rd => let r := read_on rd (y_store y) in move r.2 (Starting r.1) y
  | Asking st lagged (Done answer) => emit Streaming (stream_asked cfg st lagged answer now) y
  | Asking st lagged rd => let r := read_on rd (y_store y) in move r.2 (Asking st lagged r.1) y
  | _ => y
  end.

Definition act (a : Act) (y : Sys) : Sys :=
  match a with
  | AcPhase ph =>
      let s := (phase_op cfg ph (y_store y)).2 in
      {| y_store := s; y_tap := y_tap y; y_sending := y_sending y ++ drop (length (events (y_store y))) (events s);
         y_queue := y_queue y; y_out := y_out y |}
  | AcSend =>
      match y_sending y with
      | r :: sending =>
          {| y_store := y_store y; y_tap := y_tap y; y_sending := sending;
             y_queue := match y_tap y with Absent => y_queue y | _ => y_queue y ++ [r] end; y_out := y_out y |}
      | [] => y
      end
  | AcSubscribe => match y_tap y with Absent => move (y_store y) Subscribed y | _ => y end
  | AcStart cursor =>
      match y_tap y with Subscribed => move (y_store y) (Starting (initial_sse_events account cursor)) y | _ => y end
  | AcRead now => read_step now y
  | AcOpen now =>
      match y_tap y with
      | Opening st [] => move (y_store y) (Streaming st) y
      | Opening st (e :: initial) => emit (λ st, Opening st initial) (stream_first cfg st e now) y
      | _ => y
      end
  | AcReceive now =>
      match y_tap y, y_queue y with
      | Streaming _, r :: queue => on_stream (InReceived r) now (put_queue queue y)
      | _, _ => y
      end
  | AcLag dropped now =>
      match y_tap y with Streaming _ => on_stream InLagged now (put_queue (drop dropped (y_queue y)) y) | _ => y end
  | AcHeartbeat now => on_stream InHeartbeat now y
  | AcClose now =>
      match y_tap y with
      | Absent | Ended => y
      | Streaming _ => on_stream InDisconnected now y
      | _ => hang_up y
      end
  end.
Definition commits_of (a : Act) (y : Sys) : list bytes :=
  match a with
  | AcPhase ph => (filter (λ ah, ah.1 = account) (committed_by cfg ph (y_store y))).*2
  | _ => []
  end.
(** The changes that were committed, and where all ends. *)
Fixpoint run_acts (l : list Act) (y : Sys) : list bytes * Sys :=
  match l with
  | [] => ([], y)
  | a :: l => let r := run_acts l (act a y) in (commits_of a y ++ r.1, r.2)
  end.

(** ** True messages *)

(** What an event says of the root. *)
Definition event_root (e : AcsSseEvent) : Z * option bytes :=
  match e with
  | SseReady _ revision hash | SseReset _ revision hash | SseHeartbeat _ revision hash => (revision, hash)
  | SseRootChanged _ revision hash => (revision, Some hash)
  end.
Definition is_change (e : AcsSseEvent) : bool := match e with SseRootChanged _ _ _ => true | _ => false end.
(** It is the root after some number of changes: the one the event carries when it is that of
    a change, and no smaller one otherwise. *)
Definition tells (h : list bytes) (e : AcsSseEvent) : Prop :=
  0 ≤ sequence e ≤ (event_root e).1 ∧ (event_root e).1 ≤ len h ∧ (event_root e).2 = hash_at h (event_root e).1
  ∧ (is_change e = true → (event_root e).1 = sequence e).

Lemma len_prefix (h h' : list bytes) : h `prefix_of` h' → len h ≤ len h'.
Proof. intros [k ->]. rewrite len_app. pose proof (len_nonneg k). lia. Qed.
Lemma hash_at_prefix h h' n : h `prefix_of` h' → 0 ≤ n ≤ len h → hash_at h' n = hash_at h n.
Proof.
  intros [k ->] Hn. unfold hash_at. destruct (n =? 0) eqn:Hz; [done|]. zbool. rewrite lookup_app_l; [done|]. unfold len in Hn. lia.
Qed.
Lemma tells_prefix h h' e : h `prefix_of` h' → tells h e → tells h' e.
Proof.
  intros Hp (Hs & Hr & Hh & Hc). pose proof (len_prefix _ _ Hp). split; [done|]. split; [lia|]. split; [|done].
  rewrite (hash_at_prefix h) by (done || lia). done.
Qed.
Lemma hash_at_last h : hash_at h (len h) = last h.
Proof.
  unfold hash_at. destruct h as [|x h] using rev_ind; [done|]. rewrite last_snoc. unfold len. rewrite length_app. simpl.
  rewrite (proj2 (Z.eqb_neq _ 0)) by lia. apply list_lookup_middle. lia.
Qed.
Lemma tells_change h k hash : 1 ≤ k ≤ len h → h !! Z.to_nat (k - 1) = Some hash → tells h (SseRootChanged k k hash).
Proof.
  intros Hk Hh. split; [simpl; lia|]. split; [simpl; lia|]. split; [|done]. simpl. unfold hash_at.
  by rewrite (proj2 (Z.eqb_neq _ 0)), Hh by lia.
Qed.

(** ** Readings beside changes *)

(** Whatever is committed before each of its statements, a reading that answers does so
    with [Post] of the history then. *)
Fixpoint reads {A} (Post : list bytes → A → Prop) (rd : Reading A) (h : list bytes) : Prop :=
  match rd with
  | Done (Ok a) => Post h a
  | Done (Err _) => True
  | Select q k => ∀ h' s b, h `prefix_of` h' → history (db s) account h' → (q s).1 = Ok b → reads Post (k b) h'
  end.
Definition grows {A} (Post : list bytes → A → Prop) : Prop := ∀ h h' a, h `prefix_of` h' → Post h a → Post h' a.

Lemma reads_grow {A} (Post : list bytes → A → Prop) rd h h' : grows Post → h `prefix_of` h' → reads Post rd h → reads Post rd h'.
Proof.
  intros HP Hp. destruct rd as [[a|e]|C q k]; simpl; [by apply HP|done|]. intros Hr h2 s b Hp2. apply Hr. by etrans.
Qed.
Lemma reads_impl {A} (Post Post' : list bytes → A → Prop) rd h :
  (∀ h' a, Post h' a → Post' h' a) → reads Post rd h → reads Post' rd h.
Proof.
  intros HP. revert h. induction rd as [[a|e]|C q k IH]; simpl; intros h Hr; [by apply HP|done|]. intros h' s b Hp Hh Hq.
  eapply IH, Hr; done.
Qed.
Lemma reads_chain {A B} (Post : list bytes → B → Prop) (m : Reading A) (f : A → Reading B) h :
  reads (λ h' a, reads Post (f a) h') m h → reads Post (m ≫= f) h.
Proof.
  revert h. induction m as [[a|e]|C q k IH]; intros h Hm; [done|done|]. intros h' s b Hp Hh Hq. eapply IH, Hm; done.
Qed.
Lemma reads_select {A} (Post : list bytes → A → Prop) (q : M A) h :
  (∀ h' s a, h `prefix_of` h' → history (db s) account h' → (q s).1 = Ok a → Post h' a) → reads Post (read_one q) h.
Proof. intros Hq h' s b Hp Hh Hb. by eapply Hq. Qed.
Lemma reads_prefix {A} (rd : Reading A) h : reads (λ h' _, h `prefix_of` h') rd h.
Proof.
  assert (∀ h1, h `prefix_of` h1 → reads (λ h' _, h `prefix_of` h') rd h1) as Hall; [|by apply Hall].
  induction rd as [[a|e]|C q k IH]; simpl; intros h1 Hp; [done|done|]. intros h' s b Hp' _ _. apply IH. by etrans.
Qed.
Lemma reads_on {A} (Post : list bytes → A → Prop) rd h s :
  history (db s) account h → reads Post rd h → reads Post (read_on rd s).1 h.
Proof.
  destruct rd as [r|C q k]; [done|]. intros Hh Hr. simpl. specialize (Hr h s). destruct (q s) as [[b|e] s1]; [|done].
  by apply Hr.
Qed.

(** ** What the readings answer *)

Definition state_true (n0 : Z) (h : list bytes) (state : Z * Z * option bytes) : Prop :=
  let '(n, revision, hash) := state in n0 ≤ n ≤ revision ∧ revision ≤ len h ∧ hash = hash_at h revision.
(** The events a stream starts with: true, and the last one is as new as [n0]. *)
Definition first_true (n0 : Z) (h : list bytes) (evs : list AcsSseEvent) : Prop :=
  ∃ n, n0 ≤ n ≤ len h ∧ (∃ e, last evs = Some e ∧ sequence e = n) ∧ Forall (λ e, tells h e ∧ sequence e ≤ n) evs.
Definition beat_true (n0 : Z) (h : list bytes) (e : AcsSseEvent) : Prop :=
  ∃ n revision hash, e = SseHeartbeat n revision hash ∧ n0 ≤ n ∧ tells h e.

Lemma first_grows n0 : grows (first_true n0).
Proof.
  intros h h' evs Hp (n & Hn & Hl & Hall). pose proof (len_prefix _ _ Hp). exists n. split; [lia|]. split; [done|].
  eapply Forall_impl; [exact Hall|]. intros e [Ht ?]. split; [by eapply tells_prefix|done].
Qed.
Lemma beat_grows n0 : grows (beat_true n0).
Proof. intros h h' e Hp (n & rev & hash & He & Hn & Ht). exists n, rev, hash. split; [done|]. split; [done|]. by eapply tells_prefix. Qed.

(** The number is read first, the root after it. *)
Lemma current_state_reads h : reads (state_true (len h)) (current_event_state account) h.
Proof.
  unfold current_event_state. apply reads_chain, reads_select. intros h1 s1 found Hp1 Hh1 Hf.
  apply reads_chain. destruct (event_sequence_at account h1 s1 found Hh1 Hf) as [->| ->]; [done|].
  apply reads_chain, reads_select. intros h2 s2 root Hp2 Hh2 Hr. destruct (root_at account h2 s2 root Hh2 Hr) as [E1 E2].
  simpl. rewrite E1, E2, hash_at_last. pose proof (len_prefix _ _ Hp1). pose proof (len_prefix _ _ Hp2). split; [lia|]. split; [lia|done].
Qed.
Lemma heartbeat_reads h : reads (beat_true (len h)) (heartbeat_event account) h.
Proof.
  unfold heartbeat_event. apply reads_chain. eapply reads_impl; [|apply current_state_reads].
  intros h' [[n rev] hash] (Hn & Hr & Hh). exists n, rev, hash. pose proof (len_nonneg h). split; [done|]. split; [lia|].
  split; [simpl; lia|]. split; [done|]. split; [done|]. done.
Qed.

Lemma one_first n0 n rev hash h e :
  e = SseReady n rev hash ∨ e = SseReset n rev hash → 0 ≤ n0 → state_true n0 h (n, rev, hash) → first_true n0 h [e].
Proof.
  intros He Hpos (Hn & Hr & Hh). exists n. assert (tells h e ∧ sequence e = n) as [Ht Hs].
  { destruct He as [->| ->]; (split; [|done]); (split; [simpl; lia|]); (split; [done|]); split; done. }
  split; [lia|]. split; [by exists e|]. apply Forall_singleton. split; [done|lia].
Qed.

(** The events after a cursor, from a table that may have been trimmed beyond it. *)
Lemma later_true h lo n s later :
  1 ≤ lo ≤ Z.max 1 (len h) → retained h lo (events_of account (db s)) → 0 ≤ n ≤ len h →
  (select_later_events account n s).1 = Ok later →
  Forall (λ e, tells h e ∧ sequence e ≤ len h) later
  ∧ (later = [] ∧ n = len h ∨ ∃ e, last later = Some e ∧ sequence e = len h).
Proof.
  intros Hlo Hm Hn Hl%try_query_Ok. apply bind_Ok in Hl as (_ & _ & Hl). set (m := events_of account (db s)) in *.
  assert (∀ kv e, event_of_row kv = Ok e → m !! kv.1 = Some kv.2 → tells h e ∧ sequence e = kv.1) as Hrow.
  { intros [k r] e He Hk. simpl in Hk. specialize (Hm k). rewrite Hk in Hm. destruct Hm as (Hr & Hrev & Hh).
    unfold event_of_row in He. apply bind_Ok in He as (x & [-> _]%row_u64_Ok & He). apply bind_Ok in He as (y & [-> _]%row_u64_Ok & [= <-]).
    simpl. rewrite Hrev. split; [|done]. apply tells_change; [lia|done]. }
  split.
  - apply Forall_forall. intros e He. destruct (try_map_elem _ _ _ e Hl He) as (kv & Hkv & Hf).
    unfold events_in_order in Hkv. rewrite merge_sort_Permutation in Hkv. destruct kv as [k r].
    apply elem_of_map_to_list, map_lookup_filter_Some in Hkv as [Hk _]. destruct (Hrow (k, r) e Hf Hk) as [Ht Hs].
    split; [done|]. rewrite Hs. simpl. specialize (Hm k). rewrite Hk in Hm. lia.
  - rewrite (events_dense _ (n + 1) (len h - n)) in Hl.
    2: { intros k e [Hk Hlt]%map_lookup_filter_Some. simpl in Hlt. specialize (Hm k). rewrite Hk in Hm. lia. }
    destruct (decide (n = len h)) as [->|Hne]; [left; rewrite Z.sub_diag in Hl; by injection Hl as <-|right].
    replace (len h - n) with (Z.of_nat (S (Z.to_nat (len h - n - 1)))) in Hl by lia. rewrite seqZ_S in Hl.
    unfold picked in Hl. rewrite omap_app in Hl.
    replace (n + 1 + Z.of_nat (Z.to_nat (len h - n - 1))) with (len h) in Hl by lia.
    destruct (retained_some h lo m Hm (len h)) as (hash & _ & r & Hr & _); [lia|].
    simpl in Hl. rewrite map_lookup_filter, Hr in Hl. simpl in Hl. case_guard as Hg; [|simpl in Hg; lia]. simpl in Hl.
    apply try_map_snoc in Hl as (l1 & e & -> & He). exists e. rewrite last_snoc. split; [done|]. by apply (Hrow (len h, r) e He).
Qed.

Lemma event_state_reads h n : 0 ≤ n ≤ len h →
  reads (λ h' x, h `prefix_of` h' ∧ x = (n, hash_at h n)) (event_state_at account n) h.
Proof.
  intros Hn. unfold event_state_at. destruct (n =? 0) eqn:Hz; zbool; [by subst n|].
  apply reads_chain, reads_select. intros h' s [x|] Hp Hh Hx; [|done]. split; [done|]. destruct Hh as (_ & _ & lo & Hlo & Hm).
  pose proof (len_prefix _ _ Hp). rewrite <- (hash_at_prefix h h') by (done || lia).
  eapply (event_at_cursor account h' lo n s); try done; lia.
Qed.
Lemma cursor_first n0 h n hash later :
  0 ≤ n → n0 ≤ len h → n ≤ len h → hash = hash_at h n → Forall (λ e, tells h e ∧ sequence e ≤ len h) later →
  later = [] ∧ n = len h ∨ (∃ e, last later = Some e ∧ sequence e = len h) → first_true n0 h (SseReady n n hash :: later).
Proof.
  intros Hpos Hn0 Hn -> Hall Hlast. exists (len h). split; [lia|]. split.
  - destruct Hlast as [[-> ->]|(e & He & Hs)]; [by eexists|]. exists e. split; [|done].
    destruct later as [|x later]; [done|]. by rewrite last_cons_cons.
  - apply Forall_cons. split; [|done]. split; [|done]. split; [simpl; lia|]. split; [done|]. split; [done|]. done.
Qed.
Lemma initial_reads h cursor :
  (∀ n, cursor = Some n → 0 ≤ n) → reads (first_true (len h)) (initial_sse_events account cursor) h.
Proof.
  intros Hcur. pose proof (len_nonneg h) as Hpos. unfold initial_sse_events.
  apply reads_chain. eapply reads_impl; [|apply (reads_prefix _ h)]. intros h0 [] Hp0.
  apply reads_chain. eapply reads_impl; [|apply current_state_reads]. intros h1 [[n rev] hash] Hst.
  assert (state_true (len h) h1 (n, rev, hash)) as Hst1.
  { pose proof (len_prefix _ _ Hp0). destruct Hst as (? & ?). split; [lia|done]. }
  destruct cursor as [k|]; [|by eapply one_first; eauto]. specialize (Hcur k eq_refl).
  destruct (k >? n) eqn:Hk; zbool; [by eapply one_first; eauto|].
  apply reads_chain, reads_select. intros h3 s3 minimum Hp3 _ _. destruct (match minimum with Some _ => _ | None => _ end).
  { eapply first_grows; [exact Hp3|]. by eapply one_first; eauto. }
  pose proof (len_prefix _ _ Hp3). destruct Hst as (Hn & Hrev & _). pose proof (len_prefix _ _ Hp0).
  apply reads_chain. eapply reads_impl; [|apply event_state_reads; lia]. intros h4 x [Hp4 ->].
  apply reads_chain, reads_select. intros h5 s5 later Hp5 Hh5 Hlater. pose proof (len_prefix _ _ Hp4). pose proof (len_prefix _ _ Hp5).
  destruct Hh5 as (_ & _ & lo & Hlo & Hm). destruct (later_true h5 lo k s5 later) as [Hall Hlast]; [done|done|lia|done|].
  apply (cursor_first (len h) h5 k); [done|lia|lia| |done|done]. symmetry. apply (hash_at_prefix h3); [by etrans|lia].
Qed.

(** ** The invariant *)

Definition of_account (r : RootEventRecord) : Prop := ev_account_locator r = account.
#[local] Instance of_account_dec r : Decision (of_account r).
Proof. unfold of_account. apply _. Defined.

(** The records on their way to the stream. *)
Definition ahead (y : Sys) : list RootEventRecord := y_queue y ++ y_sending y.
Definition count (queue : list RootEventRecord) : Z := len (filter of_account queue).
(** Those of the account say what happened last. *)
Definition queue_true (h : list bytes) (queue : list RootEventRecord) : Prop :=
  let mine := filter of_account queue in
  len mine ≤ len h
  ∧ ∀ i r, mine !! i = Some r → sequence (ev_event r) = len h - len mine + Z.of_nat i + 1 ∧ tells h (ev_event r).
(** The stream has told of the state [n]. *)
Definition told (out : list SseMessage) (n : Z) : Prop := ∃ m, m ∈ out ∧ sequence (sm_event m) = n.
(** With the records ahead, what the stream has, reads or is about to send reaches the
    current state. *)
Definition tap_true (h : list bytes) (waiting : Z) (tap : Tap) (out : list SseMessage) : Prop :=
  match tap with
  | Absent | Subscribed | Ended => True
  | Starting rd => only_reads rd ∧ ∃ n0, len h - waiting ≤ n0 ∧ reads (first_true n0) rd h
  | Opening st initial =>
      es_account st = account ∧ ∃ n, len h - waiting ≤ n ≤ len h ∧ es_last_sequence st ≤ n
      ∧ Forall (λ e, tells h e ∧ sequence e ≤ n) initial
      ∧ ((∃ e, last initial = Some e ∧ sequence e = n) ∨ initial = [] ∧ es_last_sequence st = n ∧ told out n)
  | Streaming st => es_account st = account ∧ len h - waiting ≤ es_last_sequence st ≤ len h ∧ told out (es_last_sequence st)
  | Asking st _ rd =>
      es_account st = account ∧ only_reads rd
      ∧ ∃ n0, len h - waiting ≤ n0 ∧ es_last_sequence st ≤ n0 ∧ reads (beat_true n0) rd h
  end.
Definition settled (h : list bytes) (s : Store) : Prop := saved s = None ∧ data_inv (db s) ∧ history (db s) account h.
Definition sys_inv (h : list bytes) (y : Sys) : Prop :=
  settled h (y_store y)
  ∧ (y_tap y = Absent → y_queue y = []) ∧ queue_true h (ahead y) ∧ tap_true h (count (ahead y)) (y_tap y) (y_out y)
  ∧ Forall (λ m, tells h (sm_event m)) (y_out y).

(** ** Sending *)

#[local] Instance quiet_metered account' network' e now : Quiet (metered_sse_event cfg account' network' e now).
Proof. unfold metered_sse_event. quiet_tac. Qed.
#[local] Instance quiet_stream_end st : Quiet (stream_end st).
Proof. unfold stream_end. quiet_tac. Qed.
#[local] Instance quiet_stream_send st e now : Quiet (stream_send cfg st e now).
Proof. unfold stream_send. quiet_tac. Qed.
#[local] Instance quiet_stream_first st e now : Quiet (stream_first cfg st e now).
Proof. unfold stream_first. apply _. Qed.
#[local] Instance quiet_stream_asked st lagged answer now : Quiet (stream_asked cfg st lagged answer now).
Proof. unfold stream_asked. quiet_tac. Qed.

(** An event goes out, or the stream is over. *)
Definition sends (events : list AcsSseEvent) (st : EventStream) (r : result StoreError (option EventStream * list SseMessage)) : Prop :=
  ∃ out, (sm_event <$> out) `prefix_of` events ∧ (r = Ok (None, out) ∨ r = Ok (Some st, out) ∧ sm_event <$> out = events).

Lemma stream_end_sends st evs s : sends evs st (stream_end st s).1.
Proof. exists []. split; [apply prefix_nil|]. by left. Qed.
Lemma stream_send_sends st e now s : sends [e] st (stream_send cfg st e now s).1.
Proof.
  unfold stream_send. rewrite ST_bind_unfold. unfold catch.
  destruct (metered_sse_event cfg (es_account st) (es_network st) e now s) as [[m|err] s1] eqn:Hm; simpl.
  - exists [m]. assert (sm_event m = e) as E.
    { unfold metered_sse_event in Hm. apply ST_bind_Ok in Hm as (n & s2 & _ & Hm). apply ST_bind_Ok in Hm as (u & s3 & _ & Hm).
      by injection Hm as <- _. }
    rewrite list_fmap_singleton, E. split; [done|]. by right.
  - exists []. split; [apply prefix_nil|]. by left.
Qed.


Lemma store_quiet h s s' : core s' = core s → settled h s → settled h s'.
Proof. unfold settled. intros Hc. pose proof (f_equal c_db Hc) as Edb. pose proof (f_equal c_saved Hc) as Esv. simpl in *. by rewrite Edb, Esv. Qed.

(** A step that only reads the store. *)
Lemma move_inv h s tap y :
  core s = core (y_store y) → tap ≠ Absent → tap_true h (count (ahead y)) tap (y_out y) → sys_inv h y → sys_inv h (move s tap y).
Proof. intros Hc Ht Htap (Hst & _ & Hq & _ & Hout). split; [by eapply store_quiet|]. done. Qed.
(** What is sent is added to what was. *)
Lemma emit_inv h after m y evs st :
  settled h (y_store y) → queue_true h (ahead y) →
  Forall (λ m, tells h (sm_event m)) (y_out y) →
  Quiet m → sends evs st (m (y_store y)).1 → Forall (tells h) evs → after st ≠ Absent →
  (∀ out, sm_event <$> out = evs → tap_true h (count (ahead y)) (after st) (y_out y ++ out)) →
  sys_inv h (emit after m y).
Proof.
  intros Hst Hqueue Hout Hq (out & Hpre & Hres) Hevs Hafter Htap. specialize (Hq (y_store y)).
  assert (Forall (λ m, tells h (sm_event m)) (y_out y ++ out)) as Hall.
  { apply Forall_app. split; [done|]. destruct Hpre as [rest E]. rewrite E in Hevs.
    apply Forall_app in Hevs as [Hevs _]. by rewrite Forall_fmap in Hevs. }
  unfold emit. destruct (m (y_store y)) as [r s1]. simpl in *.
  destruct Hres as [->|[-> Hfull]]; (split; [by eapply store_quiet|]; split; [done|]; split; [done|]; split; [|done]); [done|by apply Htap].
Qed.

(** ** Steps *)

Context (Hret : 1 ≤ event_retention cfg).

Lemma told_snoc out m n : sequence (sm_event m) = n → told (out ++ [m]) n.
Proof. intros E. exists m. split; [|done]. set_solver. Qed.
Lemma told_app out out' n : told out n → told (out ++ out') n.
Proof. intros (m & Hm & Hn). exists m. split; [|done]. set_solver. Qed.

(** One event goes out and the stream is then at its number. *)
Lemma send_inv h y st e n now :
  settled h (y_store y) → queue_true h (ahead y) →
  Forall (λ m, tells h (sm_event m)) (y_out y) →
  es_account st = account → tells h e → sequence e = n → len h - count (ahead y) ≤ n →
  sys_inv h (emit Streaming (stream_send cfg (with_last_sequence n st) e now) y).
Proof.
  intros Hst Hq Ho Ha He Hn Hle. eapply (emit_inv h _ _ _ [e]); [done..|apply _|apply stream_send_sends|by apply Forall_singleton|done|].
  intros out Hout. destruct out as [|m [|? ?]]; try done. injection Hout as Hm. split; [done|]. simpl.
  destruct He as (He1 & He2 & _). split; [lia|]. apply told_snoc. by rewrite Hm.
Qed.
Lemma end_inv h y st :
  settled h (y_store y) → queue_true h (ahead y) →
  Forall (λ m, tells h (sm_event m)) (y_out y) → sys_inv h (emit Streaming (stream_end st) y).
Proof.
  intros Hst Hq Ho. pose proof (quiet_stream_end st (y_store y)) as Hc. unfold emit.
  destruct (stream_end st (y_store y)) as [r s1] eqn:E.
  assert (r = Ok (None, [])) as -> by (unfold stream_end in E; rewrite ST_bind_unfold in E; by injection E).
  split; [by eapply store_quiet|]. split; [done|]. split; [done|]. split; [done|]. simpl. by rewrite app_nil_r.
Qed.
Lemma hang_up_inv h y : sys_inv h y → sys_inv h (hang_up y).
Proof. intros Hy. apply move_inv; [|done|done|done]. assert (Quiet (end_sse_connection account network)) as Hb by apply _. apply Hb. Qed.

Lemma queue_true_tail h r queue : queue_true h (r :: queue) → queue_true h queue.
Proof.
  intros [Hle Hq]. unfold queue_true in *. rewrite filter_cons in Hle, Hq. case_decide as Hr; [|done].
  set (mine := filter of_account queue) in *. rewrite len_cons in Hle, Hq. split; [lia|]. intros i x Hx.
  destruct (Hq (S i) x Hx) as [E Ht]. split; [lia|done].
Qed.
Lemma queue_true_drop h n queue : queue_true h queue → queue_true h (drop n queue).
Proof.
  revert queue. induction n as [|n IH]; intros [|r queue] Hq; try done. simpl. apply IH. by eapply queue_true_tail.
Qed.


Lemma receive_inv h y now : sys_inv h y → sys_inv h (act (AcReceive now) y).
Proof.
  intros Hy. pose proof Hy as (Hst & _ & Hq & Ht & Hout). simpl. destruct (y_tap y) as [| | | |st| |] eqn:Htap; try exact Hy.
  destruct (y_queue y) as [|r queue] eqn:Hqueue; [exact Hy|].
  unfold ahead in Hq, Ht. rewrite Hqueue in Hq, Ht. simpl in Hq, Ht. destruct Ht as (Ha & Hlast & Htold).
  pose proof (queue_true_tail _ _ _ Hq) as Hq'. unfold on_stream. simpl. rewrite Htap. simpl.
  destruct (bool_decide (ev_account_locator r = es_account st)) eqn:Hmine; zbool.
  - rewrite Ha in Hmine. destruct Hq as [Hle Hq]. unfold count in Hlast. rewrite filter_cons, decide_True in Hle, Hq, Hlast by done.
    rewrite len_cons in *. destruct (Hq 0%nat r eq_refl) as [Hseq Htells]. simpl in Hseq.
    destruct (sequence (ev_event r) >? es_last_sequence st) eqn:Hnew; zbool.
    + apply send_inv; try done. unfold count, ahead. simpl. lia.
    + apply (emit_inv h _ _ _ [] st); [done..|apply _| |done|done|].
      * exists []. split; [done|]. by right.
      * intros [|] E; [|done]. rewrite app_nil_r. split; [done|]. unfold count, ahead. simpl. split; [lia|done].
  - apply (emit_inv h _ _ _ [] st); [done..|apply _| |done|done|].
    + exists []. split; [done|]. by right.
    + intros [|] E; [|done]. rewrite app_nil_r. unfold count in Hlast. rewrite filter_cons, decide_False in Hlast by (unfold of_account; congruence). done.
Qed.

(** The stream stops to ask. *)
Lemma asks_inv h y st lagged :
  settled h (y_store y) → queue_true h (ahead y) →
  Forall (λ m, tells h (sm_event m)) (y_out y) → es_account st = account → es_last_sequence st ≤ len h →
  sys_inv h (move (y_store y) (Asking st lagged (heartbeat_event (es_account st))) y).
Proof.
  intros Hst Hq Hout Ha Hl. split; [done|]. split; [done|]. split; [done|]. split; [|done]. split; [done|]. rewrite Ha. split; [apply _|].
  exists (len h). split; [|split; [done|apply heartbeat_reads]]. unfold count. pose proof (len_nonneg (filter of_account (ahead (move (y_store y) (Asking st lagged (heartbeat_event account)) y)))). lia.
Qed.
Lemma lag_inv h y dropped now : sys_inv h y → sys_inv h (act (AcLag dropped now) y).
Proof.
  intros Hy. pose proof Hy as (Hst & _ & Hq & Ht & Hout). simpl. destruct (y_tap y) as [| | | |st| |] eqn:Htap; try exact Hy.
  unfold on_stream. cbn [y_tap put_queue]. rewrite Htap. destruct Ht as (Ha & Hl & _).
  apply (asks_inv h (put_queue (drop dropped (y_queue y)) y) st true); try done; [|lia].
  unfold ahead. simpl. replace (drop dropped (y_queue y) ++ y_sending y) with (drop (dropped `min` length (y_queue y)) (ahead y)).
  - by apply queue_true_drop.
  - unfold ahead. rewrite drop_app_le by lia. f_equal. destruct (Nat.min_spec dropped (length (y_queue y))) as [[_ ->]|[? ->]]; [done|].
    by rewrite !drop_ge by lia.
Qed.
Lemma beat_inv h y now : sys_inv h y → sys_inv h (act (AcHeartbeat now) y).
Proof.
  intros Hy. pose proof Hy as (Hst & _ & Hq & Ht & Hout). simpl. unfold on_stream. destruct (y_tap y) as [| | | |st| |] eqn:Htap; try exact Hy.
  destruct Ht as (Ha & Hl & _). apply asks_inv; try done. lia.
Qed.
Lemma close_inv h y now : sys_inv h y → sys_inv h (act (AcClose now) y).
Proof.
  intros Hy. pose proof Hy as (Hst & _ & Hq & _ & Hout). simpl.
  destruct (y_tap y) as [| | | |st| |] eqn:Htap; try exact Hy; try by apply hang_up_inv. unfold on_stream. rewrite Htap. by apply end_inv.
Qed.

(** The answer of the store arrives. *)
Lemma answer_inv h y st lagged answer now :
  sys_inv h y → y_tap y = Asking st lagged (Done answer) → sys_inv h (emit Streaming (stream_asked cfg st lagged answer now) y).
Proof.
  intros (Hst & _ & Hq & Ht & Hout) Htap. rewrite Htap in Ht. destruct Ht as (Ha & _ & n0 & Hn0 & Hl & Hr). unfold stream_asked.
  destruct answer as [e|e]; [|by apply end_inv]. destruct Hr as (n & rev & hash & -> & Hn & Htells). destruct lagged; simpl.
  - apply send_inv; try done. lia.
  - rewrite Z.max_r by lia. apply send_inv; try done. lia.
Qed.
Lemma read_inv h y now : sys_inv h y → sys_inv h (act (AcRead now) y).
Proof.
  intros Hy. pose proof Hy as (Hst & _ & Hq & Ht & Hout). simpl. unfold read_step.
  destruct (y_tap y) as [| |rd|st initial|st|st lagged rd|] eqn:Htap; try exact Hy.
  - destruct Ht as (Honly & n0 & Hn0 & Hr). destruct rd as [[initial|e]|C q k]; [|by apply hang_up_inv|].
    + apply move_inv; try done. split; [done|]. destruct Hr as (n & Hn & Hlast & Hall). exists n. split; [lia|]. split; [|by split; [|left]].
      destruct Hlast as (e & He & <-). apply last_Some_elem_of in He. rewrite Forall_forall in Hall. destruct (Hall e He) as [[? _] _]. simpl. lia.
    + apply move_inv; [by apply quiet_read_on|done| |done]. split; [by apply only_reads_on|]. exists n0. split; [done|]. apply reads_on; [apply Hst|done].
  - destruct rd as [answer|C q k]; [by apply (answer_inv h y st lagged)|]. destruct Ht as (Ha & Honly & n0 & Hn0 & Hl & Hr).
    apply move_inv; [by apply quiet_read_on|done| |done]. split; [done|]. split; [by apply only_reads_on|].
    exists n0. split; [done|]. split; [done|]. apply reads_on; [apply Hst|done].
Qed.
Lemma start_inv h y cursor : (∀ n, cursor = Some n → 0 ≤ n) → sys_inv h y → sys_inv h (act (AcStart cursor) y).
Proof.
  intros Hcur Hy. simpl. destruct (y_tap y) eqn:Htap; try exact Hy. apply move_inv; try done. split; [apply _|].
  exists (len h). split; [|by apply initial_reads]. unfold count. pose proof (len_nonneg (filter of_account (ahead y))). lia.
Qed.
Lemma opening_inv h y now : sys_inv h y → sys_inv h (act (AcOpen now) y).
Proof.
  intros Hy. pose proof Hy as (Hst & _ & Hq & Ht & Hout). simpl. destruct (y_tap y) as [| | |st initial| | |] eqn:Htap; try exact Hy.
  destruct Ht as (Ha & n & Hn & Hl & Hall & Hlast). destruct initial as [|e initial].
  - apply move_inv; try done. destruct Hlast as [(e & He & _)|(_ & Hs & Htold)]; [done|]. split; [done|]. rewrite Hs. done.
  - apply Forall_cons in Hall as [[Htells Hen] Hall].
    eapply (emit_inv h _ _ _ [e]); [done..|apply _|apply stream_send_sends|by apply Forall_singleton|done|].
    intros out Hsent. destruct out as [|m [|? ?]]; try done. injection Hsent as Hm. split; [done|]. exists n. split; [done|]. simpl.
    split; [lia|]. split; [done|]. destruct initial as [|e' initial].
    + right. destruct Hlast as [(x & Hx & Hs)|[? _]]; [|done]. injection Hx as ->. split; [done|]. split; [lia|]. apply told_snoc. by rewrite Hm.
    + left. destruct Hlast as [(x & Hx & Hs)|[? _]]; [|done]. by exists x.
Qed.
Lemma subscribe_inv h y : sys_inv h y → sys_inv h (act AcSubscribe y).
Proof. intros Hy. simpl. destruct (y_tap y) eqn:Htap; try exact Hy. by apply move_inv. Qed.
Lemma send_record_inv h y : sys_inv h y → sys_inv h (act AcSend y).
Proof.
  intros Hy. pose proof Hy as (Hst & Habs & Hq & Ht & Hout). simpl. destruct (y_sending y) as [|r sending] eqn:Hs; [exact Hy|].
  assert (y_tap y = Absent ∨ y_tap y ≠ Absent) as [Htap|Htap] by (destruct (y_tap y); auto).
  - specialize (Habs Htap). unfold ahead in Hq. rewrite Habs, Hs in Hq. split; [done|]. rewrite Htap. split; [done|].
    split; [|done]. unfold ahead. simpl. rewrite Habs. by eapply queue_true_tail.
  - match goal with |- sys_inv _ ?z => assert (y_queue z = y_queue y ++ [r]) as Ez by (simpl; by destruct (y_tap y)); assert (ahead z = ahead y) as E end.
    { unfold ahead at 1. rewrite Ez. simpl. unfold ahead. rewrite Hs. by rewrite <- (assoc_L (++)). }
    split; [done|]. split; [done|]. rewrite E. done.
Qed.

(** ** Changes *)

Lemma phase_sends ph h s :
  saved s = None → data_inv (db s) → history (db s) account h → ph ≠ PhStart →
  ∃ sent, events (phase_op cfg ph s).2 = events s ++ sent
    ∧ filter of_account sent
      = (λ hash, {| ev_account_locator := account; ev_event := SseRootChanged (len h + 1) (len h + 1) hash |})
        <$> (filter (λ ah, ah.1 = account) (committed_by cfg ph s)).*2.
Proof.
  intros Hs Hd Hh Hstart.
  assert ((∃ a r n t, ph = PhRequest (RqSwapRoot a r n t)) ∨ ∀ a r n t, ph ≠ PhRequest (RqSwapRoot a r n t)) as [Hsw|Hsw].
  { destruct ph as [[]| | | | | |]; try (right; congruence). left. eauto. }
  - destruct Hsw as (a & rq & n & t & ->). simpl. unfold ignore. rewrite ST_bind_unfold.
    pose proof (run_compare_and_swap_root cfg Hret a rq n t (core s) Hs (proj1 Hd) s eq_refl) as (_ & _ & Hcas).
    destruct (compare_and_swap_root cfg a rq n t s) as [[[root|rev hash]|e] s']; simpl in *.
    + destruct Hcas as (_ & _ & _ & Hrev & _ & _ & _ & _ & _ & _ & seq & Hev & row & Hrow & ->). eexists. split; [exact Hev|].
      destruct (decide (a = account)) as [->|Hne]; [|by rewrite !filter_cons, !decide_False].
      rewrite !filter_cons, !decide_True, !filter_nil by done. simpl.
      unfold current_revision in Hrev. rewrite <- (history_length _ _ _ Hh) in Hrev.
      destruct Hh as (Hacc & _). rewrite Hrow in Hacc. by rewrite Hacc, Hrev.
    + destruct Hcas as (_ & _ & Hev & _). exists []. by rewrite app_nil_r.
    + destruct Hcas as [_ Hev]. exists []. by rewrite app_nil_r.
  - exists []. rewrite app_nil_r. split; [by apply silent_phase|].
    destruct ph as [[]| | | | | |]; try done. by destruct (Hsw account0 request network0 now).
Qed.

Definition changed (h : list bytes) (hash : bytes) : RootEventRecord :=
  {| ev_account_locator := account; ev_event := SseRootChanged (len h + 1) (len h + 1) hash |}.
Lemma count_app h queue sent new : filter of_account sent = changed h <$> new → count (queue ++ sent) = count queue + len new.
Proof. intros Hsent. unfold count. rewrite filter_app, len_app, Hsent. unfold len. by rewrite length_fmap. Qed.
Lemma queue_true_app h queue sent new :
  (length new ≤ 1)%nat → filter of_account sent = changed h <$> new → queue_true h queue → queue_true (h ++ new) (queue ++ sent).
Proof.
  intros Hnew Hsent [Hle Hq]. pose proof (count_app h queue sent new Hsent) as Hc. unfold count in Hc. unfold queue_true.
  rewrite Hc, filter_app, Hsent, len_app.
  split; [lia|]. intros i r. rewrite lookup_app_Some. intros [Hi|[Hi Hr]].
  - destruct (Hq i r Hi) as [-> Htell]. split; [lia|]. eapply tells_prefix, Htell. by apply prefix_app_r.
  - rewrite list_lookup_fmap in Hr. destruct new as [|hash [|? ?]]; simpl in Hnew; [done| |lia].
    destruct (i - length _)%nat as [|k] eqn:Hk; [|done]. injection Hr as <-.
    split; [unfold len in *; simpl in *; unfold len; lia|]. apply tells_change; [unfold len; rewrite length_app; simpl; lia|].
    rewrite list_lookup_middle; [done|]. unfold len. lia.
Qed.
Lemma tap_true_app h waiting new tap out :
  tap_true h waiting tap out → tap_true (h ++ new) (waiting + len new) tap out.
Proof.
  intros Ht. assert (h `prefix_of` h ++ new) as Hp by by apply prefix_app_r. pose proof (len_nonneg new).
  destruct tap as [| |rd|st initial|st|st lagged rd|]; simpl in *; rewrite ?len_app; try done.
  - destruct Ht as (Ho & n0 & Hn & Hr). split; [done|]. exists n0. split; [lia|]. eapply reads_grow; [apply first_grows|exact Hp|done].
  - destruct Ht as (Ha & n & Hn & Hl & Hall & Hlast). split; [done|]. exists n. split; [lia|]. split; [done|]. split; [|done].
    eapply Forall_impl; [exact Hall|]. intros e [Htell ?]. split; [by eapply tells_prefix|done].
  - destruct Ht as (Ha & Hl & Htold). split; [done|]. split; [lia|done].
  - destruct Ht as (Ha & Ho & n0 & Hn & Hl & Hr). split; [done|]. split; [done|]. exists n0. split; [lia|]. split; [done|].
    eapply reads_grow; [apply beat_grows|exact Hp|done].
Qed.

Lemma phase_inv h y ph :
  ph ≠ PhRequest (RqDelete account) → ph ≠ PhStart → sys_inv h y →
  sys_inv (h ++ commits_of (AcPhase ph) y) (act (AcPhase ph) y).
Proof.
  intros Hdel Hstart ((Hs & Hd & Hh) & Habs & Hq & Ht & Hout).
  pose proof (phase_history cfg Hret ph account h (y_store y) Hs Hd Hh Hdel) as Hst'.
  destruct (phase_sends ph h (y_store y) Hs Hd Hh Hstart) as (sent & Hev & Hsent). fold (changed h) in Hsent.
  unfold act, commits_of. rewrite Hev, drop_app_length.
  set (new := (filter (λ ah, ah.1 = account) (committed_by cfg ph (y_store y))).*2) in *.
  assert (length new ≤ 1)%nat as Hnew.
  { unfold new. rewrite length_fmap. etrans; [apply length_filter|]. destruct ph as [[]| | | | | |]; simpl; try lia.
    destruct (compare_and_swap_root _ _ _ _ _ _).1 as [[]|]; simpl; lia. }
  match goal with |- sys_inv _ ?z => assert (ahead z = ahead y ++ sent) as E by (unfold ahead; simpl; by rewrite (assoc_L (++))) end.
  split; [exact Hst'|]. split; [done|]. rewrite E, (count_app h _ _ _ Hsent). split; [by apply queue_true_app|].
  split; [by apply tap_true_app|]. eapply Forall_impl; [exact Hout|]. intros m. apply tells_prefix. by apply prefix_app_r.
Qed.

(** What must not happen: the account is deleted, the server starts again, a cursor that is
    not a [u64]. *)
Definition act_ok (a : Act) : Prop :=
  match a with
  | AcPhase ph => ph ≠ PhRequest (RqDelete account) ∧ ph ≠ PhStart
  | AcStart cursor => ∀ n, cursor = Some n → 0 ≤ n
  | _ => True
  end.
Lemma act_inv h y a : act_ok a → sys_inv h y → sys_inv (h ++ commits_of a y) (act a y).
Proof.
  destruct a as [ph| | |cursor|now|now|now|k now|now|now]; cbn [commits_of act_ok]; intros Ha Hy; rewrite ?app_nil_r.
  - by apply (phase_inv h y ph); destruct Ha.
  - by apply send_record_inv.
  - by apply subscribe_inv.
  - by apply start_inv.
  - by apply read_inv.
  - by apply opening_inv.
  - by apply receive_inv.
  - by apply lag_inv.
  - by apply beat_inv.
  - by apply close_inv.
Qed.
Lemma acts_inv l h y : Forall act_ok l → sys_inv h y → let '(commits, y') := run_acts l y in sys_inv (h ++ commits) y'.
Proof.
  revert h y. induction l as [|a l IH]; intros h y Hl Hy; simpl; [by rewrite app_nil_r|].
  apply Forall_cons in Hl as [Ha Hl]. specialize (IH _ _ Hl (act_inv h y a Ha Hy)).
  destruct (run_acts l (act a y)) as [commits y']. simpl. by rewrite (assoc_L (++)).
Qed.

Definition idle (s : Store) : Sys := {| y_store := s; y_tap := Absent; y_sending := []; y_queue := []; y_out := [] |}.

(** C12: whatever the server does beside it, and between any two of its statements, every
    message of a stream tells a root the account has had: a change the root it made, any other
    message the root after as many changes as it carries or after some that followed; and a
    stream that is open and has no record of its account left to take has told its client of
    the current root. The account is not deleted and the server not started again. *)
Theorem stream_told l s h commits y :
  saved s = None → data_inv (db s) → history (db s) account h → Forall act_ok l →
  run_acts l (idle s) = (commits, y) →
  history (db (y_store y)) account (h ++ commits)
  ∧ Forall (λ m, tells (h ++ commits) (sm_event m)) (y_out y)
  ∧ ∀ st, y_tap y = Streaming st → Forall (λ r, ev_account_locator r ≠ account) (y_queue y ++ y_sending y) →
      ∃ m, m ∈ y_out y ∧ sequence (sm_event m) = len (h ++ commits)
        ∧ event_root (sm_event m) = (len (h ++ commits), last (h ++ commits)).
Proof.
  intros Hs Hd Hh Hl Hrun.
  assert (sys_inv h (idle s)) as Hy.
  { split; [done|]. split; [done|]. split; [|done]. split; [apply len_nonneg|]. intros i r. done. }
  pose proof (acts_inv l h _ Hl Hy) as Hinv. rewrite Hrun in Hinv. destruct Hinv as ((_ & _ & Hh') & _ & _ & Ht & Hout).
  split; [done|]. split; [done|]. intros st Hst Hnone. rewrite Hst in Ht. destruct Ht as (_ & Hlast & m & Hm & Hseq).
  assert (filter of_account (ahead y) = []) as E.
  { unfold ahead. clear -Hnone. induction Hnone as [|r q Hr _ IH]; [done|]. by rewrite filter_cons, decide_False. }
  unfold count in Hlast. rewrite E in Hlast. change (len []) with 0 in Hlast. exists m. split; [done|].
  assert (es_last_sequence st = len (h ++ commits)) as Heq by lia. split; [congruence|].
  rewrite Forall_forall in Hout. destruct (Hout m Hm) as (Hs1 & Hs2 & Hhash & _).
  assert ((event_root (sm_event m)).1 = len (h ++ commits)) as Hrev by lia. rewrite Hrev, hash_at_last in Hhash.
  destruct (event_root (sm_event m)) as [rev hash]. simpl in *. by subst.
Qed.
End stream.
