(* ===== verification/AcsServerExample.v ===== *)
(** * A concrete cloud server

    Small executable stand-ins for the libraries of the server, and a server that is
    started, used, collected and started again, on which the theorems are applied. The last
    part shows what the code does in some corners. *)

From Stdlib Require Import Strings.Byte.
From stdpp Require Import base gmap list strings sorting relations countable.
From S2P Require Import Prelude AcsContracts CloudRecords CloudAcs CloudExample AcsLimits AcsStoreState.
From S2P Require Import AcsStore AcsGc AcsAuth AcsStoreRun AcsStoreInv AcsStoreSteps AcsGcSteps AcsStoreOpen.
From S2P Require Import AcsStoreCorrect AcsServer AcsObjects AcsAnswers AcsPolicy AcsHttp.
From S2P Require Import AcsAccess AcsHttpCorrect AcsStream.

Local Open Scope Z_scope.

(** ** The libraries *)

Definition toy_signature (key text : bytes) : bytes := take 64 (hex_lower (toy_digest (key ++ text))).
#[local] Instance toy_server_libs : ServerLibs :=
  {| sv_sha256 := toy_digest; sv_b64_encode := id; sv_b64_decode := Some;
     sv_hmac := λ key text, toy_digest (key ++ text);
     sv_signature_ok := λ _, true; sv_key_ok := λ _, true;
     sv_verify := λ key text signature, bool_decide (signature = toy_signature key text);
     children_to_json := λ c, Ok (bits (countable.encode c));
     children_from_json := λ j, match (p ← of_bits j; countable.decode p) with Some c => Ok c | None => Err [] end;
     object_json_bytes := λ _, Ok 100; root_json_bytes := λ _, Ok 100; cas_json_bytes := λ _, Ok 100;
     list_json_bytes := λ _, Ok 100; event_json_bytes := λ _, Ok 100;
     text_no_rows := []; text_out_of_range := []; text_constraint := []; text_overflow := [];
     text_file_exists := []; text_file_missing := [] |}.
#[local] Instance toy_server_laws : ServerLaws.
Proof.
  split; [done|]. intros c j [= <-]. simpl. rewrite of_bits_bits. simpl. by rewrite decode_encode.
Qed.

Definition toy_bucket : TokenBucketConfig := per_minute 100000 100000.
Definition toy_config : StoreConfig :=
  {| storage_root := []; anonymous_quota_bytes := 100000; anonymous_object_limit := 10;
     global_storage_limit_bytes := 1000000; inline_threshold_bytes := 4; event_retention := 2;
     global_operation_bucket := toy_bucket; network_operation_bucket := toy_bucket; account_operation_bucket := toy_bucket;
     global_ingress_bucket := toy_bucket; network_ingress_bucket := toy_bucket; account_ingress_bucket := toy_bucket;
     global_egress_bucket := toy_bucket; network_egress_bucket := toy_bucket; account_egress_bucket := toy_bucket;
     global_sse_limit := 10; account_sse_limit := 10; network_sse_limit := 10;
     creation_network_bucket := toy_bucket; creation_global_bucket := toy_bucket;
     stored_bytes_warning := 0; stored_bytes_critical := 0; filesystem_free_bytes_warning := 0;
     filesystem_free_bytes_critical := 0; sse_connections_warning := 0; sse_connections_critical := 0;
     gc_database_pause_ms_warning := 0; gc_database_pause_ms_critical := 0; gc_elapsed_ms_warning := 0;
     gc_elapsed_ms_critical := 0; write_resume_headroom_bytes := 0; write_resume_min_filesystem_free_bytes := 0;
     backup_interval_seconds := 0; backup_retained_snapshots := 0; backup_age_seconds_warning := 0;
     backup_age_seconds_critical := 0; backup_elapsed_ms_warning := 0; backup_elapsed_ms_critical := 0;
     backup_sqlite_snapshot_ms_warning := 0; backup_sqlite_snapshot_ms_critical := 0;
     backup_wal_growth_bytes_warning := 0; backup_wal_growth_bytes_critical := 0;
     backup_linked_blob_count_warning := 0; backup_linked_blob_count_critical := 0;
     backup_linked_blob_bytes_warning := 0; backup_linked_blob_bytes_critical := 0 |}.
Definition toy_world : World :=
  {| w_sql := []; w_io := []; w_free := Ok 1000; w_random := (λ n, Ok [z2b n]) <$> seqZ 1 40; w_file_time := 5;
     w_elapsed := []; w_integrity := [] |}.

(** ** Requests *)

Definition toy_account : bytes := replicate 32 x41.
Definition toy_key : bytes := replicate 32 x4b.
Definition toy_key_id : bytes := replicate 16 x6b.
Definition toy_network : bytes := bs "net".
Definition toy_registration : AcsCreateAccountRequest :=
  {| ca_contract_id := ACS_CONTRACT_ID; ca_account_locator := toy_account; ca_signing_key_id := toy_key_id;
     ca_signing_public_key_base64url := toy_key; ca_creation_challenge := [x01] |}.
Definition value_of (content : bytes) (children : list bytes) : AcsEncryptedValue :=
  from_ciphertext toy_digest id content children.
Definition leaf : AcsEncryptedValue := value_of (bs "leaf content") [].
Definition branch : AcsEncryptedValue := value_of (bs "b") [bs "leaf"].
Definition stray : AcsEncryptedValue := value_of (bs "stray content") [].
Definition swap_of (revision : Z) (hash : option bytes) (v : AcsEncryptedValue) : AcsCompareAndSwapRootRequest :=
  {| cas_contract_id := ACS_CONTRACT_ID; cas_expected_revision := revision; cas_expected_root_hash := hash; cas_replacement := v |}.
Definition hash_of_root (v : AcsEncryptedValue) : bytes :=
  match authenticated_hash toy_digest Some v KindRoot ACS_FIXED_ROOT_ID with Ok h => h | Err _ => [] end.

Definition root1 : AcsEncryptedValue := value_of (bs "root one") [bs "branch"].
Definition root2 : AcsEncryptedValue := value_of (bs "root two") [bs "branch"].
Definition root3 : AcsEncryptedValue := value_of (bs "root three") [].

Definition setup : list Request :=
  [RqChallenge toy_network 10; RqCreateAccount toy_registration toy_key toy_network 11].
Definition uploads : list Request :=
  [RqCreateObject toy_account (bs "leaf") leaf 20; RqCreateObject toy_account (bs "branch") branch 21;
   RqCreateObject toy_account (bs "stray") stray 22].
Definition swaps : list Request :=
  [RqSwapRoot toy_account (swap_of 0 None root1) toy_network 30;
   RqSwapRoot toy_account (swap_of 0 None root3) toy_network 31;
   RqSwapRoot toy_account (swap_of 1 (Some (hash_of_root root1)) root2) toy_network 32].
Definition used_store : Store := perform_all toy_config (setup ++ uploads ++ swaps) (started toy_config toy_world).


(** ** The promises, applied *)

Lemma toy_retains : 1 ≤ event_retention toy_config.
Proof. done. Qed.
Lemma toy_ceiling : 0 ≤ global_storage_limit_bytes toy_config.
Proof. done. Qed.

(** The same requests, as parts of an interleaving. *)
Definition toy_phases : list Phase := PhStart :: (PhRequest <$> setup ++ uploads ++ swaps).
Definition toy_history : list bytes := [hash_of_root root1; hash_of_root root2].
Lemma toy_kept : PhRequest (RqDelete toy_account) ∉ toy_phases.
Proof. intros Hin. repeat (apply elem_of_cons in Hin as [Hin|Hin]; [done|]). by apply elem_of_nil in Hin. Qed.

Lemma serve_all qs s :
  forallb (λ q, negb (collects q)) qs = true → rtc (serve toy_config) s (perform_all toy_config qs s).
Proof.
  unfold perform_all. revert s. induction qs as [|q qs IH]; simpl; intros s Hq; [apply rtc_refl|].
  apply andb_true_iff in Hq as [Hq Hqs]. eapply rtc_l; [|by apply IH]. apply serve_request. by intros now grace ->.
Qed.
Lemma started_open w : (open toy_config (new_store w)).1 = Ok tt → open toy_config (new_store w) = (Ok tt, started toy_config w).
Proof. intros Ho. unfold started. by destruct (open toy_config (new_store w)) as [r s]; simpl in *; subst. Qed.
Lemma used_store_served : served toy_config used_store.
Proof.
  exists toy_world. eapply rtc_l; [|by apply serve_all]. apply serve_start. apply started_open. vm_compute. reflexivity.
Qed.

Lemma proceed_all qs s : rtc (proceed toy_config) s (perform_all toy_config qs s).
Proof.
  unfold perform_all. revert s. induction qs as [|q qs IH]; simpl; intros s; [apply rtc_refl|].
  eapply rtc_l; [|by apply IH]. by apply (proceed_phase toy_config (PhRequest q)).
Qed.
Lemma proceed_open cfg s : (open cfg s).1 = Ok tt → proceed cfg s (open cfg s).2.
Proof. exact (proceed_phase cfg PhStart s). Qed.
Lemma proceed_row cfg account i v now s : proceed cfg s (phase_op cfg (PhRow account i v now) s).2.
Proof. by apply proceed_phase. Qed.
Lemma proceed_started : proceed toy_config (new_store toy_world) (started toy_config toy_world).
Proof.
  unfold started. apply proceed_open. vm_compute. reflexivity.
Qed.
(** The uploads begun together: the rows first, then the blobs, then their ends. *)
Definition begun_store : Store :=
  (phase_op toy_config (PhRow toy_account (bs "later") leaf 41)
    (phase_op toy_config (PhRow toy_account (bs "late") stray 40) used_store).2).2.
Lemma begun_store_attained : attained toy_config begun_store.
Proof.
  exists toy_world. apply (rtc_l _ _ (started toy_config toy_world)); [apply proceed_started|].
  transitivity used_store; [apply proceed_all|].
  apply (rtc_l _ _ (phase_op toy_config (PhRow toy_account (bs "late") stray 40) used_store).2).
  - apply proceed_row.
  - apply rtc_once, proceed_row.
Qed.

Lemma charges_exact_witness :
  ∃ a, accounts (db begun_store) !! toy_account = Some a ∧ a_object_count a = 5
    ∧ a_stored_bytes a = objects_charge (objects_of toy_account (db begun_store)) + root_charge (roots (db begun_store) !! toy_account).
Proof.
  destruct (accounts (db begun_store) !! toy_account) as [a|] eqn:Ha; [|vm_compute in Ha; discriminate]. exists a.
  destruct (charges_exact toy_config toy_retains begun_store toy_ceiling begun_store_attained) as [Hok _].
  destruct (Hok _ _ Ha) as (Hst & _). split; [reflexivity|].
  assert (a_object_count <$> accounts (db begun_store) !! toy_account = Some 5) as E by (vm_compute; reflexivity).
  rewrite Ha in E. injection E as E. split; [exact E|exact Hst].
Defined.

Lemma content_kept_witness :
  ∃ o content, objects_of toy_account (db used_store) !! bs "leaf" = Some o ∧ len content = o_ciphertext_bytes o
    ∧ sha256_hex content = o_ciphertext_sha256 o.
Proof.
  destruct (proj2 (content_kept toy_config toy_retains toy_ceiling) used_store used_store_served) as [Hok _].
  destruct (objects_of toy_account (db used_store) !! bs "leaf") as [o|] eqn:Ho; [|vm_compute in Ho; discriminate].
  assert (o_state <$> objects_of toy_account (db used_store) !! bs "leaf" = Some ObjReady) as E by (vm_compute; reflexivity).
  rewrite Ho in E. injection E as E. destruct (Hok _ _ _ Ho E) as (content & Hl & Hd & _). exists o, content.
  split; [reflexivity|]. split; [exact Hl|exact Hd].
Defined.

Lemma interleaved_roots_witness :
  history (db (run_phases toy_config toy_phases (new_store toy_world)).2) toy_account toy_history.
Proof.
  pose proof (interleaved_roots toy_config toy_retains toy_phases toy_account toy_world toy_kept) as Hh.
  assert ((filter (λ ah, ah.1 = toy_account) (run_phases toy_config toy_phases (new_store toy_world)).1).*2 = toy_history) as E
    by (vm_compute; reflexivity).
  rewrite <- E. destruct (run_phases toy_config toy_phases (new_store toy_world)) as [commits s']. exact Hh.
Defined.

(** A swap after two others, of a server with that history. *)
Definition phased_store : Store := (run_phases toy_config toy_phases (new_store toy_world)).2.
Lemma phased_store_ok : saved phased_store = None ∧ data_inv (db phased_store) ∧ history (db phased_store) toy_account toy_history.
Proof.
  pose proof (run_phases_history toy_config toy_retains toy_phases toy_account [] (new_store toy_world) eq_refl empty_data_inv
    (empty_history toy_account) toy_kept) as Hrun.
  assert ((filter (λ ah, ah.1 = toy_account) (run_phases toy_config toy_phases (new_store toy_world)).1).*2 = toy_history) as E
    by (vm_compute; reflexivity).
  rewrite <- E. unfold phased_store. destruct (run_phases toy_config toy_phases (new_store toy_world)) as [commits s']. exact Hrun.
Qed.

Definition third_swap : AcsCompareAndSwapRootRequest := swap_of 2 (Some (hash_of_root root2)) root3.
Lemma swap_refines_register_witness :
  history (db (compare_and_swap_root toy_config toy_account third_swap toy_network 40 phased_store).2) toy_account
    (toy_history ++ [hash_of_root root3]).
Proof.
  destruct phased_store_ok as (Hs & Hd & Hh).
  pose proof (swap_refines_register toy_config toy_retains phased_store toy_account third_swap toy_network 40 toy_history Hs Hd Hh) as Hswap.
  assert (match (compare_and_swap_root toy_config toy_account third_swap toy_network 40 phased_store).1 with
          | Ok (Committed root) => Some (rs_root_hash root) | _ => None end = Some (hash_of_root root3)) as E
    by (vm_compute; reflexivity).
  destruct (compare_and_swap_root toy_config toy_account third_swap toy_network 40 phased_store) as [[[root|]|] s'];
    [|discriminate E|discriminate E].
  cbn [fst] in E. injection E as E. rewrite <- E. exact (proj1 (proj2 Hswap)).
Defined.

(** A stream that missed the second change. *)
Definition missed : list AcsSseEvent := [SseReady 1 1 (Some (hash_of_root root1)); SseRootChanged 2 2 (hash_of_root root2)].
(** [readable], executed. *)
Definition is_readable (account : bytes) (d : Db) : bool :=
  bool_decide (service_mode d = Some (bs "normal"))
  && match accounts d !! account with Some a => bool_decide (a_mode a = bs "normal") | None => false end.
Lemma readable_bool account d : is_readable account d = true → readable account d.
Proof.
  intros [Hm%bool_decide_eq_true Ha]%andb_true_iff. split; [by exists ModeNormal|].
  destruct (accounts d !! account) as [a|]; [|done]. apply bool_decide_eq_true in Ha. by exists a, ModeNormal.
Qed.
Lemma phased_readable : readable toy_account (db phased_store).
Proof. apply readable_bool. vm_compute. reflexivity. Qed.
Lemma phased_events w : calm w → (at_once (initial_sse_events toy_account (Some 1)) (put_world w phased_store)).1 = Ok missed.
Proof. intros [Hq Hi]. destruct w as [q i f r t e g]. simpl in Hq, Hi. subst q i. vm_compute. reflexivity. Qed.
Lemma phased_start : (at_once (initial_sse_events toy_account (Some 1)) phased_store).1 = Ok missed.
Proof. vm_compute. reflexivity. Qed.
Lemma phased_history : (filter (λ ah, ah.1 = toy_account) (run_phases toy_config toy_phases (new_store toy_world)).1).*2 = toy_history.
Proof. vm_compute. reflexivity. Qed.
Lemma toy_history_short : len toy_history ≤ i64_max.
Proof. vm_compute. discriminate. Qed.
Lemma stream_replays_witness :
  (at_once (initial_sse_events toy_account (Some 1)) (put_world toy_world phased_store)).1 = Ok missed
  ∧ stream_start toy_history (λ k, is_Some (events_of toy_account (db phased_store) !! k)) (Some 1) missed.
Proof.
  assert (∀ n, Some 1 = Some n → 0 ≤ n) as Hpos by (intros n [= <-]; lia).
  destruct (stream_replays toy_config toy_phases toy_account toy_world (Some 1) _ phased_store toy_retains toy_kept Hpos
    (surjective_pairing (run_phases toy_config toy_phases (new_store toy_world)))) as [Hstart Hgo].
  rewrite phased_history in Hstart, Hgo.
  destruct (Hgo toy_world (conj eq_refl eq_refl) phased_readable toy_history_short) as [evs Hevs].
  split; [|exact (Hstart missed phased_start)].
  rewrite <- (phased_events toy_world (conj eq_refl eq_refl)). reflexivity.
Defined.

(** The collection takes the stray object, and keeps the tree. *)
Lemma gc_keeps_reachable_witness :
  objects_of toy_account (db (run_gc 1000 100 phased_store).2) !! bs "stray" = None
  ∧ ∃ o, objects_of toy_account (db (run_gc 1000 100 phased_store).2) !! bs "leaf" = Some o.
Proof.
  pose proof (gc_keeps_reachable toy_config phased_store 1000 100 (proj1 phased_store_ok)) as Hgc.
  split; [vm_compute; reflexivity|].
  destruct (objects_of toy_account (db phased_store) !! bs "leaf") as [o|] eqn:Ho; [|vm_compute in Ho; discriminate].
  exists o. destruct (run_gc 1000 100 phased_store) as [r s']. destruct Hgc as (_ & Hkeep & _). apply Hkeep; [exact Ho|].
  left. exists (bs "branch"). split.
  - vm_compute. left.
  - apply rtc_once.
    destruct (objects_of toy_account (db phased_store) !! bs "branch") as [b|] eqn:Hb; [|vm_compute in Hb; discriminate].
    exists b, [bs "leaf"]. split; [exact Hb|]. split; [|by left].
    assert (match objects_of toy_account (db phased_store) !! bs "branch" with
            | Some o => children_from_json (o_children_json o) | None => Err [] end = Ok [bs "leaf"]) as E by (vm_compute; reflexivity).
    rewrite Hb in E. exact E.
Defined.


(** An object reads back as it was sent. *)
Definition ready_store : Store := perform_all toy_config setup (started toy_config toy_world).
Lemma ready_store_ok : saved ready_store = None ∧ data_inv (db ready_store).
Proof.
  destruct (started_ok toy_config toy_world) as (Hs & Hd & _).
  destruct (perform_all_uncollected toy_config toy_retains setup (started toy_config toy_world) eq_refl Hs Hd) as [Hs' Hst].
  split; [exact Hs'|]. eapply steps_data; [exact Hst|exact Hd].
Qed.
Definition created_store : Store := (create_object toy_config toy_account (bs "leaf") leaf 20 ready_store).2.
Lemma created_ok : (create_object toy_config toy_account (bs "leaf") leaf 20 ready_store).1 = Ok OutcomeCreated.
Proof. vm_compute. reflexivity. Qed.
Lemma created_eq : create_object toy_config toy_account (bs "leaf") leaf 20 ready_store = (Ok OutcomeCreated, created_store).
Proof. unfold created_store. rewrite <- created_ok. apply surjective_pairing. Qed.
Lemma created_readable : readable toy_account (db created_store).
Proof. apply readable_bool. vm_compute. reflexivity. Qed.
Lemma created_open snapshot :
  egress_open toy_config toy_account toy_network 50 (put_world toy_world created_store) (object_json_bytes snapshot).
Proof. exists 100. split; [reflexivity|]. vm_compute. reflexivity. Qed.
Lemma leaf_short content : ciphertext sv_b64_decode leaf = Ok content → len content ≤ i64_max.
Proof. intros [= <-]. vm_compute. discriminate. Qed.
Lemma create_then_read_witness :
  ∃ snapshot, (read_object toy_config toy_account (bs "leaf") toy_network 50 51 (put_world toy_world created_store)).1 = Ok snapshot
    ∧ ciphertext sv_b64_decode (os_value snapshot) = ciphertext sv_b64_decode leaf ∧ os_created_at_epoch_ms snapshot = 20.
Proof.
  destruct ready_store_ok as [Hs Hd].
  destruct (create_then_read toy_config ready_store toy_account (bs "leaf") leaf 20 created_store toy_world toy_network 50 51
    Hs (proj1 Hd) created_eq leaf_short (conj eq_refl eq_refl) created_readable created_open)
    as (snapshot & Hr & E1 & _ & _ & _ & E2).
  exists snapshot. exact (conj Hr (conj E1 E2)).
Defined.

(** A signed request, which is let in once. *)
Definition toy_auth (timestamp : Z) : AcsRequestAuthentication :=
  let a := {| contract_id := ACS_CONTRACT_ID; account_locator := toy_account; signing_key_id := toy_key_id;
              signature_algorithm := Ed25519; timestamp_epoch_ms := timestamp; nonce_base64url := replicate 16 x6e;
              body_sha256 := hex_lower (toy_digest (bs "body")); signature_base64url := [] |} in
  {| contract_id := ACS_CONTRACT_ID; account_locator := toy_account; signing_key_id := toy_key_id;
     signature_algorithm := Ed25519; timestamp_epoch_ms := timestamp; nonce_base64url := replicate 16 x6e;
     body_sha256 := hex_lower (toy_digest (bs "body"));
     signature_base64url := match signing_bytes a AcsPut (bs "/cloud/v1/root") with
                            | Ok text => toy_signature toy_key text | Err _ => [] end |}.
Definition toy_headers (timestamp : Z) : HeaderMap := λ name,
  let a := toy_auth timestamp in
  if bool_decide (name = ACS_AUTH_CONTRACT_HEADER) then Some (contract_id a)
  else if bool_decide (name = ACS_AUTH_ACCOUNT_HEADER) then Some (account_locator a)
  else if bool_decide (name = ACS_AUTH_KEY_ID_HEADER) then Some (signing_key_id a)
  else if bool_decide (name = ACS_AUTH_ALGORITHM_HEADER) then Some (bs "ed25519")
  else if bool_decide (name = ACS_AUTH_TIMESTAMP_HEADER) then Some (dec timestamp)
  else if bool_decide (name = ACS_AUTH_NONCE_HEADER) then Some (nonce_base64url a)
  else if bool_decide (name = ACS_AUTH_BODY_HASH_HEADER) then Some (body_sha256 a)
  else if bool_decide (name = ACS_AUTH_SIGNATURE_HEADER) then Some (signature_base64url a)
  else None.
Definition toy_request (timestamp now : Z) : SignedRequest :=
  {| sr_headers := toy_headers timestamp; sr_method := AcsPut; sr_path := bs "/cloud/v1/root"; sr_query := None;
     sr_body := bs "body"; sr_now_epoch_ms := now |}.

Lemma toy_parse timestamp : timestamp = 1000 → parse_authentication (toy_headers timestamp) = Ok (toy_auth timestamp).
Proof. intros ->. vm_compute. reflexivity. Qed.

Lemma let_in_signed_witness :
  ∃ a, parse_authentication (toy_headers 1000) = Ok a ∧ signed_by a (toy_request 1000 1200) toy_key.
Proof.
  destruct (verify_registered_request toy_config (toy_request 1000 1200) toy_account true ready_store) as [r s'] eqn:Hv.
  assert (r = Ok tt) as -> by (change r with (r, s').1; rewrite <- Hv; vm_compute; reflexivity).
  destruct (let_in_signed toy_config ready_store (toy_request 1000 1200) toy_account true s' Hv) as (a & row & Hp & _ & Hrow & _ & Hs).
  exists a. split; [exact Hp|]. assert (a_signing_public_key <$> accounts (db ready_store) !! toy_account = Some toy_key) as E
    by (vm_compute; reflexivity).
  rewrite Hrow in E. injection E as E. rewrite <- E. exact Hs.
Defined.

Lemma single_use_witness :
  (verify_registered_request toy_config (toy_request 1000 200000) toy_account true
     (perform_all toy_config uploads
        (verify_registered_request toy_config (toy_request 1000 1200) toy_account true ready_store).2)).1 ≠ Ok tt.
Proof.
  destruct (verify_registered_request toy_config (toy_request 1000 1200) toy_account true ready_store) as [r s1] eqn:Hv.
  assert (r = Ok tt) as -> by (change r with (r, s1).1; rewrite <- Hv; vm_compute; reflexivity).
  destruct ready_store_ok as [Hs Hd].
  apply (single_use toy_config toy_retains ready_store (toy_request 1000 1200) toy_account true s1 (toy_auth 1000) uploads
    (toy_request 1000 200000) true Hs Hd Hv (toy_parse 1000 eq_refl)); [cbv; discriminate| |reflexivity].
  repeat constructor; intros t Ht; discriminate Ht.
Defined.

(** An upload that was cut off after its blob was written is finished by the next start. *)
Definition cut_store : Store := (cut_upload toy_config toy_account (bs "leaf") leaf 20 true ready_store).2.
Lemma start_settles_witness :
  ∃ s' o, open toy_config cut_store = (Ok tt, s') ∧ objects_of toy_account (db s') !! bs "leaf" = Some o ∧ o_state o = ObjReady.
Proof.
  destruct (open toy_config cut_store) as [r s'] eqn:Ho.
  assert (r = Ok tt) as -> by (change r with (r, s').1; rewrite <- Ho; vm_compute; reflexivity).
  assert (saved cut_store = None) as Hs by (vm_compute; reflexivity).
  destruct (start_settles toy_config cut_store s' Hs Ho) as (_ & _ & Hready & _).
  destruct (objects_of toy_account (db s') !! bs "leaf") as [o|] eqn:Hl.
  - exists s', o. split; [reflexivity|]. split; [exact Hl|]. exact (proj1 (Hready _ _ _ Hl)).
  - exfalso. apply (f_equal snd) in Ho. cbn [snd] in Ho. rewrite <- Ho in Hl. vm_compute in Hl. discriminate Hl.
Defined.

(** ** Corners *)

(** A request that is dated ahead of the server's clock is let in again once the nonce has
    expired, five minutes after its first use and still within its own window. *)
Theorem future_request_let_in_twice :
  let first := toy_request 301000 1000 in
  let second := toy_request 301000 301001 in
  let '(r1, s1) := verify_registered_request toy_config first toy_account true ready_store in
  sr_headers second = sr_headers first ∧ r1 = Ok tt
  ∧ (verify_registered_request toy_config second toy_account true s1).1 = Ok tt.
Proof.
  cbv zeta. destruct (verify_registered_request toy_config (toy_request 301000 1000) toy_account true ready_store) as [r1 s1] eqn:Hv.
  split; [reflexivity|]. split.
  - change r1 with (r1, s1).1. rewrite <- Hv. vm_compute. reflexivity.
  - apply (f_equal snd) in Hv. cbn [snd] in Hv. rewrite <- Hv. vm_compute. reflexivity.
Qed.

(** A collection between the upload of an object that refers to an older one and the swap
    that puts it into the root takes the older one: the swap is accepted, and the root's
    tree is not there. *)
Definition late_branch : list Request :=
  [RqCreateObject toy_account (bs "leaf") leaf 20; RqCreateObject toy_account (bs "branch") branch 10000;
   RqGc 10001 100; RqSwapRoot toy_account (swap_of 0 None root1) toy_network 10002].
Theorem collected_child_missing :
  let s := perform_all toy_config late_branch ready_store in
  current_hash toy_account (db s) = Some (hash_of_root root1) ∧ bs "branch" ∈ root_children toy_account (db s)
  ∧ edge toy_account (db s) (bs "branch") (bs "leaf") ∧ objects_of toy_account (db s) !! bs "leaf" = None.
Proof.
  cbv zeta. split; [vm_compute; reflexivity|]. split; [vm_compute; left|]. split; [|vm_compute; reflexivity].
  vm_compute. eexists _, _. split; [reflexivity|]. split; [reflexivity|]. left.
Qed.

(** An object that is created again while a collection that removed it goes on loses its
    blob: it is ready, and its file is gone. *)
Definition recreated : list Phase :=
  [PhRequest (RqCreateObject toy_account (bs "leaf") leaf 20);
   PhCollect 10000 report_empty [] toy_account;
   PhRequest (RqCreateObject toy_account (bs "leaf") leaf 20000);
   PhFiles 10000 report_empty [blob_storage_key toy_account (bs "leaf") (ciphertext_sha256 leaf)]].
Theorem recreated_blob_lost :
  let collecting := (run_phases toy_config (take 1 recreated) ready_store).2 in
  let s := (run_phases toy_config recreated ready_store).2 in
  (snd <$> ok (gc_account 10000 (report_empty, []) toy_account collecting).1)
    = Some [blob_storage_key toy_account (bs "leaf") (ciphertext_sha256 leaf)]
  ∧ (o_state <$> objects_of toy_account (db s) !! bs "leaf") = Some ObjReady
  ∧ files s !! blob_path (blob_storage_key toy_account (bs "leaf") (ciphertext_sha256 leaf)) = None.
Proof. cbv zeta. split; [vm_compute; reflexivity|]. split; vm_compute; reflexivity. Qed.

(** An upload that fails after a collection has taken its row gives its charge back a second
    time: the account is then charged less than it stores. *)
Definition refunded_twice : list Phase :=
  [PhRequest (RqCreateObject toy_account (bs "leaf") leaf 10000);
   PhRow toy_account (bs "stray") stray 20;
   PhCollect 5000 report_empty [] toy_account;
   PhFinish toy_account (bs "stray") (object_storage_bytes (bs "stray") (len (bs "stray content")) (bits (countable.encode ([] : list bytes))))
     30 (Err (internal []))].
Theorem refund_undercharges :
  let s := (run_phases toy_config refunded_twice ready_store).2 in
  a_stored_bytes <$> accounts (db s) !! toy_account = Some 0 ∧ usage toy_account (db s) = 529.
Proof. cbv zeta. split; vm_compute; reflexivity. Qed.

(** The grace period counts from the creation of an object: what the root has just stopped
    referring to goes at once when it is old. *)
Definition superseded : list Request :=
  [RqCreateObject toy_account (bs "leaf") leaf 20; RqCreateObject toy_account (bs "branch") branch 21;
   RqSwapRoot toy_account (swap_of 0 None root1) toy_network 30;
   RqSwapRoot toy_account (swap_of 1 (Some (hash_of_root root1)) root3) toy_network 10000].
Theorem superseded_collected_at_once :
  let s := perform_all toy_config superseded ready_store in
  let before := perform_all toy_config (take 3 superseded) ready_store in
  bs "branch" ∈ root_children toy_account (db before)
  ∧ objects_of toy_account (db (run_gc 10001 5000 s).2) !! bs "branch" = None.
Proof. cbv zeta. split; [vm_compute; left|vm_compute; reflexivity]. Qed.

(** A start that fails between the two statements that undo an upload leaves the count of
    objects one too high, and later starts do not correct it. *)
Definition failing_world (n : nat) : World :=
  {| w_sql := replicate n None ++ [Some []]; w_io := []; w_free := Ok 1000; w_random := []; w_file_time := 5;
     w_elapsed := []; w_integrity := [] |}.
Definition half_undone : Store :=
  (open toy_config (put_world (failing_world 38) (cut_upload toy_config toy_account (bs "leaf") leaf 20 false ready_store).2)).2.
Theorem object_count_stays_high :
  let s := (open toy_config half_undone).2 in
  (open toy_config half_undone).1 = Ok tt ∧ objects_of toy_account (db s) = ∅
  ∧ a_stored_bytes <$> accounts (db s) !! toy_account = Some 0
  ∧ a_object_count <$> accounts (db s) !! toy_account = Some 1.
Proof. cbv zeta. repeat split; vm_compute; reflexivity. Qed.

(** A refused challenge counts as two refusals. *)
Definition ninth_challenge : Store :=
  perform_all toy_config (replicate 8 (RqChallenge toy_network 10)) (started toy_config toy_world).
Theorem refused_challenge_counted_twice :
  let '(r, s) := issue_creation_challenge toy_config toy_network 10 ninth_challenge in
  (match r with Err e => code e | Ok _ => Internal end) = RateLimited
  ∧ counters ninth_challenge CRateLimitRejections = 0 ∧ counters s CRateLimitRejections = 2.
Proof. vm_compute. repeat split. Qed.

(** A clock that goes back lets a bucket refill twice for the same time: of a bucket for 10
    and one a second, two seconds give 12 while the clock goes forward, and 14 when it goes
    back in between. *)
Definition small_bucket : TokenBucketConfig := {| capacity := 10; refill_amount := 1; refill_period_ms := 1000 |}.
Theorem clock_back_refills_twice :
  admitted small_bucket [(10, 5000); (2, 7000)] bucket_default = 12
  ∧ admitted small_bucket [(10, 5000); (2, 7000); (0, 5000); (2, 7000)] bucket_default = 14.
Proof. split; vm_compute; reflexivity. Qed.

(** ** Limits *)

Lemma small_bucket_ok : bucket_ok small_bucket.
Proof. by vm_compute. Qed.
Lemma retry_after_exact_witness :
  (reserve 4 small_bucket 7000 {| available_quanta := 1000; updated_at_epoch_ms := 6000; initialized := true |}).1 = Err 2000
  ∧ (reserve 4 small_bucket (7000 + 2000) {| available_quanta := 1000; updated_at_epoch_ms := 6000; initialized := true |}).1 = Ok tt.
Proof.
  split; [vm_compute; reflexivity|].
  destruct (reserve 4 small_bucket 7000 {| available_quanta := 1000; updated_at_epoch_ms := 6000; initialized := true |})
    as [r b'] eqn:Hr.
  assert (r = Err 2000) as -> by (change r with (r, b').1; rewrite <- Hr; vm_compute; reflexivity).
  apply (retry_after_exact small_bucket small_bucket_ok 4 7000
    {| available_quanta := 1000; updated_at_epoch_ms := 6000; initialized := true |} 2000 b' _ 2000);
    [intros _; vm_compute; split; discriminate|reflexivity|vm_compute; split; discriminate|vm_compute; split; discriminate
    |lia|vm_compute; discriminate|exact Hr|by left|lia].
Defined.
Lemma bucket_rate_witness :
  admitted small_bucket [(10, 5000); (2, 7000); (1, 6000); (1, 7500)] bucket_default * 1000 ≤ 10 * 1000 + 3500 * 1.
Proof.
  apply (bucket_rate small_bucket small_bucket_ok 10 5000 [(2, 7000); (1, 6000); (1, 7500)]).
  repeat constructor; discriminate.
Defined.
Lemma count_metric_exact_witness :
  count_metric MetricAttempt 200000 2 (run_metrics [(MetricAttempt, 10000); (MetricAttempt, 130000); (MetricSuccess, 190000)]) = 1.
Proof.
  rewrite (count_metric_exact MetricAttempt 200000 2 [(MetricAttempt, 10000); (MetricAttempt, 130000); (MetricSuccess, 190000)] 0);
    [vm_compute; reflexivity|vm_compute; repeat split; discriminate|vm_compute; discriminate|vm_compute; discriminate].
Defined.

(** ** Requests to the concrete cloud server

    The policy that is deployed, a signed request, and an event stream, on which the theorems
    about the HTTP interface are applied. *)

#[local] Existing Instance toy_server_libs.
#[local] Existing Instance toy_server_laws.
#[local] Instance toy_http_libs : HttpLibs :=
  {| json_create_account := λ _, Ok toy_registration; json_create_object := λ _, Err [];
     json_swap_root := λ _, Ok third_swap; json_create_ticket := λ _, Err []; json_answer := λ _, Ok [] |}.

(** ** The policy that is deployed (deploy/aerobag-cloud-policy.json) *)

Definition deployed_policy : AcsRuntimePolicy :=
  {| policy_schema_version := 3; trusted_proxy_ips := [V4 [x7f; x00; x00; x01]; V6 (replicate 15 x00 ++ [x01])];
     policy_request := {| rp_max_body_bytes := 2097152; rp_max_concurrent_requests := 64; rp_max_target_bytes := 4096 |};
     policy_storage := {|
       sp_anonymous_account_quota_bytes := 1048576; sp_anonymous_account_object_limit := 2048;
       sp_global_storage_limit_bytes := 10737418240; sp_inline_ciphertext_threshold_bytes := 131072;
       sp_retained_sse_events := 256; sp_write_resume_headroom_bytes := 1073741824;
       sp_write_resume_min_filesystem_free_bytes := 2147483648 |};
     policy_rate_limits := {|
       rl_account_creation_per_network := {| tb_capacity := 3; tb_refill_amount := 3; tb_refill_period_seconds
       := 86400 |}; rl_account_creation_global := {| tb_capacity := 50; tb_refill_amount := 10;
       tb_refill_period_seconds := 86400 |}; rl_operations_global := {| tb_capacity := 12000; tb_refill_amount
       := 12000; tb_refill_period_seconds := 60 |}; rl_operations_per_network := {| tb_capacity := 1200;
       tb_refill_amount := 1200; tb_refill_period_seconds := 60 |}; rl_operations_per_account := {| tb_capacity
       := 600; tb_refill_amount := 600; tb_refill_period_seconds := 60 |}; rl_ingress_bytes_global := {|
       tb_capacity := 536870912; tb_refill_amount := 536870912; tb_refill_period_seconds := 60 |};
       rl_ingress_bytes_per_network := {| tb_capacity := 67108864; tb_refill_amount := 67108864;
       tb_refill_period_seconds := 60 |}; rl_ingress_bytes_per_account := {| tb_capacity := 33554432;
       tb_refill_amount := 33554432; tb_refill_period_seconds := 60 |}; rl_egress_bytes_global := {| tb_capacity
       := 1073741824; tb_refill_amount := 1073741824; tb_refill_period_seconds := 60 |};
       rl_egress_bytes_per_network := {| tb_capacity := 134217728; tb_refill_amount := 134217728;
       tb_refill_period_seconds := 60 |}; rl_egress_bytes_per_account := {| tb_capacity := 67108864;
       tb_refill_amount := 67108864; tb_refill_period_seconds := 60 |} |};
     policy_sse := {| ss_max_connections_global := 128; ss_max_connections_per_account := 4; ss_max_connections_per_network := 16 |};
     garbage_collection := {| gp_interval_seconds := 3600; gp_orphan_grace_seconds := 86400 |};
     policy_backup := {| bp_interval_seconds := 3600; bp_retained_snapshots := 48 |};
     policy_monitoring := {|
       mp_stored_bytes_warning := 8589934592; mp_stored_bytes_critical := 9663676416;
       mp_filesystem_free_bytes_warning := 2147483648; mp_filesystem_free_bytes_critical := 1073741824;
       mp_sse_connections_warning := 96; mp_sse_connections_critical := 115; mp_gc_database_pause_ms_warning :=
       500; mp_gc_database_pause_ms_critical := 2000; mp_gc_elapsed_ms_warning := 5000;
       mp_gc_elapsed_ms_critical := 30000; mp_backup_age_seconds_warning := 7200; mp_backup_age_seconds_critical
       := 14400; mp_backup_elapsed_ms_warning := 30000; mp_backup_elapsed_ms_critical := 120000;
       mp_backup_sqlite_snapshot_ms_warning := 5000; mp_backup_sqlite_snapshot_ms_critical := 20000;
       mp_backup_wal_growth_bytes_warning := 67108864; mp_backup_wal_growth_bytes_critical := 268435456;
       mp_backup_linked_blob_count_warning := 100000; mp_backup_linked_blob_count_critical := 500000;
       mp_backup_linked_blob_bytes_warning := 8589934592; mp_backup_linked_blob_bytes_critical := 9663676416 |} |}.
Definition u64b (z : Z) : bool := (0 <=? z) && (z <=? u64_max).
Lemma u64b_ok z : u64b z = true → in_u64 z.
Proof. unfold u64b, in_u64. lia. Qed.
Lemma deployed_u64 : policy_u64 deployed_policy.
Proof.
  split; [by apply u64b_ok|]. split; [by apply u64b_ok|]. split; [by apply u64b_ok|]. intros label b Hin.
  assert (forallb (λ lb, u64b (tb_capacity lb.2) && u64b (tb_refill_amount lb.2) && u64b (tb_refill_period_seconds lb.2))
    (rate_limit_buckets (policy_rate_limits deployed_policy)) = true) as Hall by (vm_compute; reflexivity).
  rewrite forallb_forall in Hall. specialize (Hall (label, b)). rewrite <- list_elem_of_In in Hall.
  apply Hall in Hin as [[H1 H2]%andb_true_iff H3]%andb_true_iff. simpl in *. split; [|split]; by apply u64b_ok.
Qed.
Lemma policy_starts_witness :
  let cfg := store_config deployed_policy (bs "/var/lib/aerobag-cloud") in
  (open cfg (new_store toy_world)).1 = Ok tt ∧ 1 ≤ event_retention cfg.
Proof.
  destruct (policy_starts deployed_policy (bs "/var/lib/aerobag-cloud") toy_world deployed_u64 eq_refl (conj eq_refl eq_refl))
    as (Ho & He & _). exact (conj Ho He).
Defined.

(** ** A signed request *)

Definition toy_http : HttpRequest :=
  {| hq_uri := bs "/cloud/v1/root"; hq_path := bs "/cloud/v1/root"; hq_query := None; hq_route := RtSwapRoot toy_account;
     hq_headers := toy_headers 1000; hq_client_address := None; hq_body := Some (bs "body"); hq_peer := Some (V4 [xc0; x00; x02; x0a]) |}.
Definition served_http : result StoreError Response * Store := serve_http [] deployed_policy toy_config (λ _, 1000) toy_http phased_store.
Lemma served_eq : serve_http [] deployed_policy toy_config (λ _, 1000) toy_http phased_store = (served_http.1, served_http.2).
Proof. unfold served_http. apply surjective_pairing. Qed.
Lemma served_status : match served_http.1 with Ok r => rp_status r | Err _ => 0 end = 200.
Proof. vm_compute. reflexivity. Qed.
Lemma http_guarded_witness : authorized (λ _, 1000) toy_http toy_account (db phased_store).
Proof.
  destruct (http_guarded [] deployed_policy toy_config (λ _, 1000) toy_http phased_store served_http.1 served_http.2
    (proj1 phased_store_ok) served_eq) as (response & Hr & _ & Hok).
  pose proof served_status as Hst. rewrite Hr in Hst. exact (Hok toy_account eq_refl Hst).
Defined.

(** ** A stream *)

(** A change is committed after the stream has read the number of changes, and before it
    reads the root. *)
Definition toy_acts : list Act :=
  [AcSubscribe; AcStart None; AcRead 40; AcRead 40; AcRead 40;
   AcPhase (PhRequest (RqSwapRoot toy_account third_swap toy_network 40));
   AcRead 41; AcRead 42; AcOpen 50; AcOpen 50; AcSend; AcReceive 51].
Definition toy_stream : list bytes * Sys := run_acts toy_config toy_account toy_network toy_acts (idle phased_store).
Lemma toy_stream_eq : run_acts toy_config toy_account toy_network toy_acts (idle phased_store) = (toy_stream.1, toy_stream.2).
Proof. unfold toy_stream. apply surjective_pairing. Qed.
Lemma toy_stream_open :
  match y_tap toy_stream.2 with Streaming st => y_queue toy_stream.2 ++ y_sending toy_stream.2 = [] | _ => False end
  ∧ toy_stream.1 = [hash_of_root root3].
Proof. vm_compute. split; reflexivity. Qed.
Lemma toy_acts_ok : Forall (act_ok toy_account) toy_acts.
Proof. repeat constructor; done. Qed.
Lemma stream_told_witness :
  ∃ m, m ∈ y_out toy_stream.2 ∧ sequence (sm_event m) = 3 ∧ event_root (sm_event m) = (3, Some (hash_of_root root3)).
Proof.
  destruct phased_store_ok as (Hs & Hd & Hh).
  destruct (stream_told toy_config toy_account toy_network toy_retains toy_acts phased_store toy_history toy_stream.1 toy_stream.2
    Hs Hd Hh toy_acts_ok toy_stream_eq) as (_ & _ & Htold).
  destruct toy_stream_open as [Htap Hc]. rewrite Hc in Htold.
  destruct (y_tap toy_stream.2) as [| | | |st| |]; try contradiction.
  specialize (Htold st eq_refl). rewrite Htap in Htold. exact (Htold (Forall_nil_2 _)).
Defined.

(** The first message of that stream carries the number before the change with the root
    after it: the two are read by separate statements. *)
Theorem ready_torn :
  sm_event <$> y_out toy_stream.2
  = [SseReady 2 3 (Some (hash_of_root root3)); SseRootChanged 3 3 (hash_of_root root3)].
Proof. vm_compute. reflexivity. Qed.
