(* ===== verification/Float64.v ===== *)
(** * Binary64 arithmetic

    [f64] as the standard library of Rocq specifies it: [spec_float] with 53 bits of
    precision and exponents below 1024, rounding to nearest, ties to even. A NaN carries
    neither sign nor payload. The operations the code uses are [f64_add], [f64_mul], the
    comparisons of [PartialOrd] and [f64::total_cmp].

    Distances are the floats that are not negative. On them addition is the addition of
    integers, in units of the smallest positive float, followed by the rounding [rnd]; it is
    monotone, it never gives less than its arguments, and the total order is that of the
    integers. *)

From Stdlib Require Import ZArith Lia Floats.SpecFloat.

From stdpp Require Import base numbers.

Local Open Scope Z_scope.

Abbreviation f64 := spec_float.

Definition f64_add : f64 → f64 → f64 := SFadd 53 1024.
Definition f64_sub : f64 → f64 → f64 := SFsub 53 1024.
Definition f64_mul : f64 → f64 → f64 := SFmul 53 1024.
Definition f64_div : f64 → f64 → f64 := SFdiv 53 1024.
Definition f64_sqrt : f64 → f64 := SFsqrt 53 1024.
(** [powi(2)]. *)
Definition f64_square (x : f64) : f64 := f64_mul x x.
(** The comparisons [<], [<=] and [==]. *)
Definition f64_lt : f64 → f64 → bool := SFltb.
Definition f64_le : f64 → f64 → bool := SFleb.
Definition f64_eq : f64 → f64 → bool := SFeqb.
Definition f64_abs : f64 → f64 := SFabs.
Definition is_finite (x : f64) : bool :=
  match x with S754_zero _ | S754_finite _ _ _ => true | _ => false end.
(** [f64::total_cmp]: the order of numbers, [-0.0] before [0.0] and NaN last. *)
Definition total_cmp (x y : f64) : comparison :=
  match x, y with
  | S754_nan, S754_nan => Eq
  | S754_nan, _ => Gt
  | _, S754_nan => Lt
  | S754_zero true, S754_zero false => Lt
  | S754_zero false, S754_zero true => Gt
  | _, _ => match SFcompare x y with Some c => c | None => Eq end
  end.
(** The literal [m * 2^e]. *)
Definition f64_lit (m e : Z) : f64 := binary_normalize 53 1024 m e false.
(** [f64::consts::PI] and [f64::to_radians]. *)
Definition PI : f64 := f64_lit 884279719003555 (-48).
Definition to_radians (x : f64) : f64 := f64_mul x (f64_div PI (f64_lit 180 0)).
Definition to_degrees (x : f64) : f64 := f64_mul x (f64_div (f64_lit 180 0) PI).
(** The trigonometric functions of the platform. *)
Class Libm := { f64_sin : f64 → f64; f64_cos : f64 → f64; f64_asin : f64 → f64 }.

(** [f64::from_bits], and [f32::from_bits] followed by [as f64]: a 32-bit float is one of 64. *)
Definition f64_from_bits (b : Z) : f64 :=
  let s := Z.testbit b 63 in
  let e := Z.land (Z.shiftr b 52) 2047 in
  let m := Z.land b (2 ^ 52 - 1) in
  if e =? 2047 then if m =? 0 then S754_infinity s else S754_nan
  else if e =? 0 then match m with Zpos m => S754_finite s m (-1074) | _ => S754_zero s end
  else match m + 2 ^ 52 with Zpos m => S754_finite s m (e - 1075) | _ => S754_nan end.
Definition f32_from_bits (b : Z) : f64 :=
  let s := Z.testbit b 31 in
  let e := Z.land (Z.shiftr b 23) 255 in
  let m := Z.land b (2 ^ 23 - 1) in
  if e =? 255 then if m =? 0 then S754_infinity s else S754_nan
  else
    let x := if e =? 0 then f64_lit m (-149) else f64_lit (m + 2 ^ 23) (e - 150) in
    if s then SFopp x else x.

Global Instance spec_float_eq_dec : EqDecision spec_float.
Proof. solve_decision. Defined.

(** ** Rounding of integers *)

Definition top : Z := 2 ^ 2098.

(** [n / 2^k] rounded to nearest, ties to even. *)
Definition rnd_even (n k : Z) : Z :=
  let q := n / 2 ^ k in
  match 2 * (n mod 2 ^ k) ?= 2 ^ k with
  | Lt => q
  | Eq => if Z.even q then q else q + 1
  | Gt => q + 1
  end.
(** The position of the last bit that is kept. *)
Definition last_bit (n : Z) : Z := Z.max 0 (Z.log2 n - 52).
Definition rnd (n : Z) : Z := Z.min top (rnd_even n (last_bit n) * 2 ^ last_bit n).

Lemma rnd_even_near n k : n / 2 ^ k ≤ rnd_even n k ≤ n / 2 ^ k + 1.
Proof. unfold rnd_even. repeat case_match; lia. Qed.

Lemma rnd_even_mono n n' k : 0 ≤ k → n ≤ n' → rnd_even n k ≤ rnd_even n' k.
Proof.
  intros Hk Hn. assert (0 < 2 ^ k) as Hp by lia.
  pose proof (Z.div_le_mono n n' (2 ^ k) Hp Hn). pose proof (rnd_even_near n k). pose proof (rnd_even_near n' k).
  destruct (Z.eq_dec (n / 2 ^ k) (n' / 2 ^ k)) as [E|]; [|lia].
  pose proof (Z.div_mod n (2 ^ k)). pose proof (Z.div_mod n' (2 ^ k)).
  assert (n mod 2 ^ k ≤ n' mod 2 ^ k) as Hm by (rewrite E in *; nia).
  unfold rnd_even. rewrite <- E.
  destruct (Z.compare_spec (2 * (n mod 2 ^ k)) (2 ^ k)), (Z.compare_spec (2 * (n' mod 2 ^ k)) (2 ^ k)),
    (Z.even (n / 2 ^ k)); lia.
Qed.

Lemma rnd_even_exact m k : 0 ≤ k → rnd_even (m * 2 ^ k) k = m.
Proof.
  intros Hk. unfold rnd_even. rewrite Z.div_mul, Z.mod_mul by lia. replace (2 * 0 ?= 2 ^ k) with Lt; [done|].
  symmetry. apply Z.compare_lt_iff. lia.
Qed.

Lemma rnd_even_scale m n j : 0 ≤ n → 0 ≤ j → rnd_even (m * 2 ^ j) (n + j) = rnd_even m n.
Proof.
  intros Hn Hj. assert (0 < 2 ^ j) by lia. assert (0 < 2 ^ n) by lia.
  unfold rnd_even. rewrite Z.pow_add_r, Z.div_mul_cancel_r, Z.mul_mod_distr_r by lia.
  destruct (Z.compare_spec (2 * (m mod 2 ^ n)) (2 ^ n)), (Z.compare_spec (2 * (m mod 2 ^ n * 2 ^ j)) (2 ^ n * 2 ^ j)); nia.
Qed.

Lemma last_bit_nonneg n : 0 ≤ last_bit n.
Proof. unfold last_bit. lia. Qed.
Lemma log2_last_bit n : Z.log2 n ≤ last_bit n + 52.
Proof. unfold last_bit. lia. Qed.

Lemma rnd_mono n n' : 0 ≤ n ≤ n' → rnd n ≤ rnd n'.
Proof.
  intros Hn. unfold rnd. apply Z.min_le_compat_l. pose proof (Z.log2_le_mono n n' ltac:(lia)).
  assert (last_bit n ≤ last_bit n') as Hb by (unfold last_bit; lia).
  pose proof (last_bit_nonneg n) as Hk. pose proof (last_bit_nonneg n') as Hk'.
  destruct (Z.eq_dec (last_bit n) (last_bit n')) as [->|Hne].
  { apply Z.mul_le_mono_nonneg_r; [lia|]. apply rnd_even_mono; lia. }
  pose proof (rnd_even_near n (last_bit n)) as Hr. pose proof (rnd_even_near n' (last_bit n')) as Hr'.
  assert (Z.log2 n' = last_bit n' + 52) as Hl' by (unfold last_bit in *; lia).
  assert (0 < n') by (destruct (Z.eq_dec n' 0) as [->|]; [simpl in Hl'; lia|lia]).
  pose proof (Z.log2_spec n' ltac:(lia)) as [Hlo' _]. rewrite Hl' in Hlo'.
  assert (2 ^ 52 ≤ n' / 2 ^ last_bit n') as Hq'.
  { apply Z.div_le_lower_bound; [lia|]. by rewrite <- Z.pow_add_r by lia. }
  assert (n < 2 ^ (last_bit n + 53)) as Hlt.
  { destruct (Z.eq_dec n 0) as [->|]; [apply Z.pow_pos_nonneg; lia|].
    pose proof (Z.log2_spec n ltac:(lia)). pose proof (log2_last_bit n).
    assert (2 ^ Z.succ (Z.log2 n) ≤ 2 ^ (last_bit n + 53)) by (apply Z.pow_le_mono_r; lia). lia. }
  assert (n / 2 ^ last_bit n < 2 ^ 53) as Hq.
  { apply Z.div_lt_upper_bound; [lia|]. by rewrite <- Z.pow_add_r by lia. }
  transitivity (2 ^ 53 * 2 ^ last_bit n); [apply Z.mul_le_mono_nonneg_r; lia|].
  transitivity (2 ^ 52 * 2 ^ last_bit n'); [|apply Z.mul_le_mono_nonneg_r; lia].
  rewrite <- !Z.pow_add_r by lia. apply Z.pow_le_mono_r; lia.
Qed.

(** ** The rounding of [SpecFloat] *)

Lemma digits2_log2 m : Zpos (digits2_pos m) = Z.log2 (Zpos m) + 1.
Proof.
  induction m as [p IH|p IH|]; simpl digits2_pos; [| |done]; rewrite Pos2Z.inj_succ, IH.
  - change (Zpos p~1) with (2 * Zpos p + 1). rewrite Z.log2_succ_double by lia. lia.
  - change (Zpos p~0) with (2 * Zpos p). rewrite Z.log2_double by lia. lia.
Qed.

(** What a record of shifted bits says of the number shifted by [k]. *)
Definition shifted (m k : Z) (r : shr_record) : Prop :=
  shr_m r = m / 2 ^ k ∧ shr_r r = (2 ^ k <=? 2 * (m mod 2 ^ k))
  ∧ shr_s r = (if shr_r r then negb (2 * (m mod 2 ^ k) =? 2 ^ k) else negb (m mod 2 ^ k =? 0)).

Lemma shr_1_half r : 0 ≤ shr_m r →
  shr_1 r = {| shr_m := shr_m r / 2; shr_r := Z.odd (shr_m r); shr_s := shr_r r || shr_s r |}.
Proof.
  destruct r as [q b1 b2]. simpl. intros Hq. destruct q as [|[p|p|]|]; [done| | |done|lia]; f_equal.
  - change (Zpos p~1) with (2 * Zpos p + 1). rewrite Z.mul_comm, Z.div_add_l by lia. by rewrite Z.add_0_r.
  - change (Zpos p~0) with (2 * Zpos p). by rewrite Z.mul_comm, Z.div_mul by lia.
Qed.

Lemma shr_1_shifted m k r : 0 ≤ m → 0 ≤ k → shifted m k r → shifted m (k + 1) (shr_1 r).
Proof.
  intros Hm Hk (Hq & Hr & Hs). assert (0 < 2 ^ k) as Hp by lia. unfold shifted.
  rewrite shr_1_half by (rewrite Hq; apply Z.div_pos; lia). simpl. rewrite Hq.
  destruct r as [q b1 b2]. simpl in *. clear q Hq.
  pose proof (Z.mod_pos_bound m (2 ^ k) Hp) as Hrem.
  assert (m mod 2 ^ (k + 1) = m mod 2 ^ k + 2 ^ k * ((m / 2 ^ k) mod 2)) as Hmod.
  { rewrite Z.pow_add_r, Z.rem_mul_r by lia. done. }
  rewrite Hmod, Z.pow_add_r, <- Z.div_div by lia. change (2 ^ 1) with 2. split; [done|].
  rewrite Zmod_odd. rewrite Hr in Hs.
  assert (b1 || b2 = negb (m mod 2 ^ k =? 0)) as ->.
  { subst b1 b2. destruct (Z.leb_spec (2 ^ k) (2 * (m mod 2 ^ k))), (Z.eqb_spec (2 * (m mod 2 ^ k)) (2 ^ k)),
      (Z.eqb_spec (m mod 2 ^ k) 0); simpl; lia || done. }
  destruct (Z.odd (m / 2 ^ k));
    destruct (Z.leb_spec (2 ^ k * 2) (2 * (m mod 2 ^ k + 2 ^ k * 1))), (Z.leb_spec (2 ^ k * 2) (2 * (m mod 2 ^ k + 2 ^ k * 0)));
    try lia; (split; [done|]); f_equal; apply bool_eq_iff; rewrite !Z.eqb_eq; lia.
Qed.

Lemma iter_pos_shifted p m k r :
  0 ≤ m → 0 ≤ k → shifted m k r → shifted m (k + Zpos p) (SpecFloat.iter_pos shr_1 p r).
Proof.
  intros Hm. revert k r. induction p as [p IH|p IH|]; intros k r Hk Hr; simpl.
  - replace (k + Zpos p~1) with (k + 1 + Zpos p + Zpos p) by lia.
    apply IH; [lia|]. apply IH; [lia|]. by apply shr_1_shifted.
  - replace (k + Zpos p~0) with (k + Zpos p + Zpos p) by lia. apply IH; [lia|]. by apply IH.
  - by apply shr_1_shifted.
Qed.

Lemma shr_shifted m e n :
  0 ≤ m → 0 ≤ n → ∃ r, shr (shr_record_of_loc m loc_Exact) e n = (r, e + n) ∧ shifted m n r.
Proof.
  intros Hm Hn. assert (shifted m 0 (shr_record_of_loc m loc_Exact)) as H0.
  { unfold shifted. simpl. by rewrite Z.div_1_r, Z.mod_1_r. }
  destruct n as [|p|p]; [|eexists; split; [done|]; by apply (iter_pos_shifted p m 0)|lia].
  eexists. split; [simpl; by rewrite Z.add_0_r|done].
Qed.

Lemma shifted_round m k r : shifted m k r → round_nearest_even (shr_m r) (loc_of_shr_record r) = rnd_even m k.
Proof.
  destruct r as [q b1 b2]. intros (Hq & Hr & Hs). simpl in *. unfold rnd_even. subst q b2.
  destruct b1; destruct (Z.leb_spec (2 ^ k) (2 * (m mod 2 ^ k))); try done;
    destruct (Z.compare_spec (2 * (m mod 2 ^ k)) (2 ^ k)); try lia.
  - rewrite (proj2 (Z.eqb_eq _ _)) by done. done.
  - rewrite (proj2 (Z.eqb_neq _ _)) by lia. done.
  - destruct (Z.eqb_spec (m mod 2 ^ k) 0); done.
Qed.

(** ** Distances *)

Abbreviation fexp64 := (fexp 53 1024).

(** Floats that are not negative. *)
Definition distance_ok (x : f64) : Prop :=
  match x with
  | S754_zero false | S754_infinity false => True
  | S754_finite false m e => bounded 53 1024 m e = true
  | _ => False
  end.

(** Their value, in units of the smallest positive float. *)
Definition val (x : f64) : Z :=
  match x with
  | S754_zero _ | S754_nan => 0
  | S754_infinity _ => top
  | S754_finite _ m e => Zpos m * 2 ^ (e + 1074)
  end.

Lemma bounded_iff m e :
  bounded 53 1024 m e = true ↔
  -1074 ≤ e ≤ 971 ∧ Z.log2 (Zpos m) ≤ 52 ∧ (e = -1074 ∨ Z.log2 (Zpos m) = 52).
Proof.
  unfold bounded, canonical_mantissa, fexp, emin. rewrite andb_true_iff, Z.eqb_eq, Z.leb_le, digits2_log2. lia.
Qed.

Lemma log2_val m e : -1074 ≤ e → Z.log2 (val (S754_finite false m e)) = Z.log2 (Zpos m) + (e + 1074).
Proof. intros He. unfold val. rewrite Z.log2_mul_pow2; lia. Qed.

Lemma val_bound m e : bounded 53 1024 m e = true → 0 < val (S754_finite false m e) < top.
Proof.
  intros (He & Hm & _)%bounded_iff. pose proof (Z.log2_spec (Zpos m) ltac:(lia)) as [_ Hlt].
  assert (2 ^ Z.succ (Z.log2 (Zpos m)) ≤ 2 ^ 53) by (apply Z.pow_le_mono_r; lia).
  assert (2 ^ (e + 1074) ≤ 2 ^ 2045) by (apply Z.pow_le_mono_r; lia).
  assert (0 < 2 ^ (e + 1074)) by (apply Z.pow_pos_nonneg; lia).
  unfold val, top. change 2098 with (53 + 2045). rewrite (Z.pow_add_r 2 53 2045) by lia. split; [by apply Z.mul_pos_pos|].
  apply (Z.lt_le_trans _ (2 ^ 53 * 2 ^ (e + 1074))); [apply Z.mul_lt_mono_pos_r; lia|apply Z.mul_le_mono_nonneg_l; lia].
Qed.

Lemma val_range x : distance_ok x → 0 ≤ val x ≤ top.
Proof.
  destruct x as [[]|[]| |[] m e]; simpl; try done; intros Hx.
  pose proof (val_bound m e Hx) as Hv. simpl in Hv. lia.
Qed.

Lemma rnd_exact n m k : n = m * 2 ^ k → 0 ≤ k → last_bit n = k → n ≤ top → rnd n = n.
Proof. intros -> Hk Hb Hn. unfold rnd. rewrite Hb, rnd_even_exact by done. lia. Qed.

(** A distance is its own rounding. *)
Lemma rnd_val x : distance_ok x → rnd (val x) = val x.
Proof.
  destruct x as [[]|[]| |[] m e]; intros Hx; try (exfalso; exact Hx); unfold val; [done| |].
  - apply (rnd_exact _ (2 ^ 52) 2046); [by rewrite <- Z.pow_add_r by lia|lia| |done].
    unfold last_bit, top. by rewrite Z.log2_pow2 by lia.
  - pose proof (val_bound m e Hx) as Hv. pose proof (proj1 (bounded_iff m e) Hx) as (He & Hm & Hc).
    pose proof (log2_val m e ltac:(lia)) as Hl. unfold val in Hv, Hl.
    apply (rnd_exact _ (Zpos m) (e + 1074)); [done|lia|unfold last_bit; lia|lia].
Qed.

(** A mantissa that fits gives its value, or infinity when it is too large. *)
Lemma settle_fits m f :
  -1074 ≤ f → Z.log2 (Zpos m) ≤ 52 → (f = -1074 ∨ Z.log2 (Zpos m) = 52) →
  let x := if f <=? 971 then S754_finite false m f else S754_infinity false in
  distance_ok x ∧ val x = Z.min top (Zpos m * 2 ^ (f + 1074)).
Proof.
  intros Hf Hm Hc. simpl. destruct (Z.leb_spec f 971) as [Hle|Hgt].
  - assert (bounded 53 1024 m f = true) as Hb by (apply bounded_iff; lia). split; [done|].
    pose proof (val_bound m f Hb) as Hv. unfold val in *. lia.
  - split; [done|]. unfold val. symmetry. apply Z.min_l. destruct Hc as [|Hc]; [lia|].
    pose proof (Z.log2_spec (Zpos m) ltac:(lia)) as [Hlo _]. rewrite Hc in Hlo.
    assert (2 ^ 2046 ≤ 2 ^ (f + 1074)) by (apply Z.pow_le_mono_r; lia).
    unfold top. change 2098 with (52 + 2046). rewrite (Z.pow_add_r 2 52 2046) by lia. apply Z.mul_le_mono_nonneg; lia.
Qed.

(** The second half of the rounding: the mantissa may have got one bit too many. *)
Definition settle (q f : Z) : f64 :=
  let '(r, e) := shr_fexp 53 1024 q f loc_Exact in
  match shr_m r with
  | Z0 => S754_zero false
  | Zpos m => if e <=? 1024 - 53 then S754_finite false m e else S754_infinity false
  | _ => S754_nan
  end.

Lemma settle_val q f :
  0 ≤ q ≤ 2 ^ 53 → -1074 ≤ f → (f = -1074 ∨ 2 ^ 52 ≤ q) →
  distance_ok (settle q f) ∧ val (settle q f) = Z.min top (q * 2 ^ (f + 1074)).
Proof.
  intros Hq Hf Hc. unfold settle, shr_fexp, fexp, emin. destruct q as [|m|]; [|simpl Zdigits2; rewrite digits2_log2|lia].
  { replace (Z.max _ _ - f) with 0 by (simpl; lia). simpl. split; [done|]. unfold top. lia. }
  destruct (Z.eq_dec (Zpos m) (2 ^ 53)) as [E|E].
  - rewrite E. change (Z.log2 (2 ^ 53)) with 53. replace (Z.max _ _ - f) with 1 by lia. simpl shr.
    destruct (settle_fits (2 ^ 52) (f + 1)) as [Hok Hv]; [lia|done|by right|]. split; [done|].
    etransitivity; [exact Hv|]. f_equal. replace (f + 1 + 1074) with (1 + (f + 1074)) by lia.
    rewrite Z.pow_add_r by lia. change (2 ^ 53) with (2 ^ 52 * 2). lia.
  - assert (Z.log2 (Zpos m) ≤ 52) by (apply Z.lt_succ_r, Z.log2_lt_pow2; [done|change (Z.succ 52) with 53; lia]).
    assert (f = -1074 ∨ Z.log2 (Zpos m) = 52) as Hc'.
    { destruct Hc as [|Hc]; [by left|right]. apply Z.log2_le_pow2 in Hc; lia. }
    replace (Z.max _ _ - f) with 0 by lia. simpl shr. by apply settle_fits.
Qed.

(** Rounding a mantissa whose last bit is at [e], when nothing above [e] is missing. *)
Lemma round_aux m e (f := fexp64 (Zpos (digits2_pos m) + e)) (q := rnd_even (Zpos m) (f - e)) :
  e ≤ f → distance_ok (binary_round_aux 53 1024 false (Zpos m) e loc_Exact)
    ∧ val (binary_round_aux 53 1024 false (Zpos m) e loc_Exact) = Z.min top (q * 2 ^ (f + 1074)).
Proof.
  intros Hf. assert (binary_round_aux 53 1024 false (Zpos m) e loc_Exact = settle q f) as ->.
  { unfold binary_round_aux. unfold shr_fexp at 1. simpl (Zdigits2 (Zpos m)). fold f.
    destruct (shr_shifted (Zpos m) e (f - e)) as (r & -> & Hr); [lia|lia|].
    rewrite (shifted_round _ _ _ Hr). fold q. by replace (e + (f - e)) with f by lia. }
  assert (f = Z.max (Z.log2 (Zpos m) + e - 52) (-1074)) as Ef.
  { unfold f, fexp, emin. rewrite digits2_log2. lia. }
  pose proof (Z.log2_spec (Zpos m) ltac:(lia)) as [Hlo Hhi]. pose proof (rnd_even_near (Zpos m) (f - e)) as Hn. fold q in Hn.
  assert (0 ≤ Zpos m / 2 ^ (f - e) < 2 ^ 53) as Hq.
  { split; [apply Z.div_pos; lia|]. apply Z.div_lt_upper_bound; [lia|]. rewrite <- Z.pow_add_r by lia.
    eapply Z.lt_le_trans; [exact Hhi|]. apply Z.pow_le_mono_r; lia. }
  apply settle_val; [lia|lia|]. destruct (Z.eq_dec f (-1074)) as [|Hne]; [by left|right].
  transitivity (Zpos m / 2 ^ (f - e)); [|lia]. apply Z.div_le_lower_bound; [lia|].
  rewrite <- Z.pow_add_r by lia. etransitivity; [|exact Hlo]. apply Z.pow_le_mono_r; lia.
Qed.

(** ** Addition, multiplication, order *)

Lemma iter_xO m p : Zpos (Pos.iter xO m p) = Zpos m * 2 ^ Zpos p.
Proof.
  induction p as [|p IH] using Pos.peano_ind; [simpl; lia|].
  rewrite Pos.iter_succ, Pos2Z.inj_succ, Z.pow_succ_r by lia. change (Zpos (Pos.iter xO m p)~0) with (2 * Zpos (Pos.iter xO m p)).
  rewrite IH. lia.
Qed.

Lemma shl_align_value m e e' : e' ≤ e → shl_align m e e' = (fst (shl_align m e e'), e')
  ∧ Zpos (fst (shl_align m e e')) = Zpos m * 2 ^ (e - e').
Proof.
  intros He. unfold shl_align. destruct (e' - e) as [|p|p] eqn:E; [|lia|].
  - assert (e = e') as -> by lia. rewrite Z.sub_diag. simpl. split; [done|lia].
  - replace (e - e') with (Zpos p) by lia. simpl. split; [done|]. apply iter_xO.
Qed.

(** Rounding a positive number, given in units of the smallest float. *)
Lemma round_val m e :
  -1074 ≤ e → distance_ok (binary_round 53 1024 false m e)
    ∧ val (binary_round 53 1024 false m e) = rnd (Zpos m * 2 ^ (e + 1074)).
Proof.
  intros He. unfold binary_round. set (f := fexp64 (Zpos (digits2_pos m) + e)).
  assert (f = Z.max (Z.log2 (Zpos m) + e - 52) (-1074)) as Ef by (unfold f, fexp, emin; rewrite digits2_log2; lia).
  assert (∃ m' e', shl_align m e f = (m', e') ∧ e' ≤ f ∧ -1074 ≤ e' ∧ Zpos m' * 2 ^ (e' + 1074) = Zpos m * 2 ^ (e + 1074))
    as (m' & e' & -> & Hle & Hlo & Hv).
  { destruct (Z.le_gt_cases f e) as [Hfe|Hfe].
    - destruct (shl_align_value m e f Hfe) as [E Hm]. exists (fst (shl_align m e f)), f. split; [exact E|]. split; [lia|]. split; [lia|].
      rewrite Hm, <- Z.mul_assoc, <- Z.pow_add_r by lia. do 2 f_equal. lia.
    - exists m, e. split; [|split; [lia|split; [lia|done]]]. unfold shl_align. destruct (f - e) eqn:E; [done|done|lia]. }
  assert (Z.log2 (Zpos m') + (e' + 1074) = Z.log2 (Zpos m) + (e + 1074)) as Hl
    by (apply (f_equal Z.log2) in Hv; rewrite !Z.log2_mul_pow2 in Hv by lia; lia).
  assert (fexp64 (Zpos (digits2_pos m') + e') = f) as Ef' by (unfold fexp, emin; rewrite digits2_log2; lia).
  destruct (round_aux m' e') as [Hok Hval]; [by rewrite Ef'|]. split; [done|]. rewrite Hval, Ef'. unfold rnd.
  assert (last_bit (Zpos m * 2 ^ (e + 1074)) = f + 1074) as ->
    by (unfold last_bit; rewrite Z.log2_mul_pow2 by lia; lia).
  do 2 f_equal. rewrite <- Hv. replace (f + 1074) with (f - e' + (e' + 1074)) by lia. by rewrite rnd_even_scale by lia.
Qed.

Lemma rnd_top n : top ≤ n → rnd n = top.
Proof.
  intros Hn. apply Z.le_antisymm; [apply Z.le_min_l|]. rewrite <- (rnd_val (S754_infinity false) I) at 1.
  apply rnd_mono. unfold val. unfold top in *. lia.
Qed.

Lemma add_zero_l y : distance_ok y → f64_add (S754_zero false) y = y.
Proof. by destruct y as [[]|[]| |[] m e]. Qed.
Lemma add_zero_r x : distance_ok x → f64_add x (S754_zero false) = x.
Proof. by destruct x as [[]|[]| |[] m e]. Qed.
Lemma add_inf_l y : distance_ok y → f64_add (S754_infinity false) y = S754_infinity false.
Proof. by destruct y as [[]|[]| |[] m e]. Qed.
Lemma add_inf_r x : distance_ok x → f64_add x (S754_infinity false) = S754_infinity false.
Proof. by destruct x as [[]|[]| |[] m e]. Qed.

Lemma add_finite m e m' e' (x := S754_finite false m e) (y := S754_finite false m' e') :
  distance_ok x → distance_ok y → distance_ok (f64_add x y) ∧ val (f64_add x y) = rnd (val x + val y).
Proof.
  unfold x, y. intros Hx%bounded_iff Hy%bounded_iff. unfold f64_add, SFadd, cond_Zopp.
  destruct (shl_align_value m e (Z.min e e')) as [_ E1]; [lia|]. destruct (shl_align_value m' e' (Z.min e e')) as [_ E2]; [lia|].
  rewrite <- Pos2Z.inj_add. unfold binary_normalize.
  destruct (round_val (fst (shl_align m e (Z.min e e')) + fst (shl_align m' e' (Z.min e e'))) (Z.min e e')) as [Hok ->]; [lia|].
  split; [done|]. rewrite Pos2Z.inj_add, E1, E2. unfold val. f_equal.
  rewrite Z.mul_add_distr_r, <- !Z.mul_assoc, <- !Z.pow_add_r by lia. do 2 f_equal; f_equal; lia.
Qed.

(** The sum of distances is the rounded sum of their values. *)
Lemma add_val x y : distance_ok x → distance_ok y →
  distance_ok (f64_add x y) ∧ val (f64_add x y) = rnd (val x + val y).
Proof.
  intros Hx Hy. pose proof (val_range x Hx) as Vx. pose proof (val_range y Hy) as Vy.
  destruct x as [[]|[]| |[] m e]; try (exfalso; exact Hx).
  { rewrite add_zero_l by done. split; [done|]. symmetry. exact (rnd_val y Hy). }
  { rewrite add_inf_l by done. split; [done|]. symmetry. apply rnd_top. unfold val at 1. lia. }
  destruct y as [[]|[]| |[] m' e']; try (exfalso; exact Hy).
  - rewrite add_zero_r by done. split; [done|]. unfold val at 3. rewrite Z.add_0_r. symmetry. exact (rnd_val _ Hx).
  - rewrite add_inf_r by done. split; [done|]. symmetry. apply rnd_top. unfold val at 2. lia.
  - by apply add_finite.
Qed.

Lemma add_ok x y : distance_ok x → distance_ok y → distance_ok (f64_add x y).
Proof. intros Hx Hy. by apply add_val. Qed.
Lemma add_ge x y : distance_ok x → distance_ok y → val x ≤ val (f64_add x y).
Proof.
  intros Hx Hy. destruct (add_val x y Hx Hy) as [_ ->]. rewrite <- (rnd_val x Hx) at 1.
  pose proof (val_range x Hx). pose proof (val_range y Hy). apply rnd_mono. lia.
Qed.
Lemma add_mono x x' y : distance_ok x → distance_ok x' → distance_ok y →
  val x ≤ val x' → val (f64_add x y) ≤ val (f64_add x' y).
Proof.
  intros Hx Hx' Hy Hle. destruct (add_val x y Hx Hy) as [_ ->], (add_val x' y Hx' Hy) as [_ ->].
  pose proof (val_range x Hx). pose proof (val_range y Hy). apply rnd_mono. lia.
Qed.

(** Of two valid mantissas with different exponents the one with the larger is larger. *)
Lemma val_exponent m e m' e' :
  bounded 53 1024 m e = true → bounded 53 1024 m' e' = true → e < e' → Zpos m * 2 ^ (e + 1074) < Zpos m' * 2 ^ (e' + 1074).
Proof.
  intros (He & Hm & _)%bounded_iff (He' & Hm' & Hc)%bounded_iff Hlt.
  apply Z.log2_lt_cancel. rewrite !Z.log2_mul_pow2 by lia. destruct Hc as [|Hc]; lia.
Qed.

Lemma total_cmp_val x y : distance_ok x → distance_ok y → total_cmp x y = (val x ?= val y).
Proof.
  intros Hx Hy. destruct x as [[]|[]| |[] m e]; try (exfalso; exact Hx);
    destruct y as [[]|[]| |[] m' e']; try (exfalso; exact Hy); try (symmetry; exact (Z.compare_refl _));
    simpl total_cmp; symmetry; try (apply Z.compare_lt_iff; by apply val_bound); try (apply Z.compare_gt_iff; by apply val_bound).
  - reflexivity.
  - reflexivity.
  - unfold val. destruct (Z.compare_spec e e') as [->|Hlt|Hgt].
    + change (Pos.compare_cont Eq m m') with (Zpos m ?= Zpos m'). apply bounded_iff in Hx.
      assert (0 < 2 ^ (e' + 1074)) by (apply Z.pow_pos_nonneg; lia).
      destruct (Z.compare_spec (Zpos m) (Zpos m')); [by apply Z.compare_eq_iff; congruence|apply Z.compare_lt_iff|apply Z.compare_gt_iff]; nia.
    + apply Z.compare_lt_iff. by apply val_exponent.
    + apply Z.compare_gt_iff. by apply val_exponent.
Qed.

Lemma val_inj x y : distance_ok x → distance_ok y → val x = val y → x = y.
Proof.
  intros Hx Hy E. destruct x as [[]|[]| |[] m e]; try (exfalso; exact Hx);
    destruct y as [[]|[]| |[] m' e']; try (exfalso; exact Hy); try reflexivity;
    try (pose proof (val_bound m e Hx)); try (pose proof (val_bound m' e' Hy));
    try (exfalso; unfold val in *; discriminate || lia).
  unfold val in E. destruct (Z.lt_trichotomy e e') as [Hlt|[->|Hlt]].
  - pose proof (val_exponent m e m' e' Hx Hy Hlt). lia.
  - apply bounded_iff in Hx. assert (2 ^ (e' + 1074) ≠ 0) as Hne by (apply Z.pow_nonzero; lia).
    apply Z.mul_cancel_r in E; [|done]. by injection E as ->.
  - pose proof (val_exponent m' e' m e Hy Hx Hlt). lia.
Qed.

Lemma f64_eq_val x y : distance_ok x → distance_ok y → f64_eq x y = true ↔ x = y.
Proof.
  intros Hx Hy. assert (f64_eq x y = match total_cmp x y with Eq => true | _ => false end) as ->.
  { destruct x as [[]|[]| |[] m e]; try (exfalso; exact Hx); destruct y as [[]|[]| |[] m' e']; try (exfalso; exact Hy);
      reflexivity. }
  rewrite total_cmp_val by done. split.
  - destruct (Z.compare_spec (val x) (val y)); [|done|done]. intros _. by apply val_inj.
  - intros ->. by rewrite Z.compare_refl.
Qed.

(** Multiplying by a positive number. *)
Lemma mul_ok x m' e' : distance_ok x → bounded 53 1024 m' e' = true → distance_ok (f64_mul x (S754_finite false m' e')).
Proof.
  intros Hx Hy. destruct x as [[]|[]| |[] m e]; try (exfalso; exact Hx); try exact I.
  apply bounded_iff in Hx, Hy. unfold f64_mul. simpl.
  apply (round_aux (m * m') (e + e')). unfold fexp, emin. rewrite digits2_log2, Pos2Z.inj_mul.
  pose proof (Z.log2_mul_below (Zpos m) (Zpos m') ltac:(lia) ltac:(lia)). pose proof (Z.log2_nonneg (Zpos m)).
  pose proof (Z.log2_nonneg (Zpos m')). lia.
Qed.

Lemma scale_ok m e x : bounded 53 1024 m e = true → distance_ok x → distance_ok (f64_mul (S754_finite false m e) x).
Proof.
  intros Hm Hx. replace (f64_mul (S754_finite false m e) x) with (f64_mul x (S754_finite false m e)); [by apply mul_ok|].
  destruct x as [[]|[]| |[] m' e']; try done. unfold f64_mul. simpl. by rewrite Pos.mul_comm, Z.add_comm.
Qed.

(** A valid float that is finite and not at most zero is a distance. *)
Lemma positive_ok x :
  valid_binary 53 1024 x = true → is_finite x = true → f64_le x (S754_zero false) = false → distance_ok x.
Proof. by destruct x as [[]|[]| |[] m e]. Qed.

(** ** Floats without a sign *)

(** Not negative, or NaN. *)
Definition not_negative (x : f64) : Prop :=
  match x with S754_zero s | S754_infinity s | S754_finite s _ _ => s = false | S754_nan => True end.

Lemma round_not_negative m e l : not_negative (binary_round_aux 53 1024 false m e l).
Proof. unfold binary_round_aux. by repeat case_match. Qed.
Lemma normalize_not_negative p e : not_negative (binary_normalize 53 1024 (Zpos p) e false).
Proof.
  unfold binary_normalize, binary_round. destruct (shl_align _ _ _) as [m e']. apply round_not_negative.
Qed.
Lemma square_not_negative x : not_negative (f64_square x).
Proof. destruct x as [[]|[]| |[] m e]; try done; apply round_not_negative. Qed.
Lemma mul_not_negative x y : not_negative x → not_negative y → not_negative (f64_mul x y).
Proof.
  destruct x as [s|s| |s m e], y as [s'|s'| |s' m' e']; simpl; try done; try by intros -> ->.
  intros -> ->. apply round_not_negative.
Qed.
Lemma add_not_negative x y : not_negative x → not_negative y → not_negative (f64_add x y).
Proof.
  destruct x as [s|s| |s m e], y as [s'|s'| |s' m' e']; simpl; try done; try by intros -> ->.
  intros -> ->. apply normalize_not_negative.
Qed.
Lemma sqrt_not_negative x : not_negative x → not_negative (f64_sqrt x).
Proof.
  destruct x as [s|s| |s m e]; simpl; try done; try by intros ->. intros ->. simpl.
  destruct (SFsqrt_core_binary _ _ _ _) as [[m' e'] l]. apply round_not_negative.
Qed.
