(* ===== verification/AirwayRouting.v ===== *)
(** * Routes along published airways

    The airway graph of a navigation database (product-contracts/src/airway_routing.rs) and
    the search for a route on it (app-core/src/airway_routing.rs): which airways a mode of
    navigation may use, how a point off the graph connects to it, and the search for the
    shortest way through a list of required fixes.

    Floats are those of [Float64]. The Postcard encoding of a graph is the class [Postcard],
    and the trigonometric functions of the platform are the class [Libm]. A search gives [None] where the code would
    panic, or when it needs more rounds than it is given. *)

From Stdlib Require Import Strings.Byte Floats.SpecFloat.

From stdpp Require Import base gmap list list_numbers strings sorting pretty.
From S2P Require Import Prelude Float64 NavKvFormat NavKvStore.

Local Open Scope Z_scope.

(** ** The graph *)

Definition AIRWAY_ROUTING_GRAPH_KEY : bytes := bs "airway/routing/graph".
Definition AIRWAY_ROUTING_SCHEMA_VERSION : Z := 2.
Definition AIRWAY_ROUTING_MAX_BYTES : Z := 32 * 1024 * 1024.

Inductive AirwayRoutingReference :=
| RefAirport (id : bytes) | RefNavaid (id : bytes) | RefFix (id : bytes) | RefLatLon (lat lon : f64).

Record AirwayRoutingEdge := {
  ae_to : Z; ae_airway_name : bytes; ae_branch_key : bytes; ae_from_sequence : Z; ae_to_sequence : Z;
  ae_distance_nm : f64; ae_mea_ft : option Z; ae_gnss_mea_ft : option Z; ae_maximum_altitude_ft : option Z;
  ae_crossing_altitude_ft : option Z; ae_crossing_point : bytes; ae_signal_gap : bool }.

Record AirwayRoutingNode := {
  an_id : Z; an_nav_ref : AirwayRoutingReference; an_lat : f64; an_lon : f64; an_edges : list AirwayRoutingEdge }.

Record AirwayRoutingGraph := { ag_schema_version : Z; ag_nodes : list AirwayRoutingNode }.

Definition valid_position (lat lon : f64) : bool :=
  is_finite lat && is_finite lon && f64_le (f64_abs lat) (f64_lit 90 0) && f64_le (f64_abs lon) (f64_lit 180 0).

Definition bad_edge (count : Z) (edge : AirwayRoutingEdge) : bool :=
  (count <=? ae_to edge) || negb (is_finite (ae_distance_nm edge)) || f64_le (ae_distance_nm edge) (f64_lit 0 0).

Definition bad_node (count : Z) (index : nat) (node : AirwayRoutingNode) : bool :=
  negb (an_id node =? Z.of_nat index) || negb (valid_position (an_lat node) (an_lon node))
  || match an_nav_ref node with RefLatLon lat lon => negb (valid_position lat lon) | _ => false end
  || existsb (bad_edge count) (an_edges node).

Definition graph_validate (g : AirwayRoutingGraph) : result bytes unit :=
  _ ← guard_err (negb (ag_schema_version g =? AIRWAY_ROUTING_SCHEMA_VERSION) || (len (ag_nodes g) >? 200000))
        (bs "Unsupported airway routing graph.");
  guard_err (existsb (λ p, bad_node (len (ag_nodes g)) p.1 p.2) (imap pair (ag_nodes g)))
    (bs "Invalid airway routing graph.").

(** The crate postcard: writing a graph, and reading a number or a graph with what follows. *)
Class Postcard := {
  to_allocvec : AirwayRoutingGraph → result bytes bytes;
  take_u32 : bytes → result bytes (Z * bytes);
  take_graph : bytes → result bytes (AirwayRoutingGraph * bytes) }.

Section graph_codec.
Context `{Postcard}.

Definition size_limit : bytes := bs "Airway routing graph exceeds size limit.".

Definition graph_encode (g : AirwayRoutingGraph) : result bytes bytes :=
  _ ← graph_validate g;
  b ← to_allocvec g;
  _ ← guard_err (len b >? AIRWAY_ROUTING_MAX_BYTES) size_limit;
  Ok b.

Definition graph_decode (b : bytes) : result bytes AirwayRoutingGraph :=
  _ ← guard_err (len b >? AIRWAY_ROUTING_MAX_BYTES) size_limit;
  version ← take_u32 b;
  _ ← guard_err (negb (version.1 =? AIRWAY_ROUTING_SCHEMA_VERSION))
        (bs "Unsupported airway routing schema " ++ bs (pretty (Z.to_N version.1)) ++ bs ".");
  read ← take_graph b;
  _ ← guard_err (negb (bool_decide (read.2 = []))) (bs "Trailing bytes in airway routing graph.");
  _ ← graph_validate read.1;
  Ok read.1.
End graph_codec.

(** ** Positions and references *)

Record LatLon := { lat : f64; lon : f64 }.

Inductive NavRef :=
| NavAirport (id : bytes) | NavNavaid (id : bytes)
| NavArincNavaid (identifier icao_code section_code subsection_code : bytes)
| NavTerminalNavaid (airport_id identifier icao_code section_code subsection_code : bytes)
| NavFix (id : bytes) | NavLatLon (at_ : LatLon) | NavSpot (at_ : LatLon).

Definition lat_lon_eq (a b : LatLon) : bool := f64_eq (lat a) (lat b) && f64_eq (lon a) (lon b).
(** The derived equality. *)
Definition nav_ref_eq (a b : NavRef) : bool :=
  match a, b with
  | NavAirport x, NavAirport y | NavNavaid x, NavNavaid y | NavFix x, NavFix y => bool_decide (x = y)
  | NavArincNavaid x1 x2 x3 x4, NavArincNavaid y1 y2 y3 y4 => bool_decide ([x1; x2; x3; x4] = [y1; y2; y3; y4])
  | NavTerminalNavaid x1 x2 x3 x4 x5, NavTerminalNavaid y1 y2 y3 y4 y5 =>
      bool_decide ([x1; x2; x3; x4; x5] = [y1; y2; y3; y4; y5])
  | NavLatLon x, NavLatLon y | NavSpot x, NavSpot y => lat_lon_eq x y
  | _, _ => false
  end.

Definition node_ref (node : AirwayRoutingNode) : NavRef :=
  match an_nav_ref node with
  | RefAirport id => NavAirport id
  | RefNavaid id => NavNavaid id
  | RefFix id => NavFix id
  | RefLatLon lat lon => NavLatLon {| lat := lat; lon := lon |}
  end.
Definition position (node : AirwayRoutingNode) : LatLon := {| lat := an_lat node; lon := an_lon node |}.

(** ** Which airways may be used *)

Inductive AirwayNavigationMode := Vor | Gnss.

Definition mode_label (mode : AirwayNavigationMode) : bytes := match mode with Vor => bs "VOR" | Gnss => bs "GNSS" end.

Definition low_airway (name : bytes) : bool :=
  match name with b :: _ => bool_decide (b ∈ bs "VTABGR") | [] => false end.

Definition allows (mode : AirwayNavigationMode) (edge : AirwayRoutingEdge) : bool :=
  match mode with
  | Gnss => low_airway (ae_airway_name edge)
  | Vor =>
      bool_decide (head (ae_airway_name edge) = Some x56) && negb (bool_decide (last (ae_airway_name edge) = Some x52))
      && (bool_decide (is_Some (ae_mea_ft edge)) || bool_decide (ae_gnss_mea_ft edge = None))
  end.

Definition mea (mode : AirwayNavigationMode) (edge : AirwayRoutingEdge) : option (Z * bool) :=
  match mode, ae_gnss_mea_ft edge with
  | Gnss, Some altitude => Some (altitude, true)
  | _, _ => (λ altitude, (altitude, false)) <$> ae_mea_ft edge
  end.

(** ** The search *)

(** [FatalStore] is [Fatal] with an error of the store, kept as a value. *)
Inductive HadReadError := NeedPages (pages : list Z) | FatalStore (error : nav_kv_error) | Fatal (message : bytes).

Record Graph := { nodes : list AirwayRoutingNode }.

Definition graph_load `{Postcard} (fuel : nat) (store : NavKvStore) : result HadReadError Graph :=
  match get_bytes fuel store AIRWAY_ROUTING_GRAPH_KEY with
  | Err e => Err (FatalStore e)
  | Ok (MissingPages pages) => Err (NeedPages pages)
  | Ok MissingKey => Err (Fatal (bs "NAVDB is missing its airway routing graph."))
  | Ok (Hit b) => g ← map_err Fatal (graph_decode b); Ok {| nodes := ag_nodes g |}
  end.

Record RouteCost := { rc_distance_nm : f64; rc_changes : Z }.
Definition INFINITY : RouteCost := {| rc_distance_nm := S754_infinity false; rc_changes := u32_max |}.
Definition cost_cmp (a b : RouteCost) : comparison :=
  match total_cmp (rc_distance_nm a) (rc_distance_nm b) with Eq => rc_changes a ?= rc_changes b | c => c end.
Definition cost_lt (a b : RouteCost) : bool := match cost_cmp a b with Lt => true | _ => false end.
(** The derived equality. *)
Definition cost_eq (a b : RouteCost) : bool :=
  f64_eq (rc_distance_nm a) (rc_distance_nm b) && (rc_changes a =? rc_changes b).

Record QueueEntry := { qe_cost : RouteCost; qe_state : nat }.
(** The order of the heap is reversed: [entry_first a b] says that [a] is popped before [b]. *)
Definition entry_first (a b : QueueEntry) : bool :=
  match cost_cmp (qe_cost a) (qe_cost b) with Lt => true | Eq => Nat.leb (qe_state a) (qe_state b) | Gt => false end.
(** [BinaryHeap::pop]. *)
Fixpoint heap_pop (queue : list QueueEntry) : option (QueueEntry * list QueueEntry) :=
  match queue with
  | [] => None
  | e :: rest =>
      match heap_pop rest with
      | None => Some (e, [])
      | Some (first, others) => if entry_first e first then Some (e, rest) else Some (first, e :: others)
      end
  end.

(** A fix, how many of the required fixes were passed, and the airway it was reached by. *)
Definition StateKey : Type := Z * nat * option bytes.
Definition key_node (key : StateKey) : Z := key.1.1.
Definition key_stage (key : StateKey) : nat := key.1.2.
Definition key_incoming (key : StateKey) : option bytes := key.2.

Record Search := {
  sr_indices : gmap StateKey nat;
  sr_states : list StateKey;
  sr_costs : list RouteCost;
  sr_previous : list (option (nat * nat));
  sr_queue : list QueueEntry;
  sr_best : option (nat * f64);
  sr_best_cost : RouteCost }.

Definition search_empty : Search :=
  {| sr_indices := ∅; sr_states := []; sr_costs := []; sr_previous := []; sr_queue := [];
     sr_best := None; sr_best_cost := INFINITY |}.
Definition with_queue (q : list QueueEntry) (s : Search) : Search :=
  {| sr_indices := sr_indices s; sr_states := sr_states s; sr_costs := sr_costs s; sr_previous := sr_previous s;
     sr_queue := q; sr_best := sr_best s; sr_best_cost := sr_best_cost s |}.
Definition with_best (b : nat * f64) (c : RouteCost) (s : Search) : Search :=
  {| sr_indices := sr_indices s; sr_states := sr_states s; sr_costs := sr_costs s; sr_previous := sr_previous s;
     sr_queue := sr_queue s; sr_best := Some b; sr_best_cost := c |}.
(** A new state. *)
Definition push_state (key : StateKey) (cost : RouteCost) (s : Search) : Search :=
  {| sr_indices := <[key := length (sr_states s)]> (sr_indices s); sr_states := sr_states s ++ [key];
     sr_costs := sr_costs s ++ [cost]; sr_previous := sr_previous s ++ [None];
     sr_queue := sr_queue s; sr_best := sr_best s; sr_best_cost := sr_best_cost s |}.
(** A cheaper way to a state. *)
Definition improve (next : nat) (cost : RouteCost) (from : nat * nat) (s : Search) : Search :=
  {| sr_indices := sr_indices s; sr_states := sr_states s; sr_costs := <[next := cost]> (sr_costs s);
     sr_previous := <[next := Some from]> (sr_previous s);
     sr_queue := {| qe_cost := cost; qe_state := next |} :: sr_queue s;
     sr_best := sr_best s; sr_best_cost := sr_best_cost s |}.

(** [iter().position(|x| x == id)] finds a position other than [stage]. *)
Definition elsewhere (via : list Z) (id : Z) (stage : nat) : bool :=
  match list_find (λ x, x = id) via with Some (index, _) => negb (Nat.eqb index stage) | None => false end.

Definition six : f64 := f64_lit 6 0.

Definition push_start (via : list Z) (s : Search) (start : Z * f64) : Search :=
  let '(id, direct) := start in
  if elsewhere via id 0 then s
  else
    let stage := if bool_decide (head via = Some id) then 1%nat else 0%nat in
    let cost := {| rc_distance_nm := f64_mul direct six; rc_changes := 0 |} in
    let state := length (sr_states s) in
    let s := push_state (id, stage, None) cost s in
    with_queue ({| qe_cost := cost; qe_state := state |} :: sr_queue s) s.

(** Whether a state or one it was reached from is at the fix [to]. *)
Fixpoint on_path (fuel : nat) (s : Search) (ancestor : option nat) (to : Z) : option bool :=
  match ancestor with
  | None => Some false
  | Some prior =>
      match fuel with
      | O => None
      | S fuel =>
          key ← sr_states s !! prior;
          if key_node key =? to then Some true
          else previous ← sr_previous s !! prior; on_path fuel s (fst <$> previous) to
      end
  end.

Definition state_index (key : StateKey) (s : Search) : nat * Search :=
  match sr_indices s !! key with
  | Some index => (index, s)
  | None => (length (sr_states s), push_state key INFINITY s)
  end.

Section search.
Context (g : Graph) (via : list Z) (mode : AirwayNavigationMode).

Definition next_cost (cost : RouteCost) (incoming : option bytes) (edge : AirwayRoutingEdge) : RouteCost :=
  {| rc_distance_nm := f64_add (rc_distance_nm cost) (ae_distance_nm edge);
     rc_changes := wrap32 (rc_changes cost
       + match incoming with Some name => if bool_decide (name = ae_airway_name edge) then 0 else 1 | None => 0 end) |}.

Definition next_stage (stage : nat) (to : Z) : nat :=
  if bool_decide (via !! stage = Some to) then S stage else stage.

(** One edge from the state that is expanded. *)
Definition relax_edge (state : nat) (cost : RouteCost) (key : StateKey) (s : Search) (ie : nat * AirwayRoutingEdge)
    : option Search :=
  let '(edge_index, edge) := ie in
  if negb (allows mode edge) then Some s
  else if elsewhere via (ae_to edge) (key_stage key) then Some s
  else
    repeated ← on_path (length (sr_states s)) s (Some state) (ae_to edge);
    if repeated : bool then Some s
    else
      let next_key := (ae_to edge, next_stage (key_stage key) (ae_to edge), Some (ae_airway_name edge)) in
      let '(next, s) := state_index next_key s in
      let cost' := next_cost cost (key_incoming key) edge in
      old ← sr_costs s !! next;
      if cost_lt cost' old then Some (improve next cost' (state, edge_index) s) else Some s.

Fixpoint relax_edges (state : nat) (cost : RouteCost) (key : StateKey) (s : Search) (l : list (nat * AirwayRoutingEdge))
    : option Search :=
  match l with
  | [] => Some s
  | ie :: l => s ← relax_edge state cost key s ie; relax_edges state cost key s l
  end.

(** Whether the state ends a route, and a better one than those found before. *)
Definition consider_end (ends : list (Z * f64)) (state : nat) (cost : RouteCost) (key : StateKey) (s : Search) : Search :=
  if Nat.eqb (key_stage key) (length via) && bool_decide (is_Some (key_incoming key)) then
    match list_find (λ e, e.1 = key_node key) ends with
    | None => s
    | Some (_, (_, distance)) =>
        let score := {| rc_distance_nm := f64_add (rc_distance_nm cost) (f64_mul distance six);
                        rc_changes := rc_changes cost |} in
        if cost_lt score (sr_best_cost s) then with_best (state, distance) score s else s
    end
  else s.

Fixpoint search_loop (fuel : nat) (ends : list (Z * f64)) (s : Search) : option Search :=
  match fuel with
  | O => None
  | S fuel =>
      match heap_pop (sr_queue s) with
      | None => Some s
      | Some (e, q) =>
          let s := with_queue q s in
          let cost := qe_cost e in
          let state := qe_state e in
          current ← sr_costs s !! state;
          if negb (cost_eq cost current) then search_loop fuel ends s
          else if negb (cost_lt cost (sr_best_cost s)) then Some s
          else
            key ← sr_states s !! state;
            let s := consider_end ends state cost key s in
            node ← nodes g !! Z.to_nat (key_node key);
            s ← relax_edges state cost key s (imap pair (an_edges node));
            search_loop fuel ends s
      end
  end.

Record Step := { st_from : Z; st_edge : nat }.
Record Path := { p_steps : list Step; p_direct_nm : f64; p_distance_nm : f64; p_score : f64 }.

(** The way back from a state: the steps, first one first, and the state it starts from;
    [Some None] when a fix occurs twice. *)
Fixpoint walk_back (fuel : nat) (s : Search) (state : nat) (seen : gset Z) (steps : list Step)
    : option (option (nat * list Step)) :=
  match fuel with
  | O => None
  | S fuel =>
      previous ← sr_previous s !! state;
      match previous with
      | None => Some (Some (state, steps))
      | Some (prior, edge) =>
          key ← sr_states s !! prior;
          if bool_decide (key_node key ∈ seen) then Some None
          else walk_back fuel s prior ({[key_node key]} ∪ seen) ({| st_from := key_node key; st_edge := edge |} :: steps)
      end
  end.

Definition step_distance (step : Step) : option f64 :=
  node ← nodes g !! Z.to_nat (st_from step);
  edge ← an_edges node !! st_edge step;
  Some (ae_distance_nm edge).

(** [Iterator::sum::<f64>]. *)
Definition f64_sum (l : list f64) : f64 := fold_left f64_add l (S754_zero true).

(** The number of rounds the search is given: one for each entry that can be pushed. *)
Definition edge_total : nat := sum_list ((λ node, length (an_edges node)) <$> nodes g).
Definition state_bound (starts : list (Z * f64)) : nat := length starts + edge_total * S (length via).
Definition search_rounds (starts : list (Z * f64)) : nat := S (length starts + state_bound starts * edge_total).

Definition shortest (starts ends : list (Z * f64)) : option (option Path) :=
  if bool_decide (nodes g = []) then Some None
  else
    s ← search_loop (search_rounds starts) ends (fold_left (push_start via) starts search_empty);
    match sr_best s with
    | None => Some None
    | Some (state, end_direct) =>
        key ← sr_states s !! state;
        back ← walk_back (length (sr_states s)) s state {[key_node key]} [];
        match back with
        | None => Some None
        | Some (first, steps) =>
            key ← sr_states s !! first;
            match list_find (λ x, x.1 = key_node key) starts with
            | None => Some None
            | Some (_, (_, start_direct)) =>
                let direct_nm := f64_add start_direct end_direct in
                distances ← mapM step_distance steps;
                let distance_nm := f64_add direct_nm (f64_sum distances) in
                Some (Some {| p_steps := steps; p_direct_nm := direct_nm; p_distance_nm := distance_nm;
                              p_score := f64_add distance_nm (f64_mul (f64_lit 5 0) direct_nm) |})
            end
        end
    end.
End search.

(** ** Routes between two points *)

Section routes.
Context `{Libm} (g : Graph).

Definition EARTH_RADIUS_NM : f64 := f64_div (f64_lit 3440065 0) (f64_lit 1000 0).

Definition great_circle_distance_nm (from to : LatLon) : f64 :=
  let dlat := to_radians (f64_sub (lat to) (lat from)) in
  let dlon := to_radians (f64_sub (lon to) (lon from)) in
  let lat1 := to_radians (lat from) in
  let lat2 := to_radians (lat to) in
  let two := f64_lit 2 0 in
  let h := f64_add (f64_square (f64_sin (f64_div dlat two)))
             (f64_mul (f64_mul (f64_cos lat1) (f64_cos lat2)) (f64_square (f64_sin (f64_div dlon two)))) in
  f64_mul (f64_mul two EARTH_RADIUS_NM) (f64_asin (f64_sqrt h)).

Definition flight_leg_distance_nm (first second : LatLon) : f64 := great_circle_distance_nm first second.

Definition is_target (id : Z) (mode : AirwayNavigationMode) : bool :=
  match nodes g !! Z.to_nat id with
  | None => false
  | Some node =>
      match an_nav_ref node with RefLatLon _ _ => false | _ => true end && existsb (allows mode) (an_edges node)
  end.

(** The order of [sort_by]: by distance, then by id. *)
Definition nearer (a b : Z * f64) : Prop :=
  match total_cmp a.2 b.2 with Lt => True | Eq => a.1 ≤ b.1 | Gt => False end.
#[global] Instance nearer_dec a b : Decision (nearer a b).
Proof. unfold nearer. destruct (total_cmp a.2 b.2); apply _. Defined.

Definition choice (at_ : LatLon) (mode : AirwayNavigationMode) (node : AirwayRoutingNode) : option (Z * f64) :=
  if is_target (an_id node) mode then
    let distance := flight_leg_distance_nm at_ (position node) in
    if f64_le distance (f64_lit 75 0) then Some (an_id node, distance) else None
  else None.

Definition connections (anchor : NavRef) (at_ : LatLon) (mode : AirwayNavigationMode) : list (Z * f64) :=
  match list_find (λ node, nav_ref_eq (node_ref node) anchor = true) (nodes g) with
  | Some (_, node) => [(an_id node, f64_lit 0 0)]
  | None => take 24 (merge_sort nearer (omap (choice at_ mode) (nodes g)))
  end.

(** How long a route may be, for two points [direct] apart. *)
Definition detour_limit (direct : f64) : f64 :=
  if f64_lt direct (f64_lit 15 0) then f64_add (f64_mul direct (f64_lit 2 0)) (f64_lit 3 0)
  else f64_add (f64_mul direct (f64_lit 7 (-2))) (f64_lit 20 0).

Definition routes (origin : NavRef) (origin_position : LatLon) (destination : NavRef) (destination_position : LatLon)
    (via : list Z) (mode : AirwayNavigationMode) : option (list Path) :=
  if (len via >? 12) || existsb (λ id, negb (is_target id mode)) via then Some []
  else
    let starts := connections origin origin_position mode in
    let ends := connections destination destination_position mode in
    let direct := flight_leg_distance_nm origin_position destination_position in
    found ← shortest g via mode starts ends;
    Some (match found with
          | Some path =>
              if negb (bool_decide (via = [])) || f64_le (p_distance_nm path) (detour_limit direct) then [path] else []
          | None => []
          end).
End routes.
