(* ===== verification/AirwaySearch.v ===== *)
(** * The search for an airway route, round by round

    What holds between two rounds of the search: the states that were expanded have their
    final cost, every other one waits in the queue, and following the predecessors of a state
    leads back to a start along airways that may be used, without passing a fix twice. *)

From Stdlib Require Import Strings.Byte Floats.SpecFloat.

From stdpp Require Import base gmap list list_numbers strings sorting.
From S2P Require Import Prelude Float64 AirwayRouting.

Local Open Scope Z_scope.

(** ** Costs *)

Definition cost_ok (c : RouteCost) : Prop := distance_ok (rc_distance_nm c) ∧ 0 ≤ rc_changes c.
Definition nm (c : RouteCost) : Z := val (rc_distance_nm c).
Definition cle (a b : RouteCost) : Prop := nm a < nm b ∨ (nm a = nm b ∧ rc_changes a ≤ rc_changes b).
Definition clt (a b : RouteCost) : Prop := nm a < nm b ∨ (nm a = nm b ∧ rc_changes a < rc_changes b).

Lemma cost_cmp_ok a b : cost_ok a → cost_ok b →
  match cost_cmp a b with Lt => clt a b | Eq => nm a = nm b ∧ rc_changes a = rc_changes b | Gt => clt b a end.
Proof.
  intros [Ha _] [Hb _]. unfold cost_cmp, clt, nm. rewrite total_cmp_val by done.
  destruct (Z.compare_spec (val (rc_distance_nm a)) (val (rc_distance_nm b))); [|lia..].
  destruct (Z.compare_spec (rc_changes a) (rc_changes b)); lia.
Qed.
Lemma cost_lt_iff a b : cost_ok a → cost_ok b → cost_lt a b = true ↔ clt a b.
Proof.
  intros Ha Hb. pose proof (cost_cmp_ok a b Ha Hb) as Hc. unfold cost_lt, clt in *.
  destruct (cost_cmp a b); split; (done || lia).
Qed.
Lemma cost_lt_false a b : cost_ok a → cost_ok b → cost_lt a b = false ↔ cle b a.
Proof. intros Ha Hb. rewrite <- not_true_iff_false, cost_lt_iff by done. unfold clt, cle. lia. Qed.
Lemma cost_eq_iff a b : cost_ok a → cost_ok b → cost_eq a b = true ↔ a = b.
Proof.
  intros [Ha _] [Hb _]. unfold cost_eq. rewrite andb_true_iff, f64_eq_val, Z.eqb_eq by done.
  destruct a, b; simpl. naive_solver.
Qed.
Lemma cost_inj a b : cost_ok a → cost_ok b → nm a = nm b → rc_changes a = rc_changes b → a = b.
Proof.
  intros [Ha _] [Hb _] Hn Hc. destruct a, b; unfold nm in *; simpl in *. f_equal; [by apply val_inj|done].
Qed.

Lemma infinity_ok : cost_ok INFINITY.
Proof. by split. Qed.
Lemma below_infinity c : cost_ok c → rc_changes c < u32_max → clt c INFINITY.
Proof.
  intros [Hd _] Hc. pose proof (val_range _ Hd) as Hv. unfold clt, nm. simpl. lia.
Qed.

(** ** The queue *)

Lemma heap_pop_None q : heap_pop q = None ↔ q = [].
Proof. destruct q as [|e q]; simpl; [done|]. destruct (heap_pop q) as [[? ?]|]; [case_match|]; done. Qed.

(** What is popped is least. *)
Lemma heap_pop_Some q e q' :
  Forall (λ x, cost_ok (qe_cost x)) q → heap_pop q = Some (e, q') →
  q ≡ₚ e :: q' ∧ Forall (λ x, cle (qe_cost e) (qe_cost x)) q'.
Proof.
  revert e q'. induction q as [|x q IH]; intros e q' Hok; simpl; [done|]. apply Forall_cons in Hok as [Hx Hq].
  destruct (heap_pop q) as [[y r]|] eqn:Hp.
  - destruct (IH y r Hq eq_refl) as [Hperm Hmin]. assert (cost_ok (qe_cost y)) as Hy.
    { rewrite Forall_forall in Hq. apply Hq. rewrite Hperm. left. }
    pose proof (cost_cmp_ok _ _ Hx Hy) as Hc. unfold entry_first. 
    assert (∀ z, cle (qe_cost y) (qe_cost z) → cle (qe_cost x) (qe_cost y) → cle (qe_cost x) (qe_cost z)) as Htr
      by (unfold cle; lia).
    assert (cle (qe_cost x) (qe_cost y) → Forall (λ z, cle (qe_cost x) (qe_cost z)) q) as Hall.
    { intros Hle. rewrite Hperm. constructor; [done|]. eapply Forall_impl; [exact Hmin|]. intros z Hz. by apply Htr. }
    destruct (cost_cmp (qe_cost x) (qe_cost y)); [destruct (Nat.leb _ _)| |]; intros [= <- <-];
      (split; [rewrite ?Hperm; try done; by rewrite perm_swap|]); try (apply Hall; unfold clt, cle in *; lia);
      (constructor; [unfold clt, cle in *; lia|done]).
  - intros [= <- <-]. apply heap_pop_None in Hp as ->. done.
Qed.

(** ** Ways back *)

Definition node_at (s : Search) (i : nat) : Z := match sr_states s !! i with Some key => key_node key | None => -1 end.

(** The states on the way back from a state, itself first. *)
Inductive chain (s : Search) : nat → list nat → Prop :=
| chain_start i : sr_previous s !! i = Some None → chain s i [i]
| chain_next i p edge l : sr_previous s !! i = Some (Some (p, edge)) → chain s p l → chain s i (i :: l).

Lemma chain_frame s s' i l :
  (∀ j, j ∈ l → sr_previous s' !! j = sr_previous s !! j) → chain s i l → chain s' i l.
Proof.
  intros Heq Hc. induction Hc as [i Hi|i p edge l Hi Hc IH].
  - constructor. by rewrite Heq by left.
  - econstructor; [by rewrite Heq by left|]. apply IH. intros j Hj. apply Heq. by right.
Qed.
Lemma chain_head s i l : chain s i l → ∃ l', l = i :: l'.
Proof. destruct 1; eauto. Qed.
Lemma chain_det s i l l' : chain s i l → chain s i l' → l = l'.
Proof.
  intros Hc. revert l'. induction Hc as [i Hi|i p edge l Hi Hc IH]; intros l' Hc'; destruct Hc' as [|? p' edge' l' Hi' Hc'];
    try congruence. f_equal. apply IH. rewrite Hi in Hi'. by injection Hi' as -> ->.
Qed.
Lemma chain_bound s i l : chain s i l → Forall (λ j, (j < length (sr_previous s))%nat) l.
Proof. induction 1; repeat constructor; try done; by eapply lookup_lt_Some. Qed.

Lemma on_path_chain s i l fuel to :
  chain s i l → length (sr_previous s) = length (sr_states s) → (length l ≤ fuel)%nat →
  on_path fuel s (Some i) to = Some (bool_decide (to ∈ node_at s <$> l)).
Proof.
  intros Hc Hlen. revert fuel. induction Hc as [i Hi|i p edge l Hi Hc IH]; intros [|fuel] Hf; simpl in Hf; try lia; simpl;
    (destruct (lookup_lt_is_Some_2 (sr_states s) i) as [key Hk]; [rewrite <- Hlen; by eapply lookup_lt_Some|]);
    assert (node_at s i = key_node key) as Hn by (unfold node_at; by rewrite Hk); rewrite Hk; simpl; rewrite Hi; simpl;
    rewrite Hn; destruct (Z.eqb_spec (key_node key) to) as [->|Hne].
  - by rewrite bool_decide_eq_true_2 by set_solver.
  - rewrite bool_decide_eq_false_2 by set_solver. destruct fuel; done.
  - by rewrite bool_decide_eq_true_2 by set_solver.
  - rewrite IH by lia. f_equal. apply bool_decide_ext. set_solver.
Qed.

(** ** What a search is about *)

Section search.
Context (g : Graph) (via : list Z) (mode : AirwayNavigationMode) (starts ends : list (Z * f64)).

Record searchable : Prop := {
  ok_count : len (nodes g) ≤ 200000;
  ok_edges i node : nodes g !! i = Some node →
    Forall (λ edge, 0 ≤ ae_to edge < len (nodes g) ∧ distance_ok (ae_distance_nm edge)) (an_edges node);
  ok_starts : Forall (λ x, 0 ≤ x.1 < len (nodes g) ∧ distance_ok x.2) starts;
  ok_distinct : NoDup starts.*1;
  ok_ends : Forall (λ x, distance_ok x.2) ends }.

Definition edge_at (from : Z) (index : nat) (edge : AirwayRoutingEdge) : Prop :=
  ∃ node, nodes g !! Z.to_nat from = Some node ∧ an_edges node !! index = Some edge.

Definition start_stage (id : Z) : nat := if bool_decide (head via = Some id) then 1%nat else 0%nat.
Definition start_cost (direct : f64) : RouteCost := {| rc_distance_nm := f64_mul direct six; rc_changes := 0 |}.

(** Why a state has its cost. *)
Definition justified (s : Search) (i : nat) (key : StateKey) (cost : RouteCost) (previous : option (nat * nat)) : Prop :=
  match previous with
  | None =>
      ∃ id direct, (id, direct) ∈ starts ∧ elsewhere via id 0 = false ∧ key = (id, start_stage id, None) ∧ cost = start_cost direct
  | Some (p, index) =>
      ∃ pkey pcost edge, sr_states s !! p = Some pkey ∧ sr_costs s !! p = Some pcost
        ∧ edge_at (key_node pkey) index edge ∧ allows mode edge = true ∧ elsewhere via (ae_to edge) (key_stage pkey) = false
        ∧ key = (ae_to edge, next_stage via (key_stage pkey) (ae_to edge), Some (ae_airway_name edge))
        ∧ cost = next_cost pcost (key_incoming pkey) edge
  end.

(** A state, with the way back from it: all of it was expanded before. *)
Record label (X : gset nat) (s : Search) (i : nat) (key : StateKey) (cost : RouteCost) (previous : option (nat * nat))
    (l : list nat) : Prop := {
  lb_state : sr_states s !! i = Some key;
  lb_cost : sr_costs s !! i = Some cost;
  lb_previous : sr_previous s !! i = Some previous;
  lb_node : 0 ≤ key_node key < len (nodes g);
  lb_stage : (key_stage key ≤ length via)%nat;
  lb_ok : cost_ok cost;
  lb_chain : chain s i l;
  lb_simple : NoDup (node_at s <$> l);
  lb_tail : Forall (.∈ X) (tail l);
  lb_changes : rc_changes cost < len l;
  lb_justified : justified s i key cost previous }.

(** The keys a state can have. *)
Definition universe : list StateKey :=
  ((λ x, (x.1, start_stage x.1, None)) <$> starts)
  ++ (edge ← (node ← nodes g; an_edges node); stage ← seq 0 (S (length via));
      [(ae_to edge, stage, Some (ae_airway_name edge))]).

(** A state that ends a route, [distance] from the destination. *)
Definition final (s : Search) (i : nat) (distance : f64) : Prop :=
  ∃ key index, sr_states s !! i = Some key ∧ key_stage key = length via ∧ is_Some (key_incoming key)
    ∧ list_find (λ e, e.1 = key_node key) ends = Some (index, (key_node key, distance)).
Definition score (cost : RouteCost) (distance : f64) : RouteCost :=
  {| rc_distance_nm := f64_add (rc_distance_nm cost) (f64_mul distance six); rc_changes := rc_changes cost |}.

Record Core (X : gset nat) (s : Search) : Prop := {
  c_costs : length (sr_costs s) = length (sr_states s);
  c_previous : length (sr_previous s) = length (sr_states s);
  c_index key i : sr_indices s !! key = Some i ↔ sr_states s !! i = Some key;
  c_keys : Forall (.∈ universe) (sr_states s);
  c_expanded i : i ∈ X → (i < length (sr_states s))%nat;
  c_label i : (i < length (sr_states s))%nat → ∃ key cost previous l, label X s i key cost previous l;
  c_best_ok : cost_ok (sr_best_cost s);
  c_best : match sr_best s with
           | None => sr_best_cost s = INFINITY
           | Some (i, distance) =>
               i ∈ X ∧ final s i distance ∧ ∃ cost, sr_costs s !! i = Some cost ∧ sr_best_cost s = score cost distance
           end;
  c_finals i distance cost :
    i ∈ X → final s i distance → sr_costs s !! i = Some cost → cle (sr_best_cost s) (score cost distance) }.

Record Queued (X : gset nat) (s : Search) : Prop := {
  q_distinct : NoDup (sr_queue s);
  q_entry e : e ∈ sr_queue s → ∃ cost, sr_costs s !! qe_state e = Some cost ∧ cost_ok (qe_cost e)
    ∧ cle cost (qe_cost e) ∧ (qe_state e ∈ X → clt cost (qe_cost e));
  q_open i cost : sr_costs s !! i = Some cost → i ∉ X → {| qe_cost := cost; qe_state := i |} ∈ sr_queue s;
  q_low i cost e : i ∈ X → sr_costs s !! i = Some cost → e ∈ sr_queue s → cle cost (qe_cost e) }.

(** A fix was reached, at a distance of at most [n]. *)
Definition reached (s : Search) (to : Z) (n : Z) : Prop :=
  ∃ i key cost, sr_states s !! i = Some key ∧ key_node key = to ∧ sr_costs s !! i = Some cost ∧ nm cost ≤ n.
(** The edges from the states that were expanded were followed. *)
Definition follows (s : Search) (u : nat) (index : nat) : Prop :=
  ∀ key cost edge, sr_states s !! u = Some key → sr_costs s !! u = Some cost → edge_at (key_node key) index edge →
    allows mode edge = true → elsewhere via (ae_to edge) (key_stage key) = false →
    reached s (ae_to edge) (val (f64_add (rc_distance_nm cost) (ae_distance_nm edge))).
Definition Explored (X : gset nat) (s : Search) : Prop := ∀ u index, u ∈ X → follows s u index.

(** The search goes on: states stay, those expanded as they are, and costs do not grow. *)
Record grows (X : gset nat) (s s' : Search) : Prop := {
  gr_states i key : sr_states s !! i = Some key → sr_states s' !! i = Some key;
  gr_costs i cost : sr_costs s !! i = Some cost → ∃ cost', sr_costs s' !! i = Some cost' ∧ nm cost' ≤ nm cost;
  gr_kept i : i ∈ X → sr_costs s' !! i = sr_costs s !! i;
  gr_best : sr_best s' = sr_best s ∧ sr_best_cost s' = sr_best_cost s }.

Lemma grows_refl X s : grows X s s.
Proof. split; [done| |done|done]. intros i cost Hc. exists cost. split; [done|lia]. Qed.
Lemma grows_trans X s s1 s2 : grows X s s1 → grows X s1 s2 → grows X s s2.
Proof.
  intros H1 H2. split.
  - intros i key Hk. by apply (gr_states _ _ _ H2), (gr_states _ _ _ H1).
  - intros i cost Hc. destruct (gr_costs _ _ _ H1 i cost Hc) as (c1 & Hc1 & Hn1).
    destruct (gr_costs _ _ _ H2 i c1 Hc1) as (c2 & Hc2 & Hn2). exists c2. split; [done|lia].
  - intros i Hi. by rewrite (gr_kept _ _ _ H2), (gr_kept _ _ _ H1).
  - destruct (gr_best _ _ _ H1), (gr_best _ _ _ H2). split; congruence.
Qed.
Lemma reached_grows X s s' to n : grows X s s' → reached s to n → reached s' to n.
Proof.
  intros Hg (i & key & cost & Hk & Hto & Hc & Hn). destruct (gr_costs _ _ _ Hg i cost Hc) as (c' & Hc' & Hn').
  exists i, key, c'. split; [by apply (gr_states _ _ _ Hg)|]. split; [done|]. split; [done|lia].
Qed.

(** ** One cheaper way *)

(** State [next] was found or got cheaper: the new search differs from the old one there only. *)
Record updated (s s' : Search) (next : nat) (key : StateKey) (cost : RouteCost) (from : nat * nat) : Prop := {
  up_states j : sr_states s' !! j = if decide (j = next) then Some key else sr_states s !! j;
  up_costs j : sr_costs s' !! j = if decide (j = next) then Some cost else sr_costs s !! j;
  up_previous j : sr_previous s' !! j = if decide (j = next) then Some (Some from) else sr_previous s !! j;
  up_queue : sr_queue s' = {| qe_cost := cost; qe_state := next |} :: sr_queue s;
  up_best : sr_best s' = sr_best s ∧ sr_best_cost s' = sr_best_cost s;
  up_index k i : sr_indices s' !! k = Some i ↔ sr_states s' !! i = Some k;
  up_length : length (sr_costs s') = length (sr_states s') ∧ length (sr_previous s') = length (sr_states s');
  up_old : (sr_states s !! next = Some key ∧ ∃ old, sr_costs s !! next = Some old ∧ clt cost old)
           ∨ next = length (sr_states s) }.

Section update.
Context (X : gset nat) (s s' : Search) (next : nat) (key : StateKey) (cost : RouteCost) (u index : nat).
Context (Hup : updated s s' next key cost (u, index)).

Lemma update_state i k : sr_states s !! i = Some k → sr_states s' !! i = Some k.
Proof.
  intros Hk. rewrite (up_states _ _ _ _ _ _ Hup). case_decide as Hi; [|done]. subst i.
  destruct (up_old _ _ _ _ _ _ Hup) as [[Hn _]| ->]; [congruence|].
  apply lookup_lt_Some in Hk. lia.
Qed.
Lemma update_node i : (i < length (sr_states s))%nat → node_at s' i = node_at s i.
Proof.
  intros [k Hk]%lookup_lt_is_Some_2. unfold node_at. by rewrite Hk, (update_state i k Hk).
Qed.
Lemma update_length : (length (sr_states s) ≤ length (sr_states s'))%nat ∧ (next < length (sr_states s'))%nat
  ∧ ∀ i, (i < length (sr_states s'))%nat → i ≠ next → (i < length (sr_states s))%nat.
Proof.
  assert (next < length (sr_states s'))%nat as Hn.
  { apply (lookup_lt_Some _ _ key). rewrite (up_states _ _ _ _ _ _ Hup). by case_decide. }
  split; [|split; [done|]].
  - destruct (decide (length (sr_states s) = 0)%nat) as [|Hne]; [lia|].
    destruct (lookup_lt_is_Some_2 (sr_states s) (pred (length (sr_states s)))) as [k Hk]; [lia|].
    apply update_state, lookup_lt_Some in Hk. lia.
  - intros i Hi Hne. destruct (lookup_lt_is_Some_2 _ _ Hi) as [k Hk]. rewrite (up_states _ _ _ _ _ _ Hup) in Hk.
    case_decide; [done|]. by eapply lookup_lt_Some.
Qed.

Context (Hcore : Core X s).

Lemma update_nodes i l : chain s i l → node_at s' <$> l = node_at s <$> l.
Proof.
  intros Hc. apply list_fmap_ext. intros j x Hx. apply update_node.
  pose proof (chain_bound _ _ _ Hc) as Hb. rewrite Forall_forall in Hb. rewrite <- (c_previous _ _ Hcore). apply Hb.
  by eapply list_elem_of_lookup_2.
Qed.

Context (HnX : next ∉ X).

Lemma update_grows : grows X s s'.
Proof.
  split; [exact update_state| | |exact (up_best _ _ _ _ _ _ Hup)].
  - intros i c Hc. rewrite (up_costs _ _ _ _ _ _ Hup). case_decide as Hi; [subst i|exists c; split; [done|lia]].
    exists cost. split; [done|]. destruct (up_old _ _ _ _ _ _ Hup) as [(_ & old & Ho & Hlt)| ->].
    + rewrite Hc in Ho. injection Ho as <-. unfold clt in Hlt. lia.
    + apply lookup_lt_Some in Hc. rewrite (c_costs _ _ Hcore) in Hc. lia.
  - intros i Hi. rewrite (up_costs _ _ _ _ _ _ Hup). case_decide; [by subst|done].
Qed.

(** The ways back of the other states avoid [next]. *)
Lemma update_chain i l : chain s i l → i ≠ next → Forall (.∈ X) (tail l) → chain s' i l.
Proof.
  intros Hc Hne Ht. eapply chain_frame; [|exact Hc]. intros j Hj. rewrite (up_previous _ _ _ _ _ _ Hup).
  case_decide as Hjn; [subst j|done]. destruct (chain_head _ _ _ Hc) as [l' ->]. simpl in Ht.
  rewrite Forall_forall in Ht. apply elem_of_cons in Hj as [->|Hj]; [done|]. by destruct HnX; apply Ht.
Qed.
Lemma update_label i k c prev l : i ≠ next → label X s i k c prev l → label X s' i k c prev l.
Proof.
  intros Hne Hl. destruct Hl as [H1 H2 H3 H4 H5 H6 H7 H8 H9 H10 H11].
  split; try done.
  - by apply update_state.
  - rewrite (up_costs _ _ _ _ _ _ Hup). by case_decide.
  - rewrite (up_previous _ _ _ _ _ _ Hup). by case_decide.
  - by apply update_chain.
  - by rewrite (update_nodes i).
  - unfold justified in *. destruct prev as [[p ei]|]; [|done].
    destruct H11 as (pk & pc & edge & Hpk & Hpc & Hrest). exists pk, pc, edge. split; [by apply update_state|]. split; [|done].
    rewrite (gr_kept _ _ _ update_grows); [done|]. inversion H7; subst; [congruence|].
    match goal with Hp : sr_previous s !! i = Some (Some (?p', _)) |- _ => assert (p = p') as -> by congruence end.
    match goal with Hc : chain s _ _ |- _ => destruct (chain_head _ _ _ Hc) as [l' ->] end. by apply Forall_cons in H9 as [? _].
Qed.
End update.

(** ** Following an edge *)

Lemma NoDup_range (l : list Z) n : 0 ≤ n → NoDup l → Forall (λ x, 0 ≤ x < n) l → len l ≤ n.
Proof.
  intros Hn Hnd Hr. assert (l ⊆+ seqZ 0 n) as Hsub.
  { apply NoDup_submseteq; [done|]. intros x Hx. rewrite Forall_forall in Hr. specialize (Hr x Hx). apply elem_of_seqZ. lia. }
  apply submseteq_length in Hsub. rewrite length_seqZ in Hsub. unfold len. lia.
Qed.

Context (Hgraph : searchable).

Lemma edge_at_ok from index edge : edge_at from index edge → 0 ≤ ae_to edge < len (nodes g) ∧ distance_ok (ae_distance_nm edge).
Proof.
  intros (node & Hn & He). pose proof (ok_edges Hgraph _ _ Hn) as Hall. rewrite Forall_forall in Hall. apply Hall.
  by eapply list_elem_of_lookup_2.
Qed.

Lemma chain_length X s i key cost previous l : Core X s → label X s i key cost previous l → len l ≤ len (nodes g).
Proof.
  intros Hc Hl. rewrite <- (len_fmap (node_at s)). apply NoDup_range; [apply len_nonneg|apply Hl|]. apply Forall_fmap.
  pose proof (chain_bound _ _ _ (lb_chain _ _ _ _ _ _ _ Hl)) as Hb. eapply Forall_impl; [exact Hb|]. simpl. intros j Hj.
  rewrite (c_previous _ _ Hc) in Hj. destruct (c_label _ _ Hc j Hj) as (k & c & prev & l' & Hlj).
  unfold node_at. rewrite (lb_state _ _ _ _ _ _ _ Hlj). apply Hlj.
Qed.

Lemma next_cost_ok c incoming edge :
  cost_ok c → distance_ok (ae_distance_nm edge) → rc_changes c < 200000 →
  let c' := next_cost c incoming edge in cost_ok c' ∧ cle c c' ∧ rc_changes c' ≤ rc_changes c + 1.
Proof.
  intros [Hd Hch] He Hlt. unfold next_cost, cost_ok, cle, nm. simpl.
  set (b := match incoming with Some name => if bool_decide (name = ae_airway_name edge) then 0 else 1 | None => 0 end).
  assert (0 ≤ b ≤ 1) as Hb by (unfold b; repeat case_match; lia).
  unfold wrap32. rewrite Z.mod_small by lia. pose proof (add_ge _ _ Hd He). pose proof (add_ok _ _ Hd He).
  repeat split; try done; lia.
Qed.

Lemma next_stage_le stage to : (stage ≤ length via)%nat → (next_stage via stage to ≤ length via)%nat.
Proof.
  intros Hs. unfold next_stage. case_bool_decide as Hv; [|done]. apply lookup_lt_Some in Hv. lia.
Qed.

Lemma edge_in_universe from index edge stage :
  edge_at from index edge → (stage ≤ length via)%nat → (ae_to edge, stage, Some (ae_airway_name edge)) ∈ universe.
Proof.
  intros (node & Hn & He) Hs. unfold universe. rewrite elem_of_app. right. apply list_elem_of_bind. exists edge. split.
  - apply list_elem_of_bind. exists stage. split; [by left|]. apply elem_of_seq. lia.
  - apply list_elem_of_bind. exists node. split; by eapply list_elem_of_lookup_2.
Qed.

(** What the state that is expanded needs for an edge to be followed. *)
Record expanding (X : gset nat) (s : Search) (u : nat) (ukey : StateKey) (ucost : RouteCost) : Prop := {
  ex_core : Core X s;
  ex_queued : Queued X s;
  ex_in : u ∈ X;
  ex_key : sr_states s !! u = Some ukey;
  ex_cost : sr_costs s !! u = Some ucost;
  ex_low i cost : i ∈ X → sr_costs s !! i = Some cost → cle cost ucost }.

Lemma expanding_label X s u ukey ucost : expanding X s u ukey ucost →
  ∃ previous l, label X s u ukey ucost previous l ∧ Forall (.∈ X) l ∧ rc_changes ucost < 200000.
Proof.
  intros Hex. destruct (c_label _ _ (ex_core _ _ _ _ _ Hex) u) as (k & c & prev & l & Hl);
    [exact (lookup_lt_Some _ _ _ (ex_key _ _ _ _ _ Hex))|].
  assert (k = ukey) as -> by (pose proof (lb_state _ _ _ _ _ _ _ Hl); pose proof (ex_key _ _ _ _ _ Hex); congruence).
  assert (c = ucost) as -> by (pose proof (lb_cost _ _ _ _ _ _ _ Hl); pose proof (ex_cost _ _ _ _ _ Hex); congruence).
  exists prev, l. split; [done|]. split.
  - destruct (chain_head _ _ _ (lb_chain _ _ _ _ _ _ _ Hl)) as [l' ->]. constructor; [apply Hex|apply Hl].
  - pose proof (chain_length _ _ _ _ _ _ _ (ex_core _ _ _ _ _ Hex) Hl). pose proof (lb_changes _ _ _ _ _ _ _ Hl).
    pose proof (ok_count Hgraph). lia.
Qed.

Section follow.
Context (X : gset nat) (s : Search) (u : nat) (ukey : StateKey) (ucost : RouteCost) (index : nat) (edge : AirwayRoutingEdge).
Context (Hex : expanding X s u ukey ucost).
Context (Hedge : edge_at (key_node ukey) index edge) (Hallow : allows mode edge = true).
Context (Helse : elsewhere via (ae_to edge) (key_stage ukey) = false).

Definition new_key : StateKey := (ae_to edge, next_stage via (key_stage ukey) (ae_to edge), Some (ae_airway_name edge)).
Definition new_cost : RouteCost := next_cost ucost (key_incoming ukey) edge.

Lemma new_cost_ok : cost_ok new_cost ∧ cle ucost new_cost ∧ rc_changes new_cost ≤ rc_changes ucost + 1 ∧ clt new_cost INFINITY.
Proof.
  destruct (expanding_label _ _ _ _ _ Hex) as (prev & l & Hl & _ & Hch).
  destruct (next_cost_ok ucost (key_incoming ukey) edge) as (Hok & Hle & Hc); [apply Hl|by eapply edge_at_ok|done|].
  split; [done|]. split; [done|]. split; [done|]. apply below_infinity; [done|]. unfold new_cost, u32_max. lia.
Qed.

(** A cheaper state was not expanded before. *)
Lemma cheaper_open i old : sr_costs s !! i = Some old → clt new_cost old → i ∉ X.
Proof.
  intros Ho Hlt Hi. pose proof (ex_low _ _ _ _ _ Hex i old Hi Ho) as Hle. destruct new_cost_ok as (_ & Hge & _).
  unfold clt, cle in *. lia.
Qed.
Lemma updated_open s' next : updated s s' next new_key new_cost (u, index) → next ∉ X.
Proof.
  intros Hup. destruct (up_old _ _ _ _ _ _ Hup) as [(_ & old & Ho & Hlt)| ->]; [by eapply cheaper_open|].
  intros Hi%(c_expanded _ _ (ex_core _ _ _ _ _ Hex)). lia.
Qed.

Context (s' : Search) (next : nat) (Hup : updated s s' next new_key new_cost (u, index)).
Context (Hnew : ∀ l, chain s u l → ae_to edge ∉ node_at s <$> l).

Lemma updated_label : ∃ l, label X s' next new_key new_cost (Some (u, index)) l.
Proof.
  pose proof (ex_core _ _ _ _ _ Hex) as Hcore. pose proof (updated_open _ _ Hup) as HnX.
  destruct (expanding_label _ _ _ _ _ Hex) as (prev & l & Hl & HlX & Hch). destruct new_cost_ok as (Hok & _ & Hc & _).
  assert (u ≠ next) as Hne by (intros ->; by destruct HnX; apply Hex).
  pose proof (lb_chain _ _ _ _ _ _ _ Hl) as Hchain.
  assert (chain s' u l) as Hchain' by (eapply update_chain; [done|done|done|done|apply Hl]).
  exists (next :: l). split.
  - rewrite (up_states _ _ _ _ _ _ Hup). by rewrite decide_True.
  - rewrite (up_costs _ _ _ _ _ _ Hup). by rewrite decide_True.
  - rewrite (up_previous _ _ _ _ _ _ Hup). by rewrite decide_True.
  - by eapply edge_at_ok.
  - apply next_stage_le, Hl.
  - done.
  - econstructor; [|exact Hchain']. rewrite (up_previous _ _ _ _ _ _ Hup). by rewrite decide_True.
  - rewrite fmap_cons. assert (node_at s' <$> l = node_at s <$> l) as -> by (by eapply update_nodes).
    constructor; [|apply Hl].
    unfold node_at at 1. rewrite (up_states _ _ _ _ _ _ Hup), decide_True by done. by apply Hnew.
  - done.
  - pose proof (lb_changes _ _ _ _ _ _ _ Hl). rewrite len_cons. lia.
  - exists ukey, ucost, edge. split; [eapply update_state; try done; apply (ex_key _ _ _ _ _ Hex)|].
    split; [rewrite (up_costs _ _ _ _ _ _ Hup), decide_False by done; apply (ex_cost _ _ _ _ _ Hex)|]. done.
Qed.

Lemma updated_final i d : i ∈ X → final s' i d ↔ final s i d.
Proof.
  intros Hi. pose proof (updated_open _ _ Hup) as HnX. assert (sr_states s' !! i = sr_states s !! i) as E
    by (rewrite (up_states _ _ _ _ _ _ Hup), decide_False; [done|by intros ->]).
  unfold final. by rewrite E.
Qed.

Lemma updated_core : Core X s'.
Proof.
  pose proof (ex_core _ _ _ _ _ Hex) as Hcore. pose proof (updated_open _ _ Hup) as HnX.
  destruct (update_length _ _ _ _ _ _ _ Hup) as (Hle & Hn & Hback). destruct (up_best _ _ _ _ _ _ Hup) as [Eb Ec].
  assert (∀ i, i ∈ X → sr_costs s' !! i = sr_costs s !! i) as Ecost by (eapply gr_kept; by eapply update_grows).
  split.
  - apply Hup.
  - apply Hup.
  - apply Hup.
  - apply Forall_lookup. intros i k Hk. rewrite (up_states _ _ _ _ _ _ Hup) in Hk. case_decide.
    + injection Hk as <-. eapply edge_in_universe; [done|]. apply next_stage_le.
      destruct (expanding_label _ _ _ _ _ Hex) as (prev & l & Hl & _). apply Hl.
    + pose proof (c_keys _ _ Hcore) as Hall. rewrite Forall_lookup in Hall. by apply (Hall i).
  - intros i Hi. pose proof (c_expanded _ _ Hcore i Hi). lia.
  - intros i Hi. destruct (decide (i = next)) as [->|Hne].
    + destruct updated_label as [l Hl]. eauto.
    + destruct (c_label _ _ Hcore i) as (k & c & prev & l & Hl); [by apply Hback|]. exists k, c, prev, l.
      by eapply update_label.
  - rewrite Ec. apply Hcore.
  - rewrite Eb, Ec. pose proof (c_best _ _ Hcore) as Hb. destruct (sr_best s) as [[b d]|]; [|done].
    destruct Hb as (HbX & Hf & c & Hc & Hs). split; [done|]. split; [by apply updated_final|]. exists c.
    by rewrite Ecost.
  - intros i d c Hi Hf Hc. rewrite Ec. rewrite Ecost in Hc by done. apply updated_final in Hf; [|done].
    by apply (c_finals _ _ Hcore i).
Qed.

Lemma updated_queued : Queued X s'.
Proof.
  pose proof (ex_core _ _ _ _ _ Hex) as Hcore. pose proof (ex_queued _ _ _ _ _ Hex) as Hq.
  pose proof (updated_open _ _ Hup) as HnX. destruct new_cost_ok as (Hok & Hge & _).
  assert (∀ e, e ∈ sr_queue s → qe_state e = next → clt new_cost (qe_cost e)) as Hstale.
  { intros e He E. destruct (q_entry _ _ Hq e He) as (c & Hc & _ & Hle & _). rewrite E in Hc.
    destruct (up_old _ _ _ _ _ _ Hup) as [(_ & old & Ho & Hlt)| ->].
    - rewrite Hc in Ho. injection Ho as <-. unfold clt, cle in *. lia.
    - apply lookup_lt_Some in Hc. rewrite (c_costs _ _ Hcore) in Hc. lia. }
  split; rewrite (up_queue _ _ _ _ _ _ Hup).
  - constructor; [|apply Hq]. intros He. apply Hstale in He; [|done]. simpl in He. unfold clt in He. lia.
  - intros e. rewrite elem_of_cons. intros [->|He]; simpl; rewrite (up_costs _ _ _ _ _ _ Hup).
    + rewrite decide_True by done. exists new_cost. split; [done|]. split; [done|]. split; [unfold cle; lia|done].
    + destruct (q_entry _ _ Hq e He) as (c & Hc & Hoe & Hle & Hlt). case_decide as E; [|by exists c].
      exists new_cost. split; [done|]. split; [done|]. specialize (Hstale e He E). split; [unfold clt, cle in *; lia|done].
  - intros i c Hc Hi. rewrite (up_costs _ _ _ _ _ _ Hup) in Hc. case_decide as E; [|right; by apply Hq].
    subst i. injection Hc as <-. left.
  - intros i c e Hi Hc. rewrite (up_costs _ _ _ _ _ _ Hup), decide_False in Hc by (by intros ->).
    rewrite elem_of_cons. intros [->|He]; [|by apply (q_low _ _ Hq i)]. simpl.
    pose proof (ex_low _ _ _ _ _ Hex i c Hi Hc). unfold cle in *. lia.
Qed.

Lemma updated_expanding : expanding X s' u ukey ucost.
Proof.
  pose proof (updated_open _ _ Hup) as HnX. assert (grows X s s') as Hg
    by (eapply update_grows; [done|exact (ex_core _ _ _ _ _ Hex)|done]).
  split; [exact updated_core|exact updated_queued|apply Hex| | |].
  - apply (gr_states _ _ _ Hg), (ex_key _ _ _ _ _ Hex).
  - rewrite (gr_kept _ _ _ Hg) by apply (ex_in _ _ _ _ _ Hex). apply (ex_cost _ _ _ _ _ Hex).
  - intros i c Hi Hc. rewrite (gr_kept _ _ _ Hg) in Hc by done. by apply (ex_low _ _ _ _ _ Hex i).
Qed.
End follow.

(** A state that was there gets cheaper. *)
Lemma improve_updated X s next key old cost from :
  Core X s → sr_states s !! next = Some key → sr_costs s !! next = Some old → clt cost old →
  updated s (improve next cost from s) next key cost from.
Proof.
  intros Hc Hk Ho Hlt. pose proof (lookup_lt_Some _ _ _ Hk) as Hn.
  split; simpl; [| | |done|done|apply Hc|rewrite !length_insert; split; apply Hc|left; eauto].
  - intros j. case_decide as E; [by rewrite E|done].
  - intros j. case_decide as E; [subst j|by rewrite list_lookup_insert_ne]. apply list_lookup_insert_eq.
    by eapply lookup_lt_Some.
  - intros j. case_decide as E; [subst j|by rewrite list_lookup_insert_ne]. apply list_lookup_insert_eq.
    by rewrite (c_previous _ _ Hc).
Qed.

(** A state that was not there is added. *)
Lemma push_updated X s key c0 cost from (n := length (sr_states s)) :
  Core X s → sr_indices s !! key = None → updated s (improve n cost from (push_state key c0 s)) n key cost from.
Proof.
  intros Hc Hnone. pose proof (c_costs _ _ Hc) as Hlc. pose proof (c_previous _ _ Hc) as Hlp.
  assert (∀ {A} (l : list A) x j, length l = n → (l ++ [x]) !! j = if decide (j = n) then Some x else l !! j) as Happ.
  { intros A l x j Hl. case_decide as E; [subst j; rewrite <- Hl; by apply list_lookup_middle|].
    destruct (decide (j < n)%nat); [by rewrite lookup_app_l by lia|].
    rewrite !lookup_ge_None_2; [done|lia|rewrite length_app; simpl; lia]. }
  split; simpl; [| | |done|done| |rewrite !length_insert, !length_app; simpl; lia|by right].
  - intros j. by apply Happ.
  - intros j. case_decide as E; [subst j; apply list_lookup_insert_eq; rewrite length_app; simpl; lia|].
    rewrite list_lookup_insert_ne, Happ by done. by rewrite decide_False.
  - intros j. case_decide as E; [subst j; apply list_lookup_insert_eq; rewrite length_app; simpl; lia|].
    rewrite list_lookup_insert_ne, Happ by done. by rewrite decide_False.
  - intros k i. fold n. rewrite Happ by done. destruct (decide (k = key)) as [->|Hne].
    + rewrite lookup_insert_eq. case_decide as E; [subst i; naive_solver|]. split; [naive_solver|].
      intros Hi%(c_index _ _ Hc). congruence.
    + rewrite lookup_insert_ne by done. rewrite (c_index _ _ Hc). case_decide as E; [subst i|done].
      split; [|naive_solver]. intros Hk%lookup_lt_Some. lia.
Qed.

Lemma label_length X s i key cost previous l :
  Core X s → label X s i key cost previous l → (length l ≤ length (sr_states s))%nat.
Proof.
  intros Hc Hl. pose proof (chain_bound _ _ _ (lb_chain _ _ _ _ _ _ _ Hl)) as Hb. rewrite (c_previous _ _ Hc) in Hb.
  pose proof (NoDup_fmap_1 _ _ (lb_simple _ _ _ _ _ _ _ Hl)) as Hnd.
  assert (l ⊆+ seq 0 (length (sr_states s))) as Hsub%submseteq_length; [|by rewrite length_seq in Hsub].
  apply NoDup_submseteq; [done|]. intros x Hx. rewrite Forall_forall in Hb. apply elem_of_seq. specialize (Hb x Hx). lia.
Qed.

(** A fix on the way back was reached at no greater distance. *)
Lemma reached_back X s u ukey ucost l to edge :
  expanding X s u ukey ucost → Forall (.∈ X) l → to ∈ node_at s <$> l → distance_ok (ae_distance_nm edge) →
  reached s to (val (f64_add (rc_distance_nm ucost) (ae_distance_nm edge))).
Proof.
  intros Hex HlX (j & -> & Hj)%list_elem_of_fmap He. rewrite Forall_forall in HlX. specialize (HlX j Hj).
  pose proof (ex_core _ _ _ _ _ Hex) as Hcore. destruct (expanding_label _ _ _ _ _ Hex) as (? & ? & Hl & _).
  destruct (c_label _ _ Hcore j (c_expanded _ _ Hcore j HlX)) as (k & c & prev & l' & Hlj). exists j, k, c.
  pose proof (lb_state _ _ _ _ _ _ _ Hlj) as Hk. pose proof (lb_cost _ _ _ _ _ _ _ Hlj) as Hc.
  split; [done|]. split; [by unfold node_at; rewrite Hk|]. split; [done|].
  pose proof (ex_low _ _ _ _ _ Hex j c HlX Hc) as Hle. destruct (lb_ok _ _ _ _ _ _ _ Hl) as [Hu _].
  pose proof (add_ge _ _ Hu He). unfold cle, nm in *. lia.
Qed.

(** The edge leads to a state that is found or gets cheaper, or to one that is no dearer. *)
Lemma relax_new_ok X s u ukey ucost index edge :
  expanding X s u ukey ucost → edge_at (key_node ukey) index edge → allows mode edge = true →
  elsewhere via (ae_to edge) (key_stage ukey) = false → (∀ l, chain s u l → ae_to edge ∉ node_at s <$> l) →
  ∃ s', (let '(next, s) := state_index (new_key ukey edge) s in
         old ← sr_costs s !! next;
         if cost_lt (new_cost ukey ucost edge) old then Some (improve next (new_cost ukey ucost edge) (u, index) s) else Some s)
        = Some s'
    ∧ expanding X s' u ukey ucost ∧ grows X s s' ∧ (length (sr_queue s') ≤ S (length (sr_queue s)))%nat
    ∧ reached s' (ae_to edge) (nm (new_cost ukey ucost edge)).
Proof.
  intros Hex Hedge Hallow Helse Hnew. pose proof (ex_core _ _ _ _ _ Hex) as Hcore.
  destruct (new_cost_ok X s u ukey ucost index edge Hex Hedge) as (Hok & _ & _ & Hinf).
  assert (∀ s' next, updated s s' next (new_key ukey edge) (new_cost ukey ucost edge) (u, index) →
    expanding X s' u ukey ucost ∧ grows X s s' ∧ (length (sr_queue s') ≤ S (length (sr_queue s)))%nat
    ∧ reached s' (ae_to edge) (nm (new_cost ukey ucost edge))) as Hdone.
  { intros s' next Hup. split; [by eapply updated_expanding|]. split.
    - eapply update_grows; [done|done|by eapply updated_open].
    - rewrite (up_queue _ _ _ _ _ _ Hup). split; [simpl; lia|]. exists next, (new_key ukey edge), (new_cost ukey ucost edge).
      rewrite (up_states _ _ _ _ _ _ Hup), (up_costs _ _ _ _ _ _ Hup), !decide_True by done.
      split; [done|]. split; [done|]. split; [done|lia]. }
  unfold state_index. destruct (sr_indices s !! new_key ukey edge) as [next|] eqn:Hidx.
  - apply (c_index _ _ Hcore) in Hidx. pose proof (lookup_lt_Some _ _ _ Hidx) as Hn.
    destruct (c_label _ _ Hcore next Hn) as (k & old & prev & l & Hl). pose proof (lb_cost _ _ _ _ _ _ _ Hl) as Ho.
    rewrite Ho. simpl. destruct (cost_lt (new_cost ukey ucost edge) old) eqn:Hlt; eexists; (split; [reflexivity|]).
    + apply (Hdone _ next). eapply improve_updated; [done|done|done|]. apply cost_lt_iff in Hlt; [done|done|apply Hl].
    + apply cost_lt_false in Hlt; [|done|apply Hl]. split; [done|]. split; [apply grows_refl|]. split; [lia|].
      exists next, (new_key ukey edge), old. split; [done|]. split; [done|]. split; [done|]. unfold cle in Hlt. lia.
  - simpl. rewrite lookup_app_r, (c_costs _ _ Hcore), Nat.sub_diag by (rewrite (c_costs _ _ Hcore); lia). simpl.
    rewrite (proj2 (cost_lt_iff _ _ Hok infinity_ok) Hinf). eexists. split; [reflexivity|].
    eapply Hdone. by eapply push_updated.
Qed.

(** Following one edge from the state that is expanded. *)
Lemma relax_edge_ok X s u ukey ucost index edge :
  expanding X s u ukey ucost → edge_at (key_node ukey) index edge →
  ∃ s', relax_edge via mode u ucost ukey s (index, edge) = Some s'
    ∧ expanding X s' u ukey ucost ∧ grows X s s' ∧ (length (sr_queue s') ≤ S (length (sr_queue s)))%nat
    ∧ follows s' u index.
Proof.
  intros Hex Hedge. pose proof (ex_core _ _ _ _ _ Hex) as Hcore. destruct (edge_at_ok _ _ _ Hedge) as [_ Hd].
  assert (∀ s', expanding X s' u ukey ucost →
    (allows mode edge = true → elsewhere via (ae_to edge) (key_stage ukey) = false →
     reached s' (ae_to edge) (val (f64_add (rc_distance_nm ucost) (ae_distance_nm edge)))) → follows s' u index) as Hfollows.
  { intros s' Hex' Hr k c e Hk Hc He. pose proof (ex_key _ _ _ _ _ Hex'). pose proof (ex_cost _ _ _ _ _ Hex').
    assert (k = ukey) as -> by congruence. assert (c = ucost) as -> by congruence.
    assert (e = edge) as -> by (destruct He as (? & ? & ?), Hedge as (? & ? & ?); congruence). done. }
  assert ((allows mode edge = true → elsewhere via (ae_to edge) (key_stage ukey) = false →
     reached s (ae_to edge) (val (f64_add (rc_distance_nm ucost) (ae_distance_nm edge)))) →
    ∃ s', Some s = Some s' ∧ expanding X s' u ukey ucost ∧ grows X s s'
      ∧ (length (sr_queue s') ≤ S (length (sr_queue s)))%nat ∧ follows s' u index) as Hskip.
  { intros Hr. exists s. split; [done|]. split; [done|]. split; [apply grows_refl|]. split; [lia|by apply Hfollows]. }
  unfold relax_edge. destruct (allows mode edge) eqn:Hallow; simpl; [|by apply Hskip].
  destruct (elsewhere via (ae_to edge) (key_stage ukey)) eqn:Helse; [by apply Hskip|].
  destruct (expanding_label _ _ _ _ _ Hex) as (prev & l & Hl & HlX & Hch). pose proof (lb_chain _ _ _ _ _ _ _ Hl) as Hchain.
  rewrite (on_path_chain s u l); [|done|apply Hcore|by eapply label_length]. simpl. case_bool_decide as Hrep.
  { apply Hskip. intros _ _. by eapply reached_back. }
  destruct (relax_new_ok X s u ukey ucost index edge Hex Hedge Hallow Helse) as (s' & Hs' & Hex' & Hg & Hq & Hr).
  { intros l' Hl'. by rewrite (chain_det _ _ _ _ Hl' Hchain). }
  exists s'. split; [exact Hs'|]. split; [done|]. split; [done|]. split; [done|]. by apply Hfollows.
Qed.

Lemma follows_grows X s s' u index : Core X s → u ∈ X → grows X s s' → follows s u index → follows s' u index.
Proof.
  intros Hc Hu Hg Hf k c e Hk Hcost. pose proof (c_expanded _ _ Hc u Hu) as Hlt.
  destruct (lookup_lt_is_Some_2 _ _ Hlt) as [k' Hk']. assert (k = k') as -> by (apply (gr_states _ _ _ Hg) in Hk'; congruence).
  rewrite (gr_kept _ _ _ Hg) in Hcost by done. intros He Ha Hel. eapply reached_grows; [exact Hg|]. by eapply Hf.
Qed.

Lemma relax_edges_ok X s u ukey ucost l :
  expanding X s u ukey ucost → Forall (λ ie, edge_at (key_node ukey) ie.1 ie.2) l →
  ∃ s', relax_edges via mode u ucost ukey s l = Some s'
    ∧ expanding X s' u ukey ucost ∧ grows X s s' ∧ (length (sr_queue s') ≤ length l + length (sr_queue s))%nat
    ∧ Forall (λ ie, follows s' u ie.1) l.
Proof.
  revert s. induction l as [|[index edge] l IH]; intros s Hex Hl; simpl.
  { exists s. split; [done|]. split; [done|]. split; [apply grows_refl|]. split; [lia|constructor]. }
  apply Forall_cons in Hl as [He Hl]. destruct (relax_edge_ok X s u ukey ucost index edge Hex He) as (s1 & E1 & Hex1 & Hg1 & Hq1 & Hf1).
  simpl in E1. rewrite E1. simpl. destruct (IH s1 Hex1 Hl) as (s2 & E2 & Hex2 & Hg2 & Hq2 & Hf2). exists s2. split; [done|].
  split; [done|]. split; [by eapply grows_trans|]. split; [lia|]. constructor; [|done]. simpl.
  eapply follows_grows; [exact (ex_core _ _ _ _ _ Hex1)|exact (ex_in _ _ _ _ _ Hex1)|exact Hg2|done].
Qed.
End search.
