(* ===== verification/AirwayRoutingCorrect.v ===== *)
(** * Correctness of the search for airway routes

    The search ends within the rounds it is given and never panics. What it returns is a
    route along airways that may be used, from a start to an end, through the required fixes
    in their order and no fix twice. Without required fixes no route is shorter, floating
    point sums compared as the code computes them. *)

From Stdlib Require Import Strings.Byte Floats.SpecFloat.

From stdpp Require Import base gmap list list_numbers strings sorting.
From S2P Require Import Prelude Float64 NavKvFormat NavKvDelta NavKvRead NavKvBuild NavKvTree NavKvLookup NavKvBuildCorrect.
From S2P Require Import NavKvPrefetch NavKvCorrect NavKvBounds NavKvStore NavKvStoreCorrect AirwayRouting AirwaySearch.

Local Open Scope Z_scope.

Section correct.
Context (g : Graph) (via : list Z) (mode : AirwayNavigationMode) (starts ends : list (Z * f64)).
Context (Hgraph : searchable g starts ends).

Abbreviation Core := (Core g via mode starts ends).
Abbreviation Explored := (Explored g via mode).
Abbreviation label := (label g via mode starts).

(** ** Rounds *)

Lemma six_ok direct : distance_ok direct → distance_ok (f64_mul direct six).
Proof. intros Hd. change six with (S754_finite false 6755399441055744 (-50)). by apply mul_ok. Qed.

(** The tables of two searches are the same. *)
Definition same_tables (s s' : Search) : Prop :=
  sr_indices s' = sr_indices s ∧ sr_states s' = sr_states s ∧ sr_costs s' = sr_costs s ∧ sr_previous s' = sr_previous s.

Lemma label_same X X' s s' i key cost previous l :
  same_tables s s' → X ⊆ X' → label X s i key cost previous l → label X' s' i key cost previous l.
Proof.
  intros (Ei & Es & Ec & Ep) HX Hl. destruct Hl as [H1 H2 H3 H4 H5 H6 H7 H8 H9 H10 H11].
  assert (node_at s' <$> l = node_at s <$> l) as En by (apply list_fmap_ext; intros; unfold node_at; by rewrite Es).
  split; rewrite ?Es, ?Ec, ?Ep, ?En; try done.
  - eapply chain_frame; [|exact H7]. intros. by rewrite Ep.
  - eapply Forall_impl; [exact H9|]. set_solver.
  - unfold justified in *. destruct previous as [[p e]|]; [|done]. by rewrite Es, Ec.
Qed.

Lemma final_same s s' i d : same_tables s s' → final via ends s' i d ↔ final via ends s i d.
Proof. intros (_ & Es & _). unfold final. by rewrite Es. Qed.

Lemma with_queue_core X q s : Core X s → Core X (with_queue q s).
Proof.
  intros Hc. assert (same_tables s (with_queue q s)) as Hs by done. split; try apply Hc.
  intros i Hi. destruct (c_label _ _ _ _ _ _ _ Hc i Hi) as (k & c & p & l & Hl). exists k, c, p, l. by eapply label_same.
Qed.

Lemma queue_ok X s : Queued X s → Forall (λ e, cost_ok (qe_cost e)) (sr_queue s).
Proof. intros Hq. apply Forall_forall. intros e He. by destruct (q_entry _ _ Hq e He) as (c & _ & Hok & _). Qed.

Section popped.
Context (X : gset nat) (s : Search) (e : QueueEntry) (q : list QueueEntry).
Context (Hcore : Core X s) (Hq : Queued X s) (Hperm : sr_queue s ≡ₚ e :: q).
Context (Hleast : Forall (λ x, cle (qe_cost e) (qe_cost x)) q).

Lemma popped_in x : x ∈ q → x ∈ sr_queue s ∧ x ≠ e.
Proof.
  intros Hx. pose proof (q_distinct _ _ Hq) as Hnd. rewrite Hperm in *. apply NoDup_cons in Hnd as [Hn _].
  split; [by right|]. by intros ->.
Qed.

(** An entry that is out of date is dropped. *)
Lemma stale_queued current : sr_costs s !! qe_state e = Some current → qe_cost e ≠ current → Queued X (with_queue q s).
Proof.
  intros Hc Hne. split; simpl.
  - pose proof (q_distinct _ _ Hq) as Hnd. rewrite Hperm in Hnd. by apply NoDup_cons in Hnd as [_ ?].
  - intros x Hx. apply (q_entry _ _ Hq). by apply popped_in.
  - intros i c Hi HX. pose proof (q_open _ _ Hq i c Hi HX) as Hin. rewrite Hperm in Hin.
    apply elem_of_cons in Hin as [E|Hin]; [|done]. subst e. simpl in *. congruence.
  - intros i c x Hi Hci Hx. apply (q_low _ _ Hq i); [done|done|]. by apply popped_in.
Qed.

Context (key : StateKey) (Hkey : sr_states s !! qe_state e = Some key) (Hcost : sr_costs s !! qe_state e = Some (qe_cost e)).

Lemma popped_open : qe_state e ∉ X.
Proof.
  intros Hi. destruct (q_entry _ _ Hq e) as (c & Hc & _ & _ & Hlt); [rewrite Hperm; left|].
  specialize (Hlt Hi). rewrite Hcost in Hc. injection Hc as <-. unfold clt in Hlt. lia.
Qed.
(** Every other state that was not expanded costs at least as much. *)
Lemma popped_least i c : sr_costs s !! i = Some c → i ∉ X → cle (qe_cost e) c.
Proof.
  intros Hc Hi. pose proof (q_open _ _ Hq i c Hc Hi) as Hin. rewrite Hperm in Hin.
  apply elem_of_cons in Hin as [<-|Hin]; [unfold cle; simpl; lia|]. rewrite Forall_forall in Hleast.
  by apply (Hleast _ Hin).
Qed.

Lemma popped_queued : Queued ({[qe_state e]} ∪ X) (with_queue q s).
Proof.
  split; simpl.
  - pose proof (q_distinct _ _ Hq) as Hnd. rewrite Hperm in Hnd. by apply NoDup_cons in Hnd as [_ ?].
  - intros x Hx. destruct (popped_in x Hx) as [Hin Hne]. destruct (q_entry _ _ Hq x Hin) as (c & Hc & Hok & Hle & Hlt).
    exists c. split; [done|]. split; [done|]. split; [done|]. intros [Hst|HX]%elem_of_union; [|by apply Hlt].
    apply elem_of_singleton in Hst. rewrite Hst, Hcost in Hc. injection Hc as <-.
    destruct (decide (nm (qe_cost e) = nm (qe_cost x) ∧ rc_changes (qe_cost e) = rc_changes (qe_cost x))) as [[E1 E2]|Hn].
    + destruct Hne. destruct (q_entry _ _ Hq e) as (? & _ & Hoke & _); [rewrite Hperm; left|].
      destruct x, e; simpl in *. f_equal; [symmetry; by apply cost_inj|done].
    + unfold clt, cle in *. lia.
  - intros i c Hc Hi. assert (i ∉ X ∧ i ≠ qe_state e) as [HX Hne] by set_solver.
    pose proof (q_open _ _ Hq i c Hc HX) as Hin. rewrite Hperm in Hin. apply elem_of_cons in Hin as [E|Hin]; [|done].
    subst e. done.
  - intros i c x Hi Hc Hx. apply elem_of_union in Hi as [Hi|Hi].
    + apply elem_of_singleton in Hi as ->. rewrite Hcost in Hc. injection Hc as <-. rewrite Forall_forall in Hleast. by apply Hleast.
    + apply (q_low _ _ Hq i); [done|done|]. by apply popped_in.
Qed.

Lemma popped_label : ∃ previous l, label X s (qe_state e) key (qe_cost e) previous l.
Proof.
  destruct (c_label _ _ _ _ _ _ _ Hcore (qe_state e)) as (k & c & p & l & Hl); [by eapply lookup_lt_Some|].
  pose proof (lb_state _ _ _ _ _ _ _ _ _ _ _ Hl). pose proof (lb_cost _ _ _ _ _ _ _ _ _ _ _ Hl).
  assert (k = key) as -> by congruence. assert (c = qe_cost e) as -> by congruence. eauto.
Qed.

Lemma score_ok c d : cost_ok c → distance_ok d → cost_ok (score c d).
Proof. intros [Hc Hch] Hd. split; [|done]. apply add_ok; [done|by apply six_ok]. Qed.
Lemma final_distance i d : final via ends s i d → distance_ok d.
Proof.
  intros (k & index & _ & _ & _ & (Hf & _)%list_find_Some). pose proof (ok_ends _ _ _ Hgraph) as He.
  rewrite Forall_forall in He. apply (He (key_node k, d)). by eapply list_elem_of_lookup_2.
Qed.

Definition considered : Search := consider_end via ends (qe_state e) (qe_cost e) key (with_queue q s).

(** The state may end a route, the best so far or not. *)
Lemma considered_cases : same_tables s considered ∧ sr_queue considered = q ∧
  let kept := sr_best considered = sr_best s ∧ sr_best_cost considered = sr_best_cost s in
  ((∀ d, ¬ final via ends s (qe_state e) d) ∧ kept)
  ∨ ∃ d, final via ends s (qe_state e) d ∧ (∀ d', final via ends s (qe_state e) d' → d' = d)
      ∧ ((cost_lt (score (qe_cost e) d) (sr_best_cost s) = true
          ∧ sr_best considered = Some (qe_state e, d) ∧ sr_best_cost considered = score (qe_cost e) d)
         ∨ (cost_lt (score (qe_cost e) d) (sr_best_cost s) = false ∧ kept)).
Proof.
  unfold considered, consider_end. destruct (_ && _) eqn:Hb.
  - apply andb_true_iff in Hb as [Hst Hin]. apply Nat.eqb_eq in Hst. apply bool_decide_eq_true in Hin.
    destruct (list_find _ ends) as [[index [t d]]|] eqn:Hf.
    + assert (t = key_node key) as -> by (by apply list_find_Some in Hf as (_ & ? & _)).
      assert (final via ends s (qe_state e) d) as Hfin by (exists key, index; done).
      assert (∀ d', final via ends s (qe_state e) d' → d' = d) as Huniq.
      { intros d' (k' & index' & Hk' & _ & _ & Hf'). assert (k' = key) as -> by congruence. rewrite Hf in Hf'. by injection Hf'. }
      change {| rc_distance_nm := _; rc_changes := _ |} with (score (qe_cost e) d).
      destruct (cost_lt _ _) eqn:Hlt; (split; [done|]); (split; [done|]); right; exists d; (split; [done|]); (split; [done|]);
        [left|right]; done.
    + split; [done|]. split; [done|]. left. split; [|done]. intros d (k' & index & Hk' & _ & _ & Hf').
      assert (k' = key) as -> by congruence. congruence.
  - split; [done|]. split; [done|]. left. split; [|done]. intros d (k' & index & Hk' & Hst & Hin & _).
    assert (k' = key) as -> by congruence. rewrite Hst, Nat.eqb_refl, bool_decide_eq_true_2 in Hb by done. done.
Qed.

(** The state is expanded. *)
Lemma popped_core : Core ({[qe_state e]} ∪ X) considered.
Proof.
  destruct considered_cases as (Hsame & _ & Hcases). pose proof Hsame as (Ei & Es & Ec & Ep).
  destruct popped_label as (prev & l & Hl). pose proof (lb_ok _ _ _ _ _ _ _ _ _ _ _ Hl) as Hok.
  pose proof (c_best_ok _ _ _ _ _ _ _ Hcore) as Hbok. pose proof (c_best _ _ _ _ _ _ _ Hcore) as Hbest.
  split.
  - rewrite Ec, Es. apply Hcore.
  - rewrite Ep, Es. apply Hcore.
  - rewrite Ei, Es. apply Hcore.
  - rewrite Es. apply Hcore.
  - intros i Hi. rewrite Es. apply elem_of_union in Hi as [->%elem_of_singleton|Hi]; [by eapply lookup_lt_Some|].
    by apply (c_expanded _ _ _ _ _ _ _ Hcore).
  - intros i Hi. rewrite Es in Hi. destruct (c_label _ _ _ _ _ _ _ Hcore i Hi) as (k & c & p & l' & Hl').
    exists k, c, p, l'. eapply label_same; [done| |done]. set_solver.
  - destruct Hcases as [(_ & _ & ->)|(d & Hf & _ & [(_ & _ & ->)|(_ & _ & ->)])]; [done| |done].
    apply score_ok; [done|]. by eapply final_distance.
  - assert (match sr_best s with
            | Some (i, d) => i ∈ {[qe_state e]} ∪ X ∧ final via ends considered i d
                ∧ ∃ cost, sr_costs considered !! i = Some cost ∧ sr_best_cost s = score cost d
            | None => sr_best_cost s = INFINITY end) as Hold.
    { destruct (sr_best s) as [[b d]|]; [|done]. destruct Hbest as (Hb & Hf & Hc). split; [set_solver|].
      split; [by eapply final_same|]. by rewrite Ec. }
    destruct Hcases as [(_ & -> & ->)|(d & Hf & _ & [(_ & -> & ->)|(_ & -> & ->)])]; [done| |done].
    split; [set_solver|]. split; [by eapply final_same|]. exists (qe_cost e). by rewrite Ec.
  - intros i d c Hi Hf Hc. rewrite Ec in Hc. apply (final_same _ _ _ _ Hsame) in Hf.
    assert (cle (sr_best_cost considered) (sr_best_cost s)) as Hle.
    { destruct Hcases as [(_ & _ & ->)|(d' & Hf' & _ & [(Hlt & _ & ->)|(_ & _ & ->)])]; [unfold cle; lia| |unfold cle; lia].
      apply cost_lt_iff in Hlt; [unfold clt, cle in *; lia| |done]. apply score_ok; [done|]. by eapply final_distance. }
    apply elem_of_union in Hi as [->%elem_of_singleton|Hi].
    + rewrite Hcost in Hc. injection Hc as <-.
      destruct Hcases as [(Hno & _)|(d' & Hf' & Hu & Hcs)]; [by destruct (Hno d)|]. rewrite (Hu d Hf).
      destruct Hcs as [(_ & _ & ->)|(Hlt & _ & ->)]; [unfold cle; lia|]. apply cost_lt_false in Hlt; [done| |done].
      apply score_ok; [done|]. by eapply final_distance.
    + pose proof (c_finals _ _ _ _ _ _ _ Hcore i d c Hi Hf Hc). unfold cle in *. lia.
Qed.

Lemma popped_expanding : expanding g via mode starts ends ({[qe_state e]} ∪ X) considered (qe_state e) key (qe_cost e).
Proof.
  destruct considered_cases as (Hsame & Eq & _). pose proof Hsame as (Ei & Es & Ec & Ep).
  split; [exact popped_core| |set_solver|by rewrite Es|by rewrite Ec|].
  - destruct popped_queued as [H1 H2 H3 H4]. split; rewrite ?Eq, ?Ec; done.
  - intros i c Hi Hc. rewrite Ec in Hc. apply elem_of_union in Hi as [->%elem_of_singleton|Hi].
    + rewrite Hcost in Hc. injection Hc as <-. unfold cle. lia.
    + apply (q_low _ _ Hq i); [done|done|]. rewrite Hperm. left.
Qed.

(** What was explored stays so. *)
Lemma popped_explored : Explored X s → Explored X considered.
Proof.
  intros Hex u index Hu k c edge. destruct considered_cases as ((_ & Es & Ec & _) & _). unfold reached. rewrite Es, Ec.
  by apply (Hex u index Hu).
Qed.
End popped.

(** ** The rounds are enough *)

Lemma length_bind_const {A B} (f : A → list B) n l : (∀ x, length (f x) = n) → length (l ≫= f) = (length l * n)%nat.
Proof. intros Hf. induction l as [|x l IH]; csimpl; [done|]. rewrite length_app, IH, Hf. done. Qed.
Lemma length_edges : length (node ← nodes g; an_edges node) = edge_total g.
Proof. unfold edge_total. induction (nodes g) as [|x l IH]; csimpl; [done|]. by rewrite length_app, IH. Qed.
Lemma universe_length : length (universe g via starts) = state_bound g via starts.
Proof.
  unfold universe, state_bound. rewrite length_app, length_fmap. f_equal.
  rewrite (length_bind_const _ (S (length via))), length_edges; [done|]. intros edge.
  rewrite (length_bind_const _ 1%nat), length_seq; [lia|done].
Qed.
Lemma states_bound X s : Core X s → (length (sr_states s) ≤ state_bound g via starts)%nat.
Proof.
  intros Hc. rewrite <- universe_length. apply submseteq_length, NoDup_submseteq.
  - apply NoDup_alt. intros i j k Hi Hj. apply (c_index _ _ _ _ _ _ _ Hc) in Hi, Hj. congruence.
  - intros k Hk. pose proof (c_keys _ _ _ _ _ _ _ Hc) as Hall. rewrite Forall_forall in Hall. by apply Hall.
Qed.
Lemma expanded_bound X s u : Core X s → u ∉ X → (u < length (sr_states s))%nat → (size X < state_bound g via starts)%nat.
Proof.
  intros Hc Hu Hlt. pose proof (states_bound X s Hc) as Hb.
  assert ({[u]} ∪ X ⊆ set_seq 0 (length (sr_states s))) as Hsub.
  { intros i [->%elem_of_singleton|Hi]%elem_of_union; apply elem_of_set_seq; [lia|].
    pose proof (c_expanded _ _ _ _ _ _ _ Hc i Hi). lia. }
  apply subseteq_size in Hsub. rewrite size_set_seq, size_union, size_singleton in Hsub by set_solver. lia.
Qed.
Lemma degree_bound node i : nodes g !! i = Some node → (length (an_edges node) ≤ edge_total g)%nat.
Proof.
  unfold edge_total. revert i. induction (nodes g) as [|x l IH]; intros [|i]; csimpl; try done.
  - intros [= ->]. lia.
  - intros Hi. specialize (IH i Hi). lia.
Qed.

(** The search has ended: what was not expanded is no better than the best route. *)
Definition Ended (X : gset nat) (s : Search) : Prop :=
  Core X s ∧ Explored X s ∧ ∀ i c, sr_costs s !! i = Some c → i ∉ X → cle (sr_best_cost s) c.

Definition potential (X : gset nat) (s : Search) : nat :=
  length (sr_queue s) + (state_bound g via starts - size X) * edge_total g.

(** One state is expanded. *)
Lemma expand_ok X s e q key :
  Core X s → Queued X s → Explored X s → sr_queue s ≡ₚ e :: q → Forall (λ x, cle (qe_cost e) (qe_cost x)) q →
  sr_states s !! qe_state e = Some key → sr_costs s !! qe_state e = Some (qe_cost e) →
  ∃ node s', nodes g !! Z.to_nat (key_node key) = Some node
    ∧ relax_edges via mode (qe_state e) (qe_cost e) key (considered s e q key) (imap pair (an_edges node)) = Some s'
    ∧ Core ({[qe_state e]} ∪ X) s' ∧ Queued ({[qe_state e]} ∪ X) s' ∧ Explored ({[qe_state e]} ∪ X) s'
    ∧ (potential ({[qe_state e]} ∪ X) s' < potential X s)%nat ∧ ∀ to n, reached s to n → reached s' to n.
Proof.
  intros Hcore Hq Hexp Hperm Hleast Hkey Hcost. set (u := qe_state e) in *.
  pose proof (popped_expanding X s e q Hcore Hq Hperm Hleast key Hkey Hcost) as Hex. fold u in Hex.
  pose proof (popped_explored X s e q key Hkey Hexp) as Hexp1.
  destruct (popped_label X s e Hcore key Hkey Hcost) as (prev & l & Hl). pose proof (lb_node _ _ _ _ _ _ _ _ _ _ _ Hl) as Hn.
  destruct (lookup_lt_is_Some_2 (nodes g) (Z.to_nat (key_node key))) as [node Hnode]; [unfold len in Hn; lia|].
  destruct (relax_edges_ok g via mode starts ends Hgraph ({[u]} ∪ X) (considered s e q key) u key (qe_cost e)
    (imap pair (an_edges node))) as (s' & Hs' & Hex' & Hg & Hlen & Hf); [done| |].
  { apply Forall_forall. intros [i edge] (? & ? & [= <- <-] & Hi)%elem_of_lookup_imap. by exists node. }
  exists node, s'. split; [done|]. split; [done|]. pose proof (ex_core _ _ _ _ _ _ _ _ _ _ Hex') as Hcore'.
  split; [done|]. split; [apply Hex'|]. split.
  - intros w index [->%elem_of_singleton|Hw]%elem_of_union.
    + intros k c edge Hk Hc (node' & Hn' & He') Ha Hel. rewrite Forall_forall in Hf.
      assert (k = key) as -> by (pose proof (ex_key _ _ _ _ _ _ _ _ _ _ Hex'); congruence).
      assert (node' = node) as -> by congruence. specialize (Hf (index, edge)). eapply Hf; try done; [|by exists node].
      apply elem_of_lookup_imap. by exists index, edge.
    + eapply follows_grows; [exact (ex_core _ _ _ _ _ _ _ _ _ _ Hex)|set_solver|exact Hg|by apply Hexp1].
  - destruct (considered_cases s e q key Hkey) as ((_ & Es & Ec & _) & Eq & _). split; [|intros to n Hr;
      eapply reached_grows; [exact Hg|]; unfold reached; by rewrite Es, Ec].
    assert (u ∉ X) as HuX by (by eapply popped_open).
    pose proof (expanded_bound X s u Hcore HuX ltac:(by eapply lookup_lt_Some)) as Hb.
    pose proof (degree_bound _ _ Hnode) as Hd. rewrite length_imap in Hlen.
    rewrite Eq in Hlen.
    unfold potential. rewrite size_union, size_singleton by set_solver.
    apply Permutation_length in Hperm. simpl in Hperm. rewrite Hperm. nia.
Qed.

(** The loop ends within as many rounds as its potential allows. *)
Lemma search_loop_ok fuel X s :
  Core X s → Queued X s → Explored X s → (potential X s < fuel)%nat →
  ∃ X' s', search_loop g via mode fuel ends s = Some s' ∧ Ended X' s' ∧ ∀ to n, reached s to n → reached s' to n.
Proof.
  revert X s. induction fuel as [|fuel IH]; intros X s Hcore Hq Hexp Hfuel; [lia|]. simpl.
  destruct (heap_pop (sr_queue s)) as [[e q]|] eqn:Hpop.
  - destruct (heap_pop_Some _ _ _ (queue_ok _ _ Hq) Hpop) as [Hperm Hleast].
    destruct (q_entry _ _ Hq e) as (c & Hc & Hok & Hle & Hlt); [rewrite Hperm; left|].
    pose proof (lookup_lt_Some _ _ _ Hc) as Hn. rewrite (c_costs _ _ _ _ _ _ _ Hcore) in Hn.
    destruct (c_label _ _ _ _ _ _ _ Hcore _ Hn) as (key & c' & prev & l & Hl).
    assert (c' = c) as -> by (pose proof (lb_cost _ _ _ _ _ _ _ _ _ _ _ Hl); congruence).
    pose proof (lb_state _ _ _ _ _ _ _ _ _ _ _ Hl) as Hkey. pose proof (lb_ok _ _ _ _ _ _ _ _ _ _ _ Hl) as Hokc.
    rewrite Hc. simpl. destruct (cost_eq (qe_cost e) c) eqn:Heq; simpl.
    + apply cost_eq_iff in Heq; [|done|done]. subst c. destruct (cost_lt (qe_cost e) (sr_best_cost s)) eqn:Hbest; simpl.
      * rewrite Hkey. simpl. destruct (expand_ok X s e q key) as (node & s' & Hnode & Hs' & Hc' & Hq' & He' & Hpot & Hr); try done.
        rewrite Hnode. simpl. unfold considered in Hs'. rewrite Hs'. simpl.
        destruct (IH ({[qe_state e]} ∪ X) s') as (X2 & s2 & H2 & He2 & Hr2); try done; [lia|]. exists X2, s2.
        split; [done|]. split; [done|]. intros to n Hto. by apply Hr2, Hr.
      * exists X, (with_queue q s). split; [done|]. split; [|done]. split; [by apply with_queue_core|]. split; [done|].
        simpl. intros i ci Hci Hi.
        apply cost_lt_false in Hbest; [|done|apply Hcore]. assert (cle (qe_cost e) ci) by (by eapply popped_least).
        unfold cle in *. lia.
    + apply (IH X (with_queue q s)); [by apply with_queue_core| |done|].
      * assert (qe_cost e ≠ c) by (intros <-; rewrite (proj2 (cost_eq_iff _ _ Hok Hok)) in Heq; done). by eapply stale_queued.
      * apply Permutation_length in Hperm. unfold potential in *. simpl in *. lia.
  - apply heap_pop_None in Hpop. exists X, s. split; [done|]. split; [|done]. split; [done|]. split; [done|]. intros i c Hc Hi.
    pose proof (q_open _ _ Hq i c Hc Hi) as Hin. rewrite Hpop in Hin. by apply elem_of_nil in Hin.
Qed.

(** ** The start *)

Definition usable : list (Z * f64) := filter (λ x, elsewhere via x.1 0 = false) starts.
Definition start_key (x : Z * f64) : StateKey := (x.1, start_stage via x.1, None).
Definition first_search : Search := fold_left (push_start via) starts search_empty.

(** The search starts with the starts that may be used. *)
Lemma first_search_form l (L := filter (λ x : Z * f64, elsewhere via x.1 0 = false) l) (s := fold_left (push_start via) l search_empty) :
  NoDup l.*1 →
  sr_states s = start_key <$> L ∧ sr_costs s = (λ x, start_cost x.2) <$> L ∧ sr_previous s = replicate (length L) None
  ∧ sr_queue s = reverse (imap (λ i x, {| qe_cost := start_cost x.2; qe_state := i |}) L)
  ∧ sr_best s = None ∧ sr_best_cost s = INFINITY
  ∧ ∀ k i, sr_indices s !! k = Some i ↔ sr_states s !! i = Some k.
Proof.
  unfold L, s. clear L s. induction l as [|[id direct] l IH] using rev_ind; intros Hnd.
  { repeat split; done. }
  rewrite fmap_app in Hnd. apply NoDup_app in Hnd as (Hnd & Hnew & _). specialize (IH Hnd).
  rewrite fold_left_app, filter_app. simpl. set (s := fold_left _ _ _) in *. set (L := filter _ l) in *.
  rewrite filter_cons. simpl. case_decide as Hel; [|rewrite (not_false_is_true _ Hel), app_nil_r; exact IH]. rewrite Hel, filter_nil.
  destruct IH as (Es & Ec & Ep & Eq & Eb & Ebc & Hidx). simpl.
  assert (length (sr_states s) = length L) as Hlen by (by rewrite Es, length_fmap).
  rewrite !fmap_app, Es, Ec, Ep, Eq, length_app, imap_app, reverse_app. simpl. rewrite length_fmap, ?Nat.add_0_r.
  split; [done|]. split; [done|]. split; [by rewrite replicate_add|]. split; [done|]. split; [done|]. split; [done|].
  intros k i. change (id, if bool_decide (head via = Some id) then 1%nat else 0%nat, None) with (start_key (id, direct)).
  assert (sr_indices s !! start_key (id, direct) = None) as Hnone.
  { destruct (sr_indices s !! start_key (id, direct)) as [j|] eqn:Hj; [|done]. apply Hidx in Hj. rewrite Es in Hj.
    apply list_lookup_fmap_Some in Hj as ([id' d'] & [= <- _] & Hj). destruct (Hnew id); [|set_solver].
    apply list_elem_of_fmap. exists (id, d'). split; [done|]. apply list_elem_of_lookup_2 in Hj. by apply list_elem_of_filter in Hj as [_ ?]. }
  destruct (decide (k = start_key (id, direct))) as [->|Hne].
  - rewrite lookup_insert_eq. split; [intros [= <-]|].
    + rewrite lookup_app_r, length_fmap, Nat.sub_diag by (by rewrite length_fmap). done.
    + intros Hi. destruct (decide (i < length L)%nat) as [Hlt|Hge].
      * rewrite lookup_app_l, <- Es in Hi by (by rewrite length_fmap). apply Hidx in Hi. congruence.
      * apply lookup_lt_Some in Hi. rewrite length_app, length_fmap in Hi. simpl in Hi. f_equal. lia.
  - rewrite lookup_insert_ne, Hidx, Es by done. split; intros Hi.
    + rewrite lookup_app_l; [done|]. by eapply lookup_lt_Some.
    + apply lookup_app_Some in Hi as [Hi|[_ Hi]]; [done|]. apply list_lookup_singleton_Some in Hi as [_ Hi]. done.
Qed.

Lemma usable_lookup i x : usable !! i = Some x → x ∈ starts ∧ elsewhere via x.1 0 = false ∧ 0 ≤ x.1 < len (nodes g) ∧ distance_ok x.2.
Proof.
  intros Hi. apply list_elem_of_lookup_2 in Hi. apply list_elem_of_filter in Hi as [Hel Hin].
  pose proof (ok_starts _ _ _ Hgraph) as Hall. rewrite Forall_forall in Hall. split; [done|]. split; [done|]. by apply Hall.
Qed.
Lemma start_cost_ok d : distance_ok d → cost_ok (start_cost d).
Proof. intros Hd. split; [by apply six_ok|done]. Qed.
Lemma start_stage_le id : (start_stage via id ≤ length via)%nat.
Proof. unfold start_stage. case_bool_decide as Hh; [|lia]. destruct via; [done|]. simpl. lia. Qed.

Lemma first_core : Core ∅ first_search.
Proof.
  destruct (first_search_form starts (ok_distinct _ _ _ Hgraph)) as (Es & Ec & Ep & Eq & Eb & Ebc & Hidx).
  fold first_search usable in *. split.
  - by rewrite Ec, Es, !length_fmap.
  - by rewrite Ep, Es, length_replicate, length_fmap.
  - done.
  - rewrite Es. apply Forall_fmap, Forall_lookup. intros i x Hx. destruct (usable_lookup i x Hx) as [Hin _]. simpl.
    unfold universe. apply elem_of_app. left. apply list_elem_of_fmap. by exists x.
  - set_solver.
  - intros i Hi. rewrite Es, length_fmap in Hi. destruct (lookup_lt_is_Some_2 usable i Hi) as [[id d] Hx].
    destruct (usable_lookup i _ Hx) as (Hin & Hel & Hr & Hd). simpl in *.
    assert (sr_previous first_search !! i = Some None) as Hp by (rewrite Ep; by apply lookup_replicate_2).
    exists (start_key (id, d)), (start_cost d), None, [i]. split; simpl.
    + by rewrite Es, list_lookup_fmap, Hx.
    + by rewrite Ec, list_lookup_fmap, Hx.
    + done.
    + done.
    + apply start_stage_le.
    + by apply start_cost_ok.
    + by constructor.
    + apply NoDup_singleton.
    + constructor.
    + unfold len. simpl. lia.
    + exists id, d. done.
  - rewrite Ebc. apply infinity_ok.
  - by rewrite Eb.
  - set_solver.
Qed.

Lemma first_queued : Queued ∅ first_search.
Proof.
  destruct (first_search_form starts (ok_distinct _ _ _ Hgraph)) as (Es & Ec & Ep & Eq & Eb & Ebc & Hidx).
  fold first_search usable in *. split.
  - rewrite Eq, reverse_Permutation. apply NoDup_alt. intros i j e Hi Hj. rewrite list_lookup_imap in Hi, Hj.
    destruct (usable !! i), (usable !! j); simpl in *; congruence.
  - intros e. rewrite Eq, elem_of_reverse. intros (i & x & -> & Hx)%elem_of_lookup_imap. simpl.
    destruct (usable_lookup i x Hx) as (_ & _ & _ & Hd). exists (start_cost x.2). rewrite Ec, list_lookup_fmap, Hx. split; [done|].
    split; [by apply start_cost_ok|]. split; [unfold cle; lia|set_solver].
  - intros i c Hc _. rewrite Ec in Hc. apply list_lookup_fmap_Some in Hc as (x & -> & Hx). rewrite Eq, elem_of_reverse.
    apply elem_of_lookup_imap. by exists i, x.
  - set_solver.
Qed.

Lemma first_potential : (potential ∅ first_search < search_rounds g via starts)%nat.
Proof.
  destruct (first_search_form starts (ok_distinct _ _ _ Hgraph)) as (_ & _ & _ & Eq & _).
  fold first_search usable in *. unfold potential, search_rounds. rewrite Eq, length_reverse, length_imap, size_empty, Nat.sub_0_r.
  pose proof (length_filter (λ x : Z * f64, elsewhere via x.1 0 = false) starts). unfold usable. lia.
Qed.

(** The search returns, and has reached every start that may be used. *)
Lemma searched : ∃ X s, search_loop g via mode (search_rounds g via starts) ends first_search = Some s ∧ Ended X s
  ∧ ∀ id direct, (id, direct) ∈ starts → elsewhere via id 0 = false → reached s id (nm (start_cost direct)).
Proof.
  destruct (search_loop_ok (search_rounds g via starts) ∅ first_search) as (X & s & Hs & Hend & Hr);
    [exact first_core|exact first_queued|by intros u index Hu%elem_of_empty|exact first_potential|]. exists X, s. split; [done|]. split; [done|].
  intros id direct Hin Hel. apply Hr. destruct (first_search_form starts (ok_distinct _ _ _ Hgraph)) as (Es & Ec & _).
  fold first_search usable in *. assert ((id, direct) ∈ usable) as [i Hi]%list_elem_of_lookup_1 by (by apply list_elem_of_filter).
  exists i, (start_key (id, direct)), (start_cost direct). rewrite Es, Ec, !list_lookup_fmap, Hi. split; [done|]. split; [done|].
  split; [done|lia].
Qed.

(** ** Routes *)

(** A walk along airways that may be used. *)
Inductive airway_walk : Z → list Step → Z → Prop :=
| walk_here v : airway_walk v [] v
| walk_along v index edge steps t :
    edge_at g v index edge → allows mode edge = true → airway_walk (ae_to edge) steps t →
    airway_walk v ({| st_from := v; st_edge := index |} :: steps) t.

Lemma walk_snoc v steps w index edge :
  airway_walk v steps w → edge_at g w index edge → allows mode edge = true →
  airway_walk v (steps ++ [{| st_from := w; st_edge := index |}]) (ae_to edge).
Proof. induction 1; intros He Ha; simpl; econstructor; eauto. constructor. Qed.

Lemma step_distance_at v index edge :
  edge_at g v index edge → step_distance g {| st_from := v; st_edge := index |} = Some (ae_distance_nm edge).
Proof. intros (node & Hn & He). unfold step_distance. simpl. rewrite Hn. simpl. by rewrite He. Qed.

Lemma mapM_snoc {A B} (f : A → option B) l x ys y :
  mapM f l = Some ys → f x = Some y → mapM f (l ++ [x]) = Some (ys ++ [y]).
Proof.
  revert ys. induction l as [|z l IH]; intros ys Hl Hx; simpl in *.
  - injection Hl as <-. by rewrite Hx.
  - destruct (f z); simpl in *; [|done]. destruct (mapM f l) as [zs|] eqn:E; simpl in *; [|done]. injection Hl as <-.
    by rewrite (IH zs).
Qed.

(** What the way back from a state says of it: a walk from a start whose length the cost adds up. *)
Definition traced (s : Search) (l : list nat) (key : StateKey) (cost : RouteCost) (first : nat) (steps : list Step) : Prop :=
  ∃ id direct ds, sr_states s !! first = Some (start_key (id, direct)) ∧ (id, direct) ∈ starts
    ∧ airway_walk id steps (key_node key) ∧ (st_from <$> steps) ++ [key_node key] = reverse (node_at s <$> l)
    ∧ mapM (step_distance g) steps = Some ds ∧ rc_distance_nm cost = fold_left f64_add ds (f64_mul direct six)
    ∧ (steps = [] → key_incoming key = None).

Lemma node_at_key s i key : sr_states s !! i = Some key → node_at s i = key_node key.
Proof. unfold node_at. by intros ->. Qed.

Lemma walk_back_ok X s i l : Core X s → chain s i l → ∀ key cost previous fuel seen rest,
  label X s i key cost previous l → (length l ≤ fuel)%nat → (∀ n, n ∈ tail (node_at s <$> l) → n ∉ seen) →
  ∃ first steps, walk_back fuel s i seen rest = Some (Some (first, steps ++ rest)) ∧ traced s l key cost first steps.
Proof.
  intros Hcore Hchain. induction Hchain as [i Hi|i p index l Hi Hchain IH];
    intros key cost prev fuel seen rest Hl Hfuel Hseen; (destruct fuel as [|fuel]; [simpl in Hfuel; lia|]);
    pose proof (lb_previous _ _ _ _ _ _ _ _ _ _ _ Hl) as Hp; pose proof (lb_state _ _ _ _ _ _ _ _ _ _ _ Hl) as Hk;
    pose proof (lb_justified _ _ _ _ _ _ _ _ _ _ _ Hl) as Hj; rewrite Hi in Hp; injection Hp as <-; simpl; rewrite Hi; simpl.
  - exists i, []. split; [done|]. destruct Hj as (id & direct & Hin & _ & -> & ->). exists id, direct, []. simpl.
    split; [done|]. split; [done|]. split; [constructor|]. split; [by rewrite (node_at_key _ _ _ Hk)|]. done.
  - destruct Hj as (pkey & pcost & edge & Hpk & Hpc & He & Ha & _ & -> & ->). rewrite Hpk. simpl.
    pose proof (lb_simple _ _ _ _ _ _ _ _ _ _ _ Hl) as Hnd. rewrite fmap_cons in Hnd, Hseen. simpl in Hseen.
    apply NoDup_cons in Hnd as [_ Hnd]. destruct (chain_head _ _ _ Hchain) as [l' ->]. rewrite fmap_cons in Hnd, Hseen.
    rewrite (node_at_key _ _ _ Hpk) in Hnd, Hseen. apply NoDup_cons in Hnd as [Hnp _].
    rewrite bool_decide_eq_false_2 by (apply Hseen; left).
    destruct (c_label _ _ _ _ _ _ _ Hcore p) as (k' & c' & prev' & l2 & Hlp); [by eapply lookup_lt_Some|].
    assert (k' = pkey) as -> by (pose proof (lb_state _ _ _ _ _ _ _ _ _ _ _ Hlp); congruence).
    assert (c' = pcost) as -> by (pose proof (lb_cost _ _ _ _ _ _ _ _ _ _ _ Hlp); congruence).
    assert (l2 = p :: l') as -> by (eapply chain_det; [apply Hlp|done]).
    edestruct (IH pkey pcost prev' fuel ({[key_node pkey]} ∪ seen)) as (first & steps & Hw & Htr); [done|simpl in *; lia| |].
    { simpl. intros n Hn. apply not_elem_of_union. split; [|apply Hseen; by right]. intros ->%elem_of_singleton. done. }
    rewrite Hw. eexists first, (steps ++ [_]). rewrite <- (assoc_L (++)). split; [done|].
    destruct Htr as (id & direct & ds & Hf & Hin & Hwalk & Hnodes & Hds & Hcost & _). exists id, direct, (ds ++ [ae_distance_nm edge]).
    split; [done|]. split; [done|]. split; [by apply walk_snoc|]. split.
    { rewrite (fmap_cons (node_at s) i), reverse_cons, <- Hnodes, (node_at_key _ _ _ Hk), fmap_app. done. }
    split; [apply mapM_snoc; [done|by apply step_distance_at]|]. split; [by rewrite fold_left_app, <- Hcost|].
    intros E. by apply app_eq_nil in E as [_ ?].
Qed.

(** The required fixes on the way are those of the stage, in order. *)
Lemma elsewhere_stage id stage : elsewhere via id stage = false →
  (id ∉ via ∧ via !! stage ≠ Some id) ∨ (id ∈ via ∧ via !! stage = Some id).
Proof.
  unfold elsewhere. destruct (list_find (λ x, x = id) via) as [[index y]|] eqn:Hf.
  - apply list_find_Some in Hf as (Hi & -> & _). rewrite negb_false_iff, Nat.eqb_eq. intros ->. right.
    split; [by eapply list_elem_of_lookup_2|done].
  - intros _. apply list_find_None in Hf. rewrite Forall_forall in Hf. left. split; [intros Hi; by apply (Hf id)|].
    intros Hi. apply (Hf id); [by eapply list_elem_of_lookup_2|done].
Qed.

Lemma filter_one x : filter (.∈ via) [x] = if decide (x ∈ via) then [x] else [].
Proof. by rewrite filter_cons, filter_nil. Qed.

Lemma chain_via X s i l : Core X s → chain s i l → ∀ key cost previous,
  label X s i key cost previous l → filter (.∈ via) (reverse (node_at s <$> l)) = take (key_stage key) via.
Proof.
  intros Hcore Hchain. induction Hchain as [i Hi|i p index l Hi Hchain IH]; intros key cost prev Hl;
    pose proof (lb_previous _ _ _ _ _ _ _ _ _ _ _ Hl) as Hp; pose proof (lb_state _ _ _ _ _ _ _ _ _ _ _ Hl) as Hk;
    pose proof (lb_justified _ _ _ _ _ _ _ _ _ _ _ Hl) as Hj; rewrite Hi in Hp; injection Hp as <-;
    rewrite fmap_cons, reverse_cons, filter_app, (node_at_key _ _ _ Hk).
  - destruct Hj as (id & direct & _ & Hel & -> & _). simpl. unfold start_stage. apply elsewhere_stage in Hel.
    rewrite filter_one. unfold key_node, key_stage. simpl. rewrite head_lookup. destruct Hel as [[Hn Hh]|[Hin Hh]].
    + by rewrite decide_False, bool_decide_eq_false_2.
    + rewrite decide_True, bool_decide_eq_true_2 by done. symmetry. by apply (take_S_r via 0).
  - destruct Hj as (pkey & pcost & edge & Hpk & Hpc & _ & _ & Hel & -> & _). simpl.
    destruct (c_label _ _ _ _ _ _ _ Hcore p) as (k' & c' & prev' & l2 & Hlp); [by eapply lookup_lt_Some|].
    assert (k' = pkey) as -> by (pose proof (lb_state _ _ _ _ _ _ _ _ _ _ _ Hlp); congruence).
    assert (l2 = l) as -> by (eapply chain_det; [apply Hlp|done]). rewrite (IH _ _ _ Hlp). unfold next_stage.
    rewrite filter_one. unfold key_node, key_stage. simpl. destruct (elsewhere_stage _ _ Hel) as [[Hn Hh]|[Hin Hh]].
    + rewrite decide_False, bool_decide_eq_false_2 by done. apply app_nil_r.
    + rewrite decide_True, bool_decide_eq_true_2 by done. symmetry. by apply take_S_r.
Qed.

(** What a path that is returned is: a route from a start to an end along airways that may
    be used, which passes no fix twice and the required ones in order. *)
Record route_of (path : Path) (start : Z) (direct : f64) (t : Z) (distance : f64) (ds : list f64) : Prop := {
  ro_start : (start, direct) ∈ starts;
  ro_end : (t, distance) ∈ ends;
  ro_some : p_steps path ≠ [];
  ro_walk : airway_walk start (p_steps path) t;
  ro_simple : NoDup ((st_from <$> p_steps path) ++ [t]);
  ro_via : filter (.∈ via) ((st_from <$> p_steps path) ++ [t]) = via;
  ro_lengths : mapM (step_distance g) (p_steps path) = Some ds;
  ro_direct : p_direct_nm path = f64_add direct distance;
  ro_distance : p_distance_nm path = f64_add (p_direct_nm path) (f64_sum ds);
  ro_score : p_score path = f64_add (p_distance_nm path) (f64_mul (f64_lit 5 0) (p_direct_nm path)) }.

(** What the search compares: direct parts count six times. *)
Definition weight (direct : f64) (ds : list f64) (distance : f64) : f64 :=
  f64_add (fold_left f64_add ds (f64_mul direct six)) (f64_mul distance six).

Lemma find_start id direct : (id, direct) ∈ starts → ∃ i, list_find (λ x, x.1 = id) starts = Some (i, (id, direct)).
Proof.
  intros Hin. destruct (list_find_elem_of (λ x, x.1 = id) starts (id, direct) Hin eq_refl) as [[i [id' d']] Hf].
  exists i. rewrite Hf. apply list_find_Some in Hf as (Hi & E & _). simpl in E. subst id'.
  apply list_elem_of_lookup_1 in Hin as [j Hj]. pose proof (ok_distinct _ _ _ Hgraph) as Hnd.
  assert (i = j) as -> by (eapply NoDup_lookup; [exact Hnd|by rewrite list_lookup_fmap, Hi|by rewrite list_lookup_fmap, Hj]).
  congruence.
Qed.

(** The search returns the best route it has found. *)
Lemma shortest_result : nodes g ≠ [] → ∃ X s, Ended X s
  ∧ (∀ id direct, (id, direct) ∈ starts → elsewhere via id 0 = false → reached s id (nm (start_cost direct)))
  ∧ match sr_best s with
    | None => shortest g via mode starts ends = Some None
    | Some (b, distance) =>
        ∃ path start direct t ds, shortest g via mode starts ends = Some (Some path)
          ∧ route_of path start direct t distance ds ∧ rc_distance_nm (sr_best_cost s) = weight direct ds distance
    end.
Proof.
  intros Hne. destruct searched as (X & s & Hs & Hend & Hr). exists X, s. split; [done|]. split; [done|].
  destruct Hend as (Hcore & _ & _). unfold shortest. rewrite bool_decide_eq_false_2 by done. fold first_search. rewrite Hs. simpl.
  pose proof (c_best _ _ _ _ _ _ _ Hcore) as Hbest. destruct (sr_best s) as [[b distance]|]; [|done].
  destruct Hbest as (Hb & (key & index & Hk & Hst & Hin & Hf) & cost & Hc & Hscore). rewrite Hk. simpl.
  destruct (c_label _ _ _ _ _ _ _ Hcore b) as (k' & c' & prev & l & Hl); [by eapply lookup_lt_Some|].
  assert (k' = key) as -> by (pose proof (lb_state _ _ _ _ _ _ _ _ _ _ _ Hl); congruence).
  assert (c' = cost) as -> by (pose proof (lb_cost _ _ _ _ _ _ _ _ _ _ _ Hl); congruence).
  pose proof (lb_chain _ _ _ _ _ _ _ _ _ _ _ Hl) as Hchain. pose proof (lb_simple _ _ _ _ _ _ _ _ _ _ _ Hl) as Hnd.
  destruct (walk_back_ok X s b l Hcore Hchain key cost prev (length (sr_states s)) {[key_node key]} [] Hl)
    as (first & steps & Hw & id & direct & ds & Hfirst & Hdir & Hwalk & Hnodes & Hds & Hcost & Hnil).
  { by eapply label_length. }
  { destruct (chain_head _ _ _ Hchain) as [l' ->]. rewrite fmap_cons in Hnd |- *. simpl. apply NoDup_cons in Hnd as [Hnot _].
    rewrite (node_at_key _ _ _ Hk) in Hnot. intros n Hn ->%elem_of_singleton. done. }
  rewrite app_nil_r in Hw. rewrite Hw. cbn [mbind option_bind]. rewrite Hfirst. cbn [mbind option_bind].
  destruct (find_start id direct Hdir) as [fi Hfi]. change (key_node (start_key (id, direct))) with id. rewrite Hfi, Hds.
  cbn [mbind option_bind].
  eexists _, id, direct, (key_node key), ds. split; [reflexivity|]. split; [|by rewrite Hscore; unfold score, weight; simpl; rewrite <- Hcost].
  apply list_find_Some in Hf as (Hf & _ & _). split; simpl; try done.
  - by eapply list_elem_of_lookup_2.
  - intros ->. rewrite Hnil in Hin by done. by destruct Hin.
  - rewrite Hnodes, reverse_Permutation. done.
  - rewrite Hnodes, (chain_via X s b l Hcore Hchain key cost prev Hl), Hst. by rewrite take_ge.
Qed.

Lemma no_nodes : nodes g = [] → starts = [].
Proof.
  intros E. pose proof (ok_starts _ _ _ Hgraph) as Hall. destruct starts as [|x l]; [done|].
  apply Forall_cons in Hall as [[Hr _] _]. rewrite E in Hr. unfold len in Hr. simpl in Hr. lia.
Qed.
End correct.

(** ** What a search gives *)

(** A search with valid starts and ends returns, and a path it returns is a route from a
    start to an end along airways that may be used, through the required fixes in order and
    past no fix twice, with the lengths added up. *)
Lemma shortest_routes g via mode starts ends :
  searchable g starts ends →
  ∃ found, shortest g via mode starts ends = Some found
    ∧ ∀ path, found = Some path →
        ∃ start direct t distance ds, route_of g via mode starts ends path start direct t distance ds.
Proof.
  intros Hg. destruct (decide (nodes g = [])) as [E|Hne].
  { exists None. unfold shortest. rewrite bool_decide_eq_true_2 by done. done. }
  destruct (shortest_result g via mode starts ends Hg Hne) as (X & s & _ & _ & Hres).
  destruct (sr_best s) as [[b d]|]; [|by exists None].
  destruct Hres as (path & start & direct & t & ds & Hs & Hro & _). exists (Some path). split; [done|].
  intros p [= <-]. eauto 10.
Qed.

Section optimal.
Context (g : Graph) (mode : AirwayNavigationMode) (starts ends : list (Z * f64)).
Context (Hgraph : searchable g starts ends) (X : gset nat) (s : Search) (Hend : Ended g [] mode starts ends X s).

Lemma distances_ok v steps t ds : airway_walk g mode v steps t → mapM (step_distance g) steps = Some ds → Forall distance_ok ds.
Proof.
  intros Hw. revert ds. induction Hw as [v|v index edge steps t He Ha _ IH]; intros ds; simpl; [by intros [= <-]|].
  rewrite (step_distance_at _ _ _ _ He). simpl. destruct (mapM _ steps) as [ds'|]; simpl; [|done]. intros [= <-].
  constructor; [by eapply edge_at_ok|by apply IH].
Qed.
Lemma fold_ok ds acc : distance_ok acc → Forall distance_ok ds →
  distance_ok (fold_left f64_add ds acc) ∧ val acc ≤ val (fold_left f64_add ds acc).
Proof.
  revert acc. induction ds as [|d ds IH]; intros acc Ha Hds; simpl; [split; [done|lia]|]. apply Forall_cons in Hds as [Hd Hds].
  destruct (IH (f64_add acc d)) as [Hok Hle]; [by apply add_ok|done|]. split; [done|]. pose proof (add_ge acc d Ha Hd). lia.
Qed.

(** Nothing the search has found is better than [n]. *)
Definition beaten (n : Z) : Prop := ∃ c, cle (sr_best_cost s) c ∧ cost_ok c ∧ rc_changes c < u32_max ∧ nm c ≤ n.

Lemma beaten_le n n' : n ≤ n' → beaten n → beaten n'.
Proof. intros Hle (c & H1 & H2 & H3 & H4). exists c. repeat split; try done; [apply H2|apply H2|lia]. Qed.

Lemma state_label i key : sr_states s !! i = Some key → ∃ cost previous l,
  label g [] mode starts X s i key cost previous l ∧ rc_changes cost < u32_max.
Proof.
  intros Hk. destruct Hend as (Hcore & _). destruct (c_label _ _ _ _ _ _ _ Hcore i) as (k & c & p & l & Hl); [by eapply lookup_lt_Some|].
  assert (k = key) as -> by (pose proof (lb_state _ _ _ _ _ _ _ _ _ _ _ Hl); congruence). exists c, p, l. split; [done|].
  pose proof (lb_changes _ _ _ _ _ _ _ _ _ _ _ Hl). pose proof (chain_length g [] mode starts ends X s i key c p l Hcore Hl).
  pose proof (ok_count _ _ _ Hgraph). unfold u32_max. lia.
Qed.

(** A walk from what was reached leads to what was reached, or is beaten. *)
Lemma walk_reached v steps t ds acc :
  airway_walk g mode v steps t → mapM (step_distance g) steps = Some ds → distance_ok acc → reached s v (val acc) →
  beaten (val (fold_left f64_add ds acc)) ∨ reached s t (val (fold_left f64_add ds acc)).
Proof.
  intros Hw. revert ds acc. induction Hw as [v|v index edge steps t He Ha Hw IH]; intros ds acc; simpl; [intros [= <-]; by right|].
  rewrite (step_distance_at _ _ _ _ He). simpl. destruct (mapM _ steps) as [ds'|] eqn:Hds; simpl; [|done]. intros [= <-] Hacc Hr.
  destruct (edge_at_ok _ _ _ Hgraph _ _ _ He) as [_ Hd]. simpl.
  destruct Hr as (i & key & cost & Hk & <- & Hc & Hn). destruct (state_label i key Hk) as (c' & prev & l & Hl & Hch).
  assert (c' = cost) as -> by (pose proof (lb_cost _ _ _ _ _ _ _ _ _ _ _ Hl); congruence).
  pose proof (lb_ok _ _ _ _ _ _ _ _ _ _ _ Hl) as Hok. destruct Hend as (_ & Hexp & Hout).
  pose proof (add_ok _ _ Hacc Hd) as Hacc'. pose proof (distances_ok _ _ _ _ Hw Hds) as Hall.
  destruct (decide (i ∈ X)) as [Hi|Hi].
  - apply (IH ds' (f64_add acc (ae_distance_nm edge)) eq_refl Hacc').
    destruct (Hexp i index Hi key cost edge Hk Hc He Ha eq_refl) as (j & k & c & Hj & Hto & Hcj & Hle).
    exists j, k, c. split; [done|]. split; [done|]. split; [done|].
    pose proof (add_mono _ _ _ (proj1 Hok) Hacc Hd Hn). lia.
  - left. exists cost. split; [by apply (Hout i)|]. split; [done|]. split; [done|].
    destruct (fold_ok ds' (f64_add acc (ae_distance_nm edge)) Hacc' Hall) as [_ Hf]. pose proof (add_ge _ _ Hacc Hd). lia.
Qed.

(** An end that was reached along an airway is an end of a route that was considered. *)
Lemma end_reached t distance n :
  distance_ok n → reached s t (val n) → (t, distance) ∈ ends → NoDup ends.*1 → t ∉ starts.*1 →
  beaten (val (f64_add n (f64_mul distance six))).
Proof.
  intros Hn (i & key & cost & Hk & <- & Hc & Hle) Hin Hnd Hstart. destruct (state_label i key Hk) as (c' & prev & l & Hl & Hch).
  assert (c' = cost) as -> by (pose proof (lb_cost _ _ _ _ _ _ _ _ _ _ _ Hl); congruence).
  pose proof (lb_ok _ _ _ _ _ _ _ _ _ _ _ Hl) as Hok. destruct Hend as (Hcore & _ & Hout).
  assert (distance_ok distance) as Hd
    by (pose proof (ok_ends _ _ _ Hgraph) as He; rewrite Forall_forall in He; by apply (He _ Hin)).
  pose proof (six_ok distance Hd) as Hd6.
  pose proof (add_mono _ _ _ (proj1 Hok) Hn Hd6 Hle) as Hmono. destruct (decide (i ∈ X)) as [Hi|Hi].
  - exists (score cost distance). split; [|split; [by apply score_ok|split; [done|exact Hmono]]].
    apply (c_finals _ _ _ _ _ _ _ Hcore i); [done| |done].
    destruct (list_find_elem_of (λ e, e.1 = key_node key) ends (key_node key, distance) Hin eq_refl) as [[index [t' d']] Hf].
    pose proof Hf as (Hi' & E & _)%list_find_Some. simpl in E. subst t'. apply list_elem_of_lookup_1 in Hin as [j Hj].
    assert (index = j) as -> by (eapply NoDup_lookup; [exact Hnd|by rewrite list_lookup_fmap, Hi'|by rewrite list_lookup_fmap, Hj]).
    assert (d' = distance) as -> by congruence. exists key, j. split; [done|].
    pose proof (lb_stage _ _ _ _ _ _ _ _ _ _ _ Hl) as Hst. split; [simpl in *; lia|]. split; [|done].
    pose proof (lb_justified _ _ _ _ _ _ _ _ _ _ _ Hl) as Hju. destruct prev as [[p ei]|].
    + destruct Hju as (? & ? & ? & _ & _ & _ & _ & _ & -> & _). done.
    + destruct Hju as (id & direct & Hs & _ & -> & _). destruct Hstart. apply list_elem_of_fmap. by exists (id, direct).
  - exists cost. split; [by apply (Hout i)|]. split; [done|]. split; [done|].
    pose proof (add_ge _ _ (proj1 Hok) Hd6). unfold nm in *. lia.
Qed.
End optimal.

(** C15: without required fixes the route found is shortest: of all walks along airways that may
    be used from a start to an end that is not itself a start, none weighs less. *)
Theorem shortest_optimal g mode starts ends start direct steps t distance ds :
  searchable g starts ends → NoDup ends.*1 → (start, direct) ∈ starts → (t, distance) ∈ ends → t ∉ starts.*1 →
  airway_walk g mode start steps t → mapM (step_distance g) steps = Some ds →
  ∃ path start' direct' t' distance' ds',
    shortest g [] mode starts ends = Some (Some path)
    ∧ route_of g [] mode starts ends path start' direct' t' distance' ds'
    ∧ total_cmp (weight direct' ds' distance') (weight direct ds distance) ≠ Gt.
Proof.
  intros Hg Hnd Hst Hen Hns Hw Hds. assert (nodes g ≠ []) as Hne.
  { intros E. pose proof (no_nodes g starts ends Hg E) as E'. rewrite E' in Hst. by apply elem_of_nil in Hst. }
  destruct (shortest_result g [] mode starts ends Hg Hne) as (X & s & Hend & Hreach & Hres).
  assert (distance_ok direct) as Hd
    by (pose proof (ok_starts _ _ _ Hg) as Ha; rewrite Forall_forall in Ha; by apply (Ha _ Hst)).
  pose proof (six_ok direct Hd) as Hd6. pose proof (distances_ok g mode starts ends Hg _ _ _ _ Hw Hds) as Hall.
  destruct (fold_ok ds _ Hd6 Hall) as [Hfold _].
  assert (distance_ok (f64_mul distance six)) as He6
    by (apply six_ok; pose proof (ok_ends _ _ _ Hg) as Ha; rewrite Forall_forall in Ha; by apply (Ha _ Hen)).
  assert (beaten s (val (weight direct ds distance))) as (c & Hle & Hok & Hch & Hn).
  { destruct (walk_reached g mode starts ends Hg X s Hend _ _ _ _ _ Hw Hds Hd6 (Hreach _ _ Hst eq_refl)) as [Hb|Hr].
    - eapply beaten_le; [|exact Hb]. by apply add_ge.
    - by eapply end_reached. }
  pose proof (c_best _ _ _ _ _ _ _ (proj1 Hend)) as Hbest. pose proof (c_best_ok _ _ _ _ _ _ _ (proj1 Hend)) as [Hbok _].
  destruct (sr_best s) as [[b d']|].
  - destruct Hres as (path & start' & direct' & t' & ds' & Hs & Hro & Hwt). exists path, start', direct', t', d', ds'.
    split; [done|]. split; [done|]. rewrite <- Hwt, total_cmp_val by (done || by apply add_ok).
    apply Z.compare_le_iff. unfold cle, nm in *. lia.
  - rewrite Hbest in Hle. pose proof (below_infinity c Hok Hch) as Hlt. unfold clt, cle in *. lia.
Qed.

(** ** Connections and routes *)

(** What the types of a graph say: ids are not negative, floats are floats. *)
Definition graph_typed (ns : list AirwayRoutingNode) : Prop :=
  Forall (λ node, Forall (λ edge, 0 ≤ ae_to edge ∧ valid_binary 53 1024 (ae_distance_nm edge) = true) (an_edges node)) ns.

Lemma existsb_false {A} (f : A → bool) l x : existsb f l = false → x ∈ l → f x = false.
Proof.
  induction l as [|y l IH]; simpl; [by intros _ ?%elem_of_nil|]. rewrite orb_false_iff, elem_of_cons. naive_solver.
Qed.

Lemma validate_node G i node :
  graph_validate G = Ok tt → ag_nodes G !! i = Some node →
  an_id node = Z.of_nat i ∧ valid_position (an_lat node) (an_lon node) = true
  ∧ Forall (λ edge, bad_edge (len (ag_nodes G)) edge = false) (an_edges node).
Proof.
  unfold graph_validate. intros (? & _ & Hv%guard_err_Ok)%bind_Ok Hi.
  apply (existsb_false _ _ (i, node)) in Hv; [|apply elem_of_lookup_imap; by exists i, node]. simpl in Hv. unfold bad_node in Hv.
  rewrite !orb_false_iff, !negb_false_iff, Z.eqb_eq in Hv. destruct Hv as (((Hid & Hat) & _) & He). split_and!; [done..|].
  apply Forall_forall. intros edge Hin. by eapply existsb_false.
Qed.
Lemma validate_count G : graph_validate G = Ok tt → len (ag_nodes G) ≤ 200000.
Proof. unfold graph_validate. intros (? & Hv%guard_err_Ok & _)%bind_Ok. apply orb_false_iff in Hv as [_ Hv]. lia. Qed.
Lemma validate_edges G i node : graph_validate G = Ok tt → graph_typed (ag_nodes G) → ag_nodes G !! i = Some node →
  Forall (λ edge, 0 ≤ ae_to edge < len (ag_nodes G) ∧ distance_ok (ae_distance_nm edge)) (an_edges node).
Proof.
  intros Hv Ht Hi. destruct (validate_node G i node Hv Hi) as (_ & _ & Hb). unfold graph_typed in Ht. rewrite Forall_lookup in Ht.
  specialize (Ht i node Hi).
  eapply Forall_impl; [apply Forall_and; exact (conj Hb Ht)|]. simpl. intros edge [He [H0 Hf]]. unfold bad_edge in He.
  rewrite !orb_false_iff, negb_false_iff in He. destruct He as ((H1 & H2) & H3). split; [lia|by apply positive_ok].
Qed.

(** The cosine of a latitude is not negative, nor is the arc of a number that is not. *)
Class LibmLaws `{Libm} := {
  cos_latitude x : f64_le (f64_abs x) (f64_lit 90 0) = true → not_negative (f64_cos (to_radians x));
  asin_arc x : not_negative x → distance_ok (f64_asin x) ∨ f64_asin x = S754_nan }.

Definition valid_lat_lon (p : LatLon) : bool := valid_position (lat p) (lon p).

Lemma diameter_bounded : ∃ m e, f64_mul (f64_lit 2 0) EARTH_RADIUS_NM = S754_finite false m e ∧ bounded 53 1024 m e = true.
Proof. eexists _, _. split; vm_compute; reflexivity. Qed.

(** The distance between two positions is one, or NaN where rounding takes the haversine of
    opposite points past one. *)
Lemma leg_distance `{LibmLaws} a b : valid_lat_lon a = true → valid_lat_lon b = true →
  distance_ok (flight_leg_distance_nm a b) ∨ flight_leg_distance_nm a b = S754_nan.
Proof.
  unfold valid_lat_lon, valid_position. rewrite !andb_true_iff. intros [[_ Ha] _] [[_ Hb] _].
  unfold flight_leg_distance_nm, great_circle_distance_nm. cbv zeta.
  match goal with |- context [f64_asin ?x] => destruct (asin_arc x) as [Hx|E] end.
  - apply sqrt_not_negative, add_not_negative, mul_not_negative; [apply square_not_negative| |apply square_not_negative].
    apply mul_not_negative; by apply cos_latitude.
  - left. destruct diameter_bounded as (m & e & -> & Hm). by apply scale_ok.
  - right. rewrite E. by destruct diameter_bounded as (m & e & -> & Hm).
Qed.

Section connections.
Context `{LibmLaws} (G : AirwayRoutingGraph).
Context (Hvalid : graph_validate G = Ok tt) (Htyped : graph_typed (ag_nodes G)).
Abbreviation g := {| nodes := ag_nodes G |}.
Abbreviation conn := (connections g).

Lemma choice_ok at_ mode node id d : valid_lat_lon at_ = true → valid_lat_lon (position node) = true →
  choice g at_ mode node = Some (id, d) → id = an_id node ∧ distance_ok d.
Proof.
  intros Hat Hpos. unfold choice. destruct (is_target _ _ _); [|done].
  pose proof (leg_distance at_ (position node) Hat Hpos) as Hd. remember (flight_leg_distance_nm at_ (position node)) as x.
  clear Heqx. destruct (f64_le x _) eqn:E; intros [= <- <-]. split; [done|]. destruct Hd as [Hd| ->]; [exact Hd|discriminate E].
Qed.
Lemma choices_ok at_ mode (Hat : valid_lat_lon at_ = true) (cs := omap (choice g at_ mode) (ag_nodes G)) :
  NoDup cs.*1 ∧ Forall (λ x, 0 ≤ x.1 < len (ag_nodes G) ∧ distance_ok x.2) cs.
Proof.
  assert (∀ l k, (∀ i node, l !! i = Some node → an_id node = Z.of_nat (k + i) ∧ valid_lat_lon (position node) = true) →
    let cs := omap (choice g at_ mode) l in
    NoDup cs.*1 ∧ Forall (λ x, Z.of_nat k ≤ x.1 < Z.of_nat (k + length l) ∧ distance_ok x.2) cs) as Hgen.
  { intros l. induction l as [|node l IH]; intros k Hl; [by split; constructor|].
    destruct (IH (S k)) as [Hnd Hall]; [intros i n Hn; destruct (Hl (S i) n Hn); split; [lia|done]|].
    destruct (Hl 0%nat node eq_refl) as [Hid Hpos]. rewrite Nat.add_0_r in Hid.
    assert (Forall (λ x, Z.of_nat k ≤ x.1 < Z.of_nat (k + S (length l)) ∧ distance_ok x.2)
      (omap (choice g at_ mode) l)) as Hall'.
    { eapply Forall_impl; [exact Hall|]. simpl. intros x [Hr Hx]. split; [lia|done]. }
    csimpl. destruct (choice g at_ mode node) as [[id d]|] eqn:Hc; [|done].
    assert (id = Z.of_nat k ∧ distance_ok d) as [-> Hd].
    { destruct (choice_ok at_ mode node _ _ Hat Hpos Hc) as [-> ?]. done. }
    split; [|constructor; [simpl; split; [lia|done]|done]]. csimpl. constructor; [|done].
    intros ([id' d'] & E & Hin)%list_elem_of_fmap. simpl in E. subst id'. rewrite Forall_forall in Hall.
    destruct (Hall _ Hin) as [Hr _]. simpl in Hr. lia. }
  destruct (Hgen (ag_nodes G) 0%nat) as [Hnd Hall]; [|by split].
  intros i node Hi. by destruct (validate_node G i node Hvalid Hi) as (-> & ? & _).
Qed.

(** The points a position connects to are distinct fixes of the graph. *)
Lemma connections_ok anchor at_ mode : valid_lat_lon at_ = true →
  NoDup (conn anchor at_ mode).*1 ∧ Forall (λ x, 0 ≤ x.1 < len (ag_nodes G) ∧ distance_ok x.2) (conn anchor at_ mode).
Proof.
  intros Hat. unfold connections. simpl. destruct (list_find _ (ag_nodes G)) as [[i node]|] eqn:Hf.
  - apply list_find_Some in Hf as (Hi & _ & _). destruct (validate_node G i node Hvalid Hi) as (-> & _).
    apply lookup_lt_Some in Hi. split; [apply NoDup_singleton|]. repeat constructor; simpl; unfold len; lia.
  - destruct (choices_ok at_ mode Hat) as [Hnd Hall]. set (cs := omap _ _) in *.
    assert (merge_sort nearer cs ≡ₚ cs) as Hp by apply merge_sort_Permutation. split.
    + rewrite <- (take_drop 24 (merge_sort nearer cs)) in Hp. rewrite <- Hp, fmap_app in Hnd. by apply NoDup_app in Hnd as [? _].
    + apply Forall_take. by rewrite Hp.
Qed.

Lemma connected_searchable a at_ b bt mode : valid_lat_lon at_ = true → valid_lat_lon bt = true →
  searchable g (conn a at_ mode) (conn b bt mode).
Proof.
  intros Hat Hbt. destruct (connections_ok a at_ mode Hat) as [Hnd Hall], (connections_ok b bt mode Hbt) as [_ Hall'].
  split; simpl; [by apply validate_count| |done|done|].
  - intros i node Hi. by eapply validate_edges.
  - eapply Forall_impl; [exact Hall'|]. by intros x [_ Hx].
Qed.
End connections.

(** C16: on a valid graph the routes between two positions are found without a panic: at most one,
    from a fix the origin connects to to one the destination connects to, and without
    required fixes within the limit for a detour. *)
Theorem routes_valid `{LibmLaws} G origin origin_position destination destination_position via mode :
  graph_validate G = Ok tt → graph_typed (ag_nodes G) → valid_lat_lon origin_position = true →
  valid_lat_lon destination_position = true →
  let g := {| nodes := ag_nodes G |} in
  let conn := connections g in
  let direct := flight_leg_distance_nm origin_position destination_position in
  ∃ paths, routes g origin origin_position destination destination_position via mode = Some paths
    ∧ (length paths ≤ 1)%nat
    ∧ ∀ path, path ∈ paths →
        (∃ start d t d' ds, route_of g via mode (conn origin origin_position mode) (conn destination destination_position mode)
           path start d t d' ds)
        ∧ (via = [] → f64_le (p_distance_nm path) (detour_limit direct) = true).
Proof.
  intros Hv Ht Ho Hd g conn direct. unfold routes. case_match; [exists []; split; [done|]; split; [simpl; lia|by intros ? ?%elem_of_nil]|].
  destruct (shortest_routes g via mode (conn origin origin_position mode) (conn destination destination_position mode))
    as (found & Hs & Hfound); [by apply connected_searchable|]. unfold conn in Hs. rewrite Hs. simpl. eexists. split; [reflexivity|].
  destruct found as [path|]; [|split; [simpl; lia|by intros ? ?%elem_of_nil]]. specialize (Hfound path eq_refl).
  case_match eqn:Hb; [|split; [simpl; lia|by intros ? ?%elem_of_nil]]. split; [simpl; lia|].
  intros p ->%list_elem_of_singleton. split; [done|]. intros ->. by apply orb_true_iff in Hb as [?|?].
Qed.

(** ** Graphs in a navigation database *)

(** Postcard reads back what it wrote; the version is the first number of a graph. *)
Class PostcardLaws `{Postcard} := {
  graph_reads_back g b : to_allocvec g = Ok b → take_graph b = Ok (g, []);
  version_first g b : to_allocvec g = Ok b → ∃ rest, take_u32 b = Ok (ag_schema_version g, rest) }.

Lemma graph_roundtrip `{PostcardLaws} G b : graph_encode G = Ok b → graph_decode b = Ok G.
Proof.
  unfold graph_encode, graph_decode. intros ([] & Hv & (b' & Hb & ([] & Hlen & [= ->])%bind_Ok)%bind_Ok)%bind_Ok.
  rewrite Hlen. simpl. destruct (version_first G b Hb) as [rest ->]. simpl.
  assert (ag_schema_version G = AIRWAY_ROUTING_SCHEMA_VERSION) as ->.
  { unfold graph_validate in Hv. apply bind_Ok in Hv as (? & Hs%guard_err_Ok & _).
    apply orb_false_iff in Hs as [Hs _]. apply negb_false_iff in Hs. lia. }
  simpl. rewrite (graph_reads_back G b Hb). simpl. by rewrite Hv.
Qed.

(** A graph that was encoded into a navigation database loads from any store that holds some
    of its pages, or the store names pages it lacks. *)
Theorem graph_loads `{PostcardLaws} pairs psize extra out store fuel G b :
  build_nav_kv_strict_with_extra_prefetch_keys pairs psize extra = Ok out → in_u32 psize → keys_utf8 pairs →
  holds_pages_of store out → (length (bo_pages out) ≤ fuel)%nat →
  graph_encode G = Ok b → pairs_map pairs !! AIRWAY_ROUTING_GRAPH_KEY = Some b →
  graph_load fuel store = Ok {| nodes := ag_nodes G |}
  ∨ ∃ pages, graph_load fuel store = Err (NeedPages pages) ∧ pages ≠ [] ∧ Forall (still_missing store out) pages.
Proof.
  intros Hb Hps Hu Hst Hf He Hp. unfold graph_load.
  destruct (get_bytes_built pairs psize extra out store fuel AIRWAY_ROUTING_GRAPH_KEY Hb Hps Hu Hst Hf)
    as [(v & -> & Hv)|[[_ Hv]|(qs & -> & Hne & Hall)]].
  - rewrite Hp in Hv. injection Hv as <-. rewrite (graph_roundtrip G b He). by left.
  - congruence.
  - right. by exists qs.
Qed.

(** ** A small airway graph

    The graph of the code's own tests, and searches on it. *)

Definition sample_edge (to : Z) (name : string) (distance : Z) (altitude : option Z) : AirwayRoutingEdge :=
  {| ae_to := to; ae_airway_name := bs name; ae_branch_key := bs name; ae_from_sequence := 0; ae_to_sequence := 1;
     ae_distance_nm := f64_lit distance 0; ae_mea_ft := altitude;
     ae_gnss_mea_ft := match altitude with None => Some 4000 | Some _ => None end; ae_maximum_altitude_ft := Some 18000;
     ae_crossing_altitude_ft := None; ae_crossing_point := bs "BEEZR"; ae_signal_gap := false |}.
Definition sample_node (id : Z) (name : string) (lat lon : Z) (edges : list AirwayRoutingEdge) : AirwayRoutingNode :=
  {| an_id := id; an_nav_ref := RefFix (bs name); an_lat := f64_lit lat 0; an_lon := f64_lit lon 0; an_edges := edges |}.

Definition sample_graph : Graph :=
  {| nodes :=
      [sample_node 0 "START" 47 (-122) [sample_edge 1 "V4" 40 (Some 10000); sample_edge 2 "V2" 38 (Some 6000)];
       sample_node 1 "YKM" 46 (-121) [sample_edge 0 "V4" 40 (Some 10000); sample_edge 4 "V4" 40 (Some 10000)];
       sample_node 2 "BEEZR" 47 (-121) [sample_edge 0 "V2" 38 (Some 6000); sample_edge 3 "V298" 36 (Some 7000)];
       sample_node 3 "ELN" 47 (-120) [sample_edge 2 "V298" 36 (Some 7000); sample_edge 4 "V298" 25 None];
       sample_node 4 "END" 47 (-120) [sample_edge 1 "V4" 40 (Some 10000); sample_edge 3 "V298" 25 None];
       sample_node 5 "ISLAND" 47 (-121) [sample_edge 6 "V9" 20 (Some 4000)];
       sample_node 6 "CROSS" 46 (-121) [sample_edge 5 "V9" 20 (Some 4000)]] |}.

Definition sample_search (via : list Z) : option (option (list Z * f64)) :=
  match shortest sample_graph via Gnss [(0, f64_lit 0 0)] [(4, f64_lit 0 0)] with
  | Some found => Some ((λ p, (st_from <$> p_steps p, p_distance_nm p)) <$> found)
  | None => None
  end.

Example sample_direct : sample_search [] = Some (Some ([0; 1], f64_lit 80 0)).
Proof. vm_compute. reflexivity. Qed.
Example sample_constrained : sample_search [2; 3] = Some (Some ([0; 2; 3], f64_lit 99 0)).
Proof. vm_compute. reflexivity. Qed.
Example sample_isolated : sample_search [5] = Some None.
Proof. vm_compute. reflexivity. Qed.
Example sample_backwards : sample_search [3; 2] = Some None.
Proof. vm_compute. reflexivity. Qed.

(** ** The theorems, applied *)

Definition sample_contract : AirwayRoutingGraph :=
  {| ag_schema_version := 2; ag_nodes := nodes sample_graph |}.
Lemma sample_graph_valid : graph_validate sample_contract = Ok tt.
Proof. vm_compute. reflexivity. Qed.
Lemma sample_typed : graph_typed (ag_nodes sample_contract).
Proof. repeat constructor; vm_compute; (reflexivity || discriminate). Qed.

Lemma sample_searchable : searchable sample_graph [(0, f64_lit 0 0)] [(4, f64_lit 0 0)].
Proof.
  split.
  - vm_compute. discriminate.
  - intros i node Hi. exact (validate_edges sample_contract i node sample_graph_valid sample_typed Hi).
  - repeat constructor; vm_compute; (reflexivity || discriminate).
  - apply NoDup_singleton.
  - repeat constructor.
Qed.

(** The longer way, along V2 and V298. *)
Definition sample_steps : list Step :=
  [{| st_from := 0; st_edge := 1 |}; {| st_from := 2; st_edge := 1 |}; {| st_from := 3; st_edge := 1 |}].
Lemma sample_walk : airway_walk sample_graph Gnss 0 sample_steps 4.
Proof.
  apply (walk_along _ _ _ 1 (sample_edge 2 "V2" 38 (Some 6000))); [by eexists|vm_compute; reflexivity|].
  apply (walk_along _ _ _ 1 (sample_edge 3 "V298" 36 (Some 7000))); [by eexists|vm_compute; reflexivity|].
  apply (walk_along _ _ _ 1 (sample_edge 4 "V298" 25 None)); [by eexists|vm_compute; reflexivity|]. apply walk_here.
Qed.

Lemma shortest_optimal_witness :
  ∃ path start' direct' t' distance' ds',
    shortest sample_graph [] Gnss [(0, f64_lit 0 0)] [(4, f64_lit 0 0)] = Some (Some path)
    ∧ route_of sample_graph [] Gnss [(0, f64_lit 0 0)] [(4, f64_lit 0 0)] path start' direct' t' distance' ds'
    ∧ total_cmp (weight direct' ds' distance') (f64_lit 99 0) ≠ Gt.
Proof.
  apply (shortest_optimal sample_graph Gnss [(0, f64_lit 0 0)] [(4, f64_lit 0 0)] 0 (f64_lit 0 0) sample_steps 4 (f64_lit 0 0)
    [f64_lit 38 0; f64_lit 36 0; f64_lit 25 0] sample_searchable).
  - apply NoDup_singleton.
  - left.
  - left.
  - set_solver.
  - exact sample_walk.
  - vm_compute. reflexivity.
Defined.

(** Stand-ins for the trigonometric functions: an approximation good enough for small angles. *)
#[local] Instance toy_libm : Libm :=
  {| f64_sin := λ x, x; f64_cos := λ _, f64_lit 1 (-1); f64_asin := λ x, if valid_binary 53 1024 x then x else S754_nan |}.
#[local] Instance toy_libm_laws : LibmLaws.
Proof. split; intros x Hx; simpl; [by vm_compute|].
  destruct (valid_binary 53 1024 x) eqn:E; [|by right]. destruct x as [[]|[]| |[] m e]; try discriminate Hx; auto; by left.
Qed.

Definition sample_west : LatLon := {| lat := f64_lit 47 0; lon := f64_lit (-122) 0 |}.
Definition sample_east : LatLon := {| lat := f64_lit 47 0; lon := f64_lit (-120) 0 |}.

Lemma routes_valid_witness :
  ∃ paths, routes sample_graph (NavFix (bs "START")) sample_west (NavFix (bs "END")) sample_east [2; 3] Gnss = Some paths
    ∧ length paths = 1%nat ∧ ∀ path, path ∈ paths → p_steps path ≠ [].
Proof.
  destruct (routes_valid sample_contract (NavFix (bs "START")) sample_west (NavFix (bs "END")) sample_east [2; 3] Gnss
    sample_graph_valid sample_typed) as (paths & Hr & _ & Hall); [vm_compute; reflexivity..|].
  exists paths. split; [exact Hr|]. split.
  - vm_compute in Hr. injection Hr as <-. reflexivity.
  - intros path Hin. destruct (Hall path Hin) as [(start & d & t & d' & ds & Hroute) _]. apply (ro_some _ _ _ _ _ _ _ _ _ _ _ Hroute).
Defined.

(** A stand-in for Postcard that knows one graph. *)
#[local] Instance edge_eq_dec : EqDecision AirwayRoutingEdge.
Proof. solve_decision. Defined.
#[local] Instance reference_eq_dec : EqDecision AirwayRoutingReference.
Proof. solve_decision. Defined.
#[local] Instance node_eq_dec : EqDecision AirwayRoutingNode.
Proof. solve_decision. Defined.
#[local] Instance graph_eq_dec : EqDecision AirwayRoutingGraph.
Proof. solve_decision. Defined.

Definition toy_text : bytes := bs "the sample graph".
#[local] Instance toy_postcard : Postcard :=
  {| to_allocvec := λ G, if decide (G = sample_contract) then Ok toy_text else Err [];
     take_u32 := λ b, if decide (b = toy_text) then Ok (2, []) else Err [];
     take_graph := λ b, if decide (b = toy_text) then Ok (sample_contract, []) else Err [] |}.
#[local] Instance toy_postcard_laws : PostcardLaws.
Proof.
  split; intros G b; simpl; (case_decide as E; [|done]); intros [= <-]; subst G; [done|]. by exists [].
Qed.

(** A navigation database that holds the encoded graph, and a store holding every page of it. *)
Definition airway_pairs : list NavKvPair :=
  [{| pair_key := bs "airport/KSEA"; pair_value := bs "Seattle" |};
   {| pair_key := AIRWAY_ROUTING_GRAPH_KEY; pair_value := toy_text |}].
Definition airway_out : NavKvBuildOutput :=
  match build_nav_kv_strict_with_extra_prefetch_keys airway_pairs 96 [] with
  | Ok out => out
  | Err _ => empty_output
  end.
Definition airway_store : NavKvStore :=
  match parse_root (bo_root_bytes airway_out) with
  | Ok root =>
      foldl (λ store page, match get_at (bo_pages airway_out) page with
                           | Some b => insert_page store page b
                           | None => store
                           end) (new root) (Z.of_nat <$> seq 0 (length (bo_pages airway_out)))
  | Err _ => new {| entry_count := 0; page_size := 0; root_page := 0; page_count := 0;
                    value_page_start := 0; value_bytes_len := 0; prefetch_pages := [] |}
  end.

Lemma airway_build : build_nav_kv_strict_with_extra_prefetch_keys airway_pairs 96 [] = Ok airway_out.
Proof. vm_compute. reflexivity. Qed.
Lemma airway_utf8 : keys_utf8 airway_pairs.
Proof. repeat constructor; vm_compute; reflexivity. Qed.
Lemma airway_fuel : (length (bo_pages airway_out) ≤ 20)%nat.
Proof. apply Nat.leb_le. vm_compute. reflexivity. Qed.
Lemma airway_store_holds : holds_pages_of airway_store airway_out.
Proof.
  split; [vm_compute; reflexivity|].
  apply (bool_decide_unpack (map_Forall (λ i b, get_at (bo_pages airway_out) i = Some b) (ns_pages airway_store))).
  vm_compute. exact I.
Qed.

Lemma graph_loads_witness :
  graph_load 20 airway_store = Ok {| nodes := ag_nodes sample_contract |}
  ∧ (graph_load 20 airway_store = Ok {| nodes := ag_nodes sample_contract |}
     ∨ ∃ pages, graph_load 20 airway_store = Err (NeedPages pages) ∧ pages ≠ []
         ∧ Forall (still_missing airway_store airway_out) pages).
Proof.
  split; [vm_compute; reflexivity|].
  apply (graph_loads airway_pairs 96 [] airway_out airway_store 20 sample_contract toy_text airway_build sample_size
    airway_utf8 airway_store_holds airway_fuel); vm_compute; reflexivity.
Defined.
