(* ===== verification/ReceiverProducts.v ===== *)
(** * What the receiver sends (receiver/mod.rs, products.rs, weather.rs)

    The reader of product bodies and the decoders on top of it: attitude, pressure, NMEA
    sentences, traffic reports, and the weather container with its text and radar products.

    A decoder refuses its input with the error of the code. [Panics] stands for an index or
    slice out of range, a failed [unwrap] or [unreachable!], and [Unfinished] for a loop that
    outlasts the rounds it is given; both are shown never to happen. Dates are those of the
    crate chrono and the decompressor that of flate2: the classes [Chrono] and [Zlib]. *)

From Stdlib Require Import Strings.Byte Floats.SpecFloat.

From stdpp Require Import base gmap list list_numbers strings.
From S2P Require Import Prelude Utf8 Float64 ReceiverFraming ReceiverProtocol.

Local Open Scope Z_scope.

Inductive fault := Refused (e : decode_error) | Panics | Unfinished.
Definition refused (message : string) : fault := Refused (DecodeError message).
Arguments refused message%_string.

(** [&l[n..]] and [l[n]]. *)
Definition slice_from {A} (l : list A) (n : Z) : result fault (list A) :=
  if n <=? len l then Ok (drop (Z.to_nat n) l) else Err Panics.
Definition index {A} (l : list A) (n : Z) : result fault A := ok_or (get_at l n) Panics.

(** ** The reader (mod.rs) *)

Record Reader := { rd_bytes : bytes; rd_offset : Z }.
Definition reader (b : bytes) : Reader := {| rd_bytes := b; rd_offset := 0 |}.
Abbreviation Reading := (ST Reader fault).

(** A decoder on its own input. *)
Definition read_all {A} (m : Reading A) (b : bytes) : result fault A := (m (reader b)).1.

Definition read_take (count : Z) : Reading bytes := λ r,
  match checked_add usize_max (rd_offset r) count with
  | None => (Err (refused "size overflow"), r)
  | Some last =>
      match get_range (rd_bytes r) (rd_offset r) last with
      | None => (Err (refused "truncated product"), r)
      | Some data => (Ok data, {| rd_bytes := rd_bytes r; rd_offset := last |})
      end
  end.
(** [uN::from_le_bytes(self.take(n)?.try_into().unwrap())]. *)
Definition read_le (n : Z) : Reading Z :=
  data ← read_take n;
  _ ← st_lift (guard_err (negb (len data =? n)) Panics);
  mret (le_value data).
Definition read_u8 : Reading Z := data ← read_take 1; b ← st_lift (index data 0); mret (b2z b).
Definition read_u16 : Reading Z := read_le 2.
(** [as i16] and [as i32]. *)
Definition signed (bits v : Z) : Z := if v <? 2 ^ (bits - 1) then v else v - 2 ^ bits.
Definition read_i16 : Reading Z := v ← read_u16; mret (signed 16 v).
Definition read_u32 : Reading Z := read_le 4.
Definition read_i32 : Reading Z := v ← read_u32; mret (signed 32 v).
Definition read_f32 : Reading (option f64) :=
  bits ← read_u32;
  let value := f32_from_bits bits in
  mret (if is_finite value then Some value else None).
Definition read_f64 : Reading f64 := bits ← read_le 8; mret (f64_from_bits bits).

(** [trim_matches] with ASCII characters, which occur in UTF-8 as themselves only. *)
Definition trim_matches (set s : bytes) : bytes :=
  let out (b : byte) := bool_decide (b ∈ set) in
  reverse (skip_while out (reverse (skip_while out s))).
Definition text_margin : bytes := [x00; x20; x0d; x0a; x09].
Definition read_text (count : Z) : Reading bytes :=
  data ← read_take count; mret (trim_matches text_margin (from_utf8_lossy data)).

(** A value read [n] times. *)
Fixpoint read_times {A} (n : nat) (m : Reading A) : Reading (list A) :=
  match n with
  | O => mret []
  | S n => x ← m; l ← read_times n m; mret (x :: l)
  end.

(** ** Dates *)

(** The crate chrono. *)
Class Chrono := {
  NaiveDate : Type;
  DateTime : Type;
  from_ymd_opt : Z → Z → Z → option NaiveDate;
  date_year : NaiveDate → Z;
  date_month : NaiveDate → Z;
  checked_sub_months : NaiveDate → Z → option NaiveDate;
  checked_add_months : NaiveDate → Z → option NaiveDate;
  (** [and_hms_opt] and [and_utc]. *)
  and_hms_opt : NaiveDate → Z → Z → Z → option DateTime;
  utc_year : DateTime → Z;
  utc_month : DateTime → Z;
  timestamp_millis : DateTime → Z;
  (** [a < b], and [(a - b).num_milliseconds()]. *)
  datetime_ltb : DateTime → DateTime → bool;
  millis_since : DateTime → DateTime → Z }.

Record PartialUtc := { pu_day : Z; pu_hour : Z; pu_minute : Z }.

Definition partial_utc_ok (t : PartialUtc) : bool :=
  ((1 <=? pu_day t) && (pu_day t <=? 31)) && (pu_hour t <=? 23) && (pu_minute t <=? 59).
Definition read_partial_utc : Reading PartialUtc :=
  day ← read_u8; hour ← read_u8; minute ← read_u8;
  let value := {| pu_day := day; pu_hour := hour; pu_minute := minute |} in
  _ ← st_lift (guard_err (negb (partial_utc_ok value)) (refused "invalid partial UTC time"));
  mret value.

(** [min_by_key]: the first of the least. *)
Fixpoint min_by_key {A} (key : A → Z) (l : list A) : option A :=
  match l with
  | [] => None
  | x :: l => match min_by_key key l with Some y => if key y <? key x then Some y else Some x | None => Some x end
  end.

Definition resolve_nearest `{Chrono} (t : PartialUtc) (anchor : DateTime) : option DateTime :=
  month ← from_ymd_opt (utc_year anchor) (utc_month anchor) 1;
  let months := omap id [checked_sub_months month 1; Some month; checked_add_months month 1] in
  let dates := omap (λ month, from_ymd_opt (date_year month) (date_month month) (pu_day t)) months in
  let times := omap (λ date, and_hms_opt date (pu_hour t) (pu_minute t) 0) dates in
  min_by_key (λ date, Z.abs (timestamp_millis anchor - timestamp_millis date)) times.

(** ** Weather (weather.rs) *)

Record TextReport := {
  tr_text : bytes; tr_station : option bytes; tr_notam_identifier : option bytes; tr_record_type_raw : option byte }.

Record Radar := {
  ra_kind : WeatherKind; ra_issue_time : PartialUtc; ra_precipitation_time : PartialUtc;
  ra_center_latitude : f64; ra_center_longitude : f64; ra_reference_latitude : f64;
  ra_columns : Z; ra_rows : Z; ra_pixel_width_meters : Z; ra_pixel_height_meters : Z;
  ra_grid : bytes }.

Inductive Weather :=
| WeatherEmpty (kind : WeatherKind)
| WeatherText (kind : WeatherKind) (issue_time : PartialUtc) (reports : list TextReport) (additional_segments : list bytes)
| WeatherRadar (radar : Radar)
| WeatherUninterpreted (kind : WeatherKind) (status : bytes) (segments : list bytes).

Definition lat_lon `{Libm} (radar : Radar) (column row : f64) : f64 * f64 :=
  let earth := f64_lit 6378137 0 in
  let dx := to_degrees (f64_div (f64_lit (ra_pixel_width_meters radar) 0)
              (f64_mul earth (f64_cos (to_radians (ra_reference_latitude radar))))) in
  let dy := to_degrees (f64_div (f64_lit (ra_pixel_height_meters radar) 0) earth) in
  (f64_sub (ra_center_latitude radar)
     (f64_mul (f64_sub row (f64_div (f64_lit (ra_rows radar) 0) (f64_lit 2 0))) dy),
   f64_add (ra_center_longitude radar)
     (f64_mul (f64_sub column (f64_div (f64_lit (ra_columns radar) 0) (f64_lit 2 0))) dx)).

(** The crate flate2: a decompressor takes input and the room for output; it says whether the
    stream has ended and what it wrote. *)
Class Zlib := {
  Decompress : Type;
  decompress_new : Decompress;
  total_in : Decompress → Z;
  total_out : Decompress → Z;
  decompress : Decompress → bytes → Z → option (bool * bytes * Decompress) }.

(** A loop of at most [2^k] rounds. *)
Inductive round (S R : Type) := Running (s : S) | Done (r : R).
Arguments Running {S R} s.
Arguments Done {S R} r.
Fixpoint rounds {S R} (k : nat) (body : S → round S R) (s : S) : round S R :=
  match k with
  | O => body s
  | Datatypes.S k => match rounds k body s with Running s => rounds k body s | Done r => Done r end
  end.

Record Inflating `{Zlib} := { if_decoder : Decompress; if_output : bytes; if_buffer : bytes }.
Definition BUFFER_BYTES : Z := 8192.

Definition inflate_round `{Zlib} (b : bytes) (limit : Z) (s : Inflating) : round Inflating (result fault bytes) :=
  let before_in := total_in (if_decoder s) in
  let before_out := total_out (if_decoder s) in
  match slice_from b before_in with
  | Err e => Done (Err e)
  | Ok input =>
      match decompress (if_decoder s) input BUFFER_BYTES with
      | None => Done (Err (refused "invalid zlib stream"))
      | Some (stream_end, written, decoder) =>
          let buffer := written ++ drop (length written) (if_buffer s) in
          let count := total_out decoder - before_out in
          if len (if_output s) + count >? limit then Done (Err (refused "weather expansion limit"))
          else
            match get_range buffer 0 count with
            | None => Done (Err Panics)
            | Some data =>
                let output := if_output s ++ data in
                if stream_end : bool then
                  if negb (total_in decoder =? len b) then Done (Err (refused "trailing zlib data")) else Done (Ok output)
                else if (before_in =? total_in decoder) && (count =? 0) then Done (Err (refused "truncated zlib data"))
                else Running {| if_decoder := decoder; if_output := output; if_buffer := buffer |}
            end
      end
  end.
Definition inflate `{Zlib} (b : bytes) (limit : Z) : result fault bytes :=
  match rounds 27 (inflate_round b limit)
          {| if_decoder := decompress_new; if_output := []; if_buffer := replicate (Z.to_nat BUFFER_BYTES) x00 |} with
  | Done r => r
  | Running _ => Err Unfinished
  end.

(** Where the entries of a text product have their parts: size of an entry, offset of its
    pointer, most bytes of a text, offset and size of the count. *)
Definition text_layout (kind : WeatherKind) : result fault (Z * Z * Z * Z * Z) :=
  match kind with
  | Metar => Ok (77, 69, 4096, 3, 2)
  | Taf => Ok (12, 4, 6095, 3, 4)
  | Pirep => Ok (92, 84, 4096, 3, 2)
  | Winds => Ok (20, 12, 4096, 6, 2)
  | Notam => Ok (37, 20, 6095, 3, 2)
  | Airmet | Sigmet => Ok (26, 18, 4096, 3, 1)
  | _ => Err Panics
  end.

(** [chunks_exact]. *)
Fixpoint chunks_exact_loop (fuel n : nat) (l : bytes) : list bytes :=
  match fuel with
  | O => []
  | S fuel => if (length l <? n)%nat then [] else take n l :: chunks_exact_loop fuel n (drop n l)
  end.
Definition chunks_exact (n : Z) (l : bytes) : list bytes := chunks_exact_loop (length l) (Z.to_nat n) l.

#[export] Instance weather_kind_eq_dec : EqDecision WeatherKind.
Proof. solve_decision. Defined.

Definition decode_entry (kind : WeatherKind) (pointer_offset max_text : Z) (text : bytes)
    (acc : Z * list TextReport) (entry : bytes) : result fault (Z * list TextReport) :=
  let '(copied_text, reports) := acc in
  at_pointer ← slice_from entry pointer_offset;
  pointer ← read_all (length ← read_u32; offset ← read_u32; mret (length, offset)) at_pointer;
  let '(length, offset) := pointer in
  copied_text ← ok_or (checked_add usize_max copied_text length) (refused "weather text overflow");
  _ ← guard_err ((length >? max_text) || (copied_text >? MAX_PRODUCT_BYTES)) (refused "weather text limit");
  last ← ok_or (checked_add usize_max offset length) (refused "weather pointer overflow");
  raw ← ok_or (get_range text offset last) (refused "weather text pointer");
  raw ← ok_or (from_utf8 raw) (refused "weather text is not UTF-8");
  station ← (if bool_decide (kind ∈ [Metar; Taf; Winds]) then Some <$> read_all (read_text 4) entry else Ok None);
  notam ← (if bool_decide (kind = Notam) then
             rest ← slice_from entry 1;
             identifier ← read_all (read_text 15) rest;
             record_type ← index entry 0;
             Ok (Some identifier, Some record_type)
           else Ok (None, None));
  Ok (copied_text, reports ++ [{| tr_text := trim_matches text_margin raw; tr_station := station;
                                  tr_notam_identifier := notam.1; tr_record_type_raw := notam.2 |}]).

Definition decode_text `{Zlib} (kind : WeatherKind) (parts : list bytes) : result fault Weather :=
  layout ← text_layout kind;
  let '(entry_size, pointer_offset, max_text, count_offset, count_size) := layout in
  _ ← guard_err ((len parts <? 3) || (negb (bool_decide (kind = Notam)) && negb (len parts =? 3)))
        (refused "weather text segment count");
  part0 ← index parts 0;
  metadata ← read_all (issue_time ← read_partial_utc;
                       _ ← read_take (count_offset - 3);
                       count ← (if count_size =? 1 then read_u8 else if count_size =? 2 then read_u16 else read_u32);
                       mret (issue_time, count)) part0;
  part1 ← index parts 1;
  index_bytes ← inflate part1 MAX_PRODUCT_BYTES;
  part2 ← index parts 2;
  text ← inflate part2 (wrap64 (MAX_PRODUCT_BYTES - len index_bytes));
  _ ← guard_err (negb (bool_decide (checked_mul usize_max metadata.2 entry_size = Some (len index_bytes))))
        (refused "weather index length");
  read ← try_fold (decode_entry kind pointer_offset max_text text) (0, []) (chunks_exact entry_size index_bytes);
  more ← slice_from parts 3;
  Ok (WeatherText kind metadata.1 read.2 more).

(** One row of the grid: runs of a length and a value until the row is full. *)
Fixpoint radar_row (fuel : nat) (columns filled : Z) (grid : bytes) : Reading bytes :=
  if filled <? columns then
    match fuel with
    | O => st_err Unfinished
    | S fuel =>
        length ← read_u16;
        value ← read_u8;
        if (length =? 0) || (filled + length >? columns) then st_err (refused "radar run width")
        else radar_row fuel columns (filled + length) (grid ++ replicate (Z.to_nat length) (z2b value))
    end
  else mret grid.

Definition decode_row (columns : Z) (runs offsets grid : bytes) (row : Z) : result fault bytes :=
  at_row ← slice_from offsets (row * 4);
  start ← read_all read_u32 at_row;
  rest ← ok_or (get_range runs start (len runs)) (refused "radar row offset");
  read_all (radar_row (Z.to_nat columns) columns 0 grid) rest.

(** [input.i32()? as f64 * 180.0 / 2f64.powi(31)]. *)
Definition read_angle : Reading f64 :=
  v ← read_i32; mret (f64_div (f64_mul (f64_lit v 0) (f64_lit 180 0)) (f64_lit 1 31)).

Definition read_radar_header (kind : WeatherKind) : Reading Radar :=
  center_latitude ← read_angle;
  center_longitude ← read_angle;
  issue_time ← read_partial_utc;
  precipitation_time ← read_partial_utc;
  reference_latitude ← read_angle;
  columns ← read_u16;
  rows ← read_u16;
  pixel_height_meters ← read_u16;
  pixel_width_meters ← read_u16;
  mret {| ra_kind := kind; ra_issue_time := issue_time; ra_precipitation_time := precipitation_time;
          ra_center_latitude := center_latitude; ra_center_longitude := center_longitude;
          ra_reference_latitude := reference_latitude; ra_columns := columns; ra_rows := rows;
          ra_pixel_width_meters := pixel_width_meters; ra_pixel_height_meters := pixel_height_meters; ra_grid := [] |}.

(** [a > b] and [a >= b]. *)
Definition f64_gt (a b : f64) : bool := f64_lt b a.
Definition f64_ge (a b : f64) : bool := f64_le b a.

Definition bad_geometry (h : Radar) : bool :=
  let count := ra_columns h * ra_rows h in
  (count =? 0) || (count >? 16 * 1024 * 1024) || (ra_pixel_height_meters h =? 0) || (ra_pixel_width_meters h =? 0)
  || f64_gt (f64_abs (ra_center_latitude h)) (f64_lit 90 0) || f64_ge (f64_abs (ra_reference_latitude h)) (f64_lit 90 0).

Definition with_grid (grid : bytes) (h : Radar) : Radar :=
  {| ra_kind := ra_kind h; ra_issue_time := ra_issue_time h; ra_precipitation_time := ra_precipitation_time h;
     ra_center_latitude := ra_center_latitude h; ra_center_longitude := ra_center_longitude h;
     ra_reference_latitude := ra_reference_latitude h; ra_columns := ra_columns h; ra_rows := ra_rows h;
     ra_pixel_width_meters := ra_pixel_width_meters h; ra_pixel_height_meters := ra_pixel_height_meters h; ra_grid := grid |}.

Definition bad_extent `{Libm} (radar : Radar) : bool :=
  let '(north, west) := lat_lon radar (f64_lit 0 0) (f64_lit 0 0) in
  let '(south, east) := lat_lon radar (f64_lit (ra_columns radar) 0) (f64_lit (ra_rows radar) 0) in
  f64_gt north (f64_lit 90 0) || f64_lt south (f64_lit (-90) 0) || f64_gt (f64_sub east west) (f64_lit 360 0).

Definition decode_radar `{Libm, Zlib} (kind : WeatherKind) (parts : list bytes) : result fault Radar :=
  _ ← guard_err (negb (len parts =? 3)) (refused "radar segments");
  part0 ← index parts 0;
  _ ← guard_err (negb (len part0 =? 26)) (refused "radar segments");
  h ← read_all (read_radar_header kind) part0;
  _ ← guard_err (bad_geometry h) (refused "invalid radar geometry");
  part1 ← index parts 1;
  runs ← inflate part1 MAX_PRODUCT_BYTES;
  part2 ← index parts 2;
  offsets ← inflate part2 (wrap64 (MAX_PRODUCT_BYTES - len runs));
  _ ← guard_err (negb (len offsets =? ra_rows h * 4) && negb (len offsets =? (ra_rows h + 1) * 4))
        (refused "radar row index size");
  grid ← try_fold (decode_row (ra_columns h) runs offsets) [] (seqZ 0 (ra_rows h));
  let radar := with_grid grid h in
  _ ← guard_err (bad_extent radar) (refused "radar extent");
  Ok radar.

(** The segments that are not empty. *)
Fixpoint take_segments (sizes : list Z) : Reading (list bytes) :=
  match sizes with
  | [] => mret []
  | size :: sizes =>
      if size =? 0 then take_segments sizes else part ← read_take size; parts ← take_segments sizes; mret (part :: parts)
  end.
(** [try_fold] of [checked_add] from [72]. *)
Definition segment_total (sizes : list Z) : option Z := foldl (λ sum n, s ← sum; checked_add usize_max s n) (Some 72) sizes.

Definition read_segments (b : bytes) : Reading (list bytes) :=
  sizes ← read_times 16 read_u32;
  total ← st_lift (ok_or (segment_total sizes) (refused "segment size overflow"));
  _ ← st_lift (guard_err (negb (total =? len b)) (refused "weather segment sizes"));
  take_segments sizes.

Definition read_container (b : bytes) : Reading (bytes * list bytes) :=
  status ← read_take 4;
  status0 ← st_lift (index status 0); status1 ← st_lift (index status 1);
  status2 ← st_lift (index status 2); status3 ← st_lift (index status 3);
  _ ← st_lift (guard_err (negb (b2z status0 =? 1) || (b2z status1 >? 1) || (b2z status2 >? 1) || negb (b2z status3 =? 0))
                 (refused "unsupported weather container"));
  declared ← read_u32;
  _ ← st_lift (guard_err (declared >? MAX_PRODUCT_BYTES) (refused "declared weather expansion limit"));
  parts ← read_segments b;
  mret (status, parts).

Definition decode_weather `{Libm, Zlib} (kind : WeatherKind) (b : bytes) : result fault Weather :=
  if bool_decide (b = []) then Ok (WeatherEmpty kind)
  else
    _ ← guard_err (len b >? MAX_PRODUCT_BYTES) (refused "weather file too large");
    read ← read_all (read_container b) b;
    let '(status, parts) := read in
    status2 ← index status 2;
    if negb (b2z status2 =? 1) || bool_decide (kind ∈ [GraphicalMetar; Sua]) then Ok (WeatherUninterpreted kind status parts)
    else if bool_decide (kind ∈ [RegionalRadar; ConusRadar]) then WeatherRadar <$> decode_radar kind parts
    else decode_text kind parts.

(** ** Products (products.rs) *)

Record Attitude := {
  at_stage : Z; at_stage_percent : Z; at_status : Z;
  at_track_or_heading_degrees : option f64; at_pitch_degrees : option f64; at_roll_degrees : option f64;
  at_lateral_acceleration_raw : Z; at_normal_acceleration_raw : Z; at_turn_rate_raw : Z }.

Record TrafficOwnship `{Chrono} := {
  to_time_of_applicability_seconds : option f64; to_utc : option DateTime;
  to_latitude : option f64; to_longitude : option f64; to_ground_speed_knots : option f64;
  to_true_track_degrees : option f64; to_true_heading_degrees : option f64;
  to_pressure_altitude_feet : option f64; to_geometric_altitude_feet : option f64;
  to_address : Z; to_callsign : bytes; to_flight_plan_id : bytes; to_airborne : bool; to_validity_flags : Z }.

Record TrafficTarget := {
  tt_receiver_track_id : Z; tt_address : Z; tt_address_qualifier_raw : Z; tt_track_source_raw : Z;
  tt_data_link_raw : Z; tt_correlation_flags : Z; tt_airborne : bool;
  tt_state_age_seconds : option f64; tt_identity_age_seconds : option f64;
  tt_latitude : option f64; tt_longitude : option f64; tt_ground_speed_knots : option f64;
  tt_pressure_altitude_feet : option f64; tt_geometric_altitude_feet : option f64;
  tt_true_direction_degrees : option f64; tt_true_direction_datum_raw : Z;
  tt_vertical_velocity_feet_per_minute : option f64; tt_vertical_velocity_source_raw : Z;
  tt_callsign : option bytes; tt_flight_plan_id : option bytes; tt_validity_flags : Z }.

Record Traffic `{Chrono} := {
  tf_ads_status : Z; tf_tcas_installed : bool; tf_tcas_mode : Z; tf_age_seconds : option f64;
  tf_arrival_seconds : option f64; tf_airborne_status : Z; tf_csa_status : Z; tf_surface_status : Z;
  tf_ownship : TrafficOwnship; tf_relative_angle_datum_raw : Z; tf_in_tisb_adsr_coverage : bool;
  tf_targets : list TrafficTarget }.

Inductive Product `{Chrono} :=
| ProductAttitude (attitude : Attitude)
| ProductPressureUnverified (raw : option f64)
| ProductAttitudeSource (external : bool) (raw : Z)
| ProductGpsSource (product_id : Z)
| ProductNmea (sentence : bytes)
| ProductTraffic (traffic : Traffic)
| ProductWeather (weather : Weather)
| ProductUninterpreted (message_id length : Z).

(** [flags & bit != 0]. *)
Definition has_flag (flags bit : Z) : bool := negb (Z.land flags bit =? 0).
Definition then_some {A} (b : bool) (a : A) : option A := if b then Some a else None.
(** [filter(|v| *v >= 0.0)]. *)
Definition not_below_zero (v : option f64) : option f64 :=
  match v with Some x => if f64_ge x (f64_lit 0 0) then Some x else None | None => None end.

(** [(-bound..=bound).contains(&x)]. *)
Definition within (bound : Z) (x : f64) : bool := f64_le (f64_lit (- bound) 0) x && f64_le x (f64_lit bound 0).
Definition traffic_position (lat lon : f64) (valid : bool) : option f64 * option f64 :=
  let lat := to_degrees lat in
  let lon := to_degrees lon in
  if valid && within 90 lat && within 180 lon then (Some lat, Some lon) else (None, None).

Definition valid_value (flags bit : Z) (value : option f64) : option f64 := if has_flag flags bit then value else None.

(** [values[i]] of an array that was read. *)
Definition nth_value (values : list (option f64)) (i : Z) : Reading (option f64) := st_lift (index values i).

Definition read_ownship `{Chrono} : Reading TrafficOwnship :=
  time_of_applicability_seconds ← read_f32;
  month ← read_u8; day ← read_u8; year ← read_u16; hour ← read_i16; minute ← read_u8; second ← read_u8;
  let utc := date ← from_ymd_opt year month day; and_hms_opt date (wrap32 hour) minute second in
  lat ← read_f64; lon ← read_f64;
  values ← read_times 9 read_f32;
  address ← read_u32;
  _ ← read_take 1;
  callsign ← read_text 8; flight_plan_id ← read_text 8;
  airborne ← read_u8;
  _ ← read_take 2;
  validity_flags ← read_u32;
  let at_ := traffic_position lat lon (has_flag validity_flags 1) in
  v0 ← nth_value values 0; v1 ← nth_value values 1; v2 ← nth_value values 2;
  v3 ← nth_value values 3; v4 ← nth_value values 4;
  mret {| to_time_of_applicability_seconds := time_of_applicability_seconds; to_utc := utc;
          to_latitude := at_.1; to_longitude := at_.2;
          to_ground_speed_knots := not_below_zero (valid_value validity_flags 2 v0);
          to_true_track_degrees := valid_value validity_flags 4 v1;
          to_true_heading_degrees := valid_value validity_flags 64 v2;
          to_pressure_altitude_feet := valid_value validity_flags 8 v3;
          to_geometric_altitude_feet := valid_value validity_flags 32 v4;
          to_address := address; to_callsign := callsign; to_flight_plan_id := flight_plan_id;
          to_airborne := negb (airborne =? 0); to_validity_flags := validity_flags |}.

Definition read_target : Reading TrafficTarget :=
  receiver_track_id ← read_u32; address ← read_u32;
  track_source_raw ← read_u8; data_link_raw ← read_u8; address_qualifier_raw ← read_u8; airborne ← read_u8;
  state_age ← read_f32; identity_age ← read_f32;
  _ ← read_take 8;
  lat ← read_f64; lon ← read_f64;
  values ← read_times 16 read_f32;
  meta ← read_take 12;
  _ ← read_take 8;
  callsign ← read_text 8; flight_plan_id ← read_text 8;
  validity_flags ← read_u32;
  let at_ := traffic_position lat lon (has_flag validity_flags 64) in
  meta10 ← st_lift (index meta 10); meta1 ← st_lift (index meta 1); meta3 ← st_lift (index meta 3);
  v8 ← nth_value values 8; v1 ← nth_value values 1; v2 ← nth_value values 2;
  v5 ← nth_value values 5; v11 ← nth_value values 11;
  mret {| tt_receiver_track_id := receiver_track_id; tt_address := address;
          tt_address_qualifier_raw := address_qualifier_raw; tt_track_source_raw := track_source_raw;
          tt_data_link_raw := data_link_raw; tt_correlation_flags := b2z meta10; tt_airborne := negb (airborne =? 0);
          tt_state_age_seconds := not_below_zero state_age; tt_identity_age_seconds := not_below_zero identity_age;
          tt_latitude := at_.1; tt_longitude := at_.2;
          tt_ground_speed_knots := not_below_zero (valid_value validity_flags 2 v8);
          tt_pressure_altitude_feet := valid_value validity_flags 2048 v1;
          tt_geometric_altitude_feet := valid_value validity_flags 4096 v2;
          tt_true_direction_degrees := v5; tt_true_direction_datum_raw := b2z meta1;
          tt_vertical_velocity_feet_per_minute := v11; tt_vertical_velocity_source_raw := b2z meta3;
          tt_callsign := then_some (has_flag validity_flags 512) callsign;
          tt_flight_plan_id := then_some (has_flag validity_flags 1024) flight_plan_id;
          tt_validity_flags := validity_flags |}.

Definition TARGET_LIMIT : Z := 4096.
Definition read_traffic `{Chrono} (b : bytes) : Reading Traffic :=
  version ← read_u16;
  _ ← st_lift (guard_err (negb (version =? 1)) (refused "unsupported traffic version"));
  minor ← read_u16;
  _ ← st_lift (guard_err (negb (minor =? 0)) (refused "unsupported traffic version"));
  ads_status ← read_u8; tcas_installed ← read_u8; tcas_mode ← read_u8;
  _ ← read_take 1;
  age ← read_f32; arrival_seconds ← read_f32;
  airborne_status ← read_u8; csa_status ← read_u8; surface_status ← read_u8;
  _ ← read_take 1;
  ownship ← read_ownship;
  relative_angle_datum_raw ← read_u8; in_tisb_adsr_coverage ← read_u8;
  _ ← read_take 2;
  count ← read_u32;
  _ ← st_lift (guard_err ((count >? TARGET_LIMIT) || negb (len b =? 120 + count * 148))
                 (refused "traffic target count/length"));
  targets ← read_times (Z.to_nat count) read_target;
  mret {| tf_ads_status := ads_status; tf_tcas_installed := negb (tcas_installed =? 0); tf_tcas_mode := tcas_mode;
          tf_age_seconds := not_below_zero age; tf_arrival_seconds := arrival_seconds;
          tf_airborne_status := airborne_status; tf_csa_status := csa_status; tf_surface_status := surface_status;
          tf_ownship := ownship; tf_relative_angle_datum_raw := relative_angle_datum_raw;
          tf_in_tisb_adsr_coverage := negb (in_tisb_adsr_coverage =? 0); tf_targets := targets |}.
Definition decode_traffic `{Chrono} (b : bytes) : result fault Traffic := read_all (read_traffic b) b.

(** An angle of 16 bits. *)
Definition read_half_turns : Reading f64 :=
  v ← read_i16; mret (f64_div (f64_mul (f64_lit v 0) (f64_lit 180 0)) (f64_lit 32768 0)).

Definition read_attitude : Reading Attitude :=
  stage ← read_u8; stage_percent ← read_u8; status ← read_u16;
  track ← read_half_turns; pitch ← read_half_turns; roll ← read_half_turns;
  lateral ← read_i16; normal ← read_i16; turn_rate ← read_i16;
  mret {| at_stage := stage; at_stage_percent := stage_percent; at_status := status;
          at_track_or_heading_degrees := then_some (has_flag status 1) track;
          at_pitch_degrees := then_some (has_flag status 2) pitch;
          at_roll_degrees := then_some (has_flag status 4) roll;
          at_lateral_acceleration_raw := lateral; at_normal_acceleration_raw := normal; at_turn_rate_raw := turn_rate |}.

(** [split_once]. *)
Fixpoint split_once (at_ : byte) (l : bytes) : option (bytes * bytes) :=
  match l with
  | [] => None
  | b :: l => if bool_decide (b = at_) then Some ([], l) else '(h, t) ← split_once at_ l; Some (b :: h, t)
  end.
Definition strip_prefix (c : byte) (l : bytes) : option bytes :=
  match l with b :: l => if bool_decide (b = c) then Some l else None | [] => None end.
Definition hex_digit_value (b : byte) : option Z :=
  let v := b2z b in
  if byte_in 48 57 v then Some (v - 48)
  else if byte_in 65 70 v then Some (v - 55)
  else if byte_in 97 102 v then Some (v - 87)
  else None.
(** [u8::from_str_radix(s, 16)] of two bytes: a plus sign may stand before a single digit. *)
Definition from_str_radix_16 (s : bytes) : option Z :=
  match s with
  | [a; b] =>
      if bool_decide (a = x2b) then hex_digit_value b
      else h ← hex_digit_value a; l ← hex_digit_value b; Some (16 * h + l)
  | _ => None
  end.
Definition xor_sum (l : bytes) : Z := foldl (λ sum b, Z.lxor sum (b2z b)) 0 l.
Definition nmea_margin : bytes := [x00; x20; x0d; x0a].

Definition decode_nmea (b : bytes) : result fault bytes :=
  text ← ok_or (from_utf8 b) (refused "NMEA encoding");
  let sentence := trim_matches nmea_margin text in
  split ← ok_or (value ← strip_prefix x24 sentence; split_once x2a value) (refused "NMEA framing");
  let '(body, check) := split in
  _ ← guard_err (negb (len check =? 2) || negb (forallb (λ b, b2z b <? 128) body) || (len body >? 1024))
        (refused "NMEA format");
  expected ← ok_or (from_str_radix_16 check) (refused "NMEA checksum encoding");
  _ ← guard_err (negb (xor_sum body =? expected)) (refused "NMEA checksum");
  Ok sentence.

Definition decode_product `{Chrono, Libm, Zlib} (message_id : Z) (b : bytes) : result fault Product :=
  _ ← guard_err (len b >? MAX_PRODUCT_BYTES) (refused "product size limit");
  if (message_id =? 0x2100) || (message_id =? 0x2101) then
    _ ← guard_err (negb (len b =? 16)) (refused "attitude length");
    ProductAttitude <$> read_all read_attitude b
  else if message_id =? 0x2200 then
    _ ← guard_err (negb (len b =? 4)) (refused "pressure length");
    ProductPressureUnverified <$> read_all read_f32 b
  else if message_id =? 0x2110 then
    _ ← guard_err (negb (len b =? 1)) (refused "attitude source length");
    raw ← index b 0;
    Ok (ProductAttitudeSource (negb (b2z raw =? 0)) (b2z raw))
  else if message_id =? 0x2010 then
    _ ← guard_err (negb (len b =? 2)) (refused "GPS source length");
    ProductGpsSource <$> read_all read_u16 b
  else if ((message_id =? 0x2001) || (message_id =? 0x2003) || (message_id =? 0x2005)) && negb (bool_decide (b = [])) then
    ProductNmea <$> decode_nmea b
  else if message_id =? 0x20000000 then ProductTraffic <$> decode_traffic b
  else match from_message_id message_id with
       | Some kind => ProductWeather <$> decode_weather kind b
       | None => Ok (ProductUninterpreted message_id (len b))
       end.
