(* ===== verification/ReceiverProductsCorrect.v ===== *)
(** * What the receiver sends: the guarantees

    Every decoder ends without a panic, accepts exactly the lengths it should, and reports
    only values in range; a grid of runs decodes to the rows it was made of. *)

From Stdlib Require Import Strings.Byte Floats.SpecFloat.

From stdpp Require Import base gmap list list_numbers strings.
From S2P Require Import Prelude Utf8 Float64 ReceiverFraming ReceiverProtocol ReceiverProducts.

Local Open Scope Z_scope.

(** ** Reading *)

Definition reader_ok (r : Reader) : Prop := 0 ≤ rd_offset r ≤ len (rd_bytes r) ∧ len (rd_bytes r) ≤ usize_max.
Definition advance (n : Z) (r : Reader) : Reader := {| rd_bytes := rd_bytes r; rd_offset := rd_offset r + n |}.

(** [m] takes [n] bytes and gives a value that satisfies [P]; it refuses when they are not there. *)
Definition reads {A} (n : Z) (m : Reading A) (P : A → Prop) : Prop :=
  0 ≤ n ∧ ∀ r, reader_ok r →
    if rd_offset r + n <=? len (rd_bytes r) then ∃ a, m r = (Ok a, advance n r) ∧ P a
    else ∃ e r', m r = (Err (Refused e), r').

(** [m] gives a value that satisfies [P] or refuses. *)
Definition total {A} (m : Reading A) (P : A → Prop) : Prop :=
  ∀ r, reader_ok r →
    match m r with (Ok a, r') => reader_ok r' ∧ P a | (Err (Refused _), _) => True | (Err _, _) => False end.
(** The same of a result. *)
Definition settled {A} (P : A → Prop) (r : result fault A) : Prop :=
  match r with Ok a => P a | Err (Refused _) => True | Err _ => False end.

Lemma advance_ok n r : reader_ok r → 0 ≤ n → rd_offset r + n ≤ len (rd_bytes r) → reader_ok (advance n r).
Proof. unfold reader_ok. simpl. lia. Qed.
Lemma reader_start b : len b ≤ usize_max → reader_ok (reader b).
Proof. unfold reader_ok. simpl. pose proof (len_nonneg b). lia. Qed.

Lemma reads_weaken {A} n (m : Reading A) (P Q : A → Prop) : (∀ a, P a → Q a) → reads n m P → reads n m Q.
Proof.
  intros HPQ [Hn Hm]. split; [done|]. intros r Hr. specialize (Hm r Hr). case_match; [|done].
  destruct Hm as (a & Ha & HP). eauto.
Qed.
Lemma reads_ret {A} (a : A) (P : A → Prop) : P a → reads 0 (mret a) P.
Proof.
  intros HP. split; [done|]. intros r Hr. unfold reader_ok in Hr. rewrite (proj2 (Z.leb_le _ _)) by lia. exists a. split; [|done].
  unfold advance. by rewrite Z.add_0_r; destruct r.
Qed.
Lemma reads_lift {A} (x : result fault A) (P : A → Prop) a : x = Ok a → P a → reads 0 (st_lift x) P.
Proof. intros ->. apply (reads_ret a). Qed.
Lemma reads_bind {A B} n k (m : Reading A) (f : A → Reading B) (P : A → Prop) (Q : B → Prop) :
  reads n m P → (∀ a, P a → reads k (f a) Q) → 0 ≤ k → reads (n + k) (m ≫= f) Q.
Proof.
  intros [Hn Hm] Hf Hk. split; [lia|]. intros r Hr. specialize (Hm r Hr). rewrite ST_bind_unfold.
  destruct (Z.leb_spec (rd_offset r + n) (len (rd_bytes r))).
  - destruct Hm as (a & -> & HP). destruct (Hf a HP) as [_ Hfa].
    specialize (Hfa (advance n r) (advance_ok n r Hr Hn ltac:(lia))). simpl in Hfa. rewrite <- Z.add_assoc in Hfa.
    case_match; [|done]. destruct Hfa as (b & -> & HQ). exists b. split; [|done]. unfold advance. simpl. by rewrite Z.add_assoc.
  - destruct Hm as (e & r' & ->). rewrite (proj2 (Z.leb_gt _ _)) by lia. eauto.
Qed.

Lemma reads_total {A} n (m : Reading A) P : reads n m P → total m P.
Proof.
  intros [Hn Hm] r Hr. specialize (Hm r Hr). destruct (Z.leb_spec (rd_offset r + n) (len (rd_bytes r))).
  - destruct Hm as (a & -> & HP). split; [by apply advance_ok|done].
  - by destruct Hm as (e & r' & ->).
Qed.
Lemma total_ret {A} (a : A) (P : A → Prop) : P a → total (mret a) P.
Proof. intros HP r Hr. by split. Qed.
Lemma total_lift {A} (x : result fault A) (P : A → Prop) : settled P x → total (st_lift x) P.
Proof. intros Hx r Hr. simpl. destruct x as [a|[]]; done. Qed.
Lemma total_bind {A B} (m : Reading A) (f : A → Reading B) (P : A → Prop) (Q : B → Prop) :
  total m P → (∀ a, P a → total (f a) Q) → total (m ≫= f) Q.
Proof.
  intros Hm Hf r Hr. specialize (Hm r Hr). rewrite ST_bind_unfold. destruct (m r) as [[a|[]] r']; try done.
  destruct Hm as [Hr' HP]. by apply Hf.
Qed.
Lemma read_all_total {A} (m : Reading A) P b : total m P → len b ≤ usize_max → settled P (read_all m b).
Proof.
  intros Hm Hb. specialize (Hm (reader b) (reader_start b Hb)). unfold read_all, settled.
  destruct (m (reader b)) as [[a|[]] r']; try done. apply Hm.
Qed.
Lemma settled_bind {A B} (x : result fault A) (f : A → result fault B) P Q :
  settled P x → (∀ a, P a → settled Q (f a)) → settled Q (x ≫= f).
Proof. destruct x as [a|[]]; simpl; eauto. Qed.
Lemma settled_weaken {A} (P Q : A → Prop) x : settled P x → (∀ a, P a → Q a) → settled Q x.
Proof. destruct x as [a|[]]; simpl; eauto. Qed.
Lemma settled_fmap {A B} (f : A → B) (P : A → Prop) (Q : B → Prop) x : settled P x → (∀ a, P a → Q (f a)) → settled Q (f <$> x).
Proof. destruct x as [a|[]]; simpl; eauto. Qed.
Lemma settled_guard (c : bool) e : settled (λ _, c = false) (guard_err c (refused e)).
Proof. by destruct c. Qed.
Lemma settled_check {A} (c : bool) e (f : unit → result fault A) P :
  (c = false → settled P (f tt)) → settled P (guard_err c (refused e) ≫= f).
Proof. destruct c; simpl; auto. Qed.
Lemma settled_or {A} (o : option A) e : settled (λ a, o = Some a) (ok_or o (refused e)).
Proof. by destruct o. Qed.

Lemma settled_fold {A B} (f : B → A → result fault B) (P : B → Prop) acc l :
  P acc → (∀ b x, P b → x ∈ l → settled P (f b x)) → settled P (try_fold f acc l).
Proof.
  revert acc. induction l as [|x l IH]; intros acc Hacc Hf; simpl; [done|]. eapply settled_bind; [apply Hf; [done|left]|].
  intros b Hb. apply IH; [done|]. intros b' y Hb' Hy. apply Hf; [done|by right].
Qed.
Lemma bind_done {A B} (x : result fault A) a (f : A → result fault B) : x = Ok a → (x ≫= f) = f a.
Proof. by intros ->. Qed.
Lemma pass_check {A} (c : bool) e (f : unit → result fault A) : c = false → (guard_err c e ≫= f) = f tt.
Proof. by intros ->. Qed.
Lemma slice_ok {A} (l : list A) n : n ≤ len l → slice_from l n = Ok (drop (Z.to_nat n) l).
Proof. intros Hn. unfold slice_from. by rewrite (proj2 (Z.leb_le _ _)). Qed.

(** *** The primitives *)

Lemma take_reads n : 0 ≤ n → reads n (read_take n) (λ data, len data = n).
Proof.
  intros Hn. split; [done|]. intros r Hr. unfold reader_ok in Hr. unfold read_take.
  destruct (Z.leb_spec (rd_offset r + n) (len (rd_bytes r))).
  - unfold checked_add. rewrite (proj2 (Z.leb_le _ _)) by lia. unfold get_range.
    rewrite !(proj2 (Z.leb_le _ _)) by lia. simpl. eexists. split; [reflexivity|]. unfold len in *.
    rewrite length_take, length_drop. lia.
  - destruct (checked_add usize_max (rd_offset r) n) as [last|] eqn:Ha; [|by eexists _, _]. apply checked_add_Some in Ha as [-> _].
    unfold get_range. destruct (Z.leb_spec (rd_offset r + n) (len (rd_bytes r))); [lia|]. rewrite andb_false_r. by eexists _, _.
Qed.
Lemma le_reads n : 0 ≤ n → reads n (read_le n) (λ v, 0 ≤ v < 256 ^ n).
Proof.
  intros Hn. unfold read_le. rewrite <- (Z.add_0_r n) at 1. eapply reads_bind; [by apply take_reads| |done]. simpl. intros data Hd.
  rewrite Hd, Z.eqb_refl. pose proof (le_value_bound data) as Hb. rewrite Hd in Hb. by apply (reads_ret (le_value data)).
Qed.
Lemma u8_reads : reads 1 read_u8 (λ v, 0 ≤ v < 256).
Proof.
  change 1 with (1 + 0). eapply reads_bind; [by apply take_reads| |done]. intros data Hd. destruct data as [|b [|? ?]]; try done.
  - apply (reads_ret (b2z b)), b2z_range.
  - apply (reads_ret (b2z b)), b2z_range.
Qed.
Lemma u16_reads : reads 2 read_u16 (λ v, 0 ≤ v < 65536).
Proof. by apply le_reads. Qed.
Lemma u32_reads : reads 4 read_u32 (λ v, 0 ≤ v < 4294967296).
Proof. by apply le_reads. Qed.
Lemma map_reads {A B} n (m : Reading A) (f : A → B) (P : A → Prop) (Q : B → Prop) :
  reads n m P → (∀ a, P a → Q (f a)) → reads n (a ← m; mret (f a)) Q.
Proof. intros Hm Hf. rewrite <- (Z.add_0_r n). eapply reads_bind; [done| |done]. intros a HP. by apply reads_ret, Hf. Qed.
Lemma i16_reads : reads 2 read_i16 (λ v, -32768 ≤ v < 32768).
Proof. eapply map_reads; [apply u16_reads|]. intros v Hv. change (-32768 ≤ (if v <? 32768 then v else v - 65536) < 32768). simpl in Hv. case_match; zbool; lia. Qed.
Lemma i32_reads : reads 4 read_i32 (λ v, -2147483648 ≤ v < 2147483648).
Proof.
  eapply map_reads; [apply u32_reads|]. intros v Hv.
  change (-2147483648 ≤ (if v <? 2147483648 then v else v - 4294967296) < 2147483648). simpl in Hv. case_match; zbool; lia.
Qed.

(** A number that is there is finite. *)
Definition finite_if_some (v : option f64) : Prop := ∀ x, v = Some x → is_finite x = true.
Lemma f32_reads : reads 4 read_f32 finite_if_some.
Proof.
  eapply map_reads; [apply u32_reads|]. intros v _ x. destruct (is_finite (f32_from_bits v)) eqn:E; [|done]. by intros [= <-].
Qed.
Lemma f64_reads : reads 8 read_f64 (λ _, True).
Proof. by eapply map_reads; [by apply le_reads|]. Qed.
Lemma half_turns_reads : reads 2 read_half_turns (λ _, True).
Proof. by eapply map_reads; [exact i16_reads|]. Qed.
Lemma text_reads n : 0 ≤ n → reads n (read_text n) (λ _, True).
Proof. intros Hn. by eapply map_reads; [by apply take_reads|]. Qed.
Lemma times_reads {A} k n (m : Reading A) P : reads n m P → reads (Z.of_nat k * n) (read_times k m) (λ l, length l = k ∧ Forall P l).
Proof.
  intros Hm. pose proof (proj1 Hm) as Hn. induction k as [|k IH]; [by apply (reads_ret [])|].
  replace (Z.of_nat (S k) * n) with (n + Z.of_nat k * n) by lia. simpl. eapply reads_bind; [exact Hm| |lia]. intros a Ha.
  eapply map_reads; [exact IH|]. intros l [Hl HP]. split; [by simpl; f_equal|by constructor].
Qed.

(** ** Traffic *)

Lemma reads_eq {A} n n' (m : Reading A) P : reads n m P → n = n' → reads n' m P.
Proof. by intros ? <-. Qed.
Lemma index_Ok {A} (l : list A) i : 0 ≤ i < len l → ∃ x, index l i = Ok x ∧ x ∈ l.
Proof.
  intros Hi. destruct (lookup_lt_is_Some_2 l (Z.to_nat i)) as [x Hx]; [unfold len in Hi; lia|]. exists x.
  unfold index, get_at. rewrite (proj2 (Z.leb_le 0 i)), Hx by lia. split; [done|by eapply list_elem_of_lookup_2].
Qed.
Lemma index_reads {A} (l : list A) i P : 0 ≤ i < len l → Forall P l → reads 0 (st_lift (index l i)) P.
Proof.
  intros Hi Hl. destruct (index_Ok l i Hi) as (x & Hx & Hin). rewrite Forall_forall in Hl. eapply reads_lift; [exact Hx|by apply Hl].
Qed.
Lemma nth_reads l i n : length l = n ∧ Forall finite_if_some l → 0 ≤ i < Z.of_nat n → reads 0 (nth_value l i) finite_if_some.
Proof. intros [<- Hl] Hi. by apply index_reads. Qed.
Lemma byte_reads (data : bytes) i n : len data = n → 0 ≤ i < n → reads 0 (st_lift (index data i)) (λ _, True).
Proof. intros <- Hi. apply index_reads; [done|]. by apply Forall_true. Qed.

Ltac reads_prim :=
  first [ exact u8_reads | exact u16_reads | exact i16_reads | exact u32_reads | exact i32_reads | exact f32_reads
        | exact f64_reads | exact half_turns_reads | apply text_reads; lia | apply take_reads; lia
        | eapply times_reads; reads_prim
        | eapply nth_reads; [eassumption|lia] | eapply byte_reads; [eassumption|lia] ].
(** Solves [reads ?n] of a sequence of primitives up to the final [mret]. *)
Ltac reads_all :=
  first [ eapply reads_bind; [reads_prim | intros ? ?; cbv beta in *; reads_all | try lia]
        | apply reads_ret ].

(** Both coordinates or none, and in range. *)
Definition position_ok (lat lon : option f64) : Prop :=
  match lat, lon with
  | Some lat, Some lon => within 90 lat = true ∧ within 180 lon = true
  | None, None => True
  | _, _ => False
  end.
Definition at_least_zero (v : option f64) : Prop := ∀ x, v = Some x → f64_le (f64_lit 0 0) x = true.
(** Shown only when the flag says that it is valid. *)
Definition shown {A} (flags bit : Z) (v : option A) : Prop := is_Some v → has_flag flags bit = true.

Record ownship_ok `{Chrono} (o : TrafficOwnship) : Prop := {
  oo_position : position_ok (to_latitude o) (to_longitude o);
  oo_speed : at_least_zero (to_ground_speed_knots o);
  oo_finite : Forall finite_if_some
    [to_time_of_applicability_seconds o; to_ground_speed_knots o; to_true_track_degrees o; to_true_heading_degrees o;
     to_pressure_altitude_feet o; to_geometric_altitude_feet o];
  oo_shown : Forall (λ x, shown (to_validity_flags o) x.1 x.2)
    [(1, to_latitude o); (1, to_longitude o); (2, to_ground_speed_knots o); (4, to_true_track_degrees o);
     (64, to_true_heading_degrees o); (8, to_pressure_altitude_feet o); (32, to_geometric_altitude_feet o)] }.
Record target_ok (t : TrafficTarget) : Prop := {
  tg_position : position_ok (tt_latitude t) (tt_longitude t);
  tg_positive : Forall at_least_zero [tt_state_age_seconds t; tt_identity_age_seconds t; tt_ground_speed_knots t];
  tg_finite : Forall finite_if_some
    [tt_state_age_seconds t; tt_identity_age_seconds t; tt_ground_speed_knots t; tt_pressure_altitude_feet t;
     tt_geometric_altitude_feet t; tt_true_direction_degrees t; tt_vertical_velocity_feet_per_minute t];
  tg_shown : Forall (λ x, shown (tt_validity_flags t) x.1 x.2)
    [(64, tt_latitude t); (64, tt_longitude t); (2, tt_ground_speed_knots t); (2048, tt_pressure_altitude_feet t);
     (4096, tt_geometric_altitude_feet t)];
  tg_named : Forall (λ x, shown (tt_validity_flags t) x.1 x.2) [(512, tt_callsign t); (1024, tt_flight_plan_id t)] }.

Lemma traffic_position_ok lat lon flags bit (p := traffic_position lat lon (has_flag flags bit)) :
  position_ok p.1 p.2 ∧ shown flags bit p.1 ∧ shown flags bit p.2.
Proof.
  unfold p, traffic_position. destruct (has_flag flags bit) eqn:Hf, (within 90 (to_degrees lat)) eqn:Ha,
    (within 180 (to_degrees lon)) eqn:Hb; cbn [andb fst snd]; split_and!; try done; by intros [? ?].
Qed.
Lemma not_below_zero_ok v : finite_if_some v → finite_if_some (not_below_zero v) ∧ at_least_zero (not_below_zero v).
Proof.
  intros Hv. unfold not_below_zero, f64_ge, at_least_zero. destruct v as [x|]; [|split; by intros ? [=]].
  destruct (f64_le (f64_lit 0 0) x) eqn:Hx; split; intros y [= <-]; auto.
Qed.
Lemma valid_value_ok flags bit v : finite_if_some v → finite_if_some (valid_value flags bit v).
Proof. unfold valid_value. case_match; [done|by intros _ ? [=]]. Qed.
Lemma valid_value_shown flags bit v : shown flags bit (valid_value flags bit v).
Proof. unfold valid_value, shown. case_match; [done|by intros [? ?]]. Qed.
Lemma not_below_zero_shown flags bit v : shown flags bit v → shown flags bit (not_below_zero v).
Proof. unfold shown, not_below_zero. intros Hv [x Hx]. apply Hv. by destruct v. Qed.
Lemma then_some_shown {A} flags bit (a : A) : shown flags bit (then_some (has_flag flags bit) a).
Proof. unfold shown, then_some. case_match; [done|by intros [? ?]]. Qed.
#[local] Hint Resolve valid_value_ok valid_value_shown not_below_zero_shown then_some_shown : aerobag.
#[local] Hint Extern 1 (finite_if_some (not_below_zero _)) => apply not_below_zero_ok : aerobag.
#[local] Hint Extern 1 (at_least_zero (not_below_zero _)) => apply not_below_zero_ok : aerobag.

Lemma ownship_reads `{Chrono} : reads 92 read_ownship ownship_ok.
Proof.
  eapply reads_eq; [unfold read_ownship; reads_all|reflexivity].
  match goal with |- context [traffic_position ?a ?b (has_flag ?f ?k)] => destruct (traffic_position_ok a b f k) as (? & ? & ?) end.
  split; simpl; [done|..]; repeat constructor; simpl; eauto with aerobag.
Qed.
Lemma target_reads : reads 148 read_target target_ok.
Proof.
  eapply reads_eq; [unfold read_target; reads_all|reflexivity].
  match goal with |- context [traffic_position ?a ?b (has_flag ?f ?k)] => destruct (traffic_position_ok a b f k) as (? & ? & ?) end.
  split; simpl; [done|..]; repeat constructor; simpl; eauto with aerobag.
Qed.

Lemma reads_run {A} n (m : Reading A) P r :
  reads n m P → reader_ok r → rd_offset r + n ≤ len (rd_bytes r) →
  ∃ a, m r = (Ok a, advance n r) ∧ reader_ok (advance n r) ∧ P a.
Proof.
  intros [Hn Hm] Hr Hl. specialize (Hm r Hr). rewrite (proj2 (Z.leb_le _ _)) in Hm by lia. destruct Hm as (a & -> & HP).
  exists a. split; [done|]. split; [by apply advance_ok|done].
Qed.

(** The number in the [n] bytes at [at_]. *)
Definition le_at (b : bytes) (at_ n : Z) : Z := le_value (take (Z.to_nat n) (drop (Z.to_nat at_) b)).
Lemma le_run n r : 0 ≤ n → reader_ok r → rd_offset r + n ≤ len (rd_bytes r) →
  read_le n r = (Ok (le_at (rd_bytes r) (rd_offset r) n), advance n r) ∧ reader_ok (advance n r).
Proof.
  intros Hn Hr Hl. split; [|by apply advance_ok]. unfold reader_ok in Hr. unfold read_le. rewrite ST_bind_unfold. unfold read_take.
  unfold checked_add. rewrite (proj2 (Z.leb_le _ usize_max)) by lia. unfold get_range. rewrite !(proj2 (Z.leb_le _ _)) by lia.
  cbn [andb]. replace (rd_offset r + n - rd_offset r) with n by lia.
  assert (len (take (Z.to_nat n) (drop (Z.to_nat (rd_offset r)) (rd_bytes r))) = n) as E.
  { unfold len in *. rewrite length_take, length_drop. lia. }
  rewrite E, Z.eqb_refl. done.
Qed.

Lemma u16_run r : reader_ok r → rd_offset r + 2 ≤ len (rd_bytes r) →
  read_u16 r = (Ok (le_at (rd_bytes r) (rd_offset r) 2), advance 2 r) ∧ reader_ok (advance 2 r).
Proof. by apply le_run. Qed.
Lemma u32_run r : reader_ok r → rd_offset r + 4 ≤ len (rd_bytes r) →
  read_u32 r = (Ok (le_at (rd_bytes r) (rd_offset r) 4), advance 4 r) ∧ reader_ok (advance 4 r).
Proof. by apply le_run. Qed.

(** [m] refuses an input with fewer than [n] bytes. *)
Definition needs {A} (n : Z) (m : Reading A) : Prop :=
  ∀ r, reader_ok r → len (rd_bytes r) < rd_offset r + n → ∃ e r', m r = (Err (Refused e), r').
Lemma needs_bind {A B} n k (m : Reading A) (f : A → Reading B) P :
  reads n m P → (∀ a, P a → needs k (f a)) → needs (n + k) (m ≫= f).
Proof.
  intros [Hn Hm] Hf r Hr Hl. specialize (Hm r Hr). rewrite ST_bind_unfold.
  destruct (Z.leb_spec (rd_offset r + n) (len (rd_bytes r))).
  - destruct Hm as (a & -> & HP). apply (Hf a HP); [by apply advance_ok|]. simpl. lia.
  - destruct Hm as (e & r' & ->). eauto.
Qed.
Lemma needs_guard {A} n c e (f : unit → Reading A) : needs n (f tt) → needs n (st_lift (guard_err c (refused e)) ≫= f).
Proof. intros Hf r Hr Hl. destruct c; [by eexists _, _|by apply Hf]. Qed.
Lemma needs_none {A} (m : Reading A) : needs 0 m.
Proof. intros r Hr Hl. unfold reader_ok in Hr. lia. Qed.
Lemma needs_eq {A} n n' (m : Reading A) : needs n m → n = n' → needs n' m.
Proof. by intros ? <-. Qed.
Ltac needs_all :=
  first [ apply needs_guard; needs_all
        | eapply needs_bind; [first [reads_prim | exact ownship_reads]|intros ? ?; cbv beta in *; needs_all]
        | apply needs_none ].

Lemma traffic_needs `{Chrono} b : needs 120 (read_traffic b).
Proof. eapply needs_eq; [unfold read_traffic; needs_all|reflexivity]. Qed.

Lemma reading_bind {A B} n (m : Reading A) (f : A → Reading B) P r (R : result fault B → Prop) :
  reads n m P → reader_ok r → rd_offset r + n ≤ len (rd_bytes r) →
  (∀ a, P a → reader_ok (advance n r) → R (f a (advance n r)).1) → R ((m ≫= f) r).1.
Proof. intros Hm Hr Hl Hf. destruct (reads_run n m P r Hm Hr Hl) as (a & E & Hr' & HP). rewrite ST_bind_unfold, E. by apply Hf. Qed.
(** Runs one primitive of the sequence at hand. *)
Ltac run_step :=
  eapply reading_bind; [first [reads_prim | exact ownship_reads] | assumption | simpl; lia | intros ? ? ?; cbv beta in *].

Definition traffic_form (b : bytes) : Prop :=
  le_at b 0 2 = 1 ∧ le_at b 2 2 = 0 ∧ le_at b 116 4 ≤ 4096 ∧ len b = 120 + 148 * le_at b 116 4.

Record traffic_ok `{Chrono} (t : Traffic) : Prop := {
  tk_ownship : ownship_ok (tf_ownship t);
  tk_age : at_least_zero (tf_age_seconds t);
  tk_finite : Forall finite_if_some [tf_age_seconds t; tf_arrival_seconds t];
  tk_targets : Forall target_ok (tf_targets t) }.

(** What is said of a report [r] of [b]. *)
Definition traffic_outcome `{Chrono} (b : bytes) (r : result fault Traffic) : Prop :=
  match r with
  | Ok t => traffic_form b ∧ traffic_ok t ∧ len (tf_targets t) = le_at b 116 4
  | Err (Refused _) => ¬ traffic_form b
  | Err _ => False
  end.

Lemma traffic_run `{Chrono} b : 120 ≤ len b ≤ usize_max → traffic_outcome b (decode_traffic b).
Proof.
  intros Hl. assert (reader_ok (reader b)) as Hok by (apply reader_start; lia). unfold decode_traffic, read_all, read_traffic.
  rewrite ST_bind_unfold. destruct (u16_run (reader b)) as [-> Hr]; [done|simpl; lia|].
  change (le_at (rd_bytes (reader b)) (rd_offset (reader b)) 2) with (le_at b 0 2). rewrite ST_bind_unfold. unfold st_lift at 1.
  destruct (Z.eqb_spec (le_at b 0 2) 1) as [H1|H1]; cbn [negb guard_err]; [|simpl; unfold traffic_form; naive_solver].
  rewrite ST_bind_unfold. destruct (u16_run (advance 2 (reader b))) as [-> Hr']; [done|simpl; lia|].
  change (le_at (rd_bytes _) (rd_offset _) 2) with (le_at b 2 2). rewrite ST_bind_unfold. unfold st_lift at 1.
  destruct (Z.eqb_spec (le_at b 2 2) 0) as [H2|H2]; cbn [negb guard_err]; [|simpl; unfold traffic_form; naive_solver].
  do 14 run_step. rewrite ST_bind_unfold.
  match goal with |- context [read_u32 ?r] => destruct (u32_run r) as [-> Hr'']; [done|simpl; lia|] end.
  change (le_at (rd_bytes _) (rd_offset _) 4) with (le_at b 116 4). rewrite ST_bind_unfold. unfold st_lift at 1.
  assert (0 ≤ le_at b 116 4) as Hn by (apply le_value_bound). unfold TARGET_LIMIT, traffic_outcome.
  destruct (_ || _) eqn:Hg; cbn [guard_err fst].
  { intros (_ & _ & Hc & Hlen). apply orb_true_iff in Hg. rewrite negb_true_iff, Z.eqb_neq in Hg. lia. }
  apply orb_false_iff in Hg as [Hc Hlen]. rewrite negb_false_iff, Z.eqb_eq in Hlen.
  eapply (reading_bind _ _ _ _ _ (traffic_outcome b)); [apply times_reads, target_reads|done|simpl; lia|].
  intros targets [Ht Hall] _. split; [by unfold traffic_form; split_and!; [done..|lia|lia]|]. split; [|simpl; unfold len; lia].
  split; simpl; eauto with aerobag.
Qed.

Lemma traffic_decides `{Chrono} (b : bytes) : len b ≤ usize_max → traffic_outcome b (decode_traffic b).
Proof.
  intros Hl. destruct (Z.leb_spec 120 (len b)); [by apply traffic_run|].
  destruct (traffic_needs b (reader b)) as (e & r' & E); [by apply reader_start|simpl; lia|].
  unfold decode_traffic, read_all. rewrite E. intros (_ & _ & _ & Hlen). assert (0 ≤ le_at b 116 4) by apply le_value_bound. lia.
Qed.

(** C36: a traffic report is accepted exactly when its version is supported, it announces at most
    4096 targets and has their length; then every target is there, coordinates, speeds and
    ages are in range, numbers finite, and what a validity flag does not cover is not shown. *)
Theorem traffic_exact `{Chrono} (b : bytes) : len b ≤ usize_max → traffic_outcome b (decode_traffic b).
Proof. apply traffic_decides. Qed.

(** ** Decompression *)

(** What flate2 documents of its counters. *)
Class ZlibLaws `{Zlib} := {
  new_in : total_in decompress_new = 0;
  new_out : total_out decompress_new = 0;
  decompress_counts d input room stream_end written d' :
    decompress d input room = Some (stream_end, written, d') → 0 ≤ room →
    total_in d ≤ total_in d' ≤ total_in d + len input ∧ total_out d' = total_out d + len written ∧ len written ≤ room }.

(** A loop whose measure falls in every round ends. *)
Lemma rounds_end {S R} (body : S → round S R) (I : S → Prop) (μ : S → Z) (Q : R → Prop) k s :
  (∀ s, I s → match body s with Running s' => I s' ∧ 0 ≤ μ s' < μ s | Done r => Q r end) →
  I s → match rounds k body s with Running s' => I s' ∧ 0 ≤ μ s' ≤ μ s - 2 ^ Z.of_nat k | Done r => Q r end.
Proof.
  intros Hbody. revert s. induction k as [|k IH]; intros s Hs; cbn [rounds].
  - specialize (Hbody s Hs). destruct (body s); [|done]. destruct Hbody. split; [done|]. simpl. lia.
  - specialize (IH s Hs) as H1. destruct (rounds k body s) as [s1|r]; [|done]. destruct H1 as [Hs1 Hm1].
    specialize (IH s1 Hs1). destruct (rounds k body s1) as [s2|r]; [|done]. destruct IH as [Hs2 Hm2]. split; [done|].
    rewrite Nat2Z.inj_succ, Z.pow_succ_r by lia. lia.
Qed.

Section inflate.
Context `{ZlibLaws}.

Definition inflating_ok (b : bytes) (limit : Z) (s : Inflating) : Prop :=
  0 ≤ total_in (if_decoder s) ≤ len b ∧ len (if_output s) ≤ limit ∧ len (if_buffer s) = BUFFER_BYTES.
Definition left_to_do (b : bytes) (limit : Z) (s : Inflating) : Z :=
  (len b - total_in (if_decoder s)) + (limit - len (if_output s)).

Lemma inflate_round_ok b limit s : inflating_ok b limit s →
  match inflate_round b limit s with
  | Running s' => inflating_ok b limit s' ∧ 0 ≤ left_to_do b limit s' < left_to_do b limit s
  | Done r => settled (λ out, len out ≤ limit) r
  end.
Proof.
  intros (Hin & Hout & Hbuf). unfold inflate_round. rewrite slice_ok by lia.
  destruct (decompress _ _ _) as [[[stream_end written] d]|] eqn:Hd; [|done].
  destruct (decompress_counts _ _ _ _ _ _ Hd) as (Hi & Ho & Hw); [done|]. unfold len in Hi at 1. rewrite length_drop in Hi.
  replace (total_out d - total_out (if_decoder s)) with (len written) by lia.
  destruct (Z.gtb_spec (len (if_output s) + len written) limit) as [|Hle]; [done|].
  assert (get_range (written ++ drop (length written) (if_buffer s)) 0 (len written) = Some written) as ->.
  { apply (get_range_app [] written); [done|lia]. }
  assert (len (if_output s ++ written) ≤ limit) as Hlim by (rewrite len_app; lia).
  destruct stream_end; [by destruct (negb _)|]. destruct (_ && _) eqn:Hstuck; [done|].
  apply andb_false_iff in Hstuck. rewrite !Z.eqb_neq in Hstuck. pose proof (len_nonneg written). unfold inflating_ok, left_to_do. simpl.
  unfold len in *. rewrite !length_app, length_drop. lia.
Qed.

(** Decompressing ends, with at most [limit] bytes. *)
Lemma inflate_ok b limit : len b ≤ MAX_PRODUCT_BYTES → 0 ≤ limit ≤ MAX_PRODUCT_BYTES →
  settled (λ out, len out ≤ limit) (inflate b limit).
Proof.
  intros Hb Hl. unfold inflate. set (s := Build_Inflating _ _ _ _).
  assert (inflating_ok b limit s) as Hs.
  { unfold inflating_ok, s. cbn [if_decoder if_output if_buffer]. rewrite new_in. change (len (@nil byte)) with 0. pose proof (len_nonneg b).
    split_and!; try lia. unfold len. by rewrite length_replicate. }
  pose proof (rounds_end _ _ (left_to_do b limit) _ 27 s (inflate_round_ok b limit) Hs) as Hr.
  destruct (rounds 27 _ s) as [s'|r]; [|done]. destruct Hr as [_ Hm].
  assert (left_to_do b limit s = len b + limit) as E.
  { unfold left_to_do, s. cbn [if_decoder if_output]. rewrite new_in. change (len (@nil byte)) with 0. lia. }
  rewrite E in Hm. change (2 ^ Z.of_nat 27) with 134217728 in Hm. unfold MAX_PRODUCT_BYTES in *. lia.
Qed.
End inflate.

(** ** Weather *)

Lemma partial_utc_total : total read_partial_utc (λ t, partial_utc_ok t = true).
Proof.
  repeat (eapply total_bind; [eapply reads_total, u8_reads|intros ? ?]). eapply total_bind; [apply total_lift, settled_guard|].
  intros [] Hg%negb_false_iff. by apply total_ret.
Qed.

(** A row is filled exactly, in front of nothing. *)
Lemma radar_row_total fuel columns filled grid : filled ≤ columns → columns - filled ≤ Z.of_nat fuel →
  total (radar_row fuel columns filled grid) (λ g, ∃ row, g = grid ++ row ∧ len row = columns - filled).
Proof.
  revert filled grid. induction fuel as [|fuel IH]; intros filled grid Hf Hn; cbn [radar_row];
    destruct (Z.ltb_spec filled columns); try (apply total_ret; exists []; rewrite app_nil_r; split; [done|rewrite len_nil; lia]); [lia|].
  eapply total_bind; [eapply reads_total, u16_reads|intros length Hl].
  eapply total_bind; [eapply reads_total, u8_reads|intros value _]. cbv beta in Hl.
  destruct (_ || _) eqn:Hg; [by apply (total_lift (Err (refused "radar run width")))|].
  apply orb_false_iff in Hg as [H0 H1]. rewrite Z.eqb_neq in H0. rewrite Z.gtb_ltb, Z.ltb_ge in H1.
  intros r Hr. specialize (IH (filled + length) (grid ++ replicate (Z.to_nat length) (z2b value)) H1 ltac:(lia) r Hr).
  destruct (radar_row _ _ _ _ r) as [[g|[]] r']; try done. destruct IH as (Hr' & row & -> & Hrow). split; [done|].
  eexists. rewrite <- app_assoc. split; [reflexivity|]. rewrite len_app. unfold len at 1. rewrite length_replicate. lia.
Qed.

Lemma decode_row_ok columns runs offsets grid row : 0 ≤ columns → len runs ≤ usize_max → len offsets ≤ usize_max →
  0 ≤ row → row * 4 ≤ len offsets →
  settled (λ g, ∃ cells, g = grid ++ cells ∧ len cells = columns) (decode_row columns runs offsets grid row).
Proof.
  intros Hc Hr Ho Hrow Hl. unfold decode_row. rewrite slice_ok by lia. simpl.
  eapply settled_bind; [eapply read_all_total; [eapply reads_total, u32_reads|]|].
  { unfold len in *. rewrite length_drop. lia. }
  intros start _. eapply settled_bind; [apply settled_or|]. intros rest (Hlen & ? & ?)%get_range_len.
  eapply settled_weaken; [eapply read_all_total; [apply radar_row_total; lia|lia]|]. intros g (cells & -> & Hcells). exists cells. split; [done|lia].
Qed.

Lemma decode_rows_ok columns runs offsets rows n grid : 0 ≤ columns → len runs ≤ usize_max → len offsets ≤ usize_max →
  0 ≤ n → (n + Z.of_nat rows) * 4 ≤ len offsets →
  settled (λ g, len g = len grid + columns * Z.of_nat rows) (try_fold (decode_row columns runs offsets) grid (seqZ n (Z.of_nat rows))).
Proof.
  intros Hc Hr Ho. revert n grid. induction rows as [|rows IH]; intros n grid Hn Hl; [simpl; lia|].
  rewrite Nat2Z.inj_succ, seqZ_cons by lia. rewrite Z.pred_succ. simpl.
  eapply settled_bind; [apply decode_row_ok; lia|]. intros g (cells & -> & Hcells).
  eapply settled_weaken; [apply IH; lia|]. simpl. intros g ->. rewrite len_app. lia.
Qed.

(** A radar image has the dates and the geometry it may have, and a value for every cell. *)
Record radar_ok `{Libm} (r : Radar) : Prop := {
  ro_times : partial_utc_ok (ra_issue_time r) = true ∧ partial_utc_ok (ra_precipitation_time r) = true;
  ro_size : 0 < ra_columns r * ra_rows r ≤ 16 * 1024 * 1024;
  ro_cells : len (ra_grid r) = ra_columns r * ra_rows r;
  ro_geometry : bad_geometry r = false;
  ro_extent : bad_extent r = false }.

Lemma radar_header_total kind : total (read_radar_header kind) (λ h,
  ra_kind h = kind ∧ partial_utc_ok (ra_issue_time h) = true ∧ partial_utc_ok (ra_precipitation_time h) = true
  ∧ 0 ≤ ra_columns h < 65536 ∧ 0 ≤ ra_rows h < 65536).
Proof.
  assert (total read_angle (λ _, True)) as Hangle by (by eapply reads_total, map_reads; [exact i32_reads|]).
  unfold read_radar_header. do 2 (eapply total_bind; [exact Hangle|intros ? _]).
  do 2 (eapply total_bind; [exact partial_utc_total|intros ? ?]). eapply total_bind; [exact Hangle|intros ? _].
  do 4 (eapply total_bind; [eapply reads_total, u16_reads|intros ? ?]). by apply total_ret.
Qed.

Section weather.
Context `{Libm} `{ZlibLaws}.

Lemma part_at (parts : list bytes) i bound : 0 ≤ i < len parts → Forall (λ p, len p ≤ bound) parts →
  settled (λ p, len p ≤ bound) (index parts i).
Proof. intros Hi Hall. destruct (index_Ok parts i Hi) as (p & -> & Hin). rewrite Forall_forall in Hall. by apply Hall. Qed.

Lemma rest_of_limit n : n ≤ MAX_PRODUCT_BYTES → 0 ≤ n → wrap64 (MAX_PRODUCT_BYTES - n) = MAX_PRODUCT_BYTES - n.
Proof. intros. unfold wrap64. apply Z.mod_small. unfold MAX_PRODUCT_BYTES in *. lia. Qed.

Lemma decode_radar_ok kind parts : Forall (λ p, len p ≤ MAX_PRODUCT_BYTES) parts →
  settled (λ r, radar_ok r ∧ ra_kind r = kind) (decode_radar kind parts).
Proof.
  intros Hp. unfold decode_radar. apply settled_check. intros Hn%negb_false_iff%Z.eqb_eq.
  eapply settled_bind; [apply part_at; [lia|done]|intros part0 Hp0].
  apply settled_check. intros _.
  assert (MAX_PRODUCT_BYTES ≤ usize_max) as Hmax by done.
  eapply settled_bind; [eapply read_all_total; [apply radar_header_total|cbv beta in *; lia]|].
  intros h (Hk & Ht1 & Ht2 & Hc & Hr). apply settled_check. intros Hgeo.
  eapply settled_bind; [apply part_at; [lia|done]|intros part1 Hp1].
  eapply settled_bind; [apply inflate_ok; [done|done]|intros runs Hruns]. pose proof (len_nonneg runs).
  eapply settled_bind; [apply part_at; [lia|done]|intros part2 Hp2]. cbv beta in Hruns.
  rewrite rest_of_limit by done.
  eapply settled_bind; [apply inflate_ok; [done|lia]|intros offsets Hoff]. cbv beta in Hoff.
  apply settled_check. intros Hsize.
  assert (ra_rows h * 4 ≤ len offsets).
  { apply andb_false_iff in Hsize. rewrite !negb_false_iff, !Z.eqb_eq in Hsize. lia. }
  rewrite <- (Z2Nat.id (ra_rows h)) at 1 by lia.
  eapply settled_bind; [apply decode_rows_ok; lia|intros grid Hgrid]. rewrite len_nil, Z2Nat.id in Hgrid by lia.
  apply settled_check. intros Hext. split; [|done].
  pose proof Hgeo as Hsz. unfold bad_geometry in Hsz. rewrite !orb_false_iff, Z.eqb_neq, Z.gtb_ltb, Z.ltb_ge in Hsz.
  split; simpl; [done| |lia|done|done]. split; [|by apply Hsz]. nia.
Qed.

Lemma chunks_loop_ok fuel n l : Forall (λ c : bytes, length c = n) (chunks_exact_loop fuel n l).
Proof.
  revert l. induction fuel as [|fuel IH]; intros l; simpl; [constructor|]. destruct (Nat.ltb_spec (length l) n); constructor; [|done].
  rewrite length_take. lia.
Qed.
Lemma chunks_ok n l : 0 ≤ n → Forall (λ c, len c = n) (chunks_exact n l).
Proof. intros Hn. eapply Forall_impl; [apply chunks_loop_ok|]. unfold len. simpl. intros c ->. lia. Qed.

Lemma skip_while_length {A} (p : A → bool) l : (length (skip_while p l) ≤ length l)%nat.
Proof. induction l as [|x l IH]; simpl; [done|]. destruct (p x); simpl; lia. Qed.
Lemma trim_length set s : len (trim_matches set s) ≤ len s.
Proof.
  unfold trim_matches, len. rewrite length_reverse.
  match goal with |- context [skip_while ?p (reverse ?l)] =>
    pose proof (skip_while_length p (reverse l)) as Hrev; rewrite length_reverse in Hrev; pose proof (skip_while_length p s) end. lia.
Qed.

(** The reports of a text product: how long the texts are, and who has which fields. *)
Definition text_total (reports : list TextReport) : Z := foldr (λ r sum, len (tr_text r) + sum) 0 reports.
Definition report_ok (kind : WeatherKind) (max_text : Z) (r : TextReport) : Prop :=
  len (tr_text r) ≤ max_text ∧ (is_Some (tr_station r) ↔ kind ∈ [Metar; Taf; Winds])
  ∧ (is_Some (tr_notam_identifier r) ↔ kind = Notam) ∧ (is_Some (tr_record_type_raw r) ↔ kind = Notam).
Definition entries_ok (kind : WeatherKind) (max_text : Z) (acc : Z * list TextReport) : Prop :=
  0 ≤ acc.1 ≤ MAX_PRODUCT_BYTES ∧ text_total acc.2 ≤ acc.1 ∧ Forall (report_ok kind max_text) acc.2.

Lemma text_total_app l r : text_total (l ++ [r]) = text_total l + len (tr_text r).
Proof. unfold text_total. induction l as [|x l IH]; simpl; [lia|]. rewrite IH. lia. Qed.

Lemma station_ok kind entry : len entry ≤ usize_max → settled (λ s, is_Some s ↔ kind ∈ [Metar; Taf; Winds])
  (if bool_decide (kind ∈ [Metar; Taf; Winds]) then Some <$> read_all (read_text 4) entry else Ok None).
Proof.
  intros He. case_bool_decide as Hk; [|by split; [intros [? ?]|]].
  eapply settled_fmap; [eapply read_all_total; [eapply reads_total, text_reads; lia|done]|]. by intros.
Qed.
Lemma identifier_ok kind entry : 1 ≤ len entry ≤ usize_max →
  settled (λ n, (is_Some n.1 ↔ kind = Notam) ∧ (is_Some n.2 ↔ kind = Notam))
    (if bool_decide (kind = Notam) then
       rest ← slice_from entry 1;
       identifier ← read_all (read_text 15) rest;
       record_type ← index entry 0;
       Ok (Some identifier, Some record_type)
     else Ok (None, None)).
Proof.
  intros He. case_bool_decide as Hk; [|by split; (split; [intros [? ?]|])]. rewrite slice_ok by lia. simpl.
  eapply settled_bind; [eapply read_all_total; [eapply reads_total, text_reads; lia|]|].
  { unfold len in *. rewrite length_drop. lia. }
  intros identifier _. destruct (index_Ok entry 0) as (x & -> & _); [lia|]. simpl. by split.
Qed.

Lemma decode_entry_ok kind pointer_offset max_text text acc entry :
  entries_ok kind max_text acc → 0 ≤ pointer_offset ≤ len entry → 1 ≤ len entry ≤ usize_max →
  settled (entries_ok kind max_text) (decode_entry kind pointer_offset max_text text acc entry).
Proof.
  destruct acc as [copied reports]. intros (Hc & Ht & Hall) Hp He. unfold decode_entry. rewrite (slice_ok entry pointer_offset) by lia. simpl.
  eapply settled_bind; [eapply (read_all_total _ (λ p, 0 ≤ p.1 ∧ 0 ≤ p.2))|].
  { eapply total_bind; [eapply reads_total, u32_reads|intros length Hl]. eapply total_bind; [eapply reads_total, u32_reads|intros offset Ho].
    apply total_ret. simpl in *. lia. }
  { unfold len in *. rewrite length_drop. lia. }
  intros [length offset] [Hl Ho]. simpl in Hl, Ho.
  eapply settled_bind; [apply settled_or|]. intros copied' [-> _]%checked_add_Some. apply settled_check. intros Hg.
  apply orb_false_iff in Hg. rewrite !Z.gtb_ltb, !Z.ltb_ge in Hg.
  eapply settled_bind; [apply settled_or|]. intros last [-> _]%checked_add_Some.
  eapply settled_bind; [apply settled_or|]. intros raw (Hraw & _)%get_range_len.
  eapply settled_bind; [apply settled_or|]. intros raw' Hutf. unfold from_utf8 in Hutf. case_match; simplify_eq.
  eapply settled_bind; [apply station_ok; lia|]. intros station Hst.
  eapply settled_bind; [apply identifier_ok; lia|]. intros [identifier record_type] [Hid Hrt].
  pose proof (trim_length text_margin raw'). split; [simpl in *; lia|]. split; [cbn [fst snd] in *; rewrite text_total_app; simpl; lia|].
  apply Forall_app. split; [done|]. constructor; [|constructor]. split; [simpl; lia|done].
Qed.

Definition weather_ok (kind : WeatherKind) (w : Weather) : Prop :=
  match w with
  | WeatherEmpty k => k = kind
  | WeatherText k issue_time reports more =>
      k = kind ∧ partial_utc_ok issue_time = true ∧ Forall (report_ok kind 6095) reports
      ∧ text_total reports ≤ MAX_PRODUCT_BYTES ∧ (more ≠ [] → kind = Notam)
  | WeatherRadar r => radar_ok r ∧ ra_kind r = kind
  | WeatherUninterpreted k status _ => k = kind ∧ len status = 4
  end.

Lemma layout_ok kind : kind ∉ [GraphicalMetar; Sua; RegionalRadar; ConusRadar] →
  ∃ size pointer max_text at_ width, text_layout kind = Ok (size, pointer, max_text, at_, width)
    ∧ 0 ≤ pointer ≤ size ∧ 1 ≤ size ≤ usize_max ∧ max_text ≤ 6095 ∧ 3 ≤ at_.
Proof. intros Hk. destruct kind; try (destruct Hk; set_solver); eexists _, _, _, _, _; split; (reflexivity || done). Qed.

Lemma decode_text_ok kind parts : kind ∉ [GraphicalMetar; Sua; RegionalRadar; ConusRadar] →
  Forall (λ p, len p ≤ MAX_PRODUCT_BYTES) parts → settled (weather_ok kind) (decode_text kind parts).
Proof.
  intros Hk Hp. destruct (layout_ok kind Hk) as (size & pointer & max_text & at_ & width & E & Hptr & Hsize & Hmax & Hat).
  unfold decode_text. rewrite E. cbn [mbind result_bind]. apply settled_check. intros Hn. apply orb_false_iff in Hn as [Hn Hmore].
  rewrite Z.ltb_ge in Hn. assert (MAX_PRODUCT_BYTES ≤ usize_max) as Hbig by done.
  eapply settled_bind; [apply part_at; [lia|done]|intros part0 Hp0]. cbv beta in Hp0.
  eapply settled_bind; [eapply (read_all_total _ (λ m, partial_utc_ok m.1 = true)); [|lia]|intros [issue_time count] Hutc].
  { eapply total_bind; [exact partial_utc_total|intros t Ht]. eapply total_bind; [eapply reads_total, take_reads; lia|intros _ _].
    eapply (total_bind _ _ (λ _, True)); [|by intros; apply total_ret].
    repeat case_match; (eapply reads_total, reads_weaken; [by intros|first [exact u8_reads|exact u16_reads|exact u32_reads]]). }
  eapply settled_bind; [apply part_at; [lia|done]|intros part1 Hp1].
  eapply settled_bind; [apply inflate_ok; [done|done]|intros index_bytes Hi]. cbv beta in Hi. pose proof (len_nonneg index_bytes).
  eapply settled_bind; [apply part_at; [lia|done]|intros part2 Hp2]. rewrite rest_of_limit by done.
  eapply settled_bind; [apply inflate_ok; [done|lia]|intros text _]. apply settled_check. intros _.
  eapply settled_bind; [|intros acc Hacc; rewrite slice_ok by lia; simpl].
  - apply (settled_fold _ (entries_ok kind max_text)); [by repeat constructor|]. intros acc entry Hacc Hin.
    pose proof (chunks_ok size index_bytes ltac:(lia)) as Hch. rewrite Forall_forall in Hch. apply Hch in Hin.
    apply decode_entry_ok; [done|lia|lia].
  - destruct Hacc as (Hc & Ht & Hall). split_and!; try done; [|lia|].
    + eapply Forall_impl; [exact Hall|]. intros r [Hr ?]. split; [lia|done].
    + intros Hd. apply andb_false_iff in Hmore as [Hm|Hm].
      * by apply negb_false_iff, bool_decide_eq_true in Hm.
      * apply negb_false_iff, Z.eqb_eq in Hm. destruct Hd. apply drop_ge. unfold len in Hm. simpl. lia.
Qed.

Lemma segment_total_le sizes total : Forall (λ n, 0 ≤ n) sizes → segment_total sizes = Some total → Forall (λ n, n ≤ total) sizes.
Proof.
  unfold segment_total. intros Hs.
  assert (∀ acc, 0 ≤ acc → foldl (λ sum n, s ← sum; checked_add usize_max s n) (Some acc) sizes = Some total →
    acc ≤ total ∧ Forall (λ n, n ≤ total) sizes) as Hgen.
  { induction sizes as [|n sizes IH]; intros acc Ha; simpl; [intros [= ->]; by split|]. apply Forall_cons in Hs as [Hn Hs].
    destruct (checked_add usize_max acc n) as [acc'|] eqn:E.
    - apply checked_add_Some in E as [-> _]. intros Hf. destruct (IH Hs (acc + n)) as [Hle Hall]; [lia|done|]. split; [lia|].
      constructor; [lia|done].
    - intros Hf. exfalso. clear -Hf. induction sizes; simpl in Hf; [done|auto]. }
  intros Ht. by apply (Hgen 72).
Qed.
Lemma take_segments_total sizes bound : Forall (λ n, 0 ≤ n) sizes → Forall (λ n, n ≤ bound) sizes →
  total (take_segments sizes) (Forall (λ p, len p ≤ bound)).
Proof.
  intros Hpos Hb. induction sizes as [|n sizes IH]; [by apply total_ret|]. apply Forall_cons in Hpos as [Hn Hpos], Hb as [Hnb Hb]. simpl.
  destruct (n =? 0); [by apply IH|]. eapply total_bind; [eapply reads_total, take_reads; lia|intros part Hp].
  eapply total_bind; [by apply IH|intros parts Hps]. apply total_ret. constructor; [cbv beta in Hp; lia|done].
Qed.

Lemma container_total b : total (read_container b) (λ x, len x.1 = 4 ∧ Forall (λ p, len p ≤ len b) x.2).
Proof.
  unfold read_container. eapply total_bind; [eapply reads_total, take_reads; lia|intros status Hs]. cbv beta in Hs.
  do 4 (eapply total_bind; [eapply reads_total, byte_reads; [exact Hs|lia]|intros ? _]).
  eapply total_bind; [apply total_lift, settled_guard|intros _ _].
  eapply total_bind; [eapply reads_total, u32_reads|intros ? _]. eapply total_bind; [apply total_lift, settled_guard|intros _ _].
  unfold read_segments. eapply (total_bind _ _ (Forall (λ p, len p ≤ len b))); [|intros parts Hparts; by apply total_ret].
  eapply total_bind; [eapply reads_total, times_reads, u32_reads|intros sizes [_ Hsizes]].
  assert (Forall (λ n, 0 ≤ n) sizes) as Hpos by (eapply Forall_impl; [exact Hsizes|]; simpl; lia).
  eapply total_bind; [apply total_lift, settled_or|intros sum Ht].
  eapply (total_bind _ _ (λ _, sum = len b)).
  { apply total_lift. eapply settled_weaken; [apply settled_guard|]. intros [] Hg. by apply negb_false_iff, Z.eqb_eq in Hg. }
  intros _ <-. apply take_segments_total; [done|]. by apply segment_total_le.
Qed.

Lemma decode_weather_ok kind b : len b ≤ MAX_PRODUCT_BYTES → settled (weather_ok kind) (decode_weather kind b).
Proof.
  intros Hb. unfold decode_weather. case_bool_decide; [done|]. apply settled_check. intros _.
  assert (MAX_PRODUCT_BYTES ≤ usize_max) as Hbig by done.
  eapply settled_bind; [eapply read_all_total; [apply container_total|lia]|]. intros [status parts] [Hs Hp]. simpl in Hs, Hp.
  assert (Forall (λ p, len p ≤ MAX_PRODUCT_BYTES) parts) as Hparts by (eapply Forall_impl; [exact Hp|]; simpl; lia).
  destruct (index_Ok status 2) as (s2 & -> & _); [lia|]. simpl. destruct (_ || _) eqn:Hu; [done|].
  apply orb_false_iff in Hu as [_ Hu]. apply bool_decide_eq_false in Hu. case_bool_decide as Hr.
  - eapply settled_fmap; [by apply decode_radar_ok|]. by intros r Hrad.
  - apply decode_text_ok; [|done]. set_solver.
Qed.
End weather.

(** ** Products *)

(** Angles are shown as far as the status says. *)
Definition attitude_ok (a : Attitude) : Prop :=
  Forall (λ x, shown (at_status a) x.1 x.2)
    [(1, at_track_or_heading_degrees a); (2, at_pitch_degrees a); (4, at_roll_degrees a)].
Lemma attitude_reads : reads 16 read_attitude attitude_ok.
Proof.
  eapply reads_eq; [unfold read_attitude; reads_all|reflexivity]. repeat constructor; apply then_some_shown.
Qed.

(** A sentence with its checksum. *)
Definition nmea_ok (sentence : bytes) : Prop :=
  ∃ body check, sentence = [x24] ++ body ++ [x2a] ++ check ∧ x2a ∉ body ∧ len body ≤ 1024
    ∧ forallb (λ b, b2z b <? 128) body = true ∧ len check = 2 ∧ from_str_radix_16 check = Some (xor_sum body).
Lemma split_once_Some c l h t : split_once c l = Some (h, t) → l = h ++ [c] ++ t ∧ c ∉ h.
Proof.
  revert h. induction l as [|b l IH]; intros h; simpl; [done|]. case_bool_decide as Hb.
  - intros [= <- <-]. subst. split; [done|]. apply not_elem_of_nil.
  - destruct (split_once c l) as [[h' t']|]; simpl; [|done]. intros [= <- <-]. destruct (IH h' eq_refl) as [-> Hn].
    split; [done|]. apply not_elem_of_cons. split; [congruence|done].
Qed.
Lemma decode_nmea_ok b : settled nmea_ok (decode_nmea b).
Proof.
  unfold decode_nmea. eapply settled_bind; [apply settled_or|intros text _].
  eapply settled_bind; [apply settled_or|]. intros [body check] Hsplit. destruct (strip_prefix _ _) as [value|] eqn:Hp; [|done].
  simpl in Hsplit. apply split_once_Some in Hsplit as [-> Hn]. apply settled_check. intros Hg.
  rewrite !orb_false_iff, !negb_false_iff, Z.eqb_eq, Z.gtb_ltb, Z.ltb_ge in Hg. destruct Hg as [[Hc Ha] Hl].
  eapply settled_bind; [apply settled_or|intros expected He]. apply settled_check. intros Hx%negb_false_iff%Z.eqb_eq.
  exists body, check. split_and!; try done; [|by rewrite Hx].
  unfold strip_prefix in Hp. destruct (trim_matches _ _) as [|c l]; [done|]. case_bool_decide; [|done]. by simplify_eq.
Qed.

Definition product_ok `{Chrono, Libm} (message_id : Z) (b : bytes) (p : Product) : Prop :=
  match p with
  | ProductAttitude a => attitude_ok a
  | ProductPressureUnverified raw => finite_if_some raw
  | ProductAttitudeSource external raw => 0 ≤ raw < 256 ∧ external = negb (raw =? 0)
  | ProductGpsSource product_id => 0 ≤ product_id < 65536
  | ProductNmea sentence => nmea_ok sentence
  | ProductTraffic t => traffic_form b ∧ traffic_ok t ∧ len (tf_targets t) = le_at b 116 4
  | ProductWeather w => ∃ kind, from_message_id message_id = Some kind ∧ weather_ok kind w
  | ProductUninterpreted i n => i = message_id ∧ n = len b
  end.

Lemma decode_traffic_settled `{Chrono} b : len b ≤ usize_max →
  settled (λ t, traffic_form b ∧ traffic_ok t ∧ len (tf_targets t) = le_at b 116 4) (decode_traffic b).
Proof. intros Hb. pose proof (traffic_decides b Hb) as Ht. by destruct (decode_traffic b) as [t|[]]. Qed.

(** C18: whatever the receiver sends, decoding it ends without a panic, and what it reports is in
    range: coordinates, speeds and ages, dates, checksums, the lengths of texts and
    the number of cells of a radar image. *)
Theorem products_settled `{Chrono, Libm} `{ZlibLaws} (message_id : Z) (b : bytes) :
  len b ≤ usize_max → settled (product_ok message_id b) (decode_product message_id b).
Proof.
  intros Hb. unfold decode_product. apply settled_check. intros Hm. rewrite Z.gtb_ltb, Z.ltb_ge in Hm.
  case_match. { apply settled_check. intros _. eapply settled_fmap; [eapply read_all_total; [eapply reads_total, attitude_reads|done]|done]. }
  case_match. { apply settled_check. intros _. eapply settled_fmap; [eapply read_all_total; [eapply reads_total, f32_reads|done]|done]. }
  case_match. { apply settled_check. intros Hl%negb_false_iff%Z.eqb_eq. destruct (index_Ok b 0) as (x & -> & _); [lia|].
    split; [apply b2z_range|done]. }
  case_match. { apply settled_check. intros _. eapply settled_fmap; [eapply read_all_total; [eapply reads_total, u16_reads|done]|done]. }
  case_match. { eapply settled_fmap; [apply decode_nmea_ok|done]. }
  case_match. { eapply settled_fmap; [by apply decode_traffic_settled|done]. }
  destruct (from_message_id message_id) as [kind|] eqn:Hk; [|done].
  eapply settled_fmap; [by apply decode_weather_ok|]. intros w Hw. by exists kind.
Qed.

(** ** Radar images read back *)

(** A row as runs of a length and a value; how it is written and what it stands for. *)
Definition encode_run (run : Z * byte) : bytes := le_bytes 2 run.1 ++ [run.2].
Definition encode_row (row : list (Z * byte)) : bytes := concat (encode_run <$> row).
Definition row_cells (row : list (Z * byte)) : bytes := concat ((λ run, replicate (Z.to_nat run.1) run.2) <$> row).
Definition encode_runs (rows : list (list (Z * byte))) : bytes := concat (encode_row <$> rows).
(** Where each row starts. *)
Definition encode_offsets (rows : list (list (Z * byte))) : bytes :=
  concat ((λ i, le_bytes 4 (len (encode_runs (take i rows)))) <$> seq 0 (length rows)).
Definition row_fits (columns : Z) (row : list (Z * byte)) : Prop :=
  Forall (λ run, 0 < run.1 < 65536) row ∧ len (row_cells row) = columns.

Lemma le_at_app pre n v post : 0 ≤ v < 256 ^ Z.of_nat n → le_at (pre ++ le_bytes n v ++ post) (len pre) (Z.of_nat n) = v.
Proof.
  intros Hv. unfold le_at. rewrite Nat2Z.id, to_nat_len, drop_app_length.
  rewrite take_app_length' by (by rewrite length_le_bytes). by apply le_value_small.
Qed.

Lemma u16_there pre v post : 0 ≤ v < 65536 → len (pre ++ le_bytes 2 v ++ post) ≤ usize_max →
  read_u16 {| rd_bytes := pre ++ le_bytes 2 v ++ post; rd_offset := len pre |}
  = (Ok v, {| rd_bytes := pre ++ le_bytes 2 v ++ post; rd_offset := len pre + 2 |}).
Proof.
  intros Hv Hl. set (r := Build_Reader _ _). pose proof (len_nonneg pre). pose proof (len_nonneg post).
  assert (rd_offset r + 2 ≤ len (rd_bytes r)) as Hfit.
  { unfold r. cbn [rd_bytes rd_offset]. rewrite !len_app, len_le_bytes. lia. }
  destruct (u16_run r) as [-> _]; [split; [unfold r in *; cbn [rd_bytes rd_offset] in *; lia|done]|done|].
  unfold r, advance. cbn [rd_bytes rd_offset]. by rewrite (le_at_app pre 2).
Qed.
Lemma u8_there pre (v : byte) post : len (pre ++ [v] ++ post) ≤ usize_max →
  read_u8 {| rd_bytes := pre ++ [v] ++ post; rd_offset := len pre |}
  = (Ok (b2z v), {| rd_bytes := pre ++ [v] ++ post; rd_offset := len pre + 1 |}).
Proof.
  intros Hl. pose proof (len_nonneg pre). pose proof (len_nonneg post). unfold read_u8. rewrite ST_bind_unfold. unfold read_take.
  cbn [rd_bytes rd_offset]. rewrite !len_app in Hl. change (len [v]) with 1 in Hl.
  unfold checked_add. rewrite (proj2 (Z.leb_le _ usize_max)) by lia.
  rewrite (get_range_app pre [v] post); [done|done|reflexivity].
Qed.

Lemma radar_row_there columns row : ∀ fuel filled grid pre post,
  Forall (λ run, 0 < run.1 < 65536) row → filled + len (row_cells row) = columns → columns - filled ≤ Z.of_nat fuel →
  len (pre ++ encode_row row ++ post) ≤ usize_max →
  (radar_row fuel columns filled grid {| rd_bytes := pre ++ encode_row row ++ post; rd_offset := len pre |}).1
  = Ok (grid ++ row_cells row).
Proof.
  induction row as [|[n v] row IH]; intros fuel filled grid pre post Hruns Hsum Hfuel Hl.
  - change (row_cells []) with (@nil byte) in *. rewrite len_nil in Hsum. rewrite app_nil_r. destruct fuel; simpl;
      (rewrite (proj2 (Z.ltb_ge _ _)) by lia; done).
  - apply Forall_cons in Hruns as [Hn Hruns]. simpl in Hn.
    assert (row_cells ((n, v) :: row) = replicate (Z.to_nat n) v ++ row_cells row) as Ec by done. rewrite Ec in *.
    rewrite len_app in Hsum. unfold len at 1 in Hsum. rewrite length_replicate in Hsum. pose proof (len_nonneg (row_cells row)).
    assert (encode_row ((n, v) :: row) = le_bytes 2 n ++ [v] ++ encode_row row) as E.
    { symmetry. exact (app_assoc (le_bytes 2 n) [v] (encode_row row)). }
    rewrite E in *. destruct fuel as [|fuel]; [lia|]. cbn [radar_row]. rewrite (proj2 (Z.ltb_lt _ _)) by lia.
    rewrite ST_bind_unfold. rewrite <- !(assoc_L (++)) in *. rewrite u16_there by (done || lia). rewrite ST_bind_unfold.
    replace (len pre + 2) with (len (pre ++ le_bytes 2 n)) by (rewrite len_app, len_le_bytes; lia).
    rewrite (assoc_L (++) pre) in *. rewrite u8_there by done.
    rewrite (proj2 (Z.eqb_neq n 0)), Z.gtb_ltb, (proj2 (Z.ltb_ge _ _)) by lia. cbn [orb]. rewrite z2b_b2z.
    replace (len (pre ++ le_bytes 2 n) + 1) with (len ((pre ++ le_bytes 2 n) ++ [v])) by (rewrite (len_app _ [v]); done).
    rewrite (assoc_L (++) _ [v]) in *. rewrite IH by (done || lia). by rewrite <- (assoc_L (++)).
Qed.

Lemma u32_there v post : 0 ≤ v < 4294967296 → len (le_bytes 4 v ++ post) ≤ usize_max → read_all read_u32 (le_bytes 4 v ++ post) = Ok v.
Proof.
  intros Hv Hl. unfold read_all. destruct (u32_run (reader (le_bytes 4 v ++ post))) as [-> _]; [by apply reader_start| |].
  - cbn [rd_bytes rd_offset reader]. rewrite len_app, len_le_bytes. pose proof (len_nonneg post). lia.
  - cbn [rd_bytes rd_offset reader fst]. f_equal. by apply (le_at_app [] 4).
Qed.

Lemma len_concat_words {A} (f : A → bytes) js : (∀ j, len (f j) = 4) → len (concat (f <$> js)) = 4 * len js.
Proof. intros Hf. induction js as [|j js IH]; [done|]. rewrite fmap_cons. simpl. rewrite len_app, Hf, IH, len_cons. lia. Qed.
Lemma len_offsets rows : len (encode_offsets rows) = 4 * len rows.
Proof. unfold encode_offsets. rewrite len_concat_words by (intros; apply len_le_bytes). unfold len. by rewrite length_seq. Qed.
Lemma offsets_split rows i : (i < length rows)%nat →
  ∃ pre post, encode_offsets rows = pre ++ le_bytes 4 (len (encode_runs (take i rows))) ++ post ∧ len pre = 4 * Z.of_nat i.
Proof.
  intros Hi. unfold encode_offsets. set (f := λ i : nat, le_bytes 4 (len (encode_runs (take i rows)))).
  replace (seq 0 (length rows)) with (seq 0 (i + S (length rows - S i))) by (f_equal; lia). rewrite seq_app, fmap_app, concat_app.
  eexists _, _. split; [reflexivity|]. rewrite len_concat_words by (intros; apply len_le_bytes). unfold len. by rewrite length_seq.
Qed.
Lemma runs_split rows i row : rows !! i = Some row →
  encode_runs rows = encode_runs (take i rows) ++ encode_row row ++ encode_runs (drop (S i) rows).
Proof.
  intros Hi. unfold encode_runs. rewrite <- (take_drop_middle rows i row Hi) at 1.
  by rewrite fmap_app, concat_app, fmap_cons.
Qed.

Lemma decode_row_there columns rows more i row grid : rows !! i = Some row → row_fits columns row →
  len (encode_runs rows) ≤ MAX_PRODUCT_BYTES → len (encode_offsets rows ++ more) ≤ MAX_PRODUCT_BYTES →
  decode_row columns (encode_runs rows) (encode_offsets rows ++ more) grid (Z.of_nat i) = Ok (grid ++ row_cells row).
Proof.
  intros Hi [Hruns Hsum] Hlr Hlo. assert (MAX_PRODUCT_BYTES ≤ usize_max) as Hbig by done.
  assert (MAX_PRODUCT_BYTES < 4294967296) as H32 by done.
  destruct (offsets_split rows i) as (pre & post & E & Hpre); [by eapply lookup_lt_Some|].
  pose proof (runs_split rows i row Hi) as Er. unfold decode_row. set (start := len (encode_runs (take i rows))) in *.
  assert (0 ≤ start ≤ len (encode_runs rows)) as Hst.
  { rewrite Er, len_app. fold start. pose proof (len_nonneg (encode_row row ++ encode_runs (drop (S i) rows))). unfold start, len in *. lia. }
  rewrite E in *. rewrite <- !(assoc_L (++)) in *. pose proof (len_nonneg pre).
  rewrite !len_app, len_le_bytes in Hlo. pose proof (len_nonneg post). pose proof (len_nonneg more).
  rewrite slice_ok by (rewrite !len_app, len_le_bytes; lia). cbn [mbind result_bind].
  replace (Z.to_nat (Z.of_nat i * 4)) with (length pre) by (unfold len in *; lia). rewrite drop_app_length.
  rewrite u32_there; [|lia|rewrite !len_app, len_le_bytes; lia]. cbn [mbind result_bind].
  rewrite (get_range_split _ (encode_runs (take i rows)) (encode_row row ++ encode_runs (drop (S i) rows)) []);
    [|by rewrite app_nil_r|done|rewrite Er, len_app; unfold start; lia].
  simpl. unfold read_all. apply (radar_row_there columns row _ 0 grid []); [done|lia|lia|].
  rewrite Er, len_app in Hlr. fold start in Hlr. simpl. lia.
Qed.

Lemma decode_rows_there columns rows more : Forall (row_fits columns) rows →
  len (encode_runs rows) ≤ MAX_PRODUCT_BYTES → len (encode_offsets rows ++ more) ≤ MAX_PRODUCT_BYTES →
  try_fold (decode_row columns (encode_runs rows) (encode_offsets rows ++ more)) [] (seqZ 0 (len rows)) = Ok (concat (row_cells <$> rows)).
Proof.
  intros Hfit Hlr Hlo. assert (∀ todo done_ grid, rows = done_ ++ todo →
    try_fold (decode_row columns (encode_runs rows) (encode_offsets rows ++ more)) grid (seqZ (len done_) (len todo))
    = Ok (grid ++ concat (row_cells <$> todo))) as Hgen.
  { intros todo. induction todo as [|row todo IH]; intros done_ grid E; [by rewrite app_nil_r|].
    rewrite len_cons, seqZ_cons by (pose proof (len_nonneg todo); lia). simpl.
    assert (rows !! length done_ = Some row) as Hi by (by rewrite E, list_lookup_middle).
    rewrite (decode_row_there columns rows more (length done_) row); [|done| |done|done].
    - simpl. replace (Z.succ (len done_)) with (len (done_ ++ [row])) by (rewrite len_app; change (len [row]) with 1; lia).
      replace (Z.pred (1 + len todo)) with (len todo) by lia. rewrite IH; [by rewrite <- (assoc_L (++))|by rewrite <- (assoc_L (++))].
    - rewrite Forall_lookup in Hfit. by eapply Hfit. }
  by apply (Hgen rows [] []).
Qed.

(** A radar product whose compressed parts hold the runs of rows that fit its header, and where
    each row starts, decodes to the cells of the rows. *)
Theorem radar_roundtrip `{Libm, Zlib} kind part0 part1 part2 (h : Radar) (rows : list (list (Z * byte))) :
  len part0 = 26 → read_all (read_radar_header kind) part0 = Ok h → bad_geometry h = false →
  len rows = ra_rows h → Forall (row_fits (ra_columns h)) rows →
  inflate part1 MAX_PRODUCT_BYTES = Ok (encode_runs rows) → len (encode_runs rows) ≤ MAX_PRODUCT_BYTES →
  inflate part2 (MAX_PRODUCT_BYTES - len (encode_runs rows)) = Ok (encode_offsets rows) →
  bad_extent (with_grid (concat (row_cells <$> rows)) h) = false →
  decode_radar kind [part0; part1; part2] = Ok (with_grid (concat (row_cells <$> rows)) h).
Proof.
  intros H26 Hh Hgeo Hrows Hfit Hruns Hlr Hoff Hext. pose proof (len_nonneg (encode_runs rows)).
  pose proof (decode_rows_there (ra_columns h) rows [] Hfit Hlr) as Hg. rewrite app_nil_r, Hrows, len_offsets, Hrows in Hg.
  unfold decode_radar. rewrite pass_check by done. rewrite (bind_done _ part0) by done. rewrite pass_check by (by rewrite H26).
  rewrite (bind_done _ h) by done. rewrite pass_check by done. rewrite (bind_done _ part1) by done.
  rewrite (bind_done _ (encode_runs rows)) by done. rewrite (bind_done _ part2) by done.
  rewrite rest_of_limit by done. rewrite (bind_done _ (encode_offsets rows)) by done.
  rewrite pass_check by (by rewrite len_offsets, Hrows, (Z.mul_comm 4), Z.eqb_refl).
  rewrite (bind_done _ (concat (row_cells <$> rows))); [by rewrite pass_check|]. apply Hg.
  pose proof (read_all_total _ _ part0 (radar_header_total kind)) as Hsz. rewrite Hh in Hsz.
  destruct Hsz as (_ & _ & _ & _ & Hr); [rewrite H26; done|]. unfold MAX_PRODUCT_BYTES. lia.
Qed.

(** ** Samples *)

(** A calendar without months of different lengths, a decompressor of stored data and a flat
    cosine. *)
#[local] Instance toy_chrono : Chrono :=
  {| NaiveDate := Z * Z * Z; DateTime := Z;
     from_ymd_opt := λ y m d, if (1 <=? m) && (m <=? 12) && (1 <=? d) && (d <=? 30) then Some (y, m, d) else None;
     date_year := λ d, d.1.1; date_month := λ d, d.1.2;
     checked_sub_months := λ d n, Some (d.1.1, d.1.2 - n, d.2); checked_add_months := λ d n, Some (d.1.1, d.1.2 + n, d.2);
     and_hms_opt := λ d h m s,
       if (h <? 24) && (m <? 60) && (s <? 60) then Some (((((d.1.1 * 12 + d.1.2) * 30 + d.2) * 24 + h) * 60 + m) * 60 + s) else None;
     utc_year := λ t, t / (12 * 30 * 24 * 3600); utc_month := λ t, (t / (30 * 24 * 3600)) mod 12;
     timestamp_millis := λ t, 1000 * t; datetime_ltb := Z.ltb; millis_since := λ a b, 1000 * (a - b) |}.
#[local] Instance stored_zlib : Zlib :=
  {| Decompress := Z; decompress_new := 0; total_in := λ d, d; total_out := λ d, d;
     decompress := λ d input room,
       let w := take (Z.to_nat room) input in Some (len input <=? room, w, d + len w) |}.
#[local] Instance stored_zlib_laws : ZlibLaws.
Proof.
  split; [done|done|]. simpl. intros d input room fin w d' [= _ <- <-] Hroom. unfold len. rewrite length_take. lia.
Qed.
#[local] Instance flat_libm : Libm := {| f64_sin := λ x, x; f64_cos := λ _, f64_lit 1 0; f64_asin := λ x, x |}.

(** The traffic report of the code's tests: all zero but for the version and one target. *)
Definition sample_traffic : bytes := [x01] ++ replicate 115 x00 ++ [x01] ++ replicate 151 x00.
Lemma traffic_exact_witness :
  traffic_outcome sample_traffic (decode_traffic sample_traffic)
  ∧ (λ t, len (tf_targets t)) <$> decode_traffic sample_traffic = Ok 1.
Proof. split; [apply traffic_exact; vm_compute; discriminate|vm_compute; reflexivity]. Defined.

(** The radar image of the code's tests: two cells. *)
Definition sample_header : bytes :=
  replicate 8 x00 ++ [x06; x01; x36; x06; x01; x34] ++ replicate 4 x00 ++ [x02; x00; x01; x00; x3c; x07; xda; x0a].
Definition sample_rows : list (list (Z * byte)) := [[(1, x18); (1, x07)]].
Definition sample_container : bytes :=
  [x01; x01; x01; x00] ++ le_bytes 4 0
  ++ concat (le_bytes 4 <$> ([26; 6; 4] ++ replicate 13 0)) ++ sample_header ++ encode_runs sample_rows ++ encode_offsets sample_rows.

Lemma products_settled_witness :
  settled (product_ok 0x20000090 sample_container) (decode_product 0x20000090 sample_container)
  ∧ (λ p, match p with ProductWeather (WeatherRadar r) => ra_grid r | _ => [] end) <$> decode_product 0x20000090 sample_container
    = Ok [x18; x07].
Proof. split; [apply products_settled; vm_compute; discriminate|vm_compute; reflexivity]. Defined.

Definition sample_radar : Radar :=
  match read_all (read_radar_header RegionalRadar) sample_header with
  | Ok h => h
  | Err _ => {| ra_kind := RegionalRadar; ra_issue_time := {| pu_day := 0; pu_hour := 0; pu_minute := 0 |};
                ra_precipitation_time := {| pu_day := 0; pu_hour := 0; pu_minute := 0 |};
                ra_center_latitude := f64_lit 0 0; ra_center_longitude := f64_lit 0 0; ra_reference_latitude := f64_lit 0 0;
                ra_columns := 0; ra_rows := 0; ra_pixel_width_meters := 0; ra_pixel_height_meters := 0; ra_grid := [] |}
  end.
Lemma radar_roundtrip_witness :
  decode_radar RegionalRadar [sample_header; encode_runs sample_rows; encode_offsets sample_rows]
  = Ok (with_grid [x18; x07] sample_radar).
Proof.
  apply (radar_roundtrip RegionalRadar sample_header (encode_runs sample_rows) (encode_offsets sample_rows) sample_radar sample_rows);
    try (vm_compute; (reflexivity || discriminate)).
  repeat constructor; vm_compute; reflexivity.
Defined.
