(* ===== verification/ReceiverActivity.v ===== *)
(** * Reception history (receiver/activity.rs)

    What was received in each of the last sixty minutes, and when the receiver was away. The
    model is the code; the specification is the log of everything that happened, from which
    the buckets are shown to be computed. *)

From Stdlib Require Import Strings.Byte.

From stdpp Require Import base gmap list list_numbers strings sorting.
From S2P Require Import Prelude Float64 ReceiverFraming ReceiverProtocol ReceiverProducts.

Local Open Scope Z_scope.

Definition MINUTE_MS : Z := 60000.
Definition BUCKETS : Z := 60.
Definition SERIES : list (string * string) :=
  [("traffic", "Traffic"); ("sensors", "Ownship / sensors"); ("metar", "METAR"); ("taf", "TAF"); ("radar", "Radar");
   ("other", "Other weather")]%string.

Record Bucket := { bk_minute : Z; bk_counts : list Z; bk_disconnected : bool }.
Definition bucket_new (minute : Z) : Bucket := {| bk_minute := minute; bk_counts := replicate 6 0; bk_disconnected := false |}.

Record Activity := { ac_buckets : list Bucket; ac_last_seen : list (option Z); ac_connected : bool; ac_last_ms : option Z }.
Definition activity_default : Activity :=
  {| ac_buckets := []; ac_last_seen := replicate 6 None; ac_connected := false; ac_last_ms := None |}.

(** [pop_front] while the front is before [first]. *)
Fixpoint expire (first : Z) (buckets : list Bucket) : list Bucket :=
  match buckets with
  | b :: rest => if bk_minute b <? first then expire first rest else buckets
  | [] => []
  end.
Definition mark_away (last now : Z) (b : Bucket) : Bucket :=
  let start := Z.max last (wrap64 (bk_minute b * MINUTE_MS)) in
  let stop := Z.min now (wrap64 ((bk_minute b + 1) * MINUTE_MS)) in
  {| bk_minute := bk_minute b; bk_counts := bk_counts b; bk_disconnected := bk_disconnected b || (start <? stop) |}.

(** [None] where the assertion fails. *)
Definition advance (now : Z) (connected : bool) (a : Activity) : option Activity :=
  if bool_decide (ac_last_ms a = None) && negb connected then Some a
  else if match ac_last_ms a with Some last => now <? last | None => false end then None
  else
    let minute := now / MINUTE_MS in
    let first := saturating_sub minute (BUCKETS - 1) in
    let buckets := expire first (ac_buckets a) in
    let next :=
      match list.last buckets with
      | Some b => bk_minute b + 1
      | None => match ac_last_ms a with Some last => Z.max (last / MINUTE_MS) first | None => minute end
      end in
    let buckets := buckets ++ (bucket_new <$> seqZ next (minute + 1 - next)) in
    let buckets :=
      if negb (ac_connected a) then
        match ac_last_ms a with Some last => mark_away last now <$> buckets | None => buckets end
      else buckets in
    Some {| ac_buckets := buckets; ac_last_seen := ac_last_seen a; ac_connected := connected; ac_last_ms := Some now |}.

Section observe.
Context `{Chrono}.

Definition series_of (product : Product) : option nat :=
  match product with
  | ProductTraffic _ => Some 0%nat
  | ProductAttitude _ | ProductPressureUnverified _ | ProductNmea _ => Some 1%nat
  | ProductWeather (WeatherText kind _ reports _) =>
      if bool_decide (reports = []) then None
      else Some match kind with Metar => 2%nat | Taf => 3%nat | _ => 5%nat end
  | ProductWeather (WeatherRadar _) => Some 4%nat
  | _ => None
  end.

(** [counts[series] = counts[series].saturating_add(1)]. *)
Definition count_up (series : nat) (b : Bucket) : Bucket :=
  {| bk_minute := bk_minute b; bk_counts := alter (λ n, saturating_add u64_max n 1) series (bk_counts b);
     bk_disconnected := bk_disconnected b |}.

Definition observe (product : Product) (now : Z) (a : Activity) : option Activity :=
  a ← advance now (ac_connected a) a;
  match series_of product with
  | None => Some a
  | Some series =>
      match list.last (ac_buckets a) with
      | None => Some a
      | Some _ =>
          Some {| ac_buckets := alter (count_up series) (length (ac_buckets a) - 1)%nat (ac_buckets a);
                  ac_last_seen := <[series := Some now]> (ac_last_seen a);
                  ac_connected := ac_connected a; ac_last_ms := ac_last_ms a |}
      end
  end.
End observe.

(** ** What is drawn *)

Record Rect := { rx_x : Z; rx_y : Z; rx_width : Z; rx_height : Z; rx_color : string }.
Record Strip := { sp_title : string; sp_scale : Z; sp_rects : list Rect; sp_legend : list (string * string * option Z) }.

(** [max.checked_next_power_of_two().unwrap_or(u64::MAX)] of a number from one on. *)
Definition next_power_of_two (n : Z) : Z := let p := 2 ^ Z.log2_up n in if p <=? u64_max then p else u64_max.

Definition series_range (first count : nat) (b : Bucket) : list Z := take count (drop first (bk_counts b)).
Definition sum64 (l : list Z) : Z := fold_left (λ s n, wrap64 (s + n)) l 0.
Definition strip_scale (first count : nat) (buckets : list Bucket) : Z :=
  next_power_of_two (Z.max (foldr Z.max 0 ((λ b, sum64 (series_range first count b)) <$> buckets)) 1).

(** The bars of one minute, bottom up. *)
Fixpoint bars (x scale total : Z) (counts : list (Z * string)) : list Rect :=
  match counts with
  | [] => []
  | (n, color) :: counts =>
      let bottom := wrap32 (total * 1000 / scale) in
      let top := wrap32 ((total + n) * 1000 / scale) in
      (if bottom <? top then
         [{| rx_x := x + 100; rx_y := wrap32 (1000 - top); rx_width := 800; rx_height := top - bottom; rx_color := color |}]
       else []) ++ bars x scale (total + n) counts
  end.

(** The bucket of a minute. *)
Definition bucket_at (buckets : list Bucket) (minute : option Z) : option Bucket :=
  m ← minute; front ← head buckets; i ← checked_sub m (bk_minute front); buckets !! Z.to_nat i.

Definition slot_rects (a : Activity) (last_minute scale : Z) (first count : nat) (slot : Z) : list Rect :=
  let bucket := bucket_at (ac_buckets a) (checked_sub last_minute (BUCKETS - 1 - slot)) in
  let x := slot * 1000 in
  let background :=
    match bucket with
    | None => Some "unobserved"%string
    | Some b =>
        if bk_disconnected b || ((bk_minute b =? last_minute) && negb (ac_connected a)) then Some "disconnected"%string else None
    end in
  match background with
  | Some color => [{| rx_x := x; rx_y := 0; rx_width := 1000; rx_height := 1000; rx_color := color |}]
  | None => []
  end
  ++ match bucket with
     | Some b => bars x scale 0 (zip (series_range first count b) (take count (drop first (fst <$> SERIES))))
     | None => []
     end.

(** The legend of a series: its colour and name, and the seconds since it was last seen. *)
Definition strip_legend (a : Activity) (now : Z) (first count : nat) : list (string * string * option Z) :=
  (λ i, (match SERIES !! i with Some s => s | None => (""%string, ""%string) end,
         (λ seen, saturating_sub now seen / 1000) <$> (ac_last_seen a !! i ≫= id)))
  <$> seq first count.

Definition strip (a : Activity) (now : Z) (title : string) (first count : nat) : Strip :=
  let scale := strip_scale first count (ac_buckets a) in
  {| sp_title := title; sp_scale := scale;
     sp_rects := seqZ 0 BUCKETS ≫= slot_rects a (now / MINUTE_MS) scale first count;
     sp_legend := strip_legend a now first count |}.
Definition view (a : Activity) (now : Z) : option (list Strip) :=
  _ ← ac_last_ms a; Some [strip a now "Flight data" 0 2; strip a now "Weather" 2 4].

(** ** The log *)

(** Everything that was counted, and every time the receiver was away, latest first. *)
Record Log := {
  lg_seen : list (Z * nat); lg_away : list (Z * Z); lg_start : Z; lg_last : option Z; lg_connected : bool }.
Definition log_empty : Log := {| lg_seen := []; lg_away := []; lg_start := 0; lg_last := None; lg_connected := false |}.

Definition log_advance (now : Z) (connected : bool) (l : Log) : Log :=
  match lg_last l with
  | None =>
      if connected then {| lg_seen := []; lg_away := []; lg_start := now; lg_last := Some now; lg_connected := true |} else l
  | Some last =>
      {| lg_seen := lg_seen l; lg_away := if lg_connected l then lg_away l else (last, now) :: lg_away l;
         lg_start := lg_start l; lg_last := Some now; lg_connected := connected |}
  end.
Definition log_observe (series : option nat) (now : Z) (l : Log) : Log :=
  let l := log_advance now (lg_connected l) l in
  match series, lg_last l with
  | Some series, Some _ =>
      {| lg_seen := (now, series) :: lg_seen l; lg_away := lg_away l; lg_start := lg_start l; lg_last := lg_last l;
         lg_connected := lg_connected l |}
  | _, _ => l
  end.

Definition seen_in (minute : Z) (series : nat) (e : Z * nat) : Prop := e.1 / MINUTE_MS = minute ∧ e.2 = series.
#[global] Instance seen_in_dec minute series e : Decision (seen_in minute series e).
Proof. unfold seen_in. apply _. Defined.
Definition log_count (l : Log) (minute : Z) (series : nat) : Z := len (filter (seen_in minute series) (lg_seen l)).
(** A time away that has a part in the minute. *)
Definition away_in (minute : Z) (e : Z * Z) : Prop := Z.max e.1 (minute * MINUTE_MS) < Z.min e.2 ((minute + 1) * MINUTE_MS).
#[global] Instance away_in_dec minute e : Decision (away_in minute e).
Proof. unfold away_in. apply _. Defined.

Definition bucket_of (l : Log) (minute : Z) : Bucket :=
  {| bk_minute := minute; bk_counts := (λ series, Z.min u64_max (log_count l minute series)) <$> seq 0 6;
     bk_disconnected := bool_decide (Exists (away_in minute) (lg_away l)) |}.
Definition seen_last (l : Log) (series : nat) : option Z := fst <$> head (filter (λ e, e.2 = series) (lg_seen l)).

(** The minutes that are kept: the last sixty since the first connection. *)
Definition kept_minutes (l : Log) : list Z :=
  match lg_last l with
  | None => []
  | Some last =>
      let first := Z.max (lg_start l / MINUTE_MS) (last / MINUTE_MS - 59) in
      seqZ first (last / MINUTE_MS + 1 - first)
  end.
(** The state a log stands for. *)
Definition activity_of (l : Log) : Activity :=
  {| ac_buckets := bucket_of l <$> kept_minutes l; ac_last_seen := seen_last l <$> seq 0 6;
     ac_connected := lg_connected l; ac_last_ms := lg_last l |}.

Record log_ok (l : Log) : Prop := {
  lk_seen : Forall (λ e, match lg_last l with Some last => e.1 ≤ last | None => False end ∧ (e.2 < 6)%nat) (lg_seen l);
  lk_away : Forall (λ e, match lg_last l with Some last => e.2 ≤ last | None => False end) (lg_away l);
  lk_start : match lg_last l with Some last => 0 ≤ lg_start l ≤ last | None => lg_connected l = false end }.

Definition event_time (e : Z) : Prop := 0 ≤ e ∧ e + MINUTE_MS ≤ u64_max.

Lemma expire_seq l first lo n : expire first (bucket_of l <$> seqZ lo (Z.of_nat n))
  = bucket_of l <$> seqZ (Z.max lo first) (lo + Z.of_nat n - Z.max lo first).
Proof.
  revert lo. induction n as [|n IH]; intros lo.
  - rewrite !seqZ_nil by lia. done.
  - rewrite seqZ_cons by lia. simpl. destruct (Z.ltb_spec lo first).
    + replace (Z.pred (Z.of_nat (S n))) with (Z.of_nat n) by lia. rewrite IH. f_equal. f_equal; lia.
    + rewrite Z.max_l by lia. replace (lo + Z.of_nat (S n) - lo) with (Z.of_nat (S n)) by lia. by rewrite (seqZ_cons lo) by lia.
Qed.
Lemma last_seq l lo n : list.last (bucket_of l <$> seqZ lo n) = if 0 <? n then Some (bucket_of l (lo + n - 1)) else None.
Proof.
  destruct (Z.ltb_spec 0 n); [|by rewrite seqZ_nil].
  replace n with (Z.of_nat (S (Z.to_nat (n - 1)))) by lia. rewrite seqZ_S, fmap_app. simpl. rewrite last_snoc. do 2 f_equal. lia.
Qed.

Lemma filter_none {A} (P : A → Prop) `{!∀ x, Decision (P x)} l : (∀ x, x ∈ l → ¬ P x) → filter P l = [].
Proof.
  induction l as [|x l IH]; intros Hl; [done|]. rewrite filter_cons_False by (apply Hl; left). apply IH. intros y Hy. apply Hl. by right.
Qed.

(** Nothing is known of a minute after the last. *)
Lemma bucket_of_new l last minute : log_ok l → lg_last l = Some last → last / MINUTE_MS < minute → bucket_of l minute = bucket_new minute.
Proof.
  intros [Hseen Haway _] El Hm. rewrite El in *. unfold bucket_of, bucket_new. f_equal.
  - assert (∀ series, log_count l minute series = 0) as Hz.
    { intros series. unfold log_count. apply len_0. apply filter_none. intros e He [Hq _]. rewrite Forall_forall in Hseen.
      destruct (Hseen e He) as [Hle _]. pose proof (Z.div_le_mono e.1 last MINUTE_MS ltac:(done) Hle). lia. }
    simpl. by rewrite !Hz.
  - apply bool_decide_eq_false. rewrite Exists_exists. intros (e & He & Ha). rewrite Forall_forall in Haway. specialize (Haway e He).
    unfold away_in in Ha. simpl in *. pose proof (Z.mul_succ_div_gt last MINUTE_MS ltac:(done)). nia.
Qed.

Lemma mark_away_of l last now minute : log_ok l → lg_last l = Some last → lg_connected l = false → event_time now →
  0 ≤ minute ≤ now / MINUTE_MS → ∀ c, mark_away last now (bucket_of l minute) = bucket_of (log_advance now c l) minute.
Proof.
  intros Hl El Ec [Hn Hu] Hm c. unfold mark_away, bucket_of, log_advance. rewrite El, Ec. f_equal. cbn [bk_minute bk_disconnected lg_away].
  pose proof (Z.mul_div_le now MINUTE_MS ltac:(done)). unfold MINUTE_MS in *.
  assert (wrap64 (minute * 60000) = minute * 60000) as -> by (apply Z.mod_small; unfold u64_max in Hu; lia).
  assert (wrap64 ((minute + 1) * 60000) = (minute + 1) * 60000) as -> by (apply Z.mod_small; unfold u64_max in Hu; lia).
  apply eq_true_iff_eq. rewrite orb_true_iff, !bool_decide_eq_true, Exists_cons, Z.ltb_lt. unfold away_in at 2. simpl. tauto.
Qed.

Lemma new_buckets l last next n : log_ok l → lg_last l = Some last → last / MINUTE_MS < next →
  bucket_new <$> seqZ next n = bucket_of l <$> seqZ next n.
Proof.
  intros Hl El Hn. apply list_fmap_ext. intros i m Hm. symmetry. eapply bucket_of_new; [done..|].
  apply list_elem_of_lookup_2, elem_of_seqZ in Hm. lia.
Qed.

(** The buckets after expiry and the new ones are those of the last sixty minutes. *)
Lemma moved_buckets l last now (first := saturating_sub (now / MINUTE_MS) (BUCKETS - 1)) (old := expire first (bucket_of l <$> kept_minutes l)) :
  log_ok l → lg_last l = Some last → last ≤ now →
  let next := match list.last old with Some b => bk_minute b + 1 | None => Z.max (last / MINUTE_MS) first end in
  old ++ (bucket_new <$> seqZ next (now / MINUTE_MS + 1 - next))
  = bucket_of l <$> (let lo := Z.max (lg_start l / MINUTE_MS) (now / MINUTE_MS - 59) in seqZ lo (now / MINUTE_MS + 1 - lo)).
Proof.
  intros Hok El Hle. pose proof (lk_start l Hok) as Hs. rewrite El in Hs.
  pose proof (Z.div_le_mono last now MINUTE_MS ltac:(done) Hle) as Hm.
  pose proof (Z.div_le_mono (lg_start l) last MINUTE_MS ltac:(done) ltac:(lia)) as Hsm.
  pose proof (Z.div_pos (lg_start l) MINUTE_MS ltac:(lia) ltac:(done)) as H0. unfold old, kept_minutes. rewrite El. cbv zeta.
  set (L := last / MINUTE_MS) in *. set (minute := now / MINUTE_MS) in *. set (s0 := lg_start l / MINUTE_MS) in *.
  replace (L + 1 - Z.max s0 (L - 59)) with (Z.of_nat (Z.to_nat (L + 1 - Z.max s0 (L - 59)))) by lia. rewrite expire_seq, last_seq.
  assert (first = Z.max 0 (minute - 59)) as Ef by done. clearbody first.
  replace (Z.max (Z.max s0 (L - 59)) first) with (Z.max s0 (minute - 59)) by lia.
  rewrite Z2Nat.id by lia. set (lo := Z.max s0 (minute - 59)).
  replace (Z.max s0 (L - 59) + (L + 1 - Z.max s0 (L - 59)) - lo) with (L + 1 - lo) by lia.
  destruct (Z.ltb_spec 0 (L + 1 - lo)); cbn [bk_minute bucket_of].
  - rewrite (new_buckets l last) by (done || (fold L; lia)). rewrite <- fmap_app. f_equal.
    replace (lo + (L + 1 - lo) - 1 + 1) with (lo + (L + 1 - lo)) by lia. rewrite <- seqZ_app by lia. f_equal. lia.
  - rewrite (seqZ_nil lo) by lia. rewrite (new_buckets l last) by (done || (fold L; lia)). simpl. f_equal. f_equal; lia.
Qed.

Lemma lk_start_none l : log_ok l → lg_last l = None → lg_connected l = false.
Proof. intros Hok El. pose proof (lk_start l Hok) as Hs. by rewrite El in Hs. Qed.

(** Advancing the clock does to the state what it does to the log. *)
Lemma advance_refines l now connected : log_ok l → event_time now → match lg_last l with Some last => last ≤ now | None => True end →
  advance now connected (activity_of l) = Some (activity_of (log_advance now connected l)).
Proof.
  intros Hok Hn Hle. unfold advance. change (ac_last_ms (activity_of l)) with (lg_last l).
  change (ac_buckets (activity_of l)) with (bucket_of l <$> kept_minutes l).
  change (ac_connected (activity_of l)) with (lg_connected l). change (ac_last_seen (activity_of l)) with (seen_last l <$> seq 0 6).
  destruct (lg_last l) as [last|] eqn:El.
  - rewrite bool_decide_eq_false_2 by done. cbn [andb]. rewrite (proj2 (Z.ltb_ge now last)) by done. cbv zeta. f_equal.
    rewrite (moved_buckets l last now Hok El Hle). unfold activity_of. f_equal.
    + unfold kept_minutes. replace (lg_last (log_advance now connected l)) with (Some now) by (unfold log_advance; by rewrite El).
      replace (lg_start (log_advance now connected l)) with (lg_start l) by (unfold log_advance; by rewrite El).
      destruct (lg_connected l) eqn:Ec; cbn [negb].
      * apply list_fmap_ext. intros i m _. unfold bucket_of, log_count, log_advance. by rewrite El, Ec.
      * rewrite <- list_fmap_compose. apply list_fmap_ext. intros i m Hm. apply list_elem_of_lookup_2, elem_of_seqZ in Hm.
        apply mark_away_of; try done. pose proof (lk_start l Hok) as Hs. rewrite El in Hs.
        pose proof (Z.div_pos (lg_start l) MINUTE_MS ltac:(lia) ltac:(done)). lia.
    + unfold seen_last, log_advance. by rewrite El.
    + unfold log_advance. by rewrite El.
    + unfold log_advance. by rewrite El.
  - assert (lg_seen l = []) as Es.
    { pose proof (lk_seen l Hok) as Hs. rewrite El in Hs. destruct (lg_seen l); [done|]. apply Forall_cons in Hs as [[[] _] _]. }
    rewrite bool_decide_eq_true_2 by done. unfold log_advance. rewrite El. destruct connected; cbn [andb negb]; [|done].
    unfold kept_minutes. rewrite El. cbn [fmap list_fmap expire list.last app]. rewrite (lk_start_none l Hok El). cbn [negb].
    f_equal. unfold activity_of, kept_minutes. cbn [lg_last lg_start lg_connected].
    rewrite Z.max_l by lia. replace (now / MINUTE_MS + 1 - now / MINUTE_MS) with 1 by lia. f_equal.
    unfold seen_last. by rewrite Es.
Qed.

Lemma log_advance_ok l now connected : log_ok l → event_time now → match lg_last l with Some last => last ≤ now | None => True end →
  log_ok (log_advance now connected l).
Proof.
  intros [Hs Ha Hst] [Hn _] Hle. unfold log_advance. destruct (lg_last l) as [last|] eqn:El.
  - split; simpl; [| |lia].
    + eapply Forall_impl; [exact Hs|]. intros e [He Hk]. split; [lia|done].
    + assert (Forall (λ e : Z * Z, e.2 ≤ now) (lg_away l)) as Haw by (eapply Forall_impl; [exact Ha|]; simpl; intros e He; lia).
      destruct (lg_connected l); [done|]. constructor; [simpl; lia|done].
  - destruct connected; [|by split; rewrite ?El]. split; simpl; [constructor..|lia].
Qed.

Section activity.
Context `{Chrono}.

Lemma series_below product series : series_of product = Some series → (series < 6)%nat.
Proof. destruct product as [| | | | | |w|]; simpl; try naive_solver lia. destruct w; simpl; repeat case_match; naive_solver lia. Qed.

Definition log_add (now : Z) (series : nat) (l : Log) : Log :=
  {| lg_seen := (now, series) :: lg_seen l; lg_away := lg_away l; lg_start := lg_start l; lg_last := lg_last l;
     lg_connected := lg_connected l |}.

Lemma count_add now series l minute k :
  log_count (log_add now series l) minute k
  = log_count l minute k + (if bool_decide (seen_in minute k (now, series)) then 1 else 0).
Proof.
  unfold log_count, log_add. simpl lg_seen. rewrite filter_cons. case_bool_decide as Hs.
  - rewrite decide_True by done. rewrite len_cons. lia.
  - rewrite decide_False by done. lia.
Qed.
Lemma bucket_add_other now series l minute : minute ≠ now / MINUTE_MS → bucket_of (log_add now series l) minute = bucket_of l minute.
Proof.
  intros Hm. unfold bucket_of. f_equal. apply list_fmap_ext. intros i k _. rewrite count_add, bool_decide_eq_false_2.
  - by rewrite Z.add_0_r.
  - intros [E _]. simpl in E. congruence.
Qed.
Lemma bucket_add_same now series l : (series < 6)%nat →
  count_up series (bucket_of l (now / MINUTE_MS)) = bucket_of (log_add now series l) (now / MINUTE_MS).
Proof.
  intros Hs. unfold count_up, bucket_of. cbn [bk_minute bk_counts bk_disconnected]. f_equal. apply list_eq. intros i.
  rewrite list_lookup_fmap. destruct (decide (i = series)) as [->|Hne].
  - rewrite list_lookup_alter_eq, list_lookup_fmap, lookup_seq_lt by lia. simpl. f_equal. rewrite count_add, bool_decide_eq_true_2 by done.
    unfold saturating_add. lia.
  - rewrite list_lookup_alter_ne, list_lookup_fmap by done. destruct (seq 0 6 !! i) as [k|] eqn:Hk; [|done]. simpl. f_equal.
    apply lookup_seq in Hk as [-> _]. rewrite count_add, bool_decide_eq_false_2; [by rewrite Z.add_0_r|]. intros [_ E]. simpl in *. congruence.
Qed.
Lemma seen_add now series l : (series < 6)%nat →
  <[series := Some now]> (seen_last l <$> seq 0 6) = seen_last (log_add now series l) <$> seq 0 6.
Proof.
  intros Hs. apply list_eq. intros i. rewrite list_lookup_fmap. destruct (decide (i = series)) as [->|Hne].
  - rewrite list_lookup_insert_eq by (by rewrite length_fmap, length_seq). rewrite lookup_seq_lt by lia. simpl. f_equal.
    unfold seen_last. simpl. by rewrite filter_cons_True.
  - rewrite list_lookup_insert_ne, list_lookup_fmap by done. destruct (seq 0 6 !! i) as [k|] eqn:Hk; [|done]. simpl. f_equal.
    apply lookup_seq in Hk as [-> _]. unfold seen_last. simpl. rewrite filter_cons_False; [done|]. simpl. congruence.
Qed.

Lemma alter_snoc {A} (f : A → A) l x : alter f (length (l ++ [x]) - 1)%nat (l ++ [x]) = l ++ [f x].
Proof. rewrite length_app, Nat.add_sub. induction l as [|y l IH]; [done|]. simpl. f_equal. exact IH. Qed.
Lemma last_minute l now (Hs : 0 ≤ lg_start l ≤ now) : lg_last l = Some now →
  ∃ ms, kept_minutes l = ms ++ [now / MINUTE_MS] ∧ now / MINUTE_MS ∉ ms.
Proof.
  intros El. unfold kept_minutes. rewrite El. cbv zeta. set (lo := Z.max _ _).
  pose proof (Z.div_le_mono (lg_start l) now MINUTE_MS ltac:(done) ltac:(lia)).
  exists (seqZ lo (now / MINUTE_MS - lo)). split.
  - replace (now / MINUTE_MS + 1 - lo) with ((now / MINUTE_MS - lo) + 1) by lia. rewrite seqZ_app by lia. f_equal.
    rewrite seqZ_cons, seqZ_nil by lia. f_equal. lia.
  - rewrite elem_of_seqZ. lia.
Qed.

(** Observing a product does to the state what it does to the log. *)
Lemma observe_refines l now product : log_ok l → event_time now → match lg_last l with Some last => last ≤ now | None => True end →
  observe product now (activity_of l) = Some (activity_of (log_observe (series_of product) now l))
  ∧ log_ok (log_observe (series_of product) now l).
Proof.
  intros Hok Hn Hle. pose proof (log_advance_ok l now (lg_connected l) Hok Hn Hle) as Hok'. unfold observe, log_observe. cbv zeta.
  change (ac_connected (activity_of l)) with (lg_connected l). rewrite advance_refines by done. cbn [mbind option_bind].
  assert (lg_last (log_advance now (lg_connected l) l) = Some now ∨ lg_last (log_advance now (lg_connected l) l) = None) as Hlast.
  { unfold log_advance. destruct (lg_last l) eqn:El; [by left|]. rewrite (lk_start_none l Hok El). by right. }
  set (l' := log_advance now (lg_connected l) l) in *. clearbody l'.
  destruct (series_of product) as [series|] eqn:Hs; [|done]. apply series_below in Hs.
  destruct Hlast as [El|El]; rewrite El.
  - pose proof (lk_start l' Hok') as Hst. rewrite El in Hst. destruct (last_minute l' now Hst El) as (ms & Ek & Hnot).
    change (ac_buckets (activity_of l')) with (bucket_of l' <$> kept_minutes l').
    rewrite Ek, fmap_app, list_fmap_singleton, last_snoc.
    change (ac_last_seen (activity_of l')) with (seen_last l' <$> seq 0 6). rewrite seen_add by done. rewrite <- El. fold (log_add now series l'). split.
    + f_equal. unfold activity_of. f_equal.
      change (kept_minutes _) with (kept_minutes l'). rewrite Ek, fmap_app, list_fmap_singleton.
      rewrite alter_snoc. f_equal.
      * apply list_fmap_ext. intros i m Hm. symmetry. apply bucket_add_other. intros ->. by apply list_elem_of_lookup_2 in Hm.
      * f_equal. by apply bucket_add_same.
    + destruct Hok' as [Hse Haw _]. split; simpl; rewrite El in *; [constructor; [simpl; split; [lia|done]|done]|done|done].
  - change (ac_buckets (activity_of l')) with (bucket_of l' <$> kept_minutes l'). unfold kept_minutes. by rewrite El.
Qed.

(** *** Runs *)

Inductive event := EvAdvance (now : Z) (connected : bool) | EvObserve (product : Product) (now : Z).
Definition at_ms (e : event) : Z := match e with EvAdvance now _ | EvObserve _ now => now end.
Definition happen (e : event) (a : Activity) : option Activity :=
  match e with EvAdvance now connected => advance now connected a | EvObserve product now => observe product now a end.
Definition log_event (e : event) (l : Log) : Log :=
  match e with EvAdvance now connected => log_advance now connected l | EvObserve product now => log_observe (series_of product) now l end.
Fixpoint run (events : list event) (a : Activity) : option Activity :=
  match events with [] => Some a | e :: events => a ← happen e a; run events a end.
Definition log_of (events : list event) : Log := foldl (λ l e, log_event e l) log_empty events.
(** The clock does not go back and is not within a minute of the end of its range. *)
Definition in_time (events : list event) : Prop := StronglySorted Z.le (at_ms <$> events) ∧ Forall (λ e, event_time (at_ms e)) events.

Lemma log_last_event e l : lg_last (log_event e l) = Some (at_ms e) ∨ lg_last (log_event e l) = None.
Proof.
  destruct e as [now c|p now]; unfold log_event, log_observe, log_advance; simpl; destruct (lg_last l) eqn:El; simpl;
    repeat case_match; simpl in *; try rewrite El; auto; congruence.
Qed.
Lemma run_from events l : log_ok l → in_time events →
  Forall (λ e, match lg_last l with Some last => last ≤ at_ms e | None => True end) events →
  run events (activity_of l) = Some (activity_of (foldl (λ l e, log_event e l) l events)) ∧ log_ok (foldl (λ l e, log_event e l) l events).
Proof.
  revert l. induction events as [|e events IH]; intros l Hok [Hs Ht] Hl; simpl; [done|].
  apply Forall_cons in Ht as [He Ht], Hl as [Hle _]. rewrite fmap_cons in Hs. apply StronglySorted_cons in Hs as [Hle' Hs].
  assert (happen e (activity_of l) = Some (activity_of (log_event e l)) ∧ log_ok (log_event e l)) as [-> Hok'].
  { destruct e as [now c|p now]; [split; [by apply advance_refines|by apply log_advance_ok]|by apply observe_refines]. }
  simpl. apply IH; [done|by split|]. rewrite Forall_fmap in Hle'. eapply Forall_impl; [exact Hle'|]. simpl. intros e' He'.
  destruct (log_last_event e l) as [-> | ->]; done.
Qed.
Lemma log_empty_ok : log_ok log_empty.
Proof. by split; try constructor. Qed.
Lemma run_default events : in_time events → run events activity_default = Some (activity_of (log_of events)) ∧ log_ok (log_of events).
Proof. intros Ht. apply (run_from events log_empty log_empty_ok Ht). apply Forall_true. done. Qed.

(** C25: after any calls in the order of time the reception history is what the log of the calls
    says: a bucket for each of the last sixty minutes since the first connection, with the
    number of products of each series received in it and whether the receiver was away in it;
    nothing panics. *)
Theorem activity_refines (events : list event) : in_time events → run events activity_default = Some (activity_of (log_of events)).
Proof. intros Ht. by apply run_default. Qed.

(** *** What is drawn fits *)

Definition rect_fits (r : Rect) : Prop := 0 ≤ rx_x r ∧ rx_x r + rx_width r ≤ 60000 ∧ 0 ≤ rx_y r ∧ rx_y r + rx_height r ≤ 1000.

Lemma next_power_ge n : 1 ≤ n ≤ u64_max → n ≤ next_power_of_two n ≤ u64_max ∧ 0 < next_power_of_two n.
Proof.
  intros Hn. unfold next_power_of_two. cbv zeta. pose proof (proj2 (Z.log2_up_le_pow2 n (Z.log2_up n) ltac:(lia)) ltac:(lia)) as Hp. destruct (Z.leb_spec (2 ^ Z.log2_up n) u64_max); lia.
Qed.
Lemma sum_nonneg l : Forall (λ n, 0 ≤ n) l → 0 ≤ foldr Z.add 0 l.
Proof. induction 1; simpl; lia. Qed.
Lemma sum64_exact l acc : Forall (λ n, 0 ≤ n) l → 0 ≤ acc → acc + foldr Z.add 0 l ≤ u64_max →
  fold_left (λ s n, wrap64 (s + n)) l acc = acc + foldr Z.add 0 l.
Proof.
  revert acc. induction l as [|n l IH]; intros acc Hl Ha Hb; simpl in *; [lia|]. apply Forall_cons in Hl as [Hn Hl].
  pose proof (sum_nonneg l Hl). unfold wrap64 at 2. rewrite Z.mod_small by (unfold u64_max in Hb; lia). rewrite IH by (done || lia). lia.
Qed.

Lemma bars_fit x scale total counts : 0 ≤ x ≤ 59000 → 0 ≤ total → 0 < scale → Forall (λ c, 0 ≤ c.1) counts →
  total + foldr Z.add 0 counts.*1 ≤ scale → Forall rect_fits (bars x scale total counts).
Proof.
  revert total. induction counts as [|[n color] counts IH]; intros total Hx Ht Hs Hc Hle; cbn [bars]; [constructor|].
  apply Forall_cons in Hc as [Hn Hc]. rewrite fmap_cons in Hle. cbn [fst foldr] in *. assert (0 ≤ foldr Z.add 0 counts.*1) by (by apply sum_nonneg, Forall_fmap).
  apply Forall_app. split; [|apply IH; [done|lia|done|done|lia]].
  assert (∀ t, 0 ≤ t ≤ scale → 0 ≤ wrap32 (t * 1000 / scale) ≤ 1000) as Hw.
  { intros t Ht'. assert (0 ≤ t * 1000 / scale ≤ 1000) by (split; [apply Z.div_pos; lia|apply Z.div_le_upper_bound; lia]).
    unfold wrap32. rewrite Z.mod_small; lia. }
  pose proof (Hw total ltac:(lia)). pose proof (Hw (total + n) ltac:(lia)). case_match; [|constructor]. constructor; [|constructor].
  unfold rect_fits. simpl. unfold wrap32 at 1 3. rewrite Z.mod_small by lia. lia.
Qed.

Lemma foldr_max_bound l bound : 0 ≤ bound → Forall (λ n, 0 ≤ n ≤ bound) l →
  0 ≤ foldr Z.max 0 l ≤ bound ∧ ∀ n, n ∈ l → n ≤ foldr Z.max 0 l.
Proof.
  intros Hb. induction 1 as [|n l Hn Hl [IH IH']]; simpl; [split; [lia|by intros n ?%elem_of_nil]|]. cbv beta in Hn. split; [lia|].
  intros m [->|Hm]%elem_of_cons; [lia|]. specialize (IH' m Hm). lia.
Qed.
Definition minute_sum (first count : nat) (b : Bucket) : Z := sum64 (series_range first count b).
Lemma scale_ge first count buckets b : b ∈ buckets → Forall (λ b, 0 ≤ minute_sum first count b ≤ u64_max) buckets →
  minute_sum first count b ≤ strip_scale first count buckets ∧ 0 < strip_scale first count buckets.
Proof.
  intros Hin Hall. unfold strip_scale. fold (minute_sum first count).
  destruct (foldr_max_bound (minute_sum first count <$> buckets) u64_max ltac:(done)) as [Hm Hle]; [by apply Forall_fmap|].
  specialize (Hle (minute_sum first count b) ltac:(by apply list_elem_of_fmap_2)).
  set (m := foldr Z.max 0 _) in *.
  destruct (next_power_ge (Z.max m 1)) as [Hp H0]; [unfold u64_max in *; lia|]. lia.
Qed.

(** A minute's counts add up to what was seen in it. *)
Lemma counts_total l minute : foldr Z.add 0 (log_count l minute <$> seq 0 6) ≤ len (lg_seen l).
Proof.
  unfold log_count. generalize (lg_seen l). intros seen. induction seen as [|e seen IH]; [done|].
  rewrite len_cons. etransitivity; [|apply Zplus_le_compat_l, IH]. clear IH.
  assert (∀ k, len (filter (seen_in minute k) (e :: seen)) ≤ (if decide (e.2 = k) then 1 else 0) + len (filter (seen_in minute k) seen)) as Hk.
  { intros k. rewrite filter_cons. repeat case_decide; rewrite ?len_cons; try lia. destruct H0. by destruct H1. }
  simpl. pose proof (Hk 0%nat). pose proof (Hk 1%nat). pose proof (Hk 2%nat). pose proof (Hk 3%nat). pose proof (Hk 4%nat). pose proof (Hk 5%nat).
  repeat case_decide; lia.
Qed.

Lemma sum_app a b : foldr Z.add 0 (a ++ b) = foldr Z.add 0 a + foldr Z.add 0 b.
Proof. induction a as [|x a IH]; simpl; [done|]. rewrite IH. lia. Qed.
Lemma sum_range l first count : Forall (λ n, 0 ≤ n) l → foldr Z.add 0 (take count (drop first l)) ≤ foldr Z.add 0 l.
Proof.
  intros Hl. rewrite <- (take_drop first l) at 2. rewrite <- (take_drop count (drop first l)) at 2. rewrite !sum_app.
  assert (0 ≤ foldr Z.add 0 (take first l)) by (by apply sum_nonneg, Forall_take).
  assert (0 ≤ foldr Z.add 0 (drop count (drop first l))) by (by apply sum_nonneg, Forall_drop, Forall_drop). lia.
Qed.
Lemma sum_le {A} (f g : A → Z) l : (∀ x, f x ≤ g x) → foldr Z.add 0 (f <$> l) ≤ foldr Z.add 0 (g <$> l).
Proof. intros Hfg. induction l as [|x l IH]; [done|]. rewrite !fmap_cons. simpl. specialize (Hfg x). lia. Qed.

Lemma counts_nonneg l minute : Forall (λ n, 0 ≤ n) (bk_counts (bucket_of l minute)).
Proof. apply Forall_fmap, Forall_true. intros k. simpl. unfold log_count, u64_max. pose proof (len_nonneg (filter (seen_in minute k) (lg_seen l))). lia. Qed.
(** The counts of a strip in a minute and their sum, which does not wrap around. *)
Lemma minute_sum_of l minute first count : len (lg_seen l) ≤ u64_max →
  minute_sum first count (bucket_of l minute) = foldr Z.add 0 (series_range first count (bucket_of l minute))
  ∧ 0 ≤ foldr Z.add 0 (series_range first count (bucket_of l minute)) ≤ u64_max.
Proof.
  intros Hl. pose proof (counts_nonneg l minute) as Hpos. unfold minute_sum, sum64, series_range.
  pose proof (sum_range (bk_counts (bucket_of l minute)) first count Hpos) as Hr.
  assert (foldr Z.add 0 (bk_counts (bucket_of l minute)) ≤ len (lg_seen l)) as Ht.
  { etransitivity; [|apply (counts_total l minute)]. apply sum_le. intros k. lia. }
  assert (Forall (λ n, 0 ≤ n) (take count (drop first (bk_counts (bucket_of l minute))))) as Hpos' by (by apply Forall_take, Forall_drop).
  pose proof (sum_nonneg _ Hpos'). split; [|lia]. rewrite sum64_exact; [lia|done|lia|lia].
Qed.

Lemma slot_fits l now slot first count : len (lg_seen l) ≤ u64_max → 0 ≤ slot < BUCKETS →
  Forall rect_fits (slot_rects (activity_of l) now (strip_scale first count (ac_buckets (activity_of l))) first count slot).
Proof.
  intros Hl Hs. unfold BUCKETS in Hs. unfold slot_rects. cbv zeta. set (bucket := bucket_at _ _).
  assert (∀ b, bucket = Some b → ∃ m, b = bucket_of l m ∧ b ∈ ac_buckets (activity_of l)) as Hb.
  { unfold bucket, bucket_at. intros b Hb. destruct (checked_sub _ _); [|done]. simpl in Hb. destruct (head _); [|done]. simpl in Hb.
    destruct (checked_sub _ _); [|done]. simpl in Hb. pose proof (list_elem_of_lookup_2 _ _ _ Hb) as Hin.
    pose proof Hin as (m & -> & _)%list_elem_of_fmap. by exists m. }
  apply Forall_app. split.
  - repeat case_match; repeat constructor; simpl; lia.
  - destruct bucket as [b|]; [|constructor]. destruct (Hb b eq_refl) as (m & -> & Hin).
    destruct (minute_sum_of l m first count Hl) as [Hsum Hrange].
    destruct (scale_ge first count (ac_buckets (activity_of l)) (bucket_of l m) Hin) as [Hle Hpos].
    { apply Forall_fmap, Forall_true. intros m'. destruct (minute_sum_of l m' first count Hl) as [E ?]. simpl. by rewrite E. }
    apply bars_fit; [lia|done|done| |].
    + rewrite <- (Forall_fmap fst (λ n, 0 ≤ n)), fst_zip; [by apply Forall_take, Forall_drop, counts_nonneg|].
      unfold series_range. rewrite !length_take, !length_drop. simpl. lia.
    + rewrite fst_zip; [rewrite Hsum in Hle; lia|]. unfold series_range. rewrite !length_take, !length_drop. simpl. lia.
Qed.

Lemma seen_bound events : len (lg_seen (log_of events)) ≤ len events.
Proof.
  unfold log_of. assert (∀ l, len (lg_seen (foldl (λ l e, log_event e l) l events)) ≤ len (lg_seen l) + len events) as Hgen.
  { induction events as [|e events IH]; intros l; simpl; [rewrite len_nil; lia|]. rewrite len_cons.
    specialize (IH (log_event e l)). assert (len (lg_seen (log_event e l)) ≤ len (lg_seen l) + 1); [|lia].
    destruct e as [now c|p now]; unfold log_event, log_observe, log_advance; cbv zeta; repeat case_match; simpl;
      rewrite ?len_cons, ?len_nil; pose proof (len_nonneg (lg_seen l)); lia. }
  exact (Hgen log_empty).
Qed.

(** What is drawn of the reception history stays within its sixty minutes and its height. *)
Theorem activity_view_fits (events : list event) (now : Z) a strips : in_time events → len events ≤ u64_max →
  run events activity_default = Some a → view a now = Some strips → Forall (λ s, Forall rect_fits (sp_rects s)) strips.
Proof.
  intros Ht Hl Hrun. destruct (run_default events Ht) as [E _]. rewrite E in Hrun. injection Hrun as <-.
  pose proof (seen_bound events) as Hseen. unfold view. destruct (ac_last_ms _); [|done]. intros [= <-].
  assert (∀ title first count, Forall rect_fits (sp_rects (strip (activity_of (log_of events)) now title first count))) as Hstrip.
  { intros title first count. unfold strip. cbn [sp_rects]. rewrite Forall_forall. intros r (slot & Hr & Hin)%list_elem_of_bind.
    apply elem_of_seqZ in Hin. pose proof (slot_fits (log_of events) (now / MINUTE_MS) slot first count) as Hf.
    rewrite Forall_forall in Hf. apply Hf; [lia|lia|done]. }
  by repeat constructor.
Qed.
End activity.

(** ** A run *)

#[local] Instance no_dates : Chrono :=
  {| NaiveDate := unit; DateTime := unit; from_ymd_opt := λ _ _ _, None; date_year := λ _, 0; date_month := λ _, 0;
     checked_sub_months := λ _ _, None; checked_add_months := λ _ _, None; and_hms_opt := λ _ _ _ _, None;
     utc_year := λ _, 0; utc_month := λ _, 0; timestamp_millis := λ _, 0; datetime_ltb := λ _ _, false; millis_since := λ _ _, 0 |}.
Definition sample_events : list event :=
  [EvAdvance 0 true; EvObserve (ProductNmea []) 59999; EvObserve (ProductNmea []) 60000; EvAdvance 65000 false; EvAdvance 180000 true].
Lemma sample_in_time : in_time sample_events.
Proof. split; repeat constructor; vm_compute; discriminate. Qed.
Definition sample_activity : Activity := default activity_default (run sample_events activity_default).

Lemma activity_refines_witness :
  run sample_events activity_default = Some (activity_of (log_of sample_events))
  ∧ (λ b, (bk_minute b, bk_disconnected b)) <$> ac_buckets (activity_of (log_of sample_events))
    = [(0, false); (1, true); (2, true); (3, false)]
  ∧ (λ b, bk_counts b !! 1%nat) <$> ac_buckets (activity_of (log_of sample_events)) = [Some 1; Some 1; Some 0; Some 0].
Proof. split; [apply activity_refines, sample_in_time|]. split; vm_compute; reflexivity. Defined.

Lemma activity_view_fits_witness :
  ∃ strips, view sample_activity 180000 = Some strips ∧ Forall (λ s, Forall rect_fits (sp_rects s)) strips.
Proof.
  eexists. split; [reflexivity|].
  apply (activity_view_fits sample_events 180000 sample_activity _ sample_in_time); [vm_compute; discriminate|vm_compute; reflexivity|reflexivity].
Defined.
