(* ===== verification/ReceiverRadar.v ===== *)
(** * The receiver's radar images (receiver/radar.rs)

    Radar products become images cut into tiles; a frame shows the national image under the
    regional one, and the frames of the last updates are kept within a number and a size.
    The digest, the JSON of an image's identity and of its manifest, and the PNG encoder are
    parameters. *)

From Stdlib Require Import Strings.Byte Floats.SpecFloat.

From stdpp Require Import base gmap list list_numbers strings sorting pretty.
From S2P Require Import Prelude Float64 ReceiverFraming ReceiverProtocol ReceiverProducts ReceiverProductsCorrect.

Local Open Scope Z_scope.

Definition RESOURCE_PREFIX : bytes := bs "core-image://receiver-radar/".
Definition TILE_SIZE : Z := 256.
Definition MAX_HISTORY_BYTES : Z := 32 * 1024 * 1024.
(** live_feeds.rs and radar_selection.rs *)
Definition NEXRAD_FRAME_WINDOW_SIZE : Z := 6 + 1.
Definition NEXRAD_MAX_DISPLAY_AGE_MS : Z := 60 * 60000.

(** An image's identity before the grid: what is digested. *)
Record ImageIdentity `{Chrono} := {
  ii_regional : bool; ii_issue : DateTime; ii_observed : DateTime; ii_center_latitude : f64; ii_center_longitude : f64;
  ii_reference_latitude : f64; ii_columns : Z; ii_rows : Z; ii_pixel_width_meters : Z; ii_pixel_height_meters : Z }.

Class RadarLibs `{Chrono} := {
  radar_sha256 : bytes → bytes;
  identity_to_vec : ImageIdentity → option bytes;
  (** [write_to] with [ImageFormat::Png]: width, height and pixels of four channels. *)
  encode_png : Z → Z → list (Z * Z * Z * Z) → option bytes;
  Manifest : Type;
  (** The manifest of an id, an observation time, a transform and a size. *)
  manifest_json : bytes → DateTime → list f64 → Z → Z → Manifest }.

Section radar.
Context `{Libm} `{RadarLibs}.

Record Image := {
  im_id : bytes; im_observed : DateTime; im_issue : DateTime; im_regional : bool; im_manifest : Manifest;
  im_tiles : gmap bytes bytes; im_bytes : Z }.
Record Frame := { fr_id : bytes; fr_layers : list Image }.

(** [join("+")]. *)
Fixpoint join_plus (l : list bytes) : bytes :=
  match l with [] => [] | [x] => x | x :: l => x ++ bs "+" ++ join_plus l end.
Definition frame_new (layers : list Image) : Frame := {| fr_id := join_plus (im_id <$> layers); fr_layers := layers |}.

Definition decimal (n : Z) : bytes := bs (pretty (Z.to_N n)).
Definition tile_url (id : bytes) (res x y : Z) : bytes :=
  RESOURCE_PREFIX ++ id ++ bs "/tiles/res" ++ decimal res ++ bs "/" ++ decimal x ++ bs "/" ++ decimal y ++ bs ".png".

(** The palette; channels red, green, blue and alpha. *)
Definition color (code : Z) (regional : bool) : Z * Z * Z * Z :=
  let argb :=
    if (code =? 0) || (code =? 8) || (code =? 16) then 0
    else if (code =? 1) && negb regional then 0
    else if code =? 1 then wrap32 (-16718336)
    else if code =? 2 then wrap32 (-16741376)
    else if code =? 3 then wrap32 (-256)
    else if code =? 4 then wrap32 (-32256)
    else if code =? 5 then wrap32 (-45056)
    else if code =? 6 then wrap32 (-65536)
    else if code =? 7 then wrap32 (-4718592)
    else if (code =? 24) && negb regional then 0
    else 0x30000000 in
  (wrap8 (Z.shiftr argb 16), wrap8 (Z.shiftr argb 8), wrap8 argb, wrap8 (Z.shiftr argb 24)).

Definition div_ceil (a b : Z) : Z := (a + b - 1) / b.

(** The pixels of a tile, row by row; [Panics] when an index is out of the grid. *)
Definition tile_pixels (grid : bytes) (width regional_x regional_y tw th : Z) (regional : bool) : result fault (list (Z * Z * Z * Z)) :=
  try_map (λ p : Z * Z,
      let '(row, col) := p in
      let i := wrap32 (wrap32 ((wrap32 (regional_y * TILE_SIZE) + row) * width) + wrap32 (regional_x * TILE_SIZE) + col) in
      code ← index grid i; Ok (color (b2z code) regional))
    (row ← seqZ 0 th; col ← seqZ 0 tw; [(row, col)]).

Definition cut_tile (grid id : bytes) (width height : Z) (regional : bool) (acc : gmap bytes bytes * Z) (yx : Z * Z)
    : result fault (gmap bytes bytes * Z) :=
  let '(y, x) := yx in
  let '(tiles, size) := acc in
  let tw := Z.min TILE_SIZE (wrap32 (width - x * TILE_SIZE)) in
  let th := Z.min TILE_SIZE (wrap32 (height - y * TILE_SIZE)) in
  pixels ← tile_pixels grid width x y tw th regional;
  png ← ok_or (encode_png tw th pixels) (refused "radar tile encoding");
  let size := size + len png in
  _ ← guard_err (size >? MAX_HISTORY_BYTES) (refused "receiver radar memory limit");
  Ok (<[tile_url id 0 x y := png]> tiles, size).

Definition cut_tiles (grid id : bytes) (width height : Z) (regional : bool) : result fault (gmap bytes bytes * Z) :=
  try_fold (cut_tile grid id width height regional) (∅, 0)
    (y ← seqZ 0 (div_ceil height TILE_SIZE); x ← seqZ 0 (div_ceil width TILE_SIZE); [(y, x)]).

(** The bytes of all images, each counted once. *)
Fixpoint distinct_bytes (seen : gset bytes) (images : list Image) : Z :=
  match images with
  | [] => 0
  | i :: images =>
      if bool_decide (im_id i ∈ seen) then distinct_bytes seen images
      else im_bytes i + distinct_bytes ({[im_id i]} ∪ seen) images
  end.
Definition history_bytes (frames : list Frame) : Z := distinct_bytes ∅ (frames ≫= fr_layers).

(** [remove(0)] while there are too many frames or bytes. *)
Fixpoint evict (frames : list Frame) : result fault (list Frame) :=
  if (len frames >? NEXRAD_FRAME_WINDOW_SIZE) || (history_bytes frames >? MAX_HISTORY_BYTES) then
    match frames with [] => Err Panics | _ :: frames => evict frames end
  else Ok frames.

Definition is_regional (kind : WeatherKind) : result fault bool :=
  match kind with RegionalRadar => Ok true | ConusRadar => Ok false | _ => Err (refused "not a radar product") end.

(** The image a radar product stands for. *)
Definition image_id (regional : bool) (issue observed : DateTime) (r : Radar) : result fault bytes :=
  identity ← ok_or (identity_to_vec {|
      ii_regional := regional; ii_issue := issue; ii_observed := observed; ii_center_latitude := ra_center_latitude r;
      ii_center_longitude := ra_center_longitude r; ii_reference_latitude := ra_reference_latitude r;
      ii_columns := ra_columns r; ii_rows := ra_rows r; ii_pixel_width_meters := ra_pixel_width_meters r;
      ii_pixel_height_meters := ra_pixel_height_meters r |}) (refused "radar identity encoding");
  Ok (hex_lower (radar_sha256 (identity ++ ra_grid r))).

Definition bad_dimensions (r : Radar) : bool :=
  (ra_columns r =? 0) || (ra_rows r =? 0) || (len (ra_grid r) >? 16 * 1024 * 1024)
  || negb (len (ra_grid r) =? ra_columns r * ra_rows r).

Definition image_of (regional : bool) (issue observed : DateTime) (id : bytes) (r : Radar) : result fault Image :=
  _ ← guard_err (bad_dimensions r) (refused "invalid radar dimensions");
  let '(north, west) := lat_lon r (f64_lit 0 0) (f64_lit 0 0) in
  let '(next_lat, next_lon) := lat_lon r (f64_lit 1 0) (f64_lit 1 0) in
  let '(south, east) := lat_lon r (f64_lit (ra_columns r) 0) (f64_lit (ra_rows r) 0) in
  _ ← guard_err (negb (forallb is_finite [north; west; next_lat; next_lon; south; east]) || f64_ge south north
                 || f64_ge west east || f64_lt south (f64_lit (-90) 0) || f64_gt north (f64_lit 90 0))
        (refused "invalid radar georeference");
  let width := ra_columns r in
  let height := ra_rows r in
  cut ← cut_tiles (ra_grid r) id width height regional;
  Ok {| im_id := id; im_observed := observed; im_issue := issue; im_regional := regional;
        im_manifest := manifest_json id observed [west; f64_sub next_lon west; f64_lit 0 0; north; f64_lit 0 0; f64_sub next_lat north]
                         width height;
        im_tiles := cut.1; im_bytes := cut.2 |}.

(** [sort_by_key(|image| image.regional)]. *)
Definition layer_le (a b : Image) : Prop := im_regional a = true → im_regional b = true.
#[global] Instance layer_le_dec a b : Decision (layer_le a b).
Proof. unfold layer_le. destruct (im_regional a), (im_regional b); (left; done) || (right; intros E; discriminate (E eq_refl)). Defined.

Definition find_image (regional : bool) (frames : list Frame) : option Image :=
  frame ← list.last frames; snd <$> list_find (λ i, im_regional i = regional) (fr_layers frame).

(** The other image of the last frame, unless it is too old to show. *)
Definition kept_layers (regional : bool) (now : DateTime) (frames : list Frame) : list Image :=
  match list.last frames with
  | None => []
  | Some frame =>
      filter (λ old, im_regional old ≠ regional ∧ millis_since now (im_observed old) ≤ NEXRAD_MAX_DISPLAY_AGE_MS) (fr_layers frame)
  end.

(** The frames after the update and whether there was one; an error leaves the frames. *)
Definition ingest (r : Radar) (now : DateTime) (frames : list Frame) : result fault (list Frame * bool) :=
  regional ← is_regional (ra_kind r);
  issue ← ok_or (resolve_nearest (ra_issue_time r) now) (refused "invalid radar issue date");
  observed ← ok_or (resolve_nearest (ra_precipitation_time r) issue) (refused "invalid radar observation date");
  let prior := find_image regional frames in
  if match prior with Some i => datetime_ltb issue (im_issue i) || datetime_ltb observed (im_observed i) | None => false end
  then Ok (frames, false)
  else
    id ← image_id regional issue observed r;
    if match prior with Some i => bool_decide (im_id i = id) | None => false end then Ok (frames, false)
    else
      image ← image_of regional issue observed id r;
      let layers := merge_sort layer_le (kept_layers regional now frames ++ [image]) in
      _ ← guard_err (foldr (λ i sum, im_bytes i + sum) 0 layers >? MAX_HISTORY_BYTES) (refused "receiver radar memory limit");
      frames ← evict (frames ++ [frame_new layers]);
      Ok (frames, true).

Definition tile (src : bytes) (frames : list Frame) : option bytes :=
  head (omap (λ i, im_tiles i !! src) (reverse frames ≫= fr_layers)).

(** ** The guarantees *)

(** *** Cutting tiles *)

Lemma tile_index width height x y row col : 0 < width < 65536 → 0 < height < 65536 → width * height ≤ 16 * 1024 * 1024 →
  0 ≤ x → 0 ≤ y → 0 ≤ row → 0 ≤ col → x * TILE_SIZE + col < width → y * TILE_SIZE + row < height →
  0 ≤ wrap32 (wrap32 ((wrap32 (y * TILE_SIZE) + row) * width) + wrap32 (x * TILE_SIZE) + col) < width * height.
Proof.
  intros Hw Hh Hs Hx Hy Hr Hc Hxw Hyh. unfold TILE_SIZE in *. unfold wrap32.
  rewrite (Z.mod_small (y * 256)), (Z.mod_small (x * 256)) by lia.
  assert (0 ≤ (y * 256 + row) * width ≤ (height - 1) * width) by (split; [|apply Z.mul_le_mono_nonneg_r]; nia).
  rewrite (Z.mod_small ((y * 256 + row) * width)) by nia. rewrite Z.mod_small; nia.
Qed.

Lemma settled_try_map {A B} (f : A → result fault B) (P : B → Prop) l : (∀ x, x ∈ l → settled P (f x)) → settled (Forall P) (try_map f l).
Proof.
  induction l as [|x l IH]; intros Hf; simpl; [constructor|]. eapply settled_bind; [apply Hf; left|intros b Hb].
  eapply settled_bind; [apply IH; intros y Hy; apply Hf; by right|intros bs Hbs]. by constructor.
Qed.

Lemma cut_tile_ok grid id width height regional acc y x : 0 < width < 65536 → 0 < height < 65536 →
  len grid = width * height → width * height ≤ 16 * 1024 * 1024 →
  0 ≤ y < div_ceil height TILE_SIZE → 0 ≤ x < div_ceil width TILE_SIZE → 0 ≤ acc.2 ≤ MAX_HISTORY_BYTES →
  settled (λ acc', 0 ≤ acc'.2 ≤ MAX_HISTORY_BYTES) (cut_tile grid id width height regional acc (y, x)).
Proof.
  intros Hw Hh Hg Hs Hy Hx Hacc. destruct acc as [tiles size]. unfold cut_tile.
  assert (∀ n k, 0 ≤ k < div_ceil n TILE_SIZE → 0 < n < 65536 → k * TILE_SIZE < n ∧ wrap32 (n - k * TILE_SIZE) = n - k * TILE_SIZE) as Hk.
  { intros n k Hk Hn. unfold div_ceil, TILE_SIZE in *. assert (k * 256 < n).
    { pose proof (Z.mul_div_le (n + 256 - 1) 256 ltac:(lia)). lia. }
    split; [done|]. unfold wrap32. apply Z.mod_small. lia. }
  destruct (Hk width x Hx Hw) as [Hxw ->], (Hk height y Hy Hh) as [Hyh ->].
  eapply (settled_bind _ _ (λ _, True)).
  { eapply settled_weaken; [apply (settled_try_map _ (λ _, True))|done]. intros [row col] Hin.
    apply list_elem_of_bind in Hin as (row' & Hin & Hrow). apply list_elem_of_bind in Hin as (col' & Hin & Hcol).
    apply list_elem_of_singleton in Hin as [= <- <-]. apply elem_of_seqZ in Hrow, Hcol.
    cbv zeta. pose proof (tile_index width height x y row col) as Hi. destruct (index_Ok grid (wrap32 (wrap32 ((wrap32 (y * TILE_SIZE) + row) * width)
      + wrap32 (x * TILE_SIZE) + col))) as (b & -> & _); [rewrite Hg; apply Hi; lia|done]. }
  intros pixels _. eapply settled_bind; [apply settled_or|intros png _]. apply settled_check. intros Hm.
  rewrite Z.gtb_ltb, Z.ltb_ge in Hm. simpl in *. pose proof (len_nonneg png). lia.
Qed.
Lemma cut_tiles_ok grid id width height regional : 0 < width < 65536 → 0 < height < 65536 →
  len grid = width * height → width * height ≤ 16 * 1024 * 1024 →
  settled (λ acc, 0 ≤ acc.2 ≤ MAX_HISTORY_BYTES) (cut_tiles grid id width height regional).
Proof.
  intros Hw Hh Hg Hs. apply (settled_fold _ (λ acc, 0 ≤ acc.2 ≤ MAX_HISTORY_BYTES)); [done|]. intros acc [y x] Hacc Hin.
  apply list_elem_of_bind in Hin as (y' & Hin & Hy). apply list_elem_of_bind in Hin as (x' & Hin & Hx).
  apply list_elem_of_singleton in Hin as [= <- <-]. apply elem_of_seqZ in Hy, Hx. apply cut_tile_ok; (done || lia).
Qed.

(** *** The history *)

(** One image, or the national one under the regional one. *)
Definition layers_ok (layers : list Image) : Prop :=
  (∃ i, layers = [i]) ∨ (∃ i j, layers = [i; j] ∧ im_regional i = false ∧ im_regional j = true).
Definition frame_ok (f : Frame) : Prop :=
  f = frame_new (fr_layers f) ∧ layers_ok (fr_layers f) ∧ Forall (λ i, 0 ≤ im_bytes i) (fr_layers f).
Record history_ok (frames : list Frame) : Prop := {
  hk_count : len frames ≤ NEXRAD_FRAME_WINDOW_SIZE;
  hk_bytes : history_bytes frames ≤ MAX_HISTORY_BYTES;
  hk_frames : Forall frame_ok frames }.

Definition layer_bytes (layers : list Image) : Z := foldr (λ i sum, im_bytes i + sum) 0 layers.
Lemma distinct_le seen images : Forall (λ i, 0 ≤ im_bytes i) images → distinct_bytes seen images ≤ layer_bytes images.
Proof.
  intros Hi. revert seen. induction Hi as [|i l Hi Hl IH]; intros seen; simpl; [done|]. unfold layer_bytes in *. simpl.
  cbv beta in Hi. case_bool_decide; [specialize (IH seen); lia|]. specialize (IH ({[im_id i]} ∪ seen)). lia.
Qed.

Lemma evict_step frames :
  evict frames = if (len frames >? NEXRAD_FRAME_WINDOW_SIZE) || (history_bytes frames >? MAX_HISTORY_BYTES)
                 then match frames with [] => Err Panics | _ :: frames => evict frames end else Ok frames.
Proof. by destruct frames. Qed.
(** Eviction takes the oldest frames only and never the last. *)
Lemma evict_ok frames f : history_bytes [f] ≤ MAX_HISTORY_BYTES →
  ∃ k, evict (frames ++ [f]) = Ok (drop k frames ++ [f])
    ∧ len (drop k frames ++ [f]) ≤ NEXRAD_FRAME_WINDOW_SIZE ∧ history_bytes (drop k frames ++ [f]) ≤ MAX_HISTORY_BYTES.
Proof.
  intros Hf. induction frames as [|g frames (k & IH & Hb)]; rewrite evict_step; destruct (_ || _) eqn:Hc.
  - exfalso. apply orb_true_iff in Hc. rewrite !Z.gtb_lt in Hc. destruct Hc as [Hc|Hc]; [done|]. cbn [app] in Hc. lia.
  - exists 0%nat. done.
  - exists (S k). done.
  - exists 0%nat. rewrite orb_false_iff, !Z.gtb_ltb, !Z.ltb_ge in Hc. done.
Qed.

Lemma sorted_layers (old : list Image) i : Forall (λ o, im_regional o ≠ im_regional i) old → (length old ≤ 1)%nat →
  layers_ok (merge_sort layer_le (old ++ [i])).
Proof.
  intros Ho Hl. destruct old as [|o [|o' old]]; [|apply Forall_cons in Ho as [Ho _]|simpl in Hl; lia].
  - left. by exists i.
  - right. cbn [app]. unfold merge_sort. simpl. repeat case_decide; unfold layer_le in *; destruct (im_regional o) eqn:Eo, (im_regional i) eqn:Ei;
      try done; try (exfalso; intuition congruence); eexists _, _; done.
Qed.

Lemma kept_layers_ok regional now frames : Forall frame_ok frames →
  Forall (λ o, im_regional o ≠ regional ∧ 0 ≤ im_bytes o) (kept_layers regional now frames) ∧ (length (kept_layers regional now frames) ≤ 1)%nat.
Proof.
  intros Hf. unfold kept_layers. destruct (list.last frames) as [f|] eqn:El; [|split; [constructor|simpl; lia]].
  apply last_Some_elem_of in El. rewrite Forall_forall in Hf. destruct (Hf f El) as (_ & Hl & Hb). split.
  - apply Forall_forall. intros o [[Ho _] Hin]%list_elem_of_filter. rewrite Forall_forall in Hb. split; [done|by apply Hb].
  - destruct Hl as [[i ->]|(i & j & -> & Ei & Ej)]; rewrite ?filter_cons, ?filter_nil; repeat case_decide; simpl; try lia.
    destruct regional; intuition congruence.
Qed.

(** The outcome of an update: nothing, or a frame after the old ones of which the oldest may
    have gone. *)
Definition updated (r : Radar) (now : DateTime) (frames : list Frame) (out : list Frame * bool) : Prop :=
  history_ok out.1 ∧
  if out.2 then
    ∃ k layers image issue, out.1 = drop k frames ++ [frame_new layers] ∧ image ∈ layers
      ∧ is_regional (ra_kind r) = Ok (im_regional image)
      ∧ resolve_nearest (ra_issue_time r) now = Some issue ∧ im_issue image = issue
      ∧ resolve_nearest (ra_precipitation_time r) issue = Some (im_observed image)
      ∧ ∀ other, other ∈ layers → other = image ∨ other ∈ kept_layers (im_regional image) now frames
  else out.1 = frames.

Lemma image_of_ok regional issue observed id r : 0 ≤ ra_columns r < 65536 → 0 ≤ ra_rows r < 65536 →
  settled (λ i, im_issue i = issue ∧ im_observed i = observed ∧ im_regional i = regional ∧ 0 ≤ im_bytes i) (image_of regional issue observed id r).
Proof.
  intros Hc Hr. unfold image_of. apply settled_check. intros Hd. unfold bad_dimensions in Hd.
  rewrite !orb_false_iff, negb_false_iff, !Z.eqb_neq, Z.eqb_eq, Z.gtb_ltb, Z.ltb_ge in Hd. destruct Hd as [[[? ?] ?] Hg].
  destruct (lat_lon r _ _) as [north west], (lat_lon r _ _) as [next_lat next_lon], (lat_lon r _ _) as [south east].
  apply settled_check. intros _. cbv zeta. eapply settled_bind; [apply cut_tiles_ok; (done || lia)|]. intros [tiles size] Hsz. simpl in *. split_and!; (done || lia).
Qed.

(** C26: whatever radar product arrives, the history stays within its number of frames and its
    size, every frame has the national image under the regional one, an update only drops
    the oldest frames and ends with a frame of the new image, and nothing panics. *)
Theorem radar_history (r : Radar) (now : DateTime) (frames : list Frame) :
  history_ok frames → 0 ≤ ra_columns r < 65536 → 0 ≤ ra_rows r < 65536 → settled (updated r now frames) (ingest r now frames).
Proof.
  intros Hh Hc Hr. unfold ingest.
  eapply (settled_bind _ _ (λ b, is_regional (ra_kind r) = Ok b)); [by destruct (ra_kind r)|intros regional Hreg].
  eapply settled_bind; [apply settled_or|intros issue Hissue]. eapply settled_bind; [apply settled_or|intros observed Hobs]. cbv zeta.
  destruct (match find_image regional frames with Some i => _ | None => _ end); [done|].
  eapply (settled_bind _ _ (λ _, True)); [unfold image_id; eapply settled_bind; [apply settled_or|done]|intros id _].
  destruct (match find_image regional frames with Some i => _ | None => _ end); [done|].
  eapply settled_bind; [by apply image_of_ok|]. intros image (Hi & Ho & Hk & Hb). apply settled_check. intros Hsize.
  rewrite Z.gtb_ltb, Z.ltb_ge in Hsize. set (layers := merge_sort _ _) in *.
  destruct (kept_layers_ok regional now frames (hk_frames _ Hh)) as [Hkept Hlen].
  assert (layers ≡ₚ kept_layers regional now frames ++ [image]) as Hperm by apply merge_sort_Permutation.
  assert (Forall (λ i, 0 ≤ im_bytes i) layers) as Hpos.
  { rewrite Hperm. apply Forall_app. split; [|by constructor]. eapply Forall_impl; [exact Hkept|]. by intros o [_ ?]. }
  assert (layers_ok layers) as Hl.
  { apply sorted_layers; [|done]. eapply Forall_impl; [exact Hkept|]. intros o [Hne _]. congruence. }
  destruct (evict_ok frames (frame_new layers)) as (k & -> & Hcount & Hbytes).
  { unfold history_bytes. simpl. rewrite app_nil_r. etransitivity; [by apply distinct_le|done]. }
  simpl. split.
  - split; [done|done|]. apply Forall_app. split; [apply Forall_drop, hk_frames, Hh|]. constructor; [|constructor]. by split_and!.
  - exists k, layers, image, issue. split_and!; try done; try congruence.
    + rewrite Hperm. set_solver.
    + intros other Hin. rewrite Hperm in Hin. rewrite Hk. set_solver.
Qed.
End radar.

(** ** An update *)

#[local] Existing Instance toy_chrono.
#[local] Existing Instance flat_libm.
#[local] Instance toy_radar_libs : RadarLibs :=
  {| radar_sha256 := λ b, take 4 b; identity_to_vec := λ i, Some [if ii_regional i then x01 else x00];
     encode_png := λ w h pixels, Some (replicate (length pixels) x2a); Manifest := unit; manifest_json := λ _ _ _ _ _, tt |}.
Definition sample_image : Radar := with_grid [x18; x07] sample_radar.
(** The sixth of October 2026, two o'clock. *)
Definition sample_now : DateTime := ((((2026 * 12 + 10) * 30 + 6) * 24 + 2) * 60) * 60.

Lemma history_empty : history_ok [].
Proof. by split; try constructor. Qed.
Lemma radar_history_witness :
  settled (updated sample_image sample_now []) (ingest sample_image sample_now [])
  ∧ (λ out, (fr_layers <$> out.1) ≫= (λ layers, im_bytes <$> layers)) <$> ingest sample_image sample_now [] = Ok [2].
Proof.
  split; [|vm_compute; reflexivity].
  apply (radar_history sample_image sample_now [] history_empty); vm_compute; split; (reflexivity || discriminate).
Defined.
