(* ===== verification/ReceiverLive.v ===== *)
(** * The receiver's live data (receiver/live.rs, nmea.rs)

    The own position, the traffic and the pressure altitude a receiver reports, each with the
    time until which it may be shown. Snapshots are shared values that are copied before they
    are changed, so a snapshot that was handed out stays as it was.

    The altitude above mean sea level comes from NMEA's GGA sentences, which are read here.
    What that takes of chrono is the class [ChronoTime]. Fields that are the same in every
    sample are left out. *)

From Stdlib Require Import Strings.Byte Floats.SpecFloat.

From stdpp Require Import base gmap list list_numbers strings sorting pretty.
From S2P Require Import Prelude Utf8 Float64 AcsContracts AirwayRouting.
From S2P Require Import ReceiverFraming ReceiverProtocol ReceiverCapture ReceiverProducts ReceiverProductsCorrect ReceiverRadar.

Local Open Scope Z_scope.

Definition FIX_LIFETIME_MS : Z := 10000.
Definition PRESSURE_LIFETIME_MS : Z := 5000.
(** adsb.rs *)
Definition MAX_VISIBLE_POSITION_AGE_MS : Z := 15000.

(** [saturating_add] and [saturating_sub] of [i64]; [u64::saturating_add]. *)
Definition clamp64 (z : Z) : Z := Z.max (-9223372036854775808) (Z.min 9223372036854775807 z).
Definition add_i64 (a b : Z) : Z := clamp64 (a + b).
Definition sub_i64 (a b : Z) : Z := clamp64 (a - b).

(** [x.ceil() as i64]. *)
Definition ceil_to_i64 (x : f64) : Z :=
  match x with
  | S754_finite s m e =>
      let v := if s then Zneg m else Zpos m in
      clamp64 (if 0 <=? e then v * 2 ^ e else - ((- v) / 2 ^ (- e)))
  | S754_infinity s => clamp64 (if s then -2 ^ 64 else 2 ^ 64)
  | _ => 0
  end.

Record PressureSample := { ps_altitude_ft : f64; ps_clock : CaptureClock }.
Record SituationSample := {
  ss_event_time_epoch_ms : Z; ss_received_time_epoch_ms : Z; ss_position : option LatLon;
  ss_track_deg_true : option f64; ss_heading_deg_true : option f64; ss_ground_speed_kt : option f64;
  ss_altitude_msl_ft : option f64; ss_pressure_altitude_ft : option f64 }.
Record AdsbAircraft := {
  aa_id : bytes; aa_callsign : option bytes; aa_position : option LatLon; aa_position_epoch_ms : option Z;
  aa_ground_speed_kt : option f64; aa_pressure_altitude_ft : option f64; aa_on_ground : bool }.

(** ** GGA sentences (nmea.rs) *)

Record Gga := { gg_time : Z; gg_fix : option (LatLon * option f64) }.

(** *** [str::parse::<f64>] *)

Definition digit_value (b : byte) : option Z := if byte_in 48 57 (b2z b) then Some (b2z b - 48) else None.
(** The digits at the front and what follows them. *)
Fixpoint take_digits (s : bytes) : list Z * bytes :=
  match s with
  | b :: rest => match digit_value b with Some d => let '(ds, rest) := take_digits rest in (d :: ds, rest) | None => ([], s) end
  | [] => ([], [])
  end.
Definition digits_number (ds : list Z) : Z := foldl (λ n d, 10 * n + d) 0 ds.
(** A sign at the front: whether it is a minus. *)
Definition take_sign (s : bytes) : bool * bytes :=
  match s with
  | b :: rest => if bool_decide (b = x2d) then (true, rest) else if bool_decide (b = x2b) then (false, rest) else (false, s)
  | [] => (false, [])
  end.
(** The number [m * 10 ^ e], rounded once. *)
Definition f64_decimal (negative : bool) (m e : Z) : f64 :=
  match m with
  | Zpos p =>
      if 0 <=? e then binary_normalize 53 1024 (cond_Zopp negative (m * 10 ^ e)) 0 negative
      else SFdiv 53 1024 (S754_finite negative p 0) (S754_finite false (Z.to_pos (10 ^ (- e))) 0)
  | _ => S754_zero negative
  end.
(** The exponent, when there is one; nothing may follow it. *)
Definition parse_exponent (s : bytes) : option Z :=
  match s with
  | [] => Some 0
  | b :: rest =>
      if bool_decide (b ∈ [x65; x45]) then
        let '(negative, rest) := take_sign rest in
        let '(ds, rest) := take_digits rest in
        if bool_decide (ds = []) || negb (bool_decide (rest = [])) then None else Some (cond_Zopp negative (digits_number ds))
      else None
  end.
Definition parse_f64 (s : bytes) : option f64 :=
  let '(negative, body) := take_sign s in
  let word := to_ascii_uppercase body in
  if bool_decide (word = bs "INF") || bool_decide (word = bs "INFINITY") then Some (S754_infinity negative)
  else if bool_decide (word = bs "NAN") then Some S754_nan
  else
    let '(whole, rest) := take_digits body in
    let '(fraction, rest) := match strip_prefix x2e rest with Some rest => take_digits rest | None => ([], rest) end in
    if bool_decide (whole ++ fraction = []) then None
    else e ← parse_exponent rest; Some (f64_decimal negative (digits_number (whole ++ fraction)) (e - len fraction)).

(** *** The sentence *)

(** More of the crate chrono. *)
Class ChronoTime `{Chrono} := {
  NaiveTime : Type;
  (** [parse_from_str] with the format of hours, minutes, seconds and their fraction. *)
  parse_hms : bytes → option NaiveTime;
  from_timestamp_millis : Z → option DateTime;
  (** [date_naive().and_time(time).and_utc()]. *)
  at_time : DateTime → NaiveTime → DateTime;
  checked_add_days : DateTime → Z → option DateTime }.

Definition one_of (choices : list bytes) (s : bytes) : bool := bool_decide (s ∈ choices).
Definition coordinate (value hemisphere : bytes) (latitude : bool) : option f64 :=
  let degrees_len := if latitude then 2 else 3 in
  if negb (forallb (λ b, b2z b <? 128) value) || (len value <? degrees_len + 2) then None
  else
    degrees ← parse_f64 (take (Z.to_nat degrees_len) value);
    minutes ← parse_f64 (drop (Z.to_nat degrees_len) value);
    sign ← (if one_of [bs (if latitude then "N" else "E")] hemisphere then Some (f64_lit 1 0)
            else if one_of [bs (if latitude then "S" else "W")] hemisphere then Some (f64_lit (-1) 0) else None);
    let maximum := f64_lit (if latitude then 90 else 180) 0 in
    let value := f64_add degrees (f64_div minutes (f64_lit 60 0)) in
    then_some (f64_ge degrees (f64_lit 0 0) && (f64_le (f64_lit 0 0) minutes && f64_lt minutes (f64_lit 60 0))
               && f64_le value maximum) (f64_mul sign value).

Definition gga_altitude (text unit : bytes) : option f64 :=
  if one_of [bs "M"] unit then
    meters ← parse_f64 text;
    if is_finite meters && (f64_le (f64_lit (-1000) 0) meters && f64_le meters (f64_lit 30000 0))
    then Some (f64_div meters (f64_div (f64_lit 3048 0) (f64_lit 10000 0))) else None
  else None.
(** The UTC day that brings the time of day nearest to now. *)
Definition nearest_day `{ChronoTime} (time : NaiveTime) (now : DateTime) : option Z :=
  let midnight := at_time now time in
  timestamp_millis <$> min_by_key (λ candidate, Z.abs (timestamp_millis candidate - timestamp_millis now))
                         (omap (checked_add_days midnight) [-1; 0; 1]).

(** The fields by their positions: time 1, latitude 2 and 3, longitude 4 and 5, quality 6,
    altitude 9 and its unit 10. *)
Definition gga `{ChronoTime} (sentence : bytes) (now : Z) : option Gga :=
  rest ← strip_prefix x24 sentence;
  body ← head (split_on x2a rest);
  match split_on x2c body with
  | kind :: time :: lat_value :: lat_half :: lon_value :: lon_half :: quality :: _ :: _ :: altitude :: unit :: _ =>
      if negb (one_of [bs "GPGGA"; bs "GNGGA"] kind) then None
      else
        time ← parse_hms time;
        now ← from_timestamp_millis now;
        time ← nearest_day time now;
        Some {| gg_time := time;
                gg_fix := if one_of [bs "1"; bs "2"; bs "3"; bs "4"; bs "5"] quality then
                            lat ← coordinate lat_value lat_half true;
                            lon ← coordinate lon_value lon_half false;
                            Some ({| lat := lat; lon := lon |}, gga_altitude altitude unit)
                          else None |}
  | _ => None
  end.

Section live.
Context `{Libm} `{RadarLibs} `{!ChronoTime}.

Record LiveSnapshot := {
  ls_available : bool; ls_connected : bool; ls_ownship : option SituationSample;
  ls_ownship_deadline_epoch_ms : option Z; ls_ownship_deadline_monotonic_ms : option Z;
  ls_aircraft : list AdsbAircraft; ls_pressure : option PressureSample; ls_radar : list Frame }.
Definition snapshot_default : LiveSnapshot :=
  {| ls_available := false; ls_connected := false; ls_ownship := None; ls_ownship_deadline_epoch_ms := None;
     ls_ownship_deadline_monotonic_ms := None; ls_aircraft := []; ls_pressure := None; ls_radar := [] |}.

Record LiveInput := {
  li_snapshot : LiveSnapshot; li_generation : Z; li_last_fix_epoch_ms : option Z; li_fix_deadline_monotonic_ms : option Z;
  li_traffic_deadline_monotonic_ms : option Z; li_gga : option Gga }.
Definition live_default : LiveInput :=
  {| li_snapshot := snapshot_default; li_generation := 0; li_last_fix_epoch_ms := None; li_fix_deadline_monotonic_ms := None;
     li_traffic_deadline_monotonic_ms := None; li_gga := None |}.

(** *** Reading a snapshot *)

Definition pressure_at (clock : CaptureClock) (s : LiveSnapshot) : option (Z * f64) :=
  match ls_pressure s with
  | None => None
  | Some p =>
      if (monotonic_ms (ps_clock p) <=? monotonic_ms clock)
         && (monotonic_ms clock - monotonic_ms (ps_clock p) <? PRESSURE_LIFETIME_MS)
         && (0 <=? sub_i64 (wall_epoch_ms clock) (wall_epoch_ms (ps_clock p)))
         && (sub_i64 (wall_epoch_ms clock) (wall_epoch_ms (ps_clock p)) <? PRESSURE_LIFETIME_MS)
      then Some (wall_epoch_ms (ps_clock p), ps_altitude_ft p) else None
  end.
Definition before (now : Z) (deadline : option Z) : bool := match deadline with Some d => now <? d | None => false end.
Definition ownship_at (clock : CaptureClock) (s : LiveSnapshot) : option SituationSample :=
  match ls_ownship s with
  | None => None
  | Some sample =>
      if (ss_received_time_epoch_ms sample <=? wall_epoch_ms clock)
         && before (wall_epoch_ms clock) (ls_ownship_deadline_epoch_ms s)
         && before (monotonic_ms clock) (ls_ownship_deadline_monotonic_ms s)
      then Some sample else None
  end.

(** *** Updates of the fields *)

Definition with_ownship (o : option SituationSample) (s : LiveSnapshot) : LiveSnapshot :=
  {| ls_available := ls_available s; ls_connected := ls_connected s; ls_ownship := o;
     ls_ownship_deadline_epoch_ms := ls_ownship_deadline_epoch_ms s;
     ls_ownship_deadline_monotonic_ms := ls_ownship_deadline_monotonic_ms s; ls_aircraft := ls_aircraft s;
     ls_pressure := ls_pressure s; ls_radar := ls_radar s |}.
Definition with_deadlines (epoch monotonic : option Z) (s : LiveSnapshot) : LiveSnapshot :=
  {| ls_available := ls_available s; ls_connected := ls_connected s; ls_ownship := ls_ownship s;
     ls_ownship_deadline_epoch_ms := epoch; ls_ownship_deadline_monotonic_ms := monotonic; ls_aircraft := ls_aircraft s;
     ls_pressure := ls_pressure s; ls_radar := ls_radar s |}.
Definition with_aircraft (l : list AdsbAircraft) (s : LiveSnapshot) : LiveSnapshot :=
  {| ls_available := ls_available s; ls_connected := ls_connected s; ls_ownship := ls_ownship s;
     ls_ownship_deadline_epoch_ms := ls_ownship_deadline_epoch_ms s;
     ls_ownship_deadline_monotonic_ms := ls_ownship_deadline_monotonic_ms s; ls_aircraft := l;
     ls_pressure := ls_pressure s; ls_radar := ls_radar s |}.
Definition with_pressure (p : option PressureSample) (s : LiveSnapshot) : LiveSnapshot :=
  {| ls_available := ls_available s; ls_connected := ls_connected s; ls_ownship := ls_ownship s;
     ls_ownship_deadline_epoch_ms := ls_ownship_deadline_epoch_ms s;
     ls_ownship_deadline_monotonic_ms := ls_ownship_deadline_monotonic_ms s; ls_aircraft := ls_aircraft s;
     ls_pressure := p; ls_radar := ls_radar s |}.
Definition with_radar (available : bool) (r : list Frame) (s : LiveSnapshot) : LiveSnapshot :=
  {| ls_available := available; ls_connected := ls_connected s; ls_ownship := ls_ownship s;
     ls_ownship_deadline_epoch_ms := ls_ownship_deadline_epoch_ms s;
     ls_ownship_deadline_monotonic_ms := ls_ownship_deadline_monotonic_ms s; ls_aircraft := ls_aircraft s;
     ls_pressure := ls_pressure s; ls_radar := r |}.
Definition with_snapshot (s : LiveSnapshot) (i : LiveInput) : LiveInput :=
  {| li_snapshot := s; li_generation := li_generation i; li_last_fix_epoch_ms := li_last_fix_epoch_ms i;
     li_fix_deadline_monotonic_ms := li_fix_deadline_monotonic_ms i;
     li_traffic_deadline_monotonic_ms := li_traffic_deadline_monotonic_ms i; li_gga := li_gga i |}.

(** *** The operations *)

Definition restore_radar (radar : list Frame) (i : LiveInput) : LiveInput :=
  let s := li_snapshot i in
  with_snapshot (with_radar (ls_available s || negb (bool_decide (length radar = 0%nat))) radar s) i.

Definition set_connected (connected : bool) (i : LiveInput) : LiveInput :=
  if Bool.eqb (ls_connected (li_snapshot i)) connected then i
  else {| li_snapshot := {| ls_available := true; ls_connected := connected; ls_ownship := None; ls_ownship_deadline_epoch_ms := None;
                            ls_ownship_deadline_monotonic_ms := None; ls_aircraft := []; ls_pressure := None;
                            ls_radar := ls_radar (li_snapshot i) |};
          li_generation := wrap64 (li_generation i + 1); li_last_fix_epoch_ms := None; li_fix_deadline_monotonic_ms := None;
          li_traffic_deadline_monotonic_ms := None; li_gga := None |}.

Definition with_msl (altitude : option f64) (s : SituationSample) : SituationSample :=
  {| ss_event_time_epoch_ms := ss_event_time_epoch_ms s; ss_received_time_epoch_ms := ss_received_time_epoch_ms s;
     ss_position := ss_position s; ss_track_deg_true := ss_track_deg_true s; ss_heading_deg_true := ss_heading_deg_true s;
     ss_ground_speed_kt := ss_ground_speed_kt s; ss_altitude_msl_ft := altitude;
     ss_pressure_altitude_ft := ss_pressure_altitude_ft s |}.
(** The altitude a GGA gives a sample of its own second. *)
Definition msl_of (g : Gga) (sample : SituationSample) : option f64 :=
  '(at_, altitude) ← gg_fix g;
  own ← ss_position sample;
  if f64_lt (great_circle_distance_nm own at_) (f64_div (f64_lit 5 0) (f64_lit 100 0)) then altitude else None.
Definition fuse_msl (last : option Gga) (s : LiveSnapshot) : LiveSnapshot :=
  match last, ls_ownship s with
  | Some g, Some sample =>
      let second (ms : Z) := ms / 1000 in
      if bool_decide (gg_fix g = None) && (second (ss_event_time_epoch_ms sample) <=? second (gg_time g)) then with_ownship None s
      else if negb (second (gg_time g) =? second (ss_event_time_epoch_ms sample)) then s
      else with_ownship (Some (with_msl (msl_of g sample) sample)) s
  | _, _ => s
  end.

Definition after (now : Z) (deadline : option Z) : bool := match deadline with Some d => d <=? now | None => false end.
Definition expire (clock : CaptureClock) (i : LiveInput) : LiveInput :=
  let s := li_snapshot i in
  let s := match ls_pressure s, pressure_at clock s with Some _, None => with_pressure None s | _, _ => s end in
  let traffic_over := after (monotonic_ms clock) (li_traffic_deadline_monotonic_ms i) in
  let s := if traffic_over then with_aircraft [] s else s in
  let fix_over := after (monotonic_ms clock) (li_fix_deadline_monotonic_ms i)
                  || after (wall_epoch_ms clock) (ls_ownship_deadline_epoch_ms s) in
  let s := if fix_over then with_ownship None s else s in
  {| li_snapshot := s; li_generation := li_generation i; li_last_fix_epoch_ms := li_last_fix_epoch_ms i;
     li_fix_deadline_monotonic_ms := if fix_over then None else li_fix_deadline_monotonic_ms i;
     li_traffic_deadline_monotonic_ms := if traffic_over then None else li_traffic_deadline_monotonic_ms i; li_gga := li_gga i |}.

(** The time of a fix that is newer than the last and neither old nor far ahead of the clock. *)
Definition new_fix (clock : CaptureClock) (last : option Z) (fix_time : option Z) : option Z :=
  time ← fix_time;
  let age := sub_i64 (wall_epoch_ms clock) time in
  if match last with Some l => l <? time | None => true end && (-1000 <=? age) && (age <? FIX_LIFETIME_MS) then Some time else None.

Definition zip_position (lat lon : option f64) : option LatLon := lat ← lat; lon ← lon; Some {| lat := lat; lon := lon |}.
Definition sample_of (time : Z) (clock : CaptureClock) (own : TrafficOwnship) : option SituationSample :=
  at_ ← zip_position (to_latitude own) (to_longitude own);
  Some {| ss_event_time_epoch_ms := time; ss_received_time_epoch_ms := wall_epoch_ms clock; ss_position := Some at_;
          ss_track_deg_true := to_true_track_degrees own; ss_heading_deg_true := to_true_heading_degrees own;
          ss_ground_speed_kt := to_ground_speed_knots own; ss_altitude_msl_ft := None;
          ss_pressure_altitude_ft := to_pressure_altitude_feet own |}.

(** [{:06x}] of a [u32]: six digits, more when it takes more. *)
Definition hex6 (n : Z) : bytes :=
  let digits := hex_lower (be_bytes 4 n) in
  if n <? 2 ^ 24 then drop 2 digits else if n <? 2 ^ 28 then drop 1 digits else digits.
Definition decimal_text (n : Z) : bytes := bs (pretty (Z.to_N n)).

(** When the position of a target was measured, unless it is unknown or too old. *)
Definition position_time (clock : CaptureClock) (age : option f64) : option Z :=
  age ← age;
  if is_finite age && f64_le (f64_lit 0 0) age
     && f64_le age (f64_div (f64_lit MAX_VISIBLE_POSITION_AGE_MS 0) (f64_lit 1000 0))
  then Some (sub_i64 (wall_epoch_ms clock) (ceil_to_i64 (f64_mul age (f64_lit 1000 0)))) else None.

Definition aircraft_of (generation : Z) (clock : CaptureClock) (age_seconds : option f64) (target : TrafficTarget) : AdsbAircraft :=
  {| aa_id := bs "receiver-" ++ decimal_text generation ++ bs "-" ++ decimal_text (tt_receiver_track_id target) ++ bs "-"
              ++ decimal_text (tt_address_qualifier_raw target) ++ bs "-" ++ hex6 (tt_address target);
     aa_callsign := tt_callsign target;
     aa_position := zip_position (tt_latitude target) (tt_longitude target);
     aa_position_epoch_ms := position_time clock (snapshot ← age_seconds; state ← tt_state_age_seconds target; Some (f64_add snapshot state));
     aa_ground_speed_kt := tt_ground_speed_knots target; aa_pressure_altitude_ft := tt_pressure_altitude_feet target;
     aa_on_ground := negb (tt_airborne target) |}.

(** [Iterator::max]. *)
Definition max_of (l : list Z) : option Z := match l with [] => None | x :: l => Some (foldl Z.max x l) end.
Definition traffic_deadline (clock : CaptureClock) (aircraft : list AdsbAircraft) : option Z :=
  latest ← max_of (omap aa_position_epoch_ms aircraft);
  Some (saturating_add u64_max (monotonic_ms clock)
          (Z.max 0 (sub_i64 (add_i64 latest (MAX_VISIBLE_POSITION_AGE_MS + 1)) (wall_epoch_ms clock)))).

(** The own position after a report, with its deadlines. *)
Definition fix_lifetime (clock : CaptureClock) (time : Z) : Z := FIX_LIFETIME_MS - Z.max 0 (sub_i64 (wall_epoch_ms clock) time).

Definition live_ingest (traffic : Traffic) (clock : CaptureClock) (i : LiveInput) : LiveInput :=
  if negb (ls_connected (li_snapshot i)) then i
  else
    let own := tf_ownship traffic in
    let next := with_pressure ((λ altitude, {| ps_altitude_ft := altitude; ps_clock := clock |}) <$> to_pressure_altitude_feet own)
                  (li_snapshot i) in
    let fix_time := timestamp_millis <$> to_utc own in
    let fresh := new_fix clock (li_last_fix_epoch_ms i) fix_time in
    let deadline := (λ time, saturating_add u64_max (monotonic_ms clock) (fix_lifetime clock time)) <$> fresh in
    let next :=
      match fresh with
      | Some time =>
          with_ownship (sample_of time clock own)
            (with_deadlines (Some (add_i64 (wall_epoch_ms clock) (fix_lifetime clock time))) deadline next)
      | None => next
      end in
    let next :=
      if bool_decide (to_latitude own = None) || bool_decide (to_longitude own = None) || bool_decide (to_utc own = None)
      then with_ownship None next else next in
    let next := fuse_msl (li_gga i) next in
    let next := with_aircraft (aircraft_of (li_generation i) clock (tf_age_seconds traffic) <$> tf_targets traffic) next in
    expire clock
      {| li_snapshot := next; li_generation := li_generation i;
         li_last_fix_epoch_ms := match fresh with Some time => Some time | None => li_last_fix_epoch_ms i end;
         li_fix_deadline_monotonic_ms := match fresh with Some _ => deadline | None => li_fix_deadline_monotonic_ms i end;
         li_traffic_deadline_monotonic_ms := traffic_deadline clock (ls_aircraft next); li_gga := li_gga i |}.

Definition ingest_radar (radar : Radar) (clock : CaptureClock) (i : LiveInput) : result fault bool * LiveInput :=
  match from_timestamp_millis (wall_epoch_ms clock) with
  | None => (Err (refused "invalid radar receipt time"), i)
  | Some now =>
      match ingest radar now (ls_radar (li_snapshot i)) with
      | Ok (frames, changed) => (Ok changed, with_snapshot (with_radar (ls_available (li_snapshot i)) frames (li_snapshot i)) i)
      | Err e => (Err e, i)
      end
  end.

(** The snapshot is replaced also when it stays equal. *)
Definition ingest_nmea (sentence : bytes) (clock : CaptureClock) (i : LiveInput) : LiveInput :=
  if negb (ls_connected (li_snapshot i)) then i
  else
    match gga sentence (wall_epoch_ms clock) with
    | None => i
    | Some g =>
        let age := sub_i64 (wall_epoch_ms clock) (gg_time g) in
        if negb ((-1000 <=? age) && (age <? FIX_LIFETIME_MS))
           || match li_gga i with Some last => gg_time g <=? gg_time last | None => false end
        then i
        else
          expire clock
            {| li_snapshot := fuse_msl (Some g) (li_snapshot i); li_generation := li_generation i;
               li_last_fix_epoch_ms := li_last_fix_epoch_ms i; li_fix_deadline_monotonic_ms := li_fix_deadline_monotonic_ms i;
               li_traffic_deadline_monotonic_ms := li_traffic_deadline_monotonic_ms i; li_gga := Some g |}
    end.

Definition next_wake_ms (i : LiveInput) : option Z :=
  let pressure := (λ p, saturating_add u64_max (monotonic_ms (ps_clock p)) PRESSURE_LIFETIME_MS) <$> ls_pressure (li_snapshot i) in
  min_by_key id (omap id [li_fix_deadline_monotonic_ms i; li_traffic_deadline_monotonic_ms i; pressure]).

(** ** What may be shown *)

Inductive live_event :=
| LvConnected (connected : bool) | LvTraffic (traffic : Traffic) (clock : CaptureClock) | LvNmea (sentence : bytes) (clock : CaptureClock)
| LvRadar (radar : Radar) (clock : CaptureClock) | LvExpire (clock : CaptureClock) | LvRestore (frames : list Frame).
Definition live_step (i : LiveInput) (e : live_event) : LiveInput :=
  match e with
  | LvConnected connected => set_connected connected i
  | LvTraffic traffic clock => live_ingest traffic clock i
  | LvNmea sentence clock => ingest_nmea sentence clock i
  | LvRadar radar clock => (ingest_radar radar clock i).2
  | LvExpire clock => expire clock i
  | LvRestore frames => restore_radar frames i
  end.
Definition live_run (es : list live_event) : LiveInput := foldl live_step live_default es.

(** A report that was received gave the sample, with the deadlines that follow from it. *)
Definition reported (es : list live_event) (s : LiveSnapshot) (sample : SituationSample) : Prop :=
  ∃ traffic clock, LvTraffic traffic clock ∈ es
    ∧ timestamp_millis <$> to_utc (tf_ownship traffic) = Some (ss_event_time_epoch_ms sample)
    ∧ ss_position sample = zip_position (to_latitude (tf_ownship traffic)) (to_longitude (tf_ownship traffic))
    ∧ ss_received_time_epoch_ms sample = wall_epoch_ms clock
    ∧ -1000 ≤ wall_epoch_ms clock - ss_event_time_epoch_ms sample < FIX_LIFETIME_MS
    ∧ ls_ownship_deadline_epoch_ms s = Some (add_i64 (wall_epoch_ms clock) (fix_lifetime clock (ss_event_time_epoch_ms sample)))
    ∧ ls_ownship_deadline_monotonic_ms s
      = Some (saturating_add u64_max (monotonic_ms clock) (fix_lifetime clock (ss_event_time_epoch_ms sample))).
(** A GGA that was received. *)
Definition heard (es : list live_event) (g : Gga) : Prop :=
  ∃ sentence clock, LvNmea sentence clock ∈ es ∧ gga sentence (wall_epoch_ms clock) = Some g.
(** An altitude above mean sea level comes from a GGA of the same second, measured at the same place. *)
Definition altitude_heard (es : list live_event) (sample : SituationSample) : Prop :=
  ∀ altitude, ss_altitude_msl_ft sample = Some altitude →
    ∃ g, heard es g ∧ gg_time g / 1000 = ss_event_time_epoch_ms sample / 1000 ∧ msl_of g sample = Some altitude.

Definition shown_ok (es : list live_event) (s : LiveSnapshot) : Prop :=
  ∀ sample, ls_ownship s = Some sample → reported es s sample ∧ altitude_heard es sample.
Record live_ok (es : list live_event) (i : LiveInput) : Prop := {
  lo_shown : shown_ok es (li_snapshot i);
  lo_gga : ∀ g, li_gga i = Some g → heard es g }.

Lemma shown_none es s : ls_ownship s = None → shown_ok es s.
Proof. intros E sample. by rewrite E. Qed.
(** Only the own position and its deadlines matter. *)
Lemma shown_same es s s' : shown_ok es s → ls_ownship s' = ls_ownship s ∨ ls_ownship s' = None →
  ls_ownship_deadline_epoch_ms s' = ls_ownship_deadline_epoch_ms s →
  ls_ownship_deadline_monotonic_ms s' = ls_ownship_deadline_monotonic_ms s → shown_ok es s'.
Proof.
  intros Hs [E|E] E1 E2 sample Hsample; [|congruence]. rewrite E in Hsample. destruct (Hs sample Hsample) as [Hr Ha]. split; [|done].
  unfold reported. rewrite E1, E2. exact Hr.
Qed.
Lemma shown_fuse es g s : shown_ok es s → (∀ x, g = Some x → heard es x) → shown_ok es (fuse_msl g s).
Proof.
  intros Hs Hg. unfold fuse_msl. destruct g as [g|]; [|done]. destruct (ls_ownship s) as [sample|] eqn:Eo; [|done]. cbv zeta.
  destruct (_ && _); [by apply shown_none|]. destruct (negb _) eqn:Hsec; [done|]. apply negb_false_iff, Z.eqb_eq in Hsec.
  intros sample' [= <-]. destruct (Hs sample Eo) as [Hr _]. split; [exact Hr|]. intros altitude Ha. exists g. split; [by apply Hg|done].
Qed.
Lemma shown_expire es clock i : shown_ok es (li_snapshot i) → shown_ok es (li_snapshot (expire clock i)).
Proof.
  intros Hs. unfold expire. cbn [li_snapshot]. cbv zeta. eapply shown_same; [exact Hs| | |]; repeat case_match; simpl; auto.
Qed.

Lemma heard_mono es e g : heard es g → heard (es ++ [e]) g.
Proof. intros (s & c & Hin & Hg). exists s, c. split; [|done]. apply elem_of_app. by left. Qed.
Lemma shown_mono es e s : shown_ok es s → shown_ok (es ++ [e]) s.
Proof.
  intros Hs sample Hsample. destruct (Hs sample Hsample) as [(t & c & Hin & Hr) Ha]. split.
  - exists t, c. split; [|done]. apply elem_of_app. by left.
  - intros a Hal. destruct (Ha a Hal) as (g & Hg & ?). exists g. split; [by apply heard_mono|done].
Qed.

Lemma clamp_inside z : -1000 ≤ clamp64 z < 10000 → clamp64 z = z.
Proof. unfold clamp64. lia. Qed.

Lemma new_fix_Some clock last fix_time time : new_fix clock last fix_time = Some time →
  fix_time = Some time ∧ -1000 ≤ wall_epoch_ms clock - time < FIX_LIFETIME_MS ∧ match last with Some l => l < time | None => True end.
Proof.
  unfold new_fix. destruct fix_time as [t|]; [|done]. simpl. destruct (_ && _ && _) eqn:Hc; [|done]. intros [= ->].
  rewrite !andb_true_iff in Hc. destruct Hc as [[Hl Hc1] Hc2]. rewrite Z.leb_le in Hc1. rewrite Z.ltb_lt in Hc2.
  unfold sub_i64, FIX_LIFETIME_MS in *. pose proof (clamp_inside _ (conj Hc1 Hc2)) as E. rewrite E in Hc1, Hc2. split_and!; [done|lia|lia|]. destruct last; [by apply Z.ltb_lt|done].
Qed.

(** The own position a report gives. *)
Lemma shown_traffic es traffic clock s last :
  shown_ok es s →
  shown_ok (es ++ [LvTraffic traffic clock])
    (match new_fix clock last (timestamp_millis <$> to_utc (tf_ownship traffic)) with
     | Some time =>
         with_ownship (sample_of time clock (tf_ownship traffic))
           (with_deadlines (Some (add_i64 (wall_epoch_ms clock) (fix_lifetime clock time)))
              ((λ time, saturating_add u64_max (monotonic_ms clock) (fix_lifetime clock time)) <$>
                 new_fix clock last (timestamp_millis <$> to_utc (tf_ownship traffic))) s)
     | None => s
     end).
Proof.
  intros Hs. destruct (new_fix _ _ _) as [time|] eqn:Hf; [|by apply shown_mono]. apply new_fix_Some in Hf as (Ht & Hage & _).
  intros sample Hsample. cbn [ls_ownship with_ownship] in Hsample. unfold sample_of in Hsample.
  destruct (zip_position _ _) as [at_|] eqn:Ez; [|done]. injection Hsample as <-. split; [|by intros ? [=]].
  exists traffic, clock. cbn [ss_event_time_epoch_ms ss_position ss_received_time_epoch_ms]. split_and!; try done; try lia.
  apply elem_of_app. right. by left.
Qed.

Lemma live_ingest_ok es i traffic clock : live_ok es i → live_ok (es ++ [LvTraffic traffic clock]) (live_ingest traffic clock i).
Proof.
  intros [Hs Hg]. set (es' := es ++ _). assert (∀ g, li_gga i = Some g → heard es' g) as Hg' by (intros g E; by apply heard_mono, Hg).
  unfold live_ingest. destruct (negb _); [split; [by apply shown_mono|done]|]. cbv zeta. split; [|exact Hg'].
  apply shown_expire. cbn [li_snapshot].
  set (s1 := with_pressure _ _). assert (shown_ok es s1) as Hc1 by (eapply shown_same; [exact Hs|by left|done|done]).
  pose proof (shown_traffic es traffic clock s1 (li_last_fix_epoch_ms i) Hc1) as Hc2. fold es' in Hc2. clearbody s1.
  set (s2 := match new_fix _ _ _ with Some _ => _ | None => _ end) in *. clearbody s2.
  set (s3 := if _ || _ || _ then _ else _).
  assert (shown_ok es' s3) as Hc3 by (unfold s3; case_match; [by apply shown_none|done]). clearbody s3.
  eapply shown_same; [by apply (shown_fuse es' (li_gga i) s3)|by left|done|done].
Qed.
Lemma ingest_nmea_ok es i sentence clock : live_ok es i → live_ok (es ++ [LvNmea sentence clock]) (ingest_nmea sentence clock i).
Proof.
  intros [Hs Hg]. set (es' := es ++ _). assert (live_ok es' i) as Hi.
  { split; [by apply shown_mono|]. intros g E. by apply heard_mono, Hg. }
  unfold ingest_nmea. destruct (negb _); [done|]. destruct (gga _ _) as [g|] eqn:Eg; [|done]. cbv zeta. destruct (_ || _); [done|].
  assert (heard es' g) as Hheard by (exists sentence, clock; split; [apply elem_of_app; right; by left|done]).
  split; [|by intros x [= <-]]. apply shown_expire. apply shown_fuse; [apply Hi|by intros x [= <-]].
Qed.

Lemma live_step_ok es i e : live_ok es i → live_ok (es ++ [e]) (live_step i e).
Proof.
  intros Hok. assert (live_ok (es ++ [e]) i) as Hi.
  { destruct Hok as [Hs Hg]. split; [by apply shown_mono|]. intros g E. by apply heard_mono, Hg. }
  destruct e as [c|t clock|sentence clock|r clock|clock|frames]; cbn [live_step].
  - unfold set_connected. case_match; [done|]. split; [by apply shown_none|done].
  - by apply live_ingest_ok.
  - by apply ingest_nmea_ok.
  - unfold ingest_radar. repeat case_match; try done. destruct Hi as [Hs Hg]. split; [|done].
    eapply shown_same; [exact Hs|by left|done|done].
  - destruct Hi as [Hs Hg]. split; [by apply shown_expire|done].
  - destruct Hi as [Hs Hg]. split; [|done]. eapply shown_same; [exact Hs|by left|done|done].
Qed.
Lemma live_run_ok es : live_ok es (live_run es).
Proof.
  unfold live_run. induction es as [|e es IH] using rev_ind; [split; [by apply shown_none|done]|].
  rewrite foldl_app. by apply live_step_ok.
Qed.

(** C17: whatever the receiver reports and whatever the clocks do, the own position that is shown
    was reported with its own time, is less than ten seconds old by the wall clock and was
    received less than ten seconds ago by the other; its altitude above mean sea level comes
    from a GGA of the same second and place. *)
Theorem live_fresh (es : list live_event) (clock : CaptureClock) (sample : SituationSample) :
  -9223372036854775808 ≤ wall_epoch_ms clock →
  ownship_at clock (li_snapshot (live_run es)) = Some sample →
  wall_epoch_ms clock - ss_event_time_epoch_ms sample < FIX_LIFETIME_MS
  ∧ (∃ traffic received, LvTraffic traffic received ∈ es
       ∧ timestamp_millis <$> to_utc (tf_ownship traffic) = Some (ss_event_time_epoch_ms sample)
       ∧ ss_position sample = zip_position (to_latitude (tf_ownship traffic)) (to_longitude (tf_ownship traffic))
       ∧ wall_epoch_ms received ≤ wall_epoch_ms clock ∧ monotonic_ms clock < monotonic_ms received + FIX_LIFETIME_MS)
  ∧ altitude_heard es sample.
Proof.
  intros Hw. unfold ownship_at. destruct (ls_ownship _) as [sample'|] eqn:Eo; [|done]. destruct (_ && _ && _) eqn:Hc; [|done]. intros [= ->].
  destruct (lo_shown _ _ (live_run_ok es) sample Eo) as [(traffic & received & Hin & Ht & Hp & Hr & Hage & De & Dm) Ha].
  rewrite De, Dm in Hc. unfold before in Hc. rewrite !andb_true_iff, Z.leb_le, !Z.ltb_lt in Hc. destruct Hc as [[Hc1 Hc2] Hc3].
  unfold FIX_LIFETIME_MS in *. assert (sub_i64 (wall_epoch_ms received) (ss_event_time_epoch_ms sample)
    = wall_epoch_ms received - ss_event_time_epoch_ms sample) as Es by (unfold sub_i64, clamp64; lia).
  unfold fix_lifetime in Hc2, Hc3. rewrite Es in Hc2, Hc3. unfold FIX_LIFETIME_MS, add_i64, clamp64, saturating_add in *.
  split; [lia|]. split; [|done]. exists traffic, received. split_and!; try done; lia.
Qed.
End live.

(** ** A fix and its altitude *)

#[local] Existing Instance toy_chrono.
#[local] Existing Instance flat_libm.
#[local] Existing Instance toy_radar_libs.
Definition sample_clock : CaptureClock := {| monotonic_ms := 500; wall_epoch_ms := 1700000000400 |}.
Definition sample_place : LatLon :=
  {| lat := f64_div (f64_lit 4745 0) (f64_lit 100 0); lon := f64_div (f64_lit (-12231) 0) (f64_lit 100 0) |}.
Definition sample_ownship : TrafficOwnship :=
  {| to_time_of_applicability_seconds := None; to_utc := Some 1700000000; to_latitude := Some (lat sample_place);
     to_longitude := Some (lon sample_place); to_ground_speed_knots := None; to_true_track_degrees := None;
     to_true_heading_degrees := None; to_pressure_altitude_feet := Some (f64_lit 2000 0); to_geometric_altitude_feet := None;
     to_address := 1; to_callsign := []; to_flight_plan_id := []; to_airborne := true; to_validity_flags := 9 |}.
Definition sample_report : Traffic :=
  {| tf_ads_status := 0; tf_tcas_installed := false; tf_tcas_mode := 0; tf_age_seconds := None; tf_arrival_seconds := None;
     tf_airborne_status := 0; tf_csa_status := 0; tf_surface_status := 0; tf_ownship := sample_ownship;
     tf_relative_angle_datum_raw := 0; tf_in_tisb_adsr_coverage := false; tf_targets := [] |}.
#[local] Instance toy_chrono_time : ChronoTime :=
  {| NaiveTime := Z;
     parse_hms := λ s,
       match take_digits s with
       | ([h1; h2; m1; m2; s1; s2], _) => Some (((h1 * 10 + h2) * 60 + (m1 * 10 + m2)) * 60 + (s1 * 10 + s2))
       | _ => None
       end;
     from_timestamp_millis := λ ms, Some (ms / 1000); at_time := λ now time, now - now mod 86400 + time;
     checked_add_days := λ t days, Some (t + days * 86400) |}.
(** The fix of that second, at 2000 feet. *)
Definition sample_sentence : bytes := bs "$GPGGA,221320.00,4727.000,N,12218.600,W,1,10,1.0,609.6,M,-20,M,,*00".
Definition live_events : list live_event := [LvConnected true; LvTraffic sample_report sample_clock; LvNmea sample_sentence sample_clock].
Definition sample_live : LiveInput := live_run live_events.
Definition sample_later : CaptureClock := {| monotonic_ms := 9000; wall_epoch_ms := 1700000008900 |}.

(** The sentence of the code's test a second before midnight; an altitude that is not in metres. *)
Example gga_before_midnight :
  gga (bs "$GPGGA,235959.00,4727.000,N,12218.600,W,1,10,1.0,609.6,M,-20,M,,*00") 1728000000000
  = Some {| gg_time := 1727999999000; gg_fix := Some (sample_place, Some (f64_lit 2000 0)) |}
  ∧ gga (bs "$GPGGA,235959.00,4727.000,N,12218.600,W,1,10,1.0,609.6,F,-20,M,,*00") 1728000000000
    = Some {| gg_time := 1727999999000; gg_fix := Some (sample_place, None) |}
  ∧ gga (bs "$GPGGA,235959.00,4760.000,N,12218.600,W,1,10,1.0,609.6,M,-20,M,,*00") 1728000000000
    = Some {| gg_time := 1727999999000; gg_fix := None |}
  ∧ gga (bs "$GPGGA,bad,4727.000,N,12218.600,W,1,10,1.0,609.6,M,-20,M,,*00") 1728000000000 = None.
Proof. vm_compute. done. Qed.

Lemma live_fresh_witness :
  ∃ sample, ownship_at sample_later (li_snapshot sample_live) = Some sample
    ∧ ss_altitude_msl_ft sample = Some (f64_lit 2000 0)
    ∧ wall_epoch_ms sample_later - ss_event_time_epoch_ms sample < FIX_LIFETIME_MS.
Proof.
  eexists. split; [vm_compute; reflexivity|]. split; [reflexivity|].
  apply (live_fresh live_events sample_later); [vm_compute; discriminate|vm_compute; reflexivity].
Defined.
(** Ten seconds after its own time the fix is gone. *)
Example live_fix_expires : ownship_at {| monotonic_ms := 9000; wall_epoch_ms := 1700000010000 |} (li_snapshot sample_live) = None.
Proof. vm_compute. reflexivity. Qed.
