(* ===== verification/WeatherSources.v ===== *)
(** * Weather of stations (app-core/src/weather_sources.rs, crates/weather-observation)

    Reports of stations from two sources, the Internet feed and the receiver, and the
    directory of where the stations are, with a grid to find them by. Each source keeps the
    newest report of a station and kind; a query compares the two. The reading of a METAR
    (weather-observation) gives the flight category and cloud symbol.

    Dates are chrono's, JSON is a parameter. An error leaves the state as it was; [Panics]
    stands for an index out of range, a failed [unwrap] or [expect]. *)

From Stdlib Require Import Strings.Byte Floats.SpecFloat.

From stdpp Require Import base gmap list list_numbers strings sorting.
From S2P Require Import Prelude Utf8 Float64 AcsContracts NotamCatalog ReceiverFraming ReceiverProtocol ReceiverProducts ReceiverLive.

Local Open Scope Z_scope.

Definition MAX_STATIONS : Z := 65536.
Definition MAX_REPORT_BYTES : Z := 16 * 1024.
Definition MAX_SOURCE_TEXT_BYTES : Z := 8 * 1024 * 1024.
Definition MAX_SNAPSHOT_BYTES : Z := 32 * 1024 * 1024.
Definition MAX_DIRECTORY_BYTES : Z := 16 * 1024 * 1024.

(** ** Reading a METAR (weather-observation) *)

Inductive FlightCategory := Vfr | Mvfr | Ifr | Lifr.
Definition category_rank (c : FlightCategory) : Z := match c with Vfr => 0 | Mvfr => 1 | Ifr => 2 | Lifr => 3 end.
Definition category_max (a b : FlightCategory) : FlightCategory := if category_rank a <=? category_rank b then b else a.
Definition category_text (c : FlightCategory) : bytes :=
  bs match c with Vfr => "VFR" | Mvfr => "MVFR" | Ifr => "IFR" | Lifr => "LIFR" end.
Record Observation := { ob_cloud_symbol : option bytes; ob_flight_category : option FlightCategory }.

(** [parse] of an unsigned integer: a plus sign may stand before the digits. *)
Definition parse_unsigned (mx : Z) (s : bytes) : option Z :=
  let body := match strip_prefix x2b s with Some body => body | None => s end in
  match take_digits body with
  | ([], _) => None
  | (ds, []) => if digits_number ds <=? mx then Some (digits_number ds) else None
  | _ => None
  end.
Definition strip_text (prefix s : bytes) : option bytes :=
  if bool_decide (take (length prefix) s = prefix) then Some (drop (length prefix) s) else None.
Definition strip_end (suffix s : bytes) : option bytes := reverse <$> strip_text (reverse suffix) (reverse s).
Definition trim_end (c : byte) (s : bytes) : bytes := reverse (skip_while (λ b, bool_decide (b = c)) (reverse s)).
(** [take_while]. *)
Fixpoint while_true {A} (p : A → bool) (l : list A) : list A :=
  match l with x :: l => if p x then x :: while_true p l else [] | [] => [] end.

(** A height in feet, unless it is not given; [None] when the group is not readable. *)
Definition cloud_height (rest : bytes) : option (option Z) :=
  let '(ds, after_digits) := take_digits rest in
  '(height, suffix) ← match strip_text (bs "///") rest with
                      | Some suffix => Some (None, suffix)
                      | None =>
                          if (3 <=? len ds) && (len ds <=? 4) then Some (Some (digits_number ds * 100), after_digits) else None
                      end;
  if one_of [[]; bs "CB"; bs "TCU"; bs "///"] suffix then Some height else None.

Definition visibility_category (sm : f64) : FlightCategory :=
  if f64_lt sm (f64_lit 1 0) then Lifr
  else if f64_lt sm (f64_lit 3 0) then Ifr
  else if f64_le sm (f64_lit 5 0) then Mvfr else Vfr.

Definition statute_visibility (text : bytes) (whole : option Z) : option FlightCategory :=
  bound ← head text;
  let number := if bool_decide (bound ∈ [x4d; x50]) then drop 1 text else text in
  value ← match ReceiverProducts.split_once x2f number with
          | Some (n, d) =>
              n ← parse_unsigned u32_max n;
              d ← parse_unsigned u32_max d;
              if (d <=? n) || (d =? 0) then None
              else Some (f64_add (f64_div (f64_lit n 0) (f64_lit d 0)) (f64_lit (default 0 whole) 0))
          | None => n ← parse_unsigned u32_max number; Some (f64_lit n 0)
          end;
  if f64_gt value (f64_lit 100 0) then None
  else if bool_decide (bound = x4d) then then_some (f64_gt value (f64_lit 0 0) && f64_le value (f64_lit 1 0)) Lifr
  else if bool_decide (bound = x50) then then_some (f64_ge value (f64_lit 5 0)) Vfr
  else Some (visibility_category value).

Record Scan := {
  sc_layers : list (bytes * option Z); sc_clear : option bytes; sc_vertical : bool; sc_invalid_cloud : bool;
  sc_visibility : option FlightCategory; sc_visibility_count : Z; sc_past_wind : bool; sc_cavok : bool }.
Definition scan_start : Scan :=
  {| sc_layers := []; sc_clear := None; sc_vertical := false; sc_invalid_cloud := false; sc_visibility := None;
     sc_visibility_count := 0; sc_past_wind := false; sc_cavok := false |}.

Definition AMOUNTS : list bytes := [bs "FEW"; bs "SCT"; bs "BKN"; bs "OVC"; bs "VV"].
Definition CEILINGS : list bytes := [bs "BKN"; bs "OVC"; bs "VV"].

Definition scan_clear (word : bytes) (s : Scan) : Scan :=
  {| sc_layers := sc_layers s;
     sc_clear := if one_of [bs "CAVOK"; bs "SKC"; bs "CLR"; bs "NCD"; bs "NSC"] word
                 then Some (if one_of [bs "NSC"] word then bs "NSC" else bs "SKC") else sc_clear s;
     sc_vertical := sc_vertical s; sc_invalid_cloud := sc_invalid_cloud s; sc_visibility := sc_visibility s;
     sc_visibility_count := sc_visibility_count s; sc_past_wind := sc_past_wind s;
     sc_cavok := sc_cavok s || one_of [bs "CAVOK"] word |}.
Definition scan_amount (word : bytes) (s : Scan) (amount : bytes) : Scan :=
  match strip_text amount word with
  | None => s
  | Some rest =>
      match cloud_height rest with
      | Some height =>
          {| sc_layers := sc_layers s ++ [(amount, height)]; sc_clear := sc_clear s;
             sc_vertical := sc_vertical s || one_of [bs "VV"] amount; sc_invalid_cloud := sc_invalid_cloud s;
             sc_visibility := sc_visibility s; sc_visibility_count := sc_visibility_count s; sc_past_wind := sc_past_wind s;
             sc_cavok := sc_cavok s |}
      | None =>
          {| sc_layers := sc_layers s; sc_clear := sc_clear s; sc_vertical := sc_vertical s; sc_invalid_cloud := true;
             sc_visibility := sc_visibility s; sc_visibility_count := sc_visibility_count s; sc_past_wind := sc_past_wind s;
             sc_cavok := sc_cavok s |}
      end
  end.
Definition scan_visibility (visibility : option FlightCategory) (s : Scan) : Scan :=
  {| sc_layers := sc_layers s; sc_clear := sc_clear s; sc_vertical := sc_vertical s; sc_invalid_cloud := sc_invalid_cloud s;
     sc_visibility := visibility; sc_visibility_count := sc_visibility_count s + 1; sc_past_wind := sc_past_wind s;
     sc_cavok := sc_cavok s |}.
Definition scan_wind (past_wind : bool) (s : Scan) : Scan :=
  {| sc_layers := sc_layers s; sc_clear := sc_clear s; sc_vertical := sc_vertical s; sc_invalid_cloud := sc_invalid_cloud s;
     sc_visibility := sc_visibility s; sc_visibility_count := sc_visibility_count s; sc_past_wind := past_wind;
     sc_cavok := sc_cavok s |}.

Definition METRES_PER_MILE : f64 := f64_decimal false 1609344 (-3).
Definition ends_in (suffix s : bytes) : bool := if strip_end suffix s then true else false.

(** One word, after the word before it. *)
Definition scan_word (previous : option bytes) (word : bytes) (s : Scan) : Scan :=
  let s := foldl (scan_amount word) (scan_clear word s) AMOUNTS in
  let s := if sc_past_wind s && (len word =? 4) && forallb is_ascii_digit word
           then scan_visibility ((λ metres, visibility_category (f64_div metres METRES_PER_MILE)) <$> parse_f64 word) s else s in
  let s := match strip_end (bs "SM") word with
           | Some sm =>
               if sc_past_wind s then scan_visibility (statute_visibility sm (previous ≫= parse_unsigned u32_max)) s else s
           | None => s
           end in
  let s := if existsb (λ suffix, ends_in suffix word) [bs "KT"; bs "MPS"; bs "KMH"] then scan_wind true s else s in
  if negb (bool_decide (sc_layers s = [])) || negb (bool_decide (sc_clear s = None)) || bool_decide (x2f ∈ word)
  then scan_wind false s else s.

(** [None] at the word NIL. *)
Fixpoint scan_words (previous : option bytes) (words : list bytes) (s : Scan) : option Scan :=
  match words with
  | [] => Some s
  | word :: words => if one_of [bs "NIL"] word then None else scan_words (Some word) words (scan_word previous word s)
  end.

(** The words of the observation: up to the remarks and the trend. *)
Definition metar_words (text : bytes) : list bytes :=
  while_true (λ word, negb (one_of [bs "RMK"; bs "BECMG"; bs "TEMPO"; bs "INTER"; bs "NOSIG"; bs "PROB30"; bs "PROB40"] word))
    (trim_end x3d <$> split_whitespace text).

Definition lowest (layers : list (bytes * option Z)) : option (bytes * option Z) := min_by_key (λ l, default u32_max l.2) layers.
Definition ceiling_category (feet : Z) : FlightCategory :=
  if feet <=? 499 then Lifr else if feet <=? 999 then Ifr else if feet <=? 3000 then Mvfr else Vfr.
Definition is_ceiling (l : bytes * option Z) : bool := one_of CEILINGS l.1.

Definition scan_ceiling (s : Scan) : option FlightCategory :=
  let ceiling_layer := lowest (List.filter is_ceiling (sc_layers s)) in
  let unknown := existsb (λ l, is_ceiling l && bool_decide (l.2 = None)) (sc_layers s) in
  if sc_invalid_cloud s || unknown || (negb (bool_decide (sc_clear s = None)) && negb (bool_decide (sc_layers s = []))) then None
  else match ceiling_layer with
       | Some (_, Some feet) => Some (ceiling_category feet)
       | _ => if negb (bool_decide (sc_clear s = None)) || negb (bool_decide (sc_layers s = [])) then Some Vfr else None
       end.
Definition scan_prevailing (s : Scan) : option FlightCategory :=
  let visibility := if negb (sc_visibility_count s =? 1) then None else sc_visibility s in
  if sc_cavok s && (sc_visibility_count s =? 0) then Some Vfr else visibility.
Definition scan_symbol (s : Scan) : option bytes :=
  if sc_vertical s then Some (bs "VV")
  else match lowest (List.filter is_ceiling (sc_layers s)) with
       | Some l => Some l.1
       | None => match lowest (sc_layers s) with Some l => Some l.1 | None => sc_clear s end
       end.
(** LIFR is conclusive; otherwise both parts must be known. *)
Definition combine (ceiling visibility : option FlightCategory) : option FlightCategory :=
  match ceiling, visibility with
  | Some Lifr, _ | _, Some Lifr => Some Lifr
  | Some c, Some v => Some (category_max c v)
  | _, _ => None
  end.

Definition metar (text : bytes) : Observation :=
  match scan_words None (metar_words text) scan_start with
  | None => {| ob_cloud_symbol := None; ob_flight_category := None |}
  | Some s => {| ob_cloud_symbol := scan_symbol s; ob_flight_category := combine (scan_ceiling s) (scan_prevailing s) |}
  end.

Definition metar_cloud_symbol (text : bytes) : option bytes := ob_cloud_symbol (metar text).

(** ** Stations and where they are *)

(** [StationId::new]; an id is the text it keeps. *)
Definition station_new (value : bytes) : result fault bytes :=
  let value := to_ascii_uppercase (trim value) in
  if negb ((2 <=? len value) && (len value <=? 16)) || negb (forallb is_ascii_alphanumeric value)
  then Err (refused "invalid weather station identifier") else Ok value.

Inductive WeatherSource := Internet | ReceiverSource.
Inductive StationMetadataSource := CycleStationCatalog | FromInternet | FromInternetTaf | FromReceiver.
#[global] Instance metadata_source_eq_dec : EqDecision StationMetadataSource.
Proof. solve_decision. Defined.
#[global] Instance weather_source_eq_dec : EqDecision WeatherSource.
Proof. solve_decision. Defined.
Definition source_rank (s : StationMetadataSource) : Z :=
  match s with CycleStationCatalog => 0 | FromInternet => 1 | FromInternetTaf => 2 | FromReceiver => 3 end.

Record StationPosition := { sp_latitude : f64; sp_longitude : f64 }.
Definition position_validate (p : StationPosition) : result fault unit :=
  guard_err (negb (within 90 (sp_latitude p)) || negb (within 180 (sp_longitude p))) (refused "invalid weather station coordinates").
Definition from_product (latitude longitude : f64) : option StationPosition :=
  let position := {| sp_latitude := latitude; sp_longitude := longitude |} in
  if position_validate position then Some position else None.

(** [(x / 2.0).floor() as i16]. *)
Definition floor_to_i16 (x : f64) : Z :=
  let clamp := λ z, Z.max (-32768) (Z.min 32767 z) in
  match x with
  | S754_finite s m e => let v := if s then Zneg m else Zpos m in clamp (if 0 <=? e then v * 2 ^ e else v / 2 ^ (- e))
  | S754_infinity s => clamp (if s then -65536 else 65536)
  | _ => 0
  end.
Definition SPATIAL_CELL_DEGREES : f64 := f64_lit 2 0.
Definition cell_of (x : f64) : Z := floor_to_i16 (f64_div x SPATIAL_CELL_DEGREES).
Definition cell (p : StationPosition) : Z * Z := (cell_of (sp_latitude p), cell_of (sp_longitude p)).

Record StationMetadata := { sm_position : StationPosition; sm_source : StationMetadataSource }.
(** The derived [==]. *)
Definition position_eqb (a b : StationPosition) : bool :=
  f64_eq (sp_latitude a) (sp_latitude b) && f64_eq (sp_longitude a) (sp_longitude b).
Definition metadata_eqb (a b : StationMetadata) : bool :=
  position_eqb (sm_position a) (sm_position b) && bool_decide (sm_source a = sm_source b).

Record StationDirectory := {
  dir_stations : gmap bytes StationMetadata; dir_spatial : gmap (Z * Z) (gset bytes); dir_revision : Z }.
Definition directory_default : StationDirectory := {| dir_stations := ∅; dir_spatial := ∅; dir_revision := 0 |}.

(** An id taken out of a cell, and the cell with it when it is left empty. *)
Definition leave_cell (id : bytes) (c : Z * Z) (ids : gset bytes) (spatial : gmap (Z * Z) (gset bytes)) : gmap (Z * Z) (gset bytes) :=
  let ids := ids ∖ {[id]} in
  if bool_decide (ids = ∅) then delete c spatial else <[c := ids]> spatial.

(** The flag tells whether anything changed. *)
Definition directory_replace (id : bytes) (metadata : StationMetadata) (d : StationDirectory) : result fault (StationDirectory * bool) :=
  if match dir_stations d !! id with Some old => metadata_eqb old metadata | None => false end then Ok (d, false)
  else if (MAX_STATIONS <=? Z.of_nat (size (dir_stations d))) && bool_decide (dir_stations d !! id = None)
  then Err (refused "station directory limit")
  else
    let spatial :=
      match dir_stations d !! id with
      | Some previous =>
          let c := cell (sm_position previous) in
          match dir_spatial d !! c with Some ids => leave_cell id c ids (dir_spatial d) | None => dir_spatial d end
      | None => dir_spatial d
      end in
    let c := cell (sm_position metadata) in
    Ok ({| dir_stations := <[id := metadata]> (dir_stations d);
           dir_spatial := <[c := default ∅ (spatial !! c) ∪ {[id]}]> spatial;
           dir_revision := wrap64 (dir_revision d + 1) |}, true).

Definition correct_location (id : bytes) (metadata : StationMetadata) (d : StationDirectory) : result fault (StationDirectory * bool) :=
  _ ← position_validate (sm_position metadata);
  directory_replace id metadata d.

Definition discover (id : bytes) (metadata : StationMetadata) (d : StationDirectory) : result fault (StationDirectory * bool) :=
  _ ← position_validate (sm_position metadata);
  match dir_stations d !! id with
  | Some existing =>
      if source_rank (sm_source existing) <? source_rank (sm_source metadata) then Ok (d, false)
      else if bool_decide (sm_source existing = sm_source metadata) then
        if position_eqb (sm_position existing) (sm_position metadata) then Ok (d, false)
        else Err (refused "station location changed; metadata correction required")
      else directory_replace id metadata d
  | None => directory_replace id metadata d
  end.

(** weather_station_catalog.rs *)
Record WeatherStationCatalog := { wsc_schema_version : Z; wsc_stations : gmap bytes StationPosition }.
Definition catalog_entry_bad (entry : bytes * StationPosition) : bool :=
  let '(id, position) := entry in
  negb ((2 <=? len id) && (len id <=? 16)) || negb (forallb (λ b, is_ascii_uppercase b || is_ascii_digit b) id)
  || negb (within 90 (sp_latitude position)) || negb (within 180 (sp_longitude position)).
Definition station_catalog_validate (c : WeatherStationCatalog) : result fault unit :=
  _ ← guard_err (negb (wsc_schema_version c =? 1) || (Z.of_nat (size (wsc_stations c)) >? 65536))
        (refused "Unsupported or oversized weather station catalog");
  guard_err (existsb catalog_entry_bad (map_iter (wsc_stations c))) (refused "Invalid weather station catalog entry").

(** A station of an older cycle taken out. *)
Definition forget_station (d : StationDirectory) (id : bytes) : result fault StationDirectory :=
  metadata ← ok_or (dir_stations d !! id) Panics;
  let c := cell (sm_position metadata) in
  ids ← ok_or (dir_spatial d !! c) Panics;
  Ok {| dir_stations := delete id (dir_stations d); dir_spatial := leave_cell id c ids (dir_spatial d); dir_revision := dir_revision d |}.
Definition install_station (d : StationDirectory) (entry : bytes * StationPosition) : result fault StationDirectory :=
  id ← station_new entry.1;
  fst <$> correct_location id {| sm_position := entry.2; sm_source := CycleStationCatalog |} d.

(** [next.stations != self.stations], by the derived equality of the entries. *)
Definition stations_eqb (a b : gmap bytes StationMetadata) : bool :=
  bool_decide (dom a = dom b)
  && forallb (λ e : bytes * StationMetadata, match b !! e.1 with Some m => metadata_eqb e.2 m | None => false end) (map_iter a).

Definition install_cycle (catalog : WeatherStationCatalog) (d : StationDirectory) : result fault StationDirectory :=
  _ ← station_catalog_validate catalog;
  let old := fst <$> List.filter (λ e : bytes * StationMetadata, bool_decide (sm_source e.2 = CycleStationCatalog)) (map_iter (dir_stations d)) in
  next ← try_fold forget_station d old;
  next ← try_fold install_station next (map_iter (wsc_stations catalog));
  if stations_eqb (dir_stations next) (dir_stations d) then Ok d
  else
    revision ← ok_or (checked_add u64_max (dir_revision d) 1) Panics;
    Ok {| dir_stations := dir_stations next; dir_spatial := dir_spatial next; dir_revision := revision |}.

(** The stations of one row of cells between two bounds; [range] panics when it is inverted. *)
Definition row_ids (d : StationDirectory) (south north : f64) (lat : Z) (bounds : f64 * f64) : result fault (list bytes) :=
  let '(west_bound, east_bound) := bounds in
  let first := cell_of west_bound in
  let last := cell_of east_bound in
  if last <? first then Err Panics
  else
    let candidates := lon ← seqZ first (last - first + 1); ids_iter (default ∅ (dir_spatial d !! (lat, lon))) in
    found ← try_map (λ id,
      metadata ← ok_or (dir_stations d !! id) Panics;
      let p := sm_position metadata in
      Ok (if f64_le south (sp_latitude p) && f64_le (sp_latitude p) north
             && f64_le west_bound (sp_longitude p) && f64_le (sp_longitude p) east_bound
          then [id] else [])) candidates;
    Ok (concat found).

(** [dedup]. *)
Fixpoint dedup (l : list bytes) : list bytes :=
  match l with
  | x :: rest => match dedup rest with (y :: _) as out => if bool_decide (x = y) then out else x :: out | [] => [x] end
  | [] => []
  end.

Definition in_bounds (south west north east : f64) (d : StationDirectory) : result fault (list bytes) :=
  _ ← position_validate {| sp_latitude := south; sp_longitude := west |};
  _ ← position_validate {| sp_latitude := north; sp_longitude := east |};
  _ ← guard_err (f64_gt south north) (refused "inverted latitude bounds");
  let ranges := if f64_le west east then [(west, east)] else [(west, f64_lit 180 0); (f64_lit (-180) 0, east)] in
  let rows := seqZ (cell_of south) (cell_of north - cell_of south + 1) in
  found ← try_map (λ p : Z * (f64 * f64), row_ids d south north p.1 p.2) (lat ← rows; bounds ← ranges; [(lat, bounds)]);
  Ok (dedup (merge_sort bytes_le (concat found))).

(** ** Reports *)

Inductive StationReportKind := MetarReport | TafReport.
#[global] Instance report_kind_eq_dec : EqDecision StationReportKind.
Proof. solve_decision. Defined.
#[global] Instance report_kind_countable : Countable StationReportKind.
Proof.
  refine (inj_countable' (λ k, match k with MetarReport => true | TafReport => false end) (λ b, if b : bool then MetarReport else TafReport) _).
  by intros [].
Defined.
Inductive ReportRevision := Original | Amended | Corrected.
Definition revision_rank (r : ReportRevision) : Z := match r with Original => 0 | Amended => 1 | Corrected => 2 end.
Inductive StationReportDetails := DetailsMetar (flight_category cloud_symbol : option bytes) | DetailsTaf.

Definition from_raw (kind : StationReportKind) (text : bytes) : StationReportDetails :=
  match kind with
  | MetarReport => let observation := metar text in
      DetailsMetar (category_text <$> ob_flight_category observation) (ob_cloud_symbol observation)
  | TafReport => DetailsTaf
  end.

Definition is_ascii_space (b : byte) : bool := bool_decide (b ∈ [x20; x09; x0a; x0c; x0d]).
Fixpoint ascii_words_loop (run : bytes) (s : bytes) : list bytes :=
  match s with
  | [] => if bool_decide (run = []) then [] else [run]
  | b :: s =>
      if is_ascii_space b then (if bool_decide (run = []) then [] else [run]) ++ ascii_words_loop [] s
      else ascii_words_loop (run ++ [b]) s
  end.
Definition split_ascii_whitespace (s : bytes) : list bytes := ascii_words_loop [] s.

Definition is_report_prefix (kind : StationReportKind) (word : bytes) : bool :=
  match kind with
  | MetarReport => one_of [bs "METAR"; bs "SPECI"] word
  | TafReport => one_of [bs "TAF"; bs "TAF.AMD"; bs "TAF.COR"] word
  end.
(** The words after the header and the revision it gives. *)
Definition report_header (text : bytes) (kind : StationReportKind) : list bytes * ReportRevision :=
  let words := split_ascii_whitespace text in
  let '(words, revision) :=
    match words with
    | prefix :: rest =>
        if is_report_prefix kind prefix then
          (rest, if one_of [bs "TAF.AMD"] prefix then Amended else if one_of [bs "TAF.COR"] prefix then Corrected else Original)
        else (words, Original)
    | [] => (words, Original)
    end in
  match words with
  | word :: rest =>
      if one_of [bs "COR"] word then (rest, Corrected) else if one_of [bs "AMD"] word then (rest, Amended) else (words, revision)
  | [] => (words, revision)
  end.
Definition report_revision (raw_text : bytes) (kind : StationReportKind) : ReportRevision :=
  let '(words, revision) := report_header raw_text kind in
  match words with _ :: _ :: word :: _ => if one_of [bs "COR"] word then Corrected else revision | _ => revision end.

Abbreviation ReportKey := (bytes * StationReportKind)%type.

Section weather.
Context `{Chrono}.

Record StationReport := {
  rp_station : bytes; rp_details : StationReportDetails; rp_raw_text : bytes; rp_report_time : option DateTime;
  rp_received_at : DateTime; rp_revision : ReportRevision }.
Definition report_kind (r : StationReport) : StationReportKind :=
  match rp_details r with DetailsMetar _ _ => MetarReport | DetailsTaf => TafReport end.
Definition report_flight_category (r : StationReport) : option bytes := match rp_details r with DetailsMetar c _ => c | DetailsTaf => None end.
Definition report_cloud_symbol (r : StationReport) : option bytes := match rp_details r with DetailsMetar _ s => s | DetailsTaf => None end.

Definition report_validate (r : StationReport) : result fault unit :=
  guard_err (bool_decide (rp_raw_text r = []) || (len (rp_raw_text r) >? MAX_REPORT_BYTES)) (refused "weather report text size").

Definition parse_report_time (word : bytes) : result fault PartialUtc :=
  digits ← ok_or (digits ← strip_end (bs "Z") word; if (len digits =? 6) && forallb is_ascii_digit digits then Some digits else None)
             (refused "weather report timestamp malformed");
  day ← ok_or (parse_unsigned u8_max (take 2 digits)) (refused "weather report day");
  hour ← ok_or (parse_unsigned u8_max (take 2 (drop 2 digits))) (refused "weather report hour");
  minute ← ok_or (parse_unsigned u8_max (drop 4 digits)) (refused "weather report minute");
  Ok {| pu_day := day; pu_hour := hour; pu_minute := minute |}.

Definition from_receiver (kind : StationReportKind) (report : TextReport) (received_at : DateTime) : result fault StationReport :=
  station ← ok_or (tr_station report) (refused "receiver report has no station identity");
  station ← station_new station;
  let '(words, revision) := report_header (tr_text report) kind in
  _ ← guard_err (negb (bool_decide (head words = Some station))) (refused "receiver weather station/text mismatch");
  time_word ← ok_or (words !! 1%nat) (refused "weather report timestamp missing");
  partial ← parse_report_time time_word;
  report_time ← ok_or (resolve_nearest partial received_at) (refused "weather report date cannot be resolved");
  let revision := if bool_decide (words !! 2%nat = Some (bs "COR")) then Corrected else revision in
  let result := {| rp_station := station; rp_details := from_raw kind (tr_text report); rp_raw_text := tr_text report;
                   rp_report_time := Some report_time; rp_received_at := received_at; rp_revision := revision |} in
  _ ← report_validate result;
  Ok result.

Inductive ReportAge := AgeUnknown | AgePast (age_ms : Z) | AgeAheadOfClock (ahead_ms : Z).
Record ReportTiming := { ti_age : ReportAge; ti_timestamp_ahead_of_receipt_ms : option Z }.
Definition timing (now : DateTime) (r : StationReport) : ReportTiming :=
  match rp_report_time r with
  | None => {| ti_age := AgeUnknown; ti_timestamp_ahead_of_receipt_ms := None |}
  | Some reported =>
      let age_ms := millis_since now reported in
      let ahead_ms := millis_since reported (rp_received_at r) in
      {| ti_age := if age_ms <? 0 then AgeAheadOfClock (- age_ms) else AgePast age_ms;
         ti_timestamp_ahead_of_receipt_ms := if 0 <? ahead_ms then Some ahead_ms else None |}
  end.

(** [Option<DateTime>] in order: nothing comes first. *)
Definition time_ltb (a b : option DateTime) : bool :=
  match a, b with None, Some _ => true | Some a, Some b => datetime_ltb a b | _, None => false end.
Definition time_eqb (a b : option DateTime) : bool := negb (time_ltb a b) && negb (time_ltb b a).
(** By time and revision, then by text. *)
Definition newer_ltb (a b : StationReport) : bool :=
  time_ltb (rp_report_time a) (rp_report_time b)
  || (time_eqb (rp_report_time a) (rp_report_time b) && (revision_rank (rp_revision a) <? revision_rank (rp_revision b))).
Definition same_time (a b : StationReport) : bool :=
  time_eqb (rp_report_time a) (rp_report_time b) && (revision_rank (rp_revision a) =? revision_rank (rp_revision b)).
Definition precedence_ltb (a b : StationReport) : bool :=
  newer_ltb a b || (same_time a b && bytes_ltb (rp_raw_text a) (rp_raw_text b)).

Definition report_key (r : StationReport) : ReportKey := (rp_station r, report_kind r).
Record StationReports := { srs_reports : gmap ReportKey StationReport; srs_text_bytes : Z; srs_metar_count : Z }.
Definition reports_default : StationReports := {| srs_reports := ∅; srs_text_bytes := 0; srs_metar_count := 0 |}.

(** The order of the keys, and the reports in it. *)
Definition kind_rank (k : StationReportKind) : Z := match k with MetarReport => 0 | TafReport => 1 end.
Definition entry_le (a b : ReportKey * StationReport) : Prop :=
  bytes_lt a.1.1 b.1.1 ∨ (a.1.1 = b.1.1 ∧ kind_rank a.1.2 ≤ kind_rank b.1.2).
#[global] Instance entry_le_dec a b : Decision (entry_le a b).
Proof. unfold entry_le, bytes_lt. apply _. Defined.
Definition reports_iter (m : gmap ReportKey StationReport) : list (ReportKey * StationReport) := merge_sort entry_le (map_to_list m).
Definition reports_values (s : StationReports) : list StationReport := snd <$> reports_iter (srs_reports s).

Record ReportBatch := { rb_changes : gmap ReportKey StationReport; rb_text_bytes : Z; rb_metar_count : Z }.

(** A report enters the changes when it is newer than what is there. *)
Definition batch_add (s : StationReports) (changes : gmap ReportKey StationReport) (r : StationReport)
    : result fault (gmap ReportKey StationReport) :=
  _ ← report_validate r;
  let key := report_key r in
  let existing := match changes !! key with Some e => Some e | None => srs_reports s !! key end in
  Ok (if match existing with Some e => precedence_ltb e r | None => true end then <[key := r]> changes else changes).
(** The sizes after a change. *)
Definition batch_size (s : StationReports) (acc : Z * Z * Z) (change : ReportKey * StationReport) : Z * Z * Z :=
  let '(text_bytes, count, metar_count) := acc in
  let '(key, r) := change in
  match srs_reports s !! key with
  | Some previous => (text_bytes - len (rp_raw_text previous) + len (rp_raw_text r), count, metar_count)
  | None => (text_bytes + len (rp_raw_text r), count + 1, metar_count + if bool_decide (report_kind r = MetarReport) then 1 else 0)
  end.
Definition prepare_batch (reports : list StationReport) (s : StationReports) : result fault ReportBatch :=
  changes ← try_fold (batch_add s) ∅ reports;
  let '(text_bytes, count, metar_count) :=
    foldl (batch_size s) (srs_text_bytes s, Z.of_nat (size (srs_reports s)), srs_metar_count s) (reports_iter changes) in
  _ ← guard_err (count >? 2 * MAX_STATIONS) (refused "weather report count limit");
  _ ← guard_err (text_bytes >? MAX_SOURCE_TEXT_BYTES) (refused "weather source text size limit");
  Ok {| rb_changes := changes; rb_text_bytes := text_bytes; rb_metar_count := metar_count |}.
Definition batch_commit (b : ReportBatch) (s : StationReports) : StationReports :=
  {| srs_reports := rb_changes b ∪ srs_reports s; srs_text_bytes := rb_text_bytes b; srs_metar_count := rb_metar_count b |}.

Definition reports_ingest_batch (reports : list StationReport) (s : StationReports) : result fault (StationReports * bool) :=
  batch ← prepare_batch reports s;
  Ok (batch_commit batch s, negb (bool_decide (rb_changes batch = ∅))).
Definition reports_ingest (r : StationReport) (s : StationReports) : result fault (StationReports * bool) := reports_ingest_batch [r] s.

Definition reports_remove (id : bytes) (kind : StationReportKind) (s : StationReports) : StationReports :=
  match srs_reports s !! (id, kind) with
  | Some r =>
      {| srs_reports := delete (id, kind) (srs_reports s); srs_text_bytes := srs_text_bytes s - len (rp_raw_text r);
         srs_metar_count := srs_metar_count s - if bool_decide (kind = MetarReport) then 1 else 0 |}
  | None => s
  end.

(** ** Both sources *)

Record WeatherProductMetadata := { wp_version_label : bytes; wp_generated_at_utc : option DateTime }.
Record StationWeather := {
  sw_directory : StationDirectory; sw_internet : StationReports; sw_receiver : StationReports;
  sw_internet_products : gmap StationReportKind WeatherProductMetadata }.
Definition weather_default : StationWeather :=
  {| sw_directory := directory_default; sw_internet := reports_default; sw_receiver := reports_default; sw_internet_products := ∅ |}.

Definition source_reports (source : WeatherSource) (w : StationWeather) : StationReports :=
  match source with Internet => sw_internet w | ReceiverSource => sw_receiver w end.
Definition with_source (source : WeatherSource) (s : StationReports) (w : StationWeather) : StationWeather :=
  match source with
  | Internet => {| sw_directory := sw_directory w; sw_internet := s; sw_receiver := sw_receiver w;
                   sw_internet_products := sw_internet_products w |}
  | ReceiverSource => {| sw_directory := sw_directory w; sw_internet := sw_internet w; sw_receiver := s;
                         sw_internet_products := sw_internet_products w |}
  end.
Definition with_directory (d : StationDirectory) (w : StationWeather) : StationWeather :=
  {| sw_directory := d; sw_internet := sw_internet w; sw_receiver := sw_receiver w; sw_internet_products := sw_internet_products w |}.
Definition with_products (p : gmap StationReportKind WeatherProductMetadata) (w : StationWeather) : StationWeather :=
  {| sw_directory := sw_directory w; sw_internet := sw_internet w; sw_receiver := sw_receiver w; sw_internet_products := p |}.

Definition weather_ingest_batch (source : WeatherSource) (reports : list StationReport) (w : StationWeather) : result fault (StationWeather * bool) :=
  '(s, changed) ← reports_ingest_batch reports (source_reports source w);
  Ok (with_source source s w, changed).
Definition weather_ingest (source : WeatherSource) (r : StationReport) (w : StationWeather) : result fault (StationWeather * bool) :=
  weather_ingest_batch source [r] w.
Definition weather_remove (source : WeatherSource) (id : bytes) (kind : StationReportKind) (w : StationWeather) : StationWeather :=
  with_source source (reports_remove id kind (source_reports source w)) w.

Definition clear_internet_product (kind : StationReportKind) (w : StationWeather) : StationWeather :=
  let ids := fst ∘ fst <$> List.filter (λ e : ReportKey * StationReport, bool_decide (e.1.2 = kind)) (reports_iter (srs_reports (sw_internet w))) in
  with_products (delete kind (sw_internet_products w))
    (with_source Internet (foldl (λ s id, reports_remove id kind s) (sw_internet w) ids) w).

(** A report of a product enters its replacement, its position the directory. *)
Definition install_report (kind : StationReportKind) (source : StationMetadataSource) (acc : StationDirectory * StationReports)
    (entry : StationReport * option StationPosition) : result fault (StationDirectory * StationReports) :=
  let '(directory, replacement) := acc in
  let '(r, position) := entry in
  let station := rp_station r in
  _ ← guard_err (negb (bool_decide (srs_reports replacement !! (station, kind) = None))) (refused "duplicate weather station");
  directory ← match position with
              | Some position =>
                  if match dir_stations directory !! station with
                     | Some existing => source_rank source <=? source_rank (sm_source existing)
                     | None => true
                     end
                  then fst <$> correct_location station {| sm_position := position; sm_source := source |} directory
                  else Ok directory
              | None => Ok directory
              end;
  '(replacement, _) ← reports_ingest r replacement;
  Ok (directory, replacement).

Definition install_product (kind : StationReportKind) (source : StationMetadataSource) (metadata : WeatherProductMetadata)
    (reports : list (StationReport * option StationPosition)) (w : StationWeather) : result fault StationWeather :=
  '(directory, replacement) ← try_fold (install_report kind source) (sw_directory w, reports_default) reports;
  let retained := List.filter (λ r, negb (bool_decide (report_kind r = kind))) (reports_values (sw_internet w)) in
  let retained_bytes := foldr (λ r sum, len (rp_raw_text r) + sum) 0 retained in
  _ ← guard_err (retained_bytes + srs_text_bytes replacement >? MAX_SOURCE_TEXT_BYTES) (refused "weather source text size limit");
  let w := clear_internet_product kind w in
  let internet := sw_internet w in
  Ok (with_directory directory
        (with_products (<[kind := metadata]> (sw_internet_products w))
           (with_source Internet
              {| srs_reports := srs_reports replacement ∪ srs_reports internet;
                 srs_text_bytes := srs_text_bytes internet + srs_text_bytes replacement;
                 srs_metar_count := srs_metar_count internet + srs_metar_count replacement |} w))).

(** Products of the feed (map_overlay.rs); a [HashMap] as the list in its order of iteration,
    the clouds of a METAR as their symbol. *)
Record MetarRecord := {
  mr_raw_text : bytes; mr_observed_at_utc : option bytes; mr_station_id : bytes; mr_flight_category : option bytes;
  mr_cloud_symbol : option (option bytes); mr_longitude : f64; mr_latitude : f64 }.
Record MetarProductPayload := {
  mp_schema_version : Z; mp_version_label : bytes; mp_generated_at_utc : option DateTime; mp_observed_at_utc : option DateTime;
  mp_metar_count : option Z; mp_metars_by_station : list (bytes * MetarRecord) }.
Record TafRecord := {
  tr_raw_text_ : bytes; tr_issued_at_utc : option bytes; tr_station_id : bytes; tr_longitude : f64; tr_latitude : f64 }.
Record TafProductPayload := {
  tp_schema_version : Z; tp_version_label : bytes; tp_generated_at_utc : option DateTime; tp_taf_count : option Z; tp_tafs_by_station : list (bytes * TafRecord) }.

(** freshness.rs on top of chrono's parsers. *)
Context (parse_from_rfc3339 : bytes → option DateTime) (parse_date : bytes → option NaiveDate).
Definition parse_utc_instant (value : bytes) : option DateTime :=
  match parse_from_rfc3339 value with
  | Some time => Some time
  | None => date ← parse_date value; and_hms_opt date 0 0 0
  end.

Definition metar_report (received_at : DateTime) (entry : bytes * MetarRecord) : result fault (StationReport * option StationPosition) :=
  let '(key, record) := entry in
  station ← station_new (mr_station_id record);
  key_station ← station_new key;
  _ ← guard_err (negb (bool_decide (station = key_station))) (refused "METAR key/station mismatch");
  Ok ({| rp_station := station; rp_details := DetailsMetar (mr_flight_category record) (mr_cloud_symbol record ≫= id);
         rp_raw_text := mr_raw_text record; rp_report_time := mr_observed_at_utc record ≫= parse_utc_instant;
         rp_received_at := received_at; rp_revision := report_revision (mr_raw_text record) MetarReport |},
      from_product (mr_latitude record) (mr_longitude record)).
Definition install_metars (payload : MetarProductPayload) (received_at : DateTime) (w : StationWeather) : result fault StationWeather :=
  reports ← try_map (metar_report received_at) (mp_metars_by_station payload);
  install_product MetarReport FromInternet
    {| wp_version_label := mp_version_label payload; wp_generated_at_utc := mp_generated_at_utc payload |} reports w.

Definition taf_report (received_at : DateTime) (entry : bytes * TafRecord) : result fault (StationReport * option StationPosition) :=
  let '(key, record) := entry in
  station ← station_new (tr_station_id record);
  key_station ← station_new key;
  _ ← guard_err (negb (bool_decide (station = key_station))) (refused "TAF key/station mismatch");
  Ok ({| rp_station := station; rp_details := DetailsTaf; rp_raw_text := tr_raw_text_ record;
         rp_report_time := tr_issued_at_utc record ≫= parse_utc_instant; rp_received_at := received_at;
         rp_revision := report_revision (tr_raw_text_ record) TafReport |},
      from_product (tr_latitude record) (tr_longitude record)).
Definition install_tafs (payload : TafProductPayload) (received_at : DateTime) (w : StationWeather) : result fault StationWeather :=
  reports ← try_map (taf_report received_at) (tp_tafs_by_station payload);
  install_product TafReport FromInternetTaf
    {| wp_version_label := tp_version_label payload; wp_generated_at_utc := tp_generated_at_utc payload |} reports w.

Definition replace_report (acc : StationReports) (r : StationReport) : result fault StationReports :=
  _ ← guard_err (negb (bool_decide (srs_reports acc !! report_key r = None))) (refused "duplicate report in weather source snapshot");
  fst <$> reports_ingest r acc.
Definition replace_source (source : WeatherSource) (reports : list StationReport) (w : StationWeather) : result fault StationWeather :=
  replacement ← try_fold replace_report reports_default reports;
  let w := with_source source replacement w in
  Ok (match source with Internet => with_products ∅ w | ReceiverSource => w end).

(** ** Queries *)

(** The better of what was chosen so far and a report of the next source. *)
Definition select_step (best : option (WeatherSource * StationReport * bool)) (candidate : WeatherSource * option StationReport)
    : option (WeatherSource * StationReport * bool) :=
  let '(source, report) := candidate in
  match report, best with
  | None, _ => best
  | Some r, None => Some (source, r, false)
  | Some r, Some (previous_source, previous, conflict) =>
      let conflict := same_time r previous && negb (bool_decide (rp_raw_text r = rp_raw_text previous)) in
      if newer_ltb previous r then Some (source, r, false) else Some (previous_source, previous, conflict)
  end.
Definition select (id : bytes) (kind : StationReportKind) (w : StationWeather) : option (WeatherSource * StationReport * bool) :=
  foldl select_step None
    [(Internet, srs_reports (sw_internet w) !! (id, kind)); (ReceiverSource, srs_reports (sw_receiver w) !! (id, kind))].
Definition query_report (text : bytes) (kind : StationReportKind) (w : StationWeather) : option StationReport :=
  id ← ok (station_new text); '(_, r, _) ← select id kind w; Some r.
Record SelectedReport := { sel_source : WeatherSource; sel_report : StationReport; sel_conflicting : bool; sel_timing : ReportTiming }.
Definition selected_report (id : bytes) (kind : StationReportKind) (now : DateTime) (w : StationWeather) : option SelectedReport :=
  '(source, r, conflict) ← select id kind w;
  Some {| sel_source := source; sel_report := r; sel_conflicting := conflict; sel_timing := timing now r |}.
Definition station_position (text : bytes) (w : StationWeather) : option StationPosition :=
  id ← ok (station_new text); sm_position <$> dir_stations (sw_directory w) !! id.
Definition has_metars (w : StationWeather) : bool := (srs_metar_count (sw_internet w) >? 0) || (srs_metar_count (sw_receiver w) >? 0).
Definition has_reports (w : StationWeather) : bool :=
  negb (bool_decide (srs_reports (sw_internet w) = ∅)) || negb (bool_decide (srs_reports (sw_receiver w) = ∅)).
(** Bounds that are not valid panic here. *)
Definition query_in_bounds (south west north east : f64) (w : StationWeather) : result fault (list bytes) :=
  ok_or (ok (in_bounds south west north east (sw_directory w))) Panics.
Definition internet_product (kind : StationReportKind) (w : StationWeather) : option WeatherProductMetadata := sw_internet_products w !! kind.

(** ** Snapshots *)

Record Snapshot := {
  sn_schema_version : Z; sn_stations : list (bytes * StationMetadata); sn_internet : list StationReport; sn_receiver : list StationReport;
  sn_internet_products : gmap StationReportKind WeatherProductMetadata }.
Record DirectoryDocument := { dd_schema_version : Z; dd_stations : list (bytes * StationMetadata) }.

(** serde_json, with station ids checked on reading. *)
Class WeatherJson := {
  snapshot_to_vec : Snapshot → option bytes;
  snapshot_from_slice : bytes → option Snapshot;
  document_to_vec : DirectoryDocument → option bytes;
  document_from_slice : bytes → option DirectoryDocument }.
Context `{WeatherJson}.

Definition snapshot (w : StationWeather) : result fault bytes :=
  b ← ok_or (snapshot_to_vec {| sn_schema_version := 2; sn_stations := map_iter (dir_stations (sw_directory w));
                               sn_internet := reports_values (sw_internet w); sn_receiver := reports_values (sw_receiver w);
                               sn_internet_products := sw_internet_products w |}) (refused "weather cache encoding");
  _ ← guard_err (len b >? MAX_SNAPSHOT_BYTES) (refused "weather cache size limit");
  Ok b.

Definition restore_station (message : string) (d : StationDirectory) (entry : bytes * StationMetadata) : result fault StationDirectory :=
  _ ← guard_err (negb (bool_decide (dir_stations d !! entry.1 = None))) (refused message);
  fst <$> discover entry.1 entry.2 d.

Definition restore (b : bytes) : result fault StationWeather :=
  _ ← guard_err (len b >? MAX_SNAPSHOT_BYTES) (refused "weather cache size limit");
  s ← ok_or (snapshot_from_slice b) (refused "invalid weather cache");
  _ ← guard_err (negb (sn_schema_version s =? 2)) (refused "unsupported weather cache version");
  directory ← try_fold (restore_station "duplicate station in weather cache") directory_default (sn_stations s);
  w ← replace_source Internet (sn_internet s) (with_directory directory weather_default);
  w ← replace_source ReceiverSource (sn_receiver s) w;
  Ok (with_products (sn_internet_products s) w).

Definition encode_document (d : StationDirectory) : result fault bytes :=
  b ← ok_or (document_to_vec {| dd_schema_version := 1; dd_stations := map_iter (dir_stations d) |}) (refused "station directory encoding");
  _ ← guard_err (len b >? MAX_DIRECTORY_BYTES) (refused "station directory size limit");
  Ok b.
Definition decode_document (b : bytes) : result fault StationDirectory :=
  _ ← guard_err (len b >? MAX_DIRECTORY_BYTES) (refused "station directory size limit");
  document ← ok_or (document_from_slice b) (refused "invalid station directory document");
  _ ← guard_err (negb (dd_schema_version document =? 1)) (refused "unsupported station directory version");
  _ ← guard_err (len (dd_stations document) >? MAX_STATIONS) (refused "station directory limit");
  try_fold (restore_station "duplicate station in directory document") directory_default (dd_stations document).
End weather.
