(* ===== verification/WeatherSourcesCorrect.v ===== *)
(** * Correctness of the weather of stations

    The grid of the directory finds exactly the stations within given bounds, and what the
    code indexes is there. A source keeps the newest report of each station and kind and the
    exact sizes; a query shows the newer of two. What a snapshot holds is restored. *)

From Stdlib Require Import Strings.Byte Floats.SpecFloat.

From stdpp Require Import base gmap list list_numbers strings sorting.
From S2P Require Import Prelude Utf8 Float64 AcsContracts DeviceSetupCode NotamCatalog NotamCatalogCorrect ReceiverFraming ReceiverProtocol ReceiverProducts.
From S2P Require Import ReceiverProductsCorrect ReceiverLive WeatherSources.

Local Open Scope Z_scope.

(** ** Cells *)

(** A finite float, and its value in units of the smallest positive one. *)
Definition finite_ok (x : f64) : Prop :=
  match x with S754_zero _ => True | S754_finite _ m e => bounded 53 1024 m e = true | _ => False end.
Definition sval (x : f64) : Z :=
  match x with
  | S754_finite s m e => (if s then -1 else 1) * (Zpos m * 2 ^ (e + 1074))
  | _ => 0
  end.

Lemma compare_sval x y : finite_ok x → finite_ok y → SFcompare x y = Some (sval x ?= sval y).
Proof.
  intros Hx Hy. destruct x as [s| | |s m e]; try done; destruct y as [s'| | |s' m' e']; try done.
  - pose proof (val_bound m' e' Hy). cbn [SFcompare sval val] in *. f_equal.
    destruct s'; symmetry; [apply Z.compare_gt_iff|apply Z.compare_lt_iff]; lia.
  - pose proof (val_bound m e Hx). cbn [SFcompare sval val] in *. f_equal.
    destruct s; symmetry; [apply Z.compare_lt_iff|apply Z.compare_gt_iff]; lia.
  - pose proof (val_bound m e Hx) as Bx. pose proof (val_bound m' e' Hy) as By.
    pose proof (total_cmp_val (S754_finite false m e) (S754_finite false m' e') Hx Hy) as Ht.
    cbn [val total_cmp SFcompare sval] in *. f_equal. destruct s, s'; rewrite ?Z.mul_1_l.
    + replace (-1 * (Zpos m * 2 ^ (e + 1074)) ?= -1 * (Zpos m' * 2 ^ (e' + 1074))) with (CompOpp (Zpos m * 2 ^ (e + 1074) ?= Zpos m' * 2 ^ (e' + 1074))).
      { rewrite <- Ht. by destruct (e ?= e'). }
      rewrite <- Z.compare_antisym. destruct (Z.compare_spec (Zpos m' * 2 ^ (e' + 1074)) (Zpos m * 2 ^ (e + 1074))); symmetry;
        [apply Z.compare_eq_iff|apply Z.compare_lt_iff|apply Z.compare_gt_iff]; lia.
    + symmetry. apply Z.compare_lt_iff. lia.
    + symmetry. apply Z.compare_gt_iff. lia.
    + done.
Qed.
Lemma f64_le_sval x y : finite_ok x → finite_ok y → f64_le x y = true ↔ sval x ≤ sval y.
Proof. intros Hx Hy. unfold f64_le, SFleb. rewrite compare_sval by done. destruct (Z.compare_spec (sval x) (sval y)); split; (done || lia). Qed.
Lemma f64_gt_sval x y : finite_ok x → finite_ok y → f64_gt x y = true ↔ sval y < sval x.
Proof. intros Hx Hy. unfold f64_gt, f64_lt, SFltb. rewrite compare_sval by done. destruct (Z.compare_spec (sval y) (sval x)); split; (done || lia). Qed.
(** What lies between finite floats is finite. *)
Lemma between_finite lo hi x : finite_ok lo → finite_ok hi → valid_binary 53 1024 x = true → f64_le lo x = true → f64_le x hi = true → finite_ok x.
Proof.
  intros Hl Hh Hv L R. destruct x as [|[]| |]; try done; unfold f64_le, SFleb in *; destruct lo; try done; destruct hi; done.
Qed.

(** Half of a float, and its floor. *)
Lemma round_sign s m e l : binary_round_aux 53 1024 s m e l =
  match binary_round_aux 53 1024 false m e l with
  | S754_zero _ => S754_zero s | S754_infinity _ => S754_infinity s | S754_finite _ m e => S754_finite s m e | S754_nan => S754_nan
  end.
Proof. unfold binary_round_aux. repeat (case_match; simplify_eq); done. Qed.

Lemma div_two s m e : f64_div (S754_finite s m e) SPATIAL_CELL_DEGREES =
  let e' := Z.min (fexp 53 1024 (Zpos (digits2_pos m) + e - 2)) (e + 51) in
  let m' := match e + 51 - e' with Zpos _ => Z.shiftl (Zpos m) (e + 51 - e') | Z0 => Zpos m | Zneg _ => Z0 end in
  binary_round_aux 53 1024 s (m' / 2 ^ 52) e' (new_location (2 ^ 52) (m' mod 2 ^ 52)).
Proof.
  change SPATIAL_CELL_DEGREES with (S754_finite false 4503599627370496 (-51)). cbn [f64_div SFdiv xorb]. unfold SFdiv_core_binary.
  change (Zdigits2 4503599627370496 + -51) with 2. change (Zdigits2 (Zpos m)) with (Zpos (digits2_pos m)).
  replace (e - -51) with (e + 51) by lia. cbv zeta. rewrite xorb_false_r.
  set (e' := Z.min _ _). set (m' := match e + 51 - e' with Z0 => _ | Zpos _ => _ | Zneg _ => _ end).
  change 4503599627370496 with (2 ^ 52). unfold Z.div, Z.modulo. by destruct (Z.div_eucl m' (2 ^ 52)).
Qed.

Lemma half_exact s m e : bounded 53 1024 m e = true → -1073 ≤ e → f64_div (S754_finite s m e) SPATIAL_CELL_DEGREES = S754_finite s m (e - 1).
Proof.
  intros Hb He. pose proof (proj1 (bounded_iff m e) Hb) as (Hr & Hl & Hc). assert (Z.log2 (Zpos m) = 52) as El by lia.
  assert (bounded 53 1024 m (e - 1) = true) as Hb' by (apply bounded_iff; lia).
  rewrite div_two, digits2_log2, El. cbv zeta. unfold fexp, emin.
  set (e' := Z.min _ _). set (j := e - 1 - e'). assert (0 ≤ j ≤ 1) as Hj by lia.
  assert (e + 51 - e' = 52 + j) as -> by lia. destruct (52 + j) eqn:Ej; [lia| |lia]. rewrite <- Ej, Z.shiftl_mul_pow2 by lia.
  rewrite Z.pow_add_r by lia. replace (Zpos m * (2 ^ 52 * 2 ^ j)) with (Zpos m * 2 ^ j * 2 ^ 52) by lia.
  rewrite Z.div_mul, Z.mod_mul by lia. change (new_location (2 ^ 52) 0) with loc_Exact. rewrite round_sign.
  assert (binary_round_aux 53 1024 false (Zpos m * 2 ^ j) e' loc_Exact = S754_finite false m (e - 1)) as ->; [|done].
  destruct (Zpos m * 2 ^ j) as [|q|] eqn:Eq; [nia| |nia]. assert (Z.log2 (Zpos q) = 52 + j) as Lq by (rewrite <- Eq, Z.log2_mul_pow2 by lia; lia).
  pose proof (round_aux q e') as Hr'. rewrite digits2_log2, Lq in Hr'. unfold fexp, emin in Hr'.
  replace (Z.max (52 + j + 1 + e' - 53) (3 - 1024 - 53)) with (e - 1) in Hr' by lia. destruct Hr' as [Hok Hv]; [lia|].
  replace (e - 1 - e') with j in Hv by lia. rewrite <- Eq, rnd_even_exact in Hv by lia. rewrite Eq in Hv.
  apply val_inj; [done|done|]. rewrite Hv. pose proof (val_bound m (e - 1) Hb'). unfold val in *. lia.
Qed.

Lemma half_tiny s m : bounded 53 1024 m (-1074) = true → f64_div (S754_finite s m (-1074)) SPATIAL_CELL_DEGREES =
  match (if Z.even (Zpos m) then Zpos m / 2 else if Z.even (Zpos m / 2) then Zpos m / 2 else Zpos m / 2 + 1) with
  | Zpos q => S754_finite s q (-1074) | _ => S754_zero s end.
Proof.
  intros (_ & Hl & _)%bounded_iff. rewrite div_two, digits2_log2.
  assert (Z.min (fexp 53 1024 (Z.log2 (Zpos m) + 1 + -1074 - 2)) (-1074 + 51) = -1074) as ->.
  { unfold fexp, emin. pose proof (Z.log2_nonneg (Zpos m)). lia. }
  cbv zeta.
  change (-1074 + 51 - -1074) with 51. cbn match. rewrite Z.shiftl_mul_pow2 by lia.
  assert (Zpos m * 2 ^ 51 / 2 ^ 52 = Zpos m / 2) as ->.
  { change (2 ^ 52) with (2 * 2 ^ 51). by rewrite Z.div_mul_cancel_r by lia. }
  assert ((Zpos m * 2 ^ 51) mod 2 ^ 52 = (Zpos m mod 2) * 2 ^ 51) as ->.
  { change (2 ^ 52) with (2 * 2 ^ 51). by rewrite Zmult_mod_distr_r. }
  assert (Zpos m < 2 ^ 53) as Hm by (apply Z.log2_lt_pow2; lia). rewrite Zeven_mod.
  assert (∀ q l, 0 ≤ q ≤ 2 ^ 52 → shr_fexp 53 1024 q (-1074) l = (shr_record_of_loc q l, -1074)) as Hshr.
  { intros q l Hq. unfold shr_fexp. replace (fexp 53 1024 (Zdigits2 q + -1074) - -1074) with 0; [done|].
    unfold fexp, emin. destruct q as [|q|]; [simpl; lia| |lia]. simpl Zdigits2. rewrite digits2_log2.
    assert (Z.log2 (Zpos q) ≤ 52) by (change 52 with (Z.log2 (2 ^ 52)); apply Z.log2_le_mono; lia). lia. }
  assert (0 ≤ Zpos m / 2 < 2 ^ 52) as Hq by (split; [apply Z.div_pos; lia|apply Z.div_lt_upper_bound; lia]).
  pose proof (Z.mod_pos_bound (Zpos m) 2 ltac:(lia)) as Hmod. unfold binary_round_aux. rewrite Hshr by lia.
  destruct (Z.eq_dec (Zpos m mod 2) 0) as [E|E].
  - rewrite E. change (new_location (2 ^ 52) (0 * 2 ^ 51)) with loc_Exact. cbn [shr_record_of_loc shr_m loc_of_shr_record round_nearest_even].
    rewrite Hshr by lia. cbn [shr_record_of_loc shr_m Z.eqb]. destruct (Zpos m / 2); [done|done|lia].
  - assert (Zpos m mod 2 = 1) as -> by lia. change (new_location (2 ^ 52) (1 * 2 ^ 51)) with (loc_Inexact Eq).
    cbn [shr_record_of_loc shr_m loc_of_shr_record round_nearest_even]. rewrite Hshr by (destruct (Z.even _); lia).
    cbn [shr_record_of_loc shr_m Z.eqb]. destruct (Z.even (Zpos m / 2)); [|destruct (Zpos m / 2 + 1) eqn:?; [done|done|lia]].
    destruct (Zpos m / 2); [done|done|lia].
Qed.

Lemma div_below_zero n k : 0 < n ≤ k → - n / k = -1.
Proof. intros Hn. symmetry. apply (Z.div_unique _ _ _ (k - n)); lia. Qed.
(** The cell of a float: the floor of half of it, but for the largest negative one. *)
Lemma cell_sval x : finite_ok x →
  cell_of x = Z.max (-32768) (Z.min 32767 (if sval x =? -1 then 0 else sval x / 2 ^ 1075)).
Proof.
  intros Hx. unfold cell_of. destruct x as [[]| | |s m e]; try done. destruct (Z.eq_dec e (-1074)) as [->|Hne].
  - rewrite half_tiny by done. apply bounded_iff in Hx as (_ & Hl & _). assert (Zpos m < 2 ^ 53) as Hm by (apply Z.log2_lt_pow2; lia).
    unfold sval. change (2 ^ (-1074 + 1074)) with 1. rewrite Z.mul_1_r. set (q := if Z.even (Zpos m) then _ else _).
    assert (0 ≤ q ≤ 2 ^ 52 ∧ (q = 0 ↔ Zpos m = 1)) as [Hq Hq0].
    { unfold q. pose proof (Z.div_mod (Zpos m) 2 ltac:(lia)). pose proof (Z.mod_pos_bound (Zpos m) 2 ltac:(lia)). rewrite !Zeven_mod.
      pose proof (Z.div_mod (Zpos m / 2) 2 ltac:(lia)). pose proof (Z.mod_pos_bound (Zpos m / 2) 2 ltac:(lia)).
      destruct (Z.eqb_spec (Zpos m mod 2) 0); [lia|]. destruct (Z.eqb_spec ((Zpos m / 2) mod 2) 0); lia. }
    destruct s.
    + destruct q as [|q|]; [|cbn [floor_to_i16]|lia].
      * assert (Zpos m = 1) as -> by (by apply Hq0). done.
      * assert (Zpos m ≠ 1) by (intros Hm1; apply Hq0 in Hm1; lia). rewrite (proj2 (Z.eqb_neq _ _)) by lia. 
        change (0 <=? -1074) with false. cbn match. change (- -1074) with 1074. change (Zneg q) with (- Zpos q).
        replace (-1 * Zpos m) with (- Zpos m) by lia. by rewrite !div_below_zero by lia.
    + rewrite (proj2 (Z.eqb_neq _ _)) by lia. rewrite Z.mul_1_l, (Z.div_small (Zpos m)) by lia.
      destruct q as [|q|]; [done| |lia]. cbn [floor_to_i16]. change (0 <=? -1074) with false. cbn match.
      rewrite (Z.div_small (Zpos q)) by lia. done.
  - pose proof (proj1 (bounded_iff m e) Hx) as (Hr & Hl & Hc). rewrite half_exact by (done || lia).
    assert (Z.log2 (Zpos m) = 52) as El by lia. pose proof (Z.log2_spec (Zpos m) ltac:(lia)) as [Hlo _]. rewrite El in Hlo.
    cbn [floor_to_i16 sval]. rewrite (proj2 (Z.eqb_neq _ _)).
    2:{ assert (1 ≤ 2 ^ (e + 1074)) by (apply (Z.pow_le_mono_r 2 0); lia). destruct s; nia. }
    f_equal. f_equal. replace ((if s then -1 else 1) * (Zpos m * 2 ^ (e + 1074))) with ((if s then Zneg m else Zpos m) * 2 ^ (e + 1074)) by (destruct s; lia).
    set (v := if s then Zneg m else Zpos m). destruct (Z.leb_spec 0 (e - 1)).
    + replace (e + 1074) with (e - 1 + 1075) by lia. rewrite Z.pow_add_r, Z.mul_assoc, Z.div_mul by lia. done.
    + assert (2 ^ 1075 = 2 ^ (- (e - 1)) * 2 ^ (e + 1074)) as -> by (rewrite <- Z.pow_add_r by lia; f_equal; lia).
      by rewrite Z.div_mul_cancel_r by (apply Z.pow_nonzero; lia).
Qed.
(** Cells are in the order of the floats. *)
Lemma cell_mono x y : finite_ok x → finite_ok y → f64_le x y = true → cell_of x ≤ cell_of y.
Proof.
  intros Hx Hy Hle%f64_le_sval; [|done|done]. rewrite !cell_sval by done.
  assert ((if sval x =? -1 then 0 else sval x / 2 ^ 1075) ≤ (if sval y =? -1 then 0 else sval y / 2 ^ 1075)); [|lia].
  pose proof (Z.div_le_mono (sval x) (sval y) (2 ^ 1075) ltac:(lia) Hle).
  destruct (Z.eqb_spec (sval x) (-1)), (Z.eqb_spec (sval y) (-1)); try lia.
  - assert (0 ≤ sval y / 2 ^ 1075) by (apply Z.div_pos; lia). done.
  - assert (sval x / 2 ^ 1075 < 0) by (apply Z.div_lt_upper_bound; lia). lia.
Qed.

(** ** The directory *)

Definition position_ok (p : StationPosition) : Prop :=
  valid_binary 53 1024 (sp_latitude p) = true ∧ valid_binary 53 1024 (sp_longitude p) = true
  ∧ within 90 (sp_latitude p) = true ∧ within 180 (sp_longitude p) = true.
Lemma within_finite bound x : bound ∈ [90; 180] → valid_binary 53 1024 x = true → within bound x = true → finite_ok x.
Proof.
  intros Hb Hv [L R]%andb_true_iff. rewrite !elem_of_cons, elem_of_nil in Hb.
  eapply between_finite; [| |done|exact L|exact R]; destruct Hb as [->|[->|[]]]; done.
Qed.
Lemma position_finite p : position_ok p → finite_ok (sp_latitude p) ∧ finite_ok (sp_longitude p).
Proof. intros (V1 & V2 & W1 & W2). split; [apply (within_finite 90)|apply (within_finite 180)]; (done || set_solver). Qed.

Definition cell_ids (d : StationDirectory) (c : Z * Z) : gset bytes := default ∅ (dir_spatial d !! c).
(** The grid holds each station in its cell and nothing else. *)
Record directory_ok (d : StationDirectory) : Prop := {
  dk_position : ∀ id m, dir_stations d !! id = Some m → position_ok (sm_position m);
  dk_id : ∀ id m, dir_stations d !! id = Some m → station_new id = Ok id;
  dk_cell : ∀ id c, id ∈ cell_ids d c ↔ ∃ m, dir_stations d !! id = Some m ∧ cell (sm_position m) = c;
  dk_filled : ∀ c, dir_spatial d !! c ≠ Some ∅;
  dk_size : Z.of_nat (size (dir_stations d)) ≤ MAX_STATIONS }.

Lemma directory_default_ok : directory_ok directory_default.
Proof. split; try (intros *; simpl; by rewrite ?lookup_empty). intros id c. unfold cell_ids. simpl. rewrite lookup_empty. split; [set_solver|intros (m & E & _); by rewrite lookup_empty in E]. Qed.

Lemma leave_cell_lookup id c c' ids spatial : default ∅ (leave_cell id c ids spatial !! c') = if decide (c' = c) then ids ∖ {[id]} else default ∅ (spatial !! c').
Proof.
  unfold leave_cell. case_bool_decide as E; destruct (decide (c' = c)) as [->|Hne].
  - by rewrite lookup_delete_eq, E.
  - by rewrite lookup_delete_ne.
  - by rewrite lookup_insert_eq.
  - by rewrite lookup_insert_ne.
Qed.
Lemma leave_cell_filled id c c' ids spatial : (∀ c, spatial !! c ≠ Some ∅) → leave_cell id c ids spatial !! c' ≠ Some ∅.
Proof.
  intros Hs. unfold leave_cell. case_bool_decide as E; destruct (decide (c' = c)) as [->|Hne].
  - by rewrite lookup_delete_eq.
  - by rewrite lookup_delete_ne.
  - rewrite lookup_insert_eq. congruence.
  - by rewrite lookup_insert_ne.
Qed.

Lemma replace_ok id m d : directory_ok d → position_ok (sm_position m) → station_new id = Ok id →
  settled (λ r, directory_ok r.1 ∧ (r.1 = d ∨ dir_stations r.1 = <[id := m]> (dir_stations d))) (directory_replace id m d).
Proof.
  intros Hd Hp Hid. unfold directory_replace. destruct (match dir_stations d !! id with Some old => metadata_eqb old m | None => false end); [simpl; auto|].
  destruct (_ && _) eqn:Hl; [done|]. simpl. split; [|by right]. destruct Hd as [Kp Ki Kc Kf Ks].
  set (spatial := match dir_stations d !! id with Some _ => _ | None => _ end).
  assert (∀ i c, i ∈ default ∅ (spatial !! c) ↔ i ≠ id ∧ i ∈ cell_ids d c) as Hsp.
  { intros i c. unfold spatial. destruct (dir_stations d !! id) as [old|] eqn:Eo.
    - pose proof (proj2 (Kc id (cell (sm_position old))) (ex_intro _ old (conj Eo eq_refl))) as Hin. unfold cell_ids in Hin.
      destruct (dir_spatial d !! cell (sm_position old)) as [ids|] eqn:Ec; [|set_solver]. rewrite leave_cell_lookup. destruct (decide _) as [->|Hne].
      + unfold cell_ids. rewrite Ec. set_solver.
      + unfold cell_ids. split; [|naive_solver]. intros Hi. split; [|done]. intros ->. apply Kc in Hi as (m' & E' & Hc). naive_solver.
    - split; [|naive_solver]. intros Hi. split; [|done]. intros ->. apply Kc in Hi as (m' & E' & Hc). naive_solver. }
  assert (∀ c, spatial !! c ≠ Some ∅) as Hfill.
  { unfold spatial. repeat case_match; try done. intros c. by apply leave_cell_filled. }
  split; simpl.
  - intros i m'. rewrite lookup_insert_Some. intros [[<- <-]|[_ E]]; eauto.
  - intros i m'. rewrite lookup_insert_Some. intros [[<- <-]|[_ E]]; eauto.
  - intros i c. unfold cell_ids. simpl. assert (i ∈ default ∅ (<[cell (sm_position m) := default ∅ (spatial !! cell (sm_position m)) ∪ {[id]}]> spatial !! c)
      ↔ i ∈ default ∅ (spatial !! c) ∨ (i = id ∧ c = cell (sm_position m))) as ->.
    { destruct (decide (c = cell (sm_position m))) as [->|Hne]; [rewrite lookup_insert_eq; set_solver|rewrite lookup_insert_ne by done; naive_solver]. }
    rewrite Hsp, Kc. setoid_rewrite lookup_insert_Some. split.
    + intros [[Hne (m' & E & Hc)]|[-> ->]]; eauto 10.
    + intros (m' & [[<- <-]|[Hne E]] & Hc); [by right|left]. split; eauto.
  - intros c. destruct (decide (c = cell (sm_position m))) as [->|Hne]; [|by rewrite lookup_insert_ne].
    rewrite lookup_insert_eq. intros [= E]. apply (not_elem_of_empty (C := gset bytes) id). rewrite <- E. by apply elem_of_union_r, elem_of_singleton_2.
  - apply andb_false_iff in Hl. destruct (dir_stations d !! id) eqn:E.
    + rewrite map_size_insert_Some by done. lia.
    + rewrite map_size_insert_None by done. destruct Hl as [Hl|Hl]; [apply Z.leb_gt in Hl; lia|]. apply bool_decide_eq_false in Hl. congruence.
Qed.

Lemma forget_ok id m d : directory_ok d → dir_stations d !! id = Some m →
  ∃ d', forget_station d id = Ok d' ∧ directory_ok d' ∧ dir_stations d' = delete id (dir_stations d) ∧ dir_revision d' = dir_revision d.
Proof.
  intros [Kp Ki Kc Kf Ks] E. pose proof (proj2 (Kc id (cell (sm_position m))) (ex_intro _ m (conj E eq_refl))) as Hin. unfold cell_ids in Hin.
  unfold forget_station. rewrite E. simpl. destruct (dir_spatial d !! cell (sm_position m)) as [ids|] eqn:Ec; [|set_solver]. simpl.
  eexists. split; [done|]. split; [|done]. split; simpl.
  - intros i m'. rewrite lookup_delete_Some. intros [_ E']. eauto.
  - intros i m'. rewrite lookup_delete_Some. intros [_ E']. eauto.
  - intros i c. unfold cell_ids. simpl. rewrite leave_cell_lookup. setoid_rewrite lookup_delete_Some. specialize (Kc i c). unfold cell_ids in Kc.
    destruct (decide _) as [->|Hne].
    + rewrite Ec in Kc. simpl in Kc. rewrite elem_of_difference, elem_of_singleton, Kc. split; [intros [(m' & E' & Hc) Hi]; eauto 10|intros (m' & [Hi E'] & Hc); eauto 10].
    + rewrite Kc. split; [|naive_solver]. intros (m' & E' & Hc). exists m'. split_and!; try done. intros ->. congruence.
  - intros c. by apply leave_cell_filled.
  - rewrite map_size_delete_Some by done. lia.
Qed.

Lemma correct_ok id m d : directory_ok d → valid_binary 53 1024 (sp_latitude (sm_position m)) = true →
  valid_binary 53 1024 (sp_longitude (sm_position m)) = true → station_new id = Ok id →
  settled (λ r, directory_ok r.1 ∧ position_ok (sm_position m) ∧ (r.1 = d ∨ dir_stations r.1 = <[id := m]> (dir_stations d))) (correct_location id m d).
Proof.
  intros Hd V1 V2 Hid. unfold correct_location, position_validate. apply settled_check. intros [W1%negb_false_iff W2%negb_false_iff]%orb_false_iff.
  eapply settled_weaken; [by apply replace_ok|]. simpl. intros [d' b] [Hd' Hs]. done.
Qed.
Lemma discover_ok id m d : directory_ok d → valid_binary 53 1024 (sp_latitude (sm_position m)) = true →
  valid_binary 53 1024 (sp_longitude (sm_position m)) = true → station_new id = Ok id → settled (λ r, directory_ok r.1) (discover id m d).
Proof.
  intros Hd V1 V2 Hid. unfold discover, position_validate. apply settled_check. intros [W1%negb_false_iff W2%negb_false_iff]%orb_false_iff.
  assert (settled (λ r, directory_ok r.1) (directory_replace id m d)) as Hr.
  { eapply settled_weaken; [by apply replace_ok|]. by intros [d' b] [Hd' _]. }
  destruct (dir_stations d !! id) as [old|]; [|done]. case_match; [done|]. case_bool_decide; [|done]. by case_match.
Qed.

(** *** Ids *)

Lemma alphanumeric_graphic b : is_ascii_alphanumeric b = true → graphic b.
Proof. unfold is_ascii_alphanumeric, is_ascii_digit, is_ascii_uppercase, is_ascii_lowercase, byte_in, graphic. rewrite !orb_true_iff, !andb_true_iff, !Z.leb_le. lia. Qed.
Lemma upper_upper s : to_ascii_uppercase (to_ascii_uppercase s) = to_ascii_uppercase s.
Proof. unfold to_ascii_uppercase. rewrite <- list_fmap_compose. apply list_fmap_ext. intros _ b _. by destruct b. Qed.
Lemma station_new_id value id : station_new value = Ok id → station_new id = Ok id.
Proof.
  unfold station_new. destruct (negb _ || negb _) eqn:Hc; [done|]. intros [= <-]. set (v := to_ascii_uppercase (trim value)) in *.
  assert (trim v = v) as ->.
  { apply trim_graphic. apply orb_false_iff in Hc as [_ Hc%negb_false_iff]. rewrite forallb_forall in Hc. apply Forall_forall. intros b Hb.
    apply alphanumeric_graphic, Hc. by apply list_elem_of_In. }
  assert (to_ascii_uppercase v = v) as -> by apply upper_upper. by rewrite Hc.
Qed.

Lemma station_settled value : settled (λ id, station_new id = Ok id) (station_new value).
Proof.
  destruct (station_new value) as [id|e] eqn:E; simpl; [by eapply station_new_id|]. unfold station_new in E. case_match; by simplify_eq.
Qed.

(** *** A new cycle *)

Lemma map_iter_NoDup {V} (m : gmap bytes V) : NoDup (map_iter m).*1.
Proof. rewrite map_iter_Permutation. apply NoDup_fst_map_to_list. Qed.
Lemma list_filter_sublist {A} (f : A → bool) l : List.filter f l `sublist_of` l.
Proof. induction l as [|x l IH]; simpl; [done|]. destruct (f x); by constructor. Qed.
Lemma filter_fst_sublist {A B} (f : A * B → bool) l : (List.filter f l).*1 `sublist_of` l.*1.
Proof. induction l as [|x l IH]; simpl; [done|]. destruct (f x); by constructor. Qed.


Lemma forget_all ids d : directory_ok d → NoDup ids → (∀ id, id ∈ ids → is_Some (dir_stations d !! id)) →
  ∃ d', try_fold forget_station d ids = Ok d' ∧ directory_ok d' ∧ dir_revision d' = dir_revision d.
Proof.
  revert d. induction ids as [|id ids IH]; intros d Hd Hnd Hin; simpl; [eauto|]. apply NoDup_cons in Hnd as [Hni Hnd].
  destruct (Hin id) as [m Em]; [left|]. destruct (forget_ok id m d Hd Em) as (d1 & -> & Hd1 & Es & Er). simpl. destruct (IH d1) as (d2 & E2 & Hd2 & Er2).
  - done.
  - done.
  - intros i Hi. rewrite Es, lookup_delete_ne by (intros ->; done). apply Hin. by right.
  - exists d2. split_and!; [done|done|congruence].
Qed.

Definition catalog_ok (c : WeatherStationCatalog) : Prop :=
  ∀ id p, wsc_stations c !! id = Some p → valid_binary 53 1024 (sp_latitude p) = true ∧ valid_binary 53 1024 (sp_longitude p) = true.
(** Settled, unless a counter is at its maximum. *)
Definition settled_unless {A} (Q : Prop) (P : A → Prop) (r : result fault A) : Prop :=
  match r with Ok a => P a | Err (Refused _) => True | Err _ => Q end.
Lemma unless_bind {A B} (Q : Prop) (x : result fault A) (f : A → result fault B) P R :
  settled P x → (∀ a, P a → settled_unless Q R (f a)) → settled_unless Q R (x ≫= f).
Proof. destruct x as [a|[]]; simpl; try done. eauto. Qed.
Lemma unless_fmap {A B} (Q : Prop) (f : A → B) (P : A → Prop) (R : B → Prop) x :
  settled_unless Q P x → (∀ a, P a → R (f a)) → settled_unless Q R (f <$> x).
Proof. destruct x as [a|[]]; simpl; eauto. Qed.
Lemma settled_anyway {A} (Q : Prop) (P : A → Prop) x : settled P x → settled_unless Q P x.
Proof. destruct x as [a|[]]; simpl; try done. Qed.

Lemma install_cycle_ok c d : directory_ok d → catalog_ok c → settled_unless (u64_max ≤ dir_revision d) directory_ok (install_cycle c d).
Proof.
  intros Hd Hc. unfold install_cycle, station_catalog_validate.
  eapply (unless_bind _ _ _ (λ _, True)); [apply settled_check; intros _; eapply settled_weaken; [apply settled_guard|done]|intros _ _]. cbv zeta.
  set (old := (List.filter _ _).*1).
  assert (∀ id, id ∈ old → is_Some (dir_stations d !! id)) as Hold.
  { intros id ([id' m] & -> & Hin)%list_elem_of_fmap. apply list_elem_of_In, filter_In in Hin as [Hin%list_elem_of_In _]. apply elem_of_map_iter in Hin. by exists m. }
  destruct (forget_all old d Hd) as (d1 & -> & Hd1 & Er1); [|done|].
  - unfold old. apply (sublist_NoDup _ _ (map_iter_NoDup (dir_stations d))), filter_fst_sublist.
  - simpl. eapply unless_bind; [apply (settled_fold _ directory_ok); [done|]|].
    + intros b [id p] Hb Hin%elem_of_map_iter. unfold install_station. simpl. eapply settled_bind; [apply station_settled|intros id' Hid'].
      destruct (Hc id p Hin) as [V1 V2]. eapply settled_fmap; [by apply correct_ok|]. by intros [] [? _].
    + intros d2 Hd2. destruct (stations_eqb _ _); [done|]. simpl. unfold checked_add.
      destruct (Z.leb_spec (dir_revision d + 1) u64_max); simpl; [by destruct Hd2|lia].
Qed.

(** *** Finding stations *)

Lemma try_map_total {E A B} (f : A → result E B) (g : A → B) l : (∀ x, x ∈ l → f x = Ok (g x)) → try_map f l = Ok (g <$> l).
Proof.
  induction l as [|x l IH]; intros Hf; simpl; [done|]. rewrite (Hf x) by left. simpl. rewrite IH by (intros y Hy; apply Hf; by right). done.
Qed.
Lemma dedup_sorted l : StronglySorted bytes_le l → StronglySorted bytes_lt (dedup l) ∧ (∀ x, x ∈ dedup l ↔ x ∈ l) ∧ head (dedup l) = head l.
Proof.
  induction 1 as [|x l Hs (IH1 & IH2 & IH3) Hx]; [split_and!; [constructor|done|done]|]. simpl. destruct (dedup l) as [|y out] eqn:E.
  - destruct l as [|z l]; [|exfalso; apply (not_elem_of_nil z); apply IH2; left]. split_and!; [repeat constructor|done|done].
  - assert (bytes_le x y) as Hxy. { rewrite Forall_forall in Hx. apply Hx, IH2. left. }
    case_bool_decide as Exy; [subst y; split_and!; [done|set_solver|done]|]. split_and!; [|set_solver|done].
    assert (bytes_lt x y) as Hlt by (apply bytes_le_lt_eq in Hxy as [|]; done). constructor; [done|]. apply StronglySorted_inv in IH1 as [_ Hy].
    constructor; [done|]. eapply Forall_impl; [exact Hy|]. intros z Hz. by eapply bytes_le_lt_trans.
Qed.

(** Within the bounds; west of east the box crosses the antimeridian. *)
Definition between (lo hi x : f64) : bool := f64_le lo x && f64_le x hi.
Definition in_box (south west north east : f64) (p : StationPosition) : bool :=
  between south north (sp_latitude p)
  && (if f64_le west east then between west east (sp_longitude p)
      else f64_le west (sp_longitude p) || f64_le (sp_longitude p) east).

Definition row_has (d : StationDirectory) (south north : f64) (row : Z * (f64 * f64)) (id : bytes) : Prop :=
  ∃ m, dir_stations d !! id = Some m ∧ cell_of (sp_latitude (sm_position m)) = row.1
    ∧ between south north (sp_latitude (sm_position m)) = true ∧ between row.2.1 row.2.2 (sp_longitude (sm_position m)) = true.
Lemma row_ids_exact d south north lat west east : directory_ok d → finite_ok west → finite_ok east → f64_le west east = true →
  ∃ l, row_ids d south north lat (west, east) = Ok l ∧
    ∀ id, id ∈ l ↔ row_has d south north (lat, (west, east)) id.
Proof.
  intros Hd Fw Fe Hle. unfold row_ids. pose proof (cell_mono _ _ Fw Fe Hle) as Hmono. rewrite (proj2 (Z.ltb_ge _ _)) by done.
  set (candidates := seqZ _ _ ≫= _).
  set (keep p := f64_le south (sp_latitude p) && f64_le (sp_latitude p) north && f64_le west (sp_longitude p) && f64_le (sp_longitude p) east).
  assert (∀ id, id ∈ candidates ↔ ∃ m, dir_stations d !! id = Some m ∧ cell_of (sp_latitude (sm_position m)) = lat
    ∧ cell_of west ≤ cell_of (sp_longitude (sm_position m)) ≤ cell_of east) as Hcand.
  { intros id. unfold candidates. rewrite list_elem_of_bind. setoid_rewrite elem_of_ids_iter. setoid_rewrite elem_of_seqZ. split.
    - intros (lon & Hin & Hlon). apply (dk_cell d Hd) in Hin as (m & E & Hc). unfold cell in Hc. injection Hc as Hc1 Hc2. exists m. split_and!; (done || lia).
    - intros (m & E & Hc & Hlon). exists (cell_of (sp_longitude (sm_position m))). split; [|lia]. apply (dk_cell d Hd). exists m. split; [done|].
      unfold cell. by rewrite Hc. }
  erewrite (try_map_total _ (λ id, match dir_stations d !! id with Some m => if keep (sm_position m) then [id] else [] | None => [] end)).
  2:{ intros id Hid. apply Hcand in Hid as (m & E & _). by rewrite E. }
  simpl. eexists. split; [done|]. intros id. rewrite list_elem_of_In, in_concat. setoid_rewrite <- list_elem_of_In. split.
  - intros (l & Hl & Hin). apply list_elem_of_fmap in Hl as (id' & -> & Hid'). destruct (dir_stations d !! id') as [m|] eqn:E; [|set_solver].
    destruct (keep (sm_position m)) eqn:Hk; [|set_solver]. apply list_elem_of_singleton in Hin as ->. apply Hcand in Hid' as (m' & E' & Hc & _).
    assert (m' = m) as -> by congruence. exists m. unfold keep in Hk. rewrite !andb_true_iff in Hk. destruct Hk as [[[K1 K2] K3] K4].
    unfold between. cbn [fst snd]. rewrite K1, K2, K3, K4. done.
  - intros (m & E & Hc & Hlat & Hlon). exists [id]. split; [|by left]. apply list_elem_of_fmap. exists id. rewrite E. unfold between in *. cbn [fst snd] in *.
    apply andb_true_iff in Hlat as [L1 L2], Hlon as [L3 L4]. unfold keep. rewrite L1, L2, L3, L4. split; [done|]. apply Hcand. exists m. split_and!; try done.
    + apply cell_mono; [done| |done]. by apply position_finite, (dk_position d Hd id).
    + apply cell_mono; [|done|done]. by apply position_finite, (dk_position d Hd id).
Qed.

(** What a query of the directory must answer. *)
Definition bounds_answer (d : StationDirectory) (south west north east : f64) (r : result fault (list bytes)) : Prop :=
  match r with
  | Ok l => StronglySorted bytes_lt l
      ∧ ∀ id, id ∈ l ↔ ∃ m, dir_stations d !! id = Some m ∧ in_box south west north east (sm_position m) = true
  | Err (Refused _) => within 90 south && within 180 west && within 90 north && within 180 east && f64_le south north = false
  | Err _ => False
  end.
Lemma lit_bounds b : b ∈ [180; -180] → finite_ok (f64_lit b 0).
Proof. rewrite !elem_of_cons, elem_of_nil. by intros [->|[->|[]]]. Qed.

Lemma try_map_spec {E A B} (f : A → result E B) (P : A → B → Prop) l :
  (∀ x, x ∈ l → ∃ y, f x = Ok y ∧ P x y) → ∃ ys, try_map f l = Ok ys ∧ Forall2 P l ys.
Proof.
  induction l as [|x l IH]; intros Hf; simpl; [eauto|]. destruct (Hf x) as (y & -> & Hy); [left|].
  destruct IH as (ys & -> & Hys); [intros z Hz; apply Hf; by right|]. simpl. eauto.
Qed.
Lemma elem_of_concat_Forall2 {A B} (P : A → list B → Prop) (Q : A → B → Prop) l ys b :
  Forall2 P l ys → (∀ x y, P x y → b ∈ y ↔ Q x b) → b ∈ concat ys ↔ ∃ x, x ∈ l ∧ Q x b.
Proof.
  intros HF HQ. induction HF as [|x y l ys Hxy HF IH]; simpl; [set_solver|]. rewrite elem_of_app, IH, (HQ x y Hxy). set_solver.
Qed.

Definition box_ranges (west east : f64) : list (f64 * f64) :=
  if f64_le west east then [(west, east)] else [(west, f64_lit 180 0); (f64_lit (-180) 0, east)].
Lemma ranges_ok west east r : finite_ok west → finite_ok east → within 180 west = true → within 180 east = true →
  r ∈ box_ranges west east → finite_ok r.1 ∧ finite_ok r.2 ∧ f64_le r.1 r.2 = true.
Proof.
  unfold box_ranges, within. rewrite !andb_true_iff. intros Fw Fe [W1 W2] [E1 E2]. destruct (f64_le west east) eqn:Hle.
  - by intros ->%list_elem_of_singleton.
  - rewrite !elem_of_cons, elem_of_nil. intros [->|[->|[]]]; done.
Qed.
Lemma box_cover west east x : within 180 x = true → (∃ r, r ∈ box_ranges west east ∧ between r.1 r.2 x = true)
  ↔ (if f64_le west east then between west east x else f64_le west x || f64_le x east) = true.
Proof.
  unfold within, box_ranges, between. intros [X1 X2]%andb_true_iff. destruct (f64_le west east).
  - setoid_rewrite elem_of_cons. setoid_rewrite elem_of_nil. naive_solver.
  - setoid_rewrite elem_of_cons. setoid_rewrite elem_of_cons. setoid_rewrite elem_of_nil. rewrite orb_true_iff. split.
    + intros (r & [->|[->|[]]] & [B1 B2]%andb_true_iff); simpl in *; auto.
    + intros [B|B]; [exists (west, f64_lit 180 0)|exists (f64_lit (-180) 0, east)]; (split; [auto|]); apply andb_true_iff; done.
Qed.

Lemma in_bounds_exact d south west north east : directory_ok d →
  Forall (λ x, valid_binary 53 1024 x = true) [south; west; north; east] → bounds_answer d south west north east (in_bounds south west north east d).
Proof.
  intros Hd Hv. rewrite !Forall_cons in Hv. destruct Hv as (V1 & V2 & V3 & V4 & _). unfold in_bounds, position_validate. fold (box_ranges west east). cbn [sp_latitude sp_longitude].
  destruct (within 90 south) eqn:W1; [|by simpl; rewrite W1]. destruct (within 180 west) eqn:W2; [|by simpl; rewrite W1, W2].
  destruct (within 90 north) eqn:W3; [|by simpl; rewrite W1, W2, W3]. destruct (within 180 east) eqn:W4; [|by simpl; rewrite W1, W2, W3, W4].
  assert (finite_ok south) as Fs by (apply (within_finite 90); [set_solver|done|done]).
  assert (finite_ok north) as Fn by (apply (within_finite 90); [set_solver|done|done]).
  assert (finite_ok west) as Fw by (apply (within_finite 180); [set_solver|done|done]).
  assert (finite_ok east) as Fe by (apply (within_finite 180); [set_solver|done|done]).
  destruct (f64_gt south north) eqn:Hsn.
  { simpl. rewrite W1, W2, W3, W4. simpl. apply f64_gt_sval in Hsn; [|done|done]. apply not_true_iff_false. rewrite f64_le_sval by done. lia. }
  assert (f64_le south north = true) as Hle.
  { apply f64_le_sval; [done|done|]. apply not_true_iff_false in Hsn. rewrite f64_gt_sval in Hsn by done. lia. }
  simpl. set (cells := seqZ _ _ ≫= _).
  destruct (try_map_spec (λ p : Z * (f64 * f64), row_ids d south north p.1 p.2)
    (λ p l, ∀ id, id ∈ l ↔ row_has d south north p id) cells) as (ys & -> & Hys).
  { intros [lat [w e]] Hin. unfold cells in Hin. apply list_elem_of_bind in Hin as (lat' & Hin & _). apply list_elem_of_bind in Hin as (r & Hin & Hr).
    apply list_elem_of_singleton in Hin as [= -> <-]. destruct (ranges_ok west east (w, e)) as (F1 & F2 & F3); try done.
    destruct (row_ids_exact d south north lat' w e) as (l & El & Hl); [done|done|done|done|]. exists l. split; [exact El|exact Hl]. }
  simpl. destruct (dedup_sorted (merge_sort bytes_le (concat ys))) as (D1 & D2 & _); [apply StronglySorted_merge_sort; apply _|]. split; [done|].
  intros id. rewrite D2, merge_sort_Permutation. rewrite (elem_of_concat_Forall2 _ (row_has d south north) _ _ id Hys) by (intros x y Hxy; apply Hxy).
  unfold in_box. setoid_rewrite andb_true_iff. split.
  - intros ([lat r] & Hin & m & E & Hc & Hlat & Hlon). exists m. split; [done|]. split; [done|]. apply box_cover; [by apply (dk_position d Hd id)|].
    unfold cells in Hin. apply list_elem_of_bind in Hin as (lat' & Hin & _). apply list_elem_of_bind in Hin as (r' & Hin & Hr).
    apply list_elem_of_singleton in Hin as [= -> ->]. eauto.
  - intros (m & E & Hlat & Hlon). pose proof (dk_position d Hd id m E) as Hp. apply box_cover in Hlon as (r & Hr & Hb); [|by apply Hp].
    exists (cell_of (sp_latitude (sm_position m)), r). split; [|by exists m]. unfold cells. apply list_elem_of_bind. eexists. split.
    + apply list_elem_of_bind. exists r. split; [by apply list_elem_of_singleton|done].
    + apply elem_of_seqZ. unfold between in Hlat. apply andb_true_iff in Hlat as [L1 L2]. destruct (position_finite _ Hp) as [Fl _].
      pose proof (cell_mono _ _ Fs Fl L1). pose proof (cell_mono _ _ Fl Fn L2). lia.
Qed.

(** ** Reports *)

(** Dates are in a total order. *)
Class ChronoOrder `{Chrono} : Prop := {
  datetime_irrefl a : datetime_ltb a a = false;
  datetime_trans a b c : datetime_ltb a b = true → datetime_ltb b c = true → datetime_ltb a c = true;
  datetime_total a b : datetime_ltb a b = false → datetime_ltb b a = false → a = b }.

Definition sum_by {A} (f : A → Z) (l : list A) : Z := foldr (λ x acc, f x + acc) 0 l.
#[global] Instance sum_by_perm {A} (f : A → Z) : Proper ((≡ₚ) ==> eq) (sum_by f).
Proof. induction 1; simpl; lia. Qed.
Lemma sum_by_app {A} (f : A → Z) l l' : sum_by f (l ++ l') = sum_by f l + sum_by f l'.
Proof. induction l; simpl; lia. Qed.
Lemma sum_by_nonneg {A} (f : A → Z) l : (∀ x, 0 ≤ f x) → 0 ≤ sum_by f l.
Proof. intros Hf. induction l as [|x l IH]; simpl; [lia|]. specialize (Hf x). lia. Qed.

Section reports.
Context `{ChronoOrder}.
Implicit Types (r : StationReport) (k : ReportKey) (m : gmap ReportKey StationReport).

Definition sum_map (f : ReportKey * StationReport → Z) m : Z := sum_by f (map_to_list m).
Definition old_of (f : ReportKey * StationReport → Z) k (o : option StationReport) : Z := match o with Some r => f (k, r) | None => 0 end.
Lemma sum_map_empty f : sum_map f ∅ = 0.
Proof. unfold sum_map. by rewrite map_to_list_empty. Qed.
Lemma sum_map_fresh f m k r : m !! k = None → sum_map f (<[k := r]> m) = f (k, r) + sum_map f m.
Proof. intros E. unfold sum_map. by rewrite map_to_list_insert. Qed.
Lemma sum_map_delete f m k : sum_map f m = old_of f k (m !! k) + sum_map f (delete k m).
Proof.
  destruct (m !! k) as [r|] eqn:E; simpl; [|by rewrite delete_id]. rewrite <- (insert_delete_id m k r) at 1 by done.
  by rewrite sum_map_fresh by apply lookup_delete_eq.
Qed.
Lemma sum_map_insert f m k r : sum_map f (<[k := r]> m) = sum_map f m - old_of f k (m !! k) + f (k, r).
Proof.
  rewrite <- insert_delete_eq, sum_map_fresh by apply lookup_delete_eq. rewrite (sum_map_delete f m k). lia.
Qed.
(** What a set of changes adds. *)
Definition delta (f : ReportKey * StationReport → Z) m (e : ReportKey * StationReport) : Z := f e - old_of f e.1 (m !! e.1).
Lemma sum_map_union f changes m : sum_map f (changes ∪ m) = sum_map f m + sum_map (delta f m) changes.
Proof.
  induction changes as [|k r changes E IH] using map_ind; [by rewrite map_empty_union, sum_map_empty, Z.add_0_r|].
  rewrite <- insert_union_l, sum_map_insert, IH, sum_map_fresh by done.
  change (delta f m (k, r)) with (f (k, r) - old_of f k (m !! k)). rewrite lookup_union_r by done. lia.
Qed.

Definition text_of (e : ReportKey * StationReport) : Z := len (rp_raw_text e.2).
Definition metar_of (e : ReportKey * StationReport) : Z := if bool_decide (e.1.2 = MetarReport) then 1 else 0.
Definition one_each (e : ReportKey * StationReport) : Z := 1.
Lemma sum_one m : sum_map one_each m = Z.of_nat (size m).
Proof.
  unfold sum_map. rewrite <- length_map_to_list. generalize (map_to_list m). intros l. induction l as [|e l IH]; [done|]. simpl. unfold one_each at 1. rewrite IH. lia.
Qed.

Definition report_ok k r : Prop := report_key r = k ∧ report_validate r = Ok tt ∧ station_new (rp_station r) = Ok (rp_station r).
Record reports_ok (s : StationReports) : Prop := {
  ok_reports : map_Forall report_ok (srs_reports s);
  ok_text : srs_text_bytes s = sum_map text_of (srs_reports s);
  ok_metars : srs_metar_count s = sum_map metar_of (srs_reports s);
  ok_limit : srs_text_bytes s ≤ MAX_SOURCE_TEXT_BYTES }.
Lemma reports_default_ok : reports_ok reports_default.
Proof. split; simpl; rewrite ?sum_map_empty; [apply map_Forall_empty|done|done|done]. Qed.

Lemma batch_sizes (s : StationReports) (changes : gmap ReportKey StationReport) (t c n : Z) :
  (∀ k r, changes !! k = Some r → report_key r = k) → ∀ l, (∀ e, e ∈ l → changes !! e.1 = Some e.2) →
  foldl (batch_size s) (t, c, n) l
  = (t + sum_by (delta text_of (srs_reports s)) l, c + sum_by (delta one_each (srs_reports s)) l, n + sum_by (λ e, metar_of e - old_of metar_of e.1 (srs_reports s !! e.1)) l).
Proof.
  intros Hk l. revert t c n. induction l as [|[k r] l IH]; intros t c n Hl; simpl; [f_equal; [f_equal|]; lia|].
  assert (report_key r = k) as Hr by (apply (Hk k), (Hl (k, r)); left).
  assert (report_kind r = k.2) as Er by (rewrite <- Hr; done).
  destruct (srs_reports s !! k) as [o|] eqn:E; rewrite IH by (intros e He; apply Hl; by right); unfold delta, text_of, metar_of, one_each, old_of; simpl; rewrite E; simpl;
    rewrite ?Er; f_equal; [f_equal| |f_equal|]; lia.
Qed.
Lemma reports_iter_perm m : reports_iter m ≡ₚ map_to_list m.
Proof. apply merge_sort_Permutation. Qed.

Lemma batch_total (s : StationReports) (changes : gmap ReportKey StationReport) (t c n : Z) (m := srs_reports s) :
  (∀ k r, changes !! k = Some r → report_key r = k) →
  foldl (batch_size s) (t, c, n) (reports_iter changes)
  = (t + sum_map (delta text_of m) changes, c + sum_map (delta one_each m) changes, n + sum_map (delta metar_of m) changes).
Proof.
  intros Hk. rewrite (batch_sizes s changes); [|done|].
  - unfold sum_map. by rewrite <- !reports_iter_perm.
  - intros [k r] Hin. rewrite reports_iter_perm in Hin. by apply elem_of_map_to_list in Hin.
Qed.

(** *** The newest report *)

Definition same_precedence r r' : Prop := precedence_ltb r r' = false ∧ precedence_ltb r' r = false.
(** The newest of some reports. *)
Definition newest_of (l : list StationReport) (o : option StationReport) : Prop :=
  match o with Some r => r ∈ l ∧ ∀ x, x ∈ l → precedence_ltb r x = false | None => l = [] end.
Definition of_key k (l : list StationReport) : list StationReport := filter (λ r, report_key r = k) l.

Lemma time_irrefl (a : option DateTime) : time_ltb a a = false.
Proof. destruct a; simpl; [apply datetime_irrefl|done]. Qed.
Lemma time_trans (a b c : option DateTime) : time_ltb a b = true → time_ltb b c = true → time_ltb a c = true.
Proof. destruct a, b, c; simpl; try done. apply datetime_trans. Qed.
Lemma time_total (a b : option DateTime) : time_ltb a b = false → time_ltb b a = false → a = b.
Proof. destruct a as [a|], b as [b|]; simpl; try done. intros Ha Hb. by rewrite (datetime_total a b). Qed.
Lemma time_eqb_eq (a b : option DateTime) : time_eqb a b = true ↔ a = b.
Proof.
  unfold time_eqb. rewrite andb_true_iff, !negb_true_iff. split; [intros [? ?]; by apply time_total|]. intros ->. split; apply time_irrefl.
Qed.
Lemma revision_inj (a b : ReportRevision) : revision_rank a = revision_rank b → a = b.
Proof. by destruct a, b. Qed.

Lemma newer_spec r r' : newer_ltb r r' = true ↔
  time_ltb (rp_report_time r) (rp_report_time r') = true
  ∨ (rp_report_time r = rp_report_time r' ∧ revision_rank (rp_revision r) < revision_rank (rp_revision r')).
Proof. unfold newer_ltb. by rewrite orb_true_iff, andb_true_iff, time_eqb_eq, Z.ltb_lt. Qed.
Lemma same_time_spec r r' : same_time r r' = true ↔ rp_report_time r = rp_report_time r' ∧ rp_revision r = rp_revision r'.
Proof.
  unfold same_time. rewrite andb_true_iff, time_eqb_eq, Z.eqb_eq. split; intros [? Hr]; (split; [done|]); [by apply revision_inj|by rewrite Hr].
Qed.
Lemma precedence_spec r r' : precedence_ltb r r' = true ↔
  newer_ltb r r' = true
  ∨ (rp_report_time r = rp_report_time r' ∧ rp_revision r = rp_revision r' ∧ bytes_lt (rp_raw_text r) (rp_raw_text r')).
Proof. unfold precedence_ltb. rewrite orb_true_iff, andb_true_iff, same_time_spec, bytes_ltb_lt. tauto. Qed.

Lemma newer_trans a b c : newer_ltb a b = true → newer_ltb b c = true → newer_ltb a c = true.
Proof.
  rewrite !newer_spec. intros [T1|[E1 R1]] [T2|[E2 R2]].
  - left. by eapply time_trans.
  - left. by rewrite <- E2.
  - left. by rewrite E1.
  - right. split; [congruence|lia].
Qed.
Lemma newer_total a b : newer_ltb a b = false → newer_ltb b a = false → rp_report_time a = rp_report_time b ∧ rp_revision a = rp_revision b.
Proof.
  rewrite <- !not_true_iff_false, !newer_spec. intros Ha Hb. assert (rp_report_time a = rp_report_time b) as E.
  { apply time_total; apply not_true_iff_false; intros Ht; [apply Ha|apply Hb]; by left. }
  split; [done|]. apply revision_inj. apply Z.le_antisymm; apply Z.nlt_ge; intros Hlt; [apply Hb|apply Ha]; right; by rewrite E.
Qed.
Lemma precedence_irrefl r : precedence_ltb r r = false.
Proof.
  apply not_true_iff_false. rewrite precedence_spec, newer_spec, time_irrefl. intros [[?|[_ ?]]|(_ & _ & Hl)]; [done|lia|].
  unfold bytes_lt in Hl. by rewrite bytes_cmp_refl in Hl.
Qed.
Lemma precedence_trans a b c : precedence_ltb a b = true → precedence_ltb b c = true → precedence_ltb a c = true.
Proof.
  rewrite !precedence_spec. intros [N1|(T1 & R1 & X1)] [N2|(T2 & R2 & X2)].
  - left. by eapply newer_trans.
  - left. rewrite newer_spec in *. by rewrite <- T2, <- R2.
  - left. rewrite newer_spec in *. by rewrite T1, R1.
  - right. split_and!; [congruence|congruence|]. eapply bytes_le_lt_trans; [apply bytes_le_lt_eq; by left|done].
Qed.
(** Reports of the same precedence agree on time, revision and text. *)
Lemma precedence_total a b : precedence_ltb a b = false → precedence_ltb b a = false →
  rp_report_time a = rp_report_time b ∧ rp_revision a = rp_revision b ∧ rp_raw_text a = rp_raw_text b.
Proof.
  rewrite <- !not_true_iff_false, !precedence_spec. intros Ha Hb.
  destruct (newer_total a b) as [T R]; [apply not_true_iff_false; tauto|apply not_true_iff_false; tauto|]. split_and!; try done.
  destruct (bytes_lt_trichotomy (rp_raw_text a) (rp_raw_text b)) as [?|[?|?]]; [|done|]; exfalso; [apply Ha|apply Hb]; right; done.
Qed.
Lemma precedence_le_trans a b c : precedence_ltb b a = false → precedence_ltb c b = false → precedence_ltb c a = false.
Proof.
  intros Hab Hbc. apply not_true_iff_false. intros Hca. destruct (precedence_ltb a b) eqn:E.
  - rewrite (precedence_trans c a b) in Hbc; done.
  - destruct (precedence_total a b E Hab) as (T & R & X). apply not_true_iff_false in Hbc. apply Hbc. rewrite precedence_spec, newer_spec in *. by rewrite <- T, <- R, <- X.
Qed.

(** *** Ingesting *)

Lemma batch_add_newest s changes r changes' (seen : list StationReport) :
  (∀ k, newest_of (option_list (srs_reports s !! k) ++ of_key k seen) (match changes !! k with Some e => Some e | None => srs_reports s !! k end)) →
  batch_add s changes r = Ok changes' →
  ∀ k, newest_of (option_list (srs_reports s !! k) ++ of_key k (seen ++ [r])) (match changes' !! k with Some e => Some e | None => srs_reports s !! k end).
Proof.
  intros Hn. unfold batch_add. destruct (report_validate r); [|done]. simpl. intros [= <-] k. specialize (Hn k). unfold of_key in *. rewrite filter_app, app_assoc.
  destruct (decide (report_key r = k)) as [Ek|Ek].
  2:{ rewrite filter_cons_False, filter_nil, app_nil_r by done. destruct (match _ with Some e => precedence_ltb e r | None => _ end); [|done]. by rewrite lookup_insert_ne. }
  subst k. rewrite filter_cons_True, filter_nil by done.
  set (old := match changes !! report_key r with Some e => Some e | None => srs_reports s !! report_key r end) in *.
  destruct old as [e|] eqn:Eo; simpl in Hn.
  - destruct Hn as [Hin Hmax]. destruct (precedence_ltb e r) eqn:Hlt.
    + rewrite lookup_insert_eq. split; [apply elem_of_app; right; by left|]. intros x [Hx|Hx]%elem_of_app.
      * eapply precedence_le_trans; [by apply Hmax|]. apply not_true_iff_false. intros Hr. pose proof (precedence_trans _ _ _ Hlt Hr) as Hc. by rewrite precedence_irrefl in Hc.
      * apply list_elem_of_singleton in Hx as ->. apply precedence_irrefl.
    + fold old. rewrite Eo. split; [apply elem_of_app; by left|]. intros x [Hx|Hx]%elem_of_app; [by apply Hmax|]. by apply list_elem_of_singleton in Hx as ->.
  - rewrite lookup_insert_eq. rewrite Hn. split; [by left|]. intros x ->%list_elem_of_singleton. apply precedence_irrefl.
Qed.

Definition own_key (changes : gmap ReportKey StationReport) (reports : list StationReport) : Prop :=
  ∀ k r, changes !! k = Some r → report_key r = k ∧ r ∈ reports ∧ report_validate r = Ok tt.
Lemma batch_fold s reports : settled (λ changes, own_key changes reports
    ∧ ∀ k, newest_of (option_list (srs_reports s !! k) ++ of_key k reports) (match changes !! k with Some e => Some e | None => srs_reports s !! k end))
  (try_fold (batch_add s) ∅ reports).
Proof.
  induction reports as [|r reports IH] using rev_ind.
  - simpl. split; [by intros k r; rewrite lookup_empty|]. intros k. rewrite lookup_empty. unfold of_key. rewrite filter_nil, app_nil_r.
    destruct (srs_reports s !! k); simpl; [|done]. split; [by left|]. intros x ->%list_elem_of_singleton. apply precedence_irrefl.
  - rewrite try_fold_app. eapply settled_bind; [exact IH|]. intros changes [Hk Hn]. simpl. destruct (batch_add s changes r) as [changes'|e] eqn:E; simpl.
    + split; [|by eapply batch_add_newest]. intros k x Hx. unfold batch_add in E. destruct (report_validate r) as [[]|] eqn:Ev; [|done]. simpl in E. injection E as <-.
      destruct (match _ with Some e => precedence_ltb e r | None => _ end); [apply lookup_insert_Some in Hx as [[<- <-]|[_ Hx]]|]; [set_solver| |];
        apply Hk in Hx as (? & ? & ?); set_solver.
    + unfold batch_add, report_validate, guard_err in E. destruct (_ || _); [by injection E as <-|done].
Qed.

Lemma ingest_batch_ok s reports : reports_ok s → Forall (λ r, station_new (rp_station r) = Ok (rp_station r)) reports →
  settled (λ x, reports_ok x.1 ∧ ∀ k, newest_of (option_list (srs_reports s !! k) ++ of_key k reports) (srs_reports x.1 !! k)) (reports_ingest_batch reports s).
Proof.
  intros [Kr Kt Km Kl] Hid. unfold reports_ingest_batch, prepare_batch. destruct (try_fold (batch_add s) ∅ reports) as [changes|e] eqn:E.
  2:{ pose proof (batch_fold s reports) as Hb. rewrite E in Hb. by destruct e. }
  pose proof (batch_fold s reports) as Hb. rewrite E in Hb. destruct Hb as [Hk Hn]. simpl.
  rewrite (batch_total s changes) by (intros k r Hr; exact (proj1 (Hk k r Hr))).
  destruct (Z.of_nat _ + _ >? _); [exact I|]. destruct (srs_text_bytes s + _ >? _) eqn:Hl; [exact I|]. simpl. rewrite Z.gtb_ltb, Z.ltb_ge in Hl. split.
  - split; simpl.
    + intros k r Hr. apply lookup_union_Some_raw in Hr as [Hr|[_ Hr]]; [|by apply Kr]. apply Hk in Hr as (Ek & Hin & Hv). split_and!; try done.
      rewrite Forall_forall in Hid. by apply Hid.
    + rewrite sum_map_union. lia.
    + rewrite sum_map_union. lia.
    + lia.
  - intros k. specialize (Hn k). rewrite lookup_union. destruct (changes !! k), (srs_reports s !! k); done.
Qed.
Lemma ingest_ok s r : reports_ok s → station_new (rp_station r) = Ok (rp_station r) → settled (λ x, reports_ok x.1) (reports_ingest r s).
Proof. intros Hs Hr. eapply settled_weaken; [apply ingest_batch_ok; [done|by repeat constructor]|]. by intros [] [? _]. Qed.

Lemma remove_ok s id kind : reports_ok s → reports_ok (reports_remove id kind s).
Proof.
  intros [Kr Kt Km Kl]. unfold reports_remove. destruct (srs_reports s !! (id, kind)) as [r|] eqn:E; [|done].
  pose proof (sum_map_delete text_of (srs_reports s) (id, kind)) as Ht. pose proof (sum_map_delete metar_of (srs_reports s) (id, kind)) as Hm.
  rewrite E in Ht, Hm. change (old_of text_of (id, kind) (Some r)) with (len (rp_raw_text r)) in Ht.
  change (old_of metar_of (id, kind) (Some r)) with (if bool_decide (kind = MetarReport) then 1 else 0) in Hm. split; simpl.
  - by apply map_Forall_delete.
  - lia.
  - lia.
  - pose proof (len_nonneg (rp_raw_text r)). lia.
Qed.

Lemma newest_app l l' o o' : newest_of l o → newest_of (option_list o ++ l') o' → newest_of (l ++ l') o'.
Proof.
  destruct o as [r|]; simpl; [|by intros ->]. intros [Hr Hmax] Hn. destruct o' as [r'|]; simpl in *; [|done]. destruct Hn as [Hr' Hmax'].
  split; [set_solver|]. intros x [Hx|Hx]%elem_of_app; [|apply Hmax'; by right]. eapply precedence_le_trans; [by apply Hmax|]. apply Hmax'. by left.
Qed.
Lemma newest_perm l l' o o' : l ≡ₚ l' → newest_of l o → newest_of l' o' →
  (λ r, (rp_report_time r, rp_revision r, rp_raw_text r)) <$> o = (λ r, (rp_report_time r, rp_revision r, rp_raw_text r)) <$> o'.
Proof.
  intros Hp. destruct o as [r|], o' as [r'|]; simpl; try done.
  - intros [Hr Hmax] [Hr' Hmax']. destruct (precedence_total r r') as (-> & -> & ->); [|by apply Hmax'; rewrite <- Hp|done]. apply Hmax. by rewrite Hp.
  - intros [Hr _] ->. by rewrite Hp in Hr; apply not_elem_of_nil in Hr.
  - intros -> [Hr _]. by rewrite <- Hp in Hr; apply not_elem_of_nil in Hr.
Qed.

(** ** Both sources *)

Record weather_ok (w : StationWeather) : Prop := {
  wk_directory : directory_ok (sw_directory w); wk_internet : reports_ok (sw_internet w); wk_receiver : reports_ok (sw_receiver w) }.
Definition id_ok r : Prop := station_new (rp_station r) = Ok (rp_station r).

Lemma weather_default_ok : weather_ok weather_default.
Proof. split; [apply directory_default_ok|apply reports_default_ok|apply reports_default_ok]. Qed.
Lemma source_ok source w : weather_ok w → reports_ok (source_reports source w).
Proof. intros [? ? ?]. by destruct source. Qed.
Lemma with_source_ok source s w : weather_ok w → reports_ok s → weather_ok (with_source source s w).
Proof. intros [? ? ?] ?. by destruct source; split. Qed.

(** What was received from a source for a station and kind. *)
Definition received (source : WeatherSource) k (events : list (WeatherSource * list StationReport)) : list StationReport :=
  of_key k (concat (snd <$> filter (λ e, e.1 = source) events)).
Definition ingest_all (events : list (WeatherSource * list StationReport)) (w : StationWeather) : result fault StationWeather :=
  try_fold (λ w e, fst <$> weather_ingest_batch e.1 e.2 w) w events.

Lemma received_snoc source k events e : received source k (events ++ [e]) = received source k events ++ if decide (e.1 = source) then of_key k e.2 else [].
Proof.
  unfold received. rewrite filter_app, fmap_app, concat_app. unfold of_key at 1. rewrite filter_app. f_equal. destruct (decide (e.1 = source)).
  - rewrite filter_cons_True, filter_nil by done. simpl. by rewrite app_nil_r.
  - by rewrite filter_cons_False, filter_nil by done.
Qed.
Lemma ingest_all_newest events w : Forall (λ e, Forall id_ok e.2) events → ingest_all events weather_default = Ok w →
  weather_ok w ∧ ∀ source k, newest_of (received source k events) (srs_reports (source_reports source w) !! k).
Proof.
  revert w. induction events as [|e events IH] using rev_ind; intros w Hid.
  - intros [= <-]. split; [apply weather_default_ok|]. intros [] k; simpl; by rewrite lookup_empty.
  - apply Forall_app in Hid as [Hid He]. rewrite Forall_singleton in He. unfold ingest_all in *. rewrite try_fold_app.
    destruct (try_fold _ weather_default events) as [w1|] eqn:E1; [|done]. destruct (IH w1 Hid eq_refl) as [Hw Hn]. simpl.
    unfold weather_ingest_batch. pose proof (ingest_batch_ok (source_reports e.1 w1) e.2 (source_ok _ _ Hw) He) as Hb.
    destruct (reports_ingest_batch e.2 (source_reports e.1 w1)) as [[s changed]|] eqn:Eb; [|done]. simpl in *. destruct Hb as [Hs Hbn].
    intros [= <-]. split; [by apply with_source_ok|]. intros source k. rewrite received_snoc. destruct (decide (e.1 = source)) as [<-|Hne].
    + eapply newest_app; [apply Hn|]. destruct e as [[] l]; apply Hbn.
    + rewrite app_nil_r. destruct e as [[] l], source; simpl in *; try done; apply Hn.
Qed.

(** What a query must answer: the newer of what the sources gave, the feed's when they are of
    one time; a conflict when they then differ. *)
Definition query_answer (from_feed from_receiver_ : list StationReport) (answer : option (WeatherSource * StationReport * bool)) : Prop :=
  match answer with
  | None => from_feed = [] ∧ from_receiver_ = []
  | Some (source, r, conflict) =>
      r ∈ match source with Internet => from_feed | ReceiverSource => from_receiver_ end
      ∧ (∀ x, x ∈ from_feed ++ from_receiver_ → newer_ltb r x = false)
      ∧ (source = ReceiverSource → ∀ x, x ∈ from_feed → newer_ltb x r = true)
      ∧ (conflict = true → source = Internet ∧ ∃ x, x ∈ from_receiver_ ∧ rp_report_time x = rp_report_time r ∧ rp_revision x = rp_revision r ∧ rp_raw_text x ≠ rp_raw_text r)
  end.
Lemma precedence_newer a b : precedence_ltb a b = false → newer_ltb a b = false.
Proof. intros Hp. apply not_true_iff_false. intros Hn. apply not_true_iff_false in Hp. apply Hp, precedence_spec. by left. Qed.

Lemma select_answer feed receiver_ id kind w : newest_of feed (srs_reports (sw_internet w) !! (id, kind)) →
  newest_of receiver_ (srs_reports (sw_receiver w) !! (id, kind)) → query_answer feed receiver_ (select id kind w).
Proof.
  unfold select. simpl. destruct (srs_reports (sw_internet w) !! (id, kind)) as [a|], (srs_reports (sw_receiver w) !! (id, kind)) as [b|]; simpl.
  - intros [Ha Hmax] [Hb Hmax']. destruct (newer_ltb a b) eqn:Hn; simpl.
    + split_and!; [done| | |done].
      * intros x [Hx|Hx]%elem_of_app; [|by apply precedence_newer, Hmax']. apply not_true_iff_false. intros Hbx. pose proof (newer_trans _ _ _ Hn Hbx) as Hc.
        by rewrite (precedence_newer a x) in Hc by (by apply Hmax).
      * intros _ x Hx. destruct (newer_ltb x b) eqn:Hxb; [done|]. exfalso. destruct (newer_ltb b x) eqn:Hbx.
        -- pose proof (newer_trans _ _ _ Hn Hbx) as Hc. by rewrite (precedence_newer a x) in Hc by (by apply Hmax).
        -- destruct (newer_total x b Hxb Hbx) as [T R]. rewrite newer_spec, <- T, <- R, <- newer_spec in Hn. by rewrite (precedence_newer a x) in Hn by (by apply Hmax).
    + split_and!; [done| |done|].
      * intros x [Hx|Hx]%elem_of_app; [by apply precedence_newer, Hmax|]. apply not_true_iff_false. intros Hax.
        destruct (newer_ltb b a) eqn:Hba.
        -- pose proof (newer_trans _ _ _ Hba Hax) as Hc. by rewrite (precedence_newer b x) in Hc by (by apply Hmax').
        -- destruct (newer_total a b Hn Hba) as [T R]. rewrite newer_spec, T, R, <- newer_spec in Hax. by rewrite (precedence_newer b x) in Hax by (by apply Hmax').
      * intros [[T R]%same_time_spec X]%andb_true_iff. split; [done|]. exists b. split_and!; try done. by apply negb_true_iff, bool_decide_eq_false in X.
  - intros [Ha Hmax] ->. split_and!; [done| |done|done]. intros x. rewrite app_nil_r. intros Hx. by apply precedence_newer, Hmax.
  - intros -> [Hb Hmax]. split_and!; [done| | |done]; [intros x Hx; by apply precedence_newer, Hmax|set_solver].
  - done.
Qed.

(** What is shown of an answer. *)
Definition shown_report (x : WeatherSource * StationReport * bool) : WeatherSource * option DateTime * ReportRevision * bytes * bool :=
  let '(source, r, conflict) := x in (source, rp_report_time r, rp_revision r, rp_raw_text r, conflict).
Lemma select_shown id kind w w' :
  (∀ source, (λ r, (rp_report_time r, rp_revision r, rp_raw_text r)) <$> srs_reports (source_reports source w) !! (id, kind)
    = (λ r, (rp_report_time r, rp_revision r, rp_raw_text r)) <$> srs_reports (source_reports source w') !! (id, kind)) →
  shown_report <$> select id kind w = shown_report <$> select id kind w'.
Proof.
  intros Hs. pose proof (Hs Internet) as Hi. pose proof (Hs ReceiverSource) as Hr. unfold select. simpl in *.
  destruct (srs_reports (sw_internet w) !! (id, kind)) as [a|], (srs_reports (sw_internet w') !! (id, kind)) as [a'|]; try done;
    destruct (srs_reports (sw_receiver w) !! (id, kind)) as [b|], (srs_reports (sw_receiver w') !! (id, kind)) as [b'|]; try done;
    simpl in *; [|congruence|congruence]. injection Hi as T1 R1 X1. injection Hr as T2 R2 X2.
  assert (newer_ltb a b = newer_ltb a' b') as -> by (unfold newer_ltb; by rewrite T1, R1, T2, R2).
  assert (same_time b a = same_time b' a') as -> by (unfold same_time; by rewrite T1, R1, T2, R2).
  rewrite X1, X2. destruct (newer_ltb a' b'); simpl; by rewrite ?T1, ?R1, ?X1, ?T2, ?R2, ?X2.
Qed.

(** C19: whatever the two sources sent in whatever batches, a query shows a report that was
    received and that none of the received reports is newer than, the feed's when both are of
    one time, and tells a conflict only when they then differ; and it shows the same whatever
    the order in which the reports came. *)
Theorem weather_newest (events : list (WeatherSource * list StationReport)) (w : StationWeather) (id : bytes) (kind : StationReportKind) :
  Forall (λ e, Forall id_ok e.2) events → ingest_all events weather_default = Ok w →
  query_answer (received Internet (id, kind) events) (received ReceiverSource (id, kind) events) (select id kind w)
  ∧ ∀ events' w', Forall (λ e, Forall id_ok e.2) events' → ingest_all events' weather_default = Ok w' →
      (∀ source, received source (id, kind) events' ≡ₚ received source (id, kind) events) →
      shown_report <$> select id kind w' = shown_report <$> select id kind w.
Proof.
  intros Hid Hw. destruct (ingest_all_newest events w Hid Hw) as [_ Hn]. split; [by apply select_answer; [apply (Hn Internet)|apply (Hn ReceiverSource)]|].
  intros events' w' Hid' Hw' Hp. destruct (ingest_all_newest events' w' Hid' Hw') as [_ Hn']. apply select_shown. intros source.
  by eapply newest_perm; [apply Hp|apply Hn'|apply Hn].
Qed.

(** *** Products and snapshots *)

Definition float_position (p : StationPosition) : Prop :=
  valid_binary 53 1024 (sp_latitude p) = true ∧ valid_binary 53 1024 (sp_longitude p) = true.
Definition entry_ok (kind : StationReportKind) (e : StationReport * option StationPosition) : Prop :=
  id_ok e.1 ∧ report_kind e.1 = kind ∧ ∀ p, e.2 = Some p → float_position p.

Definition only_kind (kind : StationReportKind) (s : StationReports) : Prop := ∀ k r, srs_reports s !! k = Some r → k.2 = kind.
Lemma install_report_ok kind source d s e : directory_ok d → reports_ok s → only_kind kind s → entry_ok kind e →
  settled (λ x, directory_ok x.1 ∧ reports_ok x.2 ∧ only_kind kind x.2) (install_report kind source (d, s) e).
Proof.
  intros Hd Hs Hk (Hid & Ek & Hp). destruct e as [r position]. unfold install_report. apply settled_check. intros _.
  eapply (settled_bind _ _ directory_ok).
  { destruct position as [p|]; [|done]. destruct (match _ with Some _ => _ | None => _ end); [|done]. destruct (Hp p eq_refl) as [V1 V2].
    eapply settled_fmap; [by apply correct_ok|]. by intros [] [? _]. }
  intros d' Hd'. pose proof (ingest_batch_ok s [r] Hs ltac:(by repeat constructor)) as Hb. unfold reports_ingest.
  destruct (reports_ingest_batch [r] s) as [[s' b]|[]]; try done. destruct Hb as [Hs' Hn]. simpl. split_and!; [done|done|]. intros k x Hx. simpl in *.
  specialize (Hn k). rewrite Hx in Hn. destruct Hn as [Hin _]. apply elem_of_app in Hin as [Hin|Hin].
  - destruct (srs_reports s !! k) as [y|] eqn:Ey; simpl in Hin; [|set_solver]. by eapply Hk.
  - unfold of_key in Hin. apply list_elem_of_filter in Hin as [<- Hin]. apply list_elem_of_singleton in Hin as ->. done.
Qed.

Lemma clear_ok kind w : weather_ok w → weather_ok (clear_internet_product kind w)
  ∧ (∀ k, srs_reports (sw_internet (clear_internet_product kind w)) !! k = if decide (k.2 = kind) then None else srs_reports (sw_internet w) !! k)
  ∧ sw_directory (clear_internet_product kind w) = sw_directory w ∧ sw_receiver (clear_internet_product kind w) = sw_receiver w.
Proof.
  intros [Hd Hi Hr]. unfold clear_internet_product. set (ids := _ <$> _).
  assert (∀ l s, reports_ok s → reports_ok (foldl (λ s id, reports_remove id kind s) s l)
    ∧ ∀ k, srs_reports (foldl (λ s id, reports_remove id kind s) s l) !! k = if decide (k.2 = kind ∧ k.1 ∈ l) then None else srs_reports s !! k) as Hfold.
  { intros l. induction l as [|id l IH]; intros s Hs; simpl; [split; [done|]; intros k; rewrite decide_False by (intros [_ ?]; set_solver); done|].
    destruct (IH _ (remove_ok s id kind Hs)) as [Hok Hl]. split; [done|]. intros k. rewrite Hl.
    assert (srs_reports (reports_remove id kind s) !! k = if decide (k = (id, kind)) then None else srs_reports s !! k) as ->.
    { unfold reports_remove. destruct (srs_reports s !! (id, kind)) eqn:E; simpl; destruct (decide (k = (id, kind))) as [->|Hne]; try done.
      - by rewrite lookup_delete_eq.
      - by rewrite lookup_delete_ne. }
    destruct k as [i kd]; simpl. repeat case_decide; try done; set_solver. }
  destruct (Hfold ids (sw_internet w) Hi) as [Hok Hl]. split; [by split|]. split; [|done]. intros k. simpl. rewrite Hl. destruct (decide (k.2 = kind)) as [Ek|Ek].
  - destruct (srs_reports (sw_internet w) !! k) as [r|] eqn:E; [|by case_decide]. rewrite decide_True; [done|]. split; [done|]. unfold ids.
    apply list_elem_of_fmap. exists (k, r). split; [done|]. apply list_elem_of_In, filter_In. split; [|by apply bool_decide_eq_true].
    apply list_elem_of_In. rewrite reports_iter_perm. by apply elem_of_map_to_list.
  - rewrite decide_False; [done|]. tauto.
Qed.

Lemma sum_by_ext {A} (f g : A → Z) l : (∀ x, x ∈ l → f x = g x) → sum_by f l = sum_by g l.
Proof. induction l as [|x l IH]; intros Hf; simpl; [done|]. rewrite (Hf x), IH; [done| |by left]. intros y Hy. apply Hf. by right. Qed.
Lemma sum_map_disjoint f m m' : (∀ k r, m !! k = Some r → m' !! k = None) → sum_map f (m ∪ m') = sum_map f m + sum_map f m'.
Proof.
  intros Hd. rewrite sum_map_union. rewrite (Z.add_comm (sum_map f m)). f_equal. apply sum_by_ext. intros [k r] Hin%elem_of_map_to_list.
  unfold delta. simpl. rewrite (Hd k r Hin). simpl. lia.
Qed.
(** The text of the reports of other kinds. *)
Lemma retained_text kind s m' : map_Forall report_ok (srs_reports s) →
  (∀ k, m' !! k = if decide (k.2 = kind) then None else srs_reports s !! k) →
  foldr (λ r sum, len (rp_raw_text r) + sum) 0 (List.filter (λ r, negb (bool_decide (report_kind r = kind))) (reports_values s)) = sum_map text_of m'.
Proof.
  intros Hr Hm. unfold reports_values. set (keep := λ r : StationReport, negb (bool_decide (report_kind r = kind))).
  assert (∀ l : list (ReportKey * StationReport), foldr (λ r sum, len (rp_raw_text r) + sum) 0 (List.filter keep (snd <$> l))
    = sum_by text_of (List.filter (λ e, keep e.2) l)) as Hl.
  { intros l. induction l as [|e l IH]; [done|]. rewrite fmap_cons. simpl. destruct (keep e.2); simpl; by rewrite IH. }
  rewrite Hl. unfold sum_map. apply sum_by_perm. apply NoDup_Permutation.
  - eapply sublist_NoDup; [|apply list_filter_sublist]. rewrite reports_iter_perm. apply NoDup_map_to_list.
  - apply NoDup_map_to_list.
  - intros [k r]. rewrite list_elem_of_In, filter_In, <- list_elem_of_In, reports_iter_perm, !elem_of_map_to_list, Hm. unfold keep. simpl.
    rewrite negb_true_iff, bool_decide_eq_false. split.
    + intros [E Hk]. destruct (Hr k r E) as (Ek & _). rewrite decide_False; [done|]. by rewrite <- Ek.
    + destruct (decide (k.2 = kind)); [done|]. intros E. destruct (Hr k r E) as (Ek & _). split; [done|]. by rewrite <- Ek in *.
Qed.

Lemma install_product_ok kind source metadata reports w : weather_ok w → Forall (entry_ok kind) reports →
  settled weather_ok (install_product kind source metadata reports w).
Proof.
  intros Hw He. unfold install_product.
  eapply (settled_bind _ _ (λ x, directory_ok x.1 ∧ reports_ok x.2 ∧ only_kind kind x.2)).
  { apply settled_fold; [split_and!; [apply Hw|apply reports_default_ok|by intros k r; simpl; rewrite lookup_empty]|].
    intros [d s] e (Hd & Hs & Hk) Hin. rewrite Forall_forall in He. by apply install_report_ok; [..|apply He]. }
  intros [d s] (Hd & Hs & Hk). cbn [fst snd] in *. cbv beta iota zeta. apply settled_check. rewrite Z.gtb_ltb, Z.ltb_ge. intros Hlim.
  destruct (clear_ok kind w Hw) as ([Hd' Hi' Hr'] & Hl & _ & _). set (w1 := clear_internet_product kind w) in *. clearbody w1.
  rewrite (retained_text kind _ (srs_reports (sw_internet w1))) in Hlim; [|apply (ok_reports _ (wk_internet _ Hw))|done].
  set (internet := sw_internet w1) in *. assert (∀ k r, srs_reports s !! k = Some r → srs_reports internet !! k = None) as Hdis.
  { intros k r E. rewrite Hl, decide_True; [done|]. by eapply Hk. }
  split; simpl; [done| |done]. destruct Hs as [Sr St Sm Sl], Hi' as [Ir It Im Il]. split; simpl.
  - intros k r E. apply lookup_union_Some_raw in E as [E|[_ E]]; eauto.
  - rewrite sum_map_disjoint by done. lia.
  - rewrite sum_map_disjoint by done. lia.
  - lia.
Qed.

Lemma replace_report_ok acc r : reports_ok acc → id_ok r → settled reports_ok (replace_report acc r).
Proof. intros Ha Hr. unfold replace_report. apply settled_check. intros _. eapply settled_fmap; [by apply ingest_ok|done]. Qed.
Lemma replace_source_ok source reports w : weather_ok w → Forall id_ok reports → settled weather_ok (replace_source source reports w).
Proof.
  intros Hw Hr. unfold replace_source. eapply (settled_bind _ _ reports_ok).
  - apply settled_fold; [apply reports_default_ok|]. intros acc r Ha Hin. rewrite Forall_forall in Hr. by apply replace_report_ok; [|apply Hr].
  - intros s Hs. simpl. pose proof (with_source_ok source s w Hw Hs) as [? ? ?]. by destruct source.
Qed.

(** *** Everything that happens *)

Context (parse_from_rfc3339 : bytes → option DateTime) (parse_date : bytes → option NaiveDate).
Abbreviation metar_of_record := (metar_report parse_from_rfc3339 parse_date).
Abbreviation taf_of_record := (taf_report parse_from_rfc3339 parse_date).

Inductive weather_op :=
| WInstallCycle (catalog : WeatherStationCatalog) | WDiscover (id : bytes) (metadata : StationMetadata)
| WCorrect (id : bytes) (metadata : StationMetadata) | WIngest (source : WeatherSource) (reports : list StationReport)
| WReceive (kind : StationReportKind) (report : TextReport) (received_at : DateTime)
| WRemove (source : WeatherSource) (id : bytes) (kind : StationReportKind) | WClear (kind : StationReportKind)
| WMetars (payload : MetarProductPayload) (received_at : DateTime) | WTafs (payload : TafProductPayload) (received_at : DateTime)
| WReplace (source : WeatherSource) (reports : list StationReport).
Definition weather_step (op : weather_op) (w : StationWeather) : result fault StationWeather :=
  match op with
  | WInstallCycle catalog => (λ d, with_directory d w) <$> install_cycle catalog (sw_directory w)
  | WDiscover id metadata => (λ x : StationDirectory * bool, with_directory x.1 w) <$> discover id metadata (sw_directory w)
  | WCorrect id metadata => (λ x : StationDirectory * bool, with_directory x.1 w) <$> correct_location id metadata (sw_directory w)
  | WIngest source reports => fst <$> weather_ingest_batch source reports w
  | WReceive kind report received_at => r ← from_receiver kind report received_at; fst <$> weather_ingest ReceiverSource r w
  | WRemove source id kind => Ok (weather_remove source id kind w)
  | WClear kind => Ok (clear_internet_product kind w)
  | WMetars payload received_at => install_metars parse_from_rfc3339 parse_date payload received_at w
  | WTafs payload received_at => install_tafs parse_from_rfc3339 parse_date payload received_at w
  | WReplace source reports => replace_source source reports w
  end.
(** An error leaves the state. *)
Definition weather_run (ops : list weather_op) : StationWeather :=
  foldl (λ w op, match weather_step op w with Ok w' => w' | Err _ => w end) weather_default ops.

(** What the types of the arguments say: floats are floats, and ids were made by [StationId::new]. *)
Definition op_ok (op : weather_op) : Prop :=
  match op with
  | WInstallCycle catalog => catalog_ok catalog
  | WDiscover id m | WCorrect id m => station_new id = Ok id ∧ float_position (sm_position m)
  | WIngest _ reports | WReplace _ reports => Forall id_ok reports
  | WReceive _ _ _ | WRemove _ _ _ | WClear _ => True
  | WMetars payload _ =>
      Forall (λ e, float_position {| sp_latitude := mr_latitude e.2; sp_longitude := mr_longitude e.2 |}) (mp_metars_by_station payload)
  | WTafs payload _ =>
      Forall (λ e, float_position {| sp_latitude := tr_latitude e.2; sp_longitude := tr_longitude e.2 |}) (tp_tafs_by_station payload)
  end.

Lemma from_product_some latitude longitude p : from_product latitude longitude = Some p → p = {| sp_latitude := latitude; sp_longitude := longitude |}.
Proof. unfold from_product. case_match; by intros [= <-]. Qed.
Lemma metar_record_ok received_at e : float_position {| sp_latitude := mr_latitude e.2; sp_longitude := mr_longitude e.2 |} →
  settled (entry_ok MetarReport) (metar_of_record received_at e).
Proof.
  intros Hv. destruct e as [key record]. unfold metar_report. eapply settled_bind; [apply station_settled|intros station Hs].
  eapply settled_bind; [apply station_settled|intros station' _]. apply settled_check. intros _. split_and!; [done|done|].
  simpl. intros p Hp. by rewrite (from_product_some _ _ _ Hp).
Qed.
Lemma taf_record_ok received_at e : float_position {| sp_latitude := tr_latitude e.2; sp_longitude := tr_longitude e.2 |} →
  settled (entry_ok TafReport) (taf_of_record received_at e).
Proof.
  intros Hv. destruct e as [key record]. unfold taf_report. eapply settled_bind; [apply station_settled|intros station Hs].
  eapply settled_bind; [apply station_settled|intros station' _]. apply settled_check. intros _. split_and!; [done|done|].
  simpl. intros p Hp. by rewrite (from_product_some _ _ _ Hp).
Qed.
Lemma settled_map {A B} (f : A → result fault B) (P : B → Prop) l : (∀ x, x ∈ l → settled P (f x)) → settled (Forall P) (try_map f l).
Proof.
  induction l as [|x l IH]; intros Hf; simpl; [constructor|]. eapply settled_bind; [apply Hf; left|intros b Hb].
  eapply settled_bind; [apply IH; intros y Hy; apply Hf; by right|intros l' Hl']. by constructor.
Qed.
Lemma ingest_weather_ok source reports w : weather_ok w → Forall id_ok reports → settled weather_ok (fst <$> weather_ingest_batch source reports w).
Proof.
  intros Hw Hr. unfold weather_ingest_batch. pose proof (ingest_batch_ok (source_reports source w) reports (source_ok _ _ Hw) Hr) as Hb.
  destruct (reports_ingest_batch _ _) as [[s b]|[]]; try done. destruct Hb as [Hs _]. by apply with_source_ok.
Qed.
Lemma receive_id kind report received_at : settled id_ok (from_receiver kind report received_at).
Proof.
  unfold from_receiver. eapply settled_bind; [apply settled_or|intros text _]. eapply settled_bind; [apply station_settled|intros station Hs].
  destruct (report_header (tr_text report) kind) as [words revision]. apply settled_check. intros _.
  eapply settled_bind; [apply settled_or|intros word _]. eapply (settled_bind _ _ (λ _, True)).
  { unfold parse_report_time. repeat (eapply settled_bind; [apply settled_or|intros ? _]). done. }
  intros partial _. eapply settled_bind; [apply settled_or|intros time _]. cbv zeta. unfold report_validate. apply settled_check. by intros _.
Qed.

Lemma weather_step_ok op w : weather_ok w → op_ok op →
  settled_unless (u64_max ≤ dir_revision (sw_directory w)) weather_ok (weather_step op w).
Proof.
  intros Hw Ho. assert (∀ d, directory_ok d → weather_ok (with_directory d w)) as Hdir by (by intros d Hd; destruct Hw; split).
  destruct op as [catalog|id m|id m|source reports|kind report at_|source id kind|kind|payload at_|payload at_|source reports]; cbn [weather_step op_ok] in *;
    [eapply unless_fmap; [by apply install_cycle_ok; [apply Hw|..]|done]|apply settled_anyway..].
  - destruct Ho as [Hid [V1 V2]]. eapply settled_fmap; [by apply discover_ok; [apply Hw|..]|]. intros []. apply Hdir.
  - destruct Ho as [Hid [V1 V2]]. eapply settled_fmap; [by apply correct_ok; [apply Hw|..]|]. intros [] [Hd _]. by apply Hdir.
  - by apply ingest_weather_ok.
  - eapply settled_bind; [apply receive_id|]. intros r Hr. apply ingest_weather_ok; [done|]. by repeat constructor.
  - apply with_source_ok; [done|]. by apply remove_ok, source_ok.
  - by apply clear_ok.
  - unfold install_metars. eapply settled_bind; [apply settled_map; intros e He; apply metar_record_ok; rewrite Forall_forall in Ho; by apply Ho|].
    intros reports Hr. by apply install_product_ok.
  - unfold install_tafs. eapply settled_bind; [apply settled_map; intros e He; apply taf_record_ok; rewrite Forall_forall in Ho; by apply Ho|].
    intros reports Hr. by apply install_product_ok.
  - by apply replace_source_ok.
Qed.

Lemma weather_run_ok ops : Forall op_ok ops → weather_ok (weather_run ops).
Proof.
  induction ops as [|op ops IH] using rev_ind; intros Ho; [apply weather_default_ok|]. apply Forall_app in Ho as [Ho Hop]. rewrite Forall_singleton in Hop.
  unfold weather_run. rewrite foldl_app. simpl. fold (weather_run ops). pose proof (weather_step_ok op _ (IH Ho) Hop) as Hs.
  destruct (weather_step op (weather_run ops)) as [w'|]; [done|by apply IH].
Qed.

(** C20: whatever was installed, learned, received and removed: a query of the directory answers
    with exactly the stations within its bounds, in order and each once, also across the
    antimeridian; it is refused only when the bounds are not valid; and nothing it indexes is
    missing. *)
Theorem stations_found (ops : list weather_op) (south west north east : f64) :
  Forall op_ok ops → Forall (λ x, valid_binary 53 1024 x = true) [south; west; north; east] →
  bounds_answer (sw_directory (weather_run ops)) south west north east (in_bounds south west north east (sw_directory (weather_run ops))).
Proof. intros Ho Hv. apply in_bounds_exact; [by apply weather_run_ok|done]. Qed.

(** C28: whatever happens, every report is filed under its own station and kind and was
    validated, the sizes kept beside the reports are exact and within the limit of a source,
    and no operation panics before the counter of directory revisions is at its maximum. *)
Theorem weather_sound (ops : list weather_op) (op : weather_op) (source : WeatherSource) : Forall op_ok ops → op_ok op →
  let w := weather_run ops in
  let s := source_reports source w in
  map_Forall report_ok (srs_reports s) ∧ srs_text_bytes s = sum_map text_of (srs_reports s) ∧ srs_text_bytes s ≤ MAX_SOURCE_TEXT_BYTES
  ∧ srs_metar_count s = sum_map metar_of (srs_reports s)
  ∧ settled_unless (u64_max ≤ dir_revision (sw_directory w)) weather_ok (weather_step op w).
Proof.
  intros Hops Hop w s. pose proof (weather_run_ok ops Hops) as Hw. destruct (source_ok source w Hw) as [? ? ? ?]. split_and!; try done. by apply weather_step_ok.
Qed.

(** *** Snapshots *)

Definition stored_ok (e : bytes * StationMetadata) : Prop := station_new e.1 = Ok e.1 ∧ position_ok (sm_position e.2).
(** serde_json reads back what it wrote, floats included (feature [float_roundtrip]), when the
    ids pass the check made on reading and the floats are finite. *)
Class WeatherJsonLaws `{!WeatherJson} : Prop := {
  snapshot_read s b : Forall stored_ok (sn_stations s) → Forall id_ok (sn_internet s) → Forall id_ok (sn_receiver s) →
    snapshot_to_vec s = Some b → snapshot_from_slice b = Some s;
  document_read s b : Forall stored_ok (dd_stations s) → document_to_vec s = Some b → document_from_slice b = Some s }.

Lemma restore_stations message l : NoDup l.*1 → Forall stored_ok l → len l ≤ MAX_STATIONS →
  ∃ d, try_fold (restore_station message) directory_default l = Ok d ∧ directory_ok d ∧ dir_stations d = list_to_map l.
Proof.
  induction l as [|[id m] l IH] using rev_ind; intros Hnd Hok Hlen.
  { exists directory_default. by split_and!; [|apply directory_default_ok|]. }
  rewrite fmap_app in Hnd. apply NoDup_app in Hnd as (Hnd & Hnew & _). apply Forall_app in Hok as [Hok Hm]. apply Forall_singleton in Hm as [Hid Hp].
  unfold len in *. rewrite length_app in Hlen. simpl in *. destruct IH as (d & E & Hd & Es); [done|done|lia|].
  assert (id ∉ l.*1) as Hnew' by (intros Hin; apply (Hnew id Hin); by left).
  assert (dir_stations d !! id = None) as En by (rewrite Es; by apply not_elem_of_list_to_map_1).
  rewrite try_fold_app, E. simpl. unfold restore_station, discover, position_validate. simpl. rewrite En. destruct Hp as (V1 & V2 & W1 & W2).
  rewrite bool_decide_eq_true_2 by done. rewrite W1, W2. simpl. pose proof (replace_ok id m d Hd ltac:(done) Hid) as Hr.
  unfold directory_replace in *. rewrite En in *.
  assert (MAX_STATIONS <=? Z.of_nat (size (dir_stations d)) = false) as Hs.
  { apply Z.leb_gt. rewrite Es. rewrite map_size_list_to_map by done. lia. }
  rewrite Hs in *. simpl in *. eexists. split_and!; [done|by apply Hr|]. simpl. rewrite Es. by rewrite list_to_map_snoc.
Qed.
Lemma spatial_determined d d' : directory_ok d → directory_ok d' → dir_stations d = dir_stations d' → dir_spatial d = dir_spatial d'.
Proof.
  intros [_ _ Kc Kf _] [_ _ Kc' Kf' _] Es. apply map_eq. intros c. specialize (Kf c). specialize (Kf' c).
  assert (cell_ids d c = cell_ids d' c) as E by (apply set_eq; intros id; by rewrite Kc, Kc', Es).
  unfold cell_ids in E. destruct (dir_spatial d !! c), (dir_spatial d' !! c); simpl in *; congruence.
Qed.

Lemma reports_iter_one k r : reports_iter {[k := r]} = [(k, r)].
Proof. apply Permutation_singleton_r. rewrite reports_iter_perm. by rewrite map_to_list_singleton. Qed.
Lemma ingest_fresh r s : reports_ok s → report_ok (report_key r) r → srs_reports s !! report_key r = None →
  Z.of_nat (size (srs_reports s)) < 2 * MAX_STATIONS → srs_text_bytes s + len (rp_raw_text r) ≤ MAX_SOURCE_TEXT_BYTES →
  ∃ s', replace_report s r = Ok s' ∧ reports_ok s' ∧ srs_reports s' = <[report_key r := r]> (srs_reports s).
Proof.
  intros Hs (_ & Hv & Hid) En Hsize Htext. pose proof (replace_report_ok s r Hs Hid) as Hr. unfold replace_report, reports_ingest, reports_ingest_batch, prepare_batch in *.
  simpl in *. unfold batch_add in *. rewrite Hv, En, lookup_empty in *. simpl in *. rewrite insert_empty, reports_iter_one in *. simpl in *. rewrite En in *.
  rewrite Z.gtb_ltb in *. rewrite (proj2 (Z.ltb_ge _ _)) in * by lia. simpl in *. rewrite Z.gtb_ltb in *. rewrite (proj2 (Z.ltb_ge _ _)) in * by lia.
  simpl in *. eexists. split_and!; [done|done|]. simpl. by rewrite insert_union_singleton_l.
Qed.
Lemma restore_reports l : NoDup l.*1 → Forall (λ e, report_ok e.1 e.2) l → len l ≤ 2 * MAX_STATIONS → sum_by text_of l ≤ MAX_SOURCE_TEXT_BYTES →
  ∃ s, try_fold replace_report reports_default l.*2 = Ok s ∧ reports_ok s ∧ srs_reports s = list_to_map l.
Proof.
  induction l as [|[k r] l IH] using rev_ind; intros Hnd Hok Hlen Htext.
  { exists reports_default. by split_and!; [|apply reports_default_ok|]. }
  rewrite (fmap_app fst) in Hnd. rewrite (fmap_app snd). apply NoDup_app in Hnd as (Hnd & Hnew & _). apply Forall_app in Hok as [Hok Hr]. apply Forall_cons_1 in Hr as [Hr _]. simpl in Hr.
  unfold len in Hlen. rewrite length_app in Hlen. rewrite sum_by_app in Htext. simpl in *. unfold text_of at 2 in Htext. simpl in Htext.
  pose proof (len_nonneg (rp_raw_text r)). destruct IH as (s & E & Hs & Es); [done|done|unfold len; lia|lia|].
  assert (k ∉ l.*1) as Hnew' by (intros Hin; apply (Hnew k Hin); by left). pose proof Hr as (<- & _ & _).
  destruct (ingest_fresh r s) as (s' & E' & Hs' & Es').
  - done.
  - done.
  - rewrite Es. by apply not_elem_of_list_to_map_1.
  - rewrite Es, map_size_list_to_map by done. lia.
  - rewrite (ok_text s Hs), Es. unfold sum_map. rewrite map_to_list_to_map by done. lia.
  - exists s'. rewrite try_fold_app, E. simpl. rewrite E'. split_and!; [done|done|]. rewrite Es', Es. by rewrite list_to_map_snoc.
Qed.
Lemma reports_determined s s' : reports_ok s → reports_ok s' → srs_reports s = srs_reports s' → s = s'.
Proof. intros [_ T M _] [_ T' M' _] E. destruct s, s'; simpl in *. by subst. Qed.
Lemma restore_source s : reports_ok s → Z.of_nat (size (srs_reports s)) ≤ 2 * MAX_STATIONS → try_fold replace_report reports_default (reports_values s) = Ok s.
Proof.
  intros Hs Hsize. pose proof (reports_iter_perm (srs_reports s)) as Hp. destruct (restore_reports (reports_iter (srs_reports s))) as (s' & E & Hs' & Es).
  - rewrite Hp. apply NoDup_fst_map_to_list.
  - rewrite Hp. apply Forall_forall. intros [k r] Hin%elem_of_map_to_list. by apply (ok_reports s Hs).
  - unfold len. by rewrite Hp, length_map_to_list.
  - rewrite Hp. destruct Hs as [_ T _ L]. unfold sum_map in T. lia.
  - unfold reports_values. rewrite E. f_equal. apply reports_determined; [done|done|]. rewrite Es. rewrite <- (list_to_map_to_list (srs_reports s)) at 2.
    apply list_to_map_proper; [|done]. rewrite Hp. apply NoDup_fst_map_to_list.
Qed.
(** A source at its limit takes no further station's report, so one report more than the limit
    cannot be restored. *)
Lemma ingest_full r s : report_ok (report_key r) r → srs_reports s !! report_key r = None →
  Z.of_nat (size (srs_reports s)) = 2 * MAX_STATIONS → ∃ e, replace_report s r = Err e.
Proof.
  intros (_ & Hv & Hid) En Hsize. unfold replace_report, reports_ingest, reports_ingest_batch, prepare_batch.
  simpl. unfold batch_add. rewrite Hv, En, lookup_empty. simpl. rewrite insert_empty, reports_iter_one. simpl. rewrite En.
  rewrite Hsize. rewrite (proj2 (Z.gtb_lt (2 * MAX_STATIONS + 1) _)) by lia. simpl. by eexists.
Qed.
Lemma restore_refused s : reports_ok s → 2 * MAX_STATIONS < Z.of_nat (size (srs_reports s)) →
  ∃ e, try_fold replace_report reports_default (reports_values s) = Err e.
Proof.
  intros Hs Hsize. pose proof (reports_iter_perm (srs_reports s)) as Hp. unfold reports_values.
  set (n := Z.to_nat (2 * MAX_STATIONS)). assert (Z.of_nat n = 2 * MAX_STATIONS) as Hn
    by (apply Z2Nat.id; unfold MAX_STATIONS; lia).
  clearbody n. assert (NoDup (reports_iter (srs_reports s)).*1) as Hnd by (rewrite Hp; apply NoDup_fst_map_to_list).
  assert (Forall (λ e, report_ok e.1 e.2) (reports_iter (srs_reports s))) as Hok.
  { rewrite Hp. apply Forall_forall. intros [k r] Hin%elem_of_map_to_list. by apply (ok_reports s Hs). }
  assert (sum_by text_of (reports_iter (srs_reports s)) ≤ MAX_SOURCE_TEXT_BYTES) as Htext.
  { rewrite Hp. destruct Hs as [_ T _ L]. unfold sum_map in T. lia. }
  assert (length (reports_iter (srs_reports s)) = size (srs_reports s)) as Hlen by by rewrite Hp, length_map_to_list.
  rewrite <- (take_drop n (reports_iter (srs_reports s))) in Hnd, Hok, Htext |- *.
  pose proof (length_take (reports_iter (srs_reports s)) n) as Ht. pose proof (length_drop (reports_iter (srs_reports s)) n) as Hd.
  destruct (drop n _) as [|[k r] rest]; [simpl in Hd; lia|]. set (l := take n _) in *.
  rewrite (fmap_app fst) in Hnd. rewrite (fmap_app snd). apply NoDup_app in Hnd as (Hnd & Hnew & _).
  apply Forall_app in Hok as [Hok Hr]. apply Forall_cons_1 in Hr as [Hr _]. simpl in Hr.
  assert (0 ≤ sum_by text_of ((k, r) :: rest)) as Hrest.
  { clear. generalize ((k, r) :: rest) as q. induction q as [|x q IH]; simpl; [done|]. pose proof (len_nonneg (rp_raw_text x.2)). unfold text_of at 1. lia. }
  rewrite sum_by_app in Htext. destruct (restore_reports l) as (s1 & E & Hs1 & Es); [done|done|unfold len; lia|lia|].
  assert (k ∉ l.*1) as Hnew' by (intros Hin; apply (Hnew k Hin); by left). pose proof Hr as (<- & _ & _).
  rewrite try_fold_app, E. simpl. destruct (ingest_full r s1) as [e ->]; [done|rewrite Es; by apply not_elem_of_list_to_map_1| |by exists e].
  rewrite Es, map_size_list_to_map by done. lia.
Qed.

Section json.
Context `{!WeatherJson, !WeatherJsonLaws}.

Lemma stations_stored d : directory_ok d → Forall stored_ok (map_iter (dir_stations d)).
Proof.
  intros Hd. apply Forall_forall. intros [id m] Hin. rewrite map_iter_Permutation in Hin. apply elem_of_map_to_list in Hin.
  split; [by eapply (dk_id d Hd)|by eapply (dk_position d Hd)].
Qed.
Lemma values_ids s : reports_ok s → Forall id_ok (reports_values s).
Proof.
  intros Hs. unfold reports_values. rewrite reports_iter_perm. apply Forall_fmap, Forall_forall. intros [k r] Hin%elem_of_map_to_list.
  by apply (ok_reports s Hs) in Hin as (_ & _ & ?).
Qed.
Lemma directory_restored message d : directory_ok d →
  ∃ d', try_fold (restore_station message) directory_default (map_iter (dir_stations d)) = Ok d'
    ∧ directory_ok d' ∧ dir_stations d' = dir_stations d ∧ dir_spatial d' = dir_spatial d.
Proof.
  intros Hd. pose proof (map_iter_Permutation (dir_stations d)) as Hp. destruct (restore_stations message (map_iter (dir_stations d))) as (d' & E & Hd' & Es).
  - apply map_iter_NoDup.
  - by apply stations_stored.
  - unfold len. rewrite Hp, length_map_to_list. apply Hd.
  - assert (dir_stations d' = dir_stations d) as Es'.
    { rewrite Es. rewrite <- (list_to_map_to_list (dir_stations d)) at 2. apply list_to_map_proper; [apply map_iter_NoDup|done]. }
    exists d'. split_and!; try done. by apply spatial_determined.
Qed.

(** C27: whatever was installed, learned, received and removed: when neither source holds more
    than twice the station limit of reports, a snapshot that was written is restored to the
    same stations, found by the same grid, the same reports and sizes of both sources and the
    same products; when a source holds more, what was written is refused; and a directory
    document is decoded to the same directory. *)
Theorem weather_restores (ops : list weather_op) : Forall op_ok ops →
  let w := weather_run ops in
  (∀ b, snapshot w = Ok b →
     ((∀ source, Z.of_nat (size (srs_reports (source_reports source w))) ≤ 2 * MAX_STATIONS) →
        ∃ d, restore b = Ok (with_directory d w) ∧ dir_stations d = dir_stations (sw_directory w) ∧ dir_spatial d = dir_spatial (sw_directory w))
     ∧ (∀ source, 2 * MAX_STATIONS < Z.of_nat (size (srs_reports (source_reports source w))) → ∃ e, restore b = Err e))
  ∧ (∀ b, encode_document (sw_directory w) = Ok b →
     ∃ d, decode_document b = Ok d ∧ dir_stations d = dir_stations (sw_directory w) ∧ dir_spatial d = dir_spatial (sw_directory w)).
Proof.
  intros Hops w. pose proof (weather_run_ok ops Hops) as Hw. fold w in Hw. destruct Hw as [Hd Hi Hr]. split; intros b.
  - unfold snapshot. destruct (snapshot_to_vec _) as [b'|] eqn:E; [|done]. simpl. unfold guard_err at 1. destruct (len b' >? _) eqn:Hlen; [done|].
    intros [= <-]. unfold restore. rewrite Hlen. simpl.
    rewrite (λ A B C, snapshot_read _ _ A B C E) by (by apply stations_stored || by apply values_ids). simpl. destruct (directory_restored "duplicate station in weather cache" _ Hd) as (d & -> & Hd' & Es & Ec). simpl.
    unfold replace_source. split.
    + intros Hsize. rewrite (restore_source _ Hi (Hsize Internet)). simpl. rewrite (restore_source _ Hr (Hsize ReceiverSource)). simpl. by exists d.
    + intros source Hgt. destruct (Z.le_gt_cases (Z.of_nat (size (srs_reports (source_reports Internet w)))) (2 * MAX_STATIONS)) as [Hle|Hgt'].
      * rewrite (restore_source _ Hi Hle). simpl. destruct source; [lia|]. destruct (restore_refused _ Hr Hgt) as [e ->]. by exists e.
      * destruct (restore_refused _ Hi Hgt') as [e ->]. by exists e.
  - unfold encode_document. destruct (document_to_vec _) as [b'|] eqn:E; [|done]. simpl. unfold guard_err at 1. destruct (len b' >? _) eqn:Hlen; [done|].
    intros [= <-]. unfold decode_document. rewrite Hlen. simpl. rewrite (λ A, document_read _ _ A E) by (by apply stations_stored). simpl.
    assert (len (map_iter (dir_stations (sw_directory w))) >? MAX_STATIONS = false) as ->.
    { unfold len. rewrite map_iter_Permutation, length_map_to_list, Z.gtb_ltb, Z.ltb_ge. apply Hd. }
    simpl. destruct (directory_restored "duplicate station in directory document" _ Hd) as (d & -> & Hd' & Es & Ec). by exists d.
Qed.
End json.
End reports.

(** ** Examples *)

Example metar_vfr : metar (bs "KBOS 121754Z 18005KT 10SM FEW020 SCT250 22/14 A2992 RMK BKN005") = {| ob_cloud_symbol := Some (bs "FEW"); ob_flight_category := Some Vfr |}.
Proof. by vm_compute. Qed.
Example metar_fraction : metar (bs "KBOS 121754Z 18005KT 1 1/2SM BR OVC008=") = {| ob_cloud_symbol := Some (bs "OVC"); ob_flight_category := Some Ifr |}.
Proof. by vm_compute. Qed.
Example metar_unknown : metar (bs "KBOS 121754Z 18005KT OVC///") = {| ob_cloud_symbol := Some (bs "OVC"); ob_flight_category := None |}.
Proof. by vm_compute. Qed.

#[local] Existing Instance toy_chrono.
#[local] Instance toy_order : ChronoOrder.
Proof. split; simpl; lia. Qed.

(** A codec that numbers the snapshots. *)
#[local] Instance float_eq_dec : EqDecision f64.
Proof. solve_decision. Defined.
#[local] Instance float_countable : Countable f64.
Proof.
  refine (inj_countable' (λ x, match x with
                               | S754_zero s => inl (inl s) | S754_infinity s => inl (inr s)
                               | S754_nan => inr (inl tt) | S754_finite s m e => inr (inr (s, m, e)) end)
    (λ y, match y with
          | inl (inl s) => S754_zero s | inl (inr s) => S754_infinity s
          | inr (inl _) => S754_nan | inr (inr (s, m, e)) => S754_finite s m e end) _).
  by intros [].
Defined.
#[local] Instance metadata_eq_dec : EqDecision StationMetadata.
Proof. unfold EqDecision, Decision. decide equality; [solve_decision|]. decide equality; solve_decision. Defined.
#[local] Instance metadata_countable : Countable StationMetadata.
Proof.
  refine (inj_countable (λ m, (sp_latitude (sm_position m), sp_longitude (sm_position m), Z.to_N (source_rank (sm_source m))))
    (λ '(latitude, longitude, source), Some {| sm_position := {| sp_latitude := latitude; sp_longitude := longitude |};
       sm_source := match source with 0 => CycleStationCatalog | 1 => FromInternet | 2 => FromInternetTaf | _ => FromReceiver end%N |}) _).
  by intros [[] []].
Defined.
#[local] Instance time_eq_dec : EqDecision DateTime := Z.eq_dec.
#[local] Instance time_countable : Countable DateTime := Z_countable.
#[local] Instance revision_eq_dec : EqDecision ReportRevision.
Proof. solve_decision. Defined.
#[local] Instance details_eq_dec : EqDecision StationReportDetails.
Proof. solve_decision. Defined.
#[local] Instance report_eq_dec : EqDecision StationReport.
Proof. solve_decision. Defined.
#[local] Instance report_countable : Countable StationReport.
Proof.
  refine (inj_countable (λ r,
      (rp_station r, match rp_details r with DetailsMetar c s => Some (c, s) | DetailsTaf => None end, rp_raw_text r,
       (rp_report_time r, rp_received_at r, Z.to_N (revision_rank (rp_revision r)))))
    (λ '(station, details, text, (reported, received, revision)), Some
      {| rp_station := station; rp_details := match details with Some (c, s) => DetailsMetar c s | None => DetailsTaf end;
         rp_raw_text := text; rp_report_time := reported; rp_received_at := received;
         rp_revision := match revision with 0 => Original | 1 => Amended | _ => Corrected end%N |}) _).
  by intros [? [] ? ? ? []].
Defined.
#[local] Instance product_eq_dec : EqDecision WeatherProductMetadata.
Proof. solve_decision. Defined.
#[local] Instance product_countable : Countable WeatherProductMetadata.
Proof. by refine (inj_countable' (λ p, (wp_version_label p, wp_generated_at_utc p)) (λ p, {| wp_version_label := p.1; wp_generated_at_utc := p.2 |}) _); intros []. Defined.
#[local] Instance snapshot_eq_dec : EqDecision Snapshot.
Proof. solve_decision. Defined.
#[local] Instance snapshot_countable : Countable Snapshot.
Proof.
  by refine (inj_countable' (λ s, (sn_schema_version s, sn_stations s, sn_internet s, sn_receiver s, sn_internet_products s))
    (λ '(version, stations, internet, receiver_, products), {| sn_schema_version := version; sn_stations := stations;
       sn_internet := internet; sn_receiver := receiver_; sn_internet_products := products |}) _); intros [].
Defined.
#[local] Instance document_eq_dec : EqDecision DirectoryDocument.
Proof. solve_decision. Defined.
#[local] Instance document_countable : Countable DirectoryDocument.
Proof. by refine (inj_countable' (λ s, (dd_schema_version s, dd_stations s)) (λ s, {| dd_schema_version := s.1; dd_stations := s.2 |}) _); intros []. Defined.

Fixpoint pos_bits (p : positive) : bytes := match p with xH => [] | xO p => x30 :: pos_bits p | xI p => x31 :: pos_bits p end.
Fixpoint bits_pos (b : bytes) : positive := match b with [] => xH | x :: b => if bool_decide (x = x30) then xO (bits_pos b) else xI (bits_pos b) end.
Lemma bits_pos_bits p : bits_pos (pos_bits p) = p.
Proof. induction p as [p IH|p IH|]; simpl; [by rewrite IH|by rewrite IH|done]. Qed.
#[local] Instance numbered_json : WeatherJson :=
  {| snapshot_to_vec := λ s, Some (pos_bits (encode s)); snapshot_from_slice := λ b, decode (bits_pos b);
     document_to_vec := λ s, Some (pos_bits (encode s)); document_from_slice := λ b, decode (bits_pos b) |}.
#[local] Instance numbered_laws : WeatherJsonLaws.
Proof. split; intros s b; intros; simplify_eq/=; rewrite bits_pos_bits; apply decode_encode. Qed.

Definition degrees (latitude longitude : Z) : StationPosition := {| sp_latitude := f64_lit latitude 0; sp_longitude := f64_lit longitude 0 |}.
Definition sample_report (station text : bytes) (time : Z) : StationReport :=
  {| rp_station := station; rp_details := from_raw MetarReport text; rp_raw_text := text; rp_report_time := Some time; rp_received_at := 900;
     rp_revision := report_revision text MetarReport |}.
Definition feed_report : StationReport := sample_report (bs "NZAA") (bs "METAR NZAA 121730Z 18005KT 9999 BKN008") 500.
Definition radio_report : StationReport := sample_report (bs "NZAA") (bs "METAR NZAA 121800Z 18005KT CAVOK") 600.
Definition sample_ops : list weather_op :=
  [WInstallCycle {| wsc_schema_version := 1; wsc_stations := {[bs "KBOS" := degrees 42 (-71); bs "NZAA" := degrees (-37) 175]} |};
   WDiscover (bs "NFFN") {| sm_position := degrees (-18) 177; sm_source := FromReceiver |};
   WIngest Internet [feed_report]; WIngest ReceiverSource [radio_report]].
Definition no_time (value : bytes) : option DateTime := None.
Definition no_date (value : bytes) : option NaiveDate := None.
Lemma sample_ops_ok : Forall op_ok sample_ops.
Proof.
  assert (catalog_ok {| wsc_schema_version := 1; wsc_stations := {[bs "KBOS" := degrees 42 (-71); bs "NZAA" := degrees (-37) 175]} |}).
  { intros id p. simpl. rewrite lookup_insert_Some, lookup_singleton_Some. intros [[_ <-]|[_ [_ <-]]]; by vm_compute. }
  unfold sample_ops. rewrite !Forall_cons. cbn [op_ok]. rewrite !Forall_cons. split_and!; try done; try apply Forall_nil_2; by vm_compute.
Qed.

Lemma weather_newest_witness :
  let events := [(Internet, [feed_report]); (ReceiverSource, [radio_report])] in
  ∃ w, ingest_all events weather_default = Ok w
    ∧ query_answer (received Internet (bs "NZAA", MetarReport) events) (received ReceiverSource (bs "NZAA", MetarReport) events)
        (select (bs "NZAA") MetarReport w)
    ∧ select (bs "NZAA") MetarReport w = Some (ReceiverSource, radio_report, false).
Proof.
  intros events.
  assert (match ingest_all events weather_default with Ok w => select (bs "NZAA") MetarReport w | Err _ => None end
          = Some (ReceiverSource, radio_report, false)) as Hs by (refine (bool_decide_eq_true_1 _ _); vm_compute; reflexivity).
  assert (Forall (λ e, Forall id_ok e.2) events) as Hids by (repeat constructor).
  destruct (ingest_all events weather_default) as [w|] eqn:E; [|discriminate Hs]. exists w. split; [reflexivity|]. split; [|exact Hs].
  exact (proj1 (weather_newest events w (bs "NZAA") MetarReport Hids E)).
Defined.

Lemma stations_found_witness :
  let d := sw_directory (weather_run no_time no_date sample_ops) in
  bounds_answer d (f64_lit (-40) 0) (f64_lit 170 0) (f64_lit (-10) 0) (f64_lit (-70) 0)
    (in_bounds (f64_lit (-40) 0) (f64_lit 170 0) (f64_lit (-10) 0) (f64_lit (-70) 0) d)
  ∧ in_bounds (f64_lit (-40) 0) (f64_lit 170 0) (f64_lit (-10) 0) (f64_lit (-70) 0) d = Ok [bs "NFFN"; bs "NZAA"].
Proof.
  split.
  - apply (stations_found no_time no_date sample_ops); [apply sample_ops_ok|repeat constructor].
  - vm_compute. reflexivity.
Defined.

Lemma weather_sound_witness :
  let w := weather_run no_time no_date sample_ops in
  srs_text_bytes (source_reports Internet w) = sum_map text_of (srs_reports (source_reports Internet w)) ∧ srs_text_bytes (source_reports Internet w) = 38.
Proof.
  split.
  - apply (weather_sound no_time no_date sample_ops (WClear TafReport) Internet); [apply sample_ops_ok|exact I].
  - vm_compute. reflexivity.
Defined.

Lemma weather_restores_witness :
  let w := weather_run no_time no_date sample_ops in
  ∃ b d, snapshot w = Ok b ∧ restore b = Ok (with_directory d w) ∧ dir_stations d = dir_stations (sw_directory w).
Proof.
  intros w. assert (match snapshot w with Ok _ => true | Err _ => false end = true) as Hs by (vm_compute; reflexivity).
  assert (∀ source, Z.of_nat (size (srs_reports (source_reports source w))) ≤ 2 * MAX_STATIONS) as Hl by (intros []; vm_compute; discriminate).
  destruct (snapshot w) as [b|] eqn:E; [|discriminate Hs].
  destruct (proj1 (proj1 (weather_restores no_time no_date sample_ops sample_ops_ok) b E) Hl) as (d & Hd & Hst & _).
  exists b, d. split; [reflexivity|]. split; [exact Hd|exact Hst].
Defined.
